(* ===== verification/_CoqProject ===== *)
-Q . S2P
Prelude.v
RustStr.v
Net.v
NetFacts.v
Types.v
Control.v
Policy.v
PolicyFacts.v
Network.v
Cidr.v
NetworkFacts.v
FileAccess.v
Globs.v
FileAccessFacts.v
Session.v
AgentCtl.v
AgentCtlFacts.v
Bandwidth.v
Headers.v
Execution.v
Operation.v
Observation.v
Causality.v
Journal.v
JournalFacts.v
JournalCodec.v
Bytes.v
Bus.v
VirtQueue.v
FlatMemory.v
VirtQueueFacts.v
Virtio.v
Mmio.v
Rng.v
MmioFacts.v
RngFacts.v
I8042.v
Serial.v
Rtc.v
IoApic.v
Json.v
Dialogue.v
DialogueText.v
JsonTree.v
DialogueFacts.v
Redact.v
PrefixJson.v
RedactFacts.v
Story.v
StoryFacts.v
StoryRecovery.v
StoryCodec.v
HostFs.v
HostFsFacts.v
Overlay.v
OverlayView.v
OverlayQuiet.v
OverlayCopy.v
OverlayCopyUp.v
OverlayCreate.v
OverlayRemove.v
OverlayList.v
OverlayFootprint.v
OverlayRename.v
OverlayExchange.v
OverlayLink.v
OverlayHealth.v
OverlayJournal.v
OverlayDepth.v
OverlayAccess.v
OverlayTheorems.v
PreimageLog.v
PreimageLogFacts.v
PreimageLogTheorems.v
ApplyPlan.v
ApplyPlanFacts.v
ApplyTheorems.v
ApplyLedger.v
ApplyLedgerFacts.v
ApplyLedgerTheorems.v
