(* ===== verification/Prelude.v ===== *)
(** * pVisor: policies, coordination, traces, devices, stories, the overlay and its applies

    A verification library for the deciding and record-keeping core of pVisor, a
    sandbox for software agents. The repository runs an agent inside an executor
    (a native process, a container or a virtual machine), filters its network
    and file accesses, shows it a writable view over read-only trees, coordinates
    checkpoints with the clients of a run, records the dialogue with its models,
    and keeps a durable trace of what happened. The parts modelled here:

    - the _network policy_ ([crates/pvisor-core/src/policy.rs], [network.rs],
      [gateway.rs]): rules are parsed and compiled to a guard, layered by scope,
      and every egress request is decided by it before a controller is asked;
    - the _file policy_ ([file_access.rs], [audit.rs]): glob rules by action,
      layers, the questions put to the audit channel while a session runs;
    - the _session_ ([session.rs]) that layers both kinds of policies by scope;
    - _AgentCtl_ ([crates/pvisor/src/runtime/agentctl.rs] with the messages of
      [protocol.rs]): sessions of clients and the quiesce protocol that a live
      checkpoint needs;
    - the _bandwidth limits_ and _header filters_ of the proxy
      ([crates/pvisor-overlaynet/src/bandwidth.rs], [headers.rs]), which apply
      what the network policy decided;
    - the _contracts_ of runs ([execution.rs], [operation.rs], [event.rs],
      [memory.rs], [cpu.rs]): enforcement evidence, plans and observations,
      trace events, resource samples;
    - the _trace journal_ ([crates/pvisor-journal/src/journal.rs]), which
      validates those events, appends them to memory or to a file, and recovers
      the file after a failed write;
    - the _devices_ of the virtual machine ([crates/pvisor-vm/src/devices]): the
      bus, the virtio queues, the MMIO transport that a driver negotiates over,
      the entropy device behind it, and the legacy keyboard controller, serial
      port, clock and interrupt controller;
    - the _gateway_ ([crates/pvisor-gateway/src]): the extraction of a dialogue
      from the streams of three protocols, the redaction of what is recorded, and
      the owners of stories, who number turns, commit records to the journal and
      are rebuilt from it;
    - the _overlay_ ([crates/pvisor-overlay-core/src/core.rs]): lookup, listing,
      copy-up and every change of the merged view, with whiteouts, opaque
      directories, groups of hard links and the journal of first observations.
      It asks the file policy what may be seen;
    - the _compact journal_ of the overlay's first observations
      ([crates/pvisor-overlay-core/src/preimage_log.rs]): frames appended to one
      file, replayed when it is opened, read by processes that lag behind;
    - _applies_ ([crates/pvisor-overlay-core/src/apply.rs]): which changes an
      upper holds, which of them an apply to the target takes along, what they
      would touch and whether the target still is as first observed; and the
      ledger that carries an apply over crashes.

    ** Files

    - [Prelude]: results and their monad, machine integers, sorting, shared
      lemmas and the hint database [pvisor]. [RustStr]: the string methods the
      sources call, on UTF-8 bytes. [Net], [NetFacts]: IP addresses of the
      standard library, their parser and printer, and their properties.
    - [Types]: requests, rules and capabilities. [Control]: [ControlMachine].
      [Policy], [PolicyFacts]: [NetworkGuard] and its decisions, with the
      declarative reading [permits]. [Network], [NetworkFacts]: [NetworkPolicy].
      [Cidr]: a concrete instance of the interface [IpNetOps].
    - [FileAccess], [FileAccessFacts], with [Globs] as an instance of the
      interface [GlobOps]. [Session].
    - [AgentCtl], [AgentCtlFacts]. [Bandwidth]. [Headers].
    - [Execution], [Operation], [Observation].
    - [Causality]: the two graph searches of the journal. [Journal],
      [JournalFacts], with [JournalCodec] as an instance of [Codec].
    - [Bytes]: little-endian words. [Bus]: [devices/bus.rs]. [VirtQueue],
      [VirtQueueFacts]: [virtio/queue.rs] over the interface [GuestMemory], with
      [FlatMemory] as its instance. [Virtio]: the interface [VirtioDevice].
      [Mmio], [MmioFacts]: [virtio/mmio.rs] against that interface; [Rng],
      [RngFacts]: [virtio/rng/device.rs], an instance of it. [I8042], [Serial],
      [Rtc], [IoApic]: [devices/legacy].
    - [Json]: the interface to JSON values and event lines. [Dialogue],
      [DialogueText], [DialogueFacts]: [dialogue_extract]; [JsonTree] is an
      instance of the interface. [Redact], [RedactFacts]: [sink.rs], with
      [PrefixJson]. [Story], [StoryFacts], [StoryRecovery]: [record.rs] and
      [engine]; [StoryCodec] is the instance at which they are evaluated.
    - [HostFs], [HostFsFacts]: the file system below the overlay, trees of names
      over inodes with the calls of [std::fs]. [Overlay]: the operations, one
      definition per method, in a monad [Op] over the state [World].
      [OverlayView]: the merged view [view], a declarative function of the trees,
      and lookup. [OverlayQuiet], [OverlayCopy], [OverlayCopyUp]: steps that show
      nothing. [OverlayCreate], [OverlayRemove], [OverlayLink], [OverlayList]:
      the operations of those names. [OverlayList] also: materialising a
      tree; [OverlayRemove] also: whiteouts and names exclude each other.
      [OverlayFootprint]: which places a step can touch and which temporary names
      it uses. [OverlayRename], [OverlayExchange]: moves. [OverlayHealth]:
      the changes as data, the invariant [Healthy], histories, and an
      executable test of [Healthy] with a sample. [OverlayJournal]: first
      observations. [OverlayDepth]: recursions end. [OverlayAccess]: the file policy
      as the access rules of the overlay. [OverlayTheorems]: the statements.
    - [PreimageLog]: the disk, the state of a handle and one definition per
      method of [preimage_log.rs], in a monad [LogOp]. [PreimageLogFacts]: frames,
      replay, the invariant of a handle and of the file behind it.
      [PreimageLogTheorems]: the statements, and an instance of the interface to
      the codec and the checksum.
    - [ApplyPlan]: the inventory of an upper, its changes, a selection and its
      closure, protected paths. [ApplyPlanFacts]: the closure, the target
      against the first observations, the walk of the upper. [ApplyTheorems]: the statements.
    - [ApplyLedger]: the ledger file, and applying, recovering and discarding as
      sequences of durable steps in a monad over the disk, each of which can
      fail. [ApplyLedgerFacts]: the ledger, its invariant and a program logic over
      the steps. [ApplyLedgerTheorems]: the statements.

    State is passed explicitly: a method that mutates [self] takes the state and
    returns the new one; what is shared through an [Arc] (the preparing flag of
    a session's file policies, the buckets of the bandwidth registry) lives in a
    heap that is passed along. Fallible code returns [Result]; arithmetic that
    overflows in a checked build is a panic, a value of the result. Machine
    integers are [Z] with their bounds written out where arithmetic can reach
    them. Time, fresh identifiers, random bytes and the outcome of a write are
    arguments; the failures of the machine that the overlay's calls meet are a
    list in its world, consumed one per call. Operations that run under one mutex
    are atomic steps, and a concurrent execution is the sequence of these steps
    ([AgentCtl.run], [JournalFacts.run], [OverlayHealth.history]).

    ** What the theorems show

    - _Network_ ([NetworkFacts]): a request passes exactly when no deny rule of
      any layer applies and every layer and the fallback permit it; an injected
      controller can only restrict; waiving a refused resolved address needs a
      connector alias and never overrides a deny; an approval widens the policy
      by the approved host, port and transport only; packets bypass the proxy
      only under a policy that restricts nothing; limits are exactly those that
      apply.
    - _Files_ ([FileAccessFacts]): the decision is the strictest action of the
      rules that match the path or a directory above it; the reported rules are
      exact; merging policies takes the stricter one; an armed session's asks
      are answered by an approval and nothing else.
    - _Sessions_ ([Session]): layering is exact, and applying it again changes
      nothing.
    - _AgentCtl_ ([AgentCtlFacts]): an invariant of all histories; a capture
      happens only while all clients are quiesced for that generation; stale
      guards are inert; checkpoints complete; refused requests are harmless.
    - _Journal_ ([JournalFacts], [Causality]): appending refines an abstract log
      whose causal graph is acyclic; a torn write is repaired and its event can
      be appended again; every acknowledged event survives any sequence of
      appends, failed writes and reopenings; the causal check is exact.
    - _Bandwidth_, _contracts_: rates are bounded, buckets are shared by limit,
      a throttled chunk waits for the slowest bucket; validated plans,
      observations, events and samples mean what their fields say.
    - _Devices_ ([Bus], [VirtQueueFacts], [MmioFacts], [RngFacts] and the legacy
      files): an access reaches the one device whose range contains it; walking a
      descriptor chain ends and never follows a chain longer than the queue; the
      available ring is drained once; a driver that follows the protocol activates
      the device, and nothing else does; a saved transport resumes; requests for
      entropy complete; the legacy devices behave as queues, registers and tables.
    - _Dialogue_ ([DialogueFacts]): how a stream is cut into chunks does not
      matter to what is extracted; thinking is never shown. _Redaction_
      ([RedactFacts]): no value under a sensitive name is left in a body, at any
      depth, nor in encoded text or a query.
    - _Stories_ ([StoryFacts], [StoryRecovery]): turns are well numbered; what
      reaches the journal is free of credentials; a runtime rebuilt from the
      journal shows the stories that were shown before.
    - _Overlay_ ([OverlayTheorems]): a lookup finds exactly what the merged view
      shows, and the directories it remembers do not matter; a listing is exact;
      copying up is invisible; creating, removing, linking, renaming and
      exchanging change the view as asked and nowhere else; whatever fails, the
      lowers and all other paths stay as they are; the invariant survives every
      history in which no move fails; every path shown differently has a first
      observation, which is never replaced; no change runs out of fuel; a path that
      the policy denies is not touched, and no tree with a denied name is moved;
      a creation that fails late brings back what a whiteout hid.
    - _Compact journal_ ([PreimageLogTheorems]): opening restores exactly the
      complete frames and cuts off only an incomplete one; the calls refine a map
      from paths to first observations; a handle never points outside what is
      written; an acknowledged durable observation survives any later calls and a
      crash that loses what was not synced; a batch of consumption fits a frame;
      readers agree with the writer; a creation that breaks inside the magic
      leaves a file that can never be opened.
    - _Planning_ ([ApplyTheorems]): a plan is the least closed set of changes
      around those requested, and holds nothing excluded or out of scope; a plan
      of everything covers every path that the view shows differently from the
      lowers; no protected path is affected, not even inside a directory that is
      replaced; an apply prepared under a complete journal found the target as
      first observed; scanning a range of the ordered map of observations is the
      same as filtering it; planning ends, and a refusal has one of the stated
      reasons.
    - _Transactions_ ([ApplyLedgerTheorems]): each phase that touches the target
      or the upper runs under a state on disk that covers it; after any history
      of applies, recoveries and discards, with failures and crashes anywhere, no
      record is lost and at most one apply is pending; recovery completes it.

    ** Parameters

    Code outside the repository is an argument: [ipnet] as [IpNetOps] with
    [IpNetLaws], [globset] as [GlobOps] with [GlobLaws], [serde_json] and [sha2]
    as [Codec] with [CodecLaws] in the journal, as [JsonOps] with its laws in the
    gateway and as [CaptureCodec] in the stories, [url] as [UrlOps], the digests
    of [blake3] and [sha2] as functions, the memory of the guest as [GuestMemory],
    the entropy of the operating system as a function, and the encoding and
    checksum of the compact journal as [LogOps] with [LogLaws], and the encoding
    of the ledger as [LedgerCodec] with [LedgerCodecLaws]. Each class with laws
    has an instance that satisfies them, at which the properties are evaluated.
    Between components of the repository: [VirtioDevice] is what the transport
    needs of a device, [AccessOps] with [AccessLaws] what the overlay needs of a
    policy; [OverlayAccess] discharges the latter with the policy of [FileAccess].

    ** Fuel

    The depth-first search of a causal graph runs on one unit per node and per
    edge ([Causality.dfs_fuel]), the walk of an append on one per edge
    ([Causality.walk_fuel]), the loop of a scan on one per byte; all three are
    proved to be enough, so the functions that use them never return [None].
    The trimming of strings and the printing of numbers run on the length of
    the text and the number of digits. A descriptor chain is walked for at most
    the size of its queue, as the code counts; the loop of a device over its
    queue runs on the number of available entries; draining lines runs on the
    length of the text, and redaction on the depth of the value. Recursions over
    the trees of an overlay run on the depth of the deepest name, [tree_fuel],
    and [changes_terminate] shows that no change reaches the bound. Replaying the
    compact journal runs on the length of the file, enough by [log_recovers]. The
    closure of a plan runs on one round per change and per name of a group
    ([closure_fuel]) and its walks of trees on [tree_fuel]; both are enough by [planning_ends].

    ** Not modelled

    Sockets, threads, processes and file descriptors; the asynchronous servers
    of the proxy and the gateway and its protocol conversion; images, snapshots
    and the executors; the processor and memory of the virtual machine monitor
    and its file, block and network devices; of the overlay, opening a stage,
    the lock between the writers of its compact journal, copies prepared ahead of an operation, private
    backing, read-only attachments, its caches, stages and their seal, and the
    adapters for FUSE and virtio; of an apply, what a phase does to the target,
    the upper and the backups (a phase succeeds or fails) and the checks of a
    project target; removal of a tree below the
    overlay is one call that happens or not. Replay, the guest agent, the shim,
    the daemon and the command line. Texts of error messages are kept only where
    the code branches on them or where they tell two checks apart.

    ** Next

    The publication of an apply to its target, the wait coordinator of the
    runtime, and the host protocol. *)
From stdpp Require Import base tactics list strings gmap numbers sorting.
From Stdlib Require Import ZArith Lia Ascii.
Local Open Scope Z_scope.

(** ** Results *)

(** [Result E A] is Rust's [Result<A, E>]; [Result E] is a monad whose bind is
    the [?] operator. *)
Inductive Result (E A : Type) : Type :=
| Ok (a : A)
| Err (e : E).
Arguments Ok {E A} a.
Arguments Err {E A} e.

#[export] Instance result_ret {E} : MRet (Result E) := fun A a => Ok a.
#[export] Instance result_bind {E} : MBind (Result E) :=
  fun A B f r => match r with Ok a => f a | Err e => Err e end.
#[export] Instance result_fmap {E} : FMap (Result E) :=
  fun A B f r => match r with Ok a => Ok (f a) | Err e => Err e end.

#[export] Instance result_eq_dec {E A} `{EqDecision E, EqDecision A} :
  EqDecision (Result E A).
Proof. solve_decision. Defined.

(** [anyhow::ensure!(b, e)]. *)
Definition ensure {E} (b : bool) (e : E) : Result E unit :=
  if b then Ok tt else Err e.

(** [Option::ok_or]. *)
Definition ok_or {E A} (o : option A) (e : E) : Result E A :=
  match o with Some a => Ok a | None => Err e end.

Definition is_ok {E A} (r : Result E A) : bool :=
  match r with Ok _ => true | Err _ => false end.

(** [Result::map_err]. *)
Definition map_err {E E' A} (f : E -> E') (r : Result E A) : Result E' A :=
  match r with Ok a => Ok a | Err e => Err (f e) end.

(** [iter().map(f).collect::<Result<Vec<_>, _>>()]: stops at the first error. *)
Fixpoint collect {E A B} (f : A -> Result E B) (l : list A) : Result E (list B) :=
  match l with
  | [] => Ok []
  | x :: l => y ← f x; ys ← collect f l; Ok (y :: ys)
  end.

(** A [for] loop whose body only checks. *)
Fixpoint for_each {E A} (f : A -> Result E unit) (l : list A) : Result E unit :=
  match l with
  | [] => Ok tt
  | x :: l => _ ← f x; for_each f l
  end.

(** A [for] loop whose body updates an accumulator and may fail. *)
Section Fold.
Context {E A B : Type} (f : B -> A -> Result E B).
Fixpoint fold_res (l : list A) (b : B) : Result E B :=
  match l with
  | [] => Ok b
  | x :: l => b ← f b x; fold_res l b
  end.
End Fold.

(** Case analysis on the next [?] or [ensure!] of a hypothesis. *)
Ltac result_step :=
  match goal with
  | H : Err _ = Ok _ |- _ => discriminate H
  | H : Ok _ = Err _ |- _ => discriminate H
  | H : Ok ?a = Ok ?b |- _ => injection H as H
  | H : Err ?a = Err ?b |- _ => injection H as H
  | H : mbind _ ?r = _ |- _ =>
      let E := fresh "Hr" in destruct r eqn:E; cbn in H
  | H : fmap _ ?r = _ |- _ =>
      let E := fresh "Hr" in destruct r eqn:E; cbn in H
  | H : ensure ?b _ = Ok _ |- _ =>
      let E := fresh "Hb" in unfold ensure in H; destruct b eqn:E; [|discriminate H]
  | H : ok_or ?o _ = Ok _ |- _ =>
      let E := fresh "Ho" in unfold ok_or in H; destruct o eqn:E; [|discriminate H]
  end.
Ltac result_simpl := repeat (result_step; simplify_eq).

Lemma fold_res_app {E A B} (f : B -> A -> Result E B) l1 l2 b :
  fold_res f (l1 ++ l2) b = (b ← fold_res f l1 b; fold_res f l2 b).
Proof. revert b. induction l1 as [|x l1 IH]; intros b; cbn; [done|]. destruct (f b x) as [b'|]; [apply IH|done]. Qed.

Lemma ensure_Ok {E} (b : bool) (e : E) u : ensure b e = Ok u <-> b = true.
Proof. destruct b, u; cbn; naive_solver. Qed.

Lemma ensure_bind_Ok {E A} (b : bool) (e : E) (k : Result E A) r :
  (_ ← ensure b e; k) = Ok r <-> b = true /\ k = Ok r.
Proof. destruct b; cbn; naive_solver. Qed.

Lemma bind_Ok {E A B} (m : Result E A) (k : A -> Result E B) r :
  m ≫= k = Ok r <-> exists a, m = Ok a /\ k a = Ok r.
Proof. destruct m; cbn; naive_solver. Qed.

Section ResultLemmas.
Context {E A B : Type}.

Lemma collect_Ok (f : A -> Result E B) l l' :
  collect f l = Ok l' <-> Forall2 (fun x y => f x = Ok y) l l'.
Proof.
  revert l'. induction l as [|x l IH]; intros l'; cbn.
  - split; [intros [=<-]; constructor | by inversion_clear 1].
  - rewrite bind_Ok. split.
    + intros (y & Hy & (ys & Hys & [= <-])%bind_Ok).
      constructor; [done | by apply IH].
    + inversion_clear 1 as [|? y ? ys Hy Hys]. exists y. split; [done|].
      apply IH in Hys. by rewrite Hys.
Qed.

Lemma collect_app (f : A -> Result E B) l1 l2 l' :
  collect f (l1 ++ l2) = Ok l' <->
  exists r1 r2, collect f l1 = Ok r1 /\ collect f l2 = Ok r2 /\ l' = r1 ++ r2.
Proof.
  split.
  - intros H. apply collect_Ok, Forall2_app_inv_l in H as (r1 & r2 & ? & ? & ->).
    exists r1, r2. by rewrite !collect_Ok.
  - intros (r1 & r2 & H1 & H2 & ->). apply collect_Ok.
    apply Forall2_app; by apply collect_Ok.
Qed.

Lemma collect_total (f : A -> Result E B) l :
  (forall x, x ∈ l -> exists y, f x = Ok y) -> exists l', collect f l = Ok l'.
Proof.
  induction l as [|x l IH]; intros H; [by eexists|].
  destruct (H x) as [y Hy]; [set_solver|].
  destruct IH as [ys Hys]; [set_solver|].
  exists (y :: ys). cbn. by rewrite Hy, Hys.
Qed.

Lemma collect_elem_of (f : A -> Result E B) l l' y :
  collect f l = Ok l' -> y ∈ l' <-> exists x, x ∈ l /\ f x = Ok y.
Proof.
  intros H%collect_Ok. induction H as [|x y' l l' Hx _ IH]; [set_solver|].
  rewrite elem_of_cons, IH. split.
  - intros [->|(x' & ? & ?)]; [exists x | exists x']; rewrite elem_of_cons; auto.
  - intros (x' & [->|?]%elem_of_cons & ?); [left; congruence | right; eauto].
Qed.

Lemma for_each_Ok (f : A -> Result E unit) l u :
  for_each f l = Ok u <-> forall x, x ∈ l -> f x = Ok tt.
Proof.
  destruct u. induction l as [|x l IH]; cbn; [set_solver|].
  rewrite bind_Ok. setoid_rewrite IH. split.
  - intros ([] & ? & ?) x' [->|?]%elem_of_cons; auto.
  - intros H. exists tt. split; [apply H; left | intros x' ?; apply H; by right].
Qed.
End ResultLemmas.

(** ** Machine integers *)

Definition u16_max : Z := 2 ^ 16 - 1.
Definition u32_max : Z := 2 ^ 32 - 1.
Definition u64_max : Z := 2 ^ 64 - 1.
Definition u128_max : Z := 2 ^ 128 - 1.

(** [x] is the value of an unsigned integer of [w] bits. *)
Definition is_uint (w x : Z) : Prop := 0 <= x < 2 ^ w.
Notation is_u16 := (is_uint 16).
Notation is_u32 := (is_uint 32).
Notation is_u64 := (is_uint 64).

(** [u64::checked_add], [u64::saturating_add] and [u64::saturating_sub]. *)
Definition checked_add (a b : Z) : option Z :=
  if a + b <=? u64_max then Some (a + b) else None.
Definition saturating_add (a b : Z) : Z := Z.min (a + b) u64_max.
Definition saturating_sub (a b : Z) : Z := Z.max (a - b) 0.

Lemma checked_add_Some a b c :
  checked_add a b = Some c <-> a + b <= u64_max /\ c = a + b.
Proof. unfold checked_add. destruct (Z.leb_spec (a + b) u64_max); naive_solver lia. Qed.

(** ** Stable sorting *)

(** [slice::sort_by_key] (a stable sort): [leb x y] says that the key of [x] is
    at most that of [y]. *)
Section Sort.
Context {A : Type} (leb : A -> A -> bool).

Fixpoint sort_insert (x : A) (l : list A) : list A :=
  match l with
  | [] => [x]
  | y :: l' => if leb x y then x :: l else y :: sort_insert x l'
  end.

Definition sort_by (l : list A) : list A := foldr sort_insert [] l.

Lemma sort_insert_perm x l : sort_insert x l ≡ₚ x :: l.
Proof.
  induction l as [|y l IH]; cbn; [done|]. case_match; [done|].
  rewrite IH. apply Permutation_swap.
Qed.

Lemma sort_by_perm l : sort_by l ≡ₚ l.
Proof.
  induction l as [|x l IH]; cbn; [done|]. by rewrite sort_insert_perm, IH.
Qed.

Context (leb_trans : forall x y z, leb x y = true -> leb y z = true -> leb x z = true)
  (leb_total : forall x y, leb x y = false -> leb y x = true).

Lemma sort_insert_sorted x l :
  StronglySorted (fun x y => leb x y = true) l ->
  StronglySorted (fun x y => leb x y = true) (sort_insert x l).
Proof.
  induction 1 as [|y l Hl IH Hy]; cbn; [repeat constructor|].
  destruct (leb x y) eqn:Hxy.
  - repeat constructor; try done.
    eapply Forall_impl; [exact Hy|]. intros z Hz. by eapply leb_trans.
  - constructor; [done|]. rewrite sort_insert_perm. constructor; [|done].
    by apply leb_total.
Qed.

Lemma sort_by_sorted l : StronglySorted (fun x y => leb x y = true) (sort_by l).
Proof. induction l; cbn; [constructor | by apply sort_insert_sorted]. Qed.

Lemma sort_by_sorted_id l :
  StronglySorted (fun x y => leb x y = true) l -> sort_by l = l.
Proof.
  induction 1 as [|x l Hl IH Hx]; cbn; [done|].
  change (sort_insert x (sort_by l) = x :: l). rewrite IH.
  destruct l as [|y l]; cbn; [done|].
  inversion_clear Hx. case_match; congruence.
Qed.

Lemma sort_by_idem l : sort_by (sort_by l) = sort_by l.
Proof. apply sort_by_sorted_id, sort_by_sorted. Qed.
End Sort.

(** [Vec::dedup]: removes consecutive repetitions. *)
Fixpoint dedup {A} `{EqDecision A} (l : list A) : list A :=
  match l with
  | x :: (y :: _) as l' => if decide (x = y) then dedup l' else x :: dedup l'
  | _ => l
  end.

Lemma elem_of_dedup {A} `{EqDecision A} (x : A) l : x ∈ dedup l <-> x ∈ l.
Proof.
  induction l as [|y l IH]; [done|]. destruct l as [|z l]; [done|].
  cbn [dedup]. cbn [dedup] in IH. destruct (decide (y = z)) as [->|]; [|rewrite !elem_of_cons, IH; set_solver].
  rewrite IH, !elem_of_cons. tauto.
Qed.

(** Collecting into a [BTreeSet] of naturals and iterating over it. *)
Definition btree_set (l : list nat) : list nat := dedup (sort_by Nat.leb l).
Lemma elem_of_btree_set x l : x ∈ btree_set l <-> x ∈ l.
Proof. unfold btree_set. by rewrite elem_of_dedup, sort_by_perm. Qed.

(** Two sorted permutations of each other are equal when the key is injective
    on their elements. *)
Lemma sorted_perm_unique {A} (R : A -> A -> Prop) (l1 l2 : list A) :
  (forall x y, x ∈ l1 -> y ∈ l1 -> R x y -> R y x -> x = y) ->
  StronglySorted R l1 -> StronglySorted R l2 -> l1 ≡ₚ l2 -> l1 = l2.
Proof.
  intros Hanti H1. revert l2 Hanti.
  induction H1 as [|x l1 Hl1 IH Hx]; intros l2 Hanti H2 Hp.
  - by apply Permutation_nil_l in Hp.
  - destruct l2 as [|y l2]; [by apply Permutation_nil_r in Hp|].
    inversion_clear H2 as [|? ? Hl2 Hy].
    assert (x = y) as <-.
    { assert (x ∈ y :: l2) as [->|Hxl]%elem_of_cons by (rewrite <- Hp; constructor); [done|].
      assert (y ∈ x :: l1) as [->|Hyl]%elem_of_cons by (rewrite Hp; constructor); [done|].
      rewrite Forall_forall in Hx, Hy.
      apply Hanti; [left| by right | by apply Hx | by apply Hy]. }
    f_equal. apply IH; [|done|by apply Permutation_cons_inv in Hp].
    intros u v Hu Hv. apply Hanti; by right.
Qed.

(** ** Hints *)
Create HintDb pvisor.
#[export] Hint Resolve sort_by_perm : pvisor.
#[export] Hint Rewrite @ensure_Ok @ensure_bind_Ok @bind_Ok @for_each_Ok : pvisor.
#[export] Hint Rewrite andb_true_iff orb_true_iff negb_true_iff Z.eqb_eq Z.ltb_lt Z.leb_le Z.gtb_gt : pvisor.
