(* ===== verification/RustStr.v ===== *)
(** * Rust strings

    The string operations of the Rust standard library that the modelled code
    calls.  A [str] is its UTF-8 bytes, so that [len] counts bytes as Rust does;
    the operations that Rust defines on [char]s ([trim], [is_control]) recognise
    the UTF-8 encodings of the characters they look for. *)
From stdpp Require Import base tactics sets list strings.
From Stdlib Require Import ZArith Lia Ascii.
From S2P Require Import Prelude.

Abbreviation bytes := (list ascii).
Abbreviation to_bytes := String.list_ascii_of_string.
Abbreviation of_bytes := String.string_of_list_ascii.

Definition byte_val (c : ascii) : Z := Z.of_N (N_of_ascii c).
Definition chr (z : Z) : ascii := ascii_of_N (Z.to_N z).

(** ** Character classes on ASCII bytes *)
Definition in_range (lo hi : Z) (c : ascii) : bool :=
  (lo <=? byte_val c)%Z && (byte_val c <=? hi)%Z.
Definition is_ascii_digit : ascii -> bool := in_range 48 57.
Definition is_ascii_lowercase : ascii -> bool := in_range 97 122.
Definition is_ascii_uppercase : ascii -> bool := in_range 65 90.
Definition is_ascii_alphanumeric (c : ascii) : bool :=
  is_ascii_digit c || is_ascii_lowercase c || is_ascii_uppercase c.
Definition is_ascii_hexdigit (c : ascii) : bool :=
  is_ascii_digit c || in_range 97 102 c || in_range 65 70 c.

(** [u8::to_ascii_lowercase]. *)
Definition lower (c : ascii) : ascii :=
  if is_ascii_uppercase c then chr (byte_val c + 32) else c.

(** [str::len], [str::to_ascii_lowercase], [str::eq_ignore_ascii_case]. *)
Definition len (s : string) : nat := String.length s.
Definition to_ascii_lowercase (s : string) : string := of_bytes (map lower (to_bytes s)).
Definition eq_ignore_ascii_case (s t : string) : bool :=
  bool_decide (map lower (to_bytes s) = map lower (to_bytes t)).

(** ** Prefixes and suffixes *)
Fixpoint strip_prefix_bytes (p s : bytes) : option bytes :=
  match p, s with
  | [], _ => Some s
  | x :: p, y :: s => if decide (x = y) then strip_prefix_bytes p s else None
  | _ :: _, [] => None
  end.
Definition starts_with (s p : string) : bool :=
  bool_decide (is_Some (strip_prefix_bytes (to_bytes p) (to_bytes s))).
Definition strip_suffix_bytes (p s : bytes) : option bytes :=
  reverse <$> strip_prefix_bytes (reverse p) (reverse s).
Definition ends_with (s p : string) : bool :=
  bool_decide (is_Some (strip_suffix_bytes (to_bytes p) (to_bytes s))).
Definition strip_prefix (s p : string) : option string :=
  of_bytes <$> strip_prefix_bytes (to_bytes p) (to_bytes s).
Definition strip_suffix (s p : string) : option string :=
  of_bytes <$> strip_suffix_bytes (to_bytes p) (to_bytes s).

(** [str::contains] for a character and for a substring. *)
Definition contains (c : ascii) (s : string) : bool := existsb (fun d => bool_decide (c = d)) (to_bytes s).
Fixpoint contains_bytes (p s : bytes) : bool :=
  bool_decide (is_Some (strip_prefix_bytes p s)) ||
  match s with [] => false | _ :: s => contains_bytes p s end.
Definition contains_str (p s : string) : bool := contains_bytes (to_bytes p) (to_bytes s).

(** [str::split] on an ASCII character: always yields at least one piece. *)
Fixpoint split_bytes (c : ascii) (s : bytes) : list bytes :=
  match s with
  | [] => [[]]
  | x :: s =>
      if decide (x = c) then [] :: split_bytes c s
      else match split_bytes c s with
           | [] => [[x]]
           | p :: ps => (x :: p) :: ps
           end
  end.
Definition split (c : ascii) (s : string) : list string := of_bytes <$> split_bytes c (to_bytes s).

(** [str::split_once] and [str::rsplit_once] on an ASCII character. *)
Fixpoint split_once_bytes (c : ascii) (s : bytes) : option (bytes * bytes) :=
  match s with
  | [] => None
  | x :: s =>
      if decide (x = c) then Some ([], s)
      else match split_once_bytes c s with
           | Some (p, q) => Some (x :: p, q)
           | None => None
           end
  end.
Definition rsplit_once (c : ascii) (s : string) : option (string * string) :=
  match split_once_bytes c (reverse (to_bytes s)) with
  | Some (p, q) => Some (of_bytes (reverse q), of_bytes (reverse p))
  | None => None
  end.

(** ** Trimming *)

(** The UTF-8 encodings of the characters with the [White_Space] property
    ([char::is_whitespace]). *)
Definition white_space : list bytes :=
  ((fun z => [chr z]) <$> [9; 10; 11; 12; 13; 32]%Z) ++
  [[chr 0xC2; chr 0x85]; [chr 0xC2; chr 0xA0]; [chr 0xE1; chr 0x9A; chr 0x80]] ++
  ((fun z => [chr 0xE2; chr 0x80; chr z]) <$>
     [0x80; 0x81; 0x82; 0x83; 0x84; 0x85; 0x86; 0x87; 0x88; 0x89; 0x8A; 0xA8; 0xA9; 0xAF]%Z) ++
  [[chr 0xE2; chr 0x81; chr 0x9F]; [chr 0xE3; chr 0x80; chr 0x80]].

(** The first of the patterns that is a prefix of [s], removed. *)
Fixpoint strip_any (ps : list bytes) (s : bytes) : option bytes :=
  match ps with
  | [] => None
  | p :: ps => match strip_prefix_bytes p s with
               | Some s' => Some s'
               | None => strip_any ps s
               end
  end.

(** Removes leading occurrences of the patterns; [length s] rounds are enough
    because every pattern is nonempty. *)
Fixpoint trim_left_n (n : nat) (ps : list bytes) (s : bytes) : bytes :=
  match n with
  | O => s
  | S n => match strip_any ps s with
           | Some s' => trim_left_n n ps s'
           | None => s
           end
  end.
Definition trim_left (ps : list bytes) (s : bytes) : bytes := trim_left_n (length s) ps s.
Definition trim_right (ps : list bytes) (s : bytes) : bytes := reverse (trim_left (reverse <$> ps) (reverse s)).

Definition trim_bytes (s : bytes) : bytes := trim_right white_space (trim_left white_space s).
Definition trim (s : string) : string := of_bytes (trim_bytes (to_bytes s)).

(** [trim_matches] for a set of ASCII characters and [trim_end_matches] for one. *)
Definition trim_matches (cs : list ascii) (s : string) : string :=
  let ps := (fun c => [c]) <$> cs in
  of_bytes (trim_right ps (trim_left ps (to_bytes s))).
Definition trim_end_matches (c : ascii) (s : string) : string :=
  of_bytes (trim_right [[c]] (to_bytes s)).

Definition is_empty (s : string) : bool := bool_decide (s = ""%string).

(** [value.chars().any(char::is_control)]: the C0 controls, DEL, and the C1
    controls U+0080..U+009F, which UTF-8 writes as C2 80 .. C2 9F. *)
Fixpoint has_control (s : bytes) : bool :=
  match s with
  | [] => false
  | x :: s' =>
      in_range 0 31 x || bool_decide (x = chr 127) ||
      match s' with
      | y :: _ => bool_decide (x = chr 0xC2) && in_range 0x80 0x9F y
      | [] => false
      end || has_control s'
  end.

(** [str::is_char_boundary]: the start, the end, or a byte that is not a UTF-8
    continuation byte. *)
Definition is_char_boundary (s : string) (i : nat) : bool :=
  (i =? 0)%nat ||
  match to_bytes s !! i with
  | None => (i =? len s)%nat
  | Some c => negb (in_range 0x80 0xBF c)
  end.

(** ** Lemmas *)

Lemma of_to_bytes s : of_bytes (to_bytes s) = s.
Proof. apply String.string_of_list_ascii_of_string. Qed.
Lemma to_of_bytes l : to_bytes (of_bytes l) = l.
Proof. apply String.list_ascii_of_string_of_list_ascii. Qed.
Lemma to_bytes_inj s t : to_bytes s = to_bytes t -> s = t.
Proof. intros H%(f_equal of_bytes). by rewrite !of_to_bytes in H. Qed.
Lemma length_to_bytes s : length (to_bytes s) = len s.
Proof. unfold len. induction s; cbn; auto. Qed.
#[export] Hint Rewrite of_to_bytes to_of_bytes : pvisor.

Lemma strip_prefix_bytes_Some p s s' :
  strip_prefix_bytes p s = Some s' <-> s = p ++ s'.
Proof.
  revert s. induction p as [|x p IH]; intros [|y s]; cbn; [naive_solver..|].
  case_decide; [rewrite IH|]; naive_solver.
Qed.

Lemma strip_prefix_bytes_None p s :
  strip_prefix_bytes p s = None <-> forall s', s <> p ++ s'.
Proof.
  split.
  - intros H s' Hs%strip_prefix_bytes_Some. congruence.
  - intros H. destruct (strip_prefix_bytes p s) as [s'|] eqn:E; [|done].
    apply strip_prefix_bytes_Some in E. by destruct (H s').
Qed.

Lemma strip_suffix_bytes_Some p s s' :
  strip_suffix_bytes p s = Some s' <-> s = s' ++ p.
Proof.
  unfold strip_suffix_bytes. rewrite fmap_Some. split.
  - intros (l & H%strip_prefix_bytes_Some & ->). apply (f_equal reverse) in H.
    by rewrite reverse_app, !reverse_involutive in H.
  - intros ->. exists (reverse s'). rewrite strip_prefix_bytes_Some.
    by rewrite reverse_app, reverse_involutive.
Qed.

Lemma ends_with_spec s p :
  ends_with s p = true <-> exists l, to_bytes s = l ++ to_bytes p.
Proof.
  unfold ends_with. rewrite bool_decide_eq_true. unfold is_Some.
  by setoid_rewrite strip_suffix_bytes_Some.
Qed.

Lemma starts_with_spec s p :
  starts_with s p = true <-> exists l, to_bytes s = to_bytes p ++ l.
Proof.
  unfold starts_with. rewrite bool_decide_eq_true. unfold is_Some.
  by setoid_rewrite strip_prefix_bytes_Some.
Qed.

Lemma contains_spec c s : contains c s = true <-> c ∈ to_bytes s.
Proof.
  unfold contains. rewrite existsb_exists. setoid_rewrite <- list_elem_of_In.
  setoid_rewrite bool_decide_eq_true. naive_solver.
Qed.

(** *** Trimming *)
Section Trim.
Context (ps : list bytes) (Hps : Forall (fun p => p <> []) ps).

Lemma strip_any_Some s s' : strip_any ps s = Some s' -> exists p, p ∈ ps /\ s = p ++ s'.
Proof using.
  clear Hps. induction ps as [|p l IH]; cbn; [done|].
  destruct (strip_prefix_bytes p s) eqn:E.
  - intros [= ->]. apply strip_prefix_bytes_Some in E. exists p. set_solver.
  - intros (q & ? & ?)%IH. exists q. set_solver.
Qed.

Lemma strip_any_None s : strip_any ps s = None <-> forall p s', p ∈ ps -> s <> p ++ s'.
Proof using.
  clear Hps. induction ps as [|p l IH]; cbn; [set_solver|].
  destruct (strip_prefix_bytes p s) eqn:E.
  - apply strip_prefix_bytes_Some in E. split; [done|].
    intros H. by destruct (H p l0); [left|].
  - rewrite strip_prefix_bytes_None in E. rewrite IH. set_solver.
Qed.

Lemma strip_any_length s s' : strip_any ps s = Some s' -> length s' < length s.
Proof using Hps.
  intros (p & Hp & ->)%strip_any_Some. rewrite Forall_forall in Hps.
  specialize (Hps _ Hp). rewrite length_app. destruct p; cbn; [done|lia].
Qed.

Lemma trim_left_n_stops n s : length s <= n -> strip_any ps (trim_left_n n ps s) = None.
Proof using Hps.
  revert s. induction n as [|n IH]; intros s Hn; cbn.
  - apply strip_any_None. intros p s' Hp Hs. rewrite Forall_forall in Hps.
    destruct s; cbn in Hn; [|lia]. symmetry in Hs. apply app_eq_nil in Hs as [-> _].
    by apply (Hps []).
  - destruct (strip_any ps s) as [s'|] eqn:E; [|done].
    apply IH. apply strip_any_length in E. lia.
Qed.

(** Nothing is left to trim. *)
Lemma trim_left_stops s : strip_any ps (trim_left ps s) = None.
Proof using Hps. by apply trim_left_n_stops. Qed.

Lemma trim_left_id s : strip_any ps s = None -> trim_left ps s = s.
Proof using. clear Hps. unfold trim_left. destruct s; cbn; [done|]. by intros ->. Qed.

Lemma trim_left_idem s : trim_left ps (trim_left ps s) = trim_left ps s.
Proof using Hps. apply trim_left_id, trim_left_stops. Qed.

Lemma trim_left_n_suffix n s : exists p, s = p ++ trim_left_n n ps s.
Proof using.
  clear Hps. revert s. induction n as [|n IH]; intros s; cbn; [by exists []|].
  destruct (strip_any ps s) as [s'|] eqn:E; [|by exists []].
  apply strip_any_Some in E as (p & _ & ->). destruct (IH s') as [q Hq].
  exists (p ++ q). by rewrite <- app_assoc, <- Hq.
Qed.
End Trim.

Lemma white_space_nonempty : Forall (fun p => p <> []) white_space.
Proof. repeat constructor; discriminate. Qed.
Lemma reverse_nonempty ps :
  Forall (fun p : bytes => p <> []) ps -> Forall (fun p => p <> []) (reverse <$> ps).
Proof.
  intros Hps. rewrite Forall_fmap. eapply Forall_impl; [exact Hps|].
  intros p Hp H. apply Hp. by rewrite <- (reverse_involutive p), H.
Qed.
#[export] Hint Resolve white_space_nonempty reverse_nonempty : pvisor.

Lemma trim_right_prefix ps s : exists q, s = trim_right ps s ++ q.
Proof.
  unfold trim_right. destruct (trim_left_n_suffix (reverse <$> ps) (length (reverse s)) (reverse s)) as [p Hp].
  exists (reverse p). rewrite <- reverse_app. unfold trim_left. rewrite <- Hp.
  by rewrite reverse_involutive.
Qed.

(** Trimming the right end exposes no new pattern at the left end. *)
Lemma trim_right_keeps_left ps qs s :
  strip_any ps s = None -> strip_any ps (trim_right qs s) = None.
Proof.
  rewrite !strip_any_None. intros H p s' Hp Hs. destruct (trim_right_prefix qs s) as [q Hq].
  apply (H p (s' ++ q) Hp). rewrite Hq at 1. rewrite Hs. by rewrite <- app_assoc.
Qed.

Lemma trim_right_idem ps s :
  Forall (fun p => p <> []) ps -> trim_right ps (trim_right ps s) = trim_right ps s.
Proof.
  intros H. unfold trim_right. rewrite reverse_involutive, trim_left_idem; [done|].
  by apply reverse_nonempty.
Qed.

Lemma trim_bytes_idem s : trim_bytes (trim_bytes s) = trim_bytes s.
Proof.
  unfold trim_bytes. rewrite (trim_left_id white_space (trim_right _ _)).
  - apply trim_right_idem, white_space_nonempty.
  - apply trim_right_keeps_left, trim_left_stops, white_space_nonempty.
Qed.

(** [str::trim] is idempotent. *)
Lemma trim_idem s : trim (trim s) = trim s.
Proof. unfold trim. by rewrite to_of_bytes, trim_bytes_idem. Qed.
