(* ===== verification/Net.v ===== *)
(** * IP addresses

    The part of [std::net] that the network policy uses: addresses, their
    classification, their textual syntax (the parser behind
    [str::parse::<IpAddr>] and the [Display] implementation), and the address
    classification functions of [pvisor-core/src/policy.rs]. *)
From stdpp Require Import base tactics list strings.
From Stdlib Require Import ZArith Lia Ascii.
From S2P Require Import Prelude RustStr.
Local Open Scope Z_scope.

(** ** Addresses *)

(** [Ipv4Addr] by its octets and [Ipv6Addr] by its eight 16-bit segments. *)
Record Ipv4Addr := mkV4 { oct0 : Z; oct1 : Z; oct2 : Z; oct3 : Z }.
Record Ipv6Addr := mkV6 { seg0 : Z; seg1 : Z; seg2 : Z; seg3 : Z;
                          seg4 : Z; seg5 : Z; seg6 : Z; seg7 : Z }.
Inductive IpAddr := V4 (ip : Ipv4Addr) | V6 (ip : Ipv6Addr).

#[export] Instance ipv4_eq_dec : EqDecision Ipv4Addr.
Proof. solve_decision. Defined.
#[export] Instance ipv6_eq_dec : EqDecision Ipv6Addr.
Proof. solve_decision. Defined.
#[export] Instance ipaddr_eq_dec : EqDecision IpAddr.
Proof. solve_decision. Defined.

Definition segments (ip : Ipv6Addr) : list Z :=
  [seg0 ip; seg1 ip; seg2 ip; seg3 ip; seg4 ip; seg5 ip; seg6 ip; seg7 ip].

(** Octets are [u8], segments are [u16]. *)
Definition wf_v4 (ip : Ipv4Addr) : Prop :=
  is_uint 8 (oct0 ip) /\ is_uint 8 (oct1 ip) /\ is_uint 8 (oct2 ip) /\ is_uint 8 (oct3 ip).
Definition wf_v6 (ip : Ipv6Addr) : Prop := Forall (is_uint 16) (segments ip).
Definition wf_ip (ip : IpAddr) : Prop :=
  match ip with V4 ip => wf_v4 ip | V6 ip => wf_v6 ip end.

(** [std] predicates on addresses. *)
Definition v4_is_private (ip : Ipv4Addr) : bool :=
  (oct0 ip =? 10) || ((oct0 ip =? 172) && (16 <=? oct1 ip) && (oct1 ip <=? 31)) ||
  ((oct0 ip =? 192) && (oct1 ip =? 168)).
Definition v4_is_loopback (ip : Ipv4Addr) : bool := oct0 ip =? 127.
Definition v4_is_link_local (ip : Ipv4Addr) : bool := (oct0 ip =? 169) && (oct1 ip =? 254).
Definition v4_is_multicast (ip : Ipv4Addr) : bool := (224 <=? oct0 ip) && (oct0 ip <=? 239).
Definition v4_is_broadcast (ip : Ipv4Addr) : bool := bool_decide (ip = mkV4 255 255 255 255).
Definition v4_is_unspecified (ip : Ipv4Addr) : bool := bool_decide (ip = mkV4 0 0 0 0).
Definition v6_is_loopback (ip : Ipv6Addr) : bool := bool_decide (ip = mkV6 0 0 0 0 0 0 0 1).

(** [Ipv4Addr::to_ipv6_mapped] and [Ipv6Addr::to_ipv4_mapped]. *)
Definition to_ipv6_mapped (ip : Ipv4Addr) : Ipv6Addr :=
  mkV6 0 0 0 0 0 0xffff (Z.lor (Z.shiftl (oct0 ip) 8) (oct1 ip))
    (Z.lor (Z.shiftl (oct2 ip) 8) (oct3 ip)).
Definition v4_of_groups (g h : Z) : Ipv4Addr :=
  mkV4 (Z.shiftr g 8) (Z.land g 255) (Z.shiftr h 8) (Z.land h 255).
Definition to_ipv4_mapped (ip : Ipv6Addr) : option Ipv4Addr :=
  match ip with
  | mkV6 0 0 0 0 0 s5 ab cd => if s5 =? 0xffff then Some (v4_of_groups ab cd) else None
  | _ => None
  end.

(** ** Parsing: [core::net::parser] *)
Module Parser.
(** A parser returns the value read and the rest of the input; a [None] leaves
    the input where it was ([read_atomically]). *)
Definition parser (A : Type) := bytes -> option (A * bytes).

Definition read_given_char (c : ascii) : parser unit := fun s =>
  match s with
  | x :: s => if decide (x = c) then Some (tt, s) else None
  | [] => None
  end.

(** [char::to_digit]. *)
Definition to_digit (radix : Z) (c : ascii) : option Z :=
  let v := byte_val c in
  let d := if is_ascii_digit c then Some (v - 48)
           else if in_range 97 122 c then Some (v - 87)
           else if in_range 65 90 c then Some (v - 55)
           else None in
  d ≫= fun d => if d <? radix then Some d else None.

(** The digit loop of [read_number]: [None] when more than [max] digits follow. *)
Fixpoint read_digits (radix : Z) (max : nat) (acc : Z) (count : nat) (s : bytes)
    : option (Z * nat * bytes) :=
  match s with
  | [] => Some (acc, count, s)
  | c :: s' =>
      match to_digit radix c with
      | None => Some (acc, count, s)
      | Some d =>
          if (max <? S count)%nat then None
          else read_digits radix max (acc * radix + d) (S count) s'
      end
  end.

(** [read_number(radix, Some(max_digits), allow_zero_prefix)] at an integer type
    whose largest value is [limit]. *)
Definition read_number (radix : Z) (max : nat) (allow_zero_prefix : bool) (limit : Z) : parser Z :=
  fun s =>
    let has_leading_zero := match s with c :: _ => bool_decide (c = "0"%char) | [] => false end in
    match read_digits radix max 0 0 s with
    | None => None
    | Some (v, count, rest) =>
        if (count =? 0)%nat then None
        else if negb allow_zero_prefix && has_leading_zero && (1 <? count)%nat then None
        else if v <=? limit then Some (v, rest) else None
    end.

(** [read_separator]: every item but the first is preceded by [sep]. *)
Definition read_separator {A} (sep : ascii) (index : nat) (inner : parser A) : parser A :=
  fun s => if (0 <? index)%nat then '(_, s) ← read_given_char sep s; inner s else inner s.

Definition read_ipv4_addr : parser Ipv4Addr := fun s =>
  let octet i := read_separator "."%char i (read_number 10 3 false 255) in
  '(o0, s) ← octet 0%nat s; '(o1, s) ← octet 1%nat s;
  '(o2, s) ← octet 2%nat s; '(o3, s) ← octet 3%nat s;
  Some (mkV4 o0 o1 o2 o3, s).

(** [read_groups] over the [n] slots left of a slice of [limit] slots, the
    groups read so far being [acc] (reversed).  Returns the groups and whether an
    embedded IPv4 address ended them. *)
Fixpoint read_groups (n i : nat) (acc : list Z) (s : bytes) : list Z * bool * bytes :=
  match n with
  | O => (reverse acc, false, s)
  | S n' =>
      let embedded :=
        if (1 <? n)%nat then read_separator ":"%char i read_ipv4_addr s else None in
      match embedded with
      | Some (ip, s) =>
          (reverse acc ++ [Z.lor (Z.shiftl (oct0 ip) 8) (oct1 ip);
                           Z.lor (Z.shiftl (oct2 ip) 8) (oct3 ip)], true, s)
      | None =>
          match read_separator ":"%char i (read_number 16 4 true 0xffff) s with
          | Some (g, s) => read_groups n' (S i) (g :: acc) s
          | None => (reverse acc, false, s)
          end
      end
  end.

Definition of_segments (l : list Z) : Ipv6Addr :=
  let g i := nth i l 0 in
  mkV6 (g 0%nat) (g 1%nat) (g 2%nat) (g 3%nat) (g 4%nat) (g 5%nat) (g 6%nat) (g 7%nat).

Definition read_ipv6_addr : parser Ipv6Addr := fun s =>
  let '(head, head_ipv4, s) := read_groups 8 0 [] s in
  if (length head =? 8)%nat then Some (of_segments head, s)
  else if head_ipv4 then None
  else
    '(_, s) ← read_given_char ":"%char s;
    '(_, s) ← read_given_char ":"%char s;
    let limit := (8 - (length head + 1))%nat in
    let '(tail, _, s) := read_groups limit 0 [] s in
    Some (of_segments (head ++ replicate (8 - length head - length tail) 0 ++ tail), s).

Definition read_ip_addr : parser IpAddr := fun s =>
  match read_ipv4_addr s with
  | Some (ip, s) => Some (V4 ip, s)
  | None => '(ip, s) ← read_ipv6_addr s; Some (V6 ip, s)
  end.
End Parser.

(** [str::parse::<IpAddr>().ok()]: the whole input must be consumed. *)
Definition parse_ip (s : string) : option IpAddr :=
  match Parser.read_ip_addr (to_bytes s) with
  | Some (ip, []) => Some ip
  | _ => None
  end.

(** ** Printing: the [Display] implementations *)
Definition digit_char (d : Z) : ascii := if d <? 10 then chr (48 + d) else chr (87 + d).
Fixpoint to_radix_fuel (fuel : nat) (radix n : Z) : bytes :=
  match fuel with
  | O => []
  | S fuel =>
      if n <? radix then [digit_char n]
      else to_radix_fuel fuel radix (n / radix) ++ [digit_char (n mod radix)]
  end.
(** Five digits are enough for a [u16] in radix 10 or 16. *)
Definition show_dec (n : Z) : bytes := to_radix_fuel 5 10 n.
Definition show_hex (n : Z) : bytes := to_radix_fuel 5 16 n.

Definition show_v4 (ip : Ipv4Addr) : bytes :=
  show_dec (oct0 ip) ++ "."%char :: show_dec (oct1 ip) ++ "."%char ::
  show_dec (oct2 ip) ++ "."%char :: show_dec (oct3 ip).

Fixpoint fmt_subslice (chunk : list Z) : bytes :=
  match chunk with
  | [] => []
  | [g] => show_hex g
  | g :: chunk => show_hex g ++ ":"%char :: fmt_subslice chunk
  end.

(** The first longest run of zero segments: [(start, len)]. *)
Fixpoint longest_zero_run (i : nat) (l : list Z) (cur best : nat * nat) : nat * nat :=
  match l with
  | [] => best
  | g :: l =>
      if g =? 0 then
        let cur := if (cur.2 =? 0)%nat then (i, 1%nat) else (cur.1, S cur.2) in
        longest_zero_run (S i) l cur (if (best.2 <? cur.2)%nat then cur else best)
      else longest_zero_run (S i) l (0%nat, 0%nat) best
  end.

Definition show_v6 (ip : Ipv6Addr) : bytes :=
  match to_ipv4_mapped ip with
  | Some v4 => to_bytes "::ffff:" ++ show_v4 v4
  | None =>
      let '(start, n) := longest_zero_run 0 (segments ip) (0, 0)%nat (0, 0)%nat in
      if (1 <? n)%nat then
        fmt_subslice (take start (segments ip)) ++ to_bytes "::" ++
        fmt_subslice (drop (start + n) (segments ip))
      else fmt_subslice (segments ip)
  end.

(** [IpAddr::to_string]. *)
Definition ip_to_string (ip : IpAddr) : string :=
  of_bytes (match ip with V4 ip => show_v4 ip | V6 ip => show_v6 ip end).

(** ** Classification for egress ([policy.rs]) *)

Definition v4_is_public_egress (ip : Ipv4Addr) : bool :=
  let o0 := oct0 ip in let o1 := oct1 ip in let o2 := oct2 ip in
  negb (o0 =? 0)
  && negb (v4_is_loopback ip)
  && negb (v4_is_private ip)
  && negb (v4_is_link_local ip)
  && negb (v4_is_multicast ip)
  && negb (v4_is_broadcast ip)
  && negb ((o0 =? 100) && (64 <=? o1) && (o1 <=? 127))
  && negb ((o0 =? 192) && (o1 =? 0) && (o2 =? 0))
  && negb ((o0 =? 192) && (o1 =? 0) && (o2 =? 2))
  && negb ((o0 =? 198) && (18 <=? o1) && (o1 <=? 19))
  && negb ((o0 =? 198) && (o1 =? 51) && (o2 =? 100))
  && negb ((o0 =? 203) && (o1 =? 0) && (o2 =? 113))
  && (o0 <? 240).

Definition is_public_egress_ip (ip : IpAddr) : bool :=
  match ip with
  | V4 ip => v4_is_public_egress ip
  | V6 ip =>
      match to_ipv4_mapped ip with
      | Some mapped => v4_is_public_egress mapped
      | None =>
          (Z.land (seg0 ip) 0xe000 =? 0x2000)
          && negb ((seg0 ip =? 0x2001) && (seg1 ip <=? 0x01ff))
          && negb ((seg0 ip =? 0x2001) && (seg1 ip =? 0x0db8))
          && negb (seg0 ip =? 0x2002)
          && negb ((seg0 ip =? 0x3fff) && (Z.land (seg1 ip) 0xf000 =? 0))
      end
  end.

Definition v4_is_opt_in_private (ip : Ipv4Addr) : bool := v4_is_private ip || v4_is_loopback ip.

Definition is_opt_in_private_ip (ip : IpAddr) : bool :=
  match ip with
  | V4 ip => v4_is_opt_in_private ip
  | V6 ip =>
      match to_ipv4_mapped ip with
      | Some mapped => v4_is_opt_in_private mapped
      | None => v6_is_loopback ip || (Z.land (seg0 ip) 0xfe00 =? 0xfc00)
      end
  end.

Definition is_host_connector_alias (host : string) (address : IpAddr) : bool :=
  match parse_ip host with
  | Some _ => false
  | None =>
      match address with
      | V4 address => (oct0 address =? 198) && ((oct1 address =? 18) || (oct1 address =? 19))
      | V6 _ => false
      end
  end.

Definition forbidden_vm_egress_address (address : IpAddr) : bool :=
  match address with
  | V6 _ => true
  | V4 ip =>
      let a := oct0 ip in let b := oct1 ip in let c := oct2 ip in
      v4_is_unspecified ip || v4_is_broadcast ip || v4_is_multicast ip || v4_is_link_local ip
      || (a =? 0) || (224 <=? a)
      || ((a =? 192) && (b =? 0) && (c =? 0))
      || ((a =? 192) && (b =? 0) && (c =? 2))
      || ((a =? 198) && ((b =? 18) || (b =? 19)))
      || ((a =? 198) && (b =? 51) && (c =? 100))
      || ((a =? 203) && (b =? 0) && (c =? 113))
  end.

(** The closure [canonical] of [NetworkRule::matches_ip]: an IPv4-mapped IPv6
    address denotes the IPv4 address it embeds. *)
Definition canonical (ip : IpAddr) : IpAddr :=
  match ip with
  | V6 ip => match to_ipv4_mapped ip with Some v4 => V4 v4 | None => V6 ip end
  | ip => ip
  end.

(** ** Lemmas *)

Lemma wf_v4_iff ip :
  wf_v4 ip <-> (0 <= oct0 ip < 256) /\ (0 <= oct1 ip < 256) /\ (0 <= oct2 ip < 256) /\ (0 <= oct3 ip < 256).
Proof. unfold wf_v4, is_uint. reflexivity. Qed.

Lemma lor_shift8 x y : 0 <= y < 256 -> Z.lor (Z.shiftl x 8) y = x * 256 + y.
Proof.
  intros Hy. assert (Z.land (Z.shiftl x 8) y = 0) as E.
  2:{ pose proof (Z.add_lor_land (Z.shiftl x 8) y) as H. rewrite E in H.
      rewrite Z.shiftl_mul_pow2 in * by lia. change (2 ^ 8) with 256 in *. lia. }
  apply Z.bits_inj'. intros n Hn. rewrite Z.land_spec, Z.bits_0.
  destruct (Z.ltb_spec n 8).
  - by rewrite Z.shiftl_spec_low.
  - rewrite (Z.bits_above_log2 y); [apply andb_false_r|lia|].
    destruct (decide (y = 0)) as [->|]; [cbn; lia|].
    assert (Z.log2 y < 8) by (apply Z.log2_lt_pow2; lia). lia.
Qed.

Lemma group_high x y : 0 <= y < 256 -> Z.shiftr (Z.lor (Z.shiftl x 8) y) 8 = x.
Proof.
  intros. rewrite lor_shift8, Z.shiftr_div_pow2 by lia. change (2 ^ 8) with 256.
  rewrite Z.div_add_l by lia. rewrite Z.div_small; lia.
Qed.
Lemma group_low x y : 0 <= y < 256 -> Z.land (Z.lor (Z.shiftl x 8) y) 255 = y.
Proof.
  intros. rewrite lor_shift8 by lia. change 255 with (Z.ones 8). rewrite Z.land_ones by lia.
  change (2 ^ 8) with 256. rewrite Z.add_comm, Z.mod_add, Z.mod_small; lia.
Qed.

Lemma to_ipv4_mapped_of_v4 ip : wf_v4 ip -> to_ipv4_mapped (to_ipv6_mapped ip) = Some ip.
Proof.
  intros (_ & H1 & _ & H3). unfold to_ipv6_mapped, to_ipv4_mapped. cbn -[Z.shiftl Z.lor].
  unfold v4_of_groups. rewrite !group_high, !group_low by done. by destruct ip.
Qed.

Lemma canonical_mapped ip : wf_v4 ip -> canonical (V6 (to_ipv6_mapped ip)) = V4 ip.
Proof. intros H. cbn [canonical]. by rewrite to_ipv4_mapped_of_v4. Qed.

Lemma canonical_idem ip : canonical (canonical ip) = canonical ip.
Proof. destruct ip as [ip|ip]; cbn; [done|]. destruct (to_ipv4_mapped ip) eqn:E; cbn; [done|]. by rewrite E. Qed.

Lemma public_egress_canonical ip : is_public_egress_ip (canonical ip) = is_public_egress_ip ip.
Proof. destruct ip as [ip|ip]; cbn; [done|]. destruct (to_ipv4_mapped ip) eqn:E; cbn; [done|]. by rewrite E. Qed.

Lemma opt_in_private_canonical ip : is_opt_in_private_ip (canonical ip) = is_opt_in_private_ip ip.
Proof. destruct ip as [ip|ip]; cbn; [done|]. destruct (to_ipv4_mapped ip) eqn:E; cbn; [done|]. by rewrite E. Qed.

Lemma v4_public_not_private ip : v4_is_public_egress ip = true -> v4_is_opt_in_private ip = false.
Proof. unfold v4_is_public_egress, v4_is_opt_in_private. destruct (v4_is_private ip), (v4_is_loopback ip); cbn; rewrite ?andb_false_r; auto. Qed.

Lemma land_submask x m n : Z.land m n = n -> Z.land (Z.land x m) n = Z.land x n.
Proof. intros H. by rewrite <- Z.land_assoc, H. Qed.

Lemma public_not_private ip : is_public_egress_ip ip = true -> is_opt_in_private_ip ip = false.
Proof.
  destruct ip as [ip|ip]; cbn; [apply v4_public_not_private|].
  destruct (to_ipv4_mapped ip) as [v4|]; [apply v4_public_not_private|].
  rewrite !andb_true_iff, Z.eqb_eq. intros ((((Hg & _) & _) & _) & _).
  apply orb_false_iff. split.
  - unfold v6_is_loopback. apply bool_decide_eq_false. by intros ->.
  - apply Z.eqb_neq. intros Hu.
    pose proof (land_submask (seg0 ip) 0xfe00 0xe000 eq_refl) as H.
    rewrite Hu, Hg in H. discriminate.
Qed.

Lemma forbidden_not_public ip :
  forbidden_vm_egress_address (V4 ip) = true -> is_public_egress_ip (V4 ip) = false.
Proof.
  destruct ip as [a b c d]. intros Hf. apply not_true_iff_false. intros Hp. revert Hf Hp.
  unfold forbidden_vm_egress_address, is_public_egress_ip, v4_is_public_egress, v4_is_unspecified,
    v4_is_broadcast, v4_is_multicast, v4_is_link_local; cbn [oct0 oct1 oct2 oct3].
  rewrite !andb_true_iff, !negb_true_iff.
  intros Hf ((((((((((((H0 & _) & _) & Hll) & Hmc) & Hbc) & _) & Hn0) & Hn2) & Hsl) & Ht2) & Ht3) & Hhi).
  rewrite !orb_true_iff in Hf. destruct_or! Hf; try congruence.
  - apply bool_decide_eq_true in Hf. by simplify_eq.
  - clear - Hf Hmc Hhi. lia.
  - clear - Hf Hsl. lia.
Qed.
