(* ===== verification/NetFacts.v ===== *)
(** * Facts about the textual form of addresses

    The address parser produces well-formed addresses, ignores the case of
    hexadecimal digits, and reads back what [Display] prints for IPv4. *)
From stdpp Require Import base tactics list strings.
From Stdlib Require Import ZArith Lia Ascii.
From S2P Require Import Prelude RustStr Net.
Import Parser.
Local Open Scope Z_scope.

(** Decides a property of bytes by running over all 256 of them. *)
Definition all_bytes : list ascii := (fun n => ascii_of_nat n) <$> seq 0 256.
Lemma all_bytes_complete c : c ∈ all_bytes.
Proof.
  apply list_elem_of_fmap. exists (nat_of_ascii c).
  rewrite ascii_nat_embedding, elem_of_seq. pose proof (nat_ascii_bounded c). split; [done|lia].
Qed.
Lemma forall_bytes (P : ascii -> Prop) `{forall c, Decision (P c)} :
  forallb (fun c => bool_decide (P c)) all_bytes = true -> forall c, P c.
Proof.
  rewrite forallb_forall. intros H' c.
  eapply bool_decide_eq_true_1, H', list_elem_of_In, all_bytes_complete.
Qed.

Lemma to_digit_lower10 : forall c, to_digit 10 (lower c) = to_digit 10 c.
Proof. apply (forall_bytes (fun c => to_digit 10 (lower c) = to_digit 10 c)). vm_compute. reflexivity. Qed.
Lemma to_digit_lower16 : forall c, to_digit 16 (lower c) = to_digit 16 c.
Proof. apply (forall_bytes (fun c => to_digit 16 (lower c) = to_digit 16 c)). vm_compute. reflexivity. Qed.
Lemma lower_dot : forall c, lower c = "."%char <-> c = "."%char.
Proof. apply (forall_bytes (fun c => lower c = "."%char <-> c = "."%char)). vm_compute. reflexivity. Qed.
Lemma lower_colon : forall c, lower c = ":"%char <-> c = ":"%char.
Proof. apply (forall_bytes (fun c => lower c = ":"%char <-> c = ":"%char)). vm_compute. reflexivity. Qed.
Lemma lower_zero : forall c, lower c = "0"%char <-> c = "0"%char.
Proof. apply (forall_bytes (fun c => lower c = "0"%char <-> c = "0"%char)). vm_compute. reflexivity. Qed.

(** ** Case-insensitivity *)

(** [p] gives the same value on a lower-cased input and leaves the lower-cased rest. *)
Definition case_insensitive {A} (p : parser A) : Prop :=
  forall s, p (map lower s) = (fun '(a, r) => (a, map lower r)) <$> p s.

Lemma read_given_char_ci c :
  (forall x, lower x = c <-> x = c) -> case_insensitive (read_given_char c).
Proof.
  intros Hc [|x s]; cbn; [done|].
  specialize (Hc x). destruct (decide (x = c)), (decide (lower x = c)); naive_solver.
Qed.

Lemma read_digits_ci radix max s :
  (forall c, to_digit radix (lower c) = to_digit radix c) -> forall acc count,
  read_digits radix max acc count (map lower s) =
  (fun '(v, n, r) => (v, n, map lower r)) <$> read_digits radix max acc count s.
Proof.
  intros Hd. induction s as [|c s IH]; intros acc count; cbn; [done|].
  rewrite Hd. destruct (to_digit radix c); [|done]. case_match; [done|apply IH].
Qed.

Lemma read_number_ci radix max zp limit :
  (forall c, to_digit radix (lower c) = to_digit radix c) ->
  case_insensitive (read_number radix max zp limit).
Proof.
  intros Hd s. unfold read_number. rewrite read_digits_ci by done.
  destruct (read_digits radix max 0 0 s) as [[[v n] r]|]; cbn; [|done].
  assert ((match map lower s with c :: _ => bool_decide (c = "0"%char) | [] => false end) =
          (match s with c :: _ => bool_decide (c = "0"%char) | [] => false end)) as ->.
  { destruct s; cbn; [done|]. apply bool_decide_ext, lower_zero. }
  repeat case_match; done.
Qed.

Lemma read_separator_ci {A} sep i (p : parser A) :
  (forall x, lower x = sep <-> x = sep) -> case_insensitive p ->
  case_insensitive (read_separator sep i p).
Proof.
  intros Hs Hp s. unfold read_separator. case_match; [|apply Hp].
  rewrite read_given_char_ci by done. destruct (read_given_char sep s) as [[[] r]|]; cbn; [apply Hp|done].
Qed.

Lemma read_octet_ci i : case_insensitive (read_separator "."%char i (read_number 10 3 false 255)).
Proof. apply read_separator_ci; [apply lower_dot|]. apply read_number_ci, to_digit_lower10. Qed.

Lemma read_ipv4_addr_ci : case_insensitive read_ipv4_addr.
Proof.
  intros s. unfold read_ipv4_addr. do 4 (
    rewrite read_octet_ci;
    match goal with |- context [read_separator _ ?i _ ?s] =>
      destruct (read_separator "."%char i (read_number 10 3 false 255) s) as [[? ?]|]; cbn -[read_separator]; [|done]
    end). done.
Qed.

Lemma read_groups_ci n : forall i acc s,
  read_groups n i acc (map lower s) =
  (fun '(g, e, r) => (g, e, map lower r)) (read_groups n i acc s).
Proof.
  induction n as [|n IH]; intros i acc s; [done|].
  cbn -[read_separator read_ipv4_addr read_number Nat.ltb].
  rewrite (read_separator_ci _ _ _ lower_colon read_ipv4_addr_ci).
  rewrite (read_separator_ci _ _ _ lower_colon (read_number_ci 16 4 true 65535 to_digit_lower16)).
  destruct (1 <? S n)%nat.
  - destruct (read_separator ":"%char i read_ipv4_addr s) as [[? ?]|]; cbn -[read_separator read_number]; [done|].
    destruct (read_separator ":"%char i (read_number 16 4 true 65535) s) as [[? ?]|]; cbn; [apply IH|done].
  - destruct (read_separator ":"%char i (read_number 16 4 true 65535) s) as [[? ?]|]; cbn; [apply IH|done].
Qed.

Lemma read_ipv6_addr_ci : case_insensitive read_ipv6_addr.
Proof.
  intros s. unfold read_ipv6_addr. rewrite read_groups_ci.
  destruct (read_groups 8 0 [] s) as [[head e] r]. case_match; [done|]. destruct e; [done|].
  rewrite read_given_char_ci by apply lower_colon.
  destruct (read_given_char ":"%char r) as [[[] r']|]; cbn -[read_groups]; [|done].
  rewrite read_given_char_ci by apply lower_colon.
  destruct (read_given_char ":"%char r') as [[[] r'']|]; cbn -[read_groups]; [|done].
  rewrite read_groups_ci. by destruct (read_groups _ 0 [] r'') as [[tail ?] ?].
Qed.

Lemma parse_ip_lower s : parse_ip (to_ascii_lowercase s) = parse_ip s.
Proof.
  unfold parse_ip, read_ip_addr, to_ascii_lowercase. rewrite to_of_bytes, read_ipv4_addr_ci.
  destruct (read_ipv4_addr (to_bytes s)) as [[ip [|]]|]; cbn -[read_ipv6_addr]; [done..|].
  rewrite read_ipv6_addr_ci. by destruct (read_ipv6_addr (to_bytes s)) as [[ip [|]]|].
Qed.

(** ** Well-formedness *)

Lemma to_digit_bound radix c d : to_digit radix c = Some d -> 0 <= d < radix.
Proof.
  unfold to_digit, is_ascii_digit, in_range. intros (v & Hv & Hd)%bind_Some.
  destruct (Z.ltb_spec v radix); [|done]. simplify_eq.
  repeat case_match; simplify_eq; lia.
Qed.

Lemma read_digits_nonneg radix max s : 0 <= radix -> forall acc count v n r,
  0 <= acc -> read_digits radix max acc count s = Some (v, n, r) -> 0 <= v.
Proof.
  intros Hr. induction s as [|c s IH]; intros acc count v n r Hacc; cbn; [naive_solver|].
  destruct (to_digit radix c) as [d|] eqn:Hd; [|naive_solver].
  case_match; [done|]. apply IH. apply to_digit_bound in Hd. nia.
Qed.

Lemma read_number_bound radix max zp limit s v r :
  0 <= radix -> read_number radix max zp limit s = Some (v, r) -> 0 <= v <= limit.
Proof.
  intros Hr. unfold read_number.
  destruct (read_digits radix max 0 0 s) as [[[v' n] r']|] eqn:E; [|done].
  apply read_digits_nonneg in E; [|done..]. repeat case_match; naive_solver lia.
Qed.

Lemma read_separator_Some {A} sep i (p : parser A) s a r :
  read_separator sep i p s = Some (a, r) -> exists s', p s' = Some (a, r).
Proof. unfold read_separator. case_match; [|eauto]. intros ([[] s'] & _ & ?)%bind_Some. eauto. Qed.

Lemma read_ipv4_addr_wf s ip r : read_ipv4_addr s = Some (ip, r) -> wf_v4 ip.
Proof.
  unfold read_ipv4_addr. intros H.
  repeat match type of H with
  | mbind _ _ = Some _ => let Ho := fresh "Ho" in apply bind_Some in H as ([? ?] & Ho & H)
  end.
  simplify_eq. apply wf_v4_iff; cbn.
  repeat match goal with Ho : _ = Some _ |- _ =>
    apply read_separator_Some in Ho as [? Ho]; apply read_number_bound in Ho; [|lia]
  end. lia.
Qed.

Lemma group_bound x y : 0 <= x < 256 -> 0 <= y < 256 -> is_u16 (Z.lor (Z.shiftl x 8) y).
Proof. intros. rewrite lor_shift8 by lia. unfold is_uint. change (2 ^ 16) with 65536. lia. Qed.

Lemma read_groups_wf n : forall i acc s g e r,
  Forall is_u16 acc -> read_groups n i acc s = (g, e, r) -> Forall is_u16 g.
Proof.
  induction n as [|n IH]; intros i acc s g e r Hacc.
  { cbn. intros [= <- <- <-]. by apply Forall_reverse. }
  cbn -[read_separator read_ipv4_addr read_number Nat.ltb].
  destruct (if (1 <? S n)%nat then _ else _) as [[ip s']|] eqn:E.
  - intros [= <- <- <-]. destruct (1 <? S n)%nat; [|done].
    apply read_separator_Some in E as [? (?&?&?&?)%read_ipv4_addr_wf%wf_v4_iff].
    apply Forall_app; split; [by apply Forall_reverse|].
    rewrite !Forall_cons. split_and!; [apply group_bound; done.. | constructor].
  - destruct (read_separator _ i (read_number 16 4 true 65535) s) as [[v s']|] eqn:E'.
    + intros H. eapply IH; [|exact H]. constructor; [|done].
      apply read_separator_Some in E' as [? E']. apply read_number_bound in E'; [|lia].
      unfold is_uint. change (2 ^ 16) with 65536. lia.
    + intros [= <- <- <-]. by apply Forall_reverse.
Qed.

Lemma of_segments_wf l : Forall is_u16 l -> wf_v6 (of_segments l).
Proof.
  intros Hl. assert (forall i, is_u16 (nth i l 0)) as Hg.
  { intros i. revert i. induction Hl as [|x l Hx Hl IH]; intros [|i]; cbn; auto; unfold is_uint; lia. }
  unfold wf_v6, of_segments, segments; cbn. by rewrite !Forall_cons, Forall_nil; split_and!; auto.
Qed.

Lemma read_ipv6_addr_wf s ip r : read_ipv6_addr s = Some (ip, r) -> wf_v6 ip.
Proof.
  unfold read_ipv6_addr. destruct (read_groups 8 0 [] s) as [[head e] s1] eqn:Eh.
  apply read_groups_wf in Eh; [|constructor].
  case_match; [intros [= <- <-]; by apply of_segments_wf|]. clear H. destruct e; [done|].
  intros ([[] s2] & _ & ([[] s3] & _ & H)%bind_Some)%bind_Some.
  destruct (read_groups _ 0 [] s3) as [[tail e'] s4] eqn:Et.
  apply read_groups_wf in Et; [|constructor]. simplify_eq. apply of_segments_wf.
  repeat (apply Forall_app; split); auto.
  apply Forall_replicate. unfold is_uint. lia.
Qed.

Lemma parse_ip_wf s ip : parse_ip s = Some ip -> wf_ip ip.
Proof.
  unfold parse_ip, read_ip_addr. destruct (read_ipv4_addr _) as [[v4 r]|] eqn:E4.
  - destruct r; [|done]. intros [= <-]. by apply read_ipv4_addr_wf in E4.
  - destruct (read_ipv6_addr _) as [[v6 r]|] eqn:E6; cbn; [|done].
    destruct r; [|done]. intros [= <-]. by apply read_ipv6_addr_wf in E6.
Qed.

(** ** Round trip *)

(** Every octet's decimal form is read back, whatever follows it up to a dot. *)
Definition octet_reads (n : nat) : Prop :=
  (forall r, read_number 10 3 false 255 (show_dec (Z.of_nat n) ++ "."%char :: r) = Some (Z.of_nat n, "."%char :: r)) /\
  read_number 10 3 false 255 (show_dec (Z.of_nat n)) = Some (Z.of_nat n, []).

Lemma octets_read : forall n, (n < 256)%nat -> octet_reads n.
Proof.
  assert (Forall octet_reads (seq 0 256)) as H.
  { repeat (apply List.Forall_cons; [split; [intros r|]; vm_compute; reflexivity|]). constructor. }
  intros n Hn. rewrite Forall_forall in H. apply H, elem_of_seq. lia.
Qed.

Lemma octet_read_dot n r :
  0 <= n < 256 -> read_number 10 3 false 255 (show_dec n ++ "."%char :: r) = Some (n, "."%char :: r).
Proof. intros H. destruct (octets_read (Z.to_nat n)) as [Hd _]; [lia|]. rewrite Z2Nat.id in Hd by lia. apply Hd. Qed.
Lemma octet_read_end n : 0 <= n < 256 -> read_number 10 3 false 255 (show_dec n) = Some (n, []).
Proof. intros H. destruct (octets_read (Z.to_nat n)) as [_ He]; [lia|]. by rewrite Z2Nat.id in He by lia. Qed.

Lemma parse_show_v4 ip : wf_v4 ip -> parse_ip (ip_to_string (V4 ip)) = Some (V4 ip).
Proof.
  rewrite wf_v4_iff. intros (H0 & H1 & H2 & H3).
  unfold parse_ip, ip_to_string, read_ip_addr, read_ipv4_addr, show_v4. rewrite to_of_bytes.
  unfold read_separator; cbn -[read_number show_dec]. rewrite octet_read_dot by done.
  cbn -[read_number show_dec]. rewrite decide_True by done.
  cbn -[read_number show_dec]. rewrite octet_read_dot by done.
  cbn -[read_number show_dec]. rewrite decide_True by done.
  cbn -[read_number show_dec]. rewrite octet_read_dot by done.
  cbn -[read_number show_dec]. rewrite decide_True by done.
  cbn -[read_number show_dec]. rewrite octet_read_end by done. by destruct ip.
Qed.

(** ** What a parsed address ends in *)

(** A parser that consumes something whose last byte is not a dot. *)
Definition tidy {A} (p : parser A) : Prop :=
  forall s a r, p s = Some (a, r) -> exists d x, s = d ++ x :: r /\ x <> "."%char.

Lemma to_digit_dot radix : to_digit radix "."%char = None.
Proof. done. Qed.

Lemma read_digits_consumes radix max s : forall acc count v n r,
  read_digits radix max acc count s = Some (v, n, r) ->
  (n = count /\ r = s) \/ exists d x, s = d ++ x :: r /\ x <> "."%char.
Proof.
  induction s as [|c s IH]; intros acc count v n r; cbn; [intros [= _ <- <-]; by left|].
  destruct (to_digit radix c) eqn:Ed; [|intros [= _ <- <-]; by left].
  case_match; [done|]. intros Hd. right. apply IH in Hd as [[_ ->]|(d & x & -> & ?)].
  - exists [], c. split; [done|]. intros ->. by rewrite to_digit_dot in Ed.
  - by exists (c :: d), x.
Qed.

Lemma read_number_tidy radix max zp limit : tidy (read_number radix max zp limit).
Proof.
  intros s a r. unfold read_number. destruct (read_digits radix max 0 0 s) as [[[v n] rest]|] eqn:E; [|done].
  apply read_digits_consumes in E as [[-> _]|Hc]; [done|].
  destruct (n =? 0)%nat; [done|]. destruct (negb zp && _ && _); [done|].
  destruct (v <=? limit); [|done]. by intros [= _ <-].
Qed.

Lemma read_separator_tidy {A} sep i (p : parser A) : tidy p -> tidy (read_separator sep i p).
Proof.
  intros Hp s a r. unfold read_separator. destruct (0 <? i)%nat; [|apply Hp].
  intros ([[] s'] & Hc & Hs)%bind_Some. apply Hp in Hs as (d & x & -> & ?).
  destruct s as [|y s]; cbn in Hc; [done|]. case_match; simplify_eq. by exists (sep :: d), x.
Qed.

Lemma read_ipv4_addr_tidy : tidy read_ipv4_addr.
Proof.
  intros s ip r. unfold read_ipv4_addr. intros H.
  do 4 (let s' := fresh "s" in let E := fresh "E" in
    apply bind_Some in H as ([? s'] & E%(read_separator_tidy _ _ _ (read_number_tidy _ _ _ _)) & H)).
  destruct E as (d0 & x0 & -> & _), E0 as (d1 & x1 & -> & _), E1 as (d2 & x2 & -> & _), E2 as (d3 & x3 & -> & ?).
  injection H as _ <-. exists (d0 ++ x0 :: d1 ++ x1 :: d2 ++ x2 :: d3), x3. split; [|done].
  by rewrite <- !app_assoc; cbn; rewrite <- !app_assoc; cbn; rewrite <- !app_assoc.
Qed.

Lemma read_groups_tidy n : forall i acc s g e r, read_groups n i acc s = (g, e, r) ->
  (r = s /\ g = reverse acc) \/ exists d x, s = d ++ x :: r /\ x <> "."%char.
Proof.
  induction n as [|n IH]; intros i acc s g e r; cbn [read_groups]; [intros [= <- _ <-]; by left|].
  destruct (if (1 <? S n)%nat then _ else _) as [[ip s']|] eqn:E4.
  - intros [= _ _ <-]. right. case_match; [|done].
    by apply (read_separator_tidy _ _ _ read_ipv4_addr_tidy) in E4.
  - destruct (read_separator ":"%char i (read_number 16 4 true 0xffff) s) as [[v s']|] eqn:En;
      [|intros [= <- _ <-]; by left].
    apply (read_separator_tidy _ _ _ (read_number_tidy _ _ _ _)) in En as (d & x & -> & ?).
    intros [[-> _]|(d' & x' & -> & ?)]%IH; right; [by exists d, x|].
    exists (d ++ x :: d'), x'. by rewrite <- app_assoc.
Qed.

Lemma read_given_char_Some c s u r : read_given_char c s = Some (u, r) -> s = c :: r.
Proof. destruct s as [|x s]; cbn; [done|]. case_match; naive_solver. Qed.

Lemma read_ipv6_addr_tidy : tidy read_ipv6_addr.
Proof.
  intros s ip r. unfold read_ipv6_addr. destruct (read_groups 8 0 [] s) as [[head e] s1] eqn:Eh.
  case_match eqn:El.
  - intros [= _ <-]. by apply read_groups_tidy in Eh as [[_ ->]|?].
  - destruct e; [done|]. intros ([[] s2] & ->%read_given_char_Some & H)%bind_Some.
    apply bind_Some in H as ([[] s3] & ->%read_given_char_Some & H).
    destruct (read_groups _ 0 [] s3) as [[tail e'] s4] eqn:Et. injection H as _ <-.
    assert (exists d x, ":"%char :: s3 = d ++ x :: s4 /\ x <> "."%char) as (d & x & Hd & ?).
    { apply read_groups_tidy in Et as [[-> _]|(d & x & -> & ?)]; [by exists [], ":"%char|by exists (":"%char :: d), x]. }
    apply read_groups_tidy in Eh as [[<- _]|(d' & x' & -> & ?)].
    + exists (":"%char :: d), x. by rewrite Hd.
    + exists (d' ++ x' :: ":"%char :: d), x. rewrite Hd. by rewrite <- app_assoc.
Qed.

(** The text of an address does not end in a dot. *)
Lemma parse_ip_last s ip : parse_ip s = Some ip -> exists d x, to_bytes s = d ++ [x] /\ x <> "."%char.
Proof.
  unfold parse_ip, read_ip_addr. destruct (read_ipv4_addr _) as [[v4 r]|] eqn:E4.
  - apply read_ipv4_addr_tidy in E4. by destruct r.
  - destruct (read_ipv6_addr _) as [[v6 r]|] eqn:E6; cbn; [|done].
    apply read_ipv6_addr_tidy in E6. by destruct r.
Qed.
