(* ===== verification/Types.v ===== *)
(** * Value types of the network and model policies

    The data of [pvisor-core/src/execution.rs] and [session.rs] that describe
    network capabilities, requests and decisions. Field names carry a prefix
    for their struct; a [Vec] is a list, a [u16] port is a [Z]. *)
From stdpp Require Import base tactics list strings gmap sorting.
From Stdlib Require Import ZArith.
From S2P Require Import Prelude RustStr Net.
Local Open Scope Z_scope.

(** [session.rs]: [PolicyScope], ordered [User < Workspace < Session]. *)
Inductive PolicyScope := User | Workspace | Session.
#[export] Instance policy_scope_eq_dec : EqDecision PolicyScope.
Proof. solve_decision. Defined.
Definition scope_rank (s : PolicyScope) : nat :=
  match s with User => 0 | Workspace => 1 | Session => 2 end.

(** [sort_by_key(|(scope, _)| Reverse( *scope))]. *)
Definition scope_ge {A} (x y : PolicyScope * A) : bool := (scope_rank y.1 <=? scope_rank x.1)%nat.
Definition sort_scopes {A} : list (PolicyScope * A) -> list (PolicyScope * A) := sort_by scope_ge.

Inductive NetworkTransport := Http | Https | TcpTunnel.
#[export] Instance transport_eq_dec : EqDecision NetworkTransport.
Proof. solve_decision. Defined.

Inductive NetworkDefaultAction := ActionAllow | ActionDeny.
#[export] Instance default_action_eq_dec : EqDecision NetworkDefaultAction.
Proof. solve_decision. Defined.

Record NetworkAccessRule := mkAccessRule {
  nar_host : string;
  nar_ports : list Z;
  nar_transports : list NetworkTransport;
  nar_allow_private_ips : bool
}.
#[export] Instance access_rule_eq_dec : EqDecision NetworkAccessRule.
Proof. solve_decision. Defined.

Record NetworkBandwidthLimit := mkLimit {
  nbl_host : option string;
  nbl_port : option Z;
  nbl_bytes_per_second : Z
}.
#[export] Instance limit_eq_dec : EqDecision NetworkBandwidthLimit.
Proof. solve_decision. Defined.
#[export] Instance limit_countable : Countable NetworkBandwidthLimit.
Proof.
  refine (inj_countable' (fun l => (nbl_host l, nbl_port l, nbl_bytes_per_second l))
    (fun '(h, p, r) => mkLimit h p r) _). by intros [].
Defined.

(** [session.rs]: [NetworkPolicyLayer]. *)
Record NetworkPolicyLayer := mkLayer {
  npl_default_action : option NetworkDefaultAction;
  npl_allow : list NetworkAccessRule;
  npl_deny : list NetworkAccessRule;
  npl_limits : list NetworkBandwidthLimit
}.

Inductive NetworkCapability :=
| Scoped (layers : list (PolicyScope * NetworkPolicyLayer)) (fallback : NetworkCapability)
| Ambient
| Deny
| AllowList (hosts : list string) (rules : list NetworkAccessRule)
| Policy (default_action : NetworkDefaultAction) (allow deny : list NetworkAccessRule)
    (limits : list NetworkBandwidthLimit).

Definition is_scoped (c : NetworkCapability) : bool :=
  match c with Scoped _ _ => true | _ => false end.

Record NetworkAccessRequest := mkRequest {
  req_run_id : option string;
  req_execution_id : option string;
  req_host : string;
  req_port : option Z;
  req_transport : NetworkTransport;
  req_resolved_ip : option IpAddr
}.

(** [logical_request.resolved_ip = None]. *)
Definition without_resolved_ip (r : NetworkAccessRequest) : NetworkAccessRequest :=
  mkRequest (req_run_id r) (req_execution_id r) (req_host r) (req_port r) (req_transport r) None.

Record ModelCallRequest := mkModelCall {
  mcr_run_id : option string;
  mcr_execution_id : option string;
  mcr_call_id : string;
  mcr_client_model : string;
  mcr_upstream_model : string;
  mcr_provider : string;
  mcr_protocol : string;
  mcr_upstream_host : string
}.

Record ModelAccessPolicy := mkModelPolicy {
  allowed_models : list string;
  allowed_providers : list string
}.

Inductive AccessEffect := EffectAllow | EffectDeny.
#[export] Instance access_effect_eq_dec : EqDecision AccessEffect.
Proof. solve_decision. Defined.

Inductive AccessReason :=
| AmbientNetwork | TrustedLocal | NetworkAllowList | NetworkDenied | NetworkAllowListEmpty
| HostNotAllowed | PortNotAllowed | TransportNotAllowed | ResolvedAddressNotAllowed
| ExplicitlyDenied | ModelAllowed | ModelNotAllowed | ProviderNotAllowed.
#[export] Instance access_reason_eq_dec : EqDecision AccessReason.
Proof. solve_decision. Defined.

(** [AccessReason::code]. *)
Definition reason_code (r : AccessReason) : string :=
  match r with
  | AmbientNetwork => "ambient-network"
  | TrustedLocal => "trusted-local"
  | NetworkAllowList => "network-allowlist"
  | NetworkDenied => "network-denied"
  | NetworkAllowListEmpty => "network-allowlist-empty"
  | HostNotAllowed => "host-not-allowed"
  | PortNotAllowed => "port-not-allowed"
  | TransportNotAllowed => "transport-not-allowed"
  | ResolvedAddressNotAllowed => "resolved-address-not-allowed"
  | ExplicitlyDenied => "explicitly-denied"
  | ModelAllowed => "model-allowed"
  | ModelNotAllowed => "model-not-allowed"
  | ProviderNotAllowed => "provider-not-allowed"
  end.

(** ** Lemmas *)

Lemma scope_rank_inj s t : scope_rank s = scope_rank t -> s = t.
Proof. by destruct s, t. Qed.

Lemma reason_code_inj r r' : reason_code r = reason_code r' -> r = r'.
Proof. by destruct r, r'. Qed.

Section SortScopes.
Context {A : Type}.
Implicit Types l : list (PolicyScope * A).

Lemma scope_ge_trans (x y z : PolicyScope * A) :
  scope_ge x y = true -> scope_ge y z = true -> scope_ge x z = true.
Proof. unfold scope_ge. rewrite !Nat.leb_le. lia. Qed.
Lemma scope_ge_total (x y : PolicyScope * A) : scope_ge x y = false -> scope_ge y x = true.
Proof. unfold scope_ge. rewrite Nat.leb_gt, Nat.leb_le. lia. Qed.

Lemma sort_scopes_perm l : sort_scopes l ≡ₚ l.
Proof. apply sort_by_perm. Qed.
Lemma sort_scopes_sorted l : StronglySorted (fun x y => scope_ge x y = true) (sort_scopes l).
Proof. apply sort_by_sorted; [apply scope_ge_trans | apply scope_ge_total]. Qed.
Lemma sort_scopes_idem l : sort_scopes (sort_scopes l) = sort_scopes l.
Proof. apply sort_by_idem; [apply scope_ge_trans | apply scope_ge_total]. Qed.

(** With distinct scopes the sorted list does not depend on the input order. *)
Lemma sort_scopes_unique l l' :
  NoDup l.*1 -> l ≡ₚ l' -> sort_scopes l = sort_scopes l'.
Proof.
  intros Hnd Hp. eapply sorted_perm_unique; [|apply sort_scopes_sorted..|].
  2:{ by rewrite !sort_scopes_perm. }
  intros [s x] [t y]. rewrite !sort_scopes_perm. unfold scope_ge; cbn.
  rewrite !Nat.leb_le. intros Hx Hy ? ?.
  assert (s = t) as <- by (apply scope_rank_inj; lia).
  apply list_elem_of_lookup in Hx as [i Hi], Hy as [j Hj].
  assert (i = j) as <-.
  { eapply NoDup_lookup; [exact Hnd|..]; rewrite list_lookup_fmap; [by rewrite Hi | by rewrite Hj]. }
  congruence.
Qed.
End SortScopes.
