(* ===== verification/Control.v ===== *)
(** * Control transitions

    [ControlTransition] and [ControlMachine] of [pvisor-core/src/policy.rs]: one
    request is authorized by a controller, then applied or failed, and the
    machine keeps the history of its transitions. *)
From stdpp Require Import base tactics list strings relations.
From S2P Require Import Prelude Types.

Inductive ControlState :=
| Requested
| Allowed
| Denied
| Applied (effect : AccessEffect)
| Failed (effect : AccessEffect).
#[export] Instance control_state_eq_dec : EqDecision ControlState.
Proof. solve_decision. Defined.

Record ControlTransition := mkTransition {
  ct_from : ControlState;
  ct_to : ControlState;
  ct_reason : AccessReason
}.
#[export] Instance control_transition_eq_dec : EqDecision ControlTransition.
Proof. solve_decision. Defined.

Definition allowed (reason : AccessReason) : ControlTransition := mkTransition Requested Allowed reason.
Definition denied (reason : AccessReason) : ControlTransition := mkTransition Requested Denied reason.

Definition is_allowed (t : ControlTransition) : bool :=
  match ct_to t with
  | Allowed | Applied EffectAllow => true
  | _ => false
  end.

Inductive ControlError :=
| AlreadyAuthorized (s : ControlState)
| InvalidAuthorization (from to : ControlState)
| NotAuthorized
| CannotApply (s : ControlState)
| StateMismatch (current from : ControlState).

(** [ControlTransition::follow]; [applied] and [failed] fix its argument. *)
Definition follow (t : ControlTransition) (applied : bool) : Result ControlError ControlTransition :=
  effect ← match ct_to t with
           | Allowed => Ok EffectAllow
           | Denied => Ok EffectDeny
           | s => Err (CannotApply s)
           end;
  Ok (mkTransition (ct_to t) (if applied then Applied effect else Failed effect) (ct_reason t)).

Record ControlMachine := mkMachine {
  cm_state : ControlState;
  cm_history : list ControlTransition
}.

Definition machine_new : ControlMachine := mkMachine Requested [].

(** An operation of the machine returns its result and the machine afterwards. *)
Definition commit (m : ControlMachine) (t : ControlTransition)
    : Result ControlError ControlTransition * ControlMachine :=
  if decide (ct_from t = cm_state m)
  then (Ok t, mkMachine (ct_to t) (cm_history m ++ [t]))
  else (Err (StateMismatch (cm_state m) (ct_from t)), m).

(** The trait [ControlController]. An implementation may keep state of its own
    behind [&self], so a call returns the controller afterwards as well. *)
Class ControlController (Req C : Type) :=
  controller_authorize : C -> Req -> ControlTransition * C.

Definition is_decision (s : ControlState) : bool :=
  match s with Allowed | Denied => true | _ => false end.

Definition machine_authorize {Req C} `{!ControlController Req C}
    (m : ControlMachine) (c : C) (request : Req)
    : Result ControlError ControlTransition * ControlMachine * C :=
  if negb (bool_decide (cm_state m = Requested))
  then (Err (AlreadyAuthorized (cm_state m)), m, c)
  else
    let '(t, c) := controller_authorize c request in
    if negb (bool_decide (ct_from t = Requested)) || negb (is_decision (ct_to t))
    then (Err (InvalidAuthorization (ct_from t) (ct_to t)), m, c)
    else (commit m t, c).

Definition machine_follow (applied : bool) (m : ControlMachine)
    : Result ControlError ControlTransition * ControlMachine :=
  match last (cm_history m) with
  | None => (Err NotAuthorized, m)
  | Some t => match follow t applied with
              | Ok t' => commit m t'
              | Err e => (Err e, m)
              end
  end.

(** [ControlMachine::applied] and [ControlMachine::failed]. *)
Definition machine_applied : ControlMachine -> Result ControlError ControlTransition * ControlMachine :=
  machine_follow true.
Definition machine_failed : ControlMachine -> Result ControlError ControlTransition * ControlMachine :=
  machine_follow false.

(** ** Reachable machines *)

(** One call of a machine operation, with any controller. *)
Inductive machine_step : ControlMachine -> ControlMachine -> Prop :=
| step_authorize Req C (ctl : ControlController Req C) m (c : C) (request : Req) :
    machine_step m (machine_authorize m c request).1.2
| step_applied m : machine_step m (machine_applied m).2
| step_failed m : machine_step m (machine_failed m).2.

Definition machine_reachable (m : ControlMachine) : Prop := rtc machine_step machine_new m.

Definition effect_of (s : ControlState) : option AccessEffect :=
  match s with Allowed => Some EffectAllow | Denied => Some EffectDeny | _ => None end.

(** The shape of a machine's life: nothing yet, one decision, or one decision
    and its application or failure with the effect of that decision. *)
Definition machine_wf (m : ControlMachine) : Prop :=
  match cm_history m with
  | [] => cm_state m = Requested
  | [t] => ct_from t = Requested /\ is_Some (effect_of (ct_to t)) /\ cm_state m = ct_to t
  | [t; u] =>
      ct_from t = Requested /\ ct_from u = ct_to t /\ ct_reason u = ct_reason t /\
      cm_state m = ct_to u /\
      exists e, effect_of (ct_to t) = Some e /\ (ct_to u = Applied e \/ ct_to u = Failed e)
  | _ => False
  end.

Lemma machine_new_wf : machine_wf machine_new.
Proof. done. Qed.

Lemma machine_wf_requested m : machine_wf m -> cm_state m = Requested -> cm_history m = [].
Proof.
  destruct m as [s [|t [|u [|]]]]; cbn; [done|..|done].
  - intros (_ & [e He] & ->) H. by rewrite H in He.
  - intros (_ & _ & _ & -> & e & _ & [|]); congruence.
Qed.

Lemma machine_authorize_wf {Req C} `{!ControlController Req C} m (c : C) (request : Req) :
  machine_wf m -> machine_wf (machine_authorize m c request).1.2.
Proof.
  intros Hm. unfold machine_authorize. case_bool_decide as Hs; cbn; [|done].
  destruct (controller_authorize c request) as [t c']. case_bool_decide as Hf; cbn; [|done].
  destruct (ct_to t) eqn:Ht; cbn; try done;
    unfold commit; rewrite decide_True by congruence; cbn;
    rewrite (machine_wf_requested m Hm Hs); unfold machine_wf; cbn; rewrite Ht; eauto.
Qed.

Lemma machine_follow_wf b m : machine_wf m -> machine_wf (machine_follow b m).2.
Proof.
  destruct m as [s [|t [|u [|]]]]; cbn; [done|..|done].
  - intros (Hf & He & ->). unfold machine_follow; cbn.
    destruct t as [f [] r]; cbn in *; try by destruct He as [? ?].
    all: unfold commit; rewrite decide_True by done; destruct b; unfold machine_wf; cbn; naive_solver.
  - intros (? & ? & ? & ? & e & ? & Hu). unfold machine_follow; cbn.
    destruct u as [f s' r]; cbn in *. destruct Hu as [-> | ->]; cbn; naive_solver.
Qed.

Lemma machine_step_wf m m' : machine_step m m' -> machine_wf m -> machine_wf m'.
Proof. intros [] ?; [by apply machine_authorize_wf | by apply machine_follow_wf..]. Qed.

Lemma reachable_machine_wf m : machine_reachable m -> machine_wf m.
Proof.
  intros H. unfold machine_reachable in H. assert (machine_wf machine_new) as Hw by apply machine_new_wf.
  induction H; [done|]. eauto using machine_step_wf.
Qed.

(** What a fresh machine answers is decided by the controller's transition. *)
Lemma machine_authorize_new {Req C} `{!ControlController Req C} (c : C) (request : Req) r m c' :
  machine_authorize machine_new c request = (r, m, c') ->
  let t := (controller_authorize c request).1 in
  c' = (controller_authorize c request).2 /\
  (r = Ok t /\ ct_from t = Requested /\ is_decision (ct_to t) = true \/
   exists e, r = Err e /\ (ct_from t <> Requested \/ is_decision (ct_to t) = false)).
Proof.
  unfold machine_authorize. rewrite (bool_decide_eq_true_2 (cm_state machine_new = Requested)) by done.
  cbn. destruct (controller_authorize c request) as [t c1]; cbn.
  case_bool_decide as Hf; cbn; [|intros; simplify_eq; split; [done|]; right; eauto].
  destruct (is_decision (ct_to t)) eqn:Hd; cbn; [|intros; simplify_eq; split; [done|]; right; eauto].
  unfold commit; cbn. rewrite decide_True by done. intros; simplify_eq. auto.
Qed.
