(* ===== verification/Policy.v ===== *)
(** * Network guard and model policy

    [pvisor-core/src/policy.rs]: parsing of network rules, the compiled
    [NetworkGuard], its evaluation, and the controller [PolicyControlController];
    [model_matches] of [pvisor-core/src/gateway.rs].

    CIDR blocks come from the crate [ipnet], which is not part of this
    repository: the class [IpNetOps] names the operations the code calls. *)
From stdpp Require Import base tactics list strings sets.
From Stdlib Require Import ZArith Lia Ascii.
From S2P Require Import Prelude RustStr Net NetFacts Types Control.
Local Open Scope Z_scope.

(** [ipnet::IpNet]: [FromStr], [contains] and [addr]. *)
Class IpNetOps := {
  IpNet : Type;
  ipnet_from_str : string -> option IpNet;
  ipnet_contains : IpNet -> IpAddr -> bool;
  ipnet_addr : IpNet -> IpAddr
}.

(** Documented syntax of [IpNet::from_str]: an address, a slash and a prefix length. *)
Class IpNetLaws `{IpNetOps} : Prop :=
  ipnet_needs_slash : forall s n, ipnet_from_str s = Some n -> contains "/"%char s = true.

Inductive PolicyError :=
| EmptyEntry | MalformedEntry | EntryIncludesPort | InvalidWildcard | UnsupportedWildcard
| InvalidHostname | ZeroRulePort | DuplicateScopes | FallbackNotLeaf
| AllowEntriesRequireAllowlist | ZeroBandwidth | ZeroLimitPort
| ApprovalNeedsExactHost | ExplicitDenyNotOverridable | PortRequired
| DeniedNotExtensible | OnlyAllowlistExtensible | UnreachableFallback.

Definition normalize_host (host : string) : string :=
  let host := to_ascii_lowercase (trim_matches ["["%char; "]"%char] (trim host)) in
  trim_end_matches "."%char host.

Record NetworkHost := mkHost { nh_name : string; nh_ip : option IpAddr }.
Definition network_host (host : string) : NetworkHost :=
  let name := normalize_host host in mkHost name (parse_ip name).

Inductive NetworkMatchFailure := FailEmpty | FailHost | FailPort | FailTransport | FailResolvedAddress.

Section Guard.
Context {ipn : IpNetOps}.

Inductive NetworkHostRule :=
| Exact (host : string)
| WildcardSuffix (suffix : string)
| RuleIp (ip : IpAddr)
| RuleCidr (network : IpNet).

Record NetworkRule := mkRule {
  nr_host : NetworkHostRule;
  nr_ports : list Z;
  nr_transports : list NetworkTransport;
  nr_allow_private_ips : bool
}.

(** ** Parsing rules *)

(** [entry.rsplit_once(':')] guard of [parse_network_host_rule]: the entry ends in a port. *)
Definition entry_has_port (entry : string) : bool :=
  match rsplit_once ":"%char entry with
  | Some (host, port) =>
      negb (is_empty host) && forallb is_ascii_digit (to_bytes port)
      && negb (contains "/"%char entry)
      && negb (bool_decide (is_Some (parse_ip host)))
      && negb (contains ":"%char host)
  | None => false
  end.

Definition parse_network_host_rule (raw : string) : Result PolicyError NetworkHostRule :=
  let entry := trim raw in
  if is_empty entry then Err EmptyEntry
  else if contains_str "://" entry || contains "]"%char entry || contains "["%char entry then
    Err MalformedEntry
  else if contains "/"%char entry && negb (bool_decide (is_Some (ipnet_from_str entry))) then
    Err MalformedEntry
  else if entry_has_port entry then Err EntryIncludesPort
  else
    match strip_prefix entry "*." with
    | Some suffix =>
        let suffix := normalize_host suffix in
        if is_empty suffix || contains "*"%char suffix || bool_decide (is_Some (parse_ip suffix))
        then Err InvalidWildcard
        else Ok (WildcardSuffix suffix)
    | None =>
        if contains "*"%char entry then Err UnsupportedWildcard
        else
          match ipnet_from_str entry with
          | Some network =>
              if contains "/"%char entry then Ok (RuleCidr network)
              else Ok (RuleIp (ipnet_addr network))
          | None =>
              match parse_ip entry with
              | Some ip => Ok (RuleIp ip)
              | None =>
                  let host := normalize_host entry in
                  if is_empty host || contains ":"%char host then Err InvalidHostname
                  else Ok (Exact host)
              end
          end
    end.

Definition compile_network_rule (rule : NetworkAccessRule) : Result PolicyError NetworkRule :=
  if bool_decide (0 ∈ nar_ports rule) then Err ZeroRulePort
  else
    let ports := dedup (sort_by Z.leb (nar_ports rule)) in
    let transports := dedup (nar_transports rule) in
    host ← parse_network_host_rule (nar_host rule);
    Ok (mkRule host ports transports (nar_allow_private_ips rule)).

(** [NetworkAccessRule { host, ports: [], transports: [], allow_private_ips: false }]. *)
Definition host_only (host : string) : NetworkAccessRule := mkAccessRule host [] [] false.
Definition parse_network_rule (raw : string) : Result PolicyError NetworkRule :=
  compile_network_rule (host_only raw).

(** ** Matching *)

Definition matches_ip (rule : NetworkRule) (ip : IpAddr) : bool :=
  match nr_host rule with
  | RuleIp allowed => bool_decide (canonical ip = canonical allowed)
  | RuleCidr network =>
      let ip := canonical ip in
      ipnet_contains network ip ||
      match ip with
      | V4 ip => ipnet_contains network (V6 (to_ipv6_mapped ip))
      | V6 _ => false
      end
  | _ => false
  end.

Definition matches_host (rule : NetworkRule) (host : NetworkHost) (resolved_ip : option IpAddr) : bool :=
  match nr_host rule with
  | Exact allowed => bool_decide (nh_name host = allowed)
  | WildcardSuffix suffix =>
      ends_with (nh_name host) suffix
      && (len suffix <? len (nh_name host))%nat
      && bool_decide (to_bytes (nh_name host) !! (len (nh_name host) - len suffix - 1)%nat = Some "."%char)
  | RuleIp _ | RuleCidr _ =>
      existsb (matches_ip rule) (option_list (nh_ip host) ++ option_list resolved_ip)
  end.

Definition matches_port (rule : NetworkRule) (port : option Z) : bool :=
  bool_decide (nr_ports rule = []) ||
  match port with Some p => bool_decide (p ∈ nr_ports rule) | None => false end.

Definition matches_transport (rule : NetworkRule) (transport : NetworkTransport) : bool :=
  bool_decide (nr_transports rule = []) || bool_decide (transport ∈ nr_transports rule).

Definition allows_resolved_address (rule : NetworkRule) (resolved_ip : option IpAddr) : bool :=
  match resolved_ip with
  | None => true
  | Some ip =>
      match nr_host rule with
      | RuleIp _ | RuleCidr _ => matches_ip rule ip
      | Exact _ | WildcardSuffix _ =>
          is_public_egress_ip ip || (nr_allow_private_ips rule && is_opt_in_private_ip ip)
      end
  end.

(** The loop of [evaluate_rules] with its three progress flags. *)
Fixpoint evaluate_loop (rules : list NetworkRule) (request : NetworkAccessRequest) (host : NetworkHost)
    (safety host_matched port_matched transport_matched : bool) : Result NetworkMatchFailure unit :=
  match rules with
  | [] =>
      Err (if negb host_matched then
             if bool_decide (is_Some (req_resolved_ip request)) then FailResolvedAddress else FailHost
           else if negb port_matched then FailPort
           else if negb transport_matched then FailTransport
           else FailResolvedAddress)
  | rule :: rules =>
      if negb (matches_host rule host (req_resolved_ip request)) then
        evaluate_loop rules request host safety host_matched port_matched transport_matched
      else if negb (matches_port rule (req_port request)) then
        evaluate_loop rules request host safety true port_matched transport_matched
      else if negb (matches_transport rule (req_transport request)) then
        evaluate_loop rules request host safety true true transport_matched
      else if negb safety || allows_resolved_address rule (req_resolved_ip request) then Ok tt
      else evaluate_loop rules request host safety true true true
  end.

Definition evaluate_rules (rules : list NetworkRule) (request : NetworkAccessRequest)
    (host : NetworkHost) (safety : bool) : Result NetworkMatchFailure unit :=
  match rules with
  | [] => Err FailEmpty
  | _ => evaluate_loop rules request host safety false false false
  end.

Definition host_matches (host : string) (rules : list NetworkRule) : bool :=
  match rules with
  | [] => false
  | _ => let host := network_host host in existsb (fun rule => matches_host rule host None) rules
  end.

(** ** The compiled guard *)
Inductive NetworkGuard := mkGuard {
  ng_capability : NetworkCapability;
  ng_rules : list NetworkRule;
  ng_deny_rules : list NetworkRule;
  ng_trusted_hosts : list string;
  ng_scopes : list (PolicyScope * NetworkGuard);
  ng_fallback : option NetworkGuard
}.

(** The part of [NetworkGuard::compile] after scopes and fallback are compiled. *)
Definition compile_rules (capability : NetworkCapability) (trusted_hosts : list string)
    (scopes : list (PolicyScope * NetworkGuard)) (fallback : option NetworkGuard)
    : Result PolicyError NetworkGuard :=
  rules ← match capability with
          | AllowList hosts rules =>
              compiled ← collect parse_network_rule hosts;
              more ← collect compile_network_rule rules;
              Ok (compiled ++ more)
          | Policy _ allow _ _ => collect compile_network_rule allow
          | _ => Ok []
          end;
  deny_rules ← match capability with
               | Policy _ _ deny _ => collect compile_network_rule deny
               | _ => Ok []
               end;
  Ok (mkGuard capability rules deny_rules (normalize_host <$> trusted_hosts) scopes fallback).

(** The capability a scope's layer is compiled as. *)
Definition layer_capability (layer : NetworkPolicyLayer) : NetworkCapability :=
  Policy (default ActionDeny (npl_default_action layer)) (npl_allow layer) (npl_deny layer) (npl_limits layer).

Definition compile_layer (trusted_hosts : list string) (entry : PolicyScope * NetworkPolicyLayer)
    : Result PolicyError (PolicyScope * NetworkGuard) :=
  guard ← compile_rules (layer_capability entry.2) trusted_hosts [] None;
  Ok (entry.1, guard).

(** [scopes.windows(2).any(|pair| pair[0].0 == pair[1].0)]. *)
Fixpoint adjacent_scopes {A} (l : list (PolicyScope * A)) : bool :=
  match l with
  | x :: (y :: _) as l' => bool_decide (x.1 = y.1) || adjacent_scopes l'
  | _ => false
  end.

(** [NetworkGuard::compile]. A layer is compiled as a [Policy], which has no
    scopes, so its recursive call is [compile_rules]; see [compile_leaf]. *)
Fixpoint compile (capability : NetworkCapability) (trusted_hosts : list string)
    : Result PolicyError NetworkGuard :=
  match capability with
  | Scoped layers fallback =>
      scopes ← collect (compile_layer trusted_hosts) layers;
      let scopes := sort_scopes scopes in
      _ ← ensure (negb (adjacent_scopes scopes)) DuplicateScopes;
      _ ← ensure (negb (is_scoped fallback)) FallbackNotLeaf;
      fallback ← compile fallback trusted_hosts;
      compile_rules capability trusted_hosts scopes (Some fallback)
  | _ => compile_rules capability trusted_hosts [] None
  end.

Definition evaluate (guard : NetworkGuard) (request : NetworkAccessRequest) (host : NetworkHost)
    : Result NetworkMatchFailure unit := evaluate_rules (ng_rules guard) request host true.

(** [NetworkGuard::denied]. *)
Fixpoint guard_denied (guard : NetworkGuard) (request : NetworkAccessRequest) (host : NetworkHost) : bool :=
  is_ok (evaluate_rules (ng_deny_rules guard) request host false)
  || existsb (fun '(_, guard) => guard_denied guard request host) (ng_scopes guard)
  || match ng_fallback guard with
     | Some guard => guard_denied guard request host
     | None => false
     end.

Definition is_trusted (guard : NetworkGuard) (host : NetworkHost) : bool :=
  existsb (fun trusted => bool_decide (trusted = nh_name host)) (ng_trusted_hosts guard).

(** ** Authorization *)

Definition failure_reason (f : NetworkMatchFailure) : AccessReason :=
  match f with
  | FailEmpty => NetworkAllowListEmpty
  | FailHost => HostNotAllowed
  | FailPort => PortNotAllowed
  | FailTransport => TransportNotAllowed
  | FailResolvedAddress => ResolvedAddressNotAllowed
  end.

(** The allowlist branches of [authorize_network_with_host]. *)
Definition authorize_allowlist (guard : NetworkGuard) (request : NetworkAccessRequest) (host : NetworkHost)
    : ControlTransition :=
  match evaluate guard request host with
  | Ok _ => allowed NetworkAllowList
  | Err f => denied (failure_reason f)
  end.

(** The branch of a default-allow policy: the allow rules restrict the hosts
    they name and leave the others alone. *)
Definition authorize_default_allow (guard : NetworkGuard) (request : NetworkAccessRequest) (host : NetworkHost)
    : ControlTransition :=
  if existsb (fun rule => matches_host rule host None) (ng_rules guard) then
    match evaluate guard request host with
    | Ok _ => allowed NetworkAllowList
    | Err FailPort => denied PortNotAllowed
    | Err FailTransport => denied TransportNotAllowed
    | Err FailResolvedAddress => denied ResolvedAddressNotAllowed
    | Err _ => denied HostNotAllowed
    end
  else allowed AmbientNetwork.

(** [unreachable!("selected guard is a leaf")]: no compiled guard gets here
    ([compiled_guard_leaf]). *)
Definition unreachable_leaf : ControlTransition := denied NetworkDenied.

Fixpoint authorize_network_with_host (policy : NetworkGuard) (request : NetworkAccessRequest)
    (host : NetworkHost) : ControlTransition :=
  if guard_denied policy request host then denied ExplicitlyDenied
  else
    match ng_fallback policy with
    | Some fallback =>
        let decisions := (fun '(_, guard) => authorize_network_with_host guard request host) <$> ng_scopes policy in
        match List.find (fun decision => negb (is_allowed decision)) decisions with
        | Some decision => decision
        | None =>
            let decision := authorize_network_with_host fallback request host in
            if is_allowed decision && negb (bool_decide (ng_scopes policy = []))
            then allowed NetworkAllowList else decision
        end
    | None =>
        if is_trusted policy host then allowed TrustedLocal
        else
          match ng_capability policy with
          | Scoped _ _ => unreachable_leaf
          | Ambient => allowed AmbientNetwork
          | Deny => denied NetworkDenied
          | AllowList _ _ => authorize_allowlist policy request host
          | Policy ActionAllow _ _ _ => authorize_default_allow policy request host
          | Policy ActionDeny _ _ _ => authorize_allowlist policy request host
          end
    end.

(** [authorize_network]. *)
Definition authorize_network (policy : NetworkGuard) (request : NetworkAccessRequest) : ControlTransition :=
  authorize_network_with_host policy request (network_host (req_host request)).

(** *** Model calls *)

(** [gateway.rs]: exact name, [prefix*], [*suffix] or [*]. *)
Definition model_matches (pattern model : string) : bool :=
  if bool_decide (pattern = "*"%string) then true
  else match strip_suffix pattern "*" with
       | Some prefix => negb (is_empty prefix) && starts_with model prefix
       | None =>
           match strip_prefix pattern "*" with
           | Some suffix => negb (is_empty suffix) && ends_with model suffix
           | None => bool_decide (pattern = model)
           end
       end.

Definition authorize_model (policy : ModelAccessPolicy) (request : ModelCallRequest) : ControlTransition :=
  let model_allowed :=
    existsb (fun pattern => model_matches pattern (mcr_client_model request)
                         || model_matches pattern (mcr_upstream_model request)) (allowed_models policy) in
  if negb model_allowed then denied ModelNotAllowed
  else if negb (bool_decide (allowed_providers policy = []))
       && negb (existsb (fun provider => eq_ignore_ascii_case provider (mcr_provider request))
                  (allowed_providers policy))
  then denied ProviderNotAllowed
  else allowed ModelAllowed.

(** *** The policy controller *)
Inductive ControlRequest :=
| NetworkRequest (policy : NetworkGuard) (request : NetworkAccessRequest)
| ModelRequest (policy : ModelAccessPolicy) (request : ModelCallRequest).

Inductive PolicyControlController := ThePolicyController.

#[export] Instance policy_controller : ControlController ControlRequest PolicyControlController :=
  fun c request =>
    (match request with
     | NetworkRequest policy request => authorize_network policy request
     | ModelRequest policy request => authorize_model policy request
     end, c).
End Guard.
