(* ===== verification/PolicyFacts.v ===== *)
(** * Correctness of the network guard

    The single-pass rule evaluation against a staged reference, the declarative
    meaning of a capability and the theorem that a compiled guard implements it,
    and the properties of matching. *)
From stdpp Require Import base tactics list strings sets.
From Stdlib Require Import ZArith Lia Ascii.
From S2P Require Import Prelude RustStr Net NetFacts Types Control Policy.
Local Open Scope Z_scope.

Section Evaluation.
Context {ipn : IpNetOps}.
Implicit Types (rule : NetworkRule) (rules : list NetworkRule) (request : NetworkAccessRequest).

(** ** Rule evaluation *)

(** A rule applies to a request on every dimension. *)
Definition rule_hits (safety : bool) (host : NetworkHost) request rule : bool :=
  matches_host rule host (req_resolved_ip request)
  && matches_port rule (req_port request)
  && matches_transport rule (req_transport request)
  && (negb safety || allows_resolved_address rule (req_resolved_ip request)).

(** The evaluation by stages: keep the rules for the host, of those the ones for
    the port, of those the ones for the transport, and report the first stage
    that leaves nothing. *)
Definition staged_evaluation rules request (host : NetworkHost) (safety : bool)
    : Result NetworkMatchFailure unit :=
  let hosts := List.filter (fun r => matches_host r host (req_resolved_ip request)) rules in
  let ports := List.filter (fun r => matches_port r (req_port request)) hosts in
  let transports := List.filter (fun r => matches_transport r (req_transport request)) ports in
  let safe := List.filter (fun r => negb safety || allows_resolved_address r (req_resolved_ip request)) transports in
  match rules, hosts, ports, transports, safe with
  | [], _, _, _, _ => Err FailEmpty
  | _, [], _, _, _ =>
      Err (if bool_decide (is_Some (req_resolved_ip request)) then FailResolvedAddress else FailHost)
  | _, _, [], _, _ => Err FailPort
  | _, _, _, [], _ => Err FailTransport
  | _, _, _, _, [] => Err FailResolvedAddress
  | _, _, _, _, _ => Ok tt
  end.

(** The loop with its flags set as if earlier rules had passed those stages. *)
Lemma evaluate_loop_staged rules request host safety hm pm tm :
  let hosts := List.filter (fun r => matches_host r host (req_resolved_ip request)) rules in
  let ports := List.filter (fun r => matches_port r (req_port request)) hosts in
  let transports := List.filter (fun r => matches_transport r (req_transport request)) ports in
  let safe := List.filter (fun r => negb safety || allows_resolved_address r (req_resolved_ip request)) transports in
  (pm = true -> hm = true) -> (tm = true -> pm = true) ->
  evaluate_loop rules request host safety hm pm tm =
  match safe with
  | _ :: _ => Ok tt
  | [] =>
      Err (if negb (hm || negb (bool_decide (hosts = []))) then
             if bool_decide (is_Some (req_resolved_ip request)) then FailResolvedAddress else FailHost
           else if negb (pm || negb (bool_decide (ports = []))) then FailPort
           else if negb (tm || negb (bool_decide (transports = []))) then FailTransport
           else FailResolvedAddress)
  end.
Proof.
  revert hm pm tm. induction rules as [|r rules IH]; intros hm pm tm; cbn.
  - intros. by rewrite !orb_false_r.
  - intros Hpm Htm. cbn in IH.
    destruct (matches_host r host (req_resolved_ip request)); cbn; [|by apply IH].
    destruct (matches_port r (req_port request)); cbn.
    2:{ rewrite IH by auto. by rewrite !orb_true_r. }
    destruct (matches_transport r (req_transport request)); cbn.
    2:{ rewrite IH by auto. by rewrite !orb_true_r. }
    destruct (negb safety || _) eqn:E; cbn; [done|].
    rewrite IH by auto. by rewrite !orb_true_r.
Qed.

Lemma evaluate_rules_is_staged rules request host safety :
  evaluate_rules rules request host safety = staged_evaluation rules request host safety.
Proof.
  unfold evaluate_rules, staged_evaluation. destruct rules as [|r rules]; [done|].
  rewrite evaluate_loop_staged by done.
  generalize (List.filter (fun r => matches_host r host (req_resolved_ip request)) (r :: rules)) as hosts.
  intros [|h hosts]; [done|].
  generalize (List.filter (fun r => matches_port r (req_port request)) (h :: hosts)) as ports.
  intros [|p ports]; [done|].
  generalize (List.filter (fun r => matches_transport r (req_transport request)) (p :: ports)) as transports.
  intros [|t transports]; [done|].
  by destruct (List.filter _ (t :: transports)).
Qed.

Lemma evaluate_rules_hits rules request host safety :
  is_ok (evaluate_rules rules request host safety) = existsb (rule_hits safety host request) rules.
Proof.
  unfold evaluate_rules. destruct rules as [|r0 rules]; [done|]. generalize (r0 :: rules). clear r0 rules.
  intros rules.
  assert (forall hm pm tm, is_ok (evaluate_loop rules request host safety hm pm tm) =
    existsb (rule_hits safety host request) rules) as H; [|apply H].
  induction rules as [|r rules IH]; intros h p t; cbn; [done|].
  unfold rule_hits at 1.
  destruct (matches_host r _ _), (matches_port r _), (matches_transport r _); cbn; auto.
  destruct (negb safety || _); cbn; auto.
Qed.

Lemma evaluate_rules_Ok rules request host safety :
  evaluate_rules rules request host safety = Ok tt <->
  exists r, r ∈ rules /\ rule_hits safety host request r = true.
Proof.
  transitivity (is_ok (evaluate_rules rules request host safety) = true).
  - destruct (evaluate_rules rules request host safety) as [[]|]; naive_solver.
  - rewrite evaluate_rules_hits, existsb_exists. by setoid_rewrite list_elem_of_In.
Qed.
End Evaluation.

(** ** The meaning of a capability *)
Section Meaning.
Context {ipn : IpNetOps}.
Implicit Types (rules : list NetworkAccessRule) (request : NetworkAccessRequest) (host : NetworkHost).

(** Some configured rule applies to the request. *)
Definition hits_any (safety : bool) host request rules : Prop :=
  exists rule r, rule ∈ rules /\ compile_network_rule rule = Ok r /\ rule_hits safety host request r = true.

(** Some configured rule names the host, whatever address it resolves to. *)
Definition names_host host rules : Prop :=
  exists rule r, rule ∈ rules /\ compile_network_rule rule = Ok r /\ matches_host r host None = true.

Definition trusts (trusted_hosts : list string) host : Prop :=
  nh_name host ∈ normalize_host <$> trusted_hosts.

(** Every explicit deny of a capability, of its layers and of its fallback. *)
Fixpoint deny_rules_of (capability : NetworkCapability) : list NetworkAccessRule :=
  match capability with
  | Scoped layers fallback => (layers ≫= fun '(_, layer) => npl_deny layer) ++ deny_rules_of fallback
  | Policy _ _ deny _ => deny
  | _ => []
  end.

(** What a capability without layers permits, explicit denies aside. *)
Definition leaf_permits (capability : NetworkCapability) (trusted_hosts : list string) request host : Prop :=
  trusts trusted_hosts host \/
  match capability with
  | Ambient => True
  | AllowList hosts rules => hits_any true host request ((host_only <$> hosts) ++ rules)
  | Policy ActionAllow allow _ _ => ~ names_host host allow \/ hits_any true host request allow
  | Policy ActionDeny allow _ _ => hits_any true host request allow
  | Deny | Scoped _ _ => False
  end.

(** Layers only restrict: all of them and the fallback have to permit. *)
Fixpoint permits (capability : NetworkCapability) (trusted_hosts : list string) request host : Prop :=
  match capability with
  | Scoped layers fallback =>
      (forall scope layer, (scope, layer) ∈ layers ->
        leaf_permits (layer_capability layer) trusted_hosts request host) /\
      permits fallback trusted_hosts request host
  | _ => leaf_permits capability trusted_hosts request host
  end.

Definition capability_allows (capability : NetworkCapability) (trusted_hosts : list string) request : Prop :=
  let host := network_host (req_host request) in
  ~ hits_any false host request (deny_rules_of capability) /\ permits capability trusted_hosts request host.

(** *** Compiled rules and their sources *)

Lemma hits_any_app safety host request l1 l2 :
  hits_any safety host request (l1 ++ l2) <->
  hits_any safety host request l1 \/ hits_any safety host request l2.
Proof. unfold hits_any. setoid_rewrite elem_of_app. naive_solver. Qed.

Lemma collect_hits rules compiled safety host request :
  collect compile_network_rule rules = Ok compiled ->
  (exists r, r ∈ compiled /\ rule_hits safety host request r = true) <->
  hits_any safety host request rules.
Proof.
  intros Hc. unfold hits_any. setoid_rewrite (collect_elem_of _ _ _ _ Hc). naive_solver.
Qed.

Lemma collect_evaluate rules compiled safety host request :
  collect compile_network_rule rules = Ok compiled ->
  evaluate_rules compiled request host safety = Ok tt <-> hits_any safety host request rules.
Proof. intros Hc. by rewrite evaluate_rules_Ok, collect_hits. Qed.

Lemma collect_is_ok rules compiled safety host request :
  collect compile_network_rule rules = Ok compiled ->
  is_ok (evaluate_rules compiled request host safety) = true <-> hits_any safety host request rules.
Proof.
  intros Hc. rewrite <- (collect_evaluate rules compiled) by done.
  destruct (evaluate_rules compiled request host safety) as [[]|]; naive_solver.
Qed.

Lemma collect_names rules compiled host :
  collect compile_network_rule rules = Ok compiled ->
  existsb (fun rule => matches_host rule host None) compiled = true <-> names_host host rules.
Proof.
  intros Hc. rewrite existsb_exists. unfold names_host. setoid_rewrite <- list_elem_of_In.
  setoid_rewrite (collect_elem_of _ _ _ _ Hc). naive_solver.
Qed.

Lemma collect_hosts hosts : collect parse_network_rule hosts = collect compile_network_rule (host_only <$> hosts).
Proof. induction hosts as [|h hosts IH]; cbn; [done|]. by rewrite <- IH. Qed.

(** *** Leaf guards *)

Lemma compile_rules_fields capability trusted scopes fallback g :
  compile_rules capability trusted scopes fallback = Ok g ->
  ng_capability g = capability /\ ng_trusted_hosts g = normalize_host <$> trusted /\
  ng_scopes g = scopes /\ ng_fallback g = fallback.
Proof. unfold compile_rules. intros H. result_simpl. done. Qed.

(** The compiled allow and deny rules of a guard. *)
Definition allow_rules_of (capability : NetworkCapability) : list NetworkAccessRule :=
  match capability with
  | AllowList hosts rules => (host_only <$> hosts) ++ rules
  | Policy _ allow _ _ => allow
  | _ => []
  end.

Lemma compile_rules_rules capability trusted scopes fallback g :
  compile_rules capability trusted scopes fallback = Ok g ->
  collect compile_network_rule (allow_rules_of capability) = Ok (ng_rules g) /\
  collect compile_network_rule (if is_scoped capability then [] else deny_rules_of capability) = Ok (ng_deny_rules g).
Proof.
  unfold compile_rules. intros H. destruct capability; cbn in *; result_simpl; try done.
  split; [|done]. apply collect_app. rewrite <- collect_hosts. eauto.
Qed.

Lemma leaf_denied capability trusted g request host :
  is_scoped capability = false -> compile_rules capability trusted [] None = Ok g ->
  guard_denied g request host = true <-> hits_any false host request (deny_rules_of capability).
Proof.
  intros Hs Hg. destruct (compile_rules_fields _ _ _ _ _ Hg) as (_ & _ & Hsc & Hfb).
  apply compile_rules_rules in Hg as [_ Hd]. rewrite Hs in Hd.
  destruct g; cbn in *; subst. cbn. rewrite !orb_false_r. by apply collect_is_ok.
Qed.

Lemma is_trusted_spec g trusted host :
  ng_trusted_hosts g = normalize_host <$> trusted -> is_trusted g host = true <-> trusts trusted host.
Proof.
  intros Ht. unfold is_trusted, trusts. rewrite Ht, existsb_exists. setoid_rewrite <- list_elem_of_In.
  setoid_rewrite bool_decide_eq_true. naive_solver.
Qed.

Lemma allowlist_allowed g rules request host :
  collect compile_network_rule rules = Ok (ng_rules g) ->
  is_allowed (authorize_allowlist g request host) = true <-> hits_any true host request rules.
Proof.
  intros Hc. rewrite <- (collect_evaluate _ _ _ _ _ Hc). unfold authorize_allowlist, evaluate.
  destruct (evaluate_rules (ng_rules g) request host true) as [[]|]; cbn; naive_solver.
Qed.

Lemma default_allow_allowed g rules request host :
  collect compile_network_rule rules = Ok (ng_rules g) ->
  is_allowed (authorize_default_allow g request host) = true <->
  ~ names_host host rules \/ hits_any true host request rules.
Proof.
  intros Hc. rewrite <- (collect_evaluate _ _ _ _ _ Hc), <- (collect_names _ _ _ Hc).
  unfold authorize_default_allow, evaluate. destruct (existsb _ (ng_rules g)).
  - destruct (evaluate_rules (ng_rules g) request host true) as [[]|[]]; cbn; naive_solver.
  - cbn. naive_solver.
Qed.

Lemma leaf_authorize capability trusted g request host :
  is_scoped capability = false -> compile_rules capability trusted [] None = Ok g ->
  is_allowed (authorize_network_with_host g request host) = true <->
  ~ hits_any false host request (deny_rules_of capability) /\
  leaf_permits capability trusted request host.
Proof.
  intros Hs Hg. pose proof (leaf_denied _ _ _ request host Hs Hg) as Hd.
  destruct (compile_rules_fields _ _ _ _ _ Hg) as (Hcap & Ht & Hsc & Hfb).
  pose proof (is_trusted_spec _ _ host Ht) as Htr.
  pose proof (compile_rules_rules _ _ _ _ _ Hg) as [Hr _].
  unfold leaf_permits. rewrite <- Hd, <- Htr.
  destruct g as [cap rules deny thosts scopes fb]; cbn in Hcap, Hsc, Hfb; subst.
  cbn -[guard_denied is_trusted]. destruct (guard_denied _ _ _); cbn -[is_trusted]; [naive_solver|].
  destruct (is_trusted _ _); cbn; [naive_solver|].
  destruct capability as [| | |hosts rs|[] al dn lm]; cbn in Hs, Hr |- *; [done|..].
  3: rewrite allowlist_allowed by exact Hr.
  4: rewrite default_allow_allowed by exact Hr.
  5: rewrite allowlist_allowed by exact Hr.
  all: intuition discriminate.
Qed.

(** *** Scoped guards *)

(** Compiling a layer is compiling its policy: the recursive call of the code. *)
Lemma compile_leaf capability trusted :
  is_scoped capability = false -> compile capability trusted = compile_rules capability trusted [] None.
Proof. by destruct capability. Qed.

Lemma compile_scoped_inv layers fallback trusted g :
  compile (Scoped layers fallback) trusted = Ok g ->
  exists scopes fb,
    collect (compile_layer trusted) layers = Ok scopes /\
    adjacent_scopes (sort_scopes scopes) = false /\ is_scoped fallback = false /\
    compile fallback trusted = Ok fb /\
    g = mkGuard (Scoped layers fallback) [] [] (normalize_host <$> trusted) (sort_scopes scopes) (Some fb).
Proof.
  cbn. intros (scopes & Hs & (? & Hd%ensure_Ok & (? & Hf%ensure_Ok & (fb & Hfb & Hg)%bind_Ok)%bind_Ok)%bind_Ok)%bind_Ok.
  exists scopes, fb. rewrite negb_true_iff in Hd, Hf. by simplify_eq/=.
Qed.

Lemma scopes_elem layers trusted scopes scope guard :
  collect (compile_layer trusted) layers = Ok scopes ->
  (scope, guard) ∈ sort_scopes scopes <->
  exists layer, (scope, layer) ∈ layers /\ compile_rules (layer_capability layer) trusted [] None = Ok guard.
Proof.
  intros Hc. rewrite sort_scopes_perm, (collect_elem_of _ _ _ _ Hc). split.
  - intros ([sc layer] & Hl & (gd & Hg & [= <- <-])%bind_Ok). cbn in *. eauto.
  - intros (layer & Hl & Hg). exists (scope, layer). split; [done|]. unfold compile_layer; cbn [fst snd]. by rewrite Hg.
Qed.

(** Every layer of a compiled list has a compiled guard. *)
Lemma scopes_total layers trusted scopes scope layer :
  collect (compile_layer trusted) layers = Ok scopes ->
  (scope, layer) ∈ layers ->
  exists guard, compile_rules (layer_capability layer) trusted [] None = Ok guard.
Proof.
  intros Hc%collect_Ok Hl. apply list_elem_of_lookup in Hl as [i Hi].
  destruct (Forall2_lookup_l _ _ _ _ _ Hc Hi) as (y & _ & (gd & Hg & _)%bind_Ok). eauto.
Qed.

Lemma compile_denied capability trusted g request host :
  compile capability trusted = Ok g ->
  guard_denied g request host = true <-> hits_any false host request (deny_rules_of capability).
Proof.
  revert g. induction capability as [layers fallback IH| | | |]; intros g Hg;
    try (apply (leaf_denied _ trusted); [done|by rewrite <- compile_leaf]).
  apply compile_scoped_inv in Hg as (scopes & fb & Hs & _ & _ & Hfb & ->).
  cbn. rewrite hits_any_app, orb_true_iff, existsb_exists, (IH _ Hfb).
  apply or_iff_compat_r. setoid_rewrite <- list_elem_of_In. split.
  - intros ([scope guard] & (layer & Hl & Hg)%(scopes_elem _ _ _ _ _ Hs) & Hd).
    apply (leaf_denied (layer_capability layer) trusted) in Hd as (rule & r & Hr & ?); [|done..].
    exists rule, r. split; [|done]. apply list_elem_of_bind. by exists (scope, layer).
  - intros (rule & r & ([scope layer] & Hr & Hl)%list_elem_of_bind & Hhit).
    destruct (scopes_total _ _ _ _ _ Hs Hl) as [guard Hg].
    exists (scope, guard). split; [apply (scopes_elem _ _ _ _ _ Hs); eauto|].
    apply (leaf_denied (layer_capability layer) trusted); [done..|]. by exists rule, r.
Qed.

Lemma scoped_decisions request host (scopes : list (PolicyScope * NetworkGuard)) :
  List.find (fun decision => negb (is_allowed decision))
    ((fun '(_, guard) => authorize_network_with_host guard request host) <$> scopes) = None <->
  forall scope guard, (scope, guard) ∈ scopes ->
    is_allowed (authorize_network_with_host guard request host) = true.
Proof.
  induction scopes as [|[scope guard] scopes IH]; cbn; [set_solver|].
  destruct (is_allowed (authorize_network_with_host guard request host)) eqn:E; cbn.
  - rewrite IH. setoid_rewrite elem_of_cons. naive_solver.
  - split; [done|]. intros H. rewrite (H scope guard) in E; [done|left].
Qed.

(** A compiled guard allows exactly what its capability allows. *)
Lemma compile_authorize capability trusted g request host :
  compile capability trusted = Ok g ->
  is_allowed (authorize_network_with_host g request host) = true <->
  ~ hits_any false host request (deny_rules_of capability) /\ permits capability trusted request host.
Proof.
  revert g. induction capability as [layers fallback IH| | | |]; intros g Hg;
    try (apply leaf_authorize; [done|by rewrite <- compile_leaf]).
  pose proof (compile_denied _ _ _ request host Hg) as Hd. rewrite <- Hd.
  apply compile_scoped_inv in Hg as (scopes & fb & Hs & _ & _ & Hfb & ->).
  specialize (IH _ Hfb). cbn -[guard_denied].
  destruct (guard_denied _ _ _) eqn:Hden; cbn; [intuition discriminate|].
  assert (~ hits_any false host request (deny_rules_of (Scoped layers fallback))) as Hno by (rewrite <- Hd; congruence).
  cbn in Hno. rewrite hits_any_app in Hno.
  assert (forall scope layer guard, (scope, layer) ∈ layers ->
    compile_rules (layer_capability layer) trusted [] None = Ok guard ->
    is_allowed (authorize_network_with_host guard request host) = true <->
    leaf_permits (layer_capability layer) trusted request host) as Hlayer.
  { intros scope layer guard Hl Hg. rewrite (leaf_authorize (layer_capability layer) trusted guard _ _ eq_refl Hg). split; [naive_solver|].
    intros Hp. split; [|done]. intros (rule & r & Hr & Hh). apply Hno. left.
    exists rule, r. split; [|done]. apply list_elem_of_bind. by exists (scope, layer). }
  destruct (List.find _ _) as [d|] eqn:Hfind.
  - apply find_some in Hfind as [Hin Hneg%negb_true_iff].
    apply list_elem_of_In, list_elem_of_fmap in Hin as ([scope guard] & -> & Hsc).
    apply (scopes_elem _ _ _ _ _ Hs) in Hsc as (layer & Hl & Hg).
    rewrite Hneg. split; [done|]. intros (_ & Hp & _). specialize (Hp _ _ Hl).
    apply (Hlayer _ _ _ Hl Hg) in Hp. congruence.
  - rewrite scoped_decisions in Hfind.
    assert (forall d, is_allowed (if is_allowed d && negb (bool_decide (sort_scopes scopes = []))
      then allowed NetworkAllowList else d) = is_allowed d) as ->.
    { intros d. destruct (is_allowed d) eqn:Ed; cbn; [|done]. by destruct (negb _). }
    rewrite IH. split.
    + intros [_ Hp]. split_and!; [done| |done]. intros scope layer Hl.
      destruct (scopes_total _ _ _ _ _ Hs Hl) as [guard Hg]. apply (Hlayer _ _ _ Hl Hg), (Hfind scope).
      apply (scopes_elem _ _ _ _ _ Hs). eauto.
    + intros (_ & _ & Hp). split; [naive_solver|done].
Qed.

(** ** Every guard *)

(** Induction over a guard, its scopes and its fallback. *)
Lemma guard_ind (P : NetworkGuard -> Prop) :
  (forall g, (forall scope g', (scope, g') ∈ ng_scopes g -> P g') ->
     (forall g', ng_fallback g = Some g' -> P g') -> P g) ->
  forall g, P g.
Proof.
  intros HP. fix IH 1. intros [cap rules deny trusted scopes fb]. apply HP; cbn.
  - induction scopes as [|[sc g'] scopes IHs]; intros scope g0; [clear IH; by intros ?%elem_of_nil|].
    intros [[= -> ->]|?]%elem_of_cons; [apply IH | by eapply IHs].
  - destruct fb as [g'|]; [|clear IH; done]. intros ? [= <-]. apply IH.
Qed.

Lemma authorize_shape g request host :
  let t := authorize_network_with_host g request host in
  ct_from t = Requested /\ is_decision (ct_to t) = true /\
  (ct_reason t = ExplicitlyDenied <-> guard_denied g request host = true).
Proof.
  induction g as [g IHs IHf] using guard_ind. cbn zeta.
  destruct g as [cap rules deny trusted scopes fb]; cbn in IHs, IHf.
  cbn -[guard_denied is_trusted]. destruct (guard_denied _ _ _) eqn:Hden; [done|].
  destruct fb as [fb|].
  - assert (forall scope g', (scope, g') ∈ scopes -> guard_denied g' request host = false) as Hsub.
    { intros scope g' Hin. cbn in Hden. apply orb_false_iff in Hden as [[_ Hd]%orb_false_iff _].
      apply not_true_iff_false. intros Hg. apply not_true_iff_false in Hd. apply Hd.
      apply existsb_exists. exists (scope, g'). split; [by apply list_elem_of_In|done]. }
    destruct (List.find _ _) as [d|] eqn:Hfind.
    + apply find_some in Hfind as [Hin _].
      apply list_elem_of_In, list_elem_of_fmap in Hin as ([scope g'] & -> & Hsc).
      destruct (IHs _ _ Hsc) as (? & ? & Hr). rewrite (Hsub _ _ Hsc) in Hr. done.
    + destruct (IHf fb eq_refl) as (? & ? & Hr).
      assert (guard_denied fb request host = false) as Hfb.
      { cbn in Hden. by apply orb_false_iff in Hden as [_ ?]. }
      rewrite Hfb in Hr. by destruct (is_allowed _ && _).
  - destruct (is_trusted _ _); [done|]. unfold authorize_allowlist, authorize_default_allow.
    destruct cap as [| | |hs rs|[] al dn lm]; try done; repeat case_match; try done;
      by match goal with f : NetworkMatchFailure |- _ => destruct f end.
Qed.

(** A leaf guard never carries a scoped capability, so [unreachable!] is unreachable. *)
Lemma compiled_guard_leaf capability trusted g :
  compile capability trusted = Ok g ->
  (ng_fallback g = None -> is_scoped (ng_capability g) = false) /\
  (forall scope g', (scope, g') ∈ ng_scopes g -> ng_fallback g' = None /\ is_scoped (ng_capability g') = false) /\
  (forall g', ng_fallback g = Some g' -> ng_fallback g' = None /\ is_scoped (ng_capability g') = false).
Proof.
  intros Hg. destruct (is_scoped capability) eqn:Hs.
  - destruct capability as [layers fallback| | | |]; try done.
    apply compile_scoped_inv in Hg as (scopes & fb & Hc & _ & Hleaf & Hfb & ->); cbn.
    split_and!; [done|..].
    + intros scope g' (layer & _ & (-> & _ & _ & ->)%compile_rules_fields)%(scopes_elem _ _ _ _ _ Hc). done.
    + intros g' [= <-]. rewrite compile_leaf in Hfb by done.
      by apply compile_rules_fields in Hfb as (-> & _ & _ & ->).
  - rewrite compile_leaf in Hg by done. apply compile_rules_fields in Hg as (-> & _ & -> & ->).
    split_and!; [done| set_solver | done].
Qed.
End Meaning.
