(* ===== verification/Network.v ===== *)
(** * Egress policy

    [pvisor-core/src/network.rs]: the configuration, its compilation into a
    [NetworkPolicy], preflight, authorization through an injected controller,
    one-time grants and bandwidth limits. *)
From stdpp Require Import base tactics list strings sets.
From Stdlib Require Import ZArith Lia Ascii.
From S2P Require Import Prelude RustStr Net NetFacts Types Control Policy.
Local Open Scope Z_scope.

Inductive ResolvedAddressPolicy := Strict | HostConnectorAliases.
#[export] Instance resolved_address_policy_eq_dec : EqDecision ResolvedAddressPolicy.
Proof. solve_decision. Defined.

Inductive NetworkMode := Public | NoNetwork | Allowlist.
#[export] Instance network_mode_eq_dec : EqDecision NetworkMode.
Proof. solve_decision. Defined.

Record NetworkConfig := mkConfig {
  nc_capability : option NetworkCapability;
  nc_mode : NetworkMode;
  nc_allowed_hosts : list string;
  nc_rules : list NetworkAccessRule;
  nc_deny_rules : list NetworkAccessRule;
  nc_limits : list NetworkBandwidthLimit
}.

(** [NetworkConfig::default()]. *)
Definition default_config : NetworkConfig := mkConfig None Public [] [] [] [].

(** [NetworkConfig { capability: Some(c), ..Default::default() }]. *)
Definition capability_config (c : NetworkCapability) : NetworkConfig := mkConfig (Some c) Public [] [] [] [].

Inductive DenyReason :=
| InvalidController | DenyNoNetwork | AllowlistEmpty | NotInAllowlist | DenyPort | DenyTransport
| DenyResolvedAddress | ExplicitDeny.
#[export] Instance deny_reason_eq_dec : EqDecision DenyReason.
Proof. solve_decision. Defined.

(** [DenyReason::as_str]. *)
Definition deny_reason_str (r : DenyReason) : string :=
  match r with
  | InvalidController => "invalid-controller"
  | DenyNoNetwork => "no-network"
  | AllowlistEmpty => "allowlist-empty"
  | NotInAllowlist => "not-in-allowlist"
  | DenyPort => "port-not-allowed"
  | DenyTransport => "transport-not-allowed"
  | DenyResolvedAddress => "resolved-address-not-allowed"
  | ExplicitDeny => "explicit-deny"
  end.

(** [NetworkPolicy::mode_str]. *)
Definition mode_str (mode : NetworkMode) : string :=
  match mode with Public => "public" | NoNetwork => "no-network" | Allowlist => "allowlist" end.

(** The capability a configuration stands for. The [unreachable!] branches of the
    code are those for [NoNetwork], returned before. *)
Definition network_capability (network : NetworkConfig) : NetworkCapability :=
  match nc_capability network with
  | Some capability => capability
  | None =>
      match nc_mode network with
      | NoNetwork => Deny
      | mode =>
          if bool_decide (nc_deny_rules network = []) && bool_decide (nc_limits network = []) then
            match mode with
            | Public => Ambient
            | _ => AllowList (nc_allowed_hosts network) (nc_rules network)
            end
          else
            Policy (match mode with Public => ActionAllow | _ => ActionDeny end)
              (nc_rules network ++ (host_only <$> nc_allowed_hosts network))
              (nc_deny_rules network) (nc_limits network)
      end
  end.

(** The nested function [limits_for] of [NetworkPolicy::compile]. *)
Fixpoint limits_for (capability : NetworkCapability) : list NetworkBandwidthLimit :=
  match capability with
  | Scoped layers fallback => (layers ≫= fun '(_, layer) => npl_limits layer) ++ limits_for fallback
  | Policy _ _ _ limits => limits
  | _ => []
  end.

(** The nested function [unrestricted] of [allows_unrestricted_packets]. *)
Fixpoint unrestricted (capability : NetworkCapability) : bool :=
  match capability with
  | Ambient => true
  | Scoped layers fallback => match layers with [] => unrestricted fallback | _ => false end
  | Policy default_action allow deny limits =>
      bool_decide (default_action = ActionAllow) && bool_decide (allow = [])
      && bool_decide (deny = []) && bool_decide (limits = [])
  | _ => false
  end.

(** Appends the transport-wide limits that the capability does not declare already. *)
Definition add_limits (declared limits : list NetworkBandwidthLimit) : list NetworkBandwidthLimit :=
  fold_left (fun declared limit => if bool_decide (limit ∈ declared) then declared else declared ++ [limit])
    limits declared.

Definition host_from_authority (authority : string) : string :=
  let authority := trim authority in
  let plain :=
    match rsplit_once ":"%char authority with
    | Some (host, port) =>
        if negb (is_empty host) && forallb is_ascii_digit (to_bytes port)
        then normalize_host host else normalize_host authority
    | None => normalize_host authority
    end in
  match strip_prefix authority "[" with
  | Some rest =>
      match split_once_bytes "]"%char (to_bytes rest) with
      | Some (inside, _) => normalize_host (of_bytes inside)
      | None => plain
      end
  | None => plain
  end.

Section Network.
Context {ipn : IpNetOps}.

Record CompiledBandwidthLimit := mkCompiledLimit {
  cbl_matcher : option NetworkRule;
  cbl_config : NetworkBandwidthLimit
}.

Record NetworkPolicy := mkPolicy {
  np_mode : NetworkMode;
  np_guard : NetworkGuard;
  np_limits : list CompiledBandwidthLimit;
  np_source : NetworkConfig
}.

Definition compile_limit (config : NetworkBandwidthLimit) : Result PolicyError CompiledBandwidthLimit :=
  _ ← ensure (0 <? nbl_bytes_per_second config) ZeroBandwidth;
  _ ← ensure (negb (bool_decide (nbl_port config = Some 0))) ZeroLimitPort;
  matcher ← match nbl_host config with
            | Some host => Some <$> parse_network_rule host
            | None => Ok None
            end;
  Ok (mkCompiledLimit matcher config).

(** [NetworkPolicy::compile]. *)
Definition policy_compile (network : NetworkConfig) : Result PolicyError NetworkPolicy :=
  _ ← ensure (bool_decide (is_Some (nc_capability network))
              || bool_decide (nc_mode network = Allowlist)
              || (bool_decide (nc_allowed_hosts network = []) && bool_decide (nc_rules network = [])))
        AllowEntriesRequireAllowlist;
  guard ← compile (network_capability network) [];
  let declared := add_limits (limits_for (ng_capability guard)) (nc_limits network) in
  limits ← collect compile_limit declared;
  Ok (mkPolicy (nc_mode network) guard limits network).

(** [validate_network_config]. *)
Definition validate_network_config (network : NetworkConfig) : Result PolicyError unit :=
  (fun _ => tt) <$> policy_compile network.

Definition allows_unrestricted_packets (policy : NetworkPolicy) : bool :=
  bool_decide (np_limits policy = []) && unrestricted (ng_capability (np_guard policy)).

Definition deny_reason_of (reason : AccessReason) : DenyReason :=
  match reason with
  | NetworkDenied => DenyNoNetwork
  | NetworkAllowListEmpty => AllowlistEmpty
  | PortNotAllowed => DenyPort
  | TransportNotAllowed => DenyTransport
  | ResolvedAddressNotAllowed => DenyResolvedAddress
  | ExplicitlyDenied => ExplicitDeny
  | _ => NotInAllowlist
  end.

(** [authorize_egress]: a fresh machine, one authorization. *)
Definition authorize_egress {C} `{!ControlController ControlRequest C} (controller : C)
    (policy : NetworkPolicy) (request : NetworkAccessRequest) : Result DenyReason unit * C :=
  let '(r, _, controller) := machine_authorize machine_new controller (NetworkRequest (np_guard policy) request) in
  (match r with
   | Err _ => Err InvalidController
   | Ok transition =>
       if is_allowed transition then Ok tt else Err (deny_reason_of (ct_reason transition))
   end, controller).

Definition preflight (policy : NetworkPolicy) (request : NetworkAccessRequest) : Result DenyReason unit :=
  (authorize_egress ThePolicyController policy request).1.

(** [NetworkPolicy::authorize]: the injected controller is asked after preflight. *)
Definition policy_authorize {C} `{!ControlController ControlRequest C} (policy : NetworkPolicy)
    (controller : C) (request : NetworkAccessRequest) : Result DenyReason unit * C :=
  match preflight policy request with
  | Err e => (Err e, controller)
  | Ok _ => authorize_egress controller policy request
  end.

Definition authorize_resolved {C} `{!ControlController ControlRequest C} (policy : NetworkPolicy)
    (controller : C) (request : NetworkAccessRequest) (resolution : ResolvedAddressPolicy)
    : Result DenyReason unit * C :=
  match policy_authorize policy controller request with
  | (Ok u, controller) => (Ok u, controller)
  | (Err reason, controller) =>
      if negb (bool_decide (reason = DenyResolvedAddress))
         || negb (bool_decide (resolution = HostConnectorAliases))
         || negb (match req_resolved_ip request with
                  | Some ip => is_host_connector_alias (req_host request) ip
                  | None => false
                  end)
      then (Err reason, controller)
      else policy_authorize policy controller (without_resolved_ip request)
  end.

(** The grant of [one_time_grant]: this host, port and transport, public addresses only. *)
Definition grant_rule (request : NetworkAccessRequest) (port : Z) : NetworkAccessRule :=
  mkAccessRule (req_host request) [port] [req_transport request] false.

Definition layer_push_allow (grant : NetworkAccessRule) (layer : NetworkPolicyLayer) : NetworkPolicyLayer :=
  mkLayer (npl_default_action layer) (npl_allow layer ++ [grant]) (npl_deny layer) (npl_limits layer).

(** The [match &mut fallback]; a scoped fallback is [unreachable!], since it does not compile. *)
Definition fallback_push_allow (grant : NetworkAccessRule) (fallback : NetworkCapability)
    : Result PolicyError NetworkCapability :=
  match fallback with
  | Ambient => Ok Ambient
  | AllowList hosts rules => Ok (AllowList hosts (rules ++ [grant]))
  | Policy action allow deny limits => Ok (Policy action (allow ++ [grant]) deny limits)
  | Deny => Err DeniedNotExtensible
  | Scoped _ _ => Err UnreachableFallback
  end.

Definition with_capability (c : option NetworkCapability) (n : NetworkConfig) : NetworkConfig :=
  mkConfig c (nc_mode n) (nc_allowed_hosts n) (nc_rules n) (nc_deny_rules n) (nc_limits n).

Definition is_exact_host (rule : NetworkHostRule) : bool :=
  match rule with Exact _ | RuleIp _ => true | _ => false end.

(** The sources that are not scoped but may be extended by an approval. *)
Definition extensible (policy : NetworkPolicy) : bool :=
  match nc_capability (np_source policy) with
  | Some (AllowList _ _) => true
  | Some (Policy ActionDeny _ _ _) => true
  | Some _ => false
  | None => bool_decide (np_mode policy = Allowlist)
  end.

Definition one_time_grant (policy : NetworkPolicy) (request : NetworkAccessRequest)
    : Result PolicyError NetworkPolicy :=
  entry ← parse_network_rule (req_host request);
  _ ← ensure (is_exact_host (nr_host entry)) ApprovalNeedsExactHost;
  _ ← ensure (negb (bool_decide (preflight policy request = Err ExplicitDeny))) ExplicitDenyNotOverridable;
  match nc_capability (np_source policy) with
  | Some (Scoped layers fallback) =>
      port ← ok_or (req_port request) PortRequired;
      let grant := grant_rule request port in
      let layers := prod_map id (layer_push_allow grant) <$> layers in
      fallback ← fallback_push_allow grant fallback;
      policy_compile (with_capability (Some (Scoped layers fallback)) (np_source policy))
  | capability =>
      _ ← ensure (extensible policy) OnlyAllowlistExtensible;
      port ← ok_or (req_port request) PortRequired;
      let rules := [grant_rule request port] in
      let capability :=
        match capability with
        | Some (AllowList _ _) => Some (AllowList [] rules)
        | Some (Policy _ _ deny limits) => Some (Policy ActionDeny rules deny limits)
        | _ => None
        end in
      policy_compile (mkConfig capability (nc_mode (np_source policy)) [] rules
        (nc_deny_rules (np_source policy)) (nc_limits (np_source policy)))
  end.

(** [matching_limits]; of the resolved socket addresses only the IP is used. *)
Definition limit_matches (host : string) (port : option Z) (resolved_addresses : list IpAddr)
    (limit : CompiledBandwidthLimit) : bool :=
  (match nbl_port (cbl_config limit) with
   | None => true
   | Some expected => bool_decide (port = Some expected)
   end)
  && match cbl_matcher limit with
     | None => true
     | Some matcher =>
         host_matches host [matcher]
         || existsb (fun ip => host_matches (ip_to_string ip) [matcher]) resolved_addresses
     end.

Definition matching_limits (policy : NetworkPolicy) (host : string) (port : option Z)
    (resolved_addresses : list IpAddr) : list NetworkBandwidthLimit :=
  cbl_config <$> List.filter (limit_matches host port resolved_addresses) (np_limits policy).
End Network.
