(* ===== verification/Cidr.v ===== *)
(** * A concrete CIDR library

    An executable instance of [IpNetOps]: an address, a slash and a decimal
    prefix length; a block contains the addresses of its family that agree on
    the prefix. It instantiates the parameter of the policy components in the
    evaluated examples; no theorem about the policies depends on it. *)
From stdpp Require Import base tactics list strings sets.
From Stdlib Require Import ZArith Lia Ascii.
From S2P Require Import Prelude RustStr Net NetFacts Types Control Policy.
Local Open Scope Z_scope.

Record Cidr := mkCidr { cidr_addr : IpAddr; cidr_prefix : Z }.

Definition family_width (ip : IpAddr) : Z := match ip with V4 _ => 32 | V6 _ => 128 end.

Definition address_value (ip : IpAddr) : Z :=
  match ip with
  | V4 ip => fold_left (fun acc o => acc * 256 + o) [oct0 ip; oct1 ip; oct2 ip; oct3 ip] 0
  | V6 ip => fold_left (fun acc g => acc * 65536 + g) (segments ip) 0
  end.

Definition cidr_from_str (s : string) : option Cidr :=
  '(addr, prefix) ← split_once_bytes "/"%char (to_bytes s);
  addr ← parse_ip (of_bytes addr);
  match Parser.read_number 10 3 false (family_width addr) prefix with
  | Some (prefix, []) => Some (mkCidr addr prefix)
  | _ => None
  end.

Definition cidr_contains (n : Cidr) (ip : IpAddr) : bool :=
  (family_width ip =? family_width (cidr_addr n)) &&
  (Z.shiftr (address_value ip) (family_width ip - cidr_prefix n) =?
   Z.shiftr (address_value (cidr_addr n)) (family_width ip - cidr_prefix n)).

#[export] Instance cidr_ops : IpNetOps :=
  {| IpNet := Cidr; ipnet_from_str := cidr_from_str; ipnet_contains := cidr_contains; ipnet_addr := cidr_addr |}.

Lemma split_once_bytes_sep c s p : split_once_bytes c s = Some p -> c ∈ s.
Proof.
  revert p. induction s as [|x s IH]; intros p; cbn; [done|]. case_match; [subst; by left|].
  destruct (split_once_bytes c s) as [[]|] eqn:E; [|done]. intros _. right. by eapply IH.
Qed.

#[export] Instance cidr_laws : @IpNetLaws cidr_ops.
Proof.
  intros s n. cbn. unfold cidr_from_str. intros ([a p] & Hs & _)%bind_Some.
  apply contains_spec. by apply split_once_bytes_sep in Hs.
Qed.
