(* ===== verification/NetworkFacts.v ===== *)
(** * Correctness of the egress policy

    What a compiled [NetworkPolicy] allows, what an injected controller, the
    resolved-address bypass and a one-time grant can change about it, and which
    bandwidth limits apply. *)
From stdpp Require Import base tactics list strings sets relations.
From Stdlib Require Import ZArith Lia Ascii.
From S2P Require Import Prelude RustStr Net NetFacts Types Control Policy PolicyFacts Network Cidr.
Local Open Scope Z_scope.

Section Facts.
Context {ipn : IpNetOps}.
Implicit Types (c : NetworkConfig) (p : NetworkPolicy) (r : NetworkAccessRequest).

(** ** Preflight *)

Lemma policy_compile_inv c p :
  policy_compile c = Ok p ->
  exists guard limits,
    compile (network_capability c) [] = Ok guard /\
    collect compile_limit (add_limits (limits_for (network_capability c)) (nc_limits c)) = Ok limits /\
    p = mkPolicy (nc_mode c) guard limits c.
Proof.
  unfold policy_compile. intros (? & _ & (g & Hg & (ls & Hl & [= <-])%bind_Ok)%bind_Ok)%bind_Ok.
  exists g, ls. split_and!; [done| |done]. rewrite <- Hl. do 2 f_equal.
  destruct (is_scoped (network_capability c)) eqn:Hs.
  - destruct (network_capability c) as [ls' fb| | | |]; try done.
    by apply compile_scoped_inv in Hg as (? & ? & _ & _ & _ & _ & ->).
  - rewrite compile_leaf in Hg by done. by apply compile_rules_fields in Hg as (-> & _).
Qed.

Lemma compiled_source c p : policy_compile c = Ok p -> np_source p = c.
Proof. by intros (? & ? & _ & _ & ->)%policy_compile_inv. Qed.

(** One authorization by a fresh machine. *)
Lemma authorize_egress_Ok {C} `{!ControlController ControlRequest C} (k : C) p r :
  (authorize_egress k p r).1 = Ok tt <->
  let t := (controller_authorize k (NetworkRequest (np_guard p) r)).1 in
  ct_from t = Requested /\ ct_to t = Allowed.
Proof.
  unfold authorize_egress.
  destruct (machine_authorize _ _ _) as [[res m] k'] eqn:E.
  apply machine_authorize_new in E as [-> [(-> & Hf & Hd)|(e & -> & Hbad)]]; cbn.
  - unfold is_allowed. destruct (ct_to _) eqn:Et; cbn; try done; naive_solver.
  - split; [done|]. intros [Hf Ht]. rewrite Ht in Hbad. naive_solver.
Qed.

Lemma authorize_egress_controller {C} `{!ControlController ControlRequest C} (k : C) p r :
  (authorize_egress k p r).2 = (controller_authorize k (NetworkRequest (np_guard p) r)).2.
Proof.
  unfold authorize_egress. destruct (machine_authorize _ _ _) as [[res m] k'] eqn:E.
  by apply machine_authorize_new in E as [-> _].
Qed.

Lemma preflight_authorize p r :
  preflight p r =
  let t := authorize_network (np_guard p) r in
  if is_allowed t then Ok tt else Err (deny_reason_of (ct_reason t)).
Proof.
  unfold preflight, authorize_egress.
  destruct (machine_authorize _ _ _) as [[res m] k'] eqn:E.
  apply machine_authorize_new in E as [-> [(-> & _)|(e & _ & Hbad)]]; cbn; [done|].
  destruct (authorize_shape (np_guard p) r (network_host (req_host r))) as (Hf & Hd & _).
  cbn in Hbad. unfold authorize_network in Hbad. rewrite Hd in Hbad. by destruct Hbad.
Qed.

Lemma preflight_Ok p r : preflight p r = Ok tt <-> is_allowed (authorize_network (np_guard p) r) = true.
Proof. rewrite preflight_authorize. cbn. destruct (is_allowed _); naive_solver. Qed.

Lemma preflight_cases p r : preflight p r = Ok tt \/ exists e, preflight p r = Err e.
Proof. destruct (preflight p r) as [[]|]; eauto. Qed.

Lemma preflight_capability c p r :
  policy_compile c = Ok p -> preflight p r = Ok tt <-> capability_allows (network_capability c) [] r.
Proof.
  intros (g & ls & Hg & _ & ->)%policy_compile_inv. rewrite preflight_Ok. cbn.
  by apply compile_authorize.
Qed.

Lemma preflight_explicit_deny p r :
  preflight p r = Err ExplicitDeny <-> guard_denied (np_guard p) r (network_host (req_host r)) = true.
Proof.
  rewrite preflight_authorize. cbn. unfold authorize_network.
  pose proof (authorize_shape (np_guard p) r (network_host (req_host r))) as (_ & _ & Hr).
  rewrite <- Hr. destruct (is_allowed _) eqn:Ha.
  - split; [done|]. intros Hx. apply Hr in Hx. destruct (np_guard p).
    cbn -[guard_denied] in Ha. by rewrite Hx in Ha.
  - destruct (ct_reason _); cbn; naive_solver.
Qed.

Lemma preflight_denied c p r :
  policy_compile c = Ok p ->
  preflight p r = Err ExplicitDeny <->
  hits_any false (network_host (req_host r)) r (deny_rules_of (network_capability c)).
Proof.
  intros (g & ls & Hg & _ & ->)%policy_compile_inv. rewrite preflight_explicit_deny. cbn.
  by apply (compile_denied _ []).
Qed.

(** ** Authorization by an injected controller *)

Lemma policy_authorize_Ok {C} `{!ControlController ControlRequest C} p (k : C) r :
  (policy_authorize p k r).1 = Ok tt <->
  preflight p r = Ok tt /\ (authorize_egress k p r).1 = Ok tt.
Proof. unfold policy_authorize. destruct (preflight p r) as [[]|]; cbn; naive_solver. Qed.

(** A deny rule that applies to the logical request applies to the resolved one. *)
Lemma rule_hits_logical r host rule :
  rule_hits false host (without_resolved_ip r) rule = true -> rule_hits false host r rule = true.
Proof.
  unfold rule_hits; cbn. rewrite !andb_true_iff. intros [[[Hh ?] ?] ?]. split_and!; try done.
  unfold matches_host in *. destruct (nr_host rule); try done;
    rewrite existsb_app; cbn in Hh; rewrite app_nil_r in Hh; by rewrite Hh.
Qed.

Lemma hits_any_logical r host rules :
  hits_any false host (without_resolved_ip r) rules -> hits_any false host r rules.
Proof. intros (rule & cr & ? & ? & ?%rule_hits_logical). by exists rule, cr. Qed.

Lemma not_denied_resolved {C} `{!ControlController ControlRequest C} p (k : C) r :
  (policy_authorize p k r).1 = Err DenyResolvedAddress -> preflight p r <> Err ExplicitDeny.
Proof. unfold policy_authorize. intros H Hp. by rewrite Hp in H. Qed.

(** ** One-time grants *)

(** A leaf capability that allows the grant and nothing else. *)
Definition only_grant (g : NetworkAccessRule) (capability : NetworkCapability) : Prop :=
  is_scoped capability = false /\
  forall request host, leaf_permits capability [] request host <-> hits_any true host request [g].

Lemma not_trusted host : ~ trusts [] host.
Proof. unfold trusts. cbn. set_solver. Qed.

Lemma only_grant_allowlist g : only_grant g (AllowList [] [g]).
Proof.
  split; [done|]. intros request host. unfold leaf_permits. cbn.
  pose proof (not_trusted host). tauto.
Qed.
Lemma only_grant_policy g deny limits : only_grant g (Policy ActionDeny [g] deny limits).
Proof.
  split; [done|]. intros request host. unfold leaf_permits. cbn.
  pose proof (not_trusted host). tauto.
Qed.
#[local] Hint Resolve only_grant_allowlist only_grant_policy : core.

Definition push_layers (g : NetworkAccessRule) (layers : list (PolicyScope * NetworkPolicyLayer)) :=
  prod_map id (layer_push_allow g) <$> layers.

(** What a successful grant is: the policy of an extended configuration. *)
Lemma one_time_grant_inv c p r p' :
  policy_compile c = Ok p -> one_time_grant p r = Ok p' ->
  preflight p r <> Err ExplicitDeny /\
  (exists entry, parse_network_rule (req_host r) = Ok entry /\ is_exact_host (nr_host entry) = true) /\
  exists port c', req_port r = Some port /\ policy_compile c' = Ok p' /\
    ((exists layers fb fb', network_capability c = Scoped layers fb /\
        fallback_push_allow (grant_rule r port) fb = Ok fb' /\
        network_capability c' = Scoped (push_layers (grant_rule r port) layers) fb') \/
     (is_scoped (network_capability c) = false /\
      only_grant (grant_rule r port) (network_capability c') /\
      deny_rules_of (network_capability c') = deny_rules_of (network_capability c))).
Proof.
  intros Hc Hg. pose proof (compiled_source _ _ Hc) as Hsrc.
  assert (np_mode p = nc_mode c) as Hmode by by apply policy_compile_inv in Hc as (? & ? & _ & _ & ->).
  unfold one_time_grant in Hg. apply bind_Ok in Hg as (entry & He & Hg).
  apply ensure_bind_Ok in Hg as [Hex Hg]. apply ensure_bind_Ok in Hg as [Hnd%negb_true_iff Hg].
  apply bool_decide_eq_false in Hnd. split; [done|]. split; [eauto|].
  rewrite Hsrc in Hg. destruct (nc_capability c) as [[layers fb| | |hs rs|a al dn lm]|] eqn:Hcap.
  - apply bind_Ok in Hg as (port & Hport & Hg). unfold ok_or in Hport. destruct (req_port r); [injection Hport as ->|done].
    apply bind_Ok in Hg as (fb' & Hfb & Hg). eexists port, _. split_and!; [done|exact Hg|].
    left. exists layers, fb, fb'. unfold network_capability, with_capability; cbn. by rewrite Hcap.
  - apply ensure_bind_Ok in Hg as [Hx _]. unfold extensible in Hx. by rewrite Hsrc, Hcap in Hx.
  - apply ensure_bind_Ok in Hg as [Hx _]. unfold extensible in Hx. by rewrite Hsrc, Hcap in Hx.
  - apply ensure_bind_Ok in Hg as [_ Hg]. apply bind_Ok in Hg as (port & Hport & Hg).
    unfold ok_or in Hport. destruct (req_port r); [injection Hport as ->|done].
    eexists port, _. split_and!; [done|exact Hg|]. right. unfold network_capability; cbn. rewrite Hcap. auto.
  - apply ensure_bind_Ok in Hg as [_ Hg]. apply bind_Ok in Hg as (port & Hport & Hg).
    unfold ok_or in Hport. destruct (req_port r); [injection Hport as ->|done].
    eexists port, _. split_and!; [done|exact Hg|]. right. unfold network_capability; cbn. rewrite Hcap. auto.
  - apply ensure_bind_Ok in Hg as [Hx Hg]. unfold extensible in Hx. rewrite Hsrc, Hcap, Hmode in Hx.
    apply bool_decide_eq_true in Hx.
    apply bind_Ok in Hg as (port & Hport & Hg). unfold ok_or in Hport. destruct (req_port r); [injection Hport as ->|done].
    eexists port, _. split_and!; [done|exact Hg|]. right. unfold network_capability; cbn. rewrite Hcap, Hx.
    destruct (bool_decide (nc_deny_rules c = []) && bool_decide (nc_limits c = [])) eqn:E; auto.
Qed.

Lemma push_layers_deny g layers :
  (push_layers g layers ≫= fun '(_, layer) => npl_deny layer) = (layers ≫= fun '(_, layer) => npl_deny layer).
Proof. induction layers as [|[s l] layers IH]; cbn; [done|]. f_equal. exact IH. Qed.

Lemma fallback_push_deny g fb fb' :
  fallback_push_allow g fb = Ok fb' -> deny_rules_of fb' = deny_rules_of fb.
Proof. destruct fb; cbn; naive_solver. Qed.

Lemma grant_deny_rules c p r p' :
  policy_compile c = Ok p -> one_time_grant p r = Ok p' ->
  exists c', policy_compile c' = Ok p' /\
    deny_rules_of (network_capability c') = deny_rules_of (network_capability c).
Proof.
  intros Hc Hg. destruct (one_time_grant_inv _ _ _ _ Hc Hg) as (_ & _ & port & c' & _ & Hc' & Hcase).
  exists c'. split; [done|]. destruct Hcase as [(layers & fb & fb' & -> & Hfb & ->)|(_ & _ & ?)]; [|done].
  cbn. rewrite push_layers_deny. f_equal. by eapply fallback_push_deny.
Qed.

Lemma hits_any_single safety host request rule :
  hits_any safety host request [rule] <->
  exists cr, compile_network_rule rule = Ok cr /\ rule_hits safety host request cr = true.
Proof. unfold hits_any. setoid_rewrite list_elem_of_singleton. naive_solver. Qed.

Lemma names_host_app host l1 l2 : names_host host (l1 ++ l2) <-> names_host host l1 \/ names_host host l2.
Proof. unfold names_host. setoid_rewrite elem_of_app. naive_solver. Qed.

(** Appending a grant to the allow rules of a leaf permits the grant and what
    was permitted before, at most. *)
Lemma push_layer_permits g layer request host :
  leaf_permits (layer_capability (layer_push_allow g layer)) [] request host ->
  leaf_permits (layer_capability layer) [] request host \/ hits_any true host request [g].
Proof.
  unfold leaf_permits, layer_capability; cbn. destruct (npl_default_action layer) as [[]|]; cbn;
    rewrite hits_any_app, ?names_host_app; tauto.
Qed.

Lemma fallback_push_permits g fb fb' request host :
  fallback_push_allow g fb = Ok fb' -> permits fb' [] request host ->
  permits fb [] request host \/ hits_any true host request [g].
Proof.
  destruct fb as [| | |hs rs|[] al dn lm]; cbn; intros [= <-]; cbn; unfold leaf_permits; cbn;
    rewrite ?hits_any_app, ?names_host_app; tauto.
Qed.

(** A granted policy allows what the old one allowed and the grant, at most. *)
Lemma grant_permits_inv layers fb fb' g request host :
  fallback_push_allow g fb = Ok fb' ->
  permits (Scoped (push_layers g layers) fb') [] request host ->
  permits (Scoped layers fb) [] request host \/ hits_any true host request [g].
Proof.
  intros Hfb [Hl Hp]. destruct (fallback_push_permits _ _ _ _ _ Hfb Hp) as [Hp'|]; [|by right].
  assert (forall scope layer, (scope, layer) ∈ layers ->
    leaf_permits (layer_capability layer) [] request host \/ hits_any true host request [g]) as Hall.
  { intros scope layer Hin. apply push_layer_permits, (Hl scope). apply list_elem_of_fmap. by exists (scope, layer). }
  assert (hits_any true host request [g] \/
    forall scope layer, (scope, layer) ∈ layers -> leaf_permits (layer_capability layer) [] request host) as [|];
    [|by right|left; by split].
  clear Hl. induction layers as [|[s l] layers IH]; [right; set_solver|].
  destruct (Hall s l) as [Hs|]; [left| |by left].
  destruct IH as [|IH]; [intros; eapply Hall; by right|by left|].
  right. intros scope layer [[= -> ->]|?]%elem_of_cons; eauto.
Qed.

Lemma push_layer_grants g layer request host :
  hits_any true host request [g] -> leaf_permits (layer_capability (layer_push_allow g layer)) [] request host.
Proof.
  intros H. right. unfold layer_capability; cbn. destruct (npl_default_action layer) as [[]|]; cbn;
    rewrite hits_any_app; tauto.
Qed.

Lemma fallback_push_grants g fb fb' request host :
  fallback_push_allow g fb = Ok fb' -> hits_any true host request [g] -> permits fb' [] request host.
Proof.
  intros H Hh. destruct fb as [| | |hs rs|[] al dn lm]; cbn in H; simplify_eq; cbn; right;
    rewrite ?hits_any_app; tauto.
Qed.

(** ** The granted request *)

Lemma normalize_trim s : normalize_host (trim s) = normalize_host s.
Proof. unfold normalize_host. by rewrite trim_idem. Qed.

Lemma strip_any_single cs s :
  (forall x, x ∈ cs -> head s <> Some x) -> strip_any ((fun x => [x]) <$> cs) s = None.
Proof.
  intros Hc. apply strip_any_None. intros q s' (x & -> & Hx)%list_elem_of_fmap ->. by apply (Hc x).
Qed.

Lemma trim_right_single cs s :
  (forall x, x ∈ cs -> last s <> Some x) -> trim_right ((fun x => [x]) <$> cs) s = s.
Proof.
  intros Hc. unfold trim_right.
  assert (reverse <$> ((fun x : ascii => [x]) <$> cs) = (fun x => [x]) <$> cs) as ->.
  { rewrite <- list_fmap_compose. by apply list_fmap_ext. }
  rewrite trim_left_id; [apply reverse_involutive|].
  apply strip_any_single. intros x Hx. rewrite head_reverse. by apply Hc.
Qed.

(** Normalizing does not change what an unbracketed address denotes. *)
Lemma normalize_ip s ip :
  contains "["%char s = false -> contains "]"%char s = false -> trim s = s ->
  parse_ip s = Some ip -> parse_ip (normalize_host s) = Some ip.
Proof.
  intros Hl Hr Ht Hp. unfold normalize_host. rewrite Ht.
  assert (forall x, x ∈ ["["; "]"]%char -> x ∉ to_bytes s) as Hno.
  { intros x Hx Hin. apply contains_spec in Hin.
    apply elem_of_cons in Hx as [E|E%list_elem_of_singleton]; congruence. }
  assert (trim_matches ["["; "]"]%char s = s) as ->.
  { unfold trim_matches. rewrite trim_left_id, trim_right_single, of_to_bytes; [done|..].
    - intros x Hx [l Hlast]%last_Some. apply (Hno x Hx). rewrite Hlast. set_solver.
    - apply strip_any_single. intros x Hx (l & Hh)%head_Some. apply (Hno x Hx). rewrite Hh. by left. }
  assert (parse_ip (to_ascii_lowercase s) = Some ip) as Hlow by by rewrite parse_ip_lower.
  destruct (parse_ip_last _ _ Hlow) as (d & x & Hlast & Hx).
  unfold trim_end_matches. change [["."%char]] with ((fun x => [x]) <$> ["."%char]).
  rewrite trim_right_single, of_to_bytes; [done|].
  intros y ->%list_elem_of_singleton. rewrite Hlast, last_snoc. congruence.
Qed.

(** ** Bandwidth limits *)

Lemma add_limits_elem declared limits l : l ∈ add_limits declared limits <-> l ∈ declared \/ l ∈ limits.
Proof.
  unfold add_limits. revert declared. induction limits as [|x limits IH]; intros declared; cbn; [set_solver|].
  rewrite IH. case_bool_decide; set_solver.
Qed.

(** What a limit of the configuration applies to. *)
Definition limit_applies (l : NetworkBandwidthLimit) (host : string) (port : option Z)
    (resolved_addresses : list IpAddr) : Prop :=
  (nbl_port l = None \/ port = nbl_port l) /\
  forall h, nbl_host l = Some h -> exists rule, parse_network_rule h = Ok rule /\
    (matches_host rule (network_host host) None = true \/
     exists ip, ip ∈ resolved_addresses /\ matches_host rule (network_host (ip_to_string ip)) None = true).

Lemma compile_limit_inv l cl :
  compile_limit l = Ok cl ->
  cbl_config cl = l /\ 0 < nbl_bytes_per_second l /\ nbl_port l <> Some 0 /\
  match nbl_host l with
  | Some h => exists rule, parse_network_rule h = Ok rule /\ cbl_matcher cl = Some rule
  | None => cbl_matcher cl = None
  end.
Proof.
  unfold compile_limit. intros [Hb%Z.ltb_lt [Hp%negb_true_iff Hm]%ensure_bind_Ok]%ensure_bind_Ok.
  apply bool_decide_eq_false in Hp. apply bind_Ok in Hm as (m & Hm & [= <-]). cbn. split_and!; try done.
  destruct (nbl_host l) as [h|]; [|by injection Hm].
  destruct (parse_network_rule h) as [rule|]; cbn in Hm; [|done]. injection Hm as <-. eauto.
Qed.

Lemma limit_matches_spec l cl host port addrs :
  compile_limit l = Ok cl -> limit_matches host port addrs cl = true <-> limit_applies l host port addrs.
Proof.
  intros (Hc & _ & _ & Hm)%compile_limit_inv. unfold limit_matches, limit_applies. rewrite Hc, andb_true_iff.
  assert (forall A B A' B' : Prop, (A <-> A') -> (B <-> B') -> A /\ B <-> A' /\ B') as Hand by tauto.
  apply Hand.
  - destruct (nbl_port l); rewrite ?bool_decide_eq_true; naive_solver.
  - destruct (nbl_host l) as [h|].
    + destruct Hm as (rule & Hr & ->). cbn. rewrite orb_false_r, orb_true_iff, existsb_exists.
      setoid_rewrite orb_false_r. setoid_rewrite <- list_elem_of_In.
      split; [intros ? ? [= <-]; eauto|]. intros (rule' & ? & ?)%(fun H => H h eq_refl).
      assert (rule' = rule) as -> by congruence. done.
    + rewrite Hm. naive_solver.
Qed.

Lemma matching_limits_spec c p host port addrs l :
  policy_compile c = Ok p ->
  l ∈ matching_limits p host port addrs <->
  (l ∈ limits_for (network_capability c) \/ l ∈ nc_limits c) /\ limit_applies l host port addrs.
Proof.
  intros (g & ls & _ & Hl & ->)%policy_compile_inv. unfold matching_limits. cbn.
  rewrite <- add_limits_elem, list_elem_of_fmap. setoid_rewrite list_elem_of_In at 1.
  setoid_rewrite filter_In. setoid_rewrite <- list_elem_of_In.
  setoid_rewrite (collect_elem_of _ _ _ _ Hl). split.
  - intros (cl & -> & (l' & Hin & Hcl) & Hm). pose proof (compile_limit_inv _ _ Hcl) as (-> & _).
    split; [done|]. by apply (limit_matches_spec _ _ _ _ _ Hcl).
  - intros [Hin Happ]. apply list_elem_of_lookup in Hin as Hlk. destruct Hlk as [i Hi].
    apply collect_Ok in Hl. destruct (Forall2_lookup_l _ _ _ _ _ Hl Hi) as (cl & _ & Hcl).
    exists cl. pose proof (compile_limit_inv _ _ Hcl) as (-> & _). split_and!; [done|by exists l|].
    by apply (limit_matches_spec _ _ _ _ _ Hcl).
Qed.

Lemma declared_limit_rate c p l :
  policy_compile c = Ok p -> l ∈ limits_for (network_capability c) \/ l ∈ nc_limits c ->
  0 < nbl_bytes_per_second l.
Proof.
  intros (g & ls & _ & Hl%collect_Ok & _)%policy_compile_inv Hin%add_limits_elem.
  apply list_elem_of_lookup in Hin as [i Hi].
  destruct (Forall2_lookup_l _ _ _ _ _ Hl Hi) as (cl & _ & Hcl). by apply compile_limit_inv in Hcl as (_ & ? & _).
Qed.

(** ** Unrestricted policies *)

Lemma compile_capability capability trusted g : compile capability trusted = Ok g -> ng_capability g = capability.
Proof.
  destruct (is_scoped capability) eqn:Hs; intros Hg.
  - destruct capability as [ls fb| | | |]; try done. by apply compile_scoped_inv in Hg as (? & ? & _ & _ & _ & _ & ->).
  - rewrite compile_leaf in Hg by done. by apply compile_rules_fields in Hg as (-> & _).
Qed.

Lemma unrestricted_allows capability request host :
  unrestricted capability = true ->
  ~ hits_any false host request (deny_rules_of capability) /\ permits capability [] request host.
Proof.
  induction capability as [layers fb IH| | | |a al dn lm]; cbn; intros H; try done.
  - destruct layers; [|done]. destruct (IH H) as [Hd Hp]. cbn. split; [done|]. split; [set_solver|done].
  - split; [|by right]. intros (? & ? & ?%elem_of_nil & _). done.
  - apply andb_true_iff in H as [[[Ha Hal]%andb_true_iff Hdn]%andb_true_iff _].
    apply bool_decide_eq_true in Ha, Hal, Hdn. subst. split; [intros (? & ? & ?%elem_of_nil & _); done|].
    right. left. intros (? & ? & ?%elem_of_nil & _). done.
Qed.

(** ** Spelling of addresses *)

Definition canonical_request r : NetworkAccessRequest :=
  mkRequest (req_run_id r) (req_execution_id r) (req_host r) (req_port r) (req_transport r)
    (canonical <$> req_resolved_ip r).

Lemma matches_ip_canonical rule ip : matches_ip rule (canonical ip) = matches_ip rule ip.
Proof. unfold matches_ip. destruct (nr_host rule); rewrite ?canonical_idem; done. Qed.

Lemma matches_host_canonical rule host ip :
  matches_host rule host (canonical <$> ip) = matches_host rule host ip.
Proof.
  unfold matches_host. destruct (nr_host rule); [done..| |];
    rewrite !existsb_app; f_equal; destruct ip; cbn; by rewrite ?matches_ip_canonical.
Qed.

Lemma allows_resolved_canonical rule ip :
  allows_resolved_address rule (canonical <$> ip) = allows_resolved_address rule ip.
Proof.
  destruct ip as [ip|]; [|done]. cbn. destruct (nr_host rule); rewrite ?matches_ip_canonical;
    by rewrite ?public_egress_canonical, ?opt_in_private_canonical.
Qed.

Lemma evaluate_canonical rules r host safety :
  evaluate_rules rules (canonical_request r) host safety = evaluate_rules rules r host safety.
Proof.
  unfold evaluate_rules. destruct rules as [|x rules]; [done|]. generalize (x :: rules). clear x rules.
  intros rules. assert (forall h q t,
    evaluate_loop rules (canonical_request r) host safety h q t = evaluate_loop rules r host safety h q t) as Hl; [|apply Hl].
  induction rules as [|x rules IH]; intros h q t.
  - cbn. destruct (req_resolved_ip r); done.
  - cbn [evaluate_loop canonical_request req_resolved_ip req_port req_transport].
    by rewrite matches_host_canonical, allows_resolved_canonical, !IH.
Qed.

Lemma existsb_ext_in {A} (f g : A -> bool) l : (forall x, x ∈ l -> f x = g x) -> existsb f l = existsb g l.
Proof.
  induction l as [|x l IH]; cbn; [done|]. intros H. rewrite (H x) by left. f_equal. apply IH. intros; apply H; by right.
Qed.

Lemma guard_denied_canonical g r host : guard_denied g (canonical_request r) host = guard_denied g r host.
Proof.
  induction g as [g IHs IHf] using guard_ind. destruct g as [cap rules deny trusted scopes fb]; cbn in *.
  rewrite evaluate_canonical. f_equal; [f_equal|].
  - apply existsb_ext_in. intros [s g] Hin. by eapply IHs.
  - destruct fb; [by apply IHf|done].
Qed.

Lemma authorize_canonical g r host :
  authorize_network_with_host g (canonical_request r) host = authorize_network_with_host g r host.
Proof.
  induction g as [g IHs IHf] using guard_ind. pose proof (guard_denied_canonical g r host) as Hd.
  destruct g as [cap rules deny trusted scopes fb]; cbn -[guard_denied is_trusted] in *. rewrite Hd.
  destruct (guard_denied _ r host); [done|]. destruct fb as [fb|].
  - rewrite (IHf fb eq_refl).
    assert (((fun '(_, guard) => authorize_network_with_host guard (canonical_request r) host) <$> scopes) =
      ((fun '(_, guard) => authorize_network_with_host guard r host) <$> scopes)) as ->; [|done].
    apply list_fmap_ext. intros i [s g] Hi%list_elem_of_lookup_2. by eapply IHs.
  - unfold authorize_allowlist, authorize_default_allow, evaluate. cbn. by rewrite evaluate_canonical.
Qed.

(** ** Allow lists of names *)

(** A rule for a name that leaves private addresses out. *)
Definition public_name_rule (rule : NetworkAccessRule) : Prop :=
  nar_allow_private_ips rule = false /\
  forall host, parse_network_host_rule (nar_host rule) = Ok host ->
    match host with Exact _ | WildcardSuffix _ => True | _ => False end.

Lemma public_name_hit rules host r ip :
  Forall public_name_rule rules -> req_resolved_ip r = Some ip ->
  hits_any true host r rules -> is_public_egress_ip ip = true.
Proof.
  rewrite Forall_forall. intros Hall Hip (rule & cr & Hin & Hc & Hhit).
  destruct (Hall _ Hin) as [Hpriv Hname]. unfold compile_network_rule in Hc.
  case_bool_decide; [done|]. apply bind_Ok in Hc as (h & Hh & [= <-]). specialize (Hname _ Hh).
  unfold rule_hits in Hhit. rewrite Hip in Hhit. apply andb_true_iff in Hhit as [_ Ha]. cbn in Ha.
  rewrite Hpriv in Ha. destruct h; try done; by rewrite orb_false_r in Ha.
Qed.

(** ** Wildcards and models *)

Lemma wildcard_spec rule suffix host ip :
  nr_host rule = WildcardSuffix suffix ->
  matches_host rule host ip = true <->
  exists label, to_bytes (nh_name host) = label ++ "."%char :: to_bytes suffix.
Proof.
  intros Hr. unfold matches_host. rewrite Hr, !andb_true_iff, ends_with_spec, Nat.ltb_lt, bool_decide_eq_true.
  rewrite <- !length_to_bytes. split.
  - intros [[[l Hl] Hlen] Hdot]. rewrite Hl in Hdot, Hlen |- *. rewrite length_app in Hdot, Hlen.
    destruct l as [|x l _] using rev_ind; [cbn in Hlen; lia|]. rewrite length_app in Hdot; cbn in Hdot.
    replace (length l + 1 + length (to_bytes suffix) - length (to_bytes suffix) - 1)%nat with (length l) in Hdot by lia.
    rewrite <- app_assoc in Hdot. change ([x] ++ to_bytes suffix) with (x :: to_bytes suffix) in Hdot.
    rewrite list_lookup_middle in Hdot by done. injection Hdot as ->. exists l. by rewrite <- app_assoc.
  - intros [l Hl]. rewrite Hl. split_and!.
    + exists (l ++ ["."%char]). by rewrite <- app_assoc.
    + rewrite length_app; cbn; lia.
    + rewrite length_app; cbn. replace (length l + S (length (to_bytes suffix)) - length (to_bytes suffix) - 1)%nat with (length l) by lia.
      by rewrite list_lookup_middle.
Qed.

Context {laws : IpNetLaws}.

(** An exact rule written for a host matches that host. *)
Lemma exact_rule_matches raw rule rule' :
  parse_network_host_rule raw = Ok rule -> is_exact_host rule = true -> nr_host rule' = rule ->
  matches_host rule' (network_host raw) None = true.
Proof.
  unfold parse_network_host_rule. intros H Hex Hr. destruct (is_empty (trim raw)); [done|].
  destruct (contains_str "://" (trim raw) || _ || _) eqn:Hb; [done|].
  apply orb_false_iff in Hb as [[_ Hb1]%orb_false_iff Hb2].
  destruct (contains "/"%char (trim raw) && _); [done|].
  destruct (entry_has_port _); [done|]. destruct (strip_prefix _ _).
  { destruct (is_empty _ || _ || _); [done|]. by injection H as <-. }
  destruct (contains "*"%char _); [done|].
  destruct (ipnet_from_str (trim raw)) as [n|] eqn:En.
  { rewrite (ipnet_needs_slash _ _ En) in H. by injection H as <-. }
  unfold matches_host. rewrite Hr. destruct (parse_ip (trim raw)) as [ip|] eqn:Eip.
  - injection H as <-. cbn. rewrite <- (normalize_trim raw), (normalize_ip (trim raw) ip) by (done || apply trim_idem).
    cbn. unfold matches_ip. rewrite Hr. by rewrite bool_decide_eq_true_2.
  - destruct (is_empty _ || _); [done|]. injection H as <-. apply bool_decide_eq_true_2, eq_sym, normalize_trim.
Qed.

Lemma grant_hits_request r port entry :
  parse_network_rule (req_host r) = Ok entry -> is_exact_host (nr_host entry) = true ->
  req_port r = Some port -> port <> 0 -> req_resolved_ip r = None ->
  hits_any true (network_host (req_host r)) r [grant_rule r port].
Proof.
  unfold parse_network_rule, compile_network_rule. cbn. intros Hp Hex Hport Hz Hres.
  destruct (parse_network_host_rule (req_host r)) as [rule|] eqn:Er; cbn in Hp; [|done].
  injection Hp as <-. cbn in Hex.
  apply hits_any_single. unfold compile_network_rule. cbn.
  rewrite bool_decide_eq_false_2 by set_solver. rewrite Er. cbn. eexists. split; [done|].
  unfold rule_hits. rewrite Hres, Hport. cbn. rewrite (exact_rule_matches _ _ _ Er Hex) by done.
  unfold matches_port, matches_transport; cbn. by rewrite !bool_decide_eq_true_2 by set_solver.
Qed.

Lemma grant_hits_inv granted port r host entry :
  parse_network_rule (req_host granted) = Ok entry ->
  hits_any true host r [grant_rule granted port] ->
  req_port r = Some port /\ req_transport r = req_transport granted /\
  matches_host entry host (req_resolved_ip r) = true /\ allows_resolved_address entry (req_resolved_ip r) = true.
Proof.
  unfold parse_network_rule. intros He (cr & Hc & Hh)%hits_any_single. revert He Hc.
  unfold compile_network_rule. cbn. case_bool_decide; [done|]. case_bool_decide as Hz; [done|].
  destruct (parse_network_host_rule (req_host granted)) as [hr|] eqn:Er; cbn; [|done].
  intros [= <-] [= <-]. unfold rule_hits in Hh. cbn in Hh. rewrite !andb_true_iff in Hh.
  destruct Hh as (((Hm & Hp) & Ht) & Ha). unfold matches_port, matches_transport in Hp, Ht. cbn in Hp, Ht.
  split_and!.
  - destruct (req_port r) as [q|]; [|done]. apply bool_decide_eq_true, list_elem_of_singleton in Hp. by subst.
  - by apply bool_decide_eq_true, list_elem_of_singleton in Ht.
  - exact Hm.
  - exact Ha.
Qed.

(** The hosts that a grant covers, read off its text. *)
Definition within_grant (granted r : NetworkAccessRequest) : Prop :=
  match parse_network_host_rule (req_host granted) with
  | Ok (Exact name) =>
      nh_name (network_host (req_host r)) = name /\ (forall ip, req_resolved_ip r = Some ip -> is_public_egress_ip ip = true)
  | Ok (RuleIp ip) =>
      (exists ip', (nh_ip (network_host (req_host r)) = Some ip' \/ req_resolved_ip r = Some ip') /\ canonical ip' = canonical ip) /\
      (forall ip', req_resolved_ip r = Some ip' -> canonical ip' = canonical ip)
  | _ => False
  end.

Lemma matches_within_grant granted r entry :
  parse_network_rule (req_host granted) = Ok entry -> is_exact_host (nr_host entry) = true ->
  matches_host entry (network_host (req_host r)) (req_resolved_ip r) = true -> allows_resolved_address entry (req_resolved_ip r) = true ->
  within_grant granted r.
Proof.
  unfold parse_network_rule, compile_network_rule, within_grant. cbn [host_only nar_host nar_ports nar_allow_private_ips].
  case_bool_decide; [done|]. destruct (parse_network_host_rule (req_host granted)) as [rule|]; [|done]. cbn [mbind result_bind].
  intros [= <-]. unfold matches_host, allows_resolved_address. cbn [nr_host nr_allow_private_ips]. destruct rule as [name|suffix|ip|network]; try done; intros _ Hm Ha.
  - apply bool_decide_eq_true in Hm. split; [done|]. intros ip Hip. rewrite Hip in Ha. by rewrite orb_false_r in Ha.
  - unfold matches_ip in Hm, Ha. cbn [nr_host] in Hm, Ha. split.
    + apply existsb_exists in Hm as (ip' & Hin & Heq%bool_decide_eq_true). exists ip'. split; [|done].
      apply in_app_or in Hin as [Hin|Hin]; [left|right]; [destruct (nh_ip _)|destruct (req_resolved_ip r)]; cbn in Hin;
        [destruct Hin as [->|[]]; done|done|destruct Hin as [->|[]]; done|done].
    + intros ip' Hip. rewrite Hip in Ha. by apply bool_decide_eq_true in Ha.
Qed.

Lemma grant_allows_request c p r p' :
  policy_compile c = Ok p -> one_time_grant p r = Ok p' ->
  req_resolved_ip r = None -> req_port r <> Some 0 -> preflight p' r = Ok tt.
Proof.
  intros Hc Hg Hres Hz. destruct (one_time_grant_inv _ _ _ _ Hc Hg) as (Hnd & (entry & He & Hex) & port & c' & Hport & Hc' & Hcase).
  assert (hits_any true (network_host (req_host r)) r [grant_rule r port]) as Hh
    by (eapply grant_hits_request; eauto; congruence).
  rewrite (preflight_denied _ _ _ Hc) in Hnd. rewrite (preflight_capability _ _ _ Hc').
  destruct (grant_deny_rules _ _ _ _ Hc Hg) as (c'' & Hc'' & Hd).
  assert (c'' = c') as -> by (rewrite <- (compiled_source _ _ Hc''); by apply compiled_source).
  split; [by rewrite Hd|]. destruct Hcase as [(layers & fb & fb' & Hcap & Hfb & ->)|(_ & [Hs Honly] & _)].
  - split; [|by eapply fallback_push_grants].
    intros scope layer Hin. apply list_elem_of_fmap in Hin as ([s l] & [= -> ->] & _).
    by apply push_layer_grants.
  - apply Honly in Hh. by destruct (network_capability c').
Qed.
End Facts.

(** ** Properties *)
Section Properties.
Context {ipn : IpNetOps}.
Implicit Types (c : NetworkConfig) (p : NetworkPolicy) (r : NetworkAccessRequest).

(** C1: a policy compiled from a configuration lets a request through exactly
    when no explicit deny of any layer applies to it and every scope layer and
    the fallback permit it. *)
Theorem preflight_correct c p r :
  policy_compile c = Ok p ->
  preflight p r = Ok tt <-> capability_allows (network_capability c) [] r.
Proof. apply preflight_capability. Qed.

(** C2: an explicit deny of any scope is reported as such, and exactly then:
    no allow rule, trusted host or outer scope hides it. *)
Theorem explicit_deny_exact c p r :
  policy_compile c = Ok p ->
  preflight p r = Err ExplicitDeny <->
  hits_any false (network_host (req_host r)) r (deny_rules_of (network_capability c)).
Proof. apply preflight_denied. Qed.

(** C8: an injected controller, whatever it answers, never allows what preflight
    refuses; it is not asked about such a request, and its answer only counts
    when it is a decision on a fresh request. *)
Theorem controller_cannot_widen {C} `{!ControlController ControlRequest C} p (k : C) r :
  ((policy_authorize p k r).1 = Ok tt <->
    preflight p r = Ok tt /\
    let t := (controller_authorize k (NetworkRequest (np_guard p) r)).1 in
    ct_from t = Requested /\ ct_to t = Allowed) /\
  (forall e, preflight p r = Err e -> policy_authorize p k r = (Err e, k)).
Proof.
  split; [by rewrite policy_authorize_Ok, authorize_egress_Ok|].
  intros e He. unfold policy_authorize. by rewrite He.
Qed.

(** C9: a resolved address outside the allow rules is waived only for a
    connector alias in 198.18.0.0/15 of a name, when the policy allows the
    request without its address; no explicit deny is ever waived. *)
Theorem resolved_bypass_safe {C} `{!ControlController ControlRequest C} c p (k : C) r resolution :
  policy_compile c = Ok p ->
  (authorize_resolved p k r resolution).1 = Ok tt ->
  ~ hits_any false (network_host (req_host r)) r (deny_rules_of (network_capability c)) /\
  (capability_allows (network_capability c) [] r \/
   resolution = HostConnectorAliases /\ parse_ip (req_host r) = None /\
   (exists ip, req_resolved_ip r = Some (V4 ip) /\ oct0 ip = 198 /\ (oct1 ip = 18 \/ oct1 ip = 19)) /\
   capability_allows (network_capability c) [] (without_resolved_ip r)).
Proof.
  intros Hc. unfold authorize_resolved. destruct (policy_authorize p k r) as [[[]|reason] k1] eqn:Ha; cbn.
  - intros _. assert ((policy_authorize p k r).1 = Ok tt) as [Hp _]%policy_authorize_Ok by by rewrite Ha.
    apply (preflight_capability _ _ _ Hc) in Hp. split; [apply Hp|by left].
  - destruct (_ || _ || _) eqn:Hb; [done|].
    apply orb_false_iff in Hb as [[Hr%negb_false_iff Hal%negb_false_iff]%orb_false_iff Hip%negb_false_iff].
    apply bool_decide_eq_true in Hr, Hal. subst reason. intros [Hp _]%policy_authorize_Ok.
    apply (preflight_capability _ _ _ Hc) in Hp.
    assert ((policy_authorize p k r).1 = Err DenyResolvedAddress) as Hnd%not_denied_resolved by by rewrite Ha.
    rewrite (preflight_denied _ _ _ Hc) in Hnd. split; [done|]. right. split; [done|].
    destruct (req_resolved_ip r) as [ip|] eqn:Eip; [|done]. unfold is_host_connector_alias in Hip.
    destruct (parse_ip (req_host r)); [done|]. split; [done|]. split; [|done].
    destruct ip as [ip|]; [|done]. exists ip. split; [done|].
    by apply andb_true_iff in Hip as [?%Z.eqb_eq [?%Z.eqb_eq|?%Z.eqb_eq]%orb_true_iff]; auto.
Qed.

(** A policy that lets packets bypass the proxy allows every request, and
    no bandwidth limit would have applied to any connection. *)
Theorem unrestricted_packets_sound c p :
  policy_compile c = Ok p -> allows_unrestricted_packets p = true ->
  (forall r, preflight p r = Ok tt) /\ (forall host port addrs, matching_limits p host port addrs = []).
Proof.
  intros Hc [Hl Hu]%andb_true_iff. apply bool_decide_eq_true in Hl. split.
  - intros r. rewrite (preflight_capability _ _ _ Hc). apply unrestricted_allows.
    apply policy_compile_inv in Hc as (g & ls & Hg & _ & ->). cbn in Hu. by rewrite (compile_capability _ _ _ Hg) in Hu.
  - intros. unfold matching_limits. by rewrite Hl.
Qed.


(** The request an operator grants, for a real port and not yet resolved, is
    allowed by the granted policy. *)
Theorem granted_request_passes `{!IpNetLaws} c p r p' :
  policy_compile c = Ok p -> one_time_grant p r = Ok p' ->
  req_resolved_ip r = None -> req_port r <> Some 0 -> preflight p' r = Ok tt.
Proof. apply grant_allows_request. Qed.

(** The limits applied to a connection are exactly the declared ones whose
    port and host apply, each with a positive rate. *)
Theorem limits_exact c p host port addrs l :
  policy_compile c = Ok p ->
  l ∈ matching_limits p host port addrs <->
  (l ∈ limits_for (network_capability c) \/ l ∈ nc_limits c) /\
  0 < nbl_bytes_per_second l /\ limit_applies l host port addrs.
Proof.
  intros Hc. rewrite (matching_limits_spec _ _ _ _ _ _ Hc).
  pose proof (declared_limit_rate _ _ l Hc). tauto.
Qed.

(** No decision depends on whether a resolved IPv4 address is written as
    such or as an IPv4-mapped IPv6 address. *)
Theorem decision_ignores_mapping p r : preflight p (canonical_request r) = preflight p r.
Proof. rewrite !preflight_authorize. unfold authorize_network. by rewrite authorize_canonical. Qed.

(** When the allow rules of a default-deny policy name hosts and do not opt
    in to private addresses, a request to a resolved address is allowed only
    if the address is public. *)
Theorem allowlist_public_only c p r ip :
  policy_compile c = Ok p -> req_resolved_ip r = Some ip ->
  match network_capability c with
  | AllowList hosts rules => Forall public_name_rule ((host_only <$> hosts) ++ rules)
  | Policy ActionDeny allow _ _ => Forall public_name_rule allow
  | _ => False
  end ->
  preflight p r = Ok tt -> is_public_egress_ip ip = true.
Proof.
  intros Hc Hip Hall. rewrite (preflight_capability _ _ _ Hc). intros [_ Hp].
  destruct (network_capability c) as [| | |hs rs|[] al dn lm]; try done;
    destruct Hp as [[]%not_trusted|Hp]; by eapply public_name_hit.
Qed.

(** The single pass over the rules, with its progress flags, reports what
    filtering by host, port, transport and address in turn would report. *)
Theorem evaluation_is_staged rules r host safety :
  evaluate_rules rules r host safety = staged_evaluation rules r host safety.
Proof. apply evaluate_rules_is_staged. Qed.
End Properties.

(** A control machine, driven by any sequence of calls with any controllers,
    records at most one decision and at most one application or failure of it,
    which carries the effect and reason of that decision. *)
Theorem machine_lifecycle m : machine_reachable m -> machine_wf m.
Proof. apply reachable_machine_wf. Qed.

(** ** Evaluated instances *)

Definition compiled (c : NetworkConfig) : NetworkPolicy :=
  match policy_compile c with
  | Ok p => p
  | Err _ => mkPolicy (nc_mode c) (mkGuard Deny [] [] [] [] None) [] c
  end.

Lemma compiled_ok c : is_ok (policy_compile c) = true -> policy_compile c = Ok (compiled c).
Proof. unfold compiled. by destruct (policy_compile c). Qed.

Definition granted (p : NetworkPolicy) (r : NetworkAccessRequest) : NetworkPolicy :=
  match one_time_grant p r with Ok p' => p' | Err _ => p end.

Lemma granted_ok p r : is_ok (one_time_grant p r) = true -> one_time_grant p r = Ok (granted p r).
Proof. unfold granted. by destruct (one_time_grant p r). Qed.

Definition web_rule : NetworkAccessRule := mkAccessRule "*.example.com" [443] [Https] false.
Definition evil_rule : NetworkAccessRule := mkAccessRule "evil.example.com" [] [] false.
Definition slow_limit : NetworkBandwidthLimit := mkLimit (Some "10.0.0.0/8"%string) (Some 443) 1000.
Definition web_config : NetworkConfig :=
  capability_config (Policy ActionDeny [web_rule] [evil_rule] [slow_limit]).
Definition web_request (host : string) (ip : option IpAddr) : NetworkAccessRequest :=
  mkRequest None None host (Some 443) Https ip.
Definition public_ip : IpAddr := V4 (mkV4 93 184 216 34).
Definition alias_ip : IpAddr := V4 (mkV4 198 18 0 7).

Lemma preflight_correct_witness :
  policy_compile web_config = Ok (compiled web_config) /\
  capability_allows (network_capability web_config) [] (web_request "API.Example.com." (Some public_ip)).
Proof.
  assert (policy_compile web_config = Ok (compiled web_config)) as Hc by (apply compiled_ok; vm_compute; reflexivity).
  split; [exact Hc|]. apply (preflight_correct _ _ _ Hc). vm_compute. reflexivity.
Defined.

Lemma explicit_deny_exact_witness :
  policy_compile web_config = Ok (compiled web_config) /\
  hits_any false (network_host "evil.example.com") (web_request "evil.example.com" None)
    (deny_rules_of (network_capability web_config)).
Proof.
  assert (policy_compile web_config = Ok (compiled web_config)) as Hc by (apply compiled_ok; vm_compute; reflexivity).
  split; [exact Hc|]. apply (explicit_deny_exact _ _ (web_request "evil.example.com" None) Hc). vm_compute. reflexivity.
Defined.

Lemma resolved_bypass_safe_witness :
  (authorize_resolved (compiled web_config) ThePolicyController
    (web_request "api.example.com" (Some alias_ip)) HostConnectorAliases).1 = Ok tt /\
  ~ hits_any false (network_host "api.example.com") (web_request "api.example.com" (Some alias_ip))
    (deny_rules_of (network_capability web_config)).
Proof.
  assert (policy_compile web_config = Ok (compiled web_config)) as Hc by (apply compiled_ok; vm_compute; reflexivity).
  assert ((authorize_resolved (compiled web_config) ThePolicyController
    (web_request "api.example.com" (Some alias_ip)) HostConnectorAliases).1 = Ok tt) as Ha by (vm_compute; reflexivity).
  split; [exact Ha|]. exact (proj1 (resolved_bypass_safe _ _ _ _ _ Hc Ha)).
Defined.

Lemma unrestricted_packets_sound_witness :
  allows_unrestricted_packets (compiled default_config) = true /\
  preflight (compiled default_config) (web_request "10.0.0.1" None) = Ok tt.
Proof.
  assert (policy_compile default_config = Ok (compiled default_config)) as Hc by (apply compiled_ok; vm_compute; reflexivity).
  assert (allows_unrestricted_packets (compiled default_config) = true) as Hu by (vm_compute; reflexivity).
  split; [exact Hu|]. exact (proj1 (unrestricted_packets_sound _ _ Hc Hu) _).
Defined.

(** A grant for an address lets requests for other names through that were
    resolved to it. *)
Example address_grant_covers_names :
  let config := capability_config (Policy ActionDeny [] [] []) in
  let approved := web_request "93.184.216.34" None in
  let other := web_request "evil.example.org" (Some public_ip) in
  preflight (compiled config) other <> Ok tt /\ preflight (granted (compiled config) approved) other = Ok tt.
Proof. split; vm_compute; [discriminate|reflexivity]. Qed.


(** The same with scope layers: a session layer that denies by default. *)
Definition scoped_config : NetworkConfig :=
  capability_config (Scoped [(Session, mkLayer None [web_rule] [evil_rule] []); (User, mkLayer (Some ActionAllow) [] [] [])] Ambient).

Lemma granted_request_passes_witness :
  preflight (compiled scoped_config) (web_request "docs.rs" None) = Err NotInAllowlist /\
  preflight (granted (compiled scoped_config) (web_request "docs.rs" None)) (web_request "docs.rs" None) = Ok tt.
Proof.
  split; [vm_compute; reflexivity|].
  apply (granted_request_passes scoped_config (compiled scoped_config)); 
    [apply compiled_ok; vm_compute; reflexivity|apply granted_ok; vm_compute; reflexivity|reflexivity|discriminate].
Defined.

Lemma limits_exact_witness :
  slow_limit ∈ matching_limits (compiled web_config) "db.example.com" (Some 443) [V4 (mkV4 10 1 2 3)] /\
  limit_applies slow_limit "db.example.com" (Some 443) [V4 (mkV4 10 1 2 3)].
Proof.
  assert (slow_limit ∈ matching_limits (compiled web_config) "db.example.com" (Some 443) [V4 (mkV4 10 1 2 3)]) as Hl.
  { assert (matching_limits (compiled web_config) "db.example.com" (Some 443) [V4 (mkV4 10 1 2 3)] = [slow_limit])
      as -> by (vm_compute; reflexivity). left. }
  split; [exact Hl|].
  apply (limits_exact web_config) in Hl as (_ & _ & Ha); [exact Ha|apply compiled_ok; vm_compute; reflexivity].
Defined.

Lemma allowlist_public_only_witness :
  preflight (compiled web_config) (web_request "api.example.com" (Some public_ip)) = Ok tt /\
  is_public_egress_ip public_ip = true.
Proof.
  assert (preflight (compiled web_config) (web_request "api.example.com" (Some public_ip)) = Ok tt) as Hp
    by (vm_compute; reflexivity).
  split; [exact Hp|]. refine (allowlist_public_only web_config _ _ public_ip _ _ _ Hp);
    [apply compiled_ok; vm_compute; reflexivity|reflexivity|].
  constructor; [|constructor]. split; [reflexivity|]. intros h H.
  assert (parse_network_host_rule (nar_host web_rule) = Ok (WildcardSuffix "example.com")) as E by reflexivity.
  rewrite E in H. injection H as <-. exact I.
Defined.

Lemma machine_lifecycle_witness :
  exists m, machine_reachable m /\ cm_state m = Applied EffectAllow /\ machine_wf m.
Proof.
  set (request := NetworkRequest (np_guard (compiled default_config)) (web_request "docs.rs" None)).
  assert (machine_reachable (machine_applied (machine_authorize machine_new ThePolicyController request).1.2).2) as Hr.
  { eapply rtc_l; [exact (step_authorize _ _ policy_controller machine_new ThePolicyController request)|].
    eapply rtc_l; [apply step_applied|]. apply rtc_refl. }
  eexists. split; [exact Hr|]. split; [vm_compute; reflexivity|]. exact (machine_lifecycle _ Hr).
Defined.
