(* ===== verification/FileAccess.v ===== *)
(** * File access policy

    [pvisor-core/src/file_access.rs] and the prompt protocol of [audit.rs].

    A path is a mount-relative path in normal form, as its list of components;
    the empty list is the mount root, the last of [Path::ancestors]. Globs come
    from the crate [globset]: [GlobOps] names what the code calls, [GlobLaws]
    what its documentation promises.

    The flag [preparing] is shared by every clone of a policy, so it lives in a
    heap of flags. A flag made by [Default] is [false] and no code ever sets an
    existing flag, so it is represented by the absence of a location. *)
From stdpp Require Import base tactics list strings pretty.
From Stdlib Require Import ZArith Lia Ascii.
From S2P Require Import Prelude RustStr Types.
Local Open Scope nat_scope.

Notation Path := (list string).

(** [Path::ancestors]: the path, its parent, ..., the root. *)
Fixpoint ancestors (path : Path) : list Path :=
  match path with
  | [] => [[]]
  | c :: path => (cons c <$> ancestors path) ++ [[]]
  end.

Class GlobOps := {
  Glob : Type;
  GlobSet : Type;
  (** [GlobBuilder::new(p).literal_separator(true).case_insensitive(true).backslash_escape(false).build()] *)
  glob_build : string -> option Glob;
  glob_is_match : Glob -> Path -> bool;
  (** [globset::escape] *)
  glob_escape : string -> string;
  (** [GlobSet::default], [GlobSetBuilder::build] *)
  globset_default : GlobSet;
  globset_build : list Glob -> option GlobSet;
  globset_is_empty : GlobSet -> bool;
  globset_is_match : GlobSet -> Path -> bool;
  globset_matches : GlobSet -> Path -> list nat
}.

Class GlobLaws `{GlobOps} : Prop := {
  (** a set matches when one of its globs does, and reports the globs that match *)
  globset_matches_spec gs s path i : globset_build gs = Some s ->
    i ∈ globset_matches s path <-> exists g, gs !! i = Some g /\ glob_is_match g path = true;
  globset_is_match_spec gs s path : globset_build gs = Some s ->
    globset_is_match s path = true <-> exists g, g ∈ gs /\ glob_is_match g path = true;
  globset_is_empty_spec gs s : globset_build gs = Some s -> globset_is_empty s = true <-> gs = [];
  globset_default_spec : globset_build [] = Some globset_default
}.

Record FileAccessContext := mkContext {
  fac_run_id : string;
  fac_execution_id : string;
  fac_view : string;
  fac_audit_socket : option string
}.
#[export] Instance file_access_context_eq_dec : EqDecision FileAccessContext.
Proof. solve_decision. Defined.

(** [io::ErrorKind], as far as it is used. *)
Inductive IoErrorKind := InvalidInput | PermissionDenied.
#[export] Instance io_error_eq_dec : EqDecision IoErrorKind.
Proof. solve_decision. Defined.

Inductive FileAccessDecision := FileAllow | FileWarn | FileAsk | FileDeny.
#[export] Instance file_decision_eq_dec : EqDecision FileAccessDecision.
Proof. solve_decision. Defined.

(** The derived order of the decisions, and [Ord::max]. *)
Definition decision_rank (d : FileAccessDecision) : nat :=
  match d with FileAllow => 0 | FileWarn => 1 | FileAsk => 2 | FileDeny => 3 end.
Definition decision_max (a b : FileAccessDecision) : FileAccessDecision :=
  if decision_rank a <=? decision_rank b then b else a.

(** [{scope:?}] in lower case. *)
Definition scope_name (s : PolicyScope) : string :=
  match s with User => "user" | Workspace => "workspace" | Session => "session" end.

(** The name of a rule's action; also the segment of its identifier. *)
Definition action_name (d : FileAccessDecision) : string :=
  match d with FileDeny => "deny" | FileAsk => "ask" | FileWarn => "warn" | FileAllow => "allow" end.

(** [format!("fs.{action}.{index}")] and [format!("{scope:?}.{id}").to_lowercase()]. *)
Definition rule_id (action : FileAccessDecision) (index : nat) : string :=
  ("fs." +:+ action_name action +:+ "." +:+ pretty index)%string.
Definition scoped_id (scope : PolicyScope) (id : string) : string :=
  to_ascii_lowercase (scope_name scope +:+ "." +:+ id)%string.

(** ** [audit.rs] *)
Record AuditScope := mkAuditScope { as_run_id : string; as_execution_id : string; as_view : string }.
Inductive AuditKind := AuditFile | AuditNetwork.
Record AuditRequest := mkAuditRequest {
  ar_scope : option AuditScope;
  ar_kind : AuditKind;
  ar_target : string;
  ar_reason : string;
  ar_host : option string;
  ar_port : option Z;
  ar_transport : option NetworkTransport
}.
Inductive AuditDecision := AuditAllow | AuditDeny.
#[export] Instance audit_decision_eq_dec : EqDecision AuditDecision.
Proof. solve_decision. Defined.

(** The trait [AuditChannel]; the installed channel is an [option]. *)
Record AuditChannel := mkChannel {
  ch_enabled : bool;
  ch_socket : option string;
  ch_request_at : string -> string -> AuditRequest -> AuditDecision
}.
Definition audit_enabled (channel : option AuditChannel) : bool :=
  match channel with Some c => ch_enabled c | None => false end.
Definition audit_socket (channel : option AuditChannel) : option string := channel ≫= ch_socket.
Definition audit_request_at (channel : option AuditChannel) (socket session : string) (prompt : AuditRequest)
    : AuditDecision :=
  match channel with Some c => ch_request_at c socket session prompt | None => AuditDeny end.
Definition audit_request (channel : option AuditChannel) (prompt : AuditRequest) : AuditDecision :=
  if negb (audit_enabled channel) then AuditDeny
  else match audit_socket channel with
       | None => AuditDeny
       | Some socket => audit_request_at channel socket "standalone" prompt
       end.

(** ** The policy *)
Section FileAccess.
Context {glob : GlobOps}.

Inductive FileAccessPolicy := mkFap {
  fap_allow_rules : list string;
  fap_layers : list (PolicyScope * FileAccessPolicy);
  fap_deny_rules : list string;
  fap_ask_rules : list string;
  fap_warn_rules : list string;
  fap_context : option FileAccessContext;
  fap_preparing : option nat;
  fap_deny : GlobSet;
  fap_ask : GlobSet;
  fap_warn : GlobSet;
  fap_allow : GlobSet
}.

(** [FileAccessPolicy::default()]. *)
Definition fap_default : FileAccessPolicy :=
  mkFap [] [] [] [] [] None None globset_default globset_default globset_default globset_default.

Definition set_layers (layers : list (PolicyScope * FileAccessPolicy)) (p : FileAccessPolicy) : FileAccessPolicy :=
  mkFap (fap_allow_rules p) layers (fap_deny_rules p) (fap_ask_rules p) (fap_warn_rules p)
    (fap_context p) (fap_preparing p) (fap_deny p) (fap_ask p) (fap_warn p) (fap_allow p).
Definition set_binding (context : option FileAccessContext) (preparing : option nat) (p : FileAccessPolicy)
    : FileAccessPolicy :=
  mkFap (fap_allow_rules p) (fap_layers p) (fap_deny_rules p) (fap_ask_rules p) (fap_warn_rules p)
    context preparing (fap_deny p) (fap_ask p) (fap_warn p) (fap_allow p).

(** *** Construction *)

Definition bad_component (part : string) : bool :=
  bool_decide (part = ""%string) || bool_decide (part = "."%string) || bool_decide (part = ".."%string).
Definition bad_pattern (pattern : string) : bool :=
  is_empty pattern || starts_with pattern "/" || contains (chr 0) pattern
  || existsb bad_component (split "/"%char pattern).

(** The nested function [compile] of [new_with_allow]. *)
Definition compile_glob (pattern : string) : Result IoErrorKind Glob :=
  if bad_pattern pattern then Err InvalidInput else ok_or (glob_build pattern) InvalidInput.
Definition compile_globs (patterns : list string) : Result IoErrorKind GlobSet :=
  globs ← collect compile_glob patterns;
  ok_or (globset_build globs) InvalidInput.

Definition new_with_allow (deny ask warn allow : list string) : Result IoErrorKind FileAccessPolicy :=
  deny_set ← compile_globs deny;
  ask_set ← compile_globs ask;
  warn_set ← compile_globs warn;
  allow_set ← compile_globs allow;
  Ok (mkFap allow [] deny ask warn None None deny_set ask_set warn_set allow_set).

Definition new_with_ask (deny ask warn : list string) : Result IoErrorKind FileAccessPolicy :=
  new_with_allow deny ask warn [].
Definition fap_new (deny warn : list string) : Result IoErrorKind FileAccessPolicy := new_with_ask deny [] warn.

(** [TryFrom<FileAccessWire>]: how persisted input becomes a policy. *)
Record FileAccessWire := mkWire {
  wire_context : option FileAccessContext;
  wire_allow : list string;
  wire_layers : list (PolicyScope * FileAccessPolicy);
  wire_deny : list string;
  wire_ask : list string;
  wire_warn : list string
}.
Definition try_from (wire : FileAccessWire) : Result IoErrorKind FileAccessPolicy :=
  policy ← new_with_allow (wire_deny wire) (wire_ask wire) (wire_warn wire) (wire_allow wire);
  Ok (set_layers (sort_scopes (wire_layers wire)) (set_binding (wire_context wire) (fap_preparing policy) policy)).

(** Writing a policy and reading it back, layer by layer. *)
Fixpoint restore (p : FileAccessPolicy) : Result IoErrorKind FileAccessPolicy :=
  layers ← collect (fun '(scope, q) => q' ← restore q; Ok (scope, q')) (fap_layers p);
  try_from (mkWire (fap_context p) (fap_allow_rules p) layers (fap_deny_rules p) (fap_ask_rules p) (fap_warn_rules p)).

Fixpoint same_rules (p other : FileAccessPolicy) : bool :=
  bool_decide (fap_allow_rules p = fap_allow_rules other)
  && bool_decide (fap_deny_rules p = fap_deny_rules other)
  && bool_decide (fap_ask_rules p = fap_ask_rules other)
  && bool_decide (fap_warn_rules p = fap_warn_rules other)
  && (fix go (l : list (PolicyScope * FileAccessPolicy)) (l' : list (PolicyScope * FileAccessPolicy)) : bool :=
        match l, l' with
        | [], [] => true
        | (s, q) :: l, (s', q') :: l' => bool_decide (s = s') && same_rules q q' && go l l'
        | _, _ => false
        end) (fap_layers p) (fap_layers other).

(** *** Binding and derived policies *)

(** [bind_session]: a new flag, [true], for this policy. *)
Definition bind_session (channel : option AuditChannel) (heap : list bool) (run_id execution_id view : string)
    (p : FileAccessPolicy) : list bool * FileAccessPolicy :=
  (heap ++ [true],
   set_binding (Some (mkContext run_id execution_id view (audit_socket channel))) (Some (length heap)) p).

Definition for_view (view : string) (p : FileAccessPolicy) : FileAccessPolicy :=
  match fap_context p with
  | Some c => set_binding (Some (mkContext (fac_run_id c) (fac_execution_id c) view (fac_audit_socket c)))
                (fap_preparing p) p
  | None => p
  end.

(** [arm]: stores [false] in the shared flag. *)
Definition arm (p : FileAccessPolicy) (heap : list bool) : list bool :=
  match fap_preparing p with Some l => <[l := false]> heap | None => heap end.

Definition is_preparing (heap : list bool) (p : FileAccessPolicy) : bool :=
  match fap_preparing p with Some l => default false (heap !! l) | None => false end.

Definition translate (prefix : string) (rules : list string) : list string :=
  (fun rule => (prefix +:+ "/" +:+ rule)%string) <$> rules.

Fixpoint prefixed (raw_prefix : string) (p : FileAccessPolicy) : Result IoErrorKind FileAccessPolicy :=
  let prefix := glob_escape raw_prefix in
  policy ← new_with_allow (translate prefix (fap_deny_rules p)) (translate prefix (fap_ask_rules p))
             (translate prefix (fap_warn_rules p)) (translate prefix (fap_allow_rules p));
  layers ← collect (fun '(scope, q) => q' ← prefixed raw_prefix q; Ok (scope, q')) (fap_layers p);
  Ok (set_binding (fap_context p) (fap_preparing p) (set_layers layers policy)).

(** The first layer of the scope is replaced by [f] of it; [None] when there is none. *)
Fixpoint update_first (scope : PolicyScope) (f : FileAccessPolicy -> Result IoErrorKind FileAccessPolicy)
    (layers : list (PolicyScope * FileAccessPolicy)) : option (Result IoErrorKind (list (PolicyScope * FileAccessPolicy))) :=
  match layers with
  | [] => None
  | (s, q) :: layers =>
      if bool_decide (s = scope) then Some (q' ← f q; Ok ((s, q') :: layers))
      else fmap (fun r => rest ← r; Ok ((s, q) :: rest)) (update_first scope f layers)
  end.

(** [self.extend(other)], by recursion over [other]; on an error [self] is kept. *)
Fixpoint extend (other self : FileAccessPolicy) : Result IoErrorKind FileAccessPolicy :=
  layers ← fold_res (fun layers '(scope, policy) =>
              match update_first scope (extend policy) layers with
              | Some r => r
              | None => Ok (layers ++ [(scope, policy)])
              end) (fap_layers other) (fap_layers self);
  policy ← new_with_allow (fap_deny_rules self ++ fap_deny_rules other)
             (fap_ask_rules self ++ fap_ask_rules other)
             (fap_warn_rules self ++ fap_warn_rules other)
             (fap_allow_rules self ++ fap_allow_rules other);
  Ok (set_binding (fap_context self) (fap_preparing self) (set_layers (sort_scopes layers) policy)).

Definition layered (layers : list (PolicyScope * FileAccessPolicy)) (fallback : FileAccessPolicy) : FileAccessPolicy :=
  set_layers (sort_scopes layers) fallback.

(** *** Decisions *)

Definition indexed (action : FileAccessDecision) (paths : list string)
    : list (string * string * FileAccessDecision) :=
  imap (fun index path => (rule_id action index, path, action)) paths.

Definition local_rules (p : FileAccessPolicy) : list (string * string * FileAccessDecision) :=
  indexed FileDeny (fap_deny_rules p) ++ indexed FileAsk (fap_ask_rules p)
  ++ indexed FileWarn (fap_warn_rules p) ++ indexed FileAllow (fap_allow_rules p).

(** [rules]: identifier, pattern and action of every rule. *)
Fixpoint rules (p : FileAccessPolicy) : list (string * string * FileAccessDecision) :=
  (fap_layers p ≫= fun '(scope, q) => (fun '(id, path, action) => (scoped_id scope id, path, action)) <$> rules q)
  ++ local_rules p.

Fixpoint has_denials (p : FileAccessPolicy) : bool :=
  negb (globset_is_empty (fap_deny p)) || negb (globset_is_empty (fap_ask p))
  || existsb (fun '(_, q) => has_denials q) (fap_layers p).

Definition set_matches (s : GlobSet) (path : Path) : bool := existsb (globset_is_match s) (ancestors path).

Definition local_decision (p : FileAccessPolicy) (path : Path) : FileAccessDecision :=
  if set_matches (fap_deny p) path then FileDeny
  else if set_matches (fap_ask p) path then FileAsk
  else if set_matches (fap_warn p) path then FileWarn
  else FileAllow.

Fixpoint authorize (p : FileAccessPolicy) (path : Path) : FileAccessDecision :=
  fold_left (fun decision '(_, q) => decision_max decision (authorize q path)) (fap_layers p)
    (local_decision p path).

Definition file_denied (p : FileAccessPolicy) (path : Path) : bool := bool_decide (authorize p path = FileDeny).

(** The nested function [matches] of [local_rule_ids]. *)
Definition matched_indices (s : GlobSet) (path : Path) : list nat :=
  btree_set (ancestors path ≫= globset_matches s).

Definition local_rule_ids (p : FileAccessPolicy) (path : Path) : list string :=
  match matched_indices (fap_deny p) path with
  | (_ :: _) as deny => rule_id FileDeny <$> deny
  | [] =>
      match matched_indices (fap_ask p) path with
      | (_ :: _) as ask => rule_id FileAsk <$> ask
      | [] =>
          match matched_indices (fap_warn p) path with
          | [] => rule_id FileAllow <$> matched_indices (fap_allow p) path
          | warn => rule_id FileWarn <$> warn
          end
      end
  end.

Fixpoint matched_rule_ids (p : FileAccessPolicy) (path : Path) : list string :=
  let decision := authorize p path in
  (fap_layers p ≫= fun '(scope, q) =>
     if bool_decide (authorize q path = decision) then scoped_id scope <$> matched_rule_ids q path else [])
  ++ (if bool_decide (local_decision p path = decision) then local_rule_ids p path else []).

(** *** Enforcement *)

(** [path.display()]. *)
Definition display (path : Path) : string := String.concat "/" path.
Definition session_key (c : FileAccessContext) : string :=
  (fac_run_id c +:+ ":" +:+ fac_execution_id c +:+ ":" +:+ fac_view c)%string.

Definition file_prompt (p : FileAccessPolicy) (path : Path) : AuditRequest :=
  mkAuditRequest
    ((fun c => mkAuditScope (fac_run_id c) (fac_execution_id c) (fac_view c)) <$> fap_context p)
    AuditFile (display path)
    ("ask file rule: " +:+ String.concat ", " (matched_rule_ids p path))%string None None None.

(** [check]; its diagnostics on stderr are not modelled. *)
Definition check (channel : option AuditChannel) (heap : list bool) (p : FileAccessPolicy) (path : Path)
    : Result IoErrorKind unit :=
  match authorize p path with
  | FileDeny => Err PermissionDenied
  | FileAsk =>
      if bool_decide (is_Some (fap_context p)) && is_preparing heap p then Ok tt
      else
        let prompt := file_prompt p path in
        match fap_context p with
        | Some context =>
            match fac_audit_socket context with
            | None => Err PermissionDenied
            | Some socket =>
                if bool_decide (audit_request_at channel socket (session_key context) prompt = AuditAllow)
                then Ok tt else Err PermissionDenied
            end
        | None =>
            if bool_decide (audit_request channel prompt = AuditAllow) then Ok tt else Err PermissionDenied
        end
  | FileWarn => Ok tt
  | FileAllow => Ok tt
  end.
End FileAccess.
