(* ===== verification/Globs.v ===== *)
(** * A concrete glob library

    An executable instance of [GlobOps] for the evaluated examples: a pattern is
    a sequence of components, each a case-insensitive name or [*]. The theorems
    about the file policy hold for every lawful glob library. *)
From stdpp Require Import base tactics list strings sets.
From Stdlib Require Import ZArith Lia Ascii.
From S2P Require Import Prelude RustStr Types FileAccess.
Local Open Scope nat_scope.

Definition component_matches (pattern name : string) : bool :=
  bool_decide (pattern = "*"%string) || eq_ignore_ascii_case pattern name.
Fixpoint components_match (pattern path : list string) : bool :=
  match pattern, path with
  | [], [] => true
  | c :: pattern, d :: path => component_matches c d && components_match pattern path
  | _, _ => false
  end.

Definition simple_matches (gs : list (list string)) (path : Path) : list nat :=
  List.filter (fun i => match gs !! i with Some g => components_match g path | None => false end) (seq 0 (length gs)).

#[export] Instance simple_globs : GlobOps := {|
  Glob := list string;
  GlobSet := list (list string);
  glob_build s := Some (split "/"%char s);
  glob_is_match := components_match;
  glob_escape s := s;
  globset_default := [];
  globset_build gs := Some gs;
  globset_is_empty gs := bool_decide (gs = []);
  globset_is_match gs path := existsb (fun g => components_match g path) gs;
  globset_matches := simple_matches
|}.

#[export] Instance simple_globs_laws : @GlobLaws simple_globs.
Proof.
  split; cbn; intros.
  - injection H as ->. unfold simple_matches. rewrite list_elem_of_In, filter_In, in_seq.
    destruct (s !! i) as [g|] eqn:E.
    + split; [intros [_ ?]; eauto|]. intros (g' & [= <-] & ?). split; [|done].
      apply lookup_lt_Some in E. lia.
    + split; [by intros [_ ?]|by intros (? & ? & _)].
  - injection H as ->. rewrite existsb_exists. by setoid_rewrite <- list_elem_of_In.
  - injection H as ->. by rewrite bool_decide_eq_true.
  - done.
Qed.
