(* ===== verification/FileAccessFacts.v ===== *)
(** * Correctness of the file access policy

    Decisions against the list of rules, restrictiveness of layers, of deeper
    paths and of merged policies, persistence, and the approval gate. *)
From stdpp Require Import base tactics list strings pretty sets relations.
From Stdlib Require Import ZArith Lia Ascii.
From S2P Require Import Prelude RustStr Types FileAccess Globs.
Local Open Scope nat_scope.

(** ** Decisions as ranks *)

Lemma decision_rank_inj a b : decision_rank a = decision_rank b -> a = b.
Proof. by destruct a, b. Qed.

Lemma decision_max_le a b n :
  decision_rank (decision_max a b) <= n <-> decision_rank a <= n /\ decision_rank b <= n.
Proof. unfold decision_max. destruct (Nat.leb_spec (decision_rank a) (decision_rank b)); lia. Qed.

(** Two decisions with the same upper bounds are equal. *)
Lemma decision_le_eq a b :
  (forall n, decision_rank a <= n <-> decision_rank b <= n) -> a = b.
Proof.
  intros H. apply decision_rank_inj.
  pose proof (proj1 (H (decision_rank a))). pose proof (proj2 (H (decision_rank b))). lia.
Qed.

Section Facts.
Context {glob : GlobOps}.
Implicit Types (p q : FileAccessPolicy) (path : Path).

Lemma fap_ind (P : FileAccessPolicy -> Prop) :
  (forall p, (forall scope q, (scope, q) ∈ fap_layers p -> P q) -> P p) -> forall p, P p.
Proof.
  intros HP. fix IH 1. intros [al layers dn ak wn cx pr d a w l]. apply HP; cbn.
  induction layers as [|[sc g'] scopes IHs]; intros scope g0; [clear IH; by intros ?%elem_of_nil|].
  intros [[= -> ->]|?]%elem_of_cons; [apply IH | by eapply IHs].
Qed.

Lemma authorize_le p path n :
  decision_rank (authorize p path) <= n <->
  decision_rank (local_decision p path) <= n /\
  forall scope q, (scope, q) ∈ fap_layers p -> decision_rank (authorize q path) <= n.
Proof.
  destruct p as [al layers dn ak wn cx pr d a w l]. cbn [authorize fap_layers].
  generalize (local_decision (mkFap al layers dn ak wn cx pr d a w l) path) as b.
  induction layers as [|[s q] layers IH]; intros b; cbn; [set_solver|].
  rewrite IH, decision_max_le. setoid_rewrite elem_of_cons. naive_solver.
Qed.

(** ** Restrictiveness *)

Lemma ancestors_app path more a : a ∈ ancestors path -> a ∈ ancestors (path ++ more).
Proof.
  revert a. induction path as [|c path IH]; intros a; cbn.
  - intros ->%list_elem_of_singleton. destruct more as [|m more]; cbn; [left|]. apply elem_of_app. right. left.
  - rewrite !elem_of_app, !list_elem_of_fmap. intros [(b & -> & ?)|?]; [left; eauto|by right].
Qed.

Lemma set_matches_app s path more : set_matches s path = true -> set_matches s (path ++ more) = true.
Proof.
  unfold set_matches. rewrite !existsb_exists. setoid_rewrite <- list_elem_of_In.
  intros (a & Ha & ?). eauto using ancestors_app.
Qed.

Lemma local_decision_app p path more :
  decision_rank (local_decision p path) <= decision_rank (local_decision p (path ++ more)).
Proof.
  unfold local_decision.
  destruct (set_matches (fap_deny p) path) eqn:Ed; [by rewrite (set_matches_app _ _ _ Ed)|].
  destruct (set_matches (fap_ask p) path) eqn:Ea.
  { rewrite (set_matches_app _ _ _ Ea). destruct (set_matches (fap_deny p) (path ++ more)); cbn; lia. }
  destruct (set_matches (fap_warn p) path) eqn:Ew; [|cbn; lia].
  rewrite (set_matches_app _ _ _ Ew). repeat case_match; cbn; lia.
Qed.

Lemma authorize_app p path more :
  decision_rank (authorize p path) <= decision_rank (authorize p (path ++ more)).
Proof.
  induction p as [p IH] using fap_ind. apply authorize_le.
  pose proof (proj1 (authorize_le p (path ++ more) _) (le_n _)) as [Hl Hs]. split.
  - etrans; [apply local_decision_app|exact Hl].
  - intros scope q Hq. etrans; [by eapply IH|by eapply Hs].
Qed.

(** ** Rules and compiled sets *)

(** The pattern matches the path or a directory above it. *)
Definition rule_matches (pattern : string) path : Prop :=
  exists g a, compile_glob pattern = Ok g /\ a ∈ ancestors path /\ glob_is_match g a = true.

(** The compiled sets are those of the rules, on every level. *)
Inductive fap_wf : FileAccessPolicy -> Prop :=
| fap_wf_intro p :
    compile_globs (fap_deny_rules p) = Ok (fap_deny p) ->
    compile_globs (fap_ask_rules p) = Ok (fap_ask p) ->
    compile_globs (fap_warn_rules p) = Ok (fap_warn p) ->
    compile_globs (fap_allow_rules p) = Ok (fap_allow p) ->
    (forall scope q, (scope, q) ∈ fap_layers p -> fap_wf q) ->
    fap_wf p.

Context {laws : GlobLaws}.

Lemma compile_globs_inv rs s :
  compile_globs rs = Ok s -> exists gs, collect compile_glob rs = Ok gs /\ globset_build gs = Some s.
Proof.
  unfold compile_globs. intros (gs & Hgs & Hb)%bind_Ok. exists gs. split; [done|].
  unfold ok_or in Hb. by destruct (globset_build gs); simplify_eq.
Qed.

Lemma set_matches_spec rs s path :
  compile_globs rs = Ok s -> set_matches s path = true <-> exists pattern, pattern ∈ rs /\ rule_matches pattern path.
Proof.
  intros (gs & Hgs & Hb)%compile_globs_inv. unfold set_matches, rule_matches. rewrite existsb_exists.
  setoid_rewrite <- list_elem_of_In. setoid_rewrite (globset_is_match_spec _ _ _ Hb).
  setoid_rewrite (collect_elem_of _ _ _ _ Hgs). split.
  - intros (a & Ha & g & (pat & Hp & Hg) & Hm). exists pat. split; [done|]. by exists g, a.
  - intros (pat & Hp & g & a & Hg & Ha & Hm). exists a. split; [done|]. exists g. eauto.
Qed.

Lemma matched_indices_spec rs s path i :
  compile_globs rs = Ok s ->
  i ∈ matched_indices s path <-> exists pattern, rs !! i = Some pattern /\ rule_matches pattern path.
Proof.
  intros (gs & Hgs & Hb)%compile_globs_inv. unfold matched_indices, rule_matches.
  rewrite elem_of_btree_set, list_elem_of_bind. setoid_rewrite (globset_matches_spec _ _ _ _ Hb).
  apply collect_Ok in Hgs. split.
  - intros (a & (g & Hg & Hm) & Ha). destruct (Forall2_lookup_r _ _ _ _ _ Hgs Hg) as (pat & Hp & Hc).
    exists pat. split; [done|]. by exists g, a.
  - intros (pat & Hp & g & a & Hg & Ha & Hm). exists a. split; [|done].
    destruct (Forall2_lookup_l _ _ _ _ _ Hgs Hp) as (g' & Hg' & Hc).
    assert (g' = g) as -> by congruence. eauto.
Qed.

Lemma matched_indices_nil rs s path :
  compile_globs rs = Ok s -> matched_indices s path = [] <-> set_matches s path = false.
Proof.
  intros Hc. rewrite <- not_true_iff_false, (set_matches_spec _ _ _ Hc). split.
  - intros Hn (pat & Hp & Hm). apply list_elem_of_lookup in Hp as [i Hi].
    assert (i ∈ matched_indices s path) as Hin by (apply (matched_indices_spec _ _ _ _ Hc); eauto).
    rewrite Hn in Hin. by apply elem_of_nil in Hin.
  - intros Hn. destruct (matched_indices s path) as [|i l] eqn:E; [done|].
    assert (i ∈ matched_indices s path) as (pat & Hp & ?)%(matched_indices_spec _ _ _ _ Hc) by (rewrite E; left).
    destruct Hn. exists pat. split; [by eapply list_elem_of_lookup_2|done].
Qed.

Lemma indexed_spec action rs id pat d :
  (id, pat, d) ∈ indexed action rs <-> d = action /\ exists i, rs !! i = Some pat /\ id = rule_id action i.
Proof.
  unfold indexed. rewrite elem_of_lookup_imap. naive_solver.
Qed.

(** The patterns of an action and their compiled set. *)
Definition rules_for p (d : FileAccessDecision) : list string :=
  match d with
  | FileDeny => fap_deny_rules p | FileAsk => fap_ask_rules p
  | FileWarn => fap_warn_rules p | FileAllow => fap_allow_rules p
  end.
Definition set_for p (d : FileAccessDecision) : GlobSet :=
  match d with FileDeny => fap_deny p | FileAsk => fap_ask p | FileWarn => fap_warn p | FileAllow => fap_allow p end.

Lemma wf_set p d : fap_wf p -> compile_globs (rules_for p d) = Ok (set_for p d).
Proof. by destruct 1, d. Qed.

Lemma wf_layer p scope q : fap_wf p -> (scope, q) ∈ fap_layers p -> fap_wf q.
Proof. destruct 1; eauto. Qed.

Lemma local_rules_spec p id pat d :
  (id, pat, d) ∈ local_rules p <-> exists i, rules_for p d !! i = Some pat /\ id = rule_id d i.
Proof. unfold local_rules. rewrite !elem_of_app, !indexed_spec. destruct d; naive_solver. Qed.

Lemma rules_spec p id pat d :
  (id, pat, d) ∈ rules p <->
  (exists i, rules_for p d !! i = Some pat /\ id = rule_id d i) \/
  (exists scope q id', (scope, q) ∈ fap_layers p /\ (id', pat, d) ∈ rules q /\ id = scoped_id scope id').
Proof.
  destruct p as [al layers dn ak wn cx pr d' a w l]. cbn [rules fap_layers].
  rewrite elem_of_app, local_rules_spec, list_elem_of_bind. split.
  - intros [([s q] & ([[id' pat'] d0] & [= -> -> ->] & Hr)%list_elem_of_fmap & Hl)|?]; [right|by left].
    by exists s, q, id'.
  - intros [?|(s & q & id' & Hl & Hr & ->)]; [by right|left]. exists (s, q). split; [|done].
    apply list_elem_of_fmap. by exists (id', pat, d).
Qed.

(** The decision of one level is the strictest action with a matching rule. *)
Lemma local_decision_spec p path :
  fap_wf p ->
  (forall d, set_matches (set_for p d) path = true -> decision_rank d <= decision_rank (local_decision p path)) /\
  (local_decision p path = FileAllow \/ set_matches (set_for p (local_decision p path)) path = true).
Proof.
  intros Hwf. unfold local_decision.
  destruct (set_matches (fap_deny p) path) eqn:Ed; [split; [intros []; cbn; lia|by right]|].
  destruct (set_matches (fap_ask p) path) eqn:Ea.
  { split; [intros []; cbn; (lia || congruence)|by right]. }
  destruct (set_matches (fap_warn p) path) eqn:Ew; (split; [intros []; cbn; (lia || congruence)|auto]).
Qed.

Lemma authorize_upper p path id pat d :
  fap_wf p -> (id, pat, d) ∈ rules p -> rule_matches pat path ->
  decision_rank d <= decision_rank (authorize p path).
Proof.
  revert id. induction p as [p IH] using fap_ind. intros id Hwf Hr Hm.
  pose proof (proj1 (authorize_le p path _) (le_n _)) as [Hl Hs].
  apply rules_spec in Hr as [(i & Hi & ->)|(s & q & id' & Hq & Hr & ->)].
  - etrans; [|exact Hl]. apply local_decision_spec; [done|].
    apply (set_matches_spec _ _ _ (wf_set _ d Hwf)). exists pat. split; [by eapply list_elem_of_lookup_2|done].
  - etrans; [|by eapply Hs]. by eapply IH; [|eapply wf_layer| |].
Qed.

(** The strictest decision of the levels is taken by one of them. *)
Lemma authorize_attained p path :
  local_decision p path = authorize p path \/
  exists scope q, (scope, q) ∈ fap_layers p /\ authorize q path = authorize p path.
Proof.
  destruct p as [al layers dn ak wn cx pr d a w l]. cbn [authorize fap_layers].
  generalize (local_decision (mkFap al layers dn ak wn cx pr d a w l) path) as b.
  induction layers as [|[s q] layers IH]; intros b; cbn; [by left|].
  destruct (IH (decision_max b (authorize q path))) as [Hb|(s' & q' & Hin & Hq)].
  - rewrite <- Hb. unfold decision_max. case_match; [|by left]. right. exists s, q. split; [left|done].
  - right. exists s', q'. split; [by right|done].
Qed.

Lemma authorize_witness p path :
  fap_wf p -> authorize p path = FileAllow \/
  exists id pat, (id, pat, authorize p path) ∈ rules p /\ rule_matches pat path.
Proof.
  induction p as [p IH] using fap_ind. intros Hwf.
  destruct (authorize_attained p path) as [Hl|(s & q & Hq & Hd)].
  - rewrite <- Hl. destruct (local_decision_spec p path Hwf) as [_ [?|Hm]]; [by left|right].
    apply (set_matches_spec _ _ _ (wf_set _ _ Hwf)) in Hm as (pat & Hp & Hm).
    apply list_elem_of_lookup in Hp as [i Hi]. eexists _, pat. split; [|done]. apply rules_spec. left. eauto.
  - rewrite <- Hd. destruct (IH _ _ Hq (wf_layer _ _ _ Hwf Hq)) as [?|(id & pat & Hr & Hm)]; [by left|right].
    exists (scoped_id s id), pat. split; [|done]. apply rules_spec. right. by exists s, q, id.
Qed.

(** *** Reported rules *)

Lemma local_rule_ids_spec p path id :
  fap_wf p ->
  id ∈ local_rule_ids p path <->
  exists i pat, id = rule_id (local_decision p path) i /\
    rules_for p (local_decision p path) !! i = Some pat /\ rule_matches pat path.
Proof.
  intros Hwf.
  assert (local_rule_ids p path = rule_id (local_decision p path) <$> matched_indices (set_for p (local_decision p path)) path) as ->.
  { unfold local_rule_ids, local_decision.
    pose proof (matched_indices_nil _ _ path (wf_set p FileDeny Hwf)) as Hd.
    pose proof (matched_indices_nil _ _ path (wf_set p FileAsk Hwf)) as Ha.
    pose proof (matched_indices_nil _ _ path (wf_set p FileWarn Hwf)) as Hw. cbn in Hd, Ha, Hw.
    destruct (set_matches (fap_deny p) path); cbn; [destruct (matched_indices (fap_deny p) path); [discriminate (proj1 Hd eq_refl)|done]|].
    rewrite (proj2 Hd) by done.
    destruct (set_matches (fap_ask p) path); cbn; [destruct (matched_indices (fap_ask p) path); [discriminate (proj1 Ha eq_refl)|done]|].
    rewrite (proj2 Ha) by done.
    destruct (set_matches (fap_warn p) path); cbn; [destruct (matched_indices (fap_warn p) path); [discriminate (proj1 Hw eq_refl)|done]|].
    by rewrite (proj2 Hw). }
  rewrite list_elem_of_fmap. setoid_rewrite (matched_indices_spec _ _ _ _ (wf_set p _ Hwf)). naive_solver.
Qed.

Lemma matched_rule_ids_unfold p path id :
  id ∈ matched_rule_ids p path <->
  (exists scope q id', (scope, q) ∈ fap_layers p /\ authorize q path = authorize p path /\
    id' ∈ matched_rule_ids q path /\ id = scoped_id scope id') \/
  (local_decision p path = authorize p path /\ id ∈ local_rule_ids p path).
Proof.
  destruct p as [al layers dn ak wn cx pr d a w l]. cbn [matched_rule_ids fap_layers].
  rewrite elem_of_app, list_elem_of_bind. split.
  - intros [([s q] & Hid & Hl)|Hid]; [left|right]; case_bool_decide; try by apply elem_of_nil in Hid.
    + apply list_elem_of_fmap in Hid as (id' & -> & Hid). by exists s, q, id'.
    + done.
  - intros [(s & q & id' & Hl & Hd & Hid & ->)|[Hd Hid]]; [left|right].
    + exists (s, q). split; [|done]. rewrite bool_decide_eq_true_2 by done. apply list_elem_of_fmap. eauto.
    + by rewrite bool_decide_eq_true_2.
Qed.

Lemma matched_rule_ids_spec p path id :
  fap_wf p ->
  id ∈ matched_rule_ids p path <->
  exists pat, (id, pat, authorize p path) ∈ rules p /\ rule_matches pat path.
Proof.
  revert id. induction p as [p IH] using fap_ind. intros id Hwf. rewrite matched_rule_ids_unfold. split.
  - intros [(s & q & id' & Hl & Hd & Hid & ->)|[Hd Hid]].
    + apply (IH _ _ Hl) in Hid as (pat & Hr & Hm); [|by eapply wf_layer]. rewrite Hd in Hr.
      exists pat. split; [|done]. apply rules_spec. right. by exists s, q, id'.
    + apply (local_rule_ids_spec _ _ _ Hwf) in Hid as (i & pat & -> & Hi & Hm). rewrite Hd in *.
      exists pat. split; [|done]. apply rules_spec. left. eauto.
  - intros (pat & Hr & Hm). apply rules_spec in Hr as [(i & Hi & ->)|(s & q & id' & Hl & Hr & ->)].
    + right. assert (local_decision p path = authorize p path) as Hd.
      { apply decision_rank_inj, Nat.le_antisymm; [by apply (authorize_le p path)|].
        apply local_decision_spec; [done|]. apply (set_matches_spec _ _ _ (wf_set _ _ Hwf)).
        exists pat. split; [by eapply list_elem_of_lookup_2|done]. }
      split; [done|]. apply (local_rule_ids_spec _ _ _ Hwf). rewrite Hd. eauto.
    + left. exists s, q, id'. pose proof (wf_layer _ _ _ Hwf Hl) as Hq.
      assert (authorize q path = authorize p path) as Hd.
      { apply decision_rank_inj, Nat.le_antisymm.
        - by eapply (authorize_le p path (decision_rank (authorize p path))).
        - by eapply authorize_upper. }
      split_and!; try done. apply (IH _ _ Hl); [done|]. rewrite Hd. eauto.
Qed.

(** ** Derived policies *)

Lemma new_with_allow_inv dn ak wn al p :
  new_with_allow dn ak wn al = Ok p ->
  fap_wf p /\ fap_layers p = [] /\ (forall d, rules_for p d =
    match d with FileDeny => dn | FileAsk => ak | FileWarn => wn | FileAllow => al end) /\
  fap_context p = None /\ fap_preparing p = None.
Proof.
  unfold new_with_allow. intros (sd & Hd & (sa & Ha & (sw & Hw & (sl & Hl & [= <-])%bind_Ok)%bind_Ok)%bind_Ok)%bind_Ok.
  split; [|split; [reflexivity|split; [by intros []|split; reflexivity]]].
  constructor; [exact Hd|exact Ha|exact Hw|exact Hl|]. intros sc q Hq. cbn in Hq. by apply elem_of_nil in Hq.
Qed.

Lemma new_with_allow_total p :
  fap_wf p -> exists p', new_with_allow (fap_deny_rules p) (fap_ask_rules p) (fap_warn_rules p) (fap_allow_rules p) = Ok p'.
Proof. destruct 1 as [p Hd Ha Hw Hl _]. unfold new_with_allow. rewrite Hd, Ha, Hw, Hl. cbn. eauto. Qed.

Lemma set_layers_wf p layers :
  fap_wf p -> (forall scope q, (scope, q) ∈ layers -> fap_wf q) -> fap_wf (set_layers layers p).
Proof. destruct 1. by constructor. Qed.
Lemma set_binding_wf p cx pr : fap_wf p -> fap_wf (set_binding cx pr p).
Proof. destruct 1. by constructor. Qed.

(** A decision depends on the rules of the level and on the set of layers. *)
Lemma local_decision_le p path n :
  fap_wf p ->
  decision_rank (local_decision p path) <= n <->
  forall d pat, pat ∈ rules_for p d -> rule_matches pat path -> decision_rank d <= n.
Proof.
  intros Hwf. destruct (local_decision_spec p path Hwf) as [Hup Hat]. split.
  - intros Hn d pat Hp Hm. etrans; [|exact Hn]. apply Hup. apply (set_matches_spec _ _ _ (wf_set _ _ Hwf)). eauto.
  - intros H. destruct Hat as [-> | (pat & Hp & Hm)%(set_matches_spec _ _ _ (wf_set _ _ Hwf))]; [cbn; lia|eauto].
Qed.

Lemma set_binding_authorize p cx pr path : authorize (set_binding cx pr p) path = authorize p path.
Proof. by destruct p. Qed.

Lemma set_layers_le p layers path n :
  decision_rank (authorize (set_layers layers p) path) <= n <->
  decision_rank (local_decision p path) <= n /\
  forall scope q, (scope, q) ∈ layers -> decision_rank (authorize q path) <= n.
Proof. by rewrite authorize_le. Qed.

(** Layers only add restrictions, in whatever order they come. *)
Lemma layered_le layers fallback path n :
  decision_rank (authorize (layered layers fallback) path) <= n <->
  decision_rank (local_decision fallback path) <= n /\
  forall scope q, (scope, q) ∈ layers -> decision_rank (authorize q path) <= n.
Proof. unfold layered. rewrite set_layers_le. by setoid_rewrite sort_scopes_perm. Qed.

(** *** Merging *)

(** All policies of a list of layers satisfy [P]. *)
Definition all_layers (P : FileAccessPolicy -> Prop) (layers : list (PolicyScope * FileAccessPolicy)) : Prop :=
  forall scope q, (scope, q) ∈ layers -> P q.

Lemma all_layers_nil P : all_layers P [] <-> True.
Proof. split; [done|]. intros _ sc q Hq. by apply elem_of_nil in Hq. Qed.
Lemma all_layers_cons P s q layers : all_layers P ((s, q) :: layers) <-> P q /\ all_layers P layers.
Proof. unfold all_layers. setoid_rewrite elem_of_cons. naive_solver. Qed.
Lemma all_layers_app P l1 l2 : all_layers P (l1 ++ l2) <-> all_layers P l1 /\ all_layers P l2.
Proof. unfold all_layers. setoid_rewrite elem_of_app. naive_solver. Qed.

(** [update_first] changes a layer by [f]: if [f] relates a property of its
    result to one of its argument, so does the list. *)
Lemma update_first_layers (P Q : FileAccessPolicy -> Prop) (R : Prop) f scope layers layers' :
  all_layers Q layers ->
  (forall q q', Q q -> f q = Ok q' -> P q' <-> P q /\ R) ->
  update_first scope f layers = Some (Ok layers') ->
  all_layers P layers' <-> all_layers P layers /\ R.
Proof.
  intros HQ Hf. revert layers'. induction layers as [|[s q] layers IH]; intros layers'; cbn; [done|].
  rewrite all_layers_cons in HQ. destruct HQ as [Hq HQ]. case_bool_decide.
  - destruct (f q) as [q'|] eqn:Ef; cbn; [|done]. intros [= <-]. rewrite !all_layers_cons, (Hf _ _ Hq Ef). tauto.
  - destruct (update_first scope f layers) as [[rest|]|] eqn:Eu; cbn; try done.
    intros [= <-]. rewrite !all_layers_cons, (IH HQ _ eq_refl). tauto.
Qed.

Definition merge_layers (layers : list (PolicyScope * FileAccessPolicy)) (entry : PolicyScope * FileAccessPolicy)
    : Result IoErrorKind (list (PolicyScope * FileAccessPolicy)) :=
  match update_first entry.1 (extend entry.2) layers with
  | Some r => r
  | None => Ok (layers ++ [entry])
  end.

Lemma extend_unfold other self :
  extend other self =
  (layers ← fold_res merge_layers (fap_layers other) (fap_layers self);
   policy ← new_with_allow (fap_deny_rules self ++ fap_deny_rules other)
              (fap_ask_rules self ++ fap_ask_rules other) (fap_warn_rules self ++ fap_warn_rules other)
              (fap_allow_rules self ++ fap_allow_rules other);
   Ok (set_binding (fap_context self) (fap_preparing self) (set_layers (sort_scopes layers) policy))).
Proof.
  destruct other as [al layers dn ak wn cx pr d a w l]. cbn [extend fap_layers fap_deny_rules fap_ask_rules fap_warn_rules fap_allow_rules].
  f_equal. generalize (fap_layers self). induction layers as [|[s q] layers IH]; intros b; cbn; [done|].
  unfold merge_layers at 2. cbn. destruct (update_first s (extend q) b) as [[b'|]|]; cbn; auto.
Qed.

(** Merging one entry into layers, for a property that [extend] relates. *)
Lemma merge_layers_prop (P Q : FileAccessPolicy -> Prop) layers scope policy layers' :
  all_layers Q layers ->
  (forall q q', Q q -> extend policy q = Ok q' -> P q' <-> P q /\ P policy) ->
  merge_layers layers (scope, policy) = Ok layers' ->
  all_layers P layers' <-> all_layers P layers /\ P policy.
Proof.
  intros HQ Hf. unfold merge_layers; cbn. destruct (update_first scope (extend policy) layers) as [r|] eqn:Eu.
  - intros ->. by eapply update_first_layers.
  - intros [= <-]. rewrite all_layers_app, all_layers_cons, all_layers_nil. tauto.
Qed.

Lemma fold_merge_prop (P Q : FileAccessPolicy -> Prop) others layers layers' :
  all_layers Q layers -> all_layers Q others ->
  (forall policy q q', Q policy -> Q q -> (exists scope, (scope, policy) ∈ others) ->
     extend policy q = Ok q' -> Q q' /\ (P q' <-> P q /\ P policy)) ->
  fold_res merge_layers others layers = Ok layers' ->
  all_layers Q layers' /\ (all_layers P layers' <-> all_layers P layers /\ all_layers P others).
Proof.
  revert layers. induction others as [|[s policy] others IH]; intros layers HQ HQo Hext; cbn.
  - intros [= <-]. split; [done|]. rewrite all_layers_nil. tauto.
  - apply all_layers_cons in HQo as [Hp HQo]. intros (mid & Hm & Hf)%bind_Ok.
    assert (forall q q', Q q -> extend policy q = Ok q' -> Q q' /\ (P q' <-> P q /\ P policy)) as Hx
      by (intros q q' Hq; apply Hext; [done|done|exists s; left]).
    assert (all_layers Q mid) as HQm.
    { apply (merge_layers_prop Q Q _ _ _ _ HQ) in Hm; [by apply Hm|].
      intros q q' Hq He. destruct (Hx _ _ Hq He). tauto. }
    apply (merge_layers_prop P Q _ _ _ _ HQ) in Hm; [|intros q q' Hq He; by apply Hx].
    destruct (IH mid HQm HQo) as [HQ' HP]; [|done|].
    { intros po q q' ? ? [sc ?]. apply Hext; [done..|exists sc; by right]. }
    split; [done|]. rewrite HP, Hm, all_layers_cons. tauto.
Qed.

Lemma extend_local self other p path n :
  fap_wf self -> fap_wf other ->
  new_with_allow (fap_deny_rules self ++ fap_deny_rules other)
    (fap_ask_rules self ++ fap_ask_rules other) (fap_warn_rules self ++ fap_warn_rules other)
    (fap_allow_rules self ++ fap_allow_rules other) = Ok p ->
  decision_rank (local_decision p path) <= n <->
  decision_rank (local_decision self path) <= n /\ decision_rank (local_decision other path) <= n.
Proof.
  intros Hs Ho (Hp & _ & Hr & _)%new_with_allow_inv.
  rewrite !local_decision_le by done. split.
  - intros H. split; intros d pat Hin; apply H; rewrite Hr; destruct d; apply elem_of_app; auto.
  - intros [H1 H2] d pat. rewrite Hr. destruct d; intros [|]%elem_of_app; eauto.
Qed.

Lemma extend_spec other self p' :
  fap_wf self -> fap_wf other -> extend other self = Ok p' ->
  fap_wf p' /\ fap_context p' = fap_context self /\ fap_preparing p' = fap_preparing self /\
  forall path n, decision_rank (authorize p' path) <= n <->
    decision_rank (authorize self path) <= n /\ decision_rank (authorize other path) <= n.
Proof.
  revert self p'. induction other as [other IH] using fap_ind. intros self p' Hs Ho.
  rewrite extend_unfold. intros (layers & Hf & (policy & Hn & [= <-])%bind_Ok)%bind_Ok.
  pose proof (new_with_allow_inv _ _ _ _ _ Hn) as (Hwf & _).
  assert (forall path n, all_layers fap_wf layers /\
    (all_layers (fun q => decision_rank (authorize q path) <= n) layers <->
     all_layers (fun q => decision_rank (authorize q path) <= n) (fap_layers self) /\
     all_layers (fun q => decision_rank (authorize q path) <= n) (fap_layers other))) as Hl.
  { intros path n. eapply fold_merge_prop; [| | |exact Hf].
    - intros ? ?. by apply wf_layer.
    - intros ? ?. by apply wf_layer.
    - intros po q q' Hpo Hq [sc Hin] He. destruct (IH _ _ Hin _ _ Hq Hpo He) as (? & _ & _ & Hd). by split. }
  split; [|split; [reflexivity|split; [reflexivity|]]].
  - apply set_binding_wf, set_layers_wf; [exact Hwf|]. intros sc q. rewrite sort_scopes_perm. apply (Hl [] 0).
  - intros path n. rewrite set_binding_authorize, set_layers_le. setoid_rewrite sort_scopes_perm.
    rewrite (extend_local _ _ _ _ _ Hs Ho Hn), !(authorize_le _ path n).
    destruct (Hl path n) as [_ Hl']. unfold all_layers in Hl'. rewrite Hl'. tauto.
Qed.

(** ** Persistence *)

Lemma restore_unfold p :
  restore p =
  (layers ← collect (fun '(scope, q) => q' ← restore q; Ok (scope, q')) (fap_layers p);
   try_from (mkWire (fap_context p) (fap_allow_rules p) layers (fap_deny_rules p) (fap_ask_rules p) (fap_warn_rules p))).
Proof. by destruct p. Qed.

Lemma restore_spec p :
  fap_wf p -> exists p', restore p = Ok p' /\ fap_wf p' /\
    fap_context p' = fap_context p /\ fap_preparing p' = None /\
    forall path n, decision_rank (authorize p' path) <= n <-> decision_rank (authorize p path) <= n.
Proof.
  induction p as [p IH] using fap_ind. intros Hwf. rewrite restore_unfold.
  destruct (collect_total (fun '(scope, q) => q' ← restore q; Ok (scope, q')) (fap_layers p)) as [layers Hl].
  { intros [s q] Hq. destruct (IH _ _ Hq (wf_layer _ _ _ Hwf Hq)) as (q' & -> & _). cbn. eauto. }
  rewrite Hl. cbn [mbind result_bind]. unfold try_from. cbn [wire_deny wire_ask wire_warn wire_allow wire_layers wire_context].
  destruct (new_with_allow_total _ Hwf) as [p0 Hp0]. rewrite Hp0. cbn [mbind result_bind]. eexists. split; [reflexivity|].
  pose proof (new_with_allow_inv _ _ _ _ _ Hp0) as (Hwf0 & _ & Hr & _ & Hpr).
  assert (forall s q', (s, q') ∈ layers <-> exists q, (s, q) ∈ fap_layers p /\ restore q = Ok q') as Hel.
  { intros s q'. rewrite (collect_elem_of _ _ _ _ Hl). split.
    - intros ([s0 q] & Hq & (q1 & Hr1 & [= -> ->])%bind_Ok). eauto.
    - intros (q & Hq & Hr1). exists (s, q). split; [done|]. by rewrite Hr1. }
  split; [|split; [reflexivity|split; [exact Hpr|]]].
  - apply set_layers_wf; [by apply set_binding_wf|]. intros s q'. rewrite sort_scopes_perm, Hel.
    intros (q & Hq & Hq'). destruct (IH _ _ Hq (wf_layer _ _ _ Hwf Hq)) as (q1 & Hq1 & ? & _).
    assert (q1 = q') as <- by congruence. assumption.
  - intros path n. rewrite set_layers_le, (authorize_le p path n). setoid_rewrite sort_scopes_perm.
    change (local_decision (set_binding (fap_context p) (fap_preparing p0) p0) path) with (local_decision p0 path).
    assert (decision_rank (local_decision p0 path) <= n <-> decision_rank (local_decision p path) <= n) as ->.
    { rewrite !local_decision_le by done. split; intros H d; specialize (H d); rewrite Hr in *; by destruct d. }
    setoid_rewrite Hel. split; intros [H1 H2]; (split; [done|]); intros s q Hq.
    + destruct (IH _ _ Hq (wf_layer _ _ _ Hwf Hq)) as (q' & Hq' & _ & _ & _ & Hd). apply Hd, (H2 s). eauto.
    + destruct Hq as (q0 & Hq & Hr0). destruct (IH _ _ Hq (wf_layer _ _ _ Hwf Hq)) as (q' & Hq' & _ & _ & _ & Hd).
      assert (q' = q) as -> by congruence. apply Hd. by eapply H2.
Qed.

(** ** The approval gate *)

(** The prompt for a path was answered with an approval. *)
Definition approved (channel : option AuditChannel) p path : Prop :=
  match fap_context p with
  | Some c => exists socket, fac_audit_socket c = Some socket /\
      audit_request_at channel socket (session_key c) (file_prompt p path) = AuditAllow
  | None => audit_request channel (file_prompt p path) = AuditAllow
  end.

Lemma check_Ok channel heap p path :
  check channel heap p path = Ok tt <->
  match authorize p path with
  | FileAllow | FileWarn => True
  | FileAsk => is_Some (fap_context p) /\ is_preparing heap p = true \/ approved channel p path
  | FileDeny => False
  end.
Proof.
  unfold check, approved. destruct (authorize p path); try (split; (done || discriminate)).
  destruct (bool_decide (is_Some (fap_context p)) && is_preparing heap p) eqn:Hb.
  - apply andb_true_iff in Hb as [Hb ?]. apply bool_decide_eq_true in Hb. split; [auto|done].
  - assert (~ (is_Some (fap_context p) /\ is_preparing heap p = true)) as Hn.
    { intros [Hs Hp]. rewrite Hp in Hb. by rewrite bool_decide_eq_true_2 in Hb. }
    clear Hb.
    destruct (fap_context p) as [c|]; [destruct (fac_audit_socket c) as [socket|]|].
    + case_bool_decide as Hd.
      * split; [intros _; right; exists socket; auto|reflexivity].
      * split; [discriminate|]. intros [Hp|(s & [= <-] & Hs)]; [by destruct Hn|by destruct Hd].
    + split; [discriminate|]. intros [Hp|(s & [=] & _)]. by destruct Hn.
    + case_bool_decide as Hd; [split; [auto|reflexivity]|].
      split; [discriminate|]. intros [Hp|Hs]; [by destruct Hn|by destruct Hd].
Qed.

(** Policies obtained from a bound one for other views of the same session. *)
Inductive derived (p : FileAccessPolicy) : FileAccessPolicy -> Prop :=
| derived_refl : derived p p
| derived_view q view : derived p q -> derived p (for_view view q)
| derived_prefixed q prefix q' : derived p q -> prefixed prefix q = Ok q' -> derived p q'
| derived_extend q other q' : derived p q -> extend other q = Ok q' -> derived p q'
| derived_layered q layers : derived p q -> derived p (layered layers q).

Lemma prefixed_preparing prefix q q' : prefixed prefix q = Ok q' -> fap_preparing q' = fap_preparing q.
Proof. destruct q. cbn [prefixed]. intros (? & _ & (? & _ & [= <-])%bind_Ok)%bind_Ok. done. Qed.
Lemma extend_preparing other q q' : extend other q = Ok q' -> fap_preparing q' = fap_preparing q.
Proof. rewrite extend_unfold. intros (? & _ & (? & _ & [= <-])%bind_Ok)%bind_Ok. done. Qed.

Lemma derived_preparing p q : derived p q -> fap_preparing q = fap_preparing p.
Proof.
  induction 1 as [|q view _ IH|q pre q' _ IH Hq|q o q' _ IH Hq|q ls _ IH]; [done|..|exact IH].
  - unfold for_view. by destruct (fap_context q).
  - by rewrite (prefixed_preparing _ _ _ Hq).
  - by rewrite (extend_preparing _ _ _ Hq).
Qed.

(** What other code does to the flags: bind another session, arm a policy. *)
Inductive heap_step : list bool -> list bool -> Prop :=
| heap_bind channel heap run_id execution_id view p :
    heap_step heap (bind_session channel heap run_id execution_id view p).1
| heap_arm heap p : heap_step heap (arm p heap).

Lemma heap_steps_keep heap heap' l :
  rtc heap_step heap heap' -> heap !! l = Some false -> heap' !! l = Some false.
Proof.
  induction 1 as [|heap mid heap' Hstep _ IH]; [done|]. intros Hl. apply IH. destruct Hstep as [|heap p].
  - cbn. by apply lookup_app_l_Some.
  - unfold arm. destruct (fap_preparing p) as [l'|]; [|done].
    destruct (decide (l = l')) as [->|]; [|by rewrite list_lookup_insert_ne].
    rewrite list_lookup_insert_eq; [done|]. by eapply lookup_lt_Some.
Qed.

Lemma armed_not_preparing heap heap' p a b :
  derived p a -> derived p b -> rtc heap_step (arm a heap) heap' ->
  (forall l, fap_preparing p = Some l -> l < length heap) -> is_preparing heap' b = false.
Proof.
  intros Ha%derived_preparing Hb%derived_preparing Hsteps Hlen. unfold is_preparing. rewrite Hb.
  destruct (fap_preparing p) as [l|] eqn:El; [|done].
  assert (heap' !! l = Some false) as ->; [|done].
  apply (heap_steps_keep _ _ _ Hsteps). unfold arm. rewrite Ha. apply list_lookup_insert_eq. by apply Hlen.
Qed.
End Facts.

(** ** Properties *)
Section Properties.
Context {glob : GlobOps} {laws : GlobLaws}.
Implicit Types (p q : FileAccessPolicy) (path : Path).

(** C7: the decision for a path is the strictest action among all rules, of all
    layers, that match the path or a directory above it; with no such rule the
    access is allowed. *)
Theorem file_decision_is_strictest p path :
  fap_wf p ->
  (forall id pat action, (id, pat, action) ∈ rules p -> rule_matches pat path ->
     decision_rank action <= decision_rank (authorize p path)) /\
  (authorize p path = FileAllow \/
   exists id pat, (id, pat, authorize p path) ∈ rules p /\ rule_matches pat path).
Proof. intros Hwf. split; [intros; by eapply authorize_upper|by apply authorize_witness]. Qed.

(** The rule identifiers reported for a path are exactly those of the
    policy's rules that match and whose action is the decision taken. *)
Theorem reported_rules_exact p path id :
  fap_wf p ->
  id ∈ matched_rule_ids p path <->
  exists pat, (id, pat, authorize p path) ∈ rules p /\ rule_matches pat path.
Proof. apply matched_rule_ids_spec. Qed.

(** A path below another is never treated more leniently than it. *)
Theorem deeper_paths_stricter p path more :
  decision_rank (authorize p path) <= decision_rank (authorize p (path ++ more)).
Proof. apply authorize_app. Qed.

(** Merging a policy into another, layer by layer, decides as the stricter
    of the two on every path, and keeps the session the target is bound to. *)
Theorem extend_takes_stricter self other p' path :
  fap_wf self -> fap_wf other -> extend other self = Ok p' ->
  authorize p' path = decision_max (authorize self path) (authorize other path) /\
  fap_wf p' /\ fap_context p' = fap_context self /\ fap_preparing p' = fap_preparing self.
Proof.
  intros Hs Ho He. destruct (extend_spec _ _ _ Hs Ho He) as (Hwf & Hc & Hp & Hd).
  split; [|by split_and!]. apply decision_le_eq. intros n. by rewrite Hd, decision_max_le.
Qed.

(** A policy that was written out can be read back, decides every path as
    before, keeps its context and comes back armed, whatever its flag was. *)
Theorem persisted_policy_restored p heap :
  fap_wf p ->
  exists p', restore p = Ok p' /\ fap_wf p' /\ (forall path, authorize p' path = authorize p path) /\
    fap_context p' = fap_context p /\ is_preparing heap p' = false.
Proof.
  intros Hwf. destruct (restore_spec p Hwf) as (p' & Hr & Hwf' & Hc & Hp & Hd).
  exists p'. split_and!; [exact Hr|exact Hwf'| |exact Hc|by unfold is_preparing; rewrite Hp].
  intros path. apply decision_le_eq, Hd.
Qed.

(** Once any view of a bound session has been armed, a path under an ask
    rule passes the check of any view of it only with an approval, whatever
    sessions are bound or armed afterwards; denied paths never pass. *)
Theorem armed_session_asks channel heap heap' p a b path :
  derived p a -> derived p b -> (forall l, fap_preparing p = Some l -> l < length heap) ->
  rtc heap_step (arm a heap) heap' ->
  check channel heap' b path = Ok tt ->
  authorize b path <> FileDeny /\ (authorize b path = FileAsk -> approved channel b path).
Proof.
  intros Ha Hb Hl Hsteps. rewrite check_Ok.
  rewrite (armed_not_preparing _ _ _ _ _ Ha Hb Hsteps Hl).
  destruct (authorize b path); (split; [discriminate || done|]); try done. intros _. naive_solver.
Qed.
End Properties.

(** ** Evaluated instances *)

Definition sample (deny ask warn allow : list string) : FileAccessPolicy :=
  match new_with_allow deny ask warn allow with Ok p => p | Err _ => fap_default end.
Definition user_files : FileAccessPolicy := sample ["secret"%string] ["Approval/*"%string] ["tmp"%string] [].
Definition session_files : FileAccessPolicy := layered [(User, user_files)] (sample [] ["keys"%string] [] ["docs"%string]).

Lemma user_files_wf : fap_wf user_files.
Proof. apply (new_with_allow_inv ["secret"%string] ["Approval/*"%string] ["tmp"%string] []). reflexivity. Defined.
Lemma session_files_wf : fap_wf session_files.
Proof.
  apply set_layers_wf; [apply (new_with_allow_inv [] ["keys"%string] [] ["docs"%string]); reflexivity|].
  intros s q. cbn. intros Hq%list_elem_of_singleton. injection Hq as _ ->. exact user_files_wf.
Defined.

Lemma file_decision_is_strictest_witness :
  authorize session_files ["approval"; "x"; "y"]%string = FileAsk /\
  exists id pat, (id, pat, FileAsk) ∈ rules session_files /\ rule_matches pat ["approval"; "x"; "y"]%string.
Proof.
  assert (authorize session_files ["approval"; "x"; "y"]%string = FileAsk) as Ha by (vm_compute; reflexivity).
  split; [exact Ha|].
  destruct (file_decision_is_strictest session_files ["approval"; "x"; "y"]%string session_files_wf) as [_ [H|H]];
    rewrite Ha in H; [discriminate|exact H].
Defined.

Lemma reported_rules_exact_witness :
  matched_rule_ids session_files ["SECRET"]%string = ["user.fs.deny.0"%string] /\
  exists pat, ("user.fs.deny.0"%string, pat, FileDeny) ∈ rules session_files /\ rule_matches pat ["SECRET"]%string.
Proof.
  assert (matched_rule_ids session_files ["SECRET"]%string = ["user.fs.deny.0"%string]) as Hm by (vm_compute; reflexivity).
  split; [exact Hm|].
  apply (reported_rules_exact session_files ["SECRET"]%string "user.fs.deny.0" session_files_wf). rewrite Hm. left.
Defined.

Lemma extend_takes_stricter_witness :
  exists p', extend session_files user_files = Ok p' /\
    authorize p' ["keys"; "id"]%string = decision_max (authorize user_files ["keys"; "id"]%string)
      (authorize session_files ["keys"; "id"]%string).
Proof.
  eexists. split; [reflexivity|].
  refine (proj1 (extend_takes_stricter user_files session_files _ _ user_files_wf session_files_wf _)). reflexivity.
Defined.

Lemma persisted_policy_restored_witness :
  exists p', restore session_files = Ok p' /\ authorize p' ["secret"; "a"]%string = FileDeny.
Proof.
  destruct (persisted_policy_restored session_files [] session_files_wf) as (p' & Hr & _ & Hd & _).
  exists p'. split; [exact Hr|]. rewrite Hd. vm_compute. reflexivity.
Defined.

Definition yes_channel : option AuditChannel := Some (mkChannel true (Some "audit.sock"%string) (fun _ _ _ => AuditAllow)).

Lemma armed_session_asks_witness :
  let bound := bind_session yes_channel [] "run" "exec" "work" user_files in
  let view := for_view "stage" bound.2 in
  check yes_channel bound.1 view ["approval"; "x"]%string = Ok tt /\
  approved yes_channel view ["approval"; "x"]%string.
Proof.
  split; [vm_compute; reflexivity|].
  refine (proj2 (armed_session_asks yes_channel [true] [false] (bind_session yes_channel [] "run" "exec" "work" user_files).2
    (bind_session yes_channel [] "run" "exec" "work" user_files).2 _ ["approval"; "x"]%string _ _ _ _ _) _).
  - apply derived_refl.
  - apply derived_view, derived_refl.
  - intros l [= <-]. cbn. lia.
  - apply rtc_refl.
  - vm_compute. reflexivity.
  - vm_compute. reflexivity.
Defined.
