(* ===== verification/Session.v ===== *)
(** * Session policies

    [pvisor-core/src/session.rs]: the user, workspace and session layers of one
    execution and how they are put on top of an inherited capability. *)
From stdpp Require Import base tactics list strings sets sorting.
From Stdlib Require Import ZArith Lia Ascii.
From S2P Require Import Prelude RustStr Net NetFacts Types Control Policy PolicyFacts FileAccess FileAccessFacts Cidr Globs.

Section Model.
Context {glob : GlobOps}.

Record PolicyLayer := mkPolicyLayer {
  pl_network : option NetworkPolicyLayer;
  pl_filesystem : option FileAccessPolicy
}.
Record SessionPolicies := mkSessionPolicies {
  sp_session : PolicyLayer;
  sp_workspace : PolicyLayer;
  sp_user : PolicyLayer
}.

Definition session_scopes (p : SessionPolicies) : list (PolicyScope * PolicyLayer) :=
  [(Session, sp_session p); (Workspace, sp_workspace p); (User, sp_user p)].

(** [filter_map(|(scope, layer)| layer.f.map(|policy| (scope, policy)))]. *)
Definition scope_layers {A} (f : PolicyLayer -> option A) (p : SessionPolicies) : list (PolicyScope * A) :=
  omap (fun '(scope, layer) => (fun policy => (scope, policy)) <$> f layer) (session_scopes p).

(** The [for] loop over inherited layers. *)
Definition inherit (layers inherited : list (PolicyScope * NetworkPolicyLayer)) : list (PolicyScope * NetworkPolicyLayer) :=
  fold_left (fun layers '(scope, policy) =>
    if existsb (fun '(existing, _) => bool_decide (existing = scope)) layers then layers
    else layers ++ [(scope, policy)]) inherited layers.

(** The [while let] loop: the layers collected and the innermost fallback. *)
Fixpoint flatten (layers : list (PolicyScope * NetworkPolicyLayer)) (base : NetworkCapability)
    : list (PolicyScope * NetworkPolicyLayer) * NetworkCapability :=
  match base with
  | Scoped inherited fallback => flatten (inherit layers inherited) fallback
  | _ => (layers, base)
  end.

Definition session_network (p : SessionPolicies) (fallback : NetworkCapability) : NetworkCapability :=
  let '(layers, base) := flatten (scope_layers pl_network p) fallback in
  match sort_scopes layers with
  | [] => base
  | layers => Scoped layers base
  end.

Definition session_filesystem (p : SessionPolicies) (fallback : FileAccessPolicy) : FileAccessPolicy :=
  layered (scope_layers pl_filesystem p) fallback.
End Model.

(** ** Effective layers *)

(** The first layer of a scope. *)
Definition layer_of {A} (s : PolicyScope) (layers : list (PolicyScope * A)) : option A :=
  snd <$> List.find (fun '(s', _) => bool_decide (s' = s)) layers.

Lemma layer_of_cons {A} s s' (x : A) layers :
  layer_of s ((s', x) :: layers) = if bool_decide (s' = s) then Some x else layer_of s layers.
Proof. unfold layer_of. cbn. by case_bool_decide. Qed.

Lemma layer_of_app {A} s (l1 l2 : list (PolicyScope * A)) :
  layer_of s (l1 ++ l2) = match layer_of s l1 with Some x => Some x | None => layer_of s l2 end.
Proof.
  induction l1 as [|[s' x] l1 IH]; [done|]. cbn [app]. rewrite !layer_of_cons. by case_bool_decide.
Qed.

Lemma layer_of_None {A} s (layers : list (PolicyScope * A)) :
  layer_of s layers = None <-> s ∉ layers.*1.
Proof.
  induction layers as [|[s' x] layers IH]; [set_solver|]. rewrite layer_of_cons. cbn.
  rewrite not_elem_of_cons. case_bool_decide; [naive_solver|]. rewrite IH. naive_solver.
Qed.

Lemma layer_of_Some {A} s (x : A) layers :
  NoDup layers.*1 -> layer_of s layers = Some x <-> (s, x) ∈ layers.
Proof.
  induction layers as [|[s' y] layers IH]; intros Hnd; [set_solver|]. rewrite layer_of_cons, elem_of_cons.
  inversion_clear Hnd as [|? ? Hni Hnd']. case_bool_decide as Hs.
  - subst s'. split; [intros [= ->]; auto|]. intros [[= ->]|Hin]; [done|].
    destruct Hni. apply list_elem_of_fmap. by exists (s, x).
  - rewrite IH by done. naive_solver.
Qed.

Section Network.
Implicit Types (layers : list (PolicyScope * NetworkPolicyLayer)).

(** The layers and the innermost fallback of a capability. *)
Fixpoint inherited_layers (c : NetworkCapability) : list (PolicyScope * NetworkPolicyLayer) :=
  match c with Scoped layers fallback => layers ++ inherited_layers fallback | _ => [] end.
Fixpoint base_of (c : NetworkCapability) : NetworkCapability :=
  match c with Scoped _ fallback => base_of fallback | _ => c end.

Lemma base_of_leaf c : is_scoped (base_of c) = false.
Proof. by induction c. Qed.

Lemma existing_scope layers scope :
  existsb (fun '(existing, _) => bool_decide (existing = scope)) layers = true <-> scope ∈ layers.*1.
Proof.
  rewrite existsb_exists, list_elem_of_fmap. setoid_rewrite <- list_elem_of_In. split.
  - intros ([s l] & Hin & Hs%bool_decide_eq_true). exists (s, l). naive_solver.
  - intros ([s l] & -> & Hin). exists (s, l). split; [done|]. by rewrite bool_decide_eq_true_2.
Qed.

Lemma inherit_layer_of layers inherited s :
  layer_of s (inherit layers inherited) =
  match layer_of s layers with Some x => Some x | None => layer_of s inherited end.
Proof.
  unfold inherit. revert layers. induction inherited as [|[s' x] inherited IH]; intros layers; cbn [fold_left].
  { by destruct (layer_of s layers). }
  rewrite IH, layer_of_cons. destruct (existsb _ layers) eqn:He.
  - apply existing_scope in He. destruct (layer_of s layers) eqn:El; [done|].
    apply layer_of_None in El. case_bool_decide; [by subst|done].
  - rewrite layer_of_app, layer_of_cons. destruct (layer_of s layers); [done|].
    change (layer_of s []) with (@None NetworkPolicyLayer). by case_bool_decide.
Qed.

Lemma inherit_NoDup layers inherited : NoDup layers.*1 -> NoDup (inherit layers inherited).*1.
Proof.
  unfold inherit. revert layers. induction inherited as [|[s x] inherited IH]; intros layers Hnd; cbn; [done|].
  apply IH. destruct (existsb _ layers) eqn:He; [done|].
  apply not_true_iff_false in He. rewrite existing_scope in He.
  rewrite fmap_app. apply NoDup_app. split_and!; [done|set_solver|apply NoDup_singleton].
Qed.

Lemma flatten_spec layers base :
  NoDup layers.*1 ->
  let r := flatten layers base in
  NoDup r.1.*1 /\ r.2 = base_of base /\
  forall s, layer_of s r.1 =
    match layer_of s layers with Some x => Some x | None => layer_of s (inherited_layers base) end.
Proof.
  revert layers. induction base as [inherited fallback IH| | | |]; intros layers Hnd; cbn zeta; cbn [flatten inherited_layers base_of fst snd].
  2-5: split; [done|split; [done|]]; intros s; by destruct (layer_of s layers).
  destruct (IH (inherit layers inherited)) as (H1 & H2 & H3); [by apply inherit_NoDup|].
  split; [done|split; [done|]]. intros s. rewrite H3, inherit_layer_of, layer_of_app.
  by destruct (layer_of s layers).
Qed.
End Network.

Section SessionFacts.
Context {glob : GlobOps}.
Implicit Types (p : SessionPolicies).

Lemma scope_layers_NoDup {A} (f : PolicyLayer -> option A) p : NoDup (scope_layers f p).*1.
Proof.
  unfold scope_layers, session_scopes. cbn. destruct (f (sp_session p)), (f (sp_workspace p)), (f (sp_user p)); cbn;
    repeat (constructor; [set_solver|]); constructor.
Qed.

(** The layer in force for a scope: the session's own, else the outermost inherited one. *)
Definition effective p (fallback : NetworkCapability) (s : PolicyScope) : option NetworkPolicyLayer :=
  match layer_of s (scope_layers pl_network p) with
  | Some layer => Some layer
  | None => layer_of s (inherited_layers fallback)
  end.

(** The shape of the result: distinct scopes over a fallback without layers. *)
Lemma session_network_inv p fallback :
  exists layers, NoDup layers.*1 /\ sort_scopes layers = layers /\
    (forall s layer, (s, layer) ∈ layers <-> effective p fallback s = Some layer) /\
    session_network p fallback = match layers with [] => base_of fallback | _ => Scoped layers (base_of fallback) end.
Proof.
  unfold session_network. destruct (flatten _ fallback) as [layers base] eqn:E.
  pose proof (flatten_spec (scope_layers pl_network p) fallback (scope_layers_NoDup _ _)) as (Hnd & Hb & Hl).
  rewrite E in Hnd, Hb, Hl. cbn [fst snd] in Hnd, Hb, Hl. subst base.
  exists (sort_scopes layers). assert (NoDup (sort_scopes layers).*1) as Hnd' by by rewrite sort_scopes_perm.
  split_and!; [done|apply sort_scopes_idem| |by destruct (sort_scopes layers)].
  intros s layer. rewrite <- (layer_of_Some _ _ _ Hnd'). unfold effective. rewrite <- Hl.
  rewrite (layer_of_Some _ _ _ Hnd'), (layer_of_Some _ _ _ Hnd). by rewrite sort_scopes_perm.
Qed.

Lemma sorted_scopes_unique {A} (l1 l2 : list (PolicyScope * A)) :
  NoDup l1.*1 -> NoDup l2.*1 -> sort_scopes l1 = l1 -> sort_scopes l2 = l2 ->
  (forall s x, (s, x) ∈ l1 <-> (s, x) ∈ l2) -> l1 = l2.
Proof.
  intros H1 H2 S1 S2 Heq. rewrite <- S1, <- S2. apply sort_scopes_unique; [done|].
  apply NoDup_Permutation; [by eapply NoDup_fmap_1|by eapply NoDup_fmap_1|]. intros [s x]. apply Heq.
Qed.

Lemma session_network_idem p fallback :
  session_network p (session_network p fallback) = session_network p fallback.
Proof.
  destruct (session_network_inv p fallback) as (l1 & Hnd1 & Hs1 & He1 & ->).
  destruct (session_network_inv p (match l1 with [] => base_of fallback | _ => Scoped l1 (base_of fallback) end))
    as (l2 & Hnd2 & Hs2 & He2 & ->).
  assert (inherited_layers (base_of fallback) = [] /\ base_of (base_of fallback) = base_of fallback) as [Hi Hb]
    by (clear; by induction fallback).
  assert (base_of (match l1 with [] => base_of fallback | _ => Scoped l1 (base_of fallback) end) = base_of fallback) as ->
    by (destruct l1; exact Hb).
  assert (l2 = l1) as ->; [|done]. apply sorted_scopes_unique; try done. intros s x. rewrite He2, He1.
  assert (inherited_layers (match l1 with [] => base_of fallback | _ => Scoped l1 (base_of fallback) end) = l1) as Hl1
    by (destruct l1; cbn; rewrite Hi, ?app_nil_r; done).
  unfold effective at 1. rewrite Hl1. destruct (layer_of s (scope_layers pl_network p)) eqn:El.
  - unfold effective. by rewrite El.
  - by rewrite (layer_of_Some _ _ _ Hnd1), He1.
Qed.
End SessionFacts.

(** The layer of a scope. *)
Definition policy_at {glob : GlobOps} (p : SessionPolicies) (scope : PolicyScope) : PolicyLayer :=
  match scope with Session => sp_session p | Workspace => sp_workspace p | User => sp_user p end.

(** ** What a session allows *)
Section Allows.
Context {glob : GlobOps} {ipn : IpNetOps}.
Implicit Types (p : SessionPolicies) (r : NetworkAccessRequest).

(** One leaf on its own allows the request. *)
Definition leaf_allows (c : NetworkCapability) r : Prop :=
  let host := network_host (req_host r) in
  ~ hits_any false host r (deny_rules_of c) /\ leaf_permits c [] r host.

Lemma leaf_capability_allows c r : is_scoped c = false -> capability_allows c [] r <-> leaf_allows c r.
Proof. by destruct c. Qed.

Lemma layers_deny (layers : list (PolicyScope * NetworkPolicyLayer)) host r :
  hits_any false host r (layers ≫= fun '(_, layer) => npl_deny layer) <->
  exists scope layer, (scope, layer) ∈ layers /\ hits_any false host r (npl_deny layer).
Proof.
  unfold hits_any. setoid_rewrite list_elem_of_bind. split.
  - intros (rule & cr & ([s l] & Hr & Hl) & ?). exists s, l. split; [done|]. eauto.
  - intros (s & l & Hl & rule & cr & Hr & ?). exists rule, cr. split; [|done]. by exists (s, l).
Qed.

Lemma scoped_allows (layers : list (PolicyScope * NetworkPolicyLayer)) fallback r :
  is_scoped fallback = false ->
  capability_allows (Scoped layers fallback) [] r <->
  leaf_allows fallback r /\ forall s layer, (s, layer) ∈ layers -> leaf_allows (layer_capability layer) r.
Proof.
  intros Hf. unfold capability_allows, leaf_allows. cbn [deny_rules_of permits].
  assert (forall host, permits fallback [] r host <-> leaf_permits fallback [] r host) as Hp by by destruct fallback.
  rewrite hits_any_app, layers_deny, Hp. split.
  - intros [Hd [Hl Hfb]]. split; [split; [tauto|done]|]. intros s layer Hin. split; [|by eapply Hl].
    intros Hh. apply Hd. left. by exists s, layer.
  - intros [[Hd Hfb] Hl]. split; [|split; [|done]].
    + intros [(s & layer & Hin & Hh)|?]; [|done]. by destruct (Hl _ _ Hin).
    + intros s layer Hin. by destruct (Hl _ _ Hin).
Qed.

Lemma session_allows p fallback r :
  capability_allows (session_network p fallback) [] r <->
  leaf_allows (base_of fallback) r /\
  forall s layer, effective p fallback s = Some layer -> leaf_allows (layer_capability layer) r.
Proof.
  destruct (session_network_inv p fallback) as (layers & _ & _ & He & ->). setoid_rewrite <- He.
  destruct layers as [|x layers]; [|apply scoped_allows, base_of_leaf].
  rewrite leaf_capability_allows by apply base_of_leaf.
  split; [intros H; split; [exact H|]|tauto]. intros s l Hl. by apply elem_of_nil in Hl.
Qed.

Lemma adjacent_NoDup {A} (l : list (PolicyScope * A)) : NoDup l.*1 -> adjacent_scopes l = false.
Proof.
  induction l as [|[s x] [|[s' y] l] IH]; cbn; [done..|]. intros Hnd. inversion_clear Hnd as [|? ? Hni Hnd'].
  rewrite bool_decide_eq_false_2 by set_solver. by apply IH.
Qed.

Lemma collect_fst layers scopes :
  collect (compile_layer []) layers = Ok scopes -> scopes.*1 = layers.*1.
Proof.
  intros H%collect_Ok. induction H as [|[s l] [s' g] ls ss (g' & _ & [= <- <-])%bind_Ok _ IH]; [done|].
  cbn. by rewrite IH.
Qed.

Lemma scoped_compiles layers fallback :
  NoDup layers.*1 -> is_scoped fallback = false ->
  (forall s layer, (s, layer) ∈ layers -> is_ok (compile (layer_capability layer) []) = true) ->
  is_ok (compile fallback []) = true -> is_ok (compile (Scoped layers fallback) []) = true.
Proof.
  intros Hnd Hf Hl Hfb. destruct (collect_total (compile_layer []) layers) as [scopes Hs].
  { intros [s layer] Hin. specialize (Hl _ _ Hin). rewrite compile_leaf in Hl by done.
    unfold compile_layer. cbn [fst snd].
    destruct (compile_rules (layer_capability layer) [] [] None) as [g|]; [by exists (s, g)|done]. }
  cbn [compile]. rewrite Hs. cbn [mbind result_bind].
  rewrite adjacent_NoDup by (rewrite sort_scopes_perm, (collect_fst _ _ Hs); done). cbn. rewrite Hf. cbn.
  by destruct (compile fallback []).
Qed.
End Allows.

(** ** Properties *)
Section Properties.
Context {glob : GlobOps} {ipn : IpNetOps}.

(** The capability of a session allows a request exactly when the innermost
    fallback allows it and, for every scope, the layer in force allows it (the
    session's own layer of that scope, else the outermost inherited one): no
    layer can undo the restrictions of another scope or of the fallback. *)
Theorem session_network_exact (p : SessionPolicies) fallback r :
  capability_allows (session_network p fallback) [] r <->
  leaf_allows (base_of fallback) r /\
  forall s layer, effective p fallback s = Some layer -> leaf_allows (layer_capability layer) r.
Proof. apply session_allows. Qed.

(** Applying the session policies again changes nothing, and the capability
    they give compiles whenever its layers and its innermost fallback do: scopes
    are never duplicated and the fallback is never scoped. *)
Theorem session_network_stable (p : SessionPolicies) fallback :
  session_network p (session_network p fallback) = session_network p fallback /\
  ((forall s layer, effective p fallback s = Some layer -> is_ok (compile (layer_capability layer) []) = true) ->
   is_ok (compile (base_of fallback) []) = true ->
   is_ok (compile (session_network p fallback) []) = true).
Proof.
  split; [apply session_network_idem|]. intros Hl Hb.
  destruct (session_network_inv p fallback) as (layers & Hnd & _ & He & ->).
  destruct layers as [|x layers]; [exact Hb|]. apply scoped_compiles; [done|apply base_of_leaf| |done].
  intros s layer Hin%He. by eapply Hl.
Qed.

(** The file policy of a session decides each path as the strictest of the
    fallback's own rules and of the layers that define one, whatever their order. *)
Theorem session_filesystem_exact (p : SessionPolicies) fallback path n :
  (decision_rank (authorize (session_filesystem p fallback) path) <= n <->
   decision_rank (local_decision fallback path) <= n /\
   forall scope q, pl_filesystem (policy_at p scope) = Some q ->
     decision_rank (authorize q path) <= n)%nat.
Proof.
  unfold session_filesystem. rewrite layered_le. apply and_iff_compat_l.
  unfold scope_layers, session_scopes. setoid_rewrite list_elem_of_omap. split.
  - intros H scope q Hq. apply (H scope). exists (scope, policy_at p scope).
    rewrite Hq. split; [|done]. destruct scope; set_solver.
  - intros H scope q ([s l] & Hin & Hq). destruct (pl_filesystem l) eqn:El; cbn in Hq; [|done].
    injection Hq as -> ->. apply (H scope).
    repeat (apply elem_of_cons in Hin as [Hin|Hin]; [injection Hin as -> ->; exact El|]). by apply elem_of_nil in Hin.
Qed.
End Properties.
