(* ===== verification/AgentCtl.v ===== *)
(** * AgentCtl: cooperative checkpoints

    [pvisor/src/runtime/agentctl.rs] and the wire types of
    [pvisor-core/src/protocol.rs]. The state behind the mutex is a record; every
    operation is a function on it that takes the clock reading and the fresh
    UUID it uses as arguments and also returns the state on its error paths,
    because some of them have pruned stale sessions by then. Requests and
    control calls interleave in the order in which they take the lock
    ([event], [run]). Diagnostic messages are left out; of [serve_connection]
    the framing is modelled and the JSON decoder is a parameter. *)
From stdpp Require Import base tactics list strings gmap sets sorting.
From Stdlib Require Import ZArith Lia Ascii.
From S2P Require Import Prelude RustStr.
Local Open Scope Z_scope.

Definition AGENTCTL_VERSION : Z := 1.
Definition AGENTCTL_MAX_FRAME_BYTES : nat := Z.to_nat (1024 * 1024).
Definition AGENTCTL_MAX_SESSIONS : nat := 64.
Definition SYNC_INTERVAL_MS : Z := 1000.

(** ** Wire types *)
Inductive AgentState := Active | Idle | Quiesced (checkpoint_id : string).
#[export] Instance agent_state_eq_dec : EqDecision AgentState.
Proof. solve_decision. Defined.

Inductive AgentRequest :=
| Hello (version : Z) (token client_id : string)
| Sync (version : Z) (session_id : string) (state : AgentState).

Inductive AgentDirective :=
| Continue
| Quiesce (checkpoint_id : string) (deadline_unix_ms : option Z)
| Shutdown (reason : option string).
#[export] Instance agent_directive_eq_dec : EqDecision AgentDirective.
Proof. solve_decision. Defined.

Inductive AgentErrorCode := InvalidRequest | Unauthorized | VersionMismatch | Conflict.
#[export] Instance agent_error_eq_dec : EqDecision AgentErrorCode.
Proof. solve_decision. Defined.

Inductive AgentResponse :=
| Welcome (session_id : string) (sync_interval_ms : Z) (directive : AgentDirective)
| Synced (directive : AgentDirective)
| ErrorResponse (code : AgentErrorCode).

(** ** State *)
Record CheckpointAcknowledgement := mkAck { ack_generation : Z; acknowledged_at_unix_ms : Z }.

Record ClientSession := mkSession {
  cs_client_id : string;
  cs_state : AgentState;
  cs_last_seen_unix_ms : Z;
  cs_last_sync_unix_ms : option Z;
  cs_checkpoint_ack : option CheckpointAcknowledgement
}.

Record ActiveCheckpoint := mkCheckpoint {
  cp_generation : Z;
  cp_checkpoint_id : string;
  cp_deadline_unix_ms : option Z;
  cp_participants : gset string
}.

Record AgentCtlState := mkState {
  st_run_id : string;
  st_execution_id : string;
  st_token : string;
  st_directive : AgentDirective;
  st_sessions : gmap string ClientSession;
  st_next_checkpoint_generation : Z;
  st_active_checkpoint : option ActiveCheckpoint
}.

Definition agentctl_new (run_id execution_id token : string) : AgentCtlState :=
  mkState run_id execution_id token Continue ∅ 0 None.

Definition set_sessions (sessions : gmap string ClientSession) (s : AgentCtlState) : AgentCtlState :=
  mkState (st_run_id s) (st_execution_id s) (st_token s) (st_directive s) sessions
    (st_next_checkpoint_generation s) (st_active_checkpoint s).

Definition session_is_stale (session : ClientSession) (now_unix_ms : Z) : bool :=
  SYNC_INTERVAL_MS * 3 <? saturating_sub now_unix_ms (cs_last_seen_unix_ms session).

(** [sessions.retain(|_, session| !session_is_stale(session, now))]. *)
Definition prune (now : Z) (sessions : gmap string ClientSession) : gmap string ClientSession :=
  filter (fun kv => session_is_stale kv.2 now = false) sessions.

Definition clear_ack (session : ClientSession) : ClientSession :=
  mkSession (cs_client_id session) (cs_state session) (cs_last_seen_unix_ms session)
    (cs_last_sync_unix_ms session) None.

(** ** Requests *)

Definition is_quiesce (d : AgentDirective) : bool := match d with Quiesce _ _ => true | _ => false end.

Definition has_client (client_id : string) (sessions : gmap string ClientSession) : bool :=
  existsb (fun kv => bool_decide (cs_client_id kv.2 = client_id)) (map_to_list sessions).

Definition handle_hello (token client_id : string) (now : Z) (uuid : string) (s : AgentCtlState)
    : Result AgentErrorCode AgentResponse * AgentCtlState :=
  if negb (bool_decide (token = st_token s)) then (Err Unauthorized, s)
  else if is_empty (trim client_id) then (Err InvalidRequest, s)
  else if is_quiesce (st_directive s) then (Err Conflict, s)
  else
    let s := set_sessions (prune now (st_sessions s)) s in
    if has_client client_id (st_sessions s) then (Err Conflict, s)
    else if (AGENTCTL_MAX_SESSIONS <=? size (st_sessions s))%nat then (Err Conflict, s)
    else
      (Ok (Welcome uuid SYNC_INTERVAL_MS (st_directive s)),
       set_sessions (<[uuid := mkSession client_id Active now None None]> (st_sessions s)) s).

(** The acknowledgement after a report of [reported_state]. *)
Definition new_ack (reported_state : AgentState) (active : option (Z * string * bool)) (now : Z)
    (session : ClientSession) : option CheckpointAcknowledgement :=
  match reported_state, active with
  | Quiesced checkpoint_id, Some (generation, active_checkpoint_id, true) =>
      if bool_decide (checkpoint_id = active_checkpoint_id) then
        Some (match cs_checkpoint_ack session with
              | Some ack => if ack_generation ack =? generation then ack else mkAck generation now
              | None => mkAck generation now
              end)
      else None
  | _, _ => None
  end.

Definition handle_sync (session_id : string) (reported_state : AgentState) (now : Z) (s : AgentCtlState)
    : Result AgentErrorCode AgentResponse * AgentCtlState :=
  match st_sessions s !! session_id with
  | None => (Err Unauthorized, s)
  | Some session =>
      let active :=
        (fun c => (cp_generation c, cp_checkpoint_id c, bool_decide (session_id ∈ cp_participants c)))
          <$> st_active_checkpoint s in
      let conflict :=
        match reported_state with
        | Quiesced checkpoint_id =>
            let repeated := bool_decide (cs_state session = reported_state) in
            let matches_active :=
              match active with
              | Some (_, active_id, participant) => participant && bool_decide (active_id = checkpoint_id)
              | None => false
              end in
            negb repeated && negb matches_active
        | _ => false
        end in
      if conflict then (Err Conflict, s)
      else
        let session := mkSession (cs_client_id session) reported_state now (Some now)
                         (new_ack reported_state active now session) in
        (Ok (Synced (st_directive s)), set_sessions (<[session_id := session]> (st_sessions s)) s)
  end.

Definition handle_request (request : AgentRequest) (now : Z) (uuid : string) (s : AgentCtlState)
    : Result AgentErrorCode AgentResponse * AgentCtlState :=
  match request with
  | Hello _ token client_id => handle_hello token client_id now uuid s
  | Sync _ session_id state => handle_sync session_id state now s
  end.

Definition request_version (request : AgentRequest) : Z :=
  match request with Hello v _ _ => v | Sync v _ _ => v end.

Definition dispatch_request (request : AgentRequest) (now : Z) (uuid : string) (s : AgentCtlState)
    : Result AgentErrorCode AgentResponse * AgentCtlState :=
  if negb (request_version request =? AGENTCTL_VERSION) then (Err VersionMismatch, s)
  else handle_request request now uuid s.

(** *** Connections *)

(** [take(limit).read_until(b'\n', frame)]. *)
Fixpoint read_until (limit : nat) (input : list ascii) : list ascii :=
  match limit, input with
  | S limit, c :: input => if bool_decide (c = "010"%char) then [c] else c :: read_until limit input
  | _, _ => []
  end.

Definition read_request (from_slice : list ascii -> option AgentRequest) (input : list ascii)
    : Result AgentErrorCode AgentRequest :=
  let frame := read_until (AGENTCTL_MAX_FRAME_BYTES + 1) input in
  if (AGENTCTL_MAX_FRAME_BYTES <? length frame)%nat then Err InvalidRequest
  else
    let frame := if bool_decide (last frame = Some "010"%char) then removelast frame else frame in
    if bool_decide (frame = []) then Err InvalidRequest
    else ok_or (from_slice frame) InvalidRequest.

Definition serve_connection (from_slice : list ascii -> option AgentRequest) (input : list ascii)
    (now : Z) (uuid : string) (s : AgentCtlState) : AgentResponse * AgentCtlState :=
  match read_request from_slice input with
  | Err code => (ErrorResponse code, s)
  | Ok request =>
      match dispatch_request request now uuid s with
      | (Ok response, s) => (response, s)
      | (Err code, s) => (ErrorResponse code, s)
      end
  end.

(** ** Host control *)

Inductive StartError := EmptyCheckpointId | DirectiveActive | NoClients | GenerationExhausted.

Definition start_checkpoint (checkpoint_id : string) (deadline_unix_ms : option Z) (now : Z) (s : AgentCtlState)
    : Result StartError Z * AgentCtlState :=
  if is_empty (trim checkpoint_id) then (Err EmptyCheckpointId, s)
  else if negb (bool_decide (st_directive s = Continue)) then (Err DirectiveActive, s)
  else
    let s := set_sessions (prune now (st_sessions s)) s in
    if bool_decide (st_sessions s = ∅) then (Err NoClients, s)
    else
      match checked_add (st_next_checkpoint_generation s) 1 with
      | None => (Err GenerationExhausted, s)
      | Some generation =>
          let sessions := clear_ack <$> st_sessions s in
          (Ok generation,
           mkState (st_run_id s) (st_execution_id s) (st_token s)
             (Quiesce checkpoint_id deadline_unix_ms) sessions generation
             (Some (mkCheckpoint generation checkpoint_id deadline_unix_ms (dom sessions))))
      end.

Definition finish_checkpoint (generation : Z) (s : AgentCtlState) : AgentCtlState :=
  match st_active_checkpoint s with
  | Some checkpoint =>
      if cp_generation checkpoint =? generation then
        mkState (st_run_id s) (st_execution_id s) (st_token s) Continue (clear_ack <$> st_sessions s)
          (st_next_checkpoint_generation s) None
      else s
  | None => s
  end.

Definition continue_execution (s : AgentCtlState) : AgentCtlState :=
  match st_active_checkpoint s with
  | Some checkpoint => finish_checkpoint (cp_generation checkpoint) s
  | None => s
  end.

Definition request_shutdown (reason : option string) (s : AgentCtlState) : AgentCtlState :=
  mkState (st_run_id s) (st_execution_id s) (st_token s) (Shutdown reason) (clear_ack <$> st_sessions s)
    (st_next_checkpoint_generation s) None.

(** *** The checkpoint guard *)
Inductive CaptureError := NotOwner | LostDirective | TimedOut | CaptureFailed.

(** The participant has reported this checkpoint, in this generation and in time. *)
Definition participant_ready (checkpoint : ActiveCheckpoint) (sessions : gmap string ClientSession)
    (session_id : string) : bool :=
  match sessions !! session_id with
  | None => false
  | Some session =>
      bool_decide (cs_state session = Quiesced (cp_checkpoint_id checkpoint)) &&
      match cs_checkpoint_ack session with
      | None => false
      | Some ack =>
          (ack_generation ack =? cp_generation checkpoint) &&
          match cp_deadline_unix_ms checkpoint with
          | None => true
          | Some deadline => acknowledged_at_unix_ms ack <=? deadline
          end
      end
  end.

(** [try_capture]: [Ok None] while participants drain, [Ok (Some x)] when
    [capture] ran and returned [x]; [capture] runs under the lock. *)
Definition try_capture {T} (guard_generation : Z) (capture : Result unit T) (now : Z) (s : AgentCtlState)
    : Result CaptureError (option T) * AgentCtlState :=
  match st_active_checkpoint s with
  | None => (Err NotOwner, s)
  | Some checkpoint =>
      if negb (cp_generation checkpoint =? guard_generation) then (Err NotOwner, s)
      else if negb (match st_directive s with
                    | Quiesce checkpoint_id _ => bool_decide (checkpoint_id = cp_checkpoint_id checkpoint)
                    | _ => false
                    end)
      then (Err LostDirective, s)
      else if negb (forallb (participant_ready checkpoint (st_sessions s)) (elements (cp_participants checkpoint))) then
        if match cp_deadline_unix_ms checkpoint with Some deadline => deadline <=? now | None => false end
        then (Err TimedOut, s)
        else (Ok None, s)
      else
        (match capture with Ok x => Ok (Some x) | Err _ => Err CaptureFailed end,
         finish_checkpoint guard_generation s)
  end.

(** [Drop for AgentCtlCheckpointGuard]. *)
Definition guard_drop (guard_generation : Z) (s : AgentCtlState) : AgentCtlState :=
  finish_checkpoint guard_generation s.

(** ** Observation *)
Record AgentClientSnapshot := mkClientSnapshot {
  acs_client_id : string;
  acs_state : AgentState;
  acs_last_sync_unix_ms : option Z;
  acs_stale : bool
}.
Record AgentCtlSnapshot := mkSnapshot {
  snap_run_id : string;
  snap_execution_id : string;
  snap_directive : AgentDirective;
  snap_clients : list AgentClientSnapshot
}.

Definition client_snapshot (now : Z) (session : ClientSession) : AgentClientSnapshot :=
  mkClientSnapshot (cs_client_id session) (cs_state session) (cs_last_sync_unix_ms session)
    (session_is_stale session now).

Definition snapshot (now : Z) (s : AgentCtlState) : AgentCtlSnapshot :=
  mkSnapshot (st_run_id s) (st_execution_id s) (st_directive s)
    (sort_by (fun l r => String.leb (acs_client_id l) (acs_client_id r))
       ((fun kv => client_snapshot now kv.2) <$> map_to_list (st_sessions s))).

(** ** Histories *)

(** One critical section: a client request or a control call of the host. *)
Inductive event :=
| EvRequest (request : AgentRequest) (now : Z) (uuid : string)
| EvStart (checkpoint_id : string) (deadline : option Z) (now : Z)
| EvCapture (generation : Z) (captured : bool) (now : Z)
| EvDrop (generation : Z)
| EvContinue
| EvShutdown (reason : option string).

Definition step (e : event) (s : AgentCtlState) : AgentCtlState :=
  match e with
  | EvRequest request now uuid => (dispatch_request request now uuid s).2
  | EvStart checkpoint_id deadline now => (start_checkpoint checkpoint_id deadline now s).2
  | EvCapture generation captured now =>
      (try_capture generation (if captured then Ok tt else Err tt) now s).2
  | EvDrop generation => guard_drop generation s
  | EvContinue => continue_execution s
  | EvShutdown reason => request_shutdown reason s
  end.

Definition run (history : list event) (s : AgentCtlState) : AgentCtlState := fold_left (fun s e => step e s) history s.
