(* ===== verification/AgentCtlFacts.v ===== *)
(** * Correctness of AgentCtl

    The invariant of every reachable state, and what a successful capture, a
    stale guard, a rejected request and a repeated report mean. *)
From stdpp Require Import base tactics list strings gmap sets sorting.
From Stdlib Require Import ZArith Lia Ascii.
From S2P Require Import Prelude RustStr AgentCtl.
Local Open Scope Z_scope.

Implicit Types (s : AgentCtlState) (c : ClientSession) (sessions : gmap string ClientSession) (e : event).

(** ** The invariant *)

Record sessions_ok sessions : Prop := {
  ok_size : (size sessions <= AGENTCTL_MAX_SESSIONS)%nat;
  ok_unique k1 k2 c1 c2 : sessions !! k1 = Some c1 -> sessions !! k2 = Some c2 ->
    cs_client_id c1 = cs_client_id c2 -> k1 = k2;
  ok_named k c : sessions !! k = Some c -> is_empty (trim (cs_client_id c)) = false
}.

Record ctl_inv s : Prop := {
  inv_sessions : sessions_ok (st_sessions s);
  inv_generation : 0 <= st_next_checkpoint_generation s <= u64_max;
  (** an active checkpoint has published its directive and frozen the sessions *)
  inv_active : match st_active_checkpoint s with
    | Some cp =>
        st_directive s = Quiesce (cp_checkpoint_id cp) (cp_deadline_unix_ms cp) /\
        cp_participants cp = dom (st_sessions s) /\ st_sessions s <> ∅ /\
        cp_generation cp = st_next_checkpoint_generation s /\
        is_empty (trim (cp_checkpoint_id cp)) = false
    | None => is_quiesce (st_directive s) = false
    end;
  (** acknowledgements are of the active checkpoint and of its generation *)
  inv_acks k c a : st_sessions s !! k = Some c -> cs_checkpoint_ack c = Some a ->
    exists cp, st_active_checkpoint s = Some cp /\ ack_generation a = cp_generation cp /\
      cs_state c = Quiesced (cp_checkpoint_id cp)
}.

Lemma sessions_ok_sub sessions sessions' : sessions' ⊆ sessions -> sessions_ok sessions -> sessions_ok sessions'.
Proof.
  intros Hsub [Hs Hu Hn]. split.
  - etrans; [by apply map_subseteq_size|done].
  - intros k1 k2 c1 c2 H1 H2. apply Hu; by eapply lookup_weaken.
  - intros k c Hk. eapply Hn. by eapply lookup_weaken.
Qed.

Lemma prune_sub now sessions : prune now sessions ⊆ sessions.
Proof. apply map_filter_subseteq. Qed.

Lemma sessions_ok_clear sessions : sessions_ok sessions -> sessions_ok (clear_ack <$> sessions).
Proof.
  intros [Hs Hu Hn]. split.
  - by rewrite map_size_fmap.
  - intros k1 k2 c1 c2. rewrite !lookup_fmap, !fmap_Some. intros (d1 & H1 & ->) (d2 & H2 & ->) Heq.
    by eapply Hu.
  - intros k c. rewrite lookup_fmap, fmap_Some. intros (d & Hd & ->). exact (Hn _ _ Hd).
Qed.

Lemma has_client_false client_id sessions :
  has_client client_id sessions = false <-> forall k c, sessions !! k = Some c -> cs_client_id c <> client_id.
Proof.
  rewrite <- not_true_iff_false. unfold has_client. rewrite existsb_exists. setoid_rewrite <- list_elem_of_In. split.
  - intros Hn k c Hk Hc. apply Hn. exists (k, c). split; [by apply elem_of_map_to_list|].
    by apply bool_decide_eq_true.
  - intros Hn ([k c] & Hk & Hc). apply elem_of_map_to_list in Hk. apply bool_decide_eq_true in Hc. by eapply Hn.
Qed.

Lemma sessions_ok_new sessions uuid c :
  has_client (cs_client_id c) sessions = false -> (size sessions < AGENTCTL_MAX_SESSIONS)%nat ->
  is_empty (trim (cs_client_id c)) = false -> sessions_ok sessions -> sessions_ok (<[uuid := c]> sessions).
Proof.
  rewrite has_client_false. intros Hc Hsz Hne [Hs Hu Hn]. split.
  - destruct (sessions !! uuid) eqn:E; [rewrite map_size_insert_Some by done|rewrite map_size_insert_None by done]; lia.
  - intros k1 k2 c1 c2 [[-> <-]|[? H1]]%lookup_insert_Some [[-> <-]|[? H2]]%lookup_insert_Some Heq; [done| | |by eapply Hu].
    + by destruct (Hc _ _ H2).
    + by destruct (Hc _ _ H1).
  - intros k d [[_ <-]|[_ Hk]]%lookup_insert_Some; [done|by eapply Hn].
Qed.

Lemma sessions_ok_update sessions k c c' :
  sessions !! k = Some c -> cs_client_id c' = cs_client_id c -> sessions_ok sessions -> sessions_ok (<[k := c']> sessions).
Proof.
  intros Hk Hc [Hs Hu Hn]. split.
  - by rewrite map_size_insert_Some.
  - intros k1 k2 c1 c2 [[-> <-]|[? H1]]%lookup_insert_Some [[-> <-]|[? H2]]%lookup_insert_Some Heq; [done| | |by eapply Hu].
    + rewrite Hc in Heq. by eapply Hu.
    + rewrite Hc in Heq. by eapply Hu.
  - intros k' d [[_ <-]|[_ Hd]]%lookup_insert_Some; [rewrite Hc|]; by eapply Hn.
Qed.

Lemma agentctl_new_inv run_id execution_id token : ctl_inv (agentctl_new run_id execution_id token).
Proof.
  split; cbn; try done. split; [rewrite map_size_empty; unfold AGENTCTL_MAX_SESSIONS; lia|..]; intros *; by rewrite lookup_empty.
Qed.

Lemma idle_no_ack s k c :
  ctl_inv s -> st_active_checkpoint s = None -> st_sessions s !! k = Some c -> cs_checkpoint_ack c = None.
Proof.
  intros Hs Hn Hk. destruct (cs_checkpoint_ack c) eqn:E; [|done].
  destruct (inv_acks s Hs _ _ _ Hk E) as (cp & ? & _). congruence.
Qed.

Lemma not_quiesced_idle s : ctl_inv s -> is_quiesce (st_directive s) = false -> st_active_checkpoint s = None.
Proof.
  intros Hs Hq. pose proof (inv_active s Hs) as Ha. destruct (st_active_checkpoint s); [|done].
  destruct Ha as [Hd _]. by rewrite Hd in Hq.
Qed.

(** Replacing the sessions of an idle state by unacknowledged ones. *)
Lemma set_sessions_inv s sessions :
  ctl_inv s -> st_active_checkpoint s = None -> sessions_ok sessions ->
  (forall k c, sessions !! k = Some c -> cs_checkpoint_ack c = None) -> ctl_inv (set_sessions sessions s).
Proof.
  intros Hs Hn Hok Hack. pose proof (inv_active s Hs) as Ha. rewrite Hn in Ha.
  split; cbn; [done|apply (inv_generation s Hs)|by rewrite Hn|].
  intros k c a Hk. by rewrite (Hack _ _ Hk).
Qed.

Lemma prune_inv s now : ctl_inv s -> st_active_checkpoint s = None -> ctl_inv (set_sessions (prune now (st_sessions s)) s).
Proof.
  intros Hs Hn. apply set_sessions_inv; [done|done| |].
  - eapply sessions_ok_sub; [apply prune_sub|apply (inv_sessions s Hs)].
  - intros k c Hk. eapply idle_no_ack; [done..|]. eapply lookup_weaken; [done|apply prune_sub].
Qed.

Lemma handle_hello_inv token client_id now uuid s :
  ctl_inv s -> ctl_inv (handle_hello token client_id now uuid s).2.
Proof.
  intros Hs. unfold handle_hello. case_bool_decide; cbn [negb]; [|done].
  destruct (is_empty (trim client_id)) eqn:Hne; [done|].
  destruct (is_quiesce (st_directive s)) eqn:Hq; [done|].
  pose proof (not_quiesced_idle _ Hs Hq) as Hn. pose proof (prune_inv s now Hs Hn) as Hp.
  destruct (has_client _ _) eqn:Hc; [done|]. destruct (AGENTCTL_MAX_SESSIONS <=? _)%nat eqn:Hsz; [done|].
  apply Nat.leb_gt in Hsz. apply (set_sessions_inv _ _ Hp Hn).
  - apply sessions_ok_new; [done..|apply (inv_sessions _ Hp)].
  - intros k c [[_ <-]|[_ Hk]]%lookup_insert_Some; [done|]. by eapply (idle_no_ack _ k c Hp).
Qed.

Lemma dom_update sessions k c c' : sessions !! k = Some c -> dom (<[k := c']> sessions) = dom sessions.
Proof. intros Hk. rewrite dom_insert_L. apply elem_of_dom_2 in Hk. set_solver. Qed.

(** What an accepted acknowledgement records. *)
Lemma new_ack_Some reported active now c a :
  new_ack reported active now c = Some a ->
  exists generation id, active = Some (generation, id, true) /\ reported = Quiesced id /\ ack_generation a = generation /\
    (a = mkAck generation now \/ cs_checkpoint_ack c = Some a).
Proof.
  unfold new_ack. destruct reported; try done. destruct active as [[[g i] []]|]; try done.
  case_bool_decide; [subst|done]. intros [= <-]. exists g, i.
  destruct (cs_checkpoint_ack c) as [a|]; [|naive_solver].
  destruct (Z.eqb_spec (ack_generation a) g); naive_solver.
Qed.

Lemma handle_sync_inv session_id reported now s : ctl_inv s -> ctl_inv (handle_sync session_id reported now s).2.
Proof.
  intros Hs. unfold handle_sync. destruct (st_sessions s !! session_id) as [c|] eqn:Hk; [|done].
  match goal with |- ctl_inv (if ?b then _ else _).2 => destruct b; [done|] end. cbn.
  pose proof (inv_active s Hs) as Ha. pose proof (inv_sessions s Hs) as Hok. split; cbn.
  - by apply (sessions_ok_update _ _ c).
  - apply (inv_generation s Hs).
  - destruct (st_active_checkpoint s) as [cp|]; [|done]. destruct Ha as (? & Hp & Hne & ? & ?).
    split_and!; try done; [by rewrite (dom_update _ _ c)|apply insert_non_empty].
  - intros k d a [[<- <-]|[_ Hd]]%lookup_insert_Some; cbn.
    + intros (g & i & Hact & -> & Hg & _)%new_ack_Some.
      destruct (st_active_checkpoint s) as [cp|]; cbn in Hact; [|done]. injection Hact as <- <- _. eauto.
    + by apply (inv_acks s Hs k).
Qed.

Lemma start_checkpoint_inv checkpoint_id deadline now s :
  ctl_inv s -> ctl_inv (start_checkpoint checkpoint_id deadline now s).2.
Proof.
  intros Hs. unfold start_checkpoint. destruct (is_empty (trim checkpoint_id)) eqn:Hne; [done|].
  case_bool_decide as Hd; cbn; [|done].
  assert (st_active_checkpoint s = None) as Hn by (apply not_quiesced_idle; [done|by rewrite Hd]).
  pose proof (prune_inv s now Hs Hn) as Hp. case_bool_decide as He; [done|].
  destruct (checked_add _ 1) as [g|] eqn:Eg; [|done]. apply checked_add_Some in Eg as [Hmax ->].
  pose proof (inv_generation s Hs). split; cbn.
  - apply sessions_ok_clear, (inv_sessions _ Hp).
  - lia.
  - split_and!; try done. intros Hf%fmap_empty_inv. done.
  - intros k c a. rewrite lookup_fmap, fmap_Some. intros (d & _ & ->). done.
Qed.

(** Ending a checkpoint, or shutting down: no checkpoint and no acknowledgements. *)
Lemma released_inv s directive :
  ctl_inv s -> is_quiesce directive = false ->
  ctl_inv (mkState (st_run_id s) (st_execution_id s) (st_token s) directive (clear_ack <$> st_sessions s)
    (st_next_checkpoint_generation s) None).
Proof.
  intros Hs Hd. split; cbn; [apply sessions_ok_clear, (inv_sessions s Hs)|apply (inv_generation s Hs)|done|].
  intros k c a. rewrite lookup_fmap, fmap_Some. intros (d & _ & ->). done.
Qed.

Lemma finish_checkpoint_inv g s : ctl_inv s -> ctl_inv (finish_checkpoint g s).
Proof.
  intros Hs. unfold finish_checkpoint. destruct (st_active_checkpoint s) as [cp|]; [|done].
  destruct (_ =? _); [by apply released_inv|done].
Qed.

Lemma try_capture_inv {T} g (capture : Result unit T) now s : ctl_inv s -> ctl_inv (try_capture g capture now s).2.
Proof.
  intros Hs. unfold try_capture. destruct (st_active_checkpoint s); [|done].
  destruct (negb (_ =? _)); [done|]. destruct (negb _); [done|]. destruct (negb _).
  - by destruct (match cp_deadline_unix_ms _ with Some _ => _ | None => _ end).
  - by apply finish_checkpoint_inv.
Qed.

Lemma step_inv e s : ctl_inv s -> ctl_inv (step e s).
Proof.
  intros Hs. destruct e as [[v t i|v i st] now uuid| | | | |]; cbn.
  - unfold dispatch_request. destruct (negb _); [done|]. by apply handle_hello_inv.
  - unfold dispatch_request. destruct (negb _); [done|]. by apply handle_sync_inv.
  - by apply start_checkpoint_inv.
  - by apply try_capture_inv.
  - by apply finish_checkpoint_inv.
  - unfold continue_execution. destruct (st_active_checkpoint s); [by apply finish_checkpoint_inv|done].
  - by apply released_inv.
Qed.

Lemma run_app h1 h2 s : run (h1 ++ h2) s = run h2 (run h1 s).
Proof. apply fold_left_app. Qed.

Lemma run_snoc h e s : run (h ++ [e]) s = step e (run h s).
Proof. by rewrite run_app. Qed.

Lemma run_inv h s : ctl_inv s -> ctl_inv (run h s).
Proof. induction h as [|e h IH] using rev_ind; [done|]. intros Hs. rewrite run_snoc. by apply step_inv, IH. Qed.

(** ** Where checkpoints and acknowledgements come from *)

Lemma start_checkpoint_Ok id deadline now s g s' :
  start_checkpoint id deadline now s = (Ok g, s') ->
  g = st_next_checkpoint_generation s + 1 /\ g <= u64_max /\ st_directive s = Continue /\
  st_next_checkpoint_generation s' = g /\
  st_active_checkpoint s' = Some (mkCheckpoint g id deadline (dom (st_sessions s'))) /\
  st_directive s' = Quiesce id deadline /\ st_sessions s' = clear_ack <$> prune now (st_sessions s).
Proof.
  unfold start_checkpoint. destruct (is_empty _); [done|]. case_bool_decide as Hd; cbn [negb]; [|done].
  case_bool_decide; [done|]. destruct (checked_add _ 1) as [g'|] eqn:Eg; [|done].
  intros [= <- <-]. apply checked_add_Some in Eg as [? ->]. done.
Qed.

Lemma start_checkpoint_Err id deadline now s err s' :
  start_checkpoint id deadline now s = (Err err, s') -> s' = s \/ s' = set_sessions (prune now (st_sessions s)) s.
Proof.
  unfold start_checkpoint. destruct (is_empty _); [intros [= _ <-]; by left|].
  destruct (negb _); [intros [= _ <-]; by left|]. case_bool_decide; [intros [= _ <-]; by right|].
  destruct (checked_add _ 1); [done|intros [= _ <-]; by right].
Qed.

Lemma finish_checkpoint_cases g s :
  finish_checkpoint g s = s \/
  (st_active_checkpoint (finish_checkpoint g s) = None /\ st_sessions (finish_checkpoint g s) = clear_ack <$> st_sessions s /\
   st_next_checkpoint_generation (finish_checkpoint g s) = st_next_checkpoint_generation s).
Proof.
  unfold finish_checkpoint. destruct (st_active_checkpoint s) as [cp|]; [|by left]. destruct (_ =? _); auto.
Qed.

Lemma try_capture_state {T} g (capture : Result unit T) now s :
  (try_capture g capture now s).2 = s \/ (try_capture g capture now s).2 = finish_checkpoint g s.
Proof.
  unfold try_capture. destruct (st_active_checkpoint s); [|by left].
  destruct (negb (_ =? _)); [by left|]. destruct (negb _); [by left|]. destruct (negb _); [left|by right].
  by destruct (match cp_deadline_unix_ms _ with Some _ => _ | None => _ end).
Qed.

Lemma handle_hello_state token client_id now uuid s :
  let s' := (handle_hello token client_id now uuid s).2 in
  st_active_checkpoint s' = st_active_checkpoint s /\
  st_next_checkpoint_generation s' = st_next_checkpoint_generation s /\
  forall k c a, st_sessions s' !! k = Some c -> cs_checkpoint_ack c = Some a -> st_sessions s !! k = Some c.
Proof.
  unfold handle_hello. destruct (negb _); [done|]. destruct (is_empty _); [done|]. destruct (is_quiesce _); [done|].
  pose proof (prune_sub now (st_sessions s)) as Hsub.
  destruct (has_client _ _); [|destruct (AGENTCTL_MAX_SESSIONS <=? _)%nat]; cbn; split_and!; try done.
  - intros k c a Hk _. by eapply lookup_weaken.
  - intros k c a Hk _. by eapply lookup_weaken.
  - intros k c a [[_ <-]|[_ Hk]]%lookup_insert_Some; [done|]. intros _. by eapply lookup_weaken.
Qed.

Lemma handle_sync_state id reported now s :
  let s' := (handle_sync id reported now s).2 in
  st_active_checkpoint s' = st_active_checkpoint s /\
  st_next_checkpoint_generation s' = st_next_checkpoint_generation s /\
  forall k c a, st_sessions s' !! k = Some c -> cs_checkpoint_ack c = Some a ->
    (exists c0, st_sessions s !! k = Some c0 /\ cs_checkpoint_ack c0 = Some a) \/
    (k = id /\ acknowledged_at_unix_ms a = now /\ exists cp, st_active_checkpoint s = Some cp /\
       reported = Quiesced (cp_checkpoint_id cp) /\ ack_generation a = cp_generation cp).
Proof.
  unfold handle_sync. destruct (st_sessions s !! id) as [c0|] eqn:Hk; [|split_and!; eauto].
  match goal with |- context [if ?b then (Err Conflict, s) else _] => destruct b end; [split_and!; eauto|].
  cbn. split_and!; [done..|]. intros k c a [[<- <-]|[_ Hc]]%lookup_insert_Some; [|eauto]. cbn.
  intros (g & i & Hact & -> & Hg & Ha)%new_ack_Some.
  destruct (st_active_checkpoint s) as [cp|]; cbn in Hact; [|done]. injection Hact as <- <- _.
  destruct Ha as [-> | Ha]; [right; eauto 10|left; eauto].
Qed.

Lemma clear_ack_none sessions k c a :
  (clear_ack <$> sessions) !! k = Some c -> cs_checkpoint_ack c = Some a -> False.
Proof. rewrite lookup_fmap, fmap_Some. intros (d & _ & ->). done. Qed.

Lemma continue_finish s :
  continue_execution s = s \/ exists g, continue_execution s = finish_checkpoint g s.
Proof. unfold continue_execution. destruct (st_active_checkpoint s); eauto. Qed.

(** A checkpoint that is active after a step was active before or just started. *)
Lemma step_active e s cp :
  st_active_checkpoint (step e s) = Some cp ->
  st_active_checkpoint s = Some cp \/
  exists now, e = EvStart (cp_checkpoint_id cp) (cp_deadline_unix_ms cp) now /\
    (start_checkpoint (cp_checkpoint_id cp) (cp_deadline_unix_ms cp) now s).1 = Ok (cp_generation cp).
Proof.
  destruct e as [[v t i|v i st] now uuid|id dl now|g b now|g| |r]; cbn.
  - unfold dispatch_request. destruct (negb _); [auto|]. cbn [handle_request].
    destruct (handle_hello_state t i now uuid s) as (-> & _). auto.
  - unfold dispatch_request. destruct (negb _); [auto|]. cbn [handle_request].
    destruct (handle_sync_state i st now s) as (-> & _). auto.
  - destruct (start_checkpoint id dl now s) as [[g|err] s'] eqn:E; cbn.
    + pose proof (start_checkpoint_Ok _ _ _ _ _ _ E) as (_ & _ & _ & _ & Ha & _). rewrite Ha. intros [= <-]. cbn.
      right. exists now. by rewrite E.
    + apply start_checkpoint_Err in E as [-> | ->]; auto.
  - destruct (try_capture_state g (if b then Ok tt else Err tt) now s) as [-> | ->]; [auto|].
    destruct (finish_checkpoint_cases g s) as [-> | (-> & _)]; [auto|done].
  - unfold guard_drop. destruct (finish_checkpoint_cases g s) as [-> | (-> & _)]; [auto|done].
  - destruct (continue_finish s) as [-> | [g ->]]; [auto|].
    destruct (finish_checkpoint_cases g s) as [-> | (-> & _)]; [auto|done].
  - done.
Qed.

(** An acknowledgement after a step was there before or is the step's report. *)
Lemma step_ack e s k c a :
  st_sessions (step e s) !! k = Some c -> cs_checkpoint_ack c = Some a ->
  (exists c0, st_sessions s !! k = Some c0 /\ cs_checkpoint_ack c0 = Some a) \/
  exists cp uuid, st_active_checkpoint s = Some cp /\ ack_generation a = cp_generation cp /\
    e = EvRequest (Sync AGENTCTL_VERSION k (Quiesced (cp_checkpoint_id cp))) (acknowledged_at_unix_ms a) uuid.
Proof.
  destruct e as [[v t i|v i st] now uuid|id dl now|g b now|g| |r]; cbn.
  - unfold dispatch_request. destruct (negb _); [eauto|]. cbn [handle_request].
    destruct (handle_hello_state t i now uuid s) as (_ & _ & H). eauto.
  - unfold dispatch_request. destruct (negb _) eqn:Hv; [eauto|]. cbn [handle_request].
    destruct (handle_sync_state i st now s) as (_ & _ & H). intros Hk Ha.
    destruct (H _ _ _ Hk Ha) as [?|(-> & <- & cp & Hcp & -> & Hg)]; [by left|right].
    cbn in Hv. apply negb_false_iff, Z.eqb_eq in Hv as ->. by exists cp, uuid.
  - destruct (start_checkpoint id dl now s) as [[g|err] s'] eqn:E; cbn.
    + pose proof (start_checkpoint_Ok _ _ _ _ _ _ E) as (_ & _ & _ & _ & _ & _ & ->).
      intros Hk Ha. by destruct (clear_ack_none _ _ _ _ Hk Ha).
    + apply start_checkpoint_Err in E as [-> | ->]; [eauto|]. intros Hk Ha. left. exists c. split; [|done].
      eapply lookup_weaken; [exact Hk|apply prune_sub].
  - destruct (try_capture_state g (if b then Ok tt else Err tt) now s) as [-> | ->]; [eauto|].
    destruct (finish_checkpoint_cases g s) as [-> | (_ & -> & _)]; [eauto|].
    intros Hk Ha. by destruct (clear_ack_none _ _ _ _ Hk Ha).
  - unfold guard_drop. destruct (finish_checkpoint_cases g s) as [-> | (_ & -> & _)]; [eauto|].
    intros Hk Ha. by destruct (clear_ack_none _ _ _ _ Hk Ha).
  - destruct (continue_finish s) as [-> | [g ->]]; [eauto|].
    destruct (finish_checkpoint_cases g s) as [-> | (_ & -> & _)]; [eauto|].
    intros Hk Ha. by destruct (clear_ack_none _ _ _ _ Hk Ha).
  - intros Hk Ha. by destruct (clear_ack_none _ _ _ _ Hk Ha).
Qed.

(** The history starts the checkpoint of this generation at [h1]. *)
Definition starts (h1 : list event) s (id : string) (deadline : option Z) (now generation : Z) : Prop :=
  (start_checkpoint id deadline now (run h1 s)).1 = Ok generation.

Lemma active_origin h s cp :
  st_active_checkpoint s = None -> st_active_checkpoint (run h s) = Some cp ->
  exists h1 h2 now, h = h1 ++ EvStart (cp_checkpoint_id cp) (cp_deadline_unix_ms cp) now :: h2 /\
    starts h1 s (cp_checkpoint_id cp) (cp_deadline_unix_ms cp) now (cp_generation cp).
Proof.
  intros Hs. induction h as [|e h IH] using rev_ind; [cbn; congruence|]. rewrite run_snoc.
  intros [Ha|(now & -> & Hg)]%step_active.
  - destruct (IH Ha) as (h1 & h2 & now & -> & ?). exists h1, (h2 ++ [e]), now. by rewrite <- app_assoc.
  - by exists h, [], now.
Qed.

(** An acknowledgement was reported after the start of its generation. *)
Lemma ack_origin h s k c a :
  st_active_checkpoint s = None -> (forall k c, st_sessions s !! k = Some c -> cs_checkpoint_ack c = None) ->
  st_sessions (run h s) !! k = Some c -> cs_checkpoint_ack c = Some a ->
  exists h1 h2 h3 id deadline now uuid,
    h = h1 ++ EvStart id deadline now :: h2 ++
        EvRequest (Sync AGENTCTL_VERSION k (Quiesced id)) (acknowledged_at_unix_ms a) uuid :: h3 /\
    starts h1 s id deadline now (ack_generation a).
Proof.
  intros Hs Hn. revert c. induction h as [|e h IH] using rev_ind; intros c.
  { cbn. intros Hk Ha. rewrite (Hn _ _ Hk) in Ha. done. }
  rewrite run_snoc. intros Hk Ha. destruct (step_ack _ _ _ _ _ Hk Ha) as [(c0 & Hc0 & Ha0)|(cp & uuid & Hcp & Hg & ->)].
  - destruct (IH _ Hc0 Ha0) as (h1 & h2 & h3 & id & dl & now & uuid & -> & Hst).
    exists h1, h2, (h3 ++ [e]), id, dl, now, uuid. split; [|done].
    by rewrite <- app_assoc; cbn; rewrite <- app_assoc.
  - destruct (active_origin _ _ _ Hs Hcp) as (h1 & h2 & now & -> & Hst).
    exists h1, h2, [], (cp_checkpoint_id cp), (cp_deadline_unix_ms cp), now, uuid. rewrite Hg. split; [|done].
    by rewrite <- app_assoc.
Qed.

(** ** Generations *)

Lemma step_generation e s : st_next_checkpoint_generation s <= st_next_checkpoint_generation (step e s).
Proof.
  destruct e as [[v t i|v i st] now uuid|id dl now|g b now|g| |r]; cbn.
  - unfold dispatch_request. destruct (negb _); [done|]. cbn [handle_request].
    destruct (handle_hello_state t i now uuid s) as (_ & -> & _). done.
  - unfold dispatch_request. destruct (negb _); [done|]. cbn [handle_request].
    destruct (handle_sync_state i st now s) as (_ & -> & _). done.
  - destruct (start_checkpoint id dl now s) as [[g|err] s'] eqn:E; cbn.
    + pose proof (start_checkpoint_Ok _ _ _ _ _ _ E) as (-> & _ & _ & -> & _). lia.
    + by apply start_checkpoint_Err in E as [-> | ->].
  - destruct (try_capture_state g (if b then Ok tt else Err tt) now s) as [-> | ->]; [done|].
    by destruct (finish_checkpoint_cases g s) as [-> | (_ & _ & ->)].
  - unfold guard_drop. by destruct (finish_checkpoint_cases g s) as [-> | (_ & _ & ->)].
  - destruct (continue_finish s) as [-> | [g ->]]; [done|].
    by destruct (finish_checkpoint_cases g s) as [-> | (_ & _ & ->)].
  - done.
Qed.

Lemma run_generation h s : st_next_checkpoint_generation s <= st_next_checkpoint_generation (run h s).
Proof.
  induction h as [|e h IH] using rev_ind; [done|]. rewrite run_snoc. etrans; [exact IH|apply step_generation].
Qed.

Lemma starts_run h1 s id dl now g h2 :
  starts h1 s id dl now g -> g <= st_next_checkpoint_generation (run (h1 ++ EvStart id dl now :: h2) s).
Proof.
  unfold starts. intros Hst. rewrite run_app. change (run (EvStart id dl now :: h2) ?x) with (run h2 (step (EvStart id dl now) x)).
  etrans; [|apply run_generation]. cbn [step]. destruct (start_checkpoint id dl now (run h1 s)) as [r s'] eqn:E.
  cbn [fst snd] in *. subst r. apply start_checkpoint_Ok in E as (_ & _ & _ & -> & _). done.
Qed.

Lemma starts_next h s id dl now g : starts h s id dl now g -> g = st_next_checkpoint_generation (run h s) + 1.
Proof.
  unfold starts. destruct (start_checkpoint id dl now (run h s)) as [r s'] eqn:E. cbn. intros ->.
  by apply start_checkpoint_Ok in E as (-> & _).
Qed.

Lemma app_cons_split {A} (l1 l1' : list A) x x' l2 l2' :
  l1 ++ x :: l2 = l1' ++ x' :: l2' ->
  (l1 = l1' /\ x = x' /\ l2 = l2') \/ (exists m, l1' = l1 ++ x :: m) \/ (exists m, l1 = l1' ++ x' :: m).
Proof.
  revert l1'. induction l1 as [|y l1 IH]; intros [|y' l1']; cbn.
  - intros [= -> ->]. by left.
  - intros [= -> ->]. right. left. by exists l1'.
  - intros [= -> <-]. right. right. by exists l1.
  - intros [= -> [(-> & -> & ->)|[[m ->]|[m ->]]]%IH]; [by left|right; left; by exists m|right; right; by exists m].
Qed.

(** A generation is started once. *)
Lemma same_start h1 h2 h1' h2' s id dl now id' dl' now' g :
  starts h1 s id dl now g -> starts h1' s id' dl' now' g ->
  h1 ++ EvStart id dl now :: h2 = h1' ++ EvStart id' dl' now' :: h2' ->
  h1 = h1' /\ id = id' /\ dl = dl' /\ now = now'.
Proof.
  intros H H' [(-> & [= -> -> ->] & _)|[[m ->]|[m ->]]]%app_cons_split; [done|..].
  - pose proof (starts_run _ _ _ _ _ _ m H). apply starts_next in H'. lia.
  - pose proof (starts_run _ _ _ _ _ _ m H'). apply starts_next in H. lia.
Qed.

(** ** Capture *)

Lemma participant_ready_spec cp sessions k :
  participant_ready cp sessions k = true <->
  exists c a, sessions !! k = Some c /\ cs_state c = Quiesced (cp_checkpoint_id cp) /\
    cs_checkpoint_ack c = Some a /\ ack_generation a = cp_generation cp /\
    forall d, cp_deadline_unix_ms cp = Some d -> acknowledged_at_unix_ms a <= d.
Proof.
  unfold participant_ready. destruct (sessions !! k) as [c|]; [|naive_solver].
  rewrite andb_true_iff, bool_decide_eq_true. destruct (cs_checkpoint_ack c) as [a|] eqn:Ea; [|naive_solver].
  rewrite andb_true_iff, Z.eqb_eq. destruct (cp_deadline_unix_ms cp) as [d|]; [rewrite Z.leb_le|]; naive_solver.
Qed.

(** The capture was called: its value or its failure is the answer. *)
Definition capture_ran {T} (r : Result CaptureError (option T)) : bool :=
  match r with Ok (Some _) | Err CaptureFailed => true | _ => false end.

Lemma try_capture_ran {T} g (capture : Result unit T) now s r s' :
  try_capture g capture now s = (r, s') -> capture_ran r = true ->
  r = (match capture with Ok x => Ok (Some x) | Err _ => Err CaptureFailed end) /\ s' = finish_checkpoint g s /\
  exists cp, st_active_checkpoint s = Some cp /\ cp_generation cp = g /\
    forall k, k ∈ cp_participants cp -> participant_ready cp (st_sessions s) k = true.
Proof.
  unfold try_capture. destruct (st_active_checkpoint s) as [cp|] eqn:Hcp; [|by intros [= <- _]].
  destruct (Z.eqb_spec (cp_generation cp) g) as [Hg|]; cbn [negb]; [|by intros [= <- _]]. destruct (negb _); [by intros [= <- _]|].
  destruct (forallb _ _) eqn:Hr; cbn [negb].
  2:{ by destruct (match cp_deadline_unix_ms cp with Some _ => _ | None => _ end); intros [= <- _]. }
  intros [= <- <-] _. split_and!; [done..|]. exists cp. split_and!; [done..|].
  intros k Hk. rewrite forallb_forall in Hr. apply Hr. by apply list_elem_of_In, elem_of_elements.
Qed.

(** *** Waiting for the participants *)

Record draining (cp : ActiveCheckpoint) s : Prop := {
  dr_active : st_active_checkpoint s = Some cp;
  dr_directive : st_directive s = Quiesce (cp_checkpoint_id cp) (cp_deadline_unix_ms cp);
  dr_dom : dom (st_sessions s) = cp_participants cp
}.
Definition in_time (deadline : option Z) (at_ms : Z) : Prop := forall d, deadline = Some d -> at_ms <= d.
(** Between the start of a checkpoint and its next poll: any requests, and the
    guards of other checkpoints. *)
Definition waits (g : Z) (e : event) : Prop :=
  match e with EvRequest _ _ _ => True | EvCapture g' _ _ | EvDrop g' => g' <> g | _ => False end.
(** What the session has acknowledged of this generation was in time. *)
Definition not_late cp s (k : string) : Prop :=
  forall c a, st_sessions s !! k = Some c -> cs_checkpoint_ack c = Some a -> ack_generation a = cp_generation cp ->
    in_time (cp_deadline_unix_ms cp) (acknowledged_at_unix_ms a).
Definition ready cp s (k : string) : Prop := participant_ready cp (st_sessions s) k = true.

Lemma finish_other cp g s : draining cp s -> g <> cp_generation cp -> finish_checkpoint g s = s.
Proof. intros D Hg. unfold finish_checkpoint. rewrite (dr_active _ _ D). destruct (Z.eqb_spec (cp_generation cp) g); [by subst|done]. Qed.

Lemma handle_sync_other id reported now s k :
  k <> id -> st_sessions (handle_sync id reported now s).2 !! k = st_sessions s !! k.
Proof.
  intros Hk. unfold handle_sync. destruct (st_sessions s !! id) as [c|]; [|done].
  match goal with |- context [if ?b then (Err Conflict, s) else _] => destruct b end; [done|]. cbn. by rewrite lookup_insert_ne.
Qed.

Lemma handle_sync_draining cp id reported now s : draining cp s -> draining cp (handle_sync id reported now s).2.
Proof.
  intros [Ha Hd Hdom]. unfold handle_sync. destruct (st_sessions s !! id) as [c|] eqn:E; [|by split].
  match goal with |- context [if ?b then (Err Conflict, s) else _] => destruct b end; [by split|].
  split; cbn; [done..|]. by rewrite (dom_update _ _ c).
Qed.

(** A step while the checkpoint waits is a report of one session, or changes none. *)
Lemma waits_step cp e s :
  draining cp s -> waits (cp_generation cp) e ->
  draining cp (step e s) /\
  (step e s = s \/ exists k st at_ms uuid, e = EvRequest (Sync AGENTCTL_VERSION k st) at_ms uuid /\ step e s = (handle_sync k st at_ms s).2).
Proof.
  intros D He. destruct e as [request now uuid| |g' captured now|g'| |]; try done; cbn [step waits] in *.
  - unfold dispatch_request. destruct (Z.eqb_spec (request_version request) AGENTCTL_VERSION) as [Hv|]; cbn [negb]; [|by split; [|left]].
    destruct request as [v token client|v k st]; cbn in Hv |- *; subst v.
    + assert ((handle_hello token client now uuid s).2 = s) as ->; [|by split; [|left]].
      unfold handle_hello. destruct (negb _); [done|]. destruct (is_empty _); [done|]. by rewrite (dr_directive _ _ D).
    + split; [by apply handle_sync_draining|right; eauto 10].
  - assert (forall c : Result unit unit, (try_capture g' c now s).2 = s) as ->; [|by split; [|left]]. intros c.
    destruct (try_capture_state g' c now s) as [->| ->]; [done|by apply (finish_other cp)].
  - unfold guard_drop. rewrite (finish_other cp) by done. by split; [|left].
Qed.

Lemma sync_not_late cp k st at_ms s :
  draining cp s -> not_late cp s k -> (st = Quiesced (cp_checkpoint_id cp) -> in_time (cp_deadline_unix_ms cp) at_ms) ->
  not_late cp (handle_sync k st at_ms s).2 k.
Proof.
  intros D Hk Hst c a Hc Ha Hg. destruct (handle_sync_state k st at_ms s) as (_ & _ & Hacks).
  destruct (Hacks k c a Hc Ha) as [(c0 & Hc0 & Ha0)|(_ & <- & cp' & Hcp & -> & _)]; [by eapply Hk|].
  rewrite (dr_active _ _ D) in Hcp. injection Hcp as <-. by apply Hst.
Qed.

(** A report in time makes the session ready, and later reports keep it so. *)
Lemma sync_ready cp k at_ms s :
  draining cp s -> k ∈ cp_participants cp ->
  ready cp s k \/ not_late cp s k /\ in_time (cp_deadline_unix_ms cp) at_ms ->
  ready cp (handle_sync k (Quiesced (cp_checkpoint_id cp)) at_ms s).2 k.
Proof.
  intros [Ha Hd Hdom] Hk H. assert (k ∈ dom (st_sessions s)) as [c Hc]%elem_of_dom by by rewrite Hdom.
  apply participant_ready_spec. unfold handle_sync. rewrite Hc, Ha. cbn. rewrite (bool_decide_eq_true_2 (k ∈ cp_participants cp)) by done.
  rewrite (bool_decide_eq_true_2 (cp_checkpoint_id cp = cp_checkpoint_id cp)) by done. rewrite andb_false_r. cbn.
  rewrite lookup_insert_eq. do 2 eexists. split_and!; [done..| |]; cbn.
  - destruct (cs_checkpoint_ack c) as [a|]; [destruct (Z.eqb_spec (ack_generation a) (cp_generation cp))|]; done.
  - destruct H as [(c' & a & Hc' & _ & Hack & Hg & Ht)%participant_ready_spec|[Hl Ht]].
    + assert (c' = c) as -> by congruence. rewrite Hack, Hg, Z.eqb_refl. exact Ht.
    + destruct (cs_checkpoint_ack c) as [a|] eqn:Hack; [destruct (Z.eqb_spec (ack_generation a) (cp_generation cp))|]; [|exact Ht..].
      by apply (Hl c a).
Qed.

(** The session reports the checkpoint in time and stands by it: none of its
    reports up to that one is late, and it reports nothing else afterwards. *)
Definition quiesces (id : string) (deadline : option Z) (h : list event) (k : string) : Prop :=
  exists h1 at_ms uuid h2, h = h1 ++ EvRequest (Sync AGENTCTL_VERSION k (Quiesced id)) at_ms uuid :: h2 /\ in_time deadline at_ms /\
    (forall at' uuid', EvRequest (Sync AGENTCTL_VERSION k (Quiesced id)) at' uuid' ∈ h1 -> in_time deadline at') /\
    (forall st at' uuid', EvRequest (Sync AGENTCTL_VERSION k st) at' uuid' ∈ h2 -> st = Quiesced id).

Lemma waits_run cp h s : draining cp s -> Forall (waits (cp_generation cp)) h -> draining cp (run h s).
Proof.
  intros D. induction h as [|e h IH] using rev_ind; [done|]. rewrite Forall_app, Forall_singleton. intros [Hh He].
  rewrite run_snoc. by apply waits_step; [apply IH|].
Qed.

(** A property of a session that its own reports keep. *)
Lemma waits_keeps cp k (P : AgentCtlState -> Prop) h s :
  draining cp s -> Forall (waits (cp_generation cp)) h ->
  (forall s1 s2, st_sessions s1 !! k = st_sessions s2 !! k -> P s1 -> P s2) ->
  (forall s1 st at_ms uuid, EvRequest (Sync AGENTCTL_VERSION k st) at_ms uuid ∈ h -> draining cp s1 -> P s1 -> P (handle_sync k st at_ms s1).2) ->
  P s -> P (run h s).
Proof.
  intros D Hh Hext. induction h as [|e h IH] using rev_ind; [done|]. rewrite Forall_app, Forall_singleton in Hh. destruct Hh as [Hh He].
  intros Hsync HP. rewrite run_snoc. pose proof (waits_run cp h s D Hh) as D1.
  assert (P (run h s)) as HP1. { apply IH; [done| |done]. intros s1 st at_ms uuid Hin. apply (Hsync s1 st at_ms uuid). set_solver. }
  destruct (waits_step cp e (run h s) D1 He) as (_ & [-> |(k' & st & at_ms & uuid & -> & ->)]); [done|].
  destruct (decide (k = k')) as [<-|Hne]; [by apply (Hsync _ st at_ms uuid); [set_solver|..]|].
  apply (Hext (run h s)); [by rewrite handle_sync_other|done].
Qed.

Lemma quiesces_ready cp h k s :
  draining cp s -> Forall (waits (cp_generation cp)) h -> k ∈ cp_participants cp -> not_late cp s k ->
  quiesces (cp_checkpoint_id cp) (cp_deadline_unix_ms cp) h k -> ready cp (run h s) k.
Proof.
  intros D Hh Hk Hl (h1 & at_ms & uuid & h2 & -> & Ht & H1 & H2). rewrite Forall_app, Forall_cons in Hh. destruct Hh as (Hh1 & He & Hh2).
  rewrite run_app. pose proof (waits_run cp h1 s D Hh1) as D1.
  assert (not_late cp (run h1 s) k) as Hl1.
  { apply (waits_keeps cp k (fun s => not_late cp s k)); [done..| | |done].
    - intros s1 s2 Heq HP c a Hc. rewrite <- Heq in Hc. by apply HP.
    - intros s1 st at' uuid' Hin D' HP. apply sync_not_late; [done..|]. intros ->. by apply (H1 at' uuid'). }
  change (run (?e :: h2) ?s) with (run h2 (step e s)). destruct (waits_step cp _ (run h1 s) D1 He) as [D2 _].
  apply (waits_keeps cp k (fun s => ready cp s k)); [done..| | |].
  - intros s1 s2 Heq. unfold ready, participant_ready. by rewrite Heq.
  - intros s1 st at' uuid' Hin D' HP. rewrite (H2 st at' uuid' Hin). apply sync_ready; auto.
  - cbn. apply sync_ready; auto.
Qed.

Lemma drained_capture {T} cp s (capture : Result unit T) now' :
  draining cp s -> (forall k, k ∈ cp_participants cp -> ready cp s k) ->
  try_capture (cp_generation cp) capture now' s =
    (match capture with Ok x => Ok (Some x) | Err _ => Err CaptureFailed end, finish_checkpoint (cp_generation cp) s).
Proof.
  intros [Ha Hd Hdom] Hr. unfold try_capture. rewrite Ha, Hd, Z.eqb_refl, bool_decide_eq_true_2 by done.
  cbn [negb]. assert (forallb (participant_ready cp (st_sessions s)) (elements (cp_participants cp)) = true) as ->; [|done].
  apply forallb_forall. intros k Hk%list_elem_of_In%elem_of_elements. by apply Hr.
Qed.

(** ** Properties *)

(** After any history of client requests and host calls there are at most 64
    sessions with distinct non-empty client names, the quiesce directive is
    published exactly while a checkpoint is active, an active checkpoint's
    participants are exactly the sessions, and every acknowledgement is of the
    active checkpoint and generation. *)
Theorem agentctl_invariant run_id execution_id token h :
  ctl_inv (run h (agentctl_new run_id execution_id token)).
Proof. apply run_inv, agentctl_new_inv. Qed.

(** C6: when a capture runs, and whether it returns a value or fails, every
    session of the channel is quiesced for that checkpoint and reported so, by a
    request of its own that was handled after the checkpoint of the guard's
    generation had been started and no later than its deadline; the answer is
    that of the capture, and the clients are released afterwards. *)
Theorem capture_only_when_quiesced {T} run_id execution_id token h g (capture : Result unit T) now r s' :
  let s0 := agentctl_new run_id execution_id token in
  try_capture g capture now (run h s0) = (r, s') -> capture_ran r = true ->
  r = (match capture with Ok x => Ok (Some x) | Err _ => Err CaptureFailed end) /\
  st_directive s' = Continue /\ st_active_checkpoint s' = None /\
  exists id deadline, st_directive (run h s0) = Quiesce id deadline /\
    forall k c, st_sessions (run h s0) !! k = Some c ->
      cs_state c = Quiesced id /\
      exists h1 h2 h3 started at_ms uuid,
        h = h1 ++ EvStart id deadline started :: h2 ++
            EvRequest (Sync AGENTCTL_VERSION k (Quiesced id)) at_ms uuid :: h3 /\
        starts h1 s0 id deadline started g /\ (forall d, deadline = Some d -> at_ms <= d).
Proof.
  intros s0 Htry Hran. destruct (try_capture_ran _ _ _ _ _ _ Htry Hran) as (-> & -> & cp & Hcp & Hg & Hready).
  pose proof (run_inv h s0 (agentctl_new_inv _ _ _)) as Hinv.
  pose proof (inv_active _ Hinv) as Ha. rewrite Hcp in Ha. destruct Ha as (Hd & Hp & _ & _ & _).
  split; [done|]. unfold finish_checkpoint. rewrite Hcp, Hg, Z.eqb_refl. cbn. split_and!; [done..|].
  exists (cp_checkpoint_id cp), (cp_deadline_unix_ms cp). split; [done|]. intros k c Hk.
  specialize (Hready k). rewrite Hp in Hready. specialize (Hready (elem_of_dom_2 _ _ _ Hk)).
  apply participant_ready_spec in Hready as (c' & a & Hc' & Hst & Hack & Hgen & Hdl).
  assert (c' = c) as -> by congruence. split; [done|].
  destruct (ack_origin h s0 k c a) as (h1 & h2 & h3 & id & dl & st & uuid & Hh & Hstart); [done| |done..|].
  { intros ? ? Hx. cbn in Hx. by rewrite lookup_empty in Hx. }
  destruct (active_origin h s0 cp eq_refl Hcp) as (h1' & h2' & st' & Hh' & Hstart').
  rewrite Hgen in Hstart. assert (h1 = h1' /\ id = cp_checkpoint_id cp /\ dl = cp_deadline_unix_ms cp /\ st = st') as (-> & -> & -> & ->).
  { eapply same_start; [exact Hstart|exact Hstart'|]. by rewrite <- Hh, <- Hh'. }
  exists h1', h2, h3, st', (acknowledged_at_unix_ms a), uuid. rewrite <- Hg. done.
Qed.

(** Generations are never reused, so the guard of an earlier checkpoint,
    whether it is dropped or polled, cannot touch a later one. *)
Theorem stale_guard_inert {T} run_id execution_id token h1 h2 h3 id1 dl1 now1 g1 id2 dl2 now2 g2
    (capture : Result unit T) now :
  let s0 := agentctl_new run_id execution_id token in
  let e1 := EvStart id1 dl1 now1 in
  let e2 := EvStart id2 dl2 now2 in
  starts h1 s0 id1 dl1 now1 g1 -> starts (h1 ++ e1 :: h2) s0 id2 dl2 now2 g2 ->
  let s := run ((h1 ++ e1 :: h2) ++ e2 :: h3) s0 in
  g1 < g2 /\ guard_drop g1 s = s /\ try_capture g1 capture now s = (Err NotOwner, s).
Proof.
  intros s0 e1 e2 H1 H2 s. pose proof (starts_run _ _ _ _ _ _ h2 H1) as Hle. fold e1 in Hle.
  pose proof (starts_next _ _ _ _ _ _ H2) as Hg2.
  assert (g1 < g2) as Hlt by lia. split; [done|].
  pose proof (starts_run _ _ _ _ _ _ h3 H2) as Hle2. fold e2 s in Hle2.
  assert (forall cp, st_active_checkpoint s = Some cp -> (cp_generation cp =? g1) = false) as Hne.
  { intros cp Hcp. pose proof (run_inv ((h1 ++ e1 :: h2) ++ e2 :: h3) s0 (agentctl_new_inv _ _ _)) as Hinv.
    fold s in Hinv. pose proof (inv_active _ Hinv) as Ha. rewrite Hcp in Ha. destruct Ha as (_ & _ & _ & Hgen & _).
    apply Z.eqb_neq. lia. }
  unfold guard_drop, finish_checkpoint, try_capture.
  destruct (st_active_checkpoint s) as [cp|]; [|done]. by rewrite (Hne cp eq_refl).
Qed.

(** C39: a checkpoint completes. Let any requests arrive after its start, at any
    times and in any order. If every session that was live at the start reports the
    checkpoint by the deadline and stands by it, however often and late it repeats
    that report, then the next poll, at whatever time, runs the capture, answers
    with its value or its failure, and releases the clients. *)
Theorem checkpoint_completes {T} s id deadline started g s1 h (capture : Result unit T) now' :
  start_checkpoint id deadline started s = (Ok g, s1) -> Forall (waits g) h ->
  (forall k, k ∈ dom (st_sessions s1) -> quiesces id deadline h k) ->
  let s2 := run h s1 in
  try_capture g capture now' s2 =
    (match capture with Ok x => Ok (Some x) | Err _ => Err CaptureFailed end, finish_checkpoint g s2) /\
  st_directive (finish_checkpoint g s2) = Continue /\ st_active_checkpoint (finish_checkpoint g s2) = None.
Proof.
  intros Hst Hh Hq s2. apply start_checkpoint_Ok in Hst as (_ & _ & _ & _ & Ha & Hd & Hsess).
  set (cp := mkCheckpoint g id deadline (dom (st_sessions s1))) in *.
  assert (draining cp s1) as Hdr by (by split). pose proof (waits_run cp h s1 Hdr Hh) as Hdr2. fold s2 in Hdr2.
  split; [apply (drained_capture cp s2 capture now' Hdr2)|].
  - intros k Hk. apply (quiesces_ready cp h k s1); [done..| |by apply Hq].
    intros c a. rewrite Hsess. intros Hc Hack. by destruct (clear_ack_none _ _ _ _ Hc Hack).
  - unfold finish_checkpoint. rewrite (dr_active _ _ Hdr2). by rewrite Z.eqb_refl.
Qed.

(** A request that is refused changes nothing but the removal of stale
    sessions, and that only for a holder of the token outside checkpoints;
    without the version and the token nothing is ever changed by a [Hello]. *)
Theorem refused_request_harmless request now uuid s code s' :
  dispatch_request request now uuid s = (Err code, s') ->
  s' = s \/
  (code = Conflict /\ is_quiesce (st_directive s) = false /\
   s' = set_sessions (prune now (st_sessions s)) s /\
   exists client_id, request = Hello AGENTCTL_VERSION (st_token s) client_id).
Proof.
  unfold dispatch_request. destruct (Z.eqb_spec (request_version request) AGENTCTL_VERSION) as [Hv|]; cbn [negb];
    [|intros [= _ <-]; by left].
  destruct request as [v t i|v i st]; cbn in Hv; subst v; cbn [handle_request].
  - unfold handle_hello. case_bool_decide as Ht; cbn [negb]; [|intros [= _ <-]; by left].
    destruct (is_empty _); [intros [= _ <-]; by left|]. destruct (is_quiesce _) eqn:Hq; [intros [= _ <-]; by left|].
    destruct (has_client _ _); [|destruct (AGENTCTL_MAX_SESSIONS <=? _)%nat; [|done]]; intros [= <- <-]; right;
      split_and!; try done; exists i; by rewrite Ht.
  - unfold handle_sync. destruct (st_sessions s !! i); [|intros [= _ <-]; by left].
    match goal with |- (if ?b then _ else _) = _ -> _ => destruct b; [intros [= _ <-]; by left|done] end.
Qed.

(** Repeating an accepted report is idempotent: it is accepted again, also
    after the host released or shut down the channel, answers with the
    current directive and keeps the acknowledgement and its time. *)
Theorem repeated_report_idempotent k id now s r s1 now' reason :
  handle_sync k (Quiesced id) now s = (Ok r, s1) ->
  (exists s2, handle_sync k (Quiesced id) now' s1 = (Ok r, s2) /\
     cs_checkpoint_ack <$> (st_sessions s2 !! k) = cs_checkpoint_ack <$> (st_sessions s1 !! k)) /\
  (handle_sync k (Quiesced id) now' (continue_execution s1)).1 = Ok (Synced (st_directive (continue_execution s1))) /\
  (handle_sync k (Quiesced id) now' (request_shutdown reason s1)).1 = Ok (Synced (Shutdown reason)).
Proof.
  intros H. assert (exists c, st_sessions s1 !! k = Some c /\ cs_state c = Quiesced id /\ r = Synced (st_directive s1) /\
    cs_checkpoint_ack c = new_ack (Quiesced id) ((fun cp => (cp_generation cp, cp_checkpoint_id cp, bool_decide (k ∈ cp_participants cp)))
          <$> st_active_checkpoint s1) now' c) as (c & Hc & Hst & -> & Hack).
  { unfold handle_sync in H. destruct (st_sessions s !! k) as [c0|]; [|done].
    destruct (_ && _) in H; [done|]. injection H as <- <-. cbn. eexists. rewrite lookup_insert_eq. split_and!; [done..|].
    cbn [cs_checkpoint_ack]. destruct (st_active_checkpoint s) as [cp|]; cbn; [|done].
    destruct (bool_decide (k ∈ cp_participants cp)); [|done]. case_bool_decide; [|done]. cbn.
    destruct (cs_checkpoint_ack c0) as [a|]; [destruct (Z.eqb_spec (ack_generation a) (cp_generation cp)) as [E|]|]; cbn;
      rewrite ?E, ?Z.eqb_refl; done. }
  assert (forall s2 c2, st_sessions s2 !! k = Some c2 -> cs_state c2 = Quiesced id ->
    (handle_sync k (Quiesced id) now' s2).1 = Ok (Synced (st_directive s2))) as Hrep.
  { intros s2 c2 Hc2 Hst2. unfold handle_sync. rewrite Hc2, (bool_decide_eq_true_2 _ Hst2). done. }
  split; [|split].
  - unfold handle_sync. rewrite Hc, (bool_decide_eq_true_2 _ Hst). cbn [negb andb]. eexists. split; [done|].
    cbn [st_sessions set_sessions]. rewrite lookup_insert_eq. apply (f_equal Some). symmetry. exact Hack.
  - unfold continue_execution, finish_checkpoint. destruct (st_active_checkpoint s1) as [cp|]; [rewrite Z.eqb_refl|].
    + apply (Hrep _ (clear_ack c)); [cbn; by rewrite lookup_fmap, Hc|done].
    + by apply (Hrep _ c).
  - apply (Hrep (request_shutdown reason s1) (clear_ack c)); [cbn; by rewrite lookup_fmap, Hc|done].
Qed.

(** ** Evaluated instances *)

Definition sample_history : list event :=
  [EvRequest (Hello 1 "secret" "worker-1") 10 "s1";
   EvRequest (Hello 1 "secret" "worker-2") 11 "s2";
   EvStart "cp-1" (Some 500) 100].
Definition sample_reports : list event :=
  [EvRequest (Sync 1 "s2" (Quiesced "cp-1")) 200 ""; EvRequest (Hello 1 "secret" "worker-3") 210 "s3";
   EvRequest (Sync 1 "s1" Active) 220 ""; EvRequest (Sync 1 "s1" (Quiesced "cp-1")) 250 "";
   EvRequest (Sync 1 "s2" (Quiesced "cp-1")) 700 ""].
Definition sample_state (h : list event) : AgentCtlState := run h (agentctl_new "run" "exec" "secret").

Lemma capture_only_when_quiesced_witness :
  let answer := try_capture 1 (Err tt : Result unit nat) 300 (sample_state (sample_history ++ sample_reports)) in
  answer.1 = Err CaptureFailed /\ st_directive answer.2 = Continue.
Proof.
  split; [vm_compute; reflexivity|].
  refine (proj1 (proj2 (capture_only_when_quiesced "run" "exec" "secret" (sample_history ++ sample_reports) 1 (Err tt : Result unit nat) 300 _ _ (surjective_pairing _) _))).
  vm_compute. reflexivity.
Defined.

Lemma stale_guard_inert_witness :
  let e1 := EvStart "cp-1" (Some 500) 100 in
  let e2 := EvStart "cp-1" None 130 in
  let h1 := take 2 sample_history in
  let s := sample_state ((h1 ++ e1 :: [EvDrop 1]) ++ e2 :: []) in
  guard_drop 1 s = s.
Proof.
  refine (proj1 (proj2 (stale_guard_inert "run" "exec" "secret" (take 2 sample_history) [EvDrop 1] []
    "cp-1" (Some 500) 100 1 "cp-1" None 130 2 (@Ok unit nat 0%nat) 0 _ _))); vm_compute; reflexivity.
Defined.

Lemma checkpoint_completes_witness :
  let s := sample_state (take 2 sample_history) in
  let s2 := run sample_reports (start_checkpoint "cp-1" (Some 500) 100 s).2 in
  try_capture 1 (Ok 7%nat) 800 s2 = (Ok (Some 7%nat), finish_checkpoint 1 s2).
Proof.
  refine (proj1 (checkpoint_completes (sample_state (take 2 sample_history)) "cp-1" (Some 500) 100 1
    (start_checkpoint "cp-1" (Some 500) 100 (sample_state (take 2 sample_history))).2 sample_reports (Ok 7%nat) 800 _ _ _)).
  - reflexivity.
  - unfold sample_reports. repeat (apply Forall_cons_2; [exact I|]). apply Forall_nil_2.
  - assert (dom (st_sessions (start_checkpoint "cp-1" (Some 500) 100 (sample_state (take 2 sample_history))).2)
      = {["s1"; "s2"]}%string) as -> by (vm_compute; reflexivity).
    intros k [->%elem_of_singleton| ->%elem_of_singleton]%elem_of_union.
    + exists (take 3 sample_reports), 250, ""%string, (drop 4 sample_reports). split_and!; [reflexivity|by intros d [= <-]|..].
      * intros at' uuid'. unfold sample_reports. cbn [take]. rewrite !elem_of_cons. intros [?|[?|[?|?%elem_of_nil]]]; done.
      * intros st at' uuid'. unfold sample_reports. cbn [drop]. rewrite !elem_of_cons. intros [?|?%elem_of_nil]; done.
    + exists [], 200, ""%string, (drop 1 sample_reports). split_and!; [reflexivity|by intros d [= <-]|..].
      * intros at' uuid' []%elem_of_nil.
      * intros st at' uuid'. unfold sample_reports. cbn [drop]. rewrite !elem_of_cons. intros [?|[?|[?|[?|?%elem_of_nil]]]]; naive_solver.
Defined.

Lemma refused_request_harmless_witness :
  exists s', dispatch_request (Hello 1 "wrong" "worker-3") 5000 "s3" (sample_state sample_history) = (Err Unauthorized, s') /\
    s' = sample_state sample_history.
Proof.
  eexists. split; [reflexivity|].
  destruct (refused_request_harmless (Hello 1 "wrong" "worker-3") 5000 "s3" (sample_state sample_history) Unauthorized _ eq_refl)
    as [H|(H & _)]; [exact H|discriminate].
Defined.

Lemma repeated_report_idempotent_witness :
  exists s1, handle_sync "s1" (Quiesced "cp-1") 200 (sample_state sample_history) = (Ok (Synced (Quiesce "cp-1" (Some 500))), s1) /\
    (handle_sync "s1" (Quiesced "cp-1") 300 (request_shutdown None s1)).1 = Ok (Synced (Shutdown None)).
Proof.
  eexists. split; [reflexivity|].
  refine (proj2 (proj2 (repeated_report_idempotent "s1" "cp-1" 200 (sample_state sample_history) _ _ 300 None _))).
  reflexivity.
Defined.
