(* ===== verification/Bandwidth.v ===== *)
(** * Bandwidth scheduling

    [pvisor-overlaynet/src/bandwidth.rs]. Buckets are shared behind [Arc]s by
    every session whose limits include theirs, so they live in a heap and a
    session holds locations. An [Instant] is a number of nanoseconds; each
    operation takes the clock readings it makes. *)
From stdpp Require Import base tactics strings gmap sets list.
From Stdlib Require Import ZArith Lia.
From S2P Require Import Prelude RustStr Net Types.
Local Open Scope Z_scope.

Record BandwidthBucket := mkBucket { bb_bytes_per_second : Z; bb_next_available : Z }.

(** The registry's map and the heap of buckets. *)
Record BandwidthRegistry := mkRegistry {
  br_buckets : gmap NetworkBandwidthLimit nat;
  br_heap : list BandwidthBucket
}.
Definition registry_default : BandwidthRegistry := mkRegistry ∅ [].

Definition BandwidthSession := list nat.

Definition div_ceil (a b : Z) : Z := (a + b - 1) / b.

(** [u128] and [u64] saturation written out. *)
Definition reserve_nanos (rate bytes : Z) : Z :=
  Z.min (div_ceil (Z.min (bytes * 1000000000) u128_max) rate) u64_max.

(** [BandwidthBucket::reserve]. *)
Definition reserve (now bytes : Z) (b : BandwidthBucket) : Z * BandwidthBucket :=
  let starts_at := Z.max (bb_next_available b) now in
  let ready_at := starts_at + reserve_nanos (bb_bytes_per_second b) bytes in
  (ready_at, mkBucket (bb_bytes_per_second b) ready_at).

Definition is_limited (session : BandwidthSession) : bool := negb (bool_decide (session = [])).

(** [registry.entry(limit).or_insert_with(..)]. *)
Definition entry (now : Z) (limit : NetworkBandwidthLimit) (r : BandwidthRegistry) : nat * BandwidthRegistry :=
  match br_buckets r !! limit with
  | Some l => (l, r)
  | None =>
      let l := length (br_heap r) in
      (l, mkRegistry (<[limit := l]> (br_buckets r)) (br_heap r ++ [mkBucket (nbl_bytes_per_second limit) now]))
  end.

(** [BandwidthRegistry::session]: one bucket per limit, each location once. *)
Definition session (now : Z) (limits : list NetworkBandwidthLimit) (r : BandwidthRegistry)
    : BandwidthSession * BandwidthRegistry :=
  fold_left (fun '(buckets, r) limit =>
    let '(l, r) := entry now limit r in
    (if bool_decide (l ∈ buckets) then buckets else buckets ++ [l], r)) limits ([], r).

(** One reservation on a location; a session only holds allocated ones. *)
Definition reserve_at (now bytes : Z) (l : nat) (heap : list BandwidthBucket) : Z * list BandwidthBucket :=
  match heap !! l with
  | None => (now, heap)
  | Some b => let '(ready, b) := reserve now bytes b in (ready, <[l := b]> heap)
  end.

(** [throttle]: the instant until which the stream sleeps; [clock l] is the
    reading that the reservation on the bucket [l] makes. *)
Definition throttle (now : Z) (clock : nat -> Z) (bytes : Z) (s : BandwidthSession) (heap : list BandwidthBucket) : Z * list BandwidthBucket :=
  if (bytes =? 0) || negb (is_limited s) then (now, heap)
  else fold_left (fun '(ready_at, heap) l =>
         let '(ready, heap) := reserve_at (clock l) bytes l heap in (Z.max ready_at ready, heap)) s (now, heap).

(** ** The rate of a bucket *)

(** Reservations on one bucket in the order in which they take its lock. *)
Fixpoint reservations (l : list (Z * Z)) (b : BandwidthBucket) : BandwidthBucket :=
  match l with
  | [] => b
  | (now, bytes) :: l => reservations l (reserve now bytes b).2
  end.

Definition total_bytes (l : list (Z * Z)) : Z := foldr (fun r acc => r.2 + acc) 0 l.

(** No saturation: sizes are those of a stream chunk. *)
Definition unsaturated (rate : Z) (r : Z * Z) : Prop := 0 <= r.2 /\ r.2 * 1000000000 <= rate * u64_max /\ r.2 <= u64_max.

Lemma div_ceil_bounds a b : 0 < b -> a <= b * div_ceil a b < a + b.
Proof.
  intros Hb. unfold div_ceil. pose proof (Z.div_mod (a + b - 1) b ltac:(lia)).
  pose proof (Z.mod_pos_bound (a + b - 1) b Hb). lia.
Qed.

Lemma reserve_nanos_bounds rate r :
  0 < rate -> unsaturated rate r ->
  r.2 * 1000000000 <= rate * reserve_nanos rate r.2 < r.2 * 1000000000 + rate.
Proof.
  intros Hr (H0 & H1 & H2). unfold reserve_nanos.
  assert (r.2 * 1000000000 <= u128_max) by (unfold u128_max, u64_max in *; lia).
  set (a := r.2 * 1000000000) in *. rewrite (Z.min_l a u128_max) by done.
  pose proof (div_ceil_bounds a rate Hr) as Hd.
  assert (div_ceil a rate <= u64_max) as Hle.
  { unfold div_ceil. apply Z.lt_succ_r. apply Z.div_lt_upper_bound; [lia|]. rewrite Z.mul_succ_r. lia. }
  rewrite Z.min_l by done. exact Hd.
Qed.

Lemma reservations_rate l b : bb_bytes_per_second (reservations l b) = bb_bytes_per_second b.
Proof. revert b. induction l as [|[now bytes] l IH]; intros b; cbn; [done|]. by rewrite IH. Qed.

Lemma reservations_lower l b :
  0 < bb_bytes_per_second b -> Forall (unsaturated (bb_bytes_per_second b)) l ->
  total_bytes l * 1000000000 <= bb_bytes_per_second b * (bb_next_available (reservations l b) - bb_next_available b).
Proof.
  revert b. induction l as [|[now bytes] l IH]; intros b Hr Hl; [cbn; lia|].
  inversion_clear Hl as [|? ? Hu Hl']. pose proof (reserve_nanos_bounds _ _ Hr Hu) as [Hn _].
  specialize (IH (reserve now bytes b).2 Hr Hl'). change (total_bytes ((now, bytes) :: l)) with (bytes + total_bytes l).
  cbn [reservations reserve snd bb_bytes_per_second bb_next_available] in *.
  assert (0 <= bb_bytes_per_second b * (Z.max (bb_next_available b) now - bb_next_available b)) by
    (apply Z.mul_nonneg_nonneg; lia).
  lia.
Qed.

(** While the bucket is busy, each reservation adds less than a nanosecond of rounding. *)
Fixpoint busy (l : list (Z * Z)) (b : BandwidthBucket) : Prop :=
  match l with
  | [] => True
  | (now, bytes) :: l => now <= bb_next_available b /\ busy l (reserve now bytes b).2
  end.

Lemma reservations_upper l b :
  0 < bb_bytes_per_second b -> Forall (unsaturated (bb_bytes_per_second b)) l -> busy l b ->
  bb_bytes_per_second b * (bb_next_available (reservations l b) - bb_next_available b)
    <= total_bytes l * 1000000000 + Z.of_nat (length l) * (bb_bytes_per_second b - 1).
Proof.
  revert b. induction l as [|[now bytes] l IH]; intros b Hr Hl Hb; [cbn; lia|].
  inversion_clear Hl as [|? ? Hu Hl']. pose proof (reserve_nanos_bounds _ _ Hr Hu) as [_ Hn].
  destruct Hb as [Hnow Hb]. specialize (IH (reserve now bytes b).2 Hr Hl' Hb).
  change (total_bytes ((now, bytes) :: l)) with (bytes + total_bytes l). cbn [length]. rewrite Nat2Z.inj_succ.
  cbn [reservations reserve snd bb_bytes_per_second bb_next_available] in *. rewrite Z.max_l in * by lia. lia.
Qed.

(** ** Sharing of buckets *)

(** Every limit has a bucket of its own with its rate, and every bucket a limit. *)
Record registry_ok (r : BandwidthRegistry) : Prop := {
  ro_bucket limit l : br_buckets r !! limit = Some l ->
    exists b, br_heap r !! l = Some b /\ bb_bytes_per_second b = nbl_bytes_per_second limit;
  ro_inj k1 k2 l : br_buckets r !! k1 = Some l -> br_buckets r !! k2 = Some l -> k1 = k2
}.

Lemma registry_default_ok : registry_ok registry_default.
Proof. split; intros *; cbn; by rewrite lookup_empty. Qed.

Lemma entry_spec now limit r l r' :
  registry_ok r -> entry now limit r = (l, r') ->
  registry_ok r' /\ br_buckets r' !! limit = Some l /\ br_buckets r ⊆ br_buckets r' /\ br_heap r `prefix_of` br_heap r'.
Proof.
  intros [Hb Hi]. unfold entry. destruct (br_buckets r !! limit) as [l'|] eqn:E; intros [= <- <-].
  { split_and!; [by split|done|done|done]. }
  assert (forall k i, br_buckets r !! k = Some i -> (i < length (br_heap r))%nat) as Hlt.
  { intros k i (b & Hk & _)%Hb. by eapply lookup_lt_Some. }
  split_and!; cbn.
  - split; cbn.
    + intros k i [[<- <-]|[_ Hk]]%lookup_insert_Some.
      * eexists. split; [by apply list_lookup_middle|done].
      * destruct (Hb _ _ Hk) as (b & ? & ?). exists b. split; [by apply lookup_app_l_Some|done].
    + intros k1 k2 i [[<- <-]|[_ H1]]%lookup_insert_Some [[<- ?]|[_ H2]]%lookup_insert_Some; [done| | |by eapply Hi].
      * apply Hlt in H2. lia.
      * subst. apply Hlt in H1. lia.
  - apply lookup_insert_eq.
  - by apply insert_subseteq.
  - by eexists.
Qed.

Lemma session_fold now limits buckets r s' r' :
  registry_ok r -> NoDup buckets ->
  fold_left (fun '(buckets, r) limit =>
    let '(l, r) := entry now limit r in
    (if bool_decide (l ∈ buckets) then buckets else buckets ++ [l], r)) limits (buckets, r) = (s', r') ->
  registry_ok r' /\ NoDup s' /\ br_buckets r ⊆ br_buckets r' /\ br_heap r `prefix_of` br_heap r' /\
  forall l, l ∈ s' <-> l ∈ buckets \/ exists limit, limit ∈ limits /\ br_buckets r' !! limit = Some l.
Proof.
  revert buckets r. induction limits as [|limit limits IH]; intros buckets r Hr Hnd; cbn.
  { intros [= <- <-]. split_and!; [done..|]. set_solver. }
  destruct (entry now limit r) as [l r1] eqn:E. destruct (entry_spec _ _ _ _ _ Hr E) as (Hr1 & Hl & Hsub & Hpre).
  intros H. apply IH in H as (Hr' & Hnd' & Hsub' & Hpre' & Hel); [|done|].
  2:{ case_bool_decide; [done|]. apply NoDup_app. split_and!; [done|set_solver|apply NoDup_singleton]. }
  split_and!; [done|done|by etrans|by etrans|]. intros l0. rewrite Hel.
  assert (br_buckets r' !! limit = Some l) as Hl' by by eapply lookup_weaken.
  setoid_rewrite elem_of_cons. split.
  - intros [Hin|(k & ? & ?)]; [|right; eauto].
    case_bool_decide; [by left|]. apply elem_of_app in Hin as [?| ->%list_elem_of_singleton]; [by left|right; eauto].
  - intros [Hin|(k & [->|?] & Hk)]; [left; case_bool_decide; set_solver| |right; eauto].
    assert (l0 = l) as -> by congruence. left. case_bool_decide; set_solver.
Qed.

(** ** Throttling *)

Definition bucket_of (heap : list BandwidthBucket) (l : nat) : option Z := bb_next_available <$> heap !! l.

Lemma throttle_fold clock bytes s ready heap ready' heap' :
  NoDup s -> (forall l, l ∈ s -> is_Some (heap !! l)) ->
  fold_left (fun '(ready_at, heap) l =>
    let '(ready, heap) := reserve_at (clock l) bytes l heap in (Z.max ready_at ready, heap)) s (ready, heap) = (ready', heap') ->
  ready <= ready' /\ (forall l, l ∉ s -> heap' !! l = heap !! l) /\
  forall l b, l ∈ s -> heap !! l = Some b ->
    heap' !! l = Some (reserve (clock l) bytes b).2 /\ (reserve (clock l) bytes b).1 <= ready'.
Proof.
  revert ready heap. induction s as [|l s IH]; intros ready heap Hnd Hsome; cbn [fold_left].
  { intros [= <- <-]. split_and!; [done|done|set_solver]. }
  inversion_clear Hnd as [|? ? Hni Hnd']. destruct (Hsome l) as [b Hb]; [left|].
  unfold reserve_at at 2. rewrite Hb. destruct (reserve (clock l) bytes b) as [rd b'] eqn:Er.
  assert (forall l0, l0 ∈ s -> (<[l := b']> heap) !! l0 = heap !! l0) as Hne.
  { intros l0 Hl0. apply list_lookup_insert_ne. by intros <-. }
  intros H. apply IH in H as (Hle & Hout & Hin); [|done|intros l0 Hl0; rewrite Hne by done; apply Hsome; by right].
  split_and!; [lia| |].
  - intros l0 [Hl Hs]%not_elem_of_cons. rewrite Hout by done. by apply list_lookup_insert_ne.
  - intros l0 b0 [->|Hl0]%elem_of_cons Hb0.
    + simplify_eq. rewrite Er. cbn. split; [|lia]. rewrite Hout by done.
      apply list_lookup_insert_eq. by eapply lookup_lt_Some.
    + apply Hin; [done|]. by rewrite Hne.
Qed.

(** ** Properties *)

(** C40: Whatever the arrival times, the instants a bucket hands out grow with the
    bytes reserved, so no more than the configured rate passes; and while it is
    busy the delay exceeds the exact one by less than a nanosecond per chunk. Both
    for a rate above zero and for chunks whose delay is representable: no product
    and no quotient saturates. *)
Theorem bucket_rate_bound l b :
  0 < bb_bytes_per_second b -> Forall (unsaturated (bb_bytes_per_second b)) l ->
  let rate := bb_bytes_per_second b in
  let elapsed := bb_next_available (reservations l b) - bb_next_available b in
  total_bytes l * 1000000000 <= rate * elapsed /\
  (busy l b -> rate * elapsed <= total_bytes l * 1000000000 + Z.of_nat (length l) * (rate - 1)).
Proof. intros Hr Hl. split; [by apply reservations_lower|by apply reservations_upper]. Qed.

(** A session gets exactly the buckets of its limits, each once and with the
    rate of its limit; a limit keeps its bucket in later sessions, and different
    limits never share one. *)
Theorem session_shares_buckets now limits r s' r' :
  registry_ok r -> session now limits r = (s', r') ->
  registry_ok r' /\ NoDup s' /\ br_buckets r ⊆ br_buckets r' /\
  (forall l, l ∈ s' <-> exists limit, limit ∈ limits /\ br_buckets r' !! limit = Some l) /\
  (forall l, l ∈ s' -> exists limit b, limit ∈ limits /\ br_heap r' !! l = Some b /\
     bb_bytes_per_second b = nbl_bytes_per_second limit).
Proof.
  intros Hr Hs. destruct (session_fold _ _ _ _ _ _ Hr (NoDup_nil_2) Hs) as (Hr' & Hnd & Hsub & _ & Hel).
  assert (forall l, l ∈ s' <-> exists limit, limit ∈ limits /\ br_buckets r' !! limit = Some l) as Hel'.
  { intros l. rewrite Hel. set_solver. }
  split_and!; try done. intros l (limit & Hin & Hl)%Hel'.
  destruct (ro_bucket _ Hr' _ _ Hl) as (b & ? & ?). by exists limit, b.
Qed.

(** A throttled chunk is charged to every bucket of its session and waits
    for the slowest of them; the other buckets are not touched. *)
Theorem throttle_waits_for_all now clock bytes s heap :
  bytes <> 0 -> NoDup s -> (forall l, l ∈ s -> is_Some (heap !! l)) ->
  let '(ready, heap') := throttle now clock bytes s heap in
  now <= ready /\ (forall l, l ∉ s -> heap' !! l = heap !! l) /\
  forall l b, l ∈ s -> heap !! l = Some b ->
    heap' !! l = Some (reserve (clock l) bytes b).2 /\ (reserve (clock l) bytes b).1 <= ready.
Proof.
  intros Hb Hnd Hs. unfold throttle. rewrite (proj2 (Z.eqb_neq bytes 0) Hb). cbn [orb].
  unfold is_limited. rewrite negb_involutive. case_bool_decide as He.
  { subst s. split_and!; [done|done|set_solver]. }
  destruct (fold_left _ s (now, heap)) as [ready heap'] eqn:E. by eapply throttle_fold.
Qed.

(** ** Evaluated instances *)
Definition ten : NetworkBandwidthLimit := mkLimit None None 10.
Definition web : NetworkBandwidthLimit := mkLimit (Some "example.com"%string) (Some 443) 20.

Lemma bucket_rate_bound_witness :
  bb_next_available (reservations [(0, 100); (5, 7)] (mkBucket 10 0)) = 10700000000 /\
  total_bytes [(0, 100); (5, 7)] * 1000000000 <= 10 * 10700000000.
Proof.
  split; [reflexivity|].
  refine (proj1 (bucket_rate_bound [(0, 100); (5, 7)] (mkBucket 10 0) _ _)); [reflexivity|].
  repeat constructor; cbn; unfold u64_max; lia.
Defined.

Lemma session_shares_buckets_witness :
  (session 0 [ten; web; ten] registry_default).1 = [0; 1]%nat /\
  NoDup (session 0 [ten; web; ten] registry_default).1.
Proof.
  split; [vm_compute; reflexivity|].
  exact (proj1 (proj2 (session_shares_buckets 0 [ten; web; ten] registry_default _ _ registry_default_ok (surjective_pairing _)))).
Defined.

Lemma throttle_waits_for_all_witness :
  throttle 0 (fun _ => 0) 100 [0; 1]%nat [mkBucket 10 0; mkBucket 20 0] = (10000000000, [mkBucket 10 10000000000; mkBucket 20 5000000000]) /\
  (reserve 0 100 (mkBucket 10 0)).1 <= 10000000000.
Proof.
  split; [reflexivity|].
  refine (proj2 (proj2 (proj2 (throttle_waits_for_all 0 (fun _ => 0) 100 [0; 1]%nat [mkBucket 10 0; mkBucket 20 0] _ _ _)) 0%nat (mkBucket 10 0) _ _)).
  - lia.
  - repeat constructor; set_solver.
  - intros l Hl. repeat (apply elem_of_cons in Hl as [->|Hl]; [by eexists|]). by apply elem_of_nil in Hl.
  - left.
  - reflexivity.
Defined.
