(* ===== verification/Headers.v ===== *)
(** * Header filtering of the forwarding proxy

    [pvisor-overlaynet/src/headers.rs]. The [HeaderMap] of the [http] crate is
    the function [get_all]: the values of a header, [None] for a value that
    [to_str] refuses. *)
From stdpp Require Import base tactics list strings.
From Stdlib Require Import Ascii.
From S2P Require Import Prelude RustStr.
Local Open Scope string_scope.

Definition HeaderMap := string -> list (option string).

Definition HOP_BY_HOP : list string :=
  ["connection"; "proxy-connection"; "keep-alive"; "proxy-authenticate"; "proxy-authorization";
   "te"; "trailer"; "trailers"; "transfer-encoding"; "upgrade"].

Definition is_hop_by_hop (name : string) : bool := existsb (eq_ignore_ascii_case name) HOP_BY_HOP.

(** [matches!(name.to_ascii_lowercase().as_str(), ..)]. *)
Definition lowercase_in (name : string) (names : list string) : bool := bool_decide (to_ascii_lowercase name ∈ names).

Definition skip_transparent_forward_header (name : string) : bool :=
  is_hop_by_hop name || eq_ignore_ascii_case name "host".

(** The comma-separated tokens of all values of a header. *)
Definition tokens (headers : HeaderMap) (header : string) : list string :=
  trim <$> (omap id (headers header) ≫= split ","%char).

Definition connection_nominates_header (headers : HeaderMap) (name : string) : bool :=
  existsb (fun token => eq_ignore_ascii_case token name) (tokens headers "connection").

Definition skip_transparent_forward_header_for (headers : HeaderMap) (name : string) : bool :=
  skip_transparent_forward_header name || connection_nominates_header headers name.

Definition skip_upstream_forward_header (name : string) : bool :=
  lowercase_in name ["host"; "content-length"; "x-api-key"; "x-goog-api-key"; "authorization"; "expect"]
  || is_hop_by_hop name.

Definition skip_upstream_forward_header_for (headers : HeaderMap) (name : string) : bool :=
  skip_upstream_forward_header name || connection_nominates_header headers name.

Definition skip_response_header_when_body_changed (name : string) : bool :=
  is_hop_by_hop name || lowercase_in name ["content-length"; "content-encoding"; "content-type"].

Definition skip_response_header_after_reframing (headers : HeaderMap) (name : string) (body_changed : bool) : bool :=
  is_hop_by_hop name || connection_nominates_header headers name || eq_ignore_ascii_case name "content-length"
  || (body_changed && lowercase_in name ["content-encoding"; "content-type"]).

Definition is_websocket_upgrade (headers : HeaderMap) : bool :=
  existsb (fun protocol => eq_ignore_ascii_case protocol "websocket") (tokens headers "upgrade").

(** ** Lemmas *)

Lemma eq_ignore_lower s t : eq_ignore_ascii_case s t = true <-> to_ascii_lowercase s = to_ascii_lowercase t.
Proof.
  unfold eq_ignore_ascii_case, to_ascii_lowercase. rewrite bool_decide_eq_true. split; [by intros ->|].
  intros H%(f_equal (fun x => to_bytes x)). by rewrite !to_of_bytes in H.
Qed.

Lemma eq_ignore_congr s s' t :
  eq_ignore_ascii_case s s' = true -> eq_ignore_ascii_case s t = eq_ignore_ascii_case s' t.
Proof. intros H%eq_ignore_lower. apply eq_true_iff_eq. rewrite !eq_ignore_lower. by rewrite H. Qed.

Lemma eq_ignore_congr_r s s' t :
  eq_ignore_ascii_case s s' = true -> eq_ignore_ascii_case t s = eq_ignore_ascii_case t s'.
Proof. intros H%eq_ignore_lower. apply eq_true_iff_eq. rewrite !eq_ignore_lower. by rewrite H. Qed.

Lemma existsb_eq {A} (f g : A -> bool) l : (forall x, f x = g x) -> existsb f l = existsb g l.
Proof. intros H. induction l as [|x l IH]; cbn; [done|]. by rewrite H, IH. Qed.

Lemma hop_by_hop_congr s s' : eq_ignore_ascii_case s s' = true -> is_hop_by_hop s = is_hop_by_hop s'.
Proof. intros H. apply existsb_eq. intros x. by apply eq_ignore_congr. Qed.
Lemma lowercase_in_congr s s' l : eq_ignore_ascii_case s s' = true -> lowercase_in s l = lowercase_in s' l.
Proof. intros H%eq_ignore_lower. unfold lowercase_in. by rewrite H. Qed.
Lemma nominates_congr headers s s' :
  eq_ignore_ascii_case s s' = true -> connection_nominates_header headers s = connection_nominates_header headers s'.
Proof. intros H. apply existsb_eq. intros x. by apply eq_ignore_congr_r. Qed.

(** ** Properties *)

(** No spelling of a name evades a filter: the decision on a header depends
    on its name only up to ASCII case, in all of the filters. *)
Theorem header_filters_ignore_case headers name name' body_changed :
  eq_ignore_ascii_case name name' = true ->
  skip_transparent_forward_header_for headers name = skip_transparent_forward_header_for headers name' /\
  skip_upstream_forward_header_for headers name = skip_upstream_forward_header_for headers name' /\
  skip_response_header_when_body_changed name = skip_response_header_when_body_changed name' /\
  skip_response_header_after_reframing headers name body_changed =
    skip_response_header_after_reframing headers name' body_changed.
Proof.
  intros H. unfold skip_transparent_forward_header_for, skip_transparent_forward_header,
    skip_upstream_forward_header_for, skip_upstream_forward_header,
    skip_response_header_when_body_changed, skip_response_header_after_reframing.
  rewrite (hop_by_hop_congr _ _ H), (nominates_congr headers _ _ H), (eq_ignore_congr _ _ "host" H),
    (eq_ignore_congr _ _ "content-length" H), !(lowercase_in_congr _ _ _ H). done.
Qed.

Lemma header_filters_ignore_case_witness :
  skip_upstream_forward_header_for (fun _ => [Some "Close, X-Trace"]) "x-TRACE" = true /\
  skip_upstream_forward_header_for (fun _ => [Some "Close, X-Trace"]) "X-Trace" = true.
Proof.
  split; [vm_compute; reflexivity|].
  rewrite <- (proj1 (proj2 (header_filters_ignore_case (fun _ => [Some "Close, X-Trace"]) "x-TRACE" "X-Trace" false eq_refl))).
  vm_compute. reflexivity.
Defined.
