(* ===== verification/Execution.v ===== *)
(** * Runs and enforcement evidence

    The part of [pvisor-core/src/execution.rs] that decides whether a run is
    enforced: run states, capability sets and resource limits, the dimensions
    they request, admission plans and the evidence an executor records. *)
From stdpp Require Import base tactics list strings gmap sets.
From Stdlib Require Import ZArith Lia.
From S2P Require Import Prelude RustStr Net Types.
Local Open Scope nat_scope.

Inductive RunState :=
| Created | Starting | Running | Checkpointing | Suspended | Hibernated | Cancelling | Completed | Failed | Cancelled.
#[export] Instance run_state_eq_dec : EqDecision RunState.
Proof. solve_decision. Defined.

Definition is_terminal (s : RunState) : bool :=
  match s with Completed | Failed | Cancelled | Hibernated => true | _ => false end.

Record ResourceLimits := mkLimits {
  rl_memory_bytes : option Z;
  rl_processes : option Z;
  rl_cpu_time_ms : option Z;
  rl_open_files : option Z;
  rl_file_size_bytes : option Z
}.
Definition is_none {A} (o : option A) : bool := match o with None => true | Some _ => false end.
Definition limits_is_empty (r : ResourceLimits) : bool :=
  is_none (rl_memory_bytes r) && is_none (rl_processes r) && is_none (rl_cpu_time_ms r)
  && is_none (rl_open_files r) && is_none (rl_file_size_bytes r).

Inductive FilesystemAccess := AccessRead | AccessReadWrite.
#[export] Instance filesystem_access_eq_dec : EqDecision FilesystemAccess.
Proof. solve_decision. Defined.
Record FilesystemCapability := mkFsCapability { fc_path : string; fc_access : FilesystemAccess }.

Record CapabilitySet := mkCapabilities {
  cap_models : list string;
  cap_tools : list string;
  cap_filesystem : list FilesystemCapability;
  cap_network : NetworkCapability;
  cap_secrets : list string;
  cap_allow_subprocess : bool
}.

Inductive CapabilityDimension :=
| Models | Tools | FilesystemRead | FilesystemWrite | NetworkDimension | Secrets | Subprocess | Resources.
#[export] Instance dimension_eq_dec : EqDecision CapabilityDimension.
Proof. solve_decision. Defined.

(** The derived order, and the key under which a map stores a dimension. *)
Definition dimension_rank (d : CapabilityDimension) : nat :=
  match d with
  | Models => 0 | Tools => 1 | FilesystemRead => 2 | FilesystemWrite => 3
  | NetworkDimension => 4 | Secrets => 5 | Subprocess => 6 | Resources => 7
  end.
Definition dimension_of_rank (n : nat) : CapabilityDimension :=
  match n with
  | 0 => Models | 1 => Tools | 2 => FilesystemRead | 3 => FilesystemWrite
  | 4 => NetworkDimension | 5 => Secrets | 6 => Subprocess | _ => Resources
  end.
#[export] Instance dimension_countable : Countable CapabilityDimension.
Proof. refine (inj_countable' dimension_rank dimension_of_rank _). by intros []. Defined.

(** [Display for CapabilityDimension]. *)
Definition dimension_name (d : CapabilityDimension) : string :=
  match d with
  | Models => "models" | Tools => "tools" | FilesystemRead => "filesystem_read"
  | FilesystemWrite => "filesystem_write" | NetworkDimension => "network" | Secrets => "secrets"
  | Subprocess => "subprocess" | Resources => "resources"
  end.

(** [EnforcementLevel] and [EnforcementPlanLevel] with their derived orders. *)
Inductive EnforcementLevel := Unenforced | CooperativeLevel | Enforced.
Inductive EnforcementPlanLevel := Unsupported | CooperativePlan | Planned.
#[export] Instance enforcement_level_eq_dec : EqDecision EnforcementLevel.
Proof. solve_decision. Defined.
#[export] Instance plan_level_eq_dec : EqDecision EnforcementPlanLevel.
Proof. solve_decision. Defined.

(** What evidence and plans have in common: ordered levels with a default. *)
Class Level (L : Type) := {
  level_default : L;
  level_rank : L -> nat;
  level_top : L
}.
Class LevelLaws (L : Type) `{Level L} : Prop := {
  level_rank_inj a b : level_rank a = level_rank b -> a = b;
  level_top_max a : level_rank a <= level_rank level_top;
  level_default_not_top : level_default <> level_top
}.
#[export] Instance evidence_level : Level EnforcementLevel := {|
  level_default := Unenforced;
  level_rank l := match l with Unenforced => 0 | CooperativeLevel => 1 | Enforced => 2 end;
  level_top := Enforced
|}.
#[export] Instance plan_level : Level EnforcementPlanLevel := {|
  level_default := Unsupported;
  level_rank l := match l with Unsupported => 0 | CooperativePlan => 1 | Planned => 2 end;
  level_top := Planned
|}.
#[export] Instance evidence_level_laws : LevelLaws EnforcementLevel.
Proof. split; [by intros [] []|intros []; cbn; lia|done]. Qed.
#[export] Instance plan_level_laws : LevelLaws EnforcementPlanLevel.
Proof. split; [by intros [] []|intros []; cbn; lia|done]. Qed.

Section Claims.
Context {L : Type} `{Level L} `{EqDecision L}.

(** [EnforcementEvidence] and [EnforcementPlan]. *)
Record Claim := mkClaim { cl_level : L; cl_mechanisms : list string }.
Definition claim_default : Claim := mkClaim level_default [].

(** [record]: raises the level and adds the mechanism once. *)
Definition record (dimension : CapabilityDimension) (level : L) (mechanism : string) (dims : gmap CapabilityDimension Claim) : gmap CapabilityDimension Claim :=
  let claim := default claim_default (dims !! dimension) in
  let lvl := if level_rank (cl_level claim) <? level_rank level then level else cl_level claim in
  let mechanisms :=
    if bool_decide (mechanism ∈ cl_mechanisms claim) then cl_mechanisms claim
    else cl_mechanisms claim ++ [mechanism] in
  <[dimension := mkClaim lvl mechanisms]> dims.

(** [is_enforced] and [is_planned]: the top level is reached. *)
Definition is_topped (dims : gmap CapabilityDimension Claim) (dimension : CapabilityDimension) : bool :=
  match dims !! dimension with Some claim => bool_decide (cl_level claim = level_top) | None => false end.

Definition requested_list (capabilities : CapabilitySet) (resources : ResourceLimits) : list CapabilityDimension :=
  (if bool_decide (cap_models capabilities = []) then [] else [Models])
  ++ (if bool_decide (cap_tools capabilities = []) then [] else [Tools])
  ++ (cap_filesystem capabilities ≫= fun filesystem =>
        FilesystemRead :: (if bool_decide (fc_access filesystem = AccessReadWrite) then [FilesystemWrite] else []))
  ++ [NetworkDimension]
  ++ (if bool_decide (cap_secrets capabilities = []) then [] else [Secrets])
  ++ (if cap_allow_subprocess capabilities then [] else [Subprocess])
  ++ (if limits_is_empty resources then [] else [Resources]).

(** [requested_enforcement_dimensions]: collected in a [BTreeSet]. *)
Definition requested_enforcement_dimensions (capabilities : CapabilitySet) (resources : ResourceLimits)
    : list CapabilityDimension :=
  dedup (sort_by (fun a b => dimension_rank a <=? dimension_rank b) (requested_list capabilities resources)).

Definition missing_dimensions (dims : gmap CapabilityDimension Claim) (capabilities : CapabilitySet) (resources : ResourceLimits)
    : list CapabilityDimension :=
  List.filter (fun dimension => negb (is_topped dims dimension))
    (requested_enforcement_dimensions capabilities resources).
End Claims.
Arguments Claim L : clear implicits.
Notation Dimensions L := (gmap CapabilityDimension (Claim L)).

(** The two instances of the code and their builders. *)
Notation CapabilityEnforcementEvidence := (Dimensions EnforcementLevel).
Notation CapabilityEnforcementPlan := (Dimensions EnforcementPlanLevel).
Definition enforced (d : CapabilityDimension) (m : string) (e : CapabilityEnforcementEvidence) : CapabilityEnforcementEvidence :=
  record d Enforced m e.
Definition cooperative (d : CapabilityDimension) (m : string) (e : CapabilityEnforcementEvidence) : CapabilityEnforcementEvidence :=
  record d CooperativeLevel m e.
Definition planned (d : CapabilityDimension) (m : string) (p : CapabilityEnforcementPlan) : CapabilityEnforcementPlan :=
  record d Planned m p.
Definition cooperative_plan (d : CapabilityDimension) (m : string) (p : CapabilityEnforcementPlan) : CapabilityEnforcementPlan :=
  record d CooperativePlan m p.

(** ** Lemmas *)
Section Facts.
Context {L : Type} `{LevelLaws L} `{EqDecision L}.

Definition records (l : list (CapabilityDimension * L * string)) (dims : Dimensions L) : Dimensions L :=
  fold_left (fun dims '(d, lvl, m) => record d lvl m dims) l dims.

Lemma record_topped d lvl m (dims : Dimensions L) d' :
  is_topped (record d lvl m dims) d' = true <-> is_topped dims d' = true \/ (d = d' /\ lvl = level_top).
Proof.
  unfold is_topped, record. destruct (decide (d = d')) as [<-|Hne].
  - rewrite lookup_insert_eq. cbn [cl_level]. rewrite bool_decide_eq_true.
    pose proof (level_top_max lvl) as Hmax. destruct (dims !! d) as [c|]; cbn [default cl_level claim_default id]; unfold id; [rewrite bool_decide_eq_true|].
    + destruct (Nat.ltb_spec (level_rank (cl_level c)) (level_rank lvl)) as [Hlt|Hge].
      * split; [auto|]. intros [Hc|[_ ?]]; [|done]. rewrite Hc in Hlt. lia.
      * split; [auto|]. intros [?|[_ ->]]; [done|]. pose proof (level_top_max (cl_level c)). apply level_rank_inj. lia.
    + pose proof (level_top_max level_default).
      destruct (Nat.ltb_spec (level_rank level_default) (level_rank lvl)) as [Hlt|Hge].
      * split; [auto|]. by intros [?|[_ ?]].
      * split; [by intros ?%level_default_not_top|]. intros [?|[_ ->]]; [done|]. apply level_rank_inj. lia.
  - rewrite lookup_insert_ne by done. naive_solver.
Qed.

Lemma records_topped l (dims : Dimensions L) d :
  is_topped (records l dims) d = true <-> is_topped dims d = true \/ exists m, (d, level_top, m) ∈ l.
Proof.
  revert dims. induction l as [|[[d0 lvl] m] l IH]; intros dims; cbn.
  - split; [auto|]. intros [?|[m ?%elem_of_nil]]; done.
  - unfold records in IH. rewrite IH, record_topped. setoid_rewrite elem_of_cons. naive_solver.
Qed.

Lemma missing_nil (dims : Dimensions L) capabilities resources :
  missing_dimensions dims capabilities resources = [] <->
  forall d, d ∈ requested_list capabilities resources -> is_topped dims d = true.
Proof.
  unfold missing_dimensions, requested_enforcement_dimensions. split.
  - intros Hn d Hd. destruct (is_topped dims d) eqn:E; [done|].
    assert (d ∈ @nil CapabilityDimension) as ?%elem_of_nil; [|done]. rewrite <- Hn.
    apply list_elem_of_In, filter_In. split; [|by rewrite E].
    apply list_elem_of_In. by rewrite elem_of_dedup, sort_by_perm.
  - intros Hall. destruct (List.filter _ _) as [|d l] eqn:E; [done|].
    assert (d ∈ d :: l) as Hd by left. rewrite <- E in Hd.
    apply list_elem_of_In, filter_In in Hd as [Hd Hb]. apply list_elem_of_In in Hd.
    rewrite elem_of_dedup, sort_by_perm in Hd. by rewrite (Hall _ Hd) in Hb.
Qed.
End Facts.

Lemma requested_spec capabilities resources d :
  d ∈ requested_list capabilities resources <->
  match d with
  | Models => cap_models capabilities <> []
  | Tools => cap_tools capabilities <> []
  | FilesystemRead => cap_filesystem capabilities <> []
  | FilesystemWrite => exists f, f ∈ cap_filesystem capabilities /\ fc_access f = AccessReadWrite
  | NetworkDimension => True
  | Secrets => cap_secrets capabilities <> []
  | Subprocess => cap_allow_subprocess capabilities = false
  | Resources => limits_is_empty resources = false
  end.
Proof.
  unfold requested_list. rewrite !elem_of_app, list_elem_of_singleton, list_elem_of_bind.
  assert (forall (b : bool) (x : CapabilityDimension), d ∈ (if b then [] else [x]) <-> b = false /\ d = x) as Hif.
  { intros [] x; [|rewrite list_elem_of_singleton; naive_solver]. split; [by intros ?%elem_of_nil|naive_solver]. }
  rewrite !Hif, !bool_decide_eq_false.
  assert ((exists f, d ∈ FilesystemRead :: (if bool_decide (fc_access f = AccessReadWrite) then [FilesystemWrite] else [])
    /\ f ∈ cap_filesystem capabilities) <->
    (d = FilesystemRead /\ cap_filesystem capabilities <> []) \/
    (d = FilesystemWrite /\ exists f, f ∈ cap_filesystem capabilities /\ fc_access f = AccessReadWrite)) as ->.
  { setoid_rewrite elem_of_cons. split.
    - intros (f & [->|Hd] & Hf); [left; split; [done|]; intros E; rewrite E in Hf; by apply elem_of_nil in Hf|].
      case_bool_decide; [apply list_elem_of_singleton in Hd as ->; right; eauto|by apply elem_of_nil in Hd].
    - intros [[-> Hne]|[-> (f & Hf & Ha)]].
      + destruct (cap_filesystem capabilities) as [|f l]; [done|]. exists f. split; [by left|left].
      + exists f. split; [|done]. right. rewrite bool_decide_eq_true_2 by done. left. }
  destruct d; naive_solver.
Qed.

(** ** Properties *)

(** Starting without evidence, a dimension counts as enforced exactly when
    enforcement was recorded for it, whatever else was recorded and in which
    order; and a run has no missing dimension only if the network and every other
    requested dimension were recorded as enforced. *)
Theorem enforcement_needs_evidence (l : list (CapabilityDimension * EnforcementLevel * string)) capabilities resources :
  (forall d, is_topped (records l (∅ : CapabilityEnforcementEvidence)) d = true <-> exists m, (d, Enforced, m) ∈ l) /\
  (missing_dimensions (records l (∅ : CapabilityEnforcementEvidence)) capabilities resources = [] <->
   (exists m, (NetworkDimension, Enforced, m) ∈ l) /\
   (cap_allow_subprocess capabilities = false -> exists m, (Subprocess, Enforced, m) ∈ l) /\
   forall d, d ∈ requested_list capabilities resources -> exists m, (d, Enforced, m) ∈ l).
Proof.
  assert (forall d, is_topped (records l (∅ : CapabilityEnforcementEvidence)) d = true <->
    exists m, (d, Enforced, m) ∈ l) as Htop.
  { intros d. rewrite records_topped. unfold is_topped. rewrite lookup_empty. cbn. naive_solver. }
  split; [done|]. rewrite missing_nil. setoid_rewrite Htop. split; [|naive_solver].
  intros Hall. split_and!; [apply Hall, requested_spec; done| |done].
  intros Hs. by apply Hall, requested_spec.
Qed.
