(* ===== verification/Operation.v ===== *)
(** * Operations, their observations and trace events

    [pvisor-core/src/operation.rs] and the facts of [pvisor-core/src/event.rs].
    Every validation returns the message of the first check that fails. JSON
    values come from [serde_json] and are opaque: the type [Json], the length
    [encoded_len] of an event's encoding and the decoder [from_value] are
    parameters. *)
From stdpp Require Import base tactics list strings gmap sets.
From Stdlib Require Import ZArith Lia Ascii.
From S2P Require Import Prelude RustStr Net Types Execution.
Local Open Scope string_scope.
Local Open Scope Z_scope.

Definition OPERATION_VERSION : Z := 1.
Definition EVENT_VERSION : Z := 5.
Definition MAX_EVENT_BYTES : Z := 1024 * 1024.

(** [Path] on Unix, as the bytes of its [OsStr]. *)
Definition is_absolute (path : string) : bool := starts_with path "/".
Definition has_file_name (path : string) : bool :=
  match last (List.filter (fun c => negb (is_empty c) && negb (bool_decide (c = "."))) (split "/"%char path)) with
  | Some c => negb (bool_decide (c = ".."))
  | None => false
  end.

Definition symbol (name : string) : Result string unit :=
  ensure (negb (is_empty name) && (len name <=? 128)%nat
          && forallb (fun b => is_ascii_alphanumeric b || bool_decide (b ∈ to_bytes "_.-")) (to_bytes name))
    "invalid symbol".

(** [!s.trim().is_empty() && s.len() <= 256]. *)
Definition bounded_text (s : string) : bool := negb (is_empty (trim s)) && (len s <=? 256)%nat.

(** [Iterator::flatten] over an [Option]. *)
Definition opt_list {A} (o : option A) : list A := match o with Some x => [x] | None => [] end.

(** ** Checkpoints, values and outcomes *)
Inductive SnapshotRamStorage := Raw | Compressed.
#[export] Instance ram_storage_eq_dec : EqDecision SnapshotRamStorage.
Proof. solve_decision. Defined.

Record ExecutionCheckpoint := mkExecutionCheckpoint {
  ec_snapshot_id : string;
  ec_store : string;
  ec_source_run_id : string;
  ec_source_execution_id : string;
  ec_created_at_unix_ms : Z;
  ec_ram_storage : SnapshotRamStorage
}.

Definition checkpoint_validate (c : ExecutionCheckpoint) : Result string unit :=
  _ ← ensure ((len (ec_snapshot_id c) =? 64)%nat
              && forallb (fun b => is_ascii_digit b || in_range 97 102 b) (to_bytes (ec_snapshot_id c)))
        "invalid execution checkpoint identity";
  ensure (is_absolute (ec_store c) && (len (ec_store c) <=? 4096)%nat
          && negb (is_empty (trim (ec_source_run_id c))) && (len (ec_source_run_id c) <=? 256)%nat
          && negb (is_empty (trim (ec_source_execution_id c))) && (len (ec_source_execution_id c) <=? 256)%nat
          && (0 <? ec_created_at_unix_ms c))
    "incomplete execution checkpoint binding".

Inductive VmState := VmRunning | VmPaused | VmOffloaded.
#[export] Instance vm_state_eq_dec : EqDecision VmState.
Proof. solve_decision. Defined.

Record VmMemory := mkVmMemory {
  vm_backing_file : string;
  vm_backed_bytes : Z;
  vm_resident_before_bytes : option Z;
  vm_resident_after_bytes : option Z
}.

Inductive Value :=
| ValueRun (state : RunState) (exit_code : option Z)
| ValueVm (state : VmState) (memory : option VmMemory)
| ValueCheckpoint (checkpoint : ExecutionCheckpoint).

Record Binding := mkBinding { bd_backend : string; bd_resource : string; bd_generation : Z; bd_contract : Z }.

Record Context := mkOpContext {
  cx_revision : Z;
  cx_principal : string;
  cx_scope : list string;
  cx_policy : string;
  cx_bindings : gmap string Binding
}.

Definition scope_valid (scope : list string) : bool :=
  negb (bool_decide (scope = [])) && (length scope <=? 16)%nat && forallb bounded_text scope.

Definition context_validate (c : Context) : Result string unit :=
  _ ← ensure (negb (is_empty (trim (cx_principal c))) && negb (is_empty (trim (cx_policy c))))
        "context requires principal and policy";
  _ ← ensure (scope_valid (cx_scope c)) "invalid scope";
  for_each (fun '(name, binding) =>
      ensure (negb (is_empty name) && negb (is_empty (bd_backend binding)) && negb (is_empty (bd_resource binding))
              && (bd_contract binding =? 1)) "invalid resource binding") (map_to_list (cx_bindings c)).

(** [unique_map]: an object whose keys repeat is refused. *)
Definition unique_map {A} (entries : list (string * A)) : Result string (gmap string A) :=
  fold_res (fun (result : gmap string A) '(key, value) =>
      match result !! key with
      | Some _ => Err "duplicate key"
      | None => Ok (<[key := value]> result)
      end) entries ∅.

Inductive Placement := PlaceVm (name : string) | PlaceOverlay (name : string).
#[export] Instance placement_eq_dec : EqDecision Placement.
Proof. solve_decision. Defined.
Definition placement_name (p : Placement) : string := match p with PlaceVm n | PlaceOverlay n => n end.

Record OperationDecision := mkDecision {
  od_id : string;
  od_dimension : CapabilityDimension;
  od_target : string;
  od_action : string;
  od_enforcement_plan : Claim EnforcementPlanLevel
}.

Inductive OperationKind :=
| RunPause
| RunResume
| RunOffload (file : option string)
| RunCheckpoint (request_id : string) (ram_storage : SnapshotRamStorage)
| RunSuspend (request_id : string) (ram_storage : SnapshotRamStorage)
| RunExecute (program : string) (args : list string) (cwd : option string).

Definition kind_name (k : OperationKind) : string :=
  match k with
  | RunExecute _ _ _ => "run.execute"
  | RunPause => "run.pause"
  | RunResume => "run.resume"
  | RunOffload _ => "run.offload"
  | RunCheckpoint _ _ => "run.checkpoint"
  | RunSuspend _ _ => "run.suspend"
  end.

Definition kind_validate (k : OperationKind) : Result string unit :=
  match k with
  | RunCheckpoint request_id _ | RunSuspend request_id _ =>
      ensure (bounded_text request_id) "checkpoint request id must contain 1..256 bytes"
  | RunExecute program _ _ => ensure (negb (is_empty (trim program))) "empty operation program"
  | RunOffload (Some file) =>
      ensure (negb (is_empty file) && (len file <=? 4096)%nat && has_file_name file) "invalid RAM backing path"
  | _ => Ok tt
  end.

Record Operation := mkOperation {
  op_version : Z;
  op_context : Context;
  op_run_id : string;
  op_kind : OperationKind;
  op_placements : list Placement;
  op_rules : list OperationDecision
}.

(** The loop over the rules, with the [BTreeSet] of the identifiers seen. *)
Definition rules_validate (rules : list OperationDecision) : Result string (gset string) :=
  fold_res (fun (ids : gset string) rule =>
      _ ← symbol (od_id rule);
      _ ← ensure (negb (bool_decide (od_id rule ∈ ids))) "duplicate Operation rule";
      _ ← ensure (negb (is_empty (od_target rule)) && negb (is_empty (od_action rule))) "empty Operation rule";
      Ok ({[od_id rule]} ∪ ids)) rules ∅.

Definition operation_validate (o : Operation) : Result string unit :=
  _ ← ensure (op_version o =? OPERATION_VERSION) "unsupported Operation version";
  _ ← ensure (negb (is_empty (op_run_id o))) "empty Run identity";
  _ ← kind_validate (op_kind o);
  _ ← context_validate (op_context o);
  _ ← ensure (length (op_placements o) <=? 32)%nat "too many placements";
  _ ← for_each (fun p => ensure (negb (is_empty (trim (placement_name p)))) "empty placement name") (op_placements o);
  _ ← ensure (length (op_rules o) <=? 1024)%nat "too many Operation rules";
  _ ← rules_validate (op_rules o);
  Ok tt.

(** ** Observations *)
Record RuleCounters := mkRuleCounters {
  rc_allowed : option Z; rc_succeeded : option Z; rc_denied : option Z; rc_failed : option Z;
  rc_effects : option Z; rc_uncertain_effects : option Z; rc_bytes_read : option Z; rc_bytes_written : option Z
}.
Record PathOperationCounters := mkPathCounters {
  pc_hits : Z; pc_allowed : Z; pc_succeeded : Z; pc_denied : Z; pc_failed : Z;
  pc_effects : Z; pc_uncertain_effects : Z; pc_bytes_read : Z; pc_bytes_written : Z
}.
Record FilesystemObservation := mkFsObservation {
  fo_paths : gmap string (gmap string PathOperationCounters);
  fo_rules : gmap string PathOperationCounters;
  fo_overflow_hits : Z
}.

(** All counters of an observation, in iteration order. *)
Definition all_counters (f : FilesystemObservation) : list PathOperationCounters :=
  (snd <$> map_to_list (fo_paths f) ≫= fun '(_, operations) => map_to_list operations)
  ++ (snd <$> map_to_list (fo_rules f)).

Definition counters_validate (c : PathOperationCounters) : Result string unit :=
  _ ← ensure (saturating_add (pc_allowed c) (pc_denied c) =? pc_hits c) "filesystem hit counts do not reconcile";
  _ ← ensure (saturating_add (pc_succeeded c) (pc_failed c) =? pc_allowed c) "filesystem outcomes do not reconcile";
  ensure ((pc_effects c <=? pc_succeeded c) && (pc_uncertain_effects c <=? pc_failed c))
    "filesystem effect counts exceed outcomes".

Section Json.
Context {Json : Type}.

Inductive Failure :=
| FailureFailed (domain code : string) (effects : Json)
| FailureDenied (reason : string)
| FailureUnsupported (reason : string)
| FailureUnknown (reason : string) (known_effects : Json).

Inductive Outcome := Success (value : Value) | OutcomeError (failure : Failure).

Definition outcome_validate (o : Outcome) : Result string unit :=
  match o with
  | Success (ValueCheckpoint checkpoint) => checkpoint_validate checkpoint
  | Success (ValueRun state _) => ensure (is_terminal state) "run result requires a terminal state"
  | Success (ValueVm state memory) =>
      _ ← ensure (Bool.eqb (bool_decide (state = VmOffloaded)) (negb (is_none memory)))
            "offloaded VM requires a RAM report; pause/resume must not carry one";
      match memory with
      | Some memory => ensure (is_absolute (vm_backing_file memory) && (0 <? vm_backed_bytes memory)) "invalid live RAM report"
      | None => Ok tt
      end
  | OutcomeError _ => Ok tt
  end.

Record OperationObservation := mkObservation {
  oo_outcome : Outcome;
  oo_rules : gmap string RuleCounters;
  oo_filesystem : option FilesystemObservation
}.

(** The result a kind of operation can have. *)
Definition value_matches (k : OperationKind) (v : Value) : bool :=
  match k, v with
  | RunExecute _ _ _, ValueRun _ _ => true
  | RunCheckpoint _ _, ValueCheckpoint _ => true
  | RunSuspend _ _, ValueCheckpoint _ => true
  | RunPause, ValueVm VmPaused _ => true
  | RunResume, ValueVm VmRunning _ => true
  | RunOffload _, ValueVm VmOffloaded _ => true
  | _, _ => false
  end.

Definition requested_storage (k : OperationKind) : option SnapshotRamStorage :=
  match k with RunCheckpoint _ r | RunSuspend _ r => Some r | _ => None end.

Definition success_validate (plan : Operation) (value : Value) : Result string unit :=
  _ ← ensure (value_matches (op_kind plan) value) "outcome does not match operation primitive";
  match value with
  | ValueCheckpoint checkpoint =>
      _ ← ensure (bool_decide (ec_source_run_id checkpoint = op_run_id plan)) "checkpoint belongs to another Run";
      match requested_storage (op_kind plan) with
      | Some ram_storage =>
          ensure (bool_decide (ec_ram_storage checkpoint = ram_storage)) "checkpoint RAM encoding mismatch"
      | None => Ok tt
      end
  | _ => Ok tt
  end.

Definition rule_ids (plan : Operation) : gset string := list_to_set (od_id <$> op_rules plan).

Definition keys_known {A} (ids : gset string) (m : gmap string A) : bool :=
  forallb (fun kv => bool_decide (kv.1 ∈ ids)) (map_to_list m).

Definition observation_validate (o : OperationObservation) (plan : Operation) : Result string unit :=
  _ ← operation_validate plan;
  _ ← outcome_validate (oo_outcome o);
  _ ← match oo_outcome o with Success value => success_validate plan value | _ => Ok tt end;
  let ids := rule_ids plan in
  _ ← ensure (keys_known ids (oo_rules o)) "observation references an unknown rule";
  _ ← ensure (size (oo_rules o) =? size ids)%nat "observation omits a Operation rule";
  match oo_filesystem o with
  | None => Ok tt
  | Some filesystem =>
      _ ← ensure (size (fo_paths filesystem) <=? 8192)%nat "too many observed paths";
      _ ← ensure (keys_known ids (fo_rules filesystem)) "filesystem observation references an unknown rule";
      for_each counters_validate (all_counters filesystem)
  end.

(** ** Suspension receipts *)
Record ExecutionSuspension := mkSuspension { es_request_id : string; es_checkpoint : ExecutionCheckpoint }.

(** The fields of [RunResult] that [from_result] reads. *)
Record RunResult := mkRunResult {
  rr_run_id : string;
  rr_execution_id : string;
  rr_state : RunState;
  rr_exit_code : option Z;
  rr_failure : option string;
  rr_value : option Json
}.

Definition suspension_from_result (from_value : Json -> option ExecutionSuspension) (result : RunResult)
    : Result string ExecutionSuspension :=
  _ ← ensure (bool_decide (rr_state result = Hibernated) && is_none (rr_exit_code result) && is_none (rr_failure result))
        "hibernation requires native termination without a guest exit or failure";
  value ← ok_or (rr_value result) "missing suspension receipt";
  receipt ← ok_or (from_value value) "invalid suspension receipt";
  _ ← checkpoint_validate (es_checkpoint receipt);
  _ ← ensure (bounded_text (es_request_id receipt)
              && bool_decide (ec_source_run_id (es_checkpoint receipt) = rr_run_id result)
              && bool_decide (ec_source_execution_id (es_checkpoint receipt) = rr_execution_id result))
        "suspension receipt belongs to another Run/Execution or request";
  Ok receipt.

(** ** Trace events *)
Inductive EventLevel := LevelTrace | LevelDebug | LevelInfo | LevelWarn | LevelError.
Inductive Granularity := Milestone | GrainOperation | Detail.
Inductive Origin := OriginBackend | OriginPolicy | OriginReplay | OriginRuntime.

Inductive Fact :=
| FactContext (definition : Context)
| FactRequested (operation : Operation)
| FactRewritten (before after : Operation)
| FactPlaced (operation : Operation)
| FactDispatched (backend run_id : string)
| FactCompleted (run_id : string) (outcome : Outcome) (origin : Origin)
| FactObservation (domain name : string) (version : Z) (payload : Json).

Record Event := mkEvent {
  ev_version : Z;
  ev_id : string;
  ev_trace_id : string;
  ev_producer : string;
  ev_observed_at_unix_ms : Z;
  ev_scope : list string;
  ev_context : option string;
  ev_operation : option string;
  ev_caused_by : list string;
  ev_level : EventLevel;
  ev_granularity : Granularity;
  ev_data : Fact
}.

Definition fact_domain (f : Fact) : string :=
  match f with
  | FactObservation domain _ _ _ => domain
  | FactContext _ => "execution"
  | _ => "run"
  end.

Definition event_name (e : Event) : string :=
  match ev_data e with
  | FactObservation _ name _ _ => name
  | FactContext _ => "context"
  | FactRequested _ => "requested"
  | FactRewritten _ _ => "rewritten"
  | FactPlaced _ => "placed"
  | FactDispatched _ _ => "dispatched"
  | FactCompleted _ _ _ => "completed"
  end.

Definition observation_payload (e : Event) : option Json :=
  match ev_data e with FactObservation _ _ _ payload => Some payload | _ => None end.

(** The loop over [caused_by] with its [BTreeSet]. *)
Definition causes_validate (e : Event) : Result string (gset string) :=
  fold_res (fun (seen : gset string) id =>
      _ ← ensure (negb (is_empty id) && (len id <=? 256)%nat && negb (bool_decide (id = ev_id e))
                  && negb (bool_decide (id ∈ seen))) "invalid causal reference";
      Ok ({[id]} ∪ seen)) (ev_caused_by e) ∅.

Definition fact_validate (e : Event) : Result string unit :=
  match ev_data e with
  | FactContext definition =>
      _ ← context_validate definition;
      ensure (negb (is_none (ev_context e)) && is_none (ev_operation e)
              && bool_decide (ev_scope e = cx_scope definition)) "invalid context fact"
  | FactRequested operation | FactPlaced operation => operation_validate operation
  | FactRewritten before after =>
      _ ← operation_validate before;
      _ ← operation_validate after;
      _ ← ensure (bool_decide (op_run_id before = op_run_id after)
                  && bool_decide (kind_name (op_kind before) = kind_name (op_kind after)))
            "rewrite changes operation identity or kind";
      ensure (bool_decide (op_placements before = op_placements after)) "rewrite changes placement"
  | FactDispatched backend run_id =>
      _ ← ensure (negb (is_empty (trim backend))) "invalid backend";
      ensure (negb (is_empty run_id)) "empty Run identity"
  | FactCompleted run_id outcome _ =>
      _ ← ensure (negb (is_empty run_id)) "empty Run identity";
      outcome_validate outcome
  | FactObservation domain name version _ =>
      _ ← symbol domain;
      _ ← symbol name;
      ensure (0 <? version) "invalid observation version"
  end.

Definition is_operation_fact (f : Fact) : bool :=
  match f with FactContext _ | FactObservation _ _ _ _ => false | _ => true end.

(** [Event::validate]; [encoded_len] is the length of [serde_json::to_vec], if it succeeds. *)
Definition event_validate (encoded_len : Event -> option Z) (e : Event) : Result string unit :=
  _ ← ensure (ev_version e =? EVENT_VERSION) "unsupported trace event version";
  _ ← for_each (fun id => ensure (bounded_text id) "invalid event identity") [ev_id e; ev_trace_id e; ev_producer e];
  _ ← ensure (scope_valid (ev_scope e)) "invalid event scope";
  _ ← ensure (length (ev_caused_by e) <=? 64)%nat "too many causal references";
  _ ← causes_validate e;
  _ ← for_each (fun id => ensure (negb (is_empty id) && (len id <=? 256)%nat) "invalid execution reference")
        (opt_list (ev_context e) ++ opt_list (ev_operation e));
  _ ← fact_validate e;
  _ ← ensure (negb (is_operation_fact (ev_data e)) || (negb (is_none (ev_operation e)) && negb (is_none (ev_context e))))
        "operation fact requires operation and context";
  n ← ok_or (encoded_len e) "encoding failed";
  ensure (n <=? MAX_EVENT_BYTES) "event exceeds size limit".
End Json.
Arguments Failure Json : clear implicits.
Arguments Outcome Json : clear implicits.
Arguments Fact Json : clear implicits.
Arguments Event Json : clear implicits.
Arguments OperationObservation Json : clear implicits.
Arguments RunResult Json : clear implicits.

(** ** Lemmas *)

Lemma fold_res_set {E A} (f : gset string -> A -> Result E (gset string)) (key : A -> string) l s s' :
  (forall s x s', f s x = Ok s' -> key x ∉ s /\ s' = {[key x]} ∪ s) ->
  fold_res f l s = Ok s' -> NoDup (key <$> l) /\ (forall x, x ∈ l -> key x ∉ s) /\ s' = list_to_set (key <$> l) ∪ s.
Proof.
  intros Hf. revert s. induction l as [|x l IH]; intros s; cbn.
  - intros [= <-]. split_and!; [constructor|set_solver|set_solver].
  - intros (s1 & (Hx & ->)%Hf & (Hnd & Hout & ->)%IH)%bind_Ok. split_and!.
    + constructor; [|done]. intros (y & Heq & Hy)%list_elem_of_fmap. apply (Hout _ Hy). rewrite <- Heq. set_solver.
    + intros y [->|Hy]%elem_of_cons; [done|]. specialize (Hout _ Hy). set_solver.
    + set_solver.
Qed.

Lemma rules_validate_NoDup rules ids : rules_validate rules = Ok ids -> NoDup (od_id <$> rules).
Proof.
  intros H. eapply (fold_res_set _ od_id) in H as [H _]; [exact H|].
  intros s x s' (? & _ & Hx)%bind_Ok. apply ensure_bind_Ok in Hx as [Hn%negb_true_iff Hx].
  apply ensure_bind_Ok in Hx as [_ [= <-]]. apply bool_decide_eq_false in Hn. done.
Qed.

Lemma operation_rules_NoDup o : operation_validate o = Ok tt -> NoDup (od_id <$> op_rules o).
Proof.
  unfold operation_validate.
  intros (? & _ & (? & _ & (? & _ & (? & _ & (? & _ & (? & _ & (? & _ & (ids & Hr & _)%bind_Ok)%bind_Ok)%bind_Ok)%bind_Ok)%bind_Ok)%bind_Ok)%bind_Ok)%bind_Ok.
  by eapply rules_validate_NoDup.
Qed.

Lemma keys_known_spec {A} ids (m : gmap string A) : keys_known ids m = true <-> dom m ⊆ ids.
Proof.
  unfold keys_known. rewrite forallb_forall. split.
  - intros H k Hk. apply elem_of_dom in Hk as [x Hx].
    specialize (H (k, x)). cbn in H. rewrite bool_decide_eq_true in H. apply H.
    apply list_elem_of_In. by apply elem_of_map_to_list.
  - intros H [k x] Hk%list_elem_of_In%elem_of_map_to_list. cbn. apply bool_decide_eq_true, H. by eapply elem_of_dom_2.
Qed.

(** Counting: known keys and the right number of them are all the keys. *)
Lemma keys_exact {A} ids (m : gmap string A) :
  keys_known ids m = true -> size m = size ids -> dom m = ids.
Proof.
  rewrite keys_known_spec. intros Hsub Hsz. rewrite <- size_dom in Hsz.
  apply set_eq. intros k. split; [apply Hsub|]. intros Hk. destruct (decide (k ∈ dom m)) as [|Hn]; [done|].
  assert (size (dom m) < size ids)%nat; [|lia]. apply subset_size. split; [done|]. set_solver.
Qed.

Lemma counters_spec c :
  counters_validate c = Ok tt <->
  saturating_add (pc_allowed c) (pc_denied c) = pc_hits c /\
  saturating_add (pc_succeeded c) (pc_failed c) = pc_allowed c /\
  pc_effects c <= pc_succeeded c /\ pc_uncertain_effects c <= pc_failed c.
Proof.
  unfold counters_validate. rewrite !ensure_bind_Ok, ensure_Ok, !Z.eqb_eq, andb_true_iff, !Z.leb_le. tauto.
Qed.

Lemma elem_of_all_counters f c :
  c ∈ all_counters f <->
  (exists path ops op, fo_paths f !! path = Some ops /\ ops !! op = Some c) \/ (exists id, fo_rules f !! id = Some c).
Proof.
  unfold all_counters. rewrite elem_of_app, !list_elem_of_fmap. split.
  - intros [([op c'] & -> & ([path ops] & Hin & Hp)%list_elem_of_bind)|([id c'] & -> & Hin)].
    + left. exists path, ops, op. by rewrite <- !elem_of_map_to_list.
    + right. exists id. by rewrite <- elem_of_map_to_list.
  - intros [(path & ops & op & Hp & Ho)|(id & Hi)].
    + left. exists (op, c). split; [done|]. apply list_elem_of_bind. exists (path, ops).
      by rewrite !elem_of_map_to_list.
    + right. exists (id, c). by rewrite elem_of_map_to_list.
Qed.

(** ** Properties *)

(** A validated observation accounts for every rule of the plan and for no
    other, each rule identifier of the plan is unique, a reported checkpoint is
    of the planned run with the requested RAM encoding, and the filesystem
    counters reconcile: below the saturation point, hits are the allowed plus
    the denied ones and allowed are the succeeded plus the failed ones. *)
Theorem observation_accounts_for_plan {Json} (o : OperationObservation Json) plan :
  observation_validate o plan = Ok tt ->
  dom (oo_rules o) = rule_ids plan /\ NoDup (od_id <$> op_rules plan) /\
  (forall checkpoint, oo_outcome o = Success (ValueCheckpoint checkpoint) ->
     ec_source_run_id checkpoint = op_run_id plan /\
     requested_storage (op_kind plan) = Some (ec_ram_storage checkpoint)) /\
  (forall f c, oo_filesystem o = Some f -> c ∈ all_counters f ->
     dom (fo_rules f) ⊆ rule_ids plan /\
     pc_effects c <= pc_succeeded c /\ pc_uncertain_effects c <= pc_failed c /\
     (pc_hits c < u64_max -> pc_hits c = pc_allowed c + pc_denied c) /\
     (pc_allowed c < u64_max -> pc_allowed c = pc_succeeded c + pc_failed c)).
Proof.
  unfold observation_validate. intros ([] & Hplan & (? & _ & ([] & Hsucc & H)%bind_Ok)%bind_Ok)%bind_Ok.
  apply ensure_bind_Ok in H as [Hknown H]. apply ensure_bind_Ok in H as [Hsize%Nat.eqb_eq H].
  split_and!; [by apply keys_exact|by apply operation_rules_NoDup| |].
  - intros checkpoint Ho. rewrite Ho in Hsucc. unfold success_validate in Hsucc.
    apply ensure_bind_Ok in Hsucc as [Hm Hs]. apply ensure_bind_Ok in Hs as [Hr%bool_decide_eq_true Hs].
    split; [done|]. destruct (op_kind plan); cbn in Hm, Hs |- *; try done;
      apply ensure_Ok, bool_decide_eq_true in Hs; by rewrite Hs.
  - intros f c Hf Hc. rewrite Hf in H. apply ensure_bind_Ok in H as [_ H].
    apply ensure_bind_Ok in H as [Hk%keys_known_spec H]. split; [done|].
    specialize (proj1 (for_each_Ok _ _ _) H _ Hc) as Hv. apply counters_spec in Hv as (H1 & H2 & H3 & H4).
    unfold saturating_add in *. split_and!; [done..| |]; lia.
Qed.

Lemma causes_valid {Json} (e : Event Json) ids :
  causes_validate e = Ok ids -> NoDup (ev_caused_by e) /\ ev_id e ∉ ev_caused_by e.
Proof.
  intros Hc.
  assert (forall l s s', fold_res (fun (seen : gset string) id =>
      _ ← ensure (negb (is_empty id) && (len id <=? 256)%nat && negb (bool_decide (id = ev_id e))
                  && negb (bool_decide (id ∈ seen))) "invalid causal reference";
      Ok ({[id]} ∪ seen)) l s = Ok s' -> ev_id e ∉ l) as Hne.
    { induction l as [|y l IH]; intros s s'; [intros _ ?%elem_of_nil; done|]. cbn.
      intros (s1 & Hx & Hl)%bind_Ok. apply ensure_bind_Ok in Hx as [Hx _]. rewrite !andb_true_iff, !negb_true_iff in Hx.
      destruct Hx as [[_ Hx%bool_decide_eq_false] _]. apply not_elem_of_cons. split; [congruence|by eapply IH]. }
    split; [|by eapply Hne]. eapply (fold_res_set _ id) in Hc as [Hc _]; [by rewrite list_fmap_id in Hc|].
    intros s y s' Hx. apply ensure_bind_Ok in Hx as [Hx [= <-]]. rewrite !andb_true_iff, !negb_true_iff in Hx.
    destruct Hx as [_ Hx%bool_decide_eq_false]. done.
Qed.

(** The parts of a valid event the journal relies on. *)
Lemma event_validate_Ok {Json} (encoded_len : Event Json -> option Z) e u :
  event_validate encoded_len e = Ok u ->
  NoDup (ev_caused_by e) /\ ev_id e ∉ ev_caused_by e /\ exists n, encoded_len e = Some n /\ n <= MAX_EVENT_BYTES.
Proof.
  unfold event_validate. intros H. do 4 apply bind_Ok in H as (? & _ & H). apply bind_Ok in H as (ids & Hc & H).
  do 3 apply bind_Ok in H as (? & _ & H). apply bind_Ok in H as (n & Hn & H). apply ensure_Ok in H.
  destruct (causes_valid _ _ Hc). split_and!; [done|done|]. exists n. destruct (encoded_len e); [|done].
  injection Hn as ->. split; [done|lia].
Qed.

(** A validated event never causes itself and names each cause once; a
    validated rewrite keeps the run, the kind of the operation and where it is
    placed; and a fact about an operation names the operation and its context. *)
Theorem validated_event_identity {Json} (encoded_len : Event Json -> option Z) e :
  event_validate encoded_len e = Ok tt ->
  NoDup (ev_caused_by e) /\ ev_id e ∉ ev_caused_by e /\
  (forall before after, ev_data e = FactRewritten before after ->
     op_run_id before = op_run_id after /\ kind_name (op_kind before) = kind_name (op_kind after) /\
     op_placements before = op_placements after) /\
  (is_operation_fact (ev_data e) = true -> is_Some (ev_operation e) /\ is_Some (ev_context e)).
Proof.
  unfold event_validate.
  intros (? & _ & (? & _ & (? & _ & (? & _ & (ids & Hc & (? & _ & ([] & Hf & H)%bind_Ok)%bind_Ok)%bind_Ok)%bind_Ok)%bind_Ok)%bind_Ok)%bind_Ok.
  apply ensure_bind_Ok in H as [Hop _].
  destruct (causes_valid _ _ Hc) as [Hnd Hself].
  split_and!; [done|done| |].
  - intros before after Hd. unfold fact_validate in Hf. rewrite Hd in Hf.
    apply bind_Ok in Hf as (? & _ & Hf). apply bind_Ok in Hf as (? & _ & Hf).
    apply ensure_bind_Ok in Hf as [Hid Hf]. apply andb_true_iff in Hid as [H1 H2].
    apply bool_decide_eq_true in H1, H2. apply ensure_Ok, bool_decide_eq_true in Hf. done.
  - intros Hd. rewrite Hd in Hop. cbn in Hop. apply andb_true_iff in Hop as [H1 H2].
    by destruct (ev_operation e), (ev_context e).
Qed.

(** ** Evaluated instances *)
Definition sample_operation : Operation :=
  mkOperation 1 (mkOpContext 1 "root" ["run"] "default" ∅) "run-1" (RunCheckpoint "req" Raw) [PlaceVm "vm"]
    [mkDecision "fs.deny.0" FilesystemRead "secret" "deny" (mkClaim Planned ["fuse"])].
Definition sample_checkpoint : ExecutionCheckpoint :=
  mkExecutionCheckpoint "0123456789abcdef0123456789abcdef0123456789abcdef0123456789abcdef" "/store" "run-1" "exec-1" 7 Raw.
Definition sample_counters : PathOperationCounters := mkPathCounters 3 2 1 1 1 1 0 10 0.
Definition sample_observation : OperationObservation unit :=
  mkObservation (Success (ValueCheckpoint sample_checkpoint))
    {["fs.deny.0" := mkRuleCounters None None (Some 1) None None None None None]}
    (Some (mkFsObservation {["secret" := {["open" := sample_counters]}]} ∅ 0)).
Definition sample_event : Event unit :=
  mkEvent 5 "e2" "t" "runtime" 7 ["run"] (Some "c1") (Some "o1") ["e1"] LevelInfo Milestone
    (FactRewritten sample_operation sample_operation).

Lemma observation_accounts_for_plan_witness :
  observation_validate sample_observation sample_operation = Ok tt /\
  dom (oo_rules sample_observation) = rule_ids sample_operation.
Proof.
  assert (observation_validate sample_observation sample_operation = Ok tt) as H by (vm_compute; reflexivity).
  split; [exact H|]. exact (proj1 (observation_accounts_for_plan _ _ H)).
Defined.

Lemma validated_event_identity_witness :
  event_validate (fun _ => Some 100) sample_event = Ok tt /\ ev_id sample_event ∉ ev_caused_by sample_event.
Proof.
  assert (event_validate (fun _ => Some 100) sample_event = Ok tt) as H by (vm_compute; reflexivity).
  split; [exact H|]. exact (proj1 (proj2 (validated_event_identity _ _ H))).
Defined.
