(* ===== verification/Observation.v ===== *)
(** * Memory and CPU observations

    [pvisor-core/src/memory.rs] and [pvisor-core/src/cpu.rs]: what a probe may
    report, sums of resident memory and CPU usage over an interval. Counters are
    64-bit; the additions and products are checked against their widths. *)
From stdpp Require Import base tactics list strings gmap sets.
From Stdlib Require Import ZArith Lia Ascii.
From S2P Require Import Prelude RustStr Execution.
Local Open Scope string_scope.
Local Open Scope Z_scope.

(** [while !error.is_char_boundary(end) { end -= 1 }]. *)
Fixpoint boundary_below (s : string) (i : nat) : nat :=
  match i with
  | O => O
  | S j => if is_char_boundary s i then i else boundary_below s j
  end.

(** [String::truncate]. *)
Definition truncate (s : string) (n : nat) : string := of_bytes (take n (to_bytes s)).

Definition truncate_error (error : string) : string :=
  truncate error (boundary_below error (Nat.min (len error) 1024)).

(** [!error.is_empty() && error.len() <= 1024]. *)
Definition error_valid (error : string) : bool := negb (is_empty error) && (len error <=? 1024)%nat.

Inductive MemoryObservation (T : Type) := MemMeasured (usage : T) | MemUnavailable (error : string).
Arguments MemMeasured {T} usage.
Arguments MemUnavailable {T} error.

(** [from_result]; an [anyhow::Error] is the text it formats to. *)
Definition from_result {T} (result : Result string T) : MemoryObservation T :=
  match result with
  | Ok usage => MemMeasured usage
  | Err error =>
      let error := if is_empty error then "memory probe failed" else error in
      MemUnavailable (truncate_error error)
  end.

Definition validate_with {T} (validate : T -> Result string unit) (o : MemoryObservation T) : Result string unit :=
  match o with
  | MemMeasured usage => validate usage
  | MemUnavailable error => ensure (error_valid error) "invalid memory probe error"
  end.

(** ** Resident memory *)
Record ResidentMemory := mkResident {
  rm_mapped_bytes : Z;
  rm_rss_bytes : Z;
  rm_pss_bytes : Z;
  rm_private_clean_bytes : Z;
  rm_private_dirty_bytes : Z;
  rm_shared_clean_bytes : Z;
  rm_shared_dirty_bytes : Z;
  rm_swap_bytes : Z;
  rm_swap_pss_bytes : Z;
  rm_private_hugetlb_bytes : Z;
  rm_shared_hugetlb_bytes : Z
}.
#[export] Instance resident_eq_dec : EqDecision ResidentMemory.
Proof. solve_decision. Defined.

Definition resident_validate (m : ResidentMemory) : Result string unit :=
  let resident :=
    (n ← checked_add (rm_private_clean_bytes m) (rm_private_dirty_bytes m);
     n ← checked_add n (rm_shared_clean_bytes m); checked_add n (rm_shared_dirty_bytes m)) in
  let accounted :=
    (n ← checked_add (rm_rss_bytes m) (rm_swap_bytes m);
     n ← checked_add n (rm_private_hugetlb_bytes m); checked_add n (rm_shared_hugetlb_bytes m)) in
  ensure (bool_decide (resident = Some (rm_rss_bytes m)) && (rm_pss_bytes m <=? rm_rss_bytes m)
          && match accounted with Some n => n <=? rm_mapped_bytes m | None => false end
          && (rm_swap_pss_bytes m <=? rm_swap_bytes m))
    "inconsistent resident memory counters".

Definition resident_checked_add (a b : ResidentMemory) : option ResidentMemory :=
  mapped ← checked_add (rm_mapped_bytes a) (rm_mapped_bytes b);
  rss ← checked_add (rm_rss_bytes a) (rm_rss_bytes b);
  pss ← checked_add (rm_pss_bytes a) (rm_pss_bytes b);
  private_clean ← checked_add (rm_private_clean_bytes a) (rm_private_clean_bytes b);
  private_dirty ← checked_add (rm_private_dirty_bytes a) (rm_private_dirty_bytes b);
  shared_clean ← checked_add (rm_shared_clean_bytes a) (rm_shared_clean_bytes b);
  shared_dirty ← checked_add (rm_shared_dirty_bytes a) (rm_shared_dirty_bytes b);
  swap ← checked_add (rm_swap_bytes a) (rm_swap_bytes b);
  swap_pss ← checked_add (rm_swap_pss_bytes a) (rm_swap_pss_bytes b);
  private_hugetlb ← checked_add (rm_private_hugetlb_bytes a) (rm_private_hugetlb_bytes b);
  shared_hugetlb ← checked_add (rm_shared_hugetlb_bytes a) (rm_shared_hugetlb_bytes b);
  Some (mkResident mapped rss pss private_clean private_dirty shared_clean shared_dirty swap swap_pss
          private_hugetlb shared_hugetlb).

(** ** Probes *)
Record ProcessMemory := mkProcessMemory { pm_pid : Z; pm_start_time_ticks : Z; pm_process : ResidentMemory }.
Definition process_validate (p : ProcessMemory) : Result string unit :=
  _ ← ensure ((0 <? pm_pid p) && (0 <? pm_start_time_ticks p) && (0 <? rm_mapped_bytes (pm_process p)))
        "invalid supervisor process identity or mappings";
  resident_validate (pm_process p).

Record SystemMemory := mkSystemMemory {
  sm_host_boot_id : string;
  sm_total_bytes : Z; sm_available_bytes : Z; sm_free_bytes : Z; sm_cached_bytes : Z;
  sm_buffers_bytes : Z; sm_slab_bytes : Z; sm_swap_total_bytes : Z; sm_swap_free_bytes : Z
}.
Definition system_validate (m : SystemMemory) : Result string unit :=
  _ ← ensure ((len (sm_host_boot_id m) =? 36)%nat
              && forallb id (imap (fun i byte =>
                   if bool_decide (i ∈ [8; 13; 18; 23]%nat) then bool_decide (byte = "-"%char)
                   else is_ascii_hexdigit byte) (to_bytes (sm_host_boot_id m))))
        "invalid host boot identity";
  ensure ((0 <? sm_total_bytes m)
          && forallb (fun v => v <=? sm_total_bytes m)
               [sm_available_bytes m; sm_free_bytes m; sm_cached_bytes m; sm_buffers_bytes m; sm_slab_bytes m]
          && (sm_swap_free_bytes m <=? sm_swap_total_bytes m))
    "invalid system memory observation".

Inductive MemoryLimit := Unlimited | LimitBytes (n : Z).
Record CgroupMemory := mkCgroup {
  cg_directory : string;
  cg_device : Z; cg_inode : Z; cg_current_bytes : Z;
  cg_peak_bytes : option Z; cg_max : MemoryLimit; cg_high : MemoryLimit; cg_swap_current_bytes : option Z;
  cg_stat : gmap string Z; cg_events : gmap string Z
}.

(** The closure [valid] of [CgroupMemory::validate]. *)
Definition cgroup_counters_valid (counters : gmap string Z) (max : nat) : bool :=
  negb (bool_decide (counters = ∅)) && (size counters <=? max)%nat
  && forallb (fun kv => negb (is_empty kv.1) && (len kv.1 <=? 64)%nat
       && forallb (fun b => is_ascii_lowercase b || is_ascii_digit b || bool_decide (b = "_"%char)) (to_bytes kv.1))
       (map_to_list counters).

Definition cgroup_validate (c : CgroupMemory) : Result string unit :=
  _ ← ensure ((0 <? cg_inode c) && (len (cg_directory c) <=? 4096)%nat && negb (contains (chr 0) (cg_directory c))
              && starts_with (cg_directory c) "/"
              && negb (existsb (fun part => bool_decide (part = "..")) (split "/"%char (cg_directory c))))
        "invalid cgroup memory scope";
  ensure (cgroup_counters_valid (cg_stat c) 256 && bool_decide (is_Some (cg_stat c !! "anon"))
          && bool_decide (is_Some (cg_stat c !! "file")) && cgroup_counters_valid (cg_events c) 32)
    "invalid cgroup memory counters".

Record NodeMemorySample := mkNodeSample {
  ns_sampled_at_unix_ms : Z;
  ns_supervisor : MemoryObservation ProcessMemory;
  ns_system : MemoryObservation SystemMemory;
  ns_cgroup : MemoryObservation CgroupMemory
}.
Definition node_sample_validate (s : NodeMemorySample) : Result string unit :=
  _ ← ensure (0 <? ns_sampled_at_unix_ms s) "invalid node memory sample time";
  _ ← validate_with process_validate (ns_supervisor s);
  _ ← validate_with system_validate (ns_system s);
  validate_with cgroup_validate (ns_cgroup s).

Record NativeVmMemory := mkNativeVm {
  nv_pid : Z; nv_start_time_ticks : Z;
  nv_process : ResidentMemory; nv_guest_ram : ResidentMemory; nv_non_ram : ResidentMemory
}.
Definition native_vm_validate (m : NativeVmMemory) : Result string unit :=
  _ ← ensure ((0 <? nv_pid m) && (0 <? nv_start_time_ticks m) && (0 <? rm_mapped_bytes (nv_guest_ram m)))
        "invalid native VM memory identity or unmapped RAM";
  _ ← resident_validate (nv_process m);
  _ ← resident_validate (nv_guest_ram m);
  _ ← resident_validate (nv_non_ram m);
  ensure (bool_decide (resident_checked_add (nv_guest_ram m) (nv_non_ram m) = Some (nv_process m)))
    "native memory partitions do not match process counters".

(** A sample of a run: one usage or one error, for memory and for CPU. *)
Record RunSample (U : Type) := mkRunSample {
  rs_run_id : string; rs_execution_id : string; rs_sampled_at_unix_ms : Z;
  rs_usage : option U; rs_error : option string
}.
Arguments mkRunSample {U}.
Arguments rs_run_id {U}.
Arguments rs_execution_id {U}.
Arguments rs_sampled_at_unix_ms {U}.
Arguments rs_usage {U}.
Arguments rs_error {U}.
Definition run_sample_validate {U} (validate : U -> Result string unit) (s : RunSample U) : Result string unit :=
  _ ← ensure (negb (is_empty (rs_run_id s)) && negb (is_empty (rs_execution_id s))
              && (len (rs_run_id s) <=? 256)%nat && (len (rs_execution_id s) <=? 256)%nat
              && (0 <? rs_sampled_at_unix_ms s)) "invalid sample identity";
  match rs_usage s, rs_error s with
  | Some usage, None => validate usage
  | None, Some error => ensure (error_valid error) "invalid probe error"
  | _, _ => Err "sample requires exactly one usage or error"
  end.
Definition run_memory_validate : RunSample NativeVmMemory -> Result string unit := run_sample_validate native_vm_validate.

(** ** CPU usage *)
Record ProcessCpuUsage := mkCpu {
  cpu_pid : Z; cpu_start_time_ticks : Z; cpu_clock_ticks_per_second : Z; cpu_sampled_monotonic_ns : Z; cpu_threads : Z;
  cpu_user_time_ticks : Z; cpu_system_time_ticks : Z; cpu_guest_time_ticks : Z
}.
Record CpuIntervalUsage := mkInterval { ci_elapsed_monotonic_ns : Z; ci_total_cpu_time_ns : Z; ci_cpu_millis : Z }.

Definition total_ticks (c : ProcessCpuUsage) : Result string Z :=
  ok_or (checked_add (cpu_user_time_ticks c) (cpu_system_time_ticks c)) "CPU counter overflow".

Definition cpu_validate (c : ProcessCpuUsage) : Result string unit :=
  _ ← ensure ((0 <? cpu_pid c) && (0 <? cpu_start_time_ticks c) && (0 <? cpu_clock_ticks_per_second c)
              && (0 <? cpu_sampled_monotonic_ns c) && (0 <? cpu_threads c)) "invalid CPU observation identity/clock";
  _ ← total_ticks c;
  Ok tt.

(** [u64::try_from(u128)]. *)
Definition u64_try_from (n : Z) : Result string Z := if n <=? u64_max then Ok n else Err "out of range integral type conversion attempted".

Definition interval_since (c previous : ProcessCpuUsage) : Result string CpuIntervalUsage :=
  _ ← cpu_validate c;
  _ ← cpu_validate previous;
  _ ← ensure ((cpu_pid c =? cpu_pid previous) && (cpu_start_time_ticks c =? cpu_start_time_ticks previous)
              && (cpu_clock_ticks_per_second c =? cpu_clock_ticks_per_second previous))
        "CPU process identity or clock changed within Execution";
  _ ← ensure ((cpu_sampled_monotonic_ns previous <? cpu_sampled_monotonic_ns c)
              && (cpu_user_time_ticks previous <=? cpu_user_time_ticks c)
              && (cpu_system_time_ticks previous <=? cpu_system_time_ticks c)
              && (cpu_guest_time_ticks previous <=? cpu_guest_time_ticks c))
        "CPU observation clock/counters regressed";
  let elapsed_ns := cpu_sampled_monotonic_ns c - cpu_sampled_monotonic_ns previous in
  total ← total_ticks c;
  total' ← total_ticks previous;
  let ticks := total - total' in
  let hz := cpu_clock_ticks_per_second c in
  total_ns ← u64_try_from (ticks * 1000000000 / hz);
  millis ← u64_try_from (ticks * 1000000000000 / (hz * elapsed_ns));
  Ok (mkInterval elapsed_ns total_ns millis).

Inductive TerminalCpuUsage := CpuMeasured (usage : ProcessCpuUsage) | CpuUnavailable (error : string).
Definition terminal_cpu_validate (t : TerminalCpuUsage) : Result string unit :=
  match t with
  | CpuMeasured usage => cpu_validate usage
  | CpuUnavailable error => ensure (error_valid error) "invalid final CPU probe error"
  end.
Definition cpu_unavailable (error : string) : TerminalCpuUsage :=
  let error := truncate_error error in
  CpuUnavailable (if is_empty error then "final CPU observation unavailable" else error).
Definition run_cpu_validate : RunSample ProcessCpuUsage -> Result string unit := run_sample_validate cpu_validate.

(** ** Lemmas *)

(** The fields are [u64]s. *)
Definition resident_wf (m : ResidentMemory) : Prop :=
  Forall (fun x => 0 <= x <= u64_max)
    [rm_mapped_bytes m; rm_rss_bytes m; rm_pss_bytes m; rm_private_clean_bytes m; rm_private_dirty_bytes m;
     rm_shared_clean_bytes m; rm_shared_dirty_bytes m; rm_swap_bytes m; rm_swap_pss_bytes m;
     rm_private_hugetlb_bytes m; rm_shared_hugetlb_bytes m].

Lemma checked_add_three a b c d n :
  0 <= a -> 0 <= b -> 0 <= c -> 0 <= d ->
  (x ← checked_add a b; x ← checked_add x c; checked_add x d) = Some n <-> a + b + c + d <= u64_max /\ n = a + b + c + d.
Proof.
  intros. rewrite bind_Some. setoid_rewrite bind_Some. setoid_rewrite checked_add_Some. split.
  - intros (x & [? ->] & y & [? ->] & ? & ->). lia.
  - intros [? ->]. exists (a + b). split; [lia|]. exists (a + b + c). lia.
Qed.

Lemma resident_validate_spec m :
  resident_wf m ->
  resident_validate m = Ok tt <->
  rm_private_clean_bytes m + rm_private_dirty_bytes m + rm_shared_clean_bytes m + rm_shared_dirty_bytes m = rm_rss_bytes m /\
  rm_pss_bytes m <= rm_rss_bytes m /\
  rm_rss_bytes m + rm_swap_bytes m + rm_private_hugetlb_bytes m + rm_shared_hugetlb_bytes m <= rm_mapped_bytes m /\
  rm_swap_pss_bytes m <= rm_swap_bytes m.
Proof.
  unfold resident_wf. rewrite !Forall_cons. intros (? & ? & ? & ? & ? & ? & ? & ? & ? & ? & ? & _).
  unfold resident_validate. rewrite ensure_Ok, !andb_true_iff, bool_decide_eq_true, checked_add_three, !Z.leb_le by lia.
  destruct (checked_add (rm_rss_bytes m) _ ≫= _) as [n|] eqn:E.
  - apply checked_add_three in E as [? ->]; [|lia..]. rewrite Z.leb_le. lia.
  - assert (~ (rm_rss_bytes m + rm_swap_bytes m + rm_private_hugetlb_bytes m + rm_shared_hugetlb_bytes m <= u64_max)) as Hn.
    { intros Hle. assert (Some (rm_rss_bytes m + rm_swap_bytes m + rm_private_hugetlb_bytes m + rm_shared_hugetlb_bytes m) = None)
        as ?; [|done]. rewrite <- E. symmetry. apply checked_add_three; lia. }
    split; [naive_solver|]. intros (? & ? & ? & ?). lia.
Qed.

Lemma resident_checked_add_Some a b c :
  resident_checked_add a b = Some c <->
  c = mkResident (rm_mapped_bytes a + rm_mapped_bytes b) (rm_rss_bytes a + rm_rss_bytes b)
        (rm_pss_bytes a + rm_pss_bytes b) (rm_private_clean_bytes a + rm_private_clean_bytes b)
        (rm_private_dirty_bytes a + rm_private_dirty_bytes b) (rm_shared_clean_bytes a + rm_shared_clean_bytes b)
        (rm_shared_dirty_bytes a + rm_shared_dirty_bytes b) (rm_swap_bytes a + rm_swap_bytes b)
        (rm_swap_pss_bytes a + rm_swap_pss_bytes b) (rm_private_hugetlb_bytes a + rm_private_hugetlb_bytes b)
        (rm_shared_hugetlb_bytes a + rm_shared_hugetlb_bytes b) /\
  Forall (fun x => x <= u64_max)
    [rm_mapped_bytes c; rm_rss_bytes c; rm_pss_bytes c; rm_private_clean_bytes c; rm_private_dirty_bytes c;
     rm_shared_clean_bytes c; rm_shared_dirty_bytes c; rm_swap_bytes c; rm_swap_pss_bytes c;
     rm_private_hugetlb_bytes c; rm_shared_hugetlb_bytes c].
Proof.
  unfold resident_checked_add. rewrite !Forall_cons. split.
  - intros H. do 11 (let x := fresh "x" in let E := fresh "E" in apply bind_Some in H as (x & E & H);
      apply checked_add_Some in E as [E ->]). injection H as <-. cbn. auto 20.
  - intros [-> H]. cbn in H. destruct H as (? & ? & ? & ? & ? & ? & ? & ? & ? & ? & ? & _).
    unfold checked_add. by rewrite !(proj2 (Z.leb_le _ _)) by done.
Qed.

(** UTF-8: among four consecutive bytes one starts a character. *)
Definition utf8 (s : string) : Prop :=
  forall i, (i + 3 < len s)%nat -> exists j, (i <= j <= i + 3)%nat /\ is_char_boundary s j = true.

Lemma boundary_below_le s i : (boundary_below s i <= i)%nat.
Proof. induction i as [|i IH]; cbn [boundary_below]; [lia|]. case_match; lia. Qed.

Lemma boundary_below_ge s i j : (j <= i)%nat -> is_char_boundary s j = true -> (j <= boundary_below s i)%nat.
Proof.
  induction i as [|i IH]; intros Hj Hb; cbn [boundary_below]; [lia|].
  destruct (is_char_boundary s (S i)) eqn:E; [lia|]. apply IH; [|done].
  assert (j <> S i) by (intros ->; congruence). lia.
Qed.

Lemma len_boundary s : is_char_boundary s (len s) = true.
Proof.
  unfold is_char_boundary. rewrite lookup_ge_None_2 by (rewrite length_to_bytes; lia).
  by rewrite Nat.eqb_refl, orb_true_r.
Qed.

Lemma len_truncate s n : (n <= len s)%nat -> len (truncate s n) = n.
Proof. intros H. unfold truncate. rewrite <- length_to_bytes, to_of_bytes, length_take, length_to_bytes. lia. Qed.

Lemma is_empty_len s : is_empty s = true <-> len s = 0%nat.
Proof. unfold is_empty. rewrite bool_decide_eq_true. split; [by intros ->|]. by destruct s. Qed.

Lemma truncate_error_len s :
  utf8 s -> (len (truncate_error s) <= 1024)%nat /\ (len s <> 0 -> len (truncate_error s) <> 0)%nat.
Proof.
  intros Hu. unfold truncate_error. pose proof (boundary_below_le s (Nat.min (len s) 1024)) as Hle.
  rewrite len_truncate by lia. split; [lia|]. intros Hne.
  destruct (Nat.le_gt_cases (len s) 1024) as [Hs|Hs].
  - pose proof (boundary_below_ge s (Nat.min (len s) 1024) (len s) ltac:(lia) (len_boundary s)). lia.
  - destruct (Hu 1021%nat) as (j & Hj & Hb); [lia|].
    pose proof (boundary_below_ge s (Nat.min (len s) 1024) j ltac:(lia) Hb). lia.
Qed.

Lemma truncated_error_valid s : utf8 s -> is_empty s = false -> error_valid (truncate_error s) = true.
Proof.
  intros Hu Hne. destruct (truncate_error_len s Hu) as [H1 H2].
  assert (len s <> 0)%nat as H0 by (rewrite <- is_empty_len; congruence).
  unfold error_valid. apply andb_true_iff. split; [|by apply Nat.leb_le].
  apply negb_true_iff, not_true_iff_false. rewrite is_empty_len. auto.
Qed.

Lemma cpu_validate_inv c : cpu_validate c = Ok tt ->
  0 < cpu_clock_ticks_per_second c /\ cpu_user_time_ticks c + cpu_system_time_ticks c <= u64_max /\
  total_ticks c = Ok (cpu_user_time_ticks c + cpu_system_time_ticks c).
Proof.
  unfold cpu_validate. intros [Hb (t & Ht & _)%bind_Ok]%ensure_bind_Ok.
  rewrite !andb_true_iff, !Z.ltb_lt in Hb. unfold total_ticks in *.
  destruct (checked_add _ _) as [n|] eqn:E; [|done]. apply checked_add_Some in E as [? ->]. split_and!; [tauto|done|done].
Qed.

Lemma u64_try_from_Ok n m : u64_try_from n = Ok m <-> n <= u64_max /\ m = n.
Proof. unfold u64_try_from. destruct (Z.leb_spec n u64_max); naive_solver lia. Qed.

Lemma interval_since_inv c p i :
  interval_since c p = Ok i ->
  let ticks := (cpu_user_time_ticks c + cpu_system_time_ticks c) - (cpu_user_time_ticks p + cpu_system_time_ticks p) in
  0 <= ticks /\ 0 < cpu_clock_ticks_per_second c /\
  cpu_user_time_ticks c + cpu_system_time_ticks c <= u64_max /\
  cpu_sampled_monotonic_ns p < cpu_sampled_monotonic_ns c /\
  i = mkInterval (cpu_sampled_monotonic_ns c - cpu_sampled_monotonic_ns p)
        (ticks * 1000000000 / cpu_clock_ticks_per_second c)
        (ticks * 1000000000000 / (cpu_clock_ticks_per_second c * (cpu_sampled_monotonic_ns c - cpu_sampled_monotonic_ns p))).
Proof.
  unfold interval_since. intros ([] & Hc & ([] & Hp & H)%bind_Ok)%bind_Ok.
  apply cpu_validate_inv in Hc as (Hhz & Hmax & Ht). apply cpu_validate_inv in Hp as (_ & _ & Ht').
  apply ensure_bind_Ok in H as [_ H]. apply ensure_bind_Ok in H as [Hm H].
  rewrite !andb_true_iff, Z.ltb_lt, !Z.leb_le in Hm. rewrite Ht, Ht' in H.
  cbn [mbind result_bind] in H. apply bind_Ok in H as (a & [_ ->]%u64_try_from_Ok & H).
  apply bind_Ok in H as (b & [_ ->]%u64_try_from_Ok & [= <-]). split_and!; [lia|done|done|tauto|done].
Qed.

(** ** Properties *)

(** Validated resident counters stay valid under addition: whenever the sum
    of two valid samples is representable it is valid, so partitions of a
    process can be summed in any grouping. *)
Theorem resident_sum_valid a b c :
  resident_wf a -> resident_wf b -> resident_validate a = Ok tt -> resident_validate b = Ok tt ->
  resident_checked_add a b = Some c -> resident_wf c /\ resident_validate c = Ok tt.
Proof.
  intros Ha Hb Va Vb Hc. apply (resident_validate_spec a Ha) in Va. apply (resident_validate_spec b Hb) in Vb.
  apply resident_checked_add_Some in Hc as [-> Hmax].
  match goal with |- resident_wf ?c /\ _ => assert (resident_wf c) as Hwf end.
  { unfold resident_wf in *. cbn in *. rewrite !Forall_cons in *. destruct_and!. split_and!; first [lia|done]. }
  split; [done|]. apply (resident_validate_spec _ Hwf). cbn. lia.
Qed.

(** A probe that fails is always reported as a valid observation, for any
    UTF-8 error text, also an empty or an overlong one; so is a missing final CPU reading. *)
Theorem failed_probe_valid {T} (validate : T -> Result string unit) error :
  utf8 error ->
  validate_with validate (from_result (Err error)) = Ok tt /\ terminal_cpu_validate (cpu_unavailable error) = Ok tt.
Proof.
  intros Hu. split.
  - cbn. apply ensure_Ok. destruct (is_empty error) eqn:E; [vm_compute; reflexivity|by apply truncated_error_valid].
  - unfold cpu_unavailable. cbn. apply ensure_Ok. destruct (is_empty (truncate_error error)) eqn:E; [vm_compute; reflexivity|].
    unfold error_valid. rewrite E. cbn [negb andb]. apply Nat.leb_le. by apply truncate_error_len.
Qed.

(** CPU usage over an interval never under- or overflows: the ticks consumed
    are not negative, both intermediate products fit in 128 bits, and the
    reported time is the exact one rounded down to a nanosecond. *)
Theorem cpu_interval_exact c p i :
  interval_since c p = Ok i -> cpu_clock_ticks_per_second c <= u64_max -> cpu_sampled_monotonic_ns c <= u64_max ->
  0 <= cpu_user_time_ticks p + cpu_system_time_ticks p -> 0 <= cpu_sampled_monotonic_ns p ->
  let ticks := (cpu_user_time_ticks c + cpu_system_time_ticks c) - (cpu_user_time_ticks p + cpu_system_time_ticks p) in
  let hz := cpu_clock_ticks_per_second c in
  0 <= ticks /\ 0 < ci_elapsed_monotonic_ns i /\
  ticks * 1000000000000 <= u128_max /\ hz * ci_elapsed_monotonic_ns i <= u128_max /\
  hz * ci_total_cpu_time_ns i <= ticks * 1000000000 < hz * (ci_total_cpu_time_ns i + 1) /\
  hz * ci_elapsed_monotonic_ns i * ci_cpu_millis i <= ticks * 1000000000000.
Proof.
  intros (Ht & Hhz & Hmax & Hs & ->)%interval_since_inv Hu Hm Hp Hp0 ticks hz. cbn.
  fold ticks hz. set (el := cpu_sampled_monotonic_ns c - cpu_sampled_monotonic_ns p) in *.
  assert (0 < el <= u64_max) as Hel by lia. assert (ticks <= u64_max) as Htm by (unfold ticks; lia).
  split_and!; [done|lia| | | | |].
  - unfold u128_max, u64_max in *. lia.
  - etrans; [apply (Z.mul_le_mono_nonneg hz u64_max el u64_max); unfold hz; lia|]. unfold u64_max, u128_max. lia.
  - apply Z.mul_div_le. done.
  - rewrite Z.add_1_r. apply Z.mul_succ_div_gt. done.
  - apply Z.mul_div_le. unfold hz. nia.
Qed.

(** ** Evaluated instances *)
Definition small_memory : ResidentMemory := mkResident 100 40 30 10 10 10 10 5 5 1 1.

Lemma small_memory_wf : resident_wf small_memory.
Proof. unfold resident_wf. apply (bool_decide_eq_true_1 _). vm_compute. reflexivity. Defined.

Lemma resident_sum_valid_witness :
  exists c, resident_checked_add small_memory small_memory = Some c /\ resident_validate c = Ok tt.
Proof.
  eexists. split; [reflexivity|].
  refine (proj2 (resident_sum_valid small_memory small_memory _ small_memory_wf small_memory_wf _ _ _));
    vm_compute; reflexivity.
Defined.

Lemma failed_probe_valid_witness : terminal_cpu_validate (cpu_unavailable "") = Ok tt.
Proof. refine (proj2 (failed_probe_valid (fun _ : unit => Ok tt) "" _)). intros i Hi. cbn in Hi. lia. Defined.

Definition cpu_sample (now ticks : Z) : ProcessCpuUsage := mkCpu 7 11 100 now 2 ticks 0 0.
Lemma cpu_interval_exact_witness :
  interval_since (cpu_sample 2000000 150) (cpu_sample 1000000 100) = Ok (mkInterval 1000000 500000000 500000) /\
  100 * 500000000 <= 50 * 1000000000.
Proof.
  assert (interval_since (cpu_sample 2000000 150) (cpu_sample 1000000 100) = Ok (mkInterval 1000000 500000000 500000)) as H
    by (vm_compute; reflexivity).
  split; [exact H|].
  refine (proj1 (proj1 (proj2 (proj2 (proj2 (proj2 (cpu_interval_exact _ _ _ H _ _ _ _))))))); cbn; unfold u64_max; lia.
Defined.
