(* ===== verification/Causality.v ===== *)
(** * Causal graphs of a journal

    [validate_causality] of [pvisor-journal/src/journal.rs], the iterative
    depth-first search over the causes of all events, and the walk with which
    [append] looks for a cycle that a new event would close. Both loops run on
    fuel that is shown to be enough. A graph maps an event to its causes. *)
From stdpp Require Import base tactics list strings gmap sets relations.
From Stdlib Require Import Lia.
From S2P Require Import Prelude RustStr.
Local Open Scope nat_scope.

Notation graph := (gmap string (list string)).

(** Causes that are recorded themselves. *)
Definition known_causes (g : graph) (id : string) : list string :=
  List.filter (fun c => bool_decide (is_Some (g !! c))) (default [] (g !! id)).

Definition Gray : nat := 1.
Definition Black : nat := 2.

(** The [while let] loop; the head of a list is the top of the stack. *)
Fixpoint dfs (fuel : nat) (g : graph) (stack : list (string * bool)) (colors : gmap string nat)
    : option (Result string (gmap string nat)) :=
  match fuel with
  | O => None
  | S fuel =>
      match stack with
      | [] => Some (Ok colors)
      | (id, true) :: stack => dfs fuel g stack (<[id := Black]> colors)
      | (id, false) :: stack =>
          match colors !! id with
          | Some 1 => Some (Err id)
          | Some 2 => dfs fuel g stack colors
          | _ => dfs fuel g (reverse ((fun c => (c, false)) <$> known_causes g id) ++ (id, true) :: stack)
                   (<[id := Gray]> colors)
          end
      end
  end.

(** One step per node and per edge, and one to notice the end. *)
Definition weight (g : graph) (colors : gmap string nat) (id : string) : nat :=
  match colors !! id with None => S (length (known_causes g id)) | Some _ => 0 end.
Definition sum_over (f : string -> nat) (l : list string) : nat := foldr (fun x acc => f x + acc) 0 l.
Definition keys (g : graph) : list string := sort_by String.leb ((map_to_list g).*1).
Definition dfs_fuel (g : graph) : nat := 2 + sum_over (weight g ∅) (keys g).

(** The [for] loop over the keys; [None] when the fuel of a search ran out. *)
Fixpoint search_all (g : graph) (starts : list string) (colors : gmap string nat)
    : option (Result string (gmap string nat)) :=
  match starts with
  | [] => Some (Ok colors)
  | start :: starts =>
      match dfs (dfs_fuel g) g [(start, false)] colors with
      | Some (Ok colors) => search_all g starts colors
      | r => r
      end
  end.

Definition validate_causality (g : graph) : option (Result string unit) :=
  match search_all g (keys g) ∅ with
  | Some (Ok _) => Some (Ok tt)
  | Some (Err id) => Some (Err id)
  | None => None
  end.

(** The walk of [append]: [Some true] when [target] is reached from [pending]. *)
Fixpoint reaches (fuel : nat) (g : graph) (target : string) (pending : list string) (visited : gset string)
    : option bool :=
  match fuel with
  | O => None
  | S fuel =>
      match pending with
      | [] => Some false
      | id :: pending =>
          if bool_decide (id = target) then Some true
          else if bool_decide (id ∈ visited) then reaches fuel g target pending visited
          else reaches fuel g target (reverse (default [] (g !! id)) ++ pending) ({[id]} ∪ visited)
      end
  end.
Definition walk_fuel (g : graph) (pending : list string) : nat :=
  S (length pending + sum_over (fun id => length (default [] (g !! id))) (keys g)).

(** ** Cycles *)

Definition cause (g : graph) (x y : string) : Prop := exists causes, g !! x = Some causes /\ y ∈ causes.
Definition acyclic (g : graph) : Prop := forall x, ~ tc (cause g) x x.

(** A cause that is recorded. *)
Definition known_cause (g : graph) (x y : string) : Prop := cause g x y /\ is_Some (g !! y).

Lemma known_causes_spec g x y : y ∈ known_causes g x <-> known_cause g x y.
Proof.
  unfold known_causes, known_cause, cause. rewrite list_elem_of_In, filter_In, <- list_elem_of_In, bool_decide_eq_true.
  destruct (g !! x) as [cs|]; cbn; [naive_solver|]. split; [by intros [?%elem_of_nil _]|naive_solver].
Qed.

Lemma cause_source g x y : tc (cause g) x y -> is_Some (g !! x).
Proof. intros H. inversion H as [? ? (cs & ? & _)|? ? ? (cs & ? & _)]; eauto. Qed.

Lemma tc_cause_known g x y : tc (cause g) x y -> is_Some (g !! y) -> tc (known_cause g) x y.
Proof.
  induction 1 as [x y H|x y z H Htc IH]; intros Hy; [by apply tc_once|].
  eapply tc_l; [|by apply IH]. split; [done|]. by eapply cause_source.
Qed.

Lemma cycle_known g x : tc (cause g) x x -> tc (known_cause g) x x.
Proof.
  intros H. apply tc_cause_known; [done|]. by eapply cause_source.
Qed.
Lemma known_cycle g x : tc (known_cause g) x x -> tc (cause g) x x.
Proof. apply tc_congruence with (f := id). intros ? ? [? _]. done. Qed.

(** ** The search is correct *)
Section Dfs.
Context (g : graph).
Implicit Types (stack : list (string * bool)) (colors : gmap string nat).

Fixpoint first_open stack : option string :=
  match stack with
  | [] => None
  | (id, true) :: _ => Some id
  | (_, false) :: stack => first_open stack
  end.

(** Every entry is a cause of the nearest open node below it. *)
Fixpoint stack_ok stack : Prop :=
  match stack with
  | [] => True
  | (y, _) :: rest => (forall x, first_open rest = Some x -> known_cause g x y) /\ stack_ok rest
  end.

Lemma open_path stack x top :
  stack_ok stack -> (x, true) ∈ stack -> first_open stack = Some top -> rtc (known_cause g) x top.
Proof.
  revert top. induction stack as [|[y b] stack IH]; intros top; [by intros _ ?%elem_of_nil|].
  intros [Hy Hs] [Heq|Hin]%elem_of_cons.
  - injection Heq as <- <-. cbn. intros [= <-]. apply rtc_refl.
  - destruct b; cbn.
    + intros [= <-]. destruct (first_open stack) as [z|] eqn:E.
      * eapply rtc_r; [by apply IH|by apply Hy].
      * exfalso. clear -Hin E. induction stack as [|[z []] stack IH]; [by apply elem_of_nil in Hin|done|].
        apply elem_of_cons in Hin as [|]; [done|]. by apply IH.
    + by apply IH.
Qed.

Record search_inv stack colors : Prop := {
  si_known x c : colors !! x = Some c -> is_Some (g !! x) /\ (c = Gray \/ c = Black);
  si_stack_known x b : (x, b) ∈ stack -> is_Some (g !! x);
  si_gray x : colors !! x = Some Gray <-> (x, true) ∈ stack;
  si_nodup : NoDup (List.filter snd stack);
  si_stack : stack_ok stack;
  (** what an open node causes is finished or above it on the stack *)
  si_open top x rest : stack = top ++ (x, true) :: rest -> forall y, known_cause g x y ->
    colors !! y = Some Black \/ y ∈ top.*1;
  si_black x : colors !! x = Some Black ->
    (forall y, known_cause g x y -> colors !! y = Some Black) /\ ~ tc (known_cause g) x x
}.

Lemma black_closed stack colors x y :
  search_inv stack colors -> tc (known_cause g) x y -> colors !! x = Some Black -> colors !! y = Some Black.
Proof.
  intros Hi. induction 1 as [x y H|x y z H _ IH]; intros Hx; [|apply IH]; by eapply (si_black _ _ Hi x).
Qed.

Lemma elem_of_marked x stack : (x, true) ∈ List.filter snd stack <-> (x, true) ∈ stack.
Proof. rewrite !list_elem_of_In, filter_In. naive_solver. Qed.

(** Leaving a node: all it causes is finished, so it is on no cycle. *)
Lemma inv_exit x stack colors :
  search_inv ((x, true) :: stack) colors -> search_inv stack (<[x := Black]> colors).
Proof.
  intros Hi. destruct Hi as [Hk Hsk Hg Hnd Hs Ho Hb] eqn:Eq. clear Eq.
  assert (colors !! x = Some Gray) as Hx by (apply Hg; left).
  cbn in Hnd. inversion_clear Hnd as [|? ? Hni Hnd']. rewrite elem_of_marked in Hni.
  assert (forall y, known_cause g x y -> colors !! y = Some Black) as Hsucc.
  { intros y Hy. destruct (Ho [] x stack eq_refl y Hy) as [|Hf]; [done|]. by apply elem_of_nil in Hf. }
  split.
  - intros z c [[<- <-]|[_ Hz]]%lookup_insert_Some; [|by eauto]. split; [by apply (Hk x Gray)|by right].
  - intros z b Hz. eapply Hsk. right. exact Hz.
  - intros z. destruct (decide (x = z)) as [<-|Hne].
    + rewrite lookup_insert_eq. split; [discriminate|done].
    + rewrite lookup_insert_ne by done. rewrite Hg, elem_of_cons. naive_solver.
  - done.
  - apply Hs.
  - intros top z rest -> y Hy. destruct (decide (x = y)) as [<-|Hne]; [left; apply lookup_insert_eq|].
    rewrite lookup_insert_ne by done. destruct (Ho ((x, true) :: top) z rest eq_refl y Hy) as [|Hin]; [by left|].
    right. cbn in Hin. by apply elem_of_cons in Hin as [|].
  - intros z. destruct (decide (x = z)) as [<-|Hne].
    + intros _. split.
      * intros y Hy. destruct (decide (x = y)) as [<-|]; [apply lookup_insert_eq|].
        rewrite lookup_insert_ne by done. by apply Hsucc.
      * intros Hc. assert (colors !! x = Some Black) as Hbl; [|rewrite Hx in Hbl; discriminate].
        inversion Hc as [? ? H1|? y ? H1 H2]; subst; [by apply Hsucc|].
        apply (black_closed _ _ y x Hi H2). by apply Hsucc.
    + rewrite lookup_insert_ne by done. intros Hz. destruct (Hb z Hz) as [Hsz Hcz]. split; [|done].
      intros y Hy. destruct (decide (x = y)) as [<-|]; [apply lookup_insert_eq|].
      rewrite lookup_insert_ne by done. by apply Hsz.
Qed.

(** An entry that is finished already is skipped. *)
Lemma inv_skip x stack colors :
  search_inv ((x, false) :: stack) colors -> colors !! x = Some Black -> search_inv stack colors.
Proof.
  intros [Hk Hsk Hg Hnd Hs Ho Hb] Hx. split; try done.
  - intros z b Hz. eapply Hsk. right. exact Hz.
  - intros z. rewrite Hg, elem_of_cons. naive_solver.
  - apply Hs.
  - intros top z rest -> y Hy. destruct (Ho ((x, false) :: top) z rest eq_refl y Hy) as [|Hin]; [by left|].
    cbn in Hin. apply elem_of_cons in Hin as [->|]; [by left|by right].
Qed.

Lemma filter_snd_false (l : list string) : List.filter snd ((fun c => (c, false)) <$> l) = [].
Proof. induction l as [|c l IH]; [done|]. exact IH. Qed.

Lemma first_open_false (l : list string) stack :
  first_open (((fun c => (c, false)) <$> l) ++ stack) = first_open stack.
Proof. induction l as [|c l IH]; [done|]. exact IH. Qed.

Lemma stack_ok_push l x stack :
  (forall y, y ∈ l -> known_cause g x y) -> stack_ok ((x, true) :: stack) ->
  stack_ok (((fun c => (c, false)) <$> l) ++ (x, true) :: stack).
Proof.
  intros Hl Hs. induction l as [|c l IH]; [done|]. cbn [fmap list_fmap app stack_ok]. split.
  - intros z. rewrite first_open_false. cbn. intros [= <-]. apply Hl. left.
  - apply IH. intros y Hy. apply Hl. by right.
Qed.

(** A split of a stack at an open node, with unopened entries on top. *)
Lemma push_split (l : list string) x stack top z rest :
  ((fun c => (c, false)) <$> l) ++ (x, true) :: stack = top ++ (z, true) :: rest ->
  (z = x /\ top.*1 = l) \/ exists top', stack = top' ++ (z, true) :: rest /\ x ∈ top.*1 /\ (forall y, y ∈ top'.*1 -> y ∈ top.*1).
Proof.
  revert top. induction l as [|c l IH]; intros [|[t b] top]; cbn; intros H; simplify_eq.
  - by left.
  - right. exists top. split; [done|]. split; [left|]. intros y Hy. by right.
  - match goal with Heq : _ ++ _ = _ ++ _ |- _ => destruct (IH _ Heq) as [[-> Ht]|(top' & -> & Hx & Ht)] end;
      [left; split; [done|by rewrite Ht]|right].
    exists top'. split; [done|]. split; [by right|]. intros y Hy. right. by apply Ht.
Qed.

(** Opening a node that was not seen yet. *)
Lemma inv_open x stack colors :
  search_inv ((x, false) :: stack) colors -> colors !! x = None ->
  search_inv (reverse ((fun c => (c, false)) <$> known_causes g x) ++ (x, true) :: stack) (<[x := Gray]> colors).
Proof.
  intros [Hk Hsk Hg Hnd Hs Ho Hb] Hx. rewrite <- fmap_reverse. set (l := reverse (known_causes g x)).
  assert (forall y, y ∈ l <-> known_cause g x y) as Hl by (intros y; unfold l; by rewrite elem_of_reverse, known_causes_spec).
  assert (forall y b, (y, b) ∈ ((fun c => (c, false)) <$> l) ++ (x, true) :: stack <->
    (b = false /\ y ∈ l) \/ (y = x /\ b = true) \/ (y, b) ∈ stack) as Hel.
  { intros y b. rewrite elem_of_app, elem_of_cons, list_elem_of_fmap. naive_solver. }
  assert ((x, true) ∉ stack) as Hnx by (intros Hin; assert (colors !! x = Some Gray) by (apply Hg; by right); congruence).
  split.
  - intros z c [[<- <-]|[_ Hz]]%lookup_insert_Some; [|by eauto]. split; [eapply Hsk; left|by left].
  - intros z b [[-> Hz%Hl]|[[-> ->]|Hz]]%Hel; [apply Hz|eapply Hsk; left|eapply Hsk; right; exact Hz].
  - intros z. rewrite Hel. destruct (decide (x = z)) as [<-|Hne].
    + rewrite lookup_insert_eq. naive_solver.
    + rewrite lookup_insert_ne by done. rewrite Hg, elem_of_cons. naive_solver.
  - rewrite List.filter_app, filter_snd_false. cbn. constructor; [by rewrite elem_of_marked|exact Hnd].
  - apply stack_ok_push; [by intros y ?%Hl|]. destruct Hs as [Hs1 Hs2]. split; [exact Hs1|exact Hs2].
  - intros top z rest Heq y Hy. destruct (push_split _ _ _ _ _ _ Heq) as [[-> Ht]|(top' & Hst & Hxt & Ht)].
    + right. rewrite Ht. by apply Hl.
    + destruct (Ho ((x, false) :: top') z rest ltac:(by rewrite Hst) y Hy) as [Hbl|Hin].
      * left. rewrite lookup_insert_ne; [done|]. intros <-. congruence.
      * right. cbn in Hin. apply elem_of_cons in Hin as [->|Hin]; [done|by apply Ht].
  - intros z [[<- [=]]|[_ Hz]]%lookup_insert_Some. destruct (Hb z Hz) as [Hsz Hcz]. split; [|done].
    intros y Hy. rewrite lookup_insert_ne; [by apply Hsz|]. intros <-. specialize (Hsz _ Hy). congruence.
Qed.

(** Meeting an open node closes a cycle. *)
Lemma gray_cycle x stack colors :
  search_inv ((x, false) :: stack) colors -> colors !! x = Some Gray -> tc (known_cause g) x x.
Proof.
  intros [Hk Hsk Hg Hnd Hs Ho Hb] Hx. apply Hg in Hx. apply elem_of_cons in Hx as [|Hx]; [done|].
  destruct Hs as [Hs1 Hs2]. destruct (first_open stack) as [z|] eqn:E.
  - eapply tc_rtc_l; [by eapply open_path|]. by apply tc_once, Hs1.
  - exfalso. clear -Hx E. induction stack as [|[z []] stack IH]; [by apply elem_of_nil in Hx|done|].
    apply elem_of_cons in Hx as [|]; [done|]. by apply IH.
Qed.

Lemma color_cases stack colors x :
  search_inv stack colors -> colors !! x = None \/ colors !! x = Some Gray \/ colors !! x = Some Black.
Proof.
  intros Hi. destruct (colors !! x) as [c|] eqn:E; [|by left]. right.
  destruct (si_known _ _ Hi x c E) as [_ [-> | ->]]; auto.
Qed.

Lemma dfs_correct fuel stack colors r :
  search_inv stack colors -> dfs fuel g stack colors = Some r ->
  match r with
  | Ok colors' => search_inv [] colors' /\ (forall x, x ∈ stack.*1 -> colors' !! x = Some Black) /\
      (forall x, colors !! x = Some Black -> colors' !! x = Some Black)
  | Err _ => exists x, tc (known_cause g) x x
  end.
Proof.
  revert stack colors. induction fuel as [|fuel IH]; intros stack colors Hi; cbn [dfs]; [done|].
  destruct stack as [|[x []] stack].
  - intros [= <-]. split_and!; [done|set_solver|done].
  - intros H. specialize (IH _ _ (inv_exit _ _ _ Hi) H). destruct r as [colors'|]; [|done].
    destruct IH as (H1 & H2 & H3). split_and!; [done| |].
    + cbn. intros z [->|Hz]%elem_of_cons; [|by apply H2]. apply H3, lookup_insert_eq.
    + intros z Hz. apply H3. destruct (decide (x = z)) as [<-|]; [apply lookup_insert_eq|by rewrite lookup_insert_ne].
  - destruct (color_cases _ _ x Hi) as [Hx|[Hx|Hx]]; rewrite Hx.
    + intros H. specialize (IH _ _ (inv_open _ _ _ Hi Hx) H). destruct r as [colors'|]; [|done].
      destruct IH as (H1 & H2 & H3). split_and!; [done| |].
      * intros z Hz. apply H2. rewrite fmap_app. apply elem_of_app. right. exact Hz.
      * intros z Hz. apply H3. rewrite lookup_insert_ne; [done|]. intros <-. congruence.
    + cbn. intros [= <-]. exists x. by eapply gray_cycle.
    + cbn. intros H. specialize (IH _ _ (inv_skip _ _ _ Hi Hx) H). destruct r as [colors'|]; [|done].
      destruct IH as (H1 & H2 & H3). split_and!; [done| |done].
      cbn. intros z [->|Hz]%elem_of_cons; [by apply H3|by apply H2].
Qed.

(** *** Termination *)

Lemma sum_over_mono f f' l : (forall x, f' x <= f x) -> sum_over f' l <= sum_over f l.
Proof. intros H. induction l as [|x l IH]; cbn; [lia|]. specialize (H x). unfold sum_over in IH. lia. Qed.

Lemma sum_over_drop f f' l id w :
  id ∈ l -> (forall x, f' x <= f x) -> f' id + w <= f id -> sum_over f' l + w <= sum_over f l.
Proof.
  intros Hin Hle Hid. induction l as [|x l IH]; [by apply elem_of_nil in Hin|].
  apply elem_of_cons in Hin as [->|Hin]; cbn.
  - pose proof (sum_over_mono f f' l Hle) as Hm. unfold sum_over in Hm. lia.
  - specialize (IH Hin). specialize (Hle x). unfold sum_over in IH. lia.
Qed.

Lemma elem_of_keys (h : graph) x : x ∈ keys h <-> is_Some (h !! x).
Proof.
  unfold keys. rewrite sort_by_perm, list_elem_of_fmap. split.
  - intros ([k cs] & -> & Hk). apply elem_of_map_to_list in Hk. eauto.
  - intros [cs Hx]. exists (x, cs). split; [done|]. by apply elem_of_map_to_list.
Qed.

Lemma dfs_terminates fuel stack colors :
  search_inv stack colors -> length stack + sum_over (weight g colors) (keys g) < fuel ->
  is_Some (dfs fuel g stack colors).
Proof.
  revert stack colors. induction fuel as [|fuel IH]; intros stack colors Hi Hf; [lia|]. cbn [dfs].
  destruct stack as [|[x []] stack]; [eauto| |].
  - apply IH; [by apply inv_exit|]. cbn in Hf.
    assert (sum_over (weight g (<[x := Black]> colors)) (keys g) <= sum_over (weight g colors) (keys g)); [|lia].
    apply sum_over_mono. intros z. unfold weight. destruct (decide (x = z)) as [<-|].
    + rewrite lookup_insert_eq. lia.
    + by rewrite lookup_insert_ne.
  - destruct (color_cases _ _ x Hi) as [Hx|[Hx|Hx]]; rewrite Hx; [|cbn; eauto|].
    + apply IH; [by apply inv_open|]. rewrite length_app, length_reverse, length_fmap. cbn in Hf |- *.
      assert (sum_over (weight g (<[x := Gray]> colors)) (keys g) + S (length (known_causes g x))
        <= sum_over (weight g colors) (keys g)); [|lia].
      apply (sum_over_drop _ _ _ x).
      * apply elem_of_keys. eapply (si_stack_known _ _ Hi). left.
      * intros z. unfold weight. destruct (decide (x = z)) as [<-|]; [rewrite lookup_insert_eq; lia|by rewrite lookup_insert_ne].
      * unfold weight. rewrite lookup_insert_eq, Hx. lia.
    + cbn. apply IH; [by eapply inv_skip|]. cbn in Hf. lia.
Qed.

(** *** The whole search *)

Lemma start_inv start colors :
  search_inv [] colors -> is_Some (g !! start) -> search_inv [(start, false)] colors.
Proof.
  intros [Hk Hsk Hg Hnd Hs Ho Hb] Hst. split; try done.
  - intros x b Hx%list_elem_of_singleton. by injection Hx as -> ->.
  - intros x. rewrite Hg, list_elem_of_singleton. split; [by intros ?%elem_of_nil|done].
  - intros [|t top] x rest; cbn; [done|]. intros [= _ H]. by destruct top.
Qed.

Lemma empty_inv : search_inv [] ∅.
Proof.
  split; [by intros x c|by intros x b ?%elem_of_nil|intros x; split; [done|by intros ?%elem_of_nil]
    |constructor|done|by intros [|]|done].
Qed.

Lemma search_all_correct starts colors :
  search_inv [] colors -> (forall x, x ∈ starts -> is_Some (g !! x)) ->
  exists r, search_all g starts colors = Some r /\
  match r with
  | Ok colors' => search_inv [] colors' /\ (forall x, x ∈ starts -> colors' !! x = Some Black) /\
      (forall x, colors !! x = Some Black -> colors' !! x = Some Black)
  | Err _ => exists x, tc (known_cause g) x x
  end.
Proof.
  revert colors. induction starts as [|start starts IH]; intros colors Hi Hst; cbn [search_all].
  { eexists. split; [done|]. split_and!; [done|set_solver|done]. }
  pose proof (start_inv start colors Hi (Hst start ltac:(left))) as Hi1.
  assert (is_Some (dfs (dfs_fuel g) g [(start, false)] colors)) as [r Hr].
  { apply dfs_terminates; [done|]. unfold dfs_fuel. cbn [length].
    assert (sum_over (weight g colors) (keys g) <= sum_over (weight g ∅) (keys g)); [|lia].
    apply sum_over_mono. intros x. unfold weight. rewrite lookup_empty. case_match; lia. }
  rewrite Hr. pose proof (dfs_correct _ _ _ _ Hi1 Hr) as Hc. destruct r as [colors'|]; [|eauto].
  destruct Hc as (Hi' & Hdone & Hkeep).
  destruct (IH colors' Hi') as (r & Hr' & Hres); [intros x Hx; apply Hst; by right|]. exists r. split; [done|].
  destruct r as [colors''|]; [|done]. destruct Hres as (H1 & H2 & H3). split_and!; [done| |auto].
  intros x [->|Hx]%elem_of_cons; [|auto]. apply H3, Hdone. left.
Qed.
End Dfs.

Lemma validate_causality_correct g :
  (validate_causality g = Some (Ok tt) /\ acyclic g) \/
  (exists id, validate_causality g = Some (Err id)) /\ ~ acyclic g.
Proof.
  unfold validate_causality. destruct (search_all_correct g (keys g) ∅ (empty_inv g)) as (r & -> & Hr).
  { intros x. by rewrite elem_of_keys. }
  destruct r as [colors|id]; [left; split; [done|]|right; split; [by exists id|]].
  - destruct Hr as (Hi & Hall & _). intros x Hc%cycle_known.
    assert (is_Some (g !! x)) as Hx by (apply known_cycle, cause_source in Hc; done).
    by destruct (si_black _ _ _ Hi x (Hall x (proj2 (elem_of_keys g x) Hx))) as [_ Hno].
  - destruct Hr as [x Hx]. intros Ha. by apply (Ha x), known_cycle.
Qed.

(** ** The walk of [append] *)
Section Walk.
Context (g : graph) (target : string).

Lemma reaches_sound fuel pending visited :
  reaches fuel g target pending visited = Some true -> exists x, x ∈ pending /\ rtc (cause g) x target.
Proof.
  revert pending visited. induction fuel as [|fuel IH]; intros pending visited; cbn [reaches]; [done|].
  destruct pending as [|id pending]; [done|].
  case_bool_decide as Hid; [intros _; exists id; subst; split; [left|apply rtc_refl]|].
  case_bool_decide as Hv; intros H; apply IH in H as (x & Hx & Hp); [exists x; split; [by right|done]|].
  apply elem_of_app in Hx as [Hx|Hx]; [rewrite elem_of_reverse in Hx|exists x; split; [by right|done]].
  exists id. split; [left|]. destruct (g !! id) as [cs|] eqn:E; [|by apply elem_of_nil in Hx].
  apply (rtc_l _ _ x); [|done]. exists cs. split; [done|exact Hx].
Qed.

(** Everything a visited node causes was visited or is still to do. *)
Definition frontier_closed (pending : list string) (visited : gset string) : Prop :=
  target ∉ visited /\ forall x y, x ∈ visited -> cause g x y -> y ∈ visited \/ y ∈ pending.

Lemma closed_unreachable (visited : gset string) x :
  frontier_closed [] visited -> rtc (cause g) x target -> x ∉ visited.
Proof.
  intros [Ht Hc] Hp. induction Hp as [|x y z Hxy _ IH]; [done|]. intros Hx.
  destruct (Hc x y Hx Hxy) as [Hy|Hy%elem_of_nil]; [|done]. by apply IH.
Qed.

Lemma reaches_complete fuel pending (visited : gset string) :
  frontier_closed pending visited -> reaches fuel g target pending visited = Some false ->
  forall x, x ∈ visited \/ x ∈ pending -> ~ rtc (cause g) x target.
Proof.
  revert pending visited. induction fuel as [|fuel IH]; intros pending visited Hc; cbn [reaches]; [done|].
  destruct pending as [|id pending].
  { intros _ x Hx Hp. destruct Hx as [Hx|Hx]; [|by apply elem_of_nil in Hx]. by apply (closed_unreachable visited x). }
  case_bool_decide as Hid; [done|]. destruct Hc as [Ht Hc]. case_bool_decide as Hv; intros H x Hx.
  - apply (IH pending visited); [|done|set_solver].
    split; [done|]. intros a b Ha Hab. destruct (Hc a b Ha Hab) as [|Hb]; [by left|].
    apply elem_of_cons in Hb as [->|]; [by left|by right].
  - apply (IH (reverse (default [] (g !! id)) ++ pending) ({[id]} ∪ visited)); [|done|set_solver].
    split; [set_solver|]. intros a b Ha Hab. apply elem_of_union in Ha as [->%elem_of_singleton|Ha].
    + right. apply elem_of_app. left. destruct Hab as (cs & -> & Hb). by apply elem_of_reverse.
    + destruct (Hc a b Ha Hab); set_solver.
Qed.

Definition unvisited (visited : gset string) (id : string) : nat :=
  if bool_decide (id ∈ visited) then 0 else length (default [] (g !! id)).

Lemma unvisited_add visited id x : unvisited ({[id]} ∪ visited) x <= unvisited visited x.
Proof. unfold unvisited. repeat case_bool_decide; try lia. set_solver. Qed.

Lemma visit_weight (visited : gset string) id :
  id ∉ visited ->
  sum_over (unvisited ({[id]} ∪ visited)) (keys g) + length (default [] (g !! id)) <= sum_over (unvisited visited) (keys g).
Proof.
  intros Hid. destruct (g !! id) as [cs|] eqn:E; cbn [default].
  - apply (sum_over_drop _ _ _ id); [apply elem_of_keys; eauto|apply unvisited_add|].
    unfold unvisited. rewrite bool_decide_true, bool_decide_false, E by set_solver. cbn. lia.
  - cbn. rewrite Nat.add_0_r. apply sum_over_mono, unvisited_add.
Qed.

Lemma reaches_terminates fuel pending (visited : gset string) :
  length pending + sum_over (unvisited visited) (keys g) < fuel -> is_Some (reaches fuel g target pending visited).
Proof.
  revert pending visited. induction fuel as [|fuel IH]; intros pending visited Hf; [lia|]. cbn [reaches].
  destruct pending as [|id pending]; [eauto|]. cbn [length] in Hf.
  case_bool_decide; [eauto|]. case_bool_decide as Hv; apply IH; [lia|].
  rewrite length_app, length_reverse. pose proof (visit_weight visited id Hv). lia.
Qed.

(** With its fuel the walk always answers, and rightly. *)
Lemma reaches_correct pending :
  exists b, reaches (walk_fuel g pending) g target pending ∅ = Some b /\
    (b = true <-> exists x, x ∈ pending /\ rtc (cause g) x target).
Proof.
  destruct (reaches_terminates (walk_fuel g pending) pending ∅) as [b Hb].
  { unfold walk_fuel. assert (sum_over (unvisited ∅) (keys g) <= sum_over (fun id => length (default [] (g !! id))) (keys g)); [|lia].
    apply sum_over_mono. intros x. unfold unvisited. case_bool_decide; lia. }
  exists b. split; [done|]. destruct b; split; [|done|done|].
  - intros _. by eapply reaches_sound.
  - intros (x & Hx & Hp). exfalso. eapply reaches_complete; [|done|by right|done].
    split; [set_solver|]. intros a c Ha. set_solver.
Qed.
End Walk.

(** ** Adding a node *)
Section Extend.
Context (g : graph) (x : string) (causes : list string).
Hypothesis Hfresh : g !! x = None.
Notation g' := (<[x := causes]> g).

Lemma cause_insert y z : cause g' y z <-> cause g y z \/ (y = x /\ z ∈ causes).
Proof.
  unfold cause. destruct (decide (x = y)) as [<-|Hne].
  - rewrite lookup_insert_eq, Hfresh. naive_solver.
  - rewrite lookup_insert_ne by done. naive_solver.
Qed.

(** A path to the new node can be cut at its first visit. *)
Lemma path_to_new y : rtc (cause g') y x -> rtc (cause g) y x.
Proof.
  intros Hp. remember x as t eqn:Et in Hp at 2. induction Hp as [y|y z t Hyz _ IH]; subst; [apply rtc_refl|].
  apply cause_insert in Hyz as [Hyz|[-> _]]; [|apply rtc_refl]. eapply rtc_l; [done|by apply IH].
Qed.

Lemma path_through_new a b :
  tc (cause g') a b -> tc (cause g) a b \/ (rtc (cause g') a x /\ tc (cause g') x b).
Proof.
  induction 1 as [a b Hab|a c b Hac Hcb IH].
  - pose proof Hab as Hab'. apply cause_insert in Hab' as [Hab'|[-> _]]; [left; by apply tc_once|right].
    split; [apply rtc_refl|by apply tc_once].
  - pose proof Hac as Hac'. apply cause_insert in Hac' as [Hac'|[-> _]].
    + destruct IH as [IH|[IH1 IH2]]; [left; by eapply tc_l|right]. split; [by eapply rtc_l|done].
    + right. split; [apply rtc_refl|by eapply tc_l].
Qed.

Lemma acyclic_insert :
  acyclic g -> acyclic g' <-> ~ exists y, y ∈ causes /\ rtc (cause g) y x.
Proof.
  intros Hg. split.
  - intros Ha (y & Hy & Hp). apply (Ha x). eapply tc_rtc_r; [apply tc_once, cause_insert; by right|].
    eapply (rtc_congruence (R := cause g) id); [|exact Hp]. intros a b Hab. apply cause_insert. by left.
  - intros Hno z Hz. assert (tc (cause g') x x) as Hx.
    { destruct (path_through_new _ _ Hz) as [Hc|[H1 H2]]; [by destruct (Hg z)|]. by eapply tc_rtc_r. }
    apply Hno. inversion Hx as [? ? Hs|? y ? Hs Hp]; subst; apply cause_insert in Hs as [(cs & Hcs & _)|[_ Hs]];
      try congruence.
    + exists x. split; [done|apply rtc_refl].
    + exists y. split; [done|]. by apply path_to_new, tc_rtc.
Qed.

(** A node nothing refers to closes no cycle, unless it refers to itself. *)
Lemma unreferenced_unreachable :
  (forall y, ~ cause g y x) -> x ∉ causes -> ~ exists y, y ∈ causes /\ rtc (cause g) y x.
Proof.
  intros Hun Hself (y & Hy & Hp). destruct (rtc_inv_r _ _ Hp) as [->|(z & _ & Hz)]; [done|]. by apply (Hun z).
Qed.
End Extend.

(** ** The check on a whole journal *)

(** The check of a journal's causes always returns, and accepts exactly the
    graphs without a causal cycle, whether or not every cause is recorded. *)
Theorem causality_check_exact g :
  is_Some (validate_causality g) /\ (validate_causality g = Some (Ok tt) <-> acyclic g).
Proof.
  destruct (validate_causality_correct g) as [[-> Ha]|[[id ->] Ha]]; (split; [eauto|]); (split; [done|]); [done|].
  by intros ?%Ha.
Qed.
