(* ===== verification/Journal.v ===== *)
(** * The trace journal

    [pvisor-journal/src/journal.rs]: the single writer that appends validated
    events to memory or to a line-oriented file, the scan that reads such a
    file back, and the repair of a line torn by a failed write.

    The file is the list of its bytes. A write reports whether it was synced,
    and when it was not, how many bytes still reached the file. The encoders of
    [serde_json] and the hash of [sha2] are the operations of [Codec]; what the
    journal relies on is stated in [CodecLaws]. The mutex is taken by every
    operation for its whole body, so operations are steps of one state. *)
From stdpp Require Import base tactics list strings gmap sets relations.
From Stdlib Require Import ZArith Lia.
From Stdlib.Strings Require Byte.
From S2P Require Import Prelude RustStr Types Execution Operation Causality.
Local Open Scope string_scope.
Local Open Scope Z_scope.

Notation byte := Byte.byte.
Notation newline := Byte.x0a.
#[export] Instance byte_eq_dec : EqDecision byte := Byte.byte_eq_dec.

(** ** Records *)

Record Position := mkPosition { pos_journal : string; pos_offset : Z }.
Record TraceRecord (Json : Type) := mkRecord { rec_position : Position; rec_event : Event Json }.
Arguments mkRecord {Json} _ _.
Arguments rec_position {Json} _.
Arguments rec_event {Json} _.

Inductive Durability := Volatile | LocalSync.
Record Receipt := mkReceipt { rcpt_event : string; rcpt_position : Position; rcpt_durability : Durability }.
Inductive AppendError := Rejected (why : string) | Unknown (why : string).

Record Header := mkHeader { hdr_format : string; hdr_journal : string }.
Definition trace_format : string := "pvisor.trace/5".

(** [serde_json] and [Sha256]. *)
Class Codec (Json : Type) := {
  event_to_vec : Event Json -> option (list byte);
  record_to_vec : TraceRecord Json -> option (list byte);
  record_from_slice : list byte -> option (TraceRecord Json);
  header_to_vec : Header -> list byte;
  header_from_slice : list byte -> option Header;
  sha256 : list byte -> list byte
}.

(** Compact JSON escapes control characters; whitespace after a value is
    ignored; what is decoded from an encoding is the value encoded; a record
    adds to its event the position, whose journal name is escaped to at most
    six bytes a character. *)
Class CodecLaws (Json : Type) `{Codec Json} := {
  record_one_line r bs : record_to_vec r = Some bs -> newline ∉ bs;
  record_trailing bs : record_from_slice (bs ++ [newline]) = record_from_slice bs;
  record_inverse r r' bs : record_to_vec r = Some bs -> record_from_slice bs = Some r' -> r' = r;
  record_size r bs es : record_to_vec r = Some bs -> event_to_vec (rec_event r) = Some es ->
    (length bs <= length es + 6 * len (pos_journal (rec_position r)) + 128)%nat;
  header_one_line h : newline ∉ header_to_vec h;
  header_inverse h : header_from_slice (header_to_vec h ++ [newline]) = Some h;
  header_size h : (length (header_to_vec h) <= 6 * (len (hdr_format h) + len (hdr_journal h)) + 64)%nat
}.

Section Journal.
Context {Json : Type} `{Codec Json}.

Definition validate_event : Event Json -> Result string unit :=
  event_validate (fun e => Z.of_nat ∘ length <$> event_to_vec e).

Definition digest (e : Event Json) : Result string (list byte) :=
  bytes ← ok_or (event_to_vec e) "encoding failed"; Ok (sha256 bytes).

(** ** Reading a file *)

(** [BufRead::read_until] behind [Read::take limit]: the line and what is left. *)
Fixpoint read_until (limit : Z) (bytes : list byte) : list byte * list byte :=
  match bytes with
  | [] => ([], [])
  | b :: rest =>
      if limit <=? 0 then ([], bytes)
      else if Byte.eqb b newline then ([b], rest)
      else let '(line, rest) := read_until (limit - 1) rest in (b :: line, rest)
  end.

Definition read_line (bytes : list byte) : Result string (list byte * list byte) :=
  let '(line, rest) := read_until (MAX_EVENT_BYTES + 4097) bytes in
  _ ← ensure (Z.of_nat (length line) <=? MAX_EVENT_BYTES + 4096) "trace record exceeds size limit";
  Ok (line, rest).

Definition complete (line : list byte) : bool := bool_decide (last line = Some newline).

Record Scan := mkScan {
  sc_ids : graph;
  sc_offset : Z;
  sc_valid : Z;
  sc_records : list (TraceRecord Json)
}.

(** The body of the loop of [scan] for a complete line. *)
Definition scan_record (journal : string) (retain_records : bool) (line : list byte) (s : Scan)
    : Result string Scan :=
  record ← ok_or (record_from_slice line) "corrupt complete trace record";
  _ ← validate_event (rec_event record);
  _ ← ensure (bool_decide (pos_journal (rec_position record) = journal)
              && (pos_offset (rec_position record) =? sc_offset s)) "trace position discontinuity";
  _ ← ensure (bool_decide (sc_ids s !! ev_id (rec_event record) = None)) "duplicate event identity";
  Ok {| sc_ids := <[ev_id (rec_event record) := ev_caused_by (rec_event record)]> (sc_ids s);
        sc_offset := sc_offset s + 1;
        sc_valid := sc_valid s + Z.of_nat (length line);
        sc_records := if retain_records then sc_records s ++ [record] else sc_records s |}.

(** The [loop] of [scan]; every turn reads at least one byte. *)
Fixpoint scan_loop (fuel : nat) (journal : string) (repair_tail retain_records : bool)
    (bytes : list byte) (s : Scan) : option (Result string Scan) :=
  match fuel with
  | O => None
  | S fuel =>
      match read_line bytes with
      | Err e => Some (Err e)
      | Ok ([], _) => Some (Ok s)
      | Ok (line, bytes) =>
          if negb (complete line) then
            Some (_ ← ensure repair_tail "incomplete trace tail"; Ok s)
          else
            match scan_record journal retain_records line s with
            | Err e => Some (Err e)
            | Ok s => scan_loop fuel journal repair_tail retain_records bytes s
            end
      end
  end.

Definition scan_header (bytes : list byte) : Result string (string * (list byte * list byte)) :=
  lr ← read_line bytes;
  _ ← ensure (complete (fst lr)) "incomplete trace header";
  header ← ok_or (header_from_slice (fst lr)) "not a trace journal";
  _ ← ensure (bool_decide (hdr_format header = trace_format) && negb (is_empty (hdr_journal header))
              && (len (hdr_journal header) <=? 256)%nat) "unsupported journal header";
  Ok (hdr_journal header, lr).

(** [scan]: the journal's name, its records and the file after repair. *)
Definition scan (file : list byte) (repair_tail retain_records : bool)
    : option (Result string (string * list (TraceRecord Json) * list byte)) :=
  match scan_header file with
  | Err e => Some (Err e)
  | Ok (journal, (line, rest)) =>
      match scan_loop (S (length rest)) journal repair_tail retain_records rest
              (mkScan ∅ 0 (Z.of_nat (length line)) []) with
      | None => None
      | Some (Err e) => Some (Err e)
      | Some (Ok s) =>
          match validate_causality (sc_ids s) with
          | None => None
          | Some (Err id) => Some (Err ("causal cycle at " +:+ id))
          | Some (Ok _) =>
              let file := if repair_tail && negb (Z.of_nat (length file) =? sc_valid s)
                          then take (Z.to_nat (sc_valid s)) file else file in
              Some (Ok (journal, sc_records s, file))
          end
      end
  end.

(** ** The writer *)

Record JournalState := mkJournalState {
  js_id : string;
  js_file : option (list byte);
  js_seen : gmap string (Z * list byte);
  js_causes : graph;
  js_unresolved : gset string;
  js_memory : list (TraceRecord Json);
  js_poisoned : bool
}.

(** The shared state and the events sent to live subscribers, oldest first. *)
Record Journal := mkJournal { jn_state : JournalState; jn_live : list (Event Json) }.

(** [uuid] is the fresh name the operation draws. *)
Definition memory (uuid : string) : Journal :=
  mkJournal (mkJournalState uuid None ∅ ∅ ∅ [] false) [].

Definition header_line (journal : string) : list byte :=
  header_to_vec (mkHeader trace_format journal) ++ [newline].

(** The indexes [open] rebuilds from the records of the file. *)
Definition index_record (idx : gmap string (Z * list byte) * graph) (record : TraceRecord Json)
    : Result string (gmap string (Z * list byte) * graph) :=
  let e := rec_event record in
  hash ← digest e;
  _ ← ensure (bool_decide (fst idx !! ev_id e = None)) "duplicate event in journal";
  Ok (<[ev_id e := (pos_offset (rec_position record), hash)]> (fst idx), <[ev_id e := ev_caused_by e]> (snd idx)).

Definition unresolved_of (causes : graph) : gset string :=
  list_to_set (List.filter (fun id => bool_decide (causes !! id = None)) (concat (snd <$> map_to_list causes))).

Definition index (records : list (TraceRecord Json)) : Result string (gmap string (Z * list byte) * graph) :=
  fold_res (fun idx record => index_record idx record) records (∅, ∅).

(** [Journal::open] of a file that can be read and locked. *)
Definition open (uuid : string) (file : list byte) : option (Result string Journal) :=
  match (if bool_decide (file = []) then Some (Ok (uuid, [], header_line uuid)) else scan file true true) with
  | None => None
  | Some (Err e) => Some (Err e)
  | Some (Ok (id, records, file)) =>
      Some (idx ← index records;
            Ok (mkJournal (mkJournalState id (Some file) (fst idx) (snd idx) (unresolved_of (snd idx)) [] false) []))
  end.

(** What became of the write of a line: seek, write and sync all succeeded, or
    one failed after [written] bytes had reached the file. *)
Inductive WriteOutcome := Synced | Failed (written : nat).

Definition write (io : WriteOutcome) (bytes file : list byte) : list byte :=
  match io with Synced => file ++ bytes | Failed written => file ++ take written bytes end.

Definition durability (st : JournalState) : Durability :=
  if is_none (js_file st) then Volatile else LocalSync.

Definition set_file (st : JournalState) (file : option (list byte)) (poisoned : bool) : JournalState :=
  mkJournalState (js_id st) file (js_seen st) (js_causes st) (js_unresolved st) (js_memory st) poisoned.
Definition push_memory (st : JournalState) (record : TraceRecord Json) : JournalState :=
  mkJournalState (js_id st) (js_file st) (js_seen st) (js_causes st) (js_unresolved st)
    (js_memory st ++ [record]) (js_poisoned st).

(** Entering a committed record into the indexes. *)
Definition commit (st : JournalState) (record : TraceRecord Json) (hash : list byte) : JournalState :=
  let e := rec_event record in
  let seen := <[ev_id e := (pos_offset (rec_position record), hash)]> (js_seen st) in
  mkJournalState (js_id st) (js_file st) seen
    (<[ev_id e := ev_caused_by e]> (js_causes st))
    (foldl (fun unresolved id => if bool_decide (seen !! id = None) then {[id]} ∪ unresolved else unresolved)
       (js_unresolved st ∖ {[ev_id e]}) (ev_caused_by e))
    (js_memory st) (js_poisoned st).

(** Would [e] close a causal cycle? Looked for only when a record refers to it. *)
Definition closes_cycle (st : JournalState) (e : Event Json) : option bool :=
  if bool_decide (ev_id e ∈ js_unresolved st)
  then reaches (walk_fuel (js_causes st) (reverse (ev_caused_by e))) (js_causes st) (ev_id e)
         (reverse (ev_caused_by e)) ∅
  else Some false.

(** The second half of [append]: encoding the record, checking that it can be
    read back, storing it and publishing the event. *)
Definition store (io : WriteOutcome) (j : Journal) (e : Event Json) (hash : list byte)
    : Journal * Result AppendError Receipt :=
  let st := jn_state j in
  let record := mkRecord (mkPosition (js_id st) (Z.of_nat (size (js_seen st)))) e in
  match record_to_vec record with
  | None => (j, Err (Rejected "encoding failed"))
  | Some bytes =>
      match record_from_slice bytes with
      | None => (j, Err (Rejected "unreadable trace record"))
      | Some _ =>
          let receipt := mkReceipt (ev_id e) (rec_position record) (durability st) in
          let done st := (mkJournal (commit st record hash) (jn_live j ++ [e]), Ok receipt) in
          match js_file st with
          | None => done (push_memory st record)
          | Some file =>
              let file := write io (bytes ++ [newline]) file in
              match io with
              | Synced => done (set_file st (Some file) (js_poisoned st))
              | Failed _ => (mkJournal (set_file st (Some file) true) (jn_live j), Err (Unknown "write failed"))
              end
          end
      end
  end.

(** [Journal::append]; [None] only if the walk ran out of fuel. *)
Definition append (io : WriteOutcome) (j : Journal) (e : Event Json)
    : option (Journal * Result AppendError Receipt) :=
  let st := jn_state j in
  match (_ ← validate_event e; digest e) with
  | Err why => Some (j, Err (Rejected why))
  | Ok hash =>
      if js_poisoned st then Some (j, Err (Unknown "previous write failed"))
      else
        match js_seen st !! ev_id e with
        | Some (offset, prior) =>
            if negb (bool_decide (prior = hash)) then
              Some (j, Err (Rejected "event identity has different content"))
            else Some (j, Ok (mkReceipt (ev_id e) (mkPosition (js_id st) offset) (durability st)))
        | None =>
            match closes_cycle st e with
            | None => None
            | Some true => Some (j, Err (Rejected "causal cycle"))
            | Some false => Some (store io j e hash)
            end
        end
  end.

(** [Journal::records]. *)
Definition records (j : Journal) : option (Result string (list (TraceRecord Json))) :=
  let st := jn_state j in
  if js_poisoned st then Some (Err "reopen journal after write error")
  else
    match js_file st with
    | Some file =>
        match scan file false true with
        | None => None
        | Some r => Some (x ← r; Ok (snd (fst x)))
        end
    | None => Some (Ok (js_memory st))
    end.

(** [Journal::read] and [Journal::validate] on the bytes of a closed file. *)
Definition read (file : list byte) : option (Result string (list (TraceRecord Json))) :=
  match scan file false true with None => None | Some r => Some (x ← r; Ok (snd (fst x))) end.
Definition validate (file : list byte) : option (Result string unit) :=
  match scan file false false with None => None | Some r => Some (_ ← r; Ok tt) end.

(** [Journal::snapshot_to] with an output that accepts every byte: the bytes copied. *)
Definition snapshot_to (j : Journal) (max_bytes : Z) : Result string (list byte) :=
  let st := jn_state j in
  _ ← ensure (negb (js_poisoned st)) "reopen journal after write error";
  file ← ok_or (js_file st) "durable trace export requires a file journal";
  _ ← ensure (Z.of_nat (length file) <=? max_bytes) "trace exceeds artifact export limit";
  Ok file.
End Journal.
Arguments Journal Json : clear implicits.
Arguments JournalState Json : clear implicits.
Arguments Scan Json : clear implicits.
