(* ===== verification/JournalFacts.v ===== *)
(** * Correctness of the trace journal

    A journal refines an abstract log, the list of its records. The file of a
    log is its header line and one line per record; [stored] adds the bytes of
    a torn line at the end. The lemmas show that a scan reads exactly the log
    back, that opening rebuilds the writer's indexes, and that an append is a
    step of the log. *)
From stdpp Require Import base tactics list strings gmap sets relations.
From Stdlib Require Import ZArith Lia.
From Stdlib.Strings Require Byte.
From S2P Require Import Prelude RustStr Types Execution Operation Causality Journal.
Local Open Scope Z_scope.

(** ** Lines *)

Lemma read_until_line limit (l rest : list byte) :
  newline ∉ l -> Z.of_nat (length l) < limit -> read_until limit (l ++ newline :: rest) = (l ++ [newline], rest).
Proof.
  revert limit. induction l as [|b l IH]; intros limit Hn Hl; cbn [app read_until length] in *.
  - destruct (Z.leb_spec limit 0); [lia|]. done.
  - apply not_elem_of_cons in Hn as [Hb Hn]. destruct (Z.leb_spec limit 0); [lia|].
    destruct (Byte.eqb b newline) eqn:E; [apply Byte.byte_dec_bl in E; congruence|].
    by rewrite IH by (done || lia).
Qed.

Lemma read_until_tail limit (l : list byte) :
  newline ∉ l -> Z.of_nat (length l) <= limit -> read_until limit l = (l, []).
Proof.
  revert limit. induction l as [|b l IH]; intros limit Hn Hl; cbn [app read_until length] in *; [done|].
  apply not_elem_of_cons in Hn as [Hb Hn]. destruct (Z.leb_spec limit 0); [lia|].
  destruct (Byte.eqb b newline) eqn:E; [apply Byte.byte_dec_bl in E; congruence|].
  by rewrite IH by (done || lia).
Qed.

Lemma read_line_complete (l rest : list byte) :
  newline ∉ l -> Z.of_nat (length l) < MAX_EVENT_BYTES + 4096 ->
  read_line (l ++ newline :: rest) = Ok (l ++ [newline], rest).
Proof.
  intros Hn Hl. unfold read_line. rewrite read_until_line by (done || lia). rewrite length_app. cbn [length].
  rewrite (proj2 (Z.leb_le _ _)) by lia. done.
Qed.

Lemma read_line_tail (l : list byte) :
  newline ∉ l -> Z.of_nat (length l) <= MAX_EVENT_BYTES + 4096 -> read_line l = Ok (l, []).
Proof.
  intros Hn Hl. unfold read_line. rewrite read_until_tail by (done || lia). by rewrite (proj2 (Z.leb_le _ _)) by lia.
Qed.

Lemma complete_line (l : list byte) : complete (l ++ [newline]) = true.
Proof. unfold complete. rewrite last_snoc. by apply bool_decide_true. Qed.

Lemma incomplete_tail (l : list byte) : newline ∉ l -> complete l = false.
Proof. intros Hn. apply bool_decide_false. by intros H%last_Some_elem_of. Qed.

Section Facts.
Context {Json : Type} `{CodecLaws Json}.
Implicit Types (r : TraceRecord Json) (rs : list (TraceRecord Json)) (e : Event Json) (j : Journal Json).

(** ** The abstract log *)

Definition rid r : string := ev_id (rec_event r).
Definition line_of r : list byte := default [] (record_to_vec r) ++ [newline].
Definition lines rs : list byte := concat (line_of <$> rs).

Definition readable r : Prop := exists bs, record_to_vec r = Some bs /\ is_Some (record_from_slice bs).
Definition record_ok r : Prop := validate_event (rec_event r) = Ok tt /\ readable r.

Definition log_graph rs : graph :=
  foldl (fun g r => <[rid r := ev_caused_by (rec_event r)]> g) ∅ rs.
Definition hash e : list byte := sha256 (default [] (event_to_vec e)).
Definition log_seen rs : gmap string (Z * list byte) :=
  foldl (fun m r => <[rid r := (pos_offset (rec_position r), hash (rec_event r))]> m) ∅ rs.

Definition name_ok (id : string) : Prop := is_empty id = false /\ (len id <= 256)%nat.

Record log_ok (id : string) rs : Prop := {
  lo_name : name_ok id;
  lo_pos i r : rs !! i = Some r -> rec_position r = mkPosition id (Z.of_nat i);
  lo_valid r : r ∈ rs -> record_ok r;
  lo_ids : NoDup (rid <$> rs);
  lo_acyclic : acyclic (log_graph rs)
}.

Lemma log_graph_snoc rs r : log_graph (rs ++ [r]) = <[rid r := ev_caused_by (rec_event r)]> (log_graph rs).
Proof. unfold log_graph. by rewrite foldl_app. Qed.
Lemma log_seen_snoc rs r :
  log_seen (rs ++ [r]) = <[rid r := (pos_offset (rec_position r), hash (rec_event r))]> (log_seen rs).
Proof. unfold log_seen. by rewrite foldl_app. Qed.

Lemma log_graph_None rs x : log_graph rs !! x = None <-> x ∉ rid <$> rs.
Proof.
  induction rs as [|r rs IH] using rev_ind; [split; [intros _ ?%elem_of_nil; done|done]|].
  rewrite log_graph_snoc, lookup_insert_None, IH, fmap_app, not_elem_of_app. cbn.
  rewrite list_elem_of_singleton. naive_solver.
Qed.
Lemma log_seen_None rs x : log_seen rs !! x = None <-> x ∉ rid <$> rs.
Proof.
  induction rs as [|r rs IH] using rev_ind; [split; [intros _ ?%elem_of_nil; done|done]|].
  rewrite log_seen_snoc, lookup_insert_None, IH, fmap_app, not_elem_of_app. cbn.
  rewrite list_elem_of_singleton. naive_solver.
Qed.

Lemma ids_snoc rs r : NoDup (rid <$> rs ++ [r]) <-> NoDup (rid <$> rs) /\ rid r ∉ rid <$> rs.
Proof.
  rewrite fmap_app, NoDup_app. cbn. split.
  - intros (H1 & H2 & _). split; [done|]. intros Hin. apply (H2 _ Hin). left.
  - intros [H1 H2]. split_and!; [done| |apply NoDup_singleton]. intros x Hx ->%list_elem_of_singleton. done.
Qed.

Lemma log_seen_size rs : NoDup (rid <$> rs) -> size (log_seen rs) = length rs.
Proof.
  induction rs as [|r rs IH] using rev_ind; [intros _; apply map_size_empty|]. intros [Hnd Hr]%ids_snoc.
  rewrite log_seen_snoc, map_size_insert_None by (by apply log_seen_None). rewrite IH, length_app by done. cbn. lia.
Qed.

(** An entry of the index is a record of the log. *)
Lemma log_seen_Some id rs x offset h :
  log_ok id rs -> log_seen rs !! x = Some (offset, h) <->
  exists i r, rs !! i = Some r /\ rid r = x /\ offset = Z.of_nat i /\ h = hash (rec_event r).
Proof.
  intros [_ Hpos _ Hnd _]. revert Hpos Hnd. induction rs as [|r rs IH] using rev_ind; intros Hpos Hnd.
  { split; [done|]. by intros (i & r & Hi & _). }
  apply ids_snoc in Hnd as [Hnd Hr]. rewrite log_seen_snoc.
  assert (rec_position r = mkPosition id (Z.of_nat (length rs))) as Hp by (apply Hpos, list_lookup_middle; done).
  assert (forall i r', rs !! i = Some r' -> (rs ++ [r]) !! i = Some r') as Hold.
  { intros i r' Hi. rewrite lookup_app_l; [done|]. by eapply lookup_lt_Some. }
  specialize (IH (fun i r' Hi => Hpos i r' (Hold i r' Hi)) Hnd). destruct (decide (rid r = x)) as [<-|Hne].
  - rewrite lookup_insert_eq, Hp. cbn. split.
    + intros [= <- <-]. exists (length rs), r. split_and!; [by apply list_lookup_middle|done..].
    + intros (i & r' & Hi & Hid & -> & ->). apply lookup_app_Some in Hi as [Hi|[Hi Hl]].
      * exfalso. apply Hr. rewrite <- Hid. apply list_elem_of_fmap. exists r'. split; [done|]. by eapply list_elem_of_lookup_2.
      * apply list_lookup_singleton_Some in Hl as [Hl <-]. by replace i with (length rs) by lia.
  - rewrite lookup_insert_ne, IH by done. split.
    + intros (i & r' & Hi & ?). exists i, r'. split; [by apply Hold|done].
    + intros (i & r' & Hi & Hid & ?). apply lookup_app_Some in Hi as [Hi|[_ Hl]]; [by eauto|].
      apply list_lookup_singleton_Some in Hl as [_ <-]. done.
Qed.

(** ** The scan reads the log back *)

Lemma event_size e : validate_event e = Ok tt ->
  exists es, event_to_vec e = Some es /\ Z.of_nat (length es) <= MAX_EVENT_BYTES.
Proof.
  intros (_ & _ & n & Hn & Hle)%event_validate_Ok. destruct (event_to_vec e) as [es|]; [|done].
  injection Hn as <-. exists es. split; [done|exact Hle].
Qed.

Lemma readable_line r : readable r -> exists bs, record_to_vec r = Some bs /\ line_of r = bs ++ [newline] /\
  newline ∉ bs /\ record_from_slice (line_of r) = Some r.
Proof.
  intros (bs & Hbs & [r' Hr']). exists bs. unfold line_of. rewrite Hbs. cbn [default].
  split_and!; [done|done|by eapply record_one_line|]. unfold id. rewrite record_trailing, Hr'.
  f_equal. by eapply record_inverse.
Qed.

Lemma line_size id r : name_ok id -> pos_journal (rec_position r) = id -> record_ok r ->
  Z.of_nat (length (line_of r)) <= MAX_EVENT_BYTES + 4096.
Proof.
  intros [_ Hid] Hp [Hv Hr]. destruct (readable_line r Hr) as (bs & Hbs & -> & _). rewrite length_app. cbn [length].
  destruct (event_size _ Hv) as (es & Hes & Hle). pose proof (record_size r bs es Hbs Hes). subst id. lia.
Qed.

Definition scan_state (start : nat) (retain : bool) rs : Scan Json :=
  mkScan (log_graph rs) (Z.of_nat (length rs)) (Z.of_nat (start + length (lines rs))) (if retain then rs else []).

Lemma lines_cons r rs : lines (r :: rs) = line_of r ++ lines rs.
Proof. done. Qed.
Lemma lines_app rs1 rs2 : lines (rs1 ++ rs2) = lines rs1 ++ lines rs2.
Proof. unfold lines. by rewrite fmap_app, concat_app. Qed.
Lemma lines_snoc rs r : lines (rs ++ [r]) = lines rs ++ line_of r.
Proof. rewrite lines_app, lines_cons. unfold lines. cbn. by rewrite app_nil_r. Qed.

Lemma scan_record_ok id start retain rs r :
  record_ok r -> rec_position r = mkPosition id (Z.of_nat (length rs)) -> rid r ∉ rid <$> rs ->
  scan_record id retain (line_of r) (scan_state start retain rs) = Ok (scan_state start retain (rs ++ [r])).
Proof.
  intros [Hv Hr] Hp Hni. destruct (readable_line r Hr) as (bs & _ & _ & _ & Hdec).
  unfold scan_record. rewrite Hdec. cbn [ok_or mbind result_bind]. rewrite Hv, Hp. cbn [mbind result_bind pos_journal pos_offset scan_state sc_offset sc_ids sc_valid sc_records].
  rewrite (bool_decide_true (id = id)), Z.eqb_refl by done. cbn [andb ensure mbind result_bind].
  rewrite (bool_decide_true (log_graph rs !! _ = None)) by (by apply log_graph_None). cbn [ensure mbind result_bind].
  unfold scan_state. rewrite log_graph_snoc, lines_snoc, !length_app. cbn [length].
  repeat f_equal; [lia|lia|]. by destruct retain.
Qed.

(** Where a scan stops: at the end, or before a torn line that may be repaired. *)
Definition tail_ok (tail : list byte) : Prop :=
  newline ∉ tail /\ Z.of_nat (length tail) <= MAX_EVENT_BYTES + 4096.

Lemma scan_loop_tail fuel id repair retain tail (s : Scan Json) :
  tail_ok tail -> repair = true \/ tail = [] ->
  scan_loop (S fuel) id repair retain tail s = Some (Ok s).
Proof.
  intros [Hn Hl] Hr. cbn [scan_loop]. rewrite read_line_tail by done. destruct tail as [|b tail]; [done|].
  rewrite incomplete_tail by done. destruct Hr as [->|]; [done|discriminate].
Qed.

Lemma scan_loop_torn fuel id retain tail (s : Scan Json) :
  tail_ok tail -> tail <> [] ->
  scan_loop (S fuel) id false retain tail s = Some (Err "incomplete trace tail"%string).
Proof.
  intros [Hn Hl] Hr. cbn [scan_loop]. rewrite read_line_tail by done. destruct tail as [|b tail]; [done|].
  by rewrite incomplete_tail.
Qed.

Lemma scan_loop_lines id repair retain start tail rs2 rs1 fuel :
  name_ok id ->
  (forall i r, (rs1 ++ rs2) !! i = Some r -> rec_position r = mkPosition id (Z.of_nat i)) ->
  (forall r, r ∈ rs2 -> record_ok r) -> NoDup (rid <$> rs1 ++ rs2) ->
  (length (lines rs2 ++ tail) < fuel)%nat ->
  exists fuel', (length tail < fuel')%nat /\
  scan_loop fuel id repair retain (lines rs2 ++ tail) (scan_state start retain rs1) =
  scan_loop fuel' id repair retain tail (scan_state start retain (rs1 ++ rs2)).
Proof.
  intros Hid. revert rs1 fuel. induction rs2 as [|r rs2 IH]; intros rs1 fuel Hpos Hok Hnd Hf.
  { exists fuel. rewrite app_nil_r. split; [exact Hf|done]. }
  rewrite lines_cons, <- app_assoc in Hf |- *. rewrite length_app in Hf. destruct fuel as [|fuel]; [lia|].
  pose proof (Hpos _ _ (list_lookup_middle rs1 rs2 r _ eq_refl)) as Hp.
  assert (record_ok r) as Hr by (apply Hok; left).
  assert (rid r ∉ rid <$> rs1) as Hni.
  { rewrite cons_middle, app_assoc, fmap_app, NoDup_app in Hnd. destruct Hnd as [Hnd _]. apply ids_snoc in Hnd as [_ Hni]. exact Hni. }
  pose proof (line_size id r Hid ltac:(by rewrite Hp) Hr) as Hsz.
  destruct (readable_line r (proj2 Hr)) as (bs & _ & Hline & Hnl & _).
  rewrite (cons_middle r rs1 rs2), (app_assoc rs1) in Hpos, Hnd |- *.
  destruct (IH (rs1 ++ [r]) fuel Hpos) as (fuel' & Hf' & Heq); [intros ? ?; apply Hok; by right|done| |].
  { rewrite Hline, !length_app in Hf. rewrite length_app. cbn [length] in Hf. lia. }
  exists fuel'. split; [done|]. rewrite <- Heq, Hline. cbn [scan_loop]. rewrite <- app_assoc. cbn [app].
  rewrite Hline, length_app in Hsz. cbn [length] in Hsz. rewrite read_line_complete by (done || lia).
  destruct (bs ++ [newline]) as [|b l] eqn:E; [by destruct bs|]. rewrite <- E in Hline |- *. rewrite complete_line. cbn [negb].
  rewrite <- Hline, (scan_record_ok id start retain rs1 r Hr Hp Hni). done.
Qed.

(** The whole loop skips over the log to the tail. *)
Lemma scan_loop_log id rs repair retain start tail :
  log_ok id rs -> exists fuel,
  scan_loop (S (length (lines rs ++ tail))) id repair retain (lines rs ++ tail) (mkScan ∅ 0 (Z.of_nat start) []) =
  scan_loop (S fuel) id repair retain tail (scan_state start retain rs).
Proof.
  intros [Hn Hp Hv Hi _].
  destruct (scan_loop_lines id repair retain start tail rs [] (S (length (lines rs ++ tail))) Hn Hp Hv Hi ltac:(lia))
    as (fuel & Hf & Heq).
  destruct fuel as [|fuel]; [lia|]. exists fuel. rewrite app_nil_l in Heq. rewrite <- Heq. f_equal. unfold scan_state. cbn.
  rewrite Nat.add_0_r. by destruct retain.
Qed.

Lemma scan_header_ok id rest :
  name_ok id -> scan_header (header_line id ++ rest) = Ok (id, (header_line id, rest)).
Proof.
  intros [He Hl]. unfold scan_header, header_line. pose proof (header_size (mkHeader trace_format id)) as Hs.
  cbn [hdr_format hdr_journal] in Hs. change (len trace_format) with 14%nat in Hs.
  rewrite <- app_assoc. cbn [app]. rewrite read_line_complete; [|apply header_one_line|unfold MAX_EVENT_BYTES; lia].
  cbn [mbind result_bind fst]. rewrite complete_line, header_inverse. cbn [ensure ok_or mbind result_bind hdr_format hdr_journal].
  rewrite (bool_decide_true (trace_format = trace_format)), He by done. cbn [negb andb]. rewrite (proj2 (Nat.leb_le _ _)) by done. done.
Qed.

(** The file of a log, with the bytes of a torn line at its end. *)
Definition stored (id : string) rs (tail file : list byte) : Prop :=
  log_ok id rs /\ tail_ok tail /\ file = header_line id ++ lines rs ++ tail.

Lemma scan_stored id rs tail file repair retain :
  stored id rs tail file -> repair = true \/ tail = [] ->
  scan file repair retain = Some (Ok (id, if retain then rs else [], header_line id ++ lines rs)).
Proof.
  intros (Hlog & Ht & ->) Hr. unfold scan. rewrite (scan_header_ok id _ (lo_name _ _ Hlog)).
  destruct (scan_loop_log id rs repair retain (length (header_line id)) tail Hlog) as [fuel ->].
  rewrite (scan_loop_tail _ _ _ _ _ _ Ht Hr). cbn [sc_ids scan_state sc_valid sc_records].
  destruct (validate_causality_correct (log_graph rs)) as [[-> _]|[_ Hc]]; [|by destruct (Hc (lo_acyclic _ _ Hlog))].
  do 3 f_equal. rewrite Nat2Z.id, !length_app.
  assert (take (length (header_line id) + length (lines rs)) (header_line id ++ lines rs ++ tail) = header_line id ++ lines rs) as Htake.
  { rewrite app_assoc, <- length_app. apply take_app_length. }
  destruct tail as [|b tail]; [|].
  - rewrite app_nil_r in Htake |- *. rewrite Htake. by destruct (_ && _).
  - destruct Hr as [->|]; [|discriminate]. cbn [andb]. rewrite (proj2 (Z.eqb_neq _ _)) by (cbn [length]; lia). exact Htake.
Qed.

Lemma scan_torn id rs tail file retain :
  stored id rs tail file -> tail <> [] -> scan file false retain = Some (Err "incomplete trace tail"%string).
Proof.
  intros (Hlog & Ht & ->) Hne. unfold scan. rewrite (scan_header_ok id _ (lo_name _ _ Hlog)).
  destruct (scan_loop_log id rs false retain (length (header_line id)) tail Hlog) as [fuel ->].
  by rewrite scan_loop_torn.
Qed.

(** ** Opening rebuilds the indexes *)

Lemma digest_hash e : validate_event e = Ok tt -> digest e = Ok (hash e).
Proof. intros (es & Hes & _)%event_size. unfold digest, hash. by rewrite Hes. Qed.

Lemma index_log rs :
  (forall r, r ∈ rs -> record_ok r) -> NoDup (rid <$> rs) -> index rs = Ok (log_seen rs, log_graph rs).
Proof.
  unfold index. induction rs as [|r rs IH] using rev_ind; intros Hok Hnd; [done|].
  apply ids_snoc in Hnd as [Hnd Hni]. rewrite fold_res_app, IH; [|intros ? ?; apply Hok, elem_of_app; by left|done].
  cbn [mbind result_bind fold_res]. unfold index_record. cbn [fst snd].
  rewrite digest_hash by (apply Hok, elem_of_app; right; left). cbn [mbind result_bind].
  rewrite bool_decide_true by (by apply log_seen_None). cbn [ensure mbind result_bind].
  by rewrite log_seen_snoc, log_graph_snoc.
Qed.

(** An event is open when a record refers to it and it is not recorded. *)
Definition unresolved_ok (g : graph) (unresolved : gset string) : Prop :=
  forall x, x ∈ unresolved <-> (exists y, cause g y x) /\ g !! x = None.

Lemma unresolved_of_ok (g : graph) : unresolved_ok g (unresolved_of g).
Proof.
  intros x. unfold unresolved_of. rewrite elem_of_list_to_set, list_elem_of_In, filter_In, <- list_elem_of_In, bool_decide_eq_true.
  f_equiv. rewrite list_elem_of_In, in_concat. split.
  - intros (cs & Hcs & Hx). apply list_elem_of_In in Hcs, Hx. apply list_elem_of_fmap in Hcs as ([y cs'] & -> & Hy).
    apply elem_of_map_to_list in Hy. exists y, cs'. done.
  - intros (y & cs & Hy & Hx). exists cs. rewrite <- !list_elem_of_In. split; [|done].
    apply list_elem_of_fmap. exists (y, cs). split; [done|]. by apply elem_of_map_to_list.
Qed.

(** A usable journal holds a log: its indexes and its storage agree with it. *)
Record holds j rs : Prop := {
  h_log : log_ok (js_id (jn_state j)) rs;
  h_usable : js_poisoned (jn_state j) = false;
  h_seen : js_seen (jn_state j) = log_seen rs;
  h_causes : js_causes (jn_state j) = log_graph rs;
  h_unresolved : unresolved_ok (log_graph rs) (js_unresolved (jn_state j));
  h_storage : match js_file (jn_state j) with
              | Some file => file = header_line (js_id (jn_state j)) ++ lines rs
              | None => js_memory (jn_state j) = rs
              end
}.

Lemma nil_log_ok id : name_ok id -> log_ok id [].
Proof.
  intros Hid. split; [done|done|by intros ? ?%elem_of_nil|constructor|].
  intros x Hx. by apply cause_source in Hx as [? ?].
Qed.

Lemma header_not_empty id (rest : list byte) : header_line id ++ rest <> [].
Proof. unfold header_line. by destruct (header_to_vec _). Qed.

Lemma open_stored uuid id rs tail file :
  stored id rs tail file -> exists j, open uuid file = Some (Ok j) /\ holds j rs /\
    js_id (jn_state j) = id /\ js_file (jn_state j) = Some (header_line id ++ lines rs) /\ jn_live j = [].
Proof.
  intros Hst. pose proof Hst as (Hlog & _ & Hf). unfold open. rewrite bool_decide_false by (rewrite Hf; apply header_not_empty).
  rewrite (scan_stored _ _ _ _ true true Hst) by auto. rewrite index_log by apply Hlog. cbn [mbind result_bind fst snd].
  eexists. split; [done|]. split; [|done]. split; cbn; [done|done|done|done|apply unresolved_of_ok|done].
Qed.

Lemma open_fresh uuid : name_ok uuid -> exists j, open uuid [] = Some (Ok j) /\ holds j [] /\
  js_id (jn_state j) = uuid /\ js_file (jn_state j) = Some (header_line uuid) /\ jn_live j = [].
Proof.
  intros Hid. unfold open. rewrite bool_decide_true by done. eexists. split; [done|]. split; [|done].
  split; cbn; [by apply nil_log_ok|done|done|done|apply (unresolved_of_ok ∅)|by rewrite app_nil_r].
Qed.

Lemma memory_holds uuid : name_ok uuid -> holds (memory uuid) [].
Proof.
  intros Hid. split; cbn; [by apply nil_log_ok|done|done|done| |done].
  intros x. split; [by intros ?%elem_of_empty|]. intros [(y & cs & Hy & _) _]. done.
Qed.

(** ** An append is a step of the log *)

(** The search for a cycle answers whether the graph would stay acyclic. *)
Lemma closes_cycle_correct j rs e :
  holds j rs -> ev_id e ∉ rid <$> rs -> ev_id e ∉ ev_caused_by e ->
  exists b, closes_cycle (jn_state j) e = Some b /\
    (b = false <-> acyclic (<[ev_id e := ev_caused_by e]> (log_graph rs))).
Proof.
  intros Hh Hni Hself. unfold closes_cycle. rewrite (h_causes _ _ Hh).
  assert (log_graph rs !! ev_id e = None) as Hg by (by apply log_graph_None).
  pose proof (acyclic_insert _ _ (ev_caused_by e) Hg (lo_acyclic _ _ (h_log _ _ Hh))) as Hac.
  case_bool_decide as Hun.
  - destruct (reaches_correct (log_graph rs) (ev_id e) (reverse (ev_caused_by e))) as (b & -> & Hb).
    exists b. split; [done|]. rewrite Hac. setoid_rewrite elem_of_reverse in Hb. rewrite <- Hb. destruct b; naive_solver.
  - exists false. split; [done|]. split; [intros _|done]. apply Hac, unreferenced_unreachable; [|done].
    intros y Hy. apply Hun, (h_unresolved _ _ Hh). eauto.
Qed.

Lemma resolve_fold (seen : gmap string (Z * list byte)) (cs : list string) (u : gset string) x :
  x ∈ foldl (fun unresolved id => if bool_decide (seen !! id = None) then {[id]} ∪ unresolved else unresolved) u cs <->
  x ∈ u \/ (x ∈ cs /\ seen !! x = None).
Proof.
  revert u. induction cs as [|c cs IH]; intros u; cbn [foldl]; [rewrite elem_of_nil; naive_solver|].
  rewrite IH, elem_of_cons. case_bool_decide; [rewrite elem_of_union, elem_of_singleton|]; naive_solver.
Qed.

Lemma unresolved_commit rs r (u : gset string) :
  unresolved_ok (log_graph rs) u -> rid r ∉ rid <$> rs ->
  unresolved_ok (log_graph (rs ++ [r]))
    (foldl (fun unresolved id => if bool_decide (log_seen (rs ++ [r]) !! id = None) then {[id]} ∪ unresolved else unresolved)
       (u ∖ {[rid r]}) (ev_caused_by (rec_event r))).
Proof.
  intros Hu Hni x. rewrite resolve_fold, elem_of_difference, elem_of_singleton, (Hu x), log_seen_None, log_graph_None, log_graph_None.
  rewrite log_graph_snoc. setoid_rewrite (cause_insert _ _ _ (proj2 (log_graph_None rs (rid r)) Hni)).
  rewrite fmap_app, not_elem_of_app. cbn. rewrite list_elem_of_singleton. naive_solver.
Qed.

(** The next record of a log. *)
Definition next_record (id : string) rs e : TraceRecord Json :=
  mkRecord (mkPosition id (Z.of_nat (length rs))) e.

(** What appending an event to a log may do: the new log and the answer. *)
Inductive log_append (id : string) (d : Durability) rs e :
    list (TraceRecord Json) -> Result AppendError Receipt -> Prop :=
  | LogInvalid why : validate_event e = Err why -> log_append id d rs e rs (Err (Rejected why))
  | LogRetry i r :
      validate_event e = Ok tt -> rs !! i = Some r -> rid r = ev_id e -> hash (rec_event r) = hash e ->
      log_append id d rs e rs (Ok (mkReceipt (ev_id e) (mkPosition id (Z.of_nat i)) d))
  | LogConflict i r :
      validate_event e = Ok tt -> rs !! i = Some r -> rid r = ev_id e -> hash (rec_event r) <> hash e ->
      log_append id d rs e rs (Err (Rejected "event identity has different content"%string))
  | LogCycle :
      validate_event e = Ok tt -> ev_id e ∉ rid <$> rs -> ~ acyclic (log_graph (rs ++ [next_record id rs e])) ->
      log_append id d rs e rs (Err (Rejected "causal cycle"%string))
  | LogUnreadable why :
      validate_event e = Ok tt -> ev_id e ∉ rid <$> rs -> ~ readable (next_record id rs e) ->
      log_append id d rs e rs (Err (Rejected why))
  | LogCommit :
      validate_event e = Ok tt -> ev_id e ∉ rid <$> rs -> acyclic (log_graph (rs ++ [next_record id rs e])) ->
      readable (next_record id rs e) ->
      log_append id d rs e (rs ++ [next_record id rs e])
        (Ok (mkReceipt (ev_id e) (mkPosition id (Z.of_nat (length rs))) d)).

(** A log stays well formed when a step of [log_append] commits. *)
Lemma log_ok_snoc id rs e :
  log_ok id rs -> validate_event e = Ok tt -> ev_id e ∉ rid <$> rs ->
  acyclic (log_graph (rs ++ [next_record id rs e])) -> readable (next_record id rs e) ->
  log_ok id (rs ++ [next_record id rs e]).
Proof.
  intros [Hn Hp Hv Hi _] He Hni Ha Hr. split; [done| | |by apply ids_snoc|done].
  - intros i r Hir. apply lookup_app_Some in Hir as [Hir|[Hl Hir]]; [by apply Hp|].
    apply list_lookup_singleton_Some in Hir as [Hir <-]. cbn. f_equal. lia.
  - intros r [Hin| ->%list_elem_of_singleton]%elem_of_app; [by apply Hv|]. by split.
Qed.

(** Entering the next record into the indexes. *)
Lemma commit_holds j rs e file mem live :
  holds j rs -> let id := js_id (jn_state j) in let r := next_record id rs e in
  log_ok id (rs ++ [r]) ->
  match file with Some f => f = header_line id ++ lines (rs ++ [r]) | None => mem = rs ++ [r] end ->
  let st := jn_state j in
  holds (mkJournal (commit (mkJournalState id file (js_seen st) (js_causes st) (js_unresolved st) mem false) r (hash e)) live)
    (rs ++ [r]).
Proof.
  intros Hh id r Hlog Hf st. pose proof (lo_ids _ _ Hlog) as Hnd. apply ids_snoc in Hnd as [_ Hni]. unfold commit.
  split; cbn [jn_state js_id js_poisoned js_seen js_causes js_unresolved js_file js_memory].
  - exact Hlog.
  - reflexivity.
  - unfold st. rewrite (h_seen _ _ Hh). symmetry. apply log_seen_snoc.
  - unfold st. rewrite (h_causes _ _ Hh). symmetry. apply log_graph_snoc.
  - unfold st. rewrite (h_seen _ _ Hh). pose proof (unresolved_commit rs r _ (h_unresolved _ _ Hh) Hni) as Hu.
    rewrite log_seen_snoc in Hu. exact Hu.
  - exact Hf.
Qed.

(** The storing half of [append] on a record that may be committed. *)
Lemma store_committed io j rs e :
  holds j rs -> let id := js_id (jn_state j) in let r := next_record id rs e in
  log_ok id (rs ++ [r]) -> io = Synced \/ js_file (jn_state j) = None ->
  exists j', store io j e (hash e) =
      (j', Ok (mkReceipt (ev_id e) (mkPosition id (Z.of_nat (length rs))) (durability (jn_state j)))) /\
    holds j' (rs ++ [r]) /\ js_id (jn_state j') = id /\ durability (jn_state j') = durability (jn_state j) /\
    jn_live j' = jn_live j ++ [e].
Proof.
  intros Hh id r Hlog Hio. assert (readable r) as Hr by (apply Hlog, elem_of_app; right; left).
  destruct (readable_line r Hr) as (bs & Hbs & Hline & _). destruct Hr as (bs' & Hbs' & Hdec).
  assert (bs' = bs) as -> by congruence.
  unfold store. rewrite (h_seen _ _ Hh), log_seen_size by apply (h_log _ _ Hh).
  change (mkRecord _ e) with r. rewrite Hbs. destruct Hdec as [r' ->].
  pose proof (h_storage _ _ Hh) as Hst. destruct (js_file (jn_state j)) as [file|] eqn:Ef.
  - destruct Hio as [->|]; [|discriminate]. eexists. split; [reflexivity|].
    split; [|unfold durability; rewrite Ef; done]. unfold set_file. rewrite (h_usable _ _ Hh). apply commit_holds; [done|done|].
    cbn [write]. rewrite <- Hline, Hst, lines_snoc, app_assoc. reflexivity.
  - eexists. split; [reflexivity|]. split; [|unfold durability; cbn; rewrite Ef; done].
    unfold push_memory. rewrite Ef, (h_usable _ _ Hh), Hst. apply commit_holds; [done|done|done].
Qed.

(** A journal after a step of its log: same name and kind of storage, and the
    records that were added are the events published. *)
Definition stepped j rs j' rs' : Prop :=
  holds j' rs' /\ js_id (jn_state j') = js_id (jn_state j) /\ durability (jn_state j') = durability (jn_state j) /\
  jn_live j' = jn_live j ++ (rec_event <$> drop (length rs) rs').

(** The journal left by a write that failed. *)
Definition torn j rs e (n : nat) (file : list byte) : Journal Json :=
  mkJournal (set_file (jn_state j)
    (Some (file ++ take n (line_of (next_record (js_id (jn_state j)) rs e)))) true) (jn_live j).

Lemma stepped_same j rs : holds j rs -> stepped j rs j rs.
Proof. intros Hh. split_and!; [done..|]. by rewrite drop_all, app_nil_r. Qed.

Lemma drop_snoc rs r : drop (length rs) (rs ++ [r]) = [r].
Proof. apply drop_app_length. Qed.

(** A new event whose position is free is committed, refused or torn. *)
Lemma store_step io j rs e :
  holds j rs -> validate_event e = Ok tt -> ev_id e ∉ rid <$> rs ->
  let id := js_id (jn_state j) in let r := next_record id rs e in
  acyclic (log_graph (rs ++ [r])) ->
  (exists j' rs' res, store io j e (hash e) = (j', res) /\
     log_append id (durability (jn_state j)) rs e rs' res /\ stepped j rs j' rs') \/
  (exists n file, io = Failed n /\ js_file (jn_state j) = Some file /\ log_ok id (rs ++ [r]) /\
     store io j e (hash e) = (torn j rs e n file, Err (Unknown "write failed"%string))).
Proof.
  intros Hh Hv Hni id r Ha.
  assert (mkRecord (mkPosition id (Z.of_nat (size (js_seen (jn_state j))))) e = r) as Hrec
    by (by rewrite (h_seen _ _ Hh), log_seen_size by apply (h_log _ _ Hh)).
  destruct (record_to_vec r) as [bs|] eqn:Ebs;
    [destruct (record_from_slice bs) as [r'|] eqn:Edec|].
  - assert (readable r) as Hr by (exists bs; eauto).
    assert (log_ok id (rs ++ [r])) as Hlog by (apply log_ok_snoc; [apply Hh|done..]).
    destruct io as [|n]; [|destruct (js_file (jn_state j)) as [file|] eqn:Ef].
    + left. destruct (store_committed Synced j rs e Hh Hlog (or_introl eq_refl)) as (j' & Hs & Hh' & Hid & Hd & Hl).
      exists j', (rs ++ [r]). eexists. split; [exact Hs|]. split; [by apply LogCommit|].
      split_and!; [done..|]. by rewrite drop_snoc.
    + right. exists n, file. split_and!; [done..|]. unfold store, torn. rewrite Ef.
      fold id. rewrite Hrec, Ebs, Edec. fold r. unfold line_of. rewrite Ebs. reflexivity.
    + left. destruct (store_committed (Failed n) j rs e Hh Hlog (or_intror Ef)) as (j' & Hs & Hh' & Hid & Hd & Hl).
      exists j', (rs ++ [r]). eexists. split; [exact Hs|]. split; [by apply LogCommit|].
      split_and!; [done..|]. by rewrite drop_snoc.
  - left. exists j, rs, (Err (Rejected "unreadable trace record"%string)). unfold store. fold id. rewrite Hrec, Ebs, Edec.
    split; [done|]. split; [|by apply stepped_same]. apply LogUnreadable; [done..|].
    intros (bs' & Hbs' & [r' Hr']). unfold r in Ebs. congruence.
  - left. exists j, rs, (Err (Rejected "encoding failed"%string)). unfold store. fold id. rewrite Hrec, Ebs.
    split; [done|]. split; [|by apply stepped_same]. apply LogUnreadable; [done..|].
    intros (bs' & Hbs' & _). unfold r in Ebs. congruence.
Qed.

Lemma append_step io j rs e :
  holds j rs -> let id := js_id (jn_state j) in let r := next_record id rs e in
  (exists j' rs' res, append io j e = Some (j', res) /\
     log_append id (durability (jn_state j)) rs e rs' res /\ stepped j rs j' rs') \/
  (exists n file, io = Failed n /\ js_file (jn_state j) = Some file /\ log_ok id (rs ++ [r]) /\
     append io j e = Some (torn j rs e n file, Err (Unknown "write failed"%string))).
Proof.
  intros Hh id r. unfold append. destruct (validate_event e) as [[]|why] eqn:Hv; cbn [mbind result_bind].
  2:{ left. exists j, rs, (Err (Rejected why)). split_and!; [done|by apply LogInvalid|by apply stepped_same]. }
  rewrite digest_hash, (h_usable _ _ Hh), (h_seen _ _ Hh) by done.
  destruct (log_seen rs !! ev_id e) as [[offset prior]|] eqn:Hs.
  - left. apply (log_seen_Some _ _ _ _ _ (h_log _ _ Hh)) in Hs as (i & r' & Hi & Hid & -> & ->).
    exists j, rs. case_bool_decide as Hd; eexists; (split; [reflexivity|]); (split; [|by apply stepped_same]).
    + by eapply LogRetry.
    + by eapply LogConflict.
  - apply log_seen_None in Hs. pose proof (event_validate_Ok _ _ _ Hv) as (_ & Hself & _).
    destruct (closes_cycle_correct j rs e Hh Hs Hself) as (b & -> & Hb).
    change (<[ev_id e := ev_caused_by e]> (log_graph rs)) with (<[rid r := ev_caused_by (rec_event r)]> (log_graph rs)) in Hb.
    rewrite <- log_graph_snoc in Hb. destruct b.
    + left. exists j, rs, (Err (Rejected "causal cycle"%string)). split; [done|]. split; [|by apply stepped_same].
      apply LogCycle; [done..|]. intros Ha. apply Hb in Ha. discriminate.
    + destruct (store_step io j rs e Hh Hv Hs) as [(j' & rs' & res & -> & Hrest)|(n & file & -> & Hf & Hlog & ->)];
        [by apply Hb|left; eauto|right; eauto 10].
Qed.

(** ** Torn writes *)

Lemma holds_stored j rs file :
  holds j rs -> js_file (jn_state j) = Some file -> stored (js_id (jn_state j)) rs [] file.
Proof.
  intros Hh Hf. pose proof (h_storage _ _ Hh) as Hs. rewrite Hf in Hs. split; [apply Hh|]. split.
  - split; [by intros ?%elem_of_nil|cbn; unfold MAX_EVENT_BYTES; lia].
  - by rewrite app_nil_r.
Qed.

(** A line cut off before its newline is a tail; a whole line is a record. *)
Lemma torn_stored id rs r n :
  log_ok id rs -> log_ok id (rs ++ [r]) ->
  let file := header_line id ++ lines rs ++ take n (line_of r) in
  (stored id (rs ++ [r]) [] file /\ (length (line_of r) <= n)%nat) \/
  (stored id rs (take n (line_of r)) file /\ (n < length (line_of r))%nat).
Proof.
  intros Hlog Hlog' file. assert (record_ok r) as Hr by (apply Hlog', elem_of_app; right; left).
  destruct (readable_line r (proj2 Hr)) as (bs & _ & Hline & Hnl & _).
  assert (rec_position r = mkPosition id (Z.of_nat (length rs))) as Hp by (eapply lo_pos; [done|by apply list_lookup_middle]).
  pose proof (line_size id r (lo_name _ _ Hlog) ltac:(by rewrite Hp) Hr) as Hsz.
  destruct (le_lt_dec (length (line_of r)) n) as [Hle|Hlt]; [left|right]; (split; [|done]); (split; [done|]).
  - split; [split; [by intros ?%elem_of_nil|cbn; unfold MAX_EVENT_BYTES; lia]|].
    unfold file. rewrite take_ge, lines_snoc, app_nil_r by done. done.
  - split; [split|done]; [|rewrite length_take; lia]. rewrite Hline in Hlt |- *. rewrite length_app in Hlt. cbn [length] in Hlt.
    rewrite take_app_le by lia. intros (i & Hi & _)%elem_of_take. apply Hnl. by eapply list_elem_of_lookup_2.
Qed.

(** Appending an event again, with a write that succeeds. *)
Lemma retry_commits j rs e :
  holds j rs -> let id := js_id (jn_state j) in
  log_ok id (rs ++ [next_record id rs e]) ->
  exists j', append Synced j e =
      Some (j', Ok (mkReceipt (ev_id e) (mkPosition id (Z.of_nat (length rs))) (durability (jn_state j)))) /\
    holds j' (rs ++ [next_record id rs e]).
Proof.
  intros Hh id Hlog. set (r := next_record id rs e). pose proof (lo_ids _ _ Hlog) as [_ Hni]%ids_snoc.
  assert (record_ok r) as [Hv Hr] by (apply Hlog, elem_of_app; right; left).
  assert (forall i r', rs !! i = Some r' -> rid r' <> ev_id e) as Hnone.
  { intros i r' Hi Heq. apply Hni, list_elem_of_fmap. exists r'. split; [done|]. by eapply list_elem_of_lookup_2. }
  destruct (append_step Synced j rs e Hh) as [(j' & rs' & res & Ha & Hl & Hst)|(n & file & [=] & _)].
  destruct Hst as [Hh' _].
  cbn [rec_event next_record r] in Hv.
  inversion Hl as [why Hw|i r' ? Hi Hid|i r' ? Hi Hid|? ? Hc|why ? ? Hc|]; subst.
  - congruence.
  - by destruct (Hnone i r' Hi).
  - by destruct (Hnone i r' Hi).
  - by destruct (Hc (lo_acyclic _ _ Hlog)).
  - by destruct (Hc Hr).
  - exists j'. split; [exact Ha|exact Hh'].
Qed.

Lemma retry_recorded j rs r :
  holds j (rs ++ [r]) -> exists j', append Synced j (rec_event r) =
      Some (j', Ok (mkReceipt (rid r) (mkPosition (js_id (jn_state j)) (Z.of_nat (length rs))) (durability (jn_state j)))) /\
    holds j' (rs ++ [r]).
Proof.
  intros Hh. assert (record_ok r) as [Hv Hr] by (apply (h_log _ _ Hh), elem_of_app; right; left).
  exists j. split; [|done]. unfold append. rewrite Hv. cbn [mbind result_bind].
  rewrite digest_hash, (h_usable _ _ Hh), (h_seen _ _ Hh), log_seen_snoc by done. change (ev_id (rec_event r)) with (rid r).
  rewrite lookup_insert_eq, bool_decide_true by done. cbn [negb].
  by rewrite (lo_pos _ _ (h_log _ _ Hh) (length rs) r (list_lookup_middle _ _ _ _ eq_refl)).
Qed.

(** ** Histories with failures *)

Inductive Action := DoAppend (io : WriteOutcome) (e : Event Json) | DoReopen (uuid : string).

(** One action and the acknowledgement it returned, if any. *)
Definition act (j : Journal Json) (a : Action) : option (Journal Json * list (Event Json * Receipt)) :=
  match a with
  | DoAppend io e =>
      match append io j e with
      | Some (j, Ok receipt) => Some (j, [(e, receipt)])
      | Some (j, Err _) => Some (j, [])
      | None => None
      end
  | DoReopen uuid =>
      match open uuid (default [] (js_file (jn_state j))) with
      | Some (Ok j) => Some (j, [])
      | _ => None
      end
  end.

Fixpoint run (actions : list Action) (j : Journal Json) : option (Journal Json * list (Event Json * Receipt)) :=
  match actions with
  | [] => Some (j, [])
  | a :: actions =>
      match act j a with
      | Some (j, acks) => match run actions j with Some (j, acks') => Some (j, acks ++ acks') | None => None end
      | None => None
      end
  end.

(** A receipt the log keeps. *)
Definition kept (id : string) rs (ack : Event Json * Receipt) : Prop :=
  exists i r, rs !! i = Some r /\ rcpt_position (snd ack) = mkPosition id (Z.of_nat i) /\
    rcpt_event (snd ack) = rid r /\ rid r = ev_id (fst ack) /\ hash (rec_event r) = hash (fst ack) /\
    rcpt_durability (snd ack) = LocalSync.

(** Between actions: the file stores the log, and the journal holds it unless a write failed. *)
Definition live (id : string) j rs : Prop :=
  exists tail file, js_id (jn_state j) = id /\ js_file (jn_state j) = Some file /\ stored id rs tail file /\
    (holds j rs \/ js_poisoned (jn_state j) = true).

Lemma holds_live j rs file : holds j rs -> js_file (jn_state j) = Some file -> live (js_id (jn_state j)) j rs.
Proof. intros Hh Hf. exists [], file. split_and!; [done|done|by apply holds_stored|by left]. Qed.

Lemma log_append_kept id rs e rs' receipt :
  log_append id LocalSync rs e rs' (Ok receipt) -> kept id rs' (e, receipt).
Proof.
  inversion 1 as [|i r Hv Hi Hid Hh| | | |Hv Hni Ha Hr]; subst.
  - exists i, r. by rewrite <- Hid.
  - exists (length rs), (next_record id rs e). split_and!; [by apply list_lookup_middle|done..].
Qed.

Lemma log_append_prefix id d rs e rs' res : log_append id d rs e rs' res -> rs `prefix_of` rs'.
Proof. destruct 1; try done. by apply prefix_app_r. Qed.

Lemma kept_prefix id rs rs' ack : rs `prefix_of` rs' -> kept id rs ack -> kept id rs' ack.
Proof. intros Hp (i & r & Hi & Hrest). exists i, r. split; [by eapply prefix_lookup_Some|done]. Qed.

Lemma act_live id j rs a :
  live id j rs -> exists j' acks rs', act j a = Some (j', acks) /\ live id j' rs' /\ rs `prefix_of` rs' /\ Forall (kept id rs') acks.
Proof.
  intros (tail & file & <- & Hf & Hst & Hj). destruct a as [io e|uuid]; cbn [act].
  - destruct Hj as [Hh|Hpois].
    + destruct (append_step io j rs e Hh) as [(j' & rs' & res & -> & Hl & Hh' & Hid & Hd & _)|(n & file' & -> & Hf' & Hlog & ->)].
      * assert (durability (jn_state j) = LocalSync) as Hdur by (unfold durability; by rewrite Hf).
        rewrite Hdur in Hl, Hd. assert (exists file', js_file (jn_state j') = Some file') as [file' Hf'].
        { unfold durability in Hd. destruct (js_file (jn_state j')); [eauto|done]. }
        assert (live (js_id (jn_state j)) j' rs') as Hlive by (rewrite <- Hid; by eapply holds_live).
        pose proof (log_append_prefix _ _ _ _ _ _ Hl) as Hpre.
        destruct res as [receipt|err]; [exists j', [(e, receipt)], rs'|exists j', [], rs']; (split_and!; [done..|]);
          constructor; [by eapply log_append_kept|constructor].
      * assert (file' = header_line (js_id (jn_state j)) ++ lines rs) as ->
          by (pose proof (h_storage _ _ Hh) as Hs; by rewrite Hf' in Hs).
        eexists. exists []. destruct (torn_stored _ rs _ n (h_log _ _ Hh) Hlog) as [[Hs _]|[Hs _]].
        -- exists (rs ++ [next_record (js_id (jn_state j)) rs e]). split; [done|]. split; [|split; [by apply prefix_app_r|constructor]].
           exists [], (header_line (js_id (jn_state j)) ++ lines rs ++ take n (line_of (next_record (js_id (jn_state j)) rs e))).
           split_and!; [done|cbn; by rewrite <- app_assoc|done|by right].
        -- exists rs. split; [done|]. split; [|split; [done|constructor]]. eexists _, _.
           split_and!; [done|cbn; by rewrite <- app_assoc|done|by right].
    + assert (exists err, append io j e = Some (j, Err err)) as [err ->].
      { unfold append. destruct (_ ← validate_event e; digest e) as [h|why]; [rewrite Hpois|]; eauto. }
      exists j, [], rs. split_and!; [done| |done|constructor]. exists tail, file. split_and!; [done..|by right].
  - rewrite Hf. cbn [default]. destruct (open_stored uuid _ _ _ _ Hst) as (j' & Ho & Hh & Hid & Hf' & _).
    unfold id in Ho |- *. rewrite Ho. exists j', [], rs. split_and!; [done| |done|constructor].
    rewrite <- Hid. by eapply holds_live.
Qed.

Lemma run_live id actions j rs :
  live id j rs -> exists j' acks rs', run actions j = Some (j', acks) /\ live id j' rs' /\ rs `prefix_of` rs' /\ Forall (kept id rs') acks.
Proof.
  revert j rs. induction actions as [|a actions IH]; intros j rs Hl; cbn [run].
  { exists j, [], rs. split_and!; [done|done|done|constructor]. }
  destruct (act_live id j rs a Hl) as (j1 & acks1 & rs1 & -> & Hl1 & Hp1 & Hk1).
  destruct (IH j1 rs1 Hl1) as (j2 & acks2 & rs2 & -> & Hl2 & Hp2 & Hk2).
  exists j2, (acks1 ++ acks2), rs2. split_and!; [done|done|by etrans|]. apply Forall_app. split; [|done].
  eapply Forall_impl; [done|]. intros ack. by apply kept_prefix.
Qed.

(** ** The properties *)

(** C3: an append whose write does not fail always answers, and its answer and
    effect are a step of the abstract log: an invalid event, a known identity
    with other content, a causal cycle and an unreadable record are rejected
    without any change; a retry returns the position of the original record;
    anything else is added at the end of the log, which stays well formed, with
    its causal graph acyclic. Exactly the committed events are published. *)
Theorem append_refines_log io j rs e :
  holds j rs -> io = Synced \/ js_file (jn_state j) = None ->
  exists j' rs' res, append io j e = Some (j', res) /\
    log_append (js_id (jn_state j)) (durability (jn_state j)) rs e rs' res /\ stepped j rs j' rs'.
Proof.
  intros Hh Hio. destruct (append_step io j rs e Hh) as [Hs|(n & file & -> & Hf & _)]; [exact Hs|].
  destruct Hio as [|Hio]; [discriminate|congruence].
Qed.

(** C4: after a failed write the journal refuses reads and valid appends, no
    event was published, and reopening the file succeeds whatever part of the
    line was written: it holds the log from before the append, or that log with
    the new record if the whole line had reached the file. Either way appending
    the event again answers with the position that follows the old log. *)
Theorem torn_write_recovers n j rs e why j' :
  holds j rs -> append (Failed n) j e = Some (j', Err (Unknown why)) ->
  let id := js_id (jn_state j) in let r := next_record id rs e in
  jn_live j' = jn_live j /\
  records j' = Some (Err "reopen journal after write error"%string) /\
  (forall io e', validate_event e' = Ok tt -> append io j' e' = Some (j', Err (Unknown "previous write failed"%string))) /\
  forall uuid, exists file j2 j3, js_file (jn_state j') = Some file /\ open uuid file = Some (Ok j2) /\
    holds j2 (if (length (line_of r) <=? n)%nat then rs ++ [r] else rs) /\
    append Synced j2 e = Some (j3, Ok (mkReceipt (ev_id e) (mkPosition id (Z.of_nat (length rs))) LocalSync)) /\
    holds j3 (rs ++ [r]).
Proof.
  intros Hh Ha id r. destruct (append_step (Failed n) j rs e Hh) as [(? & rs' & res & Ha' & Hl & _)|(n' & file & [= <-] & Hf & Hlog & Ha')];
    rewrite Ha in Ha'; [injection Ha' as -> <-; inversion Hl|]. injection Ha' as -> _.
  split; [done|]. split; [done|]. split.
  { intros io e' Hv. unfold append. by rewrite Hv, (digest_hash e' Hv). }
  intros uuid. pose proof (h_storage _ _ Hh) as Hs. rewrite Hf in Hs. fold id in Hs. fold id r in Hlog.
  exists (header_line id ++ lines rs ++ take n (line_of r)).
  destruct (torn_stored id rs r n (h_log _ _ Hh) Hlog) as [[Hst Hn]|[Hst Hn]];
    destruct (open_stored uuid _ _ _ _ Hst) as (j2 & Ho & Hh2 & Hid2 & Hf2 & _); exists j2;
    assert (durability (jn_state j2) = LocalSync) as Hd by (unfold durability; by rewrite Hf2).
  - destruct (retry_recorded j2 rs r Hh2) as (j3 & Hr & Hh3). rewrite Hid2, Hd in Hr. exists j3.
    rewrite (proj2 (Nat.leb_le _ _)) by done. split_and!; [cbn; by rewrite Hs, <- app_assoc|done..].
  - rewrite <- Hid2 in Hlog. destruct (retry_commits j2 rs e Hh2) as (j3 & Hr & Hh3); [by rewrite Hid2 in Hlog |- *|].
    rewrite Hid2, Hd in Hr. rewrite Hid2 in Hh3. exists j3.
    rewrite (proj2 (Nat.leb_gt _ _)) by done. split_and!; [cbn; by rewrite Hs, <- app_assoc|done..].
Qed.

(** C5: whatever sequence of appends, failed writes and reopenings follows the
    creation of a journal file, every operation terminates, the file can be
    opened again, and every receipt that was ever returned still names the
    position of a record with that event's identity and content. *)
Theorem acknowledged_events_survive uuid actions uuid' :
  name_ok uuid ->
  exists j0 j acks file j' rs, open uuid [] = Some (Ok j0) /\ run actions j0 = Some (j, acks) /\
    js_file (jn_state j) = Some file /\ open uuid' file = Some (Ok j') /\
    records j' = Some (Ok rs) /\ Forall (kept uuid rs) acks.
Proof.
  intros Hid. destruct (open_fresh uuid Hid) as (j0 & Ho & Hh & Hj & Hf & _).
  destruct (run_live uuid actions j0 []) as (j & acks & rs & Hrun & Hl & _ & Hk).
  { rewrite <- Hj. by eapply holds_live. }
  destruct Hl as (tail & file & Hjid & Hjf & Hst & _).
  destruct (open_stored uuid' _ _ _ _ Hst) as (j' & Ho' & Hh' & Hid' & Hf' & _).
  exists j0, j, acks, file, j', rs. split_and!; [done..| |done].
  unfold records. rewrite (h_usable _ _ Hh'), Hf'. pose proof (holds_stored _ _ _ Hh' Hf') as Hst'.
  by rewrite (scan_stored _ _ _ _ false true Hst') by auto.
Qed.

(** The records of a usable journal are its log; a snapshot within the
    limit is a file that validates and reads back as the same log, and a
    larger one, or one of a memory journal, is refused. *)
Theorem snapshot_reads_back j rs max :
  holds j rs ->
  records j = Some (Ok rs) /\
  match js_file (jn_state j) with
  | Some file =>
      if Z.of_nat (length file) <=? max
      then exists bytes, snapshot_to j max = Ok bytes /\ read bytes = Some (Ok rs) /\ validate bytes = Some (Ok tt)
      else snapshot_to j max = Err "trace exceeds artifact export limit"%string
  | None => snapshot_to j max = Err "durable trace export requires a file journal"%string
  end.
Proof.
  intros Hh. unfold records, snapshot_to. rewrite (h_usable _ _ Hh). cbn [negb ensure mbind result_bind].
  pose proof (h_storage _ _ Hh) as Hs. destruct (js_file (jn_state j)) as [file|] eqn:Hf; [|split; [by rewrite Hs|done]].
  pose proof (holds_stored _ _ _ Hh Hf) as Hst. rewrite (scan_stored _ _ _ _ false true Hst) by auto.
  split; [done|]. cbn [ok_or mbind result_bind]. destruct (_ <=? max) eqn:E; [|done].
  exists file. unfold read, validate. by rewrite !(scan_stored _ _ _ _ false _ Hst) by auto.
Qed.
End Facts.
