(* ===== verification/JournalCodec.v ===== *)
(** * A concrete codec and evaluated journals

    An instance of [Codec] for a fragment of the events (observations without
    payload and one-character names), its laws, and the instances at which the
    properties of the journal are evaluated. *)
From stdpp Require Import base tactics list strings gmap sets relations.
From Stdlib Require Import ZArith Lia Ascii.
From Stdlib.Strings Require Byte.
From S2P Require Import Prelude RustStr Types Execution Operation Causality Journal JournalFacts.
Local Open Scope Z_scope.

(** ** Names of one character *)

Definition enc1 (s : string) : option byte :=
  match s with
  | String c EmptyString => let b := byte_of_ascii c in if Byte.eqb b newline then None else Some b
  | _ => None
  end.
Definition dec1 (b : byte) : string := String (ascii_of_byte b) EmptyString.

Lemma eqb_newline b : Byte.eqb b newline = false <-> b <> newline.
Proof.
  split; [intros Hb ->; discriminate|]. intros Hb. destruct (Byte.eqb b newline) eqn:E; [|done].
  by apply Byte.byte_dec_bl in E.
Qed.

Lemma enc1_Some s b : enc1 s = Some b -> s = dec1 b /\ b <> newline.
Proof.
  destruct s as [|c [|]]; try done. cbn. destruct (Byte.eqb _ _) eqn:E; [done|]. intros [= <-].
  unfold dec1. rewrite ascii_of_byte_of_ascii. split; [done|]. by apply eqb_newline.
Qed.

Lemma enc_list (l : list string) bs : mapM enc1 l = Some bs -> l = dec1 <$> bs /\ newline ∉ bs.
Proof.
  intros Hl%mapM_Some_1. induction Hl as [|s b l bs Hs%enc1_Some _ [IH1 IH2]]; [split; [done|apply not_elem_of_nil]|].
  destruct Hs as [-> Hb]. cbn. rewrite IH1 at 1. split; [done|]. apply not_elem_of_cons. done.
Qed.

(** ** Events without payload *)

Definition plain_event (name : string) (causes : list string) : Event unit :=
  mkEvent 5 name "t" "runtime" 7 ["run"%string] None None causes LevelInfo Milestone
    (FactObservation "demo" "tick" 1 tt).

Definition is_plain (e : Event unit) : option (string * list string) :=
  match e with
  | mkEvent v name t p at_ms sc None None causes LevelInfo Milestone (FactObservation d n ver tt) =>
      if bool_decide (v = 5 /\ t = "t"%string /\ p = "runtime"%string /\ at_ms = 7 /\ sc = ["run"%string] /\
                      d = "demo"%string /\ n = "tick"%string /\ ver = 1)
      then Some (name, causes) else None
  | _ => None
  end.

Lemma is_plain_Some e name causes : is_plain e = Some (name, causes) -> e = plain_event name causes.
Proof.
  destruct e as [v nm t p ? sc [] [] cs [] [] []]; try done. cbn. destruct payload. case_bool_decide as Hb; [|done].
  destruct Hb as (-> & -> & -> & -> & -> & -> & -> & ->). by intros [= <- <-].
Qed.

Definition plain_bytes (e : Event unit) : option (list byte) :=
  nc ← is_plain e; b ← enc1 (fst nc); bs ← mapM enc1 (snd nc); Some (b :: bs).

Lemma plain_bytes_Some e bs : plain_bytes e = Some bs ->
  exists b cs, bs = b :: cs /\ e = plain_event (dec1 b) (dec1 <$> cs) /\ newline ∉ bs.
Proof.
  unfold plain_bytes. intros ([name causes] & Hp & Hb)%bind_Some. apply bind_Some in Hb as (b & Hb & Hc).
  apply bind_Some in Hc as (cs & Hc & [= <-]). cbn in Hb, Hc. apply is_plain_Some in Hp as ->.
  apply enc1_Some in Hb as [-> Hb]. apply enc_list in Hc as [-> Hc]. exists b, cs.
  split_and!; [done|done|]. by apply not_elem_of_cons.
Qed.

Definition offset_byte (z : Z) : option byte :=
  match z with 0 => Some Byte.x00 | 1 => Some Byte.x01 | 2 => Some Byte.x02 | _ => None end.

Definition plain_record (r : TraceRecord unit) : option (list byte) :=
  if bool_decide (pos_journal (rec_position r) = "j"%string) then
    o ← offset_byte (pos_offset (rec_position r)); bs ← plain_bytes (rec_event r); Some (o :: bs)
  else None.

Definition byte_offset (b : byte) : option Z :=
  match b with Byte.x00 => Some 0 | Byte.x01 => Some 1 | Byte.x02 => Some 2 | _ => None end.

Definition unplain (bytes : list byte) : option (TraceRecord unit) :=
  match List.filter (fun b => negb (Byte.eqb b newline)) bytes with
  | o :: name :: causes =>
      z ← byte_offset o; Some (mkRecord (mkPosition "j" z) (plain_event (dec1 name) (dec1 <$> causes)))
  | _ => None
  end.

Lemma filter_newline (bs : list byte) : newline ∉ bs -> List.filter (fun b => negb (Byte.eqb b newline)) bs = bs.
Proof.
  induction bs as [|b bs IH]; [done|]. intros [Hb Hn]%not_elem_of_cons. cbn.
  rewrite (proj2 (eqb_newline b)) by congruence. cbn. by rewrite IH.
Qed.

Lemma offset_byte_Some z o : offset_byte z = Some o -> o <> newline /\ byte_offset o = Some z.
Proof. destruct z as [|[[]|[]|]|]; cbn; try done; by intros [= <-]. Qed.

Lemma plain_record_Some r bs : plain_record r = Some bs ->
  exists es, plain_bytes (rec_event r) = Some es /\ length bs = S (length es) /\ newline ∉ bs /\ unplain bs = Some r.
Proof.
  unfold plain_record. case_bool_decide as Hj; [|done]. intros (o & Ho & Hb)%bind_Some.
  apply bind_Some in Hb as (es & Hes & [= <-]). exists es. destruct (plain_bytes_Some _ _ Hes) as (b & cs & -> & He & Hn).
  apply offset_byte_Some in Ho as [Ho Hz]. assert (newline ∉ o :: b :: cs) as Hall by (apply not_elem_of_cons; split; [congruence|done]).
  split_and!; [done|done|done|]. unfold unplain. rewrite filter_newline by done. rewrite Hz. cbn.
  destruct r as [[j z] e]. cbn in *. by subst.
Qed.

(** ** Headers: two bytes for each byte of the names *)

Definition nibbles (b : byte) : list byte :=
  let '(b0, (b1, (b2, (b3, (b4, (b5, (b6, b7))))))) := Byte.to_bits b in
  [Byte.of_bits (b0, (b1, (b2, (b3, (false, (false, (true, false)))))));
   Byte.of_bits (b4, (b5, (b6, (b7, (false, (false, (true, false)))))))].
Definition unnibble (x y : byte) : byte :=
  let '(b0, (b1, (b2, (b3, _)))) := Byte.to_bits x in
  let '(b4, (b5, (b6, (b7, _)))) := Byte.to_bits y in
  Byte.of_bits (b0, (b1, (b2, (b3, (b4, (b5, (b6, b7))))))).

Fixpoint enc_string (s : string) : list byte :=
  match s with EmptyString => [] | String c s => nibbles (byte_of_ascii c) ++ enc_string s end.

Fixpoint dec_string (stop : byte) (bytes : list byte) : option (string * list byte) :=
  match bytes with
  | [] => None
  | x :: rest =>
      if Byte.eqb x stop then Some (EmptyString, rest)
      else match rest with
           | y :: rest => sr ← dec_string stop rest; Some (String (ascii_of_byte (unnibble x y)) (fst sr), snd sr)
           | [] => None
           end
  end.

Definition plain_header (h : Header) : list byte :=
  enc_string (hdr_format h) ++ Byte.x20 :: enc_string (hdr_journal h).
Definition unplain_header (bytes : list byte) : option Header :=
  fr ← dec_string Byte.x20 bytes; jr ← dec_string newline (snd fr); Some (mkHeader (fst fr) (fst jr)).

Lemma nibbles_ok b : exists x y, nibbles b = [x; y] /\ unnibble x y = b /\ x <> newline /\ y <> newline /\
  Byte.eqb x newline = false /\ Byte.eqb x Byte.x20 = false.
Proof. destruct b; do 2 eexists; (split; [reflexivity|]); repeat split; discriminate. Qed.

Lemma enc_string_newline s : newline ∉ enc_string s.
Proof.
  induction s as [|c s IH]; [apply not_elem_of_nil|]. cbn.
  destruct (nibbles_ok (byte_of_ascii c)) as (x & y & -> & _ & Hx & Hy & _).
  cbn [app]. rewrite !not_elem_of_cons. split_and!; [congruence|congruence|done].
Qed.

Lemma dec_enc_string stop s rest : stop = newline \/ stop = Byte.x20 ->
  dec_string stop (enc_string s ++ stop :: rest) = Some (s, rest).
Proof.
  intros Hs. induction s as [|c s IH]; cbn.
  { by rewrite (Byte.byte_dec_lb (eq_refl stop)). }
  destruct (nibbles_ok (byte_of_ascii c)) as (x & y & -> & Hd & _ & _ & Hx1 & Hx2). cbn.
  assert (Byte.eqb x stop = false) as -> by (by destruct Hs as [-> | ->]). rewrite IH. cbn.
  by rewrite Hd, ascii_of_byte_of_ascii.
Qed.

Lemma enc_string_length s : length (enc_string s) = (2 * len s)%nat.
Proof.
  induction s as [|c s IH]; [done|]. cbn [enc_string]. destruct (nibbles_ok (byte_of_ascii c)) as (x & y & -> & _).
  cbn [app length]. rewrite IH. change (len (String c s)) with (S (len s)). lia.
Qed.

#[export] Instance plain_codec : Codec unit := {
  event_to_vec := plain_bytes;
  record_to_vec := plain_record;
  record_from_slice := unplain;
  header_to_vec := plain_header;
  header_from_slice := unplain_header;
  sha256 bytes := bytes
}.

#[export] Instance plain_laws : CodecLaws unit.
Proof.
  split; cbn.
  - intros r bs (es & _ & _ & Hn & _)%plain_record_Some. exact Hn.
  - intros bs. unfold unplain. rewrite List.filter_app. cbn. by rewrite app_nil_r.
  - intros r r' bs (es & _ & _ & _ & Hu)%plain_record_Some. congruence.
  - intros r bs es (es' & He & Hl & _)%plain_record_Some He'. assert (es' = es) as -> by congruence. lia.
  - intros h. unfold plain_header. rewrite not_elem_of_app, not_elem_of_cons. split_and!; [apply enc_string_newline|done|apply enc_string_newline].
  - intros [f j]. unfold unplain_header, plain_header. cbn [hdr_format hdr_journal]. rewrite <- app_assoc. cbn [app].
    rewrite dec_enc_string by auto. cbn. rewrite dec_enc_string by auto. done.
  - intros h. unfold plain_header. rewrite length_app. cbn. rewrite !enc_string_length. lia.
Qed.

(** ** Evaluated instances *)

Lemma demo_name : name_ok "j".
Proof. split; [reflexivity|cbn; lia]. Qed.

(** A journal whose record [a] refers to [b], which is not recorded yet. *)
Definition tick : Event unit := plain_event "a" ["b"%string].
Definition fresh : Journal unit :=
  match open "j" [] with Some (Ok j) => j | _ => memory "j" end.
Definition ticked : Journal unit :=
  match append Synced fresh tick with Some (j, _) => j | None => fresh end.

Lemma fresh_holds : holds fresh [].
Proof. unfold fresh. destruct (open_fresh "j" demo_name) as (j & -> & Hh & _). exact Hh. Qed.

Lemma ticked_holds : holds ticked [mkRecord (mkPosition "j" 0) tick].
Proof.
  destruct (append_step Synced fresh [] tick fresh_holds) as [(j' & rs' & res & Ha & Hl & Hst)|(n & file & [=] & _)].
  unfold ticked. rewrite Ha. destruct Hst as (Hh & _).
  assert (is_ok res = true) as Hok.
  { assert ((fun o => match o with Some (_, r) => is_ok r | None => false end) (append Synced fresh tick) = true) as Hc
      by (vm_compute; reflexivity). rewrite Ha in Hc. exact Hc. }
  inversion Hl as [| ? ? ? Hi | | | |]; subst; try discriminate Hok; [by rewrite lookup_nil in Hi|].
  exact Hh.
Qed.

(** Appending [b] caused by [a] would close a cycle. *)
Lemma append_refines_log_witness :
  (exists rs' res, log_append "j" LocalSync [mkRecord (mkPosition "j" 0) tick] (plain_event "b" ["a"%string]) rs' res) /\
  (exists j', append Synced ticked (plain_event "b" ["a"%string]) = Some (j', Err (Rejected "causal cycle"))) /\
  (exists j', append Synced ticked (plain_event "b" []) =
     Some (j', Ok (mkReceipt "b" (mkPosition "j" 1) LocalSync))).
Proof.
  split; [|split; eexists; vm_compute; reflexivity].
  destruct (append_refines_log Synced ticked _ (plain_event "b" ["a"%string]) ticked_holds (or_introl eq_refl))
    as (j' & rs' & res & _ & Hl & _). exists rs', res. exact Hl.
Defined.

(** Two bytes of the line for [b] reach the file. *)
Definition torn_ticked : Journal unit :=
  match append (Failed 2) ticked (plain_event "b" []) with Some (j, _) => j | None => ticked end.

Lemma torn_write_recovers_witness :
  append (Failed 2) ticked (plain_event "b" []) = Some (torn_ticked, Err (Unknown "write failed")) /\
  exists file j2 j3, js_file (jn_state torn_ticked) = Some file /\ open "k" file = Some (Ok j2) /\
    append Synced j2 (plain_event "b" []) = Some (j3, Ok (mkReceipt "b" (mkPosition "j" 1) LocalSync)).
Proof.
  assert (append (Failed 2) ticked (plain_event "b" []) = Some (torn_ticked, Err (Unknown "write failed"))) as Ha
    by (vm_compute; reflexivity).
  split; [exact Ha|]. destruct (torn_write_recovers 2 ticked _ _ _ _ ticked_holds Ha) as (_ & _ & _ & Hr).
  destruct (Hr "k"%string) as (file & j2 & j3 & Hf & Ho & _ & Hs & _). exists file, j2, j3.
  split; [exact Hf|]. split; [exact Ho|exact Hs].
Defined.

(** A commit, a failed write, a reopening and the retry. *)
Definition history : list (Action (Json := unit)) :=
  [DoAppend Synced tick; DoAppend (Failed 2) (plain_event "b" []); DoReopen "k"; DoAppend Synced (plain_event "b" [])].

Lemma acknowledged_events_survive_witness :
  name_ok "j" /\ exists j0 j acks rs, open "j" [] = Some (Ok j0) /\ run history j0 = Some (j, acks) /\
    Forall (kept "j" rs) acks.
Proof.
  split; [apply demo_name|]. destruct (acknowledged_events_survive "j" history "k" demo_name)
    as (j0 & j & acks & file & j' & rs & Ho & Hr & _ & _ & _ & Hk).
  exists j0, j, acks, rs. split; [exact Ho|]. split; [exact Hr|exact Hk].
Defined.
Lemma history_acks :
  match run history fresh with Some (_, acks) => (fun a => pos_offset (rcpt_position (snd a))) <$> acks | None => [] end = [0; 1].
Proof. vm_compute. reflexivity. Qed.

Lemma snapshot_reads_back_witness :
  records ticked = Some (Ok [mkRecord (mkPosition "j" 0) tick]) /\ is_ok (snapshot_to ticked 100) = true.
Proof.
  split; [|vm_compute; reflexivity]. exact (proj1 (snapshot_reads_back ticked _ 100 ticked_holds)).
Defined.
