(* ===== verification/Bytes.v ===== *)
(** * Bytes and registers

    [pvisor-vm/src/utils/byte_order.rs]: reading and writing little-endian
    integers in buffers that may be shorter or longer than the integer, with the
    facts on bits and on wrapping counters that the devices share. A buffer is a
    list of bytes, a byte a [Z] between 0 and 255. *)
From stdpp Require Import base tactics list.
From Stdlib Require Import ZArith Lia.
From S2P Require Import Prelude.
Local Open Scope Z_scope.

(** ** Little-endian integers *)

Definition is_byte (b : Z) : Prop := 0 <= b < 256.

(** [to_le_bytes] of an integer of [n] bytes, and [from_le_bytes]. *)
Fixpoint to_le_bytes (n : nat) (v : Z) : list Z :=
  match n with O => [] | S n => v mod 256 :: to_le_bytes n (v / 256) end.
Fixpoint from_le_bytes (l : list Z) : Z :=
  match l with [] => 0 | b :: l => b + 256 * from_le_bytes l end.

(** [generate_read_fn!]: missing bytes are zero, further bytes are ignored. *)
Definition read_le (n : nat) (input : list Z) : Z :=
  from_le_bytes (take n (input ++ replicate n 0)).
(** [generate_write_fn!]: only the bytes of the integer that fit are written. *)
Definition write_le (n : nat) (buf : list Z) (v : Z) : list Z :=
  take (length buf) (to_le_bytes n v) ++ drop n buf.

Definition read_le_u16 : list Z -> Z := read_le 2.
Definition read_le_u32 : list Z -> Z := read_le 4.
Definition write_le_u16 : list Z -> Z -> list Z := write_le 2.
Definition write_le_u32 : list Z -> Z -> list Z := write_le 4.

Lemma to_le_bytes_length n v : length (to_le_bytes n v) = n.
Proof. revert v. induction n as [|n IH]; intros v; cbn; [done|]. by rewrite IH. Qed.

Lemma to_le_bytes_byte n v : Forall is_byte (to_le_bytes n v).
Proof.
  revert v. induction n as [|n IH]; intros v; cbn; constructor; [|apply IH].
  apply Z.mod_pos_bound. lia.
Qed.

Lemma from_to_le_bytes n v : 0 <= v < 256 ^ Z.of_nat n -> from_le_bytes (to_le_bytes n v) = v.
Proof.
  revert v. induction n as [|n IH]; intros v Hv; cbn [to_le_bytes from_le_bytes].
  { change (256 ^ Z.of_nat 0) with 1 in Hv. lia. }
  rewrite Nat2Z.inj_succ, Z.pow_succ_r in Hv by lia. rewrite IH.
  - pose proof (Z.div_mod v 256 ltac:(lia)). lia.
  - split; [apply Z.div_pos; lia|]. apply Z.div_lt_upper_bound; lia.
Qed.

Lemma from_le_bytes_bound l : Forall is_byte l -> 0 <= from_le_bytes l < 256 ^ Z.of_nat (length l).
Proof.
  induction 1 as [|b l Hb _ IH]; [done|]. cbn [from_le_bytes length].
  rewrite Nat2Z.inj_succ, Z.pow_succ_r by lia. unfold is_byte in Hb. lia.
Qed.

Lemma to_from_le_bytes l : Forall is_byte l -> to_le_bytes (length l) (from_le_bytes l) = l.
Proof.
  induction 1 as [|b l Hb _ IH]; [done|]. cbn [from_le_bytes length to_le_bytes]. unfold is_byte in Hb. f_equal.
  - rewrite Z.mul_comm, Z_mod_plus_full. apply Z.mod_small. lia.
  - rewrite (Z.mul_comm 256), Z.div_add, Z.div_small by lia. apply IH.
Qed.

Lemma read_le_exact n l : length l = n -> read_le n l = from_le_bytes l.
Proof. intros <-. unfold read_le. by rewrite take_app_length. Qed.

Lemma write_le_exact n l v : length l = n -> write_le n l v = to_le_bytes n v.
Proof.
  intros <-. unfold write_le. rewrite drop_all, app_nil_r. rewrite take_ge; [done|]. by rewrite to_le_bytes_length.
Qed.

Lemma write_le_length n l v : length (write_le n l v) = length l.
Proof. unfold write_le. rewrite length_app, length_take, length_drop, to_le_bytes_length. lia. Qed.

(** ** Wrapping counters *)

Definition wrap (w x : Z) : Z := x mod 2 ^ w.
Notation wrap16 := (wrap 16).
Notation wrap32 := (wrap 32).
Notation wrap64 := (wrap 64).

Lemma wrap_range w x : 0 <= w -> 0 <= wrap w x < 2 ^ w.
Proof. intros Hw. apply Z.mod_pos_bound. by apply Z.pow_pos_nonneg. Qed.
Lemma wrap_small w x : is_uint w x -> wrap w x = x.
Proof. intros Hx. by apply Z.mod_small. Qed.
Lemma wrap_add_l w x y : wrap w (wrap w x + y) = wrap w (x + y).
Proof. unfold wrap. apply Zplus_mod_idemp_l. Qed.
Lemma wrap_add_r w x y : wrap w (x + wrap w y) = wrap w (x + y).
Proof. unfold wrap. apply Zplus_mod_idemp_r. Qed.
Lemma wrap_sub_l w x y : wrap w (wrap w x - y) = wrap w (x - y).
Proof. unfold wrap. apply Zminus_mod_idemp_l. Qed.
Lemma wrap_sub_r w x y : wrap w (x - wrap w y) = wrap w (x - y).
Proof. unfold wrap. apply Zminus_mod_idemp_r. Qed.
#[export] Hint Rewrite wrap_add_l wrap_add_r wrap_sub_l wrap_sub_r : wrap.

(** A wrapped counter reduces to the same ring slot as the unbounded one, since
    the size of the ring is a power of two. *)
Lemma wrap_mod_pow2 w k x : 0 <= k <= w -> wrap w x mod 2 ^ k = x mod 2 ^ k.
Proof.
  intros Hk. unfold wrap. symmetry. apply Znumtheory.Zmod_div_mod; [by apply Z.pow_pos_nonneg; lia..|].
  exists (2 ^ (w - k)). rewrite <- Z.pow_add_r by lia. f_equal. lia.
Qed.

(** ** Bits *)

(** [x & !mask] on unsigned registers. *)
Definition clear (x mask : Z) : Z := Z.ldiff x mask.
Definition has (x mask : Z) : bool := negb (Z.land x mask =? 0).

Lemma bits_above w x i : 0 <= w -> is_uint w x -> w <= i -> Z.testbit x i = false.
Proof.
  intros Hw Hx Hi. rewrite <- (Z.mod_small x (2 ^ w) Hx). by apply Z.mod_pow2_bits_high.
Qed.

Lemma uint_bits w x : 0 <= w -> 0 <= x -> (forall i, w <= i -> Z.testbit x i = false) -> is_uint w x.
Proof.
  intros Hw Hx Hb. assert (x = x mod 2 ^ w) as ->; [|apply Z.mod_pos_bound; by apply Z.pow_pos_nonneg].
  apply Z.bits_inj'. intros i Hi. destruct (Z.ltb_spec i w).
  - by rewrite Z.mod_pow2_bits_low.
  - rewrite Z.mod_pow2_bits_high by lia. by apply Hb.
Qed.

Lemma land_uint w x m : 0 <= w -> is_uint w x -> is_uint w (Z.land x m).
Proof.
  intros Hw Hx. apply uint_bits; [done|apply Z.land_nonneg; left; apply Hx|].
  intros i Hi. by rewrite Z.land_spec, (bits_above w) by done.
Qed.

Lemma lor_uint w x y : 0 <= w -> is_uint w x -> is_uint w y -> is_uint w (Z.lor x y).
Proof.
  intros Hw Hx Hy. apply uint_bits; [done|apply Z.lor_nonneg; split; [apply Hx|apply Hy]|].
  intros i Hi. by rewrite Z.lor_spec, !(bits_above w) by done.
Qed.

Lemma clear_uint w x m : 0 <= w -> is_uint w x -> is_uint w (clear x m).
Proof.
  intros Hw Hx. apply uint_bits; [done|apply Z.ldiff_nonneg; left; apply Hx|].
  intros i Hi. by rewrite Z.ldiff_spec, (bits_above w) by done.
Qed.
#[export] Hint Resolve wrap_range land_uint lor_uint clear_uint : pvisor.
