(* ===== verification/Bus.v ===== *)
(** * The device bus

    [pvisor-vm/src/devices/bus.rs]: an address space in which devices own
    disjoint ranges, and accesses are routed to the owner with an offset. The
    [BTreeMap] keyed by [BusRange] (ordered by its base alone) is a list of
    entries in that order; devices are shared ([Arc<Mutex<_>>]) and may be
    inserted more than once, so the bus holds their identities and their states
    are in a heap. [None] is a panic: an overflow in a build that checks for
    it, or one raised by the device. *)
From stdpp Require Import base tactics list gmap sorting.
From Stdlib Require Import ZArith Lia.
From S2P Require Import Prelude.
Local Open Scope Z_scope.

(** [trait BusDevice]: the new state, and the data for a read. *)
Class BusDevice (D : Type) := {
  dev_read : D -> Z -> Z -> list Z -> option (D * list Z);
  dev_write : D -> Z -> Z -> list Z -> option D
}.

Record BusRange := mkBusRange { br_base : Z; br_len : Z }.
Inductive BusError := Overlap.

(** The entries of the map, in the order of their keys. *)
Record Bus := mkBus { bus_devices : list (BusRange * nat) }.
Definition bus_new : Bus := mkBus [].

(** [BTreeMap::insert]: the value that was replaced, and the map; the key of an
    entry that is replaced stays as it was. *)
Fixpoint btree_insert (k : BusRange) (v : nat) (l : list (BusRange * nat)) : option nat * list (BusRange * nat) :=
  match l with
  | [] => (None, [(k, v)])
  | (k', v') :: l' =>
      if br_base k <? br_base k' then (None, (k, v) :: l)
      else if br_base k =? br_base k' then (Some v', (k', v) :: l')
      else let '(old, l') := btree_insert k v l' in (old, (k', v') :: l')
  end.

Definition first_before (b : Bus) (addr : Z) : option (BusRange * nat) :=
  find (fun '(range, _) => br_base range <=? addr) (reverse (bus_devices b)).

Definition get_device (b : Bus) (addr : Z) : option (Z * nat) :=
  match first_before b addr with
  | Some (mkBusRange start len, dev) => let offset := addr - start in if offset <? len then Some (offset, dev) else None
  | None => None
  end.

Definition mapped_devices (b : Bus) : list (Z * Z * nat) :=
  map (fun '(range, dev) => (br_base range, br_len range, dev)) (bus_devices b).

(** [Bus::insert]: the result, and the bus. *)
Definition bus_insert (b : Bus) (device : nat) (base len : Z) : option (Result BusError unit * Bus) :=
  if len =? 0 then Some (Err Overlap, b)
  else match get_device b base with
  | Some _ => Some (Err Overlap, b)
  | None =>
      if u64_max <? base + len then None
      else
        let overlap := match first_before b (base + len - 1) with
                       | Some (mkBusRange start _, _) => base <=? start
                       | None => false
                       end in
        if overlap then Some (Err Overlap, b)
        else
          let '(old, devices) := btree_insert (mkBusRange base len) device (bus_devices b) in
          Some (match old with Some _ => Err Overlap | None => Ok tt end, mkBus devices)
  end.

Section Access.
Context {D : Type} `{BusDevice D}.
Implicit Types (heap : gmap nat D).

(** [Bus::read] and [Bus::write], on the states of the devices. *)
Definition bus_read (b : Bus) heap (vcpuid addr : Z) (data : list Z) : option (bool * gmap nat D * list Z) :=
  match get_device b addr with
  | Some (offset, dev) =>
      d ← heap !! dev; '(d, data) ← dev_read d vcpuid offset data; Some (true, <[dev := d]> heap, data)
  | None => Some (false, heap, data)
  end.
Definition bus_write (b : Bus) heap (vcpuid addr : Z) (data : list Z) : option (bool * gmap nat D) :=
  match get_device b addr with
  | Some (offset, dev) => d ← heap !! dev; d ← dev_write d vcpuid offset data; Some (true, <[dev := d]> heap)
  | None => Some (false, heap)
  end.
End Access.

(** ** Invariant *)

(** Entries are in order and disjoint, and none is empty. *)
Definition before (x y : BusRange * nat) : Prop := br_base x.1 + br_len x.1 <= br_base y.1.
Record bus_ok (b : Bus) : Prop := {
  bus_sorted : StronglySorted before (bus_devices b);
  bus_nonempty : Forall (fun x => 0 < br_len x.1) (bus_devices b)
}.

(** [x] covers [addr]. *)
Definition covers (x : BusRange * nat) (addr : Z) : Prop := br_base x.1 <= addr < br_base x.1 + br_len x.1.

Lemma find_reverse_app {A} (p : A -> bool) l1 x l2 :
  p x = true -> Forall (fun y => p y = false) l2 -> find p (reverse (l1 ++ x :: l2)) = Some x.
Proof.
  intros Hx Hl2. rewrite reverse_app, reverse_cons. revert Hl2. induction l2 as [|y l2 IH] using rev_ind; intros Hl2.
  - cbn. by rewrite Hx.
  - apply Forall_app in Hl2 as [Hl2 Hy]. rewrite Forall_singleton in Hy. rewrite reverse_snoc. cbn. rewrite Hy. by apply IH.
Qed.

Lemma find_reverse_none {A} (p : A -> bool) l : Forall (fun y => p y = false) l -> find p (reverse l) = None.
Proof.
  intros Hl. destruct (find p (reverse l)) as [x|] eqn:E; [|done]. apply find_some in E as [Hin Hx].
  apply list_elem_of_In in Hin. rewrite elem_of_reverse in Hin. rewrite Forall_forall in Hl. specialize (Hl x Hin). congruence.
Qed.

(** The entries below an address, and those above it. *)
Lemma split_at b addr : bus_ok b -> exists lo hi, bus_devices b = lo ++ hi /\
  Forall (fun x => br_base x.1 <= addr) lo /\ Forall (fun x => addr < br_base x.1) hi.
Proof.
  intros [Hs Hn]. revert Hs Hn. generalize (bus_devices b). induction l as [|x l IH]; intros Hs Hn.
  - by exists [], [].
  - inversion_clear Hs as [|? ? Hs' Hx]. inversion_clear Hn as [|? ? Hx' Hn'].
    destruct (Z.leb_spec (br_base x.1) addr).
    + destruct (IH Hs' Hn') as (lo & hi & -> & Hlo & Hhi). exists (x :: lo), hi. by repeat constructor.
    + exists [], (x :: l). split; [done|]. split; [constructor|]. constructor; [lia|].
      eapply Forall_impl; [exact Hx|]. unfold before. intros y Hy. cbn in *. lia.
Qed.

Lemma first_before_split b addr lo hi : bus_devices b = lo ++ hi ->
  Forall (fun x => br_base x.1 <= addr) lo -> Forall (fun x => addr < br_base x.1) hi ->
  first_before b addr = last lo.
Proof.
  intros E Hlo Hhi. unfold first_before. rewrite E. destruct lo as [|x lo _] using rev_ind.
  - cbn. apply find_reverse_none. eapply Forall_impl; [exact Hhi|]. intros [r d]; cbn. intros. by apply Z.leb_gt.
  - rewrite last_snoc, <- app_assoc. apply Forall_app in Hlo as [_ Hx]. rewrite Forall_singleton in Hx. cbn [app].
    apply (find_reverse_app (fun '(range, _) => br_base range <=? addr)).
    + destruct x; cbn in *. by apply Z.leb_le.
    + eapply Forall_impl; [exact Hhi|]. intros [r d]; cbn. intros. by apply Z.leb_gt.
Qed.

(** An access is routed to the one entry that covers its address. *)
Lemma get_device_spec b addr offset dev : bus_ok b ->
  get_device b addr = Some (offset, dev) <->
  exists r, (r, dev) ∈ bus_devices b /\ covers (r, dev) addr /\ offset = addr - br_base r.
Proof.
  intros Hok. destruct (split_at b addr Hok) as (lo & hi & E & Hlo & Hhi).
  unfold get_device. rewrite (first_before_split _ _ _ _ E Hlo Hhi). split.
  - destruct (last lo) as [[[start len] d]|] eqn:Hl; [|done]. destruct (Z.ltb_spec (addr - start) len); [|done].
    intros [= <- <-]. exists (mkBusRange start len). apply last_Some in Hl as [lo' ->].
    apply Forall_app in Hlo as [_ Hx]. rewrite Forall_singleton in Hx. cbn in Hx.
    split; [rewrite E; set_solver|]. split; [unfold covers; cbn; lia|done].
  - intros (r & Hin & Hc & ->).
    assert ((r, dev) ∈ lo) as Hlo'.
    { rewrite E in Hin. apply elem_of_app in Hin as [?|Hin]; [done|]. rewrite Forall_forall in Hhi.
      specialize (Hhi _ Hin). unfold covers in Hc. cbn in *. lia. }
    destruct lo as [|x lo _] using rev_ind; [set_solver|]. rewrite last_snoc.
    assert (x = (r, dev)) as ->.
    { apply elem_of_app in Hlo' as [Hlo'|Hlo']; [|set_solver].
      destruct Hok as [Hs _]. rewrite E in Hs. apply StronglySorted_app_1_l in Hs.
      pose proof (StronglySorted_app_1_elem_of _ _ _ _ x Hs Hlo' ltac:(set_solver)) as Hb.
      apply Forall_app in Hlo as [_ Hx]. rewrite Forall_singleton in Hx. unfold before, covers in *. lia. }
    destruct r as [start len]. unfold covers in Hc. cbn in *. by rewrite (proj2 (Z.ltb_lt _ _)) by lia.
Qed.

Lemma get_device_None b addr : bus_ok b ->
  get_device b addr = None <-> forall x, x ∈ bus_devices b -> ~ covers x addr.
Proof.
  intros Hok. split.
  - intros Hn [r dev] Hin Hc. assert (get_device b addr = Some (addr - br_base r, dev)); [|congruence].
    apply get_device_spec; eauto.
  - intros Hn. destruct (get_device b addr) as [[offset dev]|] eqn:E; [|done].
    apply get_device_spec in E as (r & Hin & Hc & _); [|done]. by destruct (Hn _ Hin).
Qed.

Lemma btree_insert_split k v lo hi :
  Forall (fun x => br_base x.1 < br_base k) lo -> Forall (fun x => br_base k < br_base x.1) hi ->
  btree_insert k v (lo ++ hi) = (None, lo ++ (k, v) :: hi).
Proof.
  intros Hlo Hhi. induction Hlo as [|[k' v'] lo Hx _ IH]; cbn [app btree_insert].
  - destruct Hhi as [|[k' v'] hi Hx _]; cbn [btree_insert]; [done|]. cbn in Hx.
    by rewrite (proj2 (Z.ltb_lt _ _)) by lia.
  - cbn in Hx. rewrite (proj2 (Z.ltb_ge _ _)), (proj2 (Z.eqb_neq _ _)), IH by lia. done.
Qed.

Lemma sorted_end lo x e :
  StronglySorted before (lo ++ [x]) -> Forall (fun x => 0 < br_len x.1) (lo ++ [x]) -> br_base x.1 + br_len x.1 <= e ->
  Forall (fun x => br_base x.1 + br_len x.1 <= e) (lo ++ [x]).
Proof.
  intros Hs Hn He. apply Forall_app in Hn as [_ Hn]. rewrite Forall_singleton in Hn.
  apply Forall_app. split; [|by rewrite Forall_singleton]. apply Forall_forall. intros y Hy.
  assert (before y x) as Hb by (eapply StronglySorted_app_1_elem_of; [exact Hs|done|set_solver]).
  unfold before in Hb. lia.
Qed.

(** A new range is refused when it meets an entry, and otherwise put between
    the entries below and above it. *)
Lemma bus_insert_spec b dev base len : bus_ok b -> 0 <= len -> base + len <= u64_max ->
  (bus_insert b dev base len = Some (Err Overlap, b) /\
   (len = 0 \/ exists x a, x ∈ bus_devices b /\ covers x a /\ base <= a < base + len)) \/
  exists lo hi, bus_devices b = lo ++ hi /\ 0 < len /\
    bus_insert b dev base len = Some (Ok tt, mkBus (lo ++ (mkBusRange base len, dev) :: hi)) /\
    Forall (fun x => br_base x.1 + br_len x.1 <= base) lo /\ Forall (fun x => base + len <= br_base x.1) hi.
Proof.
  intros Hok Hlen Hmax. unfold bus_insert. destruct (Z.eqb_spec len 0) as [->|Hpos]; [by left; split; [|left]|].
  destruct (get_device b base) as [[offset d]|] eqn:Eg.
  - left. split; [done|]. right. apply get_device_spec in Eg as (r & Hin & Hc & _); [|done].
    exists (r, d), base. split_and!; [done|done|lia|lia].
  - rewrite (proj2 (Z.ltb_ge _ _)) by lia.
    destruct (split_at b (base + len - 1) Hok) as (lo & hi & E & Hlo & Hhi).
    rewrite (first_before_split _ _ _ _ E Hlo Hhi).
    assert (forall x, x ∈ bus_devices b -> ~ covers x base) as Hfree by (by apply get_device_None).
    destruct Hok as [Hs Hn]. rewrite E in Hs, Hn, Hfree. apply Forall_app in Hn as [Hn _].
    assert (Forall (fun x => base + len <= br_base x.1) hi) as Hhi'.
    { eapply Forall_impl; [exact Hhi|]. intros x Hx. cbn in *. lia. }
    destruct lo as [|[[start l] d] lo _] using rev_ind.
    + right. exists [], hi. split_and!; [done|lia| |constructor|done]. cbn [last].
      rewrite E. rewrite (btree_insert_split _ _ [] hi); [done|constructor|].
      eapply Forall_impl; [exact Hhi'|]. intros x Hx. cbn in *. lia.
    + rewrite last_snoc. apply Forall_app in Hlo as [_ Hx]. rewrite Forall_singleton in Hx. cbn in Hx.
      apply StronglySorted_app_1_l in Hs.
      assert (0 < l) as Hl by (apply Forall_app in Hn as [_ Hn]; by rewrite Forall_singleton in Hn).
      destruct (Z.leb_spec base start) as [Hle|Hgt].
      * left. split; [done|]. right. exists (mkBusRange start l, d), start.
        split; [rewrite E; set_solver|]. unfold covers. cbn. lia.
      * assert (Forall (fun x => br_base x.1 + br_len x.1 <= base) (lo ++ [(mkBusRange start l, d)])) as Hlo'.
        { apply sorted_end; [done|done|]. cbn. destruct (Z.leb_spec (start + l) base); [done|].
          destruct (Hfree (mkBusRange start l, d)); [set_solver|]. unfold covers. cbn. lia. }
        right. exists (lo ++ [(mkBusRange start l, d)]), hi. split_and!; [done|lia| |done|done].
        rewrite E, btree_insert_split; [done| |].
        -- apply Forall_forall. intros y Hy. rewrite Forall_forall in Hlo', Hn.
           specialize (Hlo' y Hy). specialize (Hn y Hy). cbn in *. lia.
        -- eapply Forall_impl; [exact Hhi'|]. intros x Hx'. cbn in *. lia.
Qed.

Lemma bus_insert_ok b dev base len r b' :
  bus_ok b -> 0 <= len -> base + len <= u64_max -> bus_insert b dev base len = Some (r, b') -> bus_ok b'.
Proof.
  intros Hok Hl Hm Hi. destruct (bus_insert_spec b dev base len Hok Hl Hm) as [[E _]|(lo & hi & Eb & Hp & E & Hlo & Hhi)].
  - by simplify_eq.
  - simplify_eq. destruct Hok as [Hs Hn]. rewrite Eb in Hs, Hn. apply Forall_app in Hn as [Hn1 Hn2].
    apply StronglySorted_app in Hs as (Hlh & Hs1 & Hs2). split; cbn [bus_devices].
    + apply StronglySorted_app_2; [|done|].
      * intros x y Hx [->|Hy]%elem_of_cons; [rewrite Forall_forall in Hlo; by apply Hlo|by apply Hlh].
      * apply StronglySorted_cons. split; [|done]. eapply Forall_impl; [exact Hhi|]. by intros.
    + apply Forall_app. split; [done|]. constructor; [done|done].
Qed.

(** ** The properties *)

(** Buses that are built from the empty one. *)
Inductive built : Bus -> Prop :=
| built_new : built bus_new
| built_insert b dev base len r b' :
    built b -> is_u64 base -> is_u64 len -> base + len <= u64_max -> bus_insert b dev base len = Some (r, b') -> built b'.

Lemma built_ok b : built b -> bus_ok b.
Proof.
  induction 1 as [|b dev base len r b' _ IH Hb [Hl _] Hm Hi]; [by repeat constructor|]. by eapply bus_insert_ok.
Qed.

(** The bus is a map from addresses to devices and offsets: inserting a
    device succeeds exactly when its range is not empty and no address of it is
    mapped yet, then routes the addresses of the range to the device with the
    offset into it, and changes the routing of no other address; a refused
    insertion changes nothing. *)
Theorem bus_routes_exactly b dev base len :
  built b -> is_u64 base -> is_u64 len -> base + len <= u64_max ->
  exists r b', bus_insert b dev base len = Some (r, b') /\
    (r = Ok tt <-> 0 < len /\ forall addr, base <= addr < base + len -> get_device b addr = None) /\
    forall addr, get_device b' addr =
      if is_ok r && (base <=? addr) && (addr <? base + len) then Some (addr - base, dev) else get_device b addr.
Proof.
  intros Hb Hbase [Hlen _] Hm. pose proof (built_ok _ Hb) as Hok.
  destruct (bus_insert_spec b dev base len Hok Hlen Hm) as [[E Hov]|(lo & hi & Eb & Hp & E & Hlo & Hhi)].
  - exists (Err Overlap), b. split; [done|]. split; [|done]. split; [done|]. intros [Hp Hfree].
    destruct Hov as [->|(x & a & Hx & Hc & Ha)]; [lia|].
    specialize (Hfree a Ha). rewrite get_device_None in Hfree by done. by destruct (Hfree x Hx).
  - exists (Ok tt), (mkBus (lo ++ (mkBusRange base len, dev) :: hi)). split; [done|].
    pose proof (bus_insert_ok _ _ _ _ _ _ Hok Hlen Hm E) as Hok'. rewrite Forall_forall in Hlo, Hhi. split.
    + split; [|done]. intros _. split; [done|]. intros a Ha. apply get_device_None; [done|]. rewrite Eb.
      intros x [Hx|Hx]%elem_of_app Hc; [specialize (Hlo x Hx)|specialize (Hhi x Hx)]; unfold covers in Hc; lia.
    + intros a. cbn [is_ok andb]. destruct ((base <=? a) && (a <? base + len)) eqn:Ea.
      * apply andb_true_iff in Ea as [H1%Z.leb_le H2%Z.ltb_lt]. apply get_device_spec; [done|].
        exists (mkBusRange base len). split; [cbn; set_solver|]. split; [split; cbn; lia|done].
      * apply option_eq. intros [offset d]. rewrite !get_device_spec by done. rewrite Eb. cbn [bus_devices].
        split; intros (r & Hin & Hc & ->); exists r; (split; [|done]).
        -- apply elem_of_app in Hin as [?|[Hin|?]%elem_of_cons]; [set_solver| |set_solver].
           injection Hin as -> ->. unfold covers in Hc. cbn in Hc. apply andb_false_iff in Ea as [?%Z.leb_gt|?%Z.ltb_ge]; lia.
        -- set_solver.
Qed.

(** Reading or writing through the bus reaches the routed device only; an
    unmapped access reaches none and leaves the data as it was. *)
Theorem bus_access_local {D} `{BusDevice D} b (heap : gmap nat D) vcpuid addr data :
  match get_device b addr with
  | None => bus_read b heap vcpuid addr data = Some (false, heap, data) /\ bus_write b heap vcpuid addr data = Some (false, heap)
  | Some (_, dev) =>
      (forall ok heap' data', bus_read b heap vcpuid addr data = Some (ok, heap', data') ->
         ok = true /\ delete dev heap' = delete dev heap) /\
      (forall ok heap', bus_write b heap vcpuid addr data = Some (ok, heap') ->
         ok = true /\ delete dev heap' = delete dev heap)
  end.
Proof.
  unfold bus_read, bus_write. destruct (get_device b addr) as [[offset dev]|]; [|done]. split.
  - intros ok heap' data' Hr. apply bind_Some in Hr as (d & _ & Hr). apply bind_Some in Hr as ([d' data1] & _ & [= <- <- <-]).
    split; [done|]. by rewrite delete_insert_eq.
  - intros ok heap' Hr. apply bind_Some in Hr as (d & _ & Hr). apply bind_Some in Hr as (d' & _ & [= <- <-]).
    split; [done|]. by rewrite delete_insert_eq.
Qed.

(** A device that ends with the address space overflows the check of its end,
    although every address of it could be mapped. *)
Lemma last_byte_overflows : bus_insert bus_new 0 u64_max 1 = None.
Proof. reflexivity. Qed.

Lemma bus_routes_exactly_witness :
  exists b, bus_insert bus_new 7 0x10 0x10 = Some (Ok tt, b) /\ get_device b 0x1f = Some (15, 7%nat) /\
    exists b', bus_insert b 8 0 0x11 = Some (Err Overlap, b') /\ get_device b' 0x10 = Some (0, 7%nat).
Proof.
  pose (b := mkBus [(mkBusRange 0x10 0x10, 7%nat)]).
  assert (built b) as Hb.
  { apply (built_insert bus_new 7 0x10 0x10 (Ok tt)); [constructor|split; vm_compute; congruence..|vm_compute; congruence|reflexivity]. }
  destruct (bus_routes_exactly b 8 0 0x11 Hb) as (r & b' & E & _ & Hr); [split; vm_compute; congruence..|vm_compute; congruence|].
  exists b. split; [reflexivity|]. split; [reflexivity|]. exists b'.
  assert (bus_insert b 8 0 0x11 = Some (Err Overlap, b)) as E' by reflexivity. rewrite E' in E. injection E as <- <-.
  split; [done|]. exact (Hr 0x10).
Defined.
