(* ===== verification/VirtQueue.v ===== *)
(** * Virtio queues

    [pvisor-vm/src/devices/virtio/queue.rs]: the split virtqueue a device shares
    with the guest driver. Descriptor chains are walked through guest memory
    that the guest may have filled with anything; the available ring is popped
    and the used ring is filled with free-running 16-bit counters.

    Guest memory belongs to the [vm-memory] crate: its operations are the class
    [GuestMemory], what the queue relies on is [GuestMemoryLaws]. Integers in
    guest memory are little-endian, as on every supported host. The leases of
    the memory gate pin pages and do not change what is read, so they are left
    out, and so are the fences: the device's accesses are taken in program
    order. An access that fails is taken to change nothing. A function that
    would panic (an [unwrap] of a failed access, an overflow in a build that
    checks for it) returns [None]. *)
From stdpp Require Import base tactics list.
From Stdlib Require Import ZArith Lia.
From S2P Require Import Prelude Bytes.
Local Open Scope Z_scope.

(** ** Guest memory *)

Class GuestMemory (M : Type) := {
  (** [address_in_range] *)
  address_in_range : M -> Z -> bool;
  (** [get_slice(addr, len).is_ok()] *)
  get_slice : M -> Z -> Z -> bool;
  (** [read_obj] and [write_obj] of an object of some bytes *)
  read_obj : M -> Z -> nat -> option (list Z);
  write_obj : M -> Z -> list Z -> option M;
  (** [load] and [store] of a [u16] *)
  load_u16 : M -> Z -> option Z;
  store_u16 : M -> Z -> Z -> option M
}.

(** A slice that exists can be accessed throughout; writes are read back, leave
    other bytes alone and do not change which memory exists; aligned atomic
    accesses inside a slice are ordinary ones. *)
Class GuestMemoryLaws (M : Type) `{GuestMemory M} := {
  slice_read m a n i k : get_slice m a n = true -> 0 <= i -> i + Z.of_nat k <= n ->
    exists bs, read_obj m (a + i) k = Some bs /\ length bs = k /\ Forall is_byte bs;
  slice_write m a n i bs : get_slice m a n = true -> 0 <= i -> i + Z.of_nat (length bs) <= n ->
    is_Some (write_obj m (a + i) bs);
  write_read m a bs m' : Forall is_byte bs -> write_obj m a bs = Some m' -> read_obj m' a (length bs) = Some bs;
  write_frame m a bs m' b k : write_obj m a bs = Some m' ->
    b + Z.of_nat k <= a \/ a + Z.of_nat (length bs) <= b -> read_obj m' b k = read_obj m b k;
  write_slice m a bs m' b n : write_obj m a bs = Some m' -> get_slice m' b n = get_slice m b n;
  slice_load m a n i : get_slice m a n = true -> 0 <= i -> i + 2 <= n -> (a + i) mod 2 = 0 ->
    load_u16 m (a + i) = from_le_bytes <$> read_obj m (a + i) 2;
  slice_store m a n i v : get_slice m a n = true -> 0 <= i -> i + 2 <= n -> (a + i) mod 2 = 0 ->
    store_u16 m (a + i) v = write_obj m (a + i) (to_le_bytes 2 v);
  write_range m a bs m' b : write_obj m a bs = Some m' -> address_in_range m' b = address_in_range m b;
  write_domain m a bs m' b cs : write_obj m a bs = Some m' -> is_Some (write_obj m' b cs) -> is_Some (write_obj m b cs);
  write_any m a bs cs : length bs = length cs -> is_Some (write_obj m a bs) -> is_Some (write_obj m a cs)
}.

(** [GuestAddress::checked_add]. *)
Definition address_add (a offset : Z) : option Z := checked_add a offset.

Definition VIRTQ_USED_RING_HEADER_SIZE : Z := 4.
Definition VIRTQ_USED_ELEMENT_SIZE : Z := 8.
Definition VIRTQ_AVAIL_RING_HEADER_SIZE : Z := 4.
Definition VIRTQ_AVAIL_ELEMENT_SIZE : Z := 2.
Definition VIRTQ_DESC_F_NEXT : Z := 1.
Definition VIRTQ_DESC_F_WRITE : Z := 2.
Definition VRING_USED_F_NO_NOTIFY : Z := 1.

(** The errors of [queue.rs] that the queue operations return. *)
Inductive QueueError := AddressOverflow | GuestMemoryFailed | InvalidDescriptorIndex.

(** ** Descriptor chains *)

Record Descriptor := mkDescriptor { d_addr : Z; d_len : Z; d_flags : Z; d_next : Z }.

(** The [repr(C)] layout of [Descriptor]. *)
Definition parse_descriptor (bs : list Z) : Descriptor :=
  mkDescriptor (from_le_bytes (take 8 bs)) (from_le_bytes (take 4 (drop 8 bs)))
    (from_le_bytes (take 2 (drop 12 bs))) (from_le_bytes (take 2 (drop 14 bs))).

Record DescriptorChain := mkChain {
  dc_desc_table : Z;
  dc_queue_size : Z;
  dc_ttl : Z;
  dc_index : Z;
  dc_addr : Z;
  dc_len : Z;
  dc_flags : Z;
  dc_next : Z
}.

Definition has_next (c : DescriptorChain) : bool := has (dc_flags c) VIRTQ_DESC_F_NEXT && (1 <? dc_ttl c).
Definition chain_is_valid (c : DescriptorChain) : bool := negb (has_next c) || (dc_next c <? dc_queue_size c).
Definition is_write_only (c : DescriptorChain) : bool := has (dc_flags c) VIRTQ_DESC_F_WRITE.
Definition is_read_only (c : DescriptorChain) : bool := negb (has (dc_flags c) VIRTQ_DESC_F_WRITE).
Definition set_ttl (ttl : Z) (c : DescriptorChain) : DescriptorChain :=
  mkChain (dc_desc_table c) (dc_queue_size c) ttl (dc_index c) (dc_addr c) (dc_len c) (dc_flags c) (dc_next c).
Definition descriptor (c : DescriptorChain) : Descriptor :=
  mkDescriptor (dc_addr c) (dc_len c) (dc_flags c) (dc_next c).

(** ** Queues *)

Record Queue := mkQueue {
  q_max_size : Z;
  q_size : Z;
  q_ready : bool;
  q_desc_table : Z;
  q_avail_ring : Z;
  q_used_ring : Z;
  q_next_avail : Z;
  q_next_used : Z;
  q_event_idx_enabled : bool;
  q_num_added : Z
}.
#[export] Instance queue_eq_dec : EqDecision Queue.
Proof. solve_decision. Defined.

Definition queue_new (max_size : Z) : Queue := mkQueue max_size 0 false 0 0 0 0 0 false 0.

Definition set_next_avail (n : Z) (q : Queue) : Queue :=
  mkQueue (q_max_size q) (q_size q) (q_ready q) (q_desc_table q) (q_avail_ring q) (q_used_ring q)
    n (q_next_used q) (q_event_idx_enabled q) (q_num_added q).
Definition set_used (next_used num_added : Z) (q : Queue) : Queue :=
  mkQueue (q_max_size q) (q_size q) (q_ready q) (q_desc_table q) (q_avail_ring q) (q_used_ring q)
    (q_next_avail q) next_used (q_event_idx_enabled q) num_added.
Definition set_event_idx (enabled : bool) (q : Queue) : Queue :=
  mkQueue (q_max_size q) (q_size q) (q_ready q) (q_desc_table q) (q_avail_ring q) (q_used_ring q)
    (q_next_avail q) (q_next_used q) enabled (q_num_added q).

Definition actual_size (q : Queue) : Z := Z.min (q_size q) (q_max_size q).

(** [u16::is_power_of_two]. *)
Definition is_power_of_two (x : Z) : bool := (0 <? x) && (x =? 2 ^ Z.log2 x).

Record QueueSnapshot := mkQueueSnapshot {
  qs_max_size : Z;
  qs_size : Z;
  qs_ready : bool;
  qs_desc_table : Z;
  qs_avail_ring : Z;
  qs_used_ring : Z;
  qs_next_avail : Z;
  qs_next_used : Z;
  qs_event_idx_enabled : bool;
  qs_num_added : Z
}.

Section Queue.
Context {M : Type} `{GuestMemory M}.

(** [GuestMemory::checked_offset]. *)
Definition checked_offset (m : M) (base offset : Z) : option Z :=
  a ← address_add base offset; if address_in_range m a then Some a else None.

Definition checked_new (m : M) (desc_table queue_size index : Z) : option DescriptorChain :=
  if queue_size <=? index then None
  else
    desc_head ← checked_offset m desc_table (index * 16);
    _ ← checked_offset m desc_head 16;
    bs ← read_obj m desc_head 16;
    let desc := parse_descriptor bs in
    let chain := mkChain desc_table queue_size queue_size index (d_addr desc) (d_len desc) (d_flags desc) (d_next desc) in
    if chain_is_valid chain then Some chain else None.

Definition next_descriptor (m : M) (c : DescriptorChain) : option DescriptorChain :=
  if has_next c then set_ttl (dc_ttl c - 1) <$> checked_new m (dc_desc_table c) (dc_queue_size c) (dc_next c)
  else None.

(** [DescIter], collected; [None] when the fuel ran out. *)
Fixpoint desc_iter (fuel : nat) (m : M) (next : option DescriptorChain) : option (list DescriptorChain) :=
  match next with
  | None => Some []
  | Some current =>
      match fuel with
      | O => None
      | S fuel => cons current <$> desc_iter fuel m (next_descriptor m current)
      end
  end.
Fixpoint take_while (l : list DescriptorChain) : list DescriptorChain :=
  match l with [] => [] | c :: l => if is_read_only c then c :: take_while l else [] end.
Fixpoint skip_while (l : list DescriptorChain) : list DescriptorChain :=
  match l with [] => [] | c :: l' => if is_read_only c then skip_while l' else l end.
(** [into_iter] from a chain, and its readable and writable parts. *)
Definition into_iter (m : M) (c : DescriptorChain) : option (list DescriptorChain) :=
  desc_iter (Z.to_nat (dc_ttl c)) m (Some c).
Definition readable (m : M) (c : DescriptorChain) : option (list DescriptorChain) := take_while <$> into_iter m c.
Definition writable (m : M) (c : DescriptorChain) : option (list DescriptorChain) := skip_while <$> into_iter m c.

Definition valid_layout (q : Queue) (m : M) : bool :=
  if negb (q_ready q) || (q_size q =? 0) || (q_max_size q <? q_size q) || negb (is_power_of_two (q_size q)) then false
  else
    forallb (fun '(addr, len, align) => (addr mod align =? 0) && get_slice m addr len)
      [(q_desc_table q, 16 * q_size q, 16);
       (q_avail_ring q, 6 + 2 * q_size q, 2);
       (q_used_ring q, 6 + 8 * q_size q, 4)].
Definition is_valid (q : Queue) (m : M) : bool := valid_layout q m.

Definition capture_state (q : Queue) : QueueSnapshot :=
  mkQueueSnapshot (q_max_size q) (q_size q) (q_ready q) (q_desc_table q) (q_avail_ring q) (q_used_ring q)
    (q_next_avail q) (q_next_used q) (q_event_idx_enabled q) (q_num_added q).

(** [QueueSnapshot::restore]; the two refusals. *)
Inductive RestoreError := SizeMismatch | InvalidLayout.
Definition queue_restore (s : QueueSnapshot) (max_size : Z) (m : M) : Result RestoreError Queue :=
  if negb (qs_max_size s =? max_size) then Err SizeMismatch
  else
    let queue := mkQueue max_size (qs_size s) (qs_ready s) (qs_desc_table s) (qs_avail_ring s) (qs_used_ring s)
                   (qs_next_avail s) (qs_next_used s) (qs_event_idx_enabled s) (qs_num_added s) in
    if qs_ready s && negb (valid_layout queue m) then Err InvalidLayout else Ok queue.

Definition or_memory {A} (o : option A) : Result QueueError A := ok_or o GuestMemoryFailed.

Definition avail_idx (q : Queue) (m : M) : Result QueueError Z :=
  addr ← ok_or (address_add (q_avail_ring q) 2) AddressOverflow; or_memory (load_u16 m addr).

(** [Queue::len]. *)
Definition queue_len (q : Queue) (m : M) : option Z :=
  match avail_idx q m with Ok idx => Some (wrap16 (idx - q_next_avail q)) | Err _ => None end.
Definition queue_is_empty (q : Queue) (m : M) : option bool := (fun n => n =? 0) <$> queue_len q m.

(** [Queue::pop]: the chain if there is one, and the queue. The offset is
    computed in 16 bits. *)
Definition pop (q : Queue) (m : M) : option (option DescriptorChain * Queue) :=
  n ← queue_len q m;
  if (n =? 0) || (actual_size q =? 0) then Some (None, q)
  else
    let index_offset := 4 + 2 * (q_next_avail q mod actual_size q) in
    if u16_max <? index_offset then None
    else
      bs ← read_obj m (q_avail_ring q + index_offset) 2;
      match checked_new m (q_desc_table q) (actual_size q) (from_le_bytes bs) with
      | Some chain => Some (Some chain, set_next_avail (wrap16 (q_next_avail q + 1)) q)
      | None => Some (None, q)
      end.

Definition undo_pop (q : Queue) : Queue := set_next_avail (wrap16 (q_next_avail q - 1)) q.
Definition go_to_previous_position (q : Queue) : Queue := set_next_avail (wrap16 (q_next_avail q - 1)) q.

(** The [repr(C)] layout of [VirtqUsedElem]. *)
Definition used_elem (id len : Z) : list Z := to_le_bytes 4 id ++ to_le_bytes 4 len.

(** [Queue::add_used]; what was written before an error stays written. *)
Definition add_used (q : Queue) (m : M) (head_index len : Z) : Result QueueError unit * (Queue * M) :=
  if q_size q <=? head_index then (Err InvalidDescriptorIndex, (q, m))
  else
    let offset := VIRTQ_USED_RING_HEADER_SIZE + (q_next_used q mod q_size q) * VIRTQ_USED_ELEMENT_SIZE in
    match address_add (q_used_ring q) offset with
    | None => (Err AddressOverflow, (q, m))
    | Some addr =>
        match write_obj m addr (used_elem head_index len) with
        | None => (Err GuestMemoryFailed, (q, m))
        | Some m =>
            let q := set_used (wrap16 (q_next_used q + 1)) (wrap16 (q_num_added q + 1)) q in
            match address_add (q_used_ring q) 2 with
            | None => (Err AddressOverflow, (q, m))
            | Some addr =>
                match store_u16 m addr (q_next_used q) with
                | None => (Err GuestMemoryFailed, (q, m))
                | Some m => (Ok tt, (q, m))
                end
            end
        end
    end.

Definition used_event (q : Queue) (m : M) : Result QueueError Z :=
  addr ← ok_or (address_add (q_avail_ring q) (VIRTQ_AVAIL_RING_HEADER_SIZE + q_size q * VIRTQ_AVAIL_ELEMENT_SIZE)) AddressOverflow;
  or_memory (load_u16 m addr).

Definition set_avail_event (q : Queue) (m : M) (val : Z) : Result QueueError M :=
  addr ← ok_or (address_add (q_used_ring q) (VIRTQ_USED_RING_HEADER_SIZE + VIRTQ_USED_ELEMENT_SIZE * q_size q)) AddressOverflow;
  or_memory (store_u16 m addr val).

Definition set_used_flags (q : Queue) (m : M) (val : Z) : Result QueueError M :=
  or_memory (store_u16 m (q_used_ring q) val).

Definition set_notification (q : Queue) (m : M) (enable : bool) : Result QueueError M :=
  if enable then
    if q_event_idx_enabled q then set_avail_event q m (q_next_avail q) else set_used_flags q m 0
  else if negb (q_event_idx_enabled q) then set_used_flags q m VRING_USED_F_NO_NOTIFY
  else Ok m.

Definition enable_notification (q : Queue) (m : M) : Result QueueError (bool * M) :=
  m ← set_notification q m true;
  idx ← avail_idx q m;
  Ok (negb (idx =? q_next_avail q), m).

Definition disable_notification (q : Queue) (m : M) : Result QueueError M := set_notification q m false.

Definition needs_notification (q : Queue) (m : M) : Result QueueError bool * Queue :=
  if q_event_idx_enabled q then
    match used_event q m with
    | Err e => (Err e, q)
    | Ok event =>
        let used_idx := q_next_used q in
        let old := wrap16 (used_idx - q_num_added q) in
        (Ok (wrap16 (wrap16 (used_idx - event) - 1) <? wrap16 (used_idx - old)), set_used used_idx 0 q)
    end
  else (Ok true, q).
End Queue.
