(* ===== verification/FlatMemory.v ===== *)
(** * A flat guest memory

    One region of guest memory starting at address zero, with the bytes as a
    function of the address: an instance of [GuestMemory] that satisfies
    [GuestMemoryLaws], at which the properties of the devices are evaluated. *)
From stdpp Require Import base tactics list.
From Stdlib Require Import ZArith Lia.
From S2P Require Import Prelude Bytes VirtQueue.
Local Open Scope Z_scope.

Record FlatMemory := mkFlat { fm_size : Z; fm_data : Z -> Z }.

Definition flat_inside (m : FlatMemory) (a n : Z) : bool := (0 <=? a) && (0 <=? n) && (a + n <=? fm_size m).
Definition flat_read (m : FlatMemory) (a : Z) (k : nat) : option (list Z) :=
  if flat_inside m a (Z.of_nat k) then Some (map (fun i => fm_data m (a + Z.of_nat i) mod 256) (seq 0 k)) else None.
Definition flat_write (m : FlatMemory) (a : Z) (bs : list Z) : option FlatMemory :=
  if flat_inside m a (Z.of_nat (length bs)) then
    Some (mkFlat (fm_size m) (fun b =>
      if (a <=? b) && (b <? a + Z.of_nat (length bs)) then nth (Z.to_nat (b - a)) bs 0 else fm_data m b))
  else None.

#[export] Instance flat_memory : GuestMemory FlatMemory := {
  address_in_range m a := (0 <=? a) && (a <? fm_size m);
  get_slice := flat_inside;
  read_obj := flat_read;
  write_obj := flat_write;
  load_u16 m a := if a mod 2 =? 0 then from_le_bytes <$> flat_read m a 2 else None;
  store_u16 m a v := if a mod 2 =? 0 then flat_write m a (to_le_bytes 2 v) else None
}.

Lemma flat_inside_spec m a n : flat_inside m a n = true <-> 0 <= a /\ 0 <= n /\ a + n <= fm_size m.
Proof. unfold flat_inside. rewrite !andb_true_iff, !Z.leb_le. lia. Qed.

Lemma flat_inside_sub m a n i k :
  flat_inside m a n = true -> 0 <= i -> 0 <= k -> i + k <= n -> flat_inside m (a + i) k = true.
Proof. rewrite !flat_inside_spec. lia. Qed.

Lemma flat_write_read m a bs m' :
  Forall is_byte bs -> flat_write m a bs = Some m' -> flat_read m' a (length bs) = Some bs.
Proof.
  unfold flat_write, flat_read. destruct (flat_inside m a _) eqn:Hin; [|done]. intros Hb [= <-].
  unfold flat_inside in *. cbn [fm_size]. rewrite Hin. cbn [fm_data]. f_equal. apply list_eq. intros i.
  rewrite list_lookup_fmap. destruct (decide (i < length bs)%nat) as [Hi|Hi].
  - rewrite lookup_seq_lt by done. cbn [fmap option_fmap option_map].
    rewrite (proj2 (Z.leb_le _ _)), (proj2 (Z.ltb_lt _ _)) by lia. cbn [andb].
    replace (Z.to_nat (a + Z.of_nat (0 + i) - a)) with i by lia.
    destruct (lookup_lt_is_Some_2 bs i Hi) as [b Hbi]. rewrite Hbi, (nth_lookup_Some _ _ _ _ Hbi).
    rewrite Z.mod_small; [done|]. by apply (Forall_lookup_1 _ _ _ _ Hb Hbi).
  - rewrite lookup_seq_ge by lia. rewrite (lookup_ge_None_2 bs) by lia. done.
Qed.

Lemma flat_write_frame m a bs m' b k :
  flat_write m a bs = Some m' -> b + Z.of_nat k <= a \/ a + Z.of_nat (length bs) <= b ->
  flat_read m' b k = flat_read m b k.
Proof.
  unfold flat_write, flat_read. destruct (flat_inside m a _) eqn:Hin; [|done]. intros [= <-] Hd.
  unfold flat_inside at 1. cbn [fm_size]. fold (flat_inside m b (Z.of_nat k)).
  destruct (flat_inside m b _); [|done]. f_equal. apply map_ext_in. intros i [_ Hi]%in_seq. cbn [fm_data].
  destruct (Z.leb_spec a (b + Z.of_nat i)), (Z.ltb_spec (b + Z.of_nat i) (a + Z.of_nat (length bs))); cbn; [lia|done..].
Qed.

#[export] Instance flat_memory_laws : GuestMemoryLaws FlatMemory.
Proof.
  split; cbn [get_slice read_obj write_obj load_u16 store_u16 flat_memory].
  - intros m a n i k Hs Hi Hk. unfold flat_read. rewrite (flat_inside_sub m a n i) by (done || lia).
    eexists. split; [done|]. split; [by rewrite length_map, length_seq|].
    apply Forall_forall. intros x (j & -> & _)%list_elem_of_fmap. apply Z.mod_pos_bound. lia.
  - intros m a n i bs Hs Hi Hk. unfold flat_write. rewrite (flat_inside_sub m a n i) by (done || lia). by eexists.
  - intros m a bs m'. apply flat_write_read.
  - intros m a bs m' b k. apply flat_write_frame.
  - intros m a bs m' b n. unfold flat_write. destruct (flat_inside m a _); [|done]. by intros [= <-].
  - intros m a n i _ _ _ ->. done.
  - intros m a n i v _ _ _ ->. done.
  - intros m a bs m' b. unfold flat_write. destruct (flat_inside m a _); [|done]. by intros [= <-].
  - intros m a bs m' b cs. unfold flat_write. destruct (flat_inside m a _); [|done]. intros [= <-].
    unfold flat_inside. cbn [fm_size]. case_match; intros [? ?]; done.
  - intros m a bs cs Hl. unfold flat_write. rewrite Hl. case_match; intros [? ?]; done.
Qed.

(** A memory with some bytes written over zeros. *)
Definition flat_of (size : Z) (writes : list (Z * list Z)) : FlatMemory :=
  foldl (fun m '(a, bs) => default m (flat_write m a bs)) (mkFlat size (fun _ => 0)) writes.
