(* ===== verification/VirtQueueFacts.v ===== *)
(** * Correctness of the virtio queues

    Walking a chain ends for any guest memory; on a valid layout nothing
    panics, the available ring is popped in order, the used ring is a window on
    the sequence of completed chains, and interrupts are requested exactly when
    the driver's event index was passed. [FlatMemory] is an instance of the
    guest memory. *)
From stdpp Require Import base tactics list relations.
From Stdlib Require Import ZArith Lia.
From S2P Require Import Prelude Bytes VirtQueue FlatMemory.
Local Open Scope Z_scope.

Section Chains.
Context {M : Type} `{GuestMemory M}.
Implicit Types (m : M) (c : DescriptorChain).

Lemma checked_new_Some m t size i c :
  checked_new m t size i = Some c ->
  i < size /\ dc_index c = i /\ dc_queue_size c = size /\ dc_desc_table c = t /\ dc_ttl c = size.
Proof.
  unfold checked_new. destruct (Z.leb_spec size i); [done|]. intros Hc.
  apply bind_Some in Hc as (h & _ & Hc). apply bind_Some in Hc as (h' & _ & Hc). apply bind_Some in Hc as (bs & _ & Hc).
  cbn in Hc. case_match; [|done]. by injection Hc as <-.
Qed.

Lemma next_descriptor_Some m c c' :
  next_descriptor m c = Some c' ->
  1 < dc_ttl c /\ dc_ttl c' = dc_ttl c - 1 /\ dc_index c' = dc_next c /\ dc_index c' < dc_queue_size c /\
  dc_queue_size c' = dc_queue_size c /\ dc_desc_table c' = dc_desc_table c /\ has (dc_flags c) VIRTQ_DESC_F_NEXT = true.
Proof.
  unfold next_descriptor, has_next. destruct (has _ _ && _) eqn:E; [|done].
  apply andb_true_iff in E as [E1 E2%Z.ltb_lt]. intros (c0 & Hc & ->)%fmap_Some.
  apply checked_new_Some in Hc as (H1 & H2 & H3 & H4 & H5). cbn. rewrite H2. split_and!; [lia|done|done|lia|done|done|done].
Qed.

(** Every element follows from the one before it. *)
Inductive linked m : list DescriptorChain -> Prop :=
| linked_last c : next_descriptor m c = None -> linked m [c]
| linked_cons c c' l : next_descriptor m c = Some c' -> linked m (c' :: l) -> linked m (c :: c' :: l).

Lemma desc_iter_ends m fuel c :
  0 < dc_ttl c -> dc_ttl c <= Z.of_nat fuel ->
  exists l, desc_iter fuel m (Some c) = Some (c :: l) /\ Z.of_nat (length (c :: l)) <= dc_ttl c /\
    linked m (c :: l) /\ Forall (fun d => dc_index d < dc_queue_size c) l.
Proof.
  revert c. induction fuel as [|fuel IH]; intros c Hp Hf; [lia|]. cbn [desc_iter].
  destruct (next_descriptor m c) as [c'|] eqn:E.
  - pose proof (next_descriptor_Some _ _ _ E) as (H1 & H2 & H3 & H4 & H5 & _).
    destruct (IH c') as (l & -> & Hl & Hk & Hi); [lia|lia|]. exists (c' :: l). split; [done|].
    split; [cbn [length] in *; lia|]. split; [by constructor|]. rewrite H5 in Hi. by constructor.
  - exists []. destruct fuel; cbn; (split; [done|]); (split; [lia|]); (split; [by constructor|constructor]).
Qed.

Lemma take_skip l : take_while l ++ skip_while l = l.
Proof. induction l as [|c l IH]; cbn; [done|]. destruct (is_read_only c); cbn; [by rewrite IH|done]. Qed.
Lemma take_while_read l : Forall (fun d => is_read_only d = true) (take_while l).
Proof. induction l as [|c l IH]; cbn; [constructor|]. destruct (is_read_only c) eqn:E; by constructor. Qed.
End Chains.

(** ** Layouts *)
Section Layout.
Context {M : Type} `{GuestMemoryLaws M}.
Implicit Types (m : M) (q : Queue).

(** Memory after some writes: what exists and what can be written stays. *)
Definition written : M -> M -> Prop := rtc (fun m m' => exists a bs, write_obj m a bs = Some m').

Lemma written_one m a bs m' : write_obj m a bs = Some m' -> written m m'.
Proof. intros Hw. apply rtc_once. by exists a, bs. Qed.
Lemma written_slice m m' a n : written m m' -> get_slice m' a n = get_slice m a n.
Proof. induction 1 as [|m m1 m' (b & bs & Hw) _ IH]; [done|]. by rewrite IH, (write_slice _ _ _ _ _ _ Hw). Qed.
Lemma written_range m m' a : written m m' -> address_in_range m' a = address_in_range m a.
Proof. induction 1 as [|m m1 m' (b & bs & Hw) _ IH]; [done|]. by rewrite IH, (write_range _ _ _ _ _ Hw). Qed.
Lemma written_domain m m' b cs cs' : written m m' -> length cs = length cs' ->
  is_Some (write_obj m' b cs) -> is_Some (write_obj m b cs').
Proof.
  intros Hw Hl. induction Hw as [m|m m1 m' (a & bs & Hw) _ IH]; intros Hs; [by eapply write_any|].
  eapply write_domain; [exact Hw|]. by apply IH.
Qed.

(** What a valid layout promises. *)
Record layout q m (k : Z) : Prop := {
  ly_size : q_size q = 2 ^ k;
  ly_k : 0 <= k;
  ly_max : q_size q <= q_max_size q;
  ly_desc : get_slice m (q_desc_table q) (16 * q_size q) = true;
  ly_avail : get_slice m (q_avail_ring q) (6 + 2 * q_size q) = true;
  ly_used : get_slice m (q_used_ring q) (6 + 8 * q_size q) = true;
  ly_avail_align : q_avail_ring q mod 2 = 0;
  ly_used_align : q_used_ring q mod 4 = 0
}.

Lemma valid_layout_spec q m : valid_layout q m = true -> exists k, layout q m k.
Proof.
  unfold valid_layout, is_power_of_two. destruct (negb (q_ready q) || _ || _ || _) eqn:E; [done|].
  rewrite !orb_false_iff, !negb_false_iff in E. destruct E as (((_ & _) & E1%Z.ltb_ge) & E2).
  apply andb_true_iff in E2 as [E2%Z.ltb_lt E3%Z.eqb_eq]. cbn. rewrite !andb_true_iff, !Z.eqb_eq. intros Hs.
  exists (Z.log2 (q_size q)). split; try tauto. apply Z.log2_nonneg.
Qed.

Lemma layout_size_pos q m k : layout q m k -> 0 < q_size q.
Proof. intros Hl. rewrite (ly_size _ _ _ Hl). apply Z.pow_pos_nonneg; [lia|apply Hl]. Qed.

Lemma layout_actual q m k : layout q m k -> actual_size q = q_size q.
Proof. intros Hl. unfold actual_size. pose proof (ly_max _ _ _ Hl). lia. Qed.

(** Addresses of the rings do not overflow: a queue is laid out in 64 bits. *)
Definition in_64_bits q : Prop :=
  q_avail_ring q + 6 + 2 * q_size q <= u64_max /\ q_used_ring q + 6 + 8 * q_size q <= u64_max.

Definition indices_ok q : Prop :=
  is_u16 (q_max_size q) /\ is_u16 (q_next_avail q) /\ is_u16 (q_next_used q) /\ is_u16 (q_num_added q).

Lemma layout_k q m k : layout q m k -> indices_ok q -> k <= 15.
Proof.
  intros Hl [[_ Hm] _]. pose proof (ly_max _ _ _ Hl) as H1. rewrite (ly_size _ _ _ Hl) in H1.
  assert (k < 16); [|lia]. apply (Z.pow_lt_mono_r_iff 2); [lia|lia|]. lia.
Qed.

(** A 16-bit field inside a slice can be loaded. *)
Lemma load_field m a n i :
  get_slice m a n = true -> 0 <= i -> i + 2 <= n -> (a + i) mod 2 = 0 ->
  exists v, load_u16 m (a + i) = Some v /\ is_u16 v.
Proof.
  intros Hs Hi Hn Ha. rewrite (slice_load _ _ _ _ Hs Hi Hn Ha).
  destruct (slice_read m a n i 2 Hs Hi Hn) as (bs & -> & Hl & Hb). eexists. split; [done|].
  pose proof (from_le_bytes_bound _ Hb) as Hr. rewrite Hl in Hr. exact Hr.
Qed.

Lemma add_even a b : a mod 2 = 0 -> b mod 2 = 0 -> (a + b) mod 2 = 0.
Proof. intros Ha Hb. by rewrite Z.add_mod, Ha, Hb by lia. Qed.

Lemma avail_idx_ok q m k :
  layout q m k -> in_64_bits q -> exists idx, avail_idx q m = Ok idx /\ is_u16 idx.
Proof.
  intros Hl [Ha _]. pose proof (layout_size_pos _ _ _ Hl). unfold avail_idx, address_add.
  rewrite (proj2 (checked_add_Some (q_avail_ring q) 2 _)) by (split; [lia|done]). cbn [ok_or mbind result_bind].
  destruct (load_field m (q_avail_ring q) (6 + 2 * q_size q) 2) as (v & -> & Hv);
    [apply Hl|lia|lia|apply add_even; [apply Hl|done]|]. by exists v.
Qed.

(** ** The available ring *)

Definition ring_entry q m (i : Z) : Z :=
  from_le_bytes (default [] (read_obj m (q_avail_ring q + (4 + 2 * (i mod q_size q))) 2)).

Lemma pop_spec q m k :
  layout q m k -> k <= 14 -> in_64_bits q -> indices_ok q ->
  exists idx, avail_idx q m = Ok idx /\ is_u16 idx /\
  pop q m = Some (if idx =? q_next_avail q then (None, q)
                  else match checked_new m (q_desc_table q) (q_size q) (ring_entry q m (q_next_avail q)) with
                       | Some c => (Some c, set_next_avail (wrap16 (q_next_avail q + 1)) q)
                       | None => (None, q)
                       end).
Proof.
  intros Hl Hk H64 (_ & Hna & _). destruct (avail_idx_ok q m k Hl H64) as (idx & Hidx & Hr). exists idx. split; [done|]. split; [done|].
  pose proof (layout_size_pos _ _ _ Hl) as Hp. unfold pop, queue_len. rewrite Hidx, (layout_actual _ _ _ Hl). cbn [mbind option_bind].
  rewrite (proj2 (Z.eqb_neq (q_size q) 0)) by lia. rewrite orb_false_r.
  assert ((wrap16 (idx - q_next_avail q) =? 0) = (idx =? q_next_avail q)) as ->.
  { apply Bool.eq_iff_eq_true. rewrite !Z.eqb_eq. unfold wrap, is_uint in *. rewrite Z.mod_divide by lia.
    split; [intros [z Hz]; nia|intros ->; rewrite Z.sub_diag; apply Z.divide_0_r]. }
  destruct (idx =? q_next_avail q); [done|].
  pose proof (Z.mod_pos_bound (q_next_avail q) (q_size q) Hp) as Hm.
  assert (q_size q <= 2 ^ 14) by (rewrite (ly_size _ _ _ Hl); apply Z.pow_le_mono_r; lia).
  rewrite (proj2 (Z.ltb_ge u16_max _)) by (unfold u16_max; lia).
  destruct (slice_read m (q_avail_ring q) (6 + 2 * q_size q) (4 + 2 * (q_next_avail q mod q_size q)) 2) as (bs & Hbs & _);
    [apply Hl|lia|lia|]. unfold ring_entry. rewrite Hbs. cbn [mbind option_bind default]. unfold id. by case_match.
Qed.

(** How the workers of the devices drain a queue. *)
Fixpoint pop_all (fuel : nat) q m : option (list DescriptorChain * Queue) :=
  match fuel with
  | O => None
  | S fuel =>
      match pop q m with
      | Some (Some c, q) => match pop_all fuel q m with Some (l, q) => Some (c :: l, q) | None => None end
      | Some (None, q) => Some ([], q)
      | None => None
      end
  end.

Lemma pop_all_S fuel q m : pop_all (S fuel) q m =
  match pop q m with
  | Some (Some c, q) => match pop_all fuel q m with Some (l, q) => Some (c :: l, q) | None => None end
  | Some (None, q) => Some ([], q)
  | None => None
  end.
Proof. done. Qed.

(** The chains the driver made available, as the memory describes them. *)
Fixpoint available (n : nat) q m (i : Z) : option (list DescriptorChain) :=
  match n with
  | O => Some []
  | S n => c ← checked_new m (q_desc_table q) (q_size q) (ring_entry q m i);
           l ← available n q m (i + 1); Some (c :: l)
  end.

Lemma ring_entry_wrap q m k i : layout q m k -> k <= 15 -> ring_entry q m (wrap16 i) = ring_entry q m i.
Proof.
  intros Hl Hk. unfold ring_entry. rewrite (ly_size _ _ _ Hl), wrap_mod_pow2; [done|]. pose proof (ly_k _ _ _ Hl). lia.
Qed.

Lemma available_wrap n q m k i j :
  layout q m k -> k <= 15 -> wrap16 i = wrap16 j -> available n q m i = available n q m j.
Proof.
  intros Hl Hk. revert i j. induction n as [|n IH]; intros i j Hij; cbn [available]; [done|].
  rewrite <- (ring_entry_wrap q m k i), <- (ring_entry_wrap q m k j), Hij by done.
  rewrite (IH (i + 1) (j + 1)); [done|]. rewrite <- (wrap_add_l 16 i), <- (wrap_add_l 16 j). by rewrite Hij.
Qed.

Lemma available_next n q m x i : available n (set_next_avail x q) m i = available n q m i.
Proof. revert i. induction n as [|n IH]; intros i; cbn [available]; [done|]. rewrite IH. reflexivity. Qed.

Lemma layout_next q m k x : layout q m k -> layout (set_next_avail x q) m k.
Proof. intros []. by split. Qed.

Lemma pop_all_available n q m k idx l :
  layout q m k -> k <= 14 -> in_64_bits q -> indices_ok q ->
  avail_idx q m = Ok idx -> wrap16 (idx - q_next_avail q) = Z.of_nat n ->
  available n q m (q_next_avail q) = Some l ->
  pop_all (S n) q m = Some (l, set_next_avail idx q).
Proof.
  intros Hl Hk. revert q l Hl. induction n as [|n IH]; intros q l Hl H64 Hi Hidx Hn Hav.
  - destruct (pop_spec q m k Hl Hk H64 Hi) as (idx' & Hidx' & Hr & Hpop). assert (idx' = idx) as -> by congruence.
    rewrite pop_all_S, Hpop. assert (idx = q_next_avail q) as Heq.
    { destruct Hi as (_ & Hi & _). unfold wrap, is_uint in *. change (Z.of_nat 0) with 0 in Hn.
      apply Z.mod_divide in Hn as [z Hz]; [|lia]. nia. }
    rewrite Heq, Z.eqb_refl. injection Hav as <-. by destruct q.
  - destruct (pop_spec q m k Hl Hk H64 Hi) as (idx' & Hidx' & Hr & Hpop). assert (idx' = idx) as -> by congruence.
    rewrite pop_all_S, Hpop. destruct (Z.eqb_spec idx (q_next_avail q)) as [->|Hne].
    { exfalso. rewrite Z.sub_diag in Hn. change (wrap16 0) with 0 in Hn. lia. }
    cbn [available] in Hav. apply bind_Some in Hav as (c & -> & Hav). apply bind_Some in Hav as (l' & Hav & [= <-]).
    set (q' := set_next_avail (wrap16 (q_next_avail q + 1)) q).
    rewrite (IH q' l' (layout_next _ _ _ _ Hl)); [done|done| | | |].
    + destruct Hi as (H1 & H2 & H3 & H4). split_and!; [done| |done|done]. by apply wrap_range.
    + exact Hidx.
    + cbn [q' set_next_avail q_next_avail]. rewrite wrap_sub_r. replace (idx - (q_next_avail q + 1)) with (idx - q_next_avail q - 1) by lia.
      rewrite <- wrap_sub_l, Hn. pose proof (wrap_range 16 (idx - q_next_avail q) ltac:(lia)) as Hw. rewrite Hn in Hw.
      rewrite wrap_small; [lia|unfold is_uint; lia].
    + unfold q'. rewrite available_next. cbn [set_next_avail q_next_avail]. rewrite <- Hav.
      apply (available_wrap _ _ _ k); [done|lia|]. unfold wrap. by rewrite Z.mod_mod by lia.
Qed.

(** ** The used ring *)

Definition used_slot q m (i : Z) : option (list Z) := read_obj m (q_used_ring q + (4 + (i mod q_size q) * 8)) 8.
Definition used_idx q m : option Z := load_u16 m (q_used_ring q + 2).

Lemma used_elem_length id len : length (used_elem id len) = 8%nat.
Proof. unfold used_elem. by rewrite length_app, !to_le_bytes_length. Qed.
Lemma used_elem_bytes id len : Forall is_byte (used_elem id len).
Proof. apply Forall_app. split; apply to_le_bytes_byte. Qed.

(** Completing one chain. *)
Record used_step q m head len q' m' : Prop := {
  us_queue : q' = set_used (wrap16 (q_next_used q + 1)) (wrap16 (q_num_added q + 1)) q;
  us_slot : used_slot q m' (q_next_used q) = Some (used_elem head len);
  us_other i : i mod q_size q <> q_next_used q mod q_size q -> used_slot q m' i = used_slot q m i;
  us_idx : used_idx q m' = Some (wrap16 (q_next_used q + 1));
  us_frame a n : a + Z.of_nat n <= q_used_ring q \/ q_used_ring q + 4 + 8 * q_size q <= a ->
    read_obj m' a n = read_obj m a n;
  us_written : written m m'
}.

Lemma layout_used q m k x y : layout q m k -> layout (set_used x y q) m k.
Proof. intros []. by split. Qed.
Lemma layout_memory q m m' k : (forall a n, get_slice m' a n = get_slice m a n) -> layout q m k -> layout q m' k.
Proof. intros Hs []. split; try done; by rewrite Hs. Qed.

Lemma add_used_step q m k head len :
  layout q m k -> in_64_bits q -> 0 <= head < q_size q ->
  exists q' m', add_used q m head len = (Ok tt, (q', m')) /\ used_step q m head len q' m'.
Proof.
  intros Hl [_ Hu] Hh. pose proof (layout_size_pos _ _ _ Hl) as Hp. unfold add_used.
  rewrite (proj2 (Z.leb_gt _ _)) by lia. unfold VIRTQ_USED_RING_HEADER_SIZE, VIRTQ_USED_ELEMENT_SIZE, address_add.
  pose proof (Z.mod_pos_bound (q_next_used q) (q_size q) Hp) as Hm.
  rewrite (proj2 (checked_add_Some (q_used_ring q) (4 + q_next_used q mod q_size q * 8) _)) by (split; [lia|done]).
  destruct (slice_write m (q_used_ring q) (6 + 8 * q_size q) (4 + q_next_used q mod q_size q * 8) (used_elem head len))
    as [m1 Hw]; [apply Hl|lia|rewrite used_elem_length; lia|]. rewrite Hw. cbn [set_used q_used_ring q_next_used].
  rewrite (proj2 (checked_add_Some (q_used_ring q) 2 _)) by (split; [lia|done]).
  assert (get_slice m1 (q_used_ring q) (6 + 8 * q_size q) = true) as Hs1 by (rewrite (write_slice _ _ _ _ _ _ Hw); apply Hl).
  assert ((q_used_ring q + 2) mod 2 = 0) as Heven.
  { apply add_even; [|done]. pose proof (ly_used_align _ _ _ Hl) as Ha. apply Z.mod_divide in Ha as [z ->]; [|lia].
    apply Z.mod_divide; [lia|]. exists (2 * z). lia. }
  rewrite (slice_store _ _ _ _ _ Hs1) by (lia || done).
  destruct (slice_write m1 (q_used_ring q) (6 + 8 * q_size q) 2 (to_le_bytes 2 (wrap16 (q_next_used q + 1)))) as [m2 Hw2];
    [done|lia|rewrite to_le_bytes_length; lia|]. rewrite Hw2. eexists _, _. split; [done|].
  assert (get_slice m2 (q_used_ring q) (6 + 8 * q_size q) = true) as Hs2 by (by rewrite (write_slice _ _ _ _ _ _ Hw2)).
  pose proof (write_read _ _ _ _ (used_elem_bytes _ _) Hw) as Hr1. rewrite used_elem_length in Hr1.
  pose proof (write_read _ _ _ _ (to_le_bytes_byte _ _) Hw2) as Hr2. rewrite to_le_bytes_length in Hr2.
  split.
  - done.
  - unfold used_slot. rewrite (write_frame _ _ _ _ _ _ Hw2) by (rewrite to_le_bytes_length; lia). exact Hr1.
  - intros i Hi. unfold used_slot. pose proof (Z.mod_pos_bound i (q_size q) Hp).
    rewrite (write_frame _ _ _ _ _ _ Hw2) by (rewrite to_le_bytes_length; lia).
    apply (write_frame _ _ _ _ _ _ Hw). rewrite used_elem_length. lia.
  - unfold used_idx. rewrite (slice_load _ _ _ _ Hs2), Hr2 by (lia || done). cbn. f_equal.
    apply (from_to_le_bytes 2). apply (wrap_range 16). lia.
  - intros a n Ha. rewrite (write_frame _ _ _ _ _ _ Hw2) by (rewrite to_le_bytes_length; lia).
    apply (write_frame _ _ _ _ _ _ Hw). rewrite used_elem_length. lia.
  - etrans; by eapply written_one.
Qed.

(** Completing a sequence of chains. *)
Fixpoint add_all q m (l : list (Z * Z)) : Result QueueError unit * (Queue * M) :=
  match l with
  | [] => (Ok tt, (q, m))
  | (head, len) :: l =>
      match add_used q m head len with
      | (Ok _, (q, m)) => add_all q m l
      | r => r
      end
  end.

Lemma add_all_ok l q m k :
  layout q m k -> in_64_bits q -> indices_ok q -> Forall (fun '(head, _) => 0 <= head < q_size q) l ->
  exists q' m', add_all q m l = (Ok tt, (q', m')) /\
    q' = set_used (wrap16 (q_next_used q + Z.of_nat (length l))) (wrap16 (q_num_added q + Z.of_nat (length l))) q /\
    (forall i, (forall j, (j < length l)%nat -> i mod q_size q <> (q_next_used q + Z.of_nat j) mod q_size q) ->
       used_slot q m' i = used_slot q m i) /\
    ((length l <= Z.to_nat (q_size q))%nat -> forall j head len, l !! j = Some (head, len) ->
       used_slot q m' (q_next_used q + Z.of_nat j) = Some (used_elem head len)) /\
    used_idx q m' = match l with [] => used_idx q m | _ => Some (q_next_used q') end /\
    (forall a n, a + Z.of_nat n <= q_used_ring q \/ q_used_ring q + 4 + 8 * q_size q <= a ->
       read_obj m' a n = read_obj m a n).
Proof.
  intros Hl H64 Hi. pose proof (layout_k _ _ _ Hl Hi) as Hk. pose proof (ly_k _ _ _ Hl) as Hk0.
  pose proof (layout_size_pos _ _ _ Hl) as Hp. revert q m Hl H64 Hi Hp.
  induction l as [|[head len] l IH]; intros q m Hl H64 Hi Hp Hall.
  { exists q, m. split; [done|]. split_and!; [|done..]. destruct Hi as (_ & _ & H1 & H2). cbn.
    rewrite !Z.add_0_r, !wrap_small by done. by destruct q. }
  inversion_clear Hall as [|? ? Hh Hall']. destruct (add_used_step q m k head len Hl H64 Hh) as (q1 & m1 & Ha & Hs).
  destruct Hs as [-> Hslot Hother Hidx Hframe Hslices]. cbn [add_all]. rewrite Ha.
  set (q1 := set_used _ _ _) in *.
  assert (layout q1 m1 k) as Hl1 by (apply layout_used, (layout_memory q m m1); [by intros; apply written_slice|done]).
  assert (indices_ok q1) as Hi1.
  { destruct Hi as (H1 & H2 & H3 & H4). split_and!; [done|done|by apply (wrap_range 16)..]. }
  destruct (IH q1 m1 Hl1 H64 Hi1 Hp Hall') as (q2 & m2 & -> & -> & Hkeep & Hwin & Hlast & Hfr).
  assert (forall j, (q_next_used q1 + Z.of_nat j) mod q_size q = (q_next_used q + Z.of_nat (S j)) mod q_size q) as Hshift.
  { intros j. cbn [q1 set_used q_next_used]. rewrite (ly_size _ _ _ Hl).
    rewrite <- (wrap_mod_pow2 16 k (_ + _)), wrap_add_l, wrap_mod_pow2 by lia. f_equal. lia. }
  exists (set_used (wrap16 (q_next_used q + Z.of_nat (length ((head, len) :: l)))) (wrap16 (q_num_added q + Z.of_nat (length ((head, len) :: l)))) q), m2.
  split; [|split; [done|]].
  { do 2 f_equal. cbn [q1 set_used q_next_used q_num_added length]. rewrite !wrap_add_l. unfold set_used. cbn. f_equal; f_equal; lia. }
  split_and!.
  - intros i Hne. change (used_slot q m2 i) with (used_slot q1 m2 i). rewrite Hkeep.
    + apply Hother. specialize (Hne 0%nat ltac:(cbn; lia)). by rewrite Z.add_0_r in Hne.
    + intros j Hj. change (q_size q1) with (q_size q). rewrite Hshift. apply Hne. cbn. lia.
  - intros Hlen j h ln Hj. cbn [length] in Hlen. destruct j as [|j].
    + injection Hj as -> ->. change (used_slot q m2) with (used_slot q1 m2). rewrite Z.add_0_r, Hkeep; [exact Hslot|].
      intros j Hj. change (q_size q1) with (q_size q). rewrite Hshift. intros Heq. symmetry in Heq.
      replace (q_next_used q) with (q_next_used q + 0) in Heq at 2 by lia.
      assert ((Z.of_nat (S j) - 0) mod q_size q = 0) as Hz.
      { replace (Z.of_nat (S j) - 0) with ((q_next_used q + Z.of_nat (S j)) - (q_next_used q + 0)) by lia.
        rewrite Zminus_mod, Heq, Z.sub_diag. by apply Z.mod_0_l; lia. }
      rewrite Z.sub_0_r, Z.mod_small in Hz by lia. lia.
    + specialize (Hwin ltac:(change (q_size q1) with (q_size q); lia) j h ln Hj).
      change (used_slot q1 m2) with (used_slot q m2) in Hwin. rewrite <- Hwin. unfold used_slot. by rewrite Hshift.
  - change (used_idx q m2) with (used_idx q1 m2). rewrite Hlast. destruct l as [|p l]; [exact Hidx|].
    cbn [q1 set_used q_next_used length]. rewrite wrap_add_l. do 2 f_equal. lia.
  - intros a n Hd. change (q_used_ring q1) with (q_used_ring q) in Hfr. change (q_size q1) with (q_size q) in Hfr.
    by rewrite Hfr, Hframe.
Qed.

(** ** Interrupts *)

Lemma used_event_ok q m k :
  layout q m k -> in_64_bits q -> exists event, used_event q m = Ok event /\ is_u16 event.
Proof.
  intros Hl [Ha _]. pose proof (layout_size_pos _ _ _ Hl).
  unfold used_event, address_add, VIRTQ_AVAIL_RING_HEADER_SIZE, VIRTQ_AVAIL_ELEMENT_SIZE.
  rewrite (proj2 (checked_add_Some (q_avail_ring q) (4 + q_size q * 2) _)) by (split; [lia|done]). cbn [ok_or mbind result_bind].
  destruct (load_field m (q_avail_ring q) (6 + 2 * q_size q) (4 + q_size q * 2)) as (v & -> & Hv);
    [apply Hl|lia|lia| |by exists v].
  apply add_even; [apply Hl|]. replace (4 + q_size q * 2) with ((2 + q_size q) * 2) by lia. by apply Z_mod_mult.
Qed.

Lemma event_passed next added event :
  is_u16 next -> is_u16 added -> is_u16 event ->
  (wrap16 (wrap16 (next - event) - 1) <? wrap16 (next - wrap16 (next - added))) = true <->
  exists i, 0 <= i < added /\ event = wrap16 (next - added + i).
Proof.
  intros Hn Ha He. rewrite wrap_sub_l, wrap_sub_r, Z.ltb_lt.
  replace (next - (next - added)) with added by lia. rewrite (wrap_small 16 added) by done.
  split.
  - intros Hlt. pose proof (wrap_range 16 (next - event - 1) ltac:(lia)) as Hr.
    exists (added - 1 - wrap16 (next - event - 1)). split; [lia|].
    replace (next - added + (added - 1 - wrap16 (next - event - 1))) with (next - 1 - wrap16 (next - event - 1)) by lia.
    rewrite wrap_sub_r. replace (next - 1 - (next - event - 1)) with event by lia. by rewrite wrap_small.
  - intros (i & Hi & ->). replace (next - wrap16 (next - added + i) - 1) with (next - 1 - wrap16 (next - added + i)) by lia.
    rewrite wrap_sub_r. replace (next - 1 - (next - added + i)) with (added - 1 - i) by lia.
    rewrite wrap_small; [lia|]. unfold is_uint in *. lia.
Qed.
End Layout.

(** ** The properties *)

(** Walking a descriptor chain ends whatever the guest wrote to memory, also
    for cyclic chains: at most as many descriptors as the queue has entries are
    visited, all inside the table and each linked from the one before; the
    readable part and the rest make up the chain. *)
Theorem chain_walk_terminates {M} `{GuestMemory M} (m : M) table size index c :
  checked_new m table size index = Some c -> 0 < size ->
  exists l r w, into_iter m c = Some l /\ Z.of_nat (length l) <= size /\ linked m l /\ head l = Some c /\
    Forall (fun d => dc_index d < size) l /\
    readable m c = Some r /\ writable m c = Some w /\ r ++ w = l /\ Forall (fun d => is_read_only d = true) r.
Proof.
  intros Hc Hp. apply checked_new_Some in Hc as (Hi & Hi' & Hs & _ & Ht).
  destruct (desc_iter_ends m (Z.to_nat size) c) as (l & Hl & Hn & Hk & Hf); [lia|lia|].
  exists (c :: l), (take_while (c :: l)), (skip_while (c :: l)). unfold readable, writable, into_iter. rewrite Ht, Hl.
  split_and!; [done|lia|done|done|constructor; [lia|by rewrite Hs in Hf]|done|done|apply take_skip|apply take_while_read].
Qed.

(** On a valid layout draining the available ring never panics and yields
    exactly the chains the driver published between the device's index and its
    own, in order and each once, and leaves the device's index at the driver's. *)
Theorem available_ring_drained {M} `{GuestMemoryLaws M} (m : M) q n idx l :
  valid_layout q m = true -> q_size q <= 2 ^ 14 -> in_64_bits q -> indices_ok q ->
  avail_idx q m = Ok idx -> wrap16 (idx - q_next_avail q) = Z.of_nat n ->
  available n q m (q_next_avail q) = Some l ->
  pop_all (S n) q m = Some (l, set_next_avail idx q) /\ queue_is_empty (set_next_avail idx q) m = Some true.
Proof.
  intros Hv Hsz H64 Hi Hidx Hn Hav. apply valid_layout_spec in Hv as [k Hl]. split.
  - eapply pop_all_available; try done. rewrite (ly_size _ _ _ Hl) in Hsz. apply (Z.pow_le_mono_r_iff 2) in Hsz; lia.
  - unfold queue_is_empty, queue_len. change (avail_idx (set_next_avail idx q) m) with (avail_idx q m). rewrite Hidx. cbn.
    by rewrite Z.sub_diag.
Qed.

(** The used ring is a window on the sequence of completed chains: after
    completing up to a ring's worth of chains every one of them is in its slot,
    also across the wrap of the 16-bit index, the published index counts them,
    and no byte outside the elements and the index is touched. *)
Theorem used_ring_window {M} `{GuestMemoryLaws M} (m : M) q l :
  valid_layout q m = true -> in_64_bits q -> indices_ok q ->
  Forall (fun '(head, _) => 0 <= head < q_size q) l -> (length l <= Z.to_nat (q_size q))%nat -> l <> [] ->
  exists q' m', add_all q m l = (Ok tt, (q', m')) /\
    q_next_used q' = wrap16 (q_next_used q + Z.of_nat (length l)) /\ used_idx q m' = Some (q_next_used q') /\
    (forall j head len, l !! j = Some (head, len) ->
       used_slot q m' (q_next_used q + Z.of_nat j) = Some (used_elem head len)) /\
    (forall a n, a + Z.of_nat n <= q_used_ring q \/ q_used_ring q + 4 + 8 * q_size q <= a ->
       read_obj m' a n = read_obj m a n).
Proof.
  intros Hv H64 Hi Hall Hlen Hne. apply valid_layout_spec in Hv as [k Hl].
  destruct (add_all_ok l q m k Hl H64 Hi Hall) as (q' & m' & Ha & -> & _ & Hw & Hidx & Hf).
  eexists _, m'. split; [done|]. split_and!; [done| |by apply Hw|done]. rewrite Hidx. by destruct l.
Qed.

(** With event indices negotiated the device asks for an interrupt exactly
    when one of the chains it completed since it last asked is the one the
    driver named, and then starts counting anew. *)
Theorem notification_exact {M} `{GuestMemoryLaws M} (m : M) q :
  valid_layout q m = true -> in_64_bits q -> indices_ok q -> q_event_idx_enabled q = true ->
  exists event b, used_event q m = Ok event /\ needs_notification q m = (Ok b, set_used (q_next_used q) 0 q) /\
    (b = true <-> exists i, 0 <= i < q_num_added q /\ event = wrap16 (q_next_used q - q_num_added q + i)).
Proof.
  intros Hv H64 (_ & _ & Hn & Ha) He. apply valid_layout_spec in Hv as [k Hl].
  destruct (used_event_ok q m k Hl H64) as (event & Hev & Hr). eexists event, _. split; [done|].
  unfold needs_notification. rewrite He, Hev. split; [done|]. by apply event_passed.
Qed.

(** A captured queue is restored as it was into a device of the same size,
    provided its rings are still valid. *)
Theorem snapshot_restored {M} `{GuestMemory M} (m : M) q max_size :
  queue_restore (capture_state q) max_size m =
    if negb (q_max_size q =? max_size) then Err SizeMismatch
    else if q_ready q && negb (valid_layout q m) then Err InvalidLayout else Ok q.
Proof.
  unfold queue_restore, capture_state. cbn. destruct (Z.eqb_spec (q_max_size q) max_size) as [<-|]; [|done].
  cbn. by destruct q.
Qed.

(** ** Evaluation *)

Definition le_descriptor (addr len flags next : Z) : list Z :=
  to_le_bytes 8 addr ++ to_le_bytes 4 len ++ to_le_bytes 2 flags ++ to_le_bytes 2 next.
(** Four descriptors at 0, the available ring at 128, the used ring at 256: the
    first two descriptors form a chain, the last two a cycle, and both chains
    were published while the indices wrap. *)
Definition example_memory : FlatMemory :=
  flat_of 4096 [(0, le_descriptor 1024 16 1 1); (16, le_descriptor 2048 32 2 0);
                (32, le_descriptor 1024 8 1 3); (48, le_descriptor 1024 8 1 2);
                (128, [0; 0; 1; 0; 2; 0; 0; 0; 0; 0; 0; 0; 0; 0])].
Definition example_queue : Queue := mkQueue 4 4 true 0 128 256 65535 65535 true 1.

Lemma example_valid : valid_layout example_queue example_memory = true.
Proof. reflexivity. Qed.
Lemma example_64_bits : in_64_bits example_queue.
Proof. split; vm_compute; discriminate. Qed.
Lemma example_indices : indices_ok example_queue.
Proof. repeat split; vm_compute; congruence. Qed.

Definition cyclic_chain : DescriptorChain := mkChain 0 4 4 2 1024 8 1 3.
Lemma example_cycle :
  checked_new example_memory 0 4 2 = Some cyclic_chain /\ option_map (map dc_index) (into_iter example_memory cyclic_chain) = Some [2; 3; 2; 3].
Proof. split; vm_compute; reflexivity. Qed.
Lemma chain_walk_terminates_witness :
  exists l, into_iter example_memory cyclic_chain = Some l /\ map dc_index l = [2; 3; 2; 3].
Proof.
  destruct example_cycle as [Hc Hi].
  destruct (chain_walk_terminates example_memory 0 4 2 cyclic_chain Hc) as (l & r & w & Hl & _); [done|].
  exists l. split; [exact Hl|]. rewrite Hl in Hi. by injection Hi.
Defined.

Lemma available_ring_drained_witness :
  exists l, pop_all 3 example_queue example_memory = Some (l, set_next_avail 1 example_queue) /\
    map dc_index l = [0; 2].
Proof.
  eexists. split.
  - eapply (available_ring_drained example_memory example_queue 2 1); try reflexivity;
      [vm_compute; discriminate|apply example_64_bits|apply example_indices].
  - reflexivity.
Defined.

Lemma used_ring_window_witness :
  exists q m, add_all example_queue example_memory [(0, 32); (2, 0)] = (Ok tt, (q, m)) /\
    q_next_used q = 1 /\ used_idx example_queue m = Some 1.
Proof.
  destruct (used_ring_window example_memory example_queue [(0, 32); (2, 0)]) as (q & m & Ha & Hn & Hi & _).
  - apply example_valid.
  - apply example_64_bits.
  - apply example_indices.
  - repeat constructor; vm_compute; congruence.
  - cbn. lia.
  - discriminate.
  - exists q, m. rewrite Hi, Hn. done.
Defined.

Lemma notification_exact_witness :
  exists event b, used_event example_queue example_memory = Ok event /\
    needs_notification example_queue example_memory = (Ok b, set_used 65535 0 example_queue).
Proof.
  destruct (notification_exact example_memory example_queue) as (event & b & H1 & H2 & _);
    [apply example_valid|apply example_64_bits|apply example_indices|reflexivity|by exists event, b].
Defined.

(** ** Limits of the queue *)

(** A queue of [2 ^ 15] entries is a valid layout, but the 16-bit offset of its
    last available entry overflows and the pop panics. *)
Definition large_memory : FlatMemory := flat_of (2 ^ 24) [(2 ^ 20, [0; 0; 0; 128])].
Definition large_queue : Queue := mkQueue (2 ^ 15) (2 ^ 15) true 0 (2 ^ 20) (2 ^ 21) (2 ^ 15 - 1) 0 false 0.
Lemma large_queue_pop_overflows :
  valid_layout large_queue large_memory = true /\ queue_len large_queue large_memory = Some 1 /\
  pop large_queue large_memory = None.
Proof. split_and!; vm_compute; reflexivity. Qed.

(** A descriptor table that ends where memory ends is a valid layout, but its
    last descriptor cannot be read: the address after it is asked to be in
    range as well. *)
Definition edge_memory : FlatMemory := flat_of 256 [].
Definition edge_queue : Queue := mkQueue 4 4 true 192 0 64 0 0 false 0.
Lemma last_descriptor_unreachable :
  valid_layout edge_queue edge_memory = true /\ is_Some (checked_new edge_memory 192 4 2) /\
  checked_new edge_memory 192 4 3 = None.
Proof. split_and!; [vm_compute; reflexivity|by eexists; vm_compute|vm_compute; reflexivity]. Qed.

(** The writable part of a chain is what follows the readable prefix, and may
    hold descriptors the device must not write to. *)
Definition mixed_memory : FlatMemory := flat_of 256 [(0, le_descriptor 64 8 3 1); (16, le_descriptor 128 8 0 0)].
Lemma writable_may_be_read_only :
  option_map (option_map (map is_write_only)) (writable mixed_memory <$> checked_new mixed_memory 0 4 0) =
    Some (Some [true; false]).
Proof. vm_compute. reflexivity. Qed.
