(* ===== verification/Virtio.v ===== *)
(** * Virtio devices

    [pvisor-vm/src/devices/virtio/device.rs]: what a device promises to its
    transport. The trait [VirtioDevice] is the class of that name; its default
    methods are definitions over it. Guest memory and the event counters the
    transport shares with the device are passed along. *)
From stdpp Require Import base tactics list strings.
From Stdlib Require Import ZArith Lia.
From S2P Require Import Prelude Bytes VirtQueue.
Local Open Scope Z_scope.

(** ** Event counters *)

(** [EventFd] is identified by its position among the counters of a transport.
    A write adds to the counter and fails when the sum does not fit. *)
Definition eventfd_write (counters : list Z) (event : nat) : option (list Z) :=
  c ← counters !! event; if c + 1 <=? u64_max - 1 then Some (<[event := c + 1]> counters) else None.

Record DeviceQueue := mkDeviceQueue { dq_queue : Queue; dq_event : nat }.

(** [set_event_idx] of the queue of a [DeviceQueue]. *)
Definition dq_set_event_idx (enabled : bool) (dq : DeviceQueue) : DeviceQueue :=
  mkDeviceQueue (set_event_idx enabled (dq_queue dq)) (dq_event dq).

(** ** Snapshots *)

(** [DeviceSnapshotState]; [P] stands for the states of the console, vsock and
    file system devices. *)
Inductive DeviceSnapshotState (P : Type) :=
| SnapRng
| SnapConsole (state : P)
| SnapVsock (state : P)
| SnapBalloon (values : list Z)
| SnapFs (tag : list Z) (allow_idmap : bool) (server : P).
Arguments SnapRng {P}.
Arguments SnapConsole {P} state.
Arguments SnapVsock {P} state.
Arguments SnapBalloon {P} values.
Arguments SnapFs {P} tag allow_idmap server.

Record DeviceSnapshot (P : Type) := mkDeviceSnapshot {
  ds_queues : option (list QueueSnapshot);
  ds_state : DeviceSnapshotState P
}.
Arguments mkDeviceSnapshot {P} ds_queues ds_state.
Arguments ds_queues {P} d.
Arguments ds_state {P} d.

(** ** The device trait *)

Record VirtioShmRegion := mkShm { shm_guest_addr : Z; shm_size : Z }.

Class VirtioDevice (P D : Type) := {
  vd_freeze : D -> Result string bool * D;
  vd_thaw : D -> list Z -> Result string unit * (D * list Z);
  vd_capture_state : D -> Result string (DeviceSnapshot P);
  vd_restore_state : D -> DeviceSnapshotState P -> Result string unit * D;
  avail_features : D -> Z;
  acked_features : D -> Z;
  set_acked_features : D -> Z -> D;
  device_type : D -> Z;
  queue_config : D -> list Z;
  read_config : D -> Z -> list Z -> list Z;
  write_config : D -> Z -> list Z -> D;
  vd_activate : D -> list DeviceQueue -> Result unit unit * D;
  is_activated : D -> bool;
  vd_reset : D -> bool * D;
  shm_region : D -> option VirtioShmRegion;
  shm_region_id : D -> Z
}.

(** What the transport relies on. *)
Class VirtioDeviceLaws (P D : Type) `{VirtioDevice P D} := {
  acked_set d v : acked_features (set_acked_features d v) = v;
  avail_set d v : avail_features (set_acked_features d v) = avail_features d;
  activated_set d v : is_activated (set_acked_features d v) = is_activated d;
  activated_config d o data : is_activated (write_config d o data) = is_activated d;
  acked_config d o data : acked_features (write_config d o data) = acked_features d;
  avail_config d o data : avail_features (write_config d o data) = avail_features d;
  activate_done d qs u d' : vd_activate d qs = (Ok u, d') -> is_activated d' = true;
  acked_activate d qs : acked_features (vd_activate d qs).2 = acked_features d;
  avail_activate d qs : avail_features (vd_activate d qs).2 = avail_features d;
  reset_done d d' : vd_reset d = (true, d') -> is_activated d' = false;
  reset_refused d d' : vd_reset d = (false, d') -> is_activated d' = is_activated d;
  acked_reset d : acked_features (vd_reset d).2 = acked_features d \/ acked_features (vd_reset d).2 = 0;
  avail_reset d : avail_features (vd_reset d).2 = avail_features d;
  activated_freeze d : is_activated (vd_freeze d).2 = is_activated d;
  acked_freeze d : acked_features (vd_freeze d).2 = acked_features d;
  avail_freeze d : avail_features (vd_freeze d).2 = avail_features d;
  activated_thaw d evts : is_activated (vd_thaw d evts).2.1 = is_activated d;
  acked_thaw d evts : acked_features (vd_thaw d evts).2.1 = acked_features d;
  avail_thaw d evts : avail_features (vd_thaw d evts).2.1 = avail_features d;
  thaw_length d evts : length (vd_thaw d evts).2.2 = length evts
}.

Section Default.
Context {P D : Type} `{VirtioDevice P D}.

Definition avail_features_by_page (d : D) (page : Z) : Z :=
  if page =? 0 then wrap32 (avail_features d)
  else if page =? 1 then wrap32 (Z.shiftr (avail_features d) 32)
  else 0.

Definition ack_features_by_page (d : D) (page value : Z) : D :=
  let v := if page =? 0 then value else if page =? 1 then Z.shiftl value 32 else 0 in
  let unrequested_features := clear v (avail_features d) in
  let v := if negb (unrequested_features =? 0) then clear v unrequested_features else v in
  set_acked_features d (Z.lor (acked_features d) v).
End Default.

(** [read_config_space]; the bytes past the configuration stay as they were. *)
Definition read_config_space (config : list Z) (offset : Z) (data : list Z) : list Z :=
  let config_len := Z.of_nat (length config) in
  if config_len <=? offset then data
  else match checked_add offset (Z.of_nat (length data)) with
  | Some e =>
      let bytes := take (Z.to_nat (Z.min e config_len - offset)) (drop (Z.to_nat offset) config) in
      bytes ++ drop (length bytes) data
  | None => data
  end.

(** The bytes read are those of the configuration, and the rest is kept. *)
Lemma read_config_space_lookup config offset data i :
  0 <= offset -> offset + Z.of_nat (length data) <= u64_max -> (i < length data)%nat ->
  read_config_space config offset data !! i =
    match config !! (Z.to_nat offset + i)%nat with Some b => Some b | None => data !! i end.
Proof.
  intros Ho Hm Hi. unfold read_config_space.
  destruct (Z.leb_spec (Z.of_nat (length config)) offset).
  - by rewrite (lookup_ge_None_2 config) by lia.
  - rewrite (proj2 (checked_add_Some _ _ _)) by (split; [done|reflexivity]).
    set (n := Z.to_nat (Z.min (offset + Z.of_nat (length data)) (Z.of_nat (length config)) - offset)).
    set (bytes := take n (drop (Z.to_nat offset) config)).
    assert (length bytes = n) as Hb by (unfold bytes; rewrite length_take, length_drop; lia).
    destruct (decide (i < n)%nat) as [Hin|Hin].
    + rewrite lookup_app_l by lia. unfold bytes. rewrite lookup_take_lt, lookup_drop by done.
      destruct (lookup_lt_is_Some_2 config (Z.to_nat offset + i)) as [b ->]; [lia|done].
    + rewrite lookup_app_r, lookup_drop, Hb by lia. rewrite (lookup_ge_None_2 config) by lia. f_equal. lia.
Qed.

(** The acknowledged features of a page: those asked for and offered. *)
Lemma ack_features_value {P D} `{VirtioDeviceLaws P D} (d : D) page value :
  acked_features (ack_features_by_page d page value) =
    Z.lor (acked_features d)
      (Z.land (if page =? 0 then value else if page =? 1 then Z.shiftl value 32 else 0) (avail_features d)).
Proof.
  unfold ack_features_by_page. rewrite acked_set. f_equal.
  set (v := if page =? 0 then _ else _). destruct (Z.eqb_spec (clear v (avail_features d)) 0) as [E|_]; cbn [negb].
  - apply Z.bits_inj'. intros i Hi. rewrite Z.land_spec. apply (f_equal (fun x => Z.testbit x i)) in E.
    unfold clear in E. rewrite Z.ldiff_spec, Z.bits_0 in E.
    by destruct (Z.testbit v i), (Z.testbit (avail_features d) i).
  - unfold clear. apply Z.bits_inj'. intros i Hi. rewrite !Z.ldiff_spec, Z.land_spec.
    by destruct (Z.testbit v i), (Z.testbit (avail_features d) i).
Qed.
