(* ===== verification/Mmio.v ===== *)
(** * The virtio MMIO transport

    [pvisor-vm/src/devices/virtio/mmio.rs]: the registers through which the
    guest driver negotiates features, configures the queues and walks the
    device through its status, and the snapshots of the transport.

    The device is a state of the class [VirtioDevice]; its mutex is always free
    for a register access, and [try_lock] outcomes are arguments elsewhere.
    Guest memory is passed to the one operation that reads it. The interrupt
    status is a [usize]; raising the line itself belongs to the interrupt
    controller. [None] is a panic. *)
From stdpp Require Import base tactics list strings.
From Stdlib Require Import ZArith Lia.
From S2P Require Import Prelude Bytes Bus VirtQueue Virtio.
Local Open Scope Z_scope.

(** [device_status]. *)
Definition INIT : Z := 0.
Definition ACKNOWLEDGE : Z := 1.
Definition DRIVER : Z := 2.
Definition FAILED : Z := 128.
Definition FEATURES_OK : Z := 8.
Definition DRIVER_OK : Z := 4.

Definition VENDOR_ID : Z := 0.
Definition MMIO_MAGIC_VALUE : Z := 0x74726976.
Definition MMIO_VERSION : Z := 2.
Definition VIRTIO_MMIO_INT_VRING : Z := 1.
Definition VIRTIO_MMIO_INT_CONFIG : Z := 2.
(** Of the [virtio_bindings] crate: a constant of the virtio specification. *)
Definition VIRTIO_RING_F_EVENT_IDX : Z := 29.

Record MmioTransport (D : Type) := mkTransport {
  mt_device : D;
  mt_features_select : Z;
  mt_acked_features_select : Z;
  mt_queue_select : Z;
  mt_device_status : Z;
  mt_config_generation : Z;
  mt_queues : option (list Queue);
  mt_queue_evts : list Z;
  mt_queue_config : list Z;
  mt_shm_region_select : Z;
  mt_interrupt_status : Z;
  mt_irq_line : option Z
}.
Arguments mkTransport {D} _ _ _ _ _ _ _ _ _ _ _ _.
Arguments mt_device {D} m.
Arguments mt_features_select {D} m.
Arguments mt_acked_features_select {D} m.
Arguments mt_queue_select {D} m.
Arguments mt_device_status {D} m.
Arguments mt_config_generation {D} m.
Arguments mt_queues {D} m.
Arguments mt_queue_evts {D} m.
Arguments mt_queue_config {D} m.
Arguments mt_shm_region_select {D} m.
Arguments mt_interrupt_status {D} m.
Arguments mt_irq_line {D} m.

Record MmioSnapshot (P : Type) := mkMmioSnapshot {
  ms_version : Z;
  ms_device_type : Z;
  ms_avail_features : Z;
  ms_acked_features : Z;
  ms_features_select : Z;
  ms_acked_features_select : Z;
  ms_queue_select : Z;
  ms_device_status : Z;
  ms_config_generation : Z;
  ms_shm_region_select : Z;
  ms_interrupt_status : Z;
  ms_irq_line : option Z;
  ms_queues : option (list QueueSnapshot);
  ms_device : DeviceSnapshot P
}.
Arguments mkMmioSnapshot {P} _ _ _ _ _ _ _ _ _ _ _ _ _ _.
Arguments ms_version {P} m.
Arguments ms_device_type {P} m.
Arguments ms_avail_features {P} m.
Arguments ms_acked_features {P} m.
Arguments ms_features_select {P} m.
Arguments ms_acked_features_select {P} m.
Arguments ms_queue_select {P} m.
Arguments ms_device_status {P} m.
Arguments ms_config_generation {P} m.
Arguments ms_shm_region_select {P} m.
Arguments ms_interrupt_status {P} m.
Arguments ms_irq_line {P} m.
Arguments ms_queues {P} m.
Arguments ms_device {P} m.

(** ** Field updates *)

Section Fields.
Context {D : Type}.
Implicit Types (t : MmioTransport D).

Definition with_device (d : D) t : MmioTransport D :=
  mkTransport d (mt_features_select t) (mt_acked_features_select t) (mt_queue_select t) (mt_device_status t)
    (mt_config_generation t) (mt_queues t) (mt_queue_evts t) (mt_queue_config t) (mt_shm_region_select t)
    (mt_interrupt_status t) (mt_irq_line t).
Definition with_selects (features acked queue : Z) t : MmioTransport D :=
  mkTransport (mt_device t) features acked queue (mt_device_status t)
    (mt_config_generation t) (mt_queues t) (mt_queue_evts t) (mt_queue_config t) (mt_shm_region_select t)
    (mt_interrupt_status t) (mt_irq_line t).
Definition with_status (s : Z) t : MmioTransport D :=
  mkTransport (mt_device t) (mt_features_select t) (mt_acked_features_select t) (mt_queue_select t) s
    (mt_config_generation t) (mt_queues t) (mt_queue_evts t) (mt_queue_config t) (mt_shm_region_select t)
    (mt_interrupt_status t) (mt_irq_line t).
Definition with_queues (qs : option (list Queue)) t : MmioTransport D :=
  mkTransport (mt_device t) (mt_features_select t) (mt_acked_features_select t) (mt_queue_select t) (mt_device_status t)
    (mt_config_generation t) qs (mt_queue_evts t) (mt_queue_config t) (mt_shm_region_select t)
    (mt_interrupt_status t) (mt_irq_line t).
Definition with_evts (evts : list Z) t : MmioTransport D :=
  mkTransport (mt_device t) (mt_features_select t) (mt_acked_features_select t) (mt_queue_select t) (mt_device_status t)
    (mt_config_generation t) (mt_queues t) evts (mt_queue_config t) (mt_shm_region_select t)
    (mt_interrupt_status t) (mt_irq_line t).
Definition with_interrupt_status (s : Z) t : MmioTransport D :=
  mkTransport (mt_device t) (mt_features_select t) (mt_acked_features_select t) (mt_queue_select t) (mt_device_status t)
    (mt_config_generation t) (mt_queues t) (mt_queue_evts t) (mt_queue_config t) (mt_shm_region_select t)
    s (mt_irq_line t).
Definition with_shm_select (s : Z) t : MmioTransport D :=
  mkTransport (mt_device t) (mt_features_select t) (mt_acked_features_select t) (mt_queue_select t) (mt_device_status t)
    (mt_config_generation t) (mt_queues t) (mt_queue_evts t) (mt_queue_config t) s
    (mt_interrupt_status t) (mt_irq_line t).
End Fields.

(** The fields of a queue that registers write. *)
Definition set_size (v : Z) (q : Queue) : Queue :=
  mkQueue (q_max_size q) v (q_ready q) (q_desc_table q) (q_avail_ring q) (q_used_ring q)
    (q_next_avail q) (q_next_used q) (q_event_idx_enabled q) (q_num_added q).
Definition set_ready (v : bool) (q : Queue) : Queue :=
  mkQueue (q_max_size q) (q_size q) v (q_desc_table q) (q_avail_ring q) (q_used_ring q)
    (q_next_avail q) (q_next_used q) (q_event_idx_enabled q) (q_num_added q).
Definition set_desc_table (a : Z) (q : Queue) : Queue :=
  mkQueue (q_max_size q) (q_size q) (q_ready q) a (q_avail_ring q) (q_used_ring q)
    (q_next_avail q) (q_next_used q) (q_event_idx_enabled q) (q_num_added q).
Definition set_avail_ring (a : Z) (q : Queue) : Queue :=
  mkQueue (q_max_size q) (q_size q) (q_ready q) (q_desc_table q) a (q_used_ring q)
    (q_next_avail q) (q_next_used q) (q_event_idx_enabled q) (q_num_added q).
Definition set_used_ring (a : Z) (q : Queue) : Queue :=
  mkQueue (q_max_size q) (q_size q) (q_ready q) (q_desc_table q) (q_avail_ring q) a
    (q_next_avail q) (q_next_used q) (q_event_idx_enabled q) (q_num_added q).

(** [hi] and [lo] of [write]. *)
Definition hi (v x : Z) : Z := Z.lor (Z.land v 0xffffffff) (Z.shiftl x 32).
Definition lo (v x : Z) : Z := Z.lor (clear v 0xffffffff) x.

(** ** The transport *)

Definition create_queues (config : list Z) : list Queue := map queue_new config.
Definition create_queue_evts (count : nat) : list Z := replicate count 0.

(** The outcome of [try_lock]. *)
Inductive TryLock := Locked | WouldBlock | Poisoned.

Section Transport.
Context {P D : Type} `{VirtioDevice P D}.
Implicit Types (t : MmioTransport D) (s : MmioSnapshot P).

(** [MmioTransport::new], once the descriptors are open. *)
Definition transport_new (d : D) : MmioTransport D :=
  mkTransport d 0 0 0 INIT 0 (Some (create_queues (queue_config d)))
    (create_queue_evts (length (queue_config d))) (queue_config d) 0 0 None.

Definition check_device_status t (set clr : Z) : bool := Z.land (mt_device_status t) (Z.lor set clr) =? set.

Definition with_queue {U} t (d : U) (f : Queue -> U) : U :=
  match mt_queues t with
  | Some queues => match queues !! Z.to_nat (mt_queue_select t) with Some queue => f queue | None => d end
  | None => d
  end.

Definition with_queue_mut t (f : Queue -> Queue) : bool * MmioTransport D :=
  match mt_queues t with
  | Some queues =>
      match queues !! Z.to_nat (mt_queue_select t) with
      | Some queue => (true, with_queues (Some (<[Z.to_nat (mt_queue_select t) := f queue]> queues)) t)
      | None => (false, t)
      end
  | None => (false, t)
  end.

Definition update_queue_field t (f : Queue -> Queue) : MmioTransport D :=
  if check_device_status t FEATURES_OK FAILED then snd (with_queue_mut t f) else t.

(** [MmioTransport::reset]. *)
Definition transport_reset t : MmioTransport D :=
  with_queues (Some (create_queues (mt_queue_config t)))
    (with_status INIT (with_interrupt_status 0 (with_selects 0 0 0 t))).

(** [zip] of the queues with the events. *)
Definition device_queues (queues : list Queue) (evts : list Z) : list DeviceQueue :=
  zip_with mkDeviceQueue queues (seq 0 (length evts)).

(** [MmioTransport::activate]. *)
Definition transport_activate t : option (MmioTransport D) :=
  match mt_queues t with
  | None => Some t
  | Some queues =>
      let t := with_queues None t in
      let event_idx_enabled := negb (Z.land (acked_features (mt_device t)) (Z.shiftl 1 VIRTIO_RING_F_EVENT_IDX) =? 0) in
      match vd_activate (mt_device t) (map (dq_set_event_idx event_idx_enabled) (device_queues queues (mt_queue_evts t))) with
      | (Ok _, d) => Some (with_device d t)
      | (Err _, _) => None
      end
  end.

Definition set_device_status t (status : Z) : option (MmioTransport D) :=
  let changed := clear status (mt_device_status t) in
  if (changed =? ACKNOWLEDGE) && (mt_device_status t =? INIT) then Some (with_status status t)
  else if (changed =? DRIVER) && (mt_device_status t =? ACKNOWLEDGE) then Some (with_status status t)
  else if (changed =? FEATURES_OK) && (mt_device_status t =? Z.lor ACKNOWLEDGE DRIVER) then Some (with_status status t)
  else if (changed =? DRIVER_OK) && (mt_device_status t =? Z.lor (Z.lor ACKNOWLEDGE DRIVER) FEATURES_OK) then
    let t := with_status status t in
    let device_activated := is_activated (mt_device t) in
    if negb device_activated then transport_activate t else Some t
  else if negb (Z.land status FAILED =? 0) then Some (with_status (Z.lor (mt_device_status t) FAILED) t)
  else if status =? 0 then
    let t :=
      if is_activated (mt_device t) then
        let '(ok, d) := vd_reset (mt_device t) in
        let t := with_device d t in
        if negb ok then with_status (Z.lor (mt_device_status t) FAILED) t else t
      else t in
    Some (if Z.land (mt_device_status t) FAILED =? 0 then transport_reset t else t)
  else Some t.

(** The registers below [0x100]; [None] for one that is not known. *)
Definition read_register t (offset : Z) : option Z :=
  let d := mt_device t in
  if offset =? 0x0 then Some MMIO_MAGIC_VALUE
  else if offset =? 0x04 then Some MMIO_VERSION
  else if offset =? 0x08 then Some (device_type d)
  else if offset =? 0x0c then Some VENDOR_ID
  else if offset =? 0x10 then
    let features := avail_features_by_page d (mt_features_select t) in
    Some (if mt_features_select t =? 1 then Z.lor features 1 else features)
  else if offset =? 0x34 then Some (default 0 (mt_queue_config t !! Z.to_nat (mt_queue_select t)))
  else if offset =? 0x44 then Some (with_queue t 0 (fun q => if q_ready q then 1 else 0))
  else if offset =? 0x60 then Some (wrap32 (mt_interrupt_status t))
  else if offset =? 0x70 then Some (mt_device_status t)
  else if offset =? 0xfc then Some (mt_config_generation t)
  else if (0xb0 <=? offset) && (offset <=? 0xbc) then
    let '(shm_base, shm_len) :=
      if negb (mt_shm_region_select t =? shm_region_id d) then (0, u64_max)
      else match shm_region d with
           | Some region => (shm_guest_addr region, shm_size region)
           | None => (0, u64_max)
           end in
    Some (if offset =? 0xb0 then wrap32 shm_len
          else if offset =? 0xb4 then wrap32 (Z.shiftr shm_len 32)
          else if offset =? 0xb8 then wrap32 shm_base
          else if offset =? 0xbc then wrap32 (Z.shiftr shm_base 32)
          else 0)
  else None.

(** [BusDevice::read]. *)
Definition mmio_read t (offset : Z) (data : list Z) : list Z :=
  if (offset <=? 0xff) && (length data =? 4)%nat then
    match read_register t offset with Some v => write_le_u32 data v | None => data end
  else if (0x100 <=? offset) && (offset <=? 0xfff) then read_config (mt_device t) (offset - 0x100) data
  else data.

Definition write_register t (offset v : Z) : option (MmioTransport D) :=
  if offset =? 0x14 then Some (with_selects v (mt_acked_features_select t) (mt_queue_select t) t)
  else if offset =? 0x20 then
    Some (if check_device_status t DRIVER (Z.lor FEATURES_OK FAILED)
          then with_device (ack_features_by_page (mt_device t) (mt_acked_features_select t) v) t else t)
  else if offset =? 0x24 then Some (with_selects (mt_features_select t) v (mt_queue_select t) t)
  else if offset =? 0x30 then Some (with_selects (mt_features_select t) (mt_acked_features_select t) v t)
  else if offset =? 0x38 then Some (update_queue_field t (set_size (wrap16 v)))
  else if offset =? 0x44 then Some (update_queue_field t (set_ready (v =? 1)))
  else if offset =? 0x50 then
    match mt_queue_evts t !! Z.to_nat v with
    | Some _ => evts ← eventfd_write (mt_queue_evts t) (Z.to_nat v); Some (with_evts evts t)
    | None => Some t
    end
  else if offset =? 0x64 then
    Some (if check_device_status t DRIVER_OK 0
          then with_interrupt_status (clear (mt_interrupt_status t) v) t else t)
  else if offset =? 0x70 then set_device_status t v
  else if offset =? 0x80 then Some (update_queue_field t (fun q => set_desc_table (lo (q_desc_table q) v) q))
  else if offset =? 0x84 then Some (update_queue_field t (fun q => set_desc_table (hi (q_desc_table q) v) q))
  else if offset =? 0x90 then Some (update_queue_field t (fun q => set_avail_ring (lo (q_avail_ring q) v) q))
  else if offset =? 0x94 then Some (update_queue_field t (fun q => set_avail_ring (hi (q_avail_ring q) v) q))
  else if offset =? 0xa0 then Some (update_queue_field t (fun q => set_used_ring (lo (q_used_ring q) v) q))
  else if offset =? 0xa4 then Some (update_queue_field t (fun q => set_used_ring (hi (q_used_ring q) v) q))
  else if offset =? 0xac then Some (with_shm_select v t)
  else Some t.

(** [BusDevice::write]. *)
Definition mmio_write t (offset : Z) (data : list Z) : option (MmioTransport D) :=
  if (offset <=? 0xff) && (length data =? 4)%nat then write_register t offset (read_le_u32 data)
  else if (0x100 <=? offset) && (offset <=? 0xfff) then
    Some (if check_device_status t DRIVER FAILED
          then with_device (write_config (mt_device t) (offset - 0x100) data) t else t)
  else Some t.

(** The transport on a bus. *)
#[export] Instance mmio_bus_device : BusDevice (MmioTransport D) := {
  dev_read t _ offset data := Some (t, mmio_read t offset data);
  dev_write t _ offset data := mmio_write t offset data
}.

(** [try_signal] and [BusDevice::interrupt], as far as the status goes. *)
Definition try_signal t (status : Z) : MmioTransport D :=
  with_interrupt_status (Z.lor (mt_interrupt_status t) status) t.
Definition signal_used_queue t : MmioTransport D := try_signal t VIRTIO_MMIO_INT_VRING.
Definition signal_config_change t : MmioTransport D := try_signal t VIRTIO_MMIO_INT_CONFIG.

(** ** Snapshots *)

Definition freeze t (lock : TryLock) : Result string bool * MmioTransport D :=
  match lock with
  | Locked => let '(r, d) := vd_freeze (mt_device t) in (r, with_device d t)
  | WouldBlock => (Ok false, t)
  | Poisoned => (Err "virtio device poisoned"%string, t)
  end.

(** [thaw] with the outcomes of its attempts, each with whether the deadline
    was still ahead; [None] while it is waiting. *)
Fixpoint thaw t (attempts : list (TryLock * bool)) : option (Result string unit * MmioTransport D) :=
  match attempts with
  | [] => None
  | (Locked, _) :: _ => let '(r, (d, evts)) := vd_thaw (mt_device t) (mt_queue_evts t) in Some (r, with_evts evts (with_device d t))
  | (WouldBlock, true) :: attempts => thaw t attempts
  | (WouldBlock, false) :: _ => Some (Err "virtio thaw lock timed out"%string, t)
  | (Poisoned, _) :: _ => Some (Err "virtio device poisoned"%string, t)
  end.

(** [MmioTransport::capture_state]. *)
Definition mmio_capture_state t (lock : TryLock) : Result string (MmioSnapshot P) :=
  let d := mt_device t in
  match lock with
  | Locked =>
      if match shm_region d with Some _ => true | None => false end then Err "DAX/SHM snapshot unsupported"%string
      else
        state ← vd_capture_state d;
        if negb (Bool.eqb (match ds_queues state with Some _ => true | None => false end) (is_activated d))
        then Err "device queue ownership inconsistent"%string
        else
          Ok (mkMmioSnapshot 1 (device_type d) (avail_features d) (acked_features d) (mt_features_select t)
                (mt_acked_features_select t) (mt_queue_select t) (mt_device_status t) (mt_config_generation t)
                (mt_shm_region_select t) (wrap32 (mt_interrupt_status t)) (mt_irq_line t)
                (map capture_state <$> mt_queues t) state)
  | _ => Err "virtio device busy or poisoned"%string
  end.
End Transport.

(** ** Restoring *)

Section Restore.
Context {M P D : Type} `{GuestMemory M, VirtioDevice P D}.
Implicit Types (t : MmioTransport D) (s : MmioSnapshot P) (m : M).

Definition is_some {A} (o : option A) : bool := match o with Some _ => true | None => false end.

(** The first check of [restore_state]. *)
Definition restore_mismatch t s : bool :=
  let d := mt_device t in
  let active := is_some (ds_queues (ms_device s)) in
  negb (ms_version s =? 1) || negb (ms_device_type s =? device_type d) ||
  negb (ms_avail_features s =? avail_features d) ||
  negb (clear (ms_acked_features s) (ms_avail_features s) =? 0) ||
  negb (bool_decide (ms_irq_line s = mt_irq_line t)) ||
  negb (clear (ms_interrupt_status s) 3 =? 0) ||
  is_activated d || is_some (shm_region d) ||
  Bool.eqb active (is_some (ms_queues s)) ||
  negb (Bool.eqb active (negb (Z.land (ms_device_status s) DRIVER_OK =? 0))).

(** Whether a restored queue has work waiting; the address was validated. *)
Definition queue_pending m (q : Queue) : Result string bool :=
  if negb (q_ready q) then Ok false
  else bs ← ok_or (read_obj m (q_avail_ring q + 2) 2) "guest memory"%string; Ok (negb (from_le_bytes bs =? q_next_avail q)).

(** The notifications of the queues with pending work. *)
Fixpoint notify_pending (pending : list bool) (event : nat) (evts : list Z) : Result string (list Z) :=
  match pending with
  | [] => Ok evts
  | p :: pending =>
      evts ← (if (event <? length evts)%nat && p then ok_or (eventfd_write evts event) "eventfd"%string else Ok evts);
      notify_pending pending (S event) evts
  end.

(** The registers of a snapshot, put into the transport. *)
Definition restore_registers s (queues : option (list Queue)) (d : D) (evts : list Z) t : MmioTransport D :=
  mkTransport d (ms_features_select s) (ms_acked_features_select s) (ms_queue_select s) (ms_device_status s)
    (ms_config_generation s) queues evts (mt_queue_config t) (ms_shm_region_select s)
    (ms_interrupt_status s) (mt_irq_line t).

Definition string_of_restore_error (e : RestoreError) : string :=
  match e with SizeMismatch => "size"%string | InvalidLayout => "layout"%string end.

(** [MmioTransport::restore_state]. A destination that was not restored is
    discarded, so only the restored transport is returned. *)
Definition mmio_restore_state t s (lock : TryLock) m : Result string (MmioTransport D) :=
  match lock with
  | Locked =>
      let active := is_some (ds_queues (ms_device s)) in
      if restore_mismatch t s then Err "virtio topology, features or lifecycle mismatch"%string
      else
        saved ← ok_or (if active then ds_queues (ms_device s) else ms_queues s) "missing virtqueues"%string;
        if negb (length saved =? length (mt_queue_config t))%nat then Err "virtqueue count mismatch"%string
        else if active && existsb (fun q => negb (Bool.eqb (qs_event_idx_enabled q)
                  (negb (Z.land (ms_acked_features s) (Z.shiftl 1 VIRTIO_RING_F_EVENT_IDX) =? 0)))) saved
        then Err "virtqueue notification feature mismatch"%string
        else
          queues ← map_err string_of_restore_error
                     (collect (fun '(q, size) => queue_restore q size m) (zip saved (mt_queue_config t)));
          match vd_restore_state (mt_device t) (ds_state (ms_device s)) with
          | (Err e, _) => Err e
          | (Ok _, d) =>
              let d := set_acked_features d (ms_acked_features s) in
              if active then
                pending ← collect (queue_pending m) queues;
                match vd_activate d (device_queues queues (mt_queue_evts t)) with
                | (Err _, _) => Err "restored device activation"%string
                | (Ok _, d) =>
                    evts ← notify_pending pending 0 (mt_queue_evts t);
                    Ok (restore_registers s None d evts t)
                end
              else Ok (restore_registers s (Some queues) d (mt_queue_evts t) t)
          end
  | _ => Err "virtio device busy or poisoned"%string
  end.
End Restore.
