(* ===== verification/Rng.v ===== *)
(** * The entropy device

    [pvisor-vm/src/devices/virtio/rng/device.rs]: a virtio device with one queue
    whose chains are filled with random bytes. Guest memory is passed along; the
    bytes of the operating system are an argument, by the number of the request
    and its length. *)
From stdpp Require Import base tactics list strings.
From Stdlib Require Import ZArith Lia.
From S2P Require Import Prelude Bytes VirtQueue Virtio.
Local Open Scope Z_scope.

Definition NUM_QUEUES : nat := 1.
Definition QUEUE_SIZE : Z := 256.
Definition VIRTIO_ID_RNG : Z := 4.
Definition AVAIL_FEATURES : Z := Z.shiftl 1 32.

Record Rng := mkRng {
  rng_queues : option (list DeviceQueue);
  rng_avail_features : Z;
  rng_acked_features : Z;
  rng_activate_evt : Z;
  rng_activated : bool;
  rng_frozen : bool
}.

Definition rng_new : Rng := mkRng None AVAIL_FEATURES 0 0 false false.

Definition rng_freeze (r : Rng) : Result string bool * Rng :=
  (Ok true, mkRng (rng_queues r) (rng_avail_features r) (rng_acked_features r) (rng_activate_evt r) (rng_activated r) true).

(** The events of the queues are written one after the other, up to the first
    failure. *)
Fixpoint write_events (queues : list DeviceQueue) (evts : list Z) : Result string unit * list Z :=
  match queues with
  | [] => (Ok tt, evts)
  | q :: queues =>
      match eventfd_write evts (dq_event q) with
      | Some evts => write_events queues evts
      | None => (Err "eventfd"%string, evts)
      end
  end.

Definition rng_thaw (r : Rng) (evts : list Z) : Result string unit * (Rng * list Z) :=
  if rng_frozen r then
    let '(res, evts) := match rng_queues r with Some queues => write_events queues evts | None => (Ok tt, evts) end in
    match res with
    | Ok _ => (Ok tt, (mkRng (rng_queues r) (rng_avail_features r) (rng_acked_features r) (rng_activate_evt r)
                         (rng_activated r) false, evts))
    | Err e => (Err e, (r, evts))
    end
  else (Ok tt, (r, evts)).

Section Snapshot.
Context {P : Type}.

Definition rng_capture_state (r : Rng) : Result string (DeviceSnapshot P) :=
  if rng_activated r && negb (rng_frozen r) then Err "device must be frozen before capture"%string
  else Ok (mkDeviceSnapshot (map (fun dq => capture_state (dq_queue dq)) <$> rng_queues r) SnapRng).

Definition rng_restore_state (r : Rng) (state : DeviceSnapshotState P) : Result string unit * Rng :=
  if rng_activated r then (Err "restore requires a fresh device"%string, r)
  else match state with
  | SnapRng => (Ok tt, mkRng (rng_queues r) (rng_avail_features r) (rng_acked_features r) (rng_activate_evt r) (rng_activated r) true)
  | _ => (Err "RNG state type mismatch"%string, r)
  end.
End Snapshot.

Definition rng_set_acked_features (r : Rng) (v : Z) : Rng :=
  mkRng (rng_queues r) (rng_avail_features r) v (rng_activate_evt r) (rng_activated r) (rng_frozen r).

(** [activate]; its own event counter is written like the others. *)
Definition rng_activate (r : Rng) (queues : list DeviceQueue) : Result unit unit * Rng :=
  if negb (length queues =? NUM_QUEUES)%nat then (Err tt, r)
  else match eventfd_write [rng_activate_evt r] 0 with
  | Some evt => (Ok tt, mkRng (Some queues) (rng_avail_features r) (rng_acked_features r) (default 0 (head evt)) true (rng_frozen r))
  | None => (Err tt, r)
  end.

Definition rng_reset (r : Rng) : bool * Rng :=
  (true, mkRng None (rng_avail_features r) (rng_acked_features r) (rng_activate_evt r) false false).

#[export] Instance rng_device {P} : VirtioDevice P Rng := {
  vd_freeze := rng_freeze;
  vd_thaw := rng_thaw;
  vd_capture_state := rng_capture_state;
  vd_restore_state := rng_restore_state;
  avail_features := rng_avail_features;
  acked_features := rng_acked_features;
  set_acked_features := rng_set_acked_features;
  device_type _ := VIRTIO_ID_RNG;
  queue_config _ := replicate NUM_QUEUES QUEUE_SIZE;
  read_config _ _ data := data;
  write_config r _ _ := r;
  vd_activate := rng_activate;
  is_activated := rng_activated;
  vd_reset := rng_reset;
  shm_region _ := None;
  shm_region_id _ := 0
}.

Lemma write_events_length queues evts : length (write_events queues evts).2 = length evts.
Proof.
  revert evts. induction queues as [|q queues IH]; intros evts; cbn [write_events]; [done|].
  destruct (eventfd_write evts (dq_event q)) as [evts'|] eqn:E; [|done]. rewrite IH.
  unfold eventfd_write in E. apply bind_Some in E as (c & _ & E). case_match; [|done]. injection E as <-. by rewrite length_insert.
Qed.

#[export] Instance rng_device_laws {P} : VirtioDeviceLaws P Rng.
Proof.
  assert (forall r evts, exists r', (rng_thaw r evts).2.1 = r' /\ rng_activated r' = rng_activated r /\
    rng_acked_features r' = rng_acked_features r /\ rng_avail_features r' = rng_avail_features r /\
    length (rng_thaw r evts).2.2 = length evts) as Ht.
  { intros r evts. unfold rng_thaw. destruct (rng_frozen r); [|by eexists].
    destruct (rng_queues r) as [qs|]; [|by eexists].
    pose proof (write_events_length qs evts) as Hl. destruct (write_events qs evts) as [[[]|e] evts']; by eexists. }
  split; cbn; try done.
  - intros d qs u d'. unfold rng_activate. repeat case_match; try done. by intros [= <- <-].
  - intros d qs. unfold rng_activate. by repeat case_match.
  - intros d qs. unfold rng_activate. by repeat case_match.
  - intros d d'. unfold rng_reset. by intros [= <-].
  - by left.
  - intros d evts. by destruct (Ht d evts) as (r' & -> & ? & ? & ? & ?).
  - intros d evts. by destruct (Ht d evts) as (r' & -> & ? & ? & ? & ?).
  - intros d evts. by destruct (Ht d evts) as (r' & -> & ? & ? & ? & ?).
  - intros d evts. by destruct (Ht d evts) as (r' & _ & ? & ? & ? & ?).
Qed.

(** ** Requests *)

(** A loop that may panic or still be running when the fuel is used up. *)
Inductive Run (A : Type) := Done (a : A) | Panicked | Running.
Arguments Done {A} a.
Arguments Panicked {A}.
Arguments Running {A}.

Section Process.
Context {M : Type} `{GuestMemory M}.
(** [OsRng.try_fill_bytes]: the bytes of a numbered request for some bytes. *)
Variable entropy : nat -> Z -> option (list Z).
Implicit Types (m : M) (q : Queue).

(** The inner loop over the descriptors of a chain: the queue, the memory, the
    bytes written and the number of requests. The next descriptor is read
    before the buffer of the current one is filled. *)
Fixpoint fill_chain (fuel : nat) q m (next : option DescriptorChain) (written : Z) (calls : nat) : Run (Queue * M * Z * nat) :=
  match next with
  | None => Done (q, m, written, calls)
  | Some desc =>
      match fuel with
      | O => Running
      | S fuel =>
          let next := next_descriptor m desc in
          match entropy calls (dc_len desc) with
          | None => Done (go_to_previous_position q, m, written, S calls)
          | Some rand_bytes =>
              match write_obj m (dc_addr desc) rand_bytes with
              | None => Done (go_to_previous_position q, m, written, S calls)
              | Some m =>
                  if u32_max <? written + dc_len desc then Panicked
                  else fill_chain fuel q m next (written + dc_len desc) (S calls)
              end
          end
      end
  end.

(** The loop of [process_req] over the chains of the queue. *)
Fixpoint process_queue (fuel : nat) q m (have_used : bool) (calls : nat) : Run (bool * Queue * M * nat) :=
  match fuel with
  | O => Running
  | S fuel =>
      match pop q m with
      | None => Panicked
      | Some (None, q) => Done (have_used, q, m, calls)
      | Some (Some head, q) =>
          match fill_chain (Z.to_nat (dc_ttl head)) q m (Some head) 0 calls with
          | Running => Running
          | Panicked => Panicked
          | Done (q, m, written, calls) =>
              let '(_, (q, m)) := add_used q m (dc_index head) written in
              process_queue fuel q m true calls
          end
      end
  end.

(** [process_req]: whether something was used, the device and the memory. *)
Definition process_req (fuel : nat) (r : Rng) m (calls : nat) : Run (bool * Rng * M * nat) :=
  if rng_frozen r then Done (false, r, m, calls)
  else if negb (rng_activated r) then Panicked
  else match rng_queues r with
  | Some (dq :: rest) =>
      match process_queue fuel (dq_queue dq) m false calls with
      | Running => Running
      | Panicked => Panicked
      | Done (have_used, q, m, calls) =>
          Done (have_used,
                mkRng (Some (mkDeviceQueue q (dq_event dq) :: rest)) (rng_avail_features r) (rng_acked_features r)
                  (rng_activate_evt r) (rng_activated r) (rng_frozen r), m, calls)
      end
  | _ => Panicked
  end.
End Process.
