(* ===== verification/MmioFacts.v ===== *)
(** * Correctness of the MMIO transport

    An invariant of all histories of register writes, interrupts and freezes;
    activation happens exactly at the end of a negotiation; a failed device is
    inert; the initialisation sequence of a driver hands the configured queues
    to the device; snapshots are restored as they were. *)
From stdpp Require Import base tactics list strings relations.
From Stdlib Require Import ZArith Lia.
From S2P Require Import Prelude Bytes VirtQueue FlatMemory VirtQueueFacts Virtio Mmio Rng.
Local Open Scope Z_scope.

(** ** Status bits *)

Lemma land_bit x k : 0 <= k -> (Z.land x (2 ^ k) =? 0) = negb (Z.testbit x k).
Proof.
  intros Hk. destruct (Z.testbit x k) eqn:E; cbn [negb].
  - apply Z.eqb_neq. intros Hz. apply (f_equal (fun y => Z.testbit y k)) in Hz.
    rewrite Z.land_spec, Z.bits_0, E, Z.pow2_bits_true in Hz by done. done.
  - apply Z.eqb_eq, Z.bits_inj'. intros i Hi. rewrite Z.land_spec, Z.bits_0, Z.pow2_bits_eqb by done.
    destruct (Z.eqb_spec k i) as [<-|]; [by rewrite E|by rewrite andb_false_r].
Qed.

Lemma land_eqb_bits x mask v i : 0 <= i -> (Z.land x mask =? v) = true -> Z.testbit mask i = true ->
  Z.testbit x i = Z.testbit v i.
Proof. intros Hi E%Z.eqb_eq Hm. rewrite <- E, Z.land_spec, Hm. by rewrite andb_true_r. Qed.

Lemma clear_bits s o c i : 0 <= i -> clear s o = c -> Z.testbit o i = false -> Z.testbit s i = Z.testbit c i.
Proof. intros Hi <- Ho. unfold clear. rewrite Z.ldiff_spec, Ho. by rewrite andb_true_r. Qed.

Lemma clear_clear x y m : clear x m = 0 -> clear (clear x y) m = 0.
Proof.
  intros Hx. apply Z.bits_inj'. intros i Hi. apply (f_equal (fun x => Z.testbit x i)) in Hx. unfold clear in *.
  rewrite !Z.ldiff_spec, Z.bits_0 in *. by destruct (Z.testbit x i), (Z.testbit m i); rewrite ?andb_false_r.
Qed.
Lemma clear_lor x y m : clear x m = 0 -> clear y m = 0 -> clear (Z.lor x y) m = 0.
Proof.
  intros Hx Hy. apply Z.bits_inj'. intros i Hi. apply (f_equal (fun x => Z.testbit x i)) in Hx, Hy. unfold clear in *.
  rewrite !Z.ldiff_spec, Z.lor_spec, Z.bits_0 in *. by destruct (Z.testbit x i), (Z.testbit y i), (Z.testbit m i).
Qed.

(** [DRIVER_OK] and [FAILED] as bits. *)
Definition driver_ok (s : Z) : bool := Z.testbit s 2.
Definition failed (s : Z) : bool := Z.testbit s 7.

Arguments driver_ok : simpl never.
Arguments failed : simpl never.

Lemma has_driver_ok s : negb (Z.land s DRIVER_OK =? 0) = driver_ok s.
Proof. unfold DRIVER_OK. change 4 with (2 ^ 2). rewrite land_bit by done. by rewrite negb_involutive. Qed.
Lemma no_failed s : (Z.land s FAILED =? 0) = negb (failed s).
Proof. unfold FAILED. change 128 with (2 ^ 7). by rewrite land_bit. Qed.

Lemma lor_failed s : failed (Z.lor s FAILED) = true /\ driver_ok (Z.lor s FAILED) = driver_ok s.
Proof. unfold failed, driver_ok. rewrite !Z.lor_spec. split; [by rewrite orb_true_r|by rewrite orb_false_r]. Qed.

Section Transport.
Context {P D : Type} `{HD : VirtioDevice P D, HL : !VirtioDeviceLaws P D}.
Implicit Types (t : MmioTransport D) (d : D).

(** ** Histories *)

(** A transport changes by register writes, interrupts, freezes and thaws. *)
Inductive step : MmioTransport D -> MmioTransport D -> Prop :=
| step_write t offset data t' : mmio_write t offset data = Some t' -> step t t'
| step_used t : step t (signal_used_queue t)
| step_config t : step t (signal_config_change t)
| step_freeze t lock : step t (freeze t lock).2
| step_thaw t attempts r t' : thaw t attempts = Some (r, t') -> step t t'.

(** The device a transport starts with. *)
Definition fresh_device d : Prop := is_activated d = false /\ acked_features d = 0.
Definition reachable t : Prop := exists d, fresh_device d /\ rtc step (transport_new d) t.

Record transport_ok t : Prop := {
  (** the queues are with the device exactly when the driver said it is ready *)
  ok_owner : mt_queues t = None <-> driver_ok (mt_device_status t) = true;
  ok_active : is_activated (mt_device t) = true -> mt_queues t = None;
  ok_inactive : failed (mt_device_status t) = false -> mt_queues t = None -> is_activated (mt_device t) = true;
  ok_features : clear (acked_features (mt_device t)) (avail_features (mt_device t)) = 0;
  ok_count : forall qs, mt_queues t = Some qs -> map q_max_size qs = mt_queue_config t;
  ok_events : length (mt_queue_evts t) = length (mt_queue_config t);
  ok_interrupt : clear (mt_interrupt_status t) 3 = 0
}.

(** A change of the device alone. *)
Lemma ok_with_device t d :
  transport_ok t -> is_activated d = is_activated (mt_device t) -> clear (acked_features d) (avail_features d) = 0 ->
  transport_ok (with_device d t).
Proof. intros [? ? ? ? ? ? ?] Ha Hf. split; cbn; [done|by rewrite Ha|by rewrite Ha|done..]. Qed.

Lemma ok_ack t page v : transport_ok t -> transport_ok (with_device (ack_features_by_page (mt_device t) page v) t).
Proof.
  intros Hok. apply ok_with_device; [done|by unfold ack_features_by_page; rewrite activated_set|].
  rewrite ack_features_value. unfold ack_features_by_page at 1. rewrite avail_set. destruct Hok as [_ _ _ Hf _ _ _].
  apply Z.bits_inj'. intros i Hi. apply (f_equal (fun x => Z.testbit x i)) in Hf. unfold clear in *.
  rewrite Z.ldiff_spec, Z.bits_0 in *. rewrite Z.lor_spec, Z.land_spec.
  by destruct (Z.testbit (acked_features (mt_device t)) i), (Z.testbit (avail_features (mt_device t)) i); rewrite ?andb_false_r.
Qed.

Lemma map_insert_same {A B} (f : A -> B) (l : list A) i x y :
  l !! i = Some x -> f y = f x -> map f (<[i := y]> l) = map f l.
Proof.
  intros Hi Hf. change (f <$> <[i := y]> l = f <$> l). rewrite list_fmap_insert. apply list_insert_id.
  by rewrite list_lookup_fmap, Hi, Hf.
Qed.

Lemma ok_update t f :
  (forall q, q_max_size (f q) = q_max_size q) -> transport_ok t -> transport_ok (update_queue_field t f).
Proof.
  intros Hf Hok. unfold update_queue_field, with_queue_mut. case_match; [|done].
  destruct (mt_queues t) as [qs|] eqn:Eq; [|done]. case_match eqn:El; [|done]. destruct Hok as [H1 H2 H3 H4 H5 H6 H7].
  split; cbn; [|by intros ?%H2; congruence|done|done| |done|done].
  - split; [done|]. intros ?%H1. congruence.
  - intros ? [= <-]. rewrite <- (H5 _ Eq). by eapply map_insert_same.
Qed.

Lemma map_max_new config : map q_max_size (create_queues config) = config.
Proof. unfold create_queues. induction config; cbn; by f_equal. Qed.

(** A new status without [DRIVER_OK] or [FAILED], before the driver is ready. *)
Lemma ok_early t s qs :
  transport_ok t -> mt_queues t = Some qs -> driver_ok s = false -> transport_ok (with_status s t).
Proof.
  intros [H1 H2 H3 H4 H5 H6 H7] Eq Hs. split; cbn; [|done| |done..].
  - rewrite Eq, Hs. done.
  - rewrite Eq. done.
Qed.

Lemma ok_fail t : transport_ok t -> transport_ok (with_status (Z.lor (mt_device_status t) FAILED) t).
Proof.
  intros [H1 H2 H3 H4 H5 H6 H7]. destruct (lor_failed (mt_device_status t)) as [Hf Hd].
  split; cbn; [by rewrite Hd|done|by rewrite Hf|done..].
Qed.

Lemma not_driver_ok t s : transport_ok t -> mt_device_status t = s -> driver_ok s = false -> exists qs, mt_queues t = Some qs.
Proof.
  intros Hok Hs Hd. destruct (mt_queues t) as [qs|] eqn:Eq; [by exists qs|]. apply (ok_owner _ Hok) in Eq. congruence.
Qed.

(** What activation does. *)
Lemma transport_activate_spec t qs t' : mt_queues t = Some qs -> transport_activate t = Some t' ->
  exists u d, vd_activate (mt_device t)
      (map (dq_set_event_idx (Z.testbit (acked_features (mt_device t)) VIRTIO_RING_F_EVENT_IDX)) (device_queues qs (mt_queue_evts t)))
      = (Ok u, d) /\ t' = with_device d (with_queues None t).
Proof.
  intros Eq. unfold transport_activate. rewrite Eq. cbn [with_queues mt_device mt_queue_evts].
  unfold VIRTIO_RING_F_EVENT_IDX. rewrite Z.shiftl_1_l, land_bit, negb_involutive by done.
  destruct (vd_activate _ _) as [[u|] d]; [|done]. intros [= <-]. by exists u, d.
Qed.

(** The queues a device is activated with, by position. *)
Lemma activation_queues e qs evts : length qs = length evts ->
  map (dq_set_event_idx e) (device_queues qs evts) = imap (fun i q => mkDeviceQueue (set_event_idx e q) i) qs.
Proof.
  intros Hlen. unfold device_queues. rewrite <- Hlen. apply list_eq. intros i.
  rewrite list_lookup_imap. rewrite (list_lookup_fmap (dq_set_event_idx e)), lookup_zip_with.
  destruct (qs !! i) as [q|] eqn:Eqi; cbn; [|done]. apply lookup_lt_Some in Eqi. by rewrite lookup_seq_lt.
Qed.

Lemma ok_activate t s qs t' :
  transport_ok t -> mt_queues t = Some qs -> driver_ok s = true -> transport_activate (with_status s t) = Some t' -> transport_ok t'.
Proof.
  intros [H1 H2 H3 H4 H5 H6 H7] Eq Hs Ha. apply transport_activate_spec with (qs := qs) in Ha as (u & d & Ha & ->); [|done].
  pose proof (activate_done _ _ _ _ Ha) as Hd. cbn in Ha.
  split; cbn; [by rewrite Hs|done|done| |done..].
  match type of Ha with vd_activate ?d0 ?l = _ =>
    pose proof (acked_activate d0 l) as E1; pose proof (avail_activate d0 l) as E2 end.
  rewrite Ha in E1, E2. cbn in E1, E2. by rewrite E1, E2.
Qed.

Lemma ok_reset_device t ok d :
  transport_ok t -> is_activated (mt_device t) = true -> vd_reset (mt_device t) = (ok, d) ->
  clear (acked_features d) (avail_features d) = 0 /\ is_activated d = negb ok.
Proof.
  intros [H1 H2 H3 H4 H5 H6 H7] Ha E. pose proof (acked_reset (mt_device t)) as E1. pose proof (avail_reset (mt_device t)) as E2.
  rewrite E in E1, E2. cbn in E1, E2. split.
  - rewrite E2. destruct E1 as [->| ->]; [done|]. apply Z.ldiff_0_l.
  - destruct ok; [by apply reset_done in E|]. apply reset_refused in E. by rewrite E.
Qed.

Lemma ok_transport_reset t :
  is_activated (mt_device t) = false -> clear (acked_features (mt_device t)) (avail_features (mt_device t)) = 0 ->
  length (mt_queue_evts t) = length (mt_queue_config t) -> transport_ok (transport_reset t).
Proof.
  intros Ha Hf He. split; cbn; [done|by rewrite Ha|done|done| |done|done].
  intros qs [= <-]. apply map_max_new.
Qed.

(** The cases of a status write. *)
Inductive status_change t (status : Z) : option (MmioTransport D) -> Prop :=
| change_early : mt_device_status t < 8 -> driver_ok (mt_device_status t) = false -> failed (mt_device_status t) = false ->
    driver_ok status = false -> failed status = false -> status_change t status (Some (with_status status t))
| change_ready o : mt_device_status t = 11 -> driver_ok status = true -> failed status = false ->
    o = (if negb (is_activated (mt_device t)) then transport_activate (with_status status t) else Some (with_status status t)) ->
    status_change t status o
| change_failed : failed status = true -> status_change t status (Some (with_status (Z.lor (mt_device_status t) FAILED) t))
| change_reset t1 : status = 0 ->
    t1 = (if is_activated (mt_device t) then
            let '(ok, d) := vd_reset (mt_device t) in
            let t := with_device d t in
            if negb ok then with_status (Z.lor (mt_device_status t) FAILED) t else t
          else t) ->
    status_change t status (Some (if negb (failed (mt_device_status t1)) then transport_reset t1 else t1))
| change_none : status_change t status (Some t).

Lemma set_device_status_cases t status : status_change t status (set_device_status t status).
Proof.
  unfold set_device_status. set (changed := clear status (mt_device_status t)).
  assert (forall old c, (changed =? c) && (mt_device_status t =? old) = true ->
    mt_device_status t = old /\ forall i, 0 <= i -> Z.testbit old i = false -> Z.testbit status i = Z.testbit c i) as Hbits.
  { intros old c [Hc%Z.eqb_eq Ho%Z.eqb_eq]%andb_true_iff. split; [done|]. intros i Hi Hb.
    apply (clear_bits status old); [done| |done]. by rewrite <- Ho. }
  destruct ((changed =? ACKNOWLEDGE) && _) eqn:E1; [|destruct ((changed =? DRIVER) && _) eqn:E2; [|
    destruct ((changed =? FEATURES_OK) && _) eqn:E3; [|destruct ((changed =? DRIVER_OK) && _) eqn:E4]]].
  - apply Hbits in E1 as [E1 Hb]. apply change_early; rewrite ?E1; try done; unfold driver_ok, failed; by rewrite Hb.
  - apply Hbits in E2 as [E2 Hb]. apply change_early; rewrite ?E2; try done; unfold driver_ok, failed; by rewrite Hb.
  - apply Hbits in E3 as [E3 Hb]. apply change_early; rewrite ?E3; try done; unfold driver_ok, failed; by rewrite Hb.
  - apply Hbits in E4 as [E4 Hb]. apply change_ready; try done; unfold driver_ok, failed; by rewrite Hb.
  - rewrite no_failed, negb_involutive. destruct (failed status) eqn:Ef; [by apply change_failed|].
    destruct (Z.eqb_spec status 0) as [->|]; [|by apply change_none].
    rewrite no_failed. by apply (change_reset t 0).
Qed.

Lemma ok_set_device_status t status t' : transport_ok t -> set_device_status t status = Some t' -> transport_ok t'.
Proof.
  intros Hok E. pose proof (set_device_status_cases t status) as Hc. rewrite E in Hc.
  inversion Hc as [_ Hd _ Hs _ E'|o Hst Hs _ Hact|_ E'|t1 Hz Ht1 E'|E']; clear Hc E; subst.
  - destruct (not_driver_ok t _ Hok eq_refl Hd) as [qs Eq]. by eapply ok_early.
  - destruct (not_driver_ok t _ Hok Hst eq_refl) as [qs Eq].
    destruct (is_activated (mt_device t)) eqn:Ea; [by apply (ok_active _ Hok) in Ea; congruence|]. cbn in Hact.
    by eapply ok_activate.
  - by apply ok_fail.
  - destruct (is_activated (mt_device t)) eqn:Ea.
    + destruct (vd_reset (mt_device t)) as [ok d] eqn:Er. destruct (ok_reset_device t ok d Hok Ea Er) as [Hf Hd].
      destruct ok; cbn [negb].
      * change (mt_device_status (with_device d t)) with (mt_device_status t).
        destruct (failed (mt_device_status t)) eqn:Efl; cbn [negb]; [|apply ok_transport_reset; cbn; [done|done|apply Hok]].
        destruct Hok as [H1 H2 H3 H4 H5 H6 H7]. split; cbn; [done|by rewrite Hd|by rewrite Efl|done..].
      * cbn [with_status with_device mt_device_status]. destruct (lor_failed (mt_device_status t)) as [-> _]. cbn [negb].
        apply (ok_fail (with_device d t)). apply ok_with_device; [done|by rewrite Ea|done].
    + case_match; [|done]. apply ok_transport_reset; [done|apply Hok|apply Hok].
  - done.
Qed.

Lemma ok_register t offset v t' : transport_ok t -> write_register t offset v = Some t' -> transport_ok t'.
Proof.
  intros Hok. unfold write_register.
  repeat match goal with
  | |- (if ?b then _ else _) = Some _ -> _ => destruct b
  end;
    try (intros [= <-]); try done; try (by apply ok_update); try (by destruct Hok).
  - case_match; [by apply ok_ack|done].
  - intros (evts & Hw & [= <-])%bind_Some. destruct Hok. split; cbn; try done.
    unfold eventfd_write in Hw. apply bind_Some in Hw as (c & _ & Hw). case_match; [|done]. injection Hw as <-.
    by rewrite length_insert.
  - case_match; [|done]. destruct Hok as [H1 H2 H3 H4 H5 H6 H7]. split; cbn; try done. by apply clear_clear.
  - by apply ok_set_device_status.
Qed.

Lemma ok_write t offset data t' : transport_ok t -> mmio_write t offset data = Some t' -> transport_ok t'.
Proof.
  intros Hok. unfold mmio_write. case_match; [by apply ok_register|]. case_match; [|by intros [= <-]].
  intros [= <-]. case_match; [|done]. apply ok_with_device; [done|apply activated_config|].
  rewrite acked_config, avail_config. apply Hok.
Qed.

Lemma ok_thaw t attempts r t' : transport_ok t -> thaw t attempts = Some (r, t') -> transport_ok t'.
Proof.
  intros Hok. induction attempts as [|[[] []] attempts IH]; cbn [thaw]; try done; try (by intros [= <- <-]).
  all: pose proof (activated_thaw (mt_device t) (mt_queue_evts t)) as E1; pose proof (acked_thaw (mt_device t) (mt_queue_evts t)) as E2;
    pose proof (avail_thaw (mt_device t) (mt_queue_evts t)) as E3; pose proof (thaw_length (mt_device t) (mt_queue_evts t)) as E4;
    destruct (vd_thaw _ _) as [r' [d evts]]; cbn in E1, E2, E3, E4; intros [= <- <-];
    destruct Hok as [H1 H2 H3 H4 H5 H6 H7]; split; cbn; rewrite ?E1, ?E2, ?E3, ?E4; done.
Qed.

Lemma ok_signal t status : transport_ok t -> clear status 3 = 0 -> transport_ok (try_signal t status).
Proof. intros [H1 H2 H3 H4 H5 H6 H7] Hs. split; cbn; try done. by apply clear_lor. Qed.

Lemma ok_step t t' : transport_ok t -> step t t' -> transport_ok t'.
Proof.
  intros Hok Hs. destruct Hs as [t offset data t' Hw|t|t|t lock|t attempts r t' Ht].
  - by eapply ok_write.
  - by apply ok_signal.
  - by apply ok_signal.
  - unfold freeze. destruct lock; [|done|done].
    pose proof (activated_freeze (mt_device t)) as E1. pose proof (acked_freeze (mt_device t)) as E2.
    pose proof (avail_freeze (mt_device t)) as E3. destruct (vd_freeze _) as [r d]. cbn in *.
    apply ok_with_device; [done|done|]. rewrite E2, E3. apply Hok.
  - by eapply ok_thaw.
Qed.

Lemma reachable_ok t : reachable t -> transport_ok t.
Proof.
  intros (d & [Ha Hk] & Hs). assert (transport_ok (transport_new d)) as Hok.
  { split; cbn; [done|by rewrite Ha|done|rewrite Hk; apply Z.ldiff_0_l| | |].
    - intros qs [= <-]. apply map_max_new.
    - unfold create_queue_evts. apply length_replicate.
    - done. }
  revert Hok Hs. generalize (transport_new d). intros t0 Hok Hs. induction Hs as [|t0 t1 t Hst _ IH]; [done|].
  apply IH. by eapply ok_step.
Qed.

(** ** Steps and activation *)

(** A write changes the device only by acknowledging features, by activating or
    resetting it with the status, or in its configuration. *)
Lemma register_device t offset v t' : write_register t offset v = Some t' ->
  mt_device t' = mt_device t \/
  (check_device_status t DRIVER (Z.lor FEATURES_OK FAILED) = true /\
   mt_device t' = ack_features_by_page (mt_device t) (mt_acked_features_select t) v) \/
  (offset = 0x70 /\ set_device_status t v = Some t').
Proof.
  unfold write_register, update_queue_field, with_queue_mut.
  repeat match goal with
  | |- context [offset =? ?n] => destruct (Z.eqb_spec offset n)
  end; intros E; simplify_eq; auto;
    repeat case_match; simplify_eq; auto.
  - apply bind_Some in E as (evts & _ & [= <-]). by left.
Qed.

Lemma activation_step t t' : transport_ok t -> step t t' ->
  is_activated (mt_device t) = false -> is_activated (mt_device t') = true ->
  exists status, set_device_status t status = Some t'.
Proof.
  intros Hok Hs H0 H1. destruct Hs as [t offset data t' Hw|t|t|t lock|t attempts r t' Ht].
  - unfold mmio_write in Hw. case_match.
    + apply register_device in Hw as [E|[[_ E]|[-> E]]]; [congruence| |by eexists].
      rewrite E in H1. unfold ack_features_by_page in H1. rewrite activated_set in H1. congruence.
    + case_match; [|congruence]. injection Hw as <-. case_match; [|congruence]. cbn in H1. rewrite activated_config in H1. congruence.
  - cbn in H1. congruence.
  - cbn in H1. congruence.
  - unfold freeze in H1. destruct lock; cbn in H1; [|congruence..].
    pose proof (activated_freeze (mt_device t)) as E. destruct (vd_freeze (mt_device t)) as [r d]. cbn in *. congruence.
  - induction attempts as [|[[] []] attempts IH]; cbn [thaw] in Ht; try done; try (injection Ht as <- <-; congruence); try (by apply IH).
    all: pose proof (activated_thaw (mt_device t) (mt_queue_evts t)) as E; destruct (vd_thaw _ _) as [r' [d evts]];
      injection Ht as <- <-; cbn in *; congruence.
Qed.
End Transport.

(** ** The properties *)

(** In every history of register writes, interrupts, freezes and thaws the
    queues belong to the device exactly when the driver reported it is ready,
    an active device never shares its queues with the registers, the driver
    acknowledged only features that were offered, and the transport keeps a
    queue and a notification for every one the device declared. *)
Theorem transport_invariant {P D} `{HD : VirtioDevice P D, HL : !VirtioDeviceLaws P D} (t : MmioTransport D) :
  reachable t ->
  (mt_queues t = None <-> negb (Z.land (mt_device_status t) DRIVER_OK =? 0) = true) /\
  (is_activated (mt_device t) = true -> mt_queues t = None) /\
  (Z.land (mt_device_status t) FAILED = 0 -> mt_queues t = None -> is_activated (mt_device t) = true) /\
  Z.land (acked_features (mt_device t)) (avail_features (mt_device t)) = acked_features (mt_device t) /\
  (forall qs, mt_queues t = Some qs -> map q_max_size qs = mt_queue_config t) /\
  length (mt_queue_evts t) = length (mt_queue_config t).
Proof.
  intros [H1 H2 H3 H4 H5 H6 H7]%reachable_ok. rewrite has_driver_ok. split_and!; try done.
  - intros Hf. apply H3. apply negb_true_iff. by rewrite <- no_failed, Hf.
  - apply Z.bits_inj'. intros i Hi. apply (f_equal (fun x => Z.testbit x i)) in H4. unfold clear in H4.
    rewrite Z.ldiff_spec, Z.bits_0 in H4. rewrite Z.land_spec.
    by destruct (Z.testbit (acked_features (mt_device t)) i), (Z.testbit (avail_features (mt_device t)) i).
Qed.

(** A device becomes active only by the driver setting [DRIVER_OK] when the
    status was exactly acknowledged, driver found and features accepted; it is
    handed all the queues as they were configured, each with its notification
    and with event indices as negotiated, and the registers lose them. *)
Theorem activation_needs_negotiation {P D} `{HD : VirtioDevice P D, HL : !VirtioDeviceLaws P D} (t t' : MmioTransport D) :
  reachable t -> step t t' -> is_activated (mt_device t) = false -> is_activated (mt_device t') = true ->
  mt_device_status t = 11 /\ mt_queues t' = None /\ Z.land (mt_device_status t') FAILED = 0 /\
  exists qs u, mt_queues t = Some qs /\ length qs = length (mt_queue_evts t) /\
    vd_activate (mt_device t)
      (imap (fun i q => mkDeviceQueue (set_event_idx (Z.testbit (acked_features (mt_device t)) 29) q) i) qs)
      = (Ok u, mt_device t').
Proof.
  intros Hok%reachable_ok Hst H0 H1. destruct (activation_step t t' Hok Hst H0 H1) as [status E].
  pose proof (set_device_status_cases t status) as Hc. rewrite E in Hc.
  inversion Hc as [_ _ _ _ _ E'|o Hs Hd Hf Hact|_ E'|t1 Hz Ht1 E'|E']; clear Hc E; subst; cbn in H1; try congruence.
  - rewrite H0 in Hact. cbn in Hact. destruct (not_driver_ok t _ Hok Hs eq_refl) as [qs Eq].
    destruct (transport_activate_spec (with_status status t) qs t' Eq (eq_sym Hact)) as (u & d & Ha & ->). cbn.
    assert (length qs = length (mt_queue_evts t)) as Hlen.
    { rewrite (ok_events _ Hok), <- (ok_count _ Hok _ Eq). by rewrite length_map. }
    split; [done|]. split; [done|]. split; [apply Z.eqb_eq; by rewrite no_failed, Hf|].
    exists qs, u. split; [done|]. split; [done|]. rewrite <- Ha. by rewrite activation_queues.
  - exfalso. rewrite H0 in H1. destruct (negb (failed (mt_device_status t))); cbn in H1; congruence.
Qed.

Section Failed.
Context {P D : Type} `{HD : VirtioDevice P D, HL : !VirtioDeviceLaws P D}.
Implicit Types (t : MmioTransport D).

(** What a failed transport keeps. *)
Record inert t t' : Prop := {
  in_status : mt_device_status t' = mt_device_status t;
  in_queues : mt_queues t' = mt_queues t;
  in_active : is_activated (mt_device t') = true -> is_activated (mt_device t) = true;
  in_features : acked_features (mt_device t') = acked_features (mt_device t) \/ acked_features (mt_device t') = 0
}.
Lemma inert_refl t : inert t t.
Proof. by split; [..|left]. Qed.

Lemma failed_check t set clr : failed (mt_device_status t) = true -> Z.testbit (Z.lor set clr) 7 = true ->
  Z.testbit set 7 = false -> check_device_status t set clr = false.
Proof.
  intros Hf Hm Hs. unfold check_device_status. destruct (_ =? set) eqn:E; [|done].
  apply (land_eqb_bits _ _ _ 7) in E; [|lia|done]. unfold failed in Hf. congruence.
Qed.

Lemma lor_failed_same s : failed s = true -> Z.lor s FAILED = s.
Proof.
  intros Hf. apply Z.bits_inj'. intros i Hi. rewrite Z.lor_spec. change FAILED with (2 ^ 7). rewrite Z.pow2_bits_eqb by lia.
  destruct (Z.eqb_spec 7 i) as [<-|]; [unfold failed in Hf; by rewrite Hf|by rewrite orb_false_r].
Qed.

Lemma failed_status t status t' : failed (mt_device_status t) = true -> set_device_status t status = Some t' -> inert t t'.
Proof.
  intros Hf E. pose proof (set_device_status_cases t status) as Hc. rewrite E in Hc.
  inversion Hc as [_ _ Hf' _ _ E'|o Hs Hd Hf' Hact|Hf' E'|t1 Hz Ht1 E'|E']; clear Hc E; subst.
  - congruence.
  - rewrite Hs in Hf. done.
  - rewrite lor_failed_same by done. split; cbn; [done|done|done|by left].
  - destruct (is_activated (mt_device t)) eqn:Ea; [|rewrite Hf; apply inert_refl].
    pose proof (acked_reset (mt_device t)) as Hk. destruct (vd_reset (mt_device t)) as [ok d]. cbn in Hk.
    destruct ok; cbn; [rewrite Hf; cbn; by split|]. rewrite lor_failed_same, Hf by done. cbn. by split.
  - apply inert_refl.
Qed.

Lemma failed_register t offset v t' : failed (mt_device_status t) = true -> write_register t offset v = Some t' -> inert t t'.
Proof.
  intros Hf. unfold write_register, update_queue_field.
  rewrite (failed_check t DRIVER) by done. rewrite (failed_check t FEATURES_OK) by done.
  repeat match goal with
  | |- (if ?b then _ else _) = Some _ -> _ => destruct b
  end; try (intros [= <-]); try apply inert_refl; try (by split; [..|left]).
  - intros (evts & _ & [= <-])%bind_Some. by split; [..|left].
  - case_match; [by split; [..|left]|apply inert_refl].
  - by apply failed_status.
Qed.
End Failed.

(** A failed device stays failed: no history of writes, interrupts, freezes
    and thaws clears the bit or changes the status, the queues or an
    acknowledged feature (which a reset of the device may drop), and none
    activates the device. *)
Theorem failed_device_inert {P D} `{HD : VirtioDevice P D, HL : !VirtioDeviceLaws P D} (t t' : MmioTransport D) :
  Z.land (mt_device_status t) FAILED <> 0 -> rtc step t t' ->
  mt_device_status t' = mt_device_status t /\ mt_queues t' = mt_queues t /\
  (is_activated (mt_device t') = true -> is_activated (mt_device t) = true) /\
  (acked_features (mt_device t') = acked_features (mt_device t) \/ acked_features (mt_device t') = 0).
Proof.
  intros Hf Hs. assert (failed (mt_device_status t) = true) as Hf'.
  { destruct (failed (mt_device_status t)) eqn:E; [done|]. destruct Hf. apply Z.eqb_eq. by rewrite no_failed, E. }
  clear Hf. revert Hf'. induction Hs as [t|t t1 t' Hs _ IH]; intros Hf; [by split_and!; [..|left]|].
  assert (inert t t1) as [E1 E2 E3 E4].
  { destruct Hs as [t offset data t1 Hw|t|t|t lock|t attempts r t1 Ht].
    - unfold mmio_write in Hw. case_match; [by eapply failed_register|]. case_match; [|injection Hw as <-; apply inert_refl].
      injection Hw as <-. rewrite (failed_check t DRIVER) by done. apply inert_refl.
    - by split; [..|left].
    - by split; [..|left].
    - unfold freeze. destruct lock; [|apply inert_refl..].
      pose proof (activated_freeze (mt_device t)) as Ea. pose proof (acked_freeze (mt_device t)) as Ek.
      destruct (vd_freeze (mt_device t)) as [r d]. cbn in *. split; cbn; [done|done|by rewrite Ea|by left].
    - induction attempts as [|[[] []] attempts IHa]; cbn [thaw] in Ht; try done; try (injection Ht as <- <-; apply inert_refl); try (by apply IHa).
      all: pose proof (activated_thaw (mt_device t) (mt_queue_evts t)) as Ea; pose proof (acked_thaw (mt_device t) (mt_queue_evts t)) as Ek;
        destruct (vd_thaw _ _) as [r' [d evts]]; injection Ht as <- <-; cbn in *; split; cbn; [done|done|by rewrite Ea|by left]. }
  rewrite E1 in IH. destruct (IH Hf) as (F1 & F2 & F3 & F4). split_and!; [done|congruence|auto|].
  destruct F4 as [->|]; [done|by right].
Qed.

(** ** The initialisation sequence of a driver *)

(** [hi] and [lo] write the two halves of an address. *)
Lemma hi_lo v a : is_u64 a -> hi (lo v (a mod 2 ^ 32)) (a / 2 ^ 32) = a.
Proof.
  intros Ha. unfold hi, lo, clear. apply Z.bits_inj'. intros i Hi.
  change 0xffffffff with (Z.ones 32). rewrite Z.lor_spec, Z.land_spec, Z.lor_spec, Z.ldiff_spec.
  destruct (Z.ltb_spec i 32) as [Hlt|Hge].
  - rewrite Z.ones_spec_low, Z.shiftl_spec_low, Z.mod_pow2_bits_low by lia. cbn. rewrite andb_false_r, andb_true_r, orb_false_r. done.
  - rewrite Z.ones_spec_high, Z.shiftl_spec_high by lia. rewrite andb_false_r. cbn [orb].
    rewrite Z.div_pow2_bits by lia. f_equal. lia.
Qed.

Lemma halves f : is_u64 f -> Z.lor (f mod 2 ^ 32) (Z.shiftl (f / 2 ^ 32) 32) = f.
Proof.
  intros Hf. rewrite <- (hi_lo 0 f Hf) at 3. unfold hi, lo, clear. rewrite Z.ldiff_0_l, Z.lor_0_l.
  change 0xffffffff with (Z.ones 32). rewrite Z.land_ones, Z.mod_mod by lia. done.
Qed.

Section Driver.
Context {P D : Type} `{HD : VirtioDevice P D, HL : !VirtioDeviceLaws P D}.
Implicit Types (t : MmioTransport D) (d : D).

(** 32-bit register writes, one after the other. *)
Fixpoint write_all t (l : list (Z * Z)) : option (MmioTransport D) :=
  match l with
  | [] => Some t
  | (offset, v) :: l => t ← mmio_write t offset (to_le_bytes 4 v); write_all t l
  end.

Lemma write_all_app t l1 l2 : write_all t (l1 ++ l2) = (t ← write_all t l1; write_all t l2).
Proof. revert t. induction l1 as [|[o v] l1 IH]; intros t; cbn [write_all app]; [done|]. destruct (mmio_write _ _ _); [apply IH|done]. Qed.

Lemma mmio_write_u32 t offset v : is_u32 v -> offset <= 0xff -> mmio_write t offset (to_le_bytes 4 v) = write_register t offset v.
Proof.
  intros Hv Ho. unfold mmio_write. rewrite (proj2 (Z.leb_le _ _)), to_le_bytes_length by done. cbn [andb Nat.eqb].
  unfold read_le_u32. rewrite read_le_exact, from_to_le_bytes; [done|exact Hv|apply to_le_bytes_length].
Qed.

Lemma write_all_cons t offset v l t1 : write_register t offset v = Some t1 -> is_u32 v -> offset <= 0xff ->
  write_all t ((offset, v) :: l) = write_all t1 l.
Proof. intros E Hv Ho. cbn [write_all]. by rewrite mmio_write_u32, E. Qed.

(** What a driver configures for a queue. *)
Record QueueSetup := mkSetup { s_size : Z; s_desc : Z; s_avail : Z; s_used : Z }.
Definition setup_ok (s : QueueSetup) : Prop := is_u16 (s_size s) /\ is_u64 (s_desc s) /\ is_u64 (s_avail s) /\ is_u64 (s_used s).

Definition queue_writes (i : nat) (s : QueueSetup) : list (Z * Z) :=
  [(0x30, Z.of_nat i); (0x38, s_size s);
   (0x80, s_desc s mod 2 ^ 32); (0x84, s_desc s / 2 ^ 32);
   (0x90, s_avail s mod 2 ^ 32); (0x94, s_avail s / 2 ^ 32);
   (0xa0, s_used s mod 2 ^ 32); (0xa4, s_used s / 2 ^ 32); (0x44, 1)].

Fixpoint queues_writes (i : nat) (l : list QueueSetup) : list (Z * Z) :=
  match l with [] => [] | s :: l => queue_writes i s ++ queues_writes (S i) l end.

Definition negotiation (features : Z) : list (Z * Z) :=
  [(0x70, ACKNOWLEDGE); (0x70, 3); (0x24, 0); (0x20, features mod 2 ^ 32); (0x24, 1); (0x20, features / 2 ^ 32); (0x70, 11)].

Definition driver_sequence (features : Z) (l : list QueueSetup) : list (Z * Z) :=
  negotiation features ++ queues_writes 0 l ++ [(0x70, 15)].

Definition configured (max : Z) (s : QueueSetup) : Queue := mkQueue max (s_size s) true (s_desc s) (s_avail s) (s_used s) 0 0 false 0.

Lemma half_u32 a : is_u64 a -> is_u32 (a mod 2 ^ 32) /\ is_u32 (a / 2 ^ 32).
Proof.
  intros [H0 H1]. split; [apply Z.mod_pos_bound; lia|]. split; [by apply Z.div_pos|].
  apply Z.div_lt_upper_bound; [lia|]. by rewrite <- Z.pow_add_r.
Qed.

Lemma update_here t qs i q f :
  mt_device_status t = 11 -> mt_queues t = Some qs -> mt_queue_select t = Z.of_nat i -> qs !! i = Some q ->
  update_queue_field t f = with_queues (Some (<[i := f q]> qs)) t.
Proof.
  intros Hs Hq Hi Hl. unfold update_queue_field, check_device_status, with_queue_mut.
  rewrite Hs, Hq, Hi, Nat2Z.id, Hl. done.
Qed.

Lemma queue_setup t qs i max s :
  mt_device_status t = 11 -> mt_queues t = Some qs -> qs !! i = Some (queue_new max) -> setup_ok s -> Z.of_nat i < 2 ^ 32 ->
  write_all t (queue_writes i s) =
    Some (with_queues (Some (<[i := configured max s]> qs))
            (with_selects (mt_features_select t) (mt_acked_features_select t) (Z.of_nat i) t)).
Proof.
  intros Hst Hq Hl (H1 & H2 & H3 & H4) Hi. unfold queue_writes.
  pose proof (half_u32 _ H2) as [? ?]. pose proof (half_u32 _ H3) as [? ?]. pose proof (half_u32 _ H4) as [? ?].
  assert (is_u32 (s_size s)) by (unfold is_uint in *; lia). assert (is_u32 (Z.of_nat i)) by (unfold is_uint; lia).
  set (t0 := with_selects (mt_features_select t) (mt_acked_features_select t) (Z.of_nat i) t).
  assert (forall q f, update_queue_field (with_queues (Some (<[i := q]> qs)) t0) f = with_queues (Some (<[i := f q]> qs)) t0) as Hup.
  { intros q f. rewrite (update_here _ (<[i := q]> qs) i q); [|done|done|done|].
    - cbn. by rewrite list_insert_insert_eq.
    - rewrite list_lookup_insert_eq; [done|]. by apply lookup_lt_Some in Hl. }
  assert (write_register t 0x30 (Z.of_nat i) = Some (with_queues (Some (<[i := queue_new max]> qs)) t0)) as E0.
  { rewrite list_insert_id by done. unfold write_register. cbn [Z.eqb Pos.eqb]. unfold t0. by rewrite <- Hq. }
  rewrite (write_all_cons _ _ _ _ _ E0) by (done || lia).
  do 8 (erewrite write_all_cons; [|unfold write_register; cbn [Z.eqb Pos.eqb]; rewrite Hup; reflexivity|done|lia]).
  cbn [write_all]. do 3 f_equal. cbn. rewrite !hi_lo by done. by rewrite wrap_small.
Qed.

Lemma queues_setup l : forall t pre post,
  mt_device_status t = 11 -> mt_queues t = Some (pre ++ create_queues post) -> length post = length l ->
  Forall setup_ok l -> Z.of_nat (length pre + length l) < 2 ^ 32 ->
  exists sel, write_all t (queues_writes (length pre) l) =
    Some (with_queues (Some (pre ++ zip_with configured post l))
            (with_selects (mt_features_select t) (mt_acked_features_select t) sel t)).
Proof.
  induction l as [|s l IH]; intros t pre post Hst Hq Hlen Hok Hn.
  - destruct post; [|done]. exists (mt_queue_select t). cbn [queues_writes write_all]. f_equal. unfold with_queues, with_selects.
    cbn in *. rewrite <- Hq. by destruct t.
  - destruct post as [|max post]; [done|]. apply Forall_cons in Hok as [Hs Hok]. injection Hlen as Hlen.
    cbn [queues_writes]. rewrite write_all_app.
    rewrite (queue_setup t (pre ++ create_queues (max :: post)) (length pre) max s);
      [|done|done|by apply list_lookup_middle|done|lia].
    cbn [mbind option_bind]. cbn [create_queues map]. rewrite insert_app_r_alt, Nat.sub_diag by lia. cbn [list_insert insert].
    destruct (IH (with_queues (Some (pre ++ configured max s :: map queue_new post))
        (with_selects (mt_features_select t) (mt_acked_features_select t) (Z.of_nat (length pre)) t))
        (pre ++ [configured max s]) post) as [sel E].
    + done.
    + cbn. by rewrite <- app_assoc.
    + done.
    + done.
    + rewrite length_app. cbn [length] in *. lia.
    + exists sel. rewrite length_app in E. cbn [length] in E. rewrite Nat.add_1_r in E.
      unfold insert, list_insert. rewrite E. cbn. by rewrite <- app_assoc.
Qed.

Lemma negotiated t d features :
  t = transport_new d -> is_u64 features ->
  write_all t (negotiation features) =
    Some (with_status 11 (with_selects 0 1 0
      (with_device (ack_features_by_page (ack_features_by_page d 0 (features mod 2 ^ 32)) 1 (features / 2 ^ 32)) t))).
Proof.
  intros -> Hf. pose proof (half_u32 _ Hf) as [Hl Hh]. unfold negotiation.
  repeat (erewrite write_all_cons; [|reflexivity|done || (unfold is_uint; lia)|lia]). reflexivity.
Qed.
End Driver.

(** C36: a driver that negotiates features, configures every queue and reports
    that it is ready, all through the registers of a fresh transport, has the
    device activated with exactly those queues (sizes, addresses, readiness,
    notifications and event indices as negotiated) and with the requested
    features that the device offers; the activation of the device is the only
    step that can fail. *)
Theorem driver_initialises {P D} `{HD : VirtioDevice P D, HL : !VirtioDeviceLaws P D} (d : D) features setups :
  fresh_device d -> is_u64 features -> length setups = length (queue_config d) -> Z.of_nat (length setups) < 2 ^ 32 ->
  Forall setup_ok setups ->
  exists d1, acked_features d1 = Z.land features (avail_features d) /\ is_activated d1 = false /\
    let queues := imap (fun i q => mkDeviceQueue (set_event_idx (Z.testbit (acked_features d1) 29) q) i)
                    (zip_with configured (queue_config d) setups) in
    match vd_activate d1 queues with
    | (Ok _, d2) => exists t, write_all (transport_new d) (driver_sequence features setups) = Some t /\
        mt_device t = d2 /\ mt_device_status t = 15 /\ mt_queues t = None
    | (Err _, _) => write_all (transport_new d) (driver_sequence features setups) = None
    end.
Proof.
  intros [Hd Hk] Hf Hlen Hn Hok.
  set (d1 := ack_features_by_page (ack_features_by_page d 0 (features mod 2 ^ 32)) 1 (features / 2 ^ 32)).
  exists d1. assert (acked_features d1 = Z.land features (avail_features d)) as Ek.
  { unfold d1. rewrite !ack_features_value, Hk. unfold ack_features_by_page. rewrite avail_set. cbn [Z.eqb Pos.eqb].
    rewrite Z.lor_0_l, <- Z.land_lor_distr_l. f_equal. by apply halves. }
  assert (is_activated d1 = false) as Ha by (unfold d1, ack_features_by_page; by rewrite !activated_set).
  split; [done|]. split; [done|]. cbn zeta.
  unfold driver_sequence. rewrite write_all_app, (negotiated _ d) by done. cbn [mbind option_bind]. fold d1.
  set (t1 := with_status 11 _). rewrite write_all_app.
  destruct (queues_setup setups t1 [] (queue_config d)) as [sel E]; [done|done|done|done|done|].
  cbn [length] in E. rewrite E. cbn [mbind option_bind app write_all].
  rewrite mmio_write_u32 by (unfold is_uint; lia). unfold write_register. cbn [Z.eqb Pos.eqb].
  unfold set_device_status, t1. cbn [with_queues with_selects with_status with_device mt_device_status mt_device].
  change (clear 15 11) with 4. cbn [Z.eqb Pos.eqb andb ACKNOWLEDGE DRIVER FEATURES_OK DRIVER_OK Z.lor Pos.lor INIT]. rewrite Ha. cbn [negb].
  set (qs := zip_with configured (queue_config d) setups).
  match goal with |- context [transport_activate ?t] => set (t2 := t) end.
  assert (mt_queues t2 = Some qs) as Eq by done. assert (mt_device t2 = d1) as Ed by done.
  assert (length qs = length (mt_queue_evts t2)) as Hl2.
  { unfold qs. rewrite length_zip_with, Hlen, Nat.min_id. symmetry. apply length_replicate. }
  unfold transport_activate. rewrite Eq. cbn [with_queues mt_device mt_queue_evts]. rewrite Ed, activation_queues by done.
  unfold VIRTIO_RING_F_EVENT_IDX. rewrite Z.shiftl_1_l, land_bit, negb_involutive by done.
  destruct (vd_activate _ _) as [[u|e] d2]; cbn [mbind option_bind]; [|done]. eexists. split; [done|]. done.
Qed.

(** ** Snapshots *)

Section Snapshots.
Context {M P D : Type} `{HM : GuestMemory M, HML : !GuestMemoryLaws M, HD : VirtioDevice P D, HL : !VirtioDeviceLaws P D}.
Implicit Types (m : M) (t : MmioTransport D) (s : MmioSnapshot P).

(** A destination with the topology of the transport that was captured. *)
Record fresh_copy t0 t : Prop := {
  fc_type : device_type (mt_device t0) = device_type (mt_device t);
  fc_avail : avail_features (mt_device t0) = avail_features (mt_device t);
  fc_irq : mt_irq_line t0 = mt_irq_line t;
  fc_config : mt_queue_config t0 = mt_queue_config t;
  fc_inactive : is_activated (mt_device t0) = false;
  fc_shm : shm_region (mt_device t0) = None;
  fc_events : length (mt_queue_evts t0) = length (mt_queue_config t);
  fc_counters : Forall (fun c => c + 1 <= u64_max - 1) (mt_queue_evts t0)
}.

(** The rings of every ready queue are in guest memory. *)
Definition layouts_ok m (qs : list Queue) : Prop := Forall (fun q => q_ready q = true -> valid_layout q m = true) qs.

(** A restored queue has requests that were not popped. *)
Definition has_work m (q : Queue) : bool := match queue_pending m q with Ok b => b | Err _ => false end.

(** The registers of two transports. *)
Definition same_registers t t' : Prop :=
  mt_features_select t' = mt_features_select t /\ mt_acked_features_select t' = mt_acked_features_select t /\
  mt_queue_select t' = mt_queue_select t /\ mt_device_status t' = mt_device_status t /\
  mt_config_generation t' = mt_config_generation t /\ mt_shm_region_select t' = mt_shm_region_select t /\
  mt_interrupt_status t' = mt_interrupt_status t.

Lemma restore_queues m qs config :
  map q_max_size qs = config -> layouts_ok m qs ->
  collect (fun '(q, size) => queue_restore q size m) (zip (map capture_state qs) config) = Ok qs.
Proof.
  intros <- Hok. induction Hok as [|q qs Hq Hqs IH]; [done|]. cbn [map].
  change (zip (capture_state q :: map capture_state qs) (q_max_size q :: map q_max_size qs))
    with ((capture_state q, q_max_size q) :: zip (map capture_state qs) (map q_max_size qs)). cbn [collect].
  rewrite snapshot_restored, Z.eqb_refl. cbn [negb].
  destruct (q_ready q && negb (valid_layout q m)) eqn:E.
  - apply andb_true_iff in E as [Er Ev]. rewrite (Hq Er) in Ev. done.
  - cbn [mbind result_bind]. by rewrite IH.
Qed.

Lemma pending_ok m qs : layouts_ok m qs -> collect (queue_pending m) qs = Ok (map (has_work m) qs).
Proof.
  induction 1 as [|q qs Hq Hqs IH]; [done|]. cbn [map collect]. unfold has_work at 1.
  assert (exists b, queue_pending m q = Ok b) as [b ->]; [|cbn; by rewrite IH].
  unfold queue_pending. destruct (q_ready q) eqn:Er; cbn [negb]; [|by eexists].
  destruct (valid_layout_spec _ _ (Hq eq_refl)) as [k Hl]. pose proof (layout_size_pos _ _ _ Hl).
  destruct (slice_read m (q_avail_ring q) (6 + 2 * q_size q) 2 2) as (bs & -> & _); [apply Hl|lia|lia|]. by eexists.
Qed.

Lemma notify_pending_ok pending : forall n evts,
  Forall (fun c => c + 1 <= u64_max - 1) (drop n evts) ->
  exists evts', notify_pending pending n evts = Ok evts' /\
    forall i c, evts !! i = Some c ->
      evts' !! i = Some (if (n <=? i)%nat && default false (pending !! (i - n)%nat) then c + 1 else c).
Proof.
  induction pending as [|p pending IH]; intros n evts Hc.
  - exists evts. split; [done|]. intros i c Hi. rewrite lookup_nil. cbn. by rewrite andb_false_r.
  - cbn [notify_pending].
    assert (exists evts1, (if (n <? length evts)%nat && p then ok_or (eventfd_write evts n) "eventfd"%string else Ok evts) = Ok evts1 /\
      Forall (fun c => c + 1 <= u64_max - 1) (drop (S n) evts1) /\
      forall i c, evts !! i = Some c -> evts1 !! i = Some (if bool_decide (i = n) && p then c + 1 else c)) as (evts1 & -> & Hc1 & H1).
    { destruct (Nat.ltb_spec n (length evts)) as [Hlt|Hge]; cbn [andb].
      - destruct (lookup_lt_is_Some_2 evts n Hlt) as [c Ec]. rewrite (drop_S _ c n Ec) in Hc. apply Forall_cons in Hc as [Hcn Hc].
        destruct p; cbn.
        + unfold eventfd_write. rewrite Ec. cbn. rewrite (proj2 (Z.leb_le _ _)) by done. cbn. exists (<[n := c + 1]> evts).
          split; [done|]. split; [rewrite drop_insert_lt by lia; done|]. intros i c' Hi. case_bool_decide as Hin; cbn.
          * subst i. rewrite list_lookup_insert_eq by done. by simplify_eq.
          * by rewrite list_lookup_insert_ne.
        + exists evts. split; [done|]. split; [done|]. intros. by rewrite andb_false_r.
      - exists evts. split; [done|]. rewrite drop_ge by lia. split; [constructor|]. intros i c Hi.
        pose proof (lookup_lt_Some _ _ _ Hi). rewrite bool_decide_eq_false_2 by lia. done. }
    cbn [mbind result_bind]. destruct (IH (S n) evts1 Hc1) as (evts' & -> & H2). exists evts'. split; [done|].
    intros i c Hi. rewrite (H2 _ _ (H1 _ _ Hi)). f_equal.
    destruct (decide (i = n)) as [->|Hne].
    + rewrite bool_decide_eq_true_2, Nat.sub_diag, Nat.leb_refl by done. rewrite (proj2 (Nat.leb_gt _ _)) by lia. done.
    + rewrite bool_decide_eq_false_2 by done. cbn [andb]. destruct (Nat.leb_spec n i) as [Hle|Hgt]; cbn [andb].
      * rewrite (proj2 (Nat.leb_le _ _)) by lia. replace (i - n)%nat with (S (i - S n)) by lia. done.
      * rewrite (proj2 (Nat.leb_gt _ _)) by lia. done.
Qed.

Lemma interrupt_small t : transport_ok t -> wrap32 (mt_interrupt_status t) = mt_interrupt_status t.
Proof.
  intros Hok. apply wrap_small. pose proof (ok_interrupt _ Hok) as Hc.
  assert (mt_interrupt_status t = Z.land (mt_interrupt_status t) 3) as E.
  { apply Z.bits_inj'. intros i Hi. apply (f_equal (fun x => Z.testbit x i)) in Hc. unfold clear in Hc.
    rewrite Z.ldiff_spec, Z.bits_0 in Hc. rewrite Z.land_spec. by destruct (Z.testbit (mt_interrupt_status t) i), (Z.testbit 3 i). }
  rewrite E, Z.land_comm. apply land_uint; [lia|]. unfold is_uint. lia.
Qed.

Lemma capture_inv t s : mmio_capture_state t Locked = Ok s ->
  exists state, vd_capture_state (mt_device t) = Ok state /\ is_some (ds_queues state) = is_activated (mt_device t) /\
    s = mkMmioSnapshot 1 (device_type (mt_device t)) (avail_features (mt_device t)) (acked_features (mt_device t))
          (mt_features_select t) (mt_acked_features_select t) (mt_queue_select t) (mt_device_status t) (mt_config_generation t)
          (mt_shm_region_select t) (wrap32 (mt_interrupt_status t)) (mt_irq_line t) (map capture_state <$> mt_queues t) state.
Proof.
  unfold mmio_capture_state. case_match; [done|]. intros (state & Hs & Hr)%bind_Ok. exists state. split; [done|].
  case_match eqn:E; [done|]. apply negb_false_iff, eqb_prop in E. split; [done|]. by injection Hr as <-.
Qed.

(** The first check passes at a destination of the same topology. *)
Lemma no_mismatch t t0 s : transport_ok t -> fresh_copy t0 t -> mmio_capture_state t Locked = Ok s ->
  is_activated (mt_device t) = negb (is_some (mt_queues t)) -> restore_mismatch t0 s = false.
Proof.
  intros Hok Hc (state & _ & Es & ->)%capture_inv Ho. unfold restore_mismatch. cbn.
  rewrite (fc_type _ _ Hc), (fc_avail _ _ Hc), (fc_irq _ _ Hc), (fc_inactive _ _ Hc), (fc_shm _ _ Hc), !Z.eqb_refl.
  rewrite (ok_features _ Hok), interrupt_small, (ok_interrupt _ Hok), has_driver_ok, Es, Ho by done.
  rewrite bool_decide_eq_true_2 by done. cbn [negb orb is_some Z.eqb].
  pose proof (ok_owner _ Hok) as Hown. destruct (mt_queues t) as [qs|]; cbn.
  - destruct (driver_ok (mt_device_status t)); [|done]. by discriminate (proj2 Hown eq_refl).
  - by rewrite (proj1 Hown eq_refl).
Qed.
End Snapshots.

(** A transport whose device is active is restored as it was: at a fresh
    copy of its topology, over the same guest memory, the device is activated
    with the queues it had (indices included), all registers have their values
    again, and exactly the queues with requests that were not popped yet are
    notified once. *)
Theorem snapshot_resumes {M P D} `{HM : GuestMemory M, HML : !GuestMemoryLaws M, HD : VirtioDevice P D, HL : !VirtioDeviceLaws P D}
    (m : M) (t t0 : MmioTransport D) (s : MmioSnapshot P) qs u u' d1 d2 :
  reachable t -> mmio_capture_state t Locked = Ok s -> fresh_copy t0 t ->
  ds_queues (ms_device s) = Some (map capture_state qs) -> map q_max_size qs = mt_queue_config t -> layouts_ok m qs ->
  Forall (fun q => q_event_idx_enabled q = Z.testbit (acked_features (mt_device t)) 29) qs ->
  vd_restore_state (mt_device t0) (ds_state (ms_device s)) = (Ok u, d1) ->
  vd_activate (set_acked_features d1 (acked_features (mt_device t))) (imap (fun i q => mkDeviceQueue q i) qs) = (Ok u', d2) ->
  exists t', mmio_restore_state t0 s Locked m = Ok t' /\ mt_device t' = d2 /\ mt_queues t' = None /\ same_registers t t' /\
    forall i q c, qs !! i = Some q -> mt_queue_evts t0 !! i = Some c ->
      mt_queue_evts t' !! i = Some (if has_work m q then c + 1 else c).
Proof.
  intros Hr Hcap Hc Hq Hmax Hly Hev Hrest Hact. apply reachable_ok in Hr as Hok.
  pose proof (capture_inv _ _ Hcap) as (state & Hs & Es & E). rewrite E in Hq, Hrest. cbn in Hq, Hrest.
  rewrite Hq in Es. cbn in Es. symmetry in Es. pose proof (ok_active _ Hok Es) as Hnone.
  assert (restore_mismatch t0 s = false) as Hm by (eapply no_mismatch; [done|done|done|by rewrite Es, Hnone]).
  unfold mmio_restore_state. rewrite Hm. subst s. cbn [ms_device ms_queues ms_acked_features]. rewrite Hq. cbn [is_some ok_or mbind result_bind].
  rewrite length_map, (fc_config _ _ Hc), <- Hmax, length_map, Nat.eqb_refl. cbn [negb andb].
  assert (existsb (fun q => negb (Bool.eqb (qs_event_idx_enabled q)
     (negb (Z.land (acked_features (mt_device t)) (Z.shiftl 1 VIRTIO_RING_F_EVENT_IDX) =? 0)))) (map capture_state qs) = false) as ->.
  { unfold VIRTIO_RING_F_EVENT_IDX. rewrite Z.shiftl_1_l, land_bit, negb_involutive by done.
    clear -Hev. induction Hev as [|q qs Eq _ IH]; cbn [map existsb]; [done|]. rewrite IH, orb_false_r. cbn. rewrite Eq. by rewrite eqb_reflx. }
  rewrite restore_queues by done. cbn [map_err mbind result_bind]. rewrite Hrest. rewrite pending_ok by done. cbn [mbind result_bind].
  assert (device_queues qs (mt_queue_evts t0) = imap (fun i q => mkDeviceQueue q i) qs) as ->.
  { unfold device_queues. rewrite (fc_events _ _ Hc), <- Hmax, length_map. apply list_eq. intros i.
    rewrite list_lookup_imap, lookup_zip_with. destruct (qs !! i) as [q|] eqn:Eqi; cbn; [|done].
    apply lookup_lt_Some in Eqi. by rewrite lookup_seq_lt. }
  rewrite Hact. destruct (notify_pending_ok (map (has_work m) qs) 0 (mt_queue_evts t0)) as (evts & -> & Hevts);
    [rewrite drop_0; apply Hc|].
  cbn [mbind result_bind]. eexists. split; [done|]. cbn. split; [done|]. split; [done|].
  split; [unfold same_registers; cbn; by rewrite interrupt_small|].
  intros i q c Hi Hci. rewrite (Hevts _ _ Hci). cbn [Nat.leb andb]. rewrite Nat.sub_0_r.
  change (map (has_work m) qs !! i) with ((has_work m <$> qs) !! i). rewrite list_lookup_fmap, Hi. done.
Qed.

(** ** Evaluation *)

Lemma write_all_steps {P D} `{HD : VirtioDevice P D} l (t t' : MmioTransport D) : write_all t l = Some t' -> rtc step t t'.
Proof.
  revert t. induction l as [|[o v] l IH]; intros t E; cbn [write_all] in E; [injection E as <-; apply rtc_refl|].
  apply bind_Some in E as (t1 & Hw & E). eapply rtc_l; [by eapply step_write|by apply IH].
Qed.

#[local] Instance rng_unit : VirtioDevice unit Rng := rng_device.
Definition rng_setups : list QueueSetup := [mkSetup 4 0 128 256].
Definition rng_configured : Queue := mkQueue 256 4 true 0 128 256 0 0 false 0.
(** The transport of an entropy device after the steps of its driver, before and
    after it reports that it is ready. *)
Definition rng_negotiated : MmioTransport Rng :=
  mkTransport (rng_set_acked_features rng_new (2 ^ 32)) 0 1 0 11 0 (Some [rng_configured]) [0] [256] 0 0 None.
Definition rng_running : MmioTransport Rng :=
  mkTransport (mkRng (Some [mkDeviceQueue rng_configured 0]) (2 ^ 32) (2 ^ 32) 1 true false) 0 1 0 15 0 None [0] [256] 0 0 None.

Lemma fresh_rng : fresh_device rng_new.
Proof. done. Qed.
Lemma rng_negotiated_eq : write_all (transport_new rng_new) (negotiation (2 ^ 32) ++ queues_writes 0 rng_setups) = Some rng_negotiated.
Proof. vm_compute. reflexivity. Qed.
Lemma rng_running_eq : mmio_write rng_negotiated 0x70 [15; 0; 0; 0] = Some rng_running.
Proof. vm_compute. reflexivity. Qed.
Lemma rng_negotiated_reachable : reachable rng_negotiated.
Proof. exists rng_new. split; [done|]. eapply write_all_steps, rng_negotiated_eq. Qed.
Lemma rng_running_reachable : reachable rng_running.
Proof.
  destruct rng_negotiated_reachable as (d & Hd & Hr). exists d. split; [done|].
  eapply rtc_r; [exact Hr|]. eapply step_write, rng_running_eq.
Qed.

Lemma transport_invariant_witness : reachable rng_running /\ mt_queues rng_running = None.
Proof.
  split; [exact rng_running_reachable|]. apply (proj1 (transport_invariant rng_running rng_running_reachable)). reflexivity.
Defined.

Lemma activation_needs_negotiation_witness :
  step rng_negotiated rng_running /\ mt_device_status rng_negotiated = 11.
Proof.
  assert (step rng_negotiated rng_running) as Hs by (eapply step_write, rng_running_eq). split; [exact Hs|].
  apply (activation_needs_negotiation rng_negotiated rng_running rng_negotiated_reachable Hs eq_refl eq_refl).
Defined.

Lemma driver_initialises_witness :
  exists t, write_all (transport_new rng_new) (driver_sequence (2 ^ 32) rng_setups) = Some t /\ mt_device_status t = 15.
Proof.
  destruct (driver_initialises rng_new (2 ^ 32) rng_setups fresh_rng) as (d1 & Hk & Ha & Hd);
    [unfold is_uint; lia|reflexivity|reflexivity|repeat constructor; unfold is_uint; cbn; lia|].
  cbn zeta in Hd. revert Hd. destruct (vd_activate d1 _) as [[u|e] d2].
  - intros (t & Hw & _ & Hs & _). exists t. split; [exact Hw|exact Hs].
  - intros Hn. vm_compute in Hn. discriminate Hn.
Defined.

(** A driver that reports a failure cannot reset the device. *)
Definition rng_failed : MmioTransport Rng := with_status 143 rng_running.
Definition rng_failed_reset : MmioTransport Rng := with_device (mkRng None (2 ^ 32) (2 ^ 32) 1 false false) rng_failed.
Lemma rng_failed_eq : mmio_write rng_failed 0x70 [0; 0; 0; 0] = Some rng_failed_reset.
Proof. vm_compute. reflexivity. Qed.
Lemma failed_device_inert_witness : step rng_failed rng_failed_reset /\ mt_device_status rng_failed_reset = 143.
Proof.
  assert (step rng_failed rng_failed_reset) as Hs by (eapply step_write, rng_failed_eq). split; [exact Hs|].
  exact (proj1 (failed_device_inert rng_failed rng_failed_reset ltac:(discriminate) (rtc_once _ _ Hs))).
Defined.

(** A driver that drops [FEATURES_OK] while it sets [DRIVER_OK] can acknowledge
    features of the active device. *)
Lemma features_change_while_active :
  let features l := (fun t => (is_activated (mt_device t), acked_features (mt_device t))) <$> write_all (transport_new rng_new) l in
  features [(0x70, 1); (0x70, 3); (0x70, 11); (0x70, 6)] = Some (true, 0) /\
  features [(0x70, 1); (0x70, 3); (0x70, 11); (0x70, 6); (0x24, 1); (0x20, 1)] = Some (true, 2 ^ 32).
Proof. split; vm_compute; reflexivity. Qed.

(** A frozen entropy device with one request that was not popped. *)
Definition rng_frozen_t : MmioTransport Rng := (freeze rng_running Locked).2.
Definition rng_ram : FlatMemory := flat_of 4096 [(128, [0; 0; 1; 0])].
Definition rng_snapshot : MmioSnapshot unit :=
  mkMmioSnapshot 1 4 (2 ^ 32) (2 ^ 32) 0 1 0 15 0 0 0 None None
    (mkDeviceSnapshot (Some (map capture_state [rng_configured])) SnapRng).
Lemma rng_captured : mmio_capture_state rng_frozen_t Locked = Ok rng_snapshot.
Proof. vm_compute. reflexivity. Qed.
Lemma rng_frozen_reachable : reachable rng_frozen_t.
Proof.
  destruct rng_running_reachable as (d & Hd & Hr). exists d. split; [done|]. eapply rtc_r; [exact Hr|]. apply step_freeze.
Qed.
Lemma rng_fresh_copy : fresh_copy (transport_new rng_new) rng_frozen_t.
Proof. split; try reflexivity. repeat constructor. vm_compute. congruence. Qed.
Lemma rng_ram_ok : layouts_ok rng_ram [rng_configured] /\ has_work rng_ram rng_configured = true.
Proof. split; [|vm_compute; reflexivity]. repeat constructor; vm_compute; reflexivity. Qed.

Lemma snapshot_resumes_witness :
  exists t', mmio_restore_state (transport_new rng_new) rng_snapshot Locked rng_ram = Ok t' /\
    mt_device_status t' = 15 /\ mt_queue_evts t' !! 0%nat = Some 1.
Proof.
  destruct rng_ram_ok as [Hly Hw].
  destruct (snapshot_resumes rng_ram rng_frozen_t (transport_new rng_new) rng_snapshot [rng_configured] tt tt
      (mkRng None (2 ^ 32) 0 0 false true)
      (mkRng (Some [mkDeviceQueue rng_configured 0]) (2 ^ 32) (2 ^ 32) 1 true true)
      rng_frozen_reachable rng_captured rng_fresh_copy)
    as (t' & Hr & _ & _ & Hreg & Hev); [reflexivity|reflexivity|exact Hly|repeat constructor|vm_compute; reflexivity..|].
  exists t'. split; [exact Hr|]. destruct Hreg as (_ & _ & _ & Hs & _). split; [rewrite Hs; reflexivity|].
  rewrite (Hev 0%nat rng_configured 0 eq_refl eq_refl), Hw. reflexivity.
Defined.
