(* ===== verification/RngFacts.v ===== *)
(** * Requests of the entropy device

    Chains whose buffers are in guest memory and apart from the rings are all
    completed, and the worker returns. A chain whose buffer cannot be written is
    taken back and popped again: the worker never returns. *)
From stdpp Require Import base tactics list strings relations.
From Stdlib Require Import ZArith Lia.
From S2P Require Import Prelude Bytes VirtQueue FlatMemory VirtQueueFacts Virtio Rng.
Local Open Scope Z_scope.

Section View.
Context {M : Type} `{HM : GuestMemory M, HL : !GuestMemoryLaws M}.
Implicit Types (m : M) (q : Queue) (c : DescriptorChain).

Definition apart (a n b k : Z) : Prop := a + n <= b \/ b + k <= a.

(** Ranges apart from what the device reads of a queue. *)
Definition apart_of q (a n : Z) : Prop :=
  apart a n (q_desc_table q) (16 * q_size q) /\ apart a n (q_avail_ring q) (6 + 2 * q_size q).

(** Writes that leave what the device reads of a queue as it was. *)
Record same_view q m m' : Prop := {
  sv_written : written m m';
  sv_desc a n : q_desc_table q <= a -> a + Z.of_nat n <= q_desc_table q + 16 * q_size q -> read_obj m' a n = read_obj m a n;
  sv_avail a n : q_avail_ring q <= a -> a + Z.of_nat n <= q_avail_ring q + (6 + 2 * q_size q) -> read_obj m' a n = read_obj m a n
}.

Lemma same_view_refl q m : same_view q m m.
Proof. split; [apply rtc_refl|done|done]. Qed.
Lemma same_view_trans q m1 m2 m3 : same_view q m1 m2 -> same_view q m2 m3 -> same_view q m1 m3.
Proof. intros [w1 d1 a1] [w2 d2 a2]. split; [by etrans|intros; by rewrite d2, d1|intros; by rewrite a2, a1]. Qed.

Lemma same_view_fields q q' m m' :
  q_desc_table q' = q_desc_table q -> q_avail_ring q' = q_avail_ring q -> q_size q' = q_size q ->
  same_view q m m' -> same_view q' m m'.
Proof. intros E1 E2 E3 []. split; rewrite ?E1, ?E2, ?E3; done. Qed.

Lemma same_view_write q m a bs m' :
  write_obj m a bs = Some m' -> apart_of q a (Z.of_nat (length bs)) -> same_view q m m'.
Proof.
  intros Hw [Hd Ha]. unfold apart in *. split; [by eapply written_one| |]; intros b n Hb Hn; eapply write_frame; try done; lia.
Qed.

Lemma view_layout q m m' k : same_view q m m' -> layout q m k -> layout q m' k.
Proof. intros Hv. apply layout_memory. intros. apply written_slice, Hv. Qed.

Lemma view_checked_new q m m' i : same_view q m m' -> 0 <= i ->
  checked_new m' (q_desc_table q) (q_size q) i = checked_new m (q_desc_table q) (q_size q) i.
Proof.
  intros Hv Hi. unfold checked_new. destruct (Z.leb_spec (q_size q) i) as [|Hlt]; [done|].
  unfold checked_offset. destruct (address_add _ (i * 16)) as [h|] eqn:Eh; cbn [mbind option_bind]; [|done].
  unfold address_add in Eh. apply checked_add_Some in Eh as [_ ->].
  rewrite (written_range _ _ _ (sv_written _ _ _ Hv)). case_match; [|done]. cbn [mbind option_bind].
  destruct (address_add _ 16) as [h'|]; cbn [mbind option_bind]; [|done].
  rewrite (written_range _ _ _ (sv_written _ _ _ Hv)). case_match; [|done]. cbn [mbind option_bind].
  rewrite (sv_desc _ _ _ Hv) by lia. done.
Qed.

(** Chains of a queue. *)
Record chain_in q c : Prop := {
  ci_table : dc_desc_table c = q_desc_table q;
  ci_size : dc_queue_size c = q_size q;
  ci_index : 0 <= dc_index c < q_size q;
  ci_next : 0 <= dc_next c
}.

Lemma from_bytes_nonneg l : Forall is_byte l -> 0 <= from_le_bytes l.
Proof. intros Hl%from_le_bytes_bound. lia. Qed.

Lemma checked_new_in q m k i c :
  layout q m k -> 0 <= i -> checked_new m (q_desc_table q) (q_size q) i = Some c -> chain_in q c.
Proof.
  intros Hl Hi Hc. pose proof (checked_new_Some _ _ _ _ _ Hc) as (Hlt & E1 & E2 & E3 & E4).
  split; [done|done|lia|]. unfold checked_new in Hc. rewrite (proj2 (Z.leb_gt _ _)) in Hc by lia.
  apply bind_Some in Hc as (h & Hh & Hc). apply bind_Some in Hc as (h' & _ & Hc). apply bind_Some in Hc as (bs & Hbs & Hc).
  assert (h = q_desc_table q + i * 16) as ->.
  { unfold checked_offset, address_add in Hh. apply bind_Some in Hh as (a & Ha & Hh). apply checked_add_Some in Ha as [_ ->].
    destruct (address_in_range m _); [congruence|done]. }
  destruct (slice_read m (q_desc_table q) (16 * q_size q) (i * 16) 16) as (bs' & Hbs' & _ & Hb); [apply Hl|lia|lia|].
  rewrite Hbs in Hbs'. injection Hbs' as <-. cbn in Hc. case_match; [|done]. injection Hc as <-. cbn [dc_next].
  apply from_bytes_nonneg. by apply Forall_take, Forall_drop.
Qed.

Lemma next_in q m k c c' : layout q m k -> chain_in q c -> next_descriptor m c = Some c' -> chain_in q c'.
Proof.
  intros Hl [E1 E2 _ Hn] Hc. unfold next_descriptor in Hc. case_match; [|done].
  apply fmap_Some in Hc as (c1 & Hc & ->). rewrite E1, E2 in Hc. apply (checked_new_in _ _ k) in Hc as []; [|done|done]. by split.
Qed.

Lemma view_next q m m' c : same_view q m m' -> chain_in q c -> next_descriptor m' c = next_descriptor m c.
Proof.
  intros Hv [E1 E2 _ Hn]. unfold next_descriptor. case_match; [|done]. rewrite E1, E2. by rewrite (view_checked_new q m m').
Qed.

Lemma view_desc_iter fuel q m m' k c :
  layout q m k -> same_view q m m' -> chain_in q c -> desc_iter fuel m' (Some c) = desc_iter fuel m (Some c).
Proof.
  intros Hl Hv. revert c. induction fuel as [|fuel IH]; intros c Hc; cbn [desc_iter]; [done|].
  rewrite (view_next q m m') by done. destruct (next_descriptor m c) as [c'|] eqn:E; [|by destruct fuel].
  rewrite (IH c'); [done|]. by eapply next_in.
Qed.

Lemma view_avail_idx q m m' k : layout q m k -> same_view q m m' -> avail_idx q m' = avail_idx q m.
Proof.
  intros Hl Hv. pose proof (layout_size_pos _ _ _ Hl). unfold avail_idx. destruct (address_add _ 2) as [a|] eqn:E; [|done].
  unfold address_add in E. apply checked_add_Some in E as [_ ->]. cbn [ok_or mbind result_bind].
  assert ((q_avail_ring q + 2) mod 2 = 0) by (apply add_even; [apply Hl|done]).
  rewrite (slice_load m' _ (6 + 2 * q_size q)), (slice_load m _ (6 + 2 * q_size q)), (sv_avail _ _ _ Hv);
    solve [lia|done|apply Hl|rewrite (written_slice _ _ _ _ (sv_written _ _ _ Hv)); apply Hl].
Qed.

Lemma view_ring_entry q m m' k i : layout q m k -> same_view q m m' -> ring_entry q m' i = ring_entry q m i.
Proof.
  intros Hl Hv. pose proof (layout_size_pos _ _ _ Hl) as Hp. pose proof (Z.mod_pos_bound i _ Hp).
  unfold ring_entry. rewrite (sv_avail _ _ _ Hv) by lia. done.
Qed.

Lemma ring_entry_nonneg q m k i : layout q m k -> 0 <= ring_entry q m i.
Proof.
  intros Hl. pose proof (layout_size_pos _ _ _ Hl) as Hp. pose proof (Z.mod_pos_bound i _ Hp). unfold ring_entry.
  destruct (slice_read m (q_avail_ring q) (6 + 2 * q_size q) (4 + 2 * (i mod q_size q)) 2) as (bs & -> & _ & Hb);
    [apply Hl|lia|lia|]. by apply from_bytes_nonneg.
Qed.

Lemma view_available n q m m' k i : layout q m k -> same_view q m m' -> available n q m' i = available n q m i.
Proof.
  intros Hl Hv. revert i. induction n as [|n IH]; intros i; cbn [available]; [done|].
  rewrite (view_ring_entry q m m' k), (view_checked_new q m m') by (done || by eapply ring_entry_nonneg). by rewrite IH.
Qed.

Lemma view_pop q m m' k :
  layout q m k -> k <= 14 -> in_64_bits q -> indices_ok q -> same_view q m m' -> pop q m' = pop q m.
Proof.
  intros Hl Hk H64 Hi Hv. destruct (pop_spec q m k Hl Hk H64 Hi) as (idx & Hidx & _ & ->).
  destruct (pop_spec q m' k (view_layout _ _ _ _ Hv Hl) Hk H64 Hi) as (idx' & Hidx' & _ & ->).
  rewrite (view_avail_idx q m m' k) in Hidx' by done. assert (idx' = idx) as -> by congruence.
  rewrite (view_ring_entry q m m' k), (view_checked_new q m m') by (done || by eapply ring_entry_nonneg). done.
Qed.
End View.

(** ** Completing requests *)
Section Complete.
Context {M : Type} `{HM : GuestMemory M, HL : !GuestMemoryLaws M}.
Variable entropy : nat -> Z -> option (list Z).
Implicit Types (m : M) (q : Queue) (c : DescriptorChain).

(** The operating system provides the bytes that are asked for. *)
Definition entropy_ok : Prop :=
  forall n len, 0 <= len -> exists bs, entropy n len = Some bs /\ Z.of_nat (length bs) = len.

(** A buffer in guest memory, apart from the queue. *)
Definition buffer_ok q m c : Prop :=
  0 <= dc_len c /\ get_slice m (dc_addr c) (dc_len c) = true /\ apart_of q (dc_addr c) (dc_len c).

Definition total_len (l : list DescriptorChain) : Z := foldr (fun c n => dc_len c + n) 0 l.

(** A chain that can be filled. *)
Definition fillable q m c : Prop :=
  exists l, into_iter m c = Some l /\ Forall (buffer_ok q m) l /\ total_len l <= u32_max.

Lemma total_len_nonneg q m l : Forall (buffer_ok q m) l -> 0 <= total_len l.
Proof. unfold total_len. induction 1 as [|c l [Hc _] _ IH]; cbn; lia. Qed.

Lemma view_buffer q m m' c : same_view q m m' -> buffer_ok q m c -> buffer_ok q m' c.
Proof. intros Hv (H1 & H2 & H3). split; [done|]. split; [by rewrite (written_slice _ _ _ _ (sv_written _ _ _ Hv))|done]. Qed.

Lemma fill_chain_ok fuel q q0 m k c l w calls :
  entropy_ok -> layout q m k -> chain_in q c -> desc_iter fuel m (Some c) = Some l -> Forall (buffer_ok q m) l ->
  w + total_len l <= u32_max ->
  exists m' calls', fill_chain entropy fuel q0 m (Some c) w calls = Done (q0, m', w + total_len l, calls') /\ same_view q m m'.
Proof.
  intros He. revert m c l w calls. induction fuel as [|fuel IH]; intros m c l w calls Hl Hc Hit Hb Hw; [done|].
  cbn [desc_iter] in Hit. apply fmap_Some in Hit as (l' & Hit & ->). apply Forall_cons in Hb as [(H0 & Hs & Ha) Hb].
  pose proof (total_len_nonneg _ _ _ Hb) as Hpos. cbn [total_len foldr] in Hw. fold (total_len l') in Hw.
  cbn [fill_chain]. destruct (He calls (dc_len c) H0) as (bs & -> & Hlen).
  destruct (slice_write m (dc_addr c) (dc_len c) 0 bs) as [m1 Hw1]; [done|lia|lia|]. rewrite Z.add_0_r in Hw1. rewrite Hw1.
  rewrite (proj2 (Z.ltb_ge _ _)) by lia.
  assert (same_view q m m1) as Hv by (eapply same_view_write; [exact Hw1|by rewrite Hlen]).
  cbn [total_len foldr]. fold (total_len l'). rewrite Z.add_assoc.
  destruct (next_descriptor m c) as [c'|] eqn:En.
  - destruct (IH m1 c' l' (w + dc_len c) (S calls)) as (m' & calls' & Hf & Hv').
    + by eapply view_layout.
    + by eapply next_in.
    + rewrite (view_desc_iter _ q m m1 k); [done|done|done|by eapply next_in].
    + eapply Forall_impl; [exact Hb|]. intros x. by apply view_buffer.
    + lia.
    + exists m', calls'. split; [exact Hf|by eapply same_view_trans].
  - assert (l' = []) as -> by (destruct fuel; cbn in Hit; by injection Hit).
    exists m1, (S calls). split; [|done]. cbn [total_len foldr]. rewrite Z.add_0_r. by destruct fuel.
Qed.

(** The used ring is apart from what the device reads. *)
Definition rings_apart q : Prop := apart_of q (q_used_ring q) (4 + 8 * q_size q).

Lemma used_step_view q m head len q' m' : rings_apart q -> used_step q m head len q' m' -> same_view q m m'.
Proof.
  intros [Hd Ha] Hs. unfold apart in *. split; [apply Hs| |]; intros a n H1 H2; apply (us_frame _ _ _ _ _ _ Hs); lia.
Qed.

Lemma view_fillable q m m' k c : layout q m k -> chain_in q c -> same_view q m m' -> fillable q m c -> fillable q m' c.
Proof.
  intros Hl Hc Hv (l & Hit & Hb & Ht). exists l. split; [|split; [|done]].
  - rewrite <- Hit. unfold into_iter. by eapply view_desc_iter.
  - eapply Forall_impl; [exact Hb|]. intros x. by apply view_buffer.
Qed.

Lemma process_queue_S fuel q m have_used calls :
  process_queue entropy (S fuel) q m have_used calls =
  match pop q m with
  | None => Panicked
  | Some (None, q) => Done (have_used, q, m, calls)
  | Some (Some head, q) =>
      match fill_chain entropy (Z.to_nat (dc_ttl head)) q m (Some head) 0 calls with
      | Running => Running
      | Panicked => Panicked
      | Done (q, m, w, calls) =>
          let '(_, (q, m)) := add_used q m (dc_index head) w in process_queue entropy fuel q m true calls
      end
  end.
Proof. done. Qed.

(** One round: pop a chain, fill it and complete it. *)
Lemma round_ok q m k c calls :
  entropy_ok -> layout q m k -> in_64_bits q -> rings_apart q -> chain_in q c -> fillable q m c ->
  exists q' m' w calls' m1, fill_chain entropy (Z.to_nat (dc_ttl c)) q m (Some c) 0 calls = Done (q, m1, w, calls') /\
    add_used q m1 (dc_index c) w = (Ok tt, (q', m')) /\ same_view q m m' /\
    q' = set_used (wrap16 (q_next_used q + 1)) (wrap16 (q_num_added q + 1)) q /\ used_idx q m' = Some (q_next_used q').
Proof.
  intros He Hl H64 Hr Hc (l & Hit & Hb & Ht).
  destruct (fill_chain_ok (Z.to_nat (dc_ttl c)) q q m k c l 0 calls He Hl Hc Hit Hb) as (m1 & calls' & Hf & Hv1); [lia|].
  destruct (add_used_step q m1 k (dc_index c) (0 + total_len l) (view_layout _ _ _ _ Hv1 Hl) H64 (ci_index _ _ Hc))
    as (q' & m' & Ha & Hs).
  exists q', m', (0 + total_len l), calls', m1. split; [done|]. split; [done|].
  split; [eapply same_view_trans; [exact Hv1|by eapply used_step_view]|]. split; [apply Hs|].
  rewrite (us_idx _ _ _ _ _ _ Hs), (us_queue _ _ _ _ _ _ Hs). done.
Qed.

Lemma available_used n q m x y i : available n (set_used x y q) m i = available n q m i.
Proof. revert i. induction n as [|n IH]; intros i; cbn [available]; [done|]. rewrite IH. reflexivity. Qed.

Lemma available_in n q m k i l : layout q m k -> available n q m i = Some l -> Forall (chain_in q) l.
Proof.
  intros Hl. revert i l. induction n as [|n IH]; intros i l Hav; cbn [available] in Hav; [by injection Hav as <-|].
  apply bind_Some in Hav as (c & Hc & Hav). apply bind_Some in Hav as (l' & Hav & [= <-]).
  constructor; [|by eapply IH]. eapply checked_new_in; [done|by eapply ring_entry_nonneg|done].
Qed.

(** The distance to the driver's index after one more chain. *)
Lemma wrap_next idx next n :
  wrap16 (idx - next) = Z.of_nat (S n) -> wrap16 (idx - wrap16 (next + 1)) = Z.of_nat n.
Proof.
  intros Hn. rewrite wrap_sub_r. replace (idx - (next + 1)) with (idx - next - 1) by lia.
  rewrite <- wrap_sub_l, Hn. pose proof (wrap_range 16 (idx - next) ltac:(lia)) as Hw. rewrite Hn in Hw.
  rewrite wrap_small; [lia|unfold is_uint; lia].
Qed.

Lemma process_queue_ok n q m k idx l have_used calls :
  entropy_ok -> layout q m k -> k <= 14 -> in_64_bits q -> indices_ok q -> rings_apart q ->
  avail_idx q m = Ok idx -> wrap16 (idx - q_next_avail q) = Z.of_nat n ->
  available n q m (q_next_avail q) = Some l -> Forall (fillable q m) l ->
  exists m' calls', process_queue entropy (S n) q m have_used calls =
      Done (have_used || negb (bool_decide (n = O)),
            set_used (wrap16 (q_next_used q + Z.of_nat n)) (wrap16 (q_num_added q + Z.of_nat n)) (set_next_avail idx q), m', calls') /\
    same_view q m m' /\ (n <> O -> used_idx q m' = Some (wrap16 (q_next_used q + Z.of_nat n))) /\ (n = O -> m' = m).
Proof.
  intros He Hl Hk. revert q m l have_used calls Hl. induction n as [|n IH]; intros q m l have_used calls Hl H64 Hi Hr Hidx Hn Hav Hf.
  - destruct (pop_spec q m k Hl Hk H64 Hi) as (idx' & Hidx' & _ & Hpop). assert (idx' = idx) as -> by congruence.
    assert (idx = q_next_avail q) as Heq.
    { destruct (avail_idx_ok q m k Hl H64) as (i & E & Hu). assert (i = idx) as -> by congruence.
      destruct Hi as (_ & Hi & _). unfold wrap, is_uint in *. change (Z.of_nat 0) with 0 in Hn.
      apply Z.mod_divide in Hn as [z Hz]; [|lia]. nia. }
    rewrite process_queue_S, Hpop, Heq, Z.eqb_refl. exists m, calls. rewrite orb_false_r, !Z.add_0_r.
    destruct Hi as (_ & _ & Hu & Hna). rewrite !wrap_small by done. split; [by destruct q|]. split; [apply same_view_refl|done].
  - destruct (pop_spec q m k Hl Hk H64 Hi) as (idx' & Hidx' & Hr' & Hpop). assert (idx' = idx) as -> by congruence.
    rewrite process_queue_S, Hpop. destruct (Z.eqb_spec idx (q_next_avail q)) as [->|Hne].
    { exfalso. rewrite Z.sub_diag in Hn. change (wrap16 0) with 0 in Hn. lia. }
    cbn [available] in Hav. apply bind_Some in Hav as (c & Hc & Hav). apply bind_Some in Hav as (l' & Hav & [= <-]).
    rewrite Hc. apply Forall_cons in Hf as [Hfc Hf].
    pose proof (checked_new_in _ _ _ _ _ Hl (ring_entry_nonneg _ _ _ _ Hl) Hc) as Hin.
    set (q1 := set_next_avail (wrap16 (q_next_avail q + 1)) q).
    destruct (round_ok q1 m k c calls He (layout_next _ _ _ _ Hl) H64 Hr) as (q2 & m2 & w & calls2 & m1 & -> & -> & Hv & -> & Hu2);
      [by destruct Hin|exact Hfc|].
    set (q2 := set_used _ _ q1).
    apply (same_view_fields q1 q) in Hv; [|done..].
    destruct (IH q2 m2 l' true calls2) as (m' & calls' & -> & Hv2 & Hu & Hz).
    + by apply layout_used, layout_next, (view_layout q m).
    + exact H64.
    + destruct Hi as (H1 & H2 & H3 & H4). split_and!; [done|..]; by apply wrap_range.
    + exact Hr.
    + change (avail_idx q2 m2) with (avail_idx q m2). by rewrite (view_avail_idx q m m2 k).
    + cbn [q2 q1 set_used set_next_avail q_next_avail]. by apply wrap_next.
    + change (available n q2 m2 (q_next_avail q2)) with (available n (set_used (q_next_used q2) (q_num_added q2) q1) m2 (wrap16 (q_next_avail q + 1))).
      rewrite available_used. unfold q1. rewrite available_next, (view_available _ q m m2 k), <- Hav by done.
      apply (available_wrap _ _ _ k); [done|lia|]. unfold wrap. by rewrite Z.mod_mod by lia.
    + apply available_in with (k := k) in Hav; [|done]. apply Forall_forall. intros x Hx.
      rewrite Forall_forall in Hf, Hav. apply (view_fillable q m m2 k); [done|by apply Hav|done|by apply Hf].
    + exists m', calls'. cbn [q2 q1 set_used set_next_avail q_next_used q_num_added].
      assert (forall x, wrap16 (wrap16 (x + 1) + Z.of_nat n) = wrap16 (x + Z.of_nat (S n))) as Hws.
      { intros x. rewrite wrap_add_l. f_equal. lia. }
      apply (same_view_fields q2 q) in Hv2; [|done..].
      rewrite !Hws. split; [|split; [by eapply same_view_trans|split; [|done]]].
      * by rewrite orb_true_l, orb_true_r.
      * intros _. destruct n as [|n].
        -- rewrite (Hz eq_refl). exact Hu2.
        -- rewrite <- Hws. by apply Hu.
Qed.

(** ** A buffer that cannot be written *)

(** The next chain is there, and its first buffer cannot be written. *)
Definition stuck_on q m c : Prop :=
  (exists idx, avail_idx q m = Ok idx /\ idx <> q_next_avail q) /\
  checked_new m (q_desc_table q) (q_size q) (ring_entry q m (q_next_avail q)) = Some c /\
  0 <= dc_len c /\ forall bs, Z.of_nat (length bs) = dc_len c -> write_obj m (dc_addr c) bs = None.

Lemma view_stuck q m m' k c : layout q m k -> same_view q m m' -> stuck_on q m c -> stuck_on q m' c.
Proof.
  intros Hl Hv (Hidx & Hc & H0 & Hw). split; [by rewrite (view_avail_idx q m m' k)|].
  split; [by rewrite (view_ring_entry q m m' k), (view_checked_new q m m') by (done || by eapply ring_entry_nonneg)|].
  split; [done|]. intros bs Hbs. destruct (write_obj m' (dc_addr c) bs) as [m2|] eqn:E; [|done].
  destruct (written_domain m m' (dc_addr c) bs bs (sv_written _ _ _ Hv) eq_refl) as [m3 E']; [by eexists|].
  by rewrite Hw in E'.
Qed.

Lemma process_queue_stuck fuel q m k c have_used calls :
  entropy_ok -> layout q m k -> k <= 14 -> in_64_bits q -> indices_ok q -> rings_apart q ->
  stuck_on q m c -> process_queue entropy fuel q m have_used calls = Running.
Proof.
  intros He Hl Hk. revert q m have_used calls Hl. induction fuel as [|fuel IH]; intros q m have_used calls Hl H64 Hi Hr Hst; [done|].
  pose proof Hst as ((idx & Hidx & Hne) & Hc & H0 & Hw).
  destruct (pop_spec q m k Hl Hk H64 Hi) as (idx' & Hidx' & _ & Hpop). assert (idx' = idx) as -> by congruence.
  rewrite process_queue_S, Hpop, (proj2 (Z.eqb_neq _ _)), Hc by done.
  pose proof (checked_new_Some _ _ _ _ _ Hc) as (_ & _ & _ & _ & Ht). pose proof (layout_size_pos _ _ _ Hl) as Hp.
  pose proof (checked_new_in _ _ _ _ _ Hl (ring_entry_nonneg _ _ _ _ Hl) Hc) as Hin.
  destruct (Z.to_nat (dc_ttl c)) as [|n] eqn:En; [lia|]. cbn [fill_chain].
  destruct (He calls (dc_len c) H0) as (bs & -> & Hbs). rewrite Hw by done.
  assert (go_to_previous_position (set_next_avail (wrap16 (q_next_avail q + 1)) q) = q) as ->.
  { unfold go_to_previous_position, set_next_avail. cbn. rewrite wrap_sub_l, Z.add_simpl_r.
    destruct Hi as (_ & Hi & _). rewrite wrap_small by done. by destruct q. }
  destruct (add_used_step q m k (dc_index c) 0 Hl H64 (ci_index _ _ Hin)) as (q' & m' & -> & Hs).
  pose proof (used_step_view _ _ _ _ _ _ Hr Hs) as Hv. rewrite (us_queue _ _ _ _ _ _ Hs).
  apply IH; [by apply layout_used, (view_layout q m)|done| |done|by apply (view_stuck q m m' k)].
  destruct Hi as (H1 & H2 & H3 & H4). split_and!; [done|done|..]; by apply wrap_range.
Qed.
End Complete.

(** ** The properties *)

(** When the buffers of all available chains are in guest memory and apart
    from the rings, the worker returns after as many rounds as there are
    chains, without a panic: every chain was completed, the queue stands at the
    driver's index, and the published used index counts the chains. *)
Theorem rng_completes_requests {M} `{GuestMemoryLaws M} entropy (m : M) r dq rest n idx l calls :
  rng_frozen r = false -> rng_activated r = true -> rng_queues r = Some (dq :: rest) ->
  let q := dq_queue dq in
  entropy_ok entropy -> valid_layout q m = true -> q_size q <= 2 ^ 14 -> in_64_bits q -> indices_ok q -> rings_apart q ->
  avail_idx q m = Ok idx -> wrap16 (idx - q_next_avail q) = Z.of_nat n ->
  available n q m (q_next_avail q) = Some l -> Forall (fillable q m) l ->
  exists q' r' m' calls', process_req entropy (S n) r m calls = Done (negb (bool_decide (n = O)), r', m', calls') /\
    rng_queues r' = Some (mkDeviceQueue q' (dq_event dq) :: rest) /\
    q_next_avail q' = idx /\ q_next_used q' = wrap16 (q_next_used q + Z.of_nat n) /\
    (n <> O -> used_idx q m' = Some (q_next_used q')).
Proof.
  intros Hf Ha Hq q He Hv Hsz H64 Hi Hr Hidx Hn Hav Hfill. apply valid_layout_spec in Hv as [k Hl].
  assert (k <= 14) as Hk by (rewrite (ly_size _ _ _ Hl) in Hsz; apply (Z.pow_le_mono_r_iff 2) in Hsz; lia).
  destruct (process_queue_ok entropy n q m k idx l false calls He Hl Hk H64 Hi Hr Hidx Hn Hav Hfill)
    as (m' & calls' & Hp & _ & Hu & _).
  unfold process_req. rewrite Hf, Ha, Hq. cbn [negb]. fold q. rewrite Hp. eexists _, _, m', calls'. by repeat split.
Qed.

(** A chain whose buffer cannot be written is taken back and popped again:
    whatever the number of rounds, the worker is still running, and it
    completes the chain in every one of them. *)
Theorem rng_unwritable_buffer_loops {M} `{GuestMemoryLaws M} entropy (m : M) r dq rest c fuel calls :
  rng_frozen r = false -> rng_activated r = true -> rng_queues r = Some (dq :: rest) ->
  let q := dq_queue dq in
  entropy_ok entropy -> valid_layout q m = true -> q_size q <= 2 ^ 14 -> in_64_bits q -> indices_ok q -> rings_apart q ->
  stuck_on q m c -> process_req entropy fuel r m calls = Running.
Proof.
  intros Hf Ha Hq q He Hv Hsz H64 Hi Hr Hst. apply valid_layout_spec in Hv as [k Hl].
  assert (k <= 14) as Hk by (rewrite (ly_size _ _ _ Hl) in Hsz; apply (Z.pow_le_mono_r_iff 2) in Hsz; lia).
  unfold process_req. rewrite Hf, Ha, Hq. cbn [negb]. fold q. by rewrite (process_queue_stuck entropy fuel q m k c).
Qed.

(** ** Evaluation *)

Definition zeros (_ : nat) (len : Z) : option (list Z) := Some (replicate (Z.to_nat len) 0).
Lemma zeros_ok : entropy_ok zeros.
Proof. intros n len Hl. eexists. split; [done|]. rewrite length_replicate. lia. Qed.

(** One chain of two buffers, and one whose buffer is past the memory. *)
Definition rng_memory (addr : Z) : FlatMemory :=
  flat_of 4096 [(0, le_descriptor addr 16 3 1); (16, le_descriptor 2048 32 2 0); (128, [0; 0; 1; 0; 0; 0])].
Definition rng_queue : Queue := mkQueue 256 4 true 0 128 256 0 0 false 0.
Definition rng_active : Rng := mkRng (Some [mkDeviceQueue rng_queue 0]) AVAIL_FEATURES 0 0 true false.

Lemma rng_queue_ok : in_64_bits rng_queue /\ indices_ok rng_queue /\ rings_apart rng_queue.
Proof.
  split_and!; try (split; vm_compute; congruence); repeat split; try (vm_compute; congruence); right; vm_compute; congruence.
Qed.

Definition first_chain : DescriptorChain := mkChain 0 4 4 0 1024 16 3 1.
Definition second_chain : DescriptorChain := mkChain 0 4 3 1 2048 32 2 0.
Lemma rng_chain : available 1 rng_queue (rng_memory 1024) 0 = Some [first_chain] /\
  into_iter (rng_memory 1024) first_chain = Some [first_chain; second_chain].
Proof. split; vm_compute; reflexivity. Qed.

Lemma rng_completes_requests_witness :
  exists q' r' m' calls', process_req zeros 2 rng_active (rng_memory 1024) 0 = Done (true, r', m', calls') /\
    rng_queues r' = Some [mkDeviceQueue q' 0] /\ q_next_avail q' = 1 /\ q_next_used q' = 1.
Proof.
  destruct rng_queue_ok as (H1 & H2 & H3). destruct rng_chain as [Hav Hit].
  destruct (rng_completes_requests zeros (rng_memory 1024) rng_active (mkDeviceQueue rng_queue 0) [] 1 1 [first_chain] 0
      eq_refl eq_refl eq_refl zeros_ok) as (q' & r' & m' & calls' & Hp & Hq & Ha & Hu & _);
    [vm_compute; reflexivity|vm_compute; congruence|done|done|done|vm_compute; reflexivity|reflexivity|exact Hav| |].
  - constructor; [|constructor]. exists [first_chain; second_chain]. split; [exact Hit|]. split; [|vm_compute; congruence].
    repeat constructor; try (vm_compute; congruence); right; vm_compute; congruence.
  - exists q', r', m', calls'. split; [exact Hp|]. split; [exact Hq|]. split; [exact Ha|]. rewrite Hu. reflexivity.
Defined.

Definition far_chain : DescriptorChain := mkChain 0 4 4 0 8192 16 3 1.
Lemma rng_far : checked_new (rng_memory 8192) 0 4 (ring_entry rng_queue (rng_memory 8192) 0) = Some far_chain.
Proof. vm_compute. reflexivity. Qed.
Lemma rng_unwritable_buffer_loops_witness : process_req zeros 1000 rng_active (rng_memory 8192) 0 = Running.
Proof.
  destruct rng_queue_ok as (H1 & H2 & H3).
  apply (rng_unwritable_buffer_loops zeros (rng_memory 8192) rng_active (mkDeviceQueue rng_queue 0) [] far_chain);
    [reflexivity|reflexivity|reflexivity|exact zeros_ok|vm_compute; reflexivity|vm_compute; congruence|done|done|done|].
  split; [exists 1; split; [vm_compute; reflexivity|done]|]. split; [exact rng_far|]. split; [done|].
  intros bs Hbs. unfold write_obj, flat_memory, flat_write. cbn in Hbs. rewrite Hbs. reflexivity.
Defined.
