(* ===== verification/I8042.v ===== *)
(** * The keyboard controller

    [pvisor-vm/src/devices/legacy/i8042.rs]: the PS/2 controller through which a
    guest reboots and is sent key strokes. Its output buffer is a ring of
    sixteen bytes indexed by two wrapping counters; the refinement theorem shows
    that it is a queue. The two event descriptors are counters. *)
From stdpp Require Import base tactics list.
From Stdlib Require Import ZArith Lia.
From S2P Require Import Prelude Bytes Bus.
Local Open Scope Z_scope.

Inductive I8042Error := KbdInterruptDisabled | KbdInterruptFailure | InternalBufferFull.

Definition OFS_STATUS : Z := 4.
Definition OFS_DATA : Z := 0.
Definition CMD_READ_CTR : Z := 0x20.
Definition CMD_WRITE_CTR : Z := 0x60.
Definition CMD_READ_OUTP : Z := 0xD0.
Definition CMD_WRITE_OUTP : Z := 0xD1.
Definition CMD_RESET_CPU : Z := 0xFE.
Definition SB_OUT_DATA_AVAIL : Z := 1.
Definition SB_I8042_CMD_DATA : Z := 8.
Definition SB_KBD_ENABLED : Z := 16.
Definition CB_KBD_INT : Z := 1.
Definition CB_POST_OK : Z := 4.
Definition KEY_CTRL : Z := 0x14.
Definition KEY_ALT : Z := 0x11.
Definition KEY_DEL : Z := 0xE071.
Definition BUF_SIZE : Z := 16.

Record I8042Device := mkI8042 {
  reset_evt : Z;
  kbd_interrupt_evt : Z;
  k_status : Z;
  k_control : Z;
  k_outp : Z;
  k_cmd : Z;
  k_buf : list Z;
  k_bhead : Z;
  k_btail : Z
}.

Definition i8042_new (reset kbd : Z) : I8042Device :=
  mkI8042 reset kbd SB_KBD_ENABLED (Z.lor CB_POST_OK CB_KBD_INT) 0 0 (replicate 16 0) 0 0.

(** [EventFd::write(1)]. *)
Definition event_write (c : Z) : option Z := if c + 1 <=? u64_max - 1 then Some (c + 1) else None.

Definition set_kstatus (s : Z) (d : I8042Device) : I8042Device :=
  mkI8042 (reset_evt d) (kbd_interrupt_evt d) s (k_control d) (k_outp d) (k_cmd d) (k_buf d) (k_bhead d) (k_btail d).
Definition set_kbd_evt (c : Z) (d : I8042Device) : I8042Device :=
  mkI8042 (reset_evt d) c (k_status d) (k_control d) (k_outp d) (k_cmd d) (k_buf d) (k_bhead d) (k_btail d).
Definition set_reset_evt (c : Z) (d : I8042Device) : I8042Device :=
  mkI8042 c (kbd_interrupt_evt d) (k_status d) (k_control d) (k_outp d) (k_cmd d) (k_buf d) (k_bhead d) (k_btail d).
Definition set_regs (control outp cmd : Z) (d : I8042Device) : I8042Device :=
  mkI8042 (reset_evt d) (kbd_interrupt_evt d) (k_status d) control outp cmd (k_buf d) (k_bhead d) (k_btail d).
Definition set_buffer (buf : list Z) (bhead btail : Z) (d : I8042Device) : I8042Device :=
  mkI8042 (reset_evt d) (kbd_interrupt_evt d) (k_status d) (k_control d) (k_outp d) (k_cmd d) buf bhead btail.

Definition buf_len (d : I8042Device) : Z := wrap64 (k_btail d - k_bhead d).

Definition trigger_kbd_interrupt (d : I8042Device) : Result I8042Error unit * I8042Device :=
  if Z.land (k_control d) CB_KBD_INT =? 0 then (Err KbdInterruptDisabled, d)
  else match event_write (kbd_interrupt_evt d) with
  | Some c => (Ok tt, set_kbd_evt c d)
  | None => (Err KbdInterruptFailure, d)
  end.

Definition push_byte (d : I8042Device) (byte : Z) : Result I8042Error unit * I8042Device :=
  let d := set_kstatus (Z.lor (k_status d) SB_OUT_DATA_AVAIL) d in
  if buf_len d =? BUF_SIZE then (Err InternalBufferFull, d)
  else (Ok tt, set_buffer (<[Z.to_nat (k_btail d mod BUF_SIZE) := byte]> (k_buf d)) (k_bhead d) (wrap64 (k_btail d + 1)) d).

Definition pop_byte (d : I8042Device) : option Z * I8042Device :=
  if buf_len d =? 0 then (None, d)
  else
    let res := default 0 (k_buf d !! Z.to_nat (k_bhead d mod BUF_SIZE)) in
    let d := set_buffer (k_buf d) (wrap64 (k_bhead d + 1)) (k_btail d) d in
    let d := if buf_len d =? 0 then set_kstatus (clear (k_status d) SB_OUT_DATA_AVAIL) d else d in
    (Some res, d).

Definition flush_buf (d : I8042Device) : I8042Device :=
  let d := set_buffer (k_buf d) 0 0 d in set_kstatus (clear (k_status d) SB_OUT_DATA_AVAIL) d.

(** The low byte of a key and its interrupt; [?] returns with what was pushed
    before. *)
Definition push_low (d : I8042Device) (key : Z) : Result I8042Error unit * I8042Device :=
  match push_byte d (Z.land key 0xff) with
  | (Err e, d) => (Err e, d)
  | (Ok _, d) =>
      match trigger_kbd_interrupt d with
      | (Ok _, d) | (Err KbdInterruptDisabled, d) => (Ok tt, d)
      | (Err e, d) => (Err e, d)
      end
  end.

Definition trigger_key (d : I8042Device) (key : Z) : Result I8042Error unit * I8042Device :=
  if negb (Z.land key 0xff00 =? 0) then
    if BUF_SIZE - buf_len d <? 2 then (Err InternalBufferFull, d)
    else match push_byte d (wrap 8 (Z.shiftr key 8)) with
    | (Err e, d) => (Err e, d)
    | (Ok _, d) => push_low d key
    end
  else push_low d key.

Definition trigger_ctrl_alt_del (d : I8042Device) : Result I8042Error unit * I8042Device :=
  if BUF_SIZE - buf_len d <? 4 then (Err InternalBufferFull, d)
  else match trigger_key d KEY_CTRL with
  | (Err e, d) => (Err e, d)
  | (Ok _, d) =>
      match trigger_key d KEY_ALT with
      | (Err e, d) => (Err e, d)
      | (Ok _, d) => trigger_key d KEY_DEL
      end
  end.

(** [BusDevice::read]; a failure of the interrupt is logged. *)
Definition i8042_read (d : I8042Device) (offset : Z) (data : list Z) : I8042Device * list Z :=
  if negb (length data =? 1)%nat then (d, data)
  else if offset =? OFS_STATUS then (d, [k_status d])
  else if offset =? OFS_DATA then
    let '(byte, d) := pop_byte d in
    let data := [default 0 byte] in
    let d := if negb (Z.land (k_status d) SB_OUT_DATA_AVAIL =? 0) then snd (trigger_kbd_interrupt d) else d in
    (d, data)
  else (d, data).

(** [push_byte(_).unwrap()]: [None] is a panic. *)
Definition push_unwrap (d : I8042Device) (byte : Z) : option I8042Device :=
  match push_byte d byte with (Ok _, d) => Some d | (Err _, _) => None end.

(** [BusDevice::write]. *)
Definition i8042_write (d : I8042Device) (offset : Z) (data : list Z) : option I8042Device :=
  match data with
  | [b] =>
      if (offset =? OFS_STATUS) && (b =? CMD_RESET_CPU) then
        Some (match event_write (reset_evt d) with Some c => set_reset_evt c d | None => d end)
      else if (offset =? OFS_STATUS) && (b =? CMD_READ_CTR) then push_unwrap (flush_buf d) (k_control d)
      else if (offset =? OFS_STATUS) && (b =? CMD_WRITE_CTR) then
        let d := flush_buf d in
        Some (set_regs (k_control d) (k_outp d) b (set_kstatus (Z.lor (k_status d) SB_I8042_CMD_DATA) d))
      else if (offset =? OFS_STATUS) && (b =? CMD_READ_OUTP) then push_unwrap (flush_buf d) (k_outp d)
      else if (offset =? OFS_STATUS) && (b =? CMD_WRITE_OUTP) then
        Some (set_regs (k_control d) (k_outp d) b (set_kstatus (Z.lor (k_status d) SB_I8042_CMD_DATA) d))
      else if (offset =? OFS_DATA) && negb (Z.land (k_status d) SB_I8042_CMD_DATA =? 0) then
        let d := if k_cmd d =? CMD_WRITE_CTR then set_regs b (k_outp d) (k_cmd d) d
                 else if k_cmd d =? CMD_WRITE_OUTP then set_regs (k_control d) b (k_cmd d) d
                 else d in
        Some (set_kstatus (clear (k_status d) SB_I8042_CMD_DATA) d)
      else if offset =? OFS_DATA then
        d ← push_unwrap (flush_buf d) 0xFA; Some (snd (trigger_kbd_interrupt d))
      else Some d
  | _ => Some d
  end.

#[export] Instance i8042_bus_device : BusDevice I8042Device := {
  dev_read d _ offset data := Some (i8042_read d offset data);
  dev_write d _ offset data := i8042_write d offset data
}.

(** ** The buffer as a queue *)

(** The bytes between the two counters. *)
Definition contents (d : I8042Device) : list Z :=
  map (fun i => default 0 (k_buf d !! Z.to_nat ((k_bhead d + Z.of_nat i) mod BUF_SIZE))) (seq 0 (Z.to_nat (buf_len d))).

Record buffer_ok (d : I8042Device) : Prop := {
  bo_size : length (k_buf d) = 16%nat;
  bo_len : buf_len d <= 16;
  bo_head : is_u64 (k_bhead d);
  bo_tail : is_u64 (k_btail d);
  bo_status : Z.testbit (k_status d) 0 = negb (buf_len d =? 0)
}.

Lemma buf_len_nonneg d : 0 <= buf_len d.
Proof. apply wrap_range. lia. Qed.

Lemma contents_length d : Z.of_nat (length (contents d)) = buf_len d.
Proof. unfold contents. rewrite length_map, length_seq. pose proof (buf_len_nonneg d). lia. Qed.

Lemma mod_wrap x : wrap64 x mod 16 = x mod 16.
Proof. apply (wrap_mod_pow2 64 4). lia. Qed.

Lemma tail_mod d : k_btail d mod 16 = (k_bhead d + buf_len d) mod 16.
Proof.
  unfold buf_len. rewrite <- (mod_wrap (k_bhead d + _)), wrap_add_r.
  replace (k_bhead d + (k_btail d - k_bhead d)) with (k_btail d) by lia. by rewrite mod_wrap.
Qed.

(** Different places of a full window are different slots. *)
Lemma slots_differ h i j : 0 <= i < 16 -> 0 <= j < 16 -> i <> j -> (h + i) mod 16 <> (h + j) mod 16.
Proof.
  intros Hi Hj Hij Heq. assert ((i - j) mod 16 = 0) as Hz.
  { replace (i - j) with ((h + i) - (h + j)) by lia. rewrite Zminus_mod, Heq, Z.sub_diag. done. }
  apply Z.mod_divide in Hz as [z Hz]; [|lia]. nia.
Qed.

Lemma status_bit s : Z.testbit (Z.lor s SB_OUT_DATA_AVAIL) 0 = true /\ Z.testbit (clear s SB_OUT_DATA_AVAIL) 0 = false.
Proof. unfold clear. rewrite Z.lor_spec, Z.ldiff_spec. split; [by rewrite orb_true_r|by rewrite andb_false_r]. Qed.

(** Pushing appends, unless the queue is full. *)
Lemma push_byte_spec d byte : buffer_ok d ->
  (buf_len d = 16 /\ push_byte d byte = (Err InternalBufferFull, set_kstatus (Z.lor (k_status d) SB_OUT_DATA_AVAIL) d) /\
   buffer_ok (push_byte d byte).2) \/
  (buf_len d < 16 /\ exists d', push_byte d byte = (Ok tt, d') /\ buffer_ok d' /\ contents d' = contents d ++ [byte] /\
    k_control d' = k_control d /\ k_outp d' = k_outp d /\ k_cmd d' = k_cmd d).
Proof.
  intros [Hs Hl Hh Ht Hst]. unfold push_byte. change (buf_len (set_kstatus _ d)) with (buf_len d).
  pose proof (buf_len_nonneg d) as H0. destruct (status_bit (k_status d)) as [Hb _].
  unfold BUF_SIZE. destruct (Z.eqb_spec (buf_len d) 16) as [E|E].
  - left. split; [done|]. split; [done|]. split; [done|exact Hl|done|done|].
    cbn [snd set_kstatus k_status]. change (buf_len _) with (buf_len d). by rewrite Hb, E.
  - right. split; [lia|]. eexists. split; [done|].
    match goal with |- buffer_ok ?x /\ _ => assert (buf_len x = buf_len d + 1) as El end.
    { unfold buf_len. cbn. rewrite wrap_sub_l. replace (k_btail d + 1 - k_bhead d) with ((k_btail d - k_bhead d) + 1) by lia.
      rewrite <- wrap_add_l. apply wrap_small. fold (buf_len d). unfold is_uint. lia. }
    split; [|split; [|done]].
    + split; [cbn; by rewrite length_insert|rewrite El; lia|done|by apply wrap_range|].
      rewrite El. cbn [set_buffer set_kstatus k_status]. rewrite Hb. symmetry. apply negb_true_iff, Z.eqb_neq. lia.
    + unfold contents, BUF_SIZE. rewrite El. cbn [set_buffer set_kstatus k_buf k_bhead]. replace (Z.to_nat (buf_len d + 1)) with (S (Z.to_nat (buf_len d))) by lia.
      rewrite seq_S, map_app. cbn [map]. f_equal.
      * apply map_ext_in. intros i Hi. apply in_seq in Hi. apply (f_equal (default 0)). symmetry. rewrite list_lookup_insert_ne; [done|].
        cbn [set_kstatus k_btail]. rewrite tail_mod. intros Heq. apply (Z2Nat.inj) in Heq; [|apply Z.mod_pos_bound; lia..].
        apply (slots_differ (k_bhead d) (buf_len d) (Z.of_nat i)) in Heq; [done|lia..].
      * f_equal. rewrite Nat.add_0_l, Z2Nat.id by lia. unfold BUF_SIZE. rewrite tail_mod, list_lookup_insert_eq; [done|].
        rewrite Hs. pose proof (Z.mod_pos_bound (k_bhead d + buf_len d) 16 ltac:(lia)).
        change (Z.to_nat ((k_bhead d + buf_len d) mod 16) < 16)%nat. lia.
Qed.

(** Popping takes the oldest byte. *)
Lemma pop_byte_spec d : buffer_ok d ->
  exists d', buffer_ok d' /\ k_control d' = k_control d /\ k_outp d' = k_outp d /\ k_cmd d' = k_cmd d /\
    match contents d with
    | [] => pop_byte d = (None, d) /\ d' = d
    | b :: rest => pop_byte d = (Some b, d') /\ contents d' = rest
    end.
Proof.
  intros Hok. pose proof Hok as [Hs Hl Hh Ht Hst]. pose proof (buf_len_nonneg d) as H0. pose proof (contents_length d) as Hc.
  unfold pop_byte. destruct (Z.eqb_spec (buf_len d) 0) as [E|E].
  - exists d. destruct (contents d) as [|b rest]; [done|]. cbn in Hc. lia.
  - set (d1 := set_buffer (k_buf d) (wrap64 (k_bhead d + 1)) (k_btail d) d).
    assert (buf_len d1 = buf_len d - 1) as El.
    { unfold buf_len. cbn. rewrite wrap_sub_r. replace (k_btail d - (k_bhead d + 1)) with ((k_btail d - k_bhead d) - 1) by lia.
      rewrite <- wrap_sub_l. apply wrap_small. fold (buf_len d). unfold is_uint. lia. }
    assert (contents d = default 0 (k_buf d !! Z.to_nat (k_bhead d mod BUF_SIZE)) :: contents d1) as Ec.
    { unfold contents. rewrite El. replace (Z.to_nat (buf_len d)) with (S (Z.to_nat (buf_len d - 1))) by lia.
      cbn [seq map]. rewrite Z.add_0_r. f_equal. rewrite <- seq_shift, map_map. apply map_ext. intros i.
      cbn [d1 set_buffer k_buf k_bhead]. do 3 f_equal. unfold BUF_SIZE.
      rewrite <- (mod_wrap (wrap64 _ + _)), wrap_add_l, mod_wrap. f_equal. lia. }
    exists (if buf_len d1 =? 0 then set_kstatus (clear (k_status d1) SB_OUT_DATA_AVAIL) d1 else d1).
    rewrite Ec, El. destruct (status_bit (k_status d1)) as [_ Hb].
    destruct (Z.eqb_spec (buf_len d - 1) 0) as [E1|E1]; (split; [|done]).
    + split; [done|change (buf_len d1 <= 16); lia|by apply wrap_range|done|].
      cbn [set_kstatus k_status]. rewrite Hb. change (buf_len _) with (buf_len d1). by rewrite El, E1.
    + split; [done|lia|by apply wrap_range|done|].
      change (k_status d1) with (k_status d). rewrite Hst, El. by rewrite !(proj2 (Z.eqb_neq _ _)).
Qed.

Lemma flush_buf_ok d : buffer_ok d -> buffer_ok (flush_buf d) /\ contents (flush_buf d) = [].
Proof.
  intros [Hs Hl Hh Ht Hst]. split; [|done]. split; try done. apply (status_bit (k_status d)).
Qed.

(** After a flush a push succeeds and the byte is the only one. *)
Lemma push_unwrap_flushed d byte : buffer_ok d ->
  exists d', push_unwrap (flush_buf d) byte = Some d' /\ buffer_ok d' /\ contents d' = [byte] /\
    k_control d' = k_control d /\ k_outp d' = k_outp d /\ k_cmd d' = k_cmd d.
Proof.
  intros Hok. destruct (flush_buf_ok d Hok) as [Hok' Hc]. unfold push_unwrap.
  destruct (push_byte_spec (flush_buf d) byte Hok') as [(E & _)|(_ & d' & -> & Hd & Hcd & Hr)].
  - pose proof (contents_length (flush_buf d)) as Hl. rewrite Hc in Hl. cbn in Hl. lia.
  - exists d'. rewrite Hcd, Hc. done.
Qed.

Lemma trigger_ok d : buffer_ok d -> buffer_ok (trigger_kbd_interrupt d).2 /\ contents (trigger_kbd_interrupt d).2 = contents d.
Proof. intros [Hs Hl Hh Ht Hst]. unfold trigger_kbd_interrupt. repeat case_match; done. Qed.

(** Other status bits leave the buffer alone. *)
Lemma cmd_data_ok d s : buffer_ok d -> Z.testbit s 0 = Z.testbit (k_status d) 0 -> buffer_ok (set_kstatus s d).
Proof. intros [Hs Hl Hh Ht Hst] E. split; try done. cbn [set_kstatus k_status]. by rewrite E. Qed.
Lemma cmd_data_bits s : Z.testbit (Z.lor s SB_I8042_CMD_DATA) 0 = Z.testbit s 0 /\ Z.testbit (clear s SB_I8042_CMD_DATA) 0 = Z.testbit s 0.
Proof. unfold clear. rewrite Z.lor_spec, Z.ldiff_spec. split; [by rewrite orb_false_r|by rewrite andb_true_r]. Qed.

Lemma set_regs_ok c o m d : buffer_ok d -> buffer_ok (set_regs c o m d).
Proof. by intros []. Qed.


(** ** Histories *)

Inductive step : I8042Device -> I8042Device -> Prop :=
| step_read d offset data : step d (i8042_read d offset data).1
| step_write d offset data d' : i8042_write d offset data = Some d' -> step d d'
| step_key d key : step d (trigger_key d key).2
| step_ctrl_alt_del d : step d (trigger_ctrl_alt_del d).2.

Inductive reachable : I8042Device -> Prop :=
| reachable_new reset kbd : reachable (i8042_new reset kbd)
| reachable_step d d' : reachable d -> step d d' -> reachable d'.

(** The bytes of a key. *)
Definition key_bytes (key : Z) : list Z :=
  if Z.land key 0xff00 =? 0 then [Z.land key 0xff] else [wrap 8 (Z.shiftr key 8); Z.land key 0xff].

Lemma push_low_spec d key : buffer_ok d -> let '(r, d') := push_low d key in buffer_ok d' /\
  ((contents d' = contents d ++ [Z.land key 0xff] /\ r <> Err InternalBufferFull) \/
   (contents d' = contents d /\ r = Err InternalBufferFull /\ buf_len d = 16)).
Proof.
  intros Hok. unfold push_low. destruct (push_byte_spec d (Z.land key 0xff) Hok) as [(E & Ep & Hd)|(E & d1 & -> & Hd & Hc & _)].
  - rewrite Ep in *. split; [exact Hd|]. right. done.
  - pose proof (trigger_ok d1 Hd) as [H1 H2]. destruct (trigger_kbd_interrupt d1) as [[u|[]] d2] eqn:Et; cbn in H1, H2;
      (split; [done|]); left; rewrite H2, Hc; (split; [done|]); try done.
    unfold trigger_kbd_interrupt in Et. repeat case_match; done.
Qed.

Lemma trigger_key_spec d key : buffer_ok d -> let '(r, d') := trigger_key d key in buffer_ok d' /\
  ((contents d' = contents d ++ key_bytes key /\ r <> Err InternalBufferFull) \/
   (contents d' = contents d /\ r = Err InternalBufferFull /\ (16 < length (contents d ++ key_bytes key))%nat)).
Proof.
  intros Hok. unfold trigger_key. pose proof (contents_length d) as Hl. unfold key_bytes. destruct (Z.land key 65280 =? 0); cbn [negb].
  - pose proof (push_low_spec d key Hok) as Hlow. destruct (push_low d key) as [r d'].
    destruct Hlow as [H1 [H2|(H2 & H3 & H4)]]; (split; [done|]); [by left|]. right. split_and!; [done|done|].
    rewrite length_app. cbn [length]. lia.
  - unfold BUF_SIZE. destruct (Z.ltb_spec (16 - buf_len d) 2).
    + split; [done|]. right. split_and!; [done|done|]. rewrite length_app. cbn [length]. lia.
    + destruct (push_byte_spec d (wrap 8 (Z.shiftr key 8)) Hok) as [(E & _)|(E & d1 & -> & Hd & Hc & _)]; [lia|].
      pose proof (push_low_spec d1 key Hd) as Hlow. destruct (push_low d1 key) as [r d'].
      destruct Hlow as [H1 [[H2 H3]|(H2 & H3 & H4)]]; (split; [done|]); [left|].
      * rewrite H2, Hc, <- app_assoc. done.
      * pose proof (contents_length d1) as Hl1. rewrite Hc, length_app in Hl1. cbn [length] in Hl1. lia.
Qed.

Lemma key_ok d key : buffer_ok d -> buffer_ok (trigger_key d key).2.
Proof. intros Hok. pose proof (trigger_key_spec d key Hok) as H. destruct (trigger_key d key). apply H. Qed.

Lemma ctrl_alt_del_ok d : buffer_ok d -> buffer_ok (trigger_ctrl_alt_del d).2.
Proof.
  intros Hok. unfold trigger_ctrl_alt_del. case_match; [done|].
  pose proof (key_ok d KEY_CTRL Hok) as H1. destruct (trigger_key d KEY_CTRL) as [[]  d1]; [|done].
  pose proof (key_ok d1 KEY_ALT H1) as H2. destruct (trigger_key d1 KEY_ALT) as [[] d2]; [|done]. by apply key_ok.
Qed.

Lemma pop_ok d : buffer_ok d -> exists d', pop_byte d = (head (contents d), d') /\ buffer_ok d' /\ contents d' = tail (contents d).
Proof.
  intros Hok. destruct (pop_byte_spec d Hok) as (d' & Hd & _ & _ & _ & Hp).
  destruct (contents d) as [|b rest] eqn:Ec; destruct Hp as [-> Hp]; [exists d|exists d']; (split; [done|]); [by subst|done].
Qed.

Lemma read_ok d offset data : buffer_ok d -> buffer_ok (i8042_read d offset data).1.
Proof.
  intros Hok. unfold i8042_read. destruct (pop_ok d Hok) as (d' & -> & Hd & _). repeat (case_match; try done).
  cbn. by apply trigger_ok.
Qed.

Lemma write_ok d offset data : buffer_ok d -> exists d', i8042_write d offset data = Some d' /\ buffer_ok d'.
Proof.
  intros Hok. unfold i8042_write. destruct data as [|b [|]]; [by eexists| |by eexists].
  destruct (cmd_data_bits (k_status d)) as [B1 B2].
  destruct (_ && (b =? CMD_RESET_CPU)).
  { eexists. split; [done|]. case_match; [|done]. by destruct Hok. }
  destruct (_ && (b =? CMD_READ_CTR)).
  { destruct (push_unwrap_flushed d (k_control d) Hok) as (d' & -> & Hd & _). by eexists. }
  destruct (_ && (b =? CMD_WRITE_CTR)).
  { eexists. split; [done|]. apply set_regs_ok, cmd_data_ok; [by apply flush_buf_ok|apply cmd_data_bits]. }
  destruct (_ && (b =? CMD_READ_OUTP)).
  { destruct (push_unwrap_flushed d (k_outp d) Hok) as (d' & -> & Hd & _). by eexists. }
  destruct (_ && (b =? CMD_WRITE_OUTP)).
  { eexists. split; [done|]. by apply set_regs_ok, cmd_data_ok. }
  destruct (_ && negb _).
  { eexists. split; [done|]. repeat case_match; (apply cmd_data_ok; [try apply set_regs_ok; done|done]). }
  destruct (offset =? OFS_DATA); [|by eexists].
  destruct (push_unwrap_flushed d 0xFA Hok) as (d' & -> & Hd & _). eexists. split; [done|]. by apply trigger_ok.
Qed.

Lemma reachable_buffer_ok d : reachable d -> buffer_ok d.
Proof.
  induction 1 as [reset kbd|d d' _ IH Hs]; [by split|]. destruct Hs as [d offset data|d offset data d' E|d key|d].
  - by apply read_ok.
  - destruct (write_ok d offset data IH) as (d1 & E1 & Hd). congruence.
  - by apply key_ok.
  - by apply ctrl_alt_del_ok.
Qed.

(** ** The properties *)

(** In every history of port accesses and key strokes the ring buffer is a
    queue of at most sixteen bytes: a key is queued as a whole or, when it does
    not fit, not at all; reading the data port yields the oldest byte and
    removes it; the status port reports data exactly when there is some; and
    no port write panics. *)
Theorem i8042_buffer_is_queue d : reachable d ->
  (length (contents d) <= 16)%nat /\
  (forall key, let '(r, d') := trigger_key d key in
     if (length (contents d ++ key_bytes key) <=? 16)%nat then contents d' = contents d ++ key_bytes key
     else r = Err InternalBufferFull /\ contents d' = contents d) /\
  (forall x, let '(d', data) := i8042_read d OFS_DATA [x] in
     data = [default 0 (head (contents d))] /\ contents d' = tail (contents d)) /\
  (forall x, (i8042_read d OFS_STATUS [x]).2 = [k_status d] /\
     (Z.testbit (k_status d) 0 = true <-> contents d <> [])) /\
  (forall offset data, exists d', i8042_write d offset data = Some d').
Proof.
  intros Hok%reachable_buffer_ok. pose proof (contents_length d) as Hl. pose proof (bo_len _ Hok) as Hmax. split_and!.
  - lia.
  - intros key. pose proof (trigger_key_spec d key Hok) as Hk. destruct (trigger_key d key) as [r d'].
    destruct Hk as [Hd [[H1 H2]|(H1 & H2 & H3)]].
    + pose proof (bo_len _ Hd) as Hm. pose proof (contents_length d') as Hl'. rewrite H1 in Hl'.
      rewrite (proj2 (Nat.leb_le _ _)) by lia. done.
    + by rewrite (proj2 (Nat.leb_gt _ _)).
  - intros x. destruct (pop_ok d Hok) as (d1 & E1 & Ho & E2).
    unfold i8042_read. cbn [length Nat.eqb negb]. change (OFS_DATA =? OFS_STATUS) with false. change (OFS_DATA =? OFS_DATA) with true.
    cbn iota. rewrite E1. split; [done|]. case_match; [|done]. by rewrite (proj2 (trigger_ok d1 Ho)).
  - intros x. split; [done|]. rewrite (bo_status _ Hok), negb_true_iff, Z.eqb_neq, <- Hl.
    destruct (contents d); cbn [length]; [done|]. split; [done|lia].
  - intros offset data. destruct (write_ok d offset data Hok) as (d' & -> & _). by eexists.
Qed.

(** Port accesses that write a register through a two-step command and read it
    back with another. *)
Definition write_then_read (d : I8042Device) (wcmd rcmd v : Z) : option (list Z) :=
  d ← i8042_write d OFS_STATUS [wcmd]; d ← i8042_write d OFS_DATA [v]; d ← i8042_write d OFS_STATUS [rcmd];
  Some (i8042_read d OFS_DATA [0]).2.

Lemma read_back d v : buffer_ok d -> exists d', push_unwrap (flush_buf d) v = Some d' /\ (i8042_read d' OFS_DATA [0]).2 = [v].
Proof.
  intros Hok. destruct (push_unwrap_flushed d v Hok) as (d' & E & Hd & Hc & _). exists d'. split; [done|].
  destruct (pop_byte_spec d' Hd) as (d2 & _ & _ & _ & _ & Hp). rewrite Hc in Hp. destruct Hp as [Hp _].
  unfold i8042_read. cbn [length Nat.eqb negb]. change (OFS_DATA =? OFS_STATUS) with false. change (OFS_DATA =? OFS_DATA) with true.
  cbn iota. by rewrite Hp.
Qed.

Lemma cmd_pending s : negb (Z.land (Z.lor s SB_I8042_CMD_DATA) SB_I8042_CMD_DATA =? 0) = true.
Proof.
  apply negb_true_iff, Z.eqb_neq. intros E. apply (f_equal (fun x => Z.testbit x 3)) in E.
  rewrite Z.land_spec, Z.lor_spec, Z.bits_0 in E. cbn in E. by rewrite orb_true_r in E.
Qed.

(** The control register and the output port read back the value last
    written through the command sequences, whatever happened before. *)
Theorem i8042_registers_read_back d v : reachable d ->
  write_then_read d CMD_WRITE_CTR CMD_READ_CTR v = Some [v] /\
  write_then_read d CMD_WRITE_OUTP CMD_READ_OUTP v = Some [v].
Proof.
  intros Hok%reachable_buffer_ok. split; unfold write_then_read.
  - destruct (write_ok d OFS_STATUS [CMD_WRITE_CTR] Hok) as (d1 & E1 & H1). rewrite E1. cbn [mbind option_bind].
    destruct (write_ok d1 OFS_DATA [v] H1) as (d2 & E2 & H2). rewrite E2. cbn [mbind option_bind].
    unfold i8042_write in E1. cbn in E1. injection E1 as <-. unfold i8042_write in E2.
    cbn [k_status set_regs set_kstatus] in E2. rewrite cmd_pending in E2. cbn in E2. injection E2 as <-.
    destruct (read_back _ v H2) as (d3 & E3 & Hr). unfold i8042_write. cbn [Z.eqb Pos.eqb andb OFS_STATUS CMD_READ_CTR CMD_RESET_CPU].
    cbn [k_control set_regs set_kstatus]. rewrite E3. cbn [mbind option_bind]. by rewrite Hr.
  - destruct (write_ok d OFS_STATUS [CMD_WRITE_OUTP] Hok) as (d1 & E1 & H1). rewrite E1. cbn [mbind option_bind].
    destruct (write_ok d1 OFS_DATA [v] H1) as (d2 & E2 & H2). rewrite E2. cbn [mbind option_bind].
    unfold i8042_write in E1. cbn in E1. injection E1 as <-. unfold i8042_write in E2.
    cbn [k_status set_regs set_kstatus] in E2. rewrite cmd_pending in E2. cbn in E2. injection E2 as <-.
    destruct (read_back _ v H2) as (d3 & E3 & Hr). unfold i8042_write. cbn [Z.eqb Pos.eqb andb OFS_STATUS CMD_READ_OUTP CMD_RESET_CPU CMD_READ_CTR CMD_WRITE_CTR].
    cbn [k_outp set_regs set_kstatus]. rewrite E3. cbn [mbind option_bind]. by rewrite Hr.
Qed.

Definition i8042_start : I8042Device := i8042_new 0 0.
Lemma i8042_buffer_is_queue_witness :
  reachable i8042_start /\ contents (trigger_key i8042_start KEY_DEL).2 = [0xE0; 0x71].
Proof.
  assert (reachable i8042_start) as Hr by constructor. split; [exact Hr|].
  destruct (i8042_buffer_is_queue i8042_start Hr) as (_ & Hk & _). exact (Hk KEY_DEL).
Defined.
Lemma i8042_registers_read_back_witness : write_then_read i8042_start CMD_WRITE_CTR CMD_READ_CTR 0x52 = Some [0x52].
Proof. apply (i8042_registers_read_back i8042_start 0x52). constructor. Defined.
