(* ===== verification/Serial.v ===== *)
(** * The serial port

    [pvisor-vm/src/devices/legacy/serial_16550.rs]: a 16550 UART. The guest's
    output is a list of the bytes written to the host, whose outcome is an
    argument; the interrupt event is a counter (the RISC-V controller is not
    modelled). *)
From stdpp Require Import base tactics list.
From Stdlib Require Import ZArith Lia.
From S2P Require Import Prelude Bytes Bus I8042.
Local Open Scope Z_scope.

Definition LOOP_SIZE : nat := 64.
Definition DATA : Z := 0.
Definition IER : Z := 1.
Definition IIR : Z := 2.
Definition LCR : Z := 3.
Definition MCR : Z := 4.
Definition LSR : Z := 5.
Definition MSR : Z := 6.
Definition SCR : Z := 7.
Definition DLAB_LOW : Z := 0.
Definition DLAB_HIGH : Z := 1.
Definition IER_RECV_BIT : Z := 1.
Definition IER_THR_BIT : Z := 2.
Definition IER_FIFO_BITS : Z := 15.
Definition IIR_FIFO_BITS : Z := 192.
Definition IIR_NONE_BIT : Z := 1.
Definition IIR_THR_BIT : Z := 2.
Definition IIR_RECV_BIT : Z := 4.
Definition LCR_DLAB_BIT : Z := 128.
Definition LSR_DATA_BIT : Z := 1.
Definition LSR_EMPTY_BIT : Z := 32.
Definition LSR_IDLE_BIT : Z := 64.
Definition MCR_LOOP_BIT : Z := 16.

(** The errors of [io::Result]. *)
Inductive IoError := WriteError | FlushError | InterruptError.

Record Serial := mkSerial {
  interrupt_enable : Z;
  interrupt_identification : Z;
  interrupt_evt : Z;
  line_control : Z;
  line_status : Z;
  modem_control : Z;
  modem_status : Z;
  scratch : Z;
  baud_divisor : Z;
  in_buffer : list Z;
  out : option (list Z)
}.

Definition serial_new (evt : Z) (out : option (list Z)) : Serial :=
  mkSerial 0 IIR_NONE_BIT evt 3 (Z.lor LSR_EMPTY_BIT LSR_IDLE_BIT) 8 (Z.lor (Z.lor 32 16) 128) 0 12 [] out.

(** The fields an access changes. *)
Definition set_intr (iir evt : Z) (s : Serial) : Serial :=
  mkSerial (interrupt_enable s) iir evt (line_control s) (line_status s) (modem_control s) (modem_status s)
    (scratch s) (baud_divisor s) (in_buffer s) (out s).
Definition set_line_status (v : Z) (s : Serial) : Serial :=
  mkSerial (interrupt_enable s) (interrupt_identification s) (interrupt_evt s) (line_control s) v (modem_control s)
    (modem_status s) (scratch s) (baud_divisor s) (in_buffer s) (out s).
Definition set_in_buffer (b : list Z) (s : Serial) : Serial :=
  mkSerial (interrupt_enable s) (interrupt_identification s) (interrupt_evt s) (line_control s) (line_status s)
    (modem_control s) (modem_status s) (scratch s) (baud_divisor s) b (out s).
Definition set_out (o : option (list Z)) (s : Serial) : Serial :=
  mkSerial (interrupt_enable s) (interrupt_identification s) (interrupt_evt s) (line_control s) (line_status s)
    (modem_control s) (modem_status s) (scratch s) (baud_divisor s) (in_buffer s) o.
Definition set_config (ier lcr mcr scr baud : Z) (s : Serial) : Serial :=
  mkSerial ier (interrupt_identification s) (interrupt_evt s) lcr (line_status s) mcr (modem_status s) scr baud
    (in_buffer s) (out s).

Definition is_dlab_set (s : Serial) : bool := has (line_control s) LCR_DLAB_BIT.
Definition is_recv_intr_enabled (s : Serial) : bool := has (interrupt_enable s) IER_RECV_BIT.
Definition is_thr_intr_enabled (s : Serial) : bool := has (interrupt_enable s) IER_THR_BIT.
Definition is_loop (s : Serial) : bool := has (modem_control s) MCR_LOOP_BIT.

Definition add_intr_bit (bit : Z) (s : Serial) : Serial :=
  set_intr (Z.lor (clear (interrupt_identification s) IIR_NONE_BIT) bit) (interrupt_evt s) s.
Definition del_intr_bit (bit : Z) (s : Serial) : Serial :=
  let iir := clear (interrupt_identification s) bit in
  set_intr (if iir =? 0 then IIR_NONE_BIT else iir) (interrupt_evt s) s.
Definition iir_reset (s : Serial) : Serial := set_intr IIR_NONE_BIT (interrupt_evt s) s.

Definition trigger_interrupt (s : Serial) : Result IoError unit * Serial :=
  match event_write (interrupt_evt s) with
  | Some c => (Ok tt, set_intr (interrupt_identification s) c s)
  | None => (Err InterruptError, s)
  end.

Definition thr_empty (s : Serial) : Result IoError unit * Serial :=
  if is_thr_intr_enabled s then trigger_interrupt (add_intr_bit IIR_THR_BIT s) else (Ok tt, s).

Definition recv_data (s : Serial) : Result IoError unit * Serial :=
  let '(r, s) := if is_recv_intr_enabled s then trigger_interrupt (add_intr_bit IIR_RECV_BIT s) else (Ok tt, s) in
  match r with
  | Ok _ => (Ok tt, set_line_status (Z.lor (line_status s) LSR_DATA_BIT) s)
  | Err e => (Err e, s)
  end.

(** [handle_write]; [host] is the outcome of writing and flushing the byte. *)
Definition handle_write (s : Serial) (offset value : Z) (host : Result IoError unit) : Result IoError unit * Serial :=
  let config ier lcr mcr scr baud := (Ok tt, set_config ier lcr mcr scr baud s) in
  let ier := interrupt_enable s in let lcr := line_control s in let mcr := modem_control s in
  let scr := scratch s in let baud := baud_divisor s in
  if (offset =? DLAB_LOW) && is_dlab_set s then config ier lcr mcr scr (Z.lor (Z.land baud 0xff00) value)
  else if (offset =? DLAB_HIGH) && is_dlab_set s then config ier lcr mcr scr (Z.lor (Z.land baud 0x00ff) (Z.shiftl value 8))
  else if offset =? DATA then
    if is_loop s then
      if (length (in_buffer s) <? LOOP_SIZE)%nat then recv_data (set_in_buffer (in_buffer s ++ [value]) s) else (Ok tt, s)
    else match out s with
    | Some o =>
        match host with
        | Ok _ => thr_empty (set_out (Some (o ++ [value])) s)
        | Err FlushError => (Err FlushError, set_out (Some (o ++ [value])) s)
        | Err e => (Err e, s)
        end
    | None => thr_empty s
    end
  else if offset =? IER then config (Z.land value IER_FIFO_BITS) lcr mcr scr baud
  else if offset =? LCR then config ier value mcr scr baud
  else if offset =? MCR then config ier lcr value scr baud
  else if offset =? SCR then config ier lcr mcr value baud
  else (Ok tt, s).

Definition handle_read (s : Serial) (offset : Z) : Z * Serial :=
  if (offset =? DLAB_LOW) && is_dlab_set s then (wrap 8 (baud_divisor s), s)
  else if (offset =? DLAB_HIGH) && is_dlab_set s then (wrap 8 (Z.shiftr (baud_divisor s) 8), s)
  else if offset =? DATA then
    let s := del_intr_bit IIR_RECV_BIT s in
    let s := if (length (in_buffer s) <=? 1)%nat then set_line_status (clear (line_status s) LSR_DATA_BIT) s else s in
    (default 0 (head (in_buffer s)), set_in_buffer (tail (in_buffer s)) s)
  else if offset =? IER then (interrupt_enable s, s)
  else if offset =? IIR then (Z.lor (interrupt_identification s) IIR_FIFO_BITS, iir_reset s)
  else if offset =? LCR then (line_control s, s)
  else if offset =? MCR then (modem_control s, s)
  else if offset =? LSR then (line_status s, s)
  else if offset =? MSR then (modem_status s, s)
  else if offset =? SCR then (scratch s, s)
  else (0, s).

Definition raw_input (s : Serial) (data : list Z) : Result IoError unit * Serial :=
  if negb (is_loop s) then recv_data (set_in_buffer (in_buffer s ++ data) s) else (Ok tt, s).

(** [BusDevice::read] and [write]; the offset is truncated to a byte. *)
Definition serial_read (s : Serial) (offset : Z) (data : list Z) : Serial * list Z :=
  if negb (length data =? 1)%nat then (s, data)
  else let '(v, s) := handle_read s (wrap 8 offset) in (s, [v]).
Definition serial_write (s : Serial) (offset : Z) (data : list Z) (host : Result IoError unit) : Serial :=
  match data with [v] => snd (handle_write s (wrap 8 offset) v host) | _ => s end.

(** [process] of an input event, once the descriptor was read. *)
Definition serial_process (s : Serial) (count : nat) (buf : list Z) : Serial := snd (raw_input s (take count buf)).

(** ** Invariants *)

(** The identification register names the pending interrupts, or none. *)
Definition iir_ok (v : Z) : Prop := v = 1 \/ v = 2 \/ v = 4 \/ v = 6.

Record serial_ok (s : Serial) : Prop := {
  so_iir : iir_ok (interrupt_identification s);
  so_ier : is_uint 4 (interrupt_enable s)
}.

Lemma add_bit_ok s bit : bit = 2 \/ bit = 4 -> serial_ok s -> serial_ok (add_intr_bit bit s).
Proof. intros Hb [[E|[E|[E|E]]] He]; split; try done; cbn; rewrite E; destruct Hb as [-> | ->]; vm_compute; auto. Qed.
Lemma del_bit_ok s bit : bit = 2 \/ bit = 4 -> serial_ok s -> serial_ok (del_intr_bit bit s).
Proof. intros Hb [[E|[E|[E|E]]] He]; split; try done; cbn; rewrite E; destruct Hb as [-> | ->]; vm_compute; auto. Qed.

Lemma trigger_serial_ok s : serial_ok s -> serial_ok (trigger_interrupt s).2.
Proof. intros [H1 H2]. unfold trigger_interrupt. by case_match. Qed.

Lemma recv_data_ok s : serial_ok s -> serial_ok (recv_data s).2.
Proof.
  intros Hok. unfold recv_data.
  assert (serial_ok (if is_recv_intr_enabled s then trigger_interrupt (add_intr_bit IIR_RECV_BIT s) else (Ok tt, s)).2) as H.
  { case_match; [|done]. apply trigger_serial_ok, add_bit_ok; [by right|done]. }
  destruct (if is_recv_intr_enabled s then _ else _) as [[] s']; cbn in *; by destruct H.
Qed.

Lemma thr_empty_ok s : serial_ok s -> serial_ok (thr_empty s).2.
Proof. intros Hok. unfold thr_empty. case_match; [|done]. apply trigger_serial_ok, add_bit_ok; [by left|done]. Qed.

Lemma handle_write_ok s offset value host : serial_ok s -> serial_ok (handle_write s offset value host).2.
Proof.
  intros Hok. unfold handle_write. repeat (case_match; cbn [snd]; try done); try (by destruct Hok);
    try (by apply recv_data_ok; destruct Hok); try (by apply thr_empty_ok; destruct Hok).
  destruct Hok as [Hi He]. split; [done|]. cbn [set_config interrupt_enable]. rewrite Z.land_comm. apply land_uint; [lia|].
  unfold is_uint, IER_FIFO_BITS. lia.
Qed.

Lemma handle_read_ok s offset : serial_ok s -> serial_ok (handle_read s offset).2.
Proof.
  intros Hok. unfold handle_read. repeat (case_match; cbn [snd]; try done).
  - pose proof (del_bit_ok s IIR_RECV_BIT ltac:(by right) Hok) as [Hi He]. by split.
  - pose proof (del_bit_ok s IIR_RECV_BIT ltac:(by right) Hok) as [Hi He]. by split.
  - destruct Hok as [Hi He]. split; [by left|done].
Qed.

(** ** Histories *)

(** Accesses of the guest, and input from the host that is not empty. *)
Inductive step : Serial -> Serial -> Prop :=
| step_read s offset data : step s (serial_read s offset data).1
| step_write s offset data host : step s (serial_write s offset data host)
| step_input s count buf : take count buf <> [] -> step s (serial_process s count buf).

(** The event counter of the interrupt has room. *)
Definition has_room (s : Serial) : Prop := interrupt_evt s + 1 <= u64_max - 1.

Inductive reachable : Serial -> Prop :=
| reachable_new evt out : reachable (serial_new evt out)
| reachable_step s s' : reachable s -> has_room s -> step s s' -> reachable s'.

Definition data_bit (s : Serial) : bool := Z.testbit (line_status s) 0.
Definition data_ok (s : Serial) : Prop := data_bit s = negb (bool_decide (in_buffer s = [])).

Lemma data_bits x : Z.testbit (Z.lor x LSR_DATA_BIT) 0 = true /\ Z.testbit (clear x LSR_DATA_BIT) 0 = false.
Proof. apply (status_bit x). Qed.

(** Receiving sets the data bit and, when enabled, the interrupt; the rest of
    the port stays. *)
Lemma recv_data_room s : has_room s -> exists s', recv_data s = (Ok tt, s') /\ data_bit s' = true /\
  in_buffer s' = in_buffer s /\ out s' = out s.
Proof.
  intros Hr. unfold recv_data, trigger_interrupt, has_room in *. destruct (is_recv_intr_enabled s).
  - cbn [add_intr_bit set_intr interrupt_evt]. unfold event_write. rewrite (proj2 (Z.leb_le _ _)) by done.
    eexists. split; [done|]. split; [apply data_bits|done].
  - eexists. split; [done|]. split; [apply data_bits|done].
Qed.

Lemma thr_empty_same s : data_bit (thr_empty s).2 = data_bit s /\ in_buffer (thr_empty s).2 = in_buffer s /\ out (thr_empty s).2 = out s.
Proof. unfold thr_empty, trigger_interrupt. repeat case_match; done. Qed.

Lemma data_ok_same s s' : data_bit s' = data_bit s -> in_buffer s' = in_buffer s -> data_ok s -> data_ok s'.
Proof. unfold data_ok. by intros -> ->. Qed.

Lemma data_ok_received s : has_room s -> in_buffer s <> [] -> data_ok (recv_data s).2.
Proof.
  intros Hr Hb. destruct (recv_data_room s Hr) as (s' & -> & Hd & Hi & _). unfold data_ok. cbn [snd].
  rewrite Hd, Hi. by rewrite bool_decide_eq_false_2.
Qed.

Lemma handle_write_data s offset value host : has_room s -> data_ok s -> data_ok (handle_write s offset value host).2.
Proof.
  intros Hr Hok. unfold handle_write. repeat (case_match; cbn [snd]; try done).
  - apply data_ok_received; [done|]. cbn. by destruct (in_buffer s).
  - eapply data_ok_same; [apply thr_empty_same|apply thr_empty_same|done].
  - eapply data_ok_same; [apply thr_empty_same|apply thr_empty_same|done].
Qed.

Lemma handle_read_data s offset : data_ok s -> data_ok (handle_read s offset).2.
Proof.
  intros Hok. unfold handle_read. repeat (case_match; cbn [snd]; try done).
  - unfold data_ok, data_bit in *. cbn [set_in_buffer line_status in_buffer del_intr_bit set_intr set_line_status] in *.
    rewrite (proj2 (data_bits (line_status s))).
    match goal with H : (length _ <=? 1)%nat = true |- _ => apply Nat.leb_le in H end. destruct (in_buffer s) as [|b [|]]; done || (cbn in *; lia).
  - unfold data_ok, data_bit in *. cbn [set_in_buffer line_status in_buffer del_intr_bit set_intr set_line_status] in *.
    rewrite Hok. match goal with H : (length _ <=? 1)%nat = false |- _ => apply Nat.leb_gt in H end.
    destruct (in_buffer s) as [|b [|]]; done || (cbn in *; lia).
Qed.

Lemma reachable_serial s : reachable s -> serial_ok s /\ data_ok s.
Proof.
  induction 1 as [evt o|s s' _ [IH1 IH2] Hr Hs].
  { split; [split; [by left|unfold is_uint; cbn; lia]|done]. }
  destruct Hs as [s offset data|s offset data host|s count buf Hne].
  - unfold serial_read. case_match; [done|]. pose proof (handle_read_ok s (wrap 8 offset) IH1).
    pose proof (handle_read_data s (wrap 8 offset) IH2). destruct (handle_read s (wrap 8 offset)). done.
  - unfold serial_write. repeat case_match; try done. split; [by apply handle_write_ok|by apply handle_write_data].
  - unfold serial_process, raw_input. case_match; [|done]. split; [by apply recv_data_ok; destruct IH1|].
    apply data_ok_received; [done|]. cbn. by destruct (in_buffer s), (take count buf).
Qed.

(** ** The properties *)

(** In every history of accesses and input the line status reports data
    exactly when there is some, and the interrupt register names a pending
    cause or none; input bytes are read in the order they arrived, without loss;
    in loop mode a written byte is queued behind them while there is room, and
    otherwise it is the next byte of the output. *)
Theorem serial_streams s v host : reachable s -> has_room s ->
  (Z.testbit (line_status s) 0 = true <-> in_buffer s <> []) /\ iir_ok (interrupt_identification s) /\
  is_uint 4 (interrupt_enable s) /\
  (is_dlab_set s = false ->
   (let '(b, s') := handle_read s DATA in b = default 0 (head (in_buffer s)) /\ in_buffer s' = tail (in_buffer s) /\ out s' = out s) /\
   (let s' := serial_write s DATA [v] host in
    if is_loop s then out s' = out s /\
      in_buffer s' = (if (length (in_buffer s) <? LOOP_SIZE)%nat then in_buffer s ++ [v] else in_buffer s)
    else in_buffer s' = in_buffer s /\ (host = Ok tt -> out s' = option_map (fun o => o ++ [v]) (out s)))) /\
  (forall count buf, is_loop s = false -> in_buffer (serial_process s count buf) = in_buffer s ++ take count buf).
Proof.
  intros [[H1 H2] H3]%reachable_serial Hr. split; [|split; [done|split; [done|split; [intros Hd|]]]].
  - unfold data_ok, data_bit in H3. rewrite H3, negb_true_iff, bool_decide_eq_false. done.
  - split.
    + unfold handle_read. rewrite Hd. cbn [andb Z.eqb DATA DLAB_LOW DLAB_HIGH]. case_match; done.
    + unfold serial_write. change (wrap 8 DATA) with DATA. unfold handle_write. rewrite Hd. cbn [andb Z.eqb DATA DLAB_LOW DLAB_HIGH].
      destruct (is_loop s).
      * case_match; [|done]. destruct (recv_data_room (set_in_buffer (in_buffer s ++ [v]) s) Hr) as (s' & -> & _ & Ei & Eo). cbn [snd].
        by rewrite Ei, Eo.
      * destruct (out s) as [o|] eqn:Eo.
        -- destruct host as [[]|e].
           ++ destruct (thr_empty_same (set_out (Some (o ++ [v])) s)) as (_ & -> & ->). done.
           ++ destruct e; done.
        -- destruct (thr_empty_same s) as (_ & -> & ->). by rewrite Eo.
  - intros count buf Hl. unfold serial_process, raw_input. rewrite Hl. cbn [negb].
    destruct (recv_data_room (set_in_buffer (in_buffer s ++ take count buf) s) Hr) as (s' & -> & _ & Ei & _). exact Ei.
Qed.

(** The end of the input is reported to the guest as a byte: the line status
    says that there is data although the queue is empty. *)
Lemma end_of_input_reported_as_data :
  let s := serial_process (serial_new 0 None) 0 [] in data_bit s = true /\ in_buffer s = [].
Proof. split; reflexivity. Qed.

Lemma serial_streams_witness :
  let s := serial_process (serial_new 0 (Some [])) 2 [65; 66; 0] in
  reachable s /\ (handle_read s DATA).1 = 65 /\ out (serial_write s DATA [67] (Ok tt)) = Some [67].
Proof.
  intros s. assert (reachable s) as Hr.
  { apply (reachable_step (serial_new 0 (Some []))); [constructor|vm_compute; congruence|]. by apply step_input. }
  split; [exact Hr|]. destruct (serial_streams s 67 (Ok tt) Hr ltac:(vm_compute; congruence)) as (_ & _ & _ & Hd & _).
  destruct (Hd eq_refl) as [Hread Hw]. split; [reflexivity|]. exact (proj2 Hw eq_refl).
Defined.
