(* ===== verification/Rtc.v ===== *)
(** * The real-time clock

    [pvisor-vm/src/devices/legacy/rtc_pl031.rs] with [utils/time.rs]: a PL031
    whose counter runs with the host's clock and can be loaded by the guest, and
    its snapshots. The clocks of the host are arguments in nanoseconds
    ([instant] for [Instant::now], [mono] for the monotonic clock); the
    interrupt event is a counter. [None] is a panic. *)
From stdpp Require Import base tactics list strings.
From Stdlib Require Import ZArith Lia.
From S2P Require Import Prelude Bytes Bus I8042.
Local Open Scope Z_scope.

Definition NANOS_PER_SECOND : Z := 1000000000.
Definition COUNTER_PERIOD_NS : Z := 2 ^ 32 * NANOS_PER_SECOND.
Definition i64_max : Z := 2 ^ 63 - 1.

(** [i64::checked_mul] by [NANOS_PER_SECOND]. *)
Definition seconds_to_nanoseconds (value : Z) : option Z :=
  let r := value * NANOS_PER_SECOND in if (- 2 ^ 63 <=? r) && (r <=? i64_max) then Some r else None.

Definition RTCDR : Z := 0x0.
Definition RTCMR : Z := 0x4.
Definition RTCLR : Z := 0x8.
Definition RTCCR : Z := 0xc.
Definition RTCIMSC : Z := 0x10.
Definition RTCRIS : Z := 0x14.
Definition RTCMIS : Z := 0x18.
Definition RTCICR : Z := 0x1c.
Definition PL031_ID : list Z := [0x31; 0x10; 0x14; 0x00; 0x0d; 0xf0; 0x05; 0xb1].
Definition AMBA_ID_LOW : Z := 0xFE0.
Definition AMBA_ID_HIGH : Z := 0x1000.

Inductive RtcError := BadWriteOffset (offset : Z) | InterruptFailure.

Record RtcSnapshot := mkRtcSnapshot {
  rs_version : Z;
  rs_counter_ns : Z;
  rs_host_monotonic_ns : Z;
  rs_match_value : Z;
  rs_load : Z;
  rs_imsc : Z;
  rs_ris : Z;
  rs_pending_events : Z
}.

Record RTC := mkRTC {
  previous_now : Z;
  tick_offset : Z;
  match_value : Z;
  load : Z;
  imsc : Z;
  ris : Z;
  rtc_interrupt_evt : Z
}.

Definition rtc_new (instant real evt : Z) : RTC := mkRTC instant real 0 0 0 0 evt.

(** The nanoseconds since [previous_now]; an [Instant] never goes back. *)
Definition elapsed (r : RTC) (instant : Z) : Z := Z.max 0 (instant - previous_now r).

(** [RTC::get_time]: the quotient is truncated and cut to 32 bits. *)
Definition rtc_get_time (r : RTC) (instant : Z) : Z :=
  wrap32 (Z.quot (tick_offset r + elapsed r instant) NANOS_PER_SECOND).

(** [capture_state]: the event is read and written back. *)
Definition rtc_capture_state (r : RTC) (mono instant : Z) : RtcSnapshot :=
  mkRtcSnapshot 1 ((tick_offset r + elapsed r instant) mod COUNTER_PERIOD_NS) mono
    (match_value r) (load r) (imsc r) (ris r) (rtc_interrupt_evt r).

(** [restore_state]. *)
Definition rtc_restore_state (r : RTC) (s : RtcSnapshot) (mono instant : Z) : Result string RTC :=
  if negb (rs_version s =? 1) || (COUNTER_PERIOD_NS <=? rs_counter_ns s) || (1 <? rs_imsc s) || (1 <? rs_ris s)
     || (rs_pending_events s =? u64_max) || (mono <? rs_host_monotonic_ns s)
  then Err "invalid PL031 snapshot"%string
  else if negb (rtc_interrupt_evt r =? 0) then Err "PL031 restore requires a fresh interrupt event"%string
  else Ok (mkRTC instant ((rs_counter_ns s + (mono - rs_host_monotonic_ns s)) mod COUNTER_PERIOD_NS)
             (rs_match_value s) (rs_load s) (rs_imsc s) (rs_ris s) (rs_pending_events s)).

Definition rtc_trigger_interrupt (r : RTC) : Result RtcError unit * RTC :=
  match event_write (rtc_interrupt_evt r) with
  | Some c => (Ok tt, mkRTC (previous_now r) (tick_offset r) (match_value r) (load r) (imsc r) (ris r) c)
  | None => (Err InterruptFailure, r)
  end.

Definition rtc_handle_write (r : RTC) (instant offset val : Z) : option (Result RtcError unit * RTC) :=
  if offset =? RTCMR then
    Some (Ok tt, mkRTC (previous_now r) (tick_offset r) val (load r) (imsc r) (ris r) (rtc_interrupt_evt r))
  else if offset =? RTCLR then
    t ← seconds_to_nanoseconds val;
    Some (Ok tt, mkRTC instant t (match_value r) val (imsc r) (ris r) (rtc_interrupt_evt r))
  else if offset =? RTCIMSC then
    Some (rtc_trigger_interrupt
      (mkRTC (previous_now r) (tick_offset r) (match_value r) (load r) (Z.land val 1) (ris r) (rtc_interrupt_evt r)))
  else if offset =? RTCICR then
    Some (rtc_trigger_interrupt
      (mkRTC (previous_now r) (tick_offset r) (match_value r) (load r) (imsc r) 0 (rtc_interrupt_evt r)))
  else if offset =? RTCCR then Some (Ok tt, r)
  else Some (Err (BadWriteOffset offset), r).

(** The value of a register; [None] in the inner option for an offset that
    cannot be read, in the outer one for a panic. *)
Definition rtc_register (r : RTC) (instant offset : Z) : option (option Z) :=
  if (AMBA_ID_LOW <=? offset) && (offset <? AMBA_ID_HIGH) then
    v ← PL031_ID !! Z.to_nat (Z.shiftr (offset - AMBA_ID_LOW) 2); Some (Some v)
  else if offset =? RTCDR then Some (Some (rtc_get_time r instant))
  else if offset =? RTCMR then Some (Some (match_value r))
  else if offset =? RTCLR then Some (Some (load r))
  else if offset =? RTCCR then Some (Some 1)
  else if offset =? RTCIMSC then Some (Some (imsc r))
  else if offset =? RTCRIS then Some (Some (ris r))
  else if offset =? RTCMIS then Some (Some (Z.land (ris r) (imsc r)))
  else Some None.

(** [BusDevice::read] and [write]. *)
Definition rtc_read (r : RTC) (instant offset : Z) (data : list Z) : option (list Z) :=
  v ← rtc_register r instant offset;
  Some (match v with
        | Some v => if (length data <=? 4)%nat then write_le_u32 data v else data
        | None => data
        end).
Definition rtc_write (r : RTC) (instant offset : Z) (data : list Z) : option RTC :=
  if (length data <=? 4)%nat then snd <$> rtc_handle_write r instant offset (read_le_u32 data) else Some r.

(** ** Invariant *)

Record rtc_ok (r : RTC) : Prop := {
  ro_offset : 0 <= tick_offset r <= i64_max;
  ro_load : is_u32 (load r);
  ro_match : is_u32 (match_value r);
  ro_imsc : 0 <= imsc r <= 1;
  ro_ris : 0 <= ris r <= 1;
  ro_evt : 0 <= rtc_interrupt_evt r < u64_max
}.

Lemma seconds_fit v : is_u32 v -> seconds_to_nanoseconds v = Some (v * NANOS_PER_SECOND).
Proof.
  intros [H0 H1]. unfold seconds_to_nanoseconds, NANOS_PER_SECOND, i64_max.
  rewrite (proj2 (Z.leb_le _ _)), (proj2 (Z.leb_le _ _)) by lia. done.
Qed.

Lemma read_le_u32_range data : Forall is_byte data -> is_u32 (read_le_u32 data).
Proof.
  intros Hd. unfold read_le_u32, read_le.
  match goal with |- is_u32 (from_le_bytes ?l) => assert (Forall is_byte l /\ length l = 4%nat) as [Hb Hl] end.
  { split; [|rewrite length_take, length_app, length_replicate; lia].
    apply Forall_take, Forall_app. split; [done|]. apply Forall_replicate. unfold is_byte. lia. }
  pose proof (from_le_bytes_bound _ Hb) as Hr. rewrite Hl in Hr. exact Hr.
Qed.

Lemma event_range c c' : 0 <= c < u64_max -> event_write c = Some c' -> 0 <= c' < u64_max.
Proof. unfold event_write. case_match eqn:E; [|done]. intros Hc [= <-]. apply Z.leb_le in E. lia. Qed.

Lemma rtc_trigger_ok r : rtc_ok r -> rtc_ok (rtc_trigger_interrupt r).2.
Proof.
  intros [H1 H2 H3 H4 H5 H6]. unfold rtc_trigger_interrupt. destruct (event_write _) eqn:E; [|done].
  split; try done. by eapply event_range.
Qed.

Lemma rtc_write_ok r instant offset data : Forall is_byte data -> rtc_ok r ->
  exists r', rtc_write r instant offset data = Some r' /\ rtc_ok r'.
Proof.
  intros Hd Hok. unfold rtc_write. case_match; [|by eexists]. pose proof (read_le_u32_range _ Hd) as Hv.
  destruct Hok as [H1 H2 H3 H4 H5 H6]. unfold rtc_handle_write.
  destruct (offset =? RTCMR); [by eexists; split; [done|]|].
  destruct (offset =? RTCLR).
  { rewrite seconds_fit by done. eexists. split; [done|]. split; try done. cbn.
    unfold is_uint, NANOS_PER_SECOND, i64_max in *. lia. }
  destruct (offset =? RTCIMSC).
  { eexists. split; [done|]. apply rtc_trigger_ok. split; try done. cbn. rewrite Z.land_comm.
    pose proof (land_uint 1 1 (read_le_u32 data)) as Hl. unfold is_uint in Hl. specialize (Hl ltac:(lia) ltac:(lia)). lia. }
  destruct (offset =? RTCICR); [eexists; split; [done|]; by apply rtc_trigger_ok|].
  destruct (offset =? RTCCR); by eexists.
Qed.

(** The seconds do not see whole periods of the counter. *)
Lemma seconds_periodic x e : 0 <= x -> 0 <= e ->
  wrap32 (Z.quot (x mod COUNTER_PERIOD_NS + e) NANOS_PER_SECOND) = wrap32 (Z.quot (x + e) NANOS_PER_SECOND).
Proof.
  intros Hx He. assert (0 < COUNTER_PERIOD_NS) as Hp by done.
  pose proof (Z.mod_pos_bound x COUNTER_PERIOD_NS Hp) as Hm.
  rewrite !Z.quot_div_nonneg by (unfold NANOS_PER_SECOND; lia).
  rewrite (Z.div_mod x COUNTER_PERIOD_NS) at 2 by lia.
  replace (COUNTER_PERIOD_NS * (x / COUNTER_PERIOD_NS) + x mod COUNTER_PERIOD_NS + e)
    with (x mod COUNTER_PERIOD_NS + e + (x / COUNTER_PERIOD_NS * 2 ^ 32) * NANOS_PER_SECOND) by (unfold COUNTER_PERIOD_NS; lia).
  rewrite Z.div_add by (unfold NANOS_PER_SECOND; lia). unfold wrap. by rewrite Z.mod_add by lia.
Qed.

(** ** The properties *)

(** A clock restored from a snapshot shows, at every later time, what the
    original would have shown had it kept running while the host's monotonic
    clock advanced; its registers and pending interrupts are those captured. *)
Theorem rtc_survives_snapshot r r0 mono0 instant0 mono1 instant1 instant2 :
  rtc_ok r -> previous_now r <= instant0 -> mono0 <= mono1 -> instant1 <= instant2 -> rtc_interrupt_evt r0 = 0 ->
  exists r', rtc_restore_state r0 (rtc_capture_state r mono0 instant0) mono1 instant1 = Ok r' /\ rtc_ok r' /\
    rtc_get_time r' instant2 = rtc_get_time r (instant0 + (mono1 - mono0) + (instant2 - instant1)) /\
    match_value r' = match_value r /\ load r' = load r /\ imsc r' = imsc r /\ ris r' = ris r /\
    rtc_interrupt_evt r' = rtc_interrupt_evt r.
Proof.
  intros [H1 H2 H3 H4 H5 H6] Hi Hm Hi2 He. assert (0 < COUNTER_PERIOD_NS) as Hp by done.
  set (c := tick_offset r + elapsed r instant0). assert (0 <= c) by (unfold c, elapsed; lia).
  pose proof (Z.mod_pos_bound c COUNTER_PERIOD_NS Hp) as Hc.
  unfold rtc_restore_state, rtc_capture_state. fold c. cbn [rs_version rs_counter_ns rs_imsc rs_ris rs_pending_events rs_host_monotonic_ns].
  rewrite He. change (negb (1 =? 1)) with false. change (negb (0 =? 0)) with false.
  rewrite (proj2 (Z.leb_gt COUNTER_PERIOD_NS _)), !(proj2 (Z.ltb_ge _ _)), (proj2 (Z.eqb_neq (rtc_interrupt_evt r) _)) by lia.
  cbn [orb]. eexists. split; [done|]. split; [|split; [|done]].
  - split; try done. cbn. pose proof (Z.mod_pos_bound (c mod COUNTER_PERIOD_NS + (mono1 - mono0)) COUNTER_PERIOD_NS Hp).
    unfold COUNTER_PERIOD_NS, NANOS_PER_SECOND, i64_max in *. lia.
  - unfold rtc_get_time, elapsed. cbn [tick_offset previous_now]. rewrite seconds_periodic by lia.
    rewrite <- Z.add_assoc, seconds_periodic by lia. do 2 f_equal. unfold c, elapsed. lia.
Qed.

(** Loading any 32-bit number of seconds never overflows, and the clock then
    shows that number plus the whole seconds that passed since, in 32 bits,
    while the load register keeps it. *)
Theorem rtc_counts_from_load r instant0 instant1 v :
  rtc_ok r -> is_u32 v -> instant0 <= instant1 ->
  exists r', rtc_write r instant0 RTCLR (to_le_bytes 4 v) = Some r' /\ rtc_ok r' /\
    rtc_read r' instant1 RTCDR [0; 0; 0; 0] =
      Some (to_le_bytes 4 ((v + (instant1 - instant0) / NANOS_PER_SECOND) mod 2 ^ 32)) /\
    rtc_read r' instant1 RTCLR [0; 0; 0; 0] = Some (to_le_bytes 4 v).
Proof.
  intros Hok Hv Hi. assert (read_le_u32 (to_le_bytes 4 v) = v) as Er.
  { unfold read_le_u32. by rewrite read_le_exact, from_to_le_bytes; [|exact Hv|apply to_le_bytes_length]. }
  destruct (rtc_write_ok r instant0 RTCLR (to_le_bytes 4 v) (to_le_bytes_byte 4 v) Hok) as (r' & E & Hok').
  exists r'. split; [done|]. split; [done|]. unfold rtc_write in E. rewrite to_le_bytes_length, Er in E.
  unfold rtc_handle_write in E. cbn [Nat.leb Z.eqb Pos.eqb RTCMR RTCLR] in E. rewrite seconds_fit in E by done. cbn in E. injection E as <-.
  unfold rtc_read, rtc_register, rtc_get_time, elapsed.
  cbn [andb Z.leb Z.compare Pos.compare Pos.compare_cont Z.eqb Pos.eqb AMBA_ID_LOW RTCDR RTCMR RTCLR mbind option_bind length Nat.leb tick_offset previous_now load].
  split; [|done]. unfold write_le_u32. rewrite write_le_exact by done. rewrite Z.max_r by lia.
  rewrite Z.quot_div_nonneg by (unfold is_uint, NANOS_PER_SECOND in *; lia).
  rewrite Z.add_comm, Z.div_add by (unfold NANOS_PER_SECOND; lia). by rewrite Z.add_comm.
Qed.

Definition rtc_start : RTC := rtc_new 100 1000 0.
Lemma rtc_start_ok : rtc_ok rtc_start.
Proof. split; unfold is_uint; vm_compute; split; congruence. Qed.
Lemma rtc_survives_snapshot_witness :
  exists r', rtc_restore_state rtc_start (rtc_capture_state rtc_start 5 200) 2000000005 7 = Ok r' /\ rtc_get_time r' 7 = 2.
Proof.
  destruct (rtc_survives_snapshot rtc_start rtc_start 5 200 2000000005 7 7 rtc_start_ok) as (r' & E & _ & Ht & _);
    [vm_compute; congruence..|reflexivity|]. exists r'. split; [exact E|]. rewrite Ht. reflexivity.
Defined.
Lemma rtc_counts_from_load_witness :
  exists r', rtc_write rtc_start 0 RTCLR (to_le_bytes 4 (2 ^ 32 - 1)) = Some r' /\
    rtc_read r' 3000000000 RTCDR [0; 0; 0; 0] = Some [2; 0; 0; 0].
Proof.
  destruct (rtc_counts_from_load rtc_start 0 3000000000 (2 ^ 32 - 1) rtc_start_ok) as (r' & E & _ & Hr & _);
    [unfold is_uint; lia|lia|]. exists r'. split; [exact E|]. rewrite Hr. reflexivity.
Defined.
