(* ===== verification/IoApic.v ===== *)
(** * The I/O interrupt controller

    [pvisor-vm/src/devices/legacy/ioapic.rs]: the redirection table a guest
    programs through an index and a data register, and the message-signalled
    routes that are derived from it. Messages to the worker that talks to the
    kernel are collected in order; its answers are only logged. [None] is a
    panic ([todo!], [unreachable!], [panic!] or an overflow in a build that
    checks for it). *)
From stdpp Require Import base tactics list.
From Stdlib Require Import ZArith Lia.
From S2P Require Import Prelude Bytes Bus.
Local Open Scope Z_scope.

Definition APIC_DEFAULT_ADDRESS : Z := 0xfee00000.
Definition IOAPIC_NUM_PINS : nat := 24.
Definition IO_REG_SEL : Z := 0x00.
Definition IO_WIN : Z := 0x10.
Definition IO_EOI : Z := 0x40.
Definition IO_APIC_ID : Z := 0.
Definition IO_APIC_VER : Z := 1.
Definition IO_APIC_ARB : Z := 2.
Definition IOAPIC_LVT_REMOTE_IRR : Z := Z.shiftl 1 14.
Definition IOAPIC_LVT_TRIGGER_MODE : Z := Z.shiftl 1 15.
Definition IOAPIC_LVT_DELIV_STATUS : Z := Z.shiftl 1 12.
Definition IOAPIC_RO_BITS : Z := Z.lor IOAPIC_LVT_REMOTE_IRR IOAPIC_LVT_DELIV_STATUS.
Definition IOAPIC_DM_EXTINT : Z := 7.
Definition IOAPIC_REG_REDTBL_BASE : Z := 0x10.
Definition IOAPIC_TRIGGER_EDGE : Z := 0.

Record IoApicEntryInfo := mkInfo {
  masked : Z;
  trig_mode : Z;
  dest_idx : Z;
  dest_mode : Z;
  delivery_mode : Z;
  vector : Z;
  msi_addr : Z;
  msi_data : Z
}.

(** A routing entry of the kernel. *)
Record Route := mkRoute { gsi : Z; address_lo : Z; address_hi : Z; route_data : Z }.

Inductive Message := GsiRoute (routes : list Route) | IrqLine (irq : Z) (active : bool).

Record IoApic := mkIoApic {
  io_id : Z;
  ioregsel : Z;
  irr : Z;
  ioredtbl : list Z;
  io_version : Z;
  irq_eoi : list Z;
  irq_routes : list Route
}.

Definition set_redtbl (t : list Z) (a : IoApic) : IoApic :=
  mkIoApic (io_id a) (ioregsel a) (irr a) t (io_version a) (irq_eoi a) (irq_routes a).
Definition set_irr (v : Z) (a : IoApic) : IoApic :=
  mkIoApic (io_id a) (ioregsel a) v (ioredtbl a) (io_version a) (irq_eoi a) (irq_routes a).
Definition set_eoi (e : list Z) (a : IoApic) : IoApic :=
  mkIoApic (io_id a) (ioregsel a) (irr a) (ioredtbl a) (io_version a) e (irq_routes a).
Definition set_routes (r : list Route) (a : IoApic) : IoApic :=
  mkIoApic (io_id a) (ioregsel a) (irr a) (ioredtbl a) (io_version a) (irq_eoi a) r.
Definition set_select (id sel : Z) (a : IoApic) : IoApic :=
  mkIoApic id sel (irr a) (ioredtbl a) (io_version a) (irq_eoi a) (irq_routes a).

Definition kroute (virq address data : Z) : Route := mkRoute virq (wrap32 address) (wrap32 (Z.shiftr address 32)) (wrap32 data).

Definition add_msi_route (a : IoApic) (virq : Z) : IoApic :=
  if (length (irq_routes a) <? 4095)%nat then set_routes (irq_routes a ++ [kroute virq 0 0]) a else a.

(** [IoApic::new], once the kernel accepted the capability. *)
Definition ioapic_new : IoApic :=
  foldl add_msi_route
    (mkIoApic 0 0 0 (replicate IOAPIC_NUM_PINS (Z.shiftl 1 16)) 0x20 (replicate IOAPIC_NUM_PINS 0) [])
    (map Z.of_nat (seq 0 IOAPIC_NUM_PINS)).

Definition entry_at (a : IoApic) (i : nat) : Z := default 0 (ioredtbl a !! i).

Definition fix_edge_remote_irr (a : IoApic) (index : nat) : IoApic :=
  if Z.land (entry_at a index) IOAPIC_LVT_TRIGGER_MODE =? IOAPIC_TRIGGER_EDGE
  then set_redtbl (<[index := clear (entry_at a index) IOAPIC_LVT_REMOTE_IRR]> (ioredtbl a)) a
  else a.

Definition parse_entry (entry : Z) : option IoApicEntryInfo :=
  let vector := Z.land entry 0xff in
  let dest_idx := Z.land (Z.shiftr entry 48) 0xffff in
  let delivery_mode := Z.land (Z.shiftr entry 8) 7 in
  let trig_mode := Z.land (Z.shiftr entry 15) 1 in
  let dest_mode := Z.land (Z.shiftr entry 11) 1 in
  if delivery_mode =? IOAPIC_DM_EXTINT then None
  else Some (mkInfo (Z.land (Z.shiftr entry 16) 1) trig_mode dest_idx dest_mode delivery_mode vector
               (wrap32 (Z.lor (Z.lor APIC_DEFAULT_ADDRESS (Z.shiftl dest_idx 4)) (Z.shiftl dest_mode 2)))
               (wrap32 (Z.lor (Z.lor vector (Z.shiftl trig_mode 15)) (Z.shiftl delivery_mode 8)))).

Definition update_msi_route (a : IoApic) (virq address data : Z) : IoApic :=
  set_routes (map (fun entry => if gsi entry =? virq then kroute virq address data else entry) (irq_routes a)) a.

(** The loop of [update_routes]. *)
Fixpoint update_pins (a : IoApic) (pins : list nat) : option IoApic :=
  match pins with
  | [] => Some a
  | i :: pins =>
      info ← parse_entry (entry_at a i);
      update_pins (if masked info =? 0 then update_msi_route a (Z.of_nat i) (msi_addr info) (msi_data info) else a) pins
  end.

Definition update_routes (a : IoApic) : option (IoApic * list Message) :=
  a ← update_pins a (seq 0 IOAPIC_NUM_PINS); Some (a, [GsiRoute (irq_routes a)]).

(** One round of [service]. *)
Definition service_pin (a : IoApic) (i : nat) : option (IoApic * list Message) :=
  if 0 <? Z.land (irr a) (Z.shiftl 1 (Z.of_nat i)) then
    info ← parse_entry (entry_at a i);
    if masked info =? 0 then
      if trig_mode info =? IOAPIC_TRIGGER_EDGE then
        Some (set_irr (clear (irr a) (Z.shiftl 1 (Z.of_nat i))) a, [IrqLine (Z.of_nat i) true; IrqLine (Z.of_nat i) false])
      else
        let coalesce := Z.land (entry_at a i) IOAPIC_LVT_REMOTE_IRR in
        let a := set_redtbl (<[i := Z.lor (entry_at a i) IOAPIC_LVT_REMOTE_IRR]> (ioredtbl a)) a in
        Some (a, if 0 <? coalesce then [] else [IrqLine (Z.of_nat i) true])
    else Some (a, [])
  else Some (a, []).
Fixpoint service_pins (a : IoApic) (pins : list nat) : option (IoApic * list Message) :=
  match pins with
  | [] => Some (a, [])
  | i :: pins => '(a, m1) ← service_pin a i; '(a, m2) ← service_pins a pins; Some (a, m1 ++ m2)
  end.
Definition service (a : IoApic) : option (IoApic * list Message) := service_pins a (seq 0 IOAPIC_NUM_PINS).

(** The value of [read]: [None] is a panic, [Some None] a read of a bad size. *)
Definition ioapic_read_value (a : IoApic) (offset : Z) (size : nat) : option (option Z) :=
  if offset =? IO_REG_SEL then Some (Some (ioregsel a))
  else if offset =? IO_WIN then
    if negb (size =? 4)%nat then Some None
    else if (ioregsel a =? IO_APIC_ID) || (ioregsel a =? IO_APIC_ARB) then Some (Some (wrap32 (Z.shiftl (io_id a) 24)))
    else if ioregsel a =? IO_APIC_VER then Some (Some (Z.lor (io_version a) (Z.shiftl (Z.of_nat IOAPIC_NUM_PINS - 1) 16)))
    else if ioregsel a <? IOAPIC_REG_REDTBL_BASE then None
    else
      let index := Z.shiftr (ioregsel a - IOAPIC_REG_REDTBL_BASE) 1 in
      Some (Some (if index <? Z.of_nat IOAPIC_NUM_PINS then
                    if 0 <? Z.land (ioregsel a) 1 then wrap32 (Z.shiftr (entry_at a (Z.to_nat index)) 32)
                    else Z.land (entry_at a (Z.to_nat index)) 0xffffffff
                  else 0))
  else None.
(** [BusDevice::read]. *)
Definition ioapic_read (a : IoApic) (offset : Z) (data : list Z) : option (list Z) :=
  v ← ioapic_read_value a offset (length data);
  Some (match v with Some v => write_le 4 data v | None => data end).

(** The new value of an entry: one half is written, the read-only bits stay. *)
Definition write_entry (old sel val : Z) : Z :=
  let ro_bits := Z.land old IOAPIC_RO_BITS in
  let e := if 0 <? Z.land sel 1 then Z.lor (Z.land old 0xffffffff) (Z.shiftl val 32) else Z.lor (clear old 0xffffffff) val in
  Z.lor (clear e IOAPIC_RO_BITS) ro_bits.

(** [BusDevice::write]. *)
Definition ioapic_write (a : IoApic) (offset : Z) (data : list Z) : option (IoApic * list Message) :=
  if negb (length data =? 4)%nat then Some (a, [])
  else
    let val := from_le_bytes data in
    if offset =? IO_REG_SEL then Some (set_select (io_id a) (wrap 8 val) a, [])
    else if offset =? IO_WIN then
      if ioregsel a =? IO_APIC_ID then Some (set_select (Z.land (Z.shiftr val 24) 15) (ioregsel a) a, [])
      else if (ioregsel a =? IO_APIC_VER) || (ioregsel a =? IO_APIC_ARB) then Some (a, [])
      else if ioregsel a <? IO_WIN then Some (a, [])
      else
        let index := Z.shiftr (ioregsel a - IOAPIC_REG_REDTBL_BASE) 1 in
        if Z.of_nat IOAPIC_NUM_PINS <=? index then Some (a, [])
        else
          let i := Z.to_nat index in
          let a := set_redtbl (<[i := write_entry (entry_at a i) (ioregsel a) val]> (ioredtbl a)) a in
          let a := set_eoi (<[i := 0]> (irq_eoi a)) a in
          let a := fix_edge_remote_irr a i in
          '(a, m1) ← update_routes a; '(a, m2) ← service a; Some (a, m1 ++ m2)
    else None.

(** ** Invariant *)

Definition ext_int (entry : Z) : bool := Z.land (Z.shiftr entry 8) 7 =? IOAPIC_DM_EXTINT.

Record ioapic_ok (a : IoApic) : Prop := {
  io_pins : length (ioredtbl a) = IOAPIC_NUM_PINS;
  io_quiet : irr a = 0;
  io_select : is_uint 8 (ioregsel a);
  io_gsi : map gsi (irq_routes a) = map Z.of_nat (seq 0 IOAPIC_NUM_PINS);
  io_parsed : Forall (fun e => ext_int e = false) (ioredtbl a)
}.

Inductive reachable : IoApic -> Prop :=
| reachable_new : reachable ioapic_new
| reachable_write a offset data a' ms : reachable a -> Forall is_byte data -> ioapic_write a offset data = Some (a', ms) -> reachable a'.

(** The route an entry asks for; a masked one keeps its route. *)
Definition wanted (entry : Z) (i : nat) (old : Route) : Route :=
  match parse_entry entry with
  | Some info => if masked info =? 0 then kroute (Z.of_nat i) (msi_addr info) (msi_data info) else old
  | None => old
  end.

Lemma parse_entry_None e : parse_entry e = None <-> ext_int e = true.
Proof. unfold parse_entry, ext_int. by case_match. Qed.

(** Entries are found by their interrupt number. *)
Lemma gsi_at a i r : ioapic_ok a -> irq_routes a !! i = Some r -> gsi r = Z.of_nat i /\ (i < IOAPIC_NUM_PINS)%nat.
Proof.
  intros Hok Hr. pose proof (io_gsi _ Hok) as Hg. apply (f_equal (fun l => l !! i)) in Hg.
  change (map gsi (irq_routes a) !! i) with ((gsi <$> irq_routes a) !! i) in Hg. rewrite list_lookup_fmap, Hr in Hg.
  change (map Z.of_nat (seq 0 IOAPIC_NUM_PINS) !! i) with ((Z.of_nat <$> seq 0 IOAPIC_NUM_PINS) !! i) in Hg.
  rewrite list_lookup_fmap in Hg. destruct (seq 0 IOAPIC_NUM_PINS !! i) as [j|] eqn:Ej; [|done].
  apply lookup_seq in Ej as [-> Hlt]. cbn in Hg. injection Hg as ->. done.
Qed.

Lemma update_msi_lookup a virq address data i r :
  irq_routes a !! i = Some r ->
  irq_routes (update_msi_route a virq address data) !! i = Some (if gsi r =? virq then kroute virq address data else r).
Proof.
  intros Hr. cbn [update_msi_route set_routes irq_routes].
  change (map ?f ?l !! i) with ((f <$> l) !! i). by rewrite list_lookup_fmap, Hr.
Qed.

(** Only the routes of the state differ. *)
Definition with_routes_of (a a' : IoApic) : Prop := a' = set_routes (irq_routes a') a.

Lemma update_pins_spec pins : forall a, (forall i r, irq_routes a !! i = Some r -> gsi r = Z.of_nat i) ->
  if existsb (fun i => ext_int (entry_at a i)) pins then update_pins a pins = None
  else exists a', update_pins a pins = Some a' /\ with_routes_of a a' /\
    length (irq_routes a') = length (irq_routes a) /\
    forall i r, irq_routes a !! i = Some r ->
      irq_routes a' !! i = Some (if existsb (Nat.eqb i) pins then wanted (entry_at a i) i r else r).
Proof.
  induction pins as [|p pins IH]; intros a Hg; cbn [existsb update_pins].
  { exists a. split_and!; [done|by destruct a|done|done]. }
  destruct (parse_entry (entry_at a p)) as [info|] eqn:Ep.
  2: { rewrite (proj1 (parse_entry_None _) Ep). done. }
  assert (ext_int (entry_at a p) = false) as -> by (destruct (ext_int (entry_at a p)) eqn:E; [apply parse_entry_None in E; congruence|done]).
  cbn [orb mbind option_bind].
  set (a1 := if masked info =? 0 then update_msi_route a (Z.of_nat p) (msi_addr info) (msi_data info) else a).
  assert (forall i r, irq_routes a !! i = Some r -> irq_routes a1 !! i = Some (if Nat.eqb i p then wanted (entry_at a i) i r else r)) as H1.
  { intros i r Hr. unfold a1. destruct (Nat.eqb_spec i p) as [->|Hne].
    - unfold wanted. rewrite Ep. destruct (masked info =? 0); [|done].
      rewrite (update_msi_lookup _ _ _ _ _ r Hr), (Hg _ _ Hr), Z.eqb_refl. done.
    - destruct (masked info =? 0); [|done]. rewrite (update_msi_lookup _ _ _ _ _ r Hr), (Hg _ _ Hr).
      by rewrite (proj2 (Z.eqb_neq _ _)) by lia. }
  assert (length (irq_routes a1) = length (irq_routes a)) as Hl1 by (unfold a1; case_match; [cbn; apply length_map|done]).
  assert (ioredtbl a1 = ioredtbl a /\ set_routes (irq_routes a1) a = a1) as [Ht Hs] by (unfold a1; case_match; by destruct a).
  assert (forall i, entry_at a1 i = entry_at a i) as He by (intros; unfold entry_at; by rewrite Ht).
  specialize (IH a1). assert (forall i r, irq_routes a1 !! i = Some r -> gsi r = Z.of_nat i) as Hg1.
  { intros i r Hr. destruct (irq_routes a !! i) as [r0|] eqn:Er0.
    - rewrite (H1 _ _ Er0) in Hr. injection Hr as <-. destruct (Nat.eqb i p); [|by apply Hg].
      unfold wanted. repeat case_match; try (by apply Hg); done.
    - apply lookup_ge_None in Er0. apply lookup_lt_Some in Hr. lia. }
  specialize (IH Hg1). assert (existsb (fun i => ext_int (entry_at a1 i)) pins = existsb (fun i => ext_int (entry_at a i)) pins) as Hex.
  { clear -He. induction pins; cbn; [done|]. by rewrite He, IHpins. }
  rewrite Hex in IH. destruct (existsb _ pins); [done|]. destruct IH as (a' & -> & Hw & Hl & Hr).
  exists a'. split; [done|]. split; [unfold with_routes_of in *; rewrite Hw, <- Hs; done|]. split; [congruence|].
  intros i r Hir. rewrite (Hr _ _ (H1 _ _ Hir)). rewrite He. f_equal.
  destruct (Nat.eqb i p); cbn [orb]; [|done]. case_match; [|done]. unfold wanted. by repeat case_match.
Qed.

Lemma service_quiet a : irr a = 0 -> service a = Some (a, []).
Proof.
  intros Hq. unfold service. generalize (seq 0 IOAPIC_NUM_PINS). induction l as [|i l IH]; [done|].
  cbn [service_pins]. unfold service_pin. rewrite Hq, Z.land_0_l. cbn [Z.ltb Z.compare mbind option_bind]. by rewrite IH.
Qed.

(** The entry a write leaves in the table. *)
Definition new_entry (old sel val : Z) : Z :=
  let e := write_entry old sel val in
  if Z.land e IOAPIC_LVT_TRIGGER_MODE =? IOAPIC_TRIGGER_EDGE then clear e IOAPIC_LVT_REMOTE_IRR else e.

(** The pin that is selected. *)
Definition selected (a : IoApic) : option nat :=
  if (IOAPIC_REG_REDTBL_BASE <=? ioregsel a) && (ioregsel a <? 0x40) then Some (Z.to_nat ((ioregsel a - 16) / 2)) else None.

Lemma selected_pin a i : selected a = Some i -> (i < IOAPIC_NUM_PINS)%nat.
Proof.
  unfold selected, IOAPIC_REG_REDTBL_BASE, IOAPIC_NUM_PINS. case_match eqn:E; [|done]. intros [= <-].
  apply andb_true_iff in E as [E1%Z.leb_le E2%Z.ltb_lt].
  assert ((ioregsel a - 16) / 2 < 24) by (apply Z.div_lt_upper_bound; lia). lia.
Qed.

(** Only the table changes before the routes are derived. *)
Lemma table_written a i val a1 : length (ioredtbl a) = IOAPIC_NUM_PINS -> (i < IOAPIC_NUM_PINS)%nat ->
  a1 = fix_edge_remote_irr (set_eoi (<[i := 0]> (irq_eoi a)) (set_redtbl (<[i := write_entry (entry_at a i) (ioregsel a) val]> (ioredtbl a)) a)) i ->
  ioredtbl a1 = <[i := new_entry (entry_at a i) (ioregsel a) val]> (ioredtbl a) /\
  irq_routes a1 = irq_routes a /\ irr a1 = irr a /\ ioregsel a1 = ioregsel a.
Proof.
  intros Hl Hi ->. unfold fix_edge_remote_irr, new_entry.
  assert (entry_at (set_eoi (<[i := 0]> (irq_eoi a)) (set_redtbl (<[i := write_entry (entry_at a i) (ioregsel a) val]> (ioredtbl a)) a)) i
    = write_entry (entry_at a i) (ioregsel a) val) as ->.
  { unfold entry_at at 1. cbn. by rewrite list_lookup_insert_eq by lia. }
  case_match; [|done]. cbn. by rewrite list_insert_insert_eq.
Qed.

Lemma parsed_insert l i e : Forall (fun e => ext_int e = false) l -> (i < length l)%nat ->
  existsb (fun j => ext_int (default 0 (<[i := e]> l !! j))) (seq 0 (length l)) = ext_int e.
Proof.
  intros Hl Hi. destruct (ext_int e) eqn:E.
  - apply existsb_exists. exists i. split; [apply in_seq; lia|]. by rewrite list_lookup_insert_eq.
  - apply not_true_is_false. intros (j & Hj & Hx)%existsb_exists. apply in_seq in Hj.
    destruct (decide (j = i)) as [->|Hne]; [rewrite list_lookup_insert_eq in Hx by done; cbn in Hx; congruence|].
    rewrite list_lookup_insert_ne in Hx by done. destruct (lookup_lt_is_Some_2 l j) as [x Hxj]; [lia|].
    rewrite Hxj in Hx. cbn in Hx. rewrite (Forall_lookup_1 _ _ _ _ Hl Hxj) in Hx. done.
Qed.

(** Programming an entry. *)
Lemma ioapic_program a data i : ioapic_ok a -> length data = 4%nat -> selected a = Some i ->
  let e := new_entry (entry_at a i) (ioregsel a) (from_le_bytes data) in
  if ext_int e then ioapic_write a IO_WIN data = None
  else exists a', ioapic_write a IO_WIN data = Some (a', [GsiRoute (irq_routes a')]) /\ ioapic_ok a' /\
    ioredtbl a' = <[i := e]> (ioredtbl a) /\ length (irq_routes a') = IOAPIC_NUM_PINS /\
    forall j r, irq_routes a !! j = Some r -> irq_routes a' !! j = Some (wanted (entry_at a' j) j r).
Proof.
  intros Hok Hd Hsel e. pose proof (selected_pin _ _ Hsel) as Hi. unfold selected, IOAPIC_REG_REDTBL_BASE in Hsel.
  destruct ((16 <=? ioregsel a) && _) eqn:Es; [|done]. injection Hsel as Ei.
  apply andb_true_iff in Es as [Es1%Z.leb_le Es2%Z.ltb_lt].
  unfold ioapic_write. rewrite Hd. cbn [Nat.eqb negb]. change (IO_WIN =? IO_REG_SEL) with false. change (IO_WIN =? IO_WIN) with true. cbn iota.
  unfold IO_APIC_ID, IO_APIC_VER, IO_APIC_ARB, IO_WIN. rewrite !(proj2 (Z.eqb_neq (ioregsel a) _)) by lia. cbn [orb].
  rewrite (proj2 (Z.ltb_ge _ _)) by lia. unfold IOAPIC_REG_REDTBL_BASE. rewrite Z.shiftr_div_pow2 by lia. change (2 ^ 1) with 2.
  rewrite (proj2 (Z.leb_gt _ _)) by (unfold IOAPIC_NUM_PINS in *; lia). rewrite Ei.
  set (a1 := fix_edge_remote_irr _ i).
  destruct (table_written a i (from_le_bytes data) a1 (io_pins _ Hok) Hi eq_refl) as (Ht & Hr1 & Hq1 & Hs1). fold e in Ht.
  pose proof (update_pins_spec (seq 0 IOAPIC_NUM_PINS) a1) as Hup. unfold update_routes.
  assert (existsb (fun j => ext_int (entry_at a1 j)) (seq 0 IOAPIC_NUM_PINS) = ext_int e) as Hex.
  { unfold entry_at. rewrite Ht, <- (io_pins _ Hok). apply parsed_insert; [apply Hok|]. by rewrite (io_pins _ Hok). }
  rewrite Hex in Hup. specialize (Hup ltac:(rewrite Hr1; intros; by apply (gsi_at a))).
  destruct (ext_int e) eqn:Ee; [by rewrite Hup|]. destruct Hup as (a2 & -> & Hw & Hl2 & Hr2). cbn [mbind option_bind].
  assert (ioredtbl a2 = ioredtbl a1 /\ irr a2 = irr a1 /\ ioregsel a2 = ioregsel a1) as (Ht2 & Hq2 & Hs2) by (rewrite Hw; done).
  rewrite service_quiet by (rewrite Hq2, Hq1; apply Hok). cbn [mbind option_bind]. rewrite app_nil_r.
  assert (length (irq_routes a) = IOAPIC_NUM_PINS) as Hlen.
  { rewrite <- (length_map gsi), (io_gsi _ Hok), length_map. apply length_seq. }
  assert (forall j r, irq_routes a !! j = Some r -> irq_routes a2 !! j = Some (wanted (entry_at a2 j) j r)) as Hfin.
  { intros j r Hj. rewrite <- Hr1 in Hj. rewrite (Hr2 _ _ Hj). rewrite Hr1 in Hj. destruct (gsi_at a j r Hok Hj) as [_ Hlt].
    assert (existsb (Nat.eqb j) (seq 0 IOAPIC_NUM_PINS) = true) as ->.
    { apply existsb_exists. exists j. split; [apply in_seq; lia|apply Nat.eqb_refl]. }
    unfold entry_at. by rewrite Ht2. }
  exists a2. split; [done|]. split; [|rewrite Ht2; split; [done|split; [by rewrite Hl2, Hr1|done]]].
  split.
  - rewrite Ht2, Ht, length_insert. apply Hok.
  - rewrite Hq2, Hq1. apply Hok.
  - rewrite Hs2, Hs1. apply Hok.
  - rewrite <- (io_gsi _ Hok). apply list_eq. intros j.
    change (map gsi ?l !! j) with ((gsi <$> l) !! j). rewrite !list_lookup_fmap.
    destruct (irq_routes a !! j) as [r|] eqn:Ej.
    + rewrite (Hfin _ _ Ej). cbn. f_equal. destruct (gsi_at a j r Hok Ej) as [Eg _]. unfold wanted. repeat case_match; done.
    + apply lookup_ge_None in Ej. rewrite (lookup_ge_None_2 (irq_routes a2)); [done|]. rewrite Hl2, Hr1. done.
  - rewrite Ht2, Ht. apply Forall_insert; [apply Hok|done].
Qed.

Lemma reachable_ioapic a : reachable a -> ioapic_ok a.
Proof.
  induction 1 as [|a offset data a' ms _ IH Hb Hw].
  { split; [vm_compute; reflexivity|reflexivity|split; vm_compute; congruence|vm_compute; reflexivity|apply Forall_replicate; reflexivity]. }
  destruct (decide (length data = 4%nat)) as [Hd|Hd].
  2: { unfold ioapic_write in Hw. rewrite (proj2 (Nat.eqb_neq _ _) Hd) in Hw. cbn in Hw. by injection Hw as <- <-. }
  destruct (decide (offset = IO_WIN)) as [->|Hne].
  - destruct (selected a) as [i|] eqn:Es.
    + pose proof (ioapic_program a data i IH Hd Es) as Hp. cbn zeta in Hp. destruct (ext_int _); [congruence|].
      destruct Hp as (a1 & E & Hok & _). congruence.
    + unfold ioapic_write in Hw. rewrite Hd in Hw. cbn [Nat.eqb negb] in Hw. unfold selected, IOAPIC_REG_REDTBL_BASE in Es.
      change (IO_WIN =? IO_REG_SEL) with false in Hw. change (IO_WIN =? IO_WIN) with true in Hw. cbn iota in Hw.
      destruct (ioregsel a =? IO_APIC_ID); [injection Hw as <- <-; by destruct IH|].
      destruct (_ || _); [by injection Hw as <- <-|].
      destruct (Z.ltb_spec (ioregsel a) IO_WIN); [by injection Hw as <- <-|].
      unfold IO_WIN, IOAPIC_NUM_PINS, IOAPIC_REG_REDTBL_BASE in *. rewrite (proj2 (Z.leb_le 16 _)) in Es by done. cbn [andb] in Es.
      destruct (Z.ltb_spec (ioregsel a) 0x40); [done|]. rewrite Z.shiftr_div_pow2 in Hw by lia.
      rewrite (proj2 (Z.leb_le _ _)) in Hw; [by injection Hw as <- <-|]. apply Z.div_le_lower_bound; lia.
  - unfold ioapic_write in Hw. rewrite Hd in Hw. cbn [Nat.eqb negb] in Hw. destruct (offset =? IO_REG_SEL).
    + injection Hw as <- <-. destruct IH. split; try done. apply wrap_range. lia.
    + rewrite (proj2 (Z.eqb_neq _ _) Hne) in Hw. done.
Qed.

(** Which bits of an entry a write changes. *)
Lemma new_entry_bits old sel val k : is_u64 old -> is_u32 val -> 0 <= k < 64 ->
  Z.testbit (new_entry old sel val) k =
    if k =? 12 then Z.testbit old 12
    else if k =? 14 then Z.testbit old 14 && Z.testbit (new_entry old sel val) 15
    else if 0 <? Z.land sel 1 then if k <? 32 then Z.testbit old k else Z.testbit val (k - 32)
    else if k <? 32 then Z.testbit val k else Z.testbit old k.
Proof.
  intros Ho Hv Hk.
  assert (forall k, 0 <= k -> Z.testbit (write_entry old sel val) k =
    if (k =? 12) || (k =? 14) then Z.testbit old k
    else if 0 <? Z.land sel 1 then if k <? 32 then Z.testbit old k else Z.testbit val (k - 32)
    else if k <? 32 then Z.testbit val k else Z.testbit old k) as Hw.
  { clear k Hk. intros k Hk. unfold write_entry, clear. change IOAPIC_RO_BITS with (Z.lor (2 ^ 14) (2 ^ 12)).
    rewrite Z.lor_spec, Z.ldiff_spec, Z.land_spec, Z.lor_spec, !Z.pow2_bits_eqb by lia.
    rewrite (Z.eqb_sym 14), (Z.eqb_sym 12). destruct (Z.eqb_spec k 12) as [->|H12]; [by rewrite orb_true_r, andb_false_r, andb_true_r|].
    destruct (Z.eqb_spec k 14) as [->|H14]; [by rewrite andb_false_r, andb_true_r|]. cbn [orb negb]. rewrite andb_true_r, andb_false_r, orb_false_r.
    change 0xffffffff with (Z.ones 32). destruct (0 <? Z.land sel 1).
    - rewrite Z.lor_spec, Z.land_spec. destruct (Z.ltb_spec k 32).
      + rewrite Z.ones_spec_low, Z.shiftl_spec_low by lia. by rewrite andb_true_r, orb_false_r.
      + rewrite Z.ones_spec_high, Z.shiftl_spec_high by lia. by rewrite andb_false_r.
    - rewrite Z.lor_spec, Z.ldiff_spec. destruct (Z.ltb_spec k 32).
      + rewrite Z.ones_spec_low by lia. by rewrite andb_false_r.
      + rewrite Z.ones_spec_high by lia. cbn [negb]. rewrite andb_true_r, (bits_above 32 val) by (done || lia). by rewrite orb_false_r. }
  unfold new_entry, IOAPIC_TRIGGER_EDGE. change IOAPIC_LVT_TRIGGER_MODE with (2 ^ 15). change IOAPIC_LVT_REMOTE_IRR with (2 ^ 14).
  assert ((Z.land (write_entry old sel val) (2 ^ 15) =? 0) = negb (Z.testbit (write_entry old sel val) 15)) as Hlb.
  { destruct (Z.eqb_spec (Z.land (write_entry old sel val) (2 ^ 15)) 0) as [E|E].
    - apply (f_equal (fun x => Z.testbit x 15)) in E. rewrite Z.land_spec, Z.pow2_bits_true, Z.bits_0, andb_true_r in E by lia. by rewrite E.
    - destruct (Z.testbit _ 15) eqn:Eb; [done|]. destruct E. apply Z.bits_inj'. intros i Hi.
      rewrite Z.land_spec, Z.bits_0, Z.pow2_bits_eqb by lia. destruct (Z.eqb_spec 15 i) as [<-|]; [by rewrite Eb|by rewrite andb_false_r]. }
  rewrite Hlb. destruct (Z.testbit (write_entry old sel val) 15) eqn:E15; cbn [negb].
  - rewrite Hw, E15 by lia. destruct (Z.eqb_spec k 12) as [->|]; [done|]. destruct (Z.eqb_spec k 14) as [->|]; cbn [orb]; [by rewrite andb_true_r|done].
  - unfold clear. rewrite !Z.ldiff_spec, !Z.pow2_bits_eqb, E15, Hw by lia. rewrite (Z.eqb_sym 14 k).
    destruct (Z.eqb_spec k 12) as [->|]; [by rewrite andb_true_r|].
    destruct (Z.eqb_spec k 14) as [->|]; cbn [orb negb]; [by rewrite !andb_false_r|by rewrite andb_true_r].
Qed.

(** ** The properties *)

(** Writing half of a redirection entry replaces exactly that half, keeps
    the read-only bits (an edge-triggered entry loses its pending bit), leaves
    the other entries alone, and announces one route for every pin: the address
    and data of the entry where it is not masked, the previous route where it
    is. No interrupt is raised. *)
Theorem ioapic_entry_programmed a data i :
  reachable a -> length data = 4%nat -> selected a = Some i ->
  let e := new_entry (entry_at a i) (ioregsel a) (from_le_bytes data) in
  ext_int e = false ->
  exists a', ioapic_write a IO_WIN data = Some (a', [GsiRoute (irq_routes a')]) /\
    ioredtbl a' = <[i := e]> (ioredtbl a) /\ length (irq_routes a') = IOAPIC_NUM_PINS /\
    (forall j r, irq_routes a !! j = Some r -> irq_routes a' !! j = Some (wanted (entry_at a' j) j r)) /\
    (is_u64 (entry_at a i) -> is_u32 (from_le_bytes data) -> forall k, 0 <= k < 64 ->
       Z.testbit e k =
         if k =? 12 then Z.testbit (entry_at a i) 12
         else if k =? 14 then Z.testbit (entry_at a i) 14 && Z.testbit e 15
         else if 0 <? Z.land (ioregsel a) 1 then if k <? 32 then Z.testbit (entry_at a i) k else Z.testbit (from_le_bytes data) (k - 32)
         else if k <? 32 then Z.testbit (from_le_bytes data) k else Z.testbit (entry_at a i) k).
Proof.
  intros Hok%reachable_ioapic Hd Hs e He. pose proof (ioapic_program a data i Hok Hd Hs) as Hp. cbn zeta in Hp. fold e in Hp.
  rewrite He in Hp. destruct Hp as (a' & E & _ & Ht & Hl & Hr). exists a'. split_and!; try done.
  intros Ho Hv k Hk. by apply new_entry_bits.
Qed.

(** A 32-bit write makes the controller panic exactly when its offset is
    neither the index nor the data register (the end-of-interrupt register
    included), or when it programs an entry with the external delivery mode; a
    read panics exactly at such an offset, or when the data register is read
    with an index between the version registers and the table. *)
Theorem ioapic_panics_exactly a offset data :
  reachable a -> length data = 4%nat ->
  (ioapic_write a offset data = None <->
   (offset <> IO_REG_SEL /\ offset <> IO_WIN) \/
   (offset = IO_WIN /\ exists i, selected a = Some i /\
      ext_int (new_entry (entry_at a i) (ioregsel a) (from_le_bytes data)) = true)) /\
  (ioapic_read a offset data = None <->
   (offset <> IO_REG_SEL /\ offset <> IO_WIN) \/ (offset = IO_WIN /\ 3 <= ioregsel a < 16)).
Proof.
  intros Hok%reachable_ioapic Hd. split.
  - destruct (decide (offset = IO_WIN)) as [->|Hne].
    + destruct (selected a) as [i|] eqn:Es.
      * pose proof (ioapic_program a data i Hok Hd Es) as Hp. cbn zeta in Hp. destruct (ext_int _) eqn:Ee.
        -- split; [|done]. intros _. right. split; [done|]. by exists i.
        -- destruct Hp as (a' & -> & _). split; [done|]. intros [[_ H]|(_ & j & [= <-] & H)]; congruence.
      * split; [|intros [[_ H]|(_ & j & H & _)]; congruence]. intros Hw. exfalso. revert Hw.
        unfold selected, IOAPIC_REG_REDTBL_BASE in Es. unfold ioapic_write. rewrite Hd. cbn [Nat.eqb negb].
        change (IO_WIN =? IO_REG_SEL) with false. change (IO_WIN =? IO_WIN) with true. cbn iota.
        destruct (ioregsel a =? IO_APIC_ID); [done|]. destruct (_ || _); [done|].
        destruct (Z.ltb_spec (ioregsel a) IO_WIN); [done|].
        unfold IO_WIN, IOAPIC_NUM_PINS, IOAPIC_REG_REDTBL_BASE in *. rewrite (proj2 (Z.leb_le 16 _)) in Es by done. cbn [andb] in Es.
        destruct (Z.ltb_spec (ioregsel a) 0x40); [done|]. rewrite Z.shiftr_div_pow2 by lia.
        rewrite (proj2 (Z.leb_le _ _)); [done|]. apply Z.div_le_lower_bound; lia.
    + unfold ioapic_write. rewrite Hd. cbn [Nat.eqb negb]. destruct (Z.eqb_spec offset IO_REG_SEL) as [->|Hn]; [naive_solver|].
      rewrite (proj2 (Z.eqb_neq _ _) Hne). naive_solver.
  - unfold ioapic_read, ioapic_read_value. rewrite Hd. cbn [Nat.eqb negb].
    destruct (Z.eqb_spec offset IO_REG_SEL) as [->|Hn]; [naive_solver|].
    destruct (Z.eqb_spec offset IO_WIN) as [->|Hn']; [|naive_solver].
    pose proof (io_select _ Hok) as [Hs0 _]. unfold IO_APIC_ID, IO_APIC_ARB, IO_APIC_VER, IOAPIC_REG_REDTBL_BASE.
    repeat match goal with |- context [Z.eqb (ioregsel a) ?n] => destruct (Z.eqb_spec (ioregsel a) n) end; cbn [orb mbind option_bind];
      try (split; [done|]; intros [[_ H]|[_ H]]; [congruence|lia]).
    destruct (Z.ltb_spec (ioregsel a) 16); cbn [mbind option_bind]; (split; [|done || (intros [[_ H']|[_ H']]; [congruence|lia])]); [|done].
    intros _. right. split; [done|lia].
Qed.

Definition ioapic_selected : IoApic := set_select 0 0x12 ioapic_new.
Lemma ioapic_selected_reachable : reachable ioapic_selected.
Proof.
  apply (reachable_write ioapic_new IO_REG_SEL [0x12; 0; 0; 0] _ []); [constructor|repeat constructor; unfold is_byte; lia|reflexivity].
Qed.
Lemma ioapic_entry_programmed_witness :
  exists a', ioapic_write ioapic_selected IO_WIN [0x31; 0; 0; 0] = Some (a', [GsiRoute (irq_routes a')]) /\
    irq_routes a' !! 1%nat = Some (mkRoute 1 0xfee00000 0 0x31).
Proof.
  destruct (ioapic_entry_programmed ioapic_selected [0x31; 0; 0; 0] 1 ioapic_selected_reachable eq_refl eq_refl eq_refl)
    as (a' & E & Ht & _ & Hr & _). exists a'. split; [exact E|]. rewrite (Hr 1%nat (mkRoute 1 0 0 0) eq_refl). unfold entry_at.
  rewrite Ht. vm_compute. reflexivity.
Defined.
Lemma ioapic_panics_exactly_witness :
  ioapic_write ioapic_selected IO_EOI [0; 0; 0; 0] = None /\ ioapic_write ioapic_selected IO_WIN [0; 7; 0; 0] = None /\
  ioapic_read ioapic_selected IO_EOI [0; 0; 0; 0] = None.
Proof.
  split_and!.
  - apply (proj1 (ioapic_panics_exactly ioapic_selected IO_EOI [0; 0; 0; 0] ioapic_selected_reachable eq_refl)). by left.
  - apply (proj1 (ioapic_panics_exactly ioapic_selected IO_WIN [0; 7; 0; 0] ioapic_selected_reachable eq_refl)).
    right. split; [done|]. by exists 1%nat.
  - apply (proj2 (ioapic_panics_exactly ioapic_selected IO_EOI [0; 0; 0; 0] ioapic_selected_reachable eq_refl)). by left.
Defined.
