(* ===== verification/Json.v ===== *)
(** * JSON values and ordered maps

    The gateway reads and annotates [serde_json::Value]s. The library is an
    interface here: [JsonOps] has the operations the sources call and [JsonLaws]
    what they rely on. A pattern such as [Value::String(s)] is read through the
    accessor that answers for exactly that variant. [BTreeMap]s are their
    entries in the order of the keys. *)
From stdpp Require Import base tactics list sets sorting strings.
From Stdlib Require Import ZArith Lia Ascii.
From S2P Require Import Prelude RustStr.
Local Open Scope string_scope.

(** ** Values *)

(** [index_assign v k x] is [v[k] = x]: [None] is the panic on a value that is
    neither an object nor null. [to_string_pretty] and [from_str] return [None]
    for their errors. *)
Class JsonOps (V : Type) := {
  json_get : V -> string -> option V;
  as_str : V -> option string;
  as_array : V -> option (list V);
  as_u64 : V -> option Z;
  is_null : V -> bool;
  json_display : V -> string;
  to_string_pretty : V -> option string;
  from_str : string -> option V;
  json_str : string -> V;
  json_u32 : Z -> V;
  index_assign : V -> string -> V -> option V
}.

(** What the documentation of [serde_json] says of these operations. *)
Class JsonLaws (V : Type) `{JsonOps V} := {
  as_str_json_str s : as_str (json_str s) = Some s;
  as_u64_json_u32 n : (0 <= n <= u32_max)%Z -> as_u64 (json_u32 n) = Some n;
  as_str_not_array v s : as_str v = Some s -> as_array v = None;
  as_str_no_member v s k : as_str v = Some s -> json_get v k = None;
  as_array_no_member v l k : as_array v = Some l -> json_get v k = None;
  index_assign_member v k x v' : index_assign v k x = Some v' -> json_get v' k = Some x;
  index_assign_other v k x v' k' : index_assign v k x = Some v' -> k' <> k -> json_get v' k' = json_get v k';
  index_assign_again v k x v' k' y : index_assign v k x = Some v' -> is_Some (index_assign v' k' y);
  index_assign_str v k x s : as_str v = Some s -> index_assign v k x = None;
  index_assign_array v k x l : as_array v = Some l -> index_assign v k x = None
}.

Section Access.
Context {V : Type} `{JsonOps V}.

(** [v.get(k).and_then(|x| x.as_str())] and the like. *)
Definition get_str (v : V) (k : string) : option string := json_get v k ≫= as_str.
Definition get_array (v : V) (k : string) : option (list V) := json_get v k ≫= as_array.
Definition get_u64 (v : V) (k : string) : option Z := json_get v k ≫= as_u64.
End Access.

(** [Option::or_else], [Option::unwrap_or] and [Option::is_some_and]. *)
Definition or_else {A} (o o' : option A) : option A := match o with Some a => Some a | None => o' end.
Definition is_some_and {A} (o : option A) (p : A -> bool) : bool := match o with Some a => p a | None => false end.

(** [x as u32]. *)
Definition as_u32 (x : Z) : Z := Z.modulo x (2 ^ 32).

(** ** Maps in the order of their keys *)
Section BTreeMap.
Context {K A : Type} `{EqDecision K} (ltb : K -> K -> bool).

(** [f] receives the value the key had: [entry(k)] followed by an update, or
    [insert] when it ignores its argument. *)
Fixpoint bt_update (k : K) (f : option A -> A) (m : list (K * A)) : list (K * A) :=
  match m with
  | [] => [(k, f None)]
  | (k', a) :: m' =>
      if decide (k = k') then (k, f (Some a)) :: m'
      else if ltb k k' then (k, f None) :: m
      else (k', a) :: bt_update k f m'
  end.

Fixpoint bt_get (k : K) (m : list (K * A)) : option A :=
  match m with
  | [] => None
  | (k', a) :: m => if decide (k = k') then Some a else bt_get k m
  end.

Fixpoint bt_remove (k : K) (m : list (K * A)) : list (K * A) :=
  match m with
  | [] => []
  | (k', a) :: m => if decide (k = k') then m else (k', a) :: bt_remove k m
  end.

(** [iter_mut().next_back()] followed by an update. *)
Fixpoint bt_update_last (f : A -> A) (m : list (K * A)) : list (K * A) :=
  match m with
  | [] => []
  | [(k, a)] => [(k, f a)]
  | e :: m => e :: bt_update_last f m
  end.
End BTreeMap.

Definition bt_values {K A} (m : list (K * A)) : list A := snd <$> m.

(** The order of strings is the order of their bytes. *)
Fixpoint bytes_ltb (s t : bytes) : bool :=
  match s, t with
  | [], [] => false
  | [], _ :: _ => true
  | _ :: _, [] => false
  | x :: s, y :: t => (byte_val x <? byte_val y)%Z || ((byte_val x =? byte_val y)%Z && bytes_ltb s t)
  end.
Definition str_ltb (s t : string) : bool := bytes_ltb (to_bytes s) (to_bytes t).

(** ** Text *)

Definition nl : string := String "010" EmptyString.
Definition fence : string := "```".
Definition join (sep : string) (l : list string) : string := String.concat sep l.
Definition blank (s : string) : bool := is_empty (trim s).
Definition trim_start (s : string) : string := of_bytes (trim_left white_space (to_bytes s)).

(** [str::split_once] on a string. *)
Fixpoint split_once_on (p s : bytes) : option (bytes * bytes) :=
  match strip_prefix_bytes p s with
  | Some rest => Some ([], rest)
  | None => match s with
            | [] => None
            | x :: s => match split_once_on p s with
                        | Some (a, b) => Some (x :: a, b)
                        | None => None
                        end
            end
  end.
Definition split_once_str (p s : string) : option (string * string) :=
  match split_once_on (to_bytes p) (to_bytes s) with
  | Some (a, b) => Some (of_bytes a, of_bytes b)
  | None => None
  end.

(** The pieces of a text that a newline ends, and what follows the last one. *)
Fixpoint cut_lines (s : bytes) : list bytes * bytes :=
  match s with
  | [] => ([], [])
  | x :: s =>
      let '(ls, rest) := cut_lines s in
      if decide (x = "010"%char) then ([] :: ls, rest)
      else match ls with
           | [] => ([], x :: rest)
           | l :: ls => ((x :: l) :: ls, rest)
           end
  end.

(** [str::lines]: a carriage return before a newline is dropped with it, and an
    empty last piece is no line. *)
Definition strip_cr (l : bytes) : bytes :=
  match strip_suffix_bytes ["013"%char] l with Some l => l | None => l end.
Definition lines (s : string) : list string :=
  let '(ls, rest) := cut_lines (to_bytes s) in
  of_bytes <$> ((strip_cr <$> ls) ++ match rest with [] => [] | _ => [rest] end)%list.

(** The loop of the stream parsers: while the carry has a newline, the trimmed
    line before it is removed and handled. Every round shortens the carry. *)
Section Drain.
Context {S : Type} (step : S -> string -> S).

Fixpoint drain_loop (fuel : nat) (s : S) (carry : bytes) : S * bytes :=
  match fuel with
  | O => (s, carry)
  | Datatypes.S fuel =>
      match split_once_bytes "010" carry with
      | Some (line, rest) => drain_loop fuel (step s (trim (of_bytes line))) rest
      | None => (s, carry)
      end
  end.

Definition drain_lines (s : S) (carry : string) : S * string :=
  let '(s, rest) := drain_loop (Datatypes.S (length (to_bytes carry))) s (to_bytes carry) in (s, of_bytes rest).
End Drain.

(** ** Characters *)

(** The byte offsets at which a character of the text starts. *)
Definition char_starts (s : string) : list nat :=
  filter (fun i => is_char_boundary s i = true) (seq 0 (len s)).
Definition char_count (s : string) : nat := length (char_starts s).
Definition str_take (n : nat) (s : string) : string := of_bytes (take n (to_bytes s)).

(** ** Lemmas *)

Lemma to_bytes_app s t : to_bytes (s +:+ t) = (to_bytes s ++ to_bytes t)%list.
Proof. induction s as [|c s IH]; [reflexivity|]. exact (f_equal (cons c) IH). Qed.
#[export] Hint Rewrite to_bytes_app : pvisor.

Lemma of_bytes_app a b : of_bytes (a ++ b)%list = of_bytes a +:+ of_bytes b.
Proof. apply to_bytes_inj. by rewrite to_bytes_app, !to_of_bytes. Qed.

Lemma cut_lines_app a b :
  cut_lines (a ++ b)%list =
  let '(la, ra) := cut_lines a in let '(lb, rb) := cut_lines (ra ++ b)%list in ((la ++ lb)%list, rb).
Proof.
  induction a as [|x a IH]; cbn [cut_lines app].
  - by destruct (cut_lines b).
  - rewrite IH. destruct (cut_lines a) as [la ra].
    destruct (cut_lines (ra ++ b)%list) as [lb rb] eqn:Hb.
    destruct (decide (x = "010"%char)); [by rewrite Hb|].
    destruct la as [|l la]; cbn [app cut_lines]; rewrite Hb; [|done].
    destruct (decide _); [done|]. by destruct lb.
Qed.

Lemma split_once_cut c :
  match split_once_bytes "010" c with
  | Some (line, rest) => cut_lines c = (line :: fst (cut_lines rest), snd (cut_lines rest)) /\ length rest < length c
  | None => cut_lines c = ([], c)
  end.
Proof.
  induction c as [|x c IH]; cbn [split_once_bytes cut_lines]; [done|].
  destruct (decide (x = "010"%char)).
  - destruct (cut_lines c). cbn. split; [done|lia].
  - destruct (split_once_bytes "010" c) as [[line rest]|].
    + destruct IH as [-> IH]. cbn. split; [done|lia].
    + by rewrite IH.
Qed.

Section DrainFacts.
Context {S : Type} (step : S -> string -> S).

(** Handling the lines one after the other. *)
Definition run_lines (s : S) (ls : list bytes) : S := foldl (fun s l => step s (trim (of_bytes l))) s ls.

Lemma run_lines_cons s l ls : run_lines s (l :: ls) = run_lines (step s (trim (of_bytes l))) ls.
Proof. reflexivity. Qed.
Lemma run_lines_app s ls ls' : run_lines s (ls ++ ls')%list = run_lines (run_lines s ls) ls'.
Proof. apply foldl_app. Qed.

Lemma drain_loop_run n s c :
  length c < n -> drain_loop step n s c = (run_lines s (fst (cut_lines c)), snd (cut_lines c)).
Proof.
  revert s c. induction n as [|n IH]; intros s c Hn; [lia|]. cbn [drain_loop].
  pose proof (split_once_cut c) as Hc. destruct (split_once_bytes "010" c) as [[line rest]|].
  - destruct Hc as [-> Hlt]. rewrite IH; [|lia]. done.
  - by rewrite Hc.
Qed.

Lemma drain_lines_run s c :
  drain_lines step s c = (run_lines s (fst (cut_lines (to_bytes c))), of_bytes (snd (cut_lines (to_bytes c)))).
Proof. unfold drain_lines. by rewrite drain_loop_run; [|lia]. Qed.

(** Draining a text in two pieces is draining it at once. *)
Lemma drain_lines_app s a b :
  (let '(s1, carry) := drain_lines step s a in drain_lines step s1 (carry +:+ b)) = drain_lines step s (a +:+ b).
Proof.
  rewrite !drain_lines_run, !to_bytes_app, to_of_bytes, (cut_lines_app (to_bytes a)).
  destruct (cut_lines (to_bytes a)) as [la ra]. cbn [fst snd].
  destruct (cut_lines (ra ++ to_bytes b)%list) as [lb rb]. cbn [fst snd]. by rewrite run_lines_app.
Qed.
End DrainFacts.

Section BTreeFacts.
Context {K A : Type} `{EqDecision K} (ltb : K -> K -> bool).
Implicit Types (k : K) (m : list (K * A)).

Lemma bt_get_update_insert k a m : bt_get k (bt_update ltb k (fun _ => a) m) = Some a.
Proof.
  induction m as [|[k' b] m IH]; cbn; [by rewrite decide_True|].
  destruct (decide (k = k')); cbn; [by rewrite decide_True|].
  destruct (ltb k k'); cbn; [by rewrite decide_True|by rewrite decide_False].
Qed.

Lemma bt_get_update_ne k k' f m : k' <> k -> bt_get k' (bt_update ltb k f m) = bt_get k' m.
Proof.
  intros Hne. induction m as [|[j b] m IH]; cbn; [by rewrite decide_False|].
  destruct (decide (k = j)) as [<-|]; cbn; [by rewrite !decide_False|].
  destruct (ltb k j); cbn; [by rewrite decide_False|]. by rewrite IH.
Qed.
End BTreeFacts.

(** The keys of a map are in order, each once. *)
Section Sorted.
Context {A : Type}.
Implicit Types m : list (Z * A).
Definition bt_sorted m : Prop := StronglySorted Z.lt (m.*1).

Lemma bt_get_below k m : Forall (fun j => k < j)%Z (m.*1) -> bt_get k m = None.
Proof.
  induction m as [|[j a] m IH]; cbn; [done|]. intros [Hj Hm]%Forall_cons. rewrite decide_False; [by apply IH|lia].
Qed.

Lemma bt_update_keys k f m j : j ∈ (bt_update Z.ltb k f m).*1 -> j = k \/ j ∈ m.*1.
Proof.
  induction m as [|[i a] m IH]; cbn; [set_solver|].
  destruct (decide (k = i)) as [<-|]; [set_solver|]. destruct (Z.ltb k i); set_solver.
Qed.
Lemma bt_remove_keys k m j : j ∈ (bt_remove k m).*1 -> j ∈ m.*1.
Proof. induction m as [|[i a] m IH]; cbn; [done|]. destruct (decide (k = i)); set_solver. Qed.

Lemma bt_update_sorted k f m : bt_sorted m -> bt_sorted (bt_update Z.ltb k f m).
Proof.
  unfold bt_sorted. induction m as [|[i a] m IH]; cbn; intros Hs; [repeat constructor|].
  inversion Hs as [|? ? Hm Hi]; subst. destruct (decide (k = i)) as [<-|]; [by constructor|].
  destruct (Z.ltb_spec k i); cbn.
  - constructor; [done|]. constructor; [done|]. eapply Forall_impl; [exact Hi|]. cbn. lia.
  - constructor; [by apply IH|]. apply Forall_forall. intros j Hj%bt_update_keys.
    rewrite Forall_forall in Hi. destruct Hj as [->|Hj]; [lia|by apply Hi].
Qed.
Lemma bt_remove_sorted k m : bt_sorted m -> bt_sorted (bt_remove k m).
Proof.
  unfold bt_sorted. induction m as [|[i a] m IH]; cbn; intros Hs; [done|].
  inversion Hs as [|? ? Hm Hi]; subst. destruct (decide (k = i)); [done|]. cbn. constructor; [by apply IH|].
  apply Forall_forall. intros j Hj%bt_remove_keys. rewrite Forall_forall in Hi. by apply Hi.
Qed.
End Sorted.
