(* ===== verification/Dialogue.v ===== *)
(** * Dialogue text of model traffic

    [pvisor-gateway/src/dialogue_extract/]: the text a person wrote and the text
    a model answered, extracted from the bodies of three wire protocols, whole
    or as server-sent events that arrive in chunks; with the protocol names of
    [protocol.rs] and the argument helpers of [conversion/tool_call.rs].

    [BTreeMap]s are the sorted lists of [Json]. The hash of [blake3] is an
    argument of the interface [Blake3]. *)
From stdpp Require Import base tactics list strings pretty.
From Stdlib Require Import ZArith Lia Ascii.
From S2P Require Import Prelude RustStr Json.
Local Open Scope string_scope.

(** [blake3::hash(data).to_hex()]. *)
Class Blake3 := { blake3_hex : string -> string }.

(** ** [protocol.rs] *)

Inductive ProtocolKind :=
| ChatCompletions | Messages | Responses | Gemini | Embeddings | CountTokens | Realtime | Detect | UnknownProtocol.
#[export] Instance protocol_kind_eq_dec : EqDecision ProtocolKind.
Proof. solve_decision. Defined.

Definition from_path (path : string) : ProtocolKind :=
  let p := trim_end_matches "/" path in
  if ends_with p "/chat/completions" || ends_with p "chat/completions" then ChatCompletions
  else if ends_with p "/messages" || (contains_str "/messages" p && negb (contains_str "count_tokens" p)) then Messages
  else if ends_with p "/responses" then Responses
  else if contains_str "/models/" p && (ends_with p ":generateContent" || ends_with p ":streamGenerateContent") then Gemini
  else if ends_with p "/embeddings" then Embeddings
  else if contains_str "count_tokens" p || ends_with p "/count-tokens"
          || (contains_str "/models/" p && ends_with p ":countTokens") then CountTokens
  else if contains_str "/realtime" p then Realtime
  else if ends_with p "/detect" then Detect
  else UnknownProtocol.

Definition protocol_as_str (k : ProtocolKind) : string :=
  match k with
  | ChatCompletions => "chat_completions" | Messages => "messages" | Responses => "responses"
  | Gemini => "gemini" | Embeddings => "embeddings" | CountTokens => "count_tokens"
  | Realtime => "realtime" | Detect => "detect" | UnknownProtocol => "unknown"
  end.

Definition protocol_parse (s : string) : ProtocolKind :=
  if s =? "chat_completions" then ChatCompletions else if s =? "messages" then Messages
  else if s =? "responses" then Responses else if s =? "gemini" then Gemini
  else if s =? "embeddings" then Embeddings else if s =? "count_tokens" then CountTokens
  else if s =? "realtime" then Realtime else if s =? "detect" then Detect else UnknownProtocol.

(** ** [common.rs] *)

Definition IMAGE_PROMPT_PREVIEW_CHARS : nat := 200.
Definition HASH_HEX_CHARS : nat := 12.

Definition unwrap_session_tag (s : string) : string :=
  let t := trim s in
  match strip_prefix t "<session>" ≫= (fun x => strip_suffix x "</session>") with
  | Some inner => trim inner
  | None => t
  end.

Definition is_system_injection (s : string) : bool :=
  let t := trim_start s in
  starts_with t "<system-reminder>" || starts_with t "<system-reminder" || starts_with t "<local-command"
  || starts_with t "[SUGGESTION MODE:" || starts_with t "SUGGESTION MODE:".

Definition is_codex_context_injection (s : string) : bool :=
  if is_system_injection s then true
  else
    let t := trim_start s in
    starts_with t "<permissions" || starts_with t "<environment" || starts_with t "You are Codex"
    || contains_str "</permissions instructions>" t.

Definition tool_block (label name content : string) : string :=
  fence +:+ label +:+ ":" +:+ name +:+ nl +:+ content +:+ nl +:+ fence.

Definition parse_data_url (url : string) : option (string * string) :=
  strip_prefix (trim url) "data:" ≫= split_once_str ";base64,".

Definition format_approx_bytes (n : Z) : string :=
  if (1048576 <=? n)%Z then pretty (n / 1048576)%Z +:+ "MB"
  else if (1024 <=? n)%Z then pretty (n / 1024)%Z +:+ "KB"
  else pretty n +:+ "B".

(** [len().saturating_mul(3) / 4]. *)
Definition approx_bytes (s : string) : Z := (Z.min (Z.of_nat (len s) * 3) u64_max / 4)%Z.

(** A text of more characters than [max_chars] is cut there and marked with an
    ellipsis (U+2026). *)
Definition truncate_preview (text : string) (max_chars : nat) : string :=
  if (char_count text <=? max_chars)%nat then text
  else
    let end_ := default (len text) (char_starts text !! max_chars) in
    str_take end_ text +:+ of_bytes [chr 0xE2; chr 0x80; chr 0xA6].

Section Common.
Context {V : Type} `{JsonOps V, Blake3}.

Definition short_content_hash (data : string) : string := str_take (Nat.min HASH_HEX_CHARS 64) (blake3_hex data).

Definition pretty_or_display (v : V) : string := default (json_display v) (to_string_pretty v).

Definition tool_result_content (v : V) : string :=
  match as_str v, as_array v with
  | Some s, _ => s
  | None, Some parts => join nl (omap (fun p => or_else (get_str p "text") (get_str p "content")) parts)
  | None, None => pretty_or_display v
  end.

Definition format_tool_result_block (part : V) : option string :=
  let id := default "tool" (get_str part "tool_use_id") in
  content ← json_get part "content";
  Some (tool_block "tool_result" id (tool_result_content content)).

Definition normalize_json (raw : string) : string :=
  let trimmed := trim raw in
  if is_empty trimmed then ""
  else match from_str trimmed with
       | Some v => default trimmed (to_string_pretty (v : V))
       | None => trimmed
       end.

Definition format_image_base64_placeholder (media_type base64_data : string) : string :=
  "[image: base64:" +:+ format_approx_bytes (approx_bytes base64_data) +:+ " " +:+ media_type
  +:+ " hash=" +:+ short_content_hash base64_data +:+ "]".

Definition format_image_url_placeholder (url : string) : string :=
  match parse_data_url url with
  | Some (media_type, data) => format_image_base64_placeholder media_type data
  | None => "[image: url:" +:+ url +:+ "]"
  end.

Definition format_anthropic_image_placeholder (part : V) : option string :=
  source ← json_get part "source";
  type ← get_str source "type";
  if type =? "url" then format_image_url_placeholder <$> get_str source "url"
  else if type =? "base64" then
    format_image_base64_placeholder (default "image/*" (get_str source "media_type")) <$> get_str source "data"
  else None.

Definition format_openai_image_url_part (part : V) : option string :=
  format_image_url_placeholder <$>
    or_else (json_get part "image_url" ≫= fun iu => get_str iu "url") (get_str part "url").

Definition format_input_image_placeholder (part : V) : option string :=
  format_image_url_placeholder <$> get_str part "image_url".

Definition not_empty (o : option string) : option string :=
  s ← o; if is_empty s then None else Some s.

Definition format_image_generation_placeholder (item : V) : string :=
  let id := default "ig" (or_else (json_get item "id") (json_get item "item_id") ≫= as_str) in
  let format := default "png" (get_str item "output_format") in
  let label := "[image_generated: " +:+ id +:+ ", " +:+ format in
  let label := match not_empty (get_str item "size") with Some s => label +:+ ", " +:+ s | None => label end in
  let label := match not_empty (get_str item "result") with
               | Some result =>
                   if (0 <? approx_bytes result)%Z
                   then label +:+ ", ~" +:+ format_approx_bytes (approx_bytes result) else label
               | None => label
               end in
  let label := label +:+ "]" in
  match not_empty (get_str item "revised_prompt") with
  | Some prompt => label +:+ nl +:+ "prompt: " +:+ truncate_preview prompt IMAGE_PROMPT_PREVIEW_CHARS
  | None => label
  end.

(** The text a part shows, after the session tag is removed. *)
Definition append_user_content_part (out : list string) (part : V) : list string :=
  let push o := match o with Some formatted => (out ++ [formatted])%list | None => out end in
  let t := default "" (get_str part "type") in
  if (t =? "text") || (t =? "input_text") then
    match get_str part "text" with
    | Some text =>
        let text := unwrap_session_tag text in
        if negb (is_codex_context_injection text) && negb (blank text) then (out ++ [text])%list else out
    | None => out
    end
  else if (t =? "tool_result") || (t =? "function_call_output") then push (format_tool_result_block part)
  else if t =? "image" then push (format_anthropic_image_placeholder part)
  else if t =? "image_url" then push (format_openai_image_url_part part)
  else if t =? "input_image" then push (format_input_image_placeholder part)
  else out.

Definition user_content_part_is_visible (part : V) : bool :=
  let is_some (o : option string) := match o with Some _ => true | None => false end in
  let t := default "" (get_str part "type") in
  if (t =? "text") || (t =? "input_text") then
    is_some_and (get_str part "text") (fun text =>
      let text := unwrap_session_tag text in
      negb (is_codex_context_injection text) && negb (blank text))
  else if (t =? "tool_result") || (t =? "function_call_output") then is_some (format_tool_result_block part)
  else if t =? "image" then is_some (format_anthropic_image_placeholder part)
  else if t =? "image_url" then is_some (format_openai_image_url_part part)
  else if t =? "input_image" then is_some (format_input_image_placeholder part)
  else false.

Definition format_visible_content_from_parts (parts : list V) : option string :=
  let out := foldl append_user_content_part [] parts in
  match out with [] => None | _ => Some (join (nl +:+ nl) out) end.

Definition join_assistant_parts (text : string) (tools : list (string * string)) : string :=
  let tool_part '(name, args) :=
    if blank name && blank args then None
    else
      let name := if blank name then "tool" else name in
      let normalized := normalize_json args in
      let args := if blank normalized then "{}" else normalized in
      Some (tool_block "tool" name args) in
  join (nl +:+ nl) ((if blank text then [] else [text]) ++ omap tool_part tools)%list.
End Common.

(** ** [conversion/tool_call.rs] *)
Section ToolCall.
Context {V : Type} `{JsonOps V}.

Definition normalize_tool_arguments_string (raw : string) : string :=
  let trimmed := trim raw in
  if is_empty trimmed then "{}"
  else match (from_str trimmed : option V) with Some _ => trimmed | None => "{}" end.

Definition decode_stream_arguments_delta (raw : string) : string := raw.

Definition unquote_chat_tool_arguments (raw : V) : string :=
  match as_str raw with
  | Some s => normalize_tool_arguments_string s
  | None => if is_null raw then "{}" else json_display raw
  end.
End ToolCall.

(** ** [completions.rs] *)

Record ToolAccum := mkToolAccum { ta_name : string; ta_arguments : string }.
Definition tool_accum_default : ToolAccum := mkToolAccum "" "".
Definition with_name (n : string) (t : ToolAccum) : ToolAccum := mkToolAccum n (ta_arguments t).
Definition with_arguments (a : string) (t : ToolAccum) : ToolAccum := mkToolAccum (ta_name t) a.
Definition push_arguments (a : string) (t : ToolAccum) : ToolAccum := mkToolAccum (ta_name t) (ta_arguments t +:+ a).

(** [entry(index).or_default()] followed by an update. *)
Definition tool_entry (index : Z) (f : ToolAccum -> ToolAccum) (m : list (Z * ToolAccum)) : list (Z * ToolAccum) :=
  bt_update Z.ltb index (fun o => f (default tool_accum_default o)) m.
Definition tool_pairs (m : list (Z * ToolAccum)) : list (string * string) :=
  (fun t => (ta_name t, ta_arguments t)) <$> bt_values m.

Record CompletionsSseToolParser := mkCompletionsParser {
  cp_line_carry : string;
  cp_text : string;
  cp_tool_calls : list (Z * ToolAccum);
  cp_last_snapshot : option string
}.
Definition completions_default : CompletionsSseToolParser := mkCompletionsParser "" "" [] None.
Definition cp_push_text (content : string) (p : CompletionsSseToolParser) : CompletionsSseToolParser :=
  mkCompletionsParser (cp_line_carry p) (cp_text p +:+ content) (cp_tool_calls p) (cp_last_snapshot p).
Definition cp_with_tools (m : list (Z * ToolAccum)) (p : CompletionsSseToolParser) : CompletionsSseToolParser :=
  mkCompletionsParser (cp_line_carry p) (cp_text p) m (cp_last_snapshot p).
Definition cp_with_carry (c : string) (p : CompletionsSseToolParser) : CompletionsSseToolParser :=
  mkCompletionsParser c (cp_text p) (cp_tool_calls p) (cp_last_snapshot p).
Definition cp_with_last (s : option string) (p : CompletionsSseToolParser) : CompletionsSseToolParser :=
  mkCompletionsParser (cp_line_carry p) (cp_text p) (cp_tool_calls p) s.

(** The data of an event line, unless it is empty or ends the stream. *)
Definition data_of_line (line : string) : option string :=
  data ← strip_prefix line "data:";
  let data := trim data in
  if is_empty data || (data =? "[DONE]") then None else Some data.

Section Completions.
Context {V : Type} `{JsonOps V, Blake3}.

Definition first_choice (v : V) : option V := get_array v "choices" ≫= head.

Definition tool_call_name (tc : V) : option string :=
  not_empty (json_get tc "function" ≫= fun f => get_str f "name").

Definition merge_tool_call_delta (m : list (Z * ToolAccum)) (tc : V) : list (Z * ToolAccum) :=
  let index := as_u32 (default 0%Z (get_u64 tc "index")) in
  tool_entry index (fun entry =>
    let entry := match tool_call_name tc with Some name => with_name name entry | None => entry end in
    match not_empty (json_get tc "function" ≫= fun f => get_str f "arguments") with
    | Some args => push_arguments (decode_stream_arguments_delta args) entry
    | None => entry
    end) m.
Definition merge_tool_call_deltas (tcs : list V) (p : CompletionsSseToolParser) : CompletionsSseToolParser :=
  cp_with_tools (foldl merge_tool_call_delta (cp_tool_calls p) tcs) p.

Definition merge_complete_tool_call (m : list (Z * ToolAccum)) '((index, tc) : nat * V) : list (Z * ToolAccum) :=
  let idx := as_u32 (default (Z.of_nat index) (get_u64 tc "index")) in
  tool_entry idx (fun entry =>
    let entry := match tool_call_name tc with Some name => with_name name entry | None => entry end in
    match json_get tc "function" ≫= fun f => json_get f "arguments" with
    | Some args => with_arguments (unquote_chat_tool_arguments args) entry
    | None => entry
    end) m.
Definition merge_complete_tool_calls (tcs : list V) (p : CompletionsSseToolParser) : CompletionsSseToolParser :=
  cp_with_tools (foldl merge_complete_tool_call (cp_tool_calls p) (zip (seq 0 (length tcs)) tcs)) p.

Definition process_delta (delta : V) (p : CompletionsSseToolParser) : CompletionsSseToolParser :=
  let p := match get_str delta "content" with Some content => cp_push_text content p | None => p end in
  match get_array delta "tool_calls" with Some tcs => merge_tool_call_deltas tcs p | None => p end.

Definition process_message (message : V) (p : CompletionsSseToolParser) : CompletionsSseToolParser :=
  let p := match get_str message "content" with
           | Some content => if is_empty (cp_text p) && negb (is_empty content) then cp_push_text content p else p
           | None => p
           end in
  match get_array message "tool_calls" with Some tcs => merge_complete_tool_calls tcs p | None => p end.

Definition process_data_line (p : CompletionsSseToolParser) (line : string) : CompletionsSseToolParser :=
  match data_of_line line with
  | None => p
  | Some data =>
      match (from_str data : option V) ≫= first_choice with
      | None => p
      | Some choice =>
          let p := match json_get choice "delta" with Some delta => process_delta delta p | None => p end in
          match json_get choice "message" with Some message => process_message message p | None => p end
      end
  end.

Definition ingest_chunk (p : CompletionsSseToolParser) (chunk : string) : CompletionsSseToolParser :=
  let '(p, carry) := drain_lines process_data_line p (cp_line_carry p +:+ chunk) in cp_with_carry carry p.

Definition cp_snapshot (p : CompletionsSseToolParser) : string :=
  join_assistant_parts (V := V) (cp_text p) (tool_pairs (cp_tool_calls p)).

Definition cp_push_chunk (p : CompletionsSseToolParser) (chunk : string) : option string * CompletionsSseToolParser :=
  let p := ingest_chunk p chunk in
  let snapshot := cp_snapshot p in
  if is_empty snapshot then (None, p)
  else if bool_decide (cp_last_snapshot p = Some snapshot) then (None, p)
  else (Some snapshot, cp_with_last (Some snapshot) p).

Definition cp_finish (p : CompletionsSseToolParser) : CompletionsSseToolParser :=
  if is_empty (cp_line_carry p) then p
  else process_data_line (cp_with_carry "" p) (trim (cp_line_carry p)).

Definition completions_sse_turn (raw : string) : string :=
  cp_snapshot (cp_finish (ingest_chunk completions_default raw)).

Definition format_openai_tool_calls (tool_calls : option V) : option string :=
  items ← tool_calls ≫= as_array;
  let parts := (fun tc =>
    tool_block "tool" (default "tool" (json_get tc "function" ≫= fun f => get_str f "name"))
                      (default "{}" (json_get tc "function" ≫= fun f => get_str f "arguments"))) <$> items in
  match parts with [] => None | _ => Some (join (nl +:+ nl) parts) end.
End Completions.

(** ** [messages.rs] *)

Inductive ContentBlock := BlockTextOf (text : string) | BlockToolUse (name input_json : string).
Inductive BlockKind := KindText | KindToolUse (name : string) | KindThinking.
Record BlockBuilder := mkBlockBuilder { bb_kind : BlockKind; bb_text : string; bb_json : string }.
Definition builder_new (kind : BlockKind) : BlockBuilder := mkBlockBuilder kind "" "".

Record SseStreamBlockParser := mkBlockParser {
  bp_line_carry : string;
  bp_by_index : list (Z * BlockBuilder);
  bp_order : list Z;
  bp_completed : list ContentBlock
}.
Definition block_parser_default : SseStreamBlockParser := mkBlockParser "" [] [] [].
Definition bp_with_carry (c : string) (p : SseStreamBlockParser) : SseStreamBlockParser :=
  mkBlockParser c (bp_by_index p) (bp_order p) (bp_completed p).
Definition bp_with_builders (m : list (Z * BlockBuilder)) (order : list Z) (p : SseStreamBlockParser) : SseStreamBlockParser :=
  mkBlockParser (bp_line_carry p) m order (bp_completed p).
Definition bp_push_completed (block : ContentBlock) (p : SseStreamBlockParser) : SseStreamBlockParser :=
  mkBlockParser (bp_line_carry p) (bp_by_index p) (bp_order p) (bp_completed p ++ [block])%list.

Definition format_content_block (block : ContentBlock) : string :=
  match block with
  | BlockTextOf t => t
  | BlockToolUse name input_json => tool_block "tool" name input_json
  end.
Definition format_content_blocks (blocks : list ContentBlock) : string :=
  join (nl +:+ nl) (format_content_block <$> blocks).

Section Messages.
Context {V : Type} `{JsonOps V, Blake3}.

Definition builder_finish (b : BlockBuilder) : option ContentBlock :=
  match bb_kind b with
  | KindThinking => None
  | KindToolUse name =>
      let input := normalize_json (V := V) (bb_json b) in
      if is_empty input && is_empty (bb_text b) then None
      else Some (BlockToolUse name (if is_empty input then bb_text b else input))
  | KindText => if is_empty (bb_text b) then None else Some (BlockTextOf (bb_text b))
  end.

Definition block_index (v : V) : Z := default 0%Z (get_u64 v "index").

Definition block_start (v : V) (p : SseStreamBlockParser) : SseStreamBlockParser :=
  let index := block_index v in
  let block_type := default "text" (json_get v "content_block" ≫= fun b => get_str b "type") in
  let tool_name := json_get v "content_block" ≫= fun b => get_str b "name" in
  let order := match bt_get index (bp_by_index p) with
               | Some _ => bp_order p | None => (bp_order p ++ [index])%list end in
  let kind := if block_type =? "tool_use" then KindToolUse (default "tool" tool_name)
              else if block_type =? "thinking" then KindThinking else KindText in
  bp_with_builders (bt_update Z.ltb index (fun _ => builder_new kind) (bp_by_index p)) order p.

Definition extend_builder (delta : V) (b : BlockBuilder) : BlockBuilder :=
  match get_str delta "type" with
  | Some type =>
      if type =? "text_delta" then
        match get_str delta "text" with
        | Some t => mkBlockBuilder (bb_kind b) (bb_text b +:+ t) (bb_json b) | None => b end
      else if type =? "input_json_delta" then
        match get_str delta "partial_json" with
        | Some t => mkBlockBuilder (bb_kind b) (bb_text b) (bb_json b +:+ t) | None => b end
      else b
  | None => b
  end.

Definition block_delta (v : V) (p : SseStreamBlockParser) : SseStreamBlockParser :=
  let index := block_index v in
  match json_get v "delta" with
  | None => p
  | Some delta =>
      let order := match bt_get index (bp_by_index p) with
                   | Some _ => bp_order p | None => (bp_order p ++ [index])%list end in
      bp_with_builders
        (bt_update Z.ltb index (fun o => extend_builder delta (default (builder_new KindText) o)) (bp_by_index p))
        order p
  end.

Definition block_stop (v : V) (p : SseStreamBlockParser) : option ContentBlock * SseStreamBlockParser :=
  let index := block_index v in
  (bt_get index (bp_by_index p) ≫= builder_finish,
   bp_with_builders (bt_remove index (bp_by_index p)) (bp_order p) p).

Definition bp_process_line (p : SseStreamBlockParser) (line : string) : option ContentBlock * SseStreamBlockParser :=
  match data_of_line line ≫= (fun data => (from_str data : option V)) with
  | None => (None, p)
  | Some v =>
      match get_str v "type" with
      | Some type =>
          if type =? "content_block_start" then (None, block_start v p)
          else if type =? "content_block_delta" then (None, block_delta v p)
          else if type =? "content_block_stop" then block_stop v p
          else (None, p)
      | None => (None, p)
      end
  end.

(** One round of the loop of [push_chunk]: the parser and [newly]. *)
Definition bp_step '((p, newly) : SseStreamBlockParser * list ContentBlock) (line : string)
    : SseStreamBlockParser * list ContentBlock :=
  match bp_process_line p line with
  | (Some block, p) => (bp_push_completed block p, newly ++ [block])%list
  | (None, p) => (p, newly)
  end.

Definition bp_push_chunk (p : SseStreamBlockParser) (chunk : string) : list ContentBlock * SseStreamBlockParser :=
  let '((p, newly), carry) := drain_lines bp_step (p, []) (bp_line_carry p +:+ chunk) in
  (newly, bp_with_carry carry p).

Definition accumulated_assistant_text (p : SseStreamBlockParser) : string := format_content_blocks (bp_completed p).

(** The loop of [finish] over a copy of [order]. *)
Fixpoint finish_blocks (order : list Z) (m : list (Z * BlockBuilder)) (completed : list ContentBlock)
    : list ContentBlock :=
  match order with
  | [] => completed
  | idx :: order =>
      match bt_get idx m with
      | None => finish_blocks order m completed
      | Some builder =>
          let completed := match builder_finish builder with
                           | Some block => (completed ++ [block])%list | None => completed end in
          finish_blocks order (bt_remove idx m) completed
      end
  end.
Definition bp_finish (p : SseStreamBlockParser) : list ContentBlock :=
  finish_blocks (bp_order p) (bp_by_index p) (bp_completed p).

Definition push_sse_tool_snapshot (p : SseStreamBlockParser) (chunk : string) : option string * SseStreamBlockParser :=
  let '(new, p) := bp_push_chunk p chunk in
  if existsb (fun b => match b with BlockToolUse _ _ => true | BlockTextOf _ => false end) new
  then (Some (accumulated_assistant_text p), p) else (None, p).

Definition parse_sse_content_blocks (raw : string) : list ContentBlock :=
  bp_finish (snd (bp_push_chunk block_parser_default raw)).
Definition anthropic_sse_turn (raw : string) : string := format_content_blocks (parse_sse_content_blocks raw).

Definition block_of_json_part (part : V) : option ContentBlock :=
  type ← get_str part "type";
  if type =? "text" then BlockTextOf <$> get_str part "text"
  else if type =? "tool_use" then
    let name := default "tool" (get_str part "name") in
    let input := match json_get part "input" with Some v => pretty_or_display v | None => "{}" end in
    Some (BlockToolUse name input)
  else if type =? "image" then BlockTextOf <$> format_anthropic_image_placeholder part
  else None.
Definition format_content_blocks_from_json_parts (parts : list V) : string :=
  format_content_blocks (omap block_of_json_part parts).

Definition anthropic_assistant_from_json (body : V) : option string :=
  parts ← get_array body "content";
  let formatted := format_content_blocks_from_json_parts parts in
  if is_empty formatted then None else Some formatted.

(** [messages::content_to_string]. *)
Definition message_content_to_string (v : V) : option string :=
  match as_str v, as_array v with
  | Some s, _ => Some (unwrap_session_tag s)
  | None, Some parts =>
      let formatted := format_content_blocks_from_json_parts parts in
      if is_empty formatted then None else Some formatted
  | None, None => None
  end.

(** The loop over the messages, the last one first. *)
Fixpoint last_user_message (messages : list V) : option string :=
  match messages with
  | [] => None
  | msg :: messages =>
      if negb (bool_decide (get_str msg "role" = Some "user")) then last_user_message messages
      else
        match get_str msg "content" with
        | Some s =>
            let s := unwrap_session_tag s in
            if negb (is_system_injection s) then Some s else last_user_message messages
        | None =>
            match get_array msg "content" with
            | Some parts => format_visible_content_from_parts parts
            | None => last_user_message messages
            end
        end
  end.
Definition extract_user_from_messages (v : V) : option string :=
  messages ← get_array v "messages"; last_user_message (reverse messages).

Definition user_message_has_visible_text (msg : V) : bool :=
  if negb (bool_decide (get_str msg "role" = Some "user")) then false
  else
    match get_str msg "content" with
    | Some s => let s := unwrap_session_tag s in negb (is_system_injection s) && negb (blank s)
    | None =>
        match get_array msg "content" with
        | Some parts => existsb user_content_part_is_visible parts
        | None => false
        end
    end.

(** [completions.rs]: [completions_assistant_from_json]. *)
Definition completions_assistant_from_json (body : V) : option string :=
  let message : option V := first_choice body ≫= fun c => json_get c "message" in
  match (message ≫= fun m => json_get m "content") ≫= message_content_to_string with
  | Some text => Some text
  | None => m ← message; format_openai_tool_calls (json_get m "tool_calls")
  end.
End Messages.
