(* ===== verification/DialogueText.v ===== *)
(** * Dialogue text, continued: the Responses protocol and the projections

    [dialogue_extract/responses.rs], [assistant.rs], [request.rs] and
    [heuristics.rs], and the projections of a captured record that
    [record.rs] defines with them.

    [None] of the outer [option] is a panic: the index of a tool call plus one
    overflows [u32] in a build that checks for it. *)
From stdpp Require Import base tactics list strings.
From Stdlib Require Import ZArith Lia Ascii.
From S2P Require Import Prelude RustStr Json Dialogue.
Local Open Scope string_scope.

(** ** [responses.rs] *)

Record ResponsesTurn := mkResponsesTurn {
  rt_text : string;
  rt_tool_calls : list (Z * ToolAccum);
  rt_images : list (string * string);
  rt_next_tool_index : Z
}.
Definition responses_turn_new : ResponsesTurn := mkResponsesTurn "" [] [] 0.
Definition rt_push_text (t : string) (r : ResponsesTurn) : ResponsesTurn :=
  mkResponsesTurn (rt_text r +:+ t) (rt_tool_calls r) (rt_images r) (rt_next_tool_index r).
Definition rt_with_tools (m : list (Z * ToolAccum)) (r : ResponsesTurn) : ResponsesTurn :=
  mkResponsesTurn (rt_text r) m (rt_images r) (rt_next_tool_index r).
Definition rt_with_images (m : list (string * string)) (r : ResponsesTurn) : ResponsesTurn :=
  mkResponsesTurn (rt_text r) (rt_tool_calls r) m (rt_next_tool_index r).

Section Responses.
Context {V : Type} `{JsonOps V, Blake3}.

Definition format_responses_user_content (content : option V) : option string :=
  content ← content;
  match as_str content, as_array content with
  | Some s, _ => let s := unwrap_session_tag s in if is_codex_context_injection s then None else Some s
  | None, Some parts => format_visible_content_from_parts parts
  | None, None => None
  end.

Definition responses_user_content_is_visible (content : option V) : bool :=
  match content with
  | None => false
  | Some content =>
      match as_str content, as_array content with
      | Some s, _ => let s := unwrap_session_tag s in negb (is_codex_context_injection s) && negb (blank s)
      | None, Some parts => existsb user_content_part_is_visible parts
      | None, None => false
      end
  end.

Definition responses_input_item_is_user_turn (item : V) : bool :=
  let item_type := default "" (get_str item "type") in
  if (item_type =? "function_call") || (item_type =? "function_call_output") then false
  else if item_type =? "message" then
    bool_decide (get_str item "role" = Some "user") && responses_user_content_is_visible (json_get item "content")
  else responses_user_content_is_visible (json_get item "content").

Definition count_responses_input_user_turns (input : V) : nat :=
  match as_str input, as_array input with
  | Some s, _ => let s := unwrap_session_tag s in if is_codex_context_injection s || blank s then 0 else 1
  | None, Some items => length (filter (fun item => responses_input_item_is_user_turn item = true) items)
  | None, None => 0
  end.

Definition responses_output_to_text (output : V) : string :=
  match as_str output, as_array output with
  | Some s, _ => s
  | None, Some parts => join nl (omap (fun part => get_str part "text") parts)
  | None, None => json_display output
  end.

Definition format_responses_function_call_output (item : V) : option string :=
  let call_id := default "call" (or_else (json_get item "call_id") (json_get item "id") ≫= as_str) in
  output ← json_get item "output";
  let content := responses_output_to_text output in
  if blank content then None else Some (tool_block "tool_result" call_id content).

Definition last_user_text_from_input_item (item : V) : option string :=
  let item_type := default "" (get_str item "type") in
  if (item_type =? "function_call") || (item_type =? "function_call_output") then None
  else if item_type =? "message" then
    let role := default "user" (get_str item "role") in
    if negb (role =? "user") then None else format_responses_user_content (json_get item "content")
  else format_responses_user_content (json_get item "content").

(** The two loops of [extract_tail_from_responses_input], on the items in
    reverse order. *)
Fixpoint tail_outputs (items : list V) : list string :=
  match items with
  | [] => []
  | item :: items =>
      if bool_decide (get_str item "type" = Some "function_call_output")
      then match format_responses_function_call_output item with
           | Some formatted => formatted :: tail_outputs items
           | None => tail_outputs items
           end
      else []
  end.
Fixpoint find_map {A B} (f : A -> option B) (l : list A) : option B :=
  match l with
  | [] => None
  | x :: l => match f x with Some y => Some y | None => find_map f l end
  end.
Definition extract_tail_from_responses_input (items : list V) : option string :=
  match tail_outputs (reverse items) with
  | [] => find_map last_user_text_from_input_item (reverse items)
  | outputs => Some (join (nl +:+ nl) (reverse outputs))
  end.

Definition extract_user_from_responses_input (v : V) : option string :=
  input ← json_get v "input";
  match as_str input, as_array input with
  | Some s, _ =>
      if blank s then None
      else let s := unwrap_session_tag s in if is_codex_context_injection s then None else Some s
  | None, Some items => extract_tail_from_responses_input items
  | None, None => None
  end.

Definition upsert_image_generation (out : list (string * string)) (item : V) : list (string * string) :=
  let id := default "ig" (or_else (json_get item "id") (json_get item "item_id") ≫= as_str) in
  bt_update str_ltb id (fun _ => format_image_generation_placeholder item) out.

Definition is_type (item : V) (type : string) : bool := bool_decide (get_str item "type" = Some type).

(** The arms of the match on the type of an event. *)
Definition output_item (v : V) (r : ResponsesTurn) : option ResponsesTurn :=
  match json_get v "item" with
  | None => Some r
  | Some item =>
      if is_type item "function_call" then
        let name := default "tool" (get_str item "name") in
        let output_index := as_u32 (default (rt_next_tool_index r) (get_u64 v "output_index")) in
        if (u32_max <? output_index + 1)%Z then None
        else Some (mkResponsesTurn (rt_text r) (tool_entry output_index (with_name name) (rt_tool_calls r)) (rt_images r)
                                   (Z.max (rt_next_tool_index r) (output_index + 1)))
      else if is_type item "image_generation_call" then
        Some (rt_with_images (upsert_image_generation (rt_images r) item) r)
      else Some r
  end.

Definition arguments_event (v : V) (f : ToolAccum -> ToolAccum) (r : ResponsesTurn) : ResponsesTurn :=
  match as_u32 <$> get_u64 v "output_index" with
  | Some idx => rt_with_tools (tool_entry idx f (rt_tool_calls r)) r
  | None => rt_with_tools (bt_update_last f (rt_tool_calls r)) r
  end.

Definition response_completed (v : V) (r : ResponsesTurn) : ResponsesTurn :=
  match json_get v "response" ≫= fun resp => get_array resp "output" with
  | Some output =>
      rt_with_images (foldl (fun m item => if is_type item "image_generation_call"
                                           then upsert_image_generation m item else m) (rt_images r) output) r
  | None => r
  end.

Definition responses_event (v : V) (r : ResponsesTurn) : option ResponsesTurn :=
  let event_type := default "" (get_str v "type") in
  if event_type =? "response.output_text.delta" then
    Some (match get_str v "delta" with Some delta => rt_push_text delta r | None => r end)
  else if event_type =? "response.output_text.done" then
    Some (match get_str v "text" with
          | Some done_ => if is_empty (rt_text r) then rt_push_text done_ r else r | None => r end)
  else if (event_type =? "response.output_item.added") || (event_type =? "response.output_item.done") then
    output_item v r
  else if event_type =? "response.function_call_arguments.delta" then
    Some (match get_str v "delta" with Some delta => arguments_event v (push_arguments delta) r | None => r end)
  else if event_type =? "response.function_call_arguments.done" then
    Some (arguments_event v (with_arguments (default "{}" (get_str v "arguments"))) r)
  else if event_type =? "response.completed" then Some (response_completed v r)
  else Some r.

Definition responses_line (r : option ResponsesTurn) (line : string) : option ResponsesTurn :=
  r ← r;
  match data_of_line (trim line) ≫= (fun data => (from_str data : option V)) with
  | Some v => responses_event v r
  | None => Some r
  end.

Definition responses_sse_turn (raw : string) : option string :=
  r ← foldl responses_line (Some responses_turn_new) (lines raw);
  let tool_text := join_assistant_parts (V := V) (rt_text r) (tool_pairs (rt_tool_calls r)) in
  Some (join (nl +:+ nl) ((if is_empty tool_text then [] else [tool_text]) ++ bt_values (rt_images r))%list).

Definition output_texts (item : V) : list string :=
  if is_type item "message" then
    match get_array item "content" with
    | Some parts => omap (fun part => if is_type part "output_text" then get_str part "text" else None) parts
    | None => []
    end
  else if is_type item "function_call" then
    [tool_block "tool" (default "tool" (get_str item "name")) (default "{}" (get_str item "arguments"))]
  else if is_type item "image_generation_call" then [format_image_generation_placeholder item]
  else [].
Definition responses_assistant_from_json (body : V) : option string :=
  output ← get_array body "output";
  match concat (output_texts <$> output) with
  | [] => None
  | texts => Some (join (nl +:+ nl) texts)
  end.

(** ** [assistant.rs] and [request.rs] *)

Definition extract_assistant_turn_from_sse (raw : string) : option string :=
  let anthropic := anthropic_sse_turn (V := V) raw in
  if negb (is_empty anthropic) then Some anthropic
  else
    let completions := completions_sse_turn (V := V) raw in
    if negb (is_empty completions) then Some completions else responses_sse_turn raw.

Definition extract_assistant_text_from_json (body : V) : option (option string) :=
  match as_str body with
  | Some s =>
      if contains_str "event:" s && contains_str "data:" s then
        text ← extract_assistant_turn_from_sse s;
        Some (if negb (is_empty text) then Some text else None)
      else Some None
  | None =>
      Some (or_else (completions_assistant_from_json body)
              (or_else (anthropic_assistant_from_json body) (responses_assistant_from_json body)))
  end.

(** [serde_json::from_slice] on the bytes of a body that is UTF-8. *)
Definition extract_user_message_from_request_body (body : string) : option string :=
  v ← (from_str body : option V);
  or_else (extract_user_from_messages v) (extract_user_from_responses_input v).

Definition count_visible_user_messages (v : V) : nat :=
  match get_array v "messages" with
  | Some messages => length (filter (fun msg => user_message_has_visible_text msg = true) messages)
  | None => match json_get v "input" with Some input => count_responses_input_user_turns input | None => 0 end
  end.

(** ** [heuristics.rs] *)

Definition content_contains (tag : string) (c : V) : bool :=
  match as_str c, as_array c with
  | Some s, _ => contains_str tag s
  | None, Some parts => existsb (fun p => is_some_and (get_str p "text") (contains_str tag)) parts
  | None, None => false
  end.
Definition contains_task_notification : string -> bool := contains_str "<task-notification>".
Definition message_contains_task_notification (msg : V) : bool :=
  is_some_and (json_get msg "content") (content_contains "<task-notification>").
Definition is_main_agent_continuation_payload (payload : V) : bool :=
  if is_some_and (get_str payload "user_content") contains_task_notification then true
  else is_some_and (get_array payload "messages") (existsb message_contains_task_notification).
Definition is_main_agent_continuation (body : string) : bool :=
  is_some_and (from_str body : option V) is_main_agent_continuation_payload.

Definition content_contains_session_tag : V -> bool := content_contains "<session>".
Definition is_subagent_shape_payload (payload : V) : bool :=
  let model := default "" (get_str payload "model") in
  if negb (contains_str "flash" model) && negb (contains_str "haiku" model) then false
  else if is_some_and (get_str payload "user_content") (contains_str "<session>") then true
  else is_some_and (get_array payload "messages")
         (existsb (fun msg => is_some_and (json_get msg "content") content_contains_session_tag)).

(** ** The projections of [record.rs] *)

Definition non_empty (s : string) : option string := if blank s then None else Some s.

Definition llm_inner_body (payload : V) : option V :=
  wrap ← json_get payload "body";
  if bool_decide (is_Some (json_get wrap "messages")) || bool_decide (is_Some (json_get wrap "choices"))
  then Some wrap else json_get wrap "body".

(** [record::content_to_string]. *)
Definition content_to_string (v : V) : option string :=
  match as_str v, as_array v with
  | Some s, _ => Some s
  | None, Some parts =>
      match omap (fun p => get_str p "text") parts with
      | [] => None
      | out => Some (join nl out)
      end
  | None, None => None
  end.

Definition user_message_text (msg : V) : option string :=
  if bool_decide (get_str msg "role" = Some "user") then json_get msg "content" ≫= content_to_string else None.

Definition visible_user_from_payload (payload : V) : option string :=
  match get_str payload "user_content" with
  | Some s => non_empty s
  | None =>
      messages ← or_else (llm_inner_body payload ≫= fun b => json_get b "messages") (json_get payload "messages") ≫= as_array;
      find_map user_message_text (reverse messages) ≫= non_empty
  end.

(** The text of a body that is a string of events, when it has any. *)
Definition sse_text (body : option V) : option (option string) :=
  match body ≫= as_str with
  | Some s => text ← extract_assistant_turn_from_sse s; Some (non_empty text)
  | None => Some None
  end.

Definition visible_assistant_fallback (payload : V) : option string :=
  let choices := or_else (llm_inner_body payload ≫= fun b => json_get b "choices")
                   (or_else (json_get payload "body" ≫= fun b => json_get b "choices") (json_get payload "choices")) in
  let content := items ← choices ≫= as_array; c ← head items; m ← json_get c "message"; json_get m "content" in
  or_else (content ≫= content_to_string)
          (json_get payload "content" ≫= content_to_string) ≫= non_empty.

Definition visible_assistant_from_payload (payload : V) : option (option string) :=
  match get_str payload "assistant_content" with
  | Some s => Some (non_empty s)
  | None =>
      outer ← sse_text (json_get payload "body");
      match outer with
      | Some t => Some (Some t)
      | None =>
          inner ← sse_text (llm_inner_body payload);
          match inner with
          | Some t => Some (Some t)
          | None =>
              json ← match llm_inner_body payload with
                     | Some body => extract_assistant_text_from_json body
                     | None => Some None
                     end;
              Some (match json with
                    | Some text => non_empty text
                    | None => visible_assistant_fallback payload
                    end)
          end
      end
  end.
End Responses.
