(* ===== verification/JsonTree.v ===== *)
(** * A concrete JSON library

    An instance of [JsonOps] that satisfies [JsonLaws]: trees with sorted
    members, a parser and the two printers. It shows that the laws can hold and
    lets the extraction of dialogue text run on the texts of the sources'
    tests. Numbers are integers; of the escapes of strings the parser knows the
    single characters. *)
From stdpp Require Import base tactics list strings pretty.
From Stdlib Require Import ZArith Lia Ascii.
From S2P Require Import Prelude RustStr Json.
Local Open Scope string_scope.

Inductive Json :=
| JNull
| JBool (b : bool)
| JNum (n : Z)
| JStr (s : string)
| JArr (items : list Json)
| JObj (members : list (string * Json)).

Definition quote : ascii := "034"%char.
Definition quoted (s : string) : string := String quote (s +:+ String quote "").

(** ** Printing *)

Fixpoint display (v : Json) : string :=
  match v with
  | JNull => "null"
  | JBool b => if b then "true" else "false"
  | JNum n => pretty n
  | JStr s => quoted s
  | JArr items => "[" +:+ join "," (map display items) +:+ "]"
  | JObj members => "{" +:+ join "," (map (fun '(k, v) => quoted k +:+ ":" +:+ display v) members) +:+ "}"
  end.

Definition indented (indent : string) (open close : string) (pieces : list string) : string :=
  match pieces with
  | [] => open +:+ close
  | _ => open +:+ nl +:+ join ("," +:+ nl) (map (fun p => indent +:+ "  " +:+ p) pieces) +:+ nl +:+ indent +:+ close
  end.
Fixpoint display_pretty (indent : string) (v : Json) : string :=
  match v with
  | JArr items => indented indent "[" "]" (map (display_pretty (indent +:+ "  ")) items)
  | JObj members =>
      indented indent "{" "}" (map (fun '(k, v) => quoted k +:+ ": " +:+ display_pretty (indent +:+ "  ") v) members)
  | _ => display v
  end.

(** ** Parsing *)

Fixpoint skip_ws (s : bytes) : bytes :=
  match s with
  | c :: rest => if bool_decide (c ∈ [" "; "009"; "010"; "013"]%char) then skip_ws rest else s
  | [] => []
  end.

Definition unescape (c : ascii) : option ascii :=
  if Ascii.eqb c "n" then Some "010"%char
  else if Ascii.eqb c "t" then Some "009"%char
  else if Ascii.eqb c "r" then Some "013"%char
  else if Ascii.eqb c quote || Ascii.eqb c "\" || Ascii.eqb c "/" then Some c
  else None.

(** What follows the opening quote of a string. *)
Fixpoint parse_chars (s : bytes) : option (bytes * bytes) :=
  match s with
  | [] => None
  | c :: s =>
      if Ascii.eqb c quote then Some ([], s)
      else if Ascii.eqb c "\" then
        match s with
        | e :: s => u ← unescape e; r ← parse_chars s; Some (u :: fst r, snd r)
        | [] => None
        end
      else r ← parse_chars s; Some (c :: fst r, snd r)
  end.

Fixpoint parse_digits (acc : Z) (s : bytes) : Z * bytes :=
  match s with
  | c :: rest => if is_ascii_digit c then parse_digits (10 * acc + (byte_val c - 48))%Z rest else (acc, s)
  | [] => (acc, [])
  end.

Definition expect (c : ascii) (s : bytes) : option bytes := strip_prefix_bytes [c] (skip_ws s).

Fixpoint parse_value (fuel : nat) (s : bytes) : option (Json * bytes) :=
  match fuel with
  | O => None
  | S fuel =>
      match skip_ws s with
      | [] => None
      | c :: rest =>
          if Ascii.eqb c "{" then
            match expect "}" rest with
            | Some rest => Some (JObj [], rest)
            | None => parse_members fuel [] rest
            end
          else if Ascii.eqb c "[" then
            match expect "]" rest with
            | Some rest => Some (JArr [], rest)
            | None => parse_items fuel [] rest
            end
          else if Ascii.eqb c quote then r ← parse_chars rest; Some (JStr (of_bytes (fst r)), snd r)
          else if is_ascii_digit c then let '(n, rest) := parse_digits 0 (c :: rest) in Some (JNum n, rest)
          else if Ascii.eqb c "-" then let '(n, rest) := parse_digits 0 rest in Some (JNum (- n)%Z, rest)
          else match strip_prefix_bytes (to_bytes "true") (c :: rest), strip_prefix_bytes (to_bytes "false") (c :: rest),
                     strip_prefix_bytes (to_bytes "null") (c :: rest) with
               | Some rest, _, _ => Some (JBool true, rest)
               | _, Some rest, _ => Some (JBool false, rest)
               | _, _, Some rest => Some (JNull, rest)
               | _, _, _ => None
               end
      end
  end
with parse_members (fuel : nat) (members : list (string * Json)) (s : bytes) : option (Json * bytes) :=
  match fuel with
  | O => None
  | S fuel =>
      s ← expect quote s; k ← parse_chars s; s ← expect ":" (snd k); v ← parse_value fuel s;
      let members := bt_update str_ltb (of_bytes (fst k)) (fun _ => fst v) members in
      match expect "," (snd v), expect "}" (snd v) with
      | Some rest, _ => parse_members fuel members rest
      | None, Some rest => Some (JObj members, rest)
      | None, None => None
      end
  end
with parse_items (fuel : nat) (items : list Json) (s : bytes) : option (Json * bytes) :=
  match fuel with
  | O => None
  | S fuel =>
      v ← parse_value fuel s;
      let items := (items ++ [fst v])%list in
      match expect "," (snd v), expect "]" (snd v) with
      | Some rest, _ => parse_items fuel items rest
      | None, Some rest => Some (JArr items, rest)
      | None, None => None
      end
  end.

Definition parse (s : string) : option Json :=
  r ← parse_value (2 * len s + 2) (to_bytes s);
  match skip_ws (snd r) with [] => Some (fst r) | _ => None end.

(** ** The instance *)

#[export] Instance json_ops : JsonOps Json := {
  json_get v k := match v with JObj m => bt_get k m | _ => None end;
  as_str v := match v with JStr s => Some s | _ => None end;
  as_array v := match v with JArr l => Some l | _ => None end;
  as_u64 v := match v with JNum n => if (0 <=? n)%Z && (n <=? u64_max)%Z then Some n else None | _ => None end;
  is_null v := match v with JNull => true | _ => false end;
  json_display := display;
  to_string_pretty v := Some (display_pretty "" v);
  from_str := parse;
  json_str := JStr;
  json_u32 := JNum;
  index_assign v k x :=
    match v with
    | JObj m => Some (JObj (bt_update str_ltb k (fun _ => x) m))
    | JNull => Some (JObj [(k, x)])
    | _ => None
    end
}.

#[export] Instance json_laws : JsonLaws Json.
Proof.
  split; cbn; unfold u32_max, u64_max.
  - reflexivity.
  - intros n ?. replace ((0 <=? n)%Z && (n <=? 2 ^ 64 - 1)%Z) with true; [reflexivity|].
    symmetry. apply andb_true_iff. split; apply Z.leb_le; lia.
  - by intros [] ? [=].
  - by intros [] ? ? [=].
  - by intros [] ? ? [=].
  - intros [] k x v' [= <-]; [by cbn; rewrite decide_True|apply bt_get_update_insert].
  - intros [] k x v' k' [= <-] ?; [by cbn; rewrite decide_False|by apply bt_get_update_ne].
  - intros [] k x v' k' y [= <-]; eexists; reflexivity.
  - by intros [] ? ? ? [=].
  - by intros [] ? ? ? [=].
Qed.
