(* ===== verification/DialogueFacts.v ===== *)
(** * Properties of the extraction of dialogue text

    The incremental parsers do not depend on how a stream is cut into chunks,
    what a model only thinks is never shown, and what counts as a visible part
    of a request is what is shown of it. The tests of the sources are evaluated
    on the concrete library of [JsonTree]. *)
From stdpp Require Import base tactics list strings.
From Stdlib Require Import ZArith Lia Ascii.
From S2P Require Import Prelude RustStr Json Dialogue DialogueText JsonTree.
Local Open Scope string_scope.

Lemma concat_snoc (l : list string) c : String.concat "" (l ++ [c]) = String.concat "" l +:+ c.
Proof.
  induction l as [|x l IH]; [by apply to_bytes_inj; rewrite to_bytes_app|].
  destruct l as [|y l]; [done|]. cbn [app] in *. cbn [String.concat] in *. rewrite IH.
  apply to_bytes_inj. by rewrite !to_bytes_app, <- !app_assoc.
Qed.

(** ** Chunks of a Chat Completions stream *)
Section Chunks.
Context {V : Type} `{JsonOps V, Blake3}.

(** A line changes the text and the tool calls, and depends on them only. *)
Lemma process_data_line_frame c s p l :
  process_data_line (V := V) (mkCompletionsParser c (cp_text p) (cp_tool_calls p) s) l =
  let p' := process_data_line (V := V) p l in mkCompletionsParser c (cp_text p') (cp_tool_calls p') s.
Proof.
  unfold process_data_line. destruct (data_of_line l) as [data|]; [|done].
  destruct (from_str data ≫= first_choice) as [choice|]; [|done]. cbn zeta.
  destruct (json_get choice "delta") as [delta|], (json_get choice "message") as [message|]; try done;
    unfold process_delta, process_message; repeat case_match; try done; simplify_eq/=; congruence.
Qed.

Lemma run_lines_frame c s p ls :
  run_lines (process_data_line (V := V)) (mkCompletionsParser c (cp_text p) (cp_tool_calls p) s) ls =
  let p' := run_lines (process_data_line (V := V)) p ls in mkCompletionsParser c (cp_text p') (cp_tool_calls p') s.
Proof.
  revert p. induction ls as [|l ls IH]; intros p; [done|].
  rewrite !run_lines_cons, process_data_line_frame. cbn zeta. apply (IH (process_data_line p _)).
Qed.

Lemma run_lines_last p ls : cp_last_snapshot (run_lines (process_data_line (V := V)) p ls) = cp_last_snapshot p.
Proof.
  pose proof (run_lines_frame (cp_line_carry p) (cp_last_snapshot p) p ls) as E.
  destruct p as [c t m s]. cbn [cp_line_carry cp_text cp_tool_calls cp_last_snapshot] in *. by rewrite E.
Qed.

Lemma ingest_chunk_run (p : CompletionsSseToolParser) c :
  let cut := cut_lines (to_bytes (cp_line_carry p) ++ to_bytes c)%list in
  ingest_chunk (V := V) p c = cp_with_carry (of_bytes (snd cut)) (run_lines (process_data_line (V := V)) p (fst cut)).
Proof. unfold ingest_chunk. by rewrite drain_lines_run, to_bytes_app. Qed.

Lemma ingest_chunk_app p a b :
  ingest_chunk (V := V) (ingest_chunk (V := V) p a) b = ingest_chunk (V := V) p (a +:+ b).
Proof.
  rewrite !ingest_chunk_run. cbn zeta. rewrite to_bytes_app, app_assoc, (cut_lines_app (_ ++ to_bytes a)%list).
  destruct (cut_lines (to_bytes (cp_line_carry p) ++ to_bytes a)%list) as [la ra].
  cbn [fst snd cp_with_carry cp_line_carry]. rewrite to_of_bytes.
  destruct (cut_lines (ra ++ to_bytes b)%list) as [lb rb]. cbn [fst snd].
  unfold cp_with_carry at 2. rewrite run_lines_frame. unfold cp_with_carry. cbn zeta.
  by rewrite !run_lines_last, run_lines_app.
Qed.

Lemma ingest_chunk_last s p c :
  ingest_chunk (V := V) (cp_with_last s p) c = cp_with_last s (ingest_chunk (V := V) p c).
Proof. rewrite !ingest_chunk_run. cbn [cp_line_carry cp_with_last]. unfold cp_with_last at 1. by rewrite run_lines_frame. Qed.

Lemma cp_push_chunk_ingest p c : exists s, snd (cp_push_chunk (V := V) p c) = cp_with_last s (ingest_chunk (V := V) p c).
Proof.
  unfold cp_push_chunk. exists (if is_empty (cp_snapshot (V := V) (ingest_chunk (V := V) p c)) then cp_last_snapshot (ingest_chunk (V := V) p c)
    else Some (cp_snapshot (V := V) (ingest_chunk (V := V) p c))).
  destruct (is_empty _); [by destruct (ingest_chunk p c)|]. case_bool_decide as E; [|done].
  rewrite <- E. by destruct (ingest_chunk p c).
Qed.

(** The parser after the chunks is the parser after their concatenation. *)
Lemma push_chunks_ingest p a s chunks : exists s',
  foldl (fun p c => snd (cp_push_chunk (V := V) p c)) (cp_with_last s (ingest_chunk (V := V) p a)) chunks =
  cp_with_last s' (ingest_chunk (V := V) p (a +:+ String.concat "" chunks)).
Proof.
  revert a s. induction chunks as [|c chunks IH]; intros a s.
  - exists s. cbn. f_equal. f_equal. apply to_bytes_inj. by rewrite to_bytes_app, app_nil_r.
  - cbn [foldl]. destruct (cp_push_chunk_ingest (cp_with_last s (ingest_chunk p a)) c) as [s1 ->].
    rewrite ingest_chunk_last, ingest_chunk_app. destruct (IH (a +:+ c) s1) as [s' IH'].
    exists s'. replace (cp_with_last s1 (cp_with_last s (ingest_chunk p (a +:+ c))))
      with (cp_with_last s1 (ingest_chunk (V := V) p (a +:+ c))) by done.
    rewrite IH'. f_equal. f_equal. apply to_bytes_inj. rewrite !to_bytes_app, <- app_assoc. f_equal.
    destruct chunks; cbn [String.concat]; by rewrite ?to_bytes_app, ?app_nil_r.
Qed.

Lemma finish_snapshot_last s p :
  cp_snapshot (V := V) (cp_finish (V := V) (cp_with_last s p)) = cp_snapshot (V := V) (cp_finish (V := V) p).
Proof.
  unfold cp_finish. cbn [cp_line_carry cp_with_last]. destruct (is_empty _); [done|].
  unfold cp_with_last, cp_with_carry. cbn [cp_text cp_tool_calls]. by rewrite !process_data_line_frame.
Qed.
End Chunks.

(** The text extracted from a Chat Completions stream does not depend on
    how the transport cut it: pushing the chunks one by one, with snapshots
    taken in between, and finishing gives the text of the whole stream. *)
Theorem completions_chunks_irrelevant {V : Type} `{JsonOps V, Blake3} (chunks : list string) :
  cp_snapshot (V := V)
    (cp_finish (V := V) (foldl (fun p c => snd (cp_push_chunk (V := V) p c)) completions_default chunks)) =
  completions_sse_turn (V := V) (String.concat "" chunks).
Proof.
  destruct (push_chunks_ingest (V := V) completions_default "" None chunks) as [s Hs].
  transitivity (cp_snapshot (V := V) (cp_finish (V := V) (cp_with_last s (ingest_chunk (V := V) completions_default (String.concat "" chunks))))).
  - f_equal. f_equal. exact Hs.
  - apply finish_snapshot_last.
Qed.

(** ** Chunks of an Anthropic stream *)
Section BlockChunks.
Context {V : Type} `{JsonOps V, Blake3}.

Lemma bp_process_line_frame c d p l :
  bp_process_line (V := V) (mkBlockParser c (bp_by_index p) (bp_order p) d) l =
  let '(b, p') := bp_process_line (V := V) p l in (b, mkBlockParser c (bp_by_index p') (bp_order p') d).
Proof.
  unfold bp_process_line. destruct (data_of_line l ≫= _) as [v|]; [|done].
  destruct (get_str v "type") as [type|]; [|done].
  destruct (type =? "content_block_start"); [done|].
  destruct (type =? "content_block_delta"); [unfold block_delta; by destruct (json_get v "delta")|].
  by destruct (type =? "content_block_stop").
Qed.

(** What a run of lines does to the open blocks, and the blocks it completes. *)
Definition run_blocks (p : SseStreamBlockParser) (ls : list bytes) : SseStreamBlockParser * list ContentBlock :=
  run_lines (bp_step (V := V)) (mkBlockParser "" (bp_by_index p) (bp_order p) [], []) ls.

Lemma bp_step_frame c d n p l :
  bp_step (V := V) (mkBlockParser c (bp_by_index p) (bp_order p) d, n) l =
  let '(b, p') := bp_process_line (V := V) p l in
  let new := match b with Some b => [b] | None => [] end in
  (mkBlockParser c (bp_by_index p') (bp_order p') (d ++ new)%list, (n ++ new)%list).
Proof.
  unfold bp_step. rewrite bp_process_line_frame. destruct (bp_process_line p l) as [[b|] p'].
  - done.
  - by rewrite !app_nil_r.
Qed.

Lemma run_blocks_frame c d n p ls :
  run_lines (bp_step (V := V)) (mkBlockParser c (bp_by_index p) (bp_order p) d, n) ls =
  let '(p', new) := run_blocks p ls in
  (mkBlockParser c (bp_by_index p') (bp_order p') (d ++ new)%list, (n ++ new)%list).
Proof.
  unfold run_blocks. revert c d n p. induction ls as [|l ls IH]; intros c d n p.
  - cbn. by rewrite !app_nil_r.
  - rewrite !run_lines_cons, !bp_step_frame.
    destruct (bp_process_line p (trim (of_bytes l))) as [b p']. cbn [app].
    set (new := match b with Some b => [b] | None => [] end). rewrite (IH c (d ++ new)%list), (IH "" new new). destruct (run_lines bp_step _ ls) as [q new']. cbn. by rewrite <- !app_assoc.
Qed.

Lemma bp_push_chunk_run p c :
  bp_push_chunk (V := V) p c =
  let cut := cut_lines (to_bytes (bp_line_carry p) ++ to_bytes c)%list in
  let '(p', new) := run_blocks p (fst cut) in
  (new, mkBlockParser (of_bytes (snd cut)) (bp_by_index p') (bp_order p') (bp_completed p ++ new)%list).
Proof.
  unfold bp_push_chunk. rewrite drain_lines_run, to_bytes_app.
  destruct p as [carry m o d]. pose proof (run_blocks_frame carry d [] (mkBlockParser carry m o d)) as E.
  cbn [bp_by_index bp_order] in E. rewrite E. cbn [bp_line_carry bp_completed].
  by destruct (run_blocks _ _) as [p' new].
Qed.

Lemma run_blocks_app p la lb :
  run_blocks p (la ++ lb)%list =
  let '(p1, n1) := run_blocks p la in let '(p2, n2) := run_blocks p1 lb in
  (mkBlockParser "" (bp_by_index p2) (bp_order p2) (n1 ++ n2)%list, (n1 ++ n2)%list).
Proof.
  unfold run_blocks at 1. rewrite run_lines_app, run_blocks_frame.
  destruct (run_blocks p la) as [p1 n1]. cbn [app]. apply (run_blocks_frame "" n1 n1 p1).
Qed.

Lemma bp_push_chunk_app p a b :
  bp_push_chunk (V := V) p (a +:+ b) =
  let '(na, p1) := bp_push_chunk (V := V) p a in
  let '(nb, p2) := bp_push_chunk (V := V) p1 b in ((na ++ nb)%list, p2).
Proof.
  rewrite !bp_push_chunk_run. cbn zeta. rewrite to_bytes_app, app_assoc, (cut_lines_app (_ ++ to_bytes a)%list).
  destruct (cut_lines (to_bytes (bp_line_carry p) ++ to_bytes a)%list) as [la ra]. cbn [fst snd].
  destruct (cut_lines (ra ++ to_bytes b)%list) as [lb rb] eqn:Eb. cbn [fst snd]. rewrite run_blocks_app.
  destruct (run_blocks p la) as [p1 n1]. rewrite bp_push_chunk_run. cbn [bp_line_carry]. rewrite to_of_bytes, Eb.
  cbn [fst snd]. change (run_blocks (mkBlockParser (of_bytes ra) (bp_by_index p1) (bp_order p1) (bp_completed p ++ n1)%list) lb)
    with (run_blocks p1 lb).
  destruct (run_blocks p1 lb) as [p2 n2]. cbn [bp_by_index bp_order bp_completed]. by rewrite app_assoc.
Qed.
End BlockChunks.

(** The blocks reported while the chunks arrive, and the parser at the end. *)
Definition push_blocks {V : Type} `{JsonOps V} (p : SseStreamBlockParser) (chunks : list string)
    : list ContentBlock * SseStreamBlockParser :=
  foldl (fun '(new, p) c => let '(n, p) := bp_push_chunk (V := V) p c in ((new ++ n)%list, p)) ([], p) chunks.

(** The content blocks of an Anthropic stream do not depend on how the
    transport cut it: the blocks reported chunk by chunk, and the parser they
    leave, are those of the whole stream at once; so is the text at the end. *)
Theorem anthropic_chunks_irrelevant {V : Type} `{JsonOps V, Blake3} (chunks : list string) :
  push_blocks (V := V) block_parser_default chunks = bp_push_chunk (V := V) block_parser_default (String.concat "" chunks)
  /\ format_content_blocks (bp_finish (V := V) (snd (push_blocks (V := V) block_parser_default chunks)))
     = anthropic_sse_turn (V := V) (String.concat "" chunks).
Proof.
  assert (E : push_blocks (V := V) block_parser_default chunks = bp_push_chunk (V := V) block_parser_default (String.concat "" chunks)).
  { unfold push_blocks. induction chunks as [|c chunks IH] using rev_ind; [reflexivity|].
    rewrite foldl_app. cbn [foldl]. rewrite IH, concat_snoc, bp_push_chunk_app.
    by destruct (bp_push_chunk block_parser_default _) as [n p]. }
  split; [exact E|]. by rewrite E.
Qed.

(** ** What a model thinks *)
Section Thinking.
Context {V : Type} `{JsonOps V, Blake3}.

(** A builder without the text of a thinking block. *)
Definition hide (b : BlockBuilder) : BlockBuilder :=
  match bb_kind b with KindThinking => builder_new KindThinking | _ => b end.
Definition hide_all (m : list (Z * BlockBuilder)) : list (Z * BlockBuilder) := prod_map id hide <$> m.
Definition hide_parser (p : SseStreamBlockParser) : SseStreamBlockParser :=
  bp_with_builders (hide_all (bp_by_index p)) (bp_order p) p.
Definition shown_eq (p q : SseStreamBlockParser) : Prop := hide_parser p = hide_parser q.

Lemma hide_all_get k m : bt_get k (hide_all m) = hide <$> bt_get k m.
Proof. induction m as [|[j b] m IH]; cbn; [done|]. by destruct (decide (k = j)). Qed.
Lemma hide_all_remove k m : hide_all (bt_remove k m) = bt_remove k (hide_all m).
Proof. induction m as [|[j b] m IH]; cbn; [done|]. destruct (decide (k = j)); [done|]. cbn. by f_equal. Qed.
Lemma hide_all_update k f m :
  (forall o, hide (f (hide <$> o)) = hide (f o)) ->
  hide_all (bt_update Z.ltb k f m) = hide_all (bt_update Z.ltb k f (hide_all m)).
Proof.
  intros Hf. induction m as [|[j b] m IH]; cbn; [done|].
  assert (Hid : forall b, hide (hide b) = hide b) by by intros [[] ? ?].
  assert (Hall : forall m, hide_all (hide_all m) = hide_all m).
  { intros l. unfold hide_all. rewrite <- list_fmap_compose. apply list_fmap_ext. intros ? [] ?. cbn. by rewrite Hid. }
  destruct (decide (k = j)); cbn; [|destruct (Z.ltb k j); cbn].
  - f_equal; [by rewrite <- (Hf (Some b))|]. symmetry. apply Hall.
  - rewrite Hid. f_equal. f_equal. symmetry. apply Hall.
  - rewrite Hid. by f_equal.
Qed.

Lemma hide_finish b : builder_finish (V := V) (hide b) = builder_finish (V := V) b.
Proof. by destruct b as [[] ? ?]. Qed.
Lemma hide_extend (delta : V) b : hide (extend_builder delta (hide b)) = hide (extend_builder delta b).
Proof. destruct b as [[] t j]; try done. unfold extend_builder. cbn. by repeat case_match. Qed.

Lemma shown_eq_fields p q :
  shown_eq p q <-> bp_line_carry p = bp_line_carry q /\ hide_all (bp_by_index p) = hide_all (bp_by_index q)
                   /\ bp_order p = bp_order q /\ bp_completed p = bp_completed q.
Proof.
  unfold shown_eq, hide_parser, bp_with_builders. split; [by intros [= -> -> -> ->]|].
  by intros (-> & -> & -> & ->).
Qed.

Lemma bp_process_line_shown p q l :
  shown_eq p q ->
  fst (bp_process_line (V := V) p l) = fst (bp_process_line (V := V) q l)
  /\ shown_eq (snd (bp_process_line (V := V) p l)) (snd (bp_process_line (V := V) q l)).
Proof.
  intros Hs. pose proof Hs as (Hc & Hm & Ho & Hd)%shown_eq_fields. unfold bp_process_line.
  destruct (data_of_line l ≫= _) as [v|]; [|done]. destruct (get_str v "type") as [type|]; [|done].
  assert (Hget : forall k, hide <$> bt_get k (bp_by_index p) = hide <$> bt_get k (bp_by_index q)).
  { intros k. by rewrite <- !hide_all_get, Hm. }
  assert (Hord : forall k (a b : list Z), match bt_get k (bp_by_index p) with Some _ => a | None => b end
                               = match bt_get k (bp_by_index q) with Some _ => a | None => b end).
  { intros k a b. specialize (Hget k). by destruct (bt_get k (bp_by_index p)), (bt_get k (bp_by_index q)). }
  destruct (type =? "content_block_start"); [|destruct (type =? "content_block_delta"); [|destruct (type =? "content_block_stop"); [|done]]].
  - split; [done|]. apply shown_eq_fields. cbn. rewrite Hord, Ho. split_and!; try done.
    rewrite (hide_all_update _ _ (bp_by_index p)), (hide_all_update _ _ (bp_by_index q)), Hm; done.
  - split; [done|]. unfold block_delta. destruct (json_get v "delta") as [delta|]; [|done].
    apply shown_eq_fields. cbn. rewrite Hord, Ho. split_and!; try done.
    rewrite (hide_all_update _ _ (bp_by_index p)), (hide_all_update _ _ (bp_by_index q)), Hm; [done| |];
      intros [b|]; cbn; rewrite ?hide_extend; done.
  - cbn. split.
    + specialize (Hget (block_index v)). destruct (bt_get _ (bp_by_index p)) as [b|], (bt_get _ (bp_by_index q)) as [b'|]; try done.
      cbn in Hget |- *. simplify_eq. by rewrite <- (hide_finish b), <- (hide_finish b'), Hget.
    + apply shown_eq_fields. cbn. by rewrite !hide_all_remove, Hm.
Qed.

Lemma run_lines_shown p q n ls :
  shown_eq p q ->
  let r := run_lines (bp_step (V := V)) (p, n) ls in let r' := run_lines (bp_step (V := V)) (q, n) ls in
  snd r = snd r' /\ shown_eq (fst r) (fst r').
Proof.
  cbn zeta. revert p q n. induction ls as [|l ls IH]; intros p q n Hs; [done|]. rewrite !run_lines_cons.
  destruct (bp_process_line_shown p q (trim (of_bytes l)) Hs) as [Hb Hs']. unfold bp_step at 2 4 6 8.
  destruct (bp_process_line p _) as [b p'], (bp_process_line q _) as [b' q']. cbn in Hb, Hs'. subst b'.
  destruct b as [b|]; apply IH; [|done].
  apply shown_eq_fields in Hs' as (? & ? & ? & Hd). apply shown_eq_fields. cbn. by rewrite Hd.
Qed.

Lemma bp_push_chunk_shown p q c :
  shown_eq p q ->
  fst (bp_push_chunk (V := V) p c) = fst (bp_push_chunk (V := V) q c)
  /\ shown_eq (snd (bp_push_chunk (V := V) p c)) (snd (bp_push_chunk (V := V) q c)).
Proof.
  intros Hs. unfold bp_push_chunk. pose proof Hs as (Hc & _)%shown_eq_fields. rewrite !drain_lines_run, Hc.
  set (ls := fst (cut_lines _)). destruct (run_lines_shown p q [] ls Hs) as [Hn Hs'].
  destruct (run_lines bp_step (p, []) ls) as [p' n], (run_lines bp_step (q, []) ls) as [q' n']. cbn in *.
  split; [done|]. apply shown_eq_fields in Hs' as (? & ? & ? & ?). by apply shown_eq_fields.
Qed.

Lemma finish_blocks_shown order m m' d :
  hide_all m = hide_all m' -> finish_blocks (V := V) order m d = finish_blocks (V := V) order m' d.
Proof.
  revert m m' d. induction order as [|k order IH]; intros m m' d Hm; [done|]. cbn.
  assert (Hget : hide <$> bt_get k m = hide <$> bt_get k m') by by rewrite <- !hide_all_get, Hm.
  destruct (bt_get k m) as [b|], (bt_get k m') as [b'|]; try done; [|by apply IH].
  cbn in Hget. simplify_eq. rewrite <- (hide_finish b), <- (hide_finish b'), Hget.
  apply IH. by rewrite !hide_all_remove, Hm.
Qed.

Lemma push_blocks_shown p q chunks :
  shown_eq p q ->
  fst (push_blocks (V := V) p chunks) = fst (push_blocks (V := V) q chunks)
  /\ shown_eq (snd (push_blocks (V := V) p chunks)) (snd (push_blocks (V := V) q chunks)).
Proof.
  intros Hs. unfold push_blocks. generalize (@nil ContentBlock) at 1 2 3 4 as n.
  revert p q Hs. induction chunks as [|c chunks IH]; intros p q Hs n; [done|]. cbn [foldl].
  destruct (bp_push_chunk_shown p q c Hs) as [Hn Hs'].
  destruct (bp_push_chunk p c) as [n1 p1], (bp_push_chunk q c) as [n2 q1]. cbn in Hn, Hs'. subst n2. by apply IH.
Qed.

Lemma thinking_delta_shown p (v : V) :
  bt_sorted (bp_by_index p) ->
  bb_kind <$> bt_get (block_index v) (bp_by_index p) = Some KindThinking -> shown_eq (block_delta v p) p.
Proof.
  intros Hs Hk. unfold block_delta. destruct (json_get v "delta") as [delta|]; [|done].
  apply shown_eq_fields. destruct (bt_get _ (bp_by_index p)) as [b|] eqn:Hg; [|done]. cbn. split_and!; try done.
  destruct p as [carry m o d]. cbn in *. clear carry o d. induction m as [|[j b'] m IH]; cbn in *; [done|].
  destruct (decide (block_index v = j)); cbn.
  - simplify_eq/=. f_equal. f_equal. destruct b as [k t js]. cbn in Hk. subst k.
    unfold extend_builder. cbn. by repeat case_match.
  - inversion Hs as [|? ? Hm Hj]; subst. specialize (IH Hm Hg).
    destruct (Z.ltb (block_index v) j) eqn:E; cbn; [|by f_equal]. apply Z.ltb_lt in E. rewrite bt_get_below in Hg; [done|].
    eapply Forall_impl; [exact Hj|]. cbn. lia.
Qed.

(** The keys of the open blocks stay in order. *)
Lemma bp_process_line_sorted p l :
  bt_sorted (bp_by_index p) -> bt_sorted (bp_by_index (snd (bp_process_line (V := V) p l))).
Proof.
  intros Hs. unfold bp_process_line. destruct (data_of_line l ≫= _) as [v|]; [|done].
  destruct (get_str v "type") as [type|]; [|done].
  destruct (type =? "content_block_start"); [by apply bt_update_sorted|].
  destruct (type =? "content_block_delta");
    [unfold block_delta; destruct (json_get v "delta"); [by apply bt_update_sorted|done]|].
  destruct (type =? "content_block_stop"); [by apply bt_remove_sorted|done].
Qed.

Lemma push_blocks_sorted p chunks :
  bt_sorted (bp_by_index p) -> bt_sorted (bp_by_index (snd (push_blocks (V := V) p chunks))).
Proof.
  intros Hs. unfold push_blocks. generalize (@nil ContentBlock) as n. revert p Hs.
  induction chunks as [|c chunks IH]; intros p Hs n; [done|]. cbn [foldl].
  destruct (bp_push_chunk p c) as [n1 p1] eqn:E. apply IH. revert E.
  unfold bp_push_chunk. rewrite drain_lines_run. generalize (fst (cut_lines (to_bytes (bp_line_carry p +:+ c)))) as ls.
  intros ls. destruct (run_lines bp_step (p, []) ls) as [p' n'] eqn:E'. intros [= _ <-]. cbn.
  revert E'. generalize (@nil ContentBlock) as n0. revert p Hs.
  induction ls as [|l ls IHl]; intros p Hs n0; [by intros [= <- _]|]. rewrite run_lines_cons. unfold bp_step at 2.
  pose proof (bp_process_line_sorted p (trim (of_bytes l)) Hs) as Hs'.
  destruct (bp_process_line p _) as [[b|] q]; by apply IHl.
Qed.
End Thinking.

(** What a model only thinks is never shown. Whatever a stream has sent
    before, once a block is announced as thinking every further delta of it is
    without effect: the blocks reported afterwards, the blocks at the end and
    the text made of them are the same with the delta and without it. *)
Theorem thinking_never_shown {V : Type} `{JsonOps V, Blake3} (before after : list string) (v : V) :
  let p := snd (push_blocks (V := V) block_parser_default before) in
  bb_kind <$> bt_get (block_index v) (bp_by_index p) = Some KindThinking ->
  let with_delta := push_blocks (V := V) (block_delta v p) after in
  let without := push_blocks (V := V) p after in
  fst with_delta = fst without
  /\ accumulated_assistant_text (snd with_delta) = accumulated_assistant_text (snd without)
  /\ bp_finish (V := V) (snd with_delta) = bp_finish (V := V) (snd without).
Proof.
  intros p Hk with_delta without.
  assert (Hs : bt_sorted (bp_by_index p)) by (apply push_blocks_sorted; constructor).
  destruct (push_blocks_shown _ _ after (thinking_delta_shown p v Hs Hk)) as [Hn Hs'].
  apply shown_eq_fields in Hs' as (_ & Hm & Ho & Hd). split_and!; [done| |].
  - unfold accumulated_assistant_text, with_delta, without. by rewrite Hd.
  - unfold bp_finish, with_delta, without. rewrite Ho, Hd. by apply finish_blocks_shown.
Qed.

(** ** The end of a stream *)

Lemma cut_lines_no_newline t : "010"%char ∉ t -> cut_lines t = ([], t).
Proof.
  induction t as [|x t IH]; cbn; [done|]. intros [Hx Ht]%not_elem_of_cons. rewrite IH by done.
  by rewrite decide_False.
Qed.

(** An unterminated line only extends the last piece of a text. *)
Lemma cut_lines_unterminated s t :
  "010"%char ∉ t -> cut_lines (s ++ t)%list = (fst (cut_lines s), (snd (cut_lines s) ++ t)%list).
Proof.
  intros Ht. induction s as [|x s IH]; cbn [cut_lines app fst snd]; [by apply cut_lines_no_newline|].
  rewrite IH. destruct (cut_lines s) as [[|l ls] rest]; cbn; by destruct (decide (x = "010"%char)).
Qed.

(** The Anthropic parser handles a line when its newline arrives, and its
    [finish] does not handle what is left: the text after the last newline of a
    stream is never part of the answer. *)
Theorem unterminated_line_dropped {V : Type} `{JsonOps V, Blake3} (s t : string) :
  contains "010" t = false -> anthropic_sse_turn (V := V) (s +:+ t) = anthropic_sse_turn (V := V) s.
Proof.
  intros Ht. unfold anthropic_sse_turn, parse_sse_content_blocks. rewrite !bp_push_chunk_run. cbn zeta.
  rewrite to_bytes_app. cbn [bp_line_carry block_parser_default].
  change (to_bytes "" ++ to_bytes s ++ to_bytes t)%list with (to_bytes s ++ to_bytes t)%list.
  change (to_bytes "" ++ to_bytes s)%list with (to_bytes s). rewrite cut_lines_unterminated.
  - cbn [fst snd]. by destruct (run_blocks block_parser_default (fst (cut_lines (to_bytes s)))) as [p' new].
  - intros Hin. apply contains_spec in Hin. congruence.
Qed.

(** ** Visible parts of a request *)
Section Visible.
Context {V : Type} `{JsonOps V, Blake3}.

Lemma append_visible (out : list string) (part : V) :
  exists new, append_user_content_part out part = (out ++ new)%list
              /\ (new <> [] <-> user_content_part_is_visible part = true).
Proof.
  unfold append_user_content_part, user_content_part_is_visible.
  assert (Hpush : forall o : option string, exists new,
    match o with Some formatted => (out ++ [formatted])%list | None => out end = (out ++ new)%list
    /\ (new <> [] <-> match o with Some _ => true | None => false end = true)).
  { intros [f|]; [by exists [f]|exists []; by rewrite app_nil_r]. }
  assert (Hnone : exists new : list string, out = (out ++ new)%list /\ (new <> [] <-> false = true)).
  { exists []. by rewrite app_nil_r. }
  destruct (_ || _); [|destruct (_ || _); [apply Hpush|]].
  - destruct (get_str part "text") as [text|]; cbn; [|exact Hnone].
    destruct (negb _ && negb _); [by exists [unwrap_session_tag text]|exact Hnone].
  - destruct (_ =? "image"); [apply Hpush|]. destruct (_ =? "image_url"); [apply Hpush|].
    destruct (_ =? "input_image"); [apply Hpush|exact Hnone].
Qed.

Lemma foldl_append_visible (parts : list V) out :
  exists new, foldl append_user_content_part out parts = (out ++ new)%list
              /\ (new <> [] <-> existsb user_content_part_is_visible parts = true).
Proof.
  revert out. induction parts as [|part parts IH]; intros out; cbn [foldl existsb].
  - exists []. by rewrite app_nil_r.
  - destruct (append_visible out part) as (n1 & -> & H1). destruct (IH (out ++ n1)%list) as (n2 & -> & H2).
    exists (n1 ++ n2)%list. split; [by rewrite app_assoc|]. rewrite orb_true_iff, <- H1, <- H2.
    destruct n1 as [|x n1]; cbn; [|split; [by left|done]]. split; [by right|]. by intros [?|?].
Qed.

Lemma parts_shown (parts : list V) :
  is_Some (format_visible_content_from_parts parts) <-> existsb user_content_part_is_visible parts = true.
Proof.
  unfold format_visible_content_from_parts. destruct (foldl_append_visible parts []) as (new & -> & <-).
  cbn [app]. by destruct new; split.
Qed.
End Visible.

(** Counting and extracting agree on what is visible. The parts of a
    message give a text exactly when one of them counts as visible, and a user
    message that counts as a visible turn is the one whose text is extracted
    when it is the last of the user's messages. *)
Theorem visible_is_extracted {V : Type} `{JsonOps V, Blake3} (parts before after : list V) (msg : V) :
  (is_Some (format_visible_content_from_parts parts) <-> existsb user_content_part_is_visible parts = true)
  /\ (user_message_has_visible_text msg = true ->
      Forall (fun m => get_str m "role" <> Some "user") after ->
      is_Some (last_user_message (reverse (before ++ [msg] ++ after)))).
Proof.
  split; [apply parts_shown|]. intros Hv Hafter. rewrite !reverse_app, <- app_assoc.
  replace (last_user_message (reverse after ++ reverse [msg] ++ reverse before)%list)
    with (last_user_message (msg :: reverse before)).
  - cbn [last_user_message]. unfold user_message_has_visible_text in Hv.
    destruct (negb (bool_decide (get_str msg "role" = Some "user"))); [done|].
    destruct (get_str msg "content") as [c|].
    + apply andb_true_iff in Hv as [-> _]. eauto.
    + destruct (get_array msg "content") as [ps|]; [by apply parts_shown|done].
  - rewrite <- Forall_reverse in Hafter. induction Hafter as [|m l Hm _ IH]; [done|].
    rewrite IH. cbn [app last_user_message]. by rewrite (bool_decide_eq_false_2 _ Hm).
Qed.

(** ** The tests of the sources, evaluated *)

#[export] Instance blake3_none : Blake3 := { blake3_hex _ := String.concat "" (replicate 64 "0") }.

(** A text in which double quotes are written as single ones. *)
Definition dq (s : string) : string := of_bytes (map (fun c => if Ascii.eqb c "'" then quote else c) (to_bytes s)).
Definition event (s : string) : string := "data: " +:+ dq s +:+ nl +:+ nl.

Definition thinking_stream : list string :=
  ["event: content_block_start" +:+ nl; event "{'type':'content_block_start','index':0,'content_block':{'type':'thinking'}}"].
Definition thinking_delta : Json :=
  default JNull (parse (dq "{'type':'content_block_delta','index':0,'delta':{'type':'text_delta','text':'secret'}}")).
Definition answer_stream : list string :=
  [event "{'type':'content_block_delta','index':1,'delta':{'type':'text_delta','text':'Hi'}}";
   event "{'type':'content_block_delta','index':1,'delta':{'type':'text_delta','text':'!'}}"].

Lemma thinking_never_shown_witness :
  let p := snd (push_blocks (V := Json) block_parser_default thinking_stream) in
  fst (push_blocks (V := Json) (block_delta thinking_delta p) answer_stream) = []
  /\ format_content_blocks (bp_finish (V := Json) (snd (push_blocks (V := Json) (block_delta thinking_delta p) answer_stream))) = "Hi!".
Proof.
  intros p. destruct (thinking_never_shown (V := Json) thinking_stream answer_stream thinking_delta) as (E1 & _ & E2).
  - vm_compute. reflexivity.
  - cbv zeta in E1, E2. unfold p. split; [rewrite E1|rewrite E2]; vm_compute; reflexivity.
Defined.

Example completions_two_tools :
  completions_sse_turn (V := Json)
    (event "{'choices':[{'index':0,'delta':{'tool_calls':[{'index':0,'function':{'name':'read_file','arguments':''}}]}}]}" +:+
     event "{'choices':[{'index':0,'delta':{'tool_calls':[{'index':0,'function':{'arguments':'{}'}}]}}]}" +:+
     event "{'choices':[{'index':0,'delta':{},'finish_reason':'tool_calls'}]}")
  = tool_block "tool" "read_file" "{}".
Proof. vm_compute. reflexivity. Qed.

Lemma unterminated_line_dropped_witness :
  contains "010" (dq "data: {'type':'content_block_delta','index':1,'delta':{'type':'text_delta','text':'!'}}") = false
  /\ anthropic_sse_turn (V := Json)
       (event "{'type':'content_block_delta','index':1,'delta':{'type':'text_delta','text':'Hi'}}" +:+
        dq "data: {'type':'content_block_delta','index':1,'delta':{'type':'text_delta','text':'!'}}") = "Hi".
Proof.
  split; [vm_compute; reflexivity|]. rewrite unterminated_line_dropped; vm_compute; reflexivity.
Defined.

(** The Chat Completions parser does handle its last line. *)
Example completions_unterminated_line :
  completions_sse_turn (V := Json)
    (event "{'choices':[{'index':0,'delta':{'content':'Hi'}}]}" +:+
     dq "data: {'choices':[{'index':0,'delta':{'content':'!'}}]}") = "Hi!".
Proof. vm_compute. reflexivity. Qed.

Definition user_text (s : string) : Json := JObj [("content", JStr s); ("role", JStr "user")].
Definition user_parts (l : list string) : Json :=
  JObj [("content", JArr ((fun s => JObj [("text", JStr s); ("type", JStr "text")]) <$> l)); ("role", JStr "user")].

Lemma visible_is_extracted_witness :
  is_Some (last_user_message (reverse ([] ++ [user_parts ["<system-reminder>skills"; "hi"]] ++ [JObj [("role", JStr "assistant")]])%list)).
Proof.
  apply (visible_is_extracted [] [] [JObj [("role", JStr "assistant")]]).
  - vm_compute. reflexivity.
  - repeat constructor. vm_compute. discriminate.
Defined.

(** A last message of injected parts hides the visible turn before it, although
    that turn counts; an injected message given as a string does not. *)
Example injected_parts_hide_turn :
  let v := JObj [("messages", JArr [user_text "hi"; user_parts ["<system-reminder>skills"]])] in
  count_visible_user_messages v = 1 /\ extract_user_from_messages v = None.
Proof. vm_compute. split; reflexivity. Qed.
Example injected_text_skipped :
  let v := JObj [("messages", JArr [user_text "hi"; user_text "<system-reminder>skills"])] in
  count_visible_user_messages v = 1 /\ extract_user_from_messages v = Some "hi".
Proof. vm_compute. split; reflexivity. Qed.
