(* ===== verification/PrefixJson.v ===== *)
(** * Instances with exact codecs

    Values written in prefix notation, so that reading is the inverse of
    printing in both directions, and queries written bit by bit. They satisfy
    all laws of [Json] and [Redact]; the properties of redaction are evaluated
    at them. *)
From stdpp Require Import base tactics list sets strings.
From Stdlib Require Import ZArith Lia Ascii.
From S2P Require Import Prelude RustStr Json Redact.
Local Open Scope string_scope.

Inductive Term :=
| TNull
| TBool (b : bool)
| TNum (n : nat)
| TStr (s : bytes)
| TArr (items : list Term)
| TObj (members : list (bytes * Term)).

(** Induction that reaches the items and members. *)
Section Induction.
Variable P : Term -> Prop.
Hypotheses (Hnull : P TNull) (Hbool : forall b, P (TBool b)) (Hnum : forall n, P (TNum n)) (Hstr : forall s, P (TStr s))
  (Harr : forall l, Forall P l -> P (TArr l)) (Hobj : forall m, Forall (fun e => P (snd e)) m -> P (TObj m)).
Fixpoint term_ind' (v : Term) : P v :=
  match v with
  | TNull => Hnull
  | TBool b => Hbool b
  | TNum n => Hnum n
  | TStr s => Hstr s
  | TArr l => Harr l ((fix go l : Forall P l := match l with [] => Forall_nil_2 _ | v :: l => Forall_cons_2 _ _ _ (term_ind' v) (go l) end) l)
  | TObj m => Hobj m ((fix go m : Forall (fun e => P (snd e)) m :=
                         match m with [] => Forall_nil_2 _ | e :: m => Forall_cons_2 _ _ _ (term_ind' (snd e)) (go m) end) m)
  end.
End Induction.

(** ** Printing and reading *)
Local Open Scope list_scope.

(** A half of a character as one of sixteen letters. *)
Definition nibble (a b c d : bool) : ascii := Ascii a b c d false false true false.
Definition unnibble (x : ascii) : option (bool * bool * bool * bool) :=
  match x with Ascii a b c d false false true false => Some (a, b, c, d) | _ => None end.
Fixpoint enc_chars (s : bytes) : bytes :=
  match s with [] => ["e"%char] | Ascii a b c d e f g h :: s => nibble a b c d :: nibble e f g h :: enc_chars s end.
Fixpoint enc_num (n : nat) : bytes := match n with O => ["e"%char] | S n => "1"%char :: enc_num n end.
Fixpoint enc (v : Term) : bytes :=
  match v with
  | TNull => ["n"%char]
  | TBool b => [if b then "t"%char else "f"%char]
  | TNum n => "i"%char :: enc_num n
  | TStr s => "s"%char :: enc_chars s
  | TArr l => "["%char :: foldr (fun v r => enc v ++ r) ["]"%char] l
  | TObj m => "{"%char :: foldr (fun '(k, v) r => "k"%char :: enc_chars k ++ enc v ++ r) ["}"%char] m
  end.

Fixpoint dec_chars (s : bytes) : option (bytes * bytes) :=
  match s with
  | x :: s =>
      if Ascii.eqb x "e" then Some ([], s)
      else
        match s with
        | y :: s =>
            '(a, b, c, d) ← unnibble x; '(e, f, g, h) ← unnibble y; '(p, r) ← dec_chars s; Some (Ascii a b c d e f g h :: p, r)
        | [] => None
        end
  | [] => None
  end.
Fixpoint dec_num (s : bytes) : option (nat * bytes) :=
  match s with
  | x :: s => if Ascii.eqb x "e" then Some (O, s)
              else if Ascii.eqb x "1" then '(n, r) ← dec_num s; Some (S n, r) else None
  | [] => None
  end.

Fixpoint dec (fuel : nat) (s : bytes) : option (Term * bytes) :=
  match fuel, s with
  | S fuel, x :: s =>
      if Ascii.eqb x "n" then Some (TNull, s)
      else if Ascii.eqb x "t" then Some (TBool true, s)
      else if Ascii.eqb x "f" then Some (TBool false, s)
      else if Ascii.eqb x "i" then '(n, r) ← dec_num s; Some (TNum n, r)
      else if Ascii.eqb x "s" then '(p, r) ← dec_chars s; Some (TStr p, r)
      else if Ascii.eqb x "[" then '(l, r) ← dec_items fuel s; Some (TArr l, r)
      else if Ascii.eqb x "{" then '(m, r) ← dec_members fuel s; Some (TObj m, r)
      else None
  | _, _ => None
  end
with dec_items (fuel : nat) (s : bytes) : option (list Term * bytes) :=
  match fuel, s with
  | S fuel, x :: s' =>
      if Ascii.eqb x "]" then Some ([], s')
      else '(v, r) ← dec fuel s; '(l, r) ← dec_items fuel r; Some (v :: l, r)
  | _, _ => None
  end
with dec_members (fuel : nat) (s : bytes) : option (list (bytes * Term) * bytes) :=
  match fuel, s with
  | S fuel, x :: s' =>
      if Ascii.eqb x "}" then Some ([], s')
      else if Ascii.eqb x "k" then
        '(k, r) ← dec_chars s'; '(v, r) ← dec fuel r; '(m, r) ← dec_members fuel r; Some ((k, v) :: m, r)
      else None
  | _, _ => None
  end.

Lemma dec_enc_chars s r : dec_chars (enc_chars s ++ r) = Some (s, r).
Proof.
  induction s as [|[a b c d e f g h] s IH]; [done|]. cbn [enc_chars app dec_chars]. assert (Ascii.eqb (nibble a b c d) "e" = false) as -> by (by destruct a, b, c, d).
  cbn [nibble unnibble mbind option_bind]. by rewrite IH.
Qed.
Lemma dec_enc_num n r : dec_num (enc_num n ++ r) = Some (n, r).
Proof. induction n as [|n IH]; cbn; [done|]. by rewrite IH. Qed.

Lemma enc_nonempty v : exists x s, enc v = x :: s /\ Ascii.eqb x "]" = false.
Proof. destruct v as [| [] | | | |]; cbn; eauto. Qed.

Definition enc_items (l : list Term) : bytes := foldr (fun v r => enc v ++ r) ["]"%char] l.
Definition enc_members (m : list (bytes * Term)) : bytes :=
  foldr (fun '(k, v) r => "k"%char :: enc_chars k ++ enc v ++ r) ["}"%char] m.
Lemma enc_arr l : enc (TArr l) = "["%char :: enc_items l.
Proof. reflexivity. Qed.
Lemma enc_obj m : enc (TObj m) = "{"%char :: enc_members m.
Proof. reflexivity. Qed.

Lemma enc_items_pos l : 0 < length (enc_items l).
Proof. destruct l as [|v l]; cbn; [lia|]. destruct (enc_nonempty v) as (x & s & -> & _). cbn. lia. Qed.
Lemma enc_members_pos m : 0 < length (enc_members m).
Proof. destruct m as [|[k v] m]; cbn; lia. Qed.

Lemma dec_enc_items l r n :
  Forall (fun v => forall n r, length (enc v) < n -> dec n (enc v ++ r) = Some (v, r)) l ->
  length (enc_items l) < n -> dec_items n (enc_items l ++ r) = Some (l, r).
Proof.
  intros Hl. revert n. induction Hl as [|v l Hv _ IH]; intros [|n] Hn; try lia; [done|].
  change (enc_items (v :: l)) with (enc v ++ enc_items l) in *. rewrite length_app in Hn. rewrite <- app_assoc.
  destruct (enc_nonempty v) as (x & s & Ev & Hx). pose proof (enc_items_pos l). specialize (Hv n (enc_items l ++ r)).
  rewrite Ev in *. cbn [app length dec_items] in *. rewrite Hx, Hv by lia. cbn -[dec_items enc_items]. rewrite IH; [done|lia].
Qed.

Lemma dec_enc_members m r n :
  Forall (fun e => forall n r, length (enc (snd e)) < n -> dec n (enc (snd e) ++ r) = Some (snd e, r)) m ->
  length (enc_members m) < n -> dec_members n (enc_members m ++ r) = Some (m, r).
Proof.
  intros Hm. revert n. induction Hm as [|[k v] m Hv _ IH]; intros [|n] Hn; try lia; [done|]. cbn [snd] in Hv.
  change (enc_members ((k, v) :: m)) with ("k"%char :: enc_chars k ++ enc v ++ enc_members m) in *.
  cbn [length] in Hn. rewrite !length_app in Hn. cbn [app dec_members].
  replace (Ascii.eqb "k" "}") with false by reflexivity. replace (Ascii.eqb "k" "k") with true by reflexivity.
  rewrite <- !app_assoc, dec_enc_chars. cbn -[dec dec_members enc_members]. rewrite Hv by lia.
  cbn -[dec_members enc_members]. rewrite IH; [done|lia].
Qed.

Lemma dec_enc v : forall n r, length (enc v) < n -> dec n (enc v ++ r) = Some (v, r).
Proof.
  induction v as [|b|k|s|l IH|m IH] using term_ind'; intros [|n] r Hn; try lia.
  - done.
  - by destruct b.
  - cbn. by rewrite dec_enc_num.
  - cbn. by rewrite dec_enc_chars.
  - rewrite enc_arr in *. cbn [length app] in *. cbn -[dec_items enc_items]. rewrite dec_enc_items; [done|done|lia].
  - rewrite enc_obj in *. cbn [length app] in *. cbn -[dec_members enc_members]. rewrite dec_enc_members; [done|done|lia].
Qed.

Lemma unnibble_exact x a b c d : unnibble x = Some (a, b, c, d) -> x = nibble a b c d.
Proof. destruct x as [? ? ? ? [] [] [] []]; cbn; intros E; by simplify_eq. Qed.
Lemma dec_chars_exact s p r : dec_chars s = Some (p, r) -> s = enc_chars p ++ r.
Proof.
  revert p r. induction s as [s IH] using (induction_ltof1 _ length). unfold ltof in IH. intros p r.
  destruct s as [|x s]; cbn; [done|]. destruct (Ascii.eqb_spec x "e") as [->|_]; [by intros [= <- <-]|].
  destruct s as [|y s]; [done|]. destruct (unnibble x) as [[[[a b] c] d]|] eqn:Ex; [|done]. destruct (unnibble y) as [[[[e f] g] h]|] eqn:Ey; [|done]. cbn.
  destruct (dec_chars s) as [[p' r']|] eqn:E; [|done]. intros [= <- <-]. cbn. apply unnibble_exact in Ex as ->, Ey as ->. do 2 f_equal. apply IH; [cbn; lia|done].
Qed.
Lemma dec_num_exact s n r : dec_num s = Some (n, r) -> s = enc_num n ++ r.
Proof.
  revert n. induction s as [|x s IH]; intros n; cbn; [done|].
  destruct (Ascii.eqb_spec x "e") as [->|_]; [by intros [= <- <-]|].
  destruct (Ascii.eqb_spec x "1") as [->|_]; [|done].
  destruct (dec_num s) as [[n' r']|]; [|done]. intros [= <- <-]. cbn. f_equal. by apply IH.
Qed.

Lemma dec_exact n :
  (forall s v r, dec n s = Some (v, r) -> s = enc v ++ r)
  /\ (forall s l r, dec_items n s = Some (l, r) -> s = enc_items l ++ r)
  /\ (forall s m r, dec_members n s = Some (m, r) -> s = enc_members m ++ r).
Proof.
  induction n as [|n (IHv & IHl & IHm)]; [done|]. split_and!.
  - intros [|x s] v r; [done|]. cbn -[dec_items dec_members].
    repeat match goal with |- context [Ascii.eqb ?y ?c] => destruct (Ascii.eqb_spec y c) as [->|_] end; try done;
      try by intros [= <- <-].
    + destruct (dec_num s) as [[? ?]|] eqn:E; [|done]. intros [= <- <-]. cbn. f_equal. by apply dec_num_exact.
    + destruct (dec_chars s) as [[? ?]|] eqn:E; [|done]. intros [= <- <-]. cbn. f_equal. by apply dec_chars_exact.
    + destruct (dec_items n s) as [[? ?]|] eqn:E; [|done]. intros [= <- <-]. rewrite enc_arr. cbn [app]. f_equal. by apply IHl.
    + destruct (dec_members n s) as [[? ?]|] eqn:E; [|done]. intros [= <- <-]. rewrite enc_obj. cbn [app]. f_equal. by apply IHm.
  - intros [|x s] l r; [done|]. cbn -[dec]. destruct (Ascii.eqb_spec x "]") as [->|_]; [by intros [= <- <-]|].
    destruct (dec n (x :: s)) as [[v r1]|] eqn:E; [|done]. apply IHv in E as ->. cbn.
    destruct (dec_items n r1) as [[l' r2]|] eqn:E2; [|done]. intros [= <- <-]. apply IHl in E2 as ->.
    change (enc_items (v :: l')) with (enc v ++ enc_items l'). by rewrite <- app_assoc.
  - intros [|x s] m r; [done|]. cbn -[dec]. destruct (Ascii.eqb_spec x "}") as [->|_]; [by intros [= <- <-]|].
    destruct (Ascii.eqb_spec x "k") as [->|_]; [|done].
    destruct (dec_chars s) as [[k r0]|] eqn:E0; [|done]. apply dec_chars_exact in E0 as ->. cbn.
    destruct (dec n r0) as [[v r1]|] eqn:E; [|done]. apply IHv in E as ->. cbn.
    destruct (dec_members n r1) as [[m' r2]|] eqn:E2; [|done]. intros [= <- <-]. apply IHm in E2 as ->.
    change (enc_members ((k, v) :: m')) with ("k"%char :: enc_chars k ++ enc v ++ enc_members m').
    cbn [app]. by rewrite <- !app_assoc.
Qed.

(** ** The instances *)

Lemma enc_inj v w : enc v = enc w -> v = w.
Proof.
  intros E. pose proof (dec_enc v (S (length (enc v))) []) as Hv. pose proof (dec_enc w (S (length (enc v))) []) as Hw.
  rewrite <- E in Hw. rewrite Hv in Hw by lia. specialize (Hw ltac:(lia)). congruence.
Qed.

Definition read_term (s : string) : option Term :=
  match dec (S (len s)) (to_bytes s) with Some (v, []) => Some v | _ => None end.

Lemma read_written v : read_term (of_bytes (enc v)) = Some v.
Proof.
  unfold read_term. rewrite <- (length_to_bytes (of_bytes (enc v))), to_of_bytes.
  pose proof (dec_enc v (S (length (enc v))) [] ltac:(lia)) as E. rewrite app_nil_r in E. by rewrite E.
Qed.

#[export] Instance term_ops : JsonOps Term := {
  json_get v k := match v with TObj m => bt_get (to_bytes k) m | _ => None end;
  as_str v := match v with TStr s => Some (of_bytes s) | _ => None end;
  as_array v := match v with TArr l => Some l | _ => None end;
  as_u64 v := match v with TNum n => if (Z.of_nat n <=? u64_max)%Z then Some (Z.of_nat n) else None | _ => None end;
  is_null v := match v with TNull => true | _ => false end;
  json_display v := of_bytes (enc v);
  to_string_pretty v := Some (of_bytes (enc v));
  from_str := read_term;
  json_str s := TStr (to_bytes s);
  json_u32 n := TNum (Z.to_nat n);
  index_assign v k x :=
    match v with
    | TObj m => Some (TObj (bt_update bytes_ltb (to_bytes k) (fun _ => x) m))
    | TNull => Some (TObj [(to_bytes k, x)])
    | _ => None
    end
}.

#[export] Instance term_laws : JsonLaws Term.
Proof.
  split; cbn; unfold u32_max, u64_max.
  - intros s. by rewrite of_to_bytes.
  - intros n Hn. rewrite Z2Nat.id by lia. replace (n <=? 2 ^ 64 - 1)%Z with true; [done|]. symmetry. apply Z.leb_le. lia.
  - by intros [] ? [=].
  - by intros [] ? ? [=].
  - by intros [] ? ? [=].
  - intros [] k x v' [= <-]; [by cbn; rewrite decide_True|apply bt_get_update_insert].
  - intros [] k x v' k' [= <-] Hk; assert (to_bytes k' <> to_bytes k) by (intros E; by apply Hk, to_bytes_inj).
    + by cbn; rewrite decide_False.
    + by apply bt_get_update_ne.
  - intros [] k x v' k' y [= <-]; eexists; reflexivity.
  - by intros [] ? ? ? [=].
  - by intros [] ? ? ? [=].
Qed.

Definition map_term_members (f : string -> Term -> Term) (v : Term) : Term :=
  match v with TObj m => TObj ((fun '(k, x) => (k, f (of_bytes k) x)) <$> m) | _ => v end.
Definition map_term_items (f : Term -> Term) (v : Term) : Term :=
  match v with TArr l => TArr (f <$> l) | _ => v end.

#[export] Instance term_shape : JsonShape Term := {
  as_object v := match v with TObj m => Some (prod_map of_bytes id <$> m) | _ => None end;
  map_members := map_term_members;
  map_items := map_term_items;
  json_eqb v w := bool_decide (enc v = enc w);
  json_rank v := length (enc v)
}.

Lemma item_rank l x : x ∈ l -> length (enc x) <= length (enc_items l).
Proof.
  induction l as [|v l IH]; [by intros ?%not_elem_of_nil|]. change (enc_items (v :: l)) with (enc v ++ enc_items l).
  rewrite length_app. intros [->|Hx]%elem_of_cons; [lia|]. specialize (IH Hx). lia.
Qed.
Lemma member_rank m k x : (k, x) ∈ m -> length (enc x) <= length (enc_members m).
Proof.
  induction m as [|[k' v] m IH]; [by intros ?%not_elem_of_nil|].
  change (enc_members ((k', v) :: m)) with ("k"%char :: enc_chars k' ++ enc v ++ enc_members m).
  cbn. rewrite !length_app. intros [[= -> ->]|Hx]%elem_of_cons; [lia|]. specialize (IH Hx). lia.
Qed.
Lemma enc_chars_length s : length s < length (enc_chars s).
Proof. induction s as [|[] s IH]; cbn; lia. Qed.

(** *** What a term looks like *)

(** The characters of an encoding: visible, and no colon. *)
Definition plain (c : ascii) : Prop := visible c = true /\ c <> ":"%char.
Lemma enc_chars_plain s : Forall plain (enc_chars s).
Proof. induction s as [|[a b c d e f g h] s IH]; cbn; [by repeat constructor|]. constructor; [by destruct a, b, c, d|]. constructor; [by destruct e, f, g, h|done]. Qed.
Lemma enc_num_plain n : Forall plain (enc_num n).
Proof. induction n as [|n IH]; cbn; by repeat constructor. Qed.
Lemma enc_plain v : Forall plain (enc v).
Proof.
  induction v as [|[]|n|s|l IH|m IH] using term_ind'; [by repeat constructor..|constructor; [done|apply enc_num_plain]|constructor; [done|apply enc_chars_plain]| |].
  - rewrite enc_arr. constructor; [done|]. induction IH as [|v l Hv _ IHl]; [by repeat constructor|]. change (enc_items (v :: l)) with (enc v ++ enc_items l). by apply Forall_app.
  - rewrite enc_obj. constructor; [done|]. induction IH as [|[k v] m Hv _ IHm]; [by repeat constructor|].
    change (enc_members ((k, v) :: m)) with ("k"%char :: enc_chars k ++ enc v ++ enc_members m). constructor; [done|]. apply Forall_app. split; [apply enc_chars_plain|]. by apply Forall_app.
Qed.
Lemma plain_no_data s : Forall plain s -> strip_prefix_bytes (to_bytes "data:") s = None.
Proof.
  intros Hs. apply strip_prefix_bytes_None. intros s' ->. rewrite Forall_forall in Hs. destruct (Hs ":"%char) as [_ Hc]; [cbn; set_solver|]. done.
Qed.
Lemma alike_refl_term (v : Term) : alike v v.
Proof.
  induction v as [|b|n|s|l IH|m IH] using term_ind'; [by eapply alike_scalar..|by eapply alike_string| |].
  - eapply alike_array; [done..|]. by apply Forall_Forall2_diag.
  - rewrite Forall_forall in IH. eapply alike_object; [done..| |]; intros k x ([k' x'] & [= -> ->] & Hx)%list_elem_of_fmap; exists x'; (split; [apply list_elem_of_fmap; by exists (k', x')|exact (IH _ Hx)]).
Qed.

#[export] Instance term_shape_laws : JsonShapeLaws Term.
Proof.
  split.
  - by intros [] ? [=].
  - by intros [] ? [=].
  - intros [] m k x [= <-]; cbn. induction members as [|[j y] m IH]; cbn; [done|].
    destruct (decide (to_bytes k = j)) as [<-|]; [intros [= ->]|].
    + rewrite of_to_bytes. left.
    + intros Hx. right. by apply IH.
  - intros f [] m [= <-]. cbn. f_equal. rewrite <- !list_fmap_compose. apply list_fmap_ext. by intros ? [].
  - by intros f [] l [= <-].
  - intros f g [] m [= <-] E. cbn. f_equal. apply list_fmap_ext. intros i [k x] Hx. f_equal. apply E.
    apply list_elem_of_fmap. exists (k, x). split; [done|]. by eapply list_elem_of_lookup_2.
  - intros f g [] l [= <-] E. cbn. f_equal. apply list_fmap_ext. intros i x Hx. apply E. by eapply list_elem_of_lookup_2.
  - intros v w. cbn. rewrite bool_decide_eq_true. intros ->%enc_inj. apply alike_refl_term.
  - intros v w. cbn. rewrite read_written. intros [= <-]. apply alike_refl_term.
  - intros v Hin. cbn in Hin. rewrite to_of_bytes in Hin. pose proof (enc_plain v) as Hp. rewrite Forall_forall in Hp. by destruct (Hp _ Hin).
  - intros v. cbn. rewrite to_of_bytes. pose proof (enc_plain v) as Hp. destruct (enc_nonempty v) as (x & s & E & _). rewrite E in *.
    destruct (last (x :: s)) as [z|] eqn:El; [|by apply last_None in El]. exists x, z. rewrite Forall_forall in Hp. split_and!; [done|done|by apply Hp; left|].
    apply Hp. apply last_Some in El as [l ->]. set_solver.
  - intros v. cbn [json_display term_ops]. unfold strip_prefix. rewrite to_of_bytes. by rewrite (plain_no_data _ (enc_plain v)).
  - intros s v line. cbn [from_str term_ops]. unfold read_term. destruct (dec _ _) as [[w [|]]|] eqn:E; [|done..]. intros _ Hin.
    apply dec_exact in E. rewrite app_nil_r in E. unfold split_inclusive in Hin. rewrite E in Hin. destruct (cut_lines (enc w)) as [ls rest] eqn:Ec.
    assert (Forall plain (to_bytes line)) as Hl; [|unfold strip_prefix; by rewrite (plain_no_data _ Hl)]. apply list_elem_of_fmap in Hin as (b & -> & Hb). rewrite to_of_bytes.
    assert (ls = [] /\ rest = enc w) as [-> ->].
    { assert ("010"%char ∉ enc w) as Hn by (intros Hin; pose proof (enc_plain w) as Hp; rewrite Forall_forall in Hp; by destruct (Hp _ Hin)).
      clear -Ec Hn. revert ls rest Ec. induction (enc w) as [|x s IH]; cbn; intros ls rest; [by intros [= <- <-]|]. apply not_elem_of_cons in Hn as [Hx Hs].
      destruct (cut_lines s) as [ls0 rest0]. destruct (IH Hs _ _ eq_refl) as [-> ->]. rewrite decide_False by congruence. by intros [= <- <-]. }
    cbn [fmap list_fmap app] in Hb. destruct (enc w) eqn:Ew; [by apply elem_of_nil in Hb|]. apply list_elem_of_singleton in Hb as ->. rewrite <- Ew. apply enc_plain.
  - intros [] m k x [= <-]. cbn [json_rank term_shape]. intros ([k' x'] & [= -> ->] & Hx)%list_elem_of_fmap.
    rewrite enc_obj. cbn [length]. pose proof (member_rank _ _ _ Hx). unfold id. lia.
  - intros [] l x [= <-] Hx. cbn [json_rank term_shape]. rewrite enc_arr. cbn [length]. pose proof (item_rank _ _ Hx). lia.
  - intros [] t [= <-]. cbn. rewrite <- length_to_bytes, to_of_bytes. pose proof (enc_chars_length s). lia.
  - intros s v. cbn [from_str term_ops]. unfold read_term. destruct (dec _ _) as [[w [|]]|] eqn:E; [|done..].
    intros [= <-]. apply dec_exact in E. cbn [json_rank term_shape]. rewrite <- length_to_bytes, E, length_app. lia.
Qed.

(** ** Queries *)

Definition bit (b : bool) : ascii := if b then "1"%char else "0"%char.
Definition unbit (c : ascii) : bool := Ascii.eqb c "1".
Fixpoint enc_bits (s : bytes) : bytes :=
  match s with
  | [] => ["e"%char]
  | Ascii a b c d e f g h :: s => "c"%char :: bit a :: bit b :: bit c :: bit d :: bit e :: bit f :: bit g :: bit h :: enc_bits s
  end.
Fixpoint dec_bits (s : bytes) : bytes * bytes :=
  match s with
  | x :: a :: b :: c :: d :: e :: f :: g :: h :: s' =>
      if Ascii.eqb x "c" then
        let '(p, r) := dec_bits s' in
        (Ascii (unbit a) (unbit b) (unbit c) (unbit d) (unbit e) (unbit f) (unbit g) (unbit h) :: p, r)
      else ([], a :: b :: c :: d :: e :: f :: g :: h :: s')
  | _ :: r => ([], r)
  | [] => ([], [])
  end.
Definition enc_pairs (l : list (bytes * bytes)) : bytes := concat ((fun '(n, v) => "p"%char :: enc_bits n ++ enc_bits v) <$> l).
Fixpoint dec_pairs (fuel : nat) (s : bytes) : list (bytes * bytes) :=
  match fuel, s with
  | S fuel, _ :: s => let '(n, r) := dec_bits s in let '(v, r) := dec_bits r in (n, v) :: dec_pairs fuel r
  | _, _ => []
  end.

Lemma dec_enc_bits s r : dec_bits (enc_bits s ++ r) = (s, r).
Proof.
  induction s as [|[a b c d e f g h] s IH]; [do 8 (destruct r as [|? r]; [reflexivity|]); reflexivity|].
  cbn [enc_bits app dec_bits]. rewrite IH. cbn.
  by destruct a, b, c, d, e, f, g, h.
Qed.
Lemma dec_enc_pairs l n : length l <= n -> dec_pairs n (enc_pairs l) = l.
Proof.
  revert n. induction l as [|[k v] l IH]; intros [|n] Hn; cbn in Hn; try lia; try done.
  change (enc_pairs ((k, v) :: l)) with (("p"%char :: enc_bits k ++ enc_bits v) ++ enc_pairs l).
  cbn [app dec_pairs]. rewrite <- app_assoc, !dec_enc_bits. f_equal. apply IH. lia.
Qed.
Lemma enc_bits_no_hash s : "#"%char ∉ enc_bits s.
Proof.
  induction s as [|[a b c d e f g h] s IH]; cbn.
  - by rewrite list_elem_of_singleton.
  - repeat (rewrite not_elem_of_cons; split; [unfold bit; by repeat case_match|]). exact IH.
Qed.

#[export] Instance no_urls : UrlOps := {
  Url := Empty_set;
  url_parse _ := None;
  url_username _ := "";
  url_password _ := None;
  url_set_username _ _ := None;
  url_set_password _ _ := None;
  url_to_string _ := "";
  form_parse s := prod_map of_bytes of_bytes <$> dec_pairs (len s) (to_bytes s);
  form_serialize l := of_bytes (enc_pairs (prod_map to_bytes to_bytes <$> l))
}.
#[export] Instance no_urls_laws : UrlLaws.
Proof.
  split; cbn.
  - intros l. rewrite to_of_bytes, dec_enc_pairs.
    + rewrite <- list_fmap_compose. rewrite <- (list_fmap_id l) at 2. apply list_fmap_ext.
      intros ? [n v] _. cbn. by rewrite !of_to_bytes.
    + rewrite <- length_to_bytes, to_of_bytes. unfold enc_pairs. induction l as [|[n v] l IH]; cbn; [lia|].
      rewrite !length_app. lia.
  - intros l. apply not_true_iff_false. intros E. apply contains_spec in E. rewrite to_of_bytes in E.
    unfold enc_pairs in E. apply list_elem_of_In, in_concat in E as (b & Hb & Hin).
    apply list_elem_of_In, list_elem_of_fmap in Hb as ([n v] & -> & _). apply list_elem_of_In in Hin.
    apply elem_of_cons in Hin as [|Hin]; [done|]. apply elem_of_app in Hin as [Hin|Hin]; by apply enc_bits_no_hash in Hin.
Qed.
