(* ===== verification/RedactFacts.v ===== *)
(** * Properties of redaction

    The fuel of the recursion is enough, no sensitive member survives in a
    redacted body at any depth or in the JSON text of a string, and no sensitive
    field survives in the query of a URL. *)
From stdpp Require Import base tactics list sets strings.
From Stdlib Require Import ZArith Lia Ascii.
From S2P Require Import Prelude RustStr Json Redact PrefixJson.
Local Open Scope string_scope.

(** ** Lengths of pieces *)

Lemma strip_prefix_length s p t : strip_prefix s p = Some t -> len t <= len s.
Proof.
  unfold strip_prefix. intros (b & Hb & ->)%fmap_Some. apply strip_prefix_bytes_Some in Hb.
  rewrite <- !length_to_bytes, to_of_bytes, Hb, length_app. lia.
Qed.

Lemma trim_right_length ps s : length (trim_right ps s) <= length s.
Proof. destruct (trim_right_prefix ps s) as [q Hq]. rewrite Hq at 2. rewrite length_app. lia. Qed.
Lemma trim_length s : len (trim s) <= len s.
Proof.
  unfold trim. rewrite <- !length_to_bytes, to_of_bytes. unfold trim_bytes.
  etransitivity; [apply trim_right_length|]. unfold trim_left.
  destruct (trim_left_n_suffix white_space (length (to_bytes s)) (to_bytes s)) as [p Hp].
  apply (f_equal length) in Hp. rewrite length_app in Hp. lia.
Qed.
Lemma trim_line_end_length s : len (trim_line_end s) <= len s.
Proof. unfold trim_line_end. rewrite <- !length_to_bytes, to_of_bytes. apply trim_right_length. Qed.

Lemma cut_lines_length s : length (concat ((fun l => l ++ ["010"%char])%list <$> fst (cut_lines s))) + length (snd (cut_lines s)) = length s.
Proof.
  induction s as [|x s IH]; cbn; [done|]. destruct (cut_lines s) as [ls rest]. cbn in IH.
  destruct (decide (x = "010"%char)); [cbn; lia|]. destruct ls as [|l ls]; cbn in *; lia.
Qed.

Lemma split_inclusive_length s line : line ∈ split_inclusive s -> len line <= len s.
Proof.
  unfold split_inclusive. pose proof (cut_lines_length (to_bytes s)) as Hl. destruct (cut_lines (to_bytes s)) as [ls rest].
  cbn [fst snd] in Hl. intros (b & -> & Hb)%list_elem_of_fmap. rewrite <- !length_to_bytes, to_of_bytes.
  apply elem_of_app in Hb as [Hb|Hb].
  - apply list_elem_of_split in Hb as (l1 & l2 & E). rewrite E, concat_app, length_app in Hl. cbn in Hl.
    rewrite length_app in Hl. lia.
  - destruct rest as [|c rest]; [set_solver|]. apply list_elem_of_singleton in Hb as ->. lia.
Qed.

(** ** Enough fuel *)
Section Fuel.
Context {V : Type} `{JsonShape V, UrlOps} `{!JsonLaws V, !JsonShapeLaws V}.

Lemma redact_text_ext (f g : V -> V) text :
  (forall v, json_rank v <= len text -> f v = g v) -> redact_text f text = redact_text g text.
Proof.
  intros E. unfold redact_text. destruct (from_str text) as [v|] eqn:Hv.
  - by rewrite (E v (rank_parsed _ _ Hv)).
  - f_equal. apply list_fmap_ext. intros i line Hline. apply list_elem_of_lookup_2, split_inclusive_length in Hline.
    unfold redact_line. destruct (strip_prefix _ "data:") as [data|] eqn:Hd; [|done]. cbn.
    destruct (from_str (trim data)) as [v|] eqn:Hv2; [|done]. rewrite (E v); [done|].
    apply rank_parsed in Hv2. apply strip_prefix_length in Hd.
    pose proof (trim_length data). pose proof (trim_line_end_length line). lia.
Qed.

Lemma redact_member_ext (f g : V -> V) k v : f v = g v -> redact_member f k v = redact_member g k v.
Proof. intros E. unfold redact_member. by rewrite E. Qed.

Lemma redact_fuel_enough n m (v : V) : json_rank v < n -> json_rank v < m -> redact_n n v = redact_n m v.
Proof.
  revert m v. induction n as [|n IH]; intros [|m] v Hn Hm; try lia. cbn [redact_n].
  destruct (as_object v) as [ms|] eqn:Ho; [|destruct (as_array v) as [l|] eqn:Ha; [|destruct (as_str v) as [s|] eqn:Hs; [|done]]].
  - apply (map_members_ext _ _ _ _ Ho). intros k x Hx. apply redact_member_ext.
    pose proof (rank_member _ _ _ _ Ho Hx). apply IH; lia.
  - apply (map_items_ext _ _ _ _ Ha). intros x Hx. pose proof (rank_item _ _ _ Ha Hx). apply IH; lia.
  - f_equal. apply redact_text_ext. intros w Hw. pose proof (rank_string _ _ Hs). apply IH; lia.
Qed.

(** The recursive equation of the source, without fuel. *)
Lemma redact_unfold (v : V) :
  redact_sensitive_body v =
  match as_object v, as_array v, as_str v with
  | Some _, _, _ => map_members (redact_member redact_sensitive_body) v
  | None, Some _, _ => map_items redact_sensitive_body v
  | None, None, Some text => json_str (redact_sensitive_wire_text text)
  | None, None, None => v
  end.
Proof.
  unfold redact_sensitive_body at 1. cbn [redact_n].
  destruct (as_object v) as [ms|] eqn:Ho; [|destruct (as_array v) as [l|] eqn:Ha; [|destruct (as_str v) as [s|] eqn:Hs; [|done]]].
  - apply (map_members_ext _ _ _ _ Ho). intros k x Hx. apply redact_member_ext.
    pose proof (rank_member _ _ _ _ Ho Hx). apply redact_fuel_enough; lia.
  - apply (map_items_ext _ _ _ _ Ha). intros x Hx. pose proof (rank_item _ _ _ Ha Hx). apply redact_fuel_enough; lia.
  - f_equal. apply redact_text_ext. intros w Hw. pose proof (rank_string _ _ Hs). apply redact_fuel_enough; lia.
Qed.
End Fuel.

(** ** Frames

    Trimming around what is visible, and lines that are taken apart and put
    together again. *)

Lemma strip_any_visible ps c s : Forall (fun p : bytes => match p with x :: _ => visible x = false | [] => False end) ps -> visible c = true -> strip_any ps (c :: s) = None.
Proof.
  intros Hps Hc. apply strip_any_None. intros p s' Hp E. rewrite Forall_forall in Hps. specialize (Hps p Hp). destruct p as [|x p]; [done|].
  injection E as -> _. congruence.
Qed.
Lemma white_space_hidden : Forall (fun p : bytes => match p with x :: _ => visible x = false | [] => False end) white_space.
Proof. repeat constructor. Qed.
Lemma white_space_hidden_rev : Forall (fun p : bytes => match p with x :: _ => visible x = false | [] => False end) (reverse <$> white_space).
Proof. repeat constructor. Qed.
Definition line_ends : list bytes := [["013"%char]; ["010"%char]].
Lemma line_ends_hidden_rev : Forall (fun p : bytes => match p with x :: _ => visible x = false | [] => False end) (reverse <$> line_ends).
Proof. repeat constructor. Qed.

(** A text that begins and ends visibly. *)
Definition framed (d : bytes) : Prop := exists a z, head d = Some a /\ last d = Some z /\ visible a = true /\ visible z = true.
Lemma framed_reverse d : framed d -> exists z r, reverse d = z :: r /\ visible z = true.
Proof.
  intros (a & z & _ & Hz & _ & Hv). apply last_Some in Hz as [l ->]. rewrite reverse_snoc. by exists z, (reverse l).
Qed.
Lemma trim_right_framed ps p d : Forall (fun p : bytes => match p with x :: _ => visible x = false | [] => False end) (reverse <$> ps) -> framed d ->
  trim_right ps (p ++ d)%list = (p ++ d)%list.
Proof.
  intros Hps Hd. unfold trim_right. destruct (framed_reverse d Hd) as (z & r & Hr & Hz). rewrite trim_left_id; [by rewrite reverse_involutive|].
  rewrite reverse_app, Hr. by apply strip_any_visible.
Qed.
Lemma trim_spaced d : framed d -> trim_bytes (" "%char :: d) = d.
Proof.
  intros Hd. unfold trim_bytes. assert (trim_left white_space (" "%char :: d) = d) as ->.
  { unfold trim_left. cbn [length trim_left_n]. assert (strip_any white_space (" "%char :: d) = Some d) as -> by reflexivity.
    destruct Hd as (a & _ & Ha & _ & Hv & _). destruct d as [|c d]; [done|]. injection Ha as ->. cbn [length trim_left_n]. by rewrite (strip_any_visible _ _ _ white_space_hidden Hv). }
  apply (trim_right_framed white_space [] d white_space_hidden_rev Hd).
Qed.

(** Only ends of lines are cut off, and all of them. *)
Definition is_line_end (c : ascii) : Prop := c = "013"%char \/ c = "010"%char.
Lemma strip_line_end c s : is_line_end c -> strip_any (reverse <$> line_ends) (c :: s) = Some s.
Proof. intros [->| ->]; reflexivity. Qed.
Lemma strip_line_end_inv s s' : strip_any (reverse <$> line_ends) s = Some s' -> exists c, is_line_end c /\ s = c :: s'.
Proof.
  intros (p & Hp & ->)%strip_any_Some. apply elem_of_cons in Hp as [->|[->|[]%elem_of_nil]%elem_of_cons]; eexists; (split; [|reflexivity]); [by left|by right].
Qed.
Lemma trim_left_cut n s : exists q, Forall is_line_end q /\ s = (q ++ trim_left_n n (reverse <$> line_ends) s)%list.
Proof.
  revert s. induction n as [|n IH]; intros s; cbn [trim_left_n]; [by exists []|].
  destruct (strip_any _ s) as [s'|] eqn:E; [|by exists []]. apply strip_line_end_inv in E as (c & Hc & ->). destruct (IH s') as (q & Hq & E).
  exists (c :: q). split; [by constructor|]. exact (f_equal (cons c) E).
Qed.
Lemma trim_line_cut s : exists q, Forall is_line_end q /\ s = (trim_right line_ends s ++ q)%list.
Proof.
  unfold trim_right, trim_left. destruct (trim_left_cut (length (reverse s)) (reverse s)) as (q & Hq & E). exists (reverse q). split; [by apply Forall_reverse|].
  rewrite <- reverse_app, <- E. by rewrite reverse_involutive.
Qed.
Lemma trim_left_ends q s : Forall is_line_end q -> strip_any (reverse <$> line_ends) s = None -> trim_left (reverse <$> line_ends) (q ++ s)%list = s.
Proof.
  intros Hq Hs. unfold trim_left. rewrite length_app. induction Hq as [|c q Hc Hq IH]; cbn [length app Nat.add].
  - destruct (length s); [done|]. cbn [trim_left_n]. by rewrite Hs.
  - cbn [trim_left_n]. by rewrite (strip_line_end c _ Hc).
Qed.
Lemma trim_line_framed p d q : framed d -> Forall is_line_end q -> trim_right line_ends (p ++ d ++ q)%list = (p ++ d)%list.
Proof.
  intros Hd Hq. unfold trim_right. rewrite app_assoc, reverse_app, trim_left_ends; [by rewrite reverse_involutive|by apply Forall_reverse|].
  destruct (framed_reverse d Hd) as (z & r & Hr & Hz). rewrite reverse_app, Hr. apply strip_any_visible; [apply line_ends_hidden_rev|done].
Qed.

Lemma cut_unbroken t : "010"%char ∉ t -> cut_lines t = ([], t).
Proof.
  induction t as [|x t IH]; cbn; [done|]. intros [Hx Ht]%not_elem_of_cons. rewrite (IH Ht). by rewrite decide_False by congruence.
Qed.
Lemma cut_joined ls rest : Forall (fun l => "010"%char ∉ l) ls -> "010"%char ∉ rest ->
  cut_lines (concat ((fun l => l ++ ["010"%char])%list <$> ls) ++ rest)%list = (ls, rest).
Proof.
  intros Hls Hr. induction Hls as [|l ls Hl Hls IH]; cbn [fmap list_fmap concat app]; [by apply cut_unbroken|]. rewrite <- !app_assoc.
  induction l as [|x l IHl]; cbn [app cut_lines].
  - rewrite IH. by rewrite decide_True.
  - apply not_elem_of_cons in Hl as [Hx Hl]. cbn [app] in IHl. rewrite (IHl Hl). by rewrite decide_False by congruence.
Qed.
Lemma cut_parts s ls rest : cut_lines s = (ls, rest) ->
  s = (concat ((fun l => l ++ ["010"%char])%list <$> ls) ++ rest)%list /\ Forall (fun l => "010"%char ∉ l) ls /\ "010"%char ∉ rest.
Proof.
  revert ls rest. induction s as [|x s IH]; intros ls rest; cbn [cut_lines]; [intros [= <- <-]; split_and!; [done|done|apply not_elem_of_nil]|].
  destruct (cut_lines s) as [ls0 rest0]. destruct (IH _ _ eq_refl) as (-> & Hls & Hr). case_decide as Hx.
  - intros [= <- <-]. subst x. split_and!; [done|constructor; [apply not_elem_of_nil|done]|done].
  - destruct Hls as [|l ls0 Hl Hls]; intros [= <- <-]; cbn [fmap list_fmap concat app].
    + split_and!; [done|done|]. apply not_elem_of_cons. by split; [congruence|].
    + split_and!; [done|constructor; [|done]|done]. apply not_elem_of_cons. by split; [congruence|].
Qed.
(** A line as [split_inclusive] yields it: terminated, or the last. *)
Definition terminated (s : string) : Prop := exists x, "010"%char ∉ x /\ to_bytes s = (x ++ ["010"%char])%list.
Definition unterminated (s : string) : Prop := "010"%char ∉ to_bytes s /\ to_bytes s <> [].
Lemma concat_bytes (l : list string) : to_bytes (String.concat "" l) = concat (to_bytes <$> l).
Proof.
  induction l as [|x l IH]; [done|]. cbn [fmap list_fmap concat]. destruct l as [|y l]; [cbn; by rewrite app_nil_r|].
  change (String.concat "" (x :: y :: l)) with (x +:+ "" +:+ String.concat "" (y :: l)). rewrite !to_bytes_app, IH. done.
Qed.
(** Lines that are changed one by one are the lines of the result. *)
Lemma split_inclusive_map (f : string -> string) text :
  (forall line, terminated line -> terminated (f line)) -> (forall line, unterminated line -> unterminated (f line)) ->
  split_inclusive (String.concat "" (f <$> split_inclusive text)) = f <$> split_inclusive text.
Proof.
  intros Ht Hu. unfold split_inclusive at 2 3. destruct (cut_lines (to_bytes text)) as [ls rest] eqn:E. apply cut_parts in E as (_ & Hls & Hr).
  assert (exists ls', Forall (fun l => "010"%char ∉ l) ls' /\ f <$> (of_bytes <$> ((fun l => l ++ ["010"%char])%list <$> ls)) = of_bytes <$> ((fun l => l ++ ["010"%char])%list <$> ls')) as (ls' & Hls' & Els).
  { clear text. induction Hls as [|l ls Hl Hls (ls' & Hls' & IH)]; [by exists []|]. destruct (Ht (of_bytes (l ++ ["010"%char])%list)) as (x & Hx & Ex).
    - exists l. by rewrite to_of_bytes.
    - exists (x :: ls'). split; [by constructor|]. cbn [fmap list_fmap] in *. rewrite IH. f_equal. by rewrite <- Ex, of_to_bytes. }
  assert (exists rest', "010"%char ∉ rest' /\ f <$> (of_bytes <$> (match rest with [] => [] | _ => [rest] end)) = of_bytes <$> (match rest' with [] => [] | _ => [rest'] end)) as (rest' & Hr' & Er).
  { destruct rest as [|c rest]; [by exists []|]. destruct (Hu (of_bytes (c :: rest))) as [Hn Hne]; [split; by rewrite to_of_bytes|].
    exists (to_bytes (f (of_bytes (c :: rest)))). split; [done|]. cbn [fmap list_fmap]. destruct (to_bytes _) eqn:Eb; [done|]. cbn [fmap list_fmap]. by rewrite <- Eb, of_to_bytes. }
  rewrite fmap_app, fmap_app, Els, Er, <- fmap_app. unfold split_inclusive. rewrite concat_bytes, <- list_fmap_compose.
  rewrite (list_fmap_ext (to_bytes ∘ of_bytes) id) by (intros ? ? _; apply to_of_bytes). rewrite list_fmap_id, concat_app.
  replace (concat match rest' with [] => [] | _ => [rest'] end) with rest' by (destruct rest'; cbn; by rewrite ?app_nil_r). by rewrite cut_joined.
Qed.

(** ** No sensitive member *)

(** The values that a text encodes: itself, or those of its [data:] lines. *)
Definition encoded {V : Type} `{JsonOps V} (text : string) (w : V) : Prop :=
  from_str text = Some w \/
  from_str text = None (A := V) /\ exists line data, line ∈ split_inclusive text /\ strip_prefix (trim_line_end line) "data:" = Some data /\ from_str (trim data) = Some w.

(** Every member with a sensitive name is the mark, at any depth and also in what
    strings encode, down to members that are taken for URLs: a string there is a
    redacted URL. *)
Inductive clean {V : Type} `{JsonShape V, UrlOps} : V -> Prop :=
| clean_intro v :
    (forall m k x, as_object v = Some m -> (k, x) ∈ m -> is_sensitive_field_name k = true -> as_str x = Some REDACTED_VALUE) ->
    (forall m k x text, as_object v = Some m -> (k, x) ∈ m -> is_sensitive_field_name k = false -> is_url_field k = true -> as_str x = Some text ->
       exists given, text = redact_sensitive_url given) ->
    (forall m k x, as_object v = Some m -> (k, x) ∈ m -> is_sensitive_field_name k = false -> is_url_field k = false \/ as_str x = None -> clean x) ->
    (forall l x, as_array v = Some l -> x ∈ l -> clean x) ->
    (forall s w, as_str v = Some s -> encoded s w -> clean w) ->
    clean v.

Section Clean.
Context {V : Type} `{JsonShape V, UrlOps} `{!JsonLaws V, !JsonShapeLaws V}.

Lemma as_object_str (v : V) m s : as_object v = Some m -> as_str v = Some s -> False.
Proof. intros Ho%as_object_no_str. congruence. Qed.
Lemma as_object_array (v : V) m l : as_object v = Some m -> as_array v = Some l -> False.
Proof. intros Ho Ha%as_array_no_object. congruence. Qed.
Lemma as_array_str (v : V) l s : as_array v = Some l -> as_str v = Some s -> False.
Proof. intros Ha Hs%as_str_not_array. congruence. Qed.

(** A value of two variants. *)
Ltac variants :=
  match goal with
  | H1 : as_object ?v = Some _, H2 : as_str ?v = Some _ |- _ => destruct (as_object_str v _ _ H1 H2)
  | H1 : as_object ?v = Some _, H2 : as_array ?v = Some _ |- _ => destruct (as_object_array v _ _ H1 H2)
  | H1 : as_array ?v = Some _, H2 : as_str ?v = Some _ |- _ => destruct (as_array_str v _ _ H1 H2)
  end.

Lemma alike_str (v w : V) s : alike v w -> as_str v = Some s <-> as_str w = Some s.
Proof.
  destruct 1 as [v w m n Hm Hn _ _|v w l l' Hl Hl' _|v w t Hv Hw|v w ? ? Hv ? ? Hw].
  - rewrite (as_object_no_str _ _ Hm), (as_object_no_str _ _ Hn). done.
  - split; intros ?; variants.
  - by rewrite Hv, Hw.
  - by rewrite Hv, Hw.
Qed.
Lemma alike_str_none (v w : V) : alike v w -> as_str v = None <-> as_str w = None.
Proof.
  intros Ha. split; intros Hn; [destruct (as_str w) as [s|] eqn:E|destruct (as_str v) as [s|] eqn:E]; try done; exfalso; apply (alike_str _ _ _ Ha) in E; congruence.
Qed.

(** Values that are alike are clean together. *)
Lemma clean_alike (v w : V) : clean v -> alike v w \/ alike w v -> clean w.
Proof.
  intros Hc. revert w. induction Hc as [v Hs Hu _ IHm _ IHl Hx _]. intros w Ha.
  assert (forall n k y, as_object w = Some n -> (k, y) ∈ n -> exists m x, as_object v = Some m /\ (k, x) ∈ m /\ (alike x y \/ alike y x)) as Hobj.
  { intros n k y Hn Hy. destruct Ha as [Ha|Ha]; inversion Ha as [v1 w1 m1 n1 Hm1 Hn1 Hf Hb|? ? ? ? Hl1 Hl2|? ? ? Hs1 Hs2|? ? O1 ? ? O2 ? ?]; subst; try variants; try congruence.
    - assert (n1 = n) as -> by congruence. destruct (Hb k y Hy) as (x & ? & ?). exists m1, x. auto.
    - assert (m1 = n) as -> by congruence. destruct (Hf k y Hy) as (x & ? & ?). exists n1, x. auto. }
  constructor.
  - intros n k y Hn Hy Hk. destruct (Hobj n k y Hn Hy) as (m & x & Hm & Hin & Hxy). pose proof (Hs m k x Hm Hin Hk) as E. destruct Hxy as [Hxy|Hxy]; [by apply (alike_str _ _ _ Hxy)|by apply (alike_str _ _ _ Hxy)].
  - intros n k y text Hn Hy Hk Hk2 Ht. destruct (Hobj n k y Hn Hy) as (m & x & Hm & Hin & Hxy). apply (Hu m k x text Hm Hin Hk Hk2). destruct Hxy as [Hxy|Hxy]; by apply (alike_str _ _ _ Hxy).
  - intros n k y Hn Hy Hk Hor. destruct (Hobj n k y Hn Hy) as (m & x & Hm & Hin & Hxy). apply (IHm m k x Hm Hin Hk); [|done]. destruct Hor as [?|Hno]; [by left|right].
    destruct Hxy as [Hxy|Hxy]; by apply (alike_str_none _ _ Hxy).
  - intros l' y Hl' Hy. destruct Ha as [Ha|Ha]; inversion Ha as [v1 w1 m1 n1 Hm1 Hn1 Hf Hb|? ? l1 l2 Hl1 Hl2 Hf|? ? ? Hs1 Hs2|? ? ? A1 ? ? A2 ?]; subst; try variants; try congruence.
    + assert (l2 = l') as -> by congruence. apply list_elem_of_lookup in Hy as [i Hi]. destruct (Forall2_lookup_r _ _ _ _ _ Hf Hi) as (x & Hxi & Hxy).
      apply (IHl l1 x Hl1); [by eapply list_elem_of_lookup_2|by left].
    + assert (l1 = l') as -> by congruence. apply list_elem_of_lookup in Hy as [i Hi]. destruct (Forall2_lookup_l _ _ _ _ _ Hf Hi) as (x & Hxi & Hxy).
      apply (IHl l2 x Hl2); [by eapply list_elem_of_lookup_2|by right].
  - intros s u Hsw Hu'. apply (Hx s u); [|done]. destruct Ha as [Ha|Ha]; by apply (alike_str _ _ _ Ha).
Qed.
Lemma clean_scalar (v : V) : as_object v = None -> as_array v = None -> as_str v = None -> clean v.
Proof. intros Ho Ha Hs. constructor; intros; congruence. Qed.
Lemma clean_str s : (forall w : V, encoded s w -> clean w) -> clean (json_str s : V).
Proof.
  intros He. pose proof (as_str_json_str (V := V) s) as Hs. constructor; try (intros; variants).
  intros s' w Hs'. rewrite Hs in Hs'. injection Hs' as <-. apply He.
Qed.

(** *** What a redacted text encodes *)

Lemma display_framed (v : V) : framed (to_bytes (json_display v)).
Proof. destruct (display_visible v) as (a & z & ?). by exists a, z. Qed.
(** A displayed value has no [data:] line. *)
Lemma display_encodes (v w : V) : encoded (json_display v) w -> alike v w.
Proof.
  intros [Hw|(_ & line & data & Hin & Hd & _)]; [by apply display_read|]. exfalso.
  assert (line = json_display v) as ->.
  { unfold split_inclusive in Hin. rewrite (cut_unbroken _ (display_one_line v)) in Hin. destruct (to_bytes (json_display v)) eqn:E; [by apply elem_of_nil in Hin|].
    cbn [fmap list_fmap app] in Hin. apply list_elem_of_singleton in Hin as ->. by rewrite <- E, of_to_bytes. }
  pose proof (trim_right_framed line_ends [] _ line_ends_hidden_rev (display_framed v)) as Ht. cbn [app] in Ht.
  unfold trim_line_end in Hd. fold line_ends in Hd. rewrite Ht, of_to_bytes in Hd. rewrite (display_no_data v) in Hd. done.
Qed.

(** A line that was changed holds the redacted value behind its new prefix, and
    has the end of the old line. *)
Lemma redact_line_cases (redact : V -> V) line :
  (redact_line redact line = line /\
   forall data v, strip_prefix (trim_line_end line) "data:" = Some data -> from_str (trim data) = Some v -> json_eqb v (redact v) = true) \/
  exists data v q, strip_prefix (trim_line_end line) "data:" = Some data /\ from_str (trim data) = Some v /\ Forall is_line_end q /\
    to_bytes line = (to_bytes (trim_line_end line) ++ q)%list /\
    to_bytes (redact_line redact line) = (to_bytes "data: " ++ to_bytes (json_display (redact v)) ++ q)%list.
Proof.
  unfold redact_line. destruct (strip_prefix (trim_line_end line) "data:") as [data|] eqn:Ed; [|by left]. cbn [mbind option_bind].
  destruct (from_str (trim data)) as [v|] eqn:Ev; [|left; split; [done|]; intros ? ? [= <-]; congruence].
  destruct (json_eqb v (redact v)) eqn:Eq; [left; split; [done|]; intros ? ? [= <-]; congruence|right].
  destruct (trim_line_cut (to_bytes line)) as (q & Hq & E). exists data, v, q. unfold trim_line_end in *. fold line_ends in *.
  split_and!; [done|done|done|by rewrite to_of_bytes|]. rewrite !to_bytes_app, to_of_bytes. do 2 f_equal. rewrite <- length_to_bytes, to_of_bytes. rewrite E at 2. apply drop_app_length.
Qed.
Lemma data_line_bytes (v : V) q : Forall is_line_end q ->
  trim_right line_ends (to_bytes "data: " ++ to_bytes (json_display v) ++ q)%list = (to_bytes "data: " ++ to_bytes (json_display v))%list.
Proof. intros Hq. apply trim_line_framed; [apply display_framed|done]. Qed.
Lemma redact_line_terminated (redact : V -> V) line : terminated line -> terminated (redact_line redact line).
Proof.
  intros (x & Hx & Hl). destruct (redact_line_cases redact line) as [[-> _]|(data & v & q & _ & _ & Hq & Hc & E)]; [by exists x|]. unfold terminated. rewrite E.
  destruct q as [|c q _] using rev_ind.
  - exfalso. rewrite app_nil_r in Hc. assert (trim_right line_ends (to_bytes line) = to_bytes line) as E0 by (unfold trim_line_end in Hc; fold line_ends in Hc; by rewrite to_of_bytes in Hc).
    rewrite Hl in E0. unfold trim_right in E0. rewrite reverse_snoc in E0. apply (f_equal length) in E0. unfold trim_left in E0. cbn [length trim_left_n] in E0.
    rewrite (strip_line_end "010"%char) in E0 by (by right). rewrite length_reverse, length_app in E0. cbn [length] in E0.
    destruct (trim_left_cut (length (reverse x)) (reverse x)) as (q & _ & E2). apply (f_equal length) in E2. rewrite length_app, length_reverse in E2. rewrite length_reverse in E0. lia.
  - rewrite Hl, app_assoc in Hc. apply app_inj_tail in Hc as [Hc <-]. exists (to_bytes "data: " ++ to_bytes (json_display (redact v)) ++ q)%list.
    split; [|by rewrite <- !app_assoc]. rewrite !not_elem_of_app. split_and!; [by vm_compute; set_solver|apply display_one_line|]. rewrite Hc, not_elem_of_app in Hx. by destruct Hx.
Qed.
Lemma redact_line_unterminated (redact : V -> V) line : unterminated line -> unterminated (redact_line redact line).
Proof.
  intros [Hx Hne]. destruct (redact_line_cases redact line) as [[-> _]|(data & v & q & _ & _ & Hq & Hc & E)]; [done|]. unfold unterminated. rewrite E. split; [|done].
  rewrite !not_elem_of_app. split_and!; [by vm_compute; set_solver|apply display_one_line|]. rewrite Hc, not_elem_of_app in Hx. by destruct Hx.
Qed.

(** What a redacted text encodes is what redaction made of what the text encoded,
    up to likeness. *)
Lemma redacted_encodes (redact : V -> V) text w : encoded (redact_text redact text) w -> exists v, encoded text v /\ (alike (redact v) w \/ alike w (redact v)).
Proof.
  unfold redact_text. destruct (from_str text) as [v|] eqn:Ev.
  - intros Hw. exists v. split; [by left|]. destruct (json_eqb v (redact v)) eqn:Eq; cbn [negb] in Hw.
    + destruct Hw as [Hw|[Hn _]]; [|congruence]. assert (w = v) as -> by congruence. right. by apply json_eqb_alike.
    + left. by apply display_encodes.
  - set (out := String.concat "" (redact_line redact <$> split_inclusive text)).
    assert (split_inclusive out = redact_line redact <$> split_inclusive text) as Hsp by (apply split_inclusive_map; [apply redact_line_terminated|apply redact_line_unterminated]).
    assert (from_str out = None (A := V)) as Hout.
    { destruct (from_str out) as [u|] eqn:Eu; [|done]. exfalso.
      assert (out = text) as E; [|rewrite E in Eu; congruence]. unfold out. transitivity (String.concat "" (split_inclusive text)).
      - f_equal. rewrite <- (list_fmap_id (split_inclusive text)) at 2. apply list_fmap_ext. intros i line Hi. destruct (redact_line_cases redact line) as [[? _]|(data & v & q & _ & _ & _ & _ & E)]; [done|]. exfalso.
        assert (redact_line redact line ∈ split_inclusive out) as Hin by (rewrite Hsp; apply list_elem_of_fmap_2; by eapply list_elem_of_lookup_2).
        pose proof (data_not_json _ _ _ Eu Hin) as Hn. unfold strip_prefix in Hn. rewrite E in Hn. done.
      - apply to_bytes_inj. rewrite concat_bytes. unfold split_inclusive. destruct (cut_lines (to_bytes text)) as [ls rest] eqn:Ec. apply cut_parts in Ec as [E _].
        rewrite <- list_fmap_compose. rewrite (list_fmap_ext (to_bytes ∘ of_bytes) id) by (intros ? ? _; apply to_of_bytes). rewrite list_fmap_id, concat_app, E. f_equal. destruct rest; cbn; by rewrite ?app_nil_r. }
    intros [Hw|(_ & line' & data & Hin & Hd & Hw)]; [congruence|]. rewrite Hsp in Hin. apply list_elem_of_fmap in Hin as (line & -> & Hin).
    assert (forall data0 v, strip_prefix (trim_line_end line) "data:" = Some data0 -> from_str (trim data0) = Some v -> encoded text v) as Henc by (intros data0 v Hd0 Hv0; right; split; [done|]; by exists line, data0).
    destruct (redact_line_cases redact line) as [[Hsame Heq]|(data0 & v & q & Hd0 & Hv0 & Hq & _ & E)].
    + rewrite Hsame in Hd. exists w. split; [by eapply Henc|]. right. by eapply json_eqb_alike, Heq.
    + exists v. split; [by eapply Henc|]. left. apply display_read. unfold trim_line_end in Hd. fold line_ends in Hd. rewrite E, data_line_bytes in Hd by done.
      assert (data = of_bytes (" "%char :: to_bytes (json_display (redact v)))) as -> by (unfold strip_prefix in Hd; rewrite to_of_bytes in Hd; by injection Hd as <-).
      unfold trim in Hw. rewrite to_of_bytes, trim_spaced in Hw by apply display_framed. by rewrite of_to_bytes in Hw.
Qed.
Lemma encoded_rank text (w : V) : encoded text w -> json_rank w <= len text.
Proof.
  intros [Hw|(_ & line & data & Hin & Hd & Hw)]; [by apply rank_parsed|]. apply rank_parsed in Hw. apply strip_prefix_length in Hd.
  pose proof (trim_length data). pose proof (trim_line_end_length line). pose proof (split_inclusive_length _ _ Hin). lia.
Qed.

Lemma redact_clean (v : V) : clean (redact_sensitive_body v).
Proof.
  remember (json_rank v) as n eqn:Hn. revert v Hn. induction n as [n IH] using lt_wf_ind. intros v ->.
  rewrite redact_unfold.
  destruct (as_object v) as [ms|] eqn:Ho; [|destruct (as_array v) as [l|] eqn:Ha; [|destruct (as_str v) as [s|] eqn:Hs]].
  - pose proof (as_object_map (redact_member redact_sensitive_body) _ _ Ho) as Ho'.
    assert (forall m k x, as_object (map_members (redact_member redact_sensitive_body) v) = Some m -> (k, x) ∈ m ->
      exists x', x = redact_member redact_sensitive_body k x' /\ json_rank x' < json_rank v) as Hmem.
    { intros m k x Hm Hx. rewrite Ho' in Hm. injection Hm as <-. apply list_elem_of_fmap in Hx as ([k' x'] & [= -> ->] & Hx). exists x'. split; [done|by eapply rank_member]. }
    constructor.
    + intros m k x Hm Hx Hk. destruct (Hmem m k x Hm Hx) as (x' & -> & _). unfold redact_member. rewrite Hk. apply as_str_json_str.
    + intros m k x text Hm Hx Hk Hk2 Ht. destruct (Hmem m k x Hm Hx) as (x' & -> & Hr). unfold redact_member in Ht. rewrite Hk, Hk2 in Ht.
      destruct (as_str x') as [given|] eqn:Eg; [exists given; rewrite as_str_json_str in Ht; congruence|]. exfalso.
      rewrite redact_unfold, Eg in Ht. destruct (as_object x') eqn:E1; [pose proof (as_object_map (redact_member redact_sensitive_body) _ _ E1); variants|].
      destruct (as_array x') eqn:E2; [pose proof (as_array_map redact_sensitive_body _ _ E2); variants|congruence].
    + intros m k x Hm Hx Hk Hor. destruct (Hmem m k x Hm Hx) as (x' & -> & Hr). unfold redact_member in *. rewrite Hk in *.
      destruct (is_url_field k); [|by eapply IH]. destruct (as_str x'); [|by eapply IH]. rewrite as_str_json_str in Hor. by destruct Hor.
    + intros l x Hl _. variants.
    + intros s w Hs _. variants.
  - pose proof (as_array_map redact_sensitive_body _ _ Ha) as Ha'.
    constructor; try (intros; variants).
    intros l' x Hl Hx. rewrite Ha' in Hl. simplify_eq. apply list_elem_of_fmap in Hx as (x' & -> & Hx).
    eapply IH; [exact (rank_item _ _ _ Ha Hx)|done].
  - apply clean_str. intros w (u & Hu & Hlike)%redacted_encodes. apply (clean_alike (redact_sensitive_body u)); [|done].
    pose proof (encoded_rank _ _ Hu). pose proof (rank_string _ _ Hs). eapply (IH (json_rank u)); [lia|done].
  - by apply clean_scalar.
Qed.
Lemma redact_text_clean text (w : V) : encoded (redact_sensitive_wire_text (V := V) text) w -> clean w.
Proof. intros (u & _ & Hlike)%redacted_encodes. apply (clean_alike (redact_sensitive_body u)); [apply redact_clean|done]. Qed.
End Clean.


(** ** Queries *)

(** The query of a URL, as [redact_sensitive_url] finds it. *)
Definition query_of (url : string) : option string :=
  '(_, rest) ← split_once "?" url; Some (match split_once "#" rest with Some (q, _) => q | None => rest end).

Lemma split_once_bytes_app c a b : c ∉ a -> split_once_bytes c (a ++ c :: b)%list = Some (a, b).
Proof.
  induction a as [|x a IH]; cbn; [by rewrite decide_True|]. intros [Hx Ha]%not_elem_of_cons.
  by rewrite decide_False, IH.
Qed.
Lemma split_once_bytes_None c a : split_once_bytes c a = None <-> c ∉ a.
Proof.
  induction a as [|x a IH]; cbn; [split; [intros _; apply not_elem_of_nil|done]|]. rewrite not_elem_of_cons.
  destruct (decide (x = c)) as [->|]; [by split; [|intros [? _]]|].
  destruct (split_once_bytes c a) as [[p q]|]; naive_solver.
Qed.
Lemma split_once_bytes_Some c s a b : split_once_bytes c s = Some (a, b) -> c ∉ a /\ s = (a ++ c :: b)%list.
Proof.
  revert a b. induction s as [|x s IH]; intros a b; cbn; [done|].
  destruct (decide (x = c)) as [->|]; [intros [= <- <-]; split; [apply not_elem_of_nil|done]|].
  destruct (split_once_bytes c s) as [[p q]|] eqn:E; [|done]. intros [= <- <-].
  destruct (IH _ _ eq_refl) as [Hp ->]. rewrite not_elem_of_cons. auto.
Qed.

Section Queries.
Context `{UrlOps, !UrlLaws}.

Lemma query_of_built prefix q fragment :
  contains "?" prefix = false -> contains "#" q = false ->
  query_of (match fragment with Some f => (prefix +:+ "?" +:+ q) +:+ "#" +:+ f | None => prefix +:+ "?" +:+ q end) = Some q.
Proof.
  intros Hp Hq.
  assert (Hp' : "?"%char ∉ to_bytes prefix) by (rewrite <- contains_spec; congruence).
  assert (Hq' : "#"%char ∉ to_bytes q) by (rewrite <- contains_spec; congruence).
  unfold query_of, split_once. destruct fragment as [f|]; rewrite !to_bytes_app.
  - rewrite <- !app_assoc. cbn [to_bytes app]. rewrite split_once_bytes_app by done. cbn.
    rewrite to_of_bytes, split_once_bytes_app by done. by rewrite of_to_bytes.
  - cbn [to_bytes app]. rewrite split_once_bytes_app by done. cbn.
    rewrite to_of_bytes, (proj2 (split_once_bytes_None _ _)) by done. by rewrite of_to_bytes.
Qed.
End Queries.

(** No credential survives in the query of a URL: in what
    [redact_sensitive_url] returns, every field of the query with a sensitive
    name has the mark as its value. *)
Theorem url_query_redacted `{UrlOps, !UrlLaws} (value q name field : string) :
  query_of (redact_sensitive_url value) = Some q ->
  (name, field) ∈ form_parse q -> is_sensitive_query_field_name name = true -> field = REDACTED_VALUE.
Proof.
  unfold redact_sensitive_url. set (v := redact_userinfo value). destruct (split_once "?" v) as [[prefix rest]|] eqn:E.
  2: { unfold query_of. by rewrite E. }
  assert (Hp : contains "?" prefix = false).
  { unfold split_once in E. destruct (split_once_bytes _ _) as [[a b]|] eqn:E'; [|done]. simplify_eq/=.
    apply split_once_bytes_Some in E' as [Ha _]. destruct (contains _ _) eqn:Hc; [|done].
    apply contains_spec in Hc. by rewrite to_of_bytes in Hc. }
  set (qf := match split_once "#" rest with Some (q0, f) => (q0, Some f) | None => (rest, None) end).
  assert (Hq : query_of v = Some (fst qf)).
  { unfold query_of. rewrite E. cbn. unfold qf. by destruct (split_once "#" rest) as [[? ?]|]. }
  destruct qf as [query fragment]. cbn [fst] in Hq.
  destruct (existsb _ (form_parse query)) eqn:Hex; cbn [negb].
  - rewrite query_of_built by (done || apply form_no_separator). intros [= <-]. rewrite form_roundtrip.
    intros ([n f] & [= -> ->] & _)%list_elem_of_fmap Hs. by rewrite Hs.
  - rewrite Hq. intros [= <-] Hin Hs. exfalso. apply not_true_iff_false in Hex. apply Hex, existsb_exists.
    exists (name, field). by rewrite <- list_elem_of_In.
Qed.

(** ** Evaluated *)

(** A secret as a member, in a JSON text, and in a line of an event stream inside
    a JSON text. *)
Definition with_key (value : string) : Term := TObj [(to_bytes "API-Key", TStr (to_bytes value)); (to_bytes "text", TStr (to_bytes "hi"))].
Definition stream_of (v : Term) : string := "event: delta" +:+ of_bytes ["010"%char] +:+ "data: " +:+ json_display v +:+ of_bytes ["010"%char].
Definition secret_body (value : string) : Term :=
  TObj [(to_bytes "messages", TArr [with_key value]); (to_bytes "raw", TStr (to_bytes (json_display (TArr [with_key value]))));
        (to_bytes "wire", TStr (to_bytes (json_display (TObj [(to_bytes "body", TStr (to_bytes (stream_of (with_key value))))]))))].


Definition secret_url : string := "/v1/models?" +:+ form_serialize [("API_KEY", "sk"); ("alt", "sse")] +:+ "#top".

Lemma url_query_redacted_witness :
  exists q, query_of (redact_sensitive_url secret_url) = Some q
            /\ form_parse q = [("API_KEY", REDACTED_VALUE); ("alt", "sse")]
            /\ forall field, ("API_KEY", field) ∈ form_parse q -> field = REDACTED_VALUE.
Proof.
  exists (form_serialize [("API_KEY", REDACTED_VALUE); ("alt", "sse")]). split; [vm_compute; reflexivity|].
  split; [vm_compute; reflexivity|]. intros field Hf.
  apply (url_query_redacted secret_url (form_serialize [("API_KEY", REDACTED_VALUE); ("alt", "sse")]) "API_KEY" field);
    [vm_compute; reflexivity|exact Hf|vm_compute; reflexivity].
Defined.
