(* ===== verification/Story.v ===== *)
(** * Stories: captured records, turns and the owner of a story

    [pvisor-gateway/src/record.rs], [engine/story/] and
    [engine/actors/story.rs]: the records a gateway captures, the machine that
    groups the calls of a story into turns, and the actor that commits a record
    to the journal before it becomes part of the story. The runtime of
    [engine/coordinator.rs] keeps one actor per story and rebuilds them from
    the journal when it starts.

    [None] is a panic: the overflow of a turn index, the assignment of a member
    to a payload that is neither an object nor null, or one in the extraction of
    text. Clocks, fresh identifiers, the outcome of a write and of an index
    update are arguments. The derived encoders of observations and [chrono] are
    the interface [CaptureCodec]. *)
From stdpp Require Import base tactics list strings gmap pretty.
From Stdlib Require Import ZArith Lia Ascii.
From S2P Require Import Prelude RustStr Types Execution Operation Causality Journal Json Dialogue DialogueText Redact.
Local Open Scope string_scope.

(** ** Records *)

Record CaptureRoute := mkRoute {
  route_root_session : option string;
  route_session_id : string;
  route_storage_session_id : string;
  route_subagent_id : option string
}.
Record StoryContext := mkStoryContext {
  sc_run_id : option string;
  sc_story_id : string;
  sc_route : CaptureRoute;
  sc_agent_id : string
}.

Definition seq_key (r : CaptureRoute) : string :=
  match route_root_session r with
  | Some root => root +:+ "|" +:+ route_storage_session_id r
  | None => route_storage_session_id r
  end.
(** [StoryContext::from_route]. *)
Definition story_context_from_route (r : CaptureRoute) (agent_id : string) : StoryContext :=
  mkStoryContext (route_root_session r) (seq_key r) r agent_id.

Record CaptureCorrelation := mkCorrelation {
  cc_call_id : option string;
  cc_trace_id : option string;
  cc_parent_uuid : option string;
  cc_parent_agent_id : option string;
  cc_branch : option string;
  cc_parent_call_id : option string
}.

Record CaptureRecord (V : Type) := mkCaptureRecord {
  cr_event_id : option string;
  cr_observed_at_unix_ms : option Z;
  cr_kind : string;
  cr_timestamp : option string;
  cr_session_id : option string;
  cr_agent_id : option string;
  cr_parent_uuid : option string;
  cr_trace_id : option string;
  cr_call_id : option string;
  cr_subagent_id : option string;
  cr_parent_agent_id : option string;
  cr_branch : option string;
  cr_parent_call_id : option string;
  cr_payload : V
}.
Arguments mkCaptureRecord {V}. Arguments cr_event_id {V}. Arguments cr_observed_at_unix_ms {V}. Arguments cr_kind {V}.
Arguments cr_timestamp {V}. Arguments cr_session_id {V}. Arguments cr_agent_id {V}. Arguments cr_parent_uuid {V}.
Arguments cr_trace_id {V}. Arguments cr_call_id {V}. Arguments cr_subagent_id {V}. Arguments cr_parent_agent_id {V}.
Arguments cr_branch {V}. Arguments cr_parent_call_id {V}. Arguments cr_payload {V}.

Record CaptureObservation (V : Type) := mkCaptureObservation {
  co_story : StoryContext;
  co_correlation : CaptureCorrelation;
  co_content : V
}.
Arguments mkCaptureObservation {V}. Arguments co_story {V}. Arguments co_correlation {V}. Arguments co_content {V}.

(** [serde] for observations; [DateTime::parse_from_rfc3339] in milliseconds,
    and its inverse direction. *)
Class CaptureCodec (V : Type) := {
  observation_to_value : CaptureObservation V -> option V;
  observation_from_value : V -> option (CaptureObservation V);
  parse_rfc3339_ms : string -> option Z;
  format_ms : Z -> option string
}.
Class CaptureCodecLaws (V : Type) `{CaptureCodec V} := {
  observation_inverse o v : observation_to_value o = Some v -> observation_from_value v = Some o
}.

(** ** Turns *)

Inductive TurnKind := Dialogue | Autonomous | Internal.
Inductive CallPhase := PhaseRequest | PhaseDraft | PhaseComplete | PhaseCancel.
#[export] Instance call_phase_eq_dec : EqDecision CallPhase.
Proof. solve_decision. Defined.

Record TextBlock := mkTextBlock { tb_text : string; tb_call_id : option string }.
Record TurnCall := mkTurnCall {
  tc_call_id : string;
  tc_trace_id : string;
  tc_protocol : option ProtocolKind;
  tc_model : option string;
  tc_events : list CallPhase
}.
Record Turn := mkTurn {
  turn_id : string;
  turn_index : Z;
  turn_kind : TurnKind;
  turn_user : option TextBlock;
  turn_assistant : option TextBlock;
  turn_calls : list TurnCall
}.

(** [TurnId::new]. *)
Definition turn_id_new (story_id : string) (index : Z) : string := story_id +:+ "#turn-" +:+ pretty index.

Record TurnMachine := mkTurnMachine {
  tm_story_id : string;
  tm_agent_id : string;
  tm_run_id : option string;
  tm_turns : list Turn;
  tm_active_turn : option string;
  tm_call_turns : gmap string string;
  tm_next_index : Z
}.
Record TurnObserveOutcome := mkOutcome { out_turn_id : option string; out_turn_index : option Z }.

Record StoryLink := mkStoryLink {
  link_parent_story_id : string; link_spawn_call_id : string; link_spawn_turn_index : option Z; link_merge_back : bool
}.
Record StoryView := mkStory {
  st_story_id : string;
  st_run_id : option string;
  st_agent_id : string;
  st_parent : option StoryLink;
  st_turns : list Turn
}.

Definition turn_machine_with_context (story_id agent_id : string) (run_id : option string) : TurnMachine :=
  mkTurnMachine story_id agent_id run_id [] None ∅ 0.
Definition turn_machine_new (story_id : string) : TurnMachine := turn_machine_with_context story_id "" None.

Definition set_story_meta (agent_id : string) (run_id : option string) (t : TurnMachine) : TurnMachine :=
  mkTurnMachine (tm_story_id t)
    (if is_empty (tm_agent_id t) then agent_id else tm_agent_id t)
    (match tm_run_id t with None => run_id | Some r => Some r end)
    (tm_turns t) (tm_active_turn t) (tm_call_turns t) (tm_next_index t).

Definition snapshot_story (t : TurnMachine) : StoryView :=
  mkStory (tm_story_id t) (tm_run_id t) (tm_agent_id t) None (tm_turns t).

Definition with_turns (turns : list Turn) (t : TurnMachine) : TurnMachine :=
  mkTurnMachine (tm_story_id t) (tm_agent_id t) (tm_run_id t) turns (tm_active_turn t) (tm_call_turns t) (tm_next_index t).
Definition link_call (call_id turn : string) (t : TurnMachine) : TurnMachine :=
  mkTurnMachine (tm_story_id t) (tm_agent_id t) (tm_run_id t) (tm_turns t) (tm_active_turn t)
    (<[call_id := turn]> (tm_call_turns t)) (tm_next_index t).

Definition find_turn (id : string) (turns : list Turn) : option Turn := List.find (fun t => bool_decide (turn_id t = id)) turns.
Definition lookup_index (t : TurnMachine) (id : string) : option Z := turn_index <$> find_turn id (tm_turns t).
Definition outcome_of (t : TurnMachine) (id : option string) : TurnObserveOutcome :=
  mkOutcome id (id ≫= lookup_index t).

(** An update through [turn_mut]: the first turn with this identity. *)
Fixpoint alter_turn (id : string) (f : Turn -> Turn) (turns : list Turn) : list Turn :=
  match turns with
  | [] => []
  | t :: turns => if bool_decide (turn_id t = id) then f t :: turns else t :: alter_turn id f turns
  end.

Definition call_entry (call_id : string) (events : list CallPhase) : TurnCall := mkTurnCall call_id "" None None events.

(** Recording a phase in the entry of a call: added once, or with a new entry. *)
Fixpoint record_phase (call_id : string) (kind : CallPhase) (calls : list TurnCall) : list TurnCall :=
  match calls with
  | [] => [call_entry call_id [kind]]
  | c :: calls =>
      if bool_decide (tc_call_id c = call_id) then
        (if bool_decide (kind ∈ tc_events c) then c
         else mkTurnCall (tc_call_id c) (tc_trace_id c) (tc_protocol c) (tc_model c) (tc_events c ++ [kind])%list) :: calls
      else c :: record_phase call_id kind calls
  end.
Definition with_calls (calls : list TurnCall) (t : Turn) : Turn :=
  mkTurn (turn_id t) (turn_index t) (turn_kind t) (turn_user t) (turn_assistant t) calls.
Definition with_assistant (b : TextBlock) (t : Turn) : Turn :=
  mkTurn (turn_id t) (turn_index t) (turn_kind t) (turn_user t) (Some b) (turn_calls t).

Definition ensure_call_in_turn (id call_id : string) (kind : CallPhase) (t : TurnMachine) : TurnMachine :=
  match find_turn id (tm_turns t) with
  | None => t
  | Some _ =>
      link_call call_id id
        (with_turns (alter_turn id (fun turn => with_calls (record_phase call_id kind (turn_calls turn)) turn) (tm_turns t)) t)
  end.

Definition ensure_call_on_active_turn (call_id : string) (kind : CallPhase) (t : TurnMachine) : option string * TurnMachine :=
  match tm_active_turn t with
  | None => (None, t)
  | Some id => (Some id, ensure_call_in_turn id call_id kind t)
  end.

Definition ensure_call_for_call (call_id : string) (kind : CallPhase) (t : TurnMachine) : option string * TurnMachine :=
  match or_else (tm_call_turns t !! call_id) (tm_active_turn t) with
  | None => (None, t)
  | Some id => (Some id, ensure_call_in_turn id call_id kind t)
  end.

(** Opening a turn; [None] is the overflow of its index. *)
Definition open_turn (call_id : string) (kind : TurnKind) (user : option TextBlock) (t : TurnMachine)
    : option (TurnObserveOutcome * TurnMachine) :=
  let index := tm_next_index t in
  let id := turn_id_new (tm_story_id t) index in
  if (u32_max <? index + 1)%Z then None
  else
    let turn := mkTurn id index kind user None [call_entry call_id [PhaseRequest]] in
    Some (mkOutcome (Some id) (Some index),
          mkTurnMachine (tm_story_id t) (tm_agent_id t) (tm_run_id t) (tm_turns t ++ [turn])%list (Some id)
            (<[call_id := id]> (tm_call_turns t)) (index + 1)).

Section Observe.
Context {V : Type} `{JsonOps V, Blake3}.

Definition is_internal_llm_request (rec : CaptureRecord V) : bool :=
  if negb (cr_kind rec =? "llm.request") then false
  else if is_some_and (get_str (cr_payload rec) "protocol") (fun p => p =? protocol_as_str CountTokens) then true
  else is_some_and (get_str (cr_payload rec) "path") (fun path => bool_decide (from_path path = CountTokens)).

Definition on_request (call_id : string) (rec : CaptureRecord V) (t : TurnMachine)
    : option (TurnObserveOutcome * TurnMachine) :=
  if is_internal_llm_request rec then
    let '(id, t) := ensure_call_on_active_turn call_id PhaseRequest t in Some (outcome_of t id, t)
  else
    match visible_user_from_payload (cr_payload rec) with
    | Some text => open_turn call_id Dialogue (Some (mkTextBlock text (Some call_id))) t
    | None =>
        match tm_active_turn t with
        | Some _ => let '(id, t) := ensure_call_on_active_turn call_id PhaseRequest t in Some (outcome_of t id, t)
        | None => open_turn call_id Autonomous None t
        end
    end.

Definition on_response (call_id : string) (rec : CaptureRecord V) (t : TurnMachine)
    : option (TurnObserveOutcome * TurnMachine) :=
  let '(id, t) := ensure_call_for_call call_id PhaseComplete t in
  text ← visible_assistant_from_payload (cr_payload rec);
  let t := match text, id with
           | Some text, Some id =>
               with_turns (alter_turn id (with_assistant (mkTextBlock text (Some call_id))) (tm_turns t)) t
           | _, _ => t
           end in
  Some (outcome_of t id, t).

Definition on_cancel (call_id : string) (t : TurnMachine) : TurnObserveOutcome * TurnMachine :=
  let '(id, t) := ensure_call_for_call call_id PhaseCancel t in (outcome_of t id, t).

Definition apply_record (rec : CaptureRecord V) (t : TurnMachine) : option (TurnObserveOutcome * TurnMachine) :=
  let call_id := default "unknown" (cr_call_id rec) in
  if cr_kind rec =? "llm.request" then on_request call_id rec t
  else if (cr_kind rec =? "llm.response") || (cr_kind rec =? "llm.response.stream") then on_response call_id rec t
  else if cr_kind rec =? "llm.call.cancelled" then Some (on_cancel call_id t)
  else Some (outcome_of t (tm_active_turn t), t).

Definition with_payload (v : V) (r : CaptureRecord V) : CaptureRecord V :=
  mkCaptureRecord (cr_event_id r) (cr_observed_at_unix_ms r) (cr_kind r) (cr_timestamp r) (cr_session_id r) (cr_agent_id r)
    (cr_parent_uuid r) (cr_trace_id r) (cr_call_id r) (cr_subagent_id r) (cr_parent_agent_id r) (cr_branch r)
    (cr_parent_call_id r) v.

(** Stamping the payload with the turn. *)
Definition stamp (outcome : TurnObserveOutcome) (payload : V) : option V :=
  payload ← match out_turn_id outcome with
            | Some id => index_assign payload "turn_id" (json_str id)
            | None => Some payload
            end;
  match out_turn_index outcome with
  | Some index => index_assign payload "turn_index" (json_u32 index)
  | None => Some payload
  end.

Definition observe_record (rec : CaptureRecord V) (t : TurnMachine)
    : option (TurnObserveOutcome * CaptureRecord V * TurnMachine) :=
  '(outcome, t) ← apply_record rec t;
  payload ← stamp outcome (cr_payload rec);
  Some (outcome, with_payload payload rec, t).

Definition observe_all (records : list (CaptureRecord V)) (t : TurnMachine) : option TurnMachine :=
  foldl (fun t rec => t ← t; '(_, _, t) ← observe_record rec t; Some t) (Some t) records.
Definition replay_records (story_id agent_id : string) (run_id : option string) (records : list (CaptureRecord V))
    : option TurnMachine :=
  observe_all records (turn_machine_with_context story_id agent_id run_id).
End Observe.

(** ** Records and events *)
Section Events.
Context {V : Type} `{JsonShape V, UrlOps, CaptureCodec V, Codec V}.

(** What the machine and the clock answer when asked. *)
Record Ambient := mkAmbient { now_rfc3339 : string; unix_now_ms : Z; new_uuid : string }.

(** [unix_ms_from_rfc3339]: clamped at zero. *)
Definition unix_ms_from_rfc3339 (timestamp : string) : option Z := Z.max 0 <$> parse_rfc3339_ms timestamp.

Definition ensure_timestamp (amb : Ambient) (r : CaptureRecord V) : CaptureRecord V :=
  let timestamp := or_else (cr_timestamp r) (Some (now_rfc3339 amb)) in
  let observed := match cr_observed_at_unix_ms r with
                  | Some ms => Some ms
                  | None => or_else (timestamp ≫= unix_ms_from_rfc3339) (Some (unix_now_ms amb))
                  end in
  mkCaptureRecord (cr_event_id r) observed (cr_kind r) timestamp (cr_session_id r) (cr_agent_id r)
    (cr_parent_uuid r) (cr_trace_id r) (cr_call_id r) (cr_subagent_id r) (cr_parent_agent_id r) (cr_branch r)
    (cr_parent_call_id r) (cr_payload r).

Definition GATEWAY : string := "pvisor-gateway".

Definition into_event (amb : Ambient) (r : CaptureRecord V) (story : StoryContext) : Result string (Event V) :=
  let r := ensure_timestamp amb r in
  let id := default (new_uuid amb) (cr_event_id r) in
  let trace_id := default (sc_story_id story) (sc_run_id story) in
  let '(domain, name) := default ("gateway", cr_kind r) (split_once "." (cr_kind r)) in
  let data := mkCaptureObservation story
    (mkCorrelation (cr_call_id r) (cr_trace_id r) (cr_parent_uuid r) (cr_parent_agent_id r) (cr_branch r) (cr_parent_call_id r))
    (redact_sensitive_body (cr_payload r)) in
  payload ← ok_or (observation_to_value data) "encoding failed";
  let event := mkEvent EVENT_VERSION id trace_id GATEWAY (default 0 (cr_observed_at_unix_ms r))%Z
    ["capture"; sc_story_id story] None None [] LevelInfo GrainOperation
    (FactObservation domain (domain +:+ "." +:+ name) 1 payload) in
  _ ← validate_event event;
  Ok event.

Definition from_event (e : Event V) : Result string (CaptureRecord V) :=
  match ev_data e with
  | FactObservation _ _ 1 payload =>
      data ← ok_or (observation_from_value payload) "invalid observation";
      let c := co_correlation data in
      Ok (mkCaptureRecord (Some (ev_id e)) (Some (ev_observed_at_unix_ms e)) (event_name e) (format_ms (ev_observed_at_unix_ms e))
            (Some (route_session_id (sc_route (co_story data)))) (Some (sc_agent_id (co_story data)))
            (cc_parent_uuid c) (cc_trace_id c) (cc_call_id c) (route_subagent_id (sc_route (co_story data)))
            (cc_parent_agent_id c) (cc_branch c) (cc_parent_call_id c) (co_content data))
  | _ => Err "not a capture observation"
  end.

Definition is_capture_event (e : Event V) : bool :=
  (ev_producer e =? GATEWAY) && is_some_and (head (ev_scope e)) (fun s => s =? "capture").

Definition capture_observation (e : Event V) : Result string (CaptureObservation V) :=
  _ ← ensure (is_capture_event e) "not a capture fact";
  match ev_data e with
  | FactObservation _ _ 1 payload => ok_or (observation_from_value payload) "invalid observation"
  | _ => Err "unsupported capture observation version"
  end.

(** ** The owner of a story *)

(** The maps that all stories of a runtime share, and the journal. *)
Record Shared := mkShared { sh_requests : gmap (string * string) string; sh_journal : Journal V }.

Record StoryActor := mkActor {
  ac_story_id : string;
  ac_turns : TurnMachine;
  ac_storage_session_id : option string;
  ac_seen : gset string
}.
Definition actor_new (story_id : string) : StoryActor := mkActor story_id (turn_machine_new story_id) None ∅.

Inductive StoryReply := Ack | SnapshotOf (story : StoryView) | LocalSnapshotOf (storage_session_id : string) (story : StoryView).
Inductive LocalStoryCommand :=
| Restore (scope : StoryContext) (record : CaptureRecord V)
| PersistRecord (scope : StoryContext) (record : CaptureRecord V)
| Flush
| Snapshot (scope : StoryContext)
| LocalSnapshot.

(** [LocalStoryCommand::persist_record]. *)
Definition identified (amb : Ambient) (record : CaptureRecord V) : CaptureRecord V :=
  let r := ensure_timestamp amb record in
  mkCaptureRecord (Some (default (new_uuid amb) (cr_event_id r))) (cr_observed_at_unix_ms r) (cr_kind r) (cr_timestamp r)
    (cr_session_id r) (cr_agent_id r) (cr_parent_uuid r) (cr_trace_id r) (cr_call_id r) (cr_subagent_id r)
    (cr_parent_agent_id r) (cr_branch r) (cr_parent_call_id r) (cr_payload r).
Definition persist_record (amb : Ambient) (scope : StoryContext) (record : CaptureRecord V) : LocalStoryCommand :=
  PersistRecord scope (identified amb record).

Definition sync_scope (scope : StoryContext) (a : StoryActor) : StoryActor :=
  mkActor (ac_story_id a) (set_story_meta (sc_agent_id scope) (sc_run_id scope) (ac_turns a))
    (Some (route_storage_session_id (sc_route scope))) (ac_seen a).

Definition remember_request (rec : CaptureRecord V) (story : StoryContext) (requests : gmap (string * string) string)
    : gmap (string * string) string :=
  if cr_kind rec =? "llm.request" then
    match cr_call_id rec, cr_event_id rec with
    | Some call, Some id => <[(default (sc_story_id story) (sc_run_id story), call) := id]> requests
    | _, _ => requests
    end
  else requests.

Definition see (id : string) (a : StoryActor) : StoryActor :=
  mkActor (ac_story_id a) (ac_turns a) (ac_storage_session_id a) ({[id]} ∪ ac_seen a).

Context `{Blake3}.

(** [self.turns.observe_record(&mut rec)], the stamped record dropped. *)
Definition observe (rec : CaptureRecord V) (a : StoryActor) : option StoryActor :=
  '(_, _, t) ← observe_record rec (ac_turns a);
  Some (mkActor (ac_story_id a) t (ac_storage_session_id a) (ac_seen a)).

Definition restore_record (scope : StoryContext) (rec : CaptureRecord V) (a : StoryActor) (sh : Shared)
    : option (StoryActor * Shared * Result string StoryReply) :=
  let sh := mkShared (remember_request rec scope (sh_requests sh)) (sh_journal sh) in
  match cr_event_id rec with
  | None => Some (a, sh, Err "restored record missing identity")
  | Some id =>
      if bool_decide (id ∈ ac_seen a) then Some (a, sh, Ok Ack)
      else a ← observe rec (see id a); Some (a, sh, Ok Ack)
  end.

Definition push_cause (cause : option string) (e : Event V) : Event V :=
  match cause with
  | None => e
  | Some c => mkEvent (ev_version e) (ev_id e) (ev_trace_id e) (ev_producer e) (ev_observed_at_unix_ms e) (ev_scope e)
                (ev_context e) (ev_operation e) (ev_caused_by e ++ [c])%list (ev_level e) (ev_granularity e) (ev_data e)
  end.

(** The arm of [PersistRecord] in its three parts: the event with the request it
    depends on, which is looked up in the shared map; the append, which the owner
    waits for; and what it does with the story once the event is in the journal.
    [index_ok] is whether the session index took the event. *)
Definition commit_event (amb : Ambient) (scope : StoryContext) (rec : CaptureRecord V) (requests : gmap (string * string) string)
    : Result string (Event V) :=
  event ← into_event amb rec scope;
  let dependency := if cr_kind rec =? "llm.request" then cr_parent_call_id rec else cr_call_id rec in
  Ok (push_cause (dependency ≫= fun call => requests !! (ev_trace_id event, call)) event).
Definition finish_commit (index_ok : bool) (scope : StoryContext) (event : Event V) (a : StoryActor) (sh : Shared)
    : option (StoryActor * Shared * Result string StoryReply) :=
  if bool_decide (ev_id event ∈ ac_seen a) then Some (a, sh, Ok Ack)
  else
    let a := see (ev_id event) a in
    match from_event event with
    | Err why => Some (a, sh, Err why)
    | Ok committed =>
        let sh := mkShared (remember_request committed scope (sh_requests sh)) (sh_journal sh) in
        a ← observe committed a;
        Some (a, sh, if index_ok then Ok Ack else Err "session index")
    end.
(** The parts one after the other, when no other owner comes in between. *)
Definition commit_record (amb : Ambient) (io : WriteOutcome) (index_ok : bool)
    (scope : StoryContext) (rec : CaptureRecord V) (a : StoryActor) (sh : Shared)
    : option (StoryActor * Shared * Result string StoryReply) :=
  match commit_event amb scope rec (sh_requests sh) with
  | Err why => Some (a, sh, Err why)
  | Ok event =>
      '(journal, receipt) ← append io (sh_journal sh) event;
      let sh := mkShared (sh_requests sh) journal in
      match receipt with
      | Err _ => Some (a, sh, Err "capture commit")
      | Ok _ => finish_commit index_ok scope event a sh
      end
  end.

Definition handle (amb : Ambient) (io : WriteOutcome) (index_ok : bool) (cmd : LocalStoryCommand)
    (a : StoryActor) (sh : Shared) : option (StoryActor * Shared * Result string StoryReply) :=
  match cmd with
  | Flush => Some (a, sh, Ok Ack)
  | LocalSnapshot =>
      Some (a, sh, Ok (LocalSnapshotOf (default (ac_story_id a) (ac_storage_session_id a)) (snapshot_story (ac_turns a))))
  | Snapshot scope => let a := sync_scope scope a in Some (a, sh, Ok (SnapshotOf (snapshot_story (ac_turns a))))
  | Restore scope rec => restore_record scope rec (sync_scope scope a) sh
  | PersistRecord scope rec => commit_record amb io index_ok scope rec (sync_scope scope a) sh
  end.

(** ** The runtime *)

Record Runtime := mkRuntime { rt_actors : gmap string StoryActor; rt_shared : Shared }.

(** [ApplyDispatcher::command]: the owner of the story, created when missing,
    handles the command. *)
Definition dispatch (amb : Ambient) (io : WriteOutcome) (index_ok : bool) (story_id : string) (cmd : LocalStoryCommand)
    (rt : Runtime) : option (Runtime * Result string StoryReply) :=
  let a := default (actor_new story_id) (rt_actors rt !! story_id) in
  '(a, sh, reply) ← handle amb io index_ok cmd a (rt_shared rt);
  Some (mkRuntime (<[story_id := a]> (rt_actors rt)) sh, reply).

(** *** Owners side by side

    The owner of a story handles one command after the other, but it waits for its
    append, and the owners of other stories go on meanwhile. A flight is a commit
    whose event is made and, once written, in the journal. [None] is a panic, or a
    step that is not there to be taken: another command for a story whose owner
    waits, a write or an end without its flight. *)
Record Flight := mkFlight { fl_scope : StoryContext; fl_event : Event V; fl_written : bool }.
Record Owners := mkOwners { ow_runtime : Runtime; ow_flights : gmap string Flight }.

Definition begin_capture (amb : Ambient) (scope : StoryContext) (record : CaptureRecord V) (o : Owners) : option Owners :=
  let sid := sc_story_id scope in let rt := ow_runtime o in
  match ow_flights o !! sid with
  | Some _ => None
  | None =>
      let a := sync_scope scope (default (actor_new sid) (rt_actors rt !! sid)) in
      let rt := mkRuntime (<[sid := a]> (rt_actors rt)) (rt_shared rt) in
      Some (mkOwners rt
        (match commit_event amb scope (identified amb record) (sh_requests (rt_shared rt)) with
         | Err _ => ow_flights o
         | Ok event => <[sid := mkFlight scope event false]> (ow_flights o)
         end))
  end.
Definition write_capture (io : WriteOutcome) (sid : string) (o : Owners) : option Owners :=
  let rt := ow_runtime o in
  match ow_flights o !! sid with
  | Some (mkFlight scope event false) =>
      '(journal, receipt) ← append io (sh_journal (rt_shared rt)) event;
      Some (mkOwners (mkRuntime (rt_actors rt) (mkShared (sh_requests (rt_shared rt)) journal))
        (match receipt with
         | Err _ => delete sid (ow_flights o)
         | Ok _ => <[sid := mkFlight scope event true]> (ow_flights o)
         end))
  | _ => None
  end.
Definition end_capture (index_ok : bool) (sid : string) (o : Owners) : option Owners :=
  let rt := ow_runtime o in
  match ow_flights o !! sid with
  | Some (mkFlight scope event true) =>
      '(a, sh, _) ← finish_commit index_ok scope event (default (actor_new sid) (rt_actors rt !! sid)) (rt_shared rt);
      Some (mkOwners (mkRuntime (<[sid := a]> (rt_actors rt)) sh) (delete sid (ow_flights o)))
  | _ => None
  end.
(** A command that an owner handles without waiting. *)
Definition command_idle (sid : string) (cmd : LocalStoryCommand) (o : Owners) : option Owners :=
  match ow_flights o !! sid with
  | Some _ => None
  | None => '(rt, _) ← dispatch (mkAmbient "" 0 "") Synced true sid cmd (ow_runtime o); Some (mkOwners rt (ow_flights o))
  end.

(** One record of [rebuild_projections]. *)
Definition rebuild_record (amb : Ambient) (rt : Runtime) (record : TraceRecord V) : option (Result string Runtime) :=
  let e := rec_event record in
  if negb (is_capture_event e) then Some (Ok rt)
  else
    match (payload ← capture_observation e; rec ← from_event e; Ok (co_story payload, rec)) with
    | Err why => Some (Err why)
    | Ok (scope, rec) =>
        '(rt, reply) ← dispatch amb Synced true (sc_story_id scope) (Restore scope rec) rt;
        Some (match reply with Ok _ => Ok rt | Err why => Err why end)
    end.

Fixpoint rebuild_records (amb : Ambient) (records : list (TraceRecord V)) (rt : Runtime) : option (Result string Runtime) :=
  match records with
  | [] => Some (Ok rt)
  | record :: records =>
      r ← rebuild_record amb rt record;
      match r with Ok rt => rebuild_records amb records rt | Err why => Some (Err why) end
  end.

(** [CaptureRuntime::new] on an open journal whose records the session index
    accepts. *)
Definition runtime_new (amb : Ambient) (journal : Journal V) : option (Result string Runtime) :=
  rs ← records journal;
  match rs with
  | Err why => Some (Err why)
  | Ok rs => rebuild_records amb rs (mkRuntime ∅ (mkShared ∅ journal))
  end.
End Events.

