(* ===== verification/StoryFacts.v ===== *)
(** * Properties of stories

    The turns of a story are numbered in the order of their opening and every
    record is attributed to one of them; a response joins the turn of its
    request; and what the live runtime shows of its stories is what a restart
    rebuilds from the journal. *)
From stdpp Require Import base tactics list sets strings gmap pretty.
From Stdlib Require Import ZArith Lia Ascii.
From S2P Require Import Prelude RustStr Types Execution Operation Causality Journal JournalFacts.
From S2P Require Import Json Dialogue DialogueText Redact Story.
Local Open Scope string_scope.

(** ** The turn machine *)

Lemma app_string_inj s t u : s +:+ t = s +:+ u -> t = u.
Proof. intros E%(f_equal to_bytes). rewrite !to_bytes_app in E. by apply app_inv_head, to_bytes_inj in E. Qed.

Lemma turn_id_inj s i j : turn_id_new s i = turn_id_new s j -> i = j.
Proof. unfold turn_id_new. intros E%app_string_inj%app_string_inj. by apply (inj pretty). Qed.

(** A call has one entry in a turn, and a phase is recorded once in it. *)
Definition calls_ok (calls : list TurnCall) : Prop :=
  NoDup (tc_call_id <$> calls) /\ Forall (fun c => NoDup (tc_events c) /\ tc_events c <> []) calls.

(** The turns are numbered from zero, the last one is active, and every call is
    linked to a turn that has an entry for it. *)
Record tm_ok (t : TurnMachine) : Prop := {
  ok_next : tm_next_index t = Z.of_nat (length (tm_turns t));
  ok_turn : forall i turn, tm_turns t !! i = Some turn ->
    turn_index turn = Z.of_nat i /\ turn_id turn = turn_id_new (tm_story_id t) (Z.of_nat i) /\ calls_ok (turn_calls turn);
  ok_active : tm_active_turn t = turn_id <$> last (tm_turns t);
  ok_links : forall call id, tm_call_turns t !! call = Some id ->
    exists turn, turn ∈ tm_turns t /\ turn_id turn = id /\ call ∈ tc_call_id <$> turn_calls turn
}.

Lemma turn_machine_ok story agent run : tm_ok (turn_machine_with_context story agent run).
Proof. split; cbn; [done| |done|]; intros ? ? H; [by rewrite lookup_nil in H|by rewrite lookup_empty in H]. Qed.

Lemma record_phase_ids call kind calls :
  tc_call_id <$> record_phase call kind calls = (tc_call_id <$> calls) \/
  (call ∉ tc_call_id <$> calls /\ tc_call_id <$> record_phase call kind calls = ((tc_call_id <$> calls) ++ [call])%list).
Proof.
  induction calls as [|c calls IH]; cbn; [right; split; [apply not_elem_of_nil|done]|].
  case_bool_decide as E; [left; by case_bool_decide|]. cbn. rewrite not_elem_of_cons.
  destruct IH as [->|[Hn ->]]; [by left|right; split; [split; congruence|done]].
Qed.

Lemma record_phase_has call kind calls : call ∈ tc_call_id <$> record_phase call kind calls.
Proof.
  induction calls as [|c calls IH]; cbn; [by left|]. case_bool_decide as E; [|by right].
  rewrite <- E. by case_bool_decide; left.
Qed.
Lemma record_phase_keeps call kind calls c :
  c ∈ tc_call_id <$> calls -> c ∈ tc_call_id <$> record_phase call kind calls.
Proof. intros H. destruct (record_phase_ids call kind calls) as [->|[_ ->]]; set_solver. Qed.

Lemma record_phase_ok call kind calls : calls_ok calls -> calls_ok (record_phase call kind calls).
Proof.
  intros [Hd He]. split.
  - destruct (record_phase_ids call kind calls) as [->|[Hn ->]]; [done|]. apply NoDup_app. split_and!; [done| |].
    + intros x Hx ->%list_elem_of_singleton. done.
    + apply NoDup_singleton.
  - clear Hd. induction He as [|c calls [Hc Hne] He IH]; cbn.
    { constructor; [|done]. split; [apply NoDup_singleton|done]. }
    case_bool_decide; [|by constructor]. constructor; [|done]. case_bool_decide as E; [done|]. cbn. split.
    + apply NoDup_app. split_and!; [done| |apply NoDup_singleton]. by intros x Hx ->%list_elem_of_singleton.
    + by destruct (tc_events c).
Qed.

(** Altering the turn of an identity changes that turn alone. *)
Lemma alter_turn_lookup id f turns i turn :
  (forall t, turn_id (f t) = turn_id t) ->
  alter_turn id f turns !! i = Some turn ->
  exists old, turns !! i = Some old /\ (turn = old \/ turn = f old /\ turn_id old = id).
Proof.
  intros Hf. revert i. induction turns as [|t turns IH]; intros i; cbn; [by rewrite lookup_nil|].
  case_bool_decide as E; destruct i as [|i]; cbn; intros Hi; simplify_eq; eauto.
Qed.
Lemma alter_turn_ids id f turns :
  (forall t, turn_id (f t) = turn_id t) -> turn_id <$> alter_turn id f turns = turn_id <$> turns.
Proof.
  intros Hf. induction turns as [|t turns IH]; cbn; [done|]. case_bool_decide; cbn; [by rewrite Hf|by f_equal].
Qed.
Lemma alter_turn_length id f turns : length (alter_turn id f turns) = length turns.
Proof. induction turns as [|t turns IH]; cbn; [done|]. case_bool_decide; cbn; congruence. Qed.
Lemma alter_turn_last id f turns :
  (forall t, turn_id (f t) = turn_id t) -> turn_id <$> last (alter_turn id f turns) = turn_id <$> last turns.
Proof. intros Hf. by rewrite <- !fmap_last, alter_turn_ids. Qed.
Lemma alter_turn_elem id f turns turn :
  turn ∈ turns -> turn ∈ alter_turn id f turns \/ turn_id turn = id /\ f turn ∈ alter_turn id f turns.
Proof.
  induction turns as [|t turns IH]; cbn; [set_solver|]. intros [->|Hin]%elem_of_cons.
  - case_bool_decide; [right; split; [done|by left]|left; by left].
  - case_bool_decide; [left; by right|]. destruct (IH Hin) as [?|[? ?]]; [left; by right|right; split; [done|by right]].
Qed.
Lemma alter_turn_found id f turns turn :
  find_turn id turns = Some turn -> f turn ∈ alter_turn id f turns /\ turn_id turn = id.
Proof.
  unfold find_turn. induction turns as [|t turns IH]; cbn; [done|]. case_bool_decide as E.
  - intros [= <-]. split; [by left|done].
  - intros Hf. destruct (IH Hf). split; [by right|done].
Qed.

Lemma find_turn_Some id turns turn : find_turn id turns = Some turn -> turn ∈ turns /\ turn_id turn = id.
Proof.
  intros H. apply find_some in H as [Hin Hid]. apply list_elem_of_In in Hin. by apply bool_decide_eq_true in Hid.
Qed.
Lemma find_turn_elem turns turn : turn ∈ turns -> is_Some (find_turn (turn_id turn) turns).
Proof.
  intros Hin. unfold find_turn. destruct (find _ turns) eqn:E; [eauto|]. apply list_elem_of_In, (find_none _ _ E) in Hin.
  by apply bool_decide_eq_false in Hin.
Qed.

Section Machine.
Implicit Types t : TurnMachine.

Lemma tm_ok_unique t (a b : Turn) :
  tm_ok t -> a ∈ tm_turns t -> b ∈ tm_turns t -> turn_id a = turn_id b -> a = b.
Proof.
  intros Ht [i Hi]%list_elem_of_lookup [j Hj]%list_elem_of_lookup E.
  destruct (ok_turn _ Ht _ _ Hi) as (_ & Ei & _), (ok_turn _ Ht _ _ Hj) as (_ & Ej & _).
  rewrite Ei, Ej in E. apply turn_id_inj in E. assert (i = j) as -> by lia. congruence.
Qed.

Lemma lookup_index_ok t turn : tm_ok t -> turn ∈ tm_turns t -> lookup_index t (turn_id turn) = Some (turn_index turn).
Proof.
  intros Ht Hin. unfold lookup_index. destruct (find_turn_elem _ _ Hin) as [turn' E]. rewrite E.
  apply find_turn_Some in E as [Hin' E]. by rewrite (tm_ok_unique t turn' turn).
Qed.

Lemma with_turns_ok id f t :
  (forall turn, turn_id (f turn) = turn_id turn /\ turn_index (f turn) = turn_index turn) ->
  (forall turn, calls_ok (turn_calls turn) -> calls_ok (turn_calls (f turn))) ->
  (forall turn c, c ∈ tc_call_id <$> turn_calls turn -> c ∈ tc_call_id <$> turn_calls (f turn)) ->
  tm_ok t -> tm_ok (with_turns (alter_turn id f (tm_turns t)) t).
Proof.
  intros Hf Hc Hk Ht. assert (Hid : forall turn, turn_id (f turn) = turn_id turn) by (intros; apply Hf). split; cbn.
  - rewrite alter_turn_length. apply Ht.
  - intros i turn Hi. destruct (alter_turn_lookup _ _ _ _ _ Hid Hi) as (old & Ho & Hor).
    destruct (ok_turn _ Ht _ _ Ho) as (H1 & H2 & H3). destruct Hor as [->|[-> _]]; [done|].
    destruct (Hf old) as [-> ->]. split_and!; [done|done|by apply Hc].
  - rewrite alter_turn_last by done. apply Ht.
  - intros call id' Hl. destruct (ok_links _ Ht _ _ Hl) as (turn & Hin & Hi & Hcall).
    destruct (alter_turn_elem id f _ _ Hin) as [?|[_ ?]]; [by exists turn|]. exists (f turn).
    split_and!; [done|by rewrite Hid|by apply Hk].
Qed.

Lemma link_call_ok call id t :
  (exists turn, turn ∈ tm_turns t /\ turn_id turn = id /\ call ∈ tc_call_id <$> turn_calls turn) ->
  tm_ok t -> tm_ok (link_call call id t).
Proof.
  intros Hturn [H1 H2 H3 H4]. split; cbn; [done|done|done|]. intros c i.
  destruct (decide (c = call)) as [->|]; [rewrite lookup_insert_eq; by intros [= <-]|].
  rewrite lookup_insert_ne by congruence. apply H4.
Qed.

Lemma ensure_call_in_turn_ok id call kind t : tm_ok t -> tm_ok (ensure_call_in_turn id call kind t).
Proof.
  intros Ht. unfold ensure_call_in_turn. destruct (find_turn id (tm_turns t)) as [turn|] eqn:E; [|done].
  set (f := fun turn => with_calls (record_phase call kind (turn_calls turn)) turn).
  assert (tm_ok (with_turns (alter_turn id f (tm_turns t)) t)) as Hok.
  { apply with_turns_ok; [done| | |done]; intros ?; [apply record_phase_ok|intros ?; apply record_phase_keeps]. }
  apply link_call_ok; [|done]. cbn. destruct (alter_turn_found id f _ _ E) as [Hin Hid].
  exists (f turn). split_and!; [done|done|apply record_phase_has].
Qed.

Lemma with_assistant_ok id b t : tm_ok t -> tm_ok (with_turns (alter_turn id (with_assistant b) (tm_turns t)) t).
Proof. by apply with_turns_ok. Qed.

Lemma open_turn_ok call kind user t o t' :
  tm_ok t -> open_turn call kind user t = Some (o, t') ->
  tm_ok t' /\ exists turn, tm_turns t' = (tm_turns t ++ [turn])%list
    /\ o = mkOutcome (Some (turn_id turn)) (Some (turn_index turn)) /\ tm_call_turns t' !! call = Some (turn_id turn)
    /\ turn_index turn = Z.of_nat (length (tm_turns t)) /\ turn_user turn = user /\ turn_kind turn = kind.
Proof.
  intros Ht. unfold open_turn. destruct (_ <? _)%Z; [done|]. intros [= <- <-].
  set (turn := mkTurn _ _ kind user None _). pose proof (ok_next _ Ht) as Hn. split.
  - split; cbn.
    + rewrite length_app, Hn. cbn. lia.
    + intros i turn' [Hi|[Hl Hi]]%lookup_app_Some; [by apply Ht|].
      apply list_lookup_singleton_Some in Hi as [Hi <-]. cbn. replace (Z.of_nat i) with (tm_next_index t) by lia.
      split_and!; [done|done|]. split; [apply NoDup_singleton|]. repeat constructor; [by apply not_elem_of_nil|done].
    + by rewrite last_snoc.
    + intros c id. destruct (decide (c = call)) as [->|]; [rewrite lookup_insert_eq; intros [= <-]|rewrite lookup_insert_ne by congruence].
      * exists turn. split_and!; [set_solver|done|by left].
      * intros Hl. destruct (ok_links _ Ht _ _ Hl) as (x & Hx & ?). exists x. split; [set_solver|done].
  - exists turn. cbn. rewrite lookup_insert_eq. by split_and!.
Qed.

(** An outcome names a turn of the story, unless there is none. *)
Definition outcome_ok t (o : TurnObserveOutcome) : Prop :=
  match out_turn_id o with
  | None => out_turn_index o = None /\ tm_turns t = []
  | Some id => exists turn, turn ∈ tm_turns t /\ turn_id turn = id /\ out_turn_index o = Some (turn_index turn)
  end.

Lemma outcome_of_ok t id :
  tm_ok t -> match id with None => tm_turns t = [] | Some id => id ∈ turn_id <$> tm_turns t end -> outcome_ok t (outcome_of t id).
Proof.
  intros Ht. destruct id as [id|]; cbn; [|done]. intros (turn & -> & Hin)%list_elem_of_fmap. unfold outcome_ok. cbn.
  exists turn. split_and!; [done|done|by apply lookup_index_ok].
Qed.

Lemma active_elem t : tm_ok t -> match tm_active_turn t with None => tm_turns t = [] | Some id => id ∈ turn_id <$> tm_turns t end.
Proof.
  intros Ht. rewrite (ok_active _ Ht). destruct (last (tm_turns t)) as [turn|] eqn:E; cbn; [|by apply last_None].
  apply last_Some in E as [l ->]. rewrite fmap_app. set_solver.
Qed.

Lemma ensure_ids id call kind t : turn_id <$> tm_turns (ensure_call_in_turn id call kind t) = turn_id <$> tm_turns t.
Proof. unfold ensure_call_in_turn. destruct (find_turn id (tm_turns t)); [|done]. cbn. by apply alter_turn_ids. Qed.
End Machine.

Section Records.
Context {V : Type} `{JsonOps V, Blake3}.
Implicit Types (t : TurnMachine) (rec : CaptureRecord V).

(** What a step of the machine may do. *)
Definition advances t (o : TurnObserveOutcome) t' : Prop :=
  tm_ok t' /\ outcome_ok t' o /\ tm_story_id t' = tm_story_id t /\
  (turn_id <$> tm_turns t) `prefix_of` (turn_id <$> tm_turns t').

Lemma ensure_story id call kind t : tm_story_id (ensure_call_in_turn id call kind t) = tm_story_id t.
Proof. unfold ensure_call_in_turn. by destruct (find_turn id (tm_turns t)). Qed.

Lemma ensure_advances id call kind t :
  tm_ok t -> match id with None => tm_turns t = [] | Some id => id ∈ turn_id <$> tm_turns t end ->
  let t' := match id with None => t | Some id => ensure_call_in_turn id call kind t end in
  advances t (outcome_of t' id) t'.
Proof.
  intros Ht Hid. destruct id as [id|]; cbn zeta.
  - assert (tm_ok (ensure_call_in_turn id call kind t)) as Hok by by apply ensure_call_in_turn_ok.
    split_and!; [done| |apply ensure_story|by rewrite ensure_ids]. apply outcome_of_ok; [done|]. by rewrite ensure_ids.
  - split_and!; [done| |done|done]. by apply outcome_of_ok.
Qed.

Lemma active_advances call kind t :
  tm_ok t -> let '(id, t') := ensure_call_on_active_turn call kind t in advances t (outcome_of t' id) t'.
Proof.
  intros Ht. unfold ensure_call_on_active_turn. pose proof (active_elem t Ht) as Ha.
  pose proof (ensure_advances (tm_active_turn t) call kind t Ht Ha) as Hadv. by destruct (tm_active_turn t).
Qed.

Lemma call_turn_elem t call :
  tm_ok t -> match or_else (tm_call_turns t !! call) (tm_active_turn t) with
             | None => tm_turns t = [] | Some id => id ∈ turn_id <$> tm_turns t end.
Proof.
  intros Ht. destruct (tm_call_turns t !! call) as [id|] eqn:E; cbn; [|by apply active_elem].
  destruct (ok_links _ Ht _ _ E) as (turn & Hin & <- & _). by apply list_elem_of_fmap_2.
Qed.

Lemma call_advances call kind t :
  tm_ok t -> let '(id, t') := ensure_call_for_call call kind t in advances t (outcome_of t' id) t'.
Proof.
  intros Ht. unfold ensure_call_for_call. pose proof (call_turn_elem t call Ht) as Ha.
  pose proof (ensure_advances _ call kind t Ht Ha) as Hadv. by destruct (or_else _ _).
Qed.

Lemma open_advances call kind user t o t' :
  tm_ok t -> open_turn call kind user t = Some (o, t') -> advances t o t'.
Proof.
  intros Ht Ho. destruct (open_turn_ok _ _ _ _ _ _ Ht Ho) as (Hok & turn & Hts & -> & _). split_and!; [done| | |].
  - exists turn. rewrite Hts. split_and!; [set_solver|done|done].
  - revert Ho. unfold open_turn. destruct (_ <? _)%Z; [done|]. intros E. by simplify_eq.
  - rewrite Hts, fmap_app. by apply prefix_app_r.
Qed.

Lemma apply_record_advances rec t o t' : tm_ok t -> apply_record rec t = Some (o, t') -> advances t o t'.
Proof.
  intros Ht. unfold apply_record. set (call := default "unknown" (cr_call_id rec)).
  destruct (cr_kind rec =? "llm.request"); [|destruct (_ || _); [|destruct (cr_kind rec =? "llm.call.cancelled")]].
  - unfold on_request. pose proof (active_advances call PhaseRequest t Ht) as Hact.
    destruct (ensure_call_on_active_turn call PhaseRequest t) as [id t1].
    destruct (is_internal_llm_request rec); [by intros [= <- <-]|].
    destruct (visible_user_from_payload (cr_payload rec)) as [text|]; [by apply open_advances|].
    destruct (tm_active_turn t); [by intros [= <- <-]|by apply open_advances].
  - unfold on_response. pose proof (call_advances call PhaseComplete t Ht) as Hcall.
    destruct (ensure_call_for_call call PhaseComplete t) as [id t1]. cbn.
    destruct (visible_assistant_from_payload (cr_payload rec)) as [[text|]|]; cbn; [|by intros [= <- <-]|done].
    destruct id as [id|]; [|by intros [= <- <-]]. intros [= <- <-]. destruct Hcall as (Hok & Hout & Hst & Hpre).
    set (b := mkTextBlock text (Some call)). assert (Hids : turn_id <$> alter_turn id (with_assistant b) (tm_turns t1) = turn_id <$> tm_turns t1) by by apply alter_turn_ids.
    split_and!; [by apply with_assistant_ok| |done|cbn; by rewrite Hids].
    apply outcome_of_ok; [by apply with_assistant_ok|]. cbn. rewrite Hids.
    destruct Hout as (turn & Hin & <- & _). by apply list_elem_of_fmap_2.
  - unfold on_cancel. pose proof (call_advances call PhaseCancel t Ht) as Hcall.
    destruct (ensure_call_for_call call PhaseCancel t) as [id t1]. by intros [= <- <-].
  - intros [= <- <-]. split_and!; [done|by apply outcome_of_ok, active_elem|done|done].
Qed.

Lemma observe_record_advances rec t o rec' t' : tm_ok t -> observe_record rec t = Some (o, rec', t') -> advances t o t'.
Proof.
  intros Ht. unfold observe_record. destruct (apply_record rec t) as [[o1 t1]|] eqn:E; [|done]. cbn.
  destruct (stamp o1 (cr_payload rec)); [|done]. intros [= <- _ <-]. by eapply apply_record_advances.
Qed.

Lemma observe_all_app l1 l2 t : observe_all (l1 ++ l2)%list t = (observe_all l1 t ≫= observe_all l2).
Proof.
  unfold observe_all. rewrite foldl_app. destruct (foldl _ (Some t) l1); [done|]. cbn. by induction l2.
Qed.
End Records.

Section Links.
Context {V : Type} `{JsonOps V, Blake3}.
Implicit Types (t : TurnMachine) (rec : CaptureRecord V).

Definition call_of rec : string := default "unknown" (cr_call_id rec).

Lemma ensure_link id call kind t :
  id ∈ turn_id <$> tm_turns t -> tm_call_turns (ensure_call_in_turn id call kind t) = <[call := id]> (tm_call_turns t).
Proof.
  intros (turn & -> & Hin)%list_elem_of_fmap. unfold ensure_call_in_turn.
  by destruct (find_turn_elem _ _ Hin) as [? ->].
Qed.

Lemma request_links rec t o t' id :
  tm_ok t -> cr_kind rec = "llm.request" -> apply_record rec t = Some (o, t') -> out_turn_id o = Some id ->
  tm_call_turns t' !! call_of rec = Some id.
Proof.
  intros Ht Hk. unfold apply_record. rewrite Hk. cbn -[on_request]. fold (call_of rec). unfold on_request.
  assert (Hact : forall o t', (let '(id, t) := ensure_call_on_active_turn (call_of rec) PhaseRequest t in Some (outcome_of t id, t)) = Some (o, t') ->
    out_turn_id o = Some id -> tm_call_turns t' !! call_of rec = Some id).
  { intros o1 t1. unfold ensure_call_on_active_turn. pose proof (active_elem t Ht) as Ha.
    destruct (tm_active_turn t) as [i|]; intros [= <- <-]; [|done]. intros [= ->].
    rewrite ensure_link by done. apply lookup_insert_eq. }
  assert (Hopen : forall kind user, open_turn (call_of rec) kind user t = Some (o, t') -> out_turn_id o = Some id ->
    tm_call_turns t' !! call_of rec = Some id).
  { intros kind user Ho Hid. destruct (open_turn_ok _ _ _ _ _ _ Ht Ho) as (_ & turn & _ & -> & -> & _). by cbn in Hid. }
  destruct (is_internal_llm_request rec); [apply Hact|].
  destruct (visible_user_from_payload _); [apply Hopen|]. destruct (tm_active_turn t); [apply Hact|apply Hopen].
Qed.

Lemma other_keeps_link rec t o t' c id :
  tm_ok t -> apply_record rec t = Some (o, t') -> (cr_kind rec = "llm.request" -> call_of rec <> c) ->
  tm_call_turns t !! c = Some id -> tm_call_turns t' !! c = Some id.
Proof.
  intros Ht Ha Hne Hl.
  assert (Hin : forall i call kind, (call <> c \/ i = id) -> i ∈ turn_id <$> tm_turns t ->
    tm_call_turns (ensure_call_in_turn i call kind t) !! c = Some id).
  { intros i call kind Hor Hi. rewrite ensure_link by done.
    destruct (decide (call = c)) as [->|]; [|by rewrite lookup_insert_ne]. destruct Hor as [?| ->]; [done|]. apply lookup_insert_eq. }
  assert (Hcall : forall kind, tm_call_turns (snd (ensure_call_for_call (call_of rec) kind t)) !! c = Some id).
  { intros kind. unfold ensure_call_for_call. pose proof (call_turn_elem t (call_of rec) Ht) as Hct.
    destruct (or_else _ _) as [i|] eqn:E; [|done]. apply Hin; [|done].
    destruct (decide (call_of rec = c)) as [Ec|]; [right|by left]. rewrite Ec, Hl in E. by injection E. }
  revert Ha. unfold apply_record. fold (call_of rec).
  destruct (String.eqb_spec (cr_kind rec) "llm.request") as [Hk|_]; [|destruct (_ || _); [|destruct (cr_kind rec =? "llm.call.cancelled")]].
  - specialize (Hne Hk). unfold on_request.
    assert (Hopen : forall kind user, open_turn (call_of rec) kind user t = Some (o, t') -> tm_call_turns t' !! c = Some id).
    { intros kind user. unfold open_turn. destruct (_ <? _)%Z; [done|]. intros E. simplify_eq. cbn. by rewrite lookup_insert_ne. }
    assert (Hact : tm_call_turns (snd (ensure_call_on_active_turn (call_of rec) PhaseRequest t)) !! c = Some id).
    { unfold ensure_call_on_active_turn. pose proof (active_elem t Ht). destruct (tm_active_turn t) as [i|]; [|done].
      apply Hin; [by left|done]. }
    destruct (ensure_call_on_active_turn (call_of rec) PhaseRequest t) as [i t1]. cbn in Hact.
    destruct (is_internal_llm_request rec); [by intros [= _ <-]|].
    destruct (visible_user_from_payload _); [apply Hopen|]. destruct (tm_active_turn t); [by intros [= _ <-]|apply Hopen].
  - unfold on_response. specialize (Hcall PhaseComplete). destruct (ensure_call_for_call _ _ t) as [i t1]. cbn in *.
    destruct (visible_assistant_from_payload _) as [[text|]|]; cbn; [|by intros [= _ <-]|done].
    destruct i; by intros [= _ <-].
  - unfold on_cancel. specialize (Hcall PhaseCancel). destruct (ensure_call_for_call _ _ t) as [i t1]. by intros [= _ <-].
  - by intros [= _ <-].
Qed.

Lemma observe_apply rec t o rec' t' : observe_record rec t = Some (o, rec', t') -> apply_record rec t = Some (o, t').
Proof.
  unfold observe_record. destruct (apply_record rec t) as [[o1 t1]|]; [|done]. cbn.
  destruct (stamp o1 _); [|done]. by intros [= -> _ ->].
Qed.

Lemma observe_all_keeps_link records t t' c id :
  tm_ok t -> observe_all records t = Some t' ->
  Forall (fun r => cr_kind r = "llm.request" -> call_of r <> c) records ->
  tm_call_turns t !! c = Some id -> tm_ok t' /\ tm_call_turns t' !! c = Some id.
Proof.
  intros Ht Hr Hall Hl. revert t' Hr. induction records as [|r l IH] using rev_ind; intros t' Hr.
  - by injection Hr as <-.
  - apply Forall_app in Hall as [Hall Hrr]. apply Forall_inv in Hrr. rewrite observe_all_app in Hr.
    apply bind_Some in Hr as (t1 & H1 & Hr). destruct (IH Hall _ H1) as [Hok Hl1]. cbn in Hr.
    apply bind_Some in Hr as ([[o1 r1] t2] & Hx & [= <-]).
    destruct (observe_record_advances _ _ _ _ _ Hok Hx) as (Hok' & _). split; [done|].
    apply observe_apply in Hx. exact (other_keeps_link _ _ _ _ _ _ Hok Hx Hrr Hl1).
Qed.
End Links.

(** The phase is listed in the entry of the call. *)
Lemma record_phase_events call kind calls :
  exists c, c ∈ record_phase call kind calls /\ tc_call_id c = call /\ kind ∈ tc_events c.
Proof.
  induction calls as [|c calls IH]; cbn; [exists (call_entry call [kind]); split_and!; [by left|done|by left]|].
  case_bool_decide as E.
  - case_bool_decide as E2; [exists c; split_and!; [by left|done|done]|]. eexists. split; [by left|]. cbn.
    split; [done|]. set_solver.
  - destruct IH as (d & Hd & ?). exists d. split; [by right|done].
Qed.

(** ** Attribution *)

(** The turn lists the phase of the call. *)
Definition lists (t : TurnMachine) (id call : string) (phase : CallPhase) : Prop :=
  exists turn c, turn ∈ tm_turns t /\ turn_id turn = id /\ c ∈ turn_calls turn /\ tc_call_id c = call /\ phase ∈ tc_events c.
Definition keeps_listed (t t' : TurnMachine) : Prop := forall id call phase, lists t id call phase -> lists t' id call phase.

Lemma record_phase_keeps_events call kind calls c : c ∈ calls ->
  exists c', c' ∈ record_phase call kind calls /\ tc_call_id c' = tc_call_id c /\ forall p, p ∈ tc_events c -> p ∈ tc_events c'.
Proof.
  induction calls as [|x calls IH]; cbn; [by intros ?%elem_of_nil|]. intros [->|Hin]%elem_of_cons.
  - case_bool_decide; [|exists x; split_and!; [by left|done|done]]. eexists. split; [by left|]. case_bool_decide; [done|]. split; [done|]. cbn. set_solver.
  - case_bool_decide; [exists c; split_and!; [by right|done|done]|]. destruct (IH Hin) as (c' & ? & ? & ?). exists c'. split_and!; [by right|done|done].
Qed.
Lemma alter_keeps_listed id f t : (forall turn, turn_id (f turn) = turn_id turn) ->
  (forall turn c, c ∈ turn_calls turn -> exists c', c' ∈ turn_calls (f turn) /\ tc_call_id c' = tc_call_id c /\ forall p, p ∈ tc_events c -> p ∈ tc_events c') ->
  keeps_listed t (with_turns (alter_turn id f (tm_turns t)) t).
Proof.
  intros Hf Hc i call phase (turn & c & Hin & Hi & Hcin & Hcall & Hp). destruct (alter_turn_elem id f _ _ Hin) as [?|[_ ?]]; [by exists turn, c|].
  destruct (Hc turn c Hcin) as (c' & Hc' & Hid & Hev). exists (f turn), c'. split_and!; [done|by rewrite Hf|done|congruence|by apply Hev].
Qed.
Lemma ensure_lists id call kind t : id ∈ turn_id <$> tm_turns t -> lists (ensure_call_in_turn id call kind t) id call kind.
Proof.
  intros (turn & -> & Hin)%list_elem_of_fmap. unfold ensure_call_in_turn. destruct (find_turn_elem _ _ Hin) as [found E]. rewrite E.
  destruct (alter_turn_found _ (fun turn => with_calls (record_phase call kind (turn_calls turn)) turn) _ _ E) as [Hf Hid].
  destruct (record_phase_events call kind (turn_calls found)) as (c & ? & ? & ?). by eexists _, c.
Qed.
Lemma ensure_keeps_listed id call kind t : keeps_listed t (ensure_call_in_turn id call kind t).
Proof.
  unfold ensure_call_in_turn. destruct (find_turn id (tm_turns t)); [|by intros ? ? ?].
  apply (alter_keeps_listed id (fun turn => with_calls (record_phase call kind (turn_calls turn)) turn)); [done|]. intros turn c. apply record_phase_keeps_events.
Qed.

Section Attribution.
Context {V : Type} `{JsonOps V, Blake3}.
Implicit Types (t : TurnMachine) (rec : CaptureRecord V).

(** The phase that a record is of, when it belongs to a call. *)
Definition phase_of rec : option CallPhase :=
  if cr_kind rec =? "llm.request" then Some PhaseRequest
  else if (cr_kind rec =? "llm.response") || (cr_kind rec =? "llm.response.stream") then Some PhaseComplete
  else if cr_kind rec =? "llm.call.cancelled" then Some PhaseCancel
  else None.
(** A record of a call that is attributed to a turn links the call to that turn,
    which lists the phase; any other record changes no link; and what was listed
    stays. *)
Definition attributes rec t (o : TurnObserveOutcome) t' : Prop :=
  match phase_of rec, out_turn_id o with
  | Some phase, Some id => tm_call_turns t' = <[call_of rec := id]> (tm_call_turns t) /\ lists t' id (call_of rec) phase
  | _, _ => tm_call_turns t' = tm_call_turns t
  end /\ keeps_listed t t'.

Lemma ensure_attributes id call kind t : match id with None => tm_turns t = [] | Some id => id ∈ turn_id <$> tm_turns t end ->
  let t' := match id with None => t | Some id => ensure_call_in_turn id call kind t end in
  match id with
  | Some id => tm_call_turns t' = <[call := id]> (tm_call_turns t) /\ lists t' id call kind
  | None => tm_call_turns t' = tm_call_turns t
  end /\ keeps_listed t t'.
Proof.
  destruct id as [id|]; cbn zeta; [|intros _; split; [done|by intros ? ? ?]]. intros Hin. split; [|apply ensure_keeps_listed]. split; [by apply ensure_link|by apply ensure_lists].
Qed.
Lemma open_attributes call kind user t o t' : tm_ok t -> open_turn call kind user t = Some (o, t') ->
  match out_turn_id o with
  | Some id => tm_call_turns t' = <[call := id]> (tm_call_turns t) /\ lists t' id call PhaseRequest
  | None => False
  end /\ keeps_listed t t'.
Proof.
  intros Ht. unfold open_turn. destruct (_ <? _)%Z; [done|]. intros [= <- <-]. cbn. split; [split; [done|]|].
  - eexists _, _. split; [apply elem_of_app; right; apply list_elem_of_here|]. cbn. split_and!; [done|apply list_elem_of_here|done|apply list_elem_of_here].
  - intros id c phase (turn & x & Hin & Hrest). exists turn, x. split; [|exact Hrest]. apply elem_of_app. by left.
Qed.
Lemma apply_record_attributes rec t o t' : tm_ok t -> apply_record rec t = Some (o, t') -> attributes rec t o t'.
Proof.
  intros Ht. unfold apply_record, attributes, phase_of. fold (call_of rec). set (call := call_of rec).
  destruct (cr_kind rec =? "llm.request"); [|destruct (_ || _); [|destruct (cr_kind rec =? "llm.call.cancelled")]].
  - unfold on_request. pose proof (ensure_attributes _ call PhaseRequest t (active_elem t Ht)) as Hact. cbn zeta in Hact.
    assert (forall o t', (let '(id, t) := ensure_call_on_active_turn call PhaseRequest t in Some (outcome_of t id, t)) = Some (o, t') ->
      match out_turn_id o with
      | Some id => tm_call_turns t' = <[call := id]> (tm_call_turns t) /\ lists t' id call PhaseRequest
      | None => tm_call_turns t' = tm_call_turns t
      end /\ keeps_listed t t') as Ha.
    { intros o1 t1. unfold ensure_call_on_active_turn. by destruct (tm_active_turn t); intros [= <- <-]. }
    assert (forall kind user, open_turn call kind user t = Some (o, t') -> match out_turn_id o with
      | Some id => tm_call_turns t' = <[call := id]> (tm_call_turns t) /\ lists t' id call PhaseRequest
      | None => tm_call_turns t' = tm_call_turns t
      end /\ keeps_listed t t') as Hopen.
    { intros kind user Ho. pose proof (open_attributes _ _ _ _ _ _ Ht Ho). by destruct (out_turn_id o); [|destruct H1]. }
    destruct (is_internal_llm_request rec); [apply Ha|]. destruct (visible_user_from_payload _); [apply Hopen|]. destruct (tm_active_turn t); [apply Ha|apply Hopen].
  - unfold on_response. pose proof (ensure_attributes _ call PhaseComplete t (call_turn_elem t call Ht)) as Hcall. cbn zeta in Hcall.
    assert (exists id, or_else (tm_call_turns t !! call) (tm_active_turn t) = id) as [id Hid] by eauto. unfold ensure_call_for_call. rewrite Hid in *.
    destruct id as [id|]; cbn; (destruct (visible_assistant_from_payload (cr_payload rec)) as [[text|]|]; cbn; [| |done]); intros [= <- <-]; try done.
    destruct Hcall as [[Hl Hli] Hk]. set (b := mkTextBlock text (Some call)).
    assert (keeps_listed (ensure_call_in_turn id call PhaseComplete t) (with_turns (alter_turn id (with_assistant b) (tm_turns (ensure_call_in_turn id call PhaseComplete t))) (ensure_call_in_turn id call PhaseComplete t))) as Hk2
      by (apply alter_keeps_listed; [done|]; intros turn c Hc; by exists c).
    split; [split; [done|by apply Hk2]|]. intros ? ? ? ?. by apply Hk2, Hk.
  - unfold on_cancel. pose proof (ensure_attributes _ call PhaseCancel t (call_turn_elem t call Ht)) as Hcall. cbn zeta in Hcall.
    unfold ensure_call_for_call. by destruct (or_else _ _); intros [= <- <-].
  - intros [= <- <-]. split; [done|by intros ? ? ?].
Qed.

Lemma replay_snoc story agent run records rec t' : replay_records story agent run (records ++ [rec])%list = Some t' ->
  exists t o rec', replay_records story agent run records = Some t /\ observe_record rec t = Some (o, rec', t').
Proof.
  unfold replay_records. rewrite observe_all_app. intros (t1 & Hl & Hr)%bind_Some. cbn in Hr. apply bind_Some in Hr as ([[o1 r1] t2] & Hx & [= <-]). by exists t1, o1, r1.
Qed.
Lemma replay_ok story agent run records t : replay_records story agent run records = Some t -> tm_ok t /\ tm_story_id t = story.
Proof.
  revert t. induction records as [|x l IH] using rev_ind; intros t Hr; [injection Hr as <-; split; [apply turn_machine_ok|done]|].
  apply replay_snoc in Hr as (t1 & o & r & Hl & Hx). destruct (IH _ Hl) as [Hok Hs]. destruct (observe_record_advances _ _ _ _ _ Hok Hx) as (? & _ & E & _). split; [done|congruence].
Qed.

(** A record of the call came when the story had a turn, or opened its first. *)
Definition seen_in_turn story agent run (records : list (CaptureRecord V)) (call : string) : Prop :=
  exists before rec after t, records = (before ++ rec :: after)%list /\ is_Some (phase_of rec) /\ call_of rec = call /\
    replay_records story agent run (before ++ [rec])%list = Some t /\ tm_turns t <> [].

Lemma links_exact story agent run records t : replay_records story agent run records = Some t ->
  forall call, is_Some (tm_call_turns t !! call) <-> seen_in_turn story agent run records call.
Proof.
  revert t. induction records as [|rec records IH] using rev_ind; intros t' Hr call.
  { injection Hr as <-. cbn. rewrite lookup_empty. split; [by intros []|]. by intros ([|? ?] & ? & ? & ? & [=] & _). }
  pose proof Hr as (t & o & rec' & Ht & Hx)%replay_snoc. destruct (replay_ok _ _ _ _ _ Ht) as [Hok _]. specialize (IH t Ht call).
  destruct (observe_record_advances _ _ _ _ _ Hok Hx) as (_ & Hout & _). destruct (apply_record_attributes _ _ _ _ Hok (observe_apply _ _ _ _ _ Hx)) as [Hat _].
  assert (seen_in_turn story agent run (records ++ [rec])%list call <->
    seen_in_turn story agent run records call \/ (is_Some (phase_of rec) /\ call_of rec = call /\ tm_turns t' <> [])) as ->.
  { split.
    - intros (before & r & after & t1 & E & Hp & Hc & Ht1 & Hne). destruct after as [|x after _] using rev_ind.
      + apply app_inj_tail in E as [<- <-]. right. rewrite Hr in Ht1. by injection Ht1 as <-.
      + rewrite app_comm_cons, app_assoc in E. apply app_inj_tail in E as [-> _]. left. by exists before, r, after, t1.
    - intros [(before & r & after & t1 & -> & Hrest)|(Hp & Hc & Hne)]; [exists before, r, (after ++ [rec])%list, t1; by rewrite <- app_assoc|by exists records, rec, [], t']. }
  unfold outcome_ok in Hout. destruct (phase_of rec) as [phase|] eqn:Ep; [|rewrite Hat, IH; split; [by left|intros [?|([] & _)]; done]].
  destruct (out_turn_id o) as [id|].
  - destruct Hat as [-> _], Hout as (turn & Hin & _). assert (tm_turns t' <> []) as Hne by (intros E; rewrite E in Hin; by apply elem_of_nil in Hin).
    destruct (decide (call_of rec = call)) as [->|Hc]; [rewrite lookup_insert_eq|rewrite lookup_insert_ne by done; rewrite IH].
    + split; [right; by split_and!|eauto].
    + split; [by left|by intros [?|(_ & ? & _)]].
  - rewrite Hat, IH. destruct Hout as [_ Hno]. split; [by left|by intros [?|(_ & _ & ?)]].
Qed.
End Attribution.


(** A response joins the turn of its request. When a request was
    attributed to a turn, and whatever other calls did in between, the response
    of the same call is attributed to that turn, the call is marked complete
    there, and a visible text of the response becomes the turn's answer. *)
Theorem response_joins_request {V : Type} `{JsonOps V, Blake3} (t t1 t2 t3 : TurnMachine)
    (req req' resp resp' : CaptureRecord V) (between : list (CaptureRecord V)) o o' c id :
  tm_ok t ->
  cr_kind req = "llm.request" -> cr_call_id req = Some c ->
  observe_record req t = Some (o, req', t1) -> out_turn_id o = Some id ->
  observe_all between t1 = Some t2 -> Forall (fun r => cr_kind r = "llm.request" -> call_of r <> c) between ->
  cr_kind resp = "llm.response" -> cr_call_id resp = Some c ->
  observe_record resp t2 = Some (o', resp', t3) ->
  out_turn_id o' = Some id /\
  exists turn, turn ∈ tm_turns t3 /\ turn_id turn = id /\
    (exists call, call ∈ turn_calls turn /\ tc_call_id call = c /\ PhaseComplete ∈ tc_events call) /\
    (forall text, visible_assistant_from_payload (cr_payload resp) = Some (Some text) ->
       turn_assistant turn = Some (mkTextBlock text (Some c))).
Proof.
  intros Ht Hk Hc Hreq Hid Hbet Hall Hk' Hc' Hresp.
  destruct (observe_record_advances _ _ _ _ _ Ht Hreq) as (Ht1 & _).
  assert (Hl : tm_call_turns t1 !! c = Some id).
  { pose proof (request_links _ _ _ _ _ Ht Hk (observe_apply _ _ _ _ _ Hreq) Hid) as Hl.
    unfold call_of in Hl. by rewrite Hc in Hl. }
  destruct (observe_all_keeps_link _ _ _ _ _ Ht1 Hbet Hall Hl) as [Ht2 Hl2].
  pose proof (call_turn_elem t2 c Ht2) as Hin. apply observe_apply in Hresp. revert Hresp.
  unfold apply_record. rewrite Hk', Hc'. cbn -[on_response]. unfold on_response, ensure_call_for_call.
  rewrite Hl2 in *. cbn [or_else] in *. apply list_elem_of_fmap in Hin as (turn0 & -> & Hin).
  destruct (find_turn_elem _ _ Hin) as [turn Hf]. unfold ensure_call_in_turn. rewrite Hf.
  set (f := fun turn => with_calls (record_phase c PhaseComplete (turn_calls turn)) turn).
  destruct (alter_turn_found _ f _ _ Hf) as [Hfin Hfid].
  destruct (record_phase_events c PhaseComplete (turn_calls turn)) as (call & Hcall & Hcid & Hph).
  destruct (visible_assistant_from_payload (cr_payload resp)) as [[text|]|]; cbn; [| |done].
  - intros [= <- <-]. split; [done|]. cbn. set (b := mkTextBlock text (Some c)).
    assert (Hf' : find_turn (turn_id turn0) (alter_turn (turn_id turn0) f (tm_turns t2)) = Some (f turn)).
    { clear -Hf. unfold find_turn in *. induction (tm_turns t2) as [|x l IH]; cbn in *; [done|].
      destruct (bool_decide (turn_id x = turn_id turn0)) eqn:E; cbn; [|by rewrite E; apply IH].
      rewrite E. by injection Hf as ->. }
    destruct (alter_turn_found _ (with_assistant b) _ _ Hf') as [Hin' _]. exists (with_assistant b (f turn)).
    split_and!; [done|done|by exists call|]. by intros ? [= <-].
  - intros [= <- <-]. split; [done|]. exists (f turn). split_and!; [done|done|by exists call|done].
Qed.
