(* ===== verification/StoryRecovery.v ===== *)
(** * Stories after a restart

    The journal is the only store of facts: the stories a runtime shows are a
    projection of it. Whatever commands a runtime has handled, and however its
    owners took turns, a runtime that starts from its journal has the same turns,
    the same recorded identities and the same links between calls. *)
From stdpp Require Import base tactics list sets strings gmap.
From Stdlib Require Import ZArith Lia Ascii.
From S2P Require Import Prelude RustStr Types Execution Operation Causality Journal JournalFacts.
From S2P Require Import Json Dialogue DialogueText Redact RedactFacts Story StoryFacts.
Local Open Scope string_scope.

(** ** Names do not matter for turns *)

(** The same machine with other names of its agent and run. *)
Definition meta (agent : string) (run : option string) (t : TurnMachine) : TurnMachine :=
  mkTurnMachine (tm_story_id t) agent run (tm_turns t) (tm_active_turn t) (tm_call_turns t) (tm_next_index t).

Section Meta.
Context {V : Type} `{JsonOps V, Blake3} (agent : string) (run : option string).
Implicit Types (t : TurnMachine) (rec : CaptureRecord V).

Lemma ensure_meta id call kind t :
  ensure_call_in_turn id call kind (meta agent run t) = meta agent run (ensure_call_in_turn id call kind t).
Proof. unfold ensure_call_in_turn. cbn [tm_turns meta]. by destruct (find_turn id (tm_turns t)). Qed.

Lemma active_meta call kind t :
  ensure_call_on_active_turn call kind (meta agent run t) = prod_map id (meta agent run) (ensure_call_on_active_turn call kind t).
Proof. unfold ensure_call_on_active_turn. cbn. destruct (tm_active_turn t); [|done]. cbn. by rewrite ensure_meta. Qed.
Lemma call_meta call kind t :
  ensure_call_for_call call kind (meta agent run t) = prod_map id (meta agent run) (ensure_call_for_call call kind t).
Proof. unfold ensure_call_for_call. cbn. destruct (or_else _ _); [|done]. cbn. by rewrite ensure_meta. Qed.
Lemma open_meta call kind user t :
  open_turn call kind user (meta agent run t) = prod_map id (meta agent run) <$> open_turn call kind user t.
Proof. unfold open_turn. cbn. by destruct (_ <? _)%Z. Qed.

Lemma apply_record_meta rec t :
  apply_record rec (meta agent run t) = prod_map id (meta agent run) <$> apply_record rec t.
Proof.
  unfold apply_record. destruct (cr_kind rec =? "llm.request"); [|destruct (_ || _); [|destruct (cr_kind rec =? "llm.call.cancelled")]].
  - unfold on_request. rewrite active_meta. cbn [tm_active_turn meta].
    destruct (ensure_call_on_active_turn _ _ t) as [i t1]. cbn [prod_map id].
    destruct (is_internal_llm_request rec); [done|]. destruct (visible_user_from_payload _); [apply open_meta|].
    destruct (tm_active_turn t); [done|apply open_meta].
  - unfold on_response. rewrite call_meta. destruct (ensure_call_for_call _ _ t) as [i t1]. cbn.
    destruct (visible_assistant_from_payload _) as [[text|]|]; cbn; [|done|done]. by destruct i.
  - unfold on_cancel. rewrite call_meta. by destruct (ensure_call_for_call _ _ t) as [i t1].
  - done.
Qed.

Lemma observe_record_meta rec t :
  observe_record rec (meta agent run t) = prod_map id (meta agent run) <$> observe_record rec t.
Proof.
  unfold observe_record. rewrite apply_record_meta. destruct (apply_record rec t) as [[o t1]|]; [|done]. cbn.
  by destruct (stamp o (cr_payload rec)).
Qed.
End Meta.

Section Core.
Context {V : Type} `{JsonShape V, UrlOps, CaptureCodec V, Codec V, Blake3}.
Implicit Types (rec : CaptureRecord V).

(** What a story shows apart from its names: its turns and what it has seen. *)
Definition core (a : StoryActor) : TurnMachine * gset string := (meta "" None (ac_turns a), ac_seen a).

Lemma observe_core rec a a' : core a = core a' -> core <$> observe rec a = core <$> observe rec a'.
Proof.
  unfold core, observe. intros [= Et1 Et2 Et3 Et4 Et5 Es].
  assert (Et : meta "" None (ac_turns a) = meta "" None (ac_turns a')) by (unfold meta; congruence).
  pose proof (observe_record_meta "" None rec (ac_turns a)) as Ha.
  pose proof (observe_record_meta "" None rec (ac_turns a')) as Ha'. rewrite Et, Ha' in Ha. clear Ha'.
  destruct (observe_record rec (ac_turns a)) as [[[o r] t]|], (observe_record rec (ac_turns a')) as [[[o' r'] t']|];
    cbn in *; try done. injection Ha as _ _ E. unfold meta in E |- *. cbn. congruence.
Qed.

Lemma sync_core scope a : core (sync_scope scope a) = core a.
Proof. done. Qed.
Lemma see_core id a a' : core a = core a' -> core (see id a) = core (see id a').
Proof. unfold core. cbn. intros E. injection E. intros. unfold meta. congruence. Qed.
Lemma core_seen a a' : core a = core a' -> ac_seen a = ac_seen a'.
Proof. unfold core. congruence. Qed.
Lemma observe_seen rec a a' : observe rec a = Some a' -> ac_seen a' = ac_seen a.
Proof. unfold observe. destruct (observe_record rec (ac_turns a)) as [[[? ?] ?]|]; [|done]. by intros [= <-]. Qed.

(** ** Stories of a runtime *)

Definition actor_of (rt : Runtime (V := V)) (sid : string) : StoryActor := default (actor_new sid) (rt_actors rt !! sid).

Lemma actor_of_insert rt sid a sid' sh :
  actor_of (mkRuntime (<[sid := a]> (rt_actors rt)) sh) sid' = if decide (sid' = sid) then a else actor_of rt sid'.
Proof.
  unfold actor_of. cbn. destruct (decide (sid' = sid)) as [->|]; [by rewrite lookup_insert_eq|by rewrite lookup_insert_ne].
Qed.

(** ** What a commit writes *)

Context `{!CaptureCodecLaws V}.

Definition story_of (e : Event V) : option string :=
  if is_capture_event e then match capture_observation e with Ok o => Some (sc_story_id (co_story o)) | Err _ => None end else None.

(** The event a record becomes is a capture event of its story, whose content
    is the redacted payload, and reads back as a record of the same identity. *)
Lemma into_event_reads_back amb rec scope e cause :
  into_event amb rec scope = Ok e ->
  let e' := push_cause cause e in
  is_capture_event e' = true /\ validate_event e = Ok tt /\
  exists o rec', capture_observation e' = Ok o /\ co_story o = scope /\ co_content o = redact_sensitive_body (cr_payload rec)
    /\ from_event e' = Ok rec' /\ cr_event_id rec' = Some (ev_id e').
Proof.
  unfold into_event. destruct (default _ _) as [domain name]. intros (payload & Hp & He)%bind_Ok.
  apply bind_Ok in He as ([] & Hv & [= <-]). cbn in Hp. destruct (observation_to_value _) as [v|] eqn:Ev; [|done].
  injection Hp as ->. apply observation_inverse in Ev. unfold capture_observation, from_event.
  destruct cause as [c|]; cbn; rewrite Ev; cbn; (split; [done|]); (split; [done|]); do 2 eexists; by split_and!.
Qed.

Lemma commit_event_reads_back amb rec scope requests e :
  commit_event amb scope rec requests = Ok e ->
  is_capture_event e = true /\
  exists o rec', capture_observation e = Ok o /\ co_story o = scope /\ co_content o = redact_sensitive_body (cr_payload rec) /\ from_event e = Ok rec'.
Proof.
  unfold commit_event. intros (e0 & He & [= <-])%bind_Ok.
  destruct (into_event_reads_back _ _ _ _ ((if cr_kind rec =? "llm.request" then cr_parent_call_id rec else cr_call_id rec) ≫= fun call => requests !! (ev_trace_id e0, call)) He)
    as (Hc & _ & o & rec' & ? & ? & ? & ? & _). split; [done|]. by exists o, rec'.
Qed.

(** ** Telling a story again

    What the records of one story make of its owner, and what all records make of
    the remembered requests. *)

Definition of_story (sid : string) (rs : list (TraceRecord V)) : list (TraceRecord V) :=
  List.filter (fun r => bool_decide (story_of (rec_event r) = Some sid)) rs.
Definition restore_one (a : StoryActor) (r : TraceRecord V) : option StoryActor :=
  match from_event (rec_event r) with
  | Err _ => None
  | Ok rec => if bool_decide (rid r ∈ ac_seen a) then Some a else observe rec (see (rid r) a)
  end.
Definition retold (sid : string) (rs : list (TraceRecord V)) : option StoryActor :=
  foldl (fun a r => a ← a; restore_one a r) (Some (actor_new sid)) (of_story sid rs).
Definition asks (r : TraceRecord V) : option (string * string * string) :=
  if is_capture_event (rec_event r) then
    match capture_observation (rec_event r), from_event (rec_event r) with
    | Ok o, Ok rec =>
        if cr_kind rec =? "llm.request" then
          match cr_call_id rec, cr_event_id rec with
          | Some call, Some id => Some (default (sc_story_id (co_story o)) (sc_run_id (co_story o)), call, id)
          | _, _ => None
          end
        else None
    | _, _ => None
    end
  else None.
Definition ask (r : TraceRecord V) (requests : gmap (string * string) string) : gmap (string * string) string :=
  match asks r with Some (k, id) => <[k := id]> requests | None => requests end.
Definition asked (rs : list (TraceRecord V)) : gmap (string * string) string := foldl (fun q r => ask r q) ∅ rs.
(** A capture in the journal can be read. *)
Definition decodes (r : TraceRecord V) : Prop :=
  is_capture_event (rec_event r) = true -> exists o rec, capture_observation (rec_event r) = Ok o /\ from_event (rec_event r) = Ok rec.

Lemma from_event_id e rec : from_event e = Ok rec -> cr_event_id rec = Some (ev_id e).
Proof.
  unfold from_event. destruct (ev_data e) as [| | | | | |? ? version payload]; try done.
  destruct version as [|[| |]|]; try done. destruct (observation_from_value payload); [|done]. by intros [= <-].
Qed.
Lemma story_of_Some e sid : story_of e = Some sid -> is_capture_event e = true /\ exists o, capture_observation e = Ok o /\ sc_story_id (co_story o) = sid.
Proof. unfold story_of. destruct (is_capture_event e); [|done]. destruct (capture_observation e) as [o|]; [|done]. intros [= <-]. eauto. Qed.
Lemma asks_story r k id : asks r = Some (k, id) -> exists sid, story_of (rec_event r) = Some sid.
Proof. unfold asks, story_of. destruct (is_capture_event _); [|done]. destruct (capture_observation _); [|done]. eauto. Qed.
Lemma remember_ask r o rec requests : is_capture_event (rec_event r) = true -> capture_observation (rec_event r) = Ok o -> from_event (rec_event r) = Ok rec ->
  remember_request rec (co_story o) requests = ask r requests.
Proof.
  intros Hc Ho Hf. unfold ask, asks, remember_request. rewrite Hc, Ho, Hf. destruct (_ =? _); [|done]. by destruct (cr_call_id rec), (cr_event_id rec).
Qed.
Lemma of_story_app sid rs rs' : of_story sid (rs ++ rs')%list = (of_story sid rs ++ of_story sid rs')%list.
Proof. apply List.filter_app. Qed.
Lemma of_story_own sid r : story_of (rec_event r) = Some sid -> of_story sid [r] = [r].
Proof. intros E. unfold of_story. cbn. by rewrite bool_decide_eq_true_2. Qed.
Lemma of_story_other sid r : story_of (rec_event r) <> Some sid -> of_story sid [r] = [].
Proof. intros E. unfold of_story. cbn. by rewrite bool_decide_eq_false_2. Qed.
Lemma elem_of_story sid r rs : r ∈ of_story sid rs <-> r ∈ rs /\ story_of (rec_event r) = Some sid.
Proof. unfold of_story. by rewrite list_elem_of_In, filter_In, <- list_elem_of_In, bool_decide_eq_true. Qed.
Lemma retold_own sid rs r : story_of (rec_event r) = Some sid -> retold sid (rs ++ [r])%list = (a ← retold sid rs; restore_one a r).
Proof. intros E. unfold retold. rewrite of_story_app, (of_story_own _ _ E). by rewrite foldl_snoc. Qed.
Lemma retold_same sid rs rs' : of_story sid rs = of_story sid rs' -> retold sid rs = retold sid rs'.
Proof. intros E. unfold retold. by rewrite E. Qed.
Lemma restore_one_core r a a' : core a = core a' -> core <$> restore_one a r = core <$> restore_one a' r.
Proof.
  intros E. unfold restore_one. destruct (from_event _) as [rec|]; [|done]. rewrite (core_seen _ _ E). case_bool_decide; [cbn; by rewrite E|]. by apply observe_core, see_core.
Qed.
Lemma retold_seen sid rs a : retold sid rs = Some a -> forall id, id ∈ ac_seen a <-> id ∈ rid <$> of_story sid rs.
Proof.
  unfold retold. generalize (of_story sid rs). intros l. revert a. induction l as [|r l IH] using rev_ind; intros a; [intros [= <-] id; cbn; set_solver|].
  rewrite foldl_snoc. intros (a1 & H1' & Hr)%bind_Some id. specialize (IH a1 H1' id). rewrite fmap_app, elem_of_app, <- IH. cbn. rewrite list_elem_of_singleton.
  unfold restore_one in Hr. destruct (from_event _) as [rec|]; [|done]. case_bool_decide as Hs; [injection Hr as <-; set_solver|].
  rewrite (observe_seen _ _ _ Hr). cbn. set_solver.
Qed.

(** ** Rebuilding *)

Lemma rebuild_records_app amb l1 l2 rt :
  rebuild_records amb (l1 ++ l2)%list rt =
  (r ← rebuild_records amb l1 rt; match r with Ok rt => rebuild_records amb l2 rt | Err why => Some (Err why) end).
Proof.
  revert rt. induction l1 as [|r l1 IH]; intros rt; cbn; [done|].
  destruct (rebuild_record amb rt r) as [[rt'|]|]; cbn; [apply IH|done|done].
Qed.


(** A runtime shows what these records tell. *)
Definition shows (rt : Runtime (V := V)) (rs : list (TraceRecord V)) : Prop :=
  sh_requests (rt_shared rt) = asked rs /\ forall sid, exists a, retold sid rs = Some a /\ core (actor_of rt sid) = core a.

Lemma rebuild_other amb rt r : decodes r -> story_of (rec_event r) = None -> rebuild_record amb rt r = Some (Ok rt) /\ asks r = None.
Proof.
  intros Hd Hs. unfold rebuild_record, asks, story_of in *. destruct (is_capture_event (rec_event r)) eqn:Hc; [|done].
  destruct (Hd Hc) as (o & rec & Ho & _). by rewrite Ho in Hs.
Qed.
Lemma rebuild_own amb rt r sid a : decodes r -> story_of (rec_event r) = Some sid -> core (actor_of rt sid) = core a ->
  match restore_one a r with
  | Some a' => exists rt1, rebuild_record amb rt r = Some (Ok rt1) /\ core (actor_of rt1 sid) = core a' /\
      (forall sid', sid' <> sid -> actor_of rt1 sid' = actor_of rt sid') /\ sh_requests (rt_shared rt1) = ask r (sh_requests (rt_shared rt)) /\
      sh_journal (rt_shared rt1) = sh_journal (rt_shared rt)
  | None => rebuild_record amb rt r = None
  end.
Proof.
  intros Hd (Hc & o' & Ho' & <-)%story_of_Some Ha. destruct (Hd Hc) as (o & rec & Ho & Hf). assert (o' = o) as -> by congruence.
  pose proof (from_event_id _ _ Hf) as Hid. unfold rebuild_record. rewrite Hc, Ho, Hf. cbn -[dispatch].
  unfold dispatch. fold (actor_of rt (sc_story_id (co_story o))). cbn [handle]. unfold restore_record. rewrite Hid. cbn zeta.
  rewrite (remember_ask r o rec _ Hc Ho Hf). set (b := sync_scope (co_story o) (actor_of rt (sc_story_id (co_story o)))).
  assert (core b = core a) as Hb by (unfold b; by rewrite sync_core). unfold restore_one. rewrite Hf. fold (rid r). rewrite (core_seen _ _ Hb).
  assert (forall b' a', core b' = core a' -> let rt1 := mkRuntime (<[sc_story_id (co_story o) := b']> (rt_actors rt)) (mkShared (ask r (sh_requests (rt_shared rt))) (sh_journal (rt_shared rt))) in
    core (actor_of rt1 (sc_story_id (co_story o))) = core a' /\ (forall sid', sid' <> sc_story_id (co_story o) -> actor_of rt1 sid' = actor_of rt sid')) as Hnew.
  { intros b' a' Hb' rt1. unfold rt1. split; [rewrite actor_of_insert; by rewrite decide_True|]. intros sid' Hne. rewrite actor_of_insert. by rewrite decide_False. }
  case_bool_decide as Hin; cbn.
  - eexists. split; [reflexivity|]. destruct (Hnew b a Hb). done.
  - pose proof (observe_core rec _ _ (see_core (rid r) _ _ Hb)) as Hob. destruct (observe rec (see (rid r) b)) as [b'|], (observe rec (see (rid r) a)) as [a'|]; try done. cbn.
    apply (inj Some) in Hob. eexists. split; [reflexivity|]. destruct (Hnew b' a' Hob). done.
Qed.
Lemma rebuild_decodes amb rt r rt1 : rebuild_record amb rt r = Some (Ok rt1) -> decodes r.
Proof.
  unfold rebuild_record, decodes. destruct (is_capture_event (rec_event r)); [|done]. intros Hr _. destruct (capture_observation (rec_event r)) as [o|]; [|done].
  destruct (from_event (rec_event r)) as [rec|]; [|done]. eauto.
Qed.
Lemma asked_snoc rs r : asked (rs ++ [r])%list = ask r (asked rs).
Proof. unfold asked. by rewrite foldl_snoc. Qed.
Lemma retold_other sid rs r : story_of (rec_event r) <> Some sid -> retold sid (rs ++ [r])%list = retold sid rs.
Proof. intros E. apply retold_same. rewrite of_story_app, (of_story_other _ _ E). by rewrite app_nil_r. Qed.

(** One more record, told and rebuilt. *)
Lemma shows_step amb rt rs r : shows rt rs -> decodes r -> (forall sid, is_Some (retold sid (rs ++ [r])%list)) ->
  exists rt1, rebuild_record amb rt r = Some (Ok rt1) /\ shows rt1 (rs ++ [r])%list /\ sh_journal (rt_shared rt1) = sh_journal (rt_shared rt).
Proof.
  intros [Hq Hc] Hd Hall. destruct (story_of (rec_event r)) as [sid|] eqn:Hs.
  - destruct (Hc sid) as (a & Ha & Hca). pose proof (rebuild_own amb rt r sid a Hd Hs Hca) as Hr. destruct (Hall sid) as [a' Ha']. rewrite (retold_own _ _ _ Hs), Ha in Ha'. cbn in Ha'. rewrite Ha' in Hr.
    destruct Hr as (rt1 & Hr & Hc1 & Ho & Hq1 & Hj). exists rt1. split_and!; [done| |done]. split; [by rewrite asked_snoc, Hq1, Hq|]. intros sid'. destruct (decide (sid' = sid)) as [->|Hne].
    + exists a'. by rewrite (retold_own _ _ _ Hs), Ha.
    + destruct (Hc sid') as (b & Hb & Hcb). exists b. rewrite retold_other by (rewrite Hs; congruence). by rewrite (Ho _ Hne).
  - destruct (rebuild_other amb rt r Hd Hs) as [Hr Hn]. exists rt. split_and!; [done| |done]. split; [rewrite asked_snoc; unfold ask; by rewrite Hn|].
    intros sid. rewrite retold_other by (rewrite Hs; congruence). apply Hc.
Qed.
Lemma retold_step amb rt rs r rt1 : shows rt rs -> rebuild_record amb rt r = Some (Ok rt1) -> forall sid, is_Some (retold sid (rs ++ [r])%list).
Proof.
  intros [_ Hc] Hr sid. destruct (Hc sid) as (a & Ha & Hca). destruct (decide (story_of (rec_event r) = Some sid)) as [Hs|Hs]; [|rewrite retold_other by done; eauto].
  pose proof (rebuild_own amb rt r sid a (rebuild_decodes _ _ _ _ Hr) Hs Hca) as Ho. rewrite (retold_own _ _ _ Hs), Ha. cbn. destruct (restore_one a r); [eauto|congruence].
Qed.

Definition empty_runtime (j : Journal V) : Runtime := mkRuntime ∅ (mkShared ∅ j).
Lemma shows_empty j : shows (empty_runtime j) [].
Proof. split; [done|]. intros sid. by exists (actor_new sid). Qed.
Lemma rebuild_shows amb j rs rt : rebuild_records amb rs (empty_runtime j) = Some (Ok rt) -> Forall decodes rs /\ shows rt rs /\ sh_journal (rt_shared rt) = j.
Proof.
  revert rt. induction rs as [|r rs IH] using rev_ind; intros rt; [intros [= <-]; split_and!; [done|apply shows_empty|done]|].
  rewrite rebuild_records_app. destruct (rebuild_records amb rs _) as [[rt1|]|] eqn:E; cbn; [|done|done]. destruct (IH rt1 eq_refl) as (Hd & Hsh & Hj).
  destruct (rebuild_record amb rt1 r) as [[rt2|]|] eqn:Er; cbn; [|done|done]. intros [= <-]. pose proof (rebuild_decodes _ _ _ _ Er) as Hdr.
  destruct (shows_step amb rt1 rs r Hsh Hdr (retold_step _ _ _ _ _ Hsh Er)) as (rt3 & Er3 & Hs3 & Hj3). assert (rt3 = rt2) as -> by congruence.
  split_and!; [|done|congruence]. apply Forall_app. by repeat constructor.
Qed.
Lemma shows_rebuild amb j rs : Forall decodes rs -> (forall sid, is_Some (retold sid rs)) -> exists rt, rebuild_records amb rs (empty_runtime j) = Some (Ok rt).
Proof.
  induction rs as [|r rs IH] using rev_ind; intros Hd Hall; [by eexists|]. apply Forall_app in Hd as [Hd Hr]. apply Forall_inv in Hr.
  destruct IH as [rt E]; [done| |].
  { intros sid. destruct (Hall sid) as [a Ha]. destruct (decide (story_of (rec_event r) = Some sid)) as [Hs|Hs].
    - rewrite (retold_own _ _ _ Hs) in Ha. apply bind_Some in Ha as (b & Hb & _). eauto.
    - rewrite retold_other in Ha by done. eauto. }
  destruct (rebuild_shows _ _ _ _ E) as (_ & Hsh & _). destruct (shows_step amb rt rs r Hsh Hr Hall) as (rt1 & E1 & _).
  exists rt1. rewrite rebuild_records_app, E. cbn. by rewrite E1.
Qed.

(** ** Requests *)

Definition asks_for (k : string * string) (r : TraceRecord V) : option string :=
  match asks r with Some (k', id) => if decide (k' = k) then Some id else None | None => None end.
Lemma asked_last k rs : asked rs !! k = last (omap (asks_for k) rs).
Proof.
  induction rs as [|r rs IH] using rev_ind; [done|]. rewrite asked_snoc, omap_app. unfold ask. cbn [omap list_omap]. unfold asks_for at 2.
  destruct (asks r) as [[k' id]|]; [|by rewrite app_nil_r]. case_decide as Hk; [subst k'; by rewrite lookup_insert_eq, last_snoc|].
  rewrite lookup_insert_ne by done. by rewrite app_nil_r.
Qed.
(** At most one story has requests under the key. *)
Definition one_asks (k : string * string) (rs : list (TraceRecord V)) : Prop :=
  exists sid, forall r id, r ∈ rs -> asks r = Some (k, id) -> story_of (rec_event r) = Some sid.

Section Orders.
(** Two orders of the same records, each story in its own. *)
Context (rs rs' : list (TraceRecord V)) (Hsame : forall sid, of_story sid rs = of_story sid rs').
Lemma asks_for_elem k r id : asks_for k r = Some id -> asks r = Some (k, id).
Proof. unfold asks_for. destruct (asks r) as [[k' id']|]; [|done]. case_decide; [|done]. by intros [= <-]; subst. Qed.
Lemma asking_elem k r id : asks r = Some (k, id) -> r ∈ rs <-> r ∈ rs'.
Proof.
  intros (sid & Hs)%asks_story. pose proof (elem_of_story sid r rs) as E1. pose proof (elem_of_story sid r rs') as E2. rewrite Hsame in E1. naive_solver.
Qed.
Lemma requests_known k : is_Some (asked rs !! k) -> is_Some (asked rs' !! k).
Proof.
  rewrite !asked_last. intros [id Hl]. apply last_Some in Hl as [l Hl]. assert (id ∈ omap (asks_for k) rs) as (r & Hr & Ha)%list_elem_of_omap by (rewrite Hl; set_solver).
  destruct (last (omap (asks_for k) rs')) eqn:E; [eauto|]. apply last_None in E. exfalso. apply (not_elem_of_nil id). rewrite <- E. apply list_elem_of_omap. exists r. split; [|done].
  by apply (asking_elem k r id (asks_for_elem _ _ _ Ha)).
Qed.
End Orders.
Lemma asked_by_story k sid rs : (forall r id, r ∈ rs -> asks r = Some (k, id) -> story_of (rec_event r) = Some sid) -> omap (asks_for k) rs = omap (asks_for k) (of_story sid rs).
Proof.
  unfold of_story. induction rs as [|r rs IH]; intros Hone; [done|]. cbn [omap list_omap List.filter]. rewrite IH by (intros x id Hx; apply Hone; by right).
  case_bool_decide as Hs; [done|]. destruct (asks_for k r) as [id|] eqn:E; [|done]. destruct Hs. apply (Hone r id); [by left|by apply asks_for_elem].
Qed.
Lemma requests_agree k rs rs' : (forall sid, of_story sid rs = of_story sid rs') -> one_asks k rs -> asked rs !! k = asked rs' !! k.
Proof.
  intros Hsame [sid Hone]. rewrite !asked_last, (asked_by_story k sid rs Hone), (asked_by_story k sid rs'), Hsame; [done|].
  intros r id Hr Ha. apply (Hone r id); [|done]. by apply (asking_elem rs rs' Hsame k r id Ha).
Qed.
End Core.

(** ** Histories of a runtime *)

Section History.
Context {V : Type} `{JsonShape V, UrlOps, CaptureCodec V, Codec V, Blake3}.
Context `{!CaptureCodecLaws V, !CodecLaws V}.

(** The steps of the owners, in any order that they allow: a capture begins, its
    event is written, it ends; a story is read or flushed; and another producer
    appends to the shared journal. *)
Inductive Input :=
| BeginCapture (amb : Ambient) (scope : StoryContext) (rec : CaptureRecord V)
| WriteCapture (io : WriteOutcome) (sid : string)
| EndCapture (index_ok : bool) (sid : string)
| ReadStory (scope : StoryContext)
| ReadLocal (sid : string)
| FlushStory (sid : string)
| Foreign (io : WriteOutcome) (e : Event V).

Definition input_ok (i : Input) : Prop := match i with Foreign _ e => is_capture_event e = false | _ => True end.

Definition step_input (o : Owners (V := V)) (i : Input) : option Owners :=
  match i with
  | BeginCapture amb scope rec => begin_capture amb scope rec o
  | WriteCapture io sid => write_capture io sid o
  | EndCapture index_ok sid => end_capture index_ok sid o
  | ReadStory scope => command_idle (sc_story_id scope) (Snapshot scope) o
  | ReadLocal sid => command_idle sid LocalSnapshot o
  | FlushStory sid => command_idle sid Flush o
  | Foreign io e =>
      let rt := ow_runtime o in
      '(journal, _) ← append io (sh_journal (rt_shared rt)) e;
      Some (mkOwners (mkRuntime (rt_actors rt) (mkShared (sh_requests (rt_shared rt)) journal)) (ow_flights o))
  end.
Fixpoint run_inputs (inputs : list Input) (o : Owners) : option Owners :=
  match inputs with [] => Some o | i :: inputs => o ← step_input o i; run_inputs inputs o end.

(** The events that a run gives to the journal. *)
Definition attempted (o : Owners (V := V)) (i : Input) : list (Event V) :=
  match i with
  | WriteCapture _ sid => match ow_flights o !! sid with Some f => [fl_event f] | None => [] end
  | Foreign _ e => [e]
  | _ => []
  end.
Fixpoint attempts (inputs : list Input) (o : Owners) : list (Event V) :=
  match inputs with
  | [] => []
  | i :: inputs => attempted o i ++ match step_input o i with Some o => attempts inputs o | None => [] end
  end%list.

(** Among these events no two of one identity and different content have the same
    digest. *)
Definition told_apart (es : list (Event V)) : Prop :=
  forall e e', e ∈ es -> e' ∈ es -> ev_id e = ev_id e' -> hash e = hash e' -> e = e'.

Definition poisoned (o : Owners (V := V)) : Prop := js_poisoned (jn_state (sh_journal (rt_shared (ow_runtime o)))) = true.

Lemma append_poisoned io (j : Journal V) e j' res :
  js_poisoned (jn_state j) = true -> append io j e = Some (j', res) -> js_poisoned (jn_state j') = true.
Proof.
  intros Hp. unfold append. destruct (_ ≫= _) as [h|]; [|by intros [= <- _]]. rewrite Hp. by intros [= <- _].
Qed.

(** What the steps do to the journal. *)
Lemma finish_journal index_ok scope e (a : StoryActor) sh a' sh' reply :
  finish_commit index_ok scope e a sh = Some (a', sh', reply) -> sh_journal sh' = sh_journal sh.
Proof.
  unfold finish_commit. case_bool_decide; [by intros [= _ <- _]|]. destruct (from_event e); [|by intros [= _ <- _]]. destruct (observe _ _); [|done]. cbn. by intros [= _ <- _].
Qed.
Lemma step_journal o i o' : step_input o i = Some o' ->
  sh_journal (rt_shared (ow_runtime o')) = sh_journal (rt_shared (ow_runtime o)) \/
  exists io e res, e ∈ attempted o i /\ append io (sh_journal (rt_shared (ow_runtime o))) e = Some (sh_journal (rt_shared (ow_runtime o')), res).
Proof.
  destruct i as [amb scope rec|io sid|ix sid|scope|sid|sid|io e]; cbn [step_input].
  - unfold begin_capture. destruct (ow_flights o !! _); [done|]. intros [= <-]. by left.
  - unfold write_capture. cbn [attempted]. destruct (ow_flights o !! sid) as [[scope e []]|]; [done| |done].
    destruct (append io _ e) as [[j res]|] eqn:E; [|done]. cbn. intros [= <-]. right. exists io, e, res. split; [apply list_elem_of_here|done].
  - unfold end_capture. destruct (ow_flights o !! sid) as [[scope e []]|]; [|done..]. destruct (finish_commit _ _ _ _ _) as [[[a sh] reply]|] eqn:E; [|done]. cbn. intros [= <-]. left.
    exact (finish_journal _ _ _ _ _ _ _ _ E).
  - unfold command_idle. destruct (ow_flights o !! _); [done|]. cbn. intros [= <-]. by left.
  - unfold command_idle. destruct (ow_flights o !! _); [done|]. cbn. intros [= <-]. by left.
  - unfold command_idle. destruct (ow_flights o !! _); [done|]. cbn. intros [= <-]. by left.
  - destruct (append io _ e) as [[j res]|] eqn:E; [|done]. cbn. intros [= <-]. right. exists io, e, res. split; [apply list_elem_of_here|done].
Qed.
Lemma step_poisoned o i o' : poisoned o -> step_input o i = Some o' -> poisoned o'.
Proof.
  intros Hp Hs. destruct (step_journal _ _ _ Hs) as [E|(io & e & res & _ & E)]; unfold poisoned in *; [by rewrite E|]. by eapply append_poisoned.
Qed.

(** *** Between the journal and the stories

    [done] has the records in the order in which their owners took note of them.
    Of each story it has what the journal has, apart from the event of a written
    flight that is new. *)
Definition of_flight (sid : string) (f : Flight (V := V)) : Prop :=
  is_capture_event (fl_event f) = true /\ sc_story_id (fl_scope f) = sid /\
  exists o rec, capture_observation (fl_event f) = Ok o /\ co_story o = fl_scope f /\ from_event (fl_event f) = Ok rec.
Definition owed (rs done : list (TraceRecord V)) (sid : string) (flight : option (Flight (V := V))) : Prop :=
  match flight with
  | Some f =>
      if fl_written f then
        (of_story sid rs = of_story sid done /\ ev_id (fl_event f) ∈ rid <$> of_story sid done) \/
        (exists r, rec_event r = fl_event f /\ of_story sid rs = (of_story sid done ++ [r])%list /\ rid r ∉ rid <$> of_story sid done)
      else of_story sid rs = of_story sid done
  | None => of_story sid rs = of_story sid done
  end.
Record Kept (es : list (Event V)) (o : Owners) (rs done : list (TraceRecord V)) : Prop := mkKept {
  kept_holds : holds (sh_journal (rt_shared (ow_runtime o))) rs;
  kept_known : forall r, r ∈ rs -> rec_event r ∈ es;
  kept_decodes : Forall decodes rs;
  kept_shows : shows (ow_runtime o) done;
  kept_flights : forall sid f, ow_flights o !! sid = Some f -> of_flight sid f;
  kept_owed : forall sid, owed rs done sid (ow_flights o !! sid)
}.

Lemma flight_story sid f : of_flight sid f -> story_of (fl_event f) = Some sid.
Proof. intros (Hc & <- & o & rec & Ho & <- & _). unfold story_of. by rewrite Hc, Ho. Qed.
(** An actor is replaced by one that shows the same. *)
Lemma shows_insert (rt : Runtime (V := V)) rs sid a sh : shows rt rs -> core a = core (actor_of rt sid) -> sh_requests sh = sh_requests (rt_shared rt) ->
  shows (mkRuntime (<[sid := a]> (rt_actors rt)) sh) rs.
Proof.
  intros [Hq Hc] Ha Hsh. split; [cbn; by rewrite Hsh|]. intros sid'. destruct (Hc sid') as (b & Hb & Hcb). exists b. split; [done|].
  rewrite actor_of_insert. case_decide; [subst; by rewrite Ha|done].
Qed.
(** A flight of one story changes; nothing is owed differently to the others. *)
Lemma owed_insert rs done sid f (flights : gmap string (Flight (V := V))) : (forall sid', owed rs done sid' (flights !! sid')) -> owed rs done sid (Some f) ->
  forall sid', owed rs done sid' (<[sid := f]> flights !! sid').
Proof. intros Ho Hf sid'. destruct (decide (sid' = sid)) as [->|]; [by rewrite lookup_insert_eq|by rewrite lookup_insert_ne]. Qed.
Lemma owed_delete rs done sid (flights : gmap string (Flight (V := V))) : (forall sid', sid' <> sid -> owed rs done sid' (flights !! sid')) -> of_story sid rs = of_story sid done ->
  forall sid', owed rs done sid' (delete sid flights !! sid').
Proof. intros Ho Hf sid'. destruct (decide (sid' = sid)) as [->|Hne]; [by rewrite lookup_delete_eq|rewrite lookup_delete_ne by done; by apply Ho]. Qed.
Lemma owed_more rs rs' done sid flight : of_story sid rs' = of_story sid rs -> owed rs done sid flight -> owed rs' done sid flight.
Proof. intros E. unfold owed. by rewrite E. Qed.
Lemma flights_insert sid f (flights : gmap string (Flight (V := V))) : (forall sid' f', flights !! sid' = Some f' -> of_flight sid' f') -> of_flight sid f ->
  forall sid' f', <[sid := f]> flights !! sid' = Some f' -> of_flight sid' f'.
Proof. intros Hall Hf sid' f' [[<- <-]|[_ Hl]]%lookup_insert_Some; [done|by apply Hall]. Qed.
Lemma flights_delete sid (flights : gmap string (Flight (V := V))) : (forall sid' f', flights !! sid' = Some f' -> of_flight sid' f') ->
  forall sid' f', delete sid flights !! sid' = Some f' -> of_flight sid' f'.
Proof. intros Hall sid' f' [_ Hl]%lookup_delete_Some. by apply Hall. Qed.

(** *** The steps *)

Section Steps.
Context (es : list (Event V)) (Hes : told_apart es).

Lemma begin_kept amb scope rec o o' rs done : Kept es o rs done -> begin_capture amb scope rec o = Some o' -> Kept es o' rs done.
Proof.
  intros [Hh Hk Hd Hs Hf Ho]. unfold begin_capture. destruct (ow_flights o !! sc_story_id scope) eqn:En; [done|]. intros [= <-].
  fold (actor_of (ow_runtime o) (sc_story_id scope)). constructor; cbn [ow_runtime ow_flights rt_shared]; [done|done|done|by apply shows_insert|..].
  - destruct (commit_event _ _ _ _) as [e|] eqn:Ee; [|done]. apply commit_event_reads_back in Ee as (Hc & ob & rec' & Hob & Hst & _ & Hfe).
    apply flights_insert; [done|]. split_and!; [done|done|]. by exists ob, rec'.
  - destruct (commit_event _ _ _ _) as [e|] eqn:Ee; [|done]. apply owed_insert; [done|]. specialize (Ho (sc_story_id scope)). rewrite En in Ho. exact Ho.
Qed.
(** A record is appended to the journal, or the event was there. *)
Lemma append_kept io o e j' res rs done : Kept es o rs done -> e ∈ es -> append io (sh_journal (rt_shared (ow_runtime o))) e = Some (j', res) ->
  js_poisoned (jn_state j') = true \/
  exists rs', holds j' rs' /\ (forall r, r ∈ rs' -> rec_event r ∈ es) /\
    ((rs' = rs /\ (forall receipt, res = Ok receipt -> exists r, r ∈ rs /\ rec_event r = e)) \/
     (exists r receipt, rs' = (rs ++ [r])%list /\ rec_event r = e /\ rid r ∉ rid <$> rs /\ res = Ok receipt)).
Proof.
  intros [Hh Hk _ _ _ _] He Ha. destruct (append_step io _ _ e Hh) as [(j1 & rs' & res' & Ha' & Hl & Hst)|(n & file & _ & _ & _ & Ha')];
    rewrite Ha in Ha'; injection Ha' as -> ->; [right|by left]. destruct Hst as (Hh' & _). exists rs'. split; [done|].
  inversion Hl as [| i r Hv Hi Hrid Hhash | | | | Hv Hnew Hacy Hread]; subst; try (split; [done|left; split; [done|]; by intros ? [=]]).
  - split; [done|]. left. split; [done|]. intros _ _. exists r. split; [by eapply list_elem_of_lookup_2|].
    apply Hes; [apply Hk; by eapply list_elem_of_lookup_2|done|done|done].
  - split; [intros r [Hr| ->%list_elem_of_singleton]%elem_of_app; [by apply Hk|done]|]. right. by eexists _, _.
Qed.
Lemma write_kept io sid o o' rs done : Kept es o rs done -> (forall e, e ∈ attempted o (WriteCapture io sid) -> e ∈ es) -> write_capture io sid o = Some o' ->
  poisoned o' \/ exists rs', Kept es o' rs' done.
Proof.
  intros K Hat. pose proof K as [Hh Hk Hd Hs Hf Ho]. unfold write_capture. cbn [attempted] in Hat. destruct (ow_flights o !! sid) as [[scope e []]|] eqn:Efl; [done| |done].
  destruct (append io _ e) as [[j res]|] eqn:Ea; [|done]. cbn [mbind option_bind]. intros [= <-]. pose proof (Hf sid _ Efl) as Hfl. pose proof (flight_story _ _ Hfl) as Hst. cbn in Hst.
  pose proof (Ho sid) as Hown. rewrite Efl in Hown. cbn in Hown.
  destruct (append_kept io o e j res rs done K (Hat e (list_elem_of_here _ _)) Ea) as [?|(rs' & Hh' & Hk' & Hcase)]; [by left|right]. exists rs'.
  destruct Hcase as [[-> Hold]|(r & receipt & -> & Hr & Hnew & ->)].
  - constructor; cbn [ow_runtime ow_flights rt_shared]; [done|done|done|exact Hs|..]; destruct res as [receipt|].
    + by apply flights_insert.
    + by apply flights_delete.
    + apply owed_insert; [done|]. left. split; [done|]. destruct (Hold receipt eq_refl) as (r & Hin & Hr). apply list_elem_of_fmap. exists r. cbn. rewrite <- Hr. split; [done|].
      rewrite <- Hown. apply elem_of_story. by rewrite Hr.
    + apply owed_delete; [|done]. intros sid' _. apply Ho.
  - constructor; cbn [ow_runtime ow_flights rt_shared]; [done|done| |exact Hs|by apply flights_insert|].
    + apply Forall_app. split; [done|]. constructor; [|done]. intros _. rewrite Hr. destruct Hfl as (_ & _ & ob & rec & ? & _ & ?). by exists ob, rec.
    + intros sid'. destruct (decide (sid' = sid)) as [->|Hne].
      * rewrite lookup_insert_eq. right. exists r. rewrite of_story_app, (of_story_own sid r) by (by rewrite Hr). rewrite Hown. split_and!; [done|done|].
        intros Hin. apply Hnew. apply list_elem_of_fmap in Hin as (x & -> & Hx). rewrite <- Hown in Hx. apply elem_of_story in Hx as [? _]. by apply list_elem_of_fmap_2.
      * rewrite lookup_insert_ne by done. apply (owed_more rs); [|apply Ho]. rewrite of_story_app, of_story_other, app_nil_r by (rewrite Hr, Hst; congruence). done.
Qed.
Lemma end_kept index_ok sid o o' rs done : Kept es o rs done -> end_capture index_ok sid o = Some o' -> exists done', Kept es o' rs done'.
Proof.
  intros [Hh Hk Hd Hs Hf Ho]. unfold end_capture. destruct (ow_flights o !! sid) as [[scope e []]|] eqn:Efl; [|done..]. fold (actor_of (ow_runtime o) sid).
  pose proof (Hf sid _ Efl) as Hfl. pose proof (flight_story _ _ Hfl) as Hst. pose proof (Ho sid) as Hown. rewrite Efl in Hown. cbn in Hown, Hst.
  destruct (proj2 Hs sid) as (a & Ha & Hca). pose proof (retold_seen sid done a Ha (ev_id e)) as Hseen. rewrite <- (core_seen _ _ Hca) in Hseen.
  unfold finish_commit. destruct Hown as [[Hsame Hin]|(r & Hr & Hrs & Hnew)].
  - rewrite bool_decide_eq_true_2 by (by apply Hseen). cbn. intros [= <-]. exists done. constructor; cbn [ow_runtime ow_flights rt_shared]; [done|done|done|by apply shows_insert|by apply flights_delete|].
    apply owed_delete; [|done]. intros sid' _. apply Ho.
  - assert (ev_id e = rid r) as Eid by (unfold rid; by rewrite Hr). rewrite bool_decide_eq_false_2 by (rewrite Hseen, Eid; exact Hnew).
    destruct Hfl as (Hc & Hsc & ob & rec & Hob & Hscope & Hfe). cbn in Hc, Hsc, Hob, Hscope, Hfe. rewrite Hfe.
    destruct (observe rec (see (ev_id e) (actor_of (ow_runtime o) sid))) as [b|] eqn:Eb; [|done]. cbn [mbind option_bind]. intros [= <-]. exists (done ++ [r])%list.
    assert (story_of (rec_event r) = Some sid) as Hsr by (by rewrite Hr).
    constructor; cbn [ow_runtime ow_flights rt_shared sh_journal]; [done|done|done| |by apply flights_delete|].
    + split; [cbn; rewrite asked_snoc, (proj1 Hs), <- Hscope; apply remember_ask; by rewrite Hr|]. intros sid'. rewrite actor_of_insert. case_decide as Hd'.
      * subst sid'. rewrite (retold_own _ _ _ Hsr), Ha. cbn [mbind option_bind]. pose proof (restore_one_core r _ _ Hca) as Hrc.
        assert (restore_one (actor_of (ow_runtime o) sid) r = Some b) as Hrb.
        { unfold restore_one. rewrite Hr, Hfe, <- Eid, bool_decide_eq_false_2 by (rewrite Hseen, Eid; exact Hnew). exact Eb. }
        rewrite Hrb in Hrc. destruct (restore_one a r) as [a'|]; [|done]. apply (inj Some) in Hrc. by exists a'.
      * rewrite retold_other by (rewrite Hsr; congruence). apply (proj2 Hs).
    + apply owed_delete.
      * intros sid' Hne. specialize (Ho sid'). unfold owed in *. by rewrite of_story_app, of_story_other, app_nil_r by (rewrite Hsr; congruence).
      * by rewrite of_story_app, (of_story_own _ _ Hsr).
Qed.
Lemma idle_kept sid cmd o o' rs done : match cmd with PersistRecord _ _ | Restore _ _ => False | _ => True end ->
  Kept es o rs done -> command_idle sid cmd o = Some o' -> Kept es o' rs done.
Proof.
  intros Hcmd [Hh Hk Hd Hs Hf Ho]. unfold command_idle. destruct (ow_flights o !! sid); [done|]. unfold dispatch. fold (actor_of (ow_runtime o) sid).
  destruct cmd as [| | |scope|]; [done|done| | |]; cbn; intros [= <-]; (constructor; cbn [ow_runtime ow_flights rt_shared]; [done|done|done|by apply shows_insert|done|done]).
Qed.
Lemma foreign_kept io e o o' rs done : is_capture_event e = false -> e ∈ es -> Kept es o rs done -> step_input o (Foreign io e) = Some o' ->
  poisoned o' \/ exists rs', Kept es o' rs' done.
Proof.
  intros Hnc He K. cbn [step_input]. destruct (append io _ e) as [[j res]|] eqn:Ea; [|done]. cbn [mbind option_bind]. intros [= <-].
  destruct (append_kept io o e j res rs done K He Ea) as [?|(rs' & Hh' & Hk' & Hcase)]; [by left|right]. destruct K as [Hh Hk Hd Hs Hf Ho]. exists rs'.
  constructor; cbn [ow_runtime ow_flights rt_shared]; [done|done| |exact Hs|done|]; destruct Hcase as [[-> _]|(r & receipt & -> & Hr & _)]; [done| |done|].
  - apply Forall_app. split; [done|]. constructor; [|done]. unfold decodes. by rewrite Hr, Hnc.
  - intros sid. apply (owed_more rs); [|apply Ho]. rewrite of_story_app, of_story_other, app_nil_r; [done|]. rewrite Hr. unfold story_of. by rewrite Hnc.
Qed.
Lemma step_kept o i o' rs done : input_ok i -> (forall e, e ∈ attempted o i -> e ∈ es) -> Kept es o rs done -> step_input o i = Some o' ->
  poisoned o' \/ exists rs' done', Kept es o' rs' done'.
Proof.
  intros Hok Hat K Hstep. destruct i as [amb scope rec|io sid|ix sid|scope|sid|sid|io e].
  - right. exists rs, done. by eapply begin_kept.
  - destruct (write_kept _ _ _ _ _ _ K Hat Hstep) as [?|[rs' ?]]; [by left|right]. by exists rs', done.
  - right. destruct (end_kept _ _ _ _ _ _ K Hstep) as [done' ?]. by exists rs, done'.
  - right. exists rs, done. by eapply idle_kept; [| |exact Hstep].
  - right. exists rs, done. by eapply idle_kept; [| |exact Hstep].
  - right. exists rs, done. by eapply idle_kept; [| |exact Hstep].
  - destruct (foreign_kept io e o o' rs done Hok (Hat e (list_elem_of_here _ _)) K Hstep) as [?|[rs' ?]]; [by left|right]. by exists rs', done.
Qed.
Lemma run_kept inputs : forall o o', Forall input_ok inputs -> (forall e, e ∈ attempts inputs o -> e ∈ es) ->
  poisoned o \/ (exists rs done, Kept es o rs done) -> run_inputs inputs o = Some o' -> poisoned o' \/ exists rs done, Kept es o' rs done.
Proof.
  induction inputs as [|i inputs IH]; intros o o' Hok Hat K; [by intros [= <-]|]. cbn [run_inputs attempts] in *. intros (o1 & Hstep & Hrun)%bind_Some. rewrite Hstep in Hat.
  apply Forall_cons_1 in Hok as [Hi Hok]. apply (IH o1 o' Hok); [intros e He; apply Hat, elem_of_app; by right| |done].
  destruct K as [Hp|(rs & done & K)]; [left; by eapply step_poisoned|]. eapply step_kept; [done| |exact K|done]. intros e He. apply Hat, elem_of_app. by left.
Qed.
End Steps.

Lemma holds_records (j : Journal V) rs : holds j rs -> records j = Some (Ok rs).
Proof.
  intros Hh. unfold records. rewrite (h_usable _ _ Hh). pose proof (h_storage _ _ Hh) as Hst.
  destruct (js_file (jn_state j)) as [file|] eqn:Hf; [|by rewrite Hst].
  pose proof (holds_stored _ _ _ Hh Hf) as Hs'. by rewrite (scan_stored _ _ _ _ false true Hs') by auto.
Qed.

(** A capture that no other step comes in between is one command to the owner. *)
Lemma capture_alone amb io index_ok scope (rec : CaptureRecord V) o rt reply : ow_flights o !! sc_story_id scope = None ->
  dispatch amb io index_ok (sc_story_id scope) (persist_record amb scope rec) (ow_runtime o) = Some (rt, reply) ->
  exists inputs, run_inputs inputs o = Some (mkOwners rt (ow_flights o)) /\
    inputs `prefix_of` [BeginCapture amb scope rec; WriteCapture io (sc_story_id scope); EndCapture index_ok (sc_story_id scope)].
Proof.
  intros Hn. unfold dispatch, persist_record. cbn [handle]. unfold commit_record. set (sid := sc_story_id scope). set (a := sync_scope scope _).
  assert (begin_capture amb scope rec o = Some (mkOwners (mkRuntime (<[sid := a]> (rt_actors (ow_runtime o))) (rt_shared (ow_runtime o)))
    (match commit_event amb scope (identified amb rec) (sh_requests (rt_shared (ow_runtime o))) with Err _ => ow_flights o | Ok event => <[sid := mkFlight scope event false]> (ow_flights o) end))) as Hb
    by (unfold begin_capture; by rewrite Hn).
  destruct (commit_event _ _ _ _) as [e|]; [|cbn; intros [= <- _]; exists [BeginCapture amb scope rec]; cbn; rewrite Hb; split; [done|]; by exists [WriteCapture io sid; EndCapture index_ok sid]].
  destruct (append io _ e) as [[j res]|] eqn:Ea; [|done]. cbn [mbind option_bind].
  set (o1 := mkOwners (mkRuntime (<[sid := a]> (rt_actors (ow_runtime o))) (rt_shared (ow_runtime o))) (<[sid := mkFlight scope e false]> (ow_flights o))) in Hb.
  assert (write_capture io sid o1 = Some (mkOwners (mkRuntime (<[sid := a]> (rt_actors (ow_runtime o))) (mkShared (sh_requests (rt_shared (ow_runtime o))) j))
    (match res with Err _ => ow_flights o | Ok _ => <[sid := mkFlight scope e true]> (ow_flights o) end))) as Hw.
  { unfold write_capture. cbn [o1 ow_flights ow_runtime rt_shared rt_actors]. rewrite lookup_insert_eq, Ea. cbn. destruct res; [by rewrite insert_insert_eq|by rewrite delete_insert_id]. }
  destruct res as [receipt|]; [|cbn; intros [= <- _]; exists [BeginCapture amb scope rec; WriteCapture io sid]; cbn; rewrite Hb; cbn; rewrite Hw; split; [done|]; by exists [EndCapture index_ok sid]].
  destruct (finish_commit _ _ _ _ _) as [[[a' sh'] reply']|] eqn:Ef; [|done]. cbn. intros [= <- _]. exists [BeginCapture amb scope rec; WriteCapture io sid; EndCapture index_ok sid].
  cbn. rewrite Hb. cbn. rewrite Hw. cbn. unfold end_capture. cbn [ow_flights ow_runtime rt_actors rt_shared]. rewrite !lookup_insert_eq. cbn [default from_option]. unfold id. rewrite Ef. cbn.
  rewrite insert_insert_eq, delete_insert_id by done. done.
Qed.

(** What two runtimes on a journal with these records have in common: every story,
    apart from the names of its agent and run, which requests are remembered, and
    the event of each, where not several stories have requests under one key. *)
Definition same_stories (rs : list (TraceRecord V)) (rt rt' : Runtime (V := V)) : Prop :=
  (forall sid, core (actor_of rt sid) = core (actor_of rt' sid)) /\
  (forall k, is_Some (sh_requests (rt_shared rt) !! k) <-> is_Some (sh_requests (rt_shared rt') !! k)) /\
  (forall k, one_asks k rs -> sh_requests (rt_shared rt) !! k = sh_requests (rt_shared rt') !! k).
Lemma kept_same es rt rs done amb : Kept es (mkOwners rt ∅) rs done ->
  exists rt', runtime_new amb (sh_journal (rt_shared rt)) = Some (Ok rt') /\ same_stories rs rt rt'.
Proof.
  intros [Hh _ Hd Hs _ Ho]. cbn [ow_runtime ow_flights] in *.
  assert (forall sid, of_story sid rs = of_story sid done) as Hsame by (intros sid; specialize (Ho sid); by rewrite lookup_empty in Ho).
  destruct (shows_rebuild amb (sh_journal (rt_shared rt)) rs Hd) as [rt' E].
  { intros sid. rewrite (retold_same sid rs done (Hsame sid)). destruct (proj2 Hs sid) as (a & -> & _). eauto. }
  exists rt'. split; [unfold runtime_new; by rewrite (holds_records _ _ Hh)|]. destruct (rebuild_shows _ _ _ _ E) as (_ & [Hq' Hc'] & _), Hs as [Hq Hc]. split_and!.
  - intros sid. destruct (Hc sid) as (a & Ha & ->), (Hc' sid) as (a' & Ha' & ->). rewrite (retold_same sid rs done (Hsame sid)) in Ha'. congruence.
  - intros k. rewrite Hq, Hq'. split; apply requests_known; [intros sid; by rewrite Hsame|done].
  - intros k Hk. rewrite Hq, Hq'. symmetry. by apply requests_agree.
Qed.
End History.


(** ** No credentials in the journal *)
Section Credentials.
Context {V : Type} `{JsonShape V, UrlOps, CaptureCodec V, Codec V, Blake3}.
Context `{!JsonLaws V, !JsonShapeLaws V, !CaptureCodecLaws V, !CodecLaws V}.

(** The content of a captured event has no sensitive member. *)
Definition clean_event (e : Event V) : Prop := forall o, capture_observation e = Ok o -> clean (co_content o).
Definition free_of_credentials (r : TraceRecord V) : Prop := clean_event (rec_event r).

(** The log of a usable journal, all of whose captures are free of credentials. *)
Definition clean_log (o : Owners (V := V)) : Prop :=
  ((exists rs, holds (sh_journal (rt_shared (ow_runtime o))) rs /\ Forall free_of_credentials rs) \/ poisoned o) /\
  (forall sid f, ow_flights o !! sid = Some f -> clean_event (fl_event f)).

Lemma append_clean io (j j' : Journal V) e res rs :
  holds j rs -> Forall free_of_credentials rs -> append io j e = Some (j', res) -> clean_event e ->
  (exists rs', holds j' rs' /\ Forall free_of_credentials rs') \/ js_poisoned (jn_state j') = true.
Proof.
  intros Hh Hall Ha He.
  destruct (append_step io _ _ e Hh) as [(j1 & rs' & res' & Ha' & Hl & Hst)|(n & file & _ & _ & _ & Ha')];
    rewrite Ha in Ha'; injection Ha' as -> ->; [left|by right]. destruct Hst as (Hh' & _). exists rs'. split; [done|].
  inversion Hl; subst; try done. apply Forall_app. split; [done|]. constructor; [|done]. exact He.
Qed.
(** The flights of a step are those that were there, and one that begins. *)
Lemma step_flights o i o' sid f : step_input o i = Some o' -> ow_flights o' !! sid = Some f ->
  (exists f0, ow_flights o !! sid = Some f0 /\ fl_event f0 = fl_event f) \/
  (exists amb scope rec, commit_event amb scope (identified amb rec) (sh_requests (rt_shared (ow_runtime o))) = Ok (fl_event f)).
Proof.
  destruct i as [amb scope rec|io s|ix s|scope|s|s|io e]; cbn [step_input].
  - unfold begin_capture. destruct (ow_flights o !! sc_story_id scope); [done|]. intros [= <-]. cbn [ow_flights rt_shared]. destruct (commit_event _ _ _ _) as [e|] eqn:Ee; [|eauto].
    intros [[<- <-]|[_ Hl]]%lookup_insert_Some; [right; by exists amb, scope, rec|eauto].
  - unfold write_capture. destruct (ow_flights o !! s) as [[scope e []]|] eqn:Es; [done| |done]. destruct (append io _ e) as [[j []]|]; [..|done]; cbn; intros [= <-]; cbn.
    + intros [[<- <-]|[_ Hl]]%lookup_insert_Some; [left; by eexists|eauto].
    + intros [_ Hl]%lookup_delete_Some. eauto.
  - unfold end_capture. destruct (ow_flights o !! s) as [[scope e []]|]; [|done..]. destruct (finish_commit _ _ _ _ _) as [[[a sh] reply]|]; [|done]. cbn. intros [= <-]. cbn.
    intros [_ Hl]%lookup_delete_Some. eauto.
  - unfold command_idle. destruct (ow_flights o !! _); [done|]. cbn. intros [= <-]. eauto.
  - unfold command_idle. destruct (ow_flights o !! s); [done|]. cbn. intros [= <-]. eauto.
  - unfold command_idle. destruct (ow_flights o !! s); [done|]. cbn. intros [= <-]. eauto.
  - destruct (append io _ e) as [[j res]|]; [|done]. cbn. intros [= <-]. eauto.
Qed.
Lemma step_clean o i o' : input_ok i -> clean_log o -> step_input o i = Some o' -> clean_log o'.
Proof.
  intros Hok [Hl Hf] Hstep. split.
  - destruct (step_journal _ _ _ Hstep) as [E|(io & e & res & He & E)]; unfold poisoned in *; [by rewrite E|].
    destruct Hl as [(rs & Hh & Hall)|Hp]; [|right; by eapply append_poisoned]. eapply append_clean; [exact Hh|exact Hall|exact E|].
    destruct i as [amb scope rec|io' sid|ix sid|scope|sid|sid|io' e']; cbn [attempted] in He; try by apply elem_of_nil in He.
    + destruct (ow_flights o !! sid) as [f|] eqn:Ef; [|by apply elem_of_nil in He]. apply list_elem_of_singleton in He as ->. by apply (Hf sid).
    + apply list_elem_of_singleton in He as ->. intros ob. unfold capture_observation. cbn in Hok. by rewrite Hok.
  - intros sid f Hsf. destruct (step_flights _ _ _ _ _ Hstep Hsf) as [(f0 & Hf0 & <-)|(amb & scope & rec & Hc)]; [by apply (Hf sid)|].
    apply commit_event_reads_back in Hc as (_ & ob & rec' & Hob & _ & Hcont & _). intros ob' Hob'. assert (ob' = ob) as -> by congruence. rewrite Hcont. apply redact_clean.
Qed.
Lemma run_clean inputs : forall o o', Forall input_ok inputs -> clean_log o -> run_inputs inputs o = Some o' -> clean_log o'.
Proof.
  induction inputs as [|i inputs IH]; intros o o' Hok Hc; [by intros [= <-]|]. cbn [run_inputs]. intros (o1 & Hstep & Hrun)%bind_Some. apply Forall_cons_1 in Hok as [Hi Hok].
  apply (IH o1 o' Hok); [by eapply step_clean|done].
Qed.
End Credentials.

