(* ===== verification/StoryCodec.v ===== *)
(** * Concrete codecs for captures, and evaluated stories

    Instances of [CaptureCodec] and [Codec] on the terms of [PrefixJson]:
    capture observations and events are terms, written in prefix notation and
    two bytes a character. Timestamps are not parsed. The properties of stories
    are evaluated at them. *)
From stdpp Require Import base tactics list sets strings gmap.
From Stdlib Require Import ZArith Lia Ascii.
From Stdlib.Strings Require Byte.
From S2P Require Import Prelude RustStr Types Execution Operation Causality Journal JournalFacts JournalCodec.
From S2P Require Import Json Dialogue DialogueText Redact PrefixJson RedactFacts Story StoryFacts StoryRecovery.
Local Open Scope string_scope.

(** ** Terms for the parts *)

Definition str_term (s : string) : Term := TStr (to_bytes s).
Definition term_str (v : Term) : option string := match v with TStr s => Some (of_bytes s) | _ => None end.
Definition opt_term (o : option string) : Term := match o with None => TNull | Some s => str_term s end.
Definition term_opt (v : Term) : option (option string) :=
  match v with TNull => Some None | TStr s => Some (Some (of_bytes s)) | _ => None end.
Definition list_term (l : list string) : Term := TArr (str_term <$> l).
Definition term_list (v : Term) : option (list string) := match v with TArr l => mapM term_str l | _ => None end.

Lemma term_str_term s : term_str (str_term s) = Some s.
Proof. cbn. by rewrite of_to_bytes. Qed.
Lemma term_opt_term o : term_opt (opt_term o) = Some o.
Proof. destruct o; cbn; [|done]. by rewrite of_to_bytes. Qed.
Lemma term_list_term l : term_list (list_term l) = Some l.
Proof. cbn. induction l as [|s l IH]; [done|]. cbn. rewrite of_to_bytes. cbn. by rewrite IH. Qed.

(** ** Observations *)

Definition observation_term (o : CaptureObservation Term) : Term :=
  let s := co_story o in let r := sc_route s in let c := co_correlation o in
  TArr [opt_term (sc_run_id s); str_term (sc_story_id s); opt_term (route_root_session r); str_term (route_session_id r);
        str_term (route_storage_session_id r); opt_term (route_subagent_id r); str_term (sc_agent_id s);
        opt_term (cc_call_id c); opt_term (cc_trace_id c); opt_term (cc_parent_uuid c); opt_term (cc_parent_agent_id c);
        opt_term (cc_branch c); opt_term (cc_parent_call_id c); co_content o].
Definition term_observation (v : Term) : option (CaptureObservation Term) :=
  match v with
  | TArr [a; b; c; d; e; f; g; h; i; j; k; l; m; content] =>
      a ← term_opt a; b ← term_str b; c ← term_opt c; d ← term_str d; e ← term_str e; f ← term_opt f; g ← term_str g;
      h ← term_opt h; i ← term_opt i; j ← term_opt j; k ← term_opt k; l ← term_opt l; m ← term_opt m;
      Some (mkCaptureObservation (mkStoryContext a b (mkRoute c d e f) g) (mkCorrelation h i j k l m) content)
  | _ => None
  end.

#[export] Instance term_capture_codec : CaptureCodec Term := {
  observation_to_value o := Some (observation_term o);
  observation_from_value := term_observation;
  parse_rfc3339_ms _ := None;
  format_ms _ := None
}.
#[export] Instance term_capture_laws : CaptureCodecLaws Term.
Proof.
  split. intros [[a b [c d e f] g] [h i j k l m] content] v [= <-]. cbn [observation_from_value term_capture_codec].
  unfold term_observation, observation_term. cbn [co_story co_correlation co_content sc_run_id sc_story_id sc_route sc_agent_id
    route_root_session route_session_id route_storage_session_id route_subagent_id cc_call_id cc_trace_id cc_parent_uuid
    cc_parent_agent_id cc_branch cc_parent_call_id].
  repeat (rewrite ?term_opt_term, ?term_str_term; cbn [mbind option_bind]). done.
Qed.

(** ** Events and records *)

Definition event_term (e : Event Term) : option Term :=
  match ev_context e, ev_operation e, ev_level e, ev_granularity e, ev_data e with
  | None, None, LevelInfo, GrainOperation, FactObservation domain name 1 payload =>
      if bool_decide (ev_version e = 5%Z) && (0 <=? ev_observed_at_unix_ms e)%Z then
        Some (TArr [str_term (ev_id e); str_term (ev_trace_id e); str_term (ev_producer e);
                    TNum (Z.to_nat (ev_observed_at_unix_ms e)); list_term (ev_scope e); list_term (ev_caused_by e);
                    str_term domain; str_term name; payload])
      else None
  | _, _, _, _, _ => None
  end.
Definition term_event (v : Term) : option (Event Term) :=
  match v with
  | TArr [id; trace; producer; TNum ms; scope; causes; domain; name; payload] =>
      id ← term_str id; trace ← term_str trace; producer ← term_str producer; scope ← term_list scope;
      causes ← term_list causes; domain ← term_str domain; name ← term_str name;
      Some (mkEvent 5 id trace producer (Z.of_nat ms) scope None None causes LevelInfo GrainOperation
              (FactObservation domain name 1 payload))
  | _ => None
  end.

Lemma term_event_term e v : event_term e = Some v -> term_event v = Some e.
Proof.
  destruct e as [version id trace producer ms scope [] [] causes [] [] data]; try done.
  destruct data as [| | | | | |domain name ov payload]; try done. destruct ov as [|[| |]|]; try done.
  unfold event_term. cbn [ev_context ev_operation ev_level ev_granularity ev_data ev_version ev_observed_at_unix_ms ev_id
    ev_trace_id ev_producer ev_scope ev_caused_by].
  destruct (bool_decide _ && _) eqn:E; [|done]. apply andb_true_iff in E as [->%bool_decide_eq_true E%Z.leb_le].
  intros [= <-]. unfold term_event.
  repeat (rewrite ?term_str_term, ?term_list_term; cbn [mbind option_bind]). by rewrite Z2Nat.id.
Qed.

Definition record_term (r : TraceRecord Term) : option Term :=
  let p := rec_position r in
  if (0 <=? pos_offset p)%Z && (pos_offset p <=? 20)%Z then
    e ← event_term (rec_event r); Some (TArr [str_term (pos_journal p); TNum (Z.to_nat (pos_offset p)); e])
  else None.
Definition term_record (v : Term) : option (TraceRecord Term) :=
  match v with
  | TArr [journal; TNum offset; e] =>
      journal ← term_str journal; e ← term_event e; Some (mkRecord (mkPosition journal (Z.of_nat offset)) e)
  | _ => None
  end.

Lemma record_term_Some r v : record_term r = Some v ->
  term_record v = Some r /\ exists e, event_term (rec_event r) = Some e /\
    length (enc v) <= length (enc e) + 2 * len (pos_journal (rec_position r)) + 26.
Proof.
  destruct r as [[journal offset] event]. unfold record_term. cbn [rec_position pos_offset pos_journal rec_event].
  destruct (_ && _) eqn:E; [|done]. apply andb_true_iff in E as [E1%Z.leb_le E2%Z.leb_le].
  destruct (event_term event) as [e|] eqn:Ee; [|done]. intros [= <-]. split.
  - unfold term_record. rewrite term_str_term. cbn [mbind option_bind]. rewrite (term_event_term _ _ Ee). cbn.
    by rewrite Z2Nat.id.
  - exists e. split; [done|]. rewrite enc_arr.
    change (enc_items [str_term journal; TNum (Z.to_nat offset); e])
      with (enc (str_term journal) ++ (("i"%char :: enc_num (Z.to_nat offset)) ++ (enc e ++ ["]"%char])))%list.
    cbn [length]. rewrite !length_app. cbn [length enc str_term].
    assert (forall s, length (enc_chars s) = 2 * length s + 1) as -> by (induction s as [|[] s IH]; cbn; lia).
    assert (forall n, length (enc_num n) = n + 1) as -> by (induction n as [|n IH]; cbn; lia).
    rewrite length_to_bytes. lia.
Qed.

Definition term_bytes (v : Term) : list byte := enc_string (of_bytes (enc v)).
Definition bytes_term (bs : list byte) : option Term :=
  '(s, rest) ← dec_string newline (List.filter (fun b => negb (Byte.eqb b newline)) bs ++ [newline])%list;
  match rest with [] => read_term s | _ => None end.

Lemma bytes_term_bytes v : bytes_term (term_bytes v) = Some v.
Proof.
  unfold bytes_term, term_bytes. rewrite filter_newline by apply enc_string_newline.
  rewrite dec_enc_string by auto. cbn -[read_term]. exact (read_written v).
Qed.

#[export] Instance term_codec : Codec Term := {
  event_to_vec e := term_bytes <$> event_term e;
  record_to_vec r := term_bytes <$> record_term r;
  record_from_slice bs := bytes_term bs ≫= term_record;
  header_to_vec := plain_header;
  header_from_slice := unplain_header;
  sha256 bytes := bytes
}.

Lemma term_bytes_length v : length (term_bytes v) = 2 * length (enc v).
Proof. unfold term_bytes. rewrite enc_string_length. by rewrite <- length_to_bytes, to_of_bytes. Qed.

#[export] Instance term_codec_laws : CodecLaws Term.
Proof.
  split; cbn [record_to_vec record_from_slice event_to_vec header_to_vec header_from_slice term_codec].
  - intros r bs (v & _ & ->)%fmap_Some. apply enc_string_newline.
  - intros bs. unfold bytes_term. rewrite List.filter_app. cbn. by rewrite app_nil_r.
  - intros r r' bs (v & Hv & ->)%fmap_Some. rewrite bytes_term_bytes. cbn. apply record_term_Some in Hv as [-> _]. congruence.
  - intros r bs es (v & Hv & ->)%fmap_Some (e & He & ->)%fmap_Some. rewrite !term_bytes_length.
    apply record_term_Some in Hv as (_ & e' & He' & Hl). assert (e' = e) as -> by congruence. lia.
  - intros h. exact (header_one_line (Json := unit) h).
  - intros h. exact (header_inverse (Json := unit) h).
  - intros h. exact (header_size (Json := unit) h).
Qed.

(** The digest of this codec is the text itself. *)
Definition event_valid (e : Event Term) : bool := match validate_event e with Ok _ => true | Err _ => false end.
Lemma event_valid_Ok e : event_valid e = true -> validate_event e = Ok tt.
Proof. unfold event_valid. by destruct (validate_event e) as [[]|]. Qed.
Lemma term_told_apart (es : list (Event Term)) : forallb event_valid es = true -> told_apart es.
Proof.
  intros Hall e e' He He' _ Hh. rewrite forallb_forall in Hall. pose proof (event_valid_Ok e (Hall e (proj1 (list_elem_of_In _ _) He))) as Hv.
  pose proof (event_valid_Ok e' (Hall e' (proj1 (list_elem_of_In _ _) He'))) as Hv'.
  unfold hash in Hh. cbn [sha256 event_to_vec term_codec] in Hh.
  apply event_validate_Ok in Hv as (_ & _ & n & Hn & _). apply event_validate_Ok in Hv' as (_ & _ & n' & Hn' & _).
  cbn [event_to_vec term_codec] in Hn, Hn'.
  destruct (event_term e) as [v|] eqn:Ev; [|done]. destruct (event_term e') as [v'|] eqn:Ev'; [|done]. cbn in Hh.
  apply (f_equal bytes_term) in Hh. rewrite !bytes_term_bytes in Hh. injection Hh as ->.
  apply term_event_term in Ev, Ev'. congruence.
Qed.

(** ** Evaluated stories *)

#[export] Instance no_hash : Blake3 := { blake3_hex _ := "" }.

Definition demo_route : CaptureRoute := mkRoute (Some "run") "session" "main" None.
Definition demo_story : StoryContext := story_context_from_route demo_route "agent".
Definition demo_ambient (n : Z) : Ambient := mkAmbient "now" n "uuid".
Definition obj (l : list (string * Term)) : Term := TObj (prod_map to_bytes id <$> l).

Definition demo_record (id kind call : string) (payload : Term) : CaptureRecord Term :=
  mkCaptureRecord (Some id) (Some 7%Z) kind (Some "t") None None None None (Some call) None None None None payload.
Definition demo_request : CaptureRecord Term :=
  demo_record "e1" "llm.request" "c1" (obj [("api_key", str_term "sk"); ("user_content", str_term "hi")]).
Definition demo_response : CaptureRecord Term :=
  demo_record "e2" "llm.response" "c1" (obj [("assistant_content", str_term "hello")]).
Definition demo_other : CaptureRecord Term :=
  demo_record "e3" "llm.request" "c2" (obj [("path", str_term "/v1/count_tokens")]).

Definition side_route : CaptureRoute := mkRoute (Some "run") "session" "side" None.
Definition side_story : StoryContext := story_context_from_route side_route "agent".
Definition demo_side : CaptureRecord Term :=
  demo_record "e4" "llm.request" "c4" (obj [("raw", str_term (json_display (obj [("password", str_term "pw")]))); ("user_content", str_term "look")]).

(** Two stories whose captures overlap: the second begins first, is written last
    and ends in between; then a response, a retry of the first request, a capture
    whose index update failed, a reading and an append of another producer. *)
Definition alone (n : Z) (index_ok : bool) (rec : CaptureRecord Term) : list (Input (V := Term)) :=
  [BeginCapture (demo_ambient n) demo_story rec; WriteCapture Synced "run|main"; EndCapture index_ok "run|main"].
Definition demo_inputs : list (Input (V := Term)) :=
  ([BeginCapture (demo_ambient 1) side_story demo_side; BeginCapture (demo_ambient 1) demo_story demo_request;
    WriteCapture Synced "run|main"; WriteCapture Synced "run|side"; EndCapture true "run|side"; EndCapture true "run|main"]
   ++ alone 2 true demo_response ++ alone 3 true demo_request ++ alone 4 false demo_other
   ++ [ReadStory demo_story;
       Foreign Synced (mkEvent 5 "x1" "t" "runtime" 1 ["run"] None None [] LevelInfo GrainOperation
                         (FactObservation "demo" "demo.tick" 1 TNull))])%list.
Definition demo_start : Runtime (V := Term) := empty_runtime (memory "j").
Definition demo_end : Runtime (V := Term) := ow_runtime (default (mkOwners demo_start ∅) (run_inputs demo_inputs (mkOwners demo_start ∅))).

Lemma demo_runs : run_inputs demo_inputs (mkOwners demo_start ∅) = Some (mkOwners demo_end ∅).
Proof. vm_compute. reflexivity. Qed.
Lemma demo_turns :
  (fun t => (turn_index t, tb_text <$> turn_user t, tb_text <$> turn_assistant t, (fun c => (tc_call_id c, tc_events c)) <$> turn_calls t))
    <$> tm_turns (ac_turns (actor_of demo_end "run|main"))
  = [(0%Z, Some "hi", Some "hello", [("c1", [PhaseRequest; PhaseComplete]); ("c2", [PhaseRequest])])].
Proof. vm_compute. reflexivity. Qed.

Lemma demo_name_ok : name_ok "j".
Proof. split; [reflexivity|cbn; lia]. Qed.
Lemma demo_inputs_ok : Forall input_ok demo_inputs.
Proof. repeat constructor. Qed.
Lemma demo_told_apart : told_apart (attempts demo_inputs (mkOwners demo_start ∅)).
Proof. apply term_told_apart. vm_compute. reflexivity. Qed.



(** ** Evaluated turns *)

Definition machine_after (l : list (CaptureRecord Term)) : TurnMachine :=
  default (turn_machine_new "s") (replay_records "s" "agent" None l).
Definition response_outcome : TurnObserveOutcome := mkOutcome (Some "s#turn-0") (Some 0%Z).
Definition stamped (r : CaptureRecord Term) : CaptureRecord Term :=
  with_payload (default TNull (stamp response_outcome (cr_payload r))) r.


Lemma response_joins_request_witness :
  exists turn, turn ∈ tm_turns (machine_after [demo_request; demo_other; demo_response]) /\ turn_id turn = "s#turn-0"
    /\ turn_assistant turn = Some (mkTextBlock "hello" (Some "c1")).
Proof.
  destruct (response_joins_request (machine_after []) (machine_after [demo_request]) (machine_after [demo_request; demo_other])
    (machine_after [demo_request; demo_other; demo_response]) demo_request (stamped demo_request) demo_response (stamped demo_response)
    [demo_other] response_outcome response_outcome "c1" "s#turn-0") as (_ & turn & Hin & Hid & _ & Htext).
  - exact (turn_machine_ok "s" "agent" None).
  - reflexivity.
  - reflexivity.
  - vm_compute. reflexivity.
  - reflexivity.
  - vm_compute. reflexivity.
  - constructor; [|constructor]. intros _. vm_compute. discriminate.
  - reflexivity.
  - reflexivity.
  - vm_compute. reflexivity.
  - exists turn. split; [exact Hin|]. split; [exact Hid|]. apply Htext. vm_compute. reflexivity.
Defined.
