(* ===== verification/HostFs.v ===== *)
(** * The host file system

    What the overlay uses of [std::fs] and of the calls of
    [pvisor-overlay-core/src/sys.rs]: trees of names over inodes, and the calls
    that read and change them. A place is a tree (the upper, a lower by its
    index, the work directory) with a relative path. Several names can share
    an inode; directories have one name.

    A path that runs through a symbolic link leaves the trees. What is read
    there is an argument ([h_beyond]); a call that changes something there sets
    the mark [h_escaped] and changes nothing else.

    A call either fails with an error number and changes nothing, or has its
    effect; failures of the machine are added where the calls are used. *)
From stdpp Require Import base tactics list strings gmap pretty.
From Stdlib Require Import ZArith Lia Ascii.
From S2P Require Import Prelude RustStr FileAccess.
Local Open Scope nat_scope.

(** ** Errors *)

(** [io::Error] by its error number; [OutOfFuel] marks a recursion that did not
    end within its bound. *)
Inductive IoErr := Errno (e : Z) | OutOfFuel.
#[export] Instance io_err_eq_dec : EqDecision IoErr.
Proof. solve_decision. Defined.

(** The error numbers of Linux. *)
Notation EPERM := (Errno 1).
Notation ENOENT := (Errno 2).
Notation EACCES := (Errno 13).
Notation EEXIST := (Errno 17).
Notation ENOTDIR := (Errno 20).
Notation EISDIR := (Errno 21).
Notation EINVAL := (Errno 22).
Notation EROFS := (Errno 30).
Notation ENOTEMPTY := (Errno 39).
Notation ELOOP := (Errno 40).
Notation EIO := (Errno 5).
Notation ENOTSUP := (Errno 95).

(** ** Paths *)

(** [Path::parent] of a path that has one, [Path::file_name], [Path::strip_prefix]. *)
Definition parent_of (p : Path) : Path := removelast p.
Fixpoint strip_path (pre p : Path) : option Path :=
  match pre, p with
  | [], _ => Some p
  | c :: pre, d :: p => if bool_decide (c = d) then strip_path pre p else None
  | _ :: _, [] => None
  end.
(** [Path::starts_with]. *)
Definition path_starts_with (p pre : Path) : bool := bool_decide (is_Some (strip_path pre p)).

(** ** Trees and inodes *)

Inductive Root := Upper | Lower (index : nat) | Work.
#[export] Instance root_eq_dec : EqDecision Root.
Proof. solve_decision. Defined.
#[export] Instance root_countable : Countable Root.
Proof.
  apply (inj_countable' (fun r => match r with Upper => inl true | Work => inl false | Lower i => inr i end)
    (fun s => match s with inl true => Upper | inl false => Work | inr i => Lower i end)).
  by intros [].
Defined.

Notation Loc := (Root * Path)%type.

(** The type of an object with its contents; [KNode] is a pipe, a socket or a
    device, with the type bits of its mode and its number. *)
Inductive Kind := KDir | KFile (bytes : string) | KSymlink (target : string) | KNode (type rdev : Z).
#[export] Instance kind_eq_dec : EqDecision Kind.
Proof. solve_decision. Defined.

Definition is_dir (k : Kind) : bool := match k with KDir => true | _ => false end.
Definition is_file (k : Kind) : bool := match k with KFile _ => true | _ => false end.
Definition is_symlink (k : Kind) : bool := match k with KSymlink _ => true | _ => false end.

Record Inode := mkInode {
  i_kind : Kind;
  i_perm : Z;
  i_uid : Z;
  i_gid : Z;
  i_atime : Z * Z;
  i_mtime : Z * Z;
  i_xattrs : gmap string string;
  i_other_links : nat
}.

Record Host := mkHost {
  h_names : gmap Loc nat;
  h_inodes : gmap nat Inode;
  h_beyond : Loc -> Result IoErr (nat * Inode);
  h_escaped : bool
}.

Definition set_names (names : gmap Loc nat) (h : Host) : Host :=
  mkHost names (h_inodes h) (h_beyond h) (h_escaped h).
Definition set_inodes (inodes : gmap nat Inode) (h : Host) : Host :=
  mkHost (h_names h) inodes (h_beyond h) (h_escaped h).
Definition escape (h : Host) : Host :=
  mkHost (h_names h) (h_inodes h) (h_beyond h) true.

Definition node (h : Host) (l : Loc) : option Inode := h_names h !! l ≫= fun i => h_inodes h !! i.
Definition kind_at (h : Host) (l : Loc) : option Kind := i_kind <$> node h l.

(** [Metadata::nlink]. *)
Definition nlink (h : Host) (i : nat) : nat :=
  length (filter (fun '(_, j) => j = i) (map_to_list (h_names h)))
  + from_option i_other_links 0 (h_inodes h !! i).

(** ** Reading *)

(** The kernel's walk over the directories of a path. *)
Inductive Walk := WalkOk | WalkMissing | WalkNotDir | WalkLink.
Fixpoint walk (h : Host) (r : Root) (at_ rest : Path) : Walk :=
  match kind_at h (r, at_) with
  | None => WalkMissing
  | Some KDir => match rest with [] => WalkOk | c :: rest => walk h r (at_ ++ [c]) rest end
  | Some (KSymlink _) => WalkLink
  | Some _ => WalkNotDir
  end.
Definition reach (h : Host) (l : Loc) : Walk :=
  match l.2 with [] => WalkOk | _ => walk h l.1 [] (parent_of l.2) end.

(** [fs::symlink_metadata]. *)
Definition lstat (h : Host) (l : Loc) : Result IoErr (nat * Inode) :=
  match reach h l with
  | WalkOk => ok_or (i ← h_names h !! l; n ← h_inodes h !! i; Some (i, n)) ENOENT
  | WalkMissing => Err ENOENT
  | WalkNotDir => Err ENOTDIR
  | WalkLink => h_beyond h l
  end.

(** [fs::read_dir], the names only; the order is not specified. *)
Definition read_dir (h : Host) (l : Loc) : list string :=
  omap (fun '(l', _) =>
          if bool_decide (l'.1 = l.1) then
            match strip_path l.2 l'.2 with Some [c] => Some c | _ => None end
          else None) (map_to_list (h_names h)).

(** ** Changing *)

Definition HostCall (A : Type) := Host -> Result IoErr A * Host.

(** A change of the entry [l] of its directory. *)
Definition in_directory (l : Loc) (f : HostCall unit) : HostCall unit := fun h =>
  match reach h l with
  | WalkOk => f h
  | WalkMissing => (Err ENOENT, h)
  | WalkNotDir => (Err ENOTDIR, h)
  | WalkLink => (Ok tt, escape h)
  end.

Definition fresh_ino (h : Host) : nat := S (map_fold (fun i _ m => Nat.max i m) 0 (h_inodes h)).
Definition add_inode (l : Loc) (n : Inode) (h : Host) : Host :=
  set_names (<[l := fresh_ino h]> (h_names h)) (set_inodes (<[fresh_ino h := n]> (h_inodes h)) h).
Definition new_inode (k : Kind) (perm : Z) : Inode := mkInode k perm 0 0 (0, 0)%Z (0, 0)%Z ∅ 0.

(** [fs::create_dir], [symlink], [mknod], and opening with [create_new]. *)
Definition fs_create (l : Loc) (k : Kind) (perm : Z) : HostCall unit :=
  in_directory l (fun h =>
    match h_names h !! l with
    | Some _ => (Err EEXIST, h)
    | None => (Ok tt, add_inode l (new_inode k perm) h)
    end).

(** [open] with [create] and without [create_new]: an existing file is kept. *)
Definition fs_open_create (l : Loc) (perm : Z) : HostCall unit :=
  in_directory l (fun h =>
    match kind_at h l with
    | Some (KFile _) => (Ok tt, h)
    | Some KDir => (Err EISDIR, h)
    | Some (KSymlink _) => (Ok tt, escape h)
    | Some (KNode _ _) => (Ok tt, h)
    | None => (Ok tt, add_inode l (new_inode (KFile "") perm) h)
    end).

(** [fs::remove_file]. *)
Definition fs_remove_file (l : Loc) : HostCall unit :=
  in_directory l (fun h =>
    match kind_at h l with
    | None => (Err ENOENT, h)
    | Some KDir => (Err EISDIR, h)
    | Some _ => (Ok tt, set_names (delete l (h_names h)) h)
    end).

Definition under (l l' : Loc) : Prop := l'.1 = l.1 /\ is_Some (strip_path l.2 l'.2).
#[export] Instance under_dec l l' : Decision (under l l').
Proof. unfold under. apply _. Defined.

Definition without_tree (l : Loc) (names : gmap Loc nat) : gmap Loc nat := filter (fun '(l', _) => ~ under l l') names.

(** [fs::remove_dir] and [fs::remove_dir_all] of a directory. *)
Definition fs_remove_dir (l : Loc) : HostCall unit :=
  in_directory l (fun h =>
    match kind_at h l with
    | None => (Err ENOENT, h)
    | Some KDir => if bool_decide (read_dir h l = []) then (Ok tt, set_names (delete l (h_names h)) h) else (Err ENOTEMPTY, h)
    | Some _ => (Err ENOTDIR, h)
    end).
Definition fs_remove_dir_all (l : Loc) : HostCall unit :=
  in_directory l (fun h =>
    match kind_at h l with
    | None => (Err ENOENT, h)
    | Some KDir => (Ok tt, set_names (without_tree l (h_names h)) h)
    | Some _ => (Err ENOTDIR, h)
    end).

(** [fs::hard_link]. *)
Definition fs_hard_link (src dst : Loc) : HostCall unit :=
  in_directory src (in_directory dst (fun h =>
    match h_names h !! src, kind_at h src with
    | None, _ | _, None => (Err ENOENT, h)
    | Some _, Some KDir => (Err EPERM, h)
    | Some i, Some _ =>
        match h_names h !! dst with
        | Some _ => (Err EEXIST, h)
        | None => (Ok tt, set_names (<[dst := i]> (h_names h)) h)
        end
    end)).

(** [fs::rename]. *)
Definition rebase (src dst l : Loc) : option Loc :=
  if bool_decide (l.1 = src.1) then (fun s => (dst.1, dst.2 ++ s)) <$> strip_path src.2 l.2 else None.
Definition move_names (src dst : Loc) (names : gmap Loc nat) : gmap Loc nat :=
  list_to_map (omap (fun '(l, i) => (fun l' => (l', i)) <$> rebase src dst l) (map_to_list names))
  ∪ filter (fun '(l, _) => ~ under src l /\ ~ under dst l) names.
Definition moved (src dst : Loc) (h : Host) : Host := set_names (move_names src dst (h_names h)) h.

Definition fs_rename (src dst : Loc) : HostCall unit :=
  in_directory src (in_directory dst (fun h =>
    match h_names h !! src, kind_at h src with
    | None, _ | _, None => (Err ENOENT, h)
    | Some i, Some k =>
        if bool_decide (src = dst) then (Ok tt, h)
        else if bool_decide (under src dst) then (Err EINVAL, h)
        else
          match h_names h !! dst, kind_at h dst with
          | None, _ | _, None => (Ok tt, moved src dst h)
          | Some j, Some k' =>
              if bool_decide (i = j) then (Ok tt, h)
              else
                match is_dir k, is_dir k' with
                | true, false => (Err ENOTDIR, h)
                | false, true => (Err EISDIR, h)
                | true, true => if bool_decide (read_dir h dst = []) then (Ok tt, moved src dst h) else (Err ENOTEMPTY, h)
                | false, false => (Ok tt, moved src dst h)
                end
          end
    end)).

(** A change of the attributes or the contents of the object at [l]. *)
Definition fs_update (l : Loc) (f : Inode -> Inode) : HostCall unit :=
  in_directory l (fun h =>
    match h_names h !! l ≫= fun i => pair i <$> h_inodes h !! i with
    | None => (Err ENOENT, h)
    | Some (i, n) => (Ok tt, set_inodes (<[i := f n]> (h_inodes h)) h)
    end).

Definition with_owner (uid gid : Z) (n : Inode) : Inode :=
  mkInode (i_kind n) (i_perm n) uid gid (i_atime n) (i_mtime n) (i_xattrs n) (i_other_links n).
Definition with_perm (perm : Z) (n : Inode) : Inode :=
  mkInode (i_kind n) perm (i_uid n) (i_gid n) (i_atime n) (i_mtime n) (i_xattrs n) (i_other_links n).
Definition with_times (atime mtime : Z * Z) (n : Inode) : Inode :=
  mkInode (i_kind n) (i_perm n) (i_uid n) (i_gid n) atime mtime (i_xattrs n) (i_other_links n).
Definition with_xattr (name value : string) (n : Inode) : Inode :=
  mkInode (i_kind n) (i_perm n) (i_uid n) (i_gid n) (i_atime n) (i_mtime n) (<[name := value]> (i_xattrs n)) (i_other_links n).
Definition with_kind (k : Kind) (n : Inode) : Inode :=
  mkInode k (i_perm n) (i_uid n) (i_gid n) (i_atime n) (i_mtime n) (i_xattrs n) (i_other_links n).
