(* ===== verification/HostFsFacts.v ===== *)
(** * The host file system: facts

    Well-formed trees, how each call changes what is found at every place, and
    that the calls keep trees well-formed. *)
From stdpp Require Import base tactics list strings gmap pretty.
From Stdlib Require Import ZArith Lia Ascii.
From S2P Require Import Prelude RustStr FileAccess HostFs.
Local Open Scope nat_scope.

(** ** Paths *)

Lemma strip_path_Some pre p s : strip_path pre p = Some s <-> p = pre ++ s.
Proof.
  revert p. induction pre as [|c pre IH]; intros [|d p]; cbn; try naive_solver.
  case_bool_decide as Hc; [subst; rewrite IH | ]; naive_solver.
Qed.
Lemma strip_path_app pre s : strip_path pre (pre ++ s) = Some s.
Proof. by apply strip_path_Some. Qed.
Lemma strip_path_None pre p : strip_path pre p = None <-> forall s, p <> pre ++ s.
Proof.
  split.
  - intros H s ->. by rewrite strip_path_app in H.
  - intros H. destruct (strip_path pre p) as [s|] eqn:E; [|done]. apply strip_path_Some in E. naive_solver.
Qed.
Lemma path_starts_with_spec p pre : path_starts_with p pre = true <-> exists s, p = pre ++ s.
Proof.
  unfold path_starts_with. rewrite bool_decide_eq_true. split.
  - intros [s Hs%strip_path_Some]. eauto.
  - intros [s ->]. exists s. apply strip_path_app.
Qed.
Lemma under_spec r p l : under (r, p) l <-> exists s, l = (r, p ++ s).
Proof.
  destruct l as [r' p']. unfold under; cbn. split.
  - intros [-> [s ->%strip_path_Some]]. eauto.
  - intros [s [= -> ->]]. split; [done|]. rewrite strip_path_app. eauto.
Qed.
Lemma under_refl l : under l l.
Proof. destruct l as [r p]. apply under_spec. exists []. by rewrite app_nil_r. Qed.
Lemma under_snoc r (p q : Path) c : under (r, p) (r, q ++ [c]) <-> under (r, p) (r, q) \/ p = q ++ [c].
Proof.
  rewrite !under_spec. split.
  - intros [s Hs]. destruct s as [|d s' _] using rev_ind.
    + right. rewrite app_nil_r in Hs. congruence.
    + left. exists s'. rewrite app_assoc in Hs. injection Hs as Hs. apply app_inj_tail in Hs as [-> _]. done.
  - intros [[s [= ->]] | ->]; [exists (s ++ [c]); by rewrite app_assoc | exists []; by rewrite app_nil_r].
Qed.
Lemma parent_of_snoc (p : Path) c : parent_of (p ++ [c]) = p.
Proof. apply removelast_last. Qed.
Lemma reach_snoc h r (p : Path) c : reach h (r, p ++ [c]) = walk h r [] p.
Proof.
  unfold reach; cbn [fst snd]. destruct (p ++ [c]) as [|d q] eqn:E; [by destruct p|].
  by rewrite <- E, parent_of_snoc.
Qed.
Lemma snoc_neq {A} (p : list A) c : p ++ [c] <> p.
Proof. intros H. apply (f_equal length) in H. rewrite length_app in H. cbn in H. lia. Qed.
Lemma path_snoc_cases (p : Path) : p = [] \/ exists q c, p = q ++ [c].
Proof. destruct p as [|c q _] using rev_ind; eauto. Qed.

(** ** Well-formed trees *)

Record wf (h : Host) : Prop := mkWf {
  wf_inodes l i : h_names h !! l = Some i -> is_Some (h_inodes h !! i);
  wf_parents r (p : Path) c : is_Some (h_names h !! (r, p ++ [c])) -> kind_at h (r, p) = Some KDir;
  wf_dirs l l' i n : h_names h !! l = Some i -> h_names h !! l' = Some i -> h_inodes h !! i = Some n ->
    i_kind n = KDir -> l = l'
}.

Lemma node_Some h l n : node h l = Some n <-> exists i, h_names h !! l = Some i /\ h_inodes h !! i = Some n.
Proof. unfold node. rewrite bind_Some. done. Qed.
Lemma kind_at_Some h l k : kind_at h l = Some k <-> exists n, node h l = Some n /\ i_kind n = k.
Proof. unfold kind_at. rewrite fmap_Some. naive_solver. Qed.
Lemma kind_at_None h l : kind_at h l = None <-> node h l = None.
Proof. unfold kind_at. by rewrite fmap_None. Qed.
Lemma node_names h l : wf h -> node h l = None <-> h_names h !! l = None.
Proof.
  intros W. unfold node. destruct (h_names h !! l) as [i|] eqn:E; cbn; [|done].
  destruct (wf_inodes h W l i E) as [n Hn]. by rewrite Hn.
Qed.
Lemma kind_names h l : wf h -> is_Some (kind_at h l) <-> is_Some (h_names h !! l).
Proof.
  intros W. unfold kind_at. rewrite fmap_is_Some, <- !not_eq_None_Some. by rewrite node_names.
Qed.
Lemma wf_parent_dir h r (p : Path) c k : wf h -> kind_at h (r, p ++ [c]) = Some k -> kind_at h (r, p) = Some KDir.
Proof. intros W Hk. apply (wf_parents h W r p c), kind_names; eauto. Qed.
Lemma wf_prefix_dir h r (p s : Path) k : wf h -> s <> [] -> kind_at h (r, p ++ s) = Some k -> kind_at h (r, p) = Some KDir.
Proof.
  intros W. revert k. induction s as [|c s IH] using rev_ind; [done|]. intros k _ Hk.
  rewrite app_assoc in Hk. apply wf_parent_dir in Hk; [|done].
  destruct s as [|d s _] using rev_ind; [by rewrite app_nil_r in Hk|]. eapply IH; [by destruct s|exact Hk].
Qed.

Lemma wf_prefix_of_dir h r (p s : Path) : wf h -> kind_at h (r, p ++ s) = Some KDir -> kind_at h (r, p) = Some KDir.
Proof. intros W Hk. destruct s as [|c s]; [by rewrite app_nil_r in Hk|]. exact (wf_prefix_dir h r p (c :: s) KDir W ltac:(done) Hk). Qed.

Lemma walk_ok_from h r (p q : Path) : wf h -> kind_at h (r, p ++ q) = Some KDir -> walk h r p q = WalkOk.
Proof.
  intros W. revert p. induction q as [|c q IH]; intros p Hk; cbn [walk].
  - rewrite app_nil_r in Hk. by rewrite Hk.
  - rewrite (wf_prefix_dir h r p (c :: q) KDir W ltac:(done) Hk).
    apply IH. by rewrite <- app_assoc.
Qed.
Lemma walk_ok_dir h r (p q : Path) : walk h r p q = WalkOk -> kind_at h (r, p ++ q) = Some KDir.
Proof.
  revert p. induction q as [|c q IH]; intros p; cbn [walk]; destruct (kind_at h (r, p)) as [[]|] eqn:E; try done.
  - by rewrite app_nil_r.
  - intros H%IH. by rewrite <- app_assoc in H.
Qed.
Lemma reach_ok h r (p : Path) c : wf h -> reach h (r, p ++ [c]) = WalkOk <-> kind_at h (r, p) = Some KDir.
Proof.
  intros W. rewrite reach_snoc. split; [apply (walk_ok_dir h r [] p)|]. by apply (walk_ok_from h r [] p).
Qed.
Lemma reach_present h r p : wf h -> is_Some (kind_at h (r, p)) -> reach h (r, p) = WalkOk.
Proof.
  intros W [k Hk]. destruct (path_snoc_cases p) as [->|(q & c & ->)]; [done|].
  apply reach_ok; [done|]. by eapply wf_parent_dir.
Qed.
Lemma lstat_ok h l : reach h l = WalkOk ->
  lstat h l = match h_names h !! l with
              | Some i => match h_inodes h !! i with Some n => Ok (i, n) | None => Err ENOENT end
              | None => Err ENOENT
              end.
Proof.
  intros H. unfold lstat. rewrite H. destruct (h_names h !! l) as [i|]; cbn; [|done]. by destruct (h_inodes h !! i).
Qed.
Lemma lstat_present h l n : wf h -> node h l = Some n -> exists i, h_names h !! l = Some i /\ h_inodes h !! i = Some n /\ lstat h l = Ok (i, n).
Proof.
  intros W Hn. destruct l as [r p]. pose proof Hn as (i & Hi & Hin)%node_Some. exists i. split_and!; [done..|].
  rewrite lstat_ok, Hi, Hin; [done|]. apply reach_present; [done|]. unfold kind_at. rewrite Hn. by eexists.
Qed.
Lemma lstat_Ok h r p i n : wf h -> reach h (r, p) <> WalkLink -> lstat h (r, p) = Ok (i, n) ->
  h_names h !! (r, p) = Some i /\ h_inodes h !! i = Some n /\ node h (r, p) = Some n.
Proof.
  intros W Hl. unfold lstat. destruct (reach h (r, p)); try done. unfold ok_or.
  destruct (h_names h !! (r, p)) as [i'|] eqn:Hi; cbn; [|done]. destruct (h_inodes h !! i') as [n'|] eqn:Hn; cbn; [|done].
  intros [= -> ->]. split_and!; [done..|]. apply node_Some; eauto.
Qed.

Lemma read_dir_spec h r (p : Path) c : c ∈ read_dir h (r, p) <-> is_Some (h_names h !! (r, p ++ [c])).
Proof.
  unfold read_dir. rewrite list_elem_of_omap. split.
  - intros ([[r' p'] i] & Hin & Hc). apply elem_of_map_to_list in Hin. cbn in Hc. case_bool_decide; [|done]. subst r'.
    destruct (strip_path p p') as [s|] eqn:Es; [|done]. apply strip_path_Some in Es as ->.
    destruct s as [|d []]; simplify_eq. eauto.
  - intros [i Hi]. exists ((r, p ++ [c]), i). rewrite elem_of_map_to_list. split; [done|]. cbn.
    rewrite bool_decide_eq_true_2, strip_path_app by done. done.
Qed.

(** ** New objects *)

Lemma fresh_ino_fresh h : h_inodes h !! fresh_ino h = None.
Proof.
  unfold fresh_ino. destruct (h_inodes h !! _) as [n|] eqn:E; [|done]. exfalso.
  assert (forall m : gmap nat Inode, forall i n, m !! i = Some n -> i <= map_fold (fun i _ m => Nat.max i m) 0 m) as Hle.
  { intros m. induction m as [|j x m Hj Hf IH] using map_first_key_ind; [by intros i ? ?%lookup_empty_Some|].
    intros i y Hi. rewrite map_fold_insert_first_key by done.
    apply lookup_insert_Some in Hi as [[-> _]|[_ Hi]]; [lia|]. specialize (IH i y Hi). lia. }
  apply Hle in E. lia.
Qed.
Lemma node_add_inode h l n l' : wf h -> node (add_inode l n h) l' = if decide (l' = l) then Some n else node h l'.
Proof.
  intros W. unfold node, add_inode; cbn. case_decide as Hl.
  - subst. rewrite lookup_insert_eq. cbn. by rewrite lookup_insert_eq.
  - rewrite lookup_insert_ne by done. destruct (h_names h !! l') as [i|] eqn:E; cbn; [|done].
    destruct (wf_inodes h W l' i E) as [m Hm]. rewrite lookup_insert_ne; [done|].
    intros <-. by rewrite fresh_ino_fresh in Hm.
Qed.
Lemma kind_add_inode h l n l' : wf h -> kind_at (add_inode l n h) l' = if decide (l' = l) then Some (i_kind n) else kind_at h l'.
Proof. intros W. unfold kind_at. rewrite node_add_inode by done. by case_decide. Qed.

Lemma wf_add_inode h r (p : Path) c n : wf h -> h_names h !! (r, p ++ [c]) = None -> kind_at h (r, p) = Some KDir ->
  wf (add_inode (r, p ++ [c]) n h).
Proof.
  intros W Hnone Hdir. constructor.
  - intros l i. cbn. rewrite lookup_insert_Some. intros [[_ <-]|[_ Hi]]; [rewrite lookup_insert_eq; eauto|].
    destruct (wf_inodes h W l i Hi) as [m Hm]. rewrite lookup_insert_is_Some. destruct (decide (fresh_ino h = i)); eauto.
  - intros r' p' c' Hs. rewrite kind_add_inode by done. case_decide as Hp.
    + injection Hp as -> ->. cbn in Hs. rewrite lookup_insert_ne in Hs by (intros [= E]; by eapply snoc_neq).
      apply (wf_parents h W) in Hs. apply kind_at_Some in Hs as (m & Hm & _). apply node_Some in Hm as (i & Hi & _). congruence.
    + cbn in Hs. apply lookup_insert_is_Some in Hs as [[= -> Hs]|[_ Hs]]; [|by apply (wf_parents h W) in Hs].
      apply app_inj_tail in Hs as [-> _]. done.
  - intros l l' i m. cbn. rewrite !lookup_insert_Some. intros [[<- <-]|[Hl Hi]] [[<- Hi']|[Hl' Hi']] Hm Hk; try done.
    + apply (wf_inodes h W) in Hi'. rewrite fresh_ino_fresh in Hi'. by destruct Hi'.
    + subst i. apply (wf_inodes h W) in Hi. rewrite fresh_ino_fresh in Hi. by destruct Hi.
    + destruct Hm as [[<- _]|[_ Hm]]; [|by eapply (wf_dirs h W)].
      apply (wf_inodes h W) in Hi. rewrite fresh_ino_fresh in Hi. by destruct Hi.
Qed.

(** ** Removed, linked and moved names *)

Lemma node_set_names h names l : node (set_names names h) l = names !! l ≫= fun i => h_inodes h !! i.
Proof. done. Qed.

(** A change of names that adds no inode, keeps parents and keeps directories unique. *)
Lemma wf_set_names h names :
  (forall l i, names !! l = Some i -> is_Some (h_inodes h !! i)) ->
  (forall r (p : Path) c, is_Some (names !! (r, p ++ [c])) -> kind_at (set_names names h) (r, p) = Some KDir) ->
  (forall l l' i n, names !! l = Some i -> names !! l' = Some i -> h_inodes h !! i = Some n -> i_kind n = KDir -> l = l') ->
  wf (set_names names h).
Proof. intros H1 H2 H3. constructor; [exact H1 | exact H2 | exact H3]. Qed.

Lemma node_delete h l l' : node (set_names (delete l (h_names h)) h) l' = if decide (l' = l) then None else node h l'.
Proof.
  rewrite node_set_names. case_decide as Hl; [subst; by rewrite lookup_delete_eq|].
  by rewrite lookup_delete_ne by congruence.
Qed.
Lemma wf_delete h r p : wf h -> (forall c, h_names h !! (r, p ++ [c]) = None) -> wf (set_names (delete (r, p) (h_names h)) h).
Proof.
  intros W Hc. apply wf_set_names.
  - intros l i [_ Hi]%lookup_delete_Some. by eapply (wf_inodes h W).
  - intros r' p' c Hs. unfold kind_at. rewrite node_delete. destruct Hs as [i [Hne Hi]%lookup_delete_Some].
    case_decide as Hl; [injection Hl as -> ->; by rewrite Hc in Hi|]. apply (wf_parents h W r' p' c). eauto.
  - intros l l' i n [_ Hi]%lookup_delete_Some [_ Hi']%lookup_delete_Some. by apply (wf_dirs h W).
Qed.

Lemma node_without_tree h l l' : node (set_names (without_tree l (h_names h)) h) l' = if decide (under l l') then None else node h l'.
Proof.
  rewrite node_set_names. unfold without_tree. case_decide as Hu.
  - rewrite (proj2 (map_lookup_filter_None _ _ _)); [done|]. naive_solver.
  - unfold node. f_equal. destruct (h_names h !! l') as [i|] eqn:E.
    + by apply map_lookup_filter_Some.
    + apply map_lookup_filter_None. by left.
Qed.
Lemma without_tree_Some l names l' i : without_tree l names !! l' = Some i <-> names !! l' = Some i /\ ~ under l l'.
Proof. unfold without_tree. by rewrite map_lookup_filter_Some. Qed.
Lemma wf_without_tree h l : wf h -> wf (set_names (without_tree l (h_names h)) h).
Proof.
  intros W. apply wf_set_names.
  - intros l' i [Hi _]%without_tree_Some. by eapply (wf_inodes h W).
  - intros r p c [i [Hi Hu]%without_tree_Some]. unfold kind_at. rewrite node_without_tree.
    destruct (decide (under l (r, p))) as [Hup|_]; [|apply (wf_parents h W r p c); eauto].
    exfalso. destruct l as [r0 p0]. pose proof (proj1 (under_spec _ _ _) Hup) as [s [= -> ->]].
    apply Hu, under_snoc. by left.
  - intros l1 l2 i n [Hi _]%without_tree_Some [Hi' _]%without_tree_Some. by apply (wf_dirs h W).
Qed.

Lemma node_link h l i l' : node (set_names (<[l := i]> (h_names h)) h) l' = if decide (l' = l) then h_inodes h !! i else node h l'.
Proof.
  rewrite node_set_names. case_decide as Hl; [subst; by rewrite lookup_insert_eq|].
  by rewrite lookup_insert_ne by congruence.
Qed.
Lemma wf_link h r (p : Path) c l i n : wf h -> h_names h !! l = Some i -> h_inodes h !! i = Some n -> i_kind n <> KDir ->
  h_names h !! (r, p ++ [c]) = None -> kind_at h (r, p) = Some KDir ->
  wf (set_names (<[(r, p ++ [c]) := i]> (h_names h)) h).
Proof.
  intros W Hl Hi Hk Hnone Hdir. apply wf_set_names.
  - intros l' i' [[_ <-]|[_ Hi']]%lookup_insert_Some; [eauto|]. by eapply (wf_inodes h W).
  - intros r' p' c' Hs. unfold kind_at. rewrite node_link.
    apply lookup_insert_is_Some in Hs as [[= -> Hs]|[_ Hs]].
    + apply app_inj_tail in Hs as [-> _]. rewrite decide_False by (intros [= E]; by eapply snoc_neq). done.
    + pose proof (wf_parents h W _ _ _ Hs) as Hd. case_decide as Hp; [|exact Hd].
      injection Hp as -> ->. apply kind_at_Some in Hd as (m & (j & Hj & _)%node_Some & _). congruence.
  - intros l1 l2 j m [[<- <-]|[_ H1]]%lookup_insert_Some [[<- ?]|[_ H2]]%lookup_insert_Some Hm Hkm; simplify_eq; try done.
    by eapply (wf_dirs h W).
Qed.

Lemma rebase_Some src dst l l' : rebase src dst l = Some l' <-> exists s, l = (src.1, src.2 ++ s) /\ l' = (dst.1, dst.2 ++ s).
Proof.
  destruct src as [r p], l as [r' p']. unfold rebase; cbn. case_bool_decide as Hr; [subst|naive_solver].
  rewrite fmap_Some. setoid_rewrite strip_path_Some. naive_solver.
Qed.
Lemma rebase_None src dst l : rebase src dst l = None <-> ~ under src l.
Proof.
  destruct src as [r p]. rewrite under_spec. split.
  - intros H [s ->]. assert (rebase (r, p) dst (r, p ++ s) = Some (dst.1, dst.2 ++ s)) as E by (apply rebase_Some; eauto). congruence.
  - intros H. destruct (rebase (r, p) dst l) as [l'|] eqn:E; [|done]. apply rebase_Some in E as (s & -> & _). naive_solver.
Qed.
Lemma rebase_inv src dst l l' : rebase src dst l = Some l' <-> rebase dst src l' = Some l.
Proof. rewrite !rebase_Some. naive_solver. Qed.

Lemma lookup_move_names src dst names l : ~ under src dst ->
  move_names src dst names !! l =
    match rebase dst src l with
    | Some l0 => names !! l0
    | None => if decide (under src l) then None else names !! l
    end.
Proof.
  intros Hsd. unfold move_names.
  set (L := omap (fun '(l, i) => (fun l' => (l', i)) <$> rebase src dst l) (map_to_list names)).
  assert (forall l i, (l, i) ∈ L <-> exists l0, rebase src dst l0 = Some l /\ names !! l0 = Some i) as HL.
  { intros l' i. unfold L. rewrite list_elem_of_omap. split.
    - intros ([l0 j] & Hin%elem_of_map_to_list & (l1 & Hr & [= -> ->])%fmap_Some). eauto.
    - intros (l0 & Hr & Hi). exists (l0, i). by rewrite elem_of_map_to_list, Hr. }
  assert (NoDup L.*1) as HN.
  { apply (NoDup_fmap_fst) .
    - intros x i j Hi%HL Hj%HL. destruct Hi as (l0 & H0 & Hi), Hj as (l1 & H1 & Hj).
      apply rebase_inv in H0, H1. congruence.
    - subst L. clear HL. pose proof (NoDup_map_to_list names) as HD. revert HD.
      induction (map_to_list names) as [|[l0 i] t IH]; cbn; [constructor|]. intros [Hn HD]%NoDup_cons.
      destruct (rebase src dst l0) as [l'|] eqn:E; cbn; [|by apply IH]. constructor; [|by apply IH].
      intros ([l1 j] & Hin & (l2 & Hr & [= -> ->])%fmap_Some)%list_elem_of_omap. apply Hn.
      assert (l1 = l0) as -> by (apply rebase_inv in Hr, E; congruence). done. }
  destruct (rebase dst src l) as [l0|] eqn:E.
  - apply rebase_inv in E. destruct (names !! l0) as [i|] eqn:Hi.
    + apply lookup_union_Some_l. apply elem_of_list_to_map_1; [done|]. apply HL; eauto.
    + apply lookup_union_None. split.
      * apply not_elem_of_list_to_map_1. intros ([l' i] & -> & Hin%HL)%list_elem_of_fmap. cbn in *.
        destruct Hin as (l1 & H1 & H2). apply rebase_inv in H1, E. congruence.
      * apply map_lookup_filter_None. right. intros i _ [_ Hu]. apply Hu.
        apply rebase_Some in E as (s & _ & ->). destruct dst. apply under_spec. eauto.
  - assert ((list_to_map L : gmap Loc nat) !! l = None) as Hn.
    { apply not_elem_of_list_to_map_1. intros ([l' i] & -> & Hin%HL)%list_elem_of_fmap. cbn in *.
      destruct Hin as (l1 & H1 & _). apply rebase_inv in H1. congruence. }
    rewrite lookup_union_r by done. apply rebase_None in E. case_decide as Hu.
    + apply map_lookup_filter_None. right. naive_solver.
    + destruct (names !! l) as [i|] eqn:Hi; [by apply map_lookup_filter_Some|]. apply map_lookup_filter_None. by left.
Qed.
Lemma node_moved src dst h l : ~ under src dst ->
  node (moved src dst h) l = match rebase dst src l with
                             | Some l0 => node h l0
                             | None => if decide (under src l) then None else node h l
                             end.
Proof.
  intros Hu. unfold moved. rewrite node_set_names, lookup_move_names by done.
  destruct (rebase dst src l); [done|]. by case_decide.
Qed.
Lemma kind_moved src dst h l : ~ under src dst ->
  kind_at (moved src dst h) l = match rebase dst src l with
                                | Some l0 => kind_at h l0
                                | None => if decide (under src l) then None else kind_at h l
                                end.
Proof.
  intros Hu. unfold kind_at at 1. rewrite node_moved by done. destruct (rebase dst src l); [done|]. by case_decide.
Qed.

Lemma rebase_snoc src dst r (p : Path) c :
  rebase dst src (r, p ++ [c]) =
    match rebase dst src (r, p) with
    | Some l => Some (l.1, l.2 ++ [c])
    | None => if decide ((r, p ++ [c]) = dst) then Some src else None
    end.
Proof.
  destruct (rebase dst src (r, p)) as [l|] eqn:E.
  - apply rebase_Some in E as (s & [= -> ->] & ->). apply rebase_Some. exists (s ++ [c]). cbn. by rewrite !app_assoc.
  - apply rebase_None in E. case_decide as Hd.
    + subst dst. apply rebase_Some. exists []. rewrite !app_nil_r. by destruct src.
    + apply rebase_None. destruct dst as [r' p']. intros Hu.
      pose proof (proj1 (under_spec _ _ _) Hu) as [s [= -> _]]. apply under_snoc in Hu as [?| ->]; [done|]. by apply Hd.
Qed.

(** Renaming keeps trees well-formed: the new directory exists and is not part
    of what moves. *)
Lemma wf_moved src r (p : Path) c h : wf h -> ~ under src (r, p ++ [c]) ->
  kind_at h (r, p) = Some KDir ->
  wf (moved src (r, p ++ [c]) h).
Proof.
  intros W Hu Hdir. set (dst := (r, p ++ [c])) in *.
  assert (forall l i, move_names src dst (h_names h) !! l = Some i ->
    exists l0, h_names h !! l0 = Some i /\ (rebase dst src l = Some l0 \/ (rebase dst src l = None /\ l0 = l /\ ~ under src l))) as Hcase.
  { intros l i. rewrite lookup_move_names by done. destruct (rebase dst src l) as [l0|] eqn:E; [eauto|].
    case_decide; [done|]. eauto 6. }
  apply wf_set_names.
  - intros l i (l0 & Hi & _)%Hcase. by eapply (wf_inodes h W).
  - intros r' p' c' [i Hi]. change (kind_at (moved src dst h) (r', p') = Some KDir). rewrite kind_moved by done.
    pose proof (Hcase _ _ Hi) as (l0 & Hl0 & Hc). rewrite rebase_snoc in Hc.
    destruct (rebase dst src (r', p')) as [l1|] eqn:E.
    + destruct Hc as [[= <-]|[? _]]; [|done]. destruct l1. eapply (wf_parents h W); eauto.
    + case_decide as Hd.
      * injection Hd as -> Hd. apply app_inj_tail in Hd as [-> _]. rewrite decide_False; [done|].
        intros Hus. apply Hu. unfold dst. apply rebase_None in E. destruct src as [rs ps].
        pose proof (proj1 (under_spec _ _ _) Hus) as [s [= -> ->]]. apply under_snoc. by left.
      * destruct Hc as [?|(_ & -> & Hnu)]; [done|]. rewrite decide_False; [eapply (wf_parents h W); eauto|].
        intros Hus. apply Hnu. destruct src as [rs ps]. pose proof (proj1 (under_spec _ _ _) Hus) as [s [= -> ->]].
        apply under_snoc. by left.
  - intros l l' i n (l0 & Hi & Hc)%Hcase (l1 & Hi' & Hc')%Hcase Hn Hk.
    assert (l0 = l1) as -> by (by eapply (wf_dirs h W)).
    destruct Hc as [Hc|(Hc & -> & Hnu)], Hc' as [Hc'|(Hc' & -> & Hnu')].
    + apply rebase_inv in Hc, Hc'. congruence.
    + exfalso. apply Hnu'. apply rebase_Some in Hc as (s & _ & ->). destruct src. apply under_spec. eauto.
    + exfalso. apply Hnu. apply rebase_Some in Hc' as (s & _ & ->). destruct src. apply under_spec. eauto.
    + done.
Qed.

(** ** Changed objects *)

Lemma node_update h l f i n l' : h_names h !! l = Some i -> h_inodes h !! i = Some n ->
  node (set_inodes (<[i := f n]> (h_inodes h)) h) l' = if decide (h_names h !! l' = Some i) then Some (f n) else node h l'.
Proof.
  intros Hi Hn. unfold node. cbn. destruct (h_names h !! l') as [j|] eqn:E; cbn; [|done].
  case_decide as Hj; [injection Hj as ->; by rewrite lookup_insert_eq|].
  rewrite lookup_insert_ne; [done|congruence].
Qed.
(** A change that keeps the type and the contents. *)
Lemma kind_update_attr h l f i n l' : h_names h !! l = Some i -> h_inodes h !! i = Some n -> i_kind (f n) = i_kind n ->
  kind_at (set_inodes (<[i := f n]> (h_inodes h)) h) l' = kind_at h l'.
Proof.
  intros Hi Hn Hk. unfold kind_at. rewrite (node_update h l f i n l' Hi Hn). case_decide as Hj; [|done].
  unfold node. rewrite Hj. cbn. rewrite Hn. cbn. by rewrite Hk.
Qed.
Lemma wf_update h l f i n : wf h -> h_names h !! l = Some i -> h_inodes h !! i = Some n ->
  (i_kind n = KDir <-> i_kind (f n) = KDir) -> wf (set_inodes (<[i := f n]> (h_inodes h)) h).
Proof.
  intros W Hi Hn Hk. constructor; cbn.
  - intros l' j Hj. apply lookup_insert_is_Some. destruct (decide (i = j)); [by left|right; split; [done|]]. by eapply (wf_inodes h W).
  - intros r p c Hs. pose proof (wf_parents h W r p c Hs) as (m & Hm & Hkm)%kind_at_Some. unfold kind_at.
    rewrite (node_update h l f i n _ Hi Hn). case_decide as Hj; cbn.
    + f_equal. apply Hk. apply node_Some in Hm as (j & ? & ?). congruence.
    + rewrite Hm. cbn. congruence.
  - intros l1 l2 j m H1 H2 Hm Hkm. apply lookup_insert_Some in Hm as [[<- <-]|[_ Hm]]; [|by eapply (wf_dirs h W)].
    eapply (wf_dirs h W); eauto. by apply Hk.
Qed.

(** ** Links *)

(** Every name has an inode; each call keeps this, whatever its outcome. *)
Definition tracked (h : Host) : Prop := forall l i, h_names h !! l = Some i -> is_Some (h_inodes h !! i).

Definition links (names : gmap Loc nat) (i : nat) : nat := length (filter (fun '(_, j) => j = i) (map_to_list names)).
(** An injection of the names of an inode bounds their number. *)
Lemma links_le (g : Loc -> Loc) names names' i :
  (forall l, names' !! l = Some i -> names !! g l = Some i) ->
  (forall l l', names' !! l = Some i -> names' !! l' = Some i -> g l = g l' -> l = l') -> links names' i <= links names i.
Proof.
  intros Hg Hinj. unfold links.
  assert (forall m l j, (l, j) ∈ filter (fun '(_, j) => j = i) (map_to_list (m : gmap Loc nat)) <-> j = i /\ m !! l = Some i) as Hin.
  { intros m l j. rewrite list_elem_of_filter, elem_of_map_to_list. naive_solver. }
  rewrite <- (length_fmap (fun '(l, j) => (g l, j))). apply submseteq_length, NoDup_submseteq.
  - apply NoDup_fmap_2_strong; [|apply NoDup_filter, NoDup_map_to_list].
    intros [l j] [l' j'] [-> H1]%Hin [-> H2]%Hin [= E]. by rewrite (Hinj l l').
  - intros [l j] ([l' j'] & [= -> ->] & [-> H1]%Hin)%list_elem_of_fmap. apply Hin. auto.
Qed.
Lemma links_subseteq names names' i : (forall l, names' !! l = Some i -> names !! l = Some i) -> links names' i <= links names i.
Proof. intros Hs. by apply (links_le id). Qed.
Lemma links_one names i l : (forall l', names !! l' = Some i -> l' = l) -> links names i <= 1.
Proof.
  intros Hs. transitivity (links {[l := i]} i).
  - apply links_subseteq. intros l' Hl. rewrite (Hs l' Hl). by rewrite lookup_singleton_eq.
  - unfold links. rewrite map_to_list_singleton. cbn. rewrite decide_True by done. done.
Qed.
Lemma nlink_links h i : nlink h i = links (h_names h) i + from_option i_other_links 0 (h_inodes h !! i).
Proof. done. Qed.

(** What a step may do to links: a name it leaves has no more links than it had,
    and any other name is the only one of its inode. *)
Definition fresh_links (h h' : Host) : Prop := forall l i, h_names h' !! l = Some i ->
  (h_names h !! l = Some i /\ nlink h' i <= nlink h i) \/ nlink h' i <= 1.

Lemma fresh_links_refl h : fresh_links h h.
Proof. intros l i Hi. by left. Qed.
Lemma fresh_links_trans h1 h2 h3 : fresh_links h1 h2 -> fresh_links h2 h3 -> fresh_links h1 h3.
Proof.
  intros F1 F2 l i H3. destruct (F2 l i H3) as [[H2 N2]|?]; [|by right]. destruct (F1 l i H2) as [[H1 N1]|N1]; [left; split; [done|lia]|right; lia].
Qed.
Lemma fresh_same h h' : h_names h' = h_names h -> h_inodes h' = h_inodes h -> fresh_links h h'.
Proof. intros E1 E2 l i. unfold nlink. rewrite E1, E2. by left. Qed.
Lemma fresh_update h f i n : (forall n, i_other_links (f n) = i_other_links n) -> h_inodes h !! i = Some n ->
  fresh_links h (set_inodes (<[i := f n]> (h_inodes h)) h).
Proof.
  intros Hf Hn l' j Hj. left. split; [done|]. rewrite !nlink_links. cbn. destruct (decide (i = j)) as [->|].
  - by rewrite lookup_insert_eq, Hn; cbn; rewrite Hf.
  - by rewrite lookup_insert_ne.
Qed.
Lemma fresh_add h l n : tracked h -> h_names h !! l = None -> i_other_links n = 0 -> fresh_links h (add_inode l n h).
Proof.
  intros T Hl Hn l' j. cbn. rewrite lookup_insert_Some. intros [[<- <-]|[Hne Hj]].
  - right. rewrite nlink_links. cbn. rewrite lookup_insert_eq. cbn. rewrite Hn, Nat.add_0_r. apply (links_one _ _ l). intros l'.
    rewrite lookup_insert_Some. intros [[-> _]|[_ Hi]]; [done|]. apply T in Hi. rewrite fresh_ino_fresh in Hi. by destruct Hi.
  - left. split; [done|]. assert (j <> fresh_ino h) as Hf by (intros ->; apply T in Hj; rewrite fresh_ino_fresh in Hj; by destruct Hj).
    rewrite !nlink_links. cbn. rewrite lookup_insert_ne by done. apply Nat.add_le_mono_r, links_subseteq. intros k.
    rewrite lookup_insert_Some. intros [[_ ?]|[_ ?]]; [done|done].
Qed.
Lemma fresh_fewer h names : (forall l i, names !! l = Some i -> h_names h !! l = Some i) -> fresh_links h (set_names names h).
Proof.
  intros Hs l i Hi. left. split; [by apply Hs|]. rewrite !nlink_links. cbn. apply Nat.add_le_mono_r, links_subseteq. intros k. apply Hs.
Qed.
(** A move of names that the first host does not have. *)
Lemma fresh_moved h0 h src dst : fresh_links h0 h -> (forall l, under src l -> h_names h0 !! l = None) -> ~ under src dst ->
  fresh_links h0 (moved src dst h).
Proof.
  intros F Hnone Hu.
  assert (forall i, nlink (moved src dst h) i <= nlink h i) as Hle.
  { intros i. rewrite !nlink_links. cbn. apply Nat.add_le_mono_r.
    apply (links_le (fun l => default l (rebase dst src l))).
    - intros l. rewrite lookup_move_names by done. destruct (rebase dst src l); cbn; [done|]. by case_decide.
    - intros l l'. rewrite !lookup_move_names by done. destruct (rebase dst src l) as [l1|] eqn:E1, (rebase dst src l') as [l2|] eqn:E2; cbn.
      + intros _ _ ->. apply rebase_inv in E1, E2. congruence.
      + intros _ Hl' ->. exfalso. apply rebase_Some in E1 as (s & _ & ->). rewrite decide_True in Hl'; [done|]. destruct src. apply under_spec. eauto.
      + intros Hl _ <-. exfalso. apply rebase_Some in E2 as (s & _ & ->). rewrite decide_True in Hl; [done|]. destruct src. apply under_spec. eauto.
      + done. }
  intros l i Hi. specialize (Hle i). cbn in Hi. rewrite lookup_move_names in Hi by done. destruct (rebase dst src l) as [l0|] eqn:E.
  - right. destruct (F l0 i Hi) as [[H0 _]|?]; [|lia]. exfalso. rewrite Hnone in H0; [done|].
    apply rebase_Some in E as (s & _ & ->). destruct src. apply under_spec. eauto.
  - destruct (decide (under src l)); [done|]. destruct (F l i Hi) as [[? ?]|?]; [left; split; [done|lia]|right; lia].
Qed.

(** *** The calls *)

(** A call keeps names on inodes and makes no links. *)
Definition Linkless (f : HostCall unit) : Prop := forall h, tracked h -> tracked (f h).2 /\ fresh_links h (f h).2.

Lemma linkless_in_directory l f : Linkless f -> Linkless (in_directory l f).
Proof. intros Hf h T. unfold in_directory. destruct (reach h l); [by apply Hf|by split; [|apply fresh_links_refl]..|]. by split; [|apply fresh_same]. Qed.
Lemma tracked_add h l n : tracked h -> tracked (add_inode l n h).
Proof.
  intros T l' i. cbn. rewrite lookup_insert_Some, lookup_insert_is_Some. intros [[_ <-]|[_ Hi]]; [by left|].
  destruct (decide (fresh_ino h = i)); [by left|right; split; [done|by eapply T]].
Qed.
Lemma linkless_create l k perm : Linkless (fs_create l k perm).
Proof.
  apply linkless_in_directory. intros h T. destruct (h_names h !! l) eqn:E; cbn; [by split; [|apply fresh_links_refl]|].
  split; [by apply tracked_add|by apply fresh_add].
Qed.
Lemma linkless_update l f : (forall n, i_other_links (f n) = i_other_links n) -> Linkless (fs_update l f).
Proof.
  intros Hf. apply linkless_in_directory. intros h T. destruct (_ ≫= _) as [[i n]|] eqn:E; cbn; [|by split; [|apply fresh_links_refl]].
  apply bind_Some in E as (j & Hj & (m & Hm & [= <- <-])%fmap_Some). split; [|by apply fresh_update].
  intros l' i'. cbn. rewrite lookup_insert_is_Some. intros Hi'. destruct (decide (i = i')); [by left|right; split; [done|by eapply T]].
Qed.
Lemma linkless_fewer h names : tracked h -> (forall l i, names !! l = Some i -> h_names h !! l = Some i) ->
  tracked (set_names names h) /\ fresh_links h (set_names names h).
Proof. intros T Hs. split; [intros l i Hi; cbn in *; by eapply T, Hs|by apply fresh_fewer]. Qed.
Lemma linkless_remove_file l : Linkless (fs_remove_file l).
Proof.
  apply linkless_in_directory. intros h T. destruct (kind_at h l) as [[]|]; cbn; try (by split; [|apply fresh_links_refl]);
    (apply linkless_fewer; [done|]; by intros l' i [_ ?]%lookup_delete_Some).
Qed.
Lemma linkless_remove_dir l : Linkless (fs_remove_dir l).
Proof.
  apply linkless_in_directory. intros h T. destruct (kind_at h l) as [[]|]; cbn; try (by split; [|apply fresh_links_refl]).
  destruct (bool_decide _); cbn; [|by split; [|apply fresh_links_refl]].
  apply linkless_fewer; [done|]. by intros l' i [_ ?]%lookup_delete_Some.
Qed.
Lemma tracked_moved h src dst : tracked h -> ~ under src dst -> tracked (moved src dst h).
Proof.
  intros T Hu l i Hi. cbn in *. rewrite lookup_move_names in Hi by done. destruct (rebase dst src l); [by eapply T|].
  destruct (decide (under src l)); [done|by eapply T].
Qed.
Lemma rename_fresh h0 h src dst : tracked h -> fresh_links h0 h -> (forall l, under src l -> h_names h0 !! l = None) ->
  tracked (fs_rename src dst h).2 /\ fresh_links h0 (fs_rename src dst h).2.
Proof.
  intros T F Hnone. unfold fs_rename, in_directory.
  assert (tracked (escape h) /\ fresh_links h0 (escape h)) as Hesc by done.
  destruct (reach h src); [|by split..|done]. destruct (reach h dst); [|by split..|done].
  destruct (h_names h !! src) as [i|]; [|by split]. destruct (kind_at h src) as [k|]; [|by split].
  destruct (bool_decide (src = dst)); [by split|]. case_bool_decide as Hu; [by split|].
  assert (tracked (moved src dst h) /\ fresh_links h0 (moved src dst h)) as Hm by (split; [by apply tracked_moved|by apply fresh_moved]).
  destruct (h_names h !! dst) as [j|], (kind_at h dst) as [k'|]; try done. destruct (bool_decide (i = j)); [by split|].
  destruct (is_dir k), (is_dir k'); try done; try (by split). destruct (bool_decide _); [done|by split].
Qed.
