(* ===== verification/Overlay.v ===== *)
(** * The overlay: the merged view and its changes

    [pvisor-overlay-core/src/core.rs]: a writable upper tree over read-only
    lower trees. A name of the upper hides the same name of the lowers; a
    whiteout file hides a name of the lowers; an opaque directory hides all of
    them. The operations change the upper only: they copy up what they touch,
    record the state of the target before the first change of a path, and leave
    whiteouts behind for what they remove.

    The file system is that of [HostFs]. Operations run one after the other, as
    the adapters of the overlay serialise changes. Each changing call takes the
    next outcome of the machine from [w_faults]. Places that read-only backends
    are attached to, copies prepared ahead of an operation, private backing and
    the caches of physical observations are not part of this file; without them
    the code behaves as written here. *)
From stdpp Require Import base tactics list strings gmap pretty.
From Stdlib Require Import ZArith Lia Ascii.
From S2P Require Import Prelude RustStr FileAccess HostFs.
Local Open Scope string_scope.

Definition WHITEOUT_PREFIX : string := ".wh.".
Definition OPAQUE_NAME : string := ".wh..wh..opq".
Definition ROOT_METADATA_NAME : string := ".wh..pvisor-root-metadata".
Definition PRIVATE_BACKING_XATTR : string := "user.pvisor.private_backing".
Definition OVERRIDE_STAT_XATTR : string := "user.containers.override_stat".
Definition TEMP_PREFIX : string := ".wh..pvisor-copyup-".
Definition OPAQUE_XATTRS : list string := ["trusted.overlay.opaque"; "user.overlay.opaque"; "user.fuseoverlayfs.opaque"].

(** ** Interfaces *)

(** What the overlay asks the file access policy. *)
Class AccessOps := {
  acc_denied : Path -> bool;
  acc_check : Path -> bool;
  acc_has_denials : bool
}.
(** Only a policy with denials refuses, and a path that passes is not denied. *)
Class AccessLaws `{AccessOps} : Prop := {
  acc_open_denied p : acc_has_denials = false -> acc_denied p = false;
  acc_open_check p : acc_has_denials = false -> acc_check p = true;
  acc_check_denied p : acc_check p = true -> acc_denied p = false
}.
(** The digest of the crate [sha2], in hexadecimal. *)
Class Digest256 := sha256_hex : string -> string.

(** ** Fingerprints *)

Inductive XattrFingerprint := XattrUnsupported | XattrValues (entries : list (string * string)).
Inductive PathFingerprint :=
| FpAbsent
| FpFile (sha256 : string) (mode uid gid : Z) (xattrs : option XattrFingerprint)
| FpDirectory (mode uid gid mtime_seconds mtime_nanoseconds : Z) (xattrs : option XattrFingerprint)
| FpSymlink (target : string) (uid gid : Z) (xattrs : option XattrFingerprint)
| FpOther (mode uid gid rdev : Z) (xattrs : option XattrFingerprint).
#[export] Instance xattr_fingerprint_eq_dec : EqDecision XattrFingerprint.
Proof. solve_decision. Defined.
#[export] Instance path_fingerprint_eq_dec : EqDecision PathFingerprint.
Proof. solve_decision. Defined.

Definition fp_xattrs (f : PathFingerprint) : option XattrFingerprint :=
  match f with
  | FpAbsent => None
  | FpFile _ _ _ _ x | FpDirectory _ _ _ _ _ x | FpSymlink _ _ _ x | FpOther _ _ _ _ x => x
  end.
Definition fp_without_xattrs (f : PathFingerprint) : PathFingerprint :=
  match f with
  | FpAbsent => FpAbsent
  | FpFile s m u g _ => FpFile s m u g None
  | FpDirectory m u g t n _ => FpDirectory m u g t n None
  | FpSymlink t u g _ => FpSymlink t u g None
  | FpOther m u g r _ => FpOther m u g r None
  end.
(** [PathFingerprint::matches]. *)
Definition fp_matches (f current : PathFingerprint) : bool :=
  match fp_xattrs f with
  | Some _ => bool_decide (f = current)
  | None => bool_decide (f = fp_without_xattrs current)
  end.

(** [str::parse::<u32>] and [u32::from_str_radix]: a sign [+] is accepted. *)
Definition digit_of (radix : Z) (c : ascii) : option Z :=
  let v := byte_val c in
  if is_ascii_digit c && (v - 48 <? radix)%Z then Some (v - 48)%Z else None.
Fixpoint parse_digits (radix acc : Z) (s : bytes) : option Z :=
  match s with
  | [] => Some acc
  | c :: s =>
      d ← digit_of radix c;
      let acc := (acc * radix + d)%Z in
      if (u32_max <? acc)%Z then None else parse_digits radix acc s
  end.
Definition parse_u32 (radix : Z) (s : string) : option Z :=
  match to_bytes s with
  | [] => None
  | c :: rest =>
      if bool_decide (c = "+"%char) then (if bool_decide (rest = []) then None else parse_digits radix 0 rest)
      else parse_digits radix 0 (c :: rest)
  end.

Record UnixIdentity := mkIdentity { id_uid : Z; id_gid : Z; id_mode : Z }.
(** [UnixIdentity::parse]. *)
Definition identity_parse (value : string) : Result IoErr UnixIdentity :=
  match split ":"%char value with
  | [u; g; m] =>
      uid ← ok_or (parse_u32 10 u) EIO;
      gid ← ok_or (parse_u32 10 g) EIO;
      mode ← ok_or (parse_u32 8 m) EIO;
      Ok (mkIdentity uid gid mode)
  | _ => Err EIO
  end.

Definition S_IFMT : Z := 61440.
Definition type_bits (k : Kind) : Z :=
  match k with KDir => 16384 | KFile _ => 32768 | KSymlink _ => 40960 | KNode type _ => type end.
(** [Metadata::mode]. *)
Definition full_mode (n : Inode) : Z := Z.lor (type_bits (i_kind n)) (i_perm n).

Definition is_private_metadata_xattr (name : string) : bool :=
  bool_decide (name = PRIVATE_BACKING_XATTR) || bool_decide (name = OVERRIDE_STAT_XATTR).
Definition is_opaque_xattr (name : string) : bool := bool_decide (name ∈ OPAQUE_XATTRS).

Definition string_leb (a b : string) : bool := String.leb a b.
Definition pair_leb (a b : string * string) : bool :=
  match String.compare a.1 b.1 with Lt => true | Gt => false | Eq => String.leb a.2 b.2 end.

Section Fingerprint.
Context `{Digest256}.

Definition fingerprint_xattrs (n : Inode) : Result IoErr (XattrFingerprint * option UnixIdentity) :=
  let names := filter (fun '(name, _) => is_opaque_xattr name = false) (map_to_list (i_xattrs n)) in
  identity ← match i_xattrs n !! OVERRIDE_STAT_XATTR with
             | Some value => id ← identity_parse value; Ok (Some id)
             | None => Ok None
             end;
  Ok (XattrValues (sort_by pair_leb
        ((fun '(name, value) => (name, sha256_hex value)) <$>
           filter (fun '(name, _) => is_private_metadata_xattr name = false) names)), identity).

(** [fingerprint_with_index] of an object, without an index. *)
Definition fingerprint_inode (n : Inode) : Result IoErr PathFingerprint :=
  '(xattrs, saved) ← fingerprint_xattrs n;
  let mode := match saved with
              | Some a => if (Z.land (id_mode a) S_IFMT =? 0)%Z
                          then Z.lor (Z.land (full_mode n) S_IFMT) (id_mode a) else id_mode a
              | None => full_mode n
              end in
  let uid := from_option id_uid (i_uid n) saved in
  let gid := from_option id_gid (i_gid n) saved in
  Ok match i_kind n with
     | KFile bytes => FpFile (sha256_hex bytes) mode uid gid (Some xattrs)
     | KDir => FpDirectory mode uid gid (i_mtime n).1 (i_mtime n).2 (Some xattrs)
     | KSymlink target => FpSymlink target uid gid (Some xattrs)
     | KNode _ rdev => FpOther mode uid gid rdev (Some xattrs)
     end.
End Fingerprint.

(** ** The overlay *)

(** What is fixed when an overlay is opened: the number of lowers, the last of
    which is the baseline that changes are applied to. *)
Record OverlayCore := mkCore {
  oc_lowers : nat;
  oc_frozen_baseline : bool;
  oc_has_work : bool;
  oc_has_journal : bool;
  oc_record_observations : bool;
  oc_stage_writable : bool;
  oc_strict : bool;
  oc_excluded : list Path;
  oc_process : string
}.

(** Failures of the machine that any changing call can meet. *)
Inductive Failure := FailIo | FailNoSpace | FailQuota | FailOpenFiles | FailAccess | FailPermission | FailReadOnly | FailUnsupported.
Definition failure_errno (f : Failure) : IoErr :=
  Errno match f with
        | FailIo => 5 | FailNoSpace => 28 | FailQuota => 122 | FailOpenFiles => 24 | FailAccess => 13
        | FailPermission => 1 | FailReadOnly => 30 | FailUnsupported => 95
        end.

(** What changes: the file system, the failures to come, the upper paths that
    share a copied inode and its source, the journal of first observations, the
    paths whose observation is synced, and the counter of temporary names. *)
Record World := mkWorld {
  w_host : Host;
  w_faults : list (option Failure);
  w_groups : gmap nat (list Path);
  w_sources : gmap nat Loc;
  w_preimages : gmap Path PathFingerprint;
  w_synced : gset Path;
  w_temp : nat
}.

Definition Op (A : Type) : Type := World -> Result IoErr A * World.
#[export] Instance op_ret : MRet Op := fun A a w => (Ok a, w).
#[export] Instance op_bind : MBind Op := fun A B f m w =>
  match m w with (Ok a, w') => f a w' | (Err e, w') => (Err e, w') end.

Definition raise {A} (e : IoErr) : Op A := fun w => (Err e, w).
Definition lift {A} (r : Result IoErr A) : Op A := fun w => (r, w).
(** Reading the file system. *)
Definition reading {A} (f : Host -> Result IoErr A) : Op A := fun w => (f (w_host w), w).
Definition asking {A} (f : Host -> A) : Op A := fun w => (Ok (f (w_host w)), w).

Definition set_host (h : Host) (w : World) : World :=
  mkWorld h (w_faults w) (w_groups w) (w_sources w) (w_preimages w) (w_synced w) (w_temp w).
Definition drop_fault (w : World) : World :=
  mkWorld (w_host w) (tail (w_faults w)) (w_groups w) (w_sources w) (w_preimages w) (w_synced w) (w_temp w).
Definition set_groups (groups : gmap nat (list Path)) (sources : gmap nat Loc) (w : World) : World :=
  mkWorld (w_host w) (w_faults w) groups sources (w_preimages w) (w_synced w) (w_temp w).
Definition set_preimages (pre : gmap Path PathFingerprint) (synced : gset Path) (w : World) : World :=
  mkWorld (w_host w) (w_faults w) (w_groups w) (w_sources w) pre synced (w_temp w).

(** A call of the host, after the next outcome of the machine. *)
Definition fault : Op unit := fun w =>
  match w_faults w with Some e :: _ => (Err (failure_errno e), drop_fault w) | _ => (Ok tt, drop_fault w) end.
Definition call (f : HostCall unit) : Op unit := fun w =>
  match fault w with
  | (Ok _, w) => let '(r, h) := f (w_host w) in (r, set_host h w)
  | (Err e, w) => (Err e, w)
  end.
(** [let _ = call]; a [match] on the error of a call. *)
Definition ignore {A} (m : Op A) : Op unit := fun w => let '(_, w) := m w in (Ok tt, w).
Definition unless_error (ok : IoErr -> bool) (m : Op unit) : Op unit := fun w =>
  match m w with (Err e, w) => (if ok e then Ok tt else Err e, w) | r => r end.
Definition on_error {A} (m : Op A) (cleanup : Op unit) : Op A := fun w =>
  match m w with (Err e, w) => (Err e, (cleanup w).2) | r => r end.

Definition if_then (b : bool) (m : Op unit) : Op unit := if b then m else mret tt.
Fixpoint op_for {A} (f : A -> Op unit) (l : list A) : Op unit :=
  match l with [] => mret tt | x :: l => _ ← f x; op_for f l end.

Definition ignorable_metadata_error (e : IoErr) : bool :=
  bool_decide (e = EPERM) || bool_decide (e = EACCES) || bool_decide (e = ENOTSUP).
Definition ignorable_ownership_error (e : IoErr) : bool := ignorable_metadata_error e || bool_decide (e = EINVAL).

(** *** Names *)

(** [Component::Normal]. *)
Definition normal_component (c : string) : bool :=
  negb (is_empty c || (c =? ".") || (c =? "..") || contains "/"%char c).
Definition validate_rel (rel : Path) : Result IoErr unit := ensure (forallb normal_component rel) EINVAL.
Definition is_whiteout_name (name : string) : bool := starts_with name WHITEOUT_PREFIX.
Definition validate_name (name : string) : Result IoErr unit :=
  ensure (negb (is_empty name || (name =? ".") || (name =? "..") || contains "/"%char name || contains (chr 0) name
                || is_whiteout_name name)) EINVAL.
Definition child (parent : Path) (name : string) : Result IoErr Path :=
  _ ← validate_rel parent; _ ← validate_name name; Ok (parent ++ [name])%list.

Definition whiteout_path (parent : Path) (name : string) : Loc := (Upper, (parent ++ [WHITEOUT_PREFIX +:+ name])%list).

Definition exists_at (h : Host) (l : Loc) : bool := is_ok (lstat h l).
Definition is_whiteouted (h : Host) (parent : Path) (name : string) : bool := exists_at h (whiteout_path parent name).
(** [is_opaque_directory]. *)
Definition is_opaque_directory (h : Host) (l : Loc) : bool :=
  exists_at h (l.1, (l.2 ++ [OPAQUE_NAME])%list)
  || match lstat h l with
     | Ok (_, n) => existsb (fun name => bool_decide (i_xattrs n !! name = Some "y")) OPAQUE_XATTRS
     | Err _ => false
     end.
Definition is_opaque (h : Host) (rel : Path) : bool := is_opaque_directory h (Upper, rel).

(** *** One layer *)

Inductive LayerMetadata := Entry (ino : nat) (n : Inode) | MissingLeaf | UnavailableParent.
Definition into_entry (m : LayerMetadata) : option (nat * Inode) :=
  match m with Entry i n => Some (i, n) | _ => None end.

(** The directories of each layer that a walk has already checked. *)
Definition CheckedDirectories := list (Root * nat).
Definition checked_depth (checked : CheckedDirectories) (r : Root) : nat :=
  from_option snd 0%nat (List.find (fun '(r', _) => bool_decide (r' = r)) checked).
Fixpoint observe_checked (checked : CheckedDirectories) (r : Root) (depth : nat) : CheckedDirectories :=
  match checked with
  | [] => [(r, depth)]
  | (r', d) :: rest =>
      if bool_decide (r' = r) then (r', Nat.max d depth) :: rest else (r', d) :: observe_checked rest r depth
  end.
Definition observe_opt (checked : option CheckedDirectories) (r : Root) (depth : nat) : option CheckedDirectories :=
  (fun c => observe_checked c r depth) <$> checked.

(** The loop over the parents: [None] when one is not a directory. *)
Fixpoint check_parents (h : Host) (r : Root) (known index : nat) (at_ rest : Path) (parents : list nat)
    (checked : option CheckedDirectories) : Result IoErr (option (list nat) * option CheckedDirectories) :=
  match rest with
  | [] => Ok (Some parents, checked)
  | c :: rest =>
      let at_ := (at_ ++ [c])%list in
      if (index <? known)%nat then check_parents h r known (S index) at_ rest parents checked
      else
        match lstat h (r, at_) with
        | Ok (i, n) =>
            if is_dir (i_kind n)
            then check_parents h r known (S index) at_ rest (parents ++ [i])%list (observe_opt checked r (S index))
            else Ok (None, checked)
        | Err e => if bool_decide (e = ENOENT) then Ok (None, checked) else Err e
        end
  end.

(** [layer_metadata_with_parents]: the entry, the identities of its parents, and
    the directories checked so far. *)
Definition layer_metadata_with_parents (h : Host) (r : Root) (rel : Path) (checked : option CheckedDirectories)
    : Result IoErr (LayerMetadata * list nat * option CheckedDirectories) :=
  _ ← validate_rel rel;
  let known := from_option (fun c => checked_depth c r) 0%nat checked in
  '(parents, checked) ←
     (if (known <? length (parent_of rel))%nat then check_parents h r known 0 [] (parent_of rel) [] checked
      else Ok (Some [], checked));
  match parents with
  | None => Ok (UnavailableParent, [], checked)
  | Some parents =>
      match lstat h (r, rel) with
      | Ok (i, n) => Ok (Entry i n, parents, if is_dir (i_kind n) then observe_opt checked r (length rel) else checked)
      | Err e => if bool_decide (e = ENOENT) then Ok (MissingLeaf, parents, checked) else Err e
      end
  end.
Definition layer_metadata (h : Host) (r : Root) (rel : Path) : Result IoErr (option (nat * Inode)) :=
  '(m, _, _) ← layer_metadata_with_parents h r rel None; Ok (into_entry m).

(** *** Resolution *)

Record ResolvedMetadata := mkResolved { rm_path : Loc; rm_ino : nat; rm_node : Inode }.
Definition rm_is_upper (m : ResolvedMetadata) : bool := bool_decide ((rm_path m).1 = Upper).

Section Core.
Context (core : OverlayCore) `{AccessOps, Digest256}.

Definition is_excluded_prefix (rel : Path) : bool := existsb (path_starts_with rel) (oc_excluded core).
Definition is_excluded (rel : Path) : bool := acc_denied rel || is_excluded_prefix rel.
Definition require_visible (rel : Path) : Result IoErr unit :=
  _ ← validate_rel rel;
  _ ← ensure (acc_check rel) EACCES;
  ensure (negb (is_excluded_prefix rel)) ENOENT.

Definition require_unaliased_metadata (h : Host) (i : nat) (n : Inode) : Result IoErr unit :=
  ensure (negb (acc_has_denials && is_file (i_kind n) && (1 <? nlink h i)%nat)) EACCES.
Definition require_unaliased (h : Host) (l : Loc) : Result IoErr unit :=
  if acc_has_denials then '(i, n) ← lstat h l; require_unaliased_metadata h i n else Ok tt.

(** The first lower, from [index] on, that has the path. *)
Fixpoint resolve_lowers (h : Host) (rel : Path) (checked : option CheckedDirectories) (count index : nat)
    : Result IoErr (option (ResolvedMetadata * list nat) * option CheckedDirectories) :=
  match count with
  | O => Ok (None, checked)
  | S count =>
      '(m, parents, checked) ← layer_metadata_with_parents h (Lower index) rel checked;
      match m with
      | Entry i n => Ok (Some (mkResolved (Lower index, rel) i n, parents), checked)
      | _ => resolve_lowers h rel checked count (S index)
      end
  end.

Definition resolve_component_metadata_with_parents (h : Host) (rel : Path) (checked : option CheckedDirectories)
    : Result IoErr (option (ResolvedMetadata * list nat) * option CheckedDirectories) :=
  '(m, parents, checked) ← layer_metadata_with_parents h Upper rel checked;
  match m with
  | Entry i n => Ok (Some (mkResolved (Upper, rel) i n, parents), checked)
  | MissingLeaf =>
      name ← ok_or (last rel) EINVAL;
      if is_whiteouted h (parent_of rel) name || is_opaque h (parent_of rel) then Ok (None, checked)
      else resolve_lowers h rel checked (oc_lowers core) 0
  | UnavailableParent => resolve_lowers h rel checked (oc_lowers core) 0
  end.
Definition resolve_component_metadata (h : Host) (rel : Path) : Result IoErr (option ResolvedMetadata) :=
  '(r, _) ← resolve_component_metadata_with_parents h rel None; Ok (option_map fst r).

(** The loop of [resolve_metadata_walk] from the prefix [at_]. *)
Fixpoint resolve_from (h : Host) (at_ rest : Path) (checked : option CheckedDirectories)
    : Result IoErr (option (ResolvedMetadata * list nat)) :=
  match rest with
  | [] => Ok None
  | c :: rest =>
      let at_ := (at_ ++ [c])%list in
      let final := bool_decide (rest = []) in
      '(item, checked') ← resolve_component_metadata_with_parents h at_ (if final then None else checked);
      match item with
      | None => Ok None
      | Some (item, parents) =>
          _ ← require_unaliased_metadata h (rm_ino item) (rm_node item);
          if final then Ok (Some (item, parents))
          else if is_dir (i_kind (rm_node item)) then resolve_from h at_ rest checked'
          else Err ENOTDIR
      end
  end.
Definition resolve_metadata_walk (reuse : bool) (h : Host) (rel : Path) : Result IoErr (option (ResolvedMetadata * list nat)) :=
  _ ← require_visible rel;
  if bool_decide (rel = []) then
    '(i, n) ← lstat h (Upper, []); Ok (Some (mkResolved (Upper, []) i n, []))
  else resolve_from h [] rel (if reuse && (2 <? length rel)%nat then Some [] else None).
Definition resolve_metadata_checked (h : Host) (rel : Path) : Result IoErr (option ResolvedMetadata) :=
  r ← resolve_metadata_walk true h rel; Ok (option_map fst r).

(** *** First observations *)

Definition baseline : Root := Lower (pred (oc_lowers core)).
(** [fingerprint_at] of the baseline. *)
Definition fingerprint_at (h : Host) (r : Root) (rel : Path) : Result IoErr PathFingerprint :=
  m ← layer_metadata h r rel;
  match m with None => Ok FpAbsent | Some (_, n) => fingerprint_inode n end.

Definition mark_synced (rel : Path) : Op unit := fun w =>
  (Ok tt, set_preimages (w_preimages w) ({[rel]} ∪ w_synced w) w).
Definition publish_preimage (rel : Path) (state : PathFingerprint) : Op unit := fun w =>
  (Ok tt, set_preimages (<[rel := state]> (w_preimages w)) (w_synced w) w).
Definition has_preimage (rel : Path) : Op bool := fun w => (Ok (bool_decide (is_Some (w_preimages w !! rel))), w).
Definition is_synced (rel : Path) : Op bool := fun w => (Ok (bool_decide (rel ∈ w_synced w)), w).

(** The journal of one file per path: the first observation of a path is kept;
    a durable one is ordered before its publication and synced after it. *)
Definition capture_preimage_after_check (rel : Path) (durable observed_absent : bool) : Op unit :=
  if negb (oc_stage_writable core) then raise EROFS
  else if negb (oc_has_journal core) then mret tt
  else
    _ ← lift (validate_rel rel);
    if negb (oc_record_observations core) then mret tt
    else
      known ← has_preimage rel;
      if (known : bool) then
        synced ← is_synced rel;
        if_then (durable && negb synced) (_ ← fault; mark_synced rel)
      else
        state ← (if observed_absent then mret FpAbsent else reading (fun h => fingerprint_at h baseline rel));
        _ ← fault;
        _ ← publish_preimage rel state;
        if_then durable (_ ← fault; mark_synced rel).
Definition capture_preimage (rel : Path) (durable : bool) : Op unit := capture_preimage_after_check rel durable false.
Definition record_preimage (rel : Path) : Op unit := capture_preimage rel (oc_strict core).
Definition observe_absence (rel : Path) : Op unit :=
  if oc_frozen_baseline core then mret tt else capture_preimage_after_check rel false true.

Definition resolve (rel : Path) : Op (option ResolvedMetadata) := reading (fun h => resolve_metadata_checked h rel).
Definition observe_read (rel : Path) : Op unit :=
  resolved ← resolve rel;
  if oc_frozen_baseline core then mret tt
  else match resolved with None => observe_absence rel | Some _ => capture_preimage rel false end.

Definition metadata_optional (rel : Path) : Op (option ResolvedMetadata) :=
  resolved ← resolve rel;
  _ ← match resolved with None => observe_absence rel | Some _ => mret tt end;
  mret resolved.
Definition metadata_resolved (rel : Path) : Op ResolvedMetadata :=
  resolved ← metadata_optional rel;
  lift (ok_or resolved ENOENT).
Definition metadata (rel : Path) : Op Inode := m ← metadata_resolved rel; mret (rm_node m).

Definition exists_in_lower (h : Host) (rel : Path) : bool :=
  is_ok (require_visible rel)
  && existsb (fun i => match layer_metadata h (Lower i) rel with Ok (Some _) => true | _ => false end) (seq 0 (oc_lowers core)).

(** *** Copying up *)

Definition copy_user_xattrs (source destination : Loc) : Op unit :=
  '(_, n) ← reading (fun h => lstat h source);
  op_for (fun '(name, value) =>
            if bool_decide (name = PRIVATE_BACKING_XATTR) || is_opaque_xattr name then mret tt
            else call (fs_update destination (with_xattr name value))) (map_to_list (i_xattrs n)).

Definition copy_metadata (source destination : Loc) (n : Inode) : Op unit :=
  let nofollow := is_symlink (i_kind n) in
  _ ← unless_error ignorable_ownership_error (call (fs_update destination (with_owner (i_uid n) (i_gid n))));
  _ ← if_then (negb nofollow) (call (fs_update destination (with_perm (i_perm n))));
  _ ← unless_error ignorable_metadata_error (copy_user_xattrs source destination);
  unless_error ignorable_metadata_error (call (fs_update destination (with_times (i_atime n) (i_mtime n)))).

(** One round of [ensure_upper_parents], and its loop. *)
Definition ensure_dir (at_ : Path) : Op unit :=
  stat ← asking (fun h => lstat h (Upper, at_));
  match stat with
  | Ok (_, n) => if is_dir (i_kind n) then mret tt else raise ENOTDIR
  | Err e =>
      if bool_decide (e = ENOENT) then
        m ← metadata_resolved at_;
        if negb (is_dir (i_kind (rm_node m))) then raise ENOTDIR
        else
          _ ← record_preimage at_;
          _ ← call (fs_create (Upper, at_) KDir 511);
          copy_metadata (rm_path m) (Upper, at_) (rm_node m)
      else raise e
  end.
Fixpoint ensure_dirs (at_ rest : Path) : Op unit :=
  match rest with
  | [] => mret tt
  | c :: rest => _ ← ensure_dir (at_ ++ [c])%list; ensure_dirs (at_ ++ [c])%list rest
  end.
Definition ensure_upper_parents (rel : Path) : Op unit :=
  _ ← lift (require_visible rel);
  ensure_dirs [] (parent_of rel).

Definition temporary_path (parent : Path) : Op Loc := fun w =>
  let name := TEMP_PREFIX +:+ oc_process core +:+ "-" +:+ pretty (w_temp w) in
  (Ok (if oc_has_work core then (Work, [name]) else (Upper, (parent ++ [name])%list)),
   mkWorld (w_host w) (w_faults w) (w_groups w) (w_sources w) (w_preimages w) (w_synced w) (S (w_temp w))).

(** The first upper path of the group of an inode that still exists. *)
Definition copied_link (i : nat) : Op (option Path) := fun w =>
  (Ok (w_groups w !! i ≫= List.find (fun p => exists_at (w_host w) (Upper, p))), w).
Definition join_group (i : nat) (source : Loc) (rel : Path) : Op unit := fun w =>
  (Ok tt, set_groups (<[i := (default [] (w_groups w !! i) ++ [rel])%list]> (w_groups w))
            (match w_sources w !! i with Some _ => w_sources w | None => <[i := source]> (w_sources w) end) w).

(** The object under its temporary name; [true] when it shares an upper inode. *)
Definition copy_object (source : Loc) (i : nat) (n : Inode) (truncate : bool) (temporary : Loc) : Op bool :=
  match i_kind n with
  | KDir => _ ← call (fs_create temporary KDir 511); mret false
  | KSymlink target => _ ← call (fs_create temporary (KSymlink target) 511); mret false
  | KFile bytes =>
      links ← asking (fun h => nlink h i);
      existing ← (if (1 <? links)%nat then copied_link i else mret None);
      match existing with
      | Some p => _ ← call (fs_hard_link (Upper, p) temporary); mret true
      | None =>
          _ ← call (fs_create temporary (KFile "") (i_perm n));
          _ ← (if truncate && (links =? 1)%nat then mret tt
               else on_error (call (fs_update temporary (with_kind (KFile bytes)))) (ignore (call (fs_remove_file temporary))));
          mret false
      end
  | KNode type rdev => _ ← call (fs_create temporary (KNode type rdev) (i_perm n)); mret false
  end.

(** The last part of [copy_up_for_open]: a copy is made under a temporary name
    and published; a failure removes what was made. *)
Definition publish_copy (rel : Path) (source : Loc) (truncate : bool) : Op Loc :=
  '(i, n) ← reading (fun h => lstat h source);
  temporary ← temporary_path (parent_of rel);
  shared ← copy_object source i n truncate temporary;
  let cleanup := ignore (call (if is_dir (i_kind n) then fs_remove_dir temporary else fs_remove_file temporary)) in
  _ ← on_error
        (_ ← if_then (negb shared) (copy_metadata source temporary n);
         call (fs_rename temporary (Upper, rel))) cleanup;
  links ← asking (fun h => nlink h i);
  _ ← if_then (is_file (i_kind n) && (1 <? links)%nat) (join_group i source rel);
  mret (Upper, rel).

Definition copy_up_for_open (rel : Path) (truncate : bool) : Op Loc :=
  _ ← lift (require_visible rel);
  let upper := (Upper, rel) in
  present ← asking (fun h => exists_at h upper);
  if (present : bool) then
    _ ← reading (fun h => require_unaliased h upper);
    _ ← record_preimage rel;
    mret upper
  else
    found ← resolve rel;
    entry ← lift (ok_or found ENOENT);
    _ ← record_preimage rel;
    if rm_is_upper entry then mret (rm_path entry)
    else
      _ ← ensure_upper_parents rel;
      publish_copy rel (rm_path entry) truncate.
Definition copy_up (rel : Path) : Op Loc := copy_up_for_open rel false.

(** *** Listing *)

(** The names of a directory of one layer that are no markers, with their types. *)
Definition entries_of (h : Host) (l : Loc) : gmap string Kind :=
  list_to_map (omap (fun name =>
    if is_whiteout_name name then None else pair name <$> kind_at h (l.1, (l.2 ++ [name])%list)) (read_dir h l)).
Fixpoint lower_entries (h : Host) (rel : Path) (count index : nat) : Result IoErr (gmap string Kind) :=
  match count with
  | O => Ok ∅
  | S count =>
      m ← layer_metadata h (Lower index) rel;
      rest ← lower_entries h rel count (S index);
      Ok (match m with
          | Some (_, n) => if is_dir (i_kind n) then entries_of h (Lower index, rel) ∪ rest else rest
          | None => rest
          end)
  end.
Definition whiteouts_of (h : Host) (rel : Path) : list string :=
  omap (fun name => strip_prefix name WHITEOUT_PREFIX) (read_dir h (Upper, rel)).

Definition collect_directory_items (rel : Path) : Op (list (string * Kind)) :=
  _ ← lift (require_visible rel);
  n ← metadata rel;
  if negb (is_dir (i_kind n)) then raise ENOTDIR
  else
    reading (fun h =>
      lowers ← (if is_opaque h rel then Ok ∅ else lower_entries h rel (oc_lowers core) 0);
      upper ← layer_metadata h Upper rel;
      '(own, hidden) ← match upper with
                       | Some (_, n) => if is_dir (i_kind n) then Ok (entries_of h (Upper, rel), whiteouts_of h rel)
                                        else Err ENOTDIR
                       | None => Ok (∅, [])
                       end;
      Ok (sort_by (fun a b => string_leb a.1 b.1)
            (map_to_list (filter (fun '(name, _) => name ∉ hidden) (own ∪ lowers))))).

(** The filter of [list_names]: a child that cannot be resolved is left out. *)
Definition listed_child (h : Host) (c : Path) : bool :=
  match resolve_component_metadata h c with
  | Ok (Some m) => is_ok (require_unaliased_metadata h (rm_ino m) (rm_node m))
  | _ => false
  end.
Fixpoint visible_names (h : Host) (rel : Path) (names : list (string * Kind)) : Result IoErr (list string) :=
  match names with
  | [] => Ok []
  | (name, _) :: names =>
      c ← child rel name;
      rest ← visible_names h rel names;
      Ok (if is_excluded c then rest else if listed_child h c then name :: rest else rest)
  end.
Definition list_names (rel : Path) : Op (list string) :=
  names ← collect_directory_items rel;
  reading (fun h => visible_names h rel names).

(** [libc::DT_*] of a type. *)
Definition dirent_type (k : Kind) : Z :=
  match k with
  | KDir => 4 | KFile _ => 8 | KSymlink _ => 10
  | KNode type _ =>
      if (type =? 4096)%Z then 1 else if (type =? 49152)%Z then 12 else if (type =? 24576)%Z then 6
      else if (type =? 8192)%Z then 2 else 0
  end.
Fixpoint visible_candidates (h : Host) (rel : Path) (names : list (string * Kind)) : Result IoErr (list (string * Z)) :=
  match names with
  | [] => Ok []
  | (name, k) :: names =>
      c ← child rel name;
      if is_excluded c then visible_candidates h rel names
      else if acc_has_denials then
        (if listed_child h c then
           _ ← require_visible c; rest ← visible_candidates h rel names; Ok ((name, dirent_type k) :: rest)
         else visible_candidates h rel names)
      else rest ← visible_candidates h rel names; Ok ((name, dirent_type k) :: rest)
  end.
Definition directory_candidates (rel : Path) : Op (list (string * Z)) :=
  names ← collect_directory_items rel;
  reading (fun h => visible_candidates h rel names).

(** [directory_entry_for_backing_lookup]. *)
Definition directory_entry (rel : Path) (name : string) : Op (option (ResolvedMetadata * list nat)) :=
  reading (fun h =>
    if is_whiteouted h rel name then Ok None
    else
      c ← child rel name;
      if is_excluded c then Ok None
      else
        match resolve_component_metadata_with_parents h c None with
        | Ok (Some (m, parents), _) =>
            _ ← require_unaliased_metadata h (rm_ino m) (rm_node m);
            _ ← require_visible c;
            Ok (Some (m, parents))
        | _ => Ok None
        end).

(** *** Trees *)

(** A bound on the depth of every tree: recursions over a merged tree go down
    at most this far. *)
Definition tree_fuel (h : Host) : nat := S (S (max_list (length ∘ snd ∘ fst <$> map_to_list (h_names h)))).

(** The names below [old] in any layer, whatever hides them. *)
Definition layer_roots : list Root := Upper :: (Lower <$> seq 0 (oc_lowers core)).
Fixpoint tree_names (h : Host) (old : Path) (roots : list Root) : Result IoErr (list string) :=
  match roots with
  | [] => Ok []
  | r :: roots =>
      let blocked := existsb (fun p => match lstat h (r, p) with Ok (_, n) => negb (is_dir (i_kind n)) | Err _ => false end)
                       (tail (ancestors old)) in
      if blocked then tree_names h old roots
      else
        match lstat h (r, old) with
        | Ok (_, n) =>
            if is_dir (i_kind n) then
              rest ← tree_names h old roots;
              Ok (List.filter (fun name => negb (is_whiteout_name name)) (read_dir h (r, old)) ++ rest)%list
            else _ ← require_unaliased h (r, old); tree_names h old roots
        | Err e => if bool_decide (e = ENOENT) then tree_names h old roots else Err e
        end
  end.
Definition name_set (names : list string) : list string := dedup (sort_by string_leb names).
Fixpoint require_tree_access_n (fuel : nat) (h : Host) (old new : Path) : Result IoErr unit :=
  if negb acc_has_denials && bool_decide (oc_excluded core = []) then Ok tt
  else
    match fuel with
    | O => Err OutOfFuel
    | S fuel =>
        _ ← require_visible old;
        _ ← require_visible new;
        names ← tree_names h old layer_roots;
        for_each (fun name => require_tree_access_n fuel h (old ++ [name]) (new ++ [name]))%list (name_set names)
    end.
Definition require_tree_access (old new : Path) : Op unit :=
  reading (fun h => require_tree_access_n (tree_fuel h) h old new).

Fixpoint record_mapping_n (fuel : nat) (source destination : Path) : Op unit :=
  match fuel with
  | O => raise OutOfFuel
  | S fuel =>
      if negb (oc_stage_writable core) then raise EROFS
      else if negb (oc_record_observations core) || negb (oc_has_journal core) then mret tt
      else
        _ ← record_preimage destination;
        n ← metadata source;
        if negb (is_dir (i_kind n)) then mret tt
        else
          names ← list_names source;
          op_for (fun name =>
            source_child ← lift (child source name);
            destination_child ← lift (child destination name);
            record_mapping_n fuel source_child destination_child) names
  end.
Definition record_logical_tree_mapping (source destination : Path) : Op unit :=
  fuel ← asking tree_fuel; record_mapping_n fuel source destination.

(** *** Markers *)

Fixpoint set_opaque_xattr (l : Loc) (names : list string) : Op unit :=
  match names with
  | [] => mret tt
  | name :: names => fun w =>
      match call (fs_update l (with_xattr name "y")) w with
      | (Err e, w) => if ignorable_metadata_error e then set_opaque_xattr l names w else (Err e, w)
      | r => r
      end
  end.
Definition create_marker (l : Loc) : Op unit :=
  present ← asking (fun h => exists_at h l);
  if_then (negb present) (call (fs_create l (KFile "") 384)).
Definition mark_opaque (rel : Path) : Op unit :=
  _ ← create_marker (Upper, (rel ++ [OPAQUE_NAME])%list);
  set_opaque_xattr (Upper, rel) OPAQUE_XATTRS.
Definition create_whiteout (rel : Path) : Op unit :=
  _ ← ensure_upper_parents rel;
  name ← lift (ok_or (last rel) EINVAL);
  create_marker (whiteout_path (parent_of rel) name).
Definition clear_whiteout (rel : Path) : Op unit :=
  _ ← lift (require_visible rel);
  name ← lift (ok_or (last rel) EINVAL);
  unless_error (fun e => bool_decide (e = ENOENT)) (call (fs_remove_file (whiteout_path (parent_of rel) name))).

(** *** Creating *)

Definition prepare_create (rel : Path) : Op unit :=
  _ ← lift (require_visible rel);
  _ ← record_preimage rel;
  _ ← ensure_upper_parents rel;
  clear_whiteout rel.

(** The part that [create_file], [create_symlink] and [create_node] share. *)
Definition prepare_new (rel : Path) : Op unit :=
  _ ← lift (require_visible rel);
  found ← resolve rel;
  _ ← match found with Some _ => raise EEXIST | None => mret tt end;
  _ ← record_preimage rel;
  _ ← ensure_upper_parents rel;
  clear_whiteout rel.
Definition create_file (rel : Path) (mode : Z) : Op unit :=
  _ ← prepare_new rel; call (fs_create (Upper, rel) (KFile "") (Z.land mode 4095)).
Definition create_symlink (rel : Path) (target : string) : Op unit :=
  _ ← prepare_new rel; call (fs_create (Upper, rel) (KSymlink target) 511).
(** [mknod]: a mode without type bits is that of a regular file. *)
Definition node_kind (mode rdev : Z) : Kind :=
  let type := Z.land mode S_IFMT in
  if ((type =? 0) || (type =? 32768))%Z then KFile "" else KNode type rdev.
Definition create_node (rel : Path) (mode rdev : Z) : Op unit :=
  _ ← prepare_new rel; call (fs_create (Upper, rel) (node_kind mode rdev) (Z.land mode 4095)).

(** The first part of [create_dir]: whether a lower has the name. *)
Definition prepare_dir (rel : Path) : Op bool :=
  _ ← lift (require_visible rel);
  found ← resolve rel;
  _ ← match found with Some _ => raise EEXIST | None => mret tt end;
  _ ← record_preimage rel;
  shadows_lower ← asking (fun h => exists_in_lower h rel);
  _ ← if_then shadows_lower (require_tree_access rel rel);
  _ ← ensure_upper_parents rel;
  _ ← clear_whiteout rel;
  mret shadows_lower.
Definition create_dir (rel : Path) (mode : Z) : Op unit :=
  shadows_lower ← prepare_dir rel;
  _ ← call (fs_create (Upper, rel) KDir 511);
  _ ← call (fs_update (Upper, rel) (with_perm (Z.land mode 4095)));
  if_then shadows_lower (mark_opaque rel).

Definition prepare_metadata_change (rel : Path) : Op Loc :=
  upper ← copy_up rel;
  '(_, n) ← reading (fun h => lstat h upper);
  _ ← if_then (is_dir (i_kind n)) (call (fs_open_create (upper.1, (upper.2 ++ [ROOT_METADATA_NAME])%list) 384));
  mret upper.

(** *** Removing *)

Definition forget_copied_hard_links (removed : Path) : Op unit := fun w =>
  let groups := filter (fun '(_, paths) => paths <> []) (List.filter (fun p => negb (path_starts_with p removed)) <$> w_groups w) in
  (Ok tt, set_groups groups (filter (fun '(i, _) => is_Some (groups !! i)) (w_sources w)) w).

Definition remove (rel : Path) (directory : bool) : Op unit :=
  _ ← lift (require_visible rel);
  _ ← if_then directory (require_tree_access rel rel);
  found ← resolve rel;
  m ← lift (ok_or found ENOENT);
  _ ← (if directory then
         if negb (is_dir (i_kind (rm_node m))) then raise ENOTDIR
         else names ← list_names rel; if bool_decide (names = []) then mret tt else raise ENOTEMPTY
       else if is_dir (i_kind (rm_node m)) then raise EISDIR else mret tt);
  _ ← record_logical_tree_mapping rel rel;
  _ ← (if rm_is_upper m then
         _ ← call (if directory then fs_remove_dir_all (rm_path m) else fs_remove_file (rm_path m));
         forget_copied_hard_links (rm_path m).2
       else mret tt);
  shadows ← asking (fun h => exists_in_lower h rel);
  if_then shadows (create_whiteout rel).

(** *** Moving *)

Fixpoint materialize_tree_n (fuel : nat) (rel : Path) : Op Loc :=
  match fuel with
  | O => raise OutOfFuel
  | S fuel =>
      _ ← lift (require_visible rel);
      n ← metadata rel;
      if negb (is_dir (i_kind n)) then copy_up rel
      else
        names ← list_names rel;
        _ ← copy_up rel;
        _ ← op_for (fun name =>
              c ← lift (child rel name);
              n ← metadata c;
              _ ← (if is_dir (i_kind n) then materialize_tree_n fuel c else copy_up c);
              mret tt) names;
        _ ← mark_opaque rel;
        mret (Upper, rel)
  end.
Definition materialize_tree (rel : Path) : Op Loc :=
  _ ← require_tree_access rel rel;
  fuel ← asking tree_fuel;
  materialize_tree_n fuel rel.

(** [metadata_with_copied_hard_link]: the inode that a path stands for. *)
Definition copied_hard_link_for_entry (m : ResolvedMetadata) : Op (option nat) := fun w =>
  if rm_is_upper m || negb (is_file (i_kind (rm_node m))) then (Ok None, w)
  else
    let h := w_host w in
    ((fix go (paths : list Path) : Result IoErr (option nat) :=
        match paths with
        | [] => Ok None
        | p :: paths =>
            match lstat h (Upper, p) with
            | Ok (i, n) =>
                _ ← ensure (is_file (i_kind n)) EIO;
                _ ← require_unaliased_metadata h i n;
                Ok (Some i)
            | Err e => if bool_decide (e = ENOENT) then go paths else Err e
            end
        end) (default [] (w_groups w !! rm_ino m)), w).
Definition metadata_with_copied_hard_link (rel : Path) : Op nat :=
  m ← metadata_resolved rel;
  copied ← copied_hard_link_for_entry m;
  mret (default (rm_ino m) copied).

Definition validate_replacement (old new : Path) (no_replace : bool) : Op (option Loc) :=
  found ← resolve new;
  match found with
  | None => mret None
  | Some destination =>
      if no_replace then raise EEXIST
      else
        n ← metadata old;
        _ ← match is_dir (i_kind n), is_dir (i_kind (rm_node destination)) with
            | true, false => raise ENOTDIR
            | false, true => raise EISDIR
            | true, true => names ← list_names new; if bool_decide (names = []) then mret tt else raise ENOTEMPTY
            | false, false => mret tt
            end;
        mret (if rm_is_upper destination then Some (rm_path destination) else None)
  end.

Definition remove_physical (l : Loc) : Op unit :=
  '(_, n) ← reading (fun h => lstat h l);
  call (if is_dir (i_kind n) then fs_remove_dir_all l else fs_remove_file l).

(** The paths of the groups after a rename and after an exchange. *)
Definition remap_path (old new p : Path) : Path :=
  match strip_path old p with Some s => (new ++ s)%list | None => p end.
Definition swap_path (first second p : Path) : Path :=
  match strip_path first p with
  | Some s => (second ++ s)%list
  | None => match strip_path second p with Some s => (first ++ s)%list | None => p end
  end.
Definition map_groups (f : Path -> Path) : Op unit := fun w =>
  (Ok tt, set_groups (List.map f <$> w_groups w) (w_sources w) w).

Definition materialize (rel : Path) (n : Inode) : Op Loc := if is_dir (i_kind n) then materialize_tree rel else copy_up rel.

(** Source and destination of a rename are names of one file. *)
Definition same_file (old new : Path) (n : Inode) : Op bool :=
  found ← resolve new;
  match found with
  | None => mret false
  | Some _ =>
      _ ← require_tree_access new new;
      if is_file (i_kind n) then
        source ← metadata_with_copied_hard_link old;
        destination ← metadata_with_copied_hard_link new;
        mret (bool_decide (source = destination))
      else mret false
  end.

(** The last part of a rename: the upper object moves, with what it replaces
    set aside until it has. *)
Definition publish_rename (source : Loc) (old new : Path) (replaced : option Loc) (whiteout : bool) : Op unit :=
  let undo_whiteout := if_then whiteout (ignore (clear_whiteout old)) in
  backup ← match replaced with Some _ => l ← temporary_path []; mret (Some l) | None => mret None end;
  _ ← match replaced, backup with
      | Some destination, Some backup => on_error (call (fs_rename destination backup)) undo_whiteout
      | _, _ => mret tt
      end;
  _ ← on_error (call (fs_rename source (Upper, new)))
        (_ ← match replaced, backup with
             | Some destination, Some backup => ignore (call (fs_rename backup destination))
             | _, _ => mret tt
             end;
         undo_whiteout);
  match backup with Some backup => ignore (remove_physical backup) | None => mret tt end.

Definition rename (old new : Path) (no_replace : bool) : Op unit :=
  _ ← lift (require_visible old);
  _ ← lift (require_visible new);
  n ← metadata old;
  if bool_decide (old = new) then (if no_replace then raise EEXIST else mret tt)
  else if is_dir (i_kind n) && path_starts_with new old then raise EINVAL
  else
    replaced ← validate_replacement old new no_replace;
    _ ← require_tree_access old new;
    same ← same_file old new n;
    if (same : bool) then mret tt
    else
      _ ← record_logical_tree_mapping old old;
      _ ← record_logical_tree_mapping old new;
      source ← materialize old n;
      _ ← ensure_upper_parents new;
      _ ← clear_whiteout new;
      whiteout ← asking (fun h => exists_in_lower h old);
      _ ← if_then whiteout (create_whiteout old);
      _ ← publish_rename source old new replaced whiteout;
      _ ← forget_copied_hard_links new;
      map_groups (remap_path old new).

Definition prepare_rename_copy_up (old new : Path) (no_replace exchange : bool) : Op (list Path) :=
  _ ← lift (require_visible old);
  _ ← lift (require_visible new);
  if bool_decide (old = new) then mret []
  else
    n ← metadata old;
    if exchange then
      if path_starts_with old new || path_starts_with new old then raise EINVAL
      else
        _ ← metadata new;
        _ ← require_tree_access old new;
        _ ← require_tree_access new old;
        _ ← record_logical_tree_mapping old old;
        _ ← record_logical_tree_mapping new new;
        _ ← record_logical_tree_mapping old new;
        _ ← record_logical_tree_mapping new old;
        mret [old; new]
    else if is_dir (i_kind n) && path_starts_with new old then raise EINVAL
    else
      _ ← validate_replacement old new no_replace;
      _ ← require_tree_access old new;
      found ← resolve new;
      _ ← match found with Some _ => require_tree_access new new | None => mret tt end;
      _ ← record_logical_tree_mapping old old;
      _ ← record_logical_tree_mapping old new;
      mret [old].

(** The first group that contains the source gains the destination. *)
Definition extend_group (source destination : Path) : Op unit := fun w =>
  match List.find (fun '(_, paths) => bool_decide (source ∈ paths)) (map_to_list (w_groups w)) with
  | Some (i, paths) => (Ok tt, set_groups (<[i := (paths ++ [destination])%list]> (w_groups w)) (w_sources w) w)
  | None => (Ok tt, w)
  end.
Definition hard_link (source destination : Path) : Op unit :=
  if acc_has_denials then raise EACCES
  else
    _ ← lift (require_visible source);
    _ ← lift (require_visible destination);
    n ← metadata source;
    if is_dir (i_kind n) then raise EPERM
    else
      found ← resolve destination;
      _ ← match found with Some _ => raise EEXIST | None => mret tt end;
      _ ← record_preimage destination;
      upper ← copy_up source;
      _ ← ensure_upper_parents destination;
      _ ← clear_whiteout destination;
      _ ← call (fs_hard_link upper (Upper, destination));
      extend_group upper.2 destination.

Definition exchange (first second : Path) : Op unit :=
  _ ← lift (require_visible first);
  _ ← lift (require_visible second);
  if bool_decide (first = second) then mret tt
  else if path_starts_with first second || path_starts_with second first then raise EINVAL
  else
    first_node ← metadata first;
    second_node ← metadata second;
    _ ← require_tree_access first second;
    _ ← require_tree_access second first;
    _ ← record_logical_tree_mapping first first;
    _ ← record_logical_tree_mapping second second;
    _ ← record_logical_tree_mapping first second;
    _ ← record_logical_tree_mapping second first;
    first_upper ← materialize first first_node;
    second_upper ← materialize second second_node;
    temporary ← temporary_path [];
    _ ← call (fs_rename first_upper temporary);
    _ ← on_error (call (fs_rename second_upper first_upper)) (ignore (call (fs_rename temporary first_upper)));
    _ ← on_error (call (fs_rename temporary second_upper))
          (_ ← ignore (call (fs_rename first_upper second_upper)); ignore (call (fs_rename temporary first_upper)));
    map_groups (swap_path first second).
End Core.
