(* ===== verification/OverlayView.v ===== *)
(** * The merged view

    What an overlay shows, as a function of its trees: [view h p] is the object
    at the path [p], if there is one. [resolve_view] says that the resolution of
    [core.rs], with its checks of every layer's parents and with the reuse of
    checked directories, computes it. *)
From stdpp Require Import base tactics list strings gmap pretty.
From Stdlib Require Import ZArith Lia Ascii.
From S2P Require Import Prelude RustStr FileAccess HostFs HostFsFacts Overlay.
Local Open Scope nat_scope.

Definition xattr_opaque (n : Inode) : bool := existsb (fun name => bool_decide (i_xattrs n !! name = Some "y"%string)) OPAQUE_XATTRS.
Definition opaque_at (h : Host) (q : Path) : bool :=
  bool_decide (is_Some (kind_at h (Upper, q ++ [OPAQUE_NAME]))) || from_option xattr_opaque false (node h (Upper, q)).
(** Markers hide names only of a directory of the upper. *)
Definition hidden (h : Host) (q : Path) (c : string) : bool :=
  bool_decide (kind_at h (Upper, q) = Some KDir)
  && (bool_decide (is_Some (kind_at h (whiteout_path q c))) || opaque_at h q).

Definition clean (p : Path) : Prop := Forall (fun c => is_whiteout_name c = false) p.
Definition normal (p : Path) : Prop := forallb normal_component p = true.

Section View.
Context (count : nat).

Fixpoint lower_loc (h : Host) (n index : nat) (p : Path) : option Loc :=
  match n with
  | O => None
  | S n => if kind_at h (Lower index, p) then Some (Lower index, p) else lower_loc h n (S index) p
  end.
Definition entry_loc (h : Host) (q : Path) (c : string) : option Loc :=
  if kind_at h (Upper, q ++ [c]) then Some (Upper, q ++ [c])
  else if hidden h q c then None else lower_loc h count 0 (q ++ [c]).
Definition entry (h : Host) (q : Path) (c : string) : option Kind := entry_loc h q c ≫= kind_at h.

Fixpoint view_from (h : Host) (v : option Kind) (at_ rest : Path) : option Kind :=
  match rest with
  | [] => v
  | c :: rest => view_from h (if decide (v = Some KDir) then entry h at_ c else None) (at_ ++ [c]) rest
  end.
Definition view (h : Host) (p : Path) : option Kind := view_from h (kind_at h (Upper, [])) [] p.

Lemma view_from_snoc h v a p c :
  view_from h v a (p ++ [c]) = if decide (view_from h v a p = Some KDir) then entry h (a ++ p) c else None.
Proof.
  revert v a. induction p as [|d p IH]; intros v a; cbn [view_from app]; [by rewrite app_nil_r|].
  rewrite IH. by rewrite <- app_assoc.
Qed.
Lemma view_snoc h p c : view h (p ++ [c]) = if decide (view h p = Some KDir) then entry h p c else None.
Proof. apply view_from_snoc. Qed.
Lemma view_nil h : view h [] = kind_at h (Upper, []).
Proof. done. Qed.
Lemma view_parent h p c k : view h (p ++ [c]) = Some k -> view h p = Some KDir.
Proof. rewrite view_snoc. by case_decide. Qed.
Lemma view_prefix h (p s : Path) k : s <> [] -> view h (p ++ s) = Some k -> view h p = Some KDir.
Proof.
  revert k. induction s as [|c s IH] using rev_ind; [done|]. intros k _ Hk.
  rewrite app_assoc in Hk. apply view_parent in Hk.
  destruct s as [|d s _] using rev_ind; [by rewrite app_nil_r in Hk|]. eapply IH; [by destruct s|exact Hk].
Qed.
Lemma view_below h (p s : Path) : view h p <> Some KDir -> s <> [] -> view h (p ++ s) = None.
Proof. intros Hp Hs. destruct (view h (p ++ s)) eqn:E; [|done]. by apply view_prefix in E. Qed.

Lemma lower_loc_Some h n index p l : lower_loc h n index p = Some l ->
  exists i, l = (Lower i, p) /\ index <= i < index + n /\ is_Some (kind_at h l).
Proof.
  revert index. induction n as [|n IH]; intros index; cbn; [done|].
  destruct (kind_at h (Lower index, p)) eqn:E.
  - intros [= <-]. exists index. split_and!; [done|lia..|by eexists].
  - intros (i & -> & ? & ?)%IH. exists i. split_and!; [done|lia..|done].
Qed.
Lemma lower_loc_None h n index p : lower_loc h n index p = None <-> forall i, index <= i < index + n -> kind_at h (Lower i, p) = None.
Proof.
  revert index. induction n as [|n IH]; intros index; cbn; [split; [intros _ i ?; lia|done]|].
  destruct (kind_at h (Lower index, p)) eqn:E.
  - split; [done|]. intros H. specialize (H index ltac:(lia)). congruence.
  - rewrite IH. split; intros H i Hi.
    + destruct (decide (i = index)) as [->|]; [done|]. apply H. lia.
    + apply H. lia.
Qed.
Lemma entry_loc_Some h q c l : entry_loc h q c = Some l -> is_Some (kind_at h l) /\ l.2 = q ++ [c] /\
  (l.1 = Upper \/ exists i, l.1 = Lower i /\ i < count /\ kind_at h (Upper, q ++ [c]) = None /\ hidden h q c = false).
Proof.
  unfold entry_loc. destruct (kind_at h (Upper, q ++ [c])) eqn:E.
  - intros [= <-]. split_and!; [by eexists|done|by left].
  - destruct (hidden h q c); [done|]. intros (i & -> & ? & ?)%lower_loc_Some. split_and!; [done..|]. right. exists i. split_and!; [done|lia|done..].
Qed.
Lemma entry_is_Some h q c : is_Some (entry h q c) <-> is_Some (entry_loc h q c).
Proof.
  unfold entry. destruct (entry_loc h q c) as [l|] eqn:E; cbn; [|done].
  apply entry_loc_Some in E as [? _]. split; [by eexists|done].
Qed.

(** Two states with the same entries show the same. *)
Lemma view_ext h h' p : kind_at h (Upper, []) = kind_at h' (Upper, []) ->
  (forall q c, q ++ [c] `prefix_of` p -> view h q = Some KDir -> entry h q c = entry h' q c) -> view h p = view h' p.
Proof.
  intros H0 H. induction p as [|c p IH] using rev_ind; [done|].
  rewrite !view_snoc. rewrite <- IH by (intros q d Hq; apply H; by apply prefix_app_r).
  case_decide; [|done]. by apply H.
Qed.
End View.

(** ** Layers *)

(** The walk of [rel] has checked the directories that [checked] names. *)
Definition checked_ok (h : Host) (p : Path) (checked : option CheckedDirectories) : Prop :=
  from_option (fun c => forall r d, (r, d) ∈ c -> d <= length p /\ kind_at h (r, take d p) = Some KDir) True checked.

Lemma checked_depth_ok h p c r : checked_ok h p (Some c) ->
  checked_depth c r <= length p /\ (checked_depth c r <> 0 -> kind_at h (r, take (checked_depth c r) p) = Some KDir).
Proof.
  intros Hc. unfold checked_depth. destruct (List.find _ c) as [[r' d]|] eqn:E; cbn; [|lia].
  apply List.find_some in E as [Hin Hr]. apply bool_decide_eq_true in Hr as ->. apply list_elem_of_In in Hin.
  destruct (Hc r d Hin). done.
Qed.
Lemma observe_checked_ok h p c r d : checked_ok h p (Some c) -> d <= length p -> kind_at h (r, take d p) = Some KDir ->
  checked_ok h p (Some (observe_checked c r d)).
Proof.
  intros Hc Hd Hk. cbn in *. induction c as [|[r' d'] c IH]; cbn.
  - intros r0 d0 [= -> ->]%list_elem_of_singleton. done.
  - intros r0 d0. case_bool_decide as Hr.
    + subst r'. intros [[= -> ->]|Hin]%elem_of_cons; [|apply Hc; by right].
      destruct (Nat.max_spec d' d) as [[_ ->]|[_ ->]]; [done|]. apply Hc. left.
    + intros [[= -> ->]|Hin]%elem_of_cons; [apply Hc; left|]. apply IH; [|done]. intros r1 d1 ?. apply Hc. by right.
Qed.
Lemma observe_opt_ok h p c r d : checked_ok h p c -> d <= length p -> kind_at h (r, take d p) = Some KDir ->
  checked_ok h p (observe_opt c r d).
Proof. destruct c as [c|]; [|done]. apply observe_checked_ok. Qed.
Lemma checked_ok_app h p s c : checked_ok h p c -> checked_ok h (p ++ s) c.
Proof.
  destruct c as [c|]; [|done]. cbn. intros H r d Hin. destruct (H r d Hin) as [Hd Hk].
  rewrite length_app, take_app_le by lia. split; [lia|done].
Qed.

Section Layers.
Context (h : Host) (W : wf h).

Lemma lstat_child r (p : Path) c : kind_at h (r, p) = Some KDir ->
  lstat h (r, p ++ [c]) = match node h (r, p ++ [c]) with
                          | Some n => Ok (default 0 (h_names h !! (r, p ++ [c])), n)
                          | None => Err ENOENT
                          end.
Proof.
  intros Hd. rewrite lstat_ok by (by apply reach_ok). unfold node.
  destruct (h_names h !! (r, p ++ [c])) as [i|]; cbn; [|done]. by destruct (h_inodes h !! i).
Qed.

Lemma check_parents_spec r known full more at_ rest parents checked :
  at_ ++ rest = full -> kind_at h (r, at_) = Some KDir -> known <= length full ->
  (known <> 0 -> kind_at h (r, take known full) = Some KDir) -> checked_ok h (full ++ more) checked ->
  exists ps checked', check_parents h r known (length at_) at_ rest parents checked = Ok (ps, checked') /\
    (is_Some ps <-> kind_at h (r, full) = Some KDir) /\ checked_ok h (full ++ more) checked'.
Proof.
  revert at_ parents checked. induction rest as [|c rest IH]; intros at_ parents checked Hfull Hat Hknown Hk Hc; cbn [check_parents].
  - rewrite app_nil_r in Hfull. subst at_. exists (Some parents), checked. split_and!; [done| |done]. split; [done|by eexists].
  - assert ((at_ ++ [c]) ++ rest = full) as Hfull' by (by rewrite <- app_assoc).
    assert (length (at_ ++ [c]) = S (length at_)) as Hlen by (rewrite length_app; cbn; lia).
    destruct (Nat.ltb_spec (length at_) known) as [Hlt|Hge].
    + rewrite <- Hlen. apply IH; [done| |done..].
      assert (exists s, take known full = (at_ ++ [c]) ++ s) as [s Hs].
      { exists (take (known - length (at_ ++ [c])) rest). rewrite <- Hfull'. rewrite take_app_ge by lia. done. }
      specialize (Hk ltac:(lia)). rewrite Hs in Hk. exact (wf_prefix_of_dir h r _ s W Hk).
    + rewrite lstat_child by done. destruct (node h (r, at_ ++ [c])) as [n|] eqn:En.
      * destruct (is_dir (i_kind n)) eqn:Ed.
        -- assert (kind_at h (r, at_ ++ [c]) = Some KDir) as Hd.
           { unfold kind_at. rewrite En. cbn. by destruct (i_kind n). }
           rewrite <- Hlen. apply IH; [done..|]. apply observe_opt_ok; [done|rewrite <- Hfull', !length_app; cbn; lia|].
           rewrite <- Hfull', <- app_assoc, take_app_length. done.
        -- exists None, checked. split_and!; [done| |done]. split; [by intros []|]. intros Hfd. exfalso.
           assert (kind_at h (r, at_ ++ [c]) = Some KDir) as Hd.
           { rewrite <- Hfull' in Hfd. exact (wf_prefix_of_dir h r _ rest W Hfd). }
           unfold kind_at in Hd. rewrite En in Hd. cbn in Hd. by destruct (i_kind n).
      * rewrite bool_decide_eq_true_2 by done. exists None, checked. split_and!; [done| |done]. split; [by intros []|]. intros Hfd. exfalso.
        assert (kind_at h (r, at_ ++ [c]) = Some KDir) as Hd by (rewrite <- Hfull' in Hfd; exact (wf_prefix_of_dir h r _ rest W Hfd)).
        unfold kind_at in Hd. by rewrite En in Hd.
Qed.

Lemma layer_metadata_spec r q c checked : kind_at h (r, []) = Some KDir -> normal (q ++ [c]) -> checked_ok h (q ++ [c]) checked ->
  exists m parents checked', layer_metadata_with_parents h r (q ++ [c]) checked = Ok (m, parents, checked') /\
    checked_ok h (q ++ [c]) checked' /\
    match m with
    | Entry i n => h_names h !! (r, q ++ [c]) = Some i /\ node h (r, q ++ [c]) = Some n
    | MissingLeaf => node h (r, q ++ [c]) = None /\ kind_at h (r, q) = Some KDir
    | UnavailableParent => node h (r, q ++ [c]) = None /\ kind_at h (r, q) <> Some KDir
    end.
Proof.
  intros Hroot Hn Hc. unfold layer_metadata_with_parents, validate_rel. rewrite (Hn : forallb _ _ = true).
  cbn [ensure mbind result_bind]. rewrite parent_of_snoc.
  set (known := from_option _ 0 checked).
  assert (known <= length (q ++ [c]) /\ (known <> 0 -> kind_at h (r, take known (q ++ [c])) = Some KDir)) as [Hk1 Hk2].
  { unfold known. destruct checked as [ch|]; cbn; [|lia]. by apply checked_depth_ok. }
  assert (exists ps checked', (if known <? length q then check_parents h r known 0 [] q [] checked else Ok (Some [], checked)) = Ok (ps, checked') /\
    (is_Some ps <-> kind_at h (r, q) = Some KDir) /\ checked_ok h (q ++ [c]) checked') as (ps & checked' & -> & Hps & Hc').
  { destruct (Nat.ltb_spec known (length q)) as [Hlt|Hge].
    - apply (check_parents_spec r known q [c] [] q [] checked); [done..|lia| |done].
      intros H0. specialize (Hk2 H0). by rewrite take_app_le in Hk2 by lia.
    - exists (Some []), checked. split_and!; [done| |done]. split; [|by eexists]. intros _.
      destruct (decide (known = 0)) as [H0|H0]; [destruct q; [done|cbn in *; lia]|].
      specialize (Hk2 H0). rewrite take_app_ge in Hk2 by lia. exact (wf_prefix_of_dir h r q _ W Hk2). }
  cbn [mbind result_bind]. destruct ps as [ps|].
  - destruct Hps as [Hd _]. specialize (Hd ltac:(by eexists)). rewrite lstat_child by done.
    destruct (node h (r, q ++ [c])) as [n|] eqn:En.
    + do 3 eexists. split; [done|]. split.
      * destruct (is_dir (i_kind n)) eqn:Ed; [|done].
        apply observe_opt_ok; [done..|]. rewrite firstn_all.
        unfold kind_at. rewrite En. cbn. by destruct (i_kind n).
      * apply node_Some in En as (i & Hi & Hin). rewrite Hi. done.
    + rewrite bool_decide_eq_true_2 by done. do 3 eexists. split; [done|]. done.
  - do 3 eexists. split; [done|]. split; [done|].
    assert (kind_at h (r, q) <> Some KDir) as Hnd by (intros Hd; apply Hps in Hd; by destruct Hd).
    split; [|done]. destruct (node h (r, q ++ [c])) as [n|] eqn:En; [|done]. exfalso. apply Hnd.
    apply (wf_parent_dir h r q c (i_kind n) W). unfold kind_at. by rewrite En.
Qed.
End Layers.

(** ** Resolution *)

(** The roots of the layers, and of the work directory, are directories. *)
Record rooted (core : OverlayCore) (h : Host) : Prop := mkRooted {
  rooted_upper : kind_at h (Upper, []) = Some KDir;
  rooted_lower i : i < oc_lowers core -> kind_at h (Lower i, []) = Some KDir;
  rooted_work : oc_has_work core = true -> kind_at h (Work, []) = Some KDir
}.

Section Resolve.
Context (core : OverlayCore) `{AccessOps, Digest256} (h : Host) (W : wf h) (R : rooted core h).
Local Abbreviation count := (oc_lowers core).

(** What a resolution names: the place and the inode found there. *)
Definition resolved_at (l : Loc) (m : ResolvedMetadata) : Prop :=
  rm_path m = l /\ h_names h !! l = Some (rm_ino m) /\ node h l = Some (rm_node m).

Lemma resolve_lowers_spec q c n index checked : index + n = count -> normal (q ++ [c]) -> checked_ok h (q ++ [c]) checked ->
  exists r checked', resolve_lowers h (q ++ [c]) checked n index = Ok (r, checked') /\ checked_ok h (q ++ [c]) checked' /\
    match r with
    | Some (m, _) => exists l, lower_loc h n index (q ++ [c]) = Some l /\ resolved_at l m
    | None => lower_loc h n index (q ++ [c]) = None
    end.
Proof.
  intros Hcount Hn. revert index checked Hcount. induction n as [|n IH]; intros index checked Hcount Hc; cbn [resolve_lowers lower_loc].
  - exists None, checked. done.
  - destruct (layer_metadata_spec h W (Lower index) q c checked) as (m & parents & checked' & -> & Hc' & Hm); [by apply (rooted_lower core h R); lia|done..|].
    cbn [mbind result_bind]. destruct m as [i x| |].
    + exists (Some (mkResolved (Lower index, q ++ [c]) i x, parents)), checked'. split_and!; [done..|].
      destruct Hm as [Hi Hx]. exists (Lower index, q ++ [c]). unfold kind_at. rewrite Hx. cbn. done.
    + destruct Hm as [Hx _]. unfold kind_at. rewrite Hx. cbn. apply IH; [lia|done].
    + destruct Hm as [Hx _]. unfold kind_at. rewrite Hx. cbn. apply IH; [lia|done].
Qed.

Lemma marker_exists q c : kind_at h (Upper, q) = Some KDir ->
  exists_at h (Upper, q ++ [c]) = bool_decide (is_Some (kind_at h (Upper, q ++ [c]))).
Proof.
  intros Hd. unfold exists_at. rewrite lstat_child by done. unfold kind_at.
  destruct (node h (Upper, q ++ [c])); cbn [is_ok]; symmetry; [apply bool_decide_eq_true_2; by eexists | apply bool_decide_eq_false_2; by intros []].
Qed.
Lemma is_opaque_spec q : kind_at h (Upper, q) = Some KDir -> is_opaque h q = opaque_at h q.
Proof.
  intros Hd. unfold is_opaque, is_opaque_directory, opaque_at. cbn [fst snd]. rewrite marker_exists by done. f_equal.
  pose proof Hd as (n & Hn & _)%kind_at_Some. destruct (lstat_present h (Upper, q) n W Hn) as (i & _ & _ & ->). by rewrite Hn.
Qed.

Lemma resolve_component_spec q c checked : normal (q ++ [c]) -> checked_ok h (q ++ [c]) checked ->
  exists r checked', resolve_component_metadata_with_parents core h (q ++ [c]) checked = Ok (r, checked') /\
    checked_ok h (q ++ [c]) checked' /\
    match r with
    | Some (m, _) => exists l, entry_loc count h q c = Some l /\ resolved_at l m
    | None => entry_loc count h q c = None
    end.
Proof.
  intros Hn Hc. unfold resolve_component_metadata_with_parents.
  destruct (layer_metadata_spec h W Upper q c checked) as (m & parents & checked' & -> & Hc' & Hm); [apply (rooted_upper core h R)|done..|].
  cbn [mbind result_bind]. unfold entry_loc, hidden. destruct m as [i x| |].
  - exists (Some (mkResolved (Upper, q ++ [c]) i x, parents)), checked'. split_and!; [done..|].
    destruct Hm as [Hi Hx]. exists (Upper, q ++ [c]). unfold kind_at at 1. rewrite Hx. done.
  - destruct Hm as [Hx%kind_at_None Hd]. rewrite Hx. rewrite last_snoc. cbn [ok_or mbind result_bind].
    rewrite parent_of_snoc, is_opaque_spec by done. unfold is_whiteouted, whiteout_path. rewrite marker_exists by done.
    rewrite (bool_decide_eq_true_2 (kind_at h (Upper, q) = Some KDir)) by done. cbn [andb].
    match goal with |- context [if ?b then Ok (None, _) else _] => destruct b end; [by exists None, checked'|]. by apply resolve_lowers_spec.
  - destruct Hm as [Hx%kind_at_None Hd]. rewrite Hx.
    rewrite (bool_decide_eq_false_2 (kind_at h (Upper, q) = Some KDir)) by done. cbn [andb]. by apply resolve_lowers_spec.
Qed.

(** The place that shows at a path. *)
Definition located (p : Path) (l : Loc) : Prop :=
  (p = [] /\ l = (Upper, [])) \/
  exists q c, p = q ++ [c] /\ view count h q = Some KDir /\ entry_loc count h q c = Some l.

Lemma located_view p l : located p l -> view count h p = kind_at h l /\ is_Some (kind_at h l).
Proof.
  intros [[-> ->]|(q & c & -> & Hq & Hl)].
  - rewrite view_nil. split; [done|]. rewrite (rooted_upper core h R). by eexists.
  - rewrite view_snoc, decide_True by done. unfold entry. rewrite Hl. split; [done|]. by apply entry_loc_Some in Hl as [? _].
Qed.
Lemma located_fun p l l' : located p l -> located p l' -> l = l'.
Proof.
  intros [[-> ->]|(q & c & -> & Hq & Hl)] [[Hp ->]|(q' & c' & Hp & Hq' & Hl')]; [done|by destruct q'|by destruct q|].
  apply app_inj_tail in Hp as [-> ->]. congruence.
Qed.
Lemma resolved_at_fun l m m' : resolved_at l m -> resolved_at l m' -> m = m'.
Proof. destruct m, m'. unfold resolved_at; cbn. naive_solver congruence. Qed.

Lemma normal_app (p q : Path) : normal (p ++ q) <-> normal p /\ normal q.
Proof. unfold normal. rewrite forallb_app, andb_true_iff. done. Qed.

(** A file at the path that has another name. *)
Definition aliased (p : Path) : Prop :=
  exists l m, located p l /\ resolved_at l m /\ is_file (i_kind (rm_node m)) = true /\ 1 < nlink h (rm_ino m).
Lemma unaliased_Ok p l m : located p l -> resolved_at l m -> require_unaliased_metadata h (rm_ino m) (rm_node m) = Ok tt ->
  acc_has_denials = true -> ~ aliased p.
Proof.
  intros Hl Hm Hok Hd (l' & m' & Hl' & Hm' & Hf & Hn). assert (l' = l) as -> by (by eapply located_fun).
  rewrite (resolved_at_fun _ _ _ Hm' Hm) in *. unfold require_unaliased_metadata in Hok. rewrite Hd, Hf in Hok.
  apply Nat.ltb_lt in Hn. by rewrite Hn in Hok.
Qed.
Lemma unaliased_Err p l m : located p l -> resolved_at l m ->
  acc_has_denials && is_file (i_kind (rm_node m)) && (1 <? nlink h (rm_ino m)) = true -> acc_has_denials = true /\ aliased p.
Proof.
  intros Hl Hm [[Hd Hf]%andb_true_iff Hn%Nat.ltb_lt]%andb_true_iff. split; [done|]. by exists l, m.
Qed.

Lemma resolve_from_spec at_ rest checked : rest <> [] -> normal (at_ ++ rest) -> checked_ok h at_ checked -> view count h at_ = Some KDir ->
  match resolve_from core h at_ rest checked with
  | Ok (Some (m, _)) => exists l, located (at_ ++ rest) l /\ resolved_at l m /\ require_unaliased_metadata h (rm_ino m) (rm_node m) = Ok tt
  | Ok None => view count h (at_ ++ rest) = None
  | Err e => (e = EACCES /\ acc_has_denials = true /\ exists p, p `prefix_of` at_ ++ rest /\ aliased p) \/
             (e = ENOTDIR /\ view count h (at_ ++ rest) = None)
  end.
Proof.
  revert at_ checked. induction rest as [|c rest IH]; [done|]. intros at_ checked _ Hn Hc Hv. cbn [resolve_from].
  assert (at_ ++ c :: rest = (at_ ++ [c]) ++ rest) as Happ by (by rewrite <- app_assoc).
  rewrite Happ in *. pose proof (proj1 (proj1 (normal_app _ _) Hn)) as Hn1.
  destruct (resolve_component_spec at_ c (if bool_decide (rest = []) then None else checked)) as (r & checked' & -> & Hc' & Hr); [done|by case_bool_decide; [done|apply checked_ok_app]|].
  cbn [mbind result_bind]. destruct r as [[m parents]|].
  - destruct Hr as (l & Hl & Hm). unfold require_unaliased_metadata.
    assert (located (at_ ++ [c]) l) as Hloc by (right; eauto).
    destruct (acc_has_denials && _ && _) eqn:Hal; cbn [negb ensure mbind result_bind].
    + left. destruct (unaliased_Err _ _ _ Hloc Hm Hal) as [Hd Ha]. split_and!; [done..|]. exists (at_ ++ [c]). split; [by exists rest|done].
    + case_bool_decide as Hrest; [subst; rewrite app_nil_r; exists l; split_and!; [done..|]; unfold require_unaliased_metadata; by rewrite Hal|].
      destruct (located_view _ _ Hloc) as [Hview _]. destruct Hm as (<- & _ & Hnode).
      assert (view count h (at_ ++ [c]) = Some (i_kind (rm_node m))) as Hk by (rewrite Hview; unfold kind_at; by rewrite Hnode).
      destruct (is_dir (i_kind (rm_node m))) eqn:Ed.
      * apply IH; [done..|]. rewrite Hk. by destruct (i_kind (rm_node m)).
      * right. split; [done|]. apply view_below; [|done]. rewrite Hk. intros [= E]. by rewrite E in Ed.
  - assert (view count h (at_ ++ [c]) = None) as Hnone.
    { rewrite view_snoc, decide_True by done. unfold entry. by rewrite Hr. }
    destruct rest as [|d rest]; [by rewrite app_nil_r|]. apply view_below; [by rewrite Hnone|done].
Qed.

(** The resolution finds what the view shows. *)
Lemma resolve_spec rel :
  match resolve_metadata_checked core h rel with
  | Ok (Some m) => require_visible core rel = Ok tt /\ exists l, located rel l /\ resolved_at l m /\
      require_unaliased_metadata h (rm_ino m) (rm_node m) = Ok tt
  | Ok None => require_visible core rel = Ok tt /\ view count h rel = None
  | Err e => require_visible core rel = Err e \/
             (e = EACCES /\ acc_has_denials = true /\ exists p, p `prefix_of` rel /\ aliased p) \/
             (e = ENOTDIR /\ view count h rel = None)
  end.
Proof.
  unfold resolve_metadata_checked, resolve_metadata_walk.
  destruct (require_visible core rel) as [[]|e] eqn:Hvis; cbn [mbind result_bind]; [|by left].
  assert (normal rel) as Hn.
  { unfold require_visible, validate_rel in Hvis. by destruct (forallb normal_component rel) eqn:E. }
  case_bool_decide as Hrel.
  - subst rel. pose proof (rooted_upper core h R) as (n & Hroot & _)%kind_at_Some.
    destruct (lstat_present h _ n W Hroot) as (i & Hi & Hin & ->). cbn. split; [done|]. exists (Upper, []). split_and!; [by left|done|].
    unfold require_unaliased_metadata. pose proof (rooted_upper core h R) as Hk. unfold kind_at in Hk. rewrite Hroot in Hk. injection Hk as ->. by rewrite andb_false_r.
  - pose proof (resolve_from_spec [] rel (if true && (2 <? length rel) then Some [] else None) Hrel Hn) as Hs.
    cbn [app] in Hs. destruct (resolve_from _ _ _ _ _) as [[[m ps]|]|e]; cbn [mbind result_bind option_map fst].
    + split; [done|]. apply Hs; [|exact (rooted_upper core h R)]. case_match; [|done]. cbn. by intros ? ? ?%elem_of_nil.
    + split; [done|]. apply Hs; [|exact (rooted_upper core h R)]. case_match; [|done]. cbn. by intros ? ? ?%elem_of_nil.
    + right. apply Hs; [|exact (rooted_upper core h R)]. case_match; [|done]. cbn. by intros ? ? ?%elem_of_nil.
Qed.

(** The directories a walk has checked do not change its result. *)
Lemma resolve_from_reuse at_ rest c1 c2 : normal (at_ ++ rest) -> checked_ok h at_ c1 -> checked_ok h at_ c2 ->
  resolve_from core h at_ rest c1 = resolve_from core h at_ rest c2.
Proof.
  revert at_ c1 c2. induction rest as [|c rest IH]; [done|]. intros at_ c1 c2 Hn H1 H2. cbn [resolve_from].
  assert (at_ ++ c :: rest = (at_ ++ [c]) ++ rest) as Happ by (by rewrite <- app_assoc). rewrite Happ in Hn.
  pose proof (proj1 (proj1 (normal_app _ _) Hn)) as Hn1. case_bool_decide as Hrest; [done|].
  destruct (resolve_component_spec at_ c c1) as (r1 & c1' & -> & H1' & Hr1); [done|by apply checked_ok_app|].
  destruct (resolve_component_spec at_ c c2) as (r2 & c2' & -> & H2' & Hr2); [done|by apply checked_ok_app|].
  cbn [mbind result_bind]. destruct r1 as [[m1 p1]|], r2 as [[m2 p2]|]; [| | |done].
  - destruct Hr1 as (l1 & E1 & M1), Hr2 as (l2 & E2 & M2). assert (l1 = l2) as <- by congruence.
    rewrite (resolved_at_fun l1 m2 m1 M2 M1). by rewrite (IH _ c1' c2' Hn H1' H2').
  - destruct Hr1 as (l1 & E1 & _). congruence.
  - destruct Hr2 as (l2 & E2 & _). congruence.
Qed.
Lemma resolve_walk_reuse rel : resolve_metadata_walk core true h rel = resolve_metadata_walk core false h rel.
Proof.
  unfold resolve_metadata_walk. destruct (require_visible core rel) as [[]|e] eqn:Hvis; cbn [mbind result_bind]; [|done].
  case_bool_decide; [done|]. cbn [andb]. apply resolve_from_reuse; cbn.
  - unfold require_visible, validate_rel in Hvis. by destruct (forallb normal_component rel) eqn:E.
  - case_match; [|done]. cbn. by intros ? ? ?%elem_of_nil.
  - done.
Qed.
End Resolve.
