(* ===== verification/OverlayQuiet.v ===== *)
(** * Steps that do not show

    Copying up, creating parents in the upper, temporary files and journal
    entries change the trees but not the merged view. [hquiet] is the relation
    between the file systems before and after such a step; [quiet] adds the
    state of the overlay. The operations that consist of such steps keep it on
    every path, failures included. *)
From stdpp Require Import base tactics list strings gmap pretty.
From Stdlib Require Import ZArith Lia Ascii.
From S2P Require Import Prelude RustStr FileAccess HostFs HostFsFacts Overlay OverlayView.
Local Open Scope nat_scope.

(** ** Names *)

(** Names that are no markers and whose whiteout is not a reserved name. *)
Definition RESERVED : string := ".pvisor-".
Definition plain_name (c : string) : Prop := is_whiteout_name c = false /\ starts_with c RESERVED = false.
Definition tidy (p : Path) : Prop := Forall (fun c => is_whiteout_name c = false) p.
Definition plain (p : Path) : Prop := Forall plain_name p.

Lemma plain_tidy p : plain p -> tidy p.
Proof. intros Hp. eapply Forall_impl; [exact Hp|by intros c []]. Qed.
Lemma tidy_app p q : tidy (p ++ q) <-> tidy p /\ tidy q.
Proof. apply Forall_app. Qed.
Lemma plain_app p q : plain (p ++ q) <-> plain p /\ plain q.
Proof. apply Forall_app. Qed.
Lemma tidy_snoc p c : tidy (p ++ [c]) <-> tidy p /\ is_whiteout_name c = false.
Proof. rewrite tidy_app. unfold tidy at 2. by rewrite Forall_singleton. Qed.
Lemma plain_snoc p c : plain (p ++ [c]) <-> plain p /\ plain_name c.
Proof. rewrite plain_app. unfold plain at 2. by rewrite Forall_singleton. Qed.

Lemma whiteout_is_marker c : is_whiteout_name (WHITEOUT_PREFIX +:+ c) = true.
Proof. apply starts_with_spec. by exists (to_bytes c). Qed.
Lemma whiteout_inj c d : WHITEOUT_PREFIX +:+ c = WHITEOUT_PREFIX +:+ d -> c = d.
Proof. unfold WHITEOUT_PREFIX. cbn. intros E. by injection E. Qed.

(** Places that the view of plain paths depends on. *)
Definition stage (l : Loc) : Prop :=
  match l with
  | (Lower _, _) => True
  | (Work, p) => p = []
  | (Upper, p) => tidy p \/ (exists q c, tidy q /\ plain_name c /\ p = q ++ [WHITEOUT_PREFIX +:+ c])
                  \/ exists q, tidy q /\ p = q ++ [OPAQUE_NAME]
  end.

(** What counts of an object: its type and contents, and whether its attributes
    make it opaque. *)
Definition look (h : Host) (l : Loc) : option (Kind * bool) := (fun n => (i_kind n, xattr_opaque n)) <$> node h l.

Lemma kind_of_look h h' l : look h' l = look h l -> kind_at h' l = kind_at h l.
Proof. unfold look, kind_at. destruct (node h' l), (node h l); cbn; congruence. Qed.

Section Quiet.
Context (core : OverlayCore).
Local Abbreviation count := (oc_lowers core).

(** Inodes of the lowers have no names elsewhere. *)
Definition is_lower (l : Loc) : Prop := match l.1 with Lower _ => True | _ => False end.
Definition apart (h : Host) : Prop :=
  forall l l' i, h_names h !! l = Some i -> h_names h !! l' = Some i -> is_lower l -> is_lower l'.
Record hinv (h : Host) : Prop := mkHinv { hinv_wf : wf h; hinv_rooted : rooted core h; hinv_apart : apart h }.

(** No name of the upper has a whiteout beside it. *)
Definition single (h : Host) : Prop :=
  forall q c, plain (q ++ [c]) -> is_Some (kind_at h (Upper, q ++ [c])) -> kind_at h (whiteout_path q c) = None.

Record hquiet (h h' : Host) : Prop := mkHquiet {
  hq_inv : hinv h';
  hq_view p : plain p -> view count h' p = view count h p;
  hq_lower i p : h_names h' !! (Lower i, p) = h_names h !! (Lower i, p) /\ node h' (Lower i, p) = node h (Lower i, p);
  hq_escaped : h_escaped h' = h_escaped h;
  hq_grow p k : tidy p -> kind_at h (Upper, p) = Some k -> kind_at h' (Upper, p) = Some k;
  hq_opaque q : tidy q -> kind_at h (Upper, q) = Some KDir -> opaque_at h q = true -> opaque_at h' q = true;
  hq_single : single h -> single h'
}.

Lemma hquiet_refl h : hinv h -> hquiet h h.
Proof. by constructor. Qed.
Lemma hquiet_trans h1 h2 h3 : hquiet h1 h2 -> hquiet h2 h3 -> hquiet h1 h3.
Proof.
  intros [I1 V1 L1 E1 G1 O1 S1] [I2 V2 L2 E2 G2 O2 S2]. constructor; [done|..].
  - intros p Hp. rewrite V2, V1 by done. done.
  - intros i p. destruct (L2 i p) as [-> ->]. apply L1.
  - congruence.
  - eauto.
  - intros q Hq Hd Ho. apply O2; eauto.
  - eauto.
Qed.

(** ** What the view depends on *)

Lemma lower_loc_look h h' n index p : (forall i, look h' (Lower i, p) = look h (Lower i, p)) ->
  lower_loc h' n index p = lower_loc h n index p.
Proof.
  intros H. revert index. induction n as [|n IH]; intros index; cbn; [done|].
  by rewrite (kind_of_look h h') , IH.
Qed.
Lemma lower_loc_entry h n index p : lower_loc h n index p ≫= kind_at h = None <-> lower_loc h n index p = None.
Proof.
  destruct (lower_loc h n index p) as [l|] eqn:E; [|done]. apply lower_loc_Some in E as (i & -> & _ & [k Hk]). cbn. rewrite Hk. done.
Qed.

(** An entry is determined by the upper name, what hides it, and the lowers. *)
Lemma entry_unfold h q c : entry count h q c =
  match kind_at h (Upper, q ++ [c]) with
  | Some k => Some k
  | None => if hidden h q c then None else lower_loc h count 0 (q ++ [c]) ≫= kind_at h
  end.
Proof.
  unfold entry, entry_loc. destruct (kind_at h (Upper, q ++ [c])) as [k|] eqn:E; cbn; [done|].
  by destruct (hidden h q c).
Qed.
Lemma lower_view h h' n index p : (forall i, look h' (Lower i, p) = look h (Lower i, p)) ->
  lower_loc h' n index p ≫= kind_at h' = lower_loc h n index p ≫= kind_at h.
Proof.
  intros H. rewrite (lower_loc_look h h') by done. destruct (lower_loc h n index p) as [l|] eqn:E; cbn; [|done].
  apply lower_loc_Some in E as (i & -> & _). by apply kind_of_look.
Qed.

Lemma hidden_look h h' q c : look h' (Upper, q) = look h (Upper, q) ->
  look h' (whiteout_path q c) = look h (whiteout_path q c) ->
  look h' (Upper, q ++ [OPAQUE_NAME]) = look h (Upper, q ++ [OPAQUE_NAME]) -> hidden h' q c = hidden h q c.
Proof.
  intros H1 H2 H3. unfold hidden, opaque_at.
  rewrite (kind_of_look h h' _ H1), (kind_of_look h h' _ H2), (kind_of_look h h' _ H3).
  f_equal. f_equal. f_equal. unfold look in H1. destruct (node h' (Upper, q)), (node h (Upper, q)); cbn in *; congruence.
Qed.
Lemma stage_tidy p : tidy p -> stage (Upper, p).
Proof. by left. Qed.
Lemma stage_whiteout q c : tidy q -> plain_name c -> stage (whiteout_path q c).
Proof. intros. right. left. eauto. Qed.
Lemma stage_opaque q : tidy q -> stage (Upper, q ++ [OPAQUE_NAME]).
Proof. intros. right. right. eauto. Qed.
#[local] Hint Resolve stage_tidy stage_whiteout stage_opaque plain_tidy : core.

Lemma opaque_look h h' q : look h' (Upper, q) = look h (Upper, q) ->
  look h' (Upper, q ++ [OPAQUE_NAME]) = look h (Upper, q ++ [OPAQUE_NAME]) -> opaque_at h' q = opaque_at h q.
Proof.
  intros H1 H2. unfold opaque_at. rewrite (kind_of_look h h' _ H2). f_equal.
  unfold look in H1. destruct (node h' (Upper, q)), (node h (Upper, q)); cbn in *; congruence.
Qed.

Lemma rooted_look h h' : rooted core h -> (forall l, stage l -> look h' l = look h l) -> rooted core h'.
Proof.
  intros [U L K] H. constructor.
  - rewrite (kind_of_look h h'); [done|]. apply H. left. constructor.
  - intros i Hi. rewrite (kind_of_look h h'); [by apply L|]. by apply H.
  - intros Hw. rewrite (kind_of_look h h'); [by apply K|]. by apply H.
Qed.

(** Nothing that counts has changed. *)
Lemma hquiet_stage h h' : hinv h -> wf h' -> apart h' -> h_escaped h' = h_escaped h ->
  (forall i p, h_names h' !! (Lower i, p) = h_names h !! (Lower i, p) /\ node h' (Lower i, p) = node h (Lower i, p)) ->
  (forall l, stage l -> look h' l = look h l) -> hquiet h h'.
Proof.
  intros [W R A] W' A' He Hl Hs. constructor.
  - constructor; [done| |done]. by eapply rooted_look.
  - intros p Hp. symmetry. apply view_ext; [symmetry; apply kind_of_look, Hs; left; constructor|].
    intros q c [s ->] _. apply plain_app in Hp as [Hp _]. pose proof Hp as [Hq Hc]%plain_snoc.
    rewrite !entry_unfold. rewrite (kind_of_look h h') by auto. rewrite (hidden_look h h') by auto.
    by rewrite (lower_view h h') by (intros i; by apply Hs).
  - exact Hl.
  - done.
  - intros p k Hp Hk. rewrite (kind_of_look h h'); auto.
  - intros q Hq _ Ho. rewrite (opaque_look h h'); auto.
  - intros S q c Hp. pose proof Hp as [Hq Hc]%plain_snoc. rewrite (kind_of_look h h') by auto.
    rewrite (kind_of_look h h' (whiteout_path q c)) by auto. by apply S.
Qed.

(** A tidy name of the upper appears for an object that already shows. *)
Lemma hquiet_new h h' rel n : hinv h -> wf h' -> apart h' -> h_escaped h' = h_escaped h ->
  (forall i p, h_names h' !! (Lower i, p) = h_names h !! (Lower i, p) /\ node h' (Lower i, p) = node h (Lower i, p)) ->
  (forall l, stage l -> l <> (Upper, rel) -> look h' l = look h l) ->
  tidy rel -> rel <> [] -> node h (Upper, rel) = None -> node h' (Upper, rel) = Some n ->
  (i_kind n = KDir -> xattr_opaque n = false) -> (plain rel -> view count h rel = Some (i_kind n)) -> hquiet h h'.
Proof.
  intros [W R A] W' A' He Hl Hs Ht Hne Hnone Hsome Hxo Hv. constructor.
  - constructor; [done| |done]. destruct R as [U L K]. constructor.
    + rewrite (kind_of_look h h'); [done|]. apply Hs; [left; constructor|congruence].
    + intros i Hi. rewrite (kind_of_look h h'); [by apply L|]. by apply Hs.
    + intros Hw. rewrite (kind_of_look h h'); [by apply K|]. by apply Hs.
  - intros p Hp. symmetry. apply view_ext; [symmetry; apply kind_of_look, Hs; [left; constructor|congruence]|].
    intros q c [s ->] Hq. apply plain_app in Hp as [Hp _]. pose proof Hp as [Hpq Hc]%plain_snoc.
    destruct (decide (q ++ [c] = rel)) as [<-|Hrel].
    + rewrite (entry_unfold h'). unfold kind_at at 1. rewrite Hsome. cbn.
      specialize (Hv Hp). by rewrite view_snoc, decide_True in Hv by done.
    + rewrite !entry_unfold. rewrite (kind_of_look h h') by (apply Hs; [auto|congruence]).
      rewrite (lower_view h h') by (intros i; by apply Hs).
      destruct (decide (q = rel)) as [->|Hqr].
      * assert (hidden h rel c = false) as ->.
        { unfold hidden. apply andb_false_iff. left. apply bool_decide_eq_false_2. by rewrite (proj2 (kind_at_None _ _) Hnone). }
        assert (forall d, stage (Upper, rel ++ [d]) -> kind_at h' (Upper, rel ++ [d]) = None) as Hch.
        { intros d Hd. rewrite (kind_of_look h h'); [|apply Hs; [done|intros [= E]; by eapply snoc_neq]].
          destruct (kind_at h (Upper, rel ++ [d])) eqn:E; [|done].
          apply (wf_parent_dir h _ _ _ _ W) in E. apply kind_at_Some in E as (? & ? & _). congruence. }
        assert (hidden h' rel c = false) as ->; [|done].
        unfold hidden, opaque_at. unfold whiteout_path. rewrite !Hch by (first [by apply stage_opaque | by apply (stage_whiteout rel c)]).
        rewrite Hsome. cbn [from_option]. destruct (decide (i_kind n = KDir)) as [Hd|Hd].
        -- rewrite Hxo by done. rewrite !(bool_decide_eq_false_2 (is_Some _)) by (by intros []). apply andb_false_r.
        -- rewrite bool_decide_eq_false_2; [done|]. unfold kind_at. rewrite Hsome. cbn. congruence.
      * rewrite (hidden_look h h'); [done|..]; apply Hs; auto using stage_whiteout; try congruence.
        -- intros [= E]. rewrite <- E in Ht. apply tidy_snoc in Ht as [_ Ht]. by rewrite whiteout_is_marker in Ht.
        -- intros [= E]. rewrite <- E in Ht. apply tidy_snoc in Ht as [_ Ht]. done.
  - exact Hl.
  - done.
  - intros p k Hp Hk. destruct (decide (p = rel)) as [->|Hpr].
    + apply kind_at_Some in Hk as (? & ? & _). congruence.
    + rewrite (kind_of_look h h'); [done|]. apply Hs; [auto|congruence].
  - intros q Hq Hd Ho. destruct (decide (q = rel)) as [->|Hqr].
    + apply kind_at_Some in Hd as (? & ? & _). congruence.
    + rewrite (opaque_look h h'); [done|..]; apply Hs; auto; [congruence|].
      intros [= E]. rewrite <- E in Ht. apply tidy_snoc in Ht as [_ Ht]. done.
  - intros S q c Hp Hk. pose proof Hp as [Hq Hc]%plain_snoc.
    rewrite (kind_of_look h h' (whiteout_path q c)).
    2: { apply Hs; [auto|]. unfold whiteout_path. intros [= E]. rewrite <- E in Ht. apply tidy_snoc in Ht as [_ Ht]. by rewrite whiteout_is_marker in Ht. }
    destruct (decide (q ++ [c] = rel)) as [<-|Hrel].
    + specialize (Hv Hp). rewrite view_snoc in Hv. case_decide; [|done]. rewrite entry_unfold in Hv.
      rewrite (proj2 (kind_at_None _ _) Hnone) in Hv. unfold hidden in Hv.
      destruct (kind_at h (whiteout_path q c)) as [k|] eqn:Ew; [|done]. exfalso.
      pose proof (wf_parent_dir h Upper q _ k W Ew) as Hd. rewrite Hd in Hv.
      rewrite (bool_decide_eq_true_2 (Some KDir = Some KDir)) in Hv by done. rewrite bool_decide_eq_true_2 in Hv by (by eexists). done.
    + rewrite (kind_of_look h h') in Hk by (apply Hs; [auto|congruence]). by apply S.
Qed.

(** ** Calls of the host *)

Lemma upper_not_lower p : ~ is_lower (Upper, p).
Proof. by intros []. Qed.
Lemma work_not_lower p : ~ is_lower (Work, p).
Proof. by intros []. Qed.
Lemma is_lower_dec l : {exists i, l.1 = Lower i} + {~ is_lower l}.
Proof. destruct l as [[| i |] p]; [right|left|right]; cbn; eauto. Defined.

Lemma lower_node_same h h' l : hinv h -> (forall l', is_lower l' -> h_names h' !! l' = h_names h !! l') ->
  (forall l' i, is_lower l' -> h_names h !! l' = Some i -> h_inodes h' !! i = h_inodes h !! i) -> is_lower l ->
  h_names h' !! l = h_names h !! l /\ node h' l = node h l.
Proof.
  intros I Hn Hi Hl. split; [by apply Hn|]. unfold node. rewrite Hn by done.
  destruct (h_names h !! l) as [i|] eqn:E; cbn; [|done]. by eapply Hi.
Qed.

(** A change of attributes that does not make anything opaque. *)
Definition mild (f : Inode -> Inode) : Prop := forall n, i_kind (f n) = i_kind n /\ xattr_opaque (f n) = xattr_opaque n.

Lemma look_update h l f i n l' : h_names h !! l = Some i -> h_inodes h !! i = Some n -> mild f ->
  look (set_inodes (<[i := f n]> (h_inodes h)) h) l' = look h l'.
Proof.
  intros Hi Hn Hf. unfold look. rewrite (node_update h l f i n l' Hi Hn). case_decide as Hj; [|done].
  assert (node h l' = Some n) as -> by (apply node_Some; eauto). unfold fmap, option_fmap, option_map. by rewrite (proj1 (Hf n)), (proj2 (Hf n)).
Qed.

Lemma update_lower h l f i n : hinv h -> ~ is_lower l -> h_names h !! l = Some i -> h_inodes h !! i = Some n ->
  forall j p, h_names (set_inodes (<[i := f n]> (h_inodes h)) h) !! (Lower j, p) = h_names h !! (Lower j, p) /\
    node (set_inodes (<[i := f n]> (h_inodes h)) h) (Lower j, p) = node h (Lower j, p).
Proof.
  intros I Hl Hi Hn j p. apply lower_node_same; [done|done| |done].
  intros l' k Hl' Hk. cbn. rewrite lookup_insert_ne; [done|]. intros <-. apply Hl. by eapply (hinv_apart h I l' l).
Qed.

Lemma fs_update_cases h l f : wf h -> is_Some (node h l) -> exists i n,
  h_names h !! l = Some i /\ h_inodes h !! i = Some n /\ fs_update l f h = (Ok tt, set_inodes (<[i := f n]> (h_inodes h)) h).
Proof.
  intros W [n Hn]. pose proof Hn as (i & Hi & Hin)%node_Some. exists i, n. split_and!; [done..|].
  unfold fs_update, in_directory. destruct l as [r p]. rewrite reach_present; [|done|unfold kind_at; rewrite Hn; by eexists].
  rewrite Hi. cbn. by rewrite Hin.
Qed.
Lemma hquiet_update h l f : hinv h -> ~ is_lower l -> is_Some (node h l) -> mild f ->
  exists h', fs_update l f h = (Ok tt, h') /\ hquiet h h' /\ h_names h' = h_names h /\ forall l', look h' l' = look h l'.
Proof.
  intros I Hl Hs Hf. destruct (fs_update_cases h l f (hinv_wf h I) Hs) as (i & n & Hi & Hn & ->).
  eexists. split; [done|]. split; [|split; [done|by intros l'; apply (look_update h l)]].
  apply hquiet_stage; [done|..].
  - apply (wf_update h l); [apply (hinv_wf h I)|done..|]. by rewrite (proj1 (Hf n)).
  - exact (hinv_apart h I).
  - done.
  - by apply (update_lower h l).
  - intros l' _. by apply (look_update h l).
Qed.

Lemma mild_owner u g : mild (with_owner u g).
Proof. done. Qed.
Lemma mild_perm m : mild (with_perm m).
Proof. done. Qed.
Lemma mild_times a m : mild (with_times a m).
Proof. done. Qed.
Lemma mild_xattr name value : is_opaque_xattr name = false -> mild (with_xattr name value).
Proof.
  intros Hn n. split; [done|]. unfold is_opaque_xattr in Hn. apply bool_decide_eq_false in Hn.
  unfold xattr_opaque. cbn [i_xattrs with_xattr]. revert Hn. generalize OPAQUE_XATTRS as xs. induction xs as [|x xs IH]; [done|].
  intros [Hx Hxs]%not_elem_of_cons. cbn [existsb]. rewrite lookup_insert_ne by done. f_equal. by apply IH.
Qed.

(** A new object at a place that does not count. *)
Lemma add_lower h l n : hinv h -> ~ is_lower l -> forall i p,
  h_names (add_inode l n h) !! (Lower i, p) = h_names h !! (Lower i, p) /\ node (add_inode l n h) (Lower i, p) = node h (Lower i, p).
Proof.
  intros I Hl i p. assert (l <> (Lower i, p)) as Hne by (intros ->; by apply Hl). split.
  - cbn. by rewrite lookup_insert_ne.
  - rewrite node_add_inode by apply (hinv_wf h I). by rewrite decide_False by congruence.
Qed.
Lemma apart_add h l n : hinv h -> ~ is_lower l -> apart (add_inode l n h).
Proof.
  intros I Hl l1 l2 i. cbn. rewrite !lookup_insert_Some. intros [[<- <-]|[_ H1]] [[<- H2]|[_ H2]] Hlow; try done.
  - subst i. apply (wf_inodes h (hinv_wf h I)) in H1. rewrite fresh_ino_fresh in H1. by destruct H1.
  - by eapply (hinv_apart h I l1 l2).
Qed.
Lemma look_add h l n l' : wf h -> l' <> l -> look (add_inode l n h) l' = look h l'.
Proof. intros W Hne. unfold look. by rewrite node_add_inode, decide_False. Qed.

Lemma hquiet_add_off h r q c n : hinv h -> ~ is_lower (r, q) -> ~ stage (r, q ++ [c]) -> kind_at h (r, q) = Some KDir ->
  h_names h !! (r, q ++ [c]) = None -> hquiet h (add_inode (r, q ++ [c]) n h).
Proof.
  intros I Hl Hs Hd Hn. apply hquiet_stage; [done|..].
  - by apply wf_add_inode; [apply (hinv_wf h I)|..].
  - by apply apart_add.
  - done.
  - by apply add_lower.
  - intros l' Hl'. apply look_add; [apply (hinv_wf h I)|]. by intros ->.
Qed.
End Quiet.
