(* ===== verification/OverlayCopy.v ===== *)
(** * Copying up does not show

    The operations that prepare a change: recording first observations, creating
    the parents of a path in the upper, and copying an object up. Whatever their
    outcome, the merged view is the one before, and no lower is touched. *)
From stdpp Require Import base tactics list strings gmap pretty.
From Stdlib Require Import ZArith Lia Ascii.
From S2P Require Import Prelude RustStr FileAccess HostFs HostFsFacts Overlay OverlayView OverlayQuiet.
Local Open Scope nat_scope.

Section Copy.
Context (core : OverlayCore) `{AccessOps, Digest256}.
Local Abbreviation count := (oc_lowers core).
Local Abbreviation hinv := (hinv core).
Local Abbreviation hquiet := (hquiet core).

(** The upper paths of a group hold what the lower inode holds. *)
Definition groups_agree (w : World) : Prop :=
  forall i paths p, w_groups w !! i = Some paths -> p ∈ paths ->
    tidy p /\ exists l n, is_lower l /\ h_names (w_host w) !! l = Some i /\ h_inodes (w_host w) !! i = Some n /\
      is_file (i_kind n) = true /\ kind_at (w_host w) (Upper, p) = Some (i_kind n).
Record inv (w : World) : Prop := mkInv { inv_host : hinv (w_host w); inv_groups : groups_agree w }.

Record quiet (w w' : World) : Prop := mkQuiet {
  qt_inv : inv w';
  qt_host : hquiet (w_host w) (w_host w');
  qt_pre p f : w_preimages w !! p = Some f -> w_preimages w' !! p = Some f
}.

Lemma quiet_refl w : inv w -> quiet w w.
Proof. intros I. constructor; [done| |done]. apply hquiet_refl, I. Qed.
Lemma quiet_trans w1 w2 w3 : quiet w1 w2 -> quiet w2 w3 -> quiet w1 w3.
Proof. intros [I1 H1 P1] [I2 H2 P2]. constructor; [done|by eapply hquiet_trans|eauto]. Qed.

Lemma groups_agree_quiet w w' : inv w -> hquiet (w_host w) (w_host w') -> w_groups w' = w_groups w -> groups_agree w'.
Proof.
  intros I Q Hg i paths p Hi Hp. rewrite Hg in Hi. destruct (inv_groups w I i paths p Hi Hp) as (Ht & l & n & Hl & Hn & Hin & Hf & Hk).
  split; [done|]. destruct l as [[| j |] q]; try done. destruct (hq_lower _ _ _ Q j q) as [E1 E2].
  exists (Lower j, q), n. split_and!; [done|by rewrite E1| |done|by apply (hq_grow _ _ _ Q)].
  assert (node (w_host w) (Lower j, q) = Some n) as Hnode by (apply node_Some; eauto).
  rewrite <- E2 in Hnode. apply node_Some in Hnode as (i' & Hi' & ?). congruence.
Qed.
Lemma quiet_host w w' : inv w -> hquiet (w_host w) (w_host w') -> w_groups w' = w_groups w ->
  (forall p f, w_preimages w !! p = Some f -> w_preimages w' !! p = Some f) -> quiet w w'.
Proof. intros I Q Hg Hp. constructor; [|done..]. constructor; [apply (hq_inv _ _ _ Q)|]. by eapply groups_agree_quiet. Qed.
Lemma quiet_drop_fault w : inv w -> quiet w (drop_fault w).
Proof. intros I. apply quiet_host; [done|apply hquiet_refl, I|done..]. Qed.
Lemma quiet_set_host w h : inv w -> hquiet (w_host w) h -> quiet w (set_host h (drop_fault w)).
Proof. intros I Q. by apply quiet_host. Qed.

(** An operation all of whose outcomes are quiet. *)
Definition Quiet {A} (m : Op A) : Prop := forall w r w', inv w -> m w = (r, w') -> quiet w w'.

Lemma Quiet_pure {A} (m : Op A) : (forall w, (m w).2 = w) -> Quiet m.
Proof. intros Hm w r w' I E. specialize (Hm w). rewrite E in Hm. cbn in Hm. subst. by apply quiet_refl. Qed.
Lemma Quiet_bind {A B} (m : Op A) (k : A -> Op B) : Quiet m -> (forall a, Quiet (k a)) -> Quiet (m ≫= k).
Proof.
  intros Hm Hk w r w' I E. unfold mbind, op_bind in E. destruct (m w) as [[a|e] w1] eqn:E1.
  - pose proof (Hm _ _ _ I E1) as Q. eapply quiet_trans; [exact Q|]. exact (Hk a _ _ _ (qt_inv _ _ Q) E).
  - injection E as <- <-. eauto.
Qed.
Lemma Quiet_ret {A} (a : A) : Quiet (mret a).
Proof. by apply Quiet_pure. Qed.
Lemma Quiet_raise {A} e : Quiet (@raise A e).
Proof. by apply Quiet_pure. Qed.
Lemma Quiet_lift {A} (r : Result IoErr A) : Quiet (lift r).
Proof. by apply Quiet_pure. Qed.
Lemma Quiet_reading {A} (f : Host -> Result IoErr A) : Quiet (reading f).
Proof. by apply Quiet_pure. Qed.
Lemma Quiet_asking {A} (f : Host -> A) : Quiet (asking f).
Proof. by apply Quiet_pure. Qed.
Lemma Quiet_if_then b m : Quiet m -> Quiet (if_then b m).
Proof. intros Hm. destruct b; [done|apply Quiet_ret]. Qed.
Lemma Quiet_for {A} (f : A -> Op unit) l : (forall x, x ∈ l -> Quiet (f x)) -> Quiet (op_for f l).
Proof.
  induction l as [|x l IH]; intros Hf; cbn; [apply Quiet_ret|].
  apply Quiet_bind; [apply Hf; left|]. intros _. apply IH. intros y Hy. apply Hf. by right.
Qed.
Lemma Quiet_ignore {A} (m : Op A) : Quiet m -> Quiet (ignore m).
Proof. intros Hm w r w' I E. unfold ignore in E. destruct (m w) as [r1 w1] eqn:E1. injection E as <- <-. eauto. Qed.
Lemma Quiet_unless_error ok m : Quiet m -> Quiet (unless_error ok m).
Proof.
  intros Hm w r w' I E. unfold unless_error in E. destruct (m w) as [[a|e] w1] eqn:E1; injection E as <- <-; eauto.
Qed.
Lemma Quiet_fault : Quiet fault.
Proof.
  intros w r w' I E. unfold fault in E. assert (w' = drop_fault w) as -> by (destruct (w_faults w) as [|[]]; by injection E).
  by apply quiet_drop_fault.
Qed.

Lemma call_cases f w r w' : call f w = (r, w') ->
  (exists e, r = Err (failure_errno e) /\ w' = drop_fault w) \/
  (exists h, f (w_host w) = (r, h) /\ w' = set_host h (drop_fault w)).
Proof.
  unfold call, fault. destruct (w_faults w) as [|[e|] faults]; cbn.
  - destruct (f (w_host w)) as [r1 h]. intros [= <- <-]. right. eauto.
  - intros [= <- <-]. left. eauto.
  - destruct (f (w_host w)) as [r1 h]. intros [= <- <-]. right. eauto.
Qed.

Lemma set_preimages_quiet w pre synced : inv w -> (forall p f, w_preimages w !! p = Some f -> pre !! p = Some f) ->
  quiet w (set_preimages pre synced w).
Proof. intros I Hp. apply quiet_host; [done|apply hquiet_refl, I|done..]. Qed.

(** ** First observations *)

Lemma Quiet_mark_synced rel : Quiet (mark_synced rel).
Proof. intros w r w' I [= <- <-]. by apply set_preimages_quiet. Qed.
(** An observation is published only for a path that has none. *)
Lemma Quiet_capture rel durable absent : Quiet (capture_preimage_after_check core rel durable absent).
Proof.
  unfold capture_preimage_after_check. destruct (oc_stage_writable core); [|apply Quiet_raise].
  destruct (oc_has_journal core); [|apply Quiet_ret]. cbn [negb].
  apply Quiet_bind; [apply Quiet_lift|]. intros _. destruct (oc_record_observations core); [|apply Quiet_ret]. cbn [negb].
  intros w r w' I E. unfold mbind at 1, op_bind at 1, has_preimage in E.
  case_bool_decide as Hp.
  - revert E. apply (Quiet_bind (is_synced rel)); [by apply Quiet_pure| |done]. intros b. apply Quiet_if_then.
    apply Quiet_bind; [apply Quiet_fault|]. intros _. apply Quiet_mark_synced.
  - assert (w_preimages w !! rel = None) as Hnone by (destruct (w_preimages w !! rel); [exfalso; apply Hp; by eexists|done]).
    assert (exists s, (if absent then mret FpAbsent else reading (fun h => fingerprint_at h (baseline core) rel)) w = (s, w)) as [s Hs].
    { destruct absent; [by eexists|]. unfold reading. by eexists. }
    unfold mbind at 1, op_bind at 1 in E. rewrite Hs in E. destruct s as [s|e]; [|injection E as <- <-; by apply quiet_refl].
    unfold mbind at 1, op_bind at 1 in E. destruct (fault w) as [[[]|e] w1] eqn:E1; [|injection E as <- <-; by eapply Quiet_fault].
    pose proof (Quiet_fault _ _ _ I E1) as Q1. eapply quiet_trans; [exact Q1|].
    assert (w_preimages w1 = w_preimages w) as Hpre.
    { unfold fault in E1. destruct (w_faults w) as [|[]]; simplify_eq; done. }
    unfold mbind at 1, op_bind at 1, publish_preimage in E.
    assert (quiet w1 (set_preimages (<[rel := s]> (w_preimages w1)) (w_synced w1) w1)) as Q2.
    { apply set_preimages_quiet; [apply Q1|]. intros p f Hf. rewrite lookup_insert_ne; [done|]. intros <-. congruence. }
    eapply quiet_trans; [exact Q2|]. revert E. apply Quiet_if_then; [|apply Q2].
    apply Quiet_bind; [apply Quiet_fault|]. intros _. apply Quiet_mark_synced.
Qed.
Lemma Quiet_record rel : Quiet (record_preimage core rel).
Proof. apply Quiet_capture. Qed.
Lemma Quiet_observe_absence rel : Quiet (observe_absence core rel).
Proof. unfold observe_absence. destruct (oc_frozen_baseline core); [apply Quiet_ret|apply Quiet_capture]. Qed.
Lemma Quiet_resolve rel : Quiet (resolve core rel).
Proof. apply Quiet_reading. Qed.
Lemma Quiet_metadata_resolved rel : Quiet (metadata_resolved core rel).
Proof.
  apply Quiet_bind; [|intros; apply Quiet_lift]. apply Quiet_bind; [apply Quiet_resolve|]. intros m.
  apply Quiet_bind; [|intros; apply Quiet_ret]. destruct m; [apply Quiet_ret|apply Quiet_observe_absence].
Qed.
Lemma Quiet_metadata rel : Quiet (metadata core rel).
Proof. apply Quiet_bind; [apply Quiet_metadata_resolved|intros; apply Quiet_ret]. Qed.

(** What a resolution reports. *)
Lemma resolve_Some w rel m w' : inv w -> resolve core rel w = (Ok (Some m), w') ->
  w' = w /\ require_visible core rel = Ok tt /\ located core (w_host w) rel (rm_path m) /\ resolved_at (w_host w) (rm_path m) m.
Proof.
  intros I E. unfold resolve, reading in E. injection E as E <-. split; [done|].
  pose proof (resolve_spec core (w_host w) (hinv_wf _ _ (inv_host w I)) (hinv_rooted _ _ (inv_host w I)) rel) as Hs.
  rewrite E in Hs. destruct Hs as (Hv & l & Hl & Hm & _). pose proof Hm as (<- & _). done.
Qed.
Lemma resolve_unaliased w rel m w' : inv w -> resolve core rel w = (Ok (Some m), w') ->
  require_unaliased_metadata (w_host w) (rm_ino m) (rm_node m) = Ok tt.
Proof.
  intros I E. unfold resolve, reading in E. injection E as E <-.
  pose proof (resolve_spec core (w_host w) (hinv_wf _ _ (inv_host w I)) (hinv_rooted _ _ (inv_host w I)) rel) as Hs.
  rewrite E in Hs. by destruct Hs as (_ & l & _ & _ & Hu).
Qed.
Lemma resolve_None w rel w' : inv w -> resolve core rel w = (Ok None, w') ->
  w' = w /\ require_visible core rel = Ok tt /\ view count (w_host w) rel = None.
Proof.
  intros I E. unfold resolve, reading in E. injection E as E <-. split; [done|].
  pose proof (resolve_spec core (w_host w) (hinv_wf _ _ (inv_host w I)) (hinv_rooted _ _ (inv_host w I)) rel) as Hs.
  by rewrite E in Hs.
Qed.
Lemma metadata_resolved_Ok w rel m w' : inv w -> metadata_resolved core rel w = (Ok m, w') ->
  w' = w /\ require_visible core rel = Ok tt /\ located core (w_host w) rel (rm_path m) /\ resolved_at (w_host w) (rm_path m) m.
Proof.
  intros I E. unfold metadata_resolved, metadata_optional, mbind, op_bind in E.
  destruct (resolve core rel w) as [[[m1|]|e] w1] eqn:E1; [| |done].
  - destruct (resolve_Some _ _ _ _ I E1) as (-> & ?). cbn in E. injection E as <- <-. done.
  - destruct (observe_absence core rel w1) as [[]]; done.
Qed.
Lemma metadata_Ok w rel n w' : inv w -> metadata core rel w = (Ok n, w') ->
  w' = w /\ require_visible core rel = Ok tt /\ exists l, located core (w_host w) rel l /\ node (w_host w) l = Some n.
Proof.
  intros I E. unfold metadata, mbind, op_bind in E. destruct (metadata_resolved core rel w) as [[m|e] w1] eqn:E1; [|done].
  destruct (metadata_resolved_Ok _ _ _ _ I E1) as (-> & Hv & Hl & _ & _ & Hm). injection E as <- <-. eauto.
Qed.
Lemma metadata_view w rel n w' : inv w -> metadata core rel w = (Ok n, w') -> view count (w_host w) rel = Some (i_kind n).
Proof.
  intros I E. destruct (metadata_Ok _ _ _ _ I E) as (_ & _ & l & Hl & Hn).
  rewrite (proj1 (located_view core _ (hinv_rooted _ _ (inv_host w I)) _ _ Hl)). unfold kind_at. by rewrite Hn.
Qed.

(** ** Attributes *)

(** The object at [l] stays, and all that counts stays as it is. *)
Record calm (w w' : World) : Prop := mkCalm {
  cm_quiet : quiet w w';
  cm_names : h_names (w_host w') = h_names (w_host w);
  cm_look l : look (w_host w') l = look (w_host w) l;
  cm_groups : w_groups w' = w_groups w
}.
Definition CalmAt {A} (l : Loc) (m : Op A) : Prop :=
  forall w r w', inv w -> is_Some (node (w_host w) l) -> m w = (r, w') -> calm w w'.

Lemma calm_refl w : inv w -> calm w w.
Proof. intros I. by constructor; [apply quiet_refl|..]. Qed.
Lemma calm_trans w1 w2 w3 : calm w1 w2 -> calm w2 w3 -> calm w1 w3.
Proof.
  intros [Q1 N1 L1 G1] [Q2 N2 L2 G2]. constructor; [by eapply quiet_trans|congruence|intros l; by rewrite L2|congruence].
Qed.
Lemma node_of_look h h' l : look h' l = look h l -> is_Some (node h l) -> is_Some (node h' l).
Proof. unfold look. destruct (node h' l), (node h l); naive_solver. Qed.

Lemma CalmAt_pure {A} l (m : Op A) : (forall w, (m w).2 = w) -> CalmAt l m.
Proof. intros Hm w r w' I _ E. specialize (Hm w). rewrite E in Hm. cbn in Hm. subst. by apply calm_refl. Qed.
Lemma CalmAt_bind {A B} l (m : Op A) (k : A -> Op B) : CalmAt l m -> (forall a, CalmAt l (k a)) -> CalmAt l (m ≫= k).
Proof.
  intros Hm Hk w r w' I Hs E. unfold mbind, op_bind in E. destruct (m w) as [[a|e] w1] eqn:E1.
  - pose proof (Hm _ _ _ I Hs E1) as Q. eapply calm_trans; [exact Q|].
    refine (Hk a _ _ _ (qt_inv _ _ (cm_quiet _ _ Q)) _ E). eapply node_of_look; [apply (cm_look _ _ Q)|done].
  - injection E as <- <-. eauto.
Qed.
Lemma CalmAt_if_then l b m : CalmAt l m -> CalmAt l (if_then b m).
Proof. intros Hm. destruct b; [done|by apply CalmAt_pure]. Qed.
Lemma CalmAt_unless_error l ok m : CalmAt l m -> CalmAt l (unless_error ok m).
Proof.
  intros Hm w r w' I Hs E. unfold unless_error in E. destruct (m w) as [[a|e] w1] eqn:E1; injection E as <- <-; eauto.
Qed.
Lemma CalmAt_for {A} l (f : A -> Op unit) xs : (forall x, CalmAt l (f x)) -> CalmAt l (op_for f xs).
Proof.
  intros Hf. induction xs as [|x xs IH]; cbn; [by apply CalmAt_pure|]. apply CalmAt_bind; [done|by intros _].
Qed.
Lemma CalmAt_update l f : ~ is_lower l -> mild f -> CalmAt l (call (fs_update l f)).
Proof.
  intros Hl Hf w r w' I Hs E. apply call_cases in E as [(e & -> & ->)|(h & Eh & ->)].
  - constructor; [by apply quiet_drop_fault|done..].
  - destruct (hquiet_update core (w_host w) l f (inv_host w I) Hl Hs Hf) as (h' & Eh' & Q & Hn & Hlook).
    rewrite Eh in Eh'. injection Eh' as -> ->. constructor; [by apply quiet_set_host|done..].
Qed.
Lemma CalmAt_copy_metadata source l n : ~ is_lower l -> CalmAt l (copy_metadata source l n).
Proof.
  intros Hl. unfold copy_metadata.
  apply CalmAt_bind; [apply CalmAt_unless_error, CalmAt_update; [done|apply mild_owner]|]. intros _.
  apply CalmAt_bind; [apply CalmAt_if_then, CalmAt_update; [done|apply mild_perm]|]. intros _.
  apply CalmAt_bind; [|intros _; apply CalmAt_unless_error, CalmAt_update; [done|apply mild_times]].
  apply CalmAt_unless_error. unfold copy_user_xattrs. apply CalmAt_bind; [by apply CalmAt_pure|].
  intros [i m]. apply CalmAt_for. intros [name value].
  destruct (bool_decide _ || _) eqn:E; [by apply CalmAt_pure|]. apply orb_false_iff in E as [_ E].
  apply CalmAt_update; [done|by apply mild_xattr].
Qed.

(** ** Parents *)

(** Operations on the journal leave the file system alone. *)
Definition HostSame {A} (m : Op A) : Prop :=
  forall w r w', m w = (r, w') -> w_host w' = w_host w /\ w_groups w' = w_groups w /\ w_temp w' = w_temp w.
Lemma HostSame_bind {A B} (m : Op A) (k : A -> Op B) : HostSame m -> (forall a, HostSame (k a)) -> HostSame (m ≫= k).
Proof.
  intros Hm Hk w r w' E. unfold mbind, op_bind in E. destruct (m w) as [[a|e] w1] eqn:E1.
  - destruct (Hm _ _ _ E1) as (<- & <- & <-). exact (Hk a _ _ _ E).
  - injection E as <- <-. eauto.
Qed.
Lemma HostSame_pure {A} (m : Op A) : (forall w, w_host (m w).2 = w_host w /\ w_groups (m w).2 = w_groups w /\ w_temp (m w).2 = w_temp w) -> HostSame m.
Proof. intros Hm w r w' E. specialize (Hm w). by rewrite E in Hm. Qed.
Lemma HostSame_fault : HostSame fault.
Proof. apply HostSame_pure. intros w. unfold fault. by destruct (w_faults w) as [|[]]. Qed.
Lemma HostSame_capture rel durable absent : HostSame (capture_preimage_after_check core rel durable absent).
Proof.
  unfold capture_preimage_after_check. repeat (case_match; [by apply HostSame_pure|]).
  apply HostSame_bind; [by apply HostSame_pure|]. intros _. case_match; [by apply HostSame_pure|].
  apply HostSame_bind; [by apply HostSame_pure|]. intros [].
  - apply HostSame_bind; [by apply HostSame_pure|]. intros b. unfold if_then. case_match; [|by apply HostSame_pure].
    apply HostSame_bind; [apply HostSame_fault|intros _; by apply HostSame_pure].
  - apply HostSame_bind; [destruct absent; by apply HostSame_pure|]. intros state.
    apply HostSame_bind; [apply HostSame_fault|]. intros _. apply HostSame_bind; [by apply HostSame_pure|]. intros _.
    unfold if_then. case_match; [|by apply HostSame_pure]. apply HostSame_bind; [apply HostSame_fault|intros _; by apply HostSame_pure].
Qed.

Lemma HostSame_metadata_resolved rel : HostSame (metadata_resolved core rel).
Proof.
  apply HostSame_bind; [|intros; by apply HostSame_pure]. apply HostSame_bind; [by apply HostSame_pure|]. intros m.
  apply HostSame_bind; [|intros; by apply HostSame_pure]. destruct m; [by apply HostSame_pure|].
  unfold observe_absence. destruct (oc_frozen_baseline core); [by apply HostSame_pure|apply HostSame_capture].
Qed.

Lemma hquiet_add_new h q c n : hinv h -> tidy (q ++ [c]) -> kind_at h (Upper, q) = Some KDir ->
  h_names h !! (Upper, q ++ [c]) = None -> (i_kind n = KDir -> xattr_opaque n = false) ->
  (plain (q ++ [c]) -> view count h (q ++ [c]) = Some (i_kind n)) -> hquiet h (add_inode (Upper, q ++ [c]) n h).
Proof.
  intros I Ht Hd Hn Hx Hv. pose proof (hinv_wf _ _ I) as W. apply (hquiet_new core h _ (q ++ [c]) n); [done|..].
  - by apply wf_add_inode.
  - apply (apart_add core); [done|apply upper_not_lower].
  - done.
  - apply (add_lower core); [done|apply upper_not_lower].
  - intros l _ Hl. by apply look_add.
  - done.
  - by destruct q.
  - by apply node_names.
  - by rewrite node_add_inode, decide_True.
  - done.
  - done.
Qed.

Lemma bind_inv {A B} (m : Op A) (k : A -> Op B) w r w' : (m ≫= k) w = (r, w') ->
  (exists a w1, m w = (Ok a, w1) /\ k a w1 = (r, w')) \/ (exists e, m w = (Err e, w') /\ r = Err e).
Proof.
  unfold mbind, op_bind. destruct (m w) as [[a|e] w1]; intros E; [left; eauto|right]. injection E as <- <-. eauto.
Qed.

Lemma fs_create_cases h r q c k perm : wf h -> kind_at h (r, q) = Some KDir ->
  fs_create (r, q ++ [c]) k perm h =
    match h_names h !! (r, q ++ [c]) with
    | Some _ => (Err EEXIST, h)
    | None => (Ok tt, add_inode (r, q ++ [c]) (new_inode k perm) h)
    end.
Proof. intros W Hd. unfold fs_create, in_directory. by rewrite (proj2 (reach_ok h r q c W)). Qed.

(** What holds when the parents of a path are in the upper. *)
Definition Ensured (q : Path) (w : World) (r : Result IoErr unit) (w' : World) : Prop :=
  quiet w w' /\ w_groups w' = w_groups w /\ (r = Ok tt -> kind_at (w_host w') (Upper, q) = Some KDir) /\
  (forall l, (forall p, p `prefix_of` q -> l <> (Upper, p)) -> look (w_host w') l = look (w_host w) l).

Lemma Ensured_stop q w e : inv w -> Ensured q w (Err e) w.
Proof. intros I. split; [by apply quiet_refl|done]. Qed.
Lemma Ensured_same q w e w' : quiet w w' -> w_host w' = w_host w /\ w_groups w' = w_groups w /\ w_temp w' = w_temp w -> Ensured q w (Err e) w'.
Proof. intros Q (Hh & G & _). split_and!; [done..|by rewrite Hh]. Qed.
Lemma ensure_dir_quiet q c w r w' : inv w -> tidy (q ++ [c]) -> kind_at (w_host w) (Upper, q) = Some KDir ->
  ensure_dir core (q ++ [c]) w = (r, w') -> Ensured (q ++ [c]) w r w'.
Proof.
  intros I Ht Hd E. pose proof (hinv_wf _ _ (inv_host w I)) as W.
  apply bind_inv in E as [(stat & w1 & [= <- <-] & E)|(e & [=] & _)]. rewrite lstat_child in E by done.
  destruct (node (w_host w) (Upper, q ++ [c])) as [n|] eqn:En.
  - destruct (is_dir (i_kind n)) eqn:Edir; injection E as <- <-; [|by apply Ensured_stop].
    split; [by apply quiet_refl|]. split; [done|]. split; [|done]. intros _. unfold kind_at. rewrite En. cbn. by destruct (i_kind n).
  - rewrite bool_decide_eq_true_2 in E by done.
    apply bind_inv in E as [(m & w1 & E1 & E)|(e & E1 & ->)]; [|by apply (Ensured_same _ _ _ _ (Quiet_metadata_resolved _ _ _ _ I E1) (HostSame_metadata_resolved _ _ _ _ E1))].
    destruct (metadata_resolved_Ok _ _ _ _ I E1) as (-> & Hv & Hl & Hm).
    destruct (is_dir (i_kind (rm_node m))) eqn:Edir; [|injection E as <- <-; by apply Ensured_stop]. cbn [negb] in E.
    apply bind_inv in E as [([] & w3 & E3 & E)|(e & E3 & ->)]; [|by apply (Ensured_same _ _ _ _ (Quiet_record _ _ _ _ I E3) (HostSame_capture _ _ _ _ _ _ E3))].
    pose proof (Quiet_record _ _ _ _ I E3) as Q3. destruct (HostSame_capture _ _ _ _ _ _ E3) as (H3 & G3 & _).
    apply bind_inv in E as [([] & w4 & E4 & E)|(e & E4 & ->)].
    2: { apply call_cases in E4 as [(e' & _ & ->)|(h & Eh & ->)].
         - split_and!; [|done|done|by cbn; rewrite H3]. eapply quiet_trans; [exact Q3|]. apply quiet_drop_fault, Q3.
         - rewrite H3, fs_create_cases in Eh by done. rewrite (proj1 (node_names _ _ W) En) in Eh. done. }
    apply call_cases in E4 as [(e & [=] & _)|(h & Eh & ->)]. rewrite H3, fs_create_cases in Eh by done.
    rewrite (proj1 (node_names _ _ W) En) in Eh. injection Eh as <-.
    assert (hquiet (w_host w) (add_inode (Upper, q ++ [c]) (new_inode KDir 511) (w_host w))) as Qa.
    { apply hquiet_add_new; [apply I|done..|by apply node_names|done|]. intros _.
      rewrite (proj1 (located_view core _ (hinv_rooted _ _ (inv_host w I)) _ _ Hl)).
      destruct Hm as (_ & _ & Hm). unfold kind_at. rewrite Hm. cbn. by destruct (i_kind (rm_node m)). }
    assert (quiet w3 (set_host (add_inode (Upper, q ++ [c]) (new_inode KDir 511) (w_host w)) (drop_fault w3))) as Q4
      by (apply quiet_set_host; [apply Q3|by rewrite H3]).
    assert (calm (set_host (add_inode (Upper, q ++ [c]) (new_inode KDir 511) (w_host w)) (drop_fault w3)) w') as C5.
    { refine (CalmAt_copy_metadata (rm_path m) (Upper, q ++ [c]) (rm_node m) (upper_not_lower _) _ r w' (qt_inv _ _ Q4) _ E).
      cbn. rewrite node_add_inode, decide_True by done. by eexists. }
    split_and!.
    + eapply quiet_trans; [exact Q3|]. eapply quiet_trans; [exact Q4|apply C5].
    + rewrite (cm_groups _ _ C5). done.
    + intros _. rewrite (kind_of_look _ _ _ (cm_look _ _ C5 _)). cbn. by rewrite kind_add_inode, decide_True.
    + intros l Hl2. rewrite (cm_look _ _ C5). cbn. apply look_add; [done|]. by apply Hl2.
Qed.

Lemma Ensured_trans q s w1 r1 w2 r2 w3 : Ensured q w1 r1 w2 -> Ensured (q ++ s) w2 r2 w3 -> Ensured (q ++ s) w1 r2 w3.
Proof.
  intros (Q1 & G1 & _ & L1) (Q2 & G2 & K2 & L2). split_and!; [by eapply quiet_trans|congruence|done|].
  intros l Hl. rewrite L2 by done. apply L1. intros p Hp. apply Hl. by apply prefix_app_r.
Qed.
Lemma ensure_dirs_quiet at_ rest w r w' : inv w -> tidy (at_ ++ rest) -> kind_at (w_host w) (Upper, at_) = Some KDir ->
  ensure_dirs core at_ rest w = (r, w') -> Ensured (at_ ++ rest) w r w'.
Proof.
  revert at_ w. induction rest as [|c rest IH]; intros at_ w I Ht Hd E; cbn [ensure_dirs] in E.
  - injection E as <- <-. rewrite app_nil_r. split; [by apply quiet_refl|done].
  - assert (at_ ++ c :: rest = (at_ ++ [c]) ++ rest) as Happ by (by rewrite <- app_assoc). rewrite Happ in *.
    pose proof (proj1 (proj1 (tidy_app _ _) Ht)) as Ht1.
    apply bind_inv in E as [([] & w1 & E1 & E)|(e & E1 & ->)].
    + pose proof (ensure_dir_quiet _ _ _ _ _ I Ht1 Hd E1) as En. eapply Ensured_trans; [exact En|].
      apply IH; [apply (qt_inv _ _ (proj1 En))|done| |done]. by apply En.
    + destruct (ensure_dir_quiet _ _ _ _ _ I Ht1 Hd E1) as (Q & G & _ & L). split_and!; [done..|].
      intros l Hl. apply L. intros p Hp. apply Hl. by apply prefix_app_r.
Qed.
Lemma ensure_upper_parents_quiet q c w r w' : inv w -> tidy q -> ensure_upper_parents core (q ++ [c]) w = (r, w') -> Ensured q w r w'.
Proof.
  intros I Ht E. apply bind_inv in E as [([] & w1 & E1 & E)|(e & E1 & ->)].
  - injection E1 as E1 <-. rewrite parent_of_snoc in E. apply (ensure_dirs_quiet [] q); [done..| |done].
    apply (hinv_rooted _ _ (inv_host w I)).
  - injection E1 as E1 <-. by apply Ensured_stop.
Qed.
End Copy.
