(* ===== verification/OverlayCopyUp.v ===== *)
(** * Copying an object up

    [copy_up] publishes a copy of a lower object in the upper through a
    temporary name. Every outcome is quiet, and after a success the upper holds
    what the view shows. *)
From stdpp Require Import base tactics list strings gmap pretty.
From Stdlib Require Import ZArith Lia Ascii.
From S2P Require Import Prelude RustStr FileAccess HostFs HostFsFacts Overlay OverlayView OverlayQuiet OverlayCopy.
Local Open Scope nat_scope.

(** ** Temporary names *)

Definition temp_name (c : string) : Prop := starts_with c TEMP_PREFIX = true.

Lemma temp_name_whiteout c : temp_name c -> is_whiteout_name c = true.
Proof.
  intros [l Hl]%starts_with_spec. apply starts_with_spec. rewrite Hl. by eexists.
Qed.
Lemma temp_not_stage r q c : temp_name c -> ~ is_lower (r, q) -> ~ stage (r, q ++ [c]).
Proof.
  intros Ht Hl. pose proof (temp_name_whiteout _ Ht) as Hw. destruct r as [| i |]; cbn; [|by destruct Hl|by destruct q].
  intros [Hq|[(q' & d & Hq' & [_ Hd] & E)|(q' & Hq' & E)]].
  - apply tidy_snoc in Hq as [_ Hq]. congruence.
  - apply app_inj_tail in E as [_ ->]. apply starts_with_spec in Ht as [l Hl2].
    assert (starts_with d RESERVED = true); [|congruence]. apply starts_with_spec.
    exists (to_bytes "copyup-" ++ l)%list. change (to_bytes (WHITEOUT_PREFIX +:+ d)) with (to_bytes WHITEOUT_PREFIX ++ to_bytes d)%list in Hl2.
    change (to_bytes TEMP_PREFIX) with (to_bytes WHITEOUT_PREFIX ++ to_bytes RESERVED ++ to_bytes "copyup-")%list in Hl2.
    rewrite <- !app_assoc in Hl2. by apply app_inv_head in Hl2.
  - apply app_inj_tail in E as [_ ->]. by vm_compute in Ht.
Qed.

(** The name that [temporary_path] makes. *)
Lemma temporary_path_eq core parent w :
  exists r q c, temporary_path core parent w = (Ok (r, q ++ [c]), mkWorld (w_host w) (w_faults w) (w_groups w) (w_sources w) (w_preimages w) (w_synced w) (S (w_temp w)))
    /\ temp_name c /\ ~ is_lower (r, q) /\ ((oc_has_work core = true /\ r = Work /\ q = []) \/ (r = Upper /\ q = parent)).
Proof.
  unfold temporary_path. set (c := TEMP_PREFIX +:+ _). assert (temp_name c) as Hc.
  { apply starts_with_spec. by eexists (to_bytes (_ +:+ _)). }
  destruct (oc_has_work core) eqn:E.
  - exists Work, [], c. split_and!; [done..|by intros []|by left].
  - exists Upper, parent, c. split_and!; [done..|by intros []|by right].
Qed.

Section CopyUp.
Context (core : OverlayCore) `{AccessOps, Digest256}.
Local Abbreviation count := (oc_lowers core).
Local Abbreviation hinv := (hinv core).
Local Abbreviation hquiet := (hquiet core).
Local Abbreviation inv := (inv core).
Local Abbreviation quiet := (quiet core).

Lemma temporary_dir parent w r q : inv w -> kind_at (w_host w) (Upper, parent) = Some KDir ->
  ((oc_has_work core = true /\ r = Work /\ q = []) \/ (r = Upper /\ q = parent)) -> kind_at (w_host w) (r, q) = Some KDir.
Proof.
  intros I Hd [(Hw & -> & ->)|(-> & ->)]; [|done]. by apply (rooted_work core _ (hinv_rooted _ _ (inv_host _ w I))).
Qed.
Lemma Quiet_temporary_path parent : Quiet core (temporary_path core parent).
Proof.
  intros w r w' I E. assert (w' = (temporary_path core parent w).2) as -> by (by rewrite E).
  apply quiet_host; [done|apply hquiet_refl, I|done..].
Qed.

Lemma ignore_call_groups f w r w' : ignore (call f) w = (r, w') -> w_groups w' = w_groups w.
Proof.
  unfold ignore. destruct (call f w) as [r1 w1] eqn:E. intros [= <- <-].
  by apply call_cases in E as [(e & _ & ->)|(h & _ & ->)].
Qed.

(** ** Changes of the temporary name *)

Section Temporary.
Context (r : Root) (q : Path) (c : string) (Ht : temp_name c) (Hl : ~ is_lower (r, q)).
Local Abbreviation tmp := (r, q ++ [c]).

Lemma tmp_not_lower : ~ is_lower tmp.
Proof. done. Qed.
Lemma tmp_off : ~ stage tmp.
Proof. by apply temp_not_stage. Qed.

Lemma tmp_create h k perm : hinv h -> kind_at h (r, q) = Some KDir ->
  (exists h', fs_create tmp k perm h = (Ok tt, h') /\ h' = add_inode tmp (new_inode k perm) h /\ h_names h !! tmp = None /\ hquiet h h')
  \/ (exists e, fs_create tmp k perm h = (Err e, h)).
Proof.
  intros I Hd. rewrite fs_create_cases by (done || apply I). destruct (h_names h !! tmp) eqn:E; [right; eauto|left].
  eexists. split; [done|]. split_and!; [done..|]. apply hquiet_add_off; [done..|apply tmp_off|done|done].
Qed.

Lemma delete_apart h l : apart h -> apart (set_names (delete l (h_names h)) h).
Proof. intros A l1 l2 i. cbn. intros [_ H1]%lookup_delete_Some [_ H2]%lookup_delete_Some. by apply (A l1 l2 i). Qed.
Lemma hquiet_delete_tmp h : hinv h -> (forall d, h_names h !! (r, (q ++ [c]) ++ [d]) = None) ->
  hquiet h (set_names (delete tmp (h_names h)) h).
Proof.
  intros I Hch. apply hquiet_stage; [done|..].
  - by apply wf_delete; [apply I|].
  - apply delete_apart, I.
  - done.
  - intros i p. assert (tmp <> (Lower i, p)) as Hne by (intros [= -> _]; by apply Hl). split.
    + cbn. by rewrite lookup_delete_ne.
    + rewrite node_delete. by rewrite decide_False by congruence.
  - intros l Hs. unfold look. rewrite node_delete, decide_False; [done|]. intros ->. by apply tmp_off.
Qed.
Lemma file_no_children h k : wf h -> kind_at h tmp = Some k -> k <> KDir -> forall d, h_names h !! (r, (q ++ [c]) ++ [d]) = None.
Proof.
  intros W Hk Hne d. destruct (h_names h !! (r, (q ++ [c]) ++ [d])) eqn:E; [|done]. exfalso.
  pose proof (wf_parents h W r (q ++ [c]) d ltac:(rewrite E; by eexists)). congruence.
Qed.
Lemma tmp_remove h (dir : bool) : hinv h -> kind_at h (r, q) = Some KDir ->
  hquiet h ((if dir then fs_remove_dir tmp else fs_remove_file tmp) h).2.
Proof.
  intros I Hd. pose proof (hinv_wf _ _ I) as W. assert (reach h tmp = WalkOk) as Hr by (by apply reach_ok).
  destruct dir; unfold fs_remove_dir, fs_remove_file, in_directory; rewrite Hr;
    destruct (kind_at h tmp) as [k|] eqn:Ek; try (by apply hquiet_refl).
  - destruct k; try (by apply hquiet_refl). case_bool_decide as Hempty; [|by apply hquiet_refl].
    apply hquiet_delete_tmp; [done|]. intros d. destruct (h_names h !! (r, (q ++ [c]) ++ [d])) eqn:E; [|done].
    assert (d ∈ read_dir h tmp) as Hin by (apply read_dir_spec; rewrite E; by eexists). rewrite Hempty in Hin. by apply elem_of_nil in Hin.
  - destruct k; try (by apply hquiet_refl); apply hquiet_delete_tmp; try done; by eapply file_no_children.
Qed.
Lemma tmp_cleanup w r' w' (dir : bool) : inv w -> kind_at (w_host w) (r, q) = Some KDir ->
  ignore (call (if dir then fs_remove_dir tmp else fs_remove_file tmp)) w = (r', w') -> quiet w w'.
Proof.
  intros I Hd E. unfold ignore in E. destruct (call _ w) as [r1 w1] eqn:E1. injection E as <- <-.
  apply call_cases in E1 as [(e & _ & ->)|(h & Eh & ->)]; [by apply quiet_drop_fault|].
  apply quiet_set_host; [done|]. pose proof (tmp_remove (w_host w) dir (inv_host _ w I) Hd) as Q. by rewrite Eh in Q.
Qed.

(** Writing the contents of a temporary file of its own. *)
Definition sole (h : Host) : Prop := forall i l, h_names h !! tmp = Some i -> h_names h !! l = Some i -> l = tmp.
Lemma sole_add h n : wf h -> sole (add_inode tmp n h).
Proof.
  intros W i l. cbn. rewrite lookup_insert_eq. intros [= <-]. rewrite lookup_insert_Some. intros [[<- _]|[_ Hi]]; [done|].
  apply (wf_inodes h W) in Hi. rewrite fresh_ino_fresh in Hi. by destruct Hi.
Qed.
Lemma tmp_write h bytes b0 : hinv h -> sole h -> kind_at h tmp = Some (KFile b0) ->
  exists h', fs_update tmp (with_kind (KFile bytes)) h = (Ok tt, h') /\ hquiet h h' /\ h_names h' = h_names h /\
    kind_at h' tmp = Some (KFile bytes) /\ forall l, l <> tmp -> look h' l = look h l.
Proof.
  intros I Hsole Hk. pose proof (hinv_wf _ _ I) as W. apply kind_at_Some in Hk as (n0 & Hn0 & Hk0).
  destruct (fs_update_cases h tmp (with_kind (KFile bytes)) W ltac:(rewrite Hn0; by eexists)) as (i & n & Hi & Hn & ->).
  assert (n = n0) as -> by (apply node_Some in Hn0 as (j & ? & ?); congruence).
  assert (forall l, l <> tmp -> look (set_inodes (<[i := with_kind (KFile bytes) n0]> (h_inodes h)) h) l = look h l) as Hlook.
  { intros l Hne. unfold look. rewrite (node_update h tmp _ i n0 l Hi Hn). rewrite decide_False; [done|].
    intros Hli. apply Hne. by eapply Hsole. }
  eexists. split; [done|]. split; [|split; [done|split; [|done]]].
  - apply hquiet_stage; [done|..].
    + apply (wf_update h tmp); [done..|]. by rewrite Hk0.
    + apply I.
    + done.
    + by apply (update_lower core h tmp).
    + intros l Hs. apply Hlook. intros ->. by apply tmp_off.
  - unfold kind_at. rewrite (node_update h tmp _ i n0 tmp Hi Hn). by rewrite decide_True.
Qed.

(** The temporary name holds an object of the kind [k]; nothing else changed. *)
Record Copied (k : Kind) (w w' : World) : Prop := mkCopied {
  cp_quiet : quiet w w';
  cp_groups : w_groups w' = w_groups w;
  cp_fresh : h_names (w_host w) !! tmp = None;
  cp_kind : kind_at (w_host w') tmp = Some k;
  cp_opaque n : k = KDir -> node (w_host w') tmp = Some n -> xattr_opaque n = false;
  cp_look l : l <> tmp -> look (w_host w') l = look (w_host w) l
}.
Lemma Copied_create w k perm r' w' : inv w -> kind_at (w_host w) (r, q) = Some KDir ->
  call (fs_create tmp k perm) w = (r', w') ->
  quiet w w' /\ w_groups w' = w_groups w /\ (r' = Ok tt -> Copied k w w' /\ sole (w_host w')).
Proof.
  intros I Hd E. pose proof (hinv_wf _ _ (inv_host _ w I)) as W.
  apply call_cases in E as [(e & -> & ->)|(h & Eh & ->)]; [split_and!; [by apply quiet_drop_fault|done|done]|].
  destruct (tmp_create (w_host w) k perm (inv_host _ w I) Hd) as [(h' & Eh' & -> & Hn & Q)|(e & Eh')];
    rewrite Eh in Eh'; injection Eh' as -> ->.
  - assert (quiet w (set_host (add_inode tmp (new_inode k perm) (w_host w)) (drop_fault w))) as Q' by (by apply quiet_set_host).
    split_and!; [done..|]. intros _. split; [|by apply sole_add]. constructor; [done..| | |]; cbn [w_host set_host].
    + by rewrite kind_add_inode, decide_True.
    + intros n _. rewrite node_add_inode, decide_True by done. intros [= <-]. done.
    + intros l Hne. by apply look_add.
  - split_and!; [|done..]. apply quiet_set_host; [done|apply hquiet_refl, I].
Qed.

Lemma copied_link_kind w i p n : inv w -> (w_groups w !! i ≫= List.find (fun p => exists_at (w_host w) (Upper, p))) = Some p ->
  h_inodes (w_host w) !! i = Some n -> is_file (i_kind n) = true /\ kind_at (w_host w) (Upper, p) = Some (i_kind n).
Proof.
  intros I (paths & Hg & [Hin _]%List.find_some)%bind_Some Hn. apply list_elem_of_In in Hin.
  destruct (inv_groups _ w I i paths p Hg Hin) as (_ & l & n' & _ & _ & Hn' & Hf & Hk). assert (n' = n) as -> by congruence. done.
Qed.

Lemma Copied_link w p k r' w' : inv w -> kind_at (w_host w) (r, q) = Some KDir ->
  kind_at (w_host w) (Upper, p) = Some k -> k <> KDir -> call (fs_hard_link (Upper, p) tmp) w = (r', w') ->
  quiet w w' /\ w_groups w' = w_groups w /\ (r' = Ok tt -> Copied k w w').
Proof.
  intros I Hd Hk Hnd E. pose proof (hinv_wf _ _ (inv_host _ w I)) as W.
  apply call_cases in E as [(e & -> & ->)|(h & Eh & ->)]; [split_and!; [by apply quiet_drop_fault|done|done]|].
  unfold fs_hard_link, in_directory in Eh. rewrite reach_present in Eh by (done || by eexists).
  rewrite (proj2 (reach_ok (w_host w) r q c W) Hd) in Eh.
  pose proof Hk as (n & (j & Hj & Hjn)%node_Some & Hkn)%kind_at_Some. rewrite Hj, Hk in Eh.
  assert (forall h0, (match k with KDir => (Err EPERM, w_host w) | _ =>
    match h_names (w_host w) !! tmp with Some _ => (Err EEXIST, w_host w) | None => (Ok tt, set_names (<[tmp := j]> (h_names (w_host w))) (w_host w)) end end) = (r', h0) ->
    match h_names (w_host w) !! tmp with Some _ => r' = Err EEXIST /\ h0 = w_host w | None => r' = Ok tt /\ h0 = set_names (<[tmp := j]> (h_names (w_host w))) (w_host w) end) as Hcase.
  { intros h0. destruct k; [done|..]; destruct (h_names (w_host w) !! tmp); by intros [= <- <-]. }
  apply Hcase in Eh. clear Hcase. destruct (h_names (w_host w) !! tmp) as [j'|] eqn:Et; destruct Eh as [-> ->].
  { split_and!; [|done..]. apply quiet_set_host; [done|apply hquiet_refl, I]. }
  assert (forall l, l <> tmp -> look (set_names (<[tmp := j]> (h_names (w_host w))) (w_host w)) l = look (w_host w) l) as Hlook.
  { intros l Hne. unfold look. by rewrite node_link, decide_False. }
  assert (hquiet (w_host w) (set_names (<[tmp := j]> (h_names (w_host w))) (w_host w))) as Q.
  { apply hquiet_stage; [apply I|..].
    - apply (wf_link (w_host w) r q c (Upper, p) j n); try done. by rewrite Hkn.
    - intros l1 l2 i. cbn. rewrite !lookup_insert_Some. intros [[<- <-]|[_ H1]] [[<- H2]|[_ H2]] Hlow; try done.
      + subst i. exfalso. by apply (hinv_apart _ _ (inv_host _ w I) l1 (Upper, p) j H1 Hj) in Hlow.
      + by apply (hinv_apart _ _ (inv_host _ w I) l1 l2 i).
    - done.
    - intros i p'. assert (tmp <> (Lower i, p')) as Hne by (intros [= -> _]; by apply Hl). split.
      + cbn. by rewrite lookup_insert_ne.
      + rewrite node_link. by rewrite decide_False by congruence.
    - intros l Hs. apply Hlook. intros ->. by apply tmp_off. }
  split_and!; [by apply quiet_set_host|done|]. intros _. constructor; [by apply quiet_set_host|done..| | |]; cbn [w_host set_host].
  - unfold kind_at. rewrite node_link, decide_True, Hjn by done. cbn. congruence.
  - done.
  - exact Hlook.
Qed.

Lemma Copied_trans k k' w1 w2 w3 : Copied k w1 w2 -> quiet w2 w3 -> w_groups w3 = w_groups w2 ->
  kind_at (w_host w3) tmp = Some k' -> (forall n, k' = KDir -> node (w_host w3) tmp = Some n -> xattr_opaque n = false) ->
  (forall l, l <> tmp -> look (w_host w3) l = look (w_host w2) l) -> Copied k' w1 w3.
Proof.
  intros [Q1 G1 F1 _ _ L1] Q2 G2 K2 O2 L2. constructor; [by eapply quiet_trans|congruence|done..|].
  intros l Hne. by rewrite L2, L1.
Qed.
Lemma tmp_dir_kept k w w' : Copied k w w' -> kind_at (w_host w) (r, q) = Some KDir -> kind_at (w_host w') (r, q) = Some KDir.
Proof. intros C Hd. rewrite (kind_of_look (w_host w)); [done|]. apply (cp_look _ _ _ C). intros [= E]. by eapply snoc_neq. Qed.

Lemma copy_object_quiet source i n w r' w' : inv w -> kind_at (w_host w) (r, q) = Some KDir ->
  h_inodes (w_host w) !! i = Some n -> copy_object source i n false tmp w = (r', w') ->
  quiet w w' /\ w_groups w' = w_groups w /\ (forall shared, r' = Ok shared -> Copied (i_kind n) w w').
Proof.
  intros I Hd Hin E. unfold copy_object in E.
  assert (forall k perm, ((_ ← call (fs_create tmp k perm); mret false) : Op bool) w = (r', w') ->
    quiet w w' /\ w_groups w' = w_groups w /\ (forall shared, r' = Ok shared -> Copied k w w')) as Hsimple.
  { intros k perm Es. apply bind_inv in Es as [([] & w1 & E1 & Es)|(e & E1 & ->)].
    - injection Es as <- <-. destruct (Copied_create _ _ _ _ _ I Hd E1) as (? & ? & Hc). split_and!; [done..|]. intros _ _. by apply Hc.
    - destruct (Copied_create _ _ _ _ _ I Hd E1) as (? & ? & _). done. }
  destruct (i_kind n) as [|bytes|target|type rdev] eqn:Ek; [by eapply Hsimple| |by eapply Hsimple..]. clear Hsimple.
  apply bind_inv in E as [(links & w1 & [= <- <-] & E)|(e & [=] & _)].
  set (existing := if 1 <? nlink (w_host w) i then w_groups w !! i ≫= List.find (fun p => exists_at (w_host w) (Upper, p)) else None).
  assert ((if 1 <? nlink (w_host w) i then copied_link i else mret None) w = (Ok existing, w)) as Eex.
  { unfold existing. by destruct (1 <? nlink (w_host w) i). }
  apply bind_inv in E as [(ex & w1 & E1 & E)|(e & E1 & _)]; [|congruence].
  rewrite Eex in E1. injection E1 as <- <-. destruct existing as [p|] eqn:Hex.
  - assert ((w_groups w !! i ≫= List.find (fun p => exists_at (w_host w) (Upper, p))) = Some p) as Hfind.
    { unfold existing in Hex. by destruct (1 <? nlink (w_host w) i). }
    destruct (copied_link_kind w i p n I Hfind Hin) as [Hf Hk]. rewrite Ek in Hk.
    apply bind_inv in E as [([] & w1 & E1 & E)|(e & E1 & ->)];
      destruct (Copied_link w p (KFile bytes) _ _ I Hd Hk ltac:(done) E1) as (Q & G & C); [|by split_and!].
    injection E as <- <-. split_and!; [done..|]. intros _ _. by apply C.
  - apply bind_inv in E as [([] & w1 & E1 & E)|(e & E1 & ->)];
      destruct (Copied_create _ _ _ _ _ I Hd E1) as (Q & G & C); [|by split_and!].
    destruct (C eq_refl) as [C1 Hsole]. clear C. cbn [andb] in E.
    pose proof (tmp_dir_kept _ _ _ C1 Hd) as Hd1.
    apply bind_inv in E as [([] & w2 & E2 & E)|(e & E2 & ->)]; unfold on_error in E2;
      destruct (call (fs_update tmp (with_kind (KFile bytes))) w1) as [[[]|e2] w3] eqn:E3; try discriminate E2;
      apply call_cases in E3 as [(e3 & E3 & ->)|(h & Eh & ->)]; try discriminate E3.
    + destruct (tmp_write (w_host w1) bytes "" (inv_host _ _ (qt_inv _ _ _ Q)) Hsole (cp_kind _ _ _ C1)) as (h' & Eh' & Qh & Hnames & Hk & Hlook).
      rewrite Eh in Eh'. injection Eh' as ->. injection E2 as <-. injection E as <- <-.
      assert (quiet w1 (set_host h' (drop_fault w1))) as Q3 by (apply quiet_set_host; [apply Q|done]).
      split_and!; [by eapply quiet_trans|done|]. intros _ _. by eapply Copied_trans.
    + injection E2 as -> <-. destruct (ignore _ (drop_fault w1)) as [rc wc] eqn:Ec. cbn.
      assert (quiet w1 (drop_fault w1)) as Q3 by apply quiet_drop_fault, Q.
      assert (quiet (drop_fault w1) wc) as Q4 by (apply (tmp_cleanup _ _ _ false (qt_inv _ _ _ Q3) Hd1 Ec)).
      split_and!; [|by rewrite (ignore_call_groups _ _ _ _ Ec)|done]. eapply quiet_trans; [exact Q|]. by eapply quiet_trans.
    + destruct (tmp_write (w_host w1) bytes "" (inv_host _ _ (qt_inv _ _ _ Q)) Hsole (cp_kind _ _ _ C1)) as (h' & Eh' & _). congruence.
Qed.

(** ** Publication *)

Lemma apart_moved h src dst : apart h -> ~ under src dst -> ~ is_lower src -> ~ is_lower dst -> apart (moved src dst h).
Proof.
  intros A Hu Hs Hd l1 l2 i H1 H2 Hlow. cbn in H1, H2. rewrite lookup_move_names in H1, H2 by done.
  destruct (rebase dst src l1) as [l1'|] eqn:E1.
  { apply rebase_Some in E1 as (s & -> & _). by destruct (Hd Hlow). }
  destruct (decide (under src l1)); [done|]. destruct (rebase dst src l2) as [l2'|] eqn:E2.
  - exfalso. pose proof (A l1 l2' i H1 H2 Hlow) as Hl2. apply rebase_Some in E2 as (s & _ & ->). by destruct (Hs Hl2).
  - destruct (decide (under src l2)); [done|]. by apply (A l1 l2 i).
Qed.

Lemma lower_not_under src l : ~ is_lower src -> is_lower l -> ~ under src l.
Proof. intros Hs Hlow [E _]. apply Hs. unfold is_lower in *. by rewrite <- E. Qed.
Lemma moved_lower h src dst : ~ under src dst -> ~ is_lower src -> ~ is_lower dst -> forall i p,
  h_names (moved src dst h) !! (Lower i, p) = h_names h !! (Lower i, p) /\ node (moved src dst h) (Lower i, p) = node h (Lower i, p).
Proof.
  intros Hu Hs Hd i p. assert (rebase dst src (Lower i, p) = None) as E by (apply rebase_None; by apply lower_not_under).
  split.
  - cbn. rewrite lookup_move_names by done. rewrite E. rewrite decide_False; [done|]. by apply lower_not_under.
  - rewrite node_moved by done. rewrite E. rewrite decide_False; [done|]. by apply lower_not_under.
Qed.

(** Nothing below the temporary name or its absent target counts. *)
Lemma under_tmp_off l : under tmp l -> ~ stage l.
Proof.
  destruct tmp as [r0 p0] eqn:Etmp. injection Etmp as <- <-. intros [s ->]%under_spec Hs.
  destruct s as [|d s _] using rev_ind; [rewrite app_nil_r in Hs; by apply tmp_off|].
  pose proof (temp_name_whiteout _ Ht) as Hw.
  assert (forall p : Path, tidy p -> ~ exists a b, p = (q ++ [c]) ++ a /\ b = a) as Hnt.
  { intros p Hp (a & b & -> & _). apply tidy_app in Hp as [[_ Hp]%tidy_snoc _]. congruence. }
  destruct r as [| i |]; cbn in Hs; [|by apply Hl|by destruct q].
  destruct Hs as [Hq|[(q' & e & Hq' & _ & E)|(q' & Hq' & E)]].
  - apply (Hnt _ Hq). eauto.
  - rewrite app_assoc in E. apply app_inj_tail in E as [E _]. apply (Hnt _ Hq'). eauto.
  - rewrite app_assoc in E. apply app_inj_tail in E as [E _]. apply (Hnt _ Hq'). eauto.
Qed.

Lemma publish_tmp h a b n : hinv h -> tidy (a ++ [b]) -> kind_at h (Upper, a) = Some KDir ->
  h_names h !! (Upper, a ++ [b]) = None -> node h tmp = Some n -> (forall d, h_names h !! (r, (q ++ [c]) ++ [d]) = None) ->
  (i_kind n = KDir -> xattr_opaque n = false) -> (plain (a ++ [b]) -> view count h (a ++ [b]) = Some (i_kind n)) ->
  exists h', fs_rename tmp (Upper, a ++ [b]) h = (Ok tt, h') /\ hquiet h h' /\ node h' (Upper, a ++ [b]) = Some n /\
    (forall l, ~ under tmp l -> l <> (Upper, a ++ [b]) -> look h' l = look h l).
Proof.
  intros I Htidy Hd Hnone Hn Hch Hx Hv. pose proof (hinv_wf _ _ I) as W. set (dst := (Upper, a ++ [b])).
  assert (~ under tmp dst) as Hu.
  { intros Hun. apply (under_tmp_off _ Hun). by left. }
  assert (forall s : Path, s <> [] -> node h (r, (q ++ [c]) ++ s) = None) as Hchs.
  { intros [|d s] Hs; [done|]. apply kind_at_None. destruct (kind_at h (r, (q ++ [c]) ++ d :: s)) as [k|] eqn:E; [|done]. exfalso.
    assert (is_Some (kind_at h (r, (q ++ [c]) ++ [d]))) as Hd1.
    { destruct s as [|d2 s]; [by eexists|]. change (d :: d2 :: s) with ([d] ++ d2 :: s) in E. rewrite app_assoc in E.
      rewrite (wf_prefix_dir h r _ (d2 :: s) k W ltac:(done) E). by eexists. }
    apply (kind_names h _ W) in Hd1. rewrite Hch in Hd1. by destruct Hd1. }
  assert (forall l, ~ under tmp l -> l <> dst -> look (moved tmp dst h) l = look h l) as Hlook.
  { intros l Hnu Hne. unfold look. rewrite node_moved by done. destruct (rebase dst tmp l) as [l0|] eqn:E.
    - apply rebase_Some in E as (s & -> & ->). cbn [fst snd]. rewrite Hchs by (intros ->; apply Hne; cbn; by rewrite app_nil_r).
      cbn [fst snd dst]. destruct (node h (Upper, (a ++ [b]) ++ s)) eqn:E2; [|done]. exfalso.
      assert (s <> []) as Hs by (intros ->; apply Hne; cbn; by rewrite app_nil_r).
      assert (kind_at h (Upper, a ++ [b]) = Some KDir) as Hk by (eapply (wf_prefix_dir h); [done|exact Hs|unfold kind_at; by rewrite E2]).
      apply kind_at_Some in Hk as (? & (? & ? & _)%node_Some & _). congruence.
    - by rewrite decide_False. }
  exists (moved tmp dst h). assert (node (moved tmp dst h) dst = Some n) as Hnode.
  { rewrite node_moved by done. replace (rebase dst tmp dst) with (Some (tmp : Loc)); [done|]. symmetry. apply rebase_Some. exists [].
    cbn. by rewrite !app_nil_r. }
  split_and!; [|apply (hquiet_new core h _ (a ++ [b]) n)|done|done].
  - subst dst. unfold fs_rename, in_directory. rewrite reach_present by (done || (unfold kind_at; rewrite Hn; by eexists)).
    rewrite (proj2 (reach_ok h Upper a b W) Hd). pose proof Hn as (i & Hi & _)%node_Some. rewrite Hi.
    unfold kind_at at 1. rewrite Hn. cbn [fmap option_fmap option_map].
    rewrite bool_decide_eq_false_2 by (intros E; apply Hu; rewrite E; apply under_refl).
    rewrite bool_decide_eq_false_2 by done. by rewrite Hnone.
  - done.
  - by apply wf_moved.
  - apply apart_moved; [apply I|done|done|apply upper_not_lower].
  - done.
  - by apply moved_lower; [..|apply upper_not_lower].
  - intros l Hs Hne. apply Hlook; [|done]. intros Hun. by apply (under_tmp_off l).
  - done.
  - by destruct a.
  - by apply node_names.
  - exact Hnode.
  - done.
  - done.
Qed.
End Temporary.

(** ** [copy_up] *)

Lemma view_upper h p k k' : hinv h -> view count h p = Some k -> kind_at h (Upper, p) = Some k' -> k' = k.
Proof.
  intros I Hv Hk. destruct (path_snoc_cases p) as [->|(q & c & ->)].
  - rewrite view_nil in Hv. congruence.
  - rewrite view_snoc in Hv. case_decide; [|done]. rewrite (entry_unfold core) in Hv. rewrite Hk in Hv. congruence.
Qed.
Lemma walk_visible h at_ rest : hinv h -> view count h (at_ ++ rest) = Some KDir ->
  walk h Upper at_ rest = WalkOk \/ walk h Upper at_ rest = WalkMissing.
Proof.
  intros I. revert at_. induction rest as [|c rest IH]; intros at_ Hv; cbn [walk].
  - rewrite app_nil_r in Hv. destruct (kind_at h (Upper, at_)) as [k|] eqn:E; [|by right].
    pose proof (view_upper _ _ _ _ I Hv E) as ->. by left.
  - assert (view count h at_ = Some KDir) as Hat by (eapply view_prefix; [|exact Hv]; done).
    destruct (kind_at h (Upper, at_)) as [k|] eqn:E; [|by right].
    pose proof (view_upper _ _ _ _ I Hat E) as ->. apply IH. by rewrite <- app_assoc.
Qed.
Lemma exists_visible h rel k : hinv h -> view count h rel = Some k ->
  exists_at h (Upper, rel) = bool_decide (is_Some (kind_at h (Upper, rel))).
Proof.
  intros I Hv. pose proof (hinv_wf _ _ I) as W. unfold exists_at. destruct (kind_at h (Upper, rel)) as [k'|] eqn:E.
  - pose proof E as (n & Hn & _)%kind_at_Some. destruct (lstat_present h _ n W Hn) as (i & _ & _ & ->).
    by rewrite bool_decide_eq_true_2.
  - rewrite bool_decide_eq_false_2 by (by intros []). destruct (path_snoc_cases rel) as [->|(q & c & ->)].
    { rewrite (rooted_upper core h (hinv_rooted _ _ I)) in E. done. }
    apply view_parent in Hv. unfold lstat. rewrite reach_snoc.
    destruct (walk_visible h [] q I Hv) as [-> | ->]; [|done].
    apply kind_at_None, node_names in E; [|done]. by rewrite E.
Qed.

Lemma resolved_ino h l m : resolved_at h l m -> h_names h !! l = Some (rm_ino m) /\ h_inodes h !! rm_ino m = Some (rm_node m) /\ node h l = Some (rm_node m).
Proof. intros (_ & Hi & Hn). split_and!; [done| |done]. apply node_Some in Hn as (j & ? & ?). congruence. Qed.

Lemma no_children_kept k r q c w w' : Copied r q c k w w' -> wf (w_host w) -> wf (w_host w') ->
  forall d, h_names (w_host w') !! (r, (q ++ [c]) ++ [d]) = None.
Proof.
  intros C W W' d. apply node_names; [done|]. apply kind_at_None. rewrite (kind_of_look (w_host w)).
  - destruct (kind_at (w_host w) (r, (q ++ [c]) ++ [d])) eqn:E; [|done]. apply (wf_parent_dir _ _ _ _ _ W) in E.
    apply kind_at_Some in E as (? & (? & E & _)%node_Some & _). rewrite (cp_fresh _ _ _ _ _ _ C) in E. done.
  - apply (cp_look _ _ _ _ _ _ C). intros [= E]. by eapply snoc_neq.
Qed.

(** Copying the attributes and renaming the temporary name. *)
Lemma publish_rest_quiet a b source n shared r q c w0 w r' w' : temp_name c -> ~ is_lower (r, q) -> inv w0 ->
  Copied r q c (i_kind n) w0 w -> kind_at (w_host w0) (r, q) = Some KDir ->
  tidy (a ++ [b]) -> kind_at (w_host w0) (Upper, a) = Some KDir -> node (w_host w0) (Upper, a ++ [b]) = None ->
  (plain (a ++ [b]) -> view count (w_host w0) (a ++ [b]) = Some (i_kind n)) ->
  on_error (_ ← if_then (negb shared) (copy_metadata source (r, q ++ [c]) n); call (fs_rename (r, q ++ [c]) (Upper, a ++ [b])))
    (ignore (call (if is_dir (i_kind n) then fs_remove_dir (r, q ++ [c]) else fs_remove_file (r, q ++ [c])))) w = (r', w') ->
  quiet w0 w' /\ w_groups w' = w_groups w0 /\ (r' = Ok tt -> kind_at (w_host w') (Upper, a ++ [b]) = Some (i_kind n)).
Proof.
  intros Ht Hl I0 C Hd0 Htidy Ha Hnone Hv E. pose proof (cp_quiet _ _ _ _ _ _ C) as Q. pose proof (qt_inv _ _ _ Q) as I.
  assert (forall w1 : World, calm core w w1 -> Copied r q c (i_kind n) w0 w1) as Hcalm.
  { intros w1 [Q1 N1 L1 G1]. apply (Copied_trans _ _ _ (i_kind n) _ w0 w w1 C Q1 G1).
    - rewrite (kind_of_look _ _ _ (L1 _)). apply C.
    - intros m Hk Hm. specialize (L1 (r, q ++ [c])). unfold look in L1. rewrite Hm in L1.
      destruct (node (w_host w) (r, q ++ [c])) as [m0|] eqn:Em; [|done]. injection L1 as _ ->. by eapply (cp_opaque _ _ _ _ _ _ C).
    - intros l _. apply L1. }
  assert (CalmAt core (r, q ++ [c]) (if_then (negb shared) (copy_metadata source (r, q ++ [c]) n))) as Hcm
    by (apply CalmAt_if_then, CalmAt_copy_metadata; done).
  unfold on_error in E. match type of E with (match ?m with _ => _ end) = _ => destruct m as [res w1] eqn:Em end.
  assert (quiet w0 w1 /\ w_groups w1 = w_groups w0 /\ kind_at (w_host w1) (r, q) = Some KDir /\
    (res = Ok tt -> kind_at (w_host w1) (Upper, a ++ [b]) = Some (i_kind n))) as (Q1 & G1 & D1 & K1).
  { assert (is_Some (node (w_host w) (r, q ++ [c]))) as Hsome.
    { pose proof (cp_kind _ _ _ _ _ _ C) as (m & -> & _)%kind_at_Some. by eexists. }
    apply bind_inv in Em as [([] & w2 & E2 & Em)|(e & E2 & ->)].
    2: { pose proof (Hcalm _ (Hcm _ _ _ I Hsome E2)) as C2. split_and!; [apply C2|apply C2|by eapply tmp_dir_kept|done]. }
    pose proof (Hcalm _ (Hcm _ _ _ I Hsome E2)) as C2. pose proof (cp_quiet _ _ _ _ _ _ C2) as Q2.
    pose proof (qt_inv _ _ _ Q2) as I2. pose proof (hinv_wf _ _ (inv_host _ _ I2)) as W2.
    pose proof (tmp_dir_kept r q c _ _ _ C2 Hd0) as D2.
    apply call_cases in Em as [(e & -> & ->)|(h & Eh & ->)].
    { split_and!; [|apply C2|done..]. eapply quiet_trans; [exact Q2|]. by apply quiet_drop_fault. }
    pose proof (cp_kind _ _ _ _ _ _ C2) as (m & Hm & Hmk)%kind_at_Some.
    assert (forall l, stage l -> look (w_host w2) l = look (w_host w0) l) as Hst.
    { intros l Hs. apply (cp_look _ _ _ _ _ _ C2). intros ->. by apply (temp_not_stage r q c). }
    destruct (publish_tmp r q c Ht Hl (w_host w2) a b m) as (h' & Eh' & Qh & Hn' & Hlook); [apply I2|done|..].
    - rewrite (kind_of_look (w_host w0)); [done|]. apply Hst. left. by apply tidy_snoc in Htidy as [? _].
    - apply node_names; [done|]. apply kind_at_None. rewrite (kind_of_look (w_host w0)); [by apply kind_at_None|]. apply Hst. by left.
    - done.
    - eapply no_children_kept; [exact C2|apply I0|done].
    - intros Hk. eapply (cp_opaque _ _ _ _ _ _ C2); [congruence|done].
    - intros Hp. rewrite (hq_view _ _ _ (qt_host _ _ _ Q2)) by done. rewrite Hmk. by apply Hv.
    - rewrite Eh in Eh'. injection Eh' as -> ->. split_and!.
      + eapply quiet_trans; [exact Q2|]. by apply quiet_set_host.
      + apply C2.
      + cbn. rewrite (kind_of_look (w_host w2)); [done|]. apply Hlook.
        * intros [_ Hu]. cbn in Hu. destruct Hu as [s Hs%strip_path_Some]. apply (f_equal length) in Hs. rewrite !length_app in Hs. cbn in Hs. lia.
        * intros [= -> ->]. apply kind_at_Some in D2 as (x & Hx & _). apply kind_at_None in Hnone.
          assert (kind_at (w_host w2) (Upper, a ++ [b]) = None) as Hc; [|by rewrite (proj1 (kind_at_None _ _) Hc) in Hx].
          rewrite (kind_of_look (w_host w0)); [done|]. apply Hst. by left.
      + intros _. cbn. unfold kind_at. rewrite Hn'. cbn. congruence. }
  destruct res as [[]|e].
  - injection E as <- <-. split_and!; [done..|]. by intros _; apply K1.
  - injection E as <- E. destruct (ignore _ w1) as [rc wc] eqn:Ec. cbn in E. subst wc.
    split_and!; [|by rewrite (ignore_call_groups _ _ _ _ Ec)|done]. eapply quiet_trans; [exact Q1|].
    by eapply (tmp_cleanup r q c Ht Hl w1 rc w' _ (qt_inv _ _ _ Q1) D1).
Qed.

Lemma join_group_quiet w i source rel n u : inv w -> is_lower source -> h_names (w_host w) !! source = Some i ->
  h_inodes (w_host w) !! i = Some n -> is_file (i_kind n) = true -> tidy rel -> kind_at (w_host w) (Upper, rel) = Some (i_kind n) ->
  quiet w (join_group i source rel w).2 /\ w_host (join_group i source rel w).2 = w_host w /\ u = tt.
Proof.
  intros I Hs Hi Hn Hf Ht Hk. destruct u. split_and!; [|done..]. constructor; [|apply hquiet_refl, I|done]. constructor; [apply I|].
  intros j paths p. cbn. rewrite lookup_insert_Some. intros [[<- <-]|[_ Hj]] Hp; [|by apply (inv_groups _ w I j paths p)].
  apply elem_of_app in Hp as [Hp| ->%list_elem_of_singleton].
  - destruct (w_groups w !! i) as [old|] eqn:Eo; [|by apply elem_of_nil in Hp]. by apply (inv_groups _ w I i old p).
  - split; [done|]. eauto 10.
Qed.

Lemma publish_copy_quiet a b source w r' w' : inv w -> tidy (a ++ [b]) -> is_lower source ->
  kind_at (w_host w) (Upper, a) = Some KDir -> node (w_host w) (Upper, a ++ [b]) = None -> is_Some (node (w_host w) source) ->
  (plain (a ++ [b]) -> view count (w_host w) (a ++ [b]) = kind_at (w_host w) source) ->
  publish_copy core (a ++ [b]) source false w = (r', w') ->
  quiet w w' /\ (forall l, r' = Ok l -> l = (Upper, a ++ [b]) /\ kind_at (w_host w') (Upper, a ++ [b]) = kind_at (w_host w) source).
Proof.
  intros I Ht Hs Ha Hnone [n Hn] Hv E. pose proof (hinv_wf _ _ (inv_host _ w I)) as W.
  destruct (lstat_present _ _ _ W Hn) as (i & Hi & Hin & Hlst).
  apply bind_inv in E as [([i' n'] & w0 & E0 & E)|(e & E0 & ->)]; unfold reading in E0; rewrite Hlst in E0; [|done].
  injection E0 as <- <- <-. rewrite parent_of_snoc in E.
  assert (kind_at (w_host w) source = Some (i_kind n)) as Hks by (unfold kind_at; by rewrite Hn).
  apply bind_inv in E as [(tmp & w1 & E1 & E)|(e & E1 & ->)]; destruct (temporary_path_eq core a w) as (r & q & c & Etp & Htn & Hl & Hwhere);
    rewrite Etp in E1; [|done]. injection E1 as <- <-. set (w1 := mkWorld _ _ _ _ _ _ _) in *.
  assert (quiet w w1) as Q1 by (by eapply Quiet_temporary_path). pose proof (qt_inv _ _ _ Q1) as I1.
  assert (kind_at (w_host w1) (r, q) = Some KDir) as Hd by (by eapply (temporary_dir a w1)).
  apply bind_inv in E as [(shared & w2 & E2 & E)|(e & E2 & ->)];
    destruct (copy_object_quiet r q c Htn Hl source i n w1 _ _ I1 Hd Hin E2) as (Q2 & G2 & C2); [|split; [by eapply quiet_trans|done]].
  specialize (C2 shared eq_refl).
  apply bind_inv in E as [([] & w3 & E3 & E)|(e & E3 & ->)];
    destruct (publish_rest_quiet a b source n shared r q c w1 w2 _ _ Htn Hl I1 C2 Hd Ht Ha Hnone ltac:(intros Hp; rewrite <- Hks; by apply Hv) E3) as (Q3 & G3 & K3);
    [|split; [by eapply quiet_trans|done]].
  specialize (K3 eq_refl). apply bind_inv in E as [(links & w4 & [= <- <-] & E)|(e & [=] & _)].
  rewrite Hks. destruct (is_file (i_kind n) && (1 <? nlink (w_host w3) i)) eqn:Ef; cbn [if_then] in E.
  - apply andb_true_iff in Ef as [Ef _]. destruct source as [[| j |] ps]; try done.
    destruct (hq_lower _ _ _ (qt_host _ _ _ Q3) j ps) as [L1 L2].
    assert (h_names (w_host w3) !! (Lower j, ps) = Some i) as Hi3 by (by rewrite L1).
    assert (h_inodes (w_host w3) !! i = Some n) as Hin3.
    { assert (node (w_host w3) (Lower j, ps) = Some n) as (? & ? & ?)%node_Some by (by rewrite L2). congruence. }
    destruct (join_group_quiet w3 i (Lower j, ps) (a ++ [b]) n tt (qt_inv _ _ _ Q3) Hs Hi3 Hin3 Ef Ht K3) as (Q4 & H4 & _).
    injection E as <- <-. split.
    + eapply quiet_trans; [exact Q1|]. eapply quiet_trans; [exact Q3|exact Q4].
    + intros l [= <-]. done.
  - injection E as <- <-. split; [by eapply quiet_trans|]. by intros l [= <-].
Qed.

Lemma located_lower h rel l : hinv h -> located core h rel l -> l.1 <> Upper -> exists q c i, rel = q ++ [c] /\ l = (Lower i, rel) /\
  kind_at h (Upper, rel) = None.
Proof.
  intros I [[-> ->]|(q & c & -> & Hq & Hl)] Hne; [done|]. apply entry_loc_Some in Hl as (_ & E & [?|(i & E1 & _ & Hk & _)]); [done|].
  exists q, c, i. destruct l; cbn in *; subst. done.
Qed.

(** Copying up is quiet, and puts what shows into the upper. *)
Lemma copy_up_quiet rel w r w' : inv w -> tidy rel -> copy_up core rel w = (r, w') ->
  quiet w w' /\ (forall l k, r = Ok l -> view count (w_host w) rel = Some k ->
    l = (Upper, rel) /\ kind_at (w_host w') (Upper, rel) = Some k).
Proof.
  intros I Ht E. unfold copy_up, copy_up_for_open in E.
  apply bind_inv in E as [([] & w0 & E0 & E)|(e & E0 & ->)]; injection E0 as E0 <-; [|split; [by apply quiet_refl|done]].
  apply bind_inv in E as [(present & w1 & [= <- <-] & E)|(e & [=] & _)].
  destruct (exists_at (w_host w) (Upper, rel)) eqn:Ex.
  - assert (quiet w w' /\ w_host w' = w_host w /\ (forall l, r = Ok l -> l = (Upper, rel))) as (Q & Hh & Hr).
    { apply bind_inv in E as [([] & w1 & E1 & E)|(e & E1 & ->)]; injection E1 as E1 <-; [|split_and!; [by apply quiet_refl|done..]].
      apply bind_inv in E as [([] & w2 & E2 & E)|(e & E2 & ->)]; pose proof (Quiet_record _ _ _ _ _ I E2) as Q;
        destruct (HostSame_capture _ _ _ _ _ _ _ E2) as [Hh _]; [|by split_and!].
      injection E as <- <-. split_and!; [done..|]. by intros l [= <-]. }
    split; [done|]. intros l k Hok Hv. split; [by apply Hr|]. rewrite Hh. rewrite (exists_visible _ _ _ (inv_host _ w I) Hv) in Ex.
    apply bool_decide_eq_true in Ex as [k' Hk]. rewrite Hk. f_equal. by eapply view_upper; [apply I|..].
  - apply bind_inv in E as [(found & w1 & E1 & E)|(e & E1 & ->)]; [|injection E1 as _ <-; split; [by apply quiet_refl|done]].
    apply bind_inv in E as [(m & w2 & E2 & E)|(e & E2 & ->)]; injection E2 as E2 <-;
      (destruct found as [m'|]; [|destruct (resolve_None _ _ _ _ I E1) as (-> & _); first [done | split; [by apply quiet_refl|done]]]); cbn in E2; [|done].
    injection E2 as ->. destruct (resolve_Some _ _ _ _ _ I E1) as (-> & Hvis & Hloc & Hm).
    apply bind_inv in E as [([] & w3 & E3 & E)|(e & E3 & ->)]; pose proof (Quiet_record _ _ _ _ _ I E3) as Q3;
      destruct (HostSame_capture _ _ _ _ _ _ _ E3) as [H3 _]; [|by split].
    destruct (located_view core _ (hinv_rooted _ _ (inv_host _ w I)) _ _ Hloc) as [Hview Hsome].
    assert (view count (w_host w) rel = Some (i_kind (rm_node m))) as Hvk.
    { rewrite Hview. unfold kind_at. by rewrite (proj2 (proj2 Hm)). }
    assert ((rm_path m).1 <> Upper) as Hnu.
    { intros Hup. rewrite (exists_visible _ _ _ (inv_host _ w I) Hvk) in Ex. apply bool_decide_eq_false in Ex. apply Ex.
      assert (rm_path m = (Upper, rel)) as <-; [|done]. destruct Hloc as [[-> ->]|(q & c & -> & _ & Hl)]; [done|].
      apply entry_loc_Some in Hl as (_ & <- & _). destruct (rm_path m); cbn in *. by subst. }
    unfold rm_is_upper in E. rewrite bool_decide_eq_false_2 in E by done.
    destruct (located_lower _ _ _ (inv_host _ w I) Hloc Hnu) as (q & c & i & -> & Hp & Hnone). rewrite Hp in *.
    pose proof (proj1 (proj1 (tidy_snoc _ _) Ht)) as Htq.
    apply bind_inv in E as [([] & w4 & E4 & E)|(e & E4 & ->)];
      destruct (ensure_upper_parents_quiet _ _ _ _ _ _ (qt_inv _ _ _ Q3) Htq E4) as (Q4 & G4 & K4 & L4); [|split; [by eapply quiet_trans|done]].
    specialize (K4 eq_refl). assert (quiet w w4) as Q04 by (by eapply quiet_trans).
    destruct (hq_lower _ _ _ (qt_host _ _ _ Q04) i (q ++ [c])) as [Ln1 Ln2].
    assert (kind_at (w_host w4) (Lower i, q ++ [c]) = Some (i_kind (rm_node m))) as Hk4.
    { unfold kind_at. rewrite Ln2. by rewrite (proj2 (proj2 Hm)). }
    destruct (publish_copy_quiet q c (Lower i, q ++ [c]) w4 r w') as (Q5 & K5); [apply Q04|done|done|done|..|done|].
    + apply kind_at_None. rewrite (kind_of_look (w_host w3)); [by rewrite H3|]. apply L4. intros p Hpre [= <-].
      apply prefix_length in Hpre. rewrite length_app in Hpre. cbn in Hpre. lia.
    + pose proof Hk4 as (x & -> & _)%kind_at_Some. by eexists.
    + intros Hpl. rewrite Hk4. by rewrite (hq_view _ _ _ (qt_host _ _ _ Q04)).
    + split; [by eapply quiet_trans|]. intros l k Hok Hv. destruct (K5 l Hok) as [-> Hk5]. split; [done|]. rewrite Hk5, Hk4. congruence.
Qed.

(** ** What every outcome keeps *)

(** A property of the world that an operation keeps, whatever its outcome. *)
Section Stays.
Context (P : World -> Prop).
Definition Stays {A} (m : Op A) : Prop := forall w r w', P w -> m w = (r, w') -> P w'.

Lemma Stays_pure {A} (m : Op A) : (forall w, (m w).2 = w) -> Stays m.
Proof. intros Hm w r w' HP E. specialize (Hm w). rewrite E in Hm. by cbn in Hm; subst. Qed.
Lemma Stays_bind {A B} (m : Op A) (k : A -> Op B) : Stays m -> (forall a, Stays (k a)) -> Stays (m ≫= k).
Proof.
  intros Hm Hk w r w' HP E. apply bind_inv in E as [(a & w1 & E1 & E)|(e & E1 & ->)]; [|by eapply Hm].
  eapply Hk; [|exact E]. by eapply Hm.
Qed.
Lemma Stays_if_then b m : Stays m -> Stays (if_then b m).
Proof. intros Hm. destruct b; [done|by apply Stays_pure]. Qed.
Lemma Stays_for {A} (f : A -> Op unit) l : (forall x, Stays (f x)) -> Stays (op_for f l).
Proof. intros Hf. induction l; cbn; [by apply Stays_pure|]. apply Stays_bind; [done|by intros _]. Qed.
Lemma Stays_ignore {A} (m : Op A) : Stays m -> Stays (ignore m).
Proof. intros Hm w r w' L E. unfold ignore in E. destruct (m w) as [r1 w1] eqn:E1. injection E as <- <-. by eapply Hm. Qed.
Lemma Stays_unless_error ok m : Stays m -> Stays (unless_error ok m).
Proof. intros Hm w r w' L E. unfold unless_error in E. destruct (m w) as [[a|e] w1] eqn:E1; injection E as <- <-; by eapply Hm. Qed.
Lemma Stays_on_error {A} (m : Op A) cleanup : Stays m -> Stays cleanup -> Stays (on_error m cleanup).
Proof.
  intros Hm Hc w r w' L E. unfold on_error in E. destruct (m w) as [[a|e] w1] eqn:E1; [injection E as <- <-; by eapply Hm|].
  injection E as <- <-. destruct (cleanup w1) as [rc wc] eqn:Ec. eapply Hc; [|exact Ec]. by eapply Hm.
Qed.

(** Properties of the file system alone. *)
Context (Hhost : forall w w', w_host w' = w_host w -> P w -> P w').
Lemma Stays_same {A} (m : Op A) : (forall w, w_host (m w).2 = w_host w) -> Stays m.
Proof. intros Hm w r w' L E. specialize (Hm w). rewrite E in Hm. by eapply Hhost. Qed.
Lemma Stays_call f : (forall w, P w -> P (set_host (f (w_host w)).2 w)) -> Stays (call f).
Proof.
  intros Hf w r w' L E. apply call_cases in E as [(e & _ & ->)|(h & Eh & ->)]; [by apply (Hhost w)|].
  specialize (Hf w L). rewrite Eh in Hf. by apply (Hhost (set_host h w)).
Qed.
Lemma Stays_capture rel durable absent : Stays (capture_preimage_after_check core rel durable absent).
Proof. apply Stays_same. intros w. destruct (capture_preimage_after_check core rel durable absent w) as [r w'] eqn:E. apply (HostSame_capture _ _ _ _ _ _ _ E). Qed.
Lemma Stays_metadata_resolved rel : Stays (metadata_resolved core rel).
Proof. apply Stays_same. intros w. destruct (metadata_resolved core rel w) as [r w'] eqn:E. apply (HostSame_metadata_resolved _ _ _ _ _ E). Qed.
(** The attributes of [l], given the updates of [l]. *)
Lemma Stays_copy_metadata source l n : (forall f, (forall m, i_kind (f m) = i_kind m /\ i_other_links (f m) = i_other_links m) -> Stays (call (fs_update l f))) ->
  Stays (copy_metadata source l n).
Proof.
  intros Hu. unfold copy_metadata, copy_user_xattrs.
  apply Stays_bind; [by apply Stays_unless_error, Hu|]. intros _.
  apply Stays_bind; [by apply Stays_if_then, Hu|]. intros _.
  apply Stays_bind; [|by intros _; apply Stays_unless_error, Hu].
  apply Stays_unless_error, Stays_bind; [by apply Stays_same|]. intros [i m]. apply Stays_for. intros [name value].
  destruct (_ || _); [by apply Stays_same|by apply Hu].
Qed.
End Stays.

(** ** Links *)

(** Copying up gives no inode a second name where the source has none: seen from
    the file system [h0], every name is the one it was, with no more links, or the
    only name of its inode. *)
Section Links.
Context (h0 : Host).
Definition linked (w : World) : Prop := tracked (w_host w) /\ fresh_links h0 (w_host w).
Local Abbreviation NoLinks := (Stays linked).

Lemma linked_host w w' : w_host w' = w_host w -> linked w -> linked w'.
Proof. unfold linked. by intros ->. Qed.
Lemma NoLinks_call f : Linkless f -> NoLinks (call f).
Proof.
  intros Hf. apply (Stays_call _ linked_host). intros w [T F]. destruct (Hf (w_host w) T) as [T' F']. split; [done|]. by eapply fresh_links_trans.
Qed.
Lemma NoLinks_copy_metadata source l n : NoLinks (copy_metadata source l n).
Proof. apply (Stays_copy_metadata _ linked_host). intros f Hf. apply NoLinks_call, linkless_update. apply Hf. Qed.
Lemma NoLinks_ensure_dirs at_ rest : NoLinks (ensure_dirs core at_ rest).
Proof.
  revert at_. induction rest as [|c rest IH]; intros at_; cbn [ensure_dirs]; [by apply (Stays_same _ linked_host)|].
  apply Stays_bind; [|by intros _]. unfold ensure_dir. apply Stays_bind; [by apply (Stays_same _ linked_host)|]. intros [[i n]|e].
  - destruct (is_dir (i_kind n)); by apply (Stays_same _ linked_host).
  - destruct (bool_decide _); [|by apply (Stays_same _ linked_host)]. apply Stays_bind; [apply (Stays_metadata_resolved _ linked_host)|]. intros m.
    destruct (negb _); [by apply (Stays_same _ linked_host)|]. apply Stays_bind; [apply (Stays_capture _ linked_host)|]. intros _.
    apply Stays_bind; [apply NoLinks_call, linkless_create|]. intros _. apply NoLinks_copy_metadata.
Qed.
Lemma NoLinks_ensure_upper_parents rel : NoLinks (ensure_upper_parents core rel).
Proof. apply Stays_bind; [by apply (Stays_same _ linked_host)|intros _; apply NoLinks_ensure_dirs]. Qed.
Lemma NoLinks_mark_opaque rel : NoLinks (mark_opaque rel).
Proof.
  apply Stays_bind.
  - apply Stays_bind; [by apply (Stays_same _ linked_host)|]. intros b. apply Stays_if_then, NoLinks_call, linkless_create.
  - intros _. unfold set_opaque_xattr. induction OPAQUE_XATTRS as [|x l IH]; [by apply (Stays_same _ linked_host)|]. intros w r w' L E.
    destruct (call (fs_update (Upper, rel) (with_xattr x "y")) w) as [[a|e] w1] eqn:E1;
      pose proof (NoLinks_call _ (linkless_update (Upper, rel) (with_xattr x "y") (fun n => eq_refl)) _ _ _ L E1) as L1; [by injection E as <- <-|].
    destruct (ignorable_metadata_error e); [by eapply IH|by injection E as <- <-].
Qed.
Lemma NoLinks_rename src dst : (forall l, under src l -> h_names h0 !! l = None) -> NoLinks (call (fs_rename src dst)).
Proof.
  intros Hn w r w' [T F] E. apply call_cases in E as [(e & _ & ->)|(h & Eh & ->)]; [by split|].
  pose proof (rename_fresh h0 (w_host w) src dst T F Hn) as Hr. by rewrite Eh in Hr.
Qed.
End Links.

Lemma linked_self w : inv w -> linked (w_host w) w.
Proof. intros I. split; [|apply fresh_links_refl]. intros l i. apply (wf_inodes _ (hinv_wf _ _ (inv_host _ w I))). Qed.
Lemma absent_tree h l : wf h -> h_names h !! l = None -> forall l', under l l' -> h_names h !! l' = None.
Proof.
  intros W Hl l' Hu. destruct l as [r p]. apply under_spec in Hu as [s ->]. destruct s as [|c s]; [by rewrite app_nil_r|].
  destruct (h_names h !! (r, p ++ c :: s)) as [i|] eqn:E; [|done]. exfalso.
  assert (is_Some (kind_at h (r, p ++ c :: s))) as [k Hk] by (apply kind_names; [done|]; rewrite E; by eexists).
  pose proof (wf_prefix_dir h r p (c :: s) k W ltac:(done) Hk) as Hd. apply kind_at_Some in Hd as (? & (? & ? & _)%node_Some & _). congruence.
Qed.
Lemma created_absent w l k perm w' : wf (w_host w) -> call (fs_create l k perm) w = (Ok tt, w') -> h_names (w_host w) !! l = None.
Proof.
  intros W E. apply call_cases in E as [(e & [=] & _)|(h & Eh & _)]. destruct l as [r p].
  destruct (h_names (w_host w) !! (r, p)) as [i|] eqn:Ei; [|done]. exfalso.
  unfold fs_create, in_directory in Eh. rewrite reach_present in Eh; [by rewrite Ei in Eh|done|]. apply kind_names; [done|]. rewrite Ei. by eexists.
Qed.
(** The object under its temporary name: nothing had that name, and it has no other. *)
Lemma copy_object_fresh source i n tmp w r w' : inv w -> (is_file (i_kind n) = true -> nlink (w_host w) i <= 1) ->
  copy_object source i n false tmp w = (r, w') ->
  linked (w_host w) w' /\ (forall shared, r = Ok shared -> h_names (w_host w) !! tmp = None).
Proof.
  intros I Hn E. pose proof (linked_self w I) as L. pose proof (hinv_wf _ _ (inv_host _ w I)) as W.
  assert (forall k perm r1 w1, call (fs_create tmp k perm) w = (r1, w1) ->
    linked (w_host w) w1 /\ (r1 = Ok tt -> h_names (w_host w) !! tmp = None)) as Hcreate.
  { intros k perm r1 w1 E1. split; [by eapply (NoLinks_call _ _ (linkless_create tmp k perm))|]. intros ->. by eapply created_absent. }
  assert (forall k perm, ((_ ← call (fs_create tmp k perm); mret false) : Op bool) w = (r, w') ->
    linked (w_host w) w' /\ (forall shared, r = Ok shared -> h_names (w_host w) !! tmp = None)) as Hsimple.
  { intros k perm Es. apply bind_inv in Es as [([] & w1 & E1 & Es)|(e & E1 & ->)]; destruct (Hcreate _ _ _ _ E1) as [L1 N1]; [|done].
    injection Es as <- <-. split; [done|]. intros _ _. by apply N1. }
  unfold copy_object in E. destruct (i_kind n) as [|bytes|target|type rdev]; [by eapply Hsimple| |by eapply Hsimple..]. clear Hsimple.
  apply bind_inv in E as [(links & w1 & [= <- <-] & E)|(e & [=] & _)].
  assert ((1 <? nlink (w_host w) i) = false) as Hl by (apply Nat.ltb_ge; by apply Hn). rewrite Hl in E.
  apply bind_inv in E as [(ex & w1 & [= <- <-] & E)|(e & [=] & _)].
  apply bind_inv in E as [([] & w1 & E1 & E)|(e & E1 & ->)]; destruct (Hcreate _ _ _ _ E1) as [L1 N1]; [|done].
  split; [|intros _ _; by apply N1]. revert E. apply (Stays_bind (linked (w_host w))); [|by intros _; apply (Stays_same _ (linked_host _))|done].
  destruct (false && _); [by apply (Stays_same _ (linked_host _))|]. apply Stays_on_error; [by apply NoLinks_call, linkless_update|].
  apply Stays_ignore, NoLinks_call, linkless_remove_file.
Qed.
Lemma publish_copy_fresh rel source i n w r w' : inv w -> lstat (w_host w) source = Ok (i, n) ->
  (is_file (i_kind n) = true -> nlink (w_host w) i <= 1) ->
  publish_copy core rel source false w = (r, w') -> linked (w_host w) w'.
Proof.
  intros I Hst Hn E. apply bind_inv in E as [([i' n'] & w0 & E0 & E)|(e & E0 & ->)]; unfold reading in E0; rewrite Hst in E0; [|done].
  injection E0 as <- <- <-. apply bind_inv in E as [(tmp & w1 & E1 & E)|(e & E1 & ->)]; [|by unfold temporary_path in E1].
  injection E1 as _ <-. set (w1 := mkWorld _ _ _ _ _ _ _) in *. change (linked (w_host w1) w').
  assert (inv w1) as I1 by (apply (qt_inv _ _ _ (Quiet_temporary_path (parent_of rel) w _ w1 I eq_refl))).
  apply bind_inv in E as [(shared & w2 & E2 & E)|(e & E2 & ->)]; destruct (copy_object_fresh source i n tmp w1 _ _ I1 Hn E2) as [L2 N2]; [|done].
  pose proof (absent_tree _ _ (hinv_wf _ _ (inv_host _ w1 I1)) (N2 shared eq_refl)) as Hnone.
  revert E. apply (Stays_bind (linked (w_host w1))); [| |done].
  - apply Stays_on_error; [|destruct (is_dir _); [apply Stays_ignore, NoLinks_call, linkless_remove_dir|apply Stays_ignore, NoLinks_call, linkless_remove_file]].
    apply Stays_bind; [apply Stays_if_then, NoLinks_copy_metadata|]. intros _. by apply NoLinks_rename.
  - intros _. apply Stays_bind; [by apply (Stays_same _ (linked_host _))|]. intros k. apply Stays_bind; [|intros _; by apply (Stays_same _ (linked_host _))].
    by apply Stays_if_then, (Stays_same _ (linked_host _)).
Qed.
Lemma unaliased_links h i n : acc_has_denials = true -> require_unaliased_metadata h i n = Ok tt -> is_file (i_kind n) = true -> nlink h i <= 1.
Proof.
  unfold require_unaliased_metadata. intros -> Hu Hf. rewrite Hf in Hu. apply Nat.ltb_ge. by destruct (1 <? nlink h i).
Qed.
Lemma copy_up_fresh rel w r w' : inv w -> tidy rel -> acc_has_denials = true -> copy_up core rel w = (r, w') -> linked (w_host w) w'.
Proof.
  intros I Ht Hden E. pose proof (linked_self w I) as L. unfold copy_up, copy_up_for_open in E.
  apply bind_inv in E as [([] & w0 & E0 & E)|(e & E0 & ->)]; injection E0 as _ <-; [|done].
  apply bind_inv in E as [(present & w1 & [= <- <-] & E)|(e & [=] & _)]. destruct (exists_at (w_host w) (Upper, rel)).
  { revert E. apply Stays_bind; [by apply (Stays_same _ (linked_host _))|intros _|done]. apply Stays_bind; [apply (Stays_capture _ (linked_host _))|intros _; by apply (Stays_same _ (linked_host _))]. }
  apply bind_inv in E as [(found & w1 & E1 & E)|(e & E1 & ->)]; [|by injection E1 as _ <-].
  destruct found as [m|]; cbn [ok_or lift] in E; [|injection E1 as _ <-; by injection E as _ <-].
  pose proof (resolve_unaliased core w rel m w1 I E1) as Hu. destruct (resolve_Some core w rel m w1 I E1) as (-> & _ & Hloc & Hm).
  apply bind_inv in E as [(m' & w1 & [= <- <-] & E)|(e & [=] & _)].
  apply bind_inv in E as [([] & w3 & E3 & E)|(e & E3 & ->)]; pose proof (Stays_capture _ (linked_host _) _ _ _ _ _ _ L E3) as L3; [|done].
  pose proof (Quiet_record _ _ _ _ _ I E3) as Q3. unfold rm_is_upper in E. case_bool_decide as Hup; [by injection E as _ <-|].
  destruct (located_lower _ _ _ (inv_host _ w I) Hloc Hup) as (q & c & i & -> & Hp & _).
  apply bind_inv in E as [([] & w4 & E4 & E)|(e & E4 & ->)]; pose proof (NoLinks_ensure_upper_parents _ _ _ _ _ L3 E4) as L4; [|done].
  destruct (ensure_upper_parents_quiet core q c w3 (Ok tt) w4 (qt_inv _ _ _ Q3) (proj1 (proj1 (tidy_snoc _ _) Ht)) E4) as (Q4 & _).
  pose proof (quiet_trans _ _ _ _ Q3 Q4) as Q. pose proof (qt_inv _ _ _ Q) as I4. destruct (resolved_ino _ _ _ Hm) as (Hi & Hin & Hnode). rewrite Hp in *.
  destruct (hq_lower _ _ _ (qt_host _ _ _ Q) i (q ++ [c])) as [Ln1 Ln2]. rewrite Hnode in Ln2. rewrite Hi in Ln1.
  destruct (lstat_present _ _ _ (hinv_wf _ _ (inv_host _ w4 I4)) Ln2) as (j & Hj & _ & Hst). assert (j = rm_ino m) as -> by congruence.
  destruct (publish_copy_fresh (q ++ [c]) (Lower i, q ++ [c]) _ _ w4 r w' I4 Hst) as [T F]; [|exact E|].
  - intros Hf. pose proof (unaliased_links _ _ _ Hden Hu Hf) as Hle. destruct (proj2 L4 _ _ Hj) as [[_ ?]|?]; lia.
  - split; [done|]. by eapply fresh_links_trans; [apply L4|].
Qed.

(** ** Objects that were there *)

(** Seen from [h0], every name and every inode is as it was, with all its
    attributes; what is new are further names and inodes. *)
Definition retains (h0 h : Host) : Prop := h_names h0 ⊆ h_names h /\ h_inodes h0 ⊆ h_inodes h.
Lemma retains_refl h : retains h h.
Proof. done. Qed.
Lemma retains_trans h1 h2 h3 : retains h1 h2 -> retains h2 h3 -> retains h1 h3.
Proof. intros [N1 I1] [N2 I2]. split; by etrans. Qed.
Lemma retains_node h0 h l n : retains h0 h -> node h0 l = Some n -> node h l = Some n.
Proof.
  intros [N I] (i & Hi & Hn)%node_Some. apply node_Some. exists i. by split; eapply lookup_weaken.
Qed.
Section Retains.
Context (h0 : Host).
Definition retaining (w : World) : Prop := retains h0 (w_host w).
(** The object at [l], if any, is not one of [h0]. *)
Definition own (l : Loc) (w : World) : Prop := retaining w /\ forall i, h_names (w_host w) !! l = Some i -> h_inodes h0 !! i = None.
Lemma retaining_host w w' : w_host w' = w_host w -> retaining w -> retaining w'.
Proof. unfold retaining. by intros ->. Qed.
Lemma own_host l w w' : w_host w' = w_host w -> own l w -> own l w'.
Proof. unfold own, retaining. by intros ->. Qed.
Lemma own_update l f : Stays (own l) (call (fs_update l f)).
Proof.
  apply (Stays_call _ (own_host l)). intros w [[N I] O]. unfold fs_update, in_directory. destruct (reach (w_host w) l); try done.
  destruct (_ ≫= _) as [[i n]|] eqn:E; [|done]. apply bind_Some in E as (j & Hj & (m & Hm & [= <- <-])%fmap_Some).
  split; [split; [done|]|done]. cbn. apply map_subseteq_spec. intros k x Hk. rewrite lookup_insert_ne; [by eapply lookup_weaken|].
  intros ->. by rewrite (O k Hj) in Hk.
Qed.
Lemma retaining_create l k perm w r w' : retaining w -> wf (w_host w) -> call (fs_create l k perm) w = (r, w') -> retaining w' /\ (r = Ok tt -> own l w').
Proof.
  intros R W E. pose proof E as E0. apply call_cases in E as [(e & -> & ->)|(h & Eh & ->)]; [done|].
  assert (retaining (set_host (escape (w_host w)) (drop_fault w)) /\ (h_names (w_host w) !! l = None -> own l (set_host (escape (w_host w)) (drop_fault w)))) as [Hesc Hown].
  { split; [done|]. intros Hn. split; [done|]. intros i. cbn. by rewrite Hn. }
  unfold fs_create, in_directory in Eh. destruct (reach (w_host w) l); try (by injection Eh as <- <-).
  - destruct (h_names (w_host w) !! l) as [j|] eqn:El; injection Eh as <- <-; [done|]. destruct R as [N I].
    assert (retains h0 (add_inode l (new_inode k perm) (w_host w))) as Ra.
    { split; cbn; (etrans; [eassumption|]); [by apply insert_subseteq|apply insert_subseteq, fresh_ino_fresh]. }
    split; [done|]. intros _. split; [done|]. intros i. cbn. rewrite lookup_insert_eq. intros [= <-].
    destruct (h_inodes h0 !! fresh_ino (w_host w)) as [x|] eqn:Ex; [|done]. eapply lookup_weaken in Ex; [|exact I]. by rewrite fresh_ino_fresh in Ex.
  - injection Eh as <- <-. split; [done|]. intros _. apply Hown. by eapply created_absent.
Qed.
Lemma retains_fewer names h : retains h0 h -> (forall l i, h_names h0 !! l = Some i -> h_names h !! l = Some i -> names !! l = Some i) -> retains h0 (set_names names h).
Proof. intros [N I] Hn. split; [|done]. apply map_subseteq_spec. intros l i Hl. apply Hn; [done|by eapply lookup_weaken]. Qed.
Lemma retaining_remove_file l : h_names h0 !! l = None -> Stays retaining (call (fs_remove_file l)).
Proof.
  intros Hl. apply (Stays_call _ retaining_host). intros w R. unfold fs_remove_file, in_directory. destruct (reach (w_host w) l); try done.
  destruct (kind_at (w_host w) l) as [[]|]; try done; (apply retains_fewer; [done|]; intros l' i H1 H2; rewrite lookup_delete_ne; [done|congruence]).
Qed.
Lemma retaining_remove_dir l : h_names h0 !! l = None -> Stays retaining (call (fs_remove_dir l)).
Proof.
  intros Hl. apply (Stays_call _ retaining_host). intros w R. unfold fs_remove_dir, in_directory. destruct (reach (w_host w) l); try done.
  destruct (kind_at (w_host w) l) as [[]|]; try done. destruct (bool_decide _); [|done].
  apply retains_fewer; [done|]. intros l' i H1 H2. rewrite lookup_delete_ne; [done|congruence].
Qed.
Lemma retaining_rename src dst : (forall l, under src l \/ under dst l -> h_names h0 !! l = None) -> Stays retaining (call (fs_rename src dst)).
Proof.
  intros Hn. apply (Stays_call _ retaining_host). intros w R. unfold fs_rename, in_directory.
  destruct (reach (w_host w) src); try done. destruct (reach (w_host w) dst); try done.
  destruct (h_names (w_host w) !! src) as [i|]; [|done]. destruct (kind_at (w_host w) src) as [k|]; [|done].
  destruct (bool_decide (src = dst)); [done|]. case_bool_decide as Hu; [done|].
  assert (retains h0 (moved src dst (w_host w))) as Rm.
  { apply retains_fewer; [done|]. intros l j H1 H2. rewrite lookup_move_names by done. destruct (rebase dst src l) as [l'|] eqn:E.
    - rewrite Hn in H1; [done|]. right. apply rebase_Some in E as (s & -> & _). destruct dst. apply under_spec. eauto.
    - rewrite decide_False; [done|]. intros Hs. rewrite Hn in H1; [done|by left]. }
  destruct (h_names (w_host w) !! dst) as [j|], (kind_at (w_host w) dst) as [k'|]; try done. destruct (bool_decide (i = j)); [done|].
  destruct (is_dir k), (is_dir k'); try done. by destruct (bool_decide _).
Qed.
Lemma retaining_link src dst : Stays retaining (call (fs_hard_link src dst)).
Proof.
  apply (Stays_call _ retaining_host). intros w R. unfold fs_hard_link, in_directory.
  destruct (reach (w_host w) src); try done. destruct (reach (w_host w) dst); try done.
  destruct (h_names (w_host w) !! src) as [i|]; [|done]. destruct (kind_at (w_host w) src) as [k|]; [|done].
  assert (retaining (set_host (match h_names (w_host w) !! dst with Some _ => (Err EEXIST, w_host w) | None => (Ok tt, set_names (<[dst := i]> (h_names (w_host w))) (w_host w)) end : Result IoErr unit * Host).2 w)) as Hl.
  { destruct (h_names (w_host w) !! dst) eqn:E; [done|]. apply retains_fewer; [done|]. intros l j _ H2. rewrite lookup_insert_ne; [done|congruence]. }
  by destruct k.
Qed.
End Retains.

Lemma copy_object_retains source i n tmp w r w' : inv w -> copy_object source i n false tmp w = (r, w') ->
  retains (w_host w) (w_host w') /\ (r = Ok false -> own (w_host w) tmp w').
Proof.
  intros I E. pose proof (hinv_wf _ _ (inv_host _ w I)) as W.
  assert (forall k perm r1 w1, call (fs_create tmp k perm) w = (r1, w1) -> retains (w_host w) (w_host w1) /\
    (r1 = Ok tt -> h_names (w_host w) !! tmp = None /\ own (w_host w) tmp w1)) as Hcreate.
  { intros k perm r1 w1 E1. destruct (retaining_create (w_host w) tmp k perm w r1 w1 (retains_refl _) W E1) as [R1 O1].
    split; [done|]. intros ->. split; [by eapply created_absent|by apply O1]. }
  assert (forall k perm, ((_ ← call (fs_create tmp k perm); mret false) : Op bool) w = (r, w') -> retains (w_host w) (w_host w') /\
    (r = Ok false -> own (w_host w) tmp w')) as Hsimple.
  { intros k perm Es. apply bind_inv in Es as [([] & w1 & E1 & Es)|(e & E1 & ->)]; destruct (Hcreate _ _ _ _ E1) as [R1 N1]; [|done].
    injection Es as <- <-. destruct (N1 eq_refl) as [Na O1]. done. }
  unfold copy_object in E. destruct (i_kind n) as [|bytes|target|type rdev]; [by eapply Hsimple| |by eapply Hsimple..]. clear Hsimple.
  apply bind_inv in E as [(links & w1 & [= <- <-] & E)|(e & [=] & _)].
  assert (exists x, (if 1 <? nlink (w_host w) i then copied_link i else mret None) w = (Ok x, w)) as [ex Eex] by (destruct (1 <? nlink (w_host w) i); by eexists).
  apply bind_inv in E as [(ex' & w1 & E1 & E)|(e & E1 & _)]; rewrite Eex in E1; [|done]. injection E1 as <- <-. destruct ex as [p|].
  - apply bind_inv in E as [([] & w2 & E2 & E)|(e & E2 & ->)]; pose proof (retaining_link (w_host w) _ _ _ _ _ (retains_refl _) E2) as R2; [|done].
    by injection E as <- <-.
  - apply bind_inv in E as [([] & w2 & E2 & E)|(e & E2 & ->)]; destruct (Hcreate _ _ _ _ E2) as [R1 N1]; [|done].
    destruct (N1 eq_refl) as [Na O1]. cbn [andb] in E.
    apply bind_inv in E as [([] & w3 & E3 & E)|(e & E3 & ->)]; unfold on_error in E3;
      destruct (call (fs_update tmp (with_kind (KFile bytes))) w2) as [[[]|e2] w4] eqn:E4; try discriminate E3;
      pose proof (own_update (w_host w) tmp _ _ _ _ O1 E4) as O2.
    + injection E3 as <-. injection E as <- <-. split; [apply O2|done].
    + injection E3 as -> <-. destruct (ignore _ w4) as [rc wc] eqn:Ec. split; [|done].
      exact (Stays_ignore _ _ (retaining_remove_file (w_host w) tmp Na) _ _ _ (proj1 O2) Ec).
Qed.
Lemma publish_copy_retains a b source w r w' : inv w -> kind_at (w_host w) (Upper, a) = Some KDir -> h_names (w_host w) !! (Upper, a ++ [b]) = None ->
  is_Some (node (w_host w) source) -> publish_copy core (a ++ [b]) source false w = (r, w') -> retains (w_host w) (w_host w').
Proof.
  intros I Ha Habs [n Hn] E. pose proof (hinv_wf _ _ (inv_host _ w I)) as W. destruct (lstat_present _ _ _ W Hn) as (i & Hi & Hin & Hlst).
  apply bind_inv in E as [([i' n'] & w0 & E0 & E)|(e & E0 & ->)]; unfold reading in E0; rewrite Hlst in E0; [|done].
  injection E0 as <- <- <-. rewrite parent_of_snoc in E.
  apply bind_inv in E as [(tmp & w1 & E1 & E)|(e & E1 & ->)]; destruct (temporary_path_eq core a w) as (x & q & c & Etp & Htn & Hl & Hwhere);
    rewrite Etp in E1; [|done]. injection E1 as <- <-. set (w1 := mkWorld _ _ _ _ _ _ _) in *.
  assert (inv w1) as I1 by (apply (qt_inv _ _ _ (Quiet_temporary_path a w _ w1 I Etp))).
  assert (kind_at (w_host w1) (x, q) = Some KDir) as Hd by (by eapply (temporary_dir a w1)).
  apply bind_inv in E as [(shared & w2 & E2 & E)|(e & E2 & ->)]; destruct (copy_object_retains source i n _ w1 _ _ I1 E2) as [R2 O2]; [|done].
  destruct (copy_object_quiet x q c Htn Hl source i n w1 _ _ I1 Hd Hin E2) as (_ & _ & C2). pose proof (cp_fresh _ _ _ _ _ _ (C2 shared eq_refl)) as Hfree.
  assert (forall u v u', if_then (negb shared) (copy_metadata source (x, q ++ [c]) n) w2 = (v, u') -> u = u' -> retaining (w_host w1) u) as Hmeta.
  { intros u v u' Em ->. destruct shared; cbn [negb if_then] in Em; [by injection Em as _ <-|].
    refine (proj1 (Stays_copy_metadata _ (own_host _ (x, q ++ [c])) source _ n (fun f _ => own_update _ _ f) w2 v u' _ Em)). by apply O2. }
  assert (forall l, under (x, q ++ [c]) l \/ under (Upper, a ++ [b]) l -> h_names (w_host w1) !! l = None) as Hnone.
  { intros l [Hu|Hu]; [exact (absent_tree _ _ W Hfree _ Hu)|exact (absent_tree _ _ W Habs _ Hu)]. }
  change (retaining (w_host w1) w'). apply bind_inv in E as [([] & w3 & E3 & E)|(e & E3 & ->)].
  - cut (retaining (w_host w1) w3).
    { intros R3. revert R3 E. apply (Stays_bind (retaining (w_host w1))); [by apply Stays_pure|]. intros k.
      apply Stays_bind; [|intros _; by apply Stays_pure]. apply Stays_if_then. by apply (Stays_same _ (retaining_host _)). }
    unfold on_error in E3. match type of E3 with (match ?m with _ => _ end) = _ => destruct m as [[v|e] u] eqn:Em; [|by injection E3] end.
    injection E3 as _ <-. apply bind_inv in Em as [([] & u1 & E4 & Em)|(e & E4 & [=])].
    exact (retaining_rename _ _ _ Hnone _ _ _ (Hmeta _ _ _ E4 eq_refl) Em).
  - unfold on_error in E3. match type of E3 with (match ?m with _ => _ end) = _ => destruct m as [[v|e'] u] eqn:Em; [done|] end.
    assert (retaining (w_host w1) u) as Ru.
    { apply bind_inv in Em as [([] & u1 & E4 & Em)|(e'' & E4 & _)]; [|by eapply Hmeta].
      exact (retaining_rename _ _ _ Hnone _ _ _ (Hmeta _ _ _ E4 eq_refl) Em). }
    injection E3 as _ <-. destruct (ignore _ u) as [rc wc] eqn:Ec. cbn [snd].
    destruct (is_dir (i_kind n)); [exact (Stays_ignore _ _ (retaining_remove_dir _ _ Hfree) _ _ _ Ru Ec)|exact (Stays_ignore _ _ (retaining_remove_file _ _ Hfree) _ _ _ Ru Ec)].
Qed.
Lemma ensure_dir_retains q c w r w' : inv w -> tidy (q ++ [c]) -> kind_at (w_host w) (Upper, q) = Some KDir ->
  ensure_dir core (q ++ [c]) w = (r, w') -> retains (w_host w) (w_host w').
Proof.
  intros I Ht Hd E. pose proof (hinv_wf _ _ (inv_host _ w I)) as W. change (retaining (w_host w) w').
  assert (retaining (w_host w) w) as R by done.
  apply bind_inv in E as [(stat & w1 & [= <- <-] & E)|(e & [=] & _)]. rewrite (lstat_child (w_host w) W) in E by done.
  destruct (node (w_host w) (Upper, q ++ [c])) as [n|] eqn:En; [destruct (is_dir (i_kind n)); by injection E as _ <-|].
  rewrite bool_decide_eq_true_2 in E by done.
  apply bind_inv in E as [(m & w1 & E1 & E)|(e & E1 & ->)]; [|exact (Stays_metadata_resolved _ (retaining_host _) _ _ _ _ R E1)].
  destruct (HostSame_metadata_resolved _ _ _ _ _ E1) as (H1 & _).
  destruct (negb (is_dir (i_kind (rm_node m)))); [injection E as _ <-; by apply (retaining_host _ w)|].
  apply bind_inv in E as [([] & w3 & E3 & E)|(e & E3 & ->)]; destruct (HostSame_capture _ _ _ _ _ _ _ E3) as (H3 & _); [|apply (retaining_host _ w); [congruence|done]].
  assert (w_host w3 = w_host w) as Hw3 by congruence. assert (retaining (w_host w) w3) as R3 by (by apply (retaining_host _ w)).
  apply bind_inv in E as [([] & w4 & E4 & E)|(e & E4 & ->)]; destruct (retaining_create (w_host w) _ _ _ _ _ _ R3 ltac:(by rewrite Hw3) E4) as [R4 O4]; [|done].
  exact (proj1 (Stays_copy_metadata _ (own_host _ _) _ _ _ (fun f _ => own_update _ _ f) _ _ _ (O4 eq_refl) E)).
Qed.
Lemma ensure_dirs_retains at_ rest w r w' : inv w -> tidy (at_ ++ rest) -> kind_at (w_host w) (Upper, at_) = Some KDir ->
  ensure_dirs core at_ rest w = (r, w') -> retains (w_host w) (w_host w').
Proof.
  revert at_ w. induction rest as [|c rest IH]; intros at_ w I Ht Hd E; cbn [ensure_dirs] in E; [by injection E as _ <-|].
  assert (at_ ++ c :: rest = (at_ ++ [c]) ++ rest) as Happ by (by rewrite <- app_assoc). rewrite Happ in Ht. pose proof (proj1 (proj1 (tidy_app _ _) Ht)) as Ht1.
  apply bind_inv in E as [([] & w1 & E1 & E)|(e & E1 & ->)]; pose proof (ensure_dir_retains _ _ _ _ _ I Ht1 Hd E1) as R1; [|done].
  destruct (ensure_dir_quiet core _ _ _ _ _ I Ht1 Hd E1) as (Q1 & _ & K1 & _). eapply retains_trans; [exact R1|].
  eapply IH; [apply Q1|exact Ht|by apply K1|exact E].
Qed.
Lemma ensure_upper_parents_retains q c w r w' : inv w -> tidy q -> ensure_upper_parents core (q ++ [c]) w = (r, w') -> retains (w_host w) (w_host w').
Proof.
  intros I Ht E. apply bind_inv in E as [([] & w1 & E1 & E)|(e & E1 & ->)]; injection E1 as _ <-; [|done].
  rewrite parent_of_snoc in E. apply (ensure_dirs_retains [] q w r w'); [done..|apply (hinv_rooted _ _ (inv_host _ w I))|done].
Qed.

(** ** The attributes of a copy *)

(** What the system may refuse without failing the copy. *)
Definition refusal (f : Failure) : bool := match f with FailAccess | FailPermission | FailUnsupported => true | _ => false end.
Definition steady (w : World) : Prop := forall f, Some f ∈ w_faults w -> refusal f = false.
(** The copy [m] of the object [n]: its owner, its mode unless it is a symbolic
    link, and its attributes but for those that stay behind. *)
Definition kept_xattr (name : string) : bool := negb (bool_decide (name = PRIVATE_BACKING_XATTR) || is_opaque_xattr name).
Record dressed (n m : Inode) : Prop := mkDressed {
  dr_kind : i_kind m = i_kind n;
  dr_owner : i_uid m = i_uid n /\ i_gid m = i_gid n;
  dr_perm : is_symlink (i_kind n) = false -> i_perm m = i_perm n;
  dr_xattrs name : i_xattrs m !! name = if kept_xattr name then i_xattrs n !! name else None
}.

Lemma steady_faults {A} (m : Op A) : (forall w, w_faults (m w).2 = w_faults w) -> Stays steady m.
Proof. intros Hm w r w' S E. specialize (Hm w). rewrite E in Hm. unfold steady. cbn in Hm. by rewrite Hm. Qed.
Lemma steady_drop w : steady w -> steady (drop_fault w).
Proof. intros S f Hf. apply S. cbn in Hf. destruct (w_faults w); [done|]. by apply list_elem_of_further. Qed.
Lemma steady_fault : Stays steady fault.
Proof. intros w r w' S E. unfold fault in E. assert (w' = drop_fault w) as -> by (destruct (w_faults w) as [|[]]; by injection E). by apply steady_drop. Qed.
Lemma steady_call f : Stays steady (call f).
Proof. intros w r w' S E. apply call_cases in E as [(e & _ & ->)|(h & Eh & ->)]; by apply steady_drop. Qed.
Lemma steady_capture rel durable absent : Stays steady (capture_preimage_after_check core rel durable absent).
Proof.
  unfold capture_preimage_after_check. repeat (case_match; [by apply Stays_pure|]).
  apply Stays_bind; [by apply Stays_pure|]. intros _. case_match; [by apply Stays_pure|].
  apply Stays_bind; [by apply Stays_pure|]. intros [].
  - apply Stays_bind; [by apply Stays_pure|]. intros b. apply Stays_if_then, Stays_bind; [apply steady_fault|]. intros _. by apply steady_faults.
  - apply Stays_bind; [destruct absent; by apply Stays_pure|]. intros state. apply Stays_bind; [apply steady_fault|]. intros _.
    apply Stays_bind; [by apply steady_faults|]. intros _. apply Stays_if_then, Stays_bind; [apply steady_fault|]. intros _. by apply steady_faults.
Qed.
Lemma steady_metadata_resolved rel : Stays steady (metadata_resolved core rel).
Proof.
  apply Stays_bind; [|intros; by apply Stays_pure]. apply Stays_bind; [by apply Stays_pure|]. intros m.
  apply Stays_bind; [|intros; by apply Stays_pure]. destruct m; [by apply Stays_pure|].
  unfold observe_absence. destruct (oc_frozen_baseline core); [by apply Stays_pure|apply steady_capture].
Qed.
Lemma hard_failure f : refusal f = false -> ignorable_ownership_error (failure_errno f) = false.
Proof. by destruct f. Qed.
Lemma hard_metadata e : ignorable_ownership_error e = false -> ignorable_metadata_error e = false.
Proof. unfold ignorable_ownership_error. by intros [? _]%orb_false_iff. Qed.

(** An update of an object that is there has its effect, or fails for good. *)
Lemma update_done l f w r w' m : inv w -> ~ is_lower l -> mild f -> node (w_host w) l = Some m -> steady w -> call (fs_update l f) w = (r, w') ->
  quiet w w' /\ steady w' /\ ((r = Ok tt /\ node (w_host w') l = Some (f m)) \/ exists e, r = Err e /\ ignorable_ownership_error e = false).
Proof.
  intros I Hl Hf Hm S E. assert (is_Some (node (w_host w) l)) as Hs by (rewrite Hm; by eexists).
  split; [apply (CalmAt_update core l f Hl Hf w r w' I Hs E)|]. split; [by eapply steady_call|].
  unfold call, fault in E. destruct (w_faults w) as [|[e|] faults] eqn:Ef.
  2: { injection E as <- <-. right. exists (failure_errno e). split; [done|]. apply hard_failure, S. rewrite Ef. apply list_elem_of_here. }
  all: cbn [w_host drop_fault] in E; destruct (fs_update_cases (w_host w) l f (hinv_wf _ _ (inv_host _ w I)) Hs) as (i & n & Hi & Hn & Eu); rewrite Eu in E;
    injection E as <- <-; left; (split; [done|]); cbn [w_host set_host];
    rewrite (node_update (w_host w) l f i n l Hi Hn); rewrite decide_True by done; apply node_Some in Hm as (j & Hj & Hjn); congruence.
Qed.

Definition with_xattrs (x : gmap string string) (n : Inode) : Inode :=
  mkInode (i_kind n) (i_perm n) (i_uid n) (i_gid n) (i_atime n) (i_mtime n) x (i_other_links n).
Lemma xattrs_done l xs w r w' m : inv w -> ~ is_lower l -> node (w_host w) l = Some m -> steady w -> NoDup (xs.*1) ->
  op_for (fun '(name, value) => if bool_decide (name = PRIVATE_BACKING_XATTR) || is_opaque_xattr name then mret tt
                                else call (fs_update l (with_xattr name value))) xs w = (r, w') ->
  quiet w w' /\ steady w' /\
  ((r = Ok tt /\ exists x, node (w_host w') l = Some (with_xattrs x m) /\
      forall name, x !! name = match (if kept_xattr name then (list_to_map xs : gmap string string) !! name else None) with Some v => Some v | None => i_xattrs m !! name end) \/
   exists e, r = Err e /\ ignorable_ownership_error e = false).
Proof.
  intros I Hl. revert w m I. induction xs as [|[name value] xs IH]; intros w m I Hm S Hd E; cbn [op_for] in E.
  { injection E as <- <-. split; [by apply quiet_refl|]. split; [done|]. left. split; [done|]. exists (i_xattrs m). split; [by destruct m|].
    intros name. cbn [list_to_map foldr]. rewrite lookup_empty. by destruct (kept_xattr name). }
  cbn [fmap list_fmap fst] in Hd. apply NoDup_cons in Hd as [Hni Hd]. apply not_elem_of_list_to_map in Hni.
  destruct (bool_decide (name = PRIVATE_BACKING_XATTR) || is_opaque_xattr name) eqn:Ek.
  - apply bind_inv in E as [([] & w1 & [= <-] & E)|(e & [=] & _)]. destruct (IH w m I Hm S Hd E) as (Q & S' & [(-> & x & Hx & Hxs)|Hr]); [|by split_and!; auto].
    split_and!; [done..|]. left. split; [done|]. exists x. split; [done|]. intros nm. rewrite Hxs. cbn [list_to_map foldr uncurry]. destruct (decide (nm = name)) as [->|Hne].
    + unfold kept_xattr. by rewrite Ek.
    + by rewrite lookup_insert_ne.
  - assert (mild (with_xattr name value)) as Hmild by (apply mild_xattr; by apply orb_false_iff in Ek as [_ ?]).
    apply bind_inv in E as [([] & w1 & E1 & E)|(e & E1 & ->)]; destruct (update_done _ _ _ _ _ _ I Hl Hmild Hm S E1) as (Q1 & S1 & [[Hr H1]|(e1 & Hr & He)]); try done.
    2: { split_and!; [done..|]. right. eauto. }
    destruct (IH w1 _ (qt_inv _ _ _ Q1) H1 S1 Hd E) as (Q & S' & [(-> & x & Hx & Hxs)|Hr2]); [|split_and!; [by eapply quiet_trans|done|by right]].
    split_and!; [by eapply quiet_trans|done|]. left. split; [done|]. exists x. split; [exact Hx|]. intros nm. rewrite Hxs. cbn [list_to_map foldr uncurry i_xattrs with_xattr].
    destruct (decide (nm = name)) as [->|Hne].
    + assert (kept_xattr name = true) as -> by (unfold kept_xattr; by rewrite Ek). by rewrite Hni, !lookup_insert_eq.
    + by rewrite !lookup_insert_ne.
Qed.
Lemma copy_metadata_done source l n m w w' : inv w -> ~ is_lower l -> is_lower source -> node (w_host w) source = Some n -> node (w_host w) l = Some m ->
  i_kind m = i_kind n -> i_xattrs m = ∅ -> steady w -> copy_metadata source l n w = (Ok tt, w') ->
  steady w' /\ exists m', node (w_host w') l = Some m' /\ dressed n m' /\ i_atime m' = i_atime n /\ i_mtime m' = i_mtime n.
Proof.
  intros I Hl Hs Hn Hm Hk Hx S E. unfold copy_metadata in E.
  assert (forall ok m0 w0 u w1, (forall e, ignorable_ownership_error e = false -> ok e = false) -> unless_error ok m0 w0 = (Ok u, w1) ->
    (exists e, (m0 w0).1 = Err e /\ ignorable_ownership_error e = false) -> False) as Hhard.
  { intros ok m0 w0 u w1 Hok Eu (e & He & Hhe). unfold unless_error in Eu. destruct (m0 w0) as [[]]; cbn in He; [done|]. injection He as ->. by rewrite (Hok _ Hhe) in Eu. }
  assert (forall ok f w0 m0 u w1, inv w0 -> mild f -> node (w_host w0) l = Some m0 -> steady w0 -> (forall e, ignorable_ownership_error e = false -> ok e = false) ->
    unless_error ok (call (fs_update l f)) w0 = (Ok u, w1) -> quiet w0 w1 /\ steady w1 /\ node (w_host w1) l = Some (f m0)) as Hstep.
  { intros ok f w0 m0 u w1 I0 Hf Hm0 S0 Hok Eu. destruct (call (fs_update l f) w0) as [r1 u1] eqn:Ec.
    destruct (update_done _ _ _ _ _ _ I0 Hl Hf Hm0 S0 Ec) as (Q1 & S1 & [[-> H1]|(e & -> & He)]).
    - unfold unless_error in Eu. rewrite Ec in Eu. by injection Eu as _ <-.
    - destruct (Hhard _ _ _ _ _ Hok Eu). rewrite Ec. eauto. }
  apply bind_inv in E as [([] & w1 & E1 & E)|(e & _ & [=])].
  destruct (Hstep _ _ _ _ _ _ I (mild_owner _ _) Hm S (fun e He => He) E1) as (Q1 & S1 & H1). pose proof (qt_inv _ _ _ Q1) as I1.
  apply bind_inv in E as [([] & w2 & E2 & E)|(e & _ & [=])].
  assert (quiet w1 w2 /\ steady w2 /\ node (w_host w2) l = Some (if is_symlink (i_kind n) then with_owner (i_uid n) (i_gid n) m else with_perm (i_perm n) (with_owner (i_uid n) (i_gid n) m))) as (Q2 & S2 & H2).
  { destruct (is_symlink (i_kind n)); cbn [negb if_then] in E2; [injection E2 as <-; by split; [apply quiet_refl|]|].
    destruct (update_done _ _ _ _ _ _ I1 Hl (mild_perm _) H1 S1 E2) as (Q2 & S2 & [[_ H2]|(e & [=] & _)]). done. }
  pose proof (qt_inv _ _ _ Q2) as I2. pose proof (quiet_trans _ _ _ _ Q1 Q2) as Q02.
  apply bind_inv in E as [([] & w3 & E3 & E)|(e & _ & [=])].
  destruct source as [[| j |] ps]; try done. destruct (hq_lower _ _ _ (qt_host _ _ _ Q02) j ps) as [_ Ln]. rewrite Hn in Ln.
  destruct (lstat_present _ _ _ (hinv_wf _ _ (inv_host _ w2 I2)) Ln) as (i & _ & _ & Hst).
  set (m2 := if is_symlink (i_kind n) then _ else _) in H2.
  assert (i_kind m2 = i_kind n /\ i_uid m2 = i_uid n /\ i_gid m2 = i_gid n /\ i_xattrs m2 = ∅ /\ (is_symlink (i_kind n) = false -> i_perm m2 = i_perm n)) as (K2 & U2 & G2 & X2 & P2)
    by (unfold m2; by destruct (is_symlink (i_kind n))).
  assert (quiet w2 w3 /\ steady w3 /\ exists x, node (w_host w3) l = Some (with_xattrs x m2) /\ forall name, x !! name = if kept_xattr name then i_xattrs n !! name else None) as (Q3 & S3 & x & H3 & Hxs).
  { destruct (copy_user_xattrs (Lower j, ps) l w2) as [r3 u3] eqn:Ec. pose proof Ec as Ec0.
    apply bind_inv in Ec as [([i' n'] & w4 & E4 & Ec)|(e & E4 & _)]; unfold reading in E4; rewrite Hst in E4; [|done]. injection E4 as _ <- <-.
    destruct (xattrs_done l (map_to_list (i_xattrs n)) w2 r3 u3 m2 I2 Hl H2 S2 (NoDup_fst_map_to_list _) Ec) as (Q3 & S3 & [(-> & x & Hx3 & Hxs)|(e & -> & He)]).
    - unfold unless_error in E3. rewrite Ec0 in E3. injection E3 as <-. split_and!; [done..|]. exists x. split; [done|]. intros name. rewrite Hxs, list_to_map_to_list, X2, lookup_empty.
      destruct (kept_xattr name); [by destruct (i_xattrs n !! name)|done].
    - destruct (Hhard _ _ _ _ _ hard_metadata E3). rewrite Ec0. eauto. }
  destruct (Hstep _ _ _ _ _ _ (qt_inv _ _ _ Q3) (mild_times _ _) H3 S3 hard_metadata E) as (Q4 & S4 & H4).
  split; [done|]. eexists. split; [exact H4|]. split_and!; [|done..]. by constructor.
Qed.

Lemma view_located h p : hinv h -> is_Some (view count h p) -> exists l, located core h p l.
Proof.
  intros I Hs. destruct (path_snoc_cases p) as [->|(q & c & ->)]; [exists (Upper, []); by left|].
  rewrite view_snoc in Hs. case_decide as Hd; [|by destruct Hs]. apply entry_is_Some in Hs as [l Hl]. exists l. right. eauto.
Qed.
(** A place that shows after a step that does not show was shown before it, if it
    was there. *)
Lemma located_quiet h h' p l : hinv h -> hquiet h h' -> plain p -> is_Some (view count h p) -> located core h' p l -> is_Some (h_names h !! l) ->
  located core h p l.
Proof.
  intros I Q Hp Hs Hl Hn. destruct (view_located h p I Hs) as [l0 Hl0]. cut (l0 = l); [by intros <-|].
  destruct (path_snoc_cases p) as [->|(q & c & ->)].
  - destruct Hl as [[_ ->]|(? & ? & E & _)]; [|by destruct (app_cons_not_nil _ _ _ E)]. destruct Hl0 as [[_ ->]|(? & ? & E & _)]; [done|by destruct (app_cons_not_nil _ _ _ E)].
  - destruct Hl as [[E _]|(q1 & c1 & E & _ & Hl)]; [by destruct q|]. apply app_inj_tail in E as [<- <-].
    destruct Hl0 as [[E _]|(q1 & c1 & E & _ & Hl0)]; [by destruct q|]. apply app_inj_tail in E as [<- <-]. unfold entry_loc in Hl, Hl0.
    assert (forall k, kind_at h (Upper, q ++ [c]) = Some k -> kind_at h' (Upper, q ++ [c]) = Some k) as Hg
      by (intros k; apply (hq_grow _ _ _ Q), plain_tidy, Hp).
    destruct (kind_at h' (Upper, q ++ [c])) as [k'|] eqn:E'.
    + injection Hl as <-. assert (is_Some (kind_at h (Upper, q ++ [c]))) as [k E] by (by apply kind_names; [apply I|]).
      rewrite E in Hl0. by injection Hl0.
    + destruct (kind_at h (Upper, q ++ [c])) as [k|] eqn:E; [by specialize (Hg k eq_refl)|].
      destruct (hidden h q c); [done|]. destruct (hidden h' q c); [done|].
      rewrite (lower_loc_look h h') in Hl; [congruence|]. intros j. unfold look. by rewrite (proj2 (hq_lower _ _ _ Q j _)).
Qed.
Lemma located_absent h p l : hinv h -> located core h p l -> kind_at h (Upper, p) = None -> exists i, l = (Lower i, p).
Proof.
  intros I Hl Hn. destruct (decide (l.1 = Upper)) as [Hu|Hu].
  - exfalso. destruct (located_view core h (hinv_rooted _ _ I) p l Hl) as [_ [k Hk]].
    destruct Hl as [[-> ->]|(q & c & -> & _ & Hl)]; [congruence|]. apply entry_loc_Some in Hl as (_ & E & _). destruct l; cbn in *; congruence.
  - destruct (located_lower h p l I Hl Hu) as (q & c & i & _ & -> & _). eauto.
Qed.

Lemma ensure_dir_dressed q c w w' : inv w -> tidy (q ++ [c]) -> kind_at (w_host w) (Upper, q) = Some KDir -> steady w ->
  ensure_dir core (q ++ [c]) w = (Ok tt, w') -> steady w' /\ (kind_at (w_host w) (Upper, q ++ [c]) = None ->
    exists l n m, located core (w_host w) (q ++ [c]) l /\ node (w_host w) l = Some n /\ node (w_host w') (Upper, q ++ [c]) = Some m /\ dressed n m).
Proof.
  intros I Ht Hd S E. pose proof (hinv_wf _ _ (inv_host _ w I)) as W.
  apply bind_inv in E as [(stat & w1 & [= <- <-] & E)|(e & [=] & _)]. rewrite (lstat_child (w_host w) W) in E by done.
  destruct (node (w_host w) (Upper, q ++ [c])) as [n|] eqn:En.
  { destruct (is_dir (i_kind n)); [|done]. injection E as <-. split; [done|]. unfold kind_at. by rewrite En. }
  rewrite bool_decide_eq_true_2 in E by done.
  apply bind_inv in E as [(m & w1 & E1 & E)|(e & _ & [=])]. destruct (metadata_resolved_Ok core _ _ _ _ I E1) as (-> & Hv & Hl & _ & _ & Hm).
  destruct (is_dir (i_kind (rm_node m))) eqn:Edir; [|done]. cbn [negb] in E.
  apply bind_inv in E as [([] & w3 & E3 & E)|(e & _ & [=])]. pose proof (Quiet_record core _ _ _ _ I E3) as Q3. destruct (HostSame_capture _ _ _ _ _ _ _ E3) as (H3 & _).
  pose proof (steady_capture _ _ _ _ _ _ S E3) as S3. apply bind_inv in E as [([] & w4 & E4 & E)|(e & _ & [=])]. pose proof (steady_call _ _ _ _ S3 E4) as S4.
  apply call_cases in E4 as [(e & [=] & _)|(h & Eh & ->)]. rewrite H3, fs_create_cases in Eh by done. rewrite (proj1 (node_names _ _ W) En) in Eh. injection Eh as <-.
  destruct (located_absent _ _ _ (inv_host _ w I) Hl) as [i Hi]; [by apply kind_at_None|]. rewrite Hi in *.
  assert (i_kind (rm_node m) = KDir) as Hk by (by destruct (i_kind (rm_node m))).
  assert (hquiet (w_host w) (add_inode (Upper, q ++ [c]) (new_inode KDir 511) (w_host w))) as Qa.
  { apply hquiet_add_new; [apply I|done..|by apply node_names|done|]. intros _.
    rewrite (proj1 (located_view core _ (hinv_rooted _ _ (inv_host _ w I)) _ _ Hl)). unfold kind_at. rewrite Hm. cbn. by rewrite Hk. }
  assert (quiet w3 (set_host (add_inode (Upper, q ++ [c]) (new_inode KDir 511) (w_host w)) (drop_fault w3))) as Q4
    by (apply quiet_set_host; [apply Q3|by rewrite H3]).
  destruct (copy_metadata_done (Lower i, q ++ [c]) (Upper, q ++ [c]) (rm_node m) (new_inode KDir 511) _ w' (qt_inv _ _ _ Q4) (upper_not_lower _)) as (S5 & m' & Hm' & Hdr & _); try done.
  - cbn. rewrite node_add_inode by done. by rewrite decide_False.
  - cbn. rewrite node_add_inode by done. by rewrite decide_True.
  - split; [done|]. intros _. by exists (Lower i, q ++ [c]), (rm_node m), m'.
Qed.
Lemma ensure_dirs_dressed at_ rest w w' : inv w -> plain (at_ ++ rest) -> kind_at (w_host w) (Upper, at_) = Some KDir -> steady w ->
  ensure_dirs core at_ rest w = (Ok tt, w') -> steady w' /\ (forall s, s `prefix_of` rest -> s <> [] -> kind_at (w_host w) (Upper, at_ ++ s) = None ->
    exists l n m, located core (w_host w) (at_ ++ s) l /\ node (w_host w) l = Some n /\ node (w_host w') (Upper, at_ ++ s) = Some m /\ dressed n m).
Proof.
  revert at_ w. induction rest as [|c rest IH]; intros at_ w I Hp Hd S E; cbn [ensure_dirs] in E.
  { injection E as <-. split; [done|]. intros s Hs Hne. by apply prefix_nil_inv in Hs. }
  assert (forall s, at_ ++ c :: s = (at_ ++ [c]) ++ s) as Happ by (intros s; by rewrite <- app_assoc). rewrite Happ in Hp.
  pose proof (proj1 (proj1 (plain_app _ _) Hp)) as Hp1. pose proof (plain_tidy _ Hp1) as Ht1.
  apply bind_inv in E as [([] & w1 & E1 & E)|(e & _ & [=])].
  destruct (ensure_dir_dressed _ _ _ _ I Ht1 Hd S E1) as [S1 D1]. destruct (ensure_dir_quiet core _ _ _ _ _ I Ht1 Hd E1) as (Q1 & _ & K1 & L1).
  pose proof (qt_inv _ _ _ Q1) as I1. destruct (IH (at_ ++ [c]) w1 I1 Hp (K1 eq_refl) S1 E) as [S2 D2]. split; [done|].
  intros [|d s] Hs Hne Hnone; [done|]. pose proof (prefix_cons_inv_1 _ _ _ _ Hs) as ->. apply prefix_cons_inv_2 in Hs. rewrite (Happ s) in Hnone |- *.
  destruct (decide (s = [])) as [->|Hsn].
  - rewrite app_nil_r in *. destruct (D1 Hnone) as (l & n & m & Hl & Hn & Hm & Hdr). exists l, n, m. split_and!; [done..| |done].
    eapply retains_node; [|exact Hm]. exact (ensure_dirs_retains (at_ ++ [c]) rest w1 _ w' I1 (plain_tidy _ Hp) (K1 eq_refl) E).
  - assert (kind_at (w_host w1) (Upper, (at_ ++ [c]) ++ s) = None) as Hnone1.
    { rewrite (kind_of_look (w_host w)); [done|]. apply L1. intros p Hpre [= <-]. apply prefix_length in Hpre. rewrite !length_app in Hpre. destruct s; [done|]. cbn in Hpre. lia. }
    destruct (D2 s Hs Hsn Hnone1) as (l & n & m & Hl & Hn & Hm & Hdr). destruct (located_absent _ _ _ (inv_host _ w1 I1) Hl Hnone1) as [i ->].
    destruct (hq_lower _ _ _ (qt_host _ _ _ Q1) i ((at_ ++ [c]) ++ s)) as [Ln1 Ln2].
    assert (plain ((at_ ++ [c]) ++ s)) as Hps by (destruct Hs as [t ->]; rewrite app_assoc in Hp; by apply plain_app in Hp as [? _]).
    assert (is_Some (view count (w_host w) ((at_ ++ [c]) ++ s))) as Hv.
    { rewrite <- (hq_view _ _ _ (qt_host _ _ _ Q1)) by done. destruct (located_view core _ (hinv_rooted _ _ (inv_host _ w1 I1)) _ _ Hl) as [-> Hk]. exact Hk. }
    rewrite Ln2 in Hn. exists (Lower i, (at_ ++ [c]) ++ s), n, m. split_and!; [|done..].
    apply (located_quiet (w_host w) (w_host w1)); [apply I|apply Q1|done..|]. apply node_Some in Hn as (j & -> & _). by eexists.
Qed.

(** The object under its temporary name has the type and contents of the source
    and no attributes yet, or is the earlier copy of the same file. *)
Lemma copy_object_done source i n r q c w shared w' : inv w -> temp_name c -> ~ is_lower (r, q) -> kind_at (w_host w) (r, q) = Some KDir ->
  h_inodes (w_host w) !! i = Some n -> steady w -> copy_object source i n false (r, q ++ [c]) w = (Ok shared, w') ->
  steady w' /\ (if shared : bool then exists paths p, w_groups w !! i = Some paths /\ p ∈ paths /\ is_Some (node (w_host w) (Upper, p)) /\ node (w_host w') (r, q ++ [c]) = node (w_host w) (Upper, p)
               else exists m, node (w_host w') (r, q ++ [c]) = Some m /\ i_kind m = i_kind n /\ i_xattrs m = ∅).
Proof.
  intros I Htn Hlo Hd Hin S E. pose proof (hinv_wf _ _ (inv_host _ w I)) as W.
  assert (forall k perm w1, call (fs_create (r, q ++ [c]) k perm) w = (Ok tt, w1) -> steady w1 /\ wf (w_host w1) /\ node (w_host w1) (r, q ++ [c]) = Some (new_inode k perm)) as Hcreate.
  { intros k perm w1 E1. split; [by eapply steady_call|]. apply call_cases in E1 as [(e & [=] & _)|(h & Eh & ->)]. rewrite fs_create_cases in Eh by done.
    destruct (h_names (w_host w) !! (r, q ++ [c])) eqn:En; [done|]. injection Eh as <-. cbn. split; [by apply wf_add_inode|]. rewrite node_add_inode by done. by rewrite decide_True. }
  assert (forall k perm, k = i_kind n -> ((_ ← call (fs_create (r, q ++ [c]) k perm); mret false) : Op bool) w = (Ok shared, w') -> shared = false /\ steady w' /\
    exists m, node (w_host w') (r, q ++ [c]) = Some m /\ i_kind m = i_kind n /\ i_xattrs m = ∅) as Hsimple.
  { intros k perm Hk Es. apply bind_inv in Es as [([] & w1 & E1 & Es)|(e & _ & [=])]. injection Es as <- <-. destruct (Hcreate _ _ _ E1) as (S1 & _ & N1).
    split_and!; [done..|]. by exists (new_inode k perm). }
  unfold copy_object in E. destruct (i_kind n) as [|bytes|target|type rdev] eqn:Ek;
    [destruct (Hsimple _ _ eq_refl E) as (-> & ?); done| |destruct (Hsimple _ _ eq_refl E) as (-> & ?); done..]. clear Hsimple.
  apply bind_inv in E as [(links & w1 & [= <- <-] & E)|(e & [=] & _)].
  assert (exists x, (if 1 <? nlink (w_host w) i then copied_link i else mret None) w = (Ok x, w) /\
    forall p, x = Some p -> (w_groups w !! i ≫= List.find (fun p => exists_at (w_host w) (Upper, p))) = Some p) as (ex & Eex & Hex).
  { destruct (1 <? nlink (w_host w) i); eexists; (split; [done|]); [by intros p ?|done]. }
  apply bind_inv in E as [(ex' & w1 & E1 & E)|(e & E1 & _)]; rewrite Eex in E1; [|done]. injection E1 as <- <-. destruct ex as [p|].
  - specialize (Hex p eq_refl). destruct (copied_link_kind w i p n I Hex Hin) as [_ Hk]. apply bind_Some in Hex as (paths & Hg & [Hpin _]%List.find_some). apply list_elem_of_In in Hpin.
    apply bind_inv in E as [([] & w2 & E2 & E)|(e & _ & [=])]. injection E as <- <-. split; [by eapply steady_call|]. exists paths, p.
    pose proof Hk as (m & Hm & Hmk)%kind_at_Some. split_and!; [done..|by rewrite Hm; eexists|]. rewrite Hm. rewrite Ek in Hmk.
    apply call_cases in E2 as [(e & [=] & _)|(h & Eh & ->)]. unfold fs_hard_link, in_directory in Eh. rewrite reach_present in Eh by (done || by eexists).
    rewrite (proj2 (reach_ok (w_host w) r q c W) Hd) in Eh. pose proof Hm as (j & Hj & Hjn)%node_Some. rewrite Hj, Hk, Ek in Eh.
    destruct (h_names (w_host w) !! (r, q ++ [c])); [done|]. injection Eh as <-. cbn [w_host set_host]. by rewrite node_link, decide_True.
  - apply bind_inv in E as [([] & w2 & E2 & E)|(e & _ & [=])]. destruct (Hcreate _ _ _ E2) as (S2 & W2 & N2). cbn [andb] in E.
    apply bind_inv in E as [([] & w3 & E3 & E)|(e & _ & [=])]. injection E as <- <-. unfold on_error in E3.
    destruct (call (fs_update (r, q ++ [c]) (with_kind (KFile bytes))) w2) as [[[]|e2] w4] eqn:E4; [|done]. injection E3 as <-. split; [by eapply steady_call|].
    exists (with_kind (KFile bytes) (new_inode (KFile "") (i_perm n))). split; [|done]. apply call_cases in E4 as [(e & [=] & _)|(h & Eh & ->)].
    destruct (fs_update_cases (w_host w2) (r, q ++ [c]) (with_kind (KFile bytes)) W2 ltac:(rewrite N2; by eexists)) as (j & m & Hj & Hm & Eu). rewrite Eu in Eh. injection Eh as <-.
    cbn [w_host set_host]. rewrite (node_update _ _ _ j m _ Hj Hm), decide_True by done. apply node_Some in N2 as (j' & ? & ?). congruence.
Qed.
Lemma rename_node h r p a b m h' : wf h -> node h (r, p) = Some m -> kind_at h (Upper, a) = Some KDir -> h_names h !! (Upper, a ++ [b]) = None ->
  fs_rename (r, p) (Upper, a ++ [b]) h = (Ok tt, h') -> node h' (Upper, a ++ [b]) = Some m.
Proof.
  intros W Hm Ha Hn E. unfold fs_rename, in_directory in E. rewrite reach_present in E by (done || (unfold kind_at; rewrite Hm; by eexists)).
  rewrite (proj2 (reach_ok h Upper a b W) Ha) in E. pose proof Hm as (i & Hi & _)%node_Some. rewrite Hi in E. unfold kind_at at 1 in E. rewrite Hm in E. cbn [fmap option_fmap option_map] in E.
  rewrite bool_decide_eq_false_2 in E by (intros Eq; rewrite <- Eq in Hn; congruence). case_bool_decide as Hu; [done|]. rewrite Hn in E. injection E as <-.
  rewrite node_moved by done. replace (rebase (Upper, a ++ [b]) (r, p) (Upper, a ++ [b])) with (Some ((r, p) : Loc)); [done|]. symmetry. apply rebase_Some. exists []. cbn. by rewrite !app_nil_r.
Qed.

(** [m] is the copy that was made earlier of the file at [l]. *)
Definition earlier_copy (w : World) (l : Loc) (m : Inode) : Prop :=
  exists i paths p, h_names (w_host w) !! l = Some i /\ w_groups w !! i = Some paths /\ p ∈ paths /\ node (w_host w) (Upper, p) = Some m.
Lemma publish_copy_done a b j ps n w l w' : inv w -> tidy (a ++ [b]) -> kind_at (w_host w) (Upper, a) = Some KDir -> node (w_host w) (Upper, a ++ [b]) = None ->
  node (w_host w) (Lower j, ps) = Some n -> steady w -> publish_copy core (a ++ [b]) (Lower j, ps) false w = (Ok l, w') ->
  exists m, node (w_host w') (Upper, a ++ [b]) = Some m /\
    ((dressed n m /\ i_atime m = i_atime n /\ i_mtime m = i_mtime n) \/ earlier_copy w (Lower j, ps) m).
Proof.
  intros I Ht Ha Hnone Hn S E. pose proof (hinv_wf _ _ (inv_host _ w I)) as W. destruct (lstat_present _ _ _ W Hn) as (i & Hi & Hin & Hlst).
  apply bind_inv in E as [([i' n'] & w0 & E0 & E)|(e & _ & [=])]; unfold reading in E0; rewrite Hlst in E0. injection E0 as <- <- <-. rewrite parent_of_snoc in E.
  apply bind_inv in E as [(tmp & w1 & E1 & E)|(e & _ & [=])]. destruct (temporary_path_eq core a w) as (r & q & c & Etp & Htn & Hl & Hwhere).
  rewrite Etp in E1. injection E1 as <- <-. pose proof (Quiet_temporary_path a w _ _ I Etp) as Q1.
  match type of Q1 with OverlayCopy.quiet _ _ ?x => set (w1 := x) in * end. pose proof (qt_inv _ _ _ Q1) as I1. assert (steady w1) as S1 by done.
  assert (kind_at (w_host w1) (r, q) = Some KDir) as Hd by (by eapply (temporary_dir a w1)).
  apply bind_inv in E as [(shared & w2 & E2 & E)|(e & _ & [=])].
  destruct (copy_object_done (Lower j, ps) i n r q c w1 shared w2 I1 Htn Hl Hd Hin S1 E2) as [S2 D2].
  destruct (copy_object_quiet r q c Htn Hl (Lower j, ps) i n w1 _ _ I1 Hd Hin E2) as (Q2 & _ & C2). specialize (C2 shared eq_refl). pose proof (qt_inv _ _ _ Q2) as I2.
  apply bind_inv in E as [([] & w3 & E3 & E)|(e & _ & [=])].
  assert (w_host w' = w_host w3) as ->.
  { apply bind_inv in E as [(links & w4 & [= <- <-] & E)|(e & [=] & _)]. destruct (is_file (i_kind n) && (1 <? nlink (w_host w3) i)); by injection E as _ <-. }
  clear E. unfold on_error in E3. match type of E3 with (match ?m with _ => _ end) = _ => destruct m as [[v|e] u] eqn:Em; [|done] end. injection E3 as _ <-.
  apply bind_inv in Em as [([] & w4 & E4 & Em)|(e & _ & [=])].
  assert (exists m, node (w_host w2) (r, q ++ [c]) = Some m) as [m2 Hm2] by (pose proof (cp_kind _ _ _ _ _ _ C2) as (x & ? & _)%kind_at_Some; eauto).
  assert (calm core w2 w4) as C4.
  { refine (CalmAt_if_then core (r, q ++ [c]) _ _ _ w2 _ w4 I2 _ E4); [by apply CalmAt_copy_metadata|rewrite Hm2; by eexists]. }
  pose proof (qt_inv _ _ _ (cm_quiet _ _ _ C4)) as I4. pose proof (hinv_wf _ _ (inv_host _ w4 I4)) as W4.
  assert (forall x, stage x -> kind_at (w_host w4) x = kind_at (w_host w) x) as Hst.
  { intros x Hx. rewrite (kind_of_look _ _ _ (cm_look _ _ _ C4 x)). apply (kind_of_look (w_host w1)). apply (cp_look _ _ _ _ _ _ C2). intros ->. by apply (temp_not_stage r q c). }
  assert (exists m, node (w_host w4) (r, q ++ [c]) = Some m /\ ((dressed n m /\ i_atime m = i_atime n /\ i_mtime m = i_mtime n) \/ earlier_copy w (Lower j, ps) m)) as (m & Hm & Hcase).
  { destruct shared; cbn [negb if_then] in E4.
    - injection E4 as <-. destruct D2 as (paths & p & Hg & Hpin & [m Hm] & Heq). exists m. split; [by rewrite Heq|]. right. by exists i, paths, p.
    - destruct D2 as (m & Hm & Hk & Hx). destruct (hq_lower _ _ _ (qt_host _ _ _ (quiet_trans _ _ _ _ Q1 Q2)) j ps) as [_ Ln]. rewrite Hn in Ln.
      destruct (copy_metadata_done (Lower j, ps) (r, q ++ [c]) n m w2 w4 I2 Hl Logic.I Ln Hm Hk Hx S2 E4) as (_ & m' & Hm' & Hdr). exists m'. split; [done|by left]. }
  exists m. split; [|done]. apply call_cases in Em as [(e & [=] & _)|(h & Eh & ->)]. destruct v. cbn [w_host set_host].
  eapply (rename_node (w_host w4) r (q ++ [c])); [done|done| | |exact Eh].
  - rewrite Hst; [done|]. left. by apply tidy_snoc in Ht as [? _].
  - apply node_names; [done|]. apply kind_at_None. rewrite Hst; [by apply kind_at_None|by left].
Qed.
Lemma copy_up_copies rel w l w' p : inv w -> plain rel -> is_Some (view count (w_host w) rel) -> steady w -> copy_up core rel w = (Ok l, w') ->
  p `prefix_of` rel -> p <> [] -> kind_at (w_host w) (Upper, p) = None ->
  exists l0 n m, located core (w_host w) p l0 /\ node (w_host w) l0 = Some n /\ node (w_host w') (Upper, p) = Some m /\
    ((dressed n m /\ (p = rel -> i_atime m = i_atime n /\ i_mtime m = i_mtime n)) \/ (p = rel /\ earlier_copy w l0 m)).
Proof.
  intros I Hpl [k Hv] S E Hpre Hpn Habs. pose proof (hinv_wf _ _ (inv_host _ w I)) as W. pose proof (plain_tidy _ Hpl) as Ht. unfold copy_up, copy_up_for_open in E.
  apply bind_inv in E as [([] & w0 & E0 & E)|(e & _ & [=])]; injection E0 as E0 <-.
  apply bind_inv in E as [(present & w1 & [= <- <-] & E)|(e & [=] & _)].
  assert (kind_at (w_host w) (Upper, rel) = None) as Hnone.
  { destruct (kind_at (w_host w) (Upper, rel)) as [k'|] eqn:Ek; [|done]. destruct Hpre as [s ->]. destruct (decide (s = [])) as [->|Hs]; [by rewrite app_nil_r in Ek; congruence|].
    by rewrite (wf_prefix_dir _ _ _ s k' W Hs Ek) in Habs. }
  rewrite (exists_visible _ _ _ (inv_host _ w I) Hv), Hnone in E. rewrite bool_decide_eq_false_2 in E by (by intros []).
  apply bind_inv in E as [(found & w1 & E1 & E)|(e & _ & [=])]. apply bind_inv in E as [(m & w2 & E2 & E)|(e & _ & [=])]; injection E2 as E2 <-.
  destruct found as [m'|]; [|done]. injection E2 as ->. destruct (resolve_Some _ _ _ _ _ I E1) as (-> & _ & Hloc & _ & _ & Hm).
  apply bind_inv in E as [([] & w3 & E3 & E)|(e & _ & [=])]. pose proof (Quiet_record _ _ _ _ _ I E3) as Q3. destruct (HostSame_capture _ _ _ _ _ _ _ E3) as (H3 & G3 & _).
  pose proof (steady_capture _ _ _ _ _ _ S E3) as S3. pose proof (qt_inv _ _ _ Q3) as I3.
  destruct (located_absent _ _ _ (inv_host _ w I) Hloc Hnone) as [i Hi]. rewrite Hi in *. unfold rm_is_upper in E. rewrite Hi, bool_decide_eq_false_2 in E by done.
  destruct (path_snoc_cases rel) as [->|(q & c & ->)]; [by apply prefix_nil_inv in Hpre|]. pose proof (proj1 (proj1 (plain_snoc _ _) Hpl)) as Hpq. pose proof (plain_tidy _ Hpq) as Htq.
  apply bind_inv in E as [([] & w4 & E4 & E)|(e & _ & [=])]. pose proof E4 as E4'. apply bind_inv in E4' as [([] & w5 & [= _ <-] & E4')|(e & _ & [=])]. rewrite parent_of_snoc in E4'.
  assert (kind_at (w_host w3) (Upper, []) = Some KDir) as Hroot by apply (hinv_rooted _ _ (inv_host _ w3 I3)).
  destruct (ensure_dirs_dressed [] q w3 w4 I3 Hpq Hroot S3 E4') as [S4 D4]. destruct (ensure_upper_parents_quiet _ _ _ _ _ _ I3 Htq E4) as (Q4 & G4 & K4 & L4).
  pose proof (quiet_trans _ _ _ _ Q3 Q4) as Q04. pose proof (qt_inv _ _ _ Q4) as I4. specialize (K4 eq_refl).
  assert (node (w_host w4) (Upper, q ++ [c]) = None) as Hnone4.
  { apply kind_at_None. rewrite (kind_of_look (w_host w3)); [by rewrite H3|]. apply L4. intros p' Hp' [= <-]. apply prefix_length in Hp'. rewrite length_app in Hp'. cbn in Hp'. lia. }
  destruct (hq_lower _ _ _ (qt_host _ _ _ Q04) i (q ++ [c])) as [Ln1 Ln2]. rewrite Hm in Ln2.
  destruct (decide (p = q ++ [c])) as [->|Hne].
  - destruct (publish_copy_done q c i (q ++ [c]) (rm_node m) w4 l w' I4 Ht K4 Hnone4 Ln2 S4 E) as (m' & Hm' & Hcase).
    exists (Lower i, q ++ [c]), (rm_node m), m'. split_and!; [done..|]. destruct Hcase as [(Hdr & Hti)|(j & paths & x & Hj & Hg & Hx & Hnx)]; [by left|right]. split; [done|].
    exists j, paths, x. rewrite Ln1 in Hj. rewrite G4, G3 in Hg. split_and!; [done..|]. destruct (inv_groups _ w I j paths x Hg Hx) as (_ & ? & ? & _ & _ & _ & _ & (mx & Hmx & _)%kind_at_Some).
    pose proof (ensure_upper_parents_retains q c w3 _ _ I3 Htq E4) as R4. rewrite H3 in R4.
    rewrite Hmx. rewrite (retains_node _ _ _ _ R4 Hmx) in Hnx. done.
  - assert (p `prefix_of` q) as Hpq'.
    { destruct Hpre as [s Hs]. destruct s as [|d s _] using rev_ind; [by rewrite app_nil_r in Hs|]. rewrite app_assoc in Hs. apply app_inj_tail in Hs as [-> _]. by exists s. }
    destruct (D4 p Hpq' Hpn ltac:(by rewrite H3)) as (l0 & n & m' & Hl0 & Hn & Hm' & Hdr). cbn [app] in *. rewrite H3 in Hl0, Hn. exists l0, n, m'. split_and!; [done..| |left; split; [done|congruence]].
    eapply retains_node; [|exact Hm']. eapply (publish_copy_retains q c (Lower i, q ++ [c])); [exact I4|done|by apply node_names; [apply I4|]|rewrite Ln2; by eexists|exact E].
Qed.
(** Copying up leaves every name and inode that was there as it was. *)
Lemma copy_up_retains rel w r w' : inv w -> tidy rel -> copy_up core rel w = (r, w') -> retains (w_host w) (w_host w').
Proof.
  intros I Ht E. unfold copy_up, copy_up_for_open in E. assert (retaining (w_host w) w) as R by done. change (retaining (w_host w) w').
  apply bind_inv in E as [([] & w0 & E0 & E)|(e & E0 & ->)]; injection E0 as _ <-; [|done].
  apply bind_inv in E as [(present & w1 & [= <- <-] & E)|(e & [=] & _)]. destruct (exists_at (w_host w) (Upper, rel)) eqn:Ex.
  { revert R E. apply Stays_bind; [by apply Stays_pure|]. intros _. apply Stays_bind; [apply (Stays_capture _ (retaining_host _))|intros _; by apply Stays_pure]. }
  apply bind_inv in E as [(found & w1 & E1 & E)|(e & E1 & ->)]; [|by injection E1 as _ <-].
  destruct found as [m|]; cbn [ok_or lift] in E; [|injection E1 as _ <-; by injection E as _ <-].
  destruct (resolve_Some core w rel m w1 I E1) as (-> & _ & Hloc & _ & _ & Hm). apply bind_inv in E as [(m' & w1 & [= <- <-] & E)|(e & [=] & _)].
  apply bind_inv in E as [([] & w3 & E3 & E)|(e & E3 & ->)]; pose proof (Stays_capture _ (retaining_host _) _ _ _ _ _ _ R E3) as R3; [|done].
  pose proof (Quiet_record _ _ _ _ _ I E3) as Q3. destruct (HostSame_capture _ _ _ _ _ _ _ E3) as (H3 & _).
  unfold rm_is_upper in E. case_bool_decide as Hup; [by injection E as _ <-|].
  destruct (located_lower _ _ _ (inv_host _ w I) Hloc Hup) as (q & c & i & -> & Hp & Hnone). pose proof (proj1 (proj1 (tidy_snoc _ _) Ht)) as Htq.
  apply bind_inv in E as [([] & w4 & E4 & E)|(e & E4 & ->)]; pose proof (ensure_upper_parents_retains _ _ _ _ _ (qt_inv _ _ _ Q3) Htq E4) as R4; rewrite H3 in R4; [|done].
  destruct (ensure_upper_parents_quiet core q c w3 (Ok tt) w4 (qt_inv _ _ _ Q3) Htq E4) as (Q4 & _ & K4 & L4). eapply retains_trans; [exact R4|].
  eapply (publish_copy_retains q c (rm_path m)); [apply Q4|by apply K4| | |exact E].
  - apply node_names; [apply (qt_inv _ _ _ Q4)|]. apply kind_at_None. rewrite (kind_of_look (w_host w3)); [by rewrite H3|]. apply L4. intros p Hpre [= <-].
    apply prefix_length in Hpre. rewrite length_app in Hpre. cbn in Hpre. lia.
  - rewrite Hp in Hm |- *. destruct (hq_lower _ _ _ (qt_host _ _ _ (quiet_trans _ _ _ _ Q3 Q4)) i (q ++ [c])) as [_ ->]. rewrite Hm. by eexists.
Qed.
End CopyUp.
