(* ===== verification/OverlayCreate.v ===== *)
(** * Creating and removing

    What the operations that create and remove a name do to the merged view:
    exactly the named path changes. A directory created over lower contents is
    empty, and a removed name stays hidden. *)
From stdpp Require Import base tactics list strings gmap pretty.
From Stdlib Require Import ZArith Lia Ascii.
From S2P Require Import Prelude RustStr FileAccess HostFs HostFsFacts Overlay OverlayView OverlayQuiet OverlayCopy OverlayCopyUp.
Local Open Scope nat_scope.

Section Create.
Context (core : OverlayCore) `{AccessOps, Digest256}.
Local Abbreviation count := (oc_lowers core).
Local Abbreviation hinv := (hinv core).
Local Abbreviation hquiet := (hquiet core).
Local Abbreviation inv := (inv core).
Local Abbreviation quiet := (quiet core).

(** ** Views that differ below some names *)

(** The place of the whiteout of a path. *)
Definition whiteout_of (rel : Path) : Loc := whiteout_path (parent_of rel) (default ""%string (last rel)).
Lemma whiteout_of_snoc q c : whiteout_of (q ++ [c]) = whiteout_path q c.
Proof. unfold whiteout_of. by rewrite parent_of_snoc, last_snoc. Qed.

(** [l] belongs to one of the names in [rels], or is its whiteout. *)
Definition touched (rels : list Path) (l : Loc) : Prop := exists rel, rel ∈ rels /\ (under (Upper, rel) l \/ l = whiteout_of rel).
Definition below (rels : list Path) (p : Path) : Prop := exists rel s, rel ∈ rels /\ p = rel ++ s.

Lemma marker_not_tidy (q q' : Path) x s : tidy q -> is_whiteout_name x = true -> q' ++ [x] <> q ++ s \/ exists s', s = s' ++ [x] /\ q' = q ++ s'.
Proof.
  intros Hq Hx. destruct s as [|d s _] using rev_ind.
  - left. rewrite app_nil_r. intros E. rewrite <- E in Hq. apply tidy_snoc in Hq as [_ Hq]. congruence.
  - destruct (decide (q' ++ [x] = q ++ s ++ [d])) as [E|E]; [right|by left].
    rewrite app_assoc in E. apply app_inj_tail in E as [-> ->]. eauto.
Qed.

Lemma view_outside h h' rels p : Forall (fun rel => tidy rel /\ rel <> []) rels ->
  (forall l, stage l -> ~ touched rels l -> look h' l = look h l) -> plain p -> ~ below rels p ->
  view count h' p = view count h p.
Proof.
  intros Hrels Hs Hp Hnb. rewrite Forall_forall in Hrels. symmetry.
  assert (forall l, stage l -> (forall rel, rel ∈ rels -> ~ under (Upper, rel) l /\ l <> whiteout_of rel) -> look h' l = look h l) as Hs'.
  { intros l Hl Hn. apply Hs; [done|]. intros (rel & Hin & [Hu|Hw]); by destruct (Hn rel Hin). }
  assert (forall q : Path, (exists s, p = q ++ s) -> forall rel, rel ∈ rels -> ~ under (Upper, rel) (Upper, q) /\ (Upper, q) <> whiteout_of rel) as Hup.
  { intros q [s ->] rel Hin. split.
    - intros [s' [= ->]]%under_spec. apply Hnb. exists rel, (s' ++ s). split; [done|by rewrite app_assoc].
    - intros E. apply plain_app in Hp as [Hq%plain_tidy _]. unfold whiteout_of, whiteout_path in E. injection E as ->.
      apply tidy_snoc in Hq as [_ Hq]. by rewrite whiteout_is_marker in Hq. }
  apply view_ext.
  - symmetry. apply kind_of_look, Hs'; [left; constructor|]. apply Hup. by exists p.
  - intros q c [s ->] _. pose proof Hp as [[Hq Hc]%plain_snoc Hsp]%plain_app.
    assert (forall x, is_whiteout_name x = true -> (forall rel, rel ∈ rels -> (Upper, q ++ [x]) <> whiteout_of rel) ->
      forall rel, rel ∈ rels -> ~ under (Upper, rel) (Upper, q ++ [x]) /\ (Upper, q ++ [x]) <> whiteout_of rel) as Hmk.
    { intros x Hx Hne rel Hin. split; [|by apply Hne]. intros [s' [= E]]%under_spec.
      destruct (Hrels rel Hin) as [Ht _]. destruct (marker_not_tidy rel q x s' Ht Hx) as [?|(s2 & -> & ->)]; [done|].
      apply Hnb. exists rel, (s2 ++ [c] ++ s). rewrite !app_assoc. done. }
    assert (forall rel, rel ∈ rels -> rel <> q ++ [c]) as Hnr.
    { intros rel Hin ->. apply Hnb. exists (q ++ [c]), s. done. }
    assert (look h' (Upper, q ++ [c]) = look h (Upper, q ++ [c])) as L1.
    { apply Hs'; [left; apply plain_tidy; by apply plain_app in Hp as [? _]|]. apply Hup. by exists s. }
    assert (look h' (Upper, q) = look h (Upper, q)) as L2.
    { apply Hs'; [left; by apply plain_tidy|]. apply Hup. exists ([c] ++ s). by rewrite app_assoc. }
    assert (look h' (whiteout_path q c) = look h (whiteout_path q c)) as L3.
    { apply Hs'; [apply stage_whiteout; [by apply plain_tidy|done]|]. apply Hmk; [apply whiteout_is_marker|].
      intros rel Hin E. destruct (Hrels rel Hin) as [Ht Hne]. destruct (path_snoc_cases rel) as [->|(a & b & ->)]; [done|].
      rewrite whiteout_of_snoc in E. unfold whiteout_path in E. injection E as E. apply app_inj_tail in E as [-> E].
      apply whiteout_inj in E as ->. by apply (Hnr _ Hin). }
    assert (look h' (Upper, q ++ [OPAQUE_NAME]) = look h (Upper, q ++ [OPAQUE_NAME])) as L4.
    { apply Hs'; [apply stage_opaque; by apply plain_tidy|]. apply Hmk; [done|].
      intros rel Hin E. destruct (Hrels rel Hin) as [Ht Hne]. destruct (path_snoc_cases rel) as [->|(a & b & ->)]; [done|].
      rewrite whiteout_of_snoc in E. unfold whiteout_path in E. injection E as E. apply app_inj_tail in E as [-> E].
      apply tidy_snoc in Ht as [_ Ht]. assert (b = ".wh..opq"%string) as -> by (apply whiteout_inj; by rewrite <- E). by vm_compute in Ht. }
    rewrite !(entry_unfold core). rewrite (kind_of_look h h') by done. rewrite (hidden_look h h') by done.
    rewrite (lower_view h h'); [done|]. intros i. apply Hs'; [done|]. intros rel _. split; [by intros [? _]|done].
Qed.

(** An object of the upper shows. *)
Lemma view_of_upper h p k : hinv h -> kind_at h (Upper, p) = Some k -> view count h p = Some k.
Proof.
  intros I. revert k. induction p as [|c p IH] using rev_ind; intros k Hk; [done|].
  rewrite view_snoc. rewrite decide_True; [by rewrite (entry_unfold core), Hk|]. apply IH.
  by eapply (wf_parent_dir h); [apply I|].
Qed.

(** ** Markers *)

(** The step leaves everything but the places of [P] as it is. *)
Record OnlyIn (P : Loc -> Prop) (w w' : World) : Prop := mkOnly {
  on_inv : inv w';
  on_escaped : h_escaped (w_host w') = h_escaped (w_host w);
  on_lower i p : h_names (w_host w') !! (Lower i, p) = h_names (w_host w) !! (Lower i, p) /\ node (w_host w') (Lower i, p) = node (w_host w) (Lower i, p);
  on_look l' : ~ P l' -> look (w_host w') l' = look (w_host w) l';
  on_pre p f : w_preimages w !! p = Some f -> w_preimages w' !! p = Some f
}.
Definition Only (l : Loc) : World -> World -> Prop := OnlyIn (fun l' => l' = l).

Lemma Only_drop l w : inv w -> Only l w (drop_fault w).
Proof. intros I. constructor; [|done..]. constructor; [apply I|]. apply (inv_groups _ w I). Qed.

Lemma groups_agree_only w h' : inv w ->
  (forall i p, h_names h' !! (Lower i, p) = h_names (w_host w) !! (Lower i, p) /\ node h' (Lower i, p) = node (w_host w) (Lower i, p)) ->
  (forall p k, tidy p -> kind_at (w_host w) (Upper, p) = Some k -> kind_at h' (Upper, p) = Some k) ->
  groups_agree (set_host h' (drop_fault w)).
Proof.
  intros I Hlow Hk i paths p Hi Hp. destruct (inv_groups _ w I i paths p Hi Hp) as (Ht & l & n & Hl & Hn & Hin & Hf & Hkp).
  split; [done|]. destruct l as [[| j |] q]; try done. destruct (Hlow j q) as [E1 E2].
  exists (Lower j, q), n. split_and!; [done|by cbn; rewrite E1| |done|by apply Hk].
  assert (node (w_host w) (Lower j, q) = Some n) as Hnode by (apply node_Some; eauto).
  rewrite <- E2 in Hnode. cbn. apply node_Some in Hnode as (i' & Hi' & ?). congruence.
Qed.

Lemma Only_set_host l w h' : inv w -> hinv h' -> h_escaped h' = h_escaped (w_host w) ->
  (forall i p, h_names h' !! (Lower i, p) = h_names (w_host w) !! (Lower i, p) /\ node h' (Lower i, p) = node (w_host w) (Lower i, p)) ->
  (forall l', l' <> l -> look h' l' = look (w_host w) l') ->
  (forall p k, l = (Upper, p) -> tidy p -> kind_at (w_host w) l = Some k -> kind_at h' l = Some k) ->
  Only l w (set_host h' (drop_fault w)).
Proof.
  intros I I' He Hlow Hlook Hk. constructor; [|done..|exact Hlook|done]. constructor; [done|]. apply groups_agree_only; [done..|].
  intros p k Ht Hkp. destruct (decide (l = (Upper, p))) as [->|Hne]; [by eapply Hk|]. rewrite (kind_of_look (w_host w)); [done|]. by apply Hlook.
Qed.
Lemma Only_same w l h' : inv w -> h' = w_host w -> Only l w (set_host h' (drop_fault w)).
Proof. intros I ->. apply Only_set_host; [done|apply I|done..]. Qed.
Lemma OnlyIn_trans (P Q : Loc -> Prop) w1 w2 w3 : OnlyIn P w1 w2 -> OnlyIn Q w2 w3 -> OnlyIn (fun l => P l \/ Q l) w1 w3.
Proof.
  intros [I1 E1 L1 K1 P1] [I2 E2 L2 K2 P2]. constructor; [done|congruence| | |eauto].
  - intros i p. destruct (L2 i p) as [-> ->]. apply L1.
  - intros l' Hne. rewrite K2, K1; [done|naive_solver..].
Qed.
Lemma OnlyIn_weaken (P Q : Loc -> Prop) w1 w2 : OnlyIn P w1 w2 -> (forall l, P l -> Q l) -> OnlyIn Q w1 w2.
Proof. intros [I1 E1 L1 K1 P1] HPQ. constructor; [done..| |done]. intros l Hl. apply K1. auto. Qed.
Lemma OnlyIn_refl (P : Loc -> Prop) w : inv w -> OnlyIn P w w.
Proof. intros I. by constructor. Qed.
Lemma OnlyIn_calm (P : Loc -> Prop) w w' : calm core w w' -> OnlyIn P w w'.
Proof.
  intros [Q N L G]. constructor; [apply Q|apply (hq_escaped _ _ _ (qt_host _ _ _ Q))|apply (hq_lower _ _ _ (qt_host _ _ _ Q))|intros l _; apply L|apply Q].
Qed.

Lemma hinv_rooted_look h h' l : hinv h -> (forall l', l' <> l -> look h' l' = look h l') -> l.2 <> [] -> rooted core h'.
Proof.
  intros I Hl Hne. destruct (hinv_rooted _ _ I) as [U L K].
  assert (forall r, look h' (r, []) = look h (r, [])) as Hr by (intros r; apply Hl; intros <-; by apply Hne).
  constructor; [rewrite (kind_of_look h h'); done|intros i Hi|intros Hw]; rewrite (kind_of_look h h'); auto.
Qed.

(** Creating a name of the upper. *)
Lemma create_only q c k perm w r w' : inv w -> kind_at (w_host w) (Upper, q) = Some KDir ->
  call (fs_create (Upper, q ++ [c]) k perm) w = (r, w') ->
  Only (Upper, q ++ [c]) w w' /\ w_groups w' = w_groups w /\
  match r with
  | Ok _ => node (w_host w) (Upper, q ++ [c]) = None /\ node (w_host w') (Upper, q ++ [c]) = Some (new_inode k perm)
  | Err _ => w_host w' = w_host w
  end.
Proof.
  intros I Hd E. pose proof (hinv_wf _ _ (inv_host _ w I)) as W.
  apply call_cases in E as [(e & -> & ->)|(h & Eh & ->)]; [split_and!; [by apply Only_drop|done..]|].
  rewrite fs_create_cases in Eh by done. destruct (h_names (w_host w) !! (Upper, q ++ [c])) as [i|] eqn:En; injection Eh as <- <-.
  - split_and!; [by apply Only_same|done..].
  - assert (forall l', l' <> (Upper, q ++ [c]) -> look (add_inode (Upper, q ++ [c]) (new_inode k perm) (w_host w)) l' = look (w_host w) l') as Hlook
      by (intros l' Hne; by apply look_add).
    split_and!; [|done|by apply node_names|cbn; by rewrite node_add_inode, decide_True].
    apply Only_set_host; [done| |done|apply (add_lower core); [apply I|apply upper_not_lower]|done|].
    + constructor; [by apply wf_add_inode|eapply hinv_rooted_look; [apply I|exact Hlook|by destruct q]|].
      apply (apart_add core); [apply I|apply upper_not_lower].
    + intros p k' _ _ (m & (j & Hj & _)%node_Some & _)%kind_at_Some. congruence.
Qed.

(** Removing a name of the upper that has nothing below it. *)
Lemma hinv_delete h p : hinv h -> p <> [] -> (forall d, h_names h !! (Upper, p ++ [d]) = None) -> hinv (set_names (delete (Upper, p) (h_names h)) h).
Proof.
  intros I Hp Hc. constructor; [by apply wf_delete; [apply I|]| |apply delete_apart, I].
  eapply (hinv_rooted_look h _ (Upper, p)); [done| |done]. intros l Hne. unfold look. by rewrite node_delete, decide_False.
Qed.
Lemma delete_lower h p i p' : h_names (set_names (delete (Upper, p) (h_names h)) h) !! (Lower i, p') = h_names h !! (Lower i, p') /\
  node (set_names (delete (Upper, p) (h_names h)) h) (Lower i, p') = node h (Lower i, p').
Proof. split; [cbn; by rewrite lookup_delete_ne|]. rewrite node_delete. by rewrite decide_False. Qed.

Lemma clear_whiteout_only q c w r w' : inv w -> tidy (q ++ [c]) -> kind_at (w_host w) (Upper, q) = Some KDir ->
  clear_whiteout core (q ++ [c]) w = (r, w') ->
  Only (whiteout_path q c) w w' /\ w_groups w' = w_groups w /\
  match r with Ok _ => kind_at (w_host w') (whiteout_path q c) = None | Err _ => w_host w' = w_host w end.
Proof.
  intros I Ht Hd E. pose proof (hinv_wf _ _ (inv_host _ w I)) as W. unfold clear_whiteout in E.
  apply bind_inv in E as [([] & w0 & E0 & E)|(e & E0 & ->)]; injection E0 as E0 <-.
  2: { split_and!; [|done..]. by constructor. }
  rewrite last_snoc in E. apply bind_inv in E as [(name & w0 & [= <- <-] & E)|(e & [=] & _)]. rewrite parent_of_snoc in E.
  unfold unless_error in E. destruct (call _ w) as [r1 w1] eqn:Ec.
  assert (Only (whiteout_path q c) w w1 /\ w_groups w1 = w_groups w /\
    match r1 with
    | Ok _ => kind_at (w_host w1) (whiteout_path q c) = None
    | Err e => w_host w1 = w_host w /\ (e = ENOENT -> kind_at (w_host w1) (whiteout_path q c) = None)
    end) as (O & G & Hr1).
  { apply call_cases in Ec as [(e & -> & ->)|(h & Eh & ->)].
    - split_and!; [by apply Only_drop|done..|]. by destruct e.
    - unfold fs_remove_file, in_directory, whiteout_path in Eh. rewrite (proj2 (reach_ok _ _ _ _ W) Hd) in Eh.
      destruct (kind_at (w_host w) (Upper, q ++ [WHITEOUT_PREFIX +:+ c])) as [k|] eqn:Ek.
      + assert ((k = KDir /\ r1 = Err EISDIR /\ h = w_host w) \/
                (k <> KDir /\ r1 = Ok tt /\ h = set_names (delete (Upper, q ++ [WHITEOUT_PREFIX +:+ c]) (h_names (w_host w))) (w_host w))) as [(-> & -> & ->)|(Hk & -> & ->)]
          by (destruct k; injection Eh as <- <-; [left|right..]; done).
        * split_and!; [by apply Only_same|done..].
        * assert (forall d, h_names (w_host w) !! (Upper, (q ++ [WHITEOUT_PREFIX +:+ c]) ++ [d]) = None) as Hch
            by (by apply (file_no_children Upper q (WHITEOUT_PREFIX +:+ c) (w_host w) k)).
          split_and!; [|done|cbn; unfold kind_at; rewrite node_delete; by rewrite decide_True].
          apply Only_set_host; [done|apply hinv_delete; [apply I|by destruct q|done]|done|apply delete_lower| |].
          -- intros l' Hne. unfold look. by rewrite node_delete, decide_False.
          -- intros p k' [= <-] [_ Hp]%tidy_snoc. by rewrite whiteout_is_marker in Hp.
      + injection Eh as <- <-. split_and!; [by apply Only_same|done..]. }
  destruct r1 as [[]|e1].
  - injection E as <- <-. done.
  - injection E as <- <-. case_bool_decide as He; [|by destruct Hr1]. destruct Hr1 as [_ Hr1]. split_and!; [done..|]. by apply Hr1.
Qed.

Lemma create_marker_only q x w r w' : inv w -> is_whiteout_name x = true -> kind_at (w_host w) (Upper, q) = Some KDir ->
  create_marker (Upper, q ++ [x]) w = (r, w') ->
  Only (Upper, q ++ [x]) w w' /\ w_groups w' = w_groups w /\
  match r with Ok _ => is_Some (kind_at (w_host w') (Upper, q ++ [x])) | Err _ => w_host w' = w_host w end.
Proof.
  intros I Hx Hd E. unfold create_marker in E. apply bind_inv in E as [(present & w1 & [= <- <-] & E)|(e & [=] & _)].
  rewrite (marker_exists _ (hinv_wf _ _ (inv_host _ w I))) in E by done. case_bool_decide as Hp; cbn [negb if_then] in E.
  - injection E as <- <-. split_and!; [|done..]. by constructor.
  - destruct (create_only _ _ _ _ _ _ _ I Hd E) as (O & G & Hr). split_and!; [done..|].
    destruct r as [[]|e]; [|done]. destruct Hr as [_ Hr]. unfold kind_at. rewrite Hr. by eexists.
Qed.

(** ** New objects *)

(** Nothing changes outside of the named paths: no lower, and no part of the view. *)
Record Outside (rels : list Path) (w w' : World) : Prop := mkOutside {
  os_inv : inv w';
  os_escaped : h_escaped (w_host w') = h_escaped (w_host w);
  os_lower i p : node (w_host w') (Lower i, p) = node (w_host w) (Lower i, p);
  os_view p : plain p -> ~ below rels p -> view count (w_host w') p = view count (w_host w) p;
  os_pre p f : w_preimages w !! p = Some f -> w_preimages w' !! p = Some f
}.
(** The named path shows [v] afterwards, with nothing below it. *)
Record Changed (rel : Path) (v : option Kind) (w w' : World) : Prop := mkChanged {
  ch_outside : Outside [rel] w w';
  ch_at : view count (w_host w') rel = v;
  ch_below s : plain (rel ++ s) -> s <> [] -> view count (w_host w') (rel ++ s) = None
}.

(** Marking a directory of the upper opaque. *)
Lemma xattr_opaque_mono n name : xattr_opaque n = true -> xattr_opaque (with_xattr name "y" n) = true.
Proof.
  unfold xattr_opaque. rewrite !existsb_exists. intros (x & Hin & Hx). exists x. split; [done|]. apply bool_decide_eq_true in Hx.
  apply bool_decide_eq_true. cbn. destruct (decide (x = name)) as [->|]; [by rewrite lookup_insert_eq|by rewrite lookup_insert_ne].
Qed.
Definition opaque_xattr_at (h : Host) (rel : Path) : bool := from_option xattr_opaque false (node h (Upper, rel)).
Definition opaque_places (rel : Path) (l : Loc) : Prop := l = (Upper, rel) \/ l = (Upper, rel ++ [OPAQUE_NAME]).
Lemma update_dir_only rel f w r w' : inv w -> rel <> [] -> kind_at (w_host w) (Upper, rel) = Some KDir ->
  (forall n, i_kind (f n) = i_kind n) -> (forall n, xattr_opaque n = true -> xattr_opaque (f n) = true) ->
  call (fs_update (Upper, rel) f) w = (r, w') ->
  Only (Upper, rel) w w' /\ w_groups w' = w_groups w /\ kind_at (w_host w') (Upper, rel) = Some KDir /\
  (opaque_xattr_at (w_host w) rel = true -> opaque_xattr_at (w_host w') rel = true).
Proof.
  intros I Hrel Hd Hf Hmono E. pose proof (hinv_wf _ _ (inv_host _ w I)) as W.
  apply call_cases in E as [(e & -> & ->)|(h & Eh & ->)]; [split_and!; [by apply Only_drop|done..]|].
  pose proof Hd as (n0 & Hn0 & Hk0)%kind_at_Some.
  destruct (fs_update_cases (w_host w) (Upper, rel) f W ltac:(rewrite Hn0; by eexists)) as (i & n & Hi & Hn & Eh').
  rewrite Eh in Eh'. injection Eh' as -> ->. assert (n = n0) as -> by (apply node_Some in Hn0 as (j & ? & ?); congruence).
  assert (forall l', l' <> (Upper, rel) -> look (set_inodes (<[i := f n0]> (h_inodes (w_host w))) (w_host w)) l' = look (w_host w) l') as Hlook.
  { intros l' Hne. unfold look. rewrite (node_update _ (Upper, rel) f i n0 l' Hi Hn), decide_False; [done|].
    intros Hl'. apply Hne. symmetry. by apply (wf_dirs _ W (Upper, rel) l' i n0). }
  assert (kind_at (set_inodes (<[i := f n0]> (h_inodes (w_host w))) (w_host w)) (Upper, rel) = Some KDir) as Hk.
  { rewrite (kind_update_attr _ (Upper, rel) f i n0); [by rewrite Hd|done..]. }
  split_and!; [|done|done|].
  2: { unfold opaque_xattr_at. cbn [w_host set_host]. rewrite (node_update _ (Upper, rel) f i n0 (Upper, rel) Hi Hn), decide_True, Hn0 by done. apply Hmono. }
  apply Only_set_host; [done| |done| |done|].
  - constructor; [apply (wf_update _ (Upper, rel)); [done..|by rewrite Hf]|eapply hinv_rooted_look; [apply I|exact Hlook|done]|apply I].
  - apply (update_lower core _ (Upper, rel)); [apply I|apply upper_not_lower|done..].
  - intros p k _ _ Hkp. congruence.
Qed.
Lemma set_opaque_xattr_only rel names w r w' : inv w -> rel <> [] -> kind_at (w_host w) (Upper, rel) = Some KDir ->
  set_opaque_xattr (Upper, rel) names w = (r, w') ->
  Only (Upper, rel) w w' /\ w_groups w' = w_groups w /\ kind_at (w_host w') (Upper, rel) = Some KDir /\
  (opaque_xattr_at (w_host w) rel = true -> opaque_xattr_at (w_host w') rel = true).
Proof.
  intros I Hrel Hd E. revert w I Hd E. induction names as [|name names IH]; intros w I Hd E; cbn [set_opaque_xattr] in E.
  - injection E as <- <-. split_and!; [by apply OnlyIn_refl|done..].
  - destruct (call _ w) as [[[]|e] w1] eqn:E1; destruct (update_dir_only rel (with_xattr name "y") w _ _ I Hrel Hd ltac:(done) ltac:(intros n; apply xattr_opaque_mono) E1) as (O & G & K & M).
    + injection E as <- <-. done.
    + destruct (ignorable_metadata_error e); [|injection E as <- <-; done].
      destruct (IH w1 (on_inv _ _ _ O) K E) as (O2 & G2 & K2 & M2). split_and!; [|congruence|done|auto].
      eapply OnlyIn_weaken; [exact (OnlyIn_trans _ _ _ _ _ O O2)|naive_solver].
Qed.
Lemma mark_opaque_only rel w r w' : inv w -> rel <> [] -> tidy rel -> kind_at (w_host w) (Upper, rel) = Some KDir ->
  mark_opaque rel w = (r, w') ->
  OnlyIn (opaque_places rel) w w' /\ w_groups w' = w_groups w /\ kind_at (w_host w') (Upper, rel) = Some KDir /\
  (r = Ok tt \/ opaque_at (w_host w) rel = true -> opaque_at (w_host w') rel = true).
Proof.
  intros I Hrel Ht Hd E. apply bind_inv in E as [([] & w1 & E1 & E)|(e & E1 & ->)];
    destruct (create_marker_only rel OPAQUE_NAME w _ _ I ltac:(done) Hd E1) as (O1 & G1 & K1).
  - assert (kind_at (w_host w1) (Upper, rel) = Some KDir) as Hd1.
    { rewrite (kind_of_look (w_host w)); [done|]. apply (on_look _ _ _ O1). intros [= Eq]. by eapply snoc_neq. }
    destruct (set_opaque_xattr_only rel _ w1 _ _ (on_inv _ _ _ O1) Hrel Hd1 E) as (O2 & G2 & K2 & _).
    split_and!; [|congruence|done|].
    + eapply OnlyIn_weaken; [exact (OnlyIn_trans _ _ _ _ _ O1 O2)|]. unfold opaque_places. naive_solver.
    + intros _. unfold opaque_at. apply orb_true_iff. left. apply bool_decide_eq_true.
      rewrite (kind_of_look (w_host w1)); [done|]. apply (on_look _ _ _ O2). intros [= Eq]. by eapply snoc_neq.
  - split_and!; [|done|by rewrite K1|by rewrite K1; intros [[=]|?]]. eapply OnlyIn_weaken; [exact O1|]. unfold opaque_places. naive_solver.
Qed.

(** Everything before the object itself is created. *)
Lemma prepare_new_spec q c w r w' : inv w -> plain (q ++ [c]) -> prepare_new core (q ++ [c]) w = (r, w') ->
  match r with
  | Err _ => quiet w w'
  | Ok _ => view count (w_host w) (q ++ [c]) = None /\ kind_at (w_host w') (Upper, q) = Some KDir /\
      exists w1, quiet w w1 /\ Only (whiteout_path q c) w1 w' /\ kind_at (w_host w') (whiteout_path q c) = None
  end.
Proof.
  intros I Hp E. pose proof (plain_tidy _ Hp) as Ht. pose proof (proj1 (proj1 (tidy_snoc _ _) Ht)) as Htq.
  apply bind_inv in E as [([] & w0 & E0 & E)|(e & E0 & ->)]; injection E0 as E0 <-; [|by apply quiet_refl].
  apply bind_inv in E as [(found & w1 & E1 & E)|(e & E1 & ->)]; [|injection E1 as _ <-; by apply quiet_refl].
  destruct found as [m|]; [destruct (resolve_Some _ _ _ _ _ I E1) as (-> & _)|destruct (resolve_None _ _ _ _ I E1) as (-> & _ & Hv)].
  { apply bind_inv in E as [(u & w1 & [=] & _)|(e & [= <- <-] & ->)]. by apply quiet_refl. }
  apply bind_inv in E as [([] & w1 & [= <-] & E)|(e & [=] & _)].
  apply bind_inv in E as [([] & w2 & E2 & E)|(e & E2 & ->)]; pose proof (Quiet_record _ _ _ _ _ I E2) as Q2; [|done].
  apply bind_inv in E as [([] & w3 & E3 & E)|(e & E3 & ->)];
    destruct (ensure_upper_parents_quiet _ _ _ _ _ _ (qt_inv _ _ _ Q2) Htq E3) as (Q3 & G3 & K3 & _); [|by eapply quiet_trans].
  specialize (K3 eq_refl). assert (quiet w w3) as Q03 by (by eapply quiet_trans).
  destruct (clear_whiteout_only q c w3 r w' (qt_inv _ _ _ Q03) Ht K3 E) as (O & G & Hr).
  destruct r as [[]|e].
  - split_and!; [done| |exists w3; done]. rewrite (kind_of_look (w_host w3)); [done|]. apply (on_look _ _ _ O).
    unfold whiteout_path. intros [= Eq]. by eapply snoc_neq.
  - eapply quiet_trans; [exact Q03|]. apply quiet_host; [apply Q03|rewrite Hr; apply hquiet_refl, Q03|done|apply (on_pre _ _ _ O)].
Qed.

Lemma touched_rel rel : touched [rel] (Upper, rel).
Proof. exists rel. split; [left|left]. apply under_refl. Qed.
Lemma touched_below rel s : touched [rel] (Upper, rel ++ s).
Proof. exists rel. split; [left|left]. apply under_spec. eauto. Qed.
Lemma touched_whiteout q c : touched [q ++ [c]] (whiteout_path q c).
Proof. exists (q ++ [c]). split; [left|right]. by rewrite whiteout_of_snoc. Qed.

Lemma Outside_quiet rels w w' : quiet w w' -> Outside rels w w'.
Proof.
  intros Q. pose proof (qt_host _ _ _ Q) as QH. constructor; [apply Q|apply QH|intros i p; apply QH| |apply Q].
  intros p Hp _. by apply (hq_view _ _ _ QH).
Qed.
Lemma Outside_trans rels w1 w2 w3 : Outside rels w1 w2 -> Outside rels w2 w3 -> Outside rels w1 w3.
Proof.
  intros [I1 E1 L1 V1 P1] [I2 E2 L2 V2 P2]. constructor; [done|congruence| | |eauto].
  - intros i p. by rewrite L2, L1.
  - intros p Hp Hb. by rewrite V2, V1.
Qed.
Lemma Outside_only (P : Loc -> Prop) rels w w' : OnlyIn P w w' -> (forall l, P l -> touched rels l) ->
  Forall (fun rel => plain rel /\ rel <> []) rels -> Outside rels w w'.
Proof.
  intros O HP Hr. constructor; [apply O|apply O|intros i p; apply (on_lower _ _ _ O i p)| |apply O].
  intros p Hpp Hnb. apply (view_outside _ _ rels); [|..|done|done].
  - eapply Forall_impl; [exact Hr|]. intros rel [? ?]. split; [by apply plain_tidy|done].
  - intros l _ Hl. apply (on_look _ _ _ O). intros HPl. by apply Hl, HP.
Qed.

Lemma changed_intro (P : Loc -> Prop) rel v w w1 w' : quiet w w1 -> OnlyIn P w1 w' -> (forall l, P l -> touched [rel] l) ->
  plain rel -> rel <> [] -> view count (w_host w') rel = v ->
  (v = Some KDir -> forall c, plain_name c -> entry count (w_host w') rel c = None) -> Changed rel v w w'.
Proof.
  intros Q O HP Hp Hne Hv Hbelow. constructor.
  - eapply Outside_trans; [apply Outside_quiet, Q|]. apply (Outside_only P); [done..|]. by constructor.
  - done.
  - intros s Hps Hs. destruct (decide (v = Some KDir)) as [->|Hnd]; [|by apply view_below; [rewrite Hv|]].
    destruct s as [|c s]; [done|]. apply plain_app in Hps as [_ [Hc _]%Forall_cons].
    assert (view count (w_host w') (rel ++ [c]) = None) as Hnone.
    { rewrite view_snoc. rewrite decide_True by done. by apply Hbelow. }
    destruct s as [|d s]; [done|]. change (c :: d :: s) with ([c] ++ d :: s). rewrite app_assoc.
    apply view_below; [by rewrite Hnone|done].
Qed.

(** The parent of a name in the upper shows as a directory. *)
Lemma parent_shows q w w1 : inv w -> quiet w w1 -> plain q -> kind_at (w_host w1) (Upper, q) = Some KDir ->
  view count (w_host w) q = Some KDir.
Proof.
  intros I Q Hp Hd. rewrite <- (hq_view _ _ _ (qt_host _ _ _ Q) q Hp). by apply view_of_upper; [apply Q|].
Qed.
Lemma whiteout_dir q c w1 w2 : Only (whiteout_path q c) w1 w2 -> kind_at (w_host w2) (Upper, q) = kind_at (w_host w1) (Upper, q).
Proof. intros O. apply kind_of_look, (on_look _ _ _ O). unfold whiteout_path. intros [= Eq]. by eapply snoc_neq. Qed.

(** A file, a link or a node that is created. *)
Lemma create_changes q c k perm w r w' : inv w -> plain (q ++ [c]) -> k <> KDir ->
  ((_ ← prepare_new core (q ++ [c]); call (fs_create (Upper, q ++ [c]) k perm)) : Op unit) w = (r, w') ->
  match r with
  | Ok _ => view count (w_host w) (q ++ [c]) = None /\ view count (w_host w) q = Some KDir /\ Changed (q ++ [c]) (Some k) w w'
  | Err _ => Outside [q ++ [c]] w w'
  end.
Proof.
  intros I Hp Hk E. assert (q ++ [c] <> []) as Hne by (by destruct q).
  apply bind_inv in E as [([] & w2 & E2 & E)|(e & E2 & ->)]; pose proof (prepare_new_spec _ _ _ _ _ I Hp E2) as Hs;
    [|by apply Outside_quiet]. destruct Hs as (Hv & Hd & w1 & Q1 & O1 & Hwh).
  pose proof (on_inv _ _ _ O1) as I2. destruct (create_only _ _ _ _ _ _ _ I2 Hd E) as (O2 & G2 & Hr).
  assert (OnlyIn (fun l => l = whiteout_path q c \/ l = (Upper, q ++ [c])) w1 w') as O by (exact (OnlyIn_trans _ _ _ _ _ O1 O2)).
  assert (forall l, (l = whiteout_path q c \/ l = (Upper, q ++ [c])) -> touched [q ++ [c]] l) as HP.
  { intros l [-> | ->]; [apply touched_whiteout|apply touched_rel]. }
  destruct r as [[]|e].
  - destruct Hr as [_ Hn]. split_and!; [done| |].
    + apply (parent_shows q w w1); [done..|by apply plain_snoc in Hp as [? _]|]. by rewrite <- (whiteout_dir _ _ _ _ O1).
    + apply (changed_intro _ _ _ w w1 w' Q1 O HP Hp Hne); [|congruence].
      apply view_of_upper; [apply O|]. unfold kind_at. by rewrite Hn.
  - eapply Outside_trans; [by apply Outside_quiet|]. apply (Outside_only _ _ _ _ O HP). by constructor.
Qed.

(** ** Directories *)

Lemma exists_in_lower_spec h rel : hinv h -> rel <> [] -> require_visible core rel = Ok tt ->
  exists_in_lower core h rel = true <-> exists i, i < count /\ is_Some (kind_at h (Lower i, rel)).
Proof.
  intros I Hne Hvis. unfold exists_in_lower. rewrite Hvis. cbn [is_ok andb].
  assert (normal rel) as Hn by (unfold require_visible, validate_rel in Hvis; by destruct (forallb normal_component rel) eqn:E).
  destruct (path_snoc_cases rel) as [->|(q & c & ->)]; [done|].
  assert (forall i, i < count -> (match layer_metadata h (Lower i) (q ++ [c]) with Ok (Some _) => true | _ => false end) = true <-> is_Some (kind_at h (Lower i, q ++ [c]))) as Hi.
  { intros i Hi. unfold layer_metadata.
    destruct (layer_metadata_spec h (hinv_wf _ _ I) (Lower i) q c None) as (m & ps & ch & -> & _ & Hm); [by apply (rooted_lower core _ (hinv_rooted _ _ I))|done..|].
    cbn. unfold kind_at. destruct m as [j n| |]; destruct Hm as [Hm1 Hm2]; cbn; [rewrite Hm2|rewrite Hm1..]; split; try done; try (by eexists); by intros [? [=]]. }
  rewrite existsb_exists. setoid_rewrite in_seq. split.
  - intros (i & Hin & Hb). exists i. split; [lia|]. apply Hi; [lia|done].
  - intros (i & Hlt & Hs). exists i. split; [lia|]. by apply Hi.
Qed.
Lemma not_in_lower h rel : hinv h -> rel <> [] -> require_visible core rel = Ok tt -> exists_in_lower core h rel = false ->
  forall s, lower_loc h count 0 (rel ++ s) = None.
Proof.
  intros I Hne Hvis Hf s. apply lower_loc_None. intros i Hi.
  destruct (kind_at h (Lower i, rel ++ s)) as [k|] eqn:E; [|done]. exfalso.
  assert (exists_in_lower core h rel = true); [|congruence]. apply exists_in_lower_spec; [done..|]. exists i. split; [lia|].
  destruct s as [|d s]; [rewrite app_nil_r in E; by eexists|].
  rewrite (wf_prefix_dir h (Lower i) rel (d :: s) k (hinv_wf _ _ I) ltac:(done) E). by eexists.
Qed.
Lemma kind_lower_same w w' : (forall i p, node (w_host w') (Lower i, p) = node (w_host w) (Lower i, p)) ->
  forall n index p, lower_loc (w_host w') n index p = lower_loc (w_host w) n index p.
Proof. intros Hl n index p. apply lower_loc_look. intros i. unfold look. by rewrite Hl. Qed.

Lemma prepare_dir_spec q c w r w' : inv w -> plain (q ++ [c]) -> prepare_dir core (q ++ [c]) w = (r, w') ->
  match r with
  | Err _ => quiet w w'
  | Ok shadows => view count (w_host w) (q ++ [c]) = None /\ kind_at (w_host w') (Upper, q) = Some KDir /\
      (shadows = false -> forall s, lower_loc (w_host w') count 0 ((q ++ [c]) ++ s) = None) /\
      exists w1, quiet w w1 /\ Only (whiteout_path q c) w1 w' /\ kind_at (w_host w') (whiteout_path q c) = None
  end.
Proof.
  intros I Hp E. pose proof (plain_tidy _ Hp) as Ht. pose proof (proj1 (proj1 (tidy_snoc _ _) Ht)) as Htq.
  assert (q ++ [c] <> []) as Hne by (by destruct q).
  apply bind_inv in E as [([] & w0 & E0 & E)|(e & E0 & ->)]; injection E0 as Hvis <-; [|by apply quiet_refl].
  apply bind_inv in E as [(found & w1 & E1 & E)|(e & E1 & ->)]; [|injection E1 as _ <-; by apply quiet_refl].
  destruct found as [m|]; [destruct (resolve_Some _ _ _ _ _ I E1) as (-> & _)|destruct (resolve_None _ _ _ _ I E1) as (-> & _ & Hv)].
  { apply bind_inv in E as [(u & w1 & [=] & _)|(e & [= <- <-] & ->)]. by apply quiet_refl. }
  apply bind_inv in E as [([] & w1 & [= <-] & E)|(e & [=] & _)].
  apply bind_inv in E as [([] & w2 & E2 & E)|(e & E2 & ->)]; pose proof (Quiet_record _ _ _ _ _ I E2) as Q2; [|done].
  apply bind_inv in E as [(shadows & w3 & [= <- <-] & E)|(e & [=] & _)].
  assert (Quiet core (if_then (exists_in_lower core (w_host w2) (q ++ [c])) (require_tree_access core (q ++ [c]) (q ++ [c])))) as HQ
    by apply Quiet_if_then, Quiet_reading.
  apply bind_inv in E as [([] & w3 & E3 & E)|(e & E3 & ->)]; pose proof (HQ _ _ _ (qt_inv _ _ _ Q2) E3) as Q3; [|by eapply quiet_trans].
  apply bind_inv in E as [([] & w4 & E4 & E)|(e & E4 & ->)];
    destruct (ensure_upper_parents_quiet _ _ _ _ _ _ (qt_inv _ _ _ Q3) Htq E4) as (Q4 & _ & K4 & _);
    [|eapply quiet_trans; [exact Q2|by eapply quiet_trans]].
  specialize (K4 eq_refl). assert (quiet w2 w4) as Q24 by (by eapply quiet_trans). assert (quiet w w4) as Q04 by (by eapply quiet_trans).
  apply bind_inv in E as [([] & w5 & E5 & E)|(e & E5 & ->)];
    destruct (clear_whiteout_only q c w4 _ _ (qt_inv _ _ _ Q04) Ht K4 E5) as (O & G & Hr).
  - injection E as <- <-. split_and!; [done|by rewrite (whiteout_dir _ _ _ _ O)| |exists w4; done].
    intros Hf s. rewrite (kind_lower_same w2).
    + by apply not_in_lower; [apply Q2|..].
    + intros i p. rewrite (proj2 (on_lower _ _ _ O i p)). apply (hq_lower _ _ _ (qt_host _ _ _ Q24) i p).
  - eapply quiet_trans; [exact Q04|]. apply quiet_host; [apply Q04|rewrite Hr; apply hquiet_refl, Q04|done|apply (on_pre _ _ _ O)].
Qed.

(** A directory hides all below it when it is opaque, or when no lower has it. *)
Lemma fresh_dir_empty h rel c : hinv h -> kind_at h (Upper, rel) = Some KDir -> kind_at h (Upper, rel ++ [c]) = None ->
  opaque_at h rel = true \/ lower_loc h count 0 (rel ++ [c]) = None -> entry count h rel c = None.
Proof.
  intros I Hd Hn Ho. rewrite (entry_unfold core). rewrite Hn. unfold hidden. rewrite bool_decide_eq_true_2 by done. cbn [andb].
  destruct Ho as [-> | Hl]; [by rewrite orb_true_r|]. rewrite Hl. by case_match.
Qed.

Lemma create_dir_changes q c mode w r w' : inv w -> plain (q ++ [c]) -> create_dir core (q ++ [c]) mode w = (r, w') ->
  match r with
  | Ok _ => view count (w_host w) (q ++ [c]) = None /\ view count (w_host w) q = Some KDir /\ Changed (q ++ [c]) (Some KDir) w w'
  | Err _ => Outside [q ++ [c]] w w'
  end.
Proof.
  intros I Hp E. set (rel := q ++ [c]) in *. assert (rel <> []) as Hne by (by destruct q). pose proof (plain_tidy _ Hp) as Ht.
  apply bind_inv in E as [(shadows & w2 & E2 & E)|(e & E2 & ->)]; pose proof (prepare_dir_spec _ _ _ _ _ I Hp E2) as Hs;
    [|by apply Outside_quiet]. destruct Hs as (Hv & Hd & Hlow & w1 & Q1 & O1 & Hwh).
  set (P := fun l => l = whiteout_path q c \/ exists s, l = (Upper, rel ++ s)).
  assert (forall l, P l -> touched [rel] l) as HP by (intros l [->|[s ->]]; [apply touched_whiteout|apply touched_below]).
  assert (forall w4, OnlyIn P w1 w4 -> Outside [rel] w w4) as Hout.
  { intros w4 O. eapply Outside_trans; [by apply Outside_quiet|]. apply (Outside_only _ _ _ _ O HP). by constructor. }
  pose proof (on_inv _ _ _ O1) as I2. assert (OnlyIn P w1 w2) as OP1 by (eapply OnlyIn_weaken; [exact O1|]; intros l ->; by left).
  assert (forall w4 w5 Q, OnlyIn P w1 w4 -> OnlyIn Q w4 w5 -> (forall l, Q l -> exists s, l = (Upper, rel ++ s)) -> OnlyIn P w1 w5) as Hstep.
  { intros w4 w5 Q O4 O5 HQ. eapply OnlyIn_weaken; [exact (OnlyIn_trans _ _ _ _ _ O4 O5)|]. intros l [?|?]; [done|right; auto]. }
  assert (forall l, l = (Upper, rel) -> exists s, l = (Upper, rel ++ s)) as Hself by (intros l ->; exists []; by rewrite app_nil_r).
  apply bind_inv in E as [([] & w3 & E3 & E)|(e & E3 & ->)];
    destruct (create_only _ _ _ _ _ _ _ I2 Hd E3) as (O3 & _ & Hn3); pose proof (Hstep _ _ _ OP1 O3 Hself) as OP3; [|by apply Hout].
  destruct Hn3 as [Hn2 Hn3]. assert (kind_at (w_host w3) (Upper, rel) = Some KDir) as Hd3 by (unfold kind_at, rel; by rewrite Hn3).
  apply bind_inv in E as [([] & w4 & E4 & E)|(e & E4 & ->)];
    destruct (update_dir_only rel (with_perm (Z.land mode 4095)) w3 _ _ (on_inv _ _ _ O3) Hne Hd3 ltac:(done) ltac:(done) E4) as (O4 & _ & Hd4 & _);
    pose proof (Hstep _ _ _ OP3 O4 Hself) as OP4; [|by apply Hout].
  assert (forall d, kind_at (w_host w4) (Upper, rel ++ [d]) = None) as Hch.
  { intros d. rewrite (kind_of_look (w_host w2)).
    - destruct (kind_at (w_host w2) (Upper, rel ++ [d])) eqn:Ek; [|done]. apply (wf_parent_dir _ _ _ _ _ (hinv_wf _ _ (inv_host _ _ I2))) in Ek.
      apply kind_at_Some in Ek as (? & ? & _). subst rel. congruence.
    - rewrite (on_look _ _ _ O4), (on_look _ _ _ O3); [done|intros [= Eq]; by eapply snoc_neq..]. }
  assert (OnlyIn P w1 w' /\ kind_at (w_host w') (Upper, rel) = Some KDir /\ (r = Ok tt -> forall d, plain_name d -> entry count (w_host w') rel d = None)) as (OP5 & Hd5 & Hempty).
  { destruct shadows; cbn [if_then] in E.
    - destruct (mark_opaque_only rel w4 r w' (on_inv _ _ _ O4) Hne Ht Hd4 E) as (O5 & _ & Hd5 & Hop). split_and!; [|done|].
      + eapply Hstep; [exact OP4|exact O5|]. intros l [-> | ->]; [by apply Hself|eauto].
      + intros Hok d [Hpd _]. apply fresh_dir_empty; [apply O5|done| |left; apply Hop; by left].
        rewrite (kind_of_look (w_host w4)); [done|]. apply (on_look _ _ _ O5). intros [[= Eq]|[= Eq]]; [by eapply snoc_neq|].
        apply app_inv_head in Eq as [= ->]. done.
    - injection E as <- <-. split_and!; [done..|]. intros _ d _. apply fresh_dir_empty; [apply O4|done..|right].
      rewrite (kind_lower_same w2); [by apply Hlow|]. intros i p.
      rewrite (proj2 (on_lower _ _ _ O4 i p)). apply (on_lower _ _ _ O3 i p). }
  destruct r as [[]|e]; [|by apply Hout]. split_and!; [done| |].
  - apply (parent_shows q w w1); [done..|by apply plain_snoc in Hp as [? _]|]. by rewrite <- (whiteout_dir _ _ _ _ O1).
  - apply (changed_intro P _ _ w w1 w' Q1 OP5 HP Hp Hne).
    + by apply view_of_upper; [apply OP5|].
    + intros _. by apply Hempty.
Qed.

(** ** Listing and mapping leave the file system alone *)

(** An operation that only reads, or records observations. *)
Definition Reads {A} (m : Op A) : Prop := Quiet core m /\ HostSame m.
Lemma Reads_bind {A B} (m : Op A) (k : A -> Op B) : Reads m -> (forall a, Reads (k a)) -> Reads (m ≫= k).
Proof. intros [Q1 H1] Hk. split; [apply Quiet_bind; [done|apply Hk]|apply HostSame_bind; [done|apply Hk]]. Qed.
Lemma Reads_pure {A} (m : Op A) : (forall w, (m w).2 = w) -> Reads m.
Proof. intros Hm. split; [by apply Quiet_pure|]. apply HostSame_pure. intros w. by rewrite Hm. Qed.
Lemma Reads_if_then b m : Reads m -> Reads (if_then b m).
Proof. intros Hm. destruct b; [done|by apply Reads_pure]. Qed.
Lemma Reads_for {A} (f : A -> Op unit) l : (forall x, Reads (f x)) -> Reads (op_for f l).
Proof. intros Hf. induction l as [|x l IH]; cbn; [by apply Reads_pure|]. apply Reads_bind; [done|by intros _]. Qed.
Lemma Reads_record rel : Reads (record_preimage core rel).
Proof. split; [apply Quiet_record|apply HostSame_capture]. Qed.
Lemma Reads_metadata_resolved rel : Reads (metadata_resolved core rel).
Proof. split; [apply Quiet_metadata_resolved|apply HostSame_metadata_resolved]. Qed.
Lemma Reads_metadata rel : Reads (metadata core rel).
Proof. apply Reads_bind; [apply Reads_metadata_resolved|intros; by apply Reads_pure]. Qed.
Lemma Reads_collect rel : Reads (collect_directory_items core rel).
Proof.
  apply Reads_bind; [by apply Reads_pure|]. intros _. apply Reads_bind; [apply Reads_metadata|]. intros n.
  destruct (negb (is_dir (i_kind n))); by apply Reads_pure.
Qed.
Lemma Reads_list_names rel : Reads (list_names core rel).
Proof. apply Reads_bind; [apply Reads_collect|intros; by apply Reads_pure]. Qed.
Lemma Reads_mapping fuel source destination : Reads (record_mapping_n core fuel source destination).
Proof.
  revert source destination. induction fuel as [|fuel IH]; intros source destination; cbn [record_mapping_n]; [by apply Reads_pure|].
  destruct (negb (oc_stage_writable core)); [by apply Reads_pure|]. destruct (_ || _); [by apply Reads_pure|].
  apply Reads_bind; [apply Reads_record|]. intros _. apply Reads_bind; [apply Reads_metadata|]. intros n.
  destruct (negb (is_dir (i_kind n))); [by apply Reads_pure|]. apply Reads_bind; [apply Reads_list_names|]. intros names.
  apply Reads_for. intros name. apply Reads_bind; [by apply Reads_pure|]. intros a. apply Reads_bind; [by apply Reads_pure|]. intros b. apply IH.
Qed.
Lemma Reads_logical source destination : Reads (record_logical_tree_mapping core source destination).
Proof. apply Reads_bind; [by apply Reads_pure|]. intros fuel. apply Reads_mapping. Qed.
Lemma Reads_tree_access old new : Reads (require_tree_access core old new).
Proof. by apply Reads_pure. Qed.
Lemma Reads_resolve rel : Reads (resolve core rel).
Proof. by apply Reads_pure. Qed.

(** ** Removing *)

Lemma forget_elem removed groups i paths p : (filter (fun '(_, paths) => paths <> []) (List.filter (fun p => negb (path_starts_with p removed)) <$> groups) : gmap nat (list Path)) !! i = Some paths ->
  p ∈ paths -> exists old, groups !! i = Some old /\ p ∈ old /\ path_starts_with p removed = false.
Proof.
  intros [Hi _]%map_lookup_filter_Some Hp. apply lookup_fmap_Some in Hi as (old & <- & Hold). exists old.
  apply list_elem_of_In, filter_In in Hp as [Hp Hb]. apply list_elem_of_In in Hp. apply negb_true_iff in Hb. done.
Qed.

(** Removing an object of the upper and forgetting the links below it. *)
Lemma remove_upper_spec rel directory w r w' : inv w -> rel <> [] -> is_Some (kind_at (w_host w) (Upper, rel)) ->
  (directory = false -> kind_at (w_host w) (Upper, rel) <> Some KDir) ->
  ((_ ← call (if (directory : bool) then fs_remove_dir_all (Upper, rel) else fs_remove_file (Upper, rel)); forget_copied_hard_links rel) : Op unit) w = (r, w') ->
  match r with
  | Ok _ => OnlyIn (under (Upper, rel)) w w' /\ kind_at (w_host w') (Upper, rel) = None
  | Err _ => quiet w w'
  end.
Proof.
  intros I Hne [k Hk] Hdir E. pose proof (hinv_wf _ _ (inv_host _ w I)) as W.
  apply bind_inv in E as [([] & w1 & E1 & E)|(e & E1 & ->)]; apply call_cases in E1 as [(e' & Hr & ->)|(h & Eh & ->)]; try discriminate Hr.
  2: by apply quiet_drop_fault.
  2: { assert (h = w_host w) as ->.
       { destruct directory; unfold fs_remove_dir_all, fs_remove_file, in_directory in Eh; rewrite reach_present in Eh by (done || by eexists);
           rewrite Hk in Eh; destruct k; by injection Eh. }
       apply quiet_set_host; [done|apply hquiet_refl, I]. }
  assert (hinv h /\ h_escaped h = h_escaped (w_host w) /\
    (forall l, node h l = if decide (under (Upper, rel) l) then None else node (w_host w) l) /\
    (forall i p, h_names h !! (Lower i, p) = h_names (w_host w) !! (Lower i, p))) as (I' & He & Hnode & Hnl).
  { destruct directory; unfold fs_remove_dir_all, fs_remove_file, in_directory in Eh; rewrite reach_present in Eh by (done || by eexists);
      rewrite Hk in Eh.
    - assert (h = set_names (without_tree (Upper, rel) (h_names (w_host w))) (w_host w)) as -> by (destruct k; by injection Eh).
      split_and!; [|done|apply node_without_tree|].
      + constructor; [by apply wf_without_tree| |].
        * assert (forall r0, kind_at (set_names (without_tree (Upper, rel) (h_names (w_host w))) (w_host w)) (r0, []) = kind_at (w_host w) (r0, [])) as Hr0.
          { intros r0. unfold kind_at. rewrite node_without_tree, decide_False; [done|].
            intros [_ [s Hs%strip_path_Some]]. cbn in Hs. by destruct rel. }
          destruct (hinv_rooted _ _ (inv_host _ w I)). constructor; [|intros i ?|intros ?]; rewrite Hr0; auto.
        * intros l1 l2 i [H1 _]%without_tree_Some [H2 _]%without_tree_Some. by apply (hinv_apart _ _ (inv_host _ w I) l1 l2 i).
      + intros i p. cbn. destruct (h_names (w_host w) !! (Lower i, p)) as [j|] eqn:Ej.
        * apply without_tree_Some. split; [done|]. by intros [? _].
        * destruct (without_tree _ _ !! _) eqn:Ew; [|done]. apply without_tree_Some in Ew as [? _]. congruence.
    - specialize (Hdir eq_refl). assert (h = set_names (delete (Upper, rel) (h_names (w_host w))) (w_host w)) as -> by (destruct k; [done|by injection Eh..]).
      assert (forall d, h_names (w_host w) !! (Upper, rel ++ [d]) = None) as Hch.
      { intros d. destruct (h_names (w_host w) !! (Upper, rel ++ [d])) eqn:Ed; [|done]. destruct Hdir.
        apply (wf_parents _ W Upper rel d). rewrite Ed. by eexists. }
      split_and!; [by apply hinv_delete; [apply I|..]|done| |intros i p; by apply delete_lower].
      intros l. rewrite node_delete. case_decide as Hl; [subst; by rewrite decide_True by apply under_refl|].
      case_decide as Hu; [|done]. apply under_spec in Hu as [s ->]. destruct s as [|d s]; [by rewrite app_nil_r in Hl|].
      apply kind_at_None. destruct (kind_at (w_host w) (Upper, rel ++ d :: s)) as [k'|] eqn:Ek'; [|done].
      pose proof (wf_prefix_dir _ Upper rel (d :: s) k' W ltac:(done) Ek'). done. }
  injection E as <- <-. split; [|unfold kind_at; cbn; by rewrite Hnode, decide_True by apply under_refl].
  assert (forall i p, node h (Lower i, p) = node (w_host w) (Lower i, p)) as Hln by (intros i p; rewrite Hnode, decide_False; [done|by intros [? _]]).
  constructor; cbn; [|done|by split|intros l' Hl'; unfold look; by rewrite Hnode, decide_False|done].
  constructor; [done|]. intros i paths p Hi Hp. cbn in Hi.
  apply forget_elem with (p := p) in Hi as (old & Hold & Hin & Hsw); [|done].
  destruct (inv_groups _ w I i old p Hold Hin) as (Ht & l & n & Hl & Hn & Hin2 & Hf & Hkp).
  assert (~ under (Upper, rel) (Upper, p)) as Hnu.
  { intros [s [= ->]]%under_spec. assert (path_starts_with (rel ++ s) rel = true); [|congruence]. apply path_starts_with_spec. eauto. }
  split; [done|]. destruct l as [[| j |] q]; try done. exists (Lower j, q), n. cbn. split_and!; [done|by rewrite Hnl| |done|].
  - assert (node h (Lower j, q) = Some n) as (i' & Hi' & Hn')%node_Some by (rewrite Hln; apply node_Some; eauto). rewrite Hnl in Hi'. congruence.
  - unfold kind_at. rewrite Hnode, decide_False by done. exact Hkp.
Qed.
End Create.
