(* ===== verification/OverlayRemove.v ===== *)
(** * Removing a name

    A removal hides the name, and what is below it, from then on, and changes
    nothing else; it succeeds for directories only when nothing shows in them.
    The second part shows that no whiteout is left beside an entry. *)
From stdpp Require Import base tactics list strings gmap pretty.
From Stdlib Require Import ZArith Lia Ascii.
From S2P Require Import Prelude RustStr FileAccess HostFs HostFsFacts Overlay OverlayView OverlayQuiet OverlayCopy OverlayCopyUp OverlayCreate.
Local Open Scope nat_scope.

Section Remove.
Context (core : OverlayCore) `{AccessOps, Digest256}.
Local Abbreviation count := (oc_lowers core).
Local Abbreviation hinv := (hinv core).
Local Abbreviation inv := (inv core).
Local Abbreviation quiet := (quiet core).
Local Abbreviation Only := (Only core).
Local Abbreviation OnlyIn := (OnlyIn core).
Local Abbreviation Outside := (Outside core).
Local Abbreviation Changed := (Changed core).


(** The whiteout of a path: its parents come first, then the marker. *)
Lemma create_whiteout_spec q c w r w' : inv w -> tidy (q ++ [c]) -> create_whiteout core (q ++ [c]) w = (r, w') ->
  exists w1, quiet w w1 /\ w_groups w1 = w_groups w /\ Only (whiteout_path q c) w1 w' /\ w_groups w' = w_groups w /\
    kind_at (w_host w1) (Upper, q ++ [c]) = kind_at (w_host w) (Upper, q ++ [c]) /\
    (r = Ok tt -> hidden (w_host w') q c = true).
Proof.
  intros I Ht E. pose proof (proj1 (proj1 (tidy_snoc _ _) Ht)) as Htq.
  apply bind_inv in E as [([] & w1 & E1 & E)|(e & E1 & ->)];
    destruct (ensure_upper_parents_quiet _ _ _ _ _ _ I Htq E1) as (Q1 & G1 & K1 & L1).
  2: { exists w'. split_and!; [done|done|by apply OnlyIn_refl, Q1|done| |done]. apply kind_of_look, L1. intros p Hp [= <-].
       apply prefix_length in Hp. rewrite length_app in Hp. cbn in Hp. lia. }
  specialize (K1 eq_refl). rewrite last_snoc in E. apply bind_inv in E as [(name & w2 & [= <- <-] & E)|(e & [=] & _)]. rewrite parent_of_snoc in E.
  destruct (create_marker_only core q (WHITEOUT_PREFIX +:+ c) w1 r w' (qt_inv _ _ _ Q1) (whiteout_is_marker c) K1 E) as (O2 & G2 & K2).
  exists w1. split_and!; [done|done|done|congruence| |].
  - apply kind_of_look, L1. intros p Hp [= <-]. apply prefix_length in Hp. rewrite length_app in Hp. cbn in Hp. lia.
  - intros ->. unfold hidden, whiteout_path. rewrite (bool_decide_eq_true_2 (is_Some _)) by done. rewrite bool_decide_eq_true_2; [done|].
    rewrite (whiteout_dir core q c w1 w'); done.
Qed.

Lemma plain_not_whiteout q c p : tidy p -> (Upper, p) <> whiteout_path q c.
Proof. unfold whiteout_path. intros Hp [= ->]. apply tidy_snoc in Hp as [_ Hp]. by rewrite whiteout_is_marker in Hp. Qed.

(** The checks of [remove], and the object it found. *)
Definition remove_checks (rel : Path) (directory : bool) : Op ResolvedMetadata :=
  _ ← lift (require_visible core rel);
  _ ← if_then directory (require_tree_access core rel rel);
  found ← resolve core rel;
  m ← lift (ok_or found ENOENT);
  _ ← (if directory then
         if negb (is_dir (i_kind (rm_node m))) then raise ENOTDIR
         else names ← list_names core rel; if bool_decide (names = []) then mret tt else raise ENOTEMPTY
       else if is_dir (i_kind (rm_node m)) then raise EISDIR else mret tt);
  _ ← record_logical_tree_mapping core rel rel;
  mret m.
Lemma bind_assoc {A B C} (m : Op A) (f : A -> Op B) (g : B -> Op C) w : ((m ≫= f) ≫= g) w = (m ≫= fun a => f a ≫= g) w.
Proof. unfold mbind, op_bind. by destruct (m w) as [[a|e] w1]. Qed.
Lemma bind_ext {A B} (m : Op A) (f g : A -> Op B) w : (forall a w, f a w = g a w) -> (m ≫= f) w = (m ≫= g) w.
Proof. intros Hfg. unfold mbind, op_bind. destruct (m w) as [[a|e] w1]; [apply Hfg|done]. Qed.

Lemma remove_split rel directory w : remove core rel directory w =
  (m ← remove_checks rel directory;
   _ ← (if rm_is_upper m then
          _ ← call (if directory then fs_remove_dir_all (rm_path m) else fs_remove_file (rm_path m));
          forget_copied_hard_links (rm_path m).2
        else mret tt);
   shadows ← asking (fun h => exists_in_lower core h rel);
   if_then shadows (create_whiteout core rel)) w.
Proof.
  unfold remove, remove_checks. rewrite !bind_assoc. apply bind_ext. intros [] w1. rewrite !bind_assoc. apply bind_ext. intros [] w2.
  rewrite !bind_assoc. apply bind_ext. intros found w3. rewrite !bind_assoc. apply bind_ext. intros m w4.
  rewrite !bind_assoc. apply bind_ext. intros u w5. rewrite !bind_assoc. apply bind_ext. intros u' w6. done.
Qed.

Lemma remove_checks_reads rel directory : Reads core (remove_checks rel directory).
Proof.
  apply Reads_bind; [by apply Reads_pure|]. intros _. apply Reads_bind; [apply Reads_if_then, Reads_tree_access|]. intros _.
  apply Reads_bind; [apply Reads_resolve|]. intros found. apply Reads_bind; [by apply Reads_pure|]. intros m.
  apply Reads_bind; [|intros _; apply Reads_bind; [apply Reads_logical|intros _; by apply Reads_pure]].
  destruct directory.
  - destruct (negb (is_dir (i_kind (rm_node m)))); [by apply Reads_pure|]. apply Reads_bind; [apply Reads_list_names|].
    intros names. case_bool_decide; by apply Reads_pure.
  - destruct (is_dir (i_kind (rm_node m))); by apply Reads_pure.
Qed.
Lemma remove_checks_Ok rel directory w m w' : inv w -> remove_checks rel directory w = (Ok m, w') ->
  require_visible core rel = Ok tt /\ located core (w_host w) rel (rm_path m) /\ resolved_at (w_host w) (rm_path m) m /\
  is_dir (i_kind (rm_node m)) = directory.
Proof.
  intros I E. apply bind_inv in E as [([] & w1 & [= Hvis <-] & E)|(e & _ & [=])].
  apply bind_inv in E as [([] & w2 & E2 & E)|(e & E2 & [=])].
  destruct (Reads_if_then core directory _ (Reads_tree_access core rel rel)) as [HQ HH].
  pose proof (HQ _ _ _ I E2) as Q2. destruct (HH _ _ _ E2) as [H2 _].
  apply bind_inv in E as [(found & w3 & E3 & E)|(e & E3 & [=])].
  apply bind_inv in E as [(m' & w4 & [= E4 <-] & E)|(e & _ & [=])].
  destruct found as [m0|]; [|done]. cbn in E4. injection E4 as ->.
  destruct (resolve_Some _ _ _ _ _ (qt_inv _ _ _ Q2) E3) as (-> & _ & Hl & Hm). rewrite H2 in Hl, Hm.
  apply bind_inv in E as [([] & w5 & E5 & E)|(e & E5 & [=])].
  apply bind_inv in E as [([] & w6 & E6 & [= <- <-])|(e & E6 & [=])]. split_and!; [done..|].
  destruct directory; [|by destruct (is_dir (i_kind (rm_node m')))].
  by destruct (is_dir (i_kind (rm_node m'))).
Qed.

(** Removing what was found: nothing to do when it is in a lower. *)
Lemma remove_object_spec rel directory m w r w' : rel <> [] -> inv w -> located core (w_host w) rel (rm_path m) ->
  resolved_at (w_host w) (rm_path m) m -> is_dir (i_kind (rm_node m)) = directory ->
  (if rm_is_upper m then
     (_ ← call (if directory then fs_remove_dir_all (rm_path m) else fs_remove_file (rm_path m)); forget_copied_hard_links (rm_path m).2)
   else mret tt) w = (r, w') ->
  match r with Ok _ => OnlyIn (under (Upper, rel)) w w' /\ kind_at (w_host w') (Upper, rel) = None | Err _ => quiet w w' end.
Proof.
  intros Hne I Hl Hm Hdir E. unfold rm_is_upper in E. case_bool_decide as Hup.
  - assert (rm_path m = (Upper, rel)) as Hpath.
    { destruct Hl as [[-> ->]|(q' & c' & Hq & _ & Hl)]; [done|]. apply entry_loc_Some in Hl as (_ & El & _). destruct (rm_path m) as [r0 p0]; cbn in Hup, El. by rewrite Hup, El, <- Hq. }
    rewrite Hpath in E. cbn [snd] in E.
    assert (kind_at (w_host w) (Upper, rel) = Some (i_kind (rm_node m))) as Hk by (unfold kind_at; rewrite <- Hpath; by rewrite (proj2 (proj2 Hm))).
    apply (remove_upper_spec core rel directory w r w' I Hne); [by rewrite Hk; eexists| |done].
    intros ->. rewrite Hk. intros [= Ek]. by rewrite Ek in Hdir.
  - injection E as <- <-. split; [by apply OnlyIn_refl|]. by destruct (located_lower core _ _ _ (inv_host _ w I) Hl Hup) as (_ & _ & _ & _ & _ & Hn).
Qed.

Lemma remove_changes q c directory w r w' : inv w -> plain (q ++ [c]) -> remove core (q ++ [c]) directory w = (r, w') ->
  match r with
  | Ok _ => (exists k, view count (w_host w) (q ++ [c]) = Some k /\ is_dir k = directory) /\ Changed (q ++ [c]) None w w'
  | Err _ => Outside [q ++ [c]] w w'
  end.
Proof.
  intros I Hp E. set (rel := q ++ [c]) in *. assert (rel <> []) as Hne by (by destruct q). pose proof (plain_tidy _ Hp) as Ht.
  rewrite remove_split in E. destruct (remove_checks_reads rel directory) as [HQ HH].
  apply bind_inv in E as [(m & w1 & E1 & E)|(e & E1 & ->)]; pose proof (HQ _ _ _ I E1) as Q1; [|by apply Outside_quiet].
  destruct (HH _ _ _ E1) as [H1 _]. destruct (remove_checks_Ok _ _ _ _ _ I E1) as (Hvis & Hl & Hm & Hdir).
  assert (Forall (fun rel => plain rel /\ rel <> []) [rel]) as Hrels by (by constructor).
  pose proof (qt_inv _ _ _ Q1) as I1.
  apply bind_inv in E as [([] & w2 & E2 & E)|(e & E2 & ->)]; pose proof (remove_object_spec rel directory m w1 _ _ Hne I1 ltac:(by rewrite H1) ltac:(by rewrite H1) Hdir E2) as Hrm;
    [|apply Outside_quiet; by eapply quiet_trans]. destruct Hrm as [O2 Hn2].
  assert (Outside [rel] w w2) as OS2.
  { eapply Outside_trans; [apply Outside_quiet, Q1|]. apply (Outside_only core _ _ _ _ O2); [|done]. intros l Hu. exists rel. split; [left|by left]. }
  apply bind_inv in E as [(shadows & w3 & [= <- <-] & E)|(e & [=] & _)]. pose proof (on_inv _ _ _ _ O2) as I2.
  assert (view count (w_host w) rel = Some (i_kind (rm_node m))) as Hvk.
  { rewrite (proj1 (located_view core _ (hinv_rooted _ _ (inv_host _ w I)) _ _ Hl)). unfold kind_at. by rewrite (proj2 (proj2 Hm)). }
  assert (forall w4, Outside [rel] w w4 -> entry count (w_host w4) q c = None -> (exists k, view count (w_host w) rel = Some k /\ is_dir k = directory) /\ Changed rel None w w4) as Hdone.
  { intros w4 OS Hnone. split; [eauto|]. assert (view count (w_host w4) rel = None) as Hv4.
    { unfold rel. rewrite view_snoc. by case_decide. }
    constructor; [done..|]. intros s _ Hs. apply view_below; [by rewrite Hv4|done]. }
  destruct (exists_in_lower core (w_host w2) rel) eqn:Ex; cbn [if_then] in E.
  - destruct (create_whiteout_spec q c w2 r w' I2 Ht E) as (w3 & Q3 & _ & O3 & _ & Hk3 & Hhid).
    assert (Outside [rel] w w') as OS.
    { eapply Outside_trans; [exact OS2|]. eapply Outside_trans; [by apply Outside_quiet|].
      apply (Outside_only core _ _ _ _ O3); [|done]. intros l ->. apply touched_whiteout. }
    destruct r as [[]|e]; [|done]. apply Hdone; [done|]. rewrite (entry_unfold core).
    rewrite (kind_of_look (w_host w3)); [|apply (on_look _ _ _ _ O3); by apply plain_not_whiteout].
    unfold rel in Hn2. rewrite Hk3, Hn2. by rewrite Hhid.
  - injection E as <- <-. apply Hdone; [done|]. rewrite (entry_unfold core). fold rel. rewrite Hn2.
    pose proof (not_in_lower core _ _ (inv_host _ _ I2) Hne Hvis Ex []) as Hll. rewrite app_nil_r in Hll. rewrite Hll. by destruct (hidden _ _ _).
Qed.
End Remove.

(** * Whiteouts beside entries

    Creating and removing leave no whiteout beside an entry of the upper, whatever
    their outcome. *)

Section Single.
Context (core : OverlayCore) `{AccessOps, Digest256}.
Local Abbreviation count := (oc_lowers core).
Local Abbreviation inv := (inv core).
Local Abbreviation quiet := (quiet core).
Local Abbreviation Only := (Only core).
Local Abbreviation OnlyIn := (OnlyIn core).

(** ** Whiteouts beside entries *)

Lemma single_clear q c w w' : Only (whiteout_path q c) w w' -> kind_at (w_host w') (whiteout_path q c) = None -> single (w_host w) -> single (w_host w').
Proof.
  intros O Hnone S a b Hp Hs. destruct (decide (whiteout_path a b = whiteout_path q c)) as [->|Hne]; [done|].
  rewrite (kind_of_look (w_host w)) by (by apply (on_look _ _ _ _ O)). apply S; [done|].
  rewrite (kind_of_look (w_host w)) in Hs; [done|]. apply (on_look _ _ _ _ O). by apply plain_not_whiteout, plain_tidy.
Qed.
Lemma single_new q c w w' : Only (Upper, q ++ [c]) w w' -> tidy (q ++ [c]) -> kind_at (w_host w) (whiteout_path q c) = None -> single (w_host w) -> single (w_host w').
Proof.
  intros O Ht Hnone S a b Hp Hs. assert (look (w_host w') (whiteout_path a b) = look (w_host w) (whiteout_path a b)) as L.
  { apply (on_look _ _ _ _ O). intros E. symmetry in E. by apply plain_not_whiteout in E. }
  rewrite (kind_of_look _ _ _ L). destruct (decide (a ++ [b] = q ++ [c])) as [E|Hne].
  { apply app_inj_tail in E as [-> ->]. done. }
  apply S; [done|]. rewrite (kind_of_look (w_host w)) in Hs; [done|]. apply (on_look _ _ _ _ O). congruence.
Qed.
(** Changes away from whiteouts and new entries. *)
Lemma single_keep (P : Loc -> Prop) h h' : (forall l, ~ P l -> look h' l = look h l) ->
  (forall a b, plain (a ++ [b]) -> is_Some (kind_at h' (Upper, a ++ [b])) -> ~ P (whiteout_path a b) /\ is_Some (kind_at h (Upper, a ++ [b]))) ->
  single h -> single h'.
Proof.
  intros Hl HP S a b Hp Hs. destruct (HP a b Hp Hs) as [Hn Hs']. rewrite (kind_of_look h) by (by apply Hl). by apply S.
Qed.
Lemma single_hide q c w w' : Only (whiteout_path q c) w w' -> kind_at (w_host w) (Upper, q ++ [c]) = None -> single (w_host w) -> single (w_host w').
Proof.
  intros O Hnone S. apply (single_keep (fun l => l = whiteout_path q c) (w_host w)); [apply O| |done]. intros a b Hp Hs.
  rewrite (kind_of_look (w_host w)) in Hs by (apply (on_look _ _ _ _ O); by apply plain_not_whiteout, plain_tidy).
  split; [|done]. unfold whiteout_path. intros [= E]. apply app_inj_tail in E as [-> ->%whiteout_inj]. rewrite Hnone in Hs. by destruct Hs.
Qed.
Lemma single_quiet w w' : quiet w w' -> single (w_host w) -> single (w_host w').
Proof. intros Q. apply (hq_single _ _ _ (qt_host _ _ _ Q)). Qed.

Lemma create_single q c k perm w r w' : inv w -> plain (q ++ [c]) ->
  ((_ ← prepare_new core (q ++ [c]); call (fs_create (Upper, q ++ [c]) k perm)) : Op unit) w = (r, w') -> single (w_host w) -> single (w_host w').
Proof.
  intros I Hp E S. apply bind_inv in E as [([] & w2 & E2 & E)|(e & E2 & ->)]; pose proof (prepare_new_spec core _ _ _ _ _ I Hp E2) as Hs;
    [|by apply (single_quiet w)]. destruct Hs as (_ & Hd & w1 & Q1 & O1 & Hwh).
  assert (single (w_host w2)) as S2 by (eapply single_clear; [exact O1|done|by apply (single_quiet w)]).
  destruct (create_only core _ _ _ _ _ _ _ (on_inv _ _ _ _ O1) Hd E) as (O2 & _ & Hr). destruct r; [|by rewrite Hr].
  eapply single_new; [exact O2|by apply plain_tidy|done..].
Qed.
Lemma create_dir_single q c mode w r w' : inv w -> plain (q ++ [c]) -> create_dir core (q ++ [c]) mode w = (r, w') -> single (w_host w) -> single (w_host w').
Proof.
  intros I Hp E S. set (rel := q ++ [c]) in *. assert (rel <> []) as Hne by (by destruct q). pose proof (plain_tidy _ Hp) as Ht.
  apply bind_inv in E as [(shadows & w2 & E2 & E)|(e & E2 & ->)]; pose proof (prepare_dir_spec core _ _ _ _ _ I Hp E2) as Hs;
    [|by apply (single_quiet w)]. destruct Hs as (_ & Hd & _ & w1 & Q1 & O1 & Hwh).
  assert (single (w_host w2)) as S2 by (eapply single_clear; [exact O1|done|by apply (single_quiet w)]).
  apply bind_inv in E as [([] & w3 & E3 & E)|(e & E3 & ->)];
    destruct (create_only core _ _ _ _ _ _ _ (on_inv _ _ _ _ O1) Hd E3) as (O3 & _ & Hr3); [|by rewrite Hr3].
  destruct Hr3 as [_ Hn3]. assert (single (w_host w3)) as S3 by (eapply single_new; [exact O3|done..]).
  assert (kind_at (w_host w3) (Upper, rel) = Some KDir) as Hd3 by (unfold kind_at, rel; by rewrite Hn3).
  assert (forall wa wb, OnlyIn (opaque_places rel) wa wb -> kind_at (w_host wa) (Upper, rel) = Some KDir -> single (w_host wa) -> single (w_host wb)) as Hkeep.
  { intros wa wb O Hda. apply (single_keep (opaque_places rel) (w_host wa)); [apply O|]. intros a b Hpab Hs. split.
    - intros [[= E']|[= E']].
      + rewrite <- E' in Ht. apply tidy_snoc in Ht as [_ Ht]. by rewrite whiteout_is_marker in Ht.
      + apply app_inj_tail in E' as [_ E']. apply plain_snoc in Hpab as [_ Hb]. assert (b = ".wh..opq"%string) as -> by (apply whiteout_inj; by rewrite E'). by destruct Hb.
    - destruct (decide (a ++ [b] = rel)) as [->|Hab]; [by rewrite Hda; eexists|]. rewrite (kind_of_look (w_host wa)) in Hs; [done|].
      apply (on_look _ _ _ _ O). intros [[= E']|[= E']]; [done|]. rewrite E' in Hpab. by apply plain_tidy, tidy_snoc in Hpab as [_ ?]. }
  assert (forall wa wb, Only (Upper, rel) wa wb -> OnlyIn (opaque_places rel) wa wb) as Hweak by (intros wa wb O; eapply OnlyIn_weaken; [exact O|]; by left).
  apply bind_inv in E as [([] & w4 & E4 & E)|(e & E4 & ->)];
    destruct (update_dir_only core rel (with_perm (Z.land mode 4095)) w3 _ _ (on_inv _ _ _ _ O3) Hne Hd3 ltac:(done) ltac:(done) E4) as (O4 & _ & Hd4 & _);
    pose proof (Hkeep _ _ (Hweak _ _ O4) Hd3 S3) as S4; [|done].
  destruct shadows; cbn [if_then] in E; [|by injection E as <- <-].
  destruct (mark_opaque_only core rel w4 r w' (on_inv _ _ _ _ O4) Hne Ht Hd4 E) as (O5 & _). by eapply Hkeep.
Qed.
Lemma remove_single q c directory w r w' : inv w -> plain (q ++ [c]) -> remove core (q ++ [c]) directory w = (r, w') -> single (w_host w) -> single (w_host w').
Proof.
  intros I Hp E S. set (rel := q ++ [c]) in *. assert (rel <> []) as Hne by (by destruct q). pose proof (plain_tidy _ Hp) as Ht.
  rewrite remove_split in E. destruct (remove_checks_reads core rel directory) as [HQ HH].
  apply bind_inv in E as [(m & w1 & E1 & E)|(e & E1 & ->)]; pose proof (HQ _ _ _ I E1) as Q1; [|by apply (single_quiet w)].
  destruct (HH _ _ _ E1) as [H1 _]. destruct (remove_checks_Ok core _ _ _ _ _ I E1) as (_ & Hl & Hm & Hdir). pose proof (qt_inv _ _ _ Q1) as I1.
  pose proof (single_quiet _ _ Q1 S) as S1.
  apply bind_inv in E as [([] & w2 & E2 & E)|(e & E2 & ->)];
    pose proof (remove_object_spec core rel directory m w1 _ _ Hne I1 ltac:(by rewrite H1) ltac:(by rewrite H1) Hdir E2) as Hrm; [|by apply (single_quiet w1)].
  destruct Hrm as [O2 Hn2]. assert (single (w_host w2)) as S2.
  { apply (single_keep (under (Upper, rel)) (w_host w1)); [apply O2| |done]. intros a b Hpab Hs.
    assert (~ under (Upper, rel) (Upper, a ++ [b])) as Hnu.
    { intros [s [= E']]%under_spec. rewrite E' in Hs. destruct Hs as [k Hk]. destruct s as [|x s]; [rewrite app_nil_r in Hk; congruence|].
      apply (wf_prefix_dir _ Upper rel (x :: s)) in Hk; [congruence|apply O2|done]. }
    split; [|by rewrite (kind_of_look (w_host w1)) in Hs by (by apply (on_look _ _ _ _ O2))].
    intros [s [= E']]%under_spec. destruct s as [|x s _] using rev_ind.
    - rewrite app_nil_r in E'. rewrite <- E' in Ht. apply tidy_snoc in Ht as [_ Ht]. by rewrite whiteout_is_marker in Ht.
    - rewrite app_assoc in E'. apply app_inj_tail in E' as [-> _]. apply Hnu, under_spec. exists (s ++ [b]). by rewrite <- app_assoc. }
  apply bind_inv in E as [(shadows & w3 & [= <- <-] & E)|(e & [=] & _)]. destruct (exists_in_lower core (w_host w2) rel); cbn [if_then] in E; [|by injection E as <- <-].
  destruct (create_whiteout_spec core q c w2 r w' (on_inv _ _ _ _ O2) Ht E) as (w3 & Q3 & _ & O3 & _ & Hk3 & _).
  eapply single_hide; [exact O3|by rewrite Hk3|by apply (single_quiet w2)].
Qed.
End Single.
