(* ===== verification/OverlayList.v ===== *)
(** * Listing a directory

    [list_names] lists exactly the names that show: those that resolve, that no
    rule excludes and that are no links refused by the rules. The second part of
    the file is about materialising a tree. *)
From stdpp Require Import base tactics list strings gmap pretty.
From Stdlib Require Import ZArith Lia Ascii.
From S2P Require Import Prelude RustStr FileAccess HostFs HostFsFacts Overlay OverlayView OverlayQuiet OverlayCopy OverlayCopyUp OverlayCreate.
Local Open Scope nat_scope.

Section Listing.
Context (core : OverlayCore) `{AccessOps, Digest256}.
Local Abbreviation count := (oc_lowers core).
Local Abbreviation hinv := (hinv core).
Local Abbreviation inv := (inv core).

Lemma layer_metadata_node h r rel : hinv h -> kind_at h (r, []) = Some KDir -> normal rel ->
  layer_metadata h r rel = Ok (i ← h_names h !! (r, rel); n ← h_inodes h !! i; Some (i, n)).
Proof.
  intros I Hroot Hn. pose proof (hinv_wf _ _ I) as W. destruct (path_snoc_cases rel) as [->|(q & c & ->)].
  - unfold layer_metadata, layer_metadata_with_parents. cbn -[lstat]. pose proof Hroot as (n & Hnode & _)%kind_at_Some.
    destruct (lstat_present h _ n W Hnode) as (i & Hi & Hin & ->). cbn. rewrite Hi. cbn. by rewrite Hin.
  - unfold layer_metadata. destruct (layer_metadata_spec h W r q c None Hroot Hn) as (m & ps & ch & -> & _ & Hm); [done|].
    cbn [mbind result_bind]. destruct m as [i n| |]; destruct Hm as [H1 H2]; cbn [into_entry].
    + rewrite H1. cbn. apply node_Some in H2 as (j & Hj & Hjn). assert (j = i) as -> by congruence. by rewrite Hjn.
    + apply node_names in H1; [|done]. by rewrite H1.
    + apply node_names in H1; [|done]. by rewrite H1.
Qed.
Lemma layer_metadata_dir h r rel : hinv h -> kind_at h (r, []) = Some KDir -> normal rel ->
  exists m, layer_metadata h r rel = Ok m /\ (m = None <-> kind_at h (r, rel) = None) /\
    (forall i n, m = Some (i, n) -> kind_at h (r, rel) = Some (i_kind n)).
Proof.
  intros I Hroot Hn. rewrite layer_metadata_node by done. eexists. split; [done|]. unfold kind_at, node.
  destruct (h_names h !! (r, rel)) as [i|]; cbn; [|done]. destruct (h_inodes h !! i) as [n|]; cbn; [|done]. split; [done|].
  by intros ? ? [= <- <-].
Qed.

Lemma entries_of_spec h l c : wf h -> is_Some (entries_of h l !! c) <-> is_whiteout_name c = false /\ is_Some (kind_at h (l.1, l.2 ++ [c])).
Proof.
  intros W. unfold entries_of. rewrite <- not_eq_None_Some, <- not_elem_of_list_to_map. split.
  - intros Hin. apply dec_stable in Hin. apply list_elem_of_fmap in Hin as ([c' k] & -> & Hin).
    apply list_elem_of_omap in Hin as (name & _ & Hn). destruct (is_whiteout_name name) eqn:Ew; [done|].
    apply fmap_Some in Hn as (k' & Hk & [= -> ->]). cbn. rewrite Hk. split; [done|by eexists].
  - intros [Hw [k Hk]] Hni. apply Hni. apply list_elem_of_fmap. exists (c, k). split; [done|]. apply list_elem_of_omap. exists c.
    rewrite Hw, Hk. split; [|done]. destruct l as [r p]. apply read_dir_spec, (kind_names h _ W). by exists k.
Qed.
Lemma lower_entries_spec h rel c n index : hinv h -> normal rel -> index + n = count ->
  exists m, lower_entries h rel n index = Ok m /\
    (is_Some (m !! c) <-> is_whiteout_name c = false /\ exists i, index <= i < index + n /\ is_Some (kind_at h (Lower i, rel ++ [c]))).
Proof.
  intros I Hn. pose proof (hinv_wf _ _ I) as W. revert index. induction n as [|n IH]; intros index Hi; cbn [lower_entries].
  - exists ∅. split; [done|]. rewrite lookup_empty. split; [by intros []|]. intros (_ & i & ? & _). lia.
  - destruct (layer_metadata_dir h (Lower index) rel  I) as (m & -> & Hnone & Hsome);
      [apply (rooted_lower core _ (hinv_rooted _ _ I)); lia|done|]. cbn [mbind result_bind].
    destruct (IH (S index) ltac:(lia)) as (rest & -> & Hrest). cbn [mbind result_bind]. eexists. split; [done|].
    assert (is_Some (kind_at h (Lower index, rel ++ [c])) -> kind_at h (Lower index, rel) = Some KDir) as Hpar
      by (intros [k Hk]; by eapply wf_parent_dir).
    assert ((exists i, index <= i < index + S n /\ is_Some (kind_at h (Lower i, rel ++ [c]))) <->
      is_Some (kind_at h (Lower index, rel ++ [c])) \/ exists i, S index <= i < S index + n /\ is_Some (kind_at h (Lower i, rel ++ [c]))) as Hsplit.
    { split.
      - intros (i & Hr & Hs). destruct (decide (i = index)) as [->|]; [by left|right]. exists i. split; [lia|done].
      - intros [Hs|(i & Hr & Hs)]; [exists index|exists i]; (split; [lia|done]). }
    rewrite Hsplit. clear Hsplit. destruct m as [[i x]|].
    + specialize (Hsome i x eq_refl). destruct (is_dir (i_kind x)) eqn:Ed.
      * rewrite lookup_union_is_Some, Hrest, (entries_of_spec h _ c W). cbn [fst snd]. tauto.
      * rewrite Hrest. split; [tauto|]. intros [Hw [Hs|?]]; [|tauto]. apply Hpar in Hs. rewrite Hs in Hsome. injection Hsome as Ek. by rewrite <- Ek in Ed.
    + rewrite Hrest. split; [tauto|]. intros [Hw [Hs|?]]; [|tauto]. apply Hpar in Hs. rewrite (proj1 Hnone eq_refl) in Hs. done.
Qed.
Lemma whiteouts_of_spec h rel c : wf h -> c ∈ whiteouts_of h rel <-> is_Some (kind_at h (whiteout_path rel c)).
Proof.
  intros W. unfold whiteouts_of, whiteout_path. rewrite list_elem_of_omap, (kind_names h _ W), <- read_dir_spec.
  assert (forall name, strip_prefix name WHITEOUT_PREFIX = Some c <-> name = WHITEOUT_PREFIX +:+ c) as Hsp.
  { intros name. unfold strip_prefix. rewrite fmap_Some. setoid_rewrite strip_prefix_bytes_Some. split.
    - intros (s & Hs & ->). apply to_bytes_inj. rewrite Hs. change (to_bytes (WHITEOUT_PREFIX +:+ of_bytes s)) with (to_bytes WHITEOUT_PREFIX ++ to_bytes (of_bytes s))%list.
      by rewrite to_of_bytes.
    - intros ->. exists (to_bytes c). by rewrite of_to_bytes. }
  setoid_rewrite Hsp. naive_solver.
Qed.

(** Candidates are the names of the layers that contribute, less the whiteouts. *)
Lemma collect_spec w rel items w' c : inv w -> collect_directory_items core rel w = (Ok items, w') ->
  w' = w /\ view count (w_host w) rel = Some KDir /\
  (c ∈ items.*1 <-> is_whiteout_name c = false /\ kind_at (w_host w) (whiteout_path rel c) = None /\
     (is_Some (kind_at (w_host w) (Upper, rel ++ [c])) \/ (is_opaque (w_host w) rel = false /\ exists i, i < count /\ is_Some (kind_at (w_host w) (Lower i, rel ++ [c]))))).
Proof.
  intros I E. apply bind_inv in E as [([] & w1 & [= Hvis <-] & E)|(e & _ & [=])].
  apply bind_inv in E as [(n & w1 & E1 & E)|(e & _ & [=])].
  destruct (metadata_Ok _ _ _ _ _ I E1) as (-> & _ & _). pose proof (metadata_view _ _ _ _ _ I E1) as Hv.
  destruct (is_dir (i_kind n)) eqn:Edir; [|done]. cbn [negb] in E.
  assert (view count (w_host w) rel = Some KDir) as Hvd by (rewrite Hv; by destruct (i_kind n)). clear Hv.
  unfold reading in E. injection E as E <-. split_and!; [done..|].
  pose proof (inv_host _ w I) as HI. pose proof (hinv_wf _ _ HI) as W.
  assert (normal rel) as Hn by (unfold require_visible, validate_rel in Hvis; by destruct (forallb normal_component rel) eqn:?).
  assert (exists lows, (if is_opaque (w_host w) rel then Ok ∅ else lower_entries (w_host w) rel count 0) = Ok lows /\
    (is_Some (lows !! c) <-> is_whiteout_name c = false /\ is_opaque (w_host w) rel = false /\ exists i, i < count /\ is_Some (kind_at (w_host w) (Lower i, rel ++ [c])))) as (lows & Elow & Hlow).
  { destruct (is_opaque (w_host w) rel).
    - exists ∅. split; [done|]. rewrite lookup_empty. split; [by intros []|by intros (_ & ? & _)].
    - destruct (lower_entries_spec (w_host w) rel c count 0 HI Hn eq_refl) as (m & -> & Hm). exists m. split; [done|]. rewrite Hm.
      split; [intros (? & i & ? & ?); split_and!; [done..|]; exists i; split; [lia|done]|intros (? & _ & i & ? & ?); split; [done|]; exists i; split; [lia|done]]. }
  rewrite Elow in E. cbn [mbind result_bind] in E.
  destruct (layer_metadata_dir (w_host w) Upper rel  HI) as (m & Em & Hnone & Hsome);
    [apply (rooted_upper core _ (hinv_rooted _ _ HI))|done|]. rewrite Em in E. cbn [mbind result_bind] in E.
  assert (exists own hid, (match m with Some (_, n0) => if is_dir (i_kind n0) then Ok (entries_of (w_host w) (Upper, rel), whiteouts_of (w_host w) rel) else Err ENOTDIR | None => Ok (∅, []) end) = Ok (own, hid) /\
    (is_Some (own !! c) <-> is_whiteout_name c = false /\ is_Some (kind_at (w_host w) (Upper, rel ++ [c]))) /\
    (c ∈ hid <-> is_Some (kind_at (w_host w) (whiteout_path rel c)))) as (own & hid & Eown & Hown & Hhid).
  { destruct m as [[i x]|].
    - specialize (Hsome i x eq_refl). rewrite (view_upper core _ _ _ _ HI Hvd Hsome). cbn [is_dir].
      exists (entries_of (w_host w) (Upper, rel)), (whiteouts_of (w_host w) rel). split_and!; [done|apply (entries_of_spec _ (Upper, rel) c W)|by apply whiteouts_of_spec].
    - exists ∅, []. pose proof (proj1 Hnone eq_refl) as Hno.
      assert (forall x, kind_at (w_host w) (Upper, rel ++ [x]) = None) as Hch.
      { intros x. destruct (kind_at (w_host w) (Upper, rel ++ [x])) eqn:Ex; [|done]. apply (wf_parent_dir _ _ _ _ _ W) in Ex. congruence. }
      split_and!; [done|rewrite lookup_empty, Hch; split; [by intros []|by intros [_ []]]|].
      unfold whiteout_path. rewrite Hch. split; [by intros ?%elem_of_nil|by intros []]. }
  rewrite Eown in E. cbn [mbind result_bind] in E. injection E as <-.
  rewrite (sort_by_perm (fun a b : string * Kind => string_leb a.1 b.1)).
  assert (c ∈ (map_to_list (filter (fun '(name, _) => name ∉ hid) (own ∪ lows))).*1 <-> c ∉ hid /\ is_Some ((own ∪ lows) !! c)) as ->.
  { rewrite list_elem_of_fmap. split.
    - intros ([c' k] & -> & Hin). apply elem_of_map_to_list, map_lookup_filter_Some in Hin as [Hk Hh]. split; [done|by eexists].
    - intros [Hh [k Hk]]. exists (c, k). split; [done|]. apply elem_of_map_to_list, map_lookup_filter_Some. done. }
  rewrite lookup_union_is_Some, Hown, Hlow, Hhid. rewrite <- eq_None_not_Some. tauto.
Qed.

Lemma visible_names_spec h rel items names c : visible_names core h rel items = Ok names ->
  (c ∈ names <-> c ∈ items.*1 /\ is_excluded core (rel ++ [c]) = false /\ listed_child core h (rel ++ [c]) = true) /\
  (c ∈ items.*1 -> child rel c = Ok (rel ++ [c])).
Proof.
  revert names. induction items as [|[name k] items IH]; intros names; cbn [visible_names].
  - intros [= <-]. cbn. split; [|by intros ?%elem_of_nil]. split; [by intros ?%elem_of_nil|by intros [?%elem_of_nil _]].
  - intros (p & Hp & (rest & Hrest & [= <-])%bind_Ok)%bind_Ok. destruct (IH rest Hrest) as [Hmem Hchild].
    assert (p = rel ++ [name]) as ->.
    { unfold child in Hp. destruct (validate_rel rel); [|done]. destruct (validate_name name); [|done]. by injection Hp. }
    rewrite fmap_cons, elem_of_cons. cbn [fst]. split.
    + destruct (is_excluded core (rel ++ [name])) eqn:Ex.
      * rewrite Hmem. split; [tauto|]. intros ([->|?] & ? & ?); [congruence|tauto].
      * destruct (listed_child core h (rel ++ [name])) eqn:El.
        -- rewrite elem_of_cons, Hmem. split; [intros [->|?]; tauto|]. intros ([->|?] & ? & ?); tauto.
        -- rewrite Hmem. split; [tauto|]. intros ([->|?] & ? & ?); [congruence|tauto].
    + intros [->|?]; auto.
Qed.

Lemma child_Ok rel c : child rel c = Ok (rel ++ [c]) -> normal (rel ++ [c]) /\ is_whiteout_name c = false.
Proof.
  unfold child, validate_rel, validate_name. intros E. apply ensure_bind_Ok in E as [Hr E]. apply ensure_bind_Ok in E as [Hc _].
  apply negb_true_iff in Hc. rewrite !orb_false_iff in Hc. destruct Hc as (((((H1 & H2) & H3) & H4) & _) & H6).
  split; [|done]. unfold normal. rewrite forallb_app, Hr. cbn [forallb andb]. unfold normal_component. by rewrite H1, H2, H3, H4.
Qed.

(** A listed child is one that shows. *)
Lemma listed_child_entry h rel c : hinv h -> normal (rel ++ [c]) -> listed_child core h (rel ++ [c]) = true -> is_Some (entry count h rel c).
Proof.
  intros I Hn. unfold listed_child, resolve_component_metadata.
  destruct (resolve_component_spec core h (hinv_wf _ _ I) (hinv_rooted _ _ I) rel c None Hn) as (r & ch & -> & _ & Hr); [done|].
  cbn [mbind result_bind option_map]. destruct r as [[m ps]|]; [|done]. intros _. apply entry_is_Some. destruct Hr as (l & -> & _). by eexists.
Qed.
(** What no rule leaves out of a listing: a path that is not excluded and, under
    a policy with denials, no file with another name. *)
Definition unrefused (h : Host) (p : Path) : Prop := is_excluded core p = false /\ (acc_has_denials = true -> ~ aliased core h p).
Lemma entry_listed_child h rel c : hinv h -> normal (rel ++ [c]) -> view count h rel = Some KDir ->
  (acc_has_denials = true -> ~ aliased core h (rel ++ [c])) -> is_Some (entry count h rel c) -> listed_child core h (rel ++ [c]) = true.
Proof.
  intros I Hn Hv Ha Hs. unfold listed_child, resolve_component_metadata.
  destruct (resolve_component_spec core h (hinv_wf _ _ I) (hinv_rooted _ _ I) rel c None Hn) as (r & ch & -> & _ & Hr); [done|].
  cbn [mbind result_bind option_map]. apply entry_is_Some in Hs. destruct r as [[m ps]|]; cbn [fst].
  - destruct Hr as (l & Hl & Hm). unfold require_unaliased_metadata.
    destruct (acc_has_denials && is_file (i_kind (rm_node m)) && (1 <? nlink h (rm_ino m))) eqn:E; [|cbn [option_map fst]; by rewrite E].
    destruct (unaliased_Err core h (rel ++ [c]) l m) as [Hd Hal]; [right; eauto|done|done|]. by destruct (Ha Hd).
  - rewrite Hr in Hs. by destruct Hs.
Qed.

Lemma is_opaque_missing h rel : hinv h -> view count h rel = Some KDir -> kind_at h (Upper, rel) = None -> is_opaque h rel = false.
Proof.
  intros I Hv Hk. pose proof (exists_visible core h rel KDir I Hv) as Hex. rewrite Hk in Hex.
  rewrite bool_decide_eq_false_2 in Hex by (by intros []). unfold is_opaque, is_opaque_directory. cbn [fst snd].
  unfold exists_at at 1. unfold lstat at 1. rewrite reach_snoc.
  destruct (walk_visible core h [] rel I Hv) as [Hw | ->].
  - apply walk_ok_dir in Hw. cbn in Hw. congruence.
  - cbn [is_ok orb]. unfold exists_at in Hex. by destruct (lstat h (Upper, rel)).
Qed.

(** What a listing contains. *)
Lemma list_names_spec w rel names w' c : inv w -> list_names core rel w = (Ok names, w') ->
  w' = w /\ view count (w_host w) rel = Some KDir /\
  (c ∈ names -> child rel c = Ok (rel ++ [c]) /\ is_Some (view count (w_host w) (rel ++ [c]))) /\
  (single (w_host w) -> plain (rel ++ [c]) -> unrefused (w_host w) (rel ++ [c]) -> is_Some (view count (w_host w) (rel ++ [c])) -> c ∈ names).
Proof.
  intros I E. apply bind_inv in E as [(items & w1 & E1 & E)|(e & _ & [=])].
  destruct (collect_spec w rel items w1 c I E1) as (-> & Hv & Hc). unfold reading in E. injection E as E <-.
  destruct (visible_names_spec _ _ _ _ c E) as [Hmem Hchild]. pose proof (inv_host _ w I) as HI. pose proof (hinv_wf _ _ HI) as W.
  assert (view count (w_host w) (rel ++ [c]) = entry count (w_host w) rel c) as Hve by (by rewrite view_snoc, decide_True).
  rewrite Hve. split_and!; [done..| |].
  - intros (Hin & _ & Hl)%Hmem. specialize (Hchild Hin). split; [done|].
    apply child_Ok in Hchild as [Hn _]. by apply listed_child_entry.
  - intros S Hp [Hx Ha] Hs. apply Hmem. pose proof Hp as [Hpr [Hw _]]%plain_snoc.
    assert (c ∈ items.*1) as Hin.
    { apply Hc. split; [done|]. rewrite (entry_unfold core) in Hs.
      destruct (kind_at (w_host w) (Upper, rel ++ [c])) as [k|] eqn:Ek.
      - split; [|left; by eexists]. by apply S; [|rewrite Ek; by eexists].
      - destruct (hidden (w_host w) rel c) eqn:Eh; [by destruct Hs|].
        destruct (lower_loc (w_host w) count 0 (rel ++ [c])) as [l|] eqn:El; [|by destruct Hs].
        apply lower_loc_Some in El as (i & -> & Hi & Hki). unfold hidden in Eh.
        assert (is_opaque (w_host w) rel = false /\ kind_at (w_host w) (whiteout_path rel c) = None) as [Ho Hwh].
        { destruct (kind_at (w_host w) (Upper, rel)) as [k|] eqn:Er.
          - pose proof (view_upper core _ _ _ _ HI Hv Er) as ->. rewrite is_opaque_spec by done.
            rewrite bool_decide_eq_true_2 in Eh by done. cbn [andb] in Eh.
            apply orb_false_iff in Eh as [Eh ->]. split; [done|]. apply bool_decide_eq_false in Eh. by apply eq_None_not_Some.
          - assert (forall x, kind_at (w_host w) (Upper, rel ++ [x]) = None) as Hch.
            { intros x. destruct (kind_at (w_host w) (Upper, rel ++ [x])) eqn:Ex; [|done]. apply (wf_parent_dir _ _ _ _ _ W) in Ex. congruence. }
            split; [|apply Hch]. by apply is_opaque_missing. }
        split; [done|]. right. split; [done|]. exists i. split; [lia|done]. }
    split_and!; [done..|]. apply entry_listed_child; [done| |done..]. apply Hchild in Hin. by apply child_Ok in Hin as [? _].
Qed.
End Listing.

(** * Trees that the rules leave whole

    A tree is [clear] when no rule leaves any of its visible names out of a
    listing. The check of a tree before it moves or goes shows that it is clear,
    and steps that neither show nor make links keep it so. *)
Section Clear.
Context (core : OverlayCore) `{AccessOps, Digest256}.
Local Abbreviation count := (oc_lowers core).
Local Abbreviation hinv := (hinv core).

Definition clear (h : Host) (p : Path) : Prop :=
  forall s, plain (p ++ s) -> is_Some (view count h (p ++ s)) -> unrefused core h (p ++ s).
Lemma clear_app h p s : clear h p -> clear h (p ++ s).
Proof. intros C t. rewrite <- app_assoc. apply C. Qed.

Lemma located_layer h p l : located core h p l -> l.2 = p /\ l.1 ∈ layer_roots core.
Proof.
  intros [[-> ->]|(q & c & -> & _ & Hl)]; [split; [done|apply list_elem_of_here]|].
  apply entry_loc_Some in Hl as (_ & E & [Hu|(i & E1 & Hi & _)]); split; try done; unfold layer_roots.
  - rewrite Hu. apply list_elem_of_here.
  - rewrite E1. apply list_elem_of_further, list_elem_of_fmap. exists i. split; [done|]. apply elem_of_seq. lia.
Qed.

(** A step that does not show and makes no links keeps a tree clear. *)
Lemma aliased_quiet h h' p : hinv h -> hquiet core h h' -> fresh_links h h' -> plain p -> is_Some (view count h p) ->
  aliased core h' p -> aliased core h p.
Proof.
  intros I Q F Hp Hs (l & m & Hl & (Hpath & Hi & Hn) & Hf & Hlinks). destruct (F l _ Hi) as [[Hi0 Hle]|]; [|lia].
  assert (located core h p l) as Hl0 by (apply (located_quiet core h h'); [done..|by eexists]).
  assert (is_Some (node h l)) as [n Hnode].
  { apply (wf_inodes _ (hinv_wf _ _ I)) in Hi0 as Hin. destruct Hin as [n Hn0]. exists n. apply node_Some. eauto. }
  exists l, (mkResolved l (rm_ino m) n). split_and!; [done|done| |cbn; lia]. cbn. rewrite <- Hf. f_equal.
  pose proof (located_view core h (hinv_rooted _ _ I) p l Hl0) as [V0 _]. pose proof (located_view core h' (hinv_rooted _ _ (hq_inv _ _ _ Q)) p l Hl) as [V1 _].
  rewrite (hq_view _ _ _ Q), V0 in V1 by done. unfold kind_at in V1. rewrite Hn, Hnode in V1. by injection V1.
Qed.
Lemma clear_quiet h h' p : hinv h -> hquiet core h h' -> (acc_has_denials = true -> fresh_links h h') -> clear h p -> clear h' p.
Proof.
  intros I Q F C s Hp Hs. rewrite (hq_view _ _ _ Q) in Hs by done. destruct (C s Hp Hs) as [Hx Ha]. split; [done|].
  intros Hd Hal. apply (Ha Hd). exact (aliased_quiet h h' _ I Q (F Hd) Hp Hs Hal).
Qed.

(** ** The check of a tree *)

Lemma visible_checked rel : require_visible core rel = Ok tt -> acc_check rel = true.
Proof. unfold require_visible. destruct (validate_rel rel); [|done]. cbn. by destruct (acc_check rel). Qed.
Lemma visible_not_excluded `{!AccessLaws} rel : require_visible core rel = Ok tt -> is_excluded core rel = false.
Proof.
  intros Hv. unfold is_excluded. rewrite (acc_check_denied rel (visible_checked rel Hv)). unfold require_visible in Hv.
  destruct (validate_rel rel); [|done]. cbn in Hv. destruct (acc_check rel); [|done]. cbn in Hv. by destruct (is_excluded_prefix core rel).
Qed.
(** Whether there is anything to check. *)
Definition guarded : bool := negb (negb acc_has_denials && bool_decide (oc_excluded core = [])).
Lemma guarded_denials : acc_has_denials = true -> guarded = true.
Proof. unfold guarded. by intros ->. Qed.
Lemma unguarded_unrefused `{!AccessLaws} h p : guarded = false -> unrefused core h p.
Proof.
  unfold guarded. rewrite negb_false_iff, andb_true_iff, negb_true_iff, bool_decide_eq_true. intros [Hd He].
  split; [|congruence]. unfold is_excluded, is_excluded_prefix. by rewrite (acc_open_denied p Hd), He.
Qed.

Definition tree_blocked (h : Host) (r : Root) (old : Path) : bool :=
  existsb (fun p => match lstat h (r, p) with Ok (_, n) => negb (is_dir (i_kind n)) | Err _ => false end) (tail (ancestors old)).
Lemma ancestors_strict old p : p ∈ tail (ancestors old) -> exists s, s <> [] /\ old = p ++ s.
Proof.
  revert p. induction old as [|d q IH]; intros p Hin; cbn in Hin; [by apply elem_of_nil in Hin|].
  destruct (ancestors q) as [|a l] eqn:Ea; [exfalso; destruct q; cbn in Ea; [done|by apply app_eq_nil in Ea as [_ ?]]|]. cbn in Hin. apply elem_of_app in Hin as [Hin|Hin].
  - apply list_elem_of_fmap in Hin as (p' & -> & Hp'). destruct (IH p') as (s & Hs & ->); [done|]. by exists s.
  - apply list_elem_of_singleton in Hin as ->. by exists (d :: q).
Qed.
Lemma present_unblocked h r old : wf h -> is_Some (node h (r, old)) -> tree_blocked h r old = false.
Proof.
  intros W [n Hn]. apply not_true_iff_false. intros (p & Hin & Hp)%existsb_exists. apply list_elem_of_In in Hin.
  apply ancestors_strict in Hin as (s & Hs & ->).
  assert (kind_at h (r, p ++ s) = Some (i_kind n)) as Hk by (unfold kind_at; by rewrite Hn).
  pose proof (wf_prefix_dir h r p s _ W Hs Hk) as (m & Hm & Hmk)%kind_at_Some. destruct (lstat_present h (r, p) m W Hm) as (j & _ & _ & Hj).
  by rewrite Hj, Hmk in Hp.
Qed.
(** Each layer that has the path contributes its names, or is no link. *)
Lemma tree_names_layer h old r n roots names : wf h -> r ∈ roots -> node h (r, old) = Some n -> tree_names h old roots = Ok names ->
  if is_dir (i_kind n) then forall c, is_whiteout_name c = false -> is_Some (h_names h !! (r, old ++ [c])) -> c ∈ names
  else require_unaliased h (r, old) = Ok tt.
Proof.
  intros W Hr Hn. revert names. induction roots as [|r' roots IH]; [by apply elem_of_nil in Hr|]. intros names E. cbn [tree_names] in E.
  destruct (decide (r' = r)) as [->|Hne].
  - fold (tree_blocked h r old) in E. rewrite present_unblocked in E by eauto.
    destruct (lstat_present h (r, old) n W Hn) as (i & _ & _ & Hst). rewrite Hst in E. destruct (is_dir (i_kind n)).
    + destruct (tree_names h old roots) as [rest|e] eqn:Er; [|done]. injection E as <-. intros c Hc Hs.
      apply elem_of_app. left. apply list_elem_of_In, filter_In. split; [|by rewrite Hc]. apply list_elem_of_In. by apply read_dir_spec.
    + by destruct (require_unaliased h (r, old)) as [[]|].
  - apply elem_of_cons in Hr as [->|Hr]; [done|]. specialize (IH Hr). destruct (existsb _ _); [by apply IH|].
    destruct (lstat h (r', old)) as [[i' n']|e].
    + destruct (is_dir (i_kind n')).
      * destruct (tree_names h old roots) as [rest|] eqn:Er; [|done]. injection E as <-. specialize (IH rest eq_refl).
        destruct (is_dir (i_kind n)); [|done]. intros c Hc Hs. apply elem_of_app. right. by apply IH.
      * destruct (require_unaliased h (r', old)); [|done]. by apply IH.
    + destruct (bool_decide _); [by apply IH|done].
Qed.
(** The names checked are those of every layer. *)
Lemma tree_access_checked h r s : wf h -> r ∈ layer_roots core -> guarded = true -> tidy s -> forall fuel old new,
  require_tree_access_n core fuel h old new = Ok tt -> is_Some (h_names h !! (r, old ++ s)) ->
  require_visible core (old ++ s) = Ok tt /\ require_visible core (new ++ s) = Ok tt /\
  (forall n, node h (r, old ++ s) = Some n -> is_dir (i_kind n) = false -> require_unaliased h (r, old ++ s) = Ok tt).
Proof.
  intros W Hr Hg. apply negb_true_iff in Hg.
  induction s as [|c s IH]; intros Ht fuel old new E Hs; destruct fuel as [|fuel]; cbn [require_tree_access_n] in E; rewrite Hg in E; try done.
  - rewrite !app_nil_r in *. destruct (require_visible core old) as [[]|] eqn:E1; [|done]. cbn [mbind result_bind] in E.
    destruct (require_visible core new) as [[]|] eqn:E2; [|done]. split_and!; [done..|]. intros n Hn Hd. cbn [mbind result_bind] in E.
    destruct (tree_names h old (layer_roots core)) as [names|] eqn:E3; [|done].
    pose proof (tree_names_layer h old r n _ names W Hr Hn E3) as Hl. by rewrite Hd in Hl.
  - destruct (require_visible core old) as [[]|] eqn:E1; [|done]. cbn [mbind result_bind] in E.
    destruct (require_visible core new) as [[]|] eqn:E2; [|done]. cbn [mbind result_bind] in E.
    destruct (tree_names h old (layer_roots core)) as [names|] eqn:E3; [|done]. cbn [mbind result_bind] in E.
    apply Forall_cons in Ht as [Hc Ht]. pose proof (proj1 (for_each_Ok _ _ _) E c) as Hch. rewrite (app_assoc old [c] s : old ++ c :: s = _) in *.
    rewrite (app_assoc new [c] s : new ++ c :: s = _). apply (IH Ht fuel); [|done]. apply Hch. unfold name_set. rewrite elem_of_dedup, sort_by_perm.
    assert (is_Some (h_names h !! (r, old ++ [c]))) as Hs1.
    { destruct s as [|d s]; [by rewrite app_nil_r in Hs|].
      apply kind_names; [done|]. apply kind_names in Hs as [k Hk]; [|done]. exists KDir. by apply (wf_prefix_dir h r (old ++ [c]) (d :: s) k). }
    pose proof (wf_parents h W r old c Hs1) as (n & Hn & Hk)%kind_at_Some.
    pose proof (tree_names_layer h old r n _ names W Hr Hn E3) as Hl. rewrite Hk in Hl. by apply Hl.
Qed.
Lemma tree_access_Ok old new w u w' : require_tree_access core old new w = (Ok u, w') ->
  w' = w /\ require_tree_access_n core (tree_fuel (w_host w)) (w_host w) old new = Ok tt.
Proof. unfold require_tree_access, reading. destruct u. intros E. split; [exact (eq_sym (f_equal snd E))|exact (f_equal fst E)]. Qed.
(** A tree that passed the check is clear. *)
Lemma tree_access_clear `{!AccessLaws} h fuel old new : hinv h -> require_tree_access_n core fuel h old new = Ok tt -> clear h old.
Proof.
  intros I E s Hp Hs. destruct guarded eqn:Hg; [|by apply unguarded_unrefused].
  destruct (view_located core h _ I Hs) as [l Hl]. destruct (located_layer h _ l Hl) as [Hl2 Hl1].
  destruct (located_view core h (hinv_rooted _ _ I) _ l Hl) as [_ Hk]. pose proof (hinv_wf _ _ I) as W.
  destruct l as [r p]. cbn in Hl1, Hl2. subst p. pose proof Hk as Hn%(kind_names h _ W).
  apply plain_app in Hp as [_ Hps].
  destruct (tree_access_checked h r s W Hl1 Hg (plain_tidy _ Hps) fuel old new E Hn) as (Hv & _ & Hu).
  split; [by apply visible_not_excluded|]. intros Hd (l' & m & Hl' & Hm & Hf & Hlinks).
  assert (l' = (r, old ++ s)) as -> by (by eapply located_fun). destruct Hm as (_ & Hi & Hnode).
  specialize (Hu _ Hnode ltac:(by destruct (i_kind (rm_node m)))). unfold require_unaliased in Hu. rewrite Hd in Hu.
  destruct (lstat_present _ _ _ W Hnode) as (j & Hj & _ & Hst). assert (j = rm_ino m) as -> by congruence. rewrite Hst in Hu.
  pose proof (unaliased_links _ _ _ Hd Hu Hf). lia.
Qed.
End Clear.

(** * Materialising a tree

    Before a directory moves, everything that shows in it is copied to the upper
    and its directories become opaque. None of this shows, and afterwards the
    upper alone determines what the tree shows ([sealed]). *)

Section Tree.
Context (core : OverlayCore) `{AccessOps, Digest256, Laws : !AccessLaws}.
Local Abbreviation count := (oc_lowers core).
Local Abbreviation hinv := (hinv core).
Local Abbreviation hquiet := (hquiet core).
Local Abbreviation inv := (inv core).
Local Abbreviation quiet := (quiet core).
Local Abbreviation OnlyIn := (OnlyIn core).

(** Every directory that shows below [p] is an opaque directory of the upper. *)
Definition sealed (h : Host) (p : Path) : Prop :=
  forall s, plain (p ++ s) -> view count h (p ++ s) = Some KDir ->
    kind_at h (Upper, p ++ s) = Some KDir /\ opaque_at h (p ++ s) = true.
Definition lifted (h : Host) (p : Path) : Prop := plain p -> forall k, view count h p = Some k -> kind_at h (Upper, p) = Some k.

Lemma sealed_quiet h h' p : hquiet h h' -> sealed h p -> sealed h' p.
Proof.
  intros Q S s Hp Hv. rewrite (hq_view _ _ _ Q) in Hv by done. destruct (S s Hp Hv) as [Hk Ho]. pose proof (plain_tidy _ Hp) as Ht.
  split; [by apply (hq_grow _ _ _ Q)|by apply (hq_opaque _ _ _ Q)].
Qed.
Lemma lifted_quiet h h' p : hquiet h h' -> lifted h p -> lifted h' p.
Proof.
  intros Q L Hp k Hv. rewrite (hq_view _ _ _ Q) in Hv by done. apply (hq_grow _ _ _ Q); [by apply plain_tidy|by apply L].
Qed.

(** ** Opaque directories *)

(** Marking a directory whose visible entries are all in the upper does not show. *)
Lemma mark_opaque_quiet rel w r w' : inv w -> rel <> [] -> tidy rel -> kind_at (w_host w) (Upper, rel) = Some KDir ->
  (forall c, plain (rel ++ [c]) -> is_Some (view count (w_host w) (rel ++ [c])) -> is_Some (kind_at (w_host w) (Upper, rel ++ [c]))) ->
  mark_opaque rel w = (r, w') -> quiet w w' /\ (r = Ok tt -> opaque_at (w_host w') rel = true).
Proof.
  intros I Hne Ht Hd Hall E. destruct (mark_opaque_only core rel w r w' I Hne Ht Hd E) as (O & G & Hd' & Ho).
  split; [|intros Hr; apply Ho; by left]. pose proof (on_inv _ _ _ _ O) as I'.
  assert (forall l, stage l -> l <> (Upper, rel) -> l <> (Upper, rel ++ [OPAQUE_NAME]) -> look (w_host w') l = look (w_host w) l) as Hlook.
  { intros l _ H1 H2. apply (on_look _ _ _ _ O). by intros [?|?]. }
  assert (forall p, tidy p -> (Upper, p) <> (Upper, rel ++ [OPAQUE_NAME])) as Htp.
  { intros p Hp [= ->]. apply tidy_snoc in Hp as [_ Hp]. done. }
  assert (forall p k, tidy p -> kind_at (w_host w) (Upper, p) = Some k -> kind_at (w_host w') (Upper, p) = Some k) as Hgrow.
  { intros p k Hp Hk. destruct (decide (p = rel)) as [->|Hpr]; [congruence|].
    rewrite (kind_of_look (w_host w)); [done|]. apply Hlook; [by left|congruence|by apply Htp]. }
  assert (forall p, tidy p -> kind_at (w_host w') (Upper, p) = kind_at (w_host w) (Upper, p)) as Hsame.
  { intros p Hp. destruct (decide (p = rel)) as [->|Hpr]; [congruence|].
    rewrite (kind_of_look (w_host w)); [done|]. apply Hlook; [by left|congruence|by apply Htp]. }
  assert (forall q c, plain (q ++ [c]) -> kind_at (w_host w') (whiteout_path q c) = kind_at (w_host w) (whiteout_path q c)) as Hwh.
  { intros q c Hp. pose proof Hp as [Hq Hc]%plain_snoc. apply kind_of_look, Hlook; [apply stage_whiteout; [by apply plain_tidy|done]|..]; unfold whiteout_path.
    - intros [= Eq]. rewrite <- Eq in Ht. apply tidy_snoc in Ht as [_ Ht]. by rewrite whiteout_is_marker in Ht.
    - intros [= Eq]. apply app_inj_tail in Eq as [_ Eq]. assert (c = ".wh..opq"%string) as -> by (apply whiteout_inj; by rewrite Eq). by destruct Hc. }
  assert (forall q, tidy q -> q <> rel -> opaque_at (w_host w') q = opaque_at (w_host w) q) as Hopq.
  { intros q Hq Hqr. apply opaque_look; apply Hlook.
    - by left.
    - congruence.
    - by apply Htp.
    - by apply stage_opaque.
    - intros [= Eq]. rewrite <- Eq in Ht. apply tidy_snoc in Ht as [_ Ht]. done.
    - intros [= Eq]. by apply app_inj_tail in Eq as [-> _]. }
  apply quiet_host; [done| |done|apply (on_pre _ _ _ _ O)]. constructor.
  - apply I'.
  - intros p Hp. symmetry. apply view_ext; [symmetry; apply Hsame; constructor|]. intros q c [s ->] Hvq.
    apply plain_app in Hp as [Hp _]. pose proof Hp as [Hpq Hpc]%plain_snoc. pose proof (plain_tidy _ Hpq) as Htq.
    rewrite !(entry_unfold core). rewrite Hsame by (by apply plain_tidy).
    rewrite (lower_view (w_host w) (w_host w')) by (intros i; by apply Hlook).
    destruct (kind_at (w_host w) (Upper, q ++ [c])) as [k|] eqn:Ek; [done|]. unfold hidden. rewrite Hwh, Hsame by done.
    destruct (decide (q = rel)) as [->|Hqr]; [|by rewrite Hopq].
    assert (entry count (w_host w) rel c = None) as Hnone.
    { destruct (entry count (w_host w) rel c) as [k|] eqn:Ee; [|done]. exfalso.
      destruct (Hall c Hp) as [k' Hk']; [|congruence]. rewrite view_snoc, decide_True, Ee by done. by eexists. }
    rewrite (entry_unfold core), Ek in Hnone. unfold hidden in Hnone. rewrite Hd in *.
    rewrite (bool_decide_eq_true_2 (Some KDir = Some KDir)) in * by done. cbn [andb] in *.
    destruct (bool_decide (is_Some (kind_at (w_host w) (whiteout_path rel c)))); [done|]. cbn [orb] in *.
    destruct (opaque_at (w_host w) rel) eqn:Eo; [by rewrite (Ho (or_intror eq_refl))|]. rewrite Hnone. by destruct (opaque_at (w_host w') rel).
  - apply (on_lower _ _ _ _ O).
  - apply (on_escaped _ _ _ _ O).
  - done.
  - intros q Hq _ Hop. destruct (decide (q = rel)) as [->|Hqr]; [apply Ho; by right|by rewrite Hopq].
  - intros S q c Hp Hs. rewrite Hwh by done. apply S; [done|]. by rewrite <- Hsame by (by apply plain_tidy).
Qed.

(** ** Materialising *)

Lemma sealed_not_dir h p : view count h p <> Some KDir -> sealed h p.
Proof.
  intros Hv s Hp Hs. exfalso. destruct (decide (s = [])) as [->|Hne]; [by rewrite app_nil_r in Hs|].
  by apply Hv, (view_prefix _ _ p s KDir).
Qed.
Lemma sealed_dir h p : kind_at h (Upper, p) = Some KDir -> opaque_at h p = true ->
  (forall c, plain (p ++ [c]) -> is_Some (view count h (p ++ [c])) -> sealed h (p ++ [c])) -> sealed h p.
Proof.
  intros Hk Ho Hc [|c s] Hp Hs; [rewrite app_nil_r in *; done|].
  assert (p ++ c :: s = (p ++ [c]) ++ s) as E by (by rewrite <- app_assoc). rewrite E in *.
  apply Hc; [by apply plain_app in Hp as [? _]| |done|done].
  destruct (decide (s = [])) as [->|Hne]; [rewrite app_nil_r in Hs; by eexists|]. exists KDir. by apply (view_prefix _ _ _ s KDir).
Qed.

(** What one step of the loop over the children leaves behind, and the loop. *)
Record subtle (w w' : World) : Prop := mkSubtle {
  sb_quiet : quiet w w';
  sb_links : acc_has_denials = true -> fresh_links (w_host w) (w_host w')
}.
Definition Raised (p : Path) (w : World) (ok : bool) (w' : World) : Prop :=
  subtle w w' /\ (ok = true -> plain p -> lifted (w_host w') p /\ sealed (w_host w') p).
Lemma subtle_trans w1 w2 w3 : subtle w1 w2 -> subtle w2 w3 -> subtle w1 w3.
Proof. intros [Q1 F1] [Q2 F2]. split; [by eapply quiet_trans|]. intros Hd. eapply fresh_links_trans; eauto. Qed.
Lemma subtle_same w w' : quiet w w' -> w_host w' = w_host w -> subtle w w'.
Proof. intros Q E. split; [done|]. intros _. rewrite E. apply fresh_links_refl. Qed.
Lemma subtle_refl w : inv w -> subtle w w.
Proof. intros I. apply subtle_same; [by apply quiet_refl|done]. Qed.
Lemma subtle_clear w w' p : inv w -> subtle w w' -> clear core (w_host w) p -> clear core (w_host w') p.
Proof. intros I [Q F]. apply clear_quiet; [apply I|apply Q|done]. Qed.
Lemma copy_up_subtle rel w r w' : inv w -> tidy rel -> copy_up core rel w = (r, w') -> subtle w w'.
Proof. intros I Ht E. split; [by eapply copy_up_quiet|]. intros Hd. by apply (copy_up_fresh core rel w r w'). Qed.
Lemma metadata_subtle rel w r w' : inv w -> metadata core rel w = (r, w') -> subtle w w'.
Proof.
  intros I E. apply subtle_same; [by eapply Quiet_metadata|]. apply bind_inv in E as [(m & w1 & E1 & [= _ <-])|(e & E1 & _)]; by apply HostSame_metadata_resolved in E1 as [? _].
Qed.
Lemma mark_opaque_subtle rel w r w' : inv w -> quiet w w' -> mark_opaque rel w = (r, w') -> subtle w w'.
Proof. intros I Q E. split; [done|]. intros _. by apply (NoLinks_mark_opaque (w_host w) rel w r w' (linked_self core w I)). Qed.
Lemma raise_children (f : string -> Op unit) rel names w r w' : inv w -> single (w_host w) -> clear core (w_host w) rel ->
  (forall c w r w', c ∈ names -> inv w -> single (w_host w) -> clear core (w_host w) rel -> f c w = (r, w') -> Raised (rel ++ [c]) w (is_ok r) w') ->
  op_for f names w = (r, w') ->
  subtle w w' /\ (r = Ok tt -> forall c, c ∈ names -> plain (rel ++ [c]) -> lifted (w_host w') (rel ++ [c]) /\ sealed (w_host w') (rel ++ [c])).
Proof.
  intros I S C Hf. revert w r w' I S C. induction names as [|x names IH]; intros w r w' I S C E; cbn [op_for] in E.
  { injection E as <- <-. split; [by apply subtle_refl|]. intros _ c []%not_elem_of_nil. }
  apply bind_inv in E as [([] & w1 & E1 & E2)|(e & E1 & ->)].
  - destruct (Hf x w (Ok tt) w1 (list_elem_of_here _ _) I S C E1) as [B1 L1]. pose proof (sb_quiet _ _ B1) as Q1. pose proof (qt_inv _ _ _ Q1) as I1.
    pose proof (hq_single _ _ _ (qt_host _ _ _ Q1) S) as S1. pose proof (subtle_clear _ _ _ I B1 C) as C1.
    destruct (IH (fun c w r w' Hc => Hf c w r w' (list_elem_of_further _ _ _ Hc)) w1 r w' I1 S1 C1 E2) as [[Q2 F2] L2].
    split; [by eapply subtle_trans|]. intros Hr c Hc Hp. apply elem_of_cons in Hc as [->|Hc]; [|by apply L2].
    destruct (L1 eq_refl Hp) as [La Sa]. pose proof (qt_host _ _ _ Q2). split; [by eapply lifted_quiet|by eapply sealed_quiet].
  - destruct (Hf x w (Err e) w' (list_elem_of_here _ _) I S C E1) as [Q1 _]. done.
Qed.

Lemma copy_up_raised rel w r w' : inv w -> tidy rel -> view count (w_host w) rel <> Some KDir -> copy_up core rel w = (r, w') ->
  Raised rel w (is_ok r) w' /\ (forall l, r = Ok l -> is_Some (view count (w_host w) rel) -> l = (Upper, rel)).
Proof.
  intros I Ht Hd E. destruct (copy_up_quiet core rel w r w' I Ht E) as [Q L].
  split; [split; [by eapply copy_up_subtle|]|intros l -> [k Hk]; by apply (L l k)].
  intros Hr Hp. destruct r as [l|]; [|done]. split.
  - intros _ k Hv. rewrite (hq_view _ _ _ (qt_host _ _ _ Q)) in Hv by done. by apply (L l k).
  - apply sealed_not_dir. by rewrite (hq_view _ _ _ (qt_host _ _ _ Q)).
Qed.

(** The body of the loop of [materialize_tree], given the recursive call. *)
Lemma child_raised (self : Path -> Op Loc) rel c w r w' :
  (forall p w r w', inv w -> single (w_host w) -> clear core (w_host w) p -> p <> [] -> tidy p -> self p w = (r, w') -> Raised p w (is_ok r) w') ->
  tidy rel -> child rel c = Ok (rel ++ [c]) -> inv w -> single (w_host w) -> clear core (w_host w) rel ->
  ((c ← lift (child rel c); n ← metadata core c;
    _ ← (if is_dir (i_kind n) then self c else copy_up core c); mret tt) : Op unit) w = (r, w') ->
  Raised (rel ++ [c]) w (is_ok r) w'.
Proof.
  intros Hself Ht Hchild I S C E. rewrite Hchild in E.
  apply bind_inv in E as [(x & w1 & [= <- <-] & E)|(x & [=] & _)].
  assert (Htc : tidy (rel ++ [c])) by (apply tidy_snoc; split; [done|by apply (child_Ok rel c)]).
  assert (Hnc : rel ++ [c] <> []) by (by destruct rel).
  apply bind_inv in E as [(n & w1 & Em & E)|(x & Em & ->)].
  2: { split; [by apply (metadata_subtle (rel ++ [c]) w (Err x) w')|done]. }
  pose proof (metadata_view core w _ n w1 I Em) as Hv. destruct (metadata_Ok core w _ n w1 I Em) as (-> & _ & _).
  assert (forall r w1, (if is_dir (i_kind n) then self (rel ++ [c]) else copy_up core (rel ++ [c])) w = (r, w1) ->
            Raised (rel ++ [c]) w (is_ok r) w1) as Hstep.
  { intros r1 w1 E1. destruct (is_dir (i_kind n)) eqn:Hd; [exact (Hself _ w r1 w1 I S (clear_app _ _ _ _ C) Hnc Htc E1)|].
    apply copy_up_raised; [done|done| |done]. rewrite Hv. intros [= Ek]. by rewrite Ek in Hd. }
  apply bind_inv in E as [(l & w1 & E1 & [= <- <-])|(x & E1 & ->)]; by apply Hstep in E1.
Qed.

(** Materialising a tree does not show, whatever its outcome; when it succeeds
    the tree is in the upper and sealed there. *)
Lemma materialize_raised fuel rel w r w' : inv w -> single (w_host w) -> clear core (w_host w) rel -> rel <> [] -> tidy rel ->
  materialize_tree_n core fuel rel w = (r, w') ->
  Raised rel w (is_ok r) w' /\ (forall l, r = Ok l -> l = (Upper, rel)).
Proof.
  revert rel w r w'. induction fuel as [|fuel IH]; intros rel w r w' I S C Hne Ht E; cbn [materialize_tree_n] in E.
  { injection E as <- <-. split; [split; [by apply subtle_refl|done]|done]. }
  assert (Hstop : forall e, Raised rel w (is_ok (Err e : Result IoErr Loc)) w) by (intros e; split; [by apply subtle_refl|done]).
  apply bind_inv in E as [([] & w0 & E0 & E)|(e & E0 & ->)]; injection E0 as _ <-; [|by split].
  apply bind_inv in E as [(n & w1 & E1 & E)|(e & E1 & ->)].
  2: { split; [|done]. split; [by apply (metadata_subtle rel w (Err e) w')|done]. }
  pose proof (metadata_view core w rel n w1 I E1) as Hv. destruct (metadata_Ok core w rel n w1 I E1) as (-> & _ & _).
  destruct (is_dir (i_kind n)) eqn:Hdir; cbn [negb] in E.
  2: { assert (view count (w_host w) rel <> Some KDir) as Hnd by (rewrite Hv; intros [= Ek]; by rewrite Ek in Hdir).
       destruct (copy_up_raised rel w r w' I Ht Hnd E) as [Ra La]. split; [done|]. intros l Hr. apply La; [done|by eexists]. }
  assert (i_kind n = KDir) as Hk by (by destruct (i_kind n)). rewrite Hk in Hv.
  apply bind_inv in E as [(names & w2 & E2 & E)|(e & E2 & ->)].
  2: { split; [|done]. split; [|done]. destruct (Reads_list_names core rel) as [Hq Hh]. apply subtle_same; [by apply (Hq w (Err e) w')|by apply (Hh w (Err e) w')]. }
  pose proof (list_names_spec core w rel names w2) as Hnames. destruct (Hnames ""%string I E2) as (-> & _ & _).
  apply bind_inv in E as [(l & w3 & E3 & E)|(e & E3 & ->)].
  2: { split; [|done]. split; [by apply (copy_up_subtle rel w (Err e) w')|done]. }
  pose proof (copy_up_subtle rel w (Ok l) w3 I Ht E3) as B3. destruct (copy_up_quiet core rel w (Ok l) w3 I Ht E3) as [Q3 L3]. destruct (L3 l KDir eq_refl Hv) as [_ Hd3].
  pose proof (qt_inv _ _ _ Q3) as I3. pose proof (hq_single _ _ _ (qt_host _ _ _ Q3) S) as S3. pose proof (subtle_clear _ _ _ I B3 C) as C3.
  assert (Hbody := raise_children (fun name => c ← lift (child rel name); n ← metadata core c;
    _ ← (if is_dir (i_kind n) then materialize_tree_n core fuel c else copy_up core c); mret tt) rel names w3).
  assert (Hstep : forall c wa ra wb, c ∈ names -> inv wa -> single (w_host wa) -> clear core (w_host wa) rel -> _ = (ra, wb) -> Raised (rel ++ [c]) wa (is_ok ra) wb)
    by (intros c wa ra wb Hc Ia Sa Ca Ea; destruct (Hnames c I E2) as (_ & _ & Hsound & _); destruct (Hsound Hc) as [Hchild _];
        exact (child_raised (materialize_tree_n core fuel) rel c wa ra wb (fun p w r w' I S C Hn Ht E => proj1 (IH p w r w' I S C Hn Ht E)) Ht Hchild Ia Sa Ca Ea)).
  apply bind_inv in E as [([] & w4 & E4 & E)|(e & E4 & ->)]; destruct (Hbody _ _ I3 S3 C3 Hstep E4) as [B4 L4]; pose proof (sb_quiet _ _ B4) as Q4.
  2: { split; [|done]. split; [by eapply subtle_trans|done]. }
  pose proof (subtle_trans _ _ _ B3 B4) as B34. pose proof (sb_quiet _ _ B34) as Q34. pose proof (qt_inv _ _ _ Q4) as I4.
  pose proof (hq_grow _ _ _ (qt_host _ _ _ Q4) rel KDir Ht Hd3) as Hd4.
  assert (Hall : forall c, plain (rel ++ [c]) -> is_Some (view count (w_host w4) (rel ++ [c])) ->
            lifted (w_host w4) (rel ++ [c]) /\ sealed (w_host w4) (rel ++ [c])).
  { intros c Hp Hs. apply L4; [done| |done]. destruct (Hnames c I E2) as (_ & _ & _ & Hcomplete).
    rewrite (hq_view _ _ _ (qt_host _ _ _ Q34)) in Hs by done. apply Hcomplete; [done|done|by apply C|done]. }
  assert (Hup : forall c, plain (rel ++ [c]) -> is_Some (view count (w_host w4) (rel ++ [c])) -> is_Some (kind_at (w_host w4) (Upper, rel ++ [c]))).
  { intros c Hp [k Hs]. destruct (Hall c Hp (ex_intro _ k Hs)) as [Hl _]. exists k. by apply Hl. }
  apply bind_inv in E as [([] & w5 & E5 & E)|(e & E5 & ->)];
    destruct (mark_opaque_quiet rel w4 _ _ I4 Hne Ht Hd4 Hup E5) as [Q5 O5]; pose proof (mark_opaque_subtle _ _ _ _ I4 Q5 E5) as B5.
  2: { split; [|done]. split; [by eapply subtle_trans|done]. }
  injection E as <- <-. split; [|by intros l' [= <-]]. split; [by eapply subtle_trans|]. intros _ Hp.
  pose proof (qt_host _ _ _ Q5) as H5. pose proof (hq_grow _ _ _ H5 rel KDir Ht Hd4) as Hd5. split.
  - intros _ k Hk5. rewrite (hq_view _ _ _ H5), (hq_view _ _ _ (qt_host _ _ _ Q34)), Hv in Hk5 by done. congruence.
  - apply sealed_dir; [done|by apply O5|]. intros c Hpc Hs. eapply sealed_quiet; [exact H5|].
    apply Hall; [done|]. by rewrite <- (hq_view _ _ _ H5).
Qed.

Lemma materialize_spec rel n w r w' : inv w -> single (w_host w) -> rel <> [] -> plain rel ->
  view count (w_host w) rel = Some (i_kind n) -> materialize core rel n w = (r, w') ->
  quiet w w' /\ forall l, r = Ok l -> l = (Upper, rel) /\ kind_at (w_host w') (Upper, rel) = Some (i_kind n) /\ sealed (w_host w') rel.
Proof.
  intros I S Hne Hp Hv E. pose proof (plain_tidy _ Hp) as Ht.
  assert (forall l, Raised rel w (is_ok r) w' -> r = Ok l ->
            kind_at (w_host w') (Upper, rel) = Some (i_kind n) /\ sealed (w_host w') rel) as Hdone.
  { intros l [[Q _] L] ->. destruct (L eq_refl Hp) as [Hl Hs]. split; [|done]. apply Hl; [done|].
    by rewrite (hq_view _ _ _ (qt_host _ _ _ Q)). }
  unfold materialize in E. destruct (is_dir (i_kind n)) eqn:Hd.
  - unfold materialize_tree in E. apply bind_inv in E as [([] & w1 & E1 & E)|(e & E1 & ->)].
    2: { split; [by apply (proj1 (Reads_tree_access core rel rel) w (Err e) w')|done]. }
    apply tree_access_Ok in E1 as [-> Hacc].
    pose proof (tree_access_clear core (w_host w) _ rel rel (inv_host _ w I) Hacc) as C.
    apply bind_inv in E as [(fuel & w2 & [= <- <-] & E)|(e & [=] & _)].
    destruct (materialize_raised _ rel w r w' I S C Hne Ht E) as [Ra La]. split; [apply Ra|].
    intros l Hr. split; [by apply La|by apply (Hdone l)].
  - assert (view count (w_host w) rel <> Some KDir) as Hnd by (rewrite Hv; intros [= Ek]; by rewrite Ek in Hd).
    destruct (copy_up_raised rel w r w' I Ht Hnd E) as [Ra La]. split; [apply Ra|]. intros l Hr. split; [apply La; [done|by eexists]|by apply (Hdone l)].
Qed.
End Tree.
