(* ===== verification/OverlayFootprint.v ===== *)
(** * The names an operation touches

    Which names of the file system the calls of an operation can change, and that
    the temporary names still to come stay unused. Both are proved call by call,
    without an invariant of the file system. The second part is about the calls
    that move names. *)
From stdpp Require Import base tactics list strings gmap pretty.
From Stdlib Require Import ZArith Lia Ascii.
From S2P Require Import Prelude RustStr FileAccess HostFs HostFsFacts Overlay OverlayView OverlayQuiet OverlayCopy OverlayCopyUp OverlayCreate OverlayList.
Local Open Scope nat_scope.

Section Footprint.
Context (core : OverlayCore) `{AccessOps, Digest256}.

Definition temp_of (n : nat) : string := TEMP_PREFIX +:+ oc_process core +:+ "-" +:+ pretty n.
Definition temp_in (n : nat) (l : Loc) : Prop := temp_of n ∈ l.2.
Definition temp_free (l : Loc) : Prop := forall n, ~ temp_in n l.
(** No name holds a temporary name from [k] on. *)
Definition unused (k : nat) (h : Host) : Prop := forall l n, temp_in n l -> k <= n -> h_names h !! l = None.
Definition settled (k : nat) (l : Loc) : Prop := forall n, temp_in n l -> n < k.

Lemma app_prefix_inj (a b c : string) : a +:+ b = a +:+ c -> b = c.
Proof. induction a as [|x a IH]; cbn; [done|]. intros [= ?]. auto. Qed.
Lemma temp_of_inj n m : temp_of n = temp_of m -> n = m.
Proof. intros E. repeat apply app_prefix_inj in E. by apply (inj pretty) in E. Qed.
Lemma temp_of_temp n : temp_name (temp_of n).
Proof. apply starts_with_spec. by eexists (to_bytes (_ +:+ _)). Qed.
Lemma tidy_temp_free r p : tidy p -> temp_free (r, p).
Proof.
  intros Ht n Hin. unfold tidy in Ht. rewrite Forall_forall in Ht. specialize (Ht _ Hin).
  pose proof (temp_name_whiteout _ (temp_of_temp n)). congruence.
Qed.
Lemma stage_temp_free p : stage (Upper, p) -> temp_free (Upper, p).
Proof.
  assert (forall q c, tidy q -> stage (Upper, q ++ [c]) -> temp_free (Upper, q ++ [c])) as Hone.
  { intros q c Hq Hs n Hin. apply elem_of_app in Hin as [Hin|Hin%list_elem_of_singleton]; [by apply (tidy_temp_free Upper q Hq n)|].
    apply (temp_not_stage Upper q (temp_of n) (temp_of_temp n)); [by intros []|]. by rewrite Hin. }
  intros Hs. pose proof Hs as [Ht|[(q & c & Hq & Hc & ->)|(q & Hq & ->)]]; [by apply tidy_temp_free|by apply Hone..].
Qed.
Lemma free_settled k l : temp_free l -> settled k l.
Proof. intros Hf n Hn. by destruct (Hf n). Qed.
Lemma settled_mono k k' l : k <= k' -> settled k l -> settled k' l.
Proof. intros Hk Hs n Hn. specialize (Hs n Hn). lia. Qed.

(** ** From one world to the next *)

Record Tracked (S : Loc -> Prop) (w w' : World) : Prop := mkTracked {
  tk_temp : w_temp w <= w_temp w';
  tk_unused : unused (w_temp w) (w_host w) -> unused (w_temp w') (w_host w');
  tk_names l : ~ S l -> temp_free l -> h_names (w_host w') !! l = h_names (w_host w) !! l
}.
Lemma Tracked_refl S w : Tracked S w w.
Proof. done. Qed.
Lemma Tracked_trans S w1 w2 w3 : Tracked S w1 w2 -> Tracked S w2 w3 -> Tracked S w1 w3.
Proof. intros [T1 U1 N1] [T2 U2 N2]. constructor; [lia|auto|]. intros l Hl Hf. rewrite N2 by done. by apply N1. Qed.
Lemma Tracked_same S w w' : h_names (w_host w') = h_names (w_host w) -> w_temp w' = w_temp w -> Tracked S w w'.
Proof. intros En Et. constructor; [lia| |by rewrite En]. unfold unused. by rewrite En, Et. Qed.

(** The operation [m], run after [k] temporary names were made, changes names in
    [S] and temporary names only. *)
Definition Track {A} (k : nat) (S : Loc -> Prop) (m : Op A) : Prop := forall w r w', k <= w_temp w -> m w = (r, w') -> Tracked S w w'.
Lemma Track_same {A} k S (m : Op A) : HostSame m -> Track k S m.
Proof. intros Hm w r w' _ E. destruct (Hm _ _ _ E) as (Hh & _ & Ht). apply Tracked_same; [by rewrite Hh|done]. Qed.
Lemma Track_pure {A} k S (m : Op A) : (forall w, (m w).2 = w) -> Track k S m.
Proof. intros Hm. apply Track_same, HostSame_pure. intros w. by rewrite Hm. Qed.
Lemma Track_bind {A B} k S (m : Op A) (f : A -> Op B) : Track k S m -> (forall a, Track k S (f a)) -> Track k S (m ≫= f).
Proof.
  intros Hm Hf w r w' Hk E. apply bind_inv in E as [(a & w1 & E1 & E)|(e & E1 & _)]; [|by apply (Hm _ _ _ Hk E1)].
  pose proof (Hm _ _ _ Hk E1) as T1. eapply Tracked_trans; [exact T1|]. eapply Hf; [|exact E]. pose proof (tk_temp _ _ _ T1). lia.
Qed.
Lemma Track_if_then k S b m : Track k S m -> Track k S (if_then b m).
Proof. intros Hm. destruct b; [done|by apply Track_pure]. Qed.
Lemma Track_for {A} k S (f : A -> Op unit) l : (forall x, x ∈ l -> Track k S (f x)) -> Track k S (op_for f l).
Proof.
  intros Hf. induction l as [|x l IH]; [by apply Track_pure|]. apply Track_bind; [apply Hf, list_elem_of_here|].
  intros _. apply IH. intros y Hy. by apply Hf, list_elem_of_further.
Qed.
Lemma Track_ignore {A} k S (m : Op A) : Track k S m -> Track k S (ignore m).
Proof. intros Hm w r w' Hk E. unfold ignore in E. destruct (m w) as [x w1] eqn:E1. injection E as _ <-. by apply (Hm _ _ _ Hk E1). Qed.
Lemma Track_unless_error k S ok m : Track k S m -> Track k S (unless_error ok m).
Proof.
  intros Hm w r w' Hk E. unfold unless_error in E. destruct (m w) as [[]] eqn:E1; injection E as _ <-; by apply (Hm _ _ _ Hk E1).
Qed.
Lemma Track_on_error {A} k S (m : Op A) c : Track k S m -> Track k S c -> Track k S (on_error m c).
Proof.
  intros Hm Hc w r w' Hk E. unfold on_error in E. destruct (m w) as [[] w1] eqn:E1.
  - injection E as _ <-. by apply (Hm _ _ _ Hk E1).
  - injection E as _ <-. pose proof (Hm _ _ _ Hk E1) as T1. eapply Tracked_trans; [exact T1|].
    destruct (c w1) as [rc wc] eqn:Ec. eapply Hc; [|exact Ec]. pose proof (tk_temp _ _ _ T1). lia.
Qed.
Lemma Track_weaken {A} k k' (S S' : Loc -> Prop) (m : Op A) : k <= k' -> (forall l, S l -> S' l) -> Track k S m -> Track k' S' m.
Proof.
  intros Hk HS Hm w r w' Hw E. destruct (Hm w r w' ltac:(lia) E) as [T U N]. constructor; [done..|]. intros l Hl. apply N. auto.
Qed.
(** ** The calls of the host *)

Definition HostTrack (k : nat) (S : Loc -> Prop) (f : HostCall unit) : Prop := forall h r h', f h = (r, h') ->
  (forall j, k <= j -> unused j h -> unused j h') /\ forall l, ~ S l -> temp_free l -> h_names h' !! l = h_names h !! l.
(** A name, and a tree of names, that the calls may change. *)
Definition spot (S : Loc -> Prop) (l : Loc) : Prop := S l \/ ~ temp_free l.
Definition place (S : Loc -> Prop) (l : Loc) : Prop := forall l', under l l' -> spot S l'.
Lemma Track_call k S f : HostTrack k S f -> Track k S (call f).
Proof.
  intros Hf w r w' Hk E. apply call_cases in E as [(e & _ & ->)|(h & Eh & ->)]; [by apply Tracked_same|].
  destruct (Hf _ _ _ Eh) as [U N]. constructor; [done| |done]. intros Hu. by apply U.
Qed.
Lemma HostTrack_dir k S l f : HostTrack k S f -> HostTrack k S (in_directory l f).
Proof. intros Hf h r h' E. unfold in_directory in E. destruct (reach h l); [by eapply Hf|injection E as _ <-; by split..]. Qed.
Lemma HostTrack_insert k S l i (h : Host) : spot S l -> settled k l ->
  (forall j, k <= j -> unused j h -> unused j (set_names (<[l := i]> (h_names h)) h)) /\
  forall l', ~ S l' -> temp_free l' -> (<[l := i]> (h_names h)) !! l' = h_names h !! l'.
Proof.
  intros Hp Hs. split.
  - intros j Hj Hu l' n Hn Hjn. cbn. rewrite lookup_insert_ne; [by eapply Hu|]. intros ->. specialize (Hs n Hn). lia.
  - intros l' Hl Hf. rewrite lookup_insert_ne; [done|]. intros ->. by destruct Hp.
Qed.
Lemma HostTrack_create k S l kind perm : spot S l -> settled k l -> HostTrack k S (fs_create l kind perm).
Proof.
  intros Hp Hs. apply HostTrack_dir. intros h r h' E. destruct (h_names h !! l); injection E as _ <-; [by split|].
  by apply (HostTrack_insert k S l (fresh_ino h) h).
Qed.
Lemma HostTrack_link k S src l : spot S l -> settled k l -> HostTrack k S (fs_hard_link src l).
Proof.
  intros Hp Hs. do 2 apply HostTrack_dir. intros h r h' E.
  repeat case_match; injection E as _ <-; first [by split | by apply HostTrack_insert].
Qed.
Lemma HostTrack_shrink k S (P : Loc -> Prop) (h : Host) names : (forall l, P l -> spot S l) ->
  (forall l, names !! l = h_names h !! l \/ (P l /\ names !! l = None)) ->
  (forall j, k <= j -> unused j h -> unused j (set_names names h)) /\
  forall l, ~ S l -> temp_free l -> names !! l = h_names h !! l.
Proof.
  intros HP Hn. split.
  - intros j _ Hu l n Hl Hj. cbn. destruct (Hn l) as [->|[_ ->]]; [by eapply Hu|done].
  - intros l Hl Hf. destruct (Hn l) as [?|[HPl _]]; [done|]. by destruct (HP l HPl).
Qed.
Lemma place_spot S l : place S l -> spot S l.
Proof. intros Hp. apply Hp, under_refl. Qed.
Lemma HostTrack_delete k S l (h : Host) : spot S l ->
  (forall j, k <= j -> unused j h -> unused j (set_names (delete l (h_names h)) h)) /\
  forall l', ~ S l' -> temp_free l' -> delete l (h_names h) !! l' = h_names h !! l'.
Proof.
  intros Hp. apply (HostTrack_shrink k S (fun l' => l' = l)); [by intros ? ->|].
  intros l'. destruct (decide (l' = l)) as [->|Hne]; [right; split; [done|apply lookup_delete_eq]|left; by apply lookup_delete_ne].
Qed.
Lemma HostTrack_remove k S l (dir : bool) : spot S l -> HostTrack k S (if dir then fs_remove_dir l else fs_remove_file l).
Proof.
  intros Hp. destruct dir; apply HostTrack_dir; intros h r h' E; repeat case_match; injection E as _ <-;
    first [by split | by apply HostTrack_delete].
Qed.
Lemma HostTrack_remove_all k S l : place S l -> HostTrack k S (fs_remove_dir_all l).
Proof.
  intros Hp. apply HostTrack_dir; intros h r h' E; repeat case_match; injection E as _ <-; try by split.
  apply (HostTrack_shrink k S (under l)); [done|]. intros l'.
  destruct (decide (under l l')) as [Hu|Hu].
  - right. split; [done|]. apply map_lookup_filter_None. naive_solver.
  - left. destruct (h_names h !! l') as [i|] eqn:Ei; [by apply without_tree_Some|].
    destruct (without_tree l (h_names h) !! l') eqn:Ew; [|done]. apply without_tree_Some in Ew as [? _]. congruence.
Qed.
Lemma HostTrack_update k S l f : HostTrack k S (fs_update l f).
Proof. apply HostTrack_dir. intros h r h' E. repeat case_match; injection E as _ <-; by split. Qed.
Lemma HostTrack_moved k S src dst (h : Host) : ~ under src dst -> place S src -> place S dst -> settled k dst ->
  (forall j, k <= j -> unused j h -> unused j (moved src dst h)) /\
  forall l, ~ S l -> temp_free l -> h_names (moved src dst h) !! l = h_names h !! l.
Proof.
  intros Hu Hs Hd Hset. split.
  - intros j Hj Hun l n Hl Hjn. cbn. rewrite lookup_move_names by done. destruct (rebase dst src l) as [l0|] eqn:E.
    + apply rebase_Some in E as (s & -> & ->). unfold temp_in in Hl; cbn in Hl. apply elem_of_app in Hl as [Hl|Hl].
      * specialize (Hset n Hl). lia.
      * apply (Hun _ n); [|done]. unfold temp_in; cbn. apply elem_of_app. by right.
    + case_decide; [done|]. by eapply Hun.
  - intros l Hl Hf. cbn. rewrite lookup_move_names by done. destruct (rebase dst src l) as [l0|] eqn:E.
    + exfalso. assert (under dst l) as Hdl.
      { destruct (decide (under dst l)) as [|Hn]; [done|]. apply rebase_None with (dst := src) in Hn. congruence. }
      by destruct (Hd l Hdl).
    + case_decide as Hul; [|done]. by destruct (Hs l Hul).
Qed.
Lemma HostTrack_rename k S src dst : place S src -> place S dst -> settled k dst -> HostTrack k S (fs_rename src dst).
Proof.
  intros Hs Hd Hset. do 2 apply HostTrack_dir. intros h r h' E.
  repeat case_match; injection E as _ <-; try (by split); apply HostTrack_moved; try done; by apply (bool_decide_eq_false_1 (under src dst)).
Qed.
End Footprint.

Ltac track := repeat match goal with
  | |- Track _ _ _ (match ?p with (_, _) => _ end) => destruct p
  | |- Track _ _ _ (mbind _ _) => apply Track_bind; [|let x := fresh "x" in intros x]
  | |- Track _ _ _ (if_then _ _) => apply Track_if_then
  | |- Track _ _ _ (unless_error _ _) => apply Track_unless_error
  | |- Track _ _ _ (ignore _) => apply Track_ignore
  | |- Track _ _ _ (on_error _ _) => apply Track_on_error
  | |- Track _ _ _ (call _) => apply Track_call
  | |- HostTrack _ _ _ (fs_update _ _) => apply HostTrack_update
  | |- Track _ _ _ (op_for _ _) => apply Track_for; let y := fresh "y" in intros y ?
  | |- Track _ _ _ _ => by apply Track_pure
  end.

Section Operations.
Context (core : OverlayCore) `{AccessOps, Digest256}.
Local Abbreviation temp_of := (temp_of core).
Local Abbreviation temp_in := (temp_in core).
Local Abbreviation temp_free := (temp_free core).
Local Abbreviation settled := (settled core).
Local Abbreviation spot := (spot core).
Local Abbreviation place := (place core).
Local Abbreviation Tracked := (Tracked core).
Local Abbreviation Track := (Track core).

(** ** The operations that copy up *)

(** The names related to [rel]: above and below it in the upper. *)
Definition related (rel : Path) (l : Loc) : Prop := l.1 = Upper /\ (l.2 `prefix_of` rel \/ rel `prefix_of` l.2).
Lemma spot_prefix rel p : p `prefix_of` rel -> spot (related rel) (Upper, p).
Proof. intros Hp. left. split; [done|by left]. Qed.
Lemma place_rel rel : place (related rel) (Upper, rel).
Proof. intros l [s ->]%under_spec. left. split; [done|]. right. by exists s. Qed.
Lemma place_temp S r q n : place S (r, q ++ [temp_of n]).
Proof. intros l [s ->]%under_spec. right. intros Hf. apply (Hf n). unfold temp_in; cbn. set_solver. Qed.
Lemma related_mono p rel l : rel `prefix_of` p -> related p l -> ~ related rel l -> l.1 = Upper /\ l.2 `prefix_of` p.
Proof. intros Hp [Hu [?|Hl]] Hn; [done|]. destruct Hn. split; [done|]. right. by etrans. Qed.
Lemma related_child rel c l : related (rel ++ [c]) l -> related rel l.
Proof.
  intros [Hu [Hl|Hl]]; split; try done.
  - destruct (decide (l.2 = rel ++ [c])) as [->|Hne]; [right; by exists [c]|]. left.
    destruct Hl as [s Hs]. destruct s as [|d s _] using rev_ind; [rewrite app_nil_r in Hs; congruence|].
    rewrite app_assoc in Hs. apply app_inj_tail in Hs as [-> _]. by exists s.
  - right. etrans; [|exact Hl]. by exists [c].
Qed.

Lemma Track_copy_metadata k S source l n : Track k S (copy_metadata source l n).
Proof.
  unfold copy_metadata, copy_user_xattrs. track. destruct (_ || _); track.
Qed.
Lemma Track_metadata_resolved k S rel : Track k S (metadata_resolved core rel).
Proof. apply Track_same, HostSame_metadata_resolved. Qed.
Lemma Track_metadata k S rel : Track k S (metadata core rel).
Proof. apply Track_same, (Reads_metadata core rel). Qed.
Lemma Track_record k S rel : Track k S (record_preimage core rel).
Proof. apply Track_same, HostSame_capture. Qed.
(** The directories above [rel]. *)
Definition above (rel : Path) (l : Loc) : Prop := l.1 = Upper /\ l.2 `prefix_of` parent_of rel.
Lemma Track_ensure_dirs k (S : Loc -> Prop) at_ rest : tidy (at_ ++ rest) -> (forall p, p `prefix_of` at_ ++ rest -> S (Upper, p)) ->
  Track k S (ensure_dirs core at_ rest).
Proof.
  revert at_. induction rest as [|c rest IH]; intros at_ Ht Hp; cbn [ensure_dirs]; [by apply Track_pure|].
  assert (at_ ++ c :: rest = (at_ ++ [c]) ++ rest) as E by (by rewrite <- app_assoc). rewrite E in *.
  apply Track_bind; [|intros _; by apply IH]. unfold ensure_dir. apply Track_bind; [by apply Track_pure|]. intros [[i n]|e].
  - destruct (is_dir (i_kind n)); track.
  - destruct (bool_decide (e = ENOENT)); [|track]. apply Track_bind; [apply Track_metadata_resolved|]. intros m.
    destruct (negb _); [track|]. apply Track_bind; [apply Track_record|]. intros _. apply Track_bind; [|intros _; apply Track_copy_metadata].
    apply Track_call, HostTrack_create.
    + left. apply Hp. by exists rest.
    + apply free_settled, tidy_temp_free. by apply tidy_app in Ht as [? _].
Qed.
Lemma tidy_parent rel : tidy rel -> tidy (parent_of rel).
Proof. destruct (path_snoc_cases rel) as [->|(q & c & ->)]; [done|]. rewrite parent_of_snoc. by intros [? _]%tidy_app. Qed.
Lemma Track_ensure_parents k rel : tidy rel -> Track k (above rel) (ensure_upper_parents core rel).
Proof.
  intros Ht. apply Track_bind; [by apply Track_pure|]. intros _. apply Track_ensure_dirs; [by apply tidy_parent|].
  intros p Hp. by split.
Qed.
Lemma above_related rel l : above rel l -> related rel l.
Proof.
  intros [Hu Hp]. split; [done|]. left. destruct (path_snoc_cases rel) as [->|(q & c & ->)]; [done|].
  rewrite parent_of_snoc in Hp. transitivity q; [done|by exists [c]].
Qed.

(** A temporary name is made, and the rest of the operation uses it. *)
Lemma temporary_path_temp parent w : exists r q, temporary_path core parent w =
  (Ok (r, q ++ [temp_of (w_temp w)]), mkWorld (w_host w) (w_faults w) (w_groups w) (w_sources w) (w_preimages w) (w_synced w) (S (w_temp w)))
  /\ ((oc_has_work core = true /\ r = Work /\ q = []) \/ (r = Upper /\ q = parent)).
Proof.
  unfold temporary_path. destruct (oc_has_work core); [exists Work, []|exists Upper, parent]; (split; [done|]); [by left|by right].
Qed.
Lemma Track_temporary {A} k S parent (f : Loc -> Op A) : tidy parent ->
  (forall r q n, settled (Datatypes.S n) (r, q ++ [temp_of n]) -> k <= n -> Track (Datatypes.S n) S (f (r, q ++ [temp_of n]))) ->
  Track k S (l ← temporary_path core parent; f l).
Proof.
  intros Ht Hf w r w' Hk E. destruct (temporary_path_temp parent w) as (r0 & q & Etp & Hw).
  unfold mbind, op_bind in E. rewrite Etp in E. set (w1 := mkWorld _ _ _ _ _ _ _) in *.
  assert (Tracked S w w1) as T1.
  { constructor; [cbn; lia| |done]. intros Hu l n Hn Hle. apply (Hu l n Hn). cbn in Hle. lia. }
  eapply Tracked_trans; [exact T1|]. eapply (Hf r0 q (w_temp w)); [|done|by cbn|exact E].
  intros n Hn. unfold temp_in in Hn; cbn in Hn. apply elem_of_app in Hn as [Hn|Hn%list_elem_of_singleton].
  - assert (tidy q) as Hq by (by destruct Hw as [(_ & _ & ->)|(_ & ->)]; [constructor|]). by destruct (tidy_temp_free core r0 q Hq n).
  - apply temp_of_inj in Hn as ->. lia.
Qed.
Lemma Track_copy_object k (S : Loc -> Prop) source i n truncate r q m : settled k (r, q ++ [temp_of m]) ->
  Track k S (copy_object source i n truncate (r, q ++ [temp_of m])).
Proof.
  intros Hset. pose proof (place_spot core S _ (place_temp S r q m)) as Hsp. unfold copy_object. destruct (i_kind n).
  - apply Track_bind; [|by intros; apply Track_pure]. by apply Track_call, HostTrack_create.
  - track; [destruct (1 <? x); by apply Track_pure|]. destruct x0; track; [by apply HostTrack_link|by apply HostTrack_create|].
    destruct (truncate && _); track. by apply (HostTrack_remove core k S _ false).
  - apply Track_bind; [|by intros; apply Track_pure]. by apply Track_call, HostTrack_create.
  - apply Track_bind; [|by intros; apply Track_pure]. by apply Track_call, HostTrack_create.
Qed.
Lemma Track_copy_up k rel : tidy rel -> Track k (related rel) (copy_up core rel).
Proof.
  intros Ht. unfold copy_up, copy_up_for_open. track. destruct x0.
  { track. apply Track_record. }
  track; [apply Track_record|]. destruct (rm_is_upper x1); [track|]. apply Track_bind.
  { eapply Track_weaken; [done|apply above_related|]. by apply Track_ensure_parents. }
  intros _. unfold publish_copy. apply Track_bind; [by apply Track_pure|]. intros [i n].
  apply Track_temporary; [by apply tidy_parent|].
  intros r q m Hset Hm. set (tmp := (r, q ++ [temp_of m])) in *. assert (Hpl : place (related rel) tmp) by apply place_temp.
  pose proof (place_spot core _ _ Hpl) as Hsp. apply Track_bind; [by apply Track_copy_object|].
  intros shared. track.
  - apply Track_copy_metadata.
  - apply HostTrack_rename; [done|apply place_rel|]. by apply free_settled, tidy_temp_free.
  - by apply HostTrack_remove.
  - intros w r' w' _ E. injection E as _ <-. by apply Tracked_same.
Qed.

Lemma Track_opaque_xattr k S l names : Track k S (set_opaque_xattr l names).
Proof.
  induction names as [|name names IH]; cbn [set_opaque_xattr]; [track|].
  intros w r w' Hk E. destruct (call _ w) as [[|e] w0] eqn:Ec; assert (Tracked S w w0) as T by (eapply Track_call; [apply HostTrack_update|exact Hk|exact Ec]).
  - by injection E as _ <-.
  - destruct (ignorable_metadata_error e); [|by injection E as _ <-]. eapply Tracked_trans; [exact T|]. eapply IH; [|exact E]. pose proof (tk_temp _ _ _ _ T). lia.
Qed.
Lemma Track_mark_opaque k rel : tidy rel -> Track k (related rel) (mark_opaque rel).
Proof.
  intros Ht. apply Track_bind; [|intros _; apply Track_opaque_xattr]. unfold create_marker. track. apply HostTrack_create.
  - left. split; [done|]. right. by exists [OPAQUE_NAME].
  - apply free_settled, stage_temp_free. by apply stage_opaque.
Qed.
Lemma child_path rel c p : child rel c = Ok p -> p = rel ++ [c] /\ is_whiteout_name c = false.
Proof.
  intros E. assert (p = rel ++ [c]) as ->; [|split; [done|by apply (child_Ok rel c)]].
  unfold child in E. apply bind_Ok in E as (? & _ & E). apply bind_Ok in E as (? & _ & [= <-]). done.
Qed.
Lemma Track_materialize_n k fuel rel : tidy rel -> Track k (related rel) (materialize_tree_n core fuel rel).
Proof.
  revert rel. induction fuel as [|fuel IH]; intros rel Ht; cbn [materialize_tree_n]; [by apply Track_pure|]. track; [apply Track_metadata|].
  destruct (negb _); [by apply Track_copy_up|]. apply Track_bind; [apply Track_same, (Reads_list_names core rel)|]. intros names.
  apply Track_bind; [by apply Track_copy_up|]. intros _. apply Track_bind; [|intros _; track; by apply Track_mark_opaque].
  apply Track_for. intros name _ w r w' Hk E. apply bind_inv in E as [(c & w1 & E1 & E)|(e & E1 & _)]; injection E1 as E1 <-; [|done].
  apply child_path in E1 as [-> Hn]. assert (tidy (rel ++ [name])) as Htc by (by apply tidy_snoc).
  revert w r w' Hk E. apply (Track_weaken core k k (related (rel ++ [name])) _ _ (Nat.le_refl _) (related_child rel name)).
  track; [apply Track_metadata|]. destruct (is_dir _); [by apply IH|by apply Track_copy_up].
Qed.
Lemma Track_materialize k rel n : tidy rel -> Track k (related rel) (materialize core rel n).
Proof.
  intros Ht. unfold materialize. destruct (is_dir (i_kind n)); [|by apply Track_copy_up]. unfold materialize_tree. track.
  by apply Track_materialize_n.
Qed.
Lemma Track_create_whiteout k q c : tidy q -> plain_name c ->
  Track k (fun l => above (q ++ [c]) l \/ l = whiteout_path q c) (create_whiteout core (q ++ [c])).
Proof.
  intros Hq Hc. apply Track_bind.
  - eapply Track_weaken; [done| |apply Track_ensure_parents; apply tidy_snoc; split; [done|apply Hc]]. by left.
  - intros _ w r w' Hk E. rewrite last_snoc, parent_of_snoc in E. cbn [ok_or] in E.
    apply bind_inv in E as [(name & w1 & [= <- <-] & E)|(e & [=] & _)]. refine ((_ : Track k _ (create_marker (whiteout_path q c))) w r w' Hk E).
    unfold create_marker. track. apply HostTrack_create; [left; by right|]. apply free_settled, stage_temp_free. by apply stage_whiteout.
Qed.
Lemma Track_clear_whiteout k q c : Track k (fun l => l = whiteout_path q c) (clear_whiteout core (q ++ [c])).
Proof.
  apply Track_bind; [by apply Track_pure|]. intros _ w r w' Hk E. rewrite last_snoc, parent_of_snoc in E. cbn [ok_or] in E.
  apply bind_inv in E as [(name & w1 & [= <- <-] & E)|(e & [=] & _)].
  refine ((_ : Track k _ (unless_error _ (call (fs_remove_file (whiteout_path q c))))) w r w' Hk E). track.
  by apply (HostTrack_remove core k _ (whiteout_path q c) false); left.
Qed.

(** ** Temporary names only *)

Definition any (_ : Loc) : Prop := True.
Lemma spot_any l : spot any l.
Proof. by left. Qed.
Lemma place_any l : place any l.
Proof. intros l' _. by left. Qed.
Lemma Track_any {A} (S : Loc -> Prop) (m : Op A) : Track 0 S m -> Track 0 any m.
Proof. by apply Track_weaken. Qed.
Lemma Unused_map_groups f : Track 0 any (map_groups f).
Proof. intros w r w' _ E. injection E as _ <-. by apply Tracked_same. Qed.
Lemma Unused_rename_call k src p : tidy p -> Track k any (call (fs_rename src (Upper, p))).
Proof. intros Ht. apply Track_call, HostTrack_rename; [apply place_any..|by apply free_settled, tidy_temp_free]. Qed.
End Operations.

(** * Moving names in the upper

    The host calls of a rename and of an exchange, and what the view shows of a
    tree whose directories are all opaque. *)

Section Move.
Context (core : OverlayCore) `{AccessOps, Digest256}.
Local Abbreviation count := (oc_lowers core).
Local Abbreviation hinv := (hinv core).
Local Abbreviation inv := (inv core).
Local Abbreviation quiet := (quiet core).
Local Abbreviation OnlyIn := (OnlyIn core).

(** ** Trees that the upper alone determines *)

Definition shut (h : Host) (p : Path) : Prop :=
  forall s, plain (p ++ s) -> kind_at h (Upper, p ++ s) = Some KDir -> opaque_at h (p ++ s) = true.
Lemma sealed_shut h p : hinv h -> sealed core h p -> shut h p.
Proof. intros I S s Hp Hk. apply S; [done|]. by apply view_of_upper. Qed.
Lemma shut_view h p s : hinv h -> shut h p -> is_Some (kind_at h (Upper, p)) -> plain (p ++ s) ->
  view count h (p ++ s) = kind_at h (Upper, p ++ s).
Proof.
  intros I S [k0 Hk0]. induction s as [|c s IH] using rev_ind; intros Hp.
  { rewrite app_nil_r. rewrite Hk0. by apply view_of_upper. }
  destruct (kind_at h (Upper, p ++ s ++ [c])) as [k|] eqn:Ek; [by apply view_of_upper|].
  rewrite app_assoc in *. pose proof Hp as [Hps Hc]%plain_snoc. rewrite view_snoc, IH by done. case_decide as Hd; [|done].
  rewrite (entry_unfold core), Ek. unfold hidden. rewrite bool_decide_eq_true_2 by done. rewrite (S s Hps Hd). by rewrite orb_true_r.
Qed.
Lemma shut_sealed h p : hinv h -> shut h p -> is_Some (kind_at h (Upper, p)) -> sealed core h p.
Proof. intros I S Hs0 s Hp Hv. rewrite shut_view in Hv by done. split; [done|]. by apply S. Qed.
Lemma kind_look h h' l l' : look h' l' = look h l -> kind_at h' l' = kind_at h l.
Proof. unfold look, kind_at. destruct (node h' l'), (node h l); cbn; congruence. Qed.
Lemma opaque_looks h h' p p' : look h' (Upper, p') = look h (Upper, p) ->
  look h' (Upper, p' ++ [OPAQUE_NAME]) = look h (Upper, p ++ [OPAQUE_NAME]) -> opaque_at h' p' = opaque_at h p.
Proof.
  intros L1 L2. unfold opaque_at. rewrite (kind_look _ _ _ _ L2). f_equal. unfold look in L1.
  destruct (node h' (Upper, p')), (node h (Upper, p)); cbn in *; congruence.
Qed.
(** A tree that looks the same elsewhere is as closed there. *)
Lemma shut_moved h h' p p' : plain p -> shut h p ->
  (forall s, look h' (Upper, p' ++ s) = look h (Upper, p ++ s)) -> shut h' p'.
Proof.
  intros Hp S Hl s [_ Hs]%plain_app Hk. rewrite (kind_look _ _ _ _ (Hl s)) in Hk.
  rewrite (opaque_looks h h' (p ++ s)); [apply S; [by apply plain_app|done]|apply Hl|]. rewrite <- !app_assoc. apply Hl.
Qed.

(** ** Steps of the host *)

Record hstep (P : Loc -> Prop) (h h' : Host) : Prop := mkHstep {
  hs_inv : hinv h';
  hs_escaped : h_escaped h' = h_escaped h;
  hs_lower i p : h_names h' !! (Lower i, p) = h_names h !! (Lower i, p) /\ node h' (Lower i, p) = node h (Lower i, p);
  hs_look l : ~ P l -> look h' l = look h l
}.
Lemma hstep_refl P h : hinv h -> hstep P h h.
Proof. by intros I. Qed.
Lemma hstep_trans P h1 h2 h3 : hstep P h1 h2 -> hstep P h2 h3 -> hstep P h1 h3.
Proof.
  intros S1 S2. constructor; [apply S2|rewrite (hs_escaped _ _ _ S2); apply S1| |].
  - intros i p. destruct (hs_lower _ _ _ S1 i p) as [<- <-]. apply (hs_lower _ _ _ S2 i p).
  - intros l Hl. rewrite (hs_look _ _ _ S2) by done. by apply S1.
Qed.
Lemma hstep_weaken (P Q : Loc -> Prop) h h' : hstep P h h' -> (forall l, P l -> Q l) -> hstep Q h h'.
Proof. intros S HP. constructor; [apply S..|]. intros l Hl. apply S. auto. Qed.
Lemma hstep_only P w w' : OnlyIn P w w' -> hstep P (w_host w) (w_host w').
Proof. intros O. constructor; [apply O|apply O|apply O|apply O]. Qed.

Lemma hstep_inode P h h' l i n : hstep P h h' -> is_lower l -> h_names h !! l = Some i -> h_inodes h !! i = Some n ->
  h_names h' !! l = Some i /\ h_inodes h' !! i = Some n.
Proof.
  intros S Hl Hi Hn. destruct l as [[| j |] q]; try done. destruct (hs_lower _ _ _ S j q) as [Ha Hb]. rewrite Ha. split; [done|].
  assert (node h' (Lower j, q) = Some n) as (i' & Hi' & ?)%node_Some by (rewrite Hb; apply node_Some; eauto). congruence.
Qed.

Lemma rooted_kinds h h' : rooted core h -> (forall r, kind_at h' (r, []) = kind_at h (r, [])) -> rooted core h'.
Proof. intros [R1 R2 R3] Hk. constructor; [|intros i ?|intros ?]; rewrite Hk; auto. Qed.
Lemma not_under_root r (q : Path) c r' : ~ under (r, q ++ [c]) (r', []).
Proof. intros [s E]%under_spec. injection E as _ E. by destruct q. Qed.
Lemma not_lower_of r q p : ~ is_lower (r, q) -> ~ is_lower (r, p).
Proof. done. Qed.

Lemma moved_step h r1 (q1 : Path) c1 r2 (q2 : Path) c2 : hinv h -> ~ is_lower (r1, q1) -> ~ is_lower (r2, q2) ->
  kind_at h (r2, q2) = Some KDir -> ~ under (r1, q1 ++ [c1]) (r2, q2 ++ [c2]) ->
  hstep (fun l => under (r1, q1 ++ [c1]) l \/ under (r2, q2 ++ [c2]) l) h (moved (r1, q1 ++ [c1]) (r2, q2 ++ [c2]) h).
Proof.
  intros I L1 L2 Hd Hu. set (src := (r1, q1 ++ [c1])) in *. set (dst := (r2, q2 ++ [c2])) in *.
  assert (forall l, ~ (under src l \/ under dst l) -> node (moved src dst h) l = node h l) as Hn.
  { intros l Hl. rewrite node_moved by done. replace (rebase dst src l) with (@None Loc); [|symmetry; apply rebase_None; tauto].
    rewrite decide_False; [done|tauto]. }
  constructor; [constructor|done|by apply moved_lower|].
  - apply wf_moved; [apply I|done|done].
  - apply (rooted_kinds h); [apply I|]. intros r. unfold kind_at. rewrite Hn; [done|]. intros [?|?]; by eapply not_under_root.
  - by apply apart_moved; [apply I|..].
  - intros l Hl. unfold look. by rewrite Hn.
Qed.
Lemma look_moved_to h src dst s : ~ under src dst -> look (moved src dst h) (dst.1, dst.2 ++ s) = look h (src.1, src.2 ++ s).
Proof.
  intros Hu. unfold look. rewrite node_moved by done. replace (rebase dst src (dst.1, dst.2 ++ s)) with (Some (src.1, src.2 ++ s)); [done|].
  symmetry. apply rebase_Some. by exists s.
Qed.
Lemma look_moved_from h src dst l : ~ under src dst -> ~ under dst l -> under src l -> look (moved src dst h) l = None.
Proof.
  intros Hu Hd Hs. unfold look. rewrite node_moved by done. apply rebase_None with (dst := src) in Hd. rewrite Hd. by rewrite decide_True.
Qed.
(** What a rename of the host does when both directories are there. *)
Lemma fs_rename_cases h r1 (q1 : Path) c1 r2 (q2 : Path) c2 res h' : hinv h ->
  kind_at h (r1, q1) = Some KDir -> kind_at h (r2, q2) = Some KDir ->
  fs_rename (r1, q1 ++ [c1]) (r2, q2 ++ [c2]) h = (res, h') ->
  match res with
  | Err _ => h' = h
  | Ok _ => (h' = moved (r1, q1 ++ [c1]) (r2, q2 ++ [c2]) h /\ ~ under (r1, q1 ++ [c1]) (r2, q2 ++ [c2])) \/
            (h' = h /\ is_Some (h_names h !! (r2, q2 ++ [c2])))
  end.
Proof.
  intros I D1 D2 E. pose proof (hinv_wf _ _ I) as W. unfold fs_rename, in_directory in E.
  rewrite (proj2 (reach_ok h r1 q1 c1 W) D1), (proj2 (reach_ok h r2 q2 c2 W) D2) in E.
  destruct (h_names h !! (r1, q1 ++ [c1])) as [i|] eqn:E1; [|by injection E as <- <-].
  destruct (kind_at h (r1, q1 ++ [c1])) as [k|]; [|by injection E as <- <-].
  case_bool_decide as Hs; [injection E as <- <-; right; split; [done|]; injection Hs as <- Hs; rewrite <- Hs; by eexists|].
  case_bool_decide as Hu; [by injection E as <- <-|].
  destruct (h_names h !! (r2, q2 ++ [c2])) as [j|]; [|injection E as <- <-; by left].
  destruct (kind_at h (r2, q2 ++ [c2])) as [k'|]; [|injection E as <- <-; by left].
  case_bool_decide; [injection E as <- <-; right; split; [done|by eexists]|].
  destruct (is_dir k), (is_dir k'); [case_bool_decide|..]; injection E as <- <-; try done; by left.
Qed.
Lemma remove_step h r (q : Path) c (dir : bool) : hinv h -> ~ is_lower (r, q) -> kind_at h (r, q) = Some KDir ->
  hstep (under (r, q ++ [c])) h ((if dir then fs_remove_dir_all (r, q ++ [c]) else fs_remove_file (r, q ++ [c])) h).2.
Proof.
  intros I Hl Hd. pose proof (hinv_wf _ _ I) as W. set (l := (r, q ++ [c])).
  assert (forall names, wf (set_names names h) -> (forall l', names !! l' = h_names h !! l' \/ (under l l' /\ names !! l' = None)) ->
            hstep (under l) h (set_names names h)) as Hshrink.
  { intros names Wn Hn. assert (forall l', ~ under l l' -> names !! l' = h_names h !! l') as Hsame by (intros l' Hu; destruct (Hn l') as [?|[? _]]; done).
    assert (forall l', ~ under l l' -> node (set_names names h) l' = node h l') as Hnode by (intros l' Hu; rewrite node_set_names, Hsame; done).
    assert (forall i p, ~ under l (Lower i, p)) as Hlow by (intros i p; by apply lower_not_under).
    constructor; [constructor; [done| |]|done|intros i p; split; [by apply Hsame|by apply Hnode]|intros l' Hu; unfold look; by rewrite Hnode].
    - apply (rooted_kinds h); [apply I|]. intros r'. unfold kind_at. rewrite Hnode; [done|apply not_under_root].
    - intros l1 l2 i H1 H2 Hlw. cbn in H1, H2. assert (forall l', names !! l' = Some i -> h_names h !! l' = Some i) as Hm.
      { intros l' Hi. destruct (Hn l') as [<-|[_ ?]]; [done|congruence]. }
      by apply (hinv_apart _ _ I l1 l2 i); [apply Hm|apply Hm|]. }
  destruct dir; unfold fs_remove_dir_all, fs_remove_file, in_directory; unfold l at 1 2; rewrite (proj2 (reach_ok h r q c W) Hd); fold l;
    destruct (kind_at h l) as [k|] eqn:Ek; try by apply hstep_refl.
  - destruct k; try by apply hstep_refl. apply Hshrink; [by apply wf_without_tree|]. intros l'.
    destruct (decide (under l l')) as [Hu|Hu]; [right; split; [done|apply map_lookup_filter_None; naive_solver]|left].
    destruct (h_names h !! l') as [i|] eqn:Ei; [by apply without_tree_Some|].
    destruct (without_tree l (h_names h) !! l') eqn:Ew; [|done]. apply without_tree_Some in Ew as [? _]. congruence.
  - assert (k <> KDir -> hstep (under l) h (set_names (delete l (h_names h)) h)) as Hdel; [|by destruct k; [apply hstep_refl|apply Hdel..]].
    intros Hk. apply Hshrink.
    + apply wf_delete; [done|]. intros d. destruct (h_names h !! (r, (q ++ [c]) ++ [d])) eqn:Ed; [|done]. destruct Hk.
      assert (kind_at h (r, q ++ [c]) = Some KDir) as Hkd by (apply (wf_parents _ W r (q ++ [c]) d); by rewrite Ed; eexists).
      unfold l in Ek. congruence.
    + intros l'. destruct (decide (l' = l)) as [->|Hne]; [right; split; [apply under_refl|apply lookup_delete_eq]|left; by apply lookup_delete_ne].
Qed.
(** Whatever its outcome, a rename of the host changes the two trees only. *)
Lemma rename_step h r1 (q1 : Path) c1 r2 (q2 : Path) c2 : hinv h -> ~ is_lower (r1, q1) -> ~ is_lower (r2, q2) ->
  kind_at h (r1, q1) = Some KDir -> kind_at h (r2, q2) = Some KDir ->
  hstep (fun l => under (r1, q1 ++ [c1]) l \/ under (r2, q2 ++ [c2]) l) h (fs_rename (r1, q1 ++ [c1]) (r2, q2 ++ [c2]) h).2.
Proof.
  intros I L1 L2 D1 D2. destruct (fs_rename _ _ h) as [res h'] eqn:E. pose proof (fs_rename_cases h r1 q1 c1 r2 q2 c2 res h' I D1 D2 E) as Hc.
  cbn [snd]. destruct res; [destruct Hc as [[-> Hu]|[-> _]]|subst h']; [by apply moved_step|by apply hstep_refl..].
Qed.

(** A step of a whole world: its groups may no longer agree. *)
Record wstep (P : Loc -> Prop) (w w' : World) : Prop := mkWstep {
  ws_host : hstep P (w_host w) (w_host w');
  ws_pre : w_preimages w' = w_preimages w
}.
Lemma wstep_refl P w : hinv (w_host w) -> wstep P w w.
Proof. intros I. split; [by apply hstep_refl|done]. Qed.
Lemma wstep_trans P w1 w2 w3 : wstep P w1 w2 -> wstep P w2 w3 -> wstep P w1 w3.
Proof. intros [S1 P1] [S2 P2]. split; [by eapply hstep_trans|congruence]. Qed.
Lemma wstep_call (P : Loc -> Prop) f w : hinv (w_host w) -> hstep P (w_host w) (f (w_host w)).2 -> wstep P w (call f w).2.
Proof.
  intros I S. destruct (call f w) as [r w'] eqn:E. apply call_cases in E as [(e & _ & ->)|(h & Eh & ->)]; [split; [by apply hstep_refl|done]|].
  rewrite Eh in S. by split.
Qed.
Lemma wstep_ignore {A} P (m : Op A) w : wstep P w (m w).2 -> wstep P w (ignore m w).2.
Proof. unfold ignore. by destruct (m w). Qed.
Lemma wstep_unless P ok m w : wstep P w (m w).2 -> wstep P w (unless_error ok m w).2.
Proof. unfold unless_error. by destruct (m w) as [[] ?]. Qed.
Lemma wstep_on_error {A} P (m : Op A) c w : wstep P w (m w).2 -> (forall w', wstep P w w' -> wstep P w' (c w').2) -> wstep P w (on_error m c w).2.
Proof.
  unfold on_error. destruct (m w) as [[a|e] w1]; cbn [snd]; intros S Hc; [done|]. eapply wstep_trans; [exact S|by apply Hc].
Qed.
Lemma wstep_bind {A B} P (m : Op A) (k : A -> Op B) w : wstep P w (m w).2 ->
  (forall a w', m w = (Ok a, w') -> wstep P w w' -> wstep P w' (k a w').2) -> wstep P w ((m ≫= k) w).2.
Proof.
  intros S Hk. unfold mbind, op_bind. destruct (m w) as [[a|e] w1] eqn:E; cbn [snd] in *; [|done].
  eapply wstep_trans; [exact S|]. by apply Hk.
Qed.
End Move.
