(* ===== verification/OverlayRename.v ===== *)
(** * Renaming

    A rename that succeeds moves what shows at the old name to the new one, with
    everything below it, and shows nothing else differently. *)
From stdpp Require Import base tactics list strings gmap pretty.
From Stdlib Require Import ZArith Lia Ascii.
From S2P Require Import Prelude RustStr FileAccess HostFs HostFsFacts Overlay OverlayView OverlayQuiet OverlayCopy OverlayCopyUp OverlayCreate OverlayRemove OverlayList OverlayFootprint.
Local Open Scope nat_scope.

Lemma call_Ok f w u w' : call f w = (Ok u, w') -> exists h, f (w_host w) = (Ok u, h) /\ w' = set_host h (drop_fault w).
Proof. intros E. by apply call_cases in E as [(e & [=] & _)|E]. Qed.
Lemma on_error_Ok {A} (m : Op A) c w a w' : on_error m c w = (Ok a, w') -> m w = (Ok a, w').
Proof. unfold on_error. destruct (m w) as [[] ?]; [done|by intros [=]]. Qed.

Section Rename.
Context (core : OverlayCore) `{AccessOps, Digest256, Laws : !AccessLaws}.
Local Abbreviation count := (oc_lowers core).
Local Abbreviation hinv := (hinv core).
Local Abbreviation inv := (inv core).
Local Abbreviation quiet := (quiet core).
Local Abbreviation hstep := (hstep core).
Local Abbreviation OnlyIn := (OnlyIn core).
Local Abbreviation unused := (unused core).
Local Abbreviation temp_free := (temp_free core).

Lemma temp_dir h r (q : Path) : hinv h -> (oc_has_work core = true /\ r = Work /\ q = []) \/ (r = Upper /\ q = []) ->
  q = [] /\ ~ is_lower (r, q) /\ kind_at h (r, q) = Some KDir.
Proof.
  intros I [(Hw & -> & ->)|(-> & ->)]; (split_and!; [done|by intros []|]).
  - by apply (rooted_work core _ (hinv_rooted _ _ I)).
  - apply (rooted_upper core _ (hinv_rooted _ _ I)).
Qed.
Lemma temp_not_under r n (p s : Path) x : tidy (p ++ [x]) -> ~ under (r, [temp_of core n]) (Upper, (p ++ [x]) ++ s).
Proof.
  intros Ht [s' [= _ E]]%under_spec. destruct p as [|y p]; cbn in E; injection E as E1 _;
    (apply (tidy_temp_free core Upper _ Ht n); unfold temp_in; cbn; rewrite <- E1; apply elem_of_cons; by left).
Qed.
Lemma not_under_temp r n (p s : Path) x : tidy (p ++ [x]) -> ~ under (Upper, p ++ [x]) (r, temp_of core n :: s).
Proof.
  intros Ht [s' [= _ E]]%under_spec. destruct p as [|y p]; cbn in E; injection E as E1 _;
    (apply (tidy_temp_free core Upper _ Ht n); unfold temp_in; cbn; rewrite E1; apply elem_of_cons; by left).
Qed.

Lemma apart_app (p q s s' : Path) : ~ under (Upper, p) (Upper, q) -> ~ under (Upper, q) (Upper, p) -> p ++ s <> q ++ s'.
Proof.
  intros Hp Hq E. destruct (prefix_weak_total p q (p ++ s)) as [[x ->]|[x ->]]; [by exists s|rewrite E; by exists s'|..].
  - apply Hp, under_spec. eauto.
  - apply Hq, under_spec. eauto.
Qed.

Lemma under_marker (p a : Path) b : tidy p -> under (Upper, p) (whiteout_path a b) -> exists s, a = p ++ s.
Proof.
  intros Ht [s [= E]]%under_spec. destruct s as [|x s _] using rev_ind.
  - rewrite app_nil_r in E. rewrite <- E in Ht. apply tidy_snoc in Ht as [_ Ht]. by rewrite whiteout_is_marker in Ht.
  - rewrite app_assoc in E. apply app_inj_tail in E as [-> _]. by exists s.
Qed.

(** After a failure nothing shows differently outside the given paths, and
    nothing but the upper and the work directory has changed. *)
Record Confined (rels : list Path) (w w' : World) : Prop := mkConfined {
  cf_host : hinv (w_host w');
  cf_escaped : h_escaped (w_host w') = h_escaped (w_host w);
  cf_lower i p : node (w_host w') (Lower i, p) = node (w_host w) (Lower i, p);
  cf_view p : plain p -> ~ below rels p -> view count (w_host w') p = view count (w_host w) p;
  cf_pre p f : w_preimages w !! p = Some f -> w_preimages w' !! p = Some f
}.
Lemma Confined_outside rels rels' w w' : Outside core rels w w' -> (forall p, below rels p -> below rels' p) -> Confined rels' w w'.
Proof. intros [I E L V P] Hb. constructor; [apply I|done..| |done]. intros p Hp Hn. apply V; [done|]. auto. Qed.
Lemma Confined_quiet rels w w' : quiet w w' -> Confined rels w w'.
Proof. intros Q. by apply (Confined_outside rels); [apply (Outside_quiet core)|]. Qed.
Lemma Confined_trans rels w1 w2 w3 : Confined rels w1 w2 -> Confined rels w2 w3 -> Confined rels w1 w3.
Proof.
  intros [I1 E1 L1 V1 P1] [I2 E2 L2 V2 P2]. constructor; [done|congruence| | |eauto].
  - intros i p. by rewrite L2, L1.
  - intros p Hp Hb. by rewrite V2, V1.
Qed.
Lemma below_one (p : Path) (rels : list Path) rel : rel ∈ rels -> below [rel] p -> below rels p.
Proof. intros Hin (r & s & ->%list_elem_of_singleton & ->). exists rel, s. done. Qed.

Section Publish.
Context (qo qn : Path) (co cn : string).
Local Abbreviation old := (qo ++ [co]).
Local Abbreviation new := (qn ++ [cn]).
Context (Ho : tidy old) (Hn : tidy new) (Hon : ~ under (Upper, old) (Upper, new)) (Hno : ~ under (Upper, new) (Upper, old)).

Definition replacing (l : Loc) : Prop := under (Upper, old) l \/ under (Upper, new) l \/ ~ temp_free l.

(** The move itself, once the new name is free. *)
Lemma move_into h h' : hinv h -> is_Some (kind_at h (Upper, old)) -> kind_at h (Upper, qn) = Some KDir ->
  h_names h !! (Upper, new) = None -> fs_rename (Upper, old) (Upper, new) h = (Ok tt, h') ->
  hstep replacing h h' /\ (forall s, look h' (Upper, new ++ s) = look h (Upper, old ++ s)) /\ (forall s, look h' (Upper, old ++ s) = None).
Proof.
  intros I [k Hk] Hd Hfree E. pose proof (wf_parent_dir h Upper qo co k (hinv_wf _ _ I) Hk) as Hdo.
  destruct (fs_rename_cases core h Upper qo co Upper qn cn _ _ I Hdo Hd E) as [[-> _]|[_ [x Hx]]]; [|congruence]. split_and!.
  - eapply hstep_weaken; [apply moved_step; try done; by intros []|]. unfold replacing. tauto.
  - intros s. by apply (look_moved_to h (Upper, old) (Upper, new) s).
  - intros s. apply look_moved_from; [done| |apply under_spec; by exists s].
    intros [s' [= Es]]%under_spec. by apply apart_app in Es.
Qed.

(** A name is set aside under a temporary name that nothing uses. *)
Lemma set_aside h r n h' : hinv h -> kind_at h (r, []) = Some KDir -> ~ is_lower (r, []) -> is_Some (kind_at h (Upper, new)) ->
  h_names h !! (r, [temp_of core n]) = None -> fs_rename (Upper, new) (r, [temp_of core n]) h = (Ok tt, h') ->
  hstep replacing h h' /\ (forall s, look h' (Upper, old ++ s) = look h (Upper, old ++ s)) /\
  h_names h' !! (Upper, new) = None /\ kind_at h' (Upper, qn) = kind_at h (Upper, qn).
Proof.
  intros I Hd Hl [k Hk] Hfree E. pose proof (wf_parent_dir h Upper qn cn k (hinv_wf _ _ I) Hk) as Hdn.
  destruct (fs_rename_cases core h Upper qn cn r [] (temp_of core n) (Ok tt) h' I Hdn Hd E) as [[-> Hu]|[_ [x Hx]]]; [|change (h_names h !! (r, [temp_of core n]) = Some x) in Hx; congruence].
  pose proof (moved_step core h Upper qn cn r [] (temp_of core n) I ltac:(by intros []) Hl Hd Hu) as S. cbn [app] in *.
  assert (forall p x s, tidy (p ++ [x]) -> ~ under (Upper, new) (Upper, (p ++ [x]) ++ s) ->
            look (moved (Upper, new) (r, [temp_of core n]) h) (Upper, (p ++ [x]) ++ s) = look h (Upper, (p ++ [x]) ++ s)) as Hsame.
  { intros p x s Ht Hnu. apply (hs_look _ _ _ _ S). intros [?|?]; [done|]. by eapply temp_not_under. }
  split_and!.
  - eapply hstep_weaken; [exact S|]. intros l [?|Hun]; [right; by left|right; right]. intros Hf.
    apply under_spec in Hun as [s ->]. apply (Hf n). unfold temp_in; cbn. apply elem_of_cons. by left.
  - intros s. apply Hsame; [done|]. intros [s' [= Es]]%under_spec. by apply apart_app in Es.
  - cbn. rewrite lookup_move_names by done. replace (rebase _ _ _) with (@None Loc); [by rewrite decide_True by apply under_refl|].
    symmetry. apply rebase_None. pose proof (temp_not_under r n qn [] cn Hn) as Ht. by rewrite app_nil_r in Ht.
  - destruct (path_snoc_cases qn) as [->|(a & b & ->)].
    + rewrite (rooted_upper core _ (hinv_rooted _ _ (hs_inv _ _ _ _ S))). symmetry. apply (rooted_upper core _ (hinv_rooted _ _ I)).
    + pose proof (Hsame a b []) as Hq. rewrite app_nil_r in Hq. apply kind_of_look, Hq; [by apply tidy_app in Hn as [? _]|].
      intros [s [= Es]]%under_spec. apply (f_equal length) in Es. rewrite !length_app in Es. cbn in Es. lia.
Qed.
Lemma remove_aside r n w x w' : hinv (w_host w) -> kind_at (w_host w) (r, []) = Some KDir -> ~ is_lower (r, []) ->
  ignore (remove_physical (r, [temp_of core n])) w = (x, w') ->
  x = Ok tt /\ hstep (under (r, [temp_of core n])) (w_host w) (w_host w') /\ w_groups w' = w_groups w /\ w_preimages w' = w_preimages w.
Proof.
  intros I Hd Hl E. unfold ignore in E. destruct (remove_physical _ w) as [y w1] eqn:E1. injection E as <- <-.
  split; [done|]. apply bind_inv in E1 as [([i m] & w2 & E2 & E1)|(e & E2 & _)]; injection E2 as _ <-;
    [|split_and!; [by apply hstep_refl|done..]].
  apply call_cases in E1 as [(e & _ & ->)|(h & Eh & ->)]; (split_and!; [|done..]); [by apply hstep_refl|].
  pose proof (remove_step core (w_host w) r [] (temp_of core n) (is_dir (i_kind m)) I Hl Hd) as S. cbn [app] in S.
  cbn. by rewrite Eh in S.
Qed.

Lemma publish_rename_ok replaced whiteout w w' : hinv (w_host w) -> unused (w_temp w) (w_host w) ->
  is_Some (kind_at (w_host w) (Upper, old)) -> kind_at (w_host w) (Upper, qn) = Some KDir ->
  match replaced with None => h_names (w_host w) !! (Upper, new) = None | Some d => d = (Upper, new) end ->
  publish_rename core (Upper, old) old new replaced whiteout w = (Ok tt, w') ->
  hstep replacing (w_host w) (w_host w') /\ w_groups w' = w_groups w /\ w_preimages w' = w_preimages w /\
  (forall s, look (w_host w') (Upper, new ++ s) = look (w_host w) (Upper, old ++ s)) /\
  (forall s, look (w_host w') (Upper, old ++ s) = None).
Proof.
  intros I Hun Hk Hd Hrep E. unfold publish_rename in E. destruct replaced as [d|].
  - subst d. destruct (temporary_path_temp core [] w) as (r & q & Etp & Hw).
    apply bind_inv in E as [(backup & w1 & E1 & E)|(e & _ & [=])].
    apply bind_inv in E1 as [(l & w1' & Et & [= <- <-])|(e & _ & [=])]. rewrite Etp in Et. injection Et as <- <-.
    destruct (temp_dir _ r q I Hw) as (-> & Hl & Hdt). cbn [app] in E. set (w1 := mkWorld _ _ _ _ _ _ _) in E.
    apply bind_inv in E as [([] & w2 & E2 & E)|(e & _ & [=])]. apply on_error_Ok, call_Ok in E2 as (h2 & Eh2 & ->).
    change (w_host w1) with (w_host w) in Eh2.
    assert (is_Some (kind_at (w_host w) (Upper, new))) as Hkn.
    { destruct (kind_at (w_host w) (Upper, new)) as [kn|] eqn:Ekn; [by eexists|]. exfalso.
      pose proof (hinv_wf _ _ I) as W. unfold fs_rename, in_directory in Eh2. rewrite (proj2 (reach_ok _ Upper qn cn W) Hd) in Eh2.
      destruct (reach (w_host w) (r, [temp_of core (w_temp w)])) eqn:Er; try done.
      - rewrite Ekn in Eh2. by destruct (h_names (w_host w) !! (Upper, new)).
      - pose proof (proj2 (reach_ok (w_host w) r [] (temp_of core (w_temp w)) W) Hdt) as Er2. cbn [app] in Er2. congruence. }
    assert (h_names (w_host w) !! (r, [temp_of core (w_temp w)]) = None) as Hfree.
    { apply (Hun _ (w_temp w)); [|done]. unfold temp_in; cbn. apply elem_of_cons. by left. }
    destruct (set_aside _ r (w_temp w) h2 I Hdt Hl Hkn Hfree Eh2) as (S2 & L2 & N2 & D2).
    apply bind_inv in E as [([] & w3 & E3 & E)|(e & _ & [=])]. apply on_error_Ok, call_Ok in E3 as (h3 & Eh3 & ->).
    cbn [w_host set_host] in Eh3.
    assert (is_Some (kind_at h2 (Upper, old))) as Hk2.
    { pose proof (L2 []) as L. rewrite app_nil_r in L. by rewrite (kind_of_look _ _ _ L). }
    rewrite Hd in D2. destruct (move_into h2 h3 (hs_inv _ _ _ _ S2) Hk2 D2 N2 Eh3) as (S3 & L3 & O3).
    pose proof (hs_inv _ _ _ _ S3) as I3. destruct (temp_dir h3 r [] I3 Hw) as (_ & _ & Hdt3).
    destruct (remove_aside r (w_temp w) (set_host h3 _) _ _ I3 Hdt3 Hl E) as (_ & S4 & G4 & P4). cbn [w_host set_host] in S4.
    assert (forall p x s, tidy (p ++ [x]) -> look (w_host w') (Upper, (p ++ [x]) ++ s) = look h3 (Upper, (p ++ [x]) ++ s)) as L4.
    { intros p x s Ht. apply (hs_look _ _ _ _ S4). by apply temp_not_under. }
    split_and!; [|done|done|intros s; rewrite L4, L3 by done; apply L2|intros s; rewrite L4 by done; apply O3].
    eapply hstep_trans; [exact S2|]. eapply hstep_trans; [exact S3|]. eapply hstep_weaken; [exact S4|].
    intros l [s ->]%under_spec. right; right. intros Hf. apply (Hf (w_temp w)). unfold temp_in; cbn. apply elem_of_cons. by left.
  - apply bind_inv in E as [(backup & w1 & [= <- <-] & E)|(e & _ & [=])].
    apply bind_inv in E as [([] & w1 & [= <-] & E)|(e & _ & [=])].
    apply bind_inv in E as [([] & w3 & E3 & E)|(e & _ & [=])]. apply on_error_Ok, call_Ok in E3 as (h3 & Eh3 & ->).
    injection E as <-. cbn [w_host set_host]. destruct (move_into _ h3 I Hk Hd Hrep Eh3) as (S3 & L3 & O3). done.
Qed.

(** ** Renames that fail *)

(** The names that a rename can change, with the whiteout it makes. *)
Definition moving (l : Loc) : Prop := replacing l \/ under (whiteout_path qo co) l.
Definition kept (h : Host) : Prop := kind_at h (Upper, qo) = Some KDir /\ kind_at h (Upper, qn) = Some KDir.
Lemma not_below_marker (q p : Path) c : tidy p -> ~ under (whiteout_path q c) (Upper, p).
Proof.
  intros Ht [s [= ->]]%under_spec. apply tidy_app in Ht as [[_ Ht]%tidy_snoc _]. by rewrite whiteout_is_marker in Ht.
Qed.
Lemma parent_short (q : Path) c : ~ under (Upper, q ++ [c]) (Upper, q).
Proof. intros [s [= E]]%under_spec. apply (f_equal length) in E. rewrite !length_app in E. cbn in E. lia. Qed.
Lemma parent_off (p q : Path) c : ~ under (Upper, p) (Upper, q ++ [c]) -> ~ under (Upper, p) (Upper, q).
Proof. intros Hpq [s [= ->]]%under_spec. apply Hpq, under_spec. exists (s ++ [c]). by rewrite app_assoc. Qed.
Lemma moving_kept h h' : hstep moving h h' -> kept h -> kept h'.
Proof.
  pose proof (proj1 (proj1 (tidy_app _ _) Ho)) as Tqo. pose proof (proj1 (proj1 (tidy_app _ _) Hn)) as Tqn.
  intros S [K1 K2]. split; (rewrite (kind_of_look h); [done|]; apply (hs_look _ _ _ _ S); intros [[Hu|[Hu|Hu]]|Hu]; revert Hu).
  - apply parent_short.
  - by eapply parent_off.
  - intros Hu. by apply Hu, tidy_temp_free.
  - by apply not_below_marker.
  - by eapply parent_off.
  - apply parent_short.
  - intros Hu. by apply Hu, tidy_temp_free.
  - by apply not_below_marker.
Qed.
Local Abbreviation wstep := (wstep core).

Lemma clear_step w : hinv (w_host w) -> kept (w_host w) -> wstep moving w (clear_whiteout core old w).2.
Proof.
  intros I [K1 _]. unfold clear_whiteout. rewrite last_snoc, parent_of_snoc.
  apply wstep_bind; [by apply wstep_refl|]. intros [] w1 [= _ <-] _.
  apply wstep_bind; [by apply wstep_refl|]. intros name w1 [= <- <-] _.
  apply wstep_unless, wstep_call; [done|]. eapply hstep_weaken; [apply (remove_step core (w_host w) Upper qo _ false I); [by intros []|done]|].
  intros l Hl. by right.
Qed.
Lemma undo_step (b : bool) w : hinv (w_host w) -> kept (w_host w) -> wstep moving w (if_then b (ignore (clear_whiteout core old)) w).2.
Proof. intros I K. destruct b; [by apply wstep_ignore, clear_step|by apply wstep_refl]. Qed.
Lemma under_temp_moving r n l : under (r, [temp_of core n]) l -> moving l.
Proof.
  intros [s ->]%under_spec. left. right. right. intros Hf. apply (Hf n). unfold temp_in; cbn. apply elem_of_cons. by left.
Qed.

(** Whatever becomes of the last part of a rename, it changes these names only. *)
Lemma publish_rename_step replaced whiteout w : hinv (w_host w) -> kept (w_host w) -> from_option (fun d => d = (Upper, new)) True replaced ->
  wstep moving w (publish_rename core (Upper, old) old new replaced whiteout w).2.
Proof.
  intros I K Hrep. assert (forall w1, wstep moving w w1 -> hinv (w_host w1) /\ kept (w_host w1)) as Hthen.
  { intros w1 S1. split; [apply S1|]. by eapply moving_kept; [apply S1|]. }
  assert (forall w1, wstep moving w w1 -> wstep moving w1 (call (fs_rename (Upper, old) (Upper, new)) w1).2) as Hmove.
  { intros w1 S1. destruct (Hthen w1 S1) as [I1 [K1 K2]]. apply wstep_call; [done|].
    eapply hstep_weaken; [apply rename_step; try done; by intros []|]. intros l [Hl|Hl]; left; [by left|right; by left]. }
  unfold publish_rename. destruct replaced as [d|].
  - cbn in Hrep. subst d. destruct (temporary_path_temp core [] w) as (r & q & Etp & Hw).
    destruct (temp_dir _ r q I Hw) as (-> & Hl & _). cbn [app] in Etp.
    assert (forall w1, wstep moving w w1 -> kind_at (w_host w1) (r, []) = Some KDir) as Hroot.
    { intros w1 S1. by apply (temp_dir _ r [] (proj1 (Hthen w1 S1))). }
    assert (forall w1, wstep moving w w1 -> wstep moving w1 (call (fs_rename (Upper, new) (r, [temp_of core (w_temp w)])) w1).2
              /\ wstep moving w1 (call (fs_rename (r, [temp_of core (w_temp w)]) (Upper, new)) w1).2) as Hback.
    { intros w1 S1. destruct (Hthen w1 S1) as [I1 [K1 K2]]. pose proof (Hroot w1 S1) as R1.
      split; (apply wstep_call; [done|]).
      - eapply hstep_weaken; [apply (rename_step core _ Upper qn cn r [] (temp_of core (w_temp w))); try done; by intros []|].
        intros l [Hu|Hu]; [left; right; by left|by eapply under_temp_moving].
      - eapply hstep_weaken; [apply (rename_step core _ r [] (temp_of core (w_temp w)) Upper qn cn); try done; by intros []|].
        intros l [Hu|Hu]; [by eapply under_temp_moving|left; right; by left]. }
    apply wstep_bind.
    { unfold mbind, op_bind. rewrite Etp. split; [by apply hstep_refl|done]. }
    intros backup w1 E1 S1. unfold mbind, op_bind in E1. rewrite Etp in E1. injection E1 as <- _.
    apply wstep_bind.
    { apply wstep_on_error; [by apply Hback|]. intros w2 S2. apply undo_step; by apply Hthen; eapply wstep_trans. }
    intros [] w2 _ S2. pose proof (wstep_trans _ _ _ _ _ S1 S2) as S02. apply wstep_bind.
    { apply wstep_on_error; [by apply Hmove|]. intros w3 S3. pose proof (wstep_trans _ _ _ _ _ S02 S3) as S03. apply wstep_bind.
      - by apply wstep_ignore, Hback.
      - intros [] w4 _ S4. apply undo_step; by apply Hthen; eapply wstep_trans. }
    intros [] w3 _ S3. pose proof (wstep_trans _ _ _ _ _ S02 S3) as S03. destruct (ignore (remove_physical _) w3) as [x w4] eqn:E4.
    destruct (remove_aside r (w_temp w) w3 x w4 (proj1 (Hthen _ S03)) (Hroot _ S03) Hl E4) as (_ & S4 & _ & P4).
    split; [|done]. eapply hstep_weaken; [exact S4|]. intros l. apply under_temp_moving.
  - apply wstep_bind; [by apply wstep_refl|]. intros backup w1 [= <- <-] S1. apply wstep_bind; [by apply wstep_refl|]. intros [] w2 [= <-] _.
    apply wstep_bind; [apply wstep_on_error; [by apply Hmove|]|intros [] w3 _ S3; apply wstep_refl; by apply Hthen].
    intros w3 S3. apply wstep_bind; [apply wstep_refl; by apply Hthen|]. intros [] w4 [= <-] _. apply undo_step; by apply Hthen.
Qed.

(** ** From the moved names to the view *)

Record Renamed (w w' : World) : Prop := mkRenamed {
  rn_outside : Outside core [old; new] w w';
  rn_new s : plain s -> view count (w_host w') (new ++ s) = view count (w_host w) (old ++ s);
  rn_old s : plain s -> view count (w_host w') (old ++ s) = None
}.

Context (Po : plain old) (Pn : plain new).

Lemma replacing_touched l : stage l -> replacing l -> is_lower l \/ touched [old; new] l.
Proof.
  intros Hs [Hu|[Hu|Ht]].
  - right. exists old. split; [apply list_elem_of_here|by left].
  - right. exists new. split; [apply list_elem_of_further, list_elem_of_here|by left].
  - destruct l as [[| i |] p]; [|by left|].
    + destruct Ht. by apply stage_temp_free.
    + cbn in Hs. subst. destruct Ht. intros n Hin. by apply not_elem_of_nil in Hin.
Qed.
(** Outside the two names nothing shows differently. *)
Lemma moving_view h h' p : hstep moving h h' -> plain p -> ~ below [old; new] p -> view count h' p = view count h p.
Proof.
  intros S Hp Hb. apply (view_outside _ _ _ [old; new]); [|..|done|done].
  - apply Forall_cons. split; [split; [done|by destruct qo]|]. apply Forall_singleton. split; [done|by destruct qn].
  - intros l Hs Ht. destruct (is_lower_dec l) as [[i Hi]|Hl].
    + destruct l as [r p']; cbn in Hi; subst r. destruct (hs_lower _ _ _ _ S i p') as [_ Hn']. unfold look. by rewrite Hn'.
    + apply (hs_look _ _ _ _ S). intros [Hr|Hw]; [by destruct (replacing_touched l Hs Hr)|]. apply Ht. exists old.
      split; [apply list_elem_of_here|]. right. rewrite whiteout_of_snoc. apply under_spec in Hw as [s ->].
      destruct s as [|x s _] using rev_ind; [by rewrite app_nil_r|]. exfalso. cbn in Hs. rewrite app_assoc in Hs.
      assert (forall q, tidy q -> q <> (qo ++ [WHITEOUT_PREFIX +:+ co]) ++ s) as Hno'.
      { intros q Hq ->. apply tidy_app in Hq as [[_ Hq]%tidy_snoc _]. by rewrite whiteout_is_marker in Hq. }
      destruct Hs as [Hq|[(q & c & Hq & _ & E)|(q & Hq & E)]].
      * apply tidy_snoc in Hq as [Hq _]. by eapply Hno'.
      * apply app_inj_tail in E as [E _]. by eapply Hno'.
      * apply app_inj_tail in E as [E _]. by eapply Hno'.
Qed.
Lemma replacing_view h h' p : hstep replacing h h' -> plain p -> ~ below [old; new] p -> view count h' p = view count h p.
Proof. intros S. apply moving_view. eapply hstep_weaken; [exact S|]. by left. Qed.
(** The moved tree shows at the new name as the upper held it at the old one. *)
Lemma moved_view h h' s : hinv h -> hinv h' -> shut h old -> is_Some (kind_at h (Upper, old)) ->
  (forall s, look h' (Upper, new ++ s) = look h (Upper, old ++ s)) -> plain s -> view count h' (new ++ s) = view count h (old ++ s).
Proof.
  intros I I' S Hk Hl Hs. assert (is_Some (kind_at h' (Upper, new))) as Hk'.
  { pose proof (Hl []) as L. rewrite !app_nil_r in L. by rewrite (kind_look _ _ _ _ L). }
  rewrite (shut_view core h' new), (shut_view core h old); try done; try (by apply plain_app).
  - by apply kind_look.
  - by apply (shut_moved h h' old new).
Qed.
(** The old name is gone when a whiteout hides it or no lower has it. *)
Lemma gone_view h h' s : hinv h' -> hstep replacing h h' -> (forall s, look h' (Upper, old ++ s) = None) ->
  hidden h qo co = true \/ (forall s, lower_loc h count 0 (old ++ s) = None) -> plain s -> view count h' (old ++ s) = None.
Proof.
  intros I' S Hl Hgone Hs. assert (entry count h' qo co = None) as He.
  { rewrite (entry_unfold core). pose proof (Hl []) as L. rewrite app_nil_r in L. unfold look in L. apply fmap_None in L.
    apply kind_at_None in L. rewrite L. destruct Hgone as [Hh|Hlow].
    - replace (hidden h' qo co) with true; [done|]. symmetry. rewrite <- Hh.
      assert (forall x, ~ is_whiteout_name x = false -> stage (Upper, qo ++ [x]) -> ~ replacing (Upper, qo ++ [x])) as Hmark.
      { intros x Hx Hst [Hu|[Hu|Ht]].
        - apply under_spec in Hu as [s' [= E]]. destruct s' as [|y s' _] using rev_ind.
          + rewrite app_nil_r in E. apply app_inj_tail in E as [_ ->]. by apply tidy_snoc in Ho as [_ ?].
          + rewrite app_assoc in E. apply app_inj_tail in E as [E _]. apply (f_equal length) in E. rewrite !length_app in E. cbn in E. lia.
        - apply under_spec in Hu as [s' [= E]]. destruct s' as [|y s' _] using rev_ind.
          + rewrite app_nil_r in E. rewrite <- E in Hn. by apply tidy_snoc in Hn as [_ ?].
          + rewrite app_assoc in E. apply app_inj_tail in E as [E _]. apply Hno, under_spec. exists (s' ++ [co]). by rewrite E, <- app_assoc.
        - destruct Ht. by apply stage_temp_free. }
      pose proof (plain_tidy _ Po) as Hto. pose proof Po as [Pq Pc]%plain_snoc.
      apply (hidden_look h h'); apply (hs_look _ _ _ _ S).
      + intros [Hu|[Hu|Ht]].
        * apply under_spec in Hu as [s' [= E]]. apply (f_equal length) in E. rewrite !length_app in E. cbn in E. lia.
        * apply Hno, under_spec. apply under_spec in Hu as [s' [= E]]. exists (s' ++ [co]). by rewrite E, <- app_assoc.
        * destruct Ht. apply tidy_temp_free. by apply plain_tidy.
      + apply Hmark; [by rewrite whiteout_is_marker|]. apply stage_whiteout; [by apply plain_tidy|done].
      + apply Hmark; [done|]. by apply stage_opaque, plain_tidy.
    - rewrite (lower_view h h'); [rewrite <- (app_nil_r (qo ++ [co])), Hlow; by destruct (hidden h' qo co)|].
      intros i. unfold look. by rewrite (proj2 (hs_lower _ _ _ _ S i _)). }
  assert (view count h' old = None) as Hv by (rewrite view_snoc, He; by case_decide).
  destruct (decide (s = [])) as [->|Hne]; [by rewrite app_nil_r|]. apply view_below; [by rewrite Hv|done].
Qed.

(** Moved trees take their whiteouts along. *)
Lemma replacing_marker a b : plain (a ++ [b]) -> (forall s, a <> old ++ s) -> (forall s, a <> new ++ s) -> ~ replacing (whiteout_path a b).
Proof.
  intros Hp Hold Hnew [Hu|[Hu|Hu]].
  - apply under_marker in Hu as [s Es]; [by eapply Hold|done].
  - apply under_marker in Hu as [s Es]; [by eapply Hnew|done].
  - destruct Hu. apply plain_snoc in Hp as [Ha Hb]. apply stage_temp_free, stage_whiteout; [by apply plain_tidy|done].
Qed.
Lemma parent_off_apart (p q : Path) c s : ~ under (Upper, p) (Upper, q ++ [c]) -> q <> p ++ s.
Proof. intros Hu ->. apply Hu, under_spec. exists (s ++ [c]). by rewrite app_assoc. Qed.
Lemma single_replaced h h' : hstep replacing h h' -> (forall s, look h' (Upper, old ++ s) = None) ->
  (forall s, look h' (Upper, new ++ s) = look h (Upper, old ++ s)) -> kind_at h (whiteout_path qn cn) = None ->
  (forall a b, plain (a ++ [b]) -> a ++ [b] <> old -> is_Some (kind_at h (Upper, a ++ [b])) -> kind_at h (whiteout_path a b) = None) -> single h'.
Proof.
  intros S Lo Ln Hw Si a b Hp Hs. pose proof (plain_tidy _ Hp) as Hta.
  assert (forall s, a ++ [b] <> old ++ s) as Hao.
  { intros s E. rewrite E in Hs. specialize (Lo s). unfold look in Lo. apply fmap_None, kind_at_None in Lo. rewrite Lo in Hs. by destruct Hs. }
  assert (forall s, a <> old ++ s) as Hao' by (intros s ->; apply (Hao (s ++ [b])); by rewrite app_assoc).
  destruct (decide (under (Upper, new) (Upper, a ++ [b]))) as [[s [= E]]%under_spec|Hu].
  - destruct s as [|x s _] using rev_ind.
    + rewrite app_nil_r in E. apply app_inj_tail in E as [-> ->]. rewrite (kind_of_look h); [done|]. apply (hs_look _ _ _ _ S).
      apply replacing_marker; [done|done|]. intros s E. apply (f_equal length) in E. rewrite !length_app in E. cbn in E. lia.
    + rewrite app_assoc in E. apply app_inj_tail in E as [-> ->].
      assert (kind_at h' (whiteout_path (new ++ s) x) = kind_at h (whiteout_path (old ++ s) x)) as ->.
      { unfold whiteout_path. rewrite <- (app_assoc new), <- (app_assoc old). apply kind_look, Ln. }
      rewrite <- (app_assoc new) in Hs, Hp. rewrite (kind_look _ _ _ _ (Ln (s ++ [x]))) in Hs.
      apply Si; rewrite <- (app_assoc old); [|..|done].
      * apply plain_app. split; [done|]. by apply plain_app in Hp as [_ ?].
      * intros E. apply (f_equal length) in E. rewrite !length_app in E. cbn in E. lia.
  - rewrite (kind_of_look h).
    + apply Si; [done|intros E; apply (Hao []); by rewrite app_nil_r|]. rewrite (kind_of_look h) in Hs; [done|].
      apply (hs_look _ _ _ _ S). intros [[s [= E]]%under_spec|[?|Ht]]; [by apply (Hao s)|done|]. by apply Ht, tidy_temp_free.
    + apply (hs_look _ _ _ _ S), replacing_marker; [done|done|]. intros s ->. apply Hu, under_spec. exists (s ++ [b]). by rewrite app_assoc.
Qed.

(** ** The groups of copied hard links *)

Lemma groups_renamed w w' w'' : inv w -> hstep replacing (w_host w) (w_host w') -> w_groups w' = w_groups w ->
  (forall s, look (w_host w') (Upper, new ++ s) = look (w_host w) (Upper, old ++ s)) ->
  ((_ ← forget_copied_hard_links new; map_groups (remap_path old new)) : Op unit) w' = (Ok tt, w'') ->
  inv w'' /\ w_host w'' = w_host w' /\ w_preimages w'' = w_preimages w'.
Proof.
  intros I S Hg Hl E. injection E as <-. cbn [w_host w_preimages set_groups]. split_and!; [|done..].
  constructor; cbn [w_host set_groups]; [apply S|]. unfold groups_agree. cbn [w_host set_groups w_groups]. intros i paths p Hi Hp. apply lookup_fmap_Some in Hi as (paths0 & <- & Hi).
  apply list_elem_of_fmap in Hp as (p0 & -> & Hp0). destruct (forget_elem _ _ _ _ p0 Hi Hp0) as (old0 & Hold & Hin & Hsw).
  rewrite Hg in Hold. destruct (inv_groups _ w I i old0 p0 Hold Hin) as (Ht & l & n & Hlow & Hnl & Hni & Hf & Hkp).
  destruct (hstep_inode _ _ _ _ _ _ _ S Hlow Hnl Hni) as [Hnl' Hni'].
  unfold remap_path. destruct (strip_path old p0) as [s|] eqn:Es.
  - apply strip_path_Some in Es as ->. split; [apply tidy_app; split; [done|by apply tidy_app in Ht as [_ ?]]|].
    exists l, n. split_and!; [done..|]. by rewrite (kind_look _ _ _ _ (Hl s)).
  - split; [done|]. exists l, n. split_and!; [done..|]. rewrite (kind_of_look (w_host w)); [done|]. apply (hs_look _ _ _ _ S).
    intros [Hu|[Hu|Hu]].
    + apply under_spec in Hu as [s [= ->]]. by rewrite strip_path_app in Es.
    + apply under_spec in Hu as [s [= ->]]. assert (path_starts_with (new ++ s) new = true); [|congruence]. apply path_starts_with_spec. eauto.
    + destruct Hu. by apply tidy_temp_free.
Qed.

(** ** The changes of a rename *)

Definition move (n : Inode) (replaced : option Loc) : Op unit :=
  source ← materialize core old n;
  _ ← ensure_upper_parents core new;
  _ ← clear_whiteout core new;
  whiteout ← asking (fun h => exists_in_lower core h old);
  _ ← if_then whiteout (create_whiteout core old);
  _ ← publish_rename core source old new replaced whiteout;
  _ ← forget_copied_hard_links new;
  map_groups (remap_path old new).

Lemma whiteout_apart : whiteout_path qn cn <> whiteout_path qo co.
Proof.
  unfold whiteout_path. intros [= E]. apply app_inj_tail in E as [Eq Ec]. apply whiteout_inj in Ec as ->. subst qn.
  apply Hon, under_refl.
Qed.
(** A whiteout is no part of a tree that the upper determines. *)
Lemma shut_only q c p w w' : plain p -> plain (q ++ [c]) ->
  Only core (whiteout_path q c) w w' -> shut (w_host w) p ->
  shut (w_host w') p /\ forall s, plain (p ++ s) -> kind_at (w_host w') (Upper, p ++ s) = kind_at (w_host w) (Upper, p ++ s).
Proof.
  intros Hp Hq O S.
  assert (forall s, plain (p ++ s) -> look (w_host w') (Upper, p ++ s) = look (w_host w) (Upper, p ++ s)) as H1.
  { intros s Hs. apply (on_look _ _ _ _ O). intros [= E]. rewrite E in Hs. apply plain_tidy, tidy_snoc in Hs as [_ Hs]. by rewrite whiteout_is_marker in Hs. }
  assert (forall s, look (w_host w') (Upper, (p ++ s) ++ [OPAQUE_NAME]) = look (w_host w) (Upper, (p ++ s) ++ [OPAQUE_NAME])) as H2.
  { intros s. apply (on_look _ _ _ _ O). intros [= E]. apply app_inj_tail in E as [_ E]. apply plain_snoc in Hq as [_ Hc].
    assert (c = ".wh..opq"%string) as -> by (apply whiteout_inj; by rewrite <- E). by destruct Hc. }
  split; [|intros s Hs; by apply kind_of_look, H1].
  intros s Hs Hk. rewrite (kind_of_look _ _ _ (H1 s Hs)) in Hk. rewrite (opaque_looks (w_host w) (w_host w') (p ++ s)); [by apply S|by apply H1|apply H2].
Qed.
(** The whiteout of the old name, when a lower has it. *)
Lemma hide_old w x w' : inv w -> require_visible core old = Ok tt -> shut (w_host w) old -> is_Some (kind_at (w_host w) (Upper, old)) ->
  (whiteout ← asking (fun h => exists_in_lower core h old); if_then whiteout (create_whiteout core old)) w = (Ok x, w') ->
  inv w' /\ shut (w_host w') old /\ is_Some (kind_at (w_host w') (Upper, old)) /\ Outside core [old] w w' /\
  (forall s, plain s -> view count (w_host w') (old ++ s) = view count (w_host w) (old ++ s)) /\
  (hidden (w_host w') qo co = true \/ forall s, lower_loc (w_host w') count 0 (old ++ s) = None) /\
  (forall p k, tidy p -> kind_at (w_host w) (Upper, p) = Some k -> kind_at (w_host w') (Upper, p) = Some k) /\
  Tracked core (fun l => above old l \/ l = whiteout_path qo co) w w' /\
  (single (w_host w) -> forall a b, plain (a ++ [b]) -> a ++ [b] <> old -> is_Some (kind_at (w_host w') (Upper, a ++ [b])) -> kind_at (w_host w') (whiteout_path a b) = None).
Proof.
  intros I Hvis S Hk E. apply bind_inv in E as [(b & w0 & [= <- <-] & E)|(e & _ & [=])].
  destruct (exists_in_lower core (w_host w) old) eqn:Ex; cbn [if_then] in E.
  - destruct (create_whiteout_spec core qo co w _ _ I Ho E) as (w1 & Q1 & G1 & O & G & Hko & Hh).
    pose proof (qt_inv _ _ _ Q1) as I1. pose proof (on_inv _ _ _ _ O) as I'.
    assert (shut (w_host w1) old) as S1 
      by (apply (sealed_shut core); [apply I1|]; eapply (sealed_quiet core); [apply Q1|]; by apply (shut_sealed core); [apply I|..]).
    rewrite <- Hko in Hk. destruct (shut_only qo co old w1 w' Po Po O S1) as [S' Hsame].
    assert (is_Some (kind_at (w_host w') (Upper, old))) as Hk'.
    { pose proof (Hsame []) as Hs0. rewrite app_nil_r in Hs0. by rewrite Hs0. }
    split_and!; [done|done|done|..].
    + eapply Outside_trans; [by apply (Outside_quiet core), Q1|]. apply (Outside_only core _ _ _ _ O); [intros l ->; apply touched_whiteout|].
      apply Forall_singleton. split; [done|by destruct qo].
    + intros s Hs. assert (plain (old ++ s)) as Hps by (by apply plain_app).
      rewrite (shut_view core (w_host w') old s), Hsame, <- (shut_view core (w_host w1) old s); try done; [|apply I1|apply I'].
      by apply (hq_view _ _ _ (qt_host _ _ _ Q1)).
    + left. by destruct x; apply Hh.
    + intros p k Ht Hp. rewrite (kind_of_look (w_host w1)); [by apply (hq_grow _ _ _ (qt_host _ _ _ Q1))|].
      apply (on_look _ _ _ _ O). by apply plain_not_whiteout.
    + eapply (Track_create_whiteout core 0 qo co); [by apply tidy_app in Ho as [? _]|by apply plain_snoc in Po as [_ ?]|lia|exact E].
    + intros Si a b Hp Hne Hs. pose proof (single_quiet core _ _ Q1 Si) as Si1. rewrite (kind_of_look (w_host w1)).
      * apply Si1; [done|]. rewrite (kind_of_look (w_host w1)) in Hs; [done|]. apply (on_look _ _ _ _ O). by apply plain_not_whiteout, plain_tidy.
      * apply (on_look _ _ _ _ O). unfold whiteout_path. intros [= Ew]. apply app_inj_tail in Ew as [-> ->%whiteout_inj]. done.
  - injection E as <- <-. split_and!; try done.
    + right. intros s. apply (not_in_lower core); [apply I|by destruct qo|done|done].
    + intros Si a b Hp _. by apply Si.
Qed.

(** The moves from a world in which the checks have passed. *)
Lemma move_ok n replaced w w' : inv w -> single (w_host w) -> unused (w_temp w) (w_host w) ->
  view count (w_host w) old = Some (i_kind n) -> require_visible core old = Ok tt ->
  match replaced with None => h_names (w_host w) !! (Upper, new) = None | Some d => d = (Upper, new) end ->
  move n replaced w = (Ok tt, w') -> Renamed w w' /\ single (w_host w').
Proof.
  intros I Si Hun Hv Hvis Hrep E.
  apply bind_inv in E as [(src & w1 & E1 & E)|(e & _ & [=])].
  destruct (materialize_spec core old n w _ w1 I Si ltac:(by destruct qo) Po Hv E1) as [Q1 M1].
  destruct (M1 src eq_refl) as (-> & K1 & Se1). pose proof (Track_materialize core 0 old n Ho w _ w1 ltac:(lia) E1) as T1.
  pose proof (qt_inv _ _ _ Q1) as I1.
  apply bind_inv in E as [([] & w2 & E2 & E)|(e & _ & [=])].
  destruct (ensure_upper_parents_quiet core qn cn w1 _ w2 I1 ltac:(by apply tidy_app in Hn as [? _]) E2) as (Q2 & _ & D2 & _).
  specialize (D2 eq_refl). pose proof (Track_ensure_parents core 0 new Hn w1 _ w2 ltac:(lia) E2) as T2. pose proof (qt_inv _ _ _ Q2) as I2.
  pose proof (sealed_shut core _ _ (inv_host _ _ I2) (sealed_quiet core _ _ _ (qt_host _ _ _ Q2) Se1)) as S2.
  pose proof (hq_grow _ _ _ (qt_host _ _ _ Q2) old _ Ho K1) as K2.
  apply bind_inv in E as [([] & w3 & E3 & E)|(e & _ & [=])].
  destruct (clear_whiteout_only core qn cn w2 _ w3 I2 Hn D2 E3) as (O3 & _ & W3).
  pose proof (Track_clear_whiteout core 0 qn cn w2 _ w3 ltac:(lia) E3) as T3. pose proof (on_inv _ _ _ _ O3) as I3.
  destruct (shut_only qn cn old w2 w3 Po Pn O3 S2) as [S3 L3].
  assert (kind_at (w_host w3) (Upper, old) = Some (i_kind n)) as K3 by (pose proof (L3 []) as L; rewrite app_nil_r in L; by rewrite L).
  assert (kind_at (w_host w3) (Upper, qn) = Some KDir) as D3 by (by rewrite (whiteout_dir core qn cn w2 w3 O3)).
  apply bind_inv in E as [(b & w3' & [= <- <-] & E)|(e & _ & [=])].
  apply bind_inv in E as [(x & w4 & E4 & E)|(e & _ & [=])].
  destruct (hide_old w3 x w4 I3 Hvis S3 (ex_intro _ _ K3) E4) as (I4 & S4 & K4 & Out4 & V4 & Gone4 & Grow4 & T4 & Si4).
  apply bind_inv in E as [([] & w5 & E5 & E)|(e & _ & [=])].
  assert (match replaced with None => h_names (w_host w4) !! (Upper, new) = None | Some d => d = (Upper, new) end) as Hrep4.
  { destruct replaced; [done|]. pose proof (tidy_temp_free core Upper new Hn) as Hf.
    rewrite (tk_names _ _ _ _ T4), (tk_names _ _ _ _ T3), (tk_names _ _ _ _ T2), (tk_names _ _ _ _ T1); try done.
    - intros [_ [[s Hs]|[s Hs]]]; [apply Hno|apply Hon]; apply under_spec; cbn in Hs; rewrite Hs; eauto.
    - intros [_ Hs]. cbn [snd] in Hs. rewrite parent_of_snoc in Hs. apply prefix_length in Hs. rewrite length_app in Hs. cbn in Hs. lia.
    - by apply plain_not_whiteout.
    - intros [[_ Hs]|Hs]; [|by apply plain_not_whiteout in Hs]. cbn [snd] in Hs. rewrite parent_of_snoc in Hs. apply Hno, under_spec.
      destruct Hs as [s Hs]. exists (s ++ [co]). rewrite Hs. by rewrite <- app_assoc. }
  pose proof (tk_unused _ _ _ _ T4 (tk_unused _ _ _ _ T3 (tk_unused _ _ _ _ T2 (tk_unused _ _ _ _ T1 Hun)))) as Hun4.
  assert (kind_at (w_host w4) (Upper, qn) = Some KDir) as D4 by (apply Grow4; [by apply tidy_app in Hn as [? _]|done]).
  destruct (publish_rename_ok replaced _ w4 w5 (inv_host _ _ I4) Hun4 K4 D4 Hrep4 E5) as (S5 & G5 & P5 & L5 & O5).
  destruct (groups_renamed w4 w5 w' I4 S5 G5 L5 E) as (I' & H' & P').
  assert (forall s, plain s -> view count (w_host w4) (old ++ s) = view count (w_host w) (old ++ s)) as V.
  { intros s Hs. assert (plain (old ++ s)) as Hps by (by apply plain_app). rewrite V4 by done.
    rewrite (shut_view core (w_host w3) old s), L3, <- (shut_view core (w_host w2) old s); try done; try (apply I3 || apply I2); try by eexists.
    rewrite (hq_view _ _ _ (qt_host _ _ _ Q2)), (hq_view _ _ _ (qt_host _ _ _ Q1)); done. }
  assert (Forall (fun rel => plain rel /\ rel <> []) [old; new]) as Hrels.
  { apply Forall_cons. split; [split; [done|by destruct qo]|]. apply Forall_singleton. split; [done|by destruct qn]. }
  assert (Outside core [old; new] w w4) as Out.
  { eapply Outside_trans; [apply (Outside_quiet core), Q1|]. eapply Outside_trans; [apply (Outside_quiet core), Q2|].
    eapply Outside_trans; [apply (Outside_only core _ _ _ _ O3)|].
    - intros l ->. exists new. split; [apply list_elem_of_further, list_elem_of_here|]. right. by rewrite whiteout_of_snoc.
    - done.
    - destruct Out4 as [? ? ? Hview ?]. constructor; [done..| |done]. intros p Hp Hb. apply Hview; [done|].
      intros (rel & s & ->%list_elem_of_singleton & ->). apply Hb. exists old, s. split; [apply list_elem_of_here|done]. }
  split; [constructor|].
  - eapply Outside_trans; [exact Out|]. constructor; rewrite ?H'; [done|apply S5|intros i p; apply (hs_lower _ _ _ _ S5)|by intros; apply replacing_view|].
    intros p f Hf. rewrite P', P5. done.
  - intros s Hs. rewrite H', <- V by done. apply moved_view; [apply I4|apply S5|done..].
  - intros s Hs. rewrite H'. apply (gone_view (w_host w4)); [apply S5|done..].
  - rewrite H'. apply (single_replaced (w_host w4)); try done.
    + apply kind_at_None, node_names; [apply I4|]. rewrite (tk_names _ _ _ _ T4); [apply node_names, kind_at_None; [apply I3|done]|..].
      * intros [[_ Hs]|Hs]; [|by apply whiteout_apart]. cbn [snd whiteout_path] in Hs. rewrite parent_of_snoc in Hs. destruct Hs as [s Hs].
        pose proof (proj1 (proj1 (tidy_app _ _) Ho)) as Tq. rewrite Hs in Tq. apply tidy_app in Tq as [[_ Tq]%tidy_snoc _]. by rewrite whiteout_is_marker in Tq.
      * apply plain_snoc in Pn as [Pq Pc]. apply stage_temp_free, stage_whiteout; [by apply plain_tidy|done].
    + apply Si4. eapply (single_clear core); [exact O3|done|]. by apply (single_quiet core w1), (single_quiet core w).
Qed.

(** When a move fails. *)
Lemma move_err n replaced w e w' : inv w -> single (w_host w) -> view count (w_host w) old = Some (i_kind n) ->
  from_option (fun d => d = (Upper, new)) True replaced ->
  move n replaced w = (Err e, w') -> Confined [old; new] w w'.
Proof.
  intros I Si Hv Hrep E. pose proof (proj1 (proj1 (tidy_app _ _) Hn)) as Tqn. pose proof (proj1 (proj1 (tidy_app _ _) Ho)) as Tqo.
  apply bind_inv in E as [(src & w1 & E1 & E)|(e1 & E1 & _)];
    destruct (materialize_spec core old n w _ _ I Si ltac:(by destruct qo) Po Hv E1) as [Q1 M1]; [|by apply Confined_quiet].
  destruct (M1 src eq_refl) as (-> & K1 & _). pose proof (qt_inv _ _ _ Q1) as I1.
  apply bind_inv in E as [([] & w2 & E2 & E)|(e2 & E2 & _)];
    destruct (ensure_upper_parents_quiet core qn cn w1 _ _ I1 Tqn E2) as (Q2 & _ & D2 & _);
    [|by apply Confined_quiet; eapply quiet_trans].
  specialize (D2 eq_refl). pose proof (qt_inv _ _ _ Q2) as I2. pose proof (hq_grow _ _ _ (qt_host _ _ _ Q2) old _ Ho K1) as K2.
  eapply Confined_trans; [apply Confined_quiet, (quiet_trans _ _ _ _ Q1 Q2)|]. clear Q1 Q2 M1 E1 E2.
  assert (Forall (fun rel => plain rel /\ rel <> []) [new] /\ Forall (fun rel => plain rel /\ rel <> []) [old]) as [Fn Fo].
  { split; apply Forall_singleton; (split; [done|]); [by destruct qn|by destruct qo]. }
  assert (forall w3, Only core (whiteout_path qn cn) w2 w3 -> Confined [old; new] w2 w3) as Hclear.
  { intros w3 O. eapply (Confined_outside [new]); [apply (Outside_only core _ _ _ _ O); [intros l ->; apply touched_whiteout|done]|].
    intros p. apply below_one, list_elem_of_further, list_elem_of_here. }
  apply bind_inv in E as [([] & w3 & E3 & E)|(e3 & E3 & _)];
    destruct (clear_whiteout_only core qn cn w2 _ _ I2 Hn D2 E3) as (O3 & _ & _); [|by apply Hclear].
  eapply Confined_trans; [by apply Hclear|]. pose proof (on_inv _ _ _ _ O3) as I3.
  assert (kind_at (w_host w3) (Upper, old) = Some (i_kind n)) as K3.
  { rewrite (kind_of_look (w_host w2)); [done|]. apply (on_look _ _ _ _ O3). by apply plain_not_whiteout. }
  assert (kind_at (w_host w3) (Upper, qn) = Some KDir) as D3 by (by rewrite (whiteout_dir core qn cn w2 w3 O3)).
  apply bind_inv in E as [(b & w3' & [= <- <-] & E)|(e4 & [=] & _)].
  assert (forall x w4, if_then (exists_in_lower core (w_host w3) old) (create_whiteout core old) w3 = (x, w4) ->
            Confined [old; new] w3 w4 /\ inv w4 /\ forall p k, tidy p -> kind_at (w_host w3) (Upper, p) = Some k -> kind_at (w_host w4) (Upper, p) = Some k) as Hhide.
  { intros x w4 E4. destruct (exists_in_lower core (w_host w3) old); cbn [if_then] in E4.
    - destruct (create_whiteout_spec core qo co w3 _ _ I3 Ho E4) as (w3' & Q4 & _ & O4 & _). split_and!.
      + eapply Confined_trans; [by apply Confined_quiet|]. eapply (Confined_outside [old]).
        * apply (Outside_only core _ _ _ _ O4); [intros l ->; apply touched_whiteout|done].
        * intros p. apply below_one, list_elem_of_here.
      + apply O4.
      + intros p k Ht Hk. rewrite (kind_of_look (w_host w3')); [by apply (hq_grow _ _ _ (qt_host _ _ _ Q4))|].
        apply (on_look _ _ _ _ O4). by apply plain_not_whiteout.
    - injection E4 as <- <-. split_and!; [by apply Confined_quiet, quiet_refl|done|done]. }
  apply bind_inv in E as [(x & w4 & E4 & E)|(e4 & E4 & _)]; destruct (Hhide _ _ E4) as (C4 & I4 & Grow4); [|done].
  eapply Confined_trans; [exact C4|].
  apply bind_inv in E as [([] & w5 & E5 & E)|(e5 & E5 & _)]; [done|].
  assert (kept (w_host w4)) as Kept.
  { split; apply Grow4; try done. by eapply (wf_parent_dir _ Upper qo co); [apply I3|]. }
  pose proof (publish_rename_step replaced (exists_in_lower core (w_host w3) old) w4 (inv_host _ _ I4) Kept Hrep) as [S5 P5]. rewrite E5 in S5, P5.
  constructor; [apply S5|apply S5|intros i p; apply (hs_lower _ _ _ _ S5)|intros p; by apply moving_view|]. cbn [snd] in P5. by rewrite P5.
Qed.
End Publish.

(** ** The checks of a rename *)

Section Checks.

Lemma located_upper h p l : located core h p l -> l.1 = Upper -> l = (Upper, p).
Proof.
  intros [[-> ->]|(q & c & -> & _ & Hl)] Hu; [done|]. apply entry_loc_Some in Hl as (_ & E & _). destruct l; cbn in *. congruence.
Qed.
(** What a passed check says of the destination. *)
Definition Replaceable (old new : Path) (h : Host) (replaced : option Loc) : Prop :=
  match replaced with None => h_names h !! (Upper, new) = None | Some d => d = (Upper, new) end /\
  (view count h new = Some KDir -> forall c, plain (new ++ [c]) -> view count h (new ++ [c]) = None).
Lemma validate_ok old new no_replace w replaced w' : inv w -> single (w_host w) ->
  validate_replacement core old new no_replace w = (Ok replaced, w') -> w' = w /\
  ((is_Some (view count (w_host w) new) -> clear core (w_host w) new) -> Replaceable old new (w_host w) replaced).
Proof.
  intros I S E. unfold validate_replacement in E. pose proof (hinv_wf _ _ (inv_host _ _ I)) as W.
  apply bind_inv in E as [(found & w1 & E1 & E)|(e & _ & [=])]. destruct found as [m|].
  - destruct (resolve_Some _ _ _ _ _ I E1) as (-> & _ & Hloc & Hm). destruct no_replace; [done|].
    apply bind_inv in E as [(n & w2 & E2 & E)|(e & _ & [=])]. destruct (metadata_Ok core w old n w2 I E2) as (-> & _ & _).
    apply bind_inv in E as [([] & w3 & E3 & E)|(e & _ & [=])].
    destruct (located_view core _ (hinv_rooted _ _ (inv_host _ w I)) _ _ Hloc) as [Hview _].
    assert (view count (w_host w) new = Some (i_kind (rm_node m))) as Hvk by (rewrite Hview; unfold kind_at; by rewrite (proj2 (proj2 Hm))).
    assert (w3 = w /\ (clear core (w_host w) new -> i_kind (rm_node m) = KDir -> forall c, plain (new ++ [c]) -> view count (w_host w) (new ++ [c]) = None)) as [-> Hempty].
    { destruct (is_dir (i_kind n)) eqn:Hd1, (is_dir (i_kind (rm_node m))) eqn:Hd2; try done.
      - apply bind_inv in E3 as [(names & w4 & E4 & E3)|(e & _ & [=])]. destruct (list_names_spec core w new names w4 ""%string I E4) as (-> & _).
        case_bool_decide as Hnil; [|done]. injection E3 as <-. split; [done|]. intros Hcl _ c Hp.
        destruct (list_names_spec core w new names w c I E4) as (_ & _ & _ & Hc). destruct (view count (w_host w) (new ++ [c])) eqn:Ev; [|done].
        assert (is_Some (view count (w_host w) (new ++ [c]))) as Hsome by (rewrite Ev; by eexists).
        subst names. exfalso. eapply not_elem_of_nil, Hc; [done..|by apply Hcl|by eexists].
      - injection E3 as <-. split; [done|]. intros _ Hk. by rewrite Hk in Hd2. }
    injection E as <- <-. split; [done|]. intros Hcl. split; [|intros Hk; apply Hempty; [apply Hcl; by eexists|congruence]].
    unfold rm_is_upper. case_bool_decide as Hu; [by eapply located_upper|].
    destruct (located_lower _ _ _ _ (inv_host _ w I) Hloc Hu) as (q & c & i & -> & _ & Hnone).
    apply node_names; [done|]. by apply kind_at_None.
  - injection E as <- <-. destruct (resolve_None _ _ _ _ I E1) as (-> & _ & Hnone). split; [done|]. intros _. split; [|congruence].
    apply node_names, kind_at_None; [done|]. destruct (kind_at (w_host w) (Upper, new)) eqn:Ek; [|done].
    by rewrite (view_of_upper core _ _ _ (inv_host _ w I) Ek) in Hnone.
Qed.

(** The inode that a path stands for holds what the path shows. *)
Lemma copied_hard_link_ok rel w i w' : inv w -> metadata_with_copied_hard_link core rel w = (Ok i, w') ->
  w' = w /\ exists n, h_inodes (w_host w) !! i = Some n /\ view count (w_host w) rel = Some (i_kind n).
Proof.
  intros I E. apply bind_inv in E as [(m & w1 & E1 & E)|(e & _ & [=])].
  destruct (metadata_resolved_Ok core w rel m w1 I E1) as (-> & _ & Hloc & Hm). destruct (resolved_ino _ _ _ Hm) as (Hi & Hn & Hnode).
  destruct (located_view core _ (hinv_rooted _ _ (inv_host _ w I)) _ _ Hloc) as [Hview _].
  assert (view count (w_host w) rel = Some (i_kind (rm_node m))) as Hvk by (rewrite Hview; unfold kind_at; by rewrite Hnode).
  apply bind_inv in E as [(copied & w2 & E2 & E)|(e & _ & [=])]. injection E as <- <-.
  unfold copied_hard_link_for_entry in E2. destruct (_ || _); [injection E2 as <- <-; split; [done|]; eauto|].
  injection E2 as E2 <-. split; [done|]. destruct (w_groups w !! rm_ino m) as [paths|] eqn:Eg; cbn [default from_option id] in E2; [|injection E2 as <-; eauto].
  assert (forall p, p ∈ paths -> kind_at (w_host w) (Upper, p) = Some (i_kind (rm_node m))) as Hp.
  { intros p Hin. destruct (inv_groups _ w I _ _ p Eg Hin) as (_ & l & n & _ & _ & Hn' & _ & Hk). congruence. }
  clear Eg. induction paths as [|p paths IH]; [injection E2 as <-; eauto|].
  pose proof (Hp p (list_elem_of_here _ _)) as (n' & Hn' & Hk')%kind_at_Some.
  destruct (lstat_present _ _ _ (hinv_wf _ _ (inv_host _ _ I)) Hn') as (i' & _ & Hi' & Hst). rewrite Hst in E2.
  apply bind_Ok in E2 as (? & _ & E2). apply bind_Ok in E2 as (? & _ & [= <-]). exists n'. split; [done|]. congruence.
Qed.
Lemma same_file_ok old new n w b w' : inv w -> same_file core old new n w = (Ok b, w') -> w' = w /\
  (is_Some (view count (w_host w) new) -> clear core (w_host w) new) /\
  (b = true -> is_file (i_kind n) = true /\ view count (w_host w) new = view count (w_host w) old).
Proof.
  intros I E. apply bind_inv in E as [(found & w1 & E1 & E)|(e & _ & [=])]. destruct found as [m|].
  - destruct (resolve_Some _ _ _ _ _ I E1) as (-> & _ & _ & _).
    apply bind_inv in E as [([] & w2 & E2 & E)|(e & _ & [=])]. apply tree_access_Ok in E2 as [-> Hacc].
    assert (is_Some (view count (w_host w) new) -> clear core (w_host w) new) as Hcl by (intros _; exact (tree_access_clear core _ _ _ _ (inv_host _ w I) Hacc)).
    destruct (is_file (i_kind n)); [|by injection E as <- <-].
    apply bind_inv in E as [(i & w3 & E3 & E)|(e & _ & [=])]. destruct (copied_hard_link_ok _ _ _ _ I E3) as (-> & n1 & Hn1 & Hv1).
    apply bind_inv in E as [(j & w3 & E4 & E)|(e & _ & [=])]. destruct (copied_hard_link_ok _ _ _ _ I E4) as (-> & n2 & Hn2 & Hv2).
    injection E as <- <-. split_and!; [done..|]. intros ->%bool_decide_eq_true. split; [done|]. congruence.
  - destruct (resolve_None _ _ _ _ I E1) as (-> & _ & Hnone). injection E as <- <-. split_and!; [done| |done]. rewrite Hnone. by intros [].
Qed.

Lemma Reads_validate old new no_replace : Reads core (validate_replacement core old new no_replace).
Proof.
  apply Reads_bind; [apply Reads_resolve|]. intros [m|]; [|by apply Reads_pure]. destruct no_replace; [by apply Reads_pure|].
  apply Reads_bind; [apply Reads_metadata|]. intros n. apply Reads_bind; [|intros; by apply Reads_pure].
  destruct (is_dir (i_kind n)), (is_dir (i_kind (rm_node m))); try by apply Reads_pure.
  apply Reads_bind; [apply Reads_list_names|]. intros names. destruct (bool_decide _); by apply Reads_pure.
Qed.
Lemma Reads_copied_hard_link rel : Reads core (metadata_with_copied_hard_link core rel).
Proof.
  apply Reads_bind; [apply Reads_metadata_resolved|]. intros m. apply Reads_bind; [|intros; by apply Reads_pure].
  apply Reads_pure. intros w. unfold copied_hard_link_for_entry. by destruct (_ || _).
Qed.
Lemma Reads_same_file old new n : Reads core (same_file core old new n).
Proof.
  apply Reads_bind; [apply Reads_resolve|]. intros [m|]; [|by apply Reads_pure]. apply Reads_bind; [apply Reads_tree_access|]. intros _.
  destruct (is_file (i_kind n)); [|by apply Reads_pure]. apply Reads_bind; [apply Reads_copied_hard_link|]. intros i.
  apply Reads_bind; [apply Reads_copied_hard_link|]. intros j. by apply Reads_pure.
Qed.

(** A rename stops in its checks, has nothing to do, or moves the tree. *)
Lemma rename_cases qo co qn cn no_replace w r w' : inv w -> single (w_host w) ->
  rename core (qo ++ [co]) (qn ++ [cn]) no_replace w = (r, w') ->
  ((exists e, r = Err e) /\ quiet w w') \/
  exists n, view count (w_host w) (qo ++ [co]) = Some (i_kind n) /\
    ((r = Ok tt /\ w' = w /\ view count (w_host w) (qn ++ [cn]) = Some (i_kind n) /\ (qo ++ [co] = qn ++ [cn] \/ is_file (i_kind n) = true)) \/
     exists replaced w1, quiet w w1 /\ w_host w1 = w_host w /\ w_temp w1 = w_temp w /\ require_visible core (qo ++ [co]) = Ok tt /\
       qo ++ [co] <> qn ++ [cn] /\ is_dir (i_kind n) && path_starts_with (qn ++ [cn]) (qo ++ [co]) = false /\
       Replaceable (qo ++ [co]) (qn ++ [cn]) (w_host w) replaced /\ clear core (w_host w) (qo ++ [co]) /\ move qo qn co cn n replaced w1 = (r, w') /\
       exists w0, record_logical_tree_mapping core (qo ++ [co]) (qo ++ [co]) w = (Ok tt, w0) /\
         record_logical_tree_mapping core (qo ++ [co]) (qn ++ [cn]) w0 = (Ok tt, w1)).
Proof.
  intros I S E. set (old := qo ++ [co]) in *. set (new := qn ++ [cn]) in *. unfold rename in E.
  assert (forall {A} (m : Op A) w0 e w0', inv w0 -> Reads core m -> m w0 = (Err e, w0') -> r = Err e -> w0' = w' -> quiet w w0 ->
            ((exists e, r = Err e) /\ quiet w w')) as Hstop.
  { intros A m w0 e w0' I0 [RQ _] Em -> <- Q0. split; [by eexists|]. eapply quiet_trans; [exact Q0|]. by eapply RQ. }
  apply bind_inv in E as [([] & w0 & E0 & E)|(e & E0 & Hr)]; [injection E0 as Hvis <-|left; eapply Hstop; [exact I|apply Reads_pure|exact E0|done|done|by apply quiet_refl]; done].
  apply bind_inv in E as [([] & w0 & E0 & E)|(e & E0 & Hr)]; [injection E0 as _ <-|left; eapply Hstop; [exact I|apply Reads_pure|exact E0|done|done|by apply quiet_refl]; done].
  apply bind_inv in E as [(n & w1 & E1 & E)|(e & E1 & Hr)]; [|left; eapply Hstop; [exact I|apply Reads_metadata|exact E1|done|done|by apply quiet_refl]].
  pose proof (metadata_view core w old n w1 I E1) as Hv. destruct (metadata_Ok core w old n w1 I E1) as (-> & _ & _).
  case_bool_decide as Hsame.
  { destruct no_replace; injection E as <- <-; [left; split; [by eexists|by apply quiet_refl]|]. right. exists n. split; [done|].
    left. split_and!; [done|done|congruence|by left]. }
  destruct (is_dir (i_kind n) && path_starts_with new old) eqn:Hunder; [injection E as <- <-; left; split; [by eexists|by apply quiet_refl]|].
  apply bind_inv in E as [(replaced & w1 & E2 & E)|(e & E2 & Hr)]; [|left; eapply Hstop; [exact I|apply Reads_validate|exact E2|done|done|by apply quiet_refl]].
  destruct (validate_ok _ _ _ _ _ _ I S E2) as (-> & Hrep).
  apply bind_inv in E as [([] & w1 & E3 & E)|(e & E3 & Hr)]; [apply tree_access_Ok in E3 as [-> Hacc]|left; eapply Hstop; [exact I|apply Reads_tree_access|exact E3|done|done|by apply quiet_refl]].
  apply bind_inv in E as [(same & w1 & E4 & E)|(e & E4 & Hr)]; [|left; eapply Hstop; [exact I|apply Reads_same_file|exact E4|done|done|by apply quiet_refl]].
  pose proof (tree_access_clear core _ _ _ _ (inv_host _ w I) Hacc) as Hclear.
  destruct (same_file_ok _ _ _ _ _ _ I E4) as (-> & Hcl & Hfile). specialize (Hrep Hcl). destruct same.
  { injection E as <- <-. right. exists n. split; [done|]. left. destruct (Hfile eq_refl) as [Hf Hvn]. split_and!; [done|done|congruence|by right]. }
  apply bind_inv in E as [([] & w1 & E5 & E)|(e & E5 & Hr)]; [|left; eapply Hstop; [exact I|apply Reads_logical|exact E5|done|done|by apply quiet_refl]].
  destruct (Reads_logical core old old) as [RQ1 RH1]. destruct (Reads_logical core old new) as [RQ2 RH2].
  pose proof (RQ1 _ _ _ I E5) as Q1. destruct (RH1 _ _ _ E5) as (Hh1 & _ & Ht1). pose proof (qt_inv _ _ _ Q1) as I1.
  apply bind_inv in E as [([] & w2 & E6 & E)|(e & E6 & Hr)]; [|left; eapply Hstop; [exact I1|apply Reads_logical|exact E6|done|done|done]].
  pose proof (RQ2 _ _ _ I1 E6) as Q2. destruct (RH2 _ _ _ E6) as (Hh2 & _ & Ht2).
  right. exists n. split; [done|]. right. exists replaced, w2. split_and!; [by eapply quiet_trans|congruence|congruence|done..|]. by exists w1.
Qed.

(** The old name is not below the new one, and the new one is not below the
    old one once its directories are in the upper. *)
Lemma not_below_new qo co qn cn h k replaced : plain (qo ++ [co]) -> qo ++ [co] <> qn ++ [cn] ->
  view count h (qo ++ [co]) = Some k -> Replaceable (qo ++ [co]) (qn ++ [cn]) h replaced -> ~ under (Upper, qn ++ [cn]) (Upper, qo ++ [co]).
Proof.
  set (old := qo ++ [co]). set (new := qn ++ [cn]). intros Po Hsame Hv [_ Hempty] [s [= Es]]%under_spec. fold old new in Es.
  destruct s as [|c s]; [by rewrite app_nil_r in Es|].
  assert (view count h new = Some KDir) as Hd by (apply (view_prefix _ _ new (c :: s) k); [done|by rewrite <- Es]).
  assert (plain (new ++ [c]) /\ plain s) as [Hpc _] by (apply plain_app; rewrite <- app_assoc; cbn; by rewrite <- Es).
  specialize (Hempty Hd c Hpc). assert (view count h ((new ++ [c]) ++ s) = Some k) as Hvs by (rewrite <- app_assoc; cbn; by rewrite <- Es).
  destruct s; [rewrite app_nil_r in Hvs; congruence|]. apply view_prefix in Hvs; [congruence|done].
Qed.
Lemma move_below_stops qo co qn cn n replaced w r w' : inv w -> single (w_host w) -> plain (qo ++ [co]) -> plain (qn ++ [cn]) ->
  qo ++ [co] <> qn ++ [cn] -> view count (w_host w) (qo ++ [co]) = Some (i_kind n) -> is_dir (i_kind n) && path_starts_with (qn ++ [cn]) (qo ++ [co]) = false ->
  under (Upper, qo ++ [co]) (Upper, qn ++ [cn]) -> move qo qn co cn n replaced w = (r, w') -> (exists e, r = Err e) /\ quiet w w'.
Proof.
  intros I S Po Pn Hsame Hv Hunder [s [= Es]]%under_spec E. destruct s as [|x s _] using rev_ind; [by rewrite app_nil_r in Es|].
  assert (is_dir (i_kind n) = false) as Hnd.
  { apply andb_false_iff in Hunder as [?|Hsw]; [done|]. assert (path_starts_with (qn ++ [cn]) (qo ++ [co]) = true); [|congruence].
    apply path_starts_with_spec. eauto. }
  rewrite app_assoc in Es. apply app_inj_tail in Es as [Es _]. pose proof (proj1 (proj1 (plain_snoc _ _) Pn)) as Pq.
  apply bind_inv in E as [(src & w3 & E7 & E)|(e & E7 & ->)];
    destruct (materialize_spec core (qo ++ [co]) n w _ _ I S ltac:(by destruct qo) Po Hv E7) as [Q3 _]; [|split; [by eexists|done]].
  apply bind_inv in E as [([] & w4 & E8 & E)|(e & E8 & ->)];
    destruct (ensure_upper_parents_quiet core qn cn w3 _ _ (qt_inv _ _ _ Q3) (plain_tidy _ Pq) E8) as (Q4 & _ & D4 & _);
    pose proof (quiet_trans _ _ _ _ Q3 Q4) as Q; [|split; [by eexists|done]].
  exfalso. pose proof (parent_shows core qn w w4 I Q Pq (D4 eq_refl)) as Hd. rewrite Es in Hd.
  assert (view count (w_host w) (qo ++ [co]) = Some KDir) as Hk.
  { destruct s; [by rewrite app_nil_r in Hd|]. eapply view_prefix; [|exact Hd]; done. }
  rewrite Hv in Hk. injection Hk as Hk. by rewrite Hk in Hnd.
Qed.

(** A rename that succeeds moves the tree, unless both names are one; one that
    fails changes the two names at most. *)
Lemma rename_outcome qo co qn cn no_replace w r w' : inv w -> single (w_host w) -> unused (w_temp w) (w_host w) ->
  plain (qo ++ [co]) -> plain (qn ++ [cn]) -> rename core (qo ++ [co]) (qn ++ [cn]) no_replace w = (r, w') ->
  match r with
  | Ok _ => exists k, view count (w_host w) (qo ++ [co]) = Some k /\
      ((w' = w /\ view count (w_host w) (qn ++ [cn]) = Some k /\ (qo ++ [co] = qn ++ [cn] \/ is_file k = true)) \/
       (Renamed qo qn co cn w w' /\ single (w_host w')))
  | Err _ => Confined [qo ++ [co]; qn ++ [cn]] w w'
  end.
Proof.
  intros I S Hun Po Pn E. destruct (rename_cases _ _ _ _ _ _ _ _ I S E) as [[[e ->] Q]|(n & Hv & [(-> & ? & ? & ?)|(replaced & w1 & Q & Hh & Ht & Hvis & Hne & Hunder & Hrep & _ & Em & _)])].
  - by apply Confined_quiet.
  - exists (i_kind n). split; [done|]. by left.
  - pose proof (not_below_new _ _ _ _ _ _ _ Po Hne Hv Hrep) as Hno. pose proof (qt_inv _ _ _ Q) as I1. rewrite <- Hh in Hv, S.
    destruct (decide (under (Upper, qo ++ [co]) (Upper, qn ++ [cn]))) as [Hu|Hon].
    { destruct (move_below_stops _ _ _ _ _ _ _ _ _ I1 S Po Pn Hne Hv Hunder Hu Em) as [[e ->] Q1]. apply Confined_quiet. by eapply quiet_trans. }
    destruct Hrep as [Hrep _]. destruct r as [[]|e].
    + exists (i_kind n). split; [by rewrite <- Hh|]. right.
      assert (Renamed qo qn co cn w1 w' /\ single (w_host w')) as [[Out Rn Ro] Si'].
      { eapply (move_ok qo qn co cn (plain_tidy _ Po) (plain_tidy _ Pn) Hon Hno Po Pn n replaced); rewrite ?Hh, ?Ht; try done; by rewrite <- Hh. }
      rewrite Hh in *. split; [|done]. constructor; [|done..]. eapply Outside_trans; [by apply (Outside_quiet core)|done].
    + eapply Confined_trans; [by apply Confined_quiet|].
      eapply (move_err qo qn co cn (plain_tidy _ Po) (plain_tidy _ Pn) Hon Hno Po Pn n replaced); try done. by destruct replaced.
Qed.
End Checks.
End Rename.
