(* ===== verification/OverlayExchange.v ===== *)
(** * Exchanging

    An exchange that succeeds swaps what shows at two names, with everything
    below them, and shows nothing else differently. *)
From stdpp Require Import base tactics list strings gmap pretty.
From Stdlib Require Import ZArith Lia Ascii.
From S2P Require Import Prelude RustStr FileAccess HostFs HostFsFacts Overlay OverlayView OverlayQuiet OverlayCopy OverlayCopyUp OverlayCreate OverlayRemove OverlayList OverlayFootprint OverlayRename.
Local Open Scope nat_scope.

Section Exchange.
Context (core : OverlayCore) `{AccessOps, Digest256, Laws : !AccessLaws}.
Local Abbreviation count := (oc_lowers core).
Local Abbreviation hinv := (hinv core).
Local Abbreviation inv := (inv core).
Local Abbreviation quiet := (quiet core).
Local Abbreviation hstep := (hstep core).
Local Abbreviation unused := (unused core).

Lemma rename_free h r1 (q1 : Path) c1 r2 (q2 : Path) c2 h' : hinv h -> kind_at h (r1, q1) = Some KDir -> kind_at h (r2, q2) = Some KDir ->
  h_names h !! (r2, q2 ++ [c2]) = None -> fs_rename (r1, q1 ++ [c1]) (r2, q2 ++ [c2]) h = (Ok tt, h') ->
  h' = moved (r1, q1 ++ [c1]) (r2, q2 ++ [c2]) h /\ ~ under (r1, q1 ++ [c1]) (r2, q2 ++ [c2]).
Proof.
  intros I D1 D2 Hfree E. destruct (fs_rename_cases core h r1 q1 c1 r2 q2 c2 _ _ I D1 D2 E) as [?|[_ [x Hx]]]; [done|]. congruence.
Qed.
Lemma look_names h l : wf h -> look h l = None -> h_names h !! l = None.
Proof. intros W Hl. apply node_names; [done|]. unfold look in Hl. by apply fmap_None in Hl. Qed.

Section Swap.
Context (qa qb : Path) (ca cb : string).
Local Abbreviation first := (qa ++ [ca]).
Local Abbreviation second := (qb ++ [cb]).
Context (Pa : plain first) (Pb : plain second) (Hab : ~ under (Upper, first) (Upper, second)) (Hba : ~ under (Upper, second) (Upper, first)).
Context (Ta : tidy first) (Tb : tidy second).
Local Abbreviation swapping := (replacing core qa qb ca cb).


(** The three renames. *)
Lemma swap_names h h1 h2 h3 r n : hinv h -> (oc_has_work core = true /\ r = Work) \/ r = Upper ->
  h_names h !! (r, [temp_of core n]) = None -> is_Some (kind_at h (Upper, first)) -> is_Some (kind_at h (Upper, second)) ->
  fs_rename (Upper, first) (r, [temp_of core n]) h = (Ok tt, h1) ->
  fs_rename (Upper, second) (Upper, first) h1 = (Ok tt, h2) ->
  fs_rename (r, [temp_of core n]) (Upper, second) h2 = (Ok tt, h3) ->
  hstep swapping h h3 /\ (forall s, look h3 (Upper, first ++ s) = look h (Upper, second ++ s)) /\
  (forall s, look h3 (Upper, second ++ s) = look h (Upper, first ++ s)).
Proof.
  intros I Hr Hfree [ka Hka] [kb Hkb] E1 E2 E3.
  assert (~ is_lower (r, [])) as Hl by (by destruct Hr as [[_ ->]| ->]; intros []).
  assert (forall h', hinv h' -> kind_at h' (r, []) = Some KDir) as Hroot.
  { intros h' I'. destruct Hr as [[Hw ->]| ->]; [by apply (rooted_work core _ (hinv_rooted _ _ I'))|apply (rooted_upper core _ (hinv_rooted _ _ I'))]. }
  pose proof (hinv_wf _ _ I) as W. pose proof (wf_parent_dir h Upper qa ca ka W Hka) as Da. pose proof (wf_parent_dir h Upper qb cb kb W Hkb) as Db.
  change [temp_of core n] with ([] ++ [temp_of core n]) in E1, E3, Hfree.
  destruct (rename_free h Upper qa ca r [] (temp_of core n) h1 I Da (Hroot h I) Hfree E1) as [-> U1].
  pose proof (moved_step core h Upper qa ca r [] (temp_of core n) I ltac:(by intros []) Hl (Hroot h I) U1) as S1.
  set (h1 := moved _ _ h) in *. pose proof (hs_inv _ _ _ _ S1) as I1.
  assert (forall l, ~ under (Upper, first) l -> ~ under (r, [temp_of core n]) l -> look h1 l = look h l) as L1.
  { intros l H1 H2. apply (hs_look _ _ _ _ S1). by intros [?|?]. }
  assert (forall s, look h1 (r, temp_of core n :: s) = look h (Upper, first ++ s)) as M1 by (intros s; by apply (look_moved_to h (Upper, first) (r, [] ++ [temp_of core n]) s)).
  assert (forall q : Path, tidy q -> ~ under (r, [temp_of core n]) (Upper, q)) as Htq.
  { intros q Hq [s [= _ E]]%under_spec. apply (tidy_temp_free core Upper q Hq n). unfold temp_in; cbn. rewrite E. apply elem_of_cons. by left. }
  assert (tidy qa /\ tidy qb) as [Tqa Tqb] by (split; [by apply tidy_app in Ta as [? _]|by apply tidy_app in Tb as [? _]]).
  assert (kind_at h1 (Upper, qa) = Some KDir) as Da1.
  { rewrite (kind_of_look h); [done|]. apply L1; [apply parent_short|by apply Htq]. }
  assert (kind_at h1 (Upper, qb) = Some KDir) as Db1.
  { rewrite (kind_of_look h); [done|]. apply L1; [by eapply parent_off|by apply Htq]. }
  assert (h_names h1 !! (Upper, first) = None) as F1.
  { apply look_names; [apply I1|]. apply look_moved_from; [done| |apply under_refl]. apply (Htq _ Ta). }
  destruct (rename_free h1 Upper qb cb Upper qa ca h2 I1 Db1 Da1 F1 E2) as [-> U2].
  pose proof (moved_step core h1 Upper qb cb Upper qa ca I1 ltac:(by intros []) ltac:(by intros []) Da1 U2) as S2.
  set (h2 := moved _ _ h1) in *. pose proof (hs_inv _ _ _ _ S2) as I2.
  assert (forall l, ~ under (Upper, first) l -> ~ under (Upper, second) l -> look h2 l = look h1 l) as L2.
  { intros l H1 H2. apply (hs_look _ _ _ _ S2). by intros [?|?]. }
  assert (forall s, look h2 (Upper, first ++ s) = look h1 (Upper, second ++ s)) as M2 by (intros s; by apply (look_moved_to h1 (Upper, second) (Upper, first) s)).
  assert (kind_at h2 (Upper, qb) = Some KDir) as Db2.
  { rewrite (kind_of_look h1); [done|]. apply L2; [by eapply parent_off|apply parent_short]. }
  assert (h_names h2 !! (Upper, second) = None) as F2.
  { apply look_names; [apply I2|]. by apply look_moved_from; [..|apply under_refl]. }
  destruct (rename_free h2 r [] (temp_of core n) Upper qb cb h3 I2 (Hroot h2 I2) Db2 F2 E3) as [-> U3].
  pose proof (moved_step core h2 r [] (temp_of core n) Upper qb cb I2 Hl ltac:(by intros []) Db2 U3) as S3.
  split_and!.
  - assert (forall l, under (r, [] ++ [temp_of core n]) l -> ~ temp_free core l) as Htmp.
    { intros l [s ->]%under_spec Hf. apply (Hf n). unfold temp_in; cbn. apply elem_of_cons. by left. }
    eapply hstep_trans; [eapply hstep_weaken; [exact S1|]|eapply hstep_trans; [eapply hstep_weaken; [exact S2|]|eapply hstep_weaken; [exact S3|]]];
      intros l [Hu|Hu]; unfold replacing; eauto using Htmp.
  - intros s. rewrite (hs_look _ _ _ _ S3); [rewrite M2; apply L1|]; [..|intros [Hu|Hu]].
    + intros [s' [= Es]]%under_spec. by apply apart_app in Es.
    + by apply temp_not_under.
    + revert Hu. by apply temp_not_under.
    + apply under_spec in Hu as [s' [= Es]]. by apply apart_app in Es.
  - intros s. etrans; [exact (look_moved_to h2 (r, [] ++ [temp_of core n]) (Upper, second) s U3)|]. cbn [fst snd app].
    rewrite L2; [apply M1|..]; by apply not_under_temp.
Qed.

(** The swapped trees take their whiteouts along. *)
Lemma single_below (p p' : Path) h h' s x : plain p -> single h -> (forall s, look h' (Upper, p' ++ s) = look h (Upper, p ++ s)) ->
  plain ((p' ++ s) ++ [x]) -> is_Some (kind_at h' (Upper, (p' ++ s) ++ [x])) -> kind_at h' (whiteout_path (p' ++ s) x) = None.
Proof.
  intros Hpp Si L Hp Hs.
  assert (kind_at h' (whiteout_path (p' ++ s) x) = kind_at h (whiteout_path (p ++ s) x)) as ->.
  { unfold whiteout_path. rewrite <- (app_assoc p'), <- (app_assoc p). apply kind_look, L. }
  rewrite <- (app_assoc p') in Hs, Hp. rewrite (kind_look _ _ _ _ (L (s ++ [x]))) in Hs.
  apply Si; rewrite <- (app_assoc p); [|done]. apply plain_app. split; [done|]. by apply plain_app in Hp as [_ ?].
Qed.
Lemma single_swapped h h' : hstep swapping h h' -> single h -> is_Some (kind_at h (Upper, first)) -> is_Some (kind_at h (Upper, second)) ->
  (forall s, look h' (Upper, first ++ s) = look h (Upper, second ++ s)) ->
  (forall s, look h' (Upper, second ++ s) = look h (Upper, first ++ s)) -> single h'.
Proof.
  intros S Si Ka Kb La Lb a b Hp Hs. pose proof (plain_tidy _ Hp) as Hta.
  assert (forall (p q : Path) c, p = q ++ [c] -> forall s, q <> p ++ s) as Hshort.
  { intros p q c -> s E. apply (f_equal length) in E. rewrite !length_app in E. cbn in E. lia. }
  destruct (decide (under (Upper, first) (Upper, a ++ [b]))) as [[s [= E]]%under_spec|Hu1];
    [|destruct (decide (under (Upper, second) (Upper, a ++ [b]))) as [[s [= E]]%under_spec|Hu2]].
  - destruct s as [|x s _] using rev_ind; [|rewrite app_assoc in E; apply app_inj_tail in E as [-> ->]; by eapply (single_below second first h)].
    rewrite app_nil_r in E. apply app_inj_tail in E as [-> ->]. rewrite (kind_of_look h); [by apply Si|]. apply (hs_look _ _ _ _ S).
      apply (replacing_marker core qa qb ca cb); try done; [by eapply Hshort|]. intros s. by apply (parent_off_apart second qa ca s).
  - destruct s as [|x s _] using rev_ind; [|rewrite app_assoc in E; apply app_inj_tail in E as [-> ->]; by eapply (single_below first second h)].
    rewrite app_nil_r in E. apply app_inj_tail in E as [-> ->]. rewrite (kind_of_look h); [by apply Si|]. apply (hs_look _ _ _ _ S).
      apply (replacing_marker core qa qb ca cb); try done; [|by eapply Hshort]. intros s. by apply (parent_off_apart first qb cb s).
  - rewrite (kind_of_look h).
    + apply Si; [done|]. rewrite (kind_of_look h) in Hs; [done|]. apply (hs_look _ _ _ _ S). intros [?|[?|Ht]]; [done|done|]. by apply Ht, tidy_temp_free.
    + apply (hs_look _ _ _ _ S), (replacing_marker core qa qb ca cb); try done; intros s; by apply (parent_off_apart _ a b s).
Qed.

(** ** The groups of copied hard links *)

Lemma groups_swapped w w' w'' : inv w -> hstep swapping (w_host w) (w_host w') -> w_groups w' = w_groups w ->
  (forall s, look (w_host w') (Upper, first ++ s) = look (w_host w) (Upper, second ++ s)) ->
  (forall s, look (w_host w') (Upper, second ++ s) = look (w_host w) (Upper, first ++ s)) ->
  map_groups (swap_path first second) w' = (Ok tt, w'') ->
  inv w'' /\ w_host w'' = w_host w' /\ w_preimages w'' = w_preimages w'.
Proof.
  intros I S Hg L1 L2 E. injection E as <-. cbn [w_host w_preimages set_groups]. split_and!; [|done..].
  constructor; cbn [w_host set_groups]; [apply S|]. unfold groups_agree. cbn [w_host set_groups w_groups]. intros i paths p Hi Hp.
  rewrite Hg in Hi. apply lookup_fmap_Some in Hi as (paths0 & <- & Hi). apply list_elem_of_fmap in Hp as (p0 & -> & Hp0).
  destruct (inv_groups _ w I i paths0 p0 Hi Hp0) as (Ht & l & n & Hlow & Hnl & Hni & Hf & Hkp).
  destruct (hstep_inode _ _ _ _ _ _ _ S Hlow Hnl Hni) as [Hnl' Hni'].
  unfold swap_path. destruct (strip_path first p0) as [s|] eqn:Es; [|destruct (strip_path second p0) as [s|] eqn:Es2].
  - apply strip_path_Some in Es as ->. split; [apply tidy_app; split; [done|by apply tidy_app in Ht as [_ ?]]|].
    exists l, n. split_and!; [done..|]. by rewrite (kind_look _ _ _ _ (L2 s)).
  - apply strip_path_Some in Es2 as ->. split; [apply tidy_app; split; [done|by apply tidy_app in Ht as [_ ?]]|].
    exists l, n. split_and!; [done..|]. by rewrite (kind_look _ _ _ _ (L1 s)).
  - split; [done|]. exists l, n. split_and!; [done..|]. rewrite (kind_of_look (w_host w)); [done|]. apply (hs_look _ _ _ _ S).
    intros [Hu|[Hu|Hu]].
    + apply under_spec in Hu as [s [= ->]]. by rewrite strip_path_app in Es.
    + apply under_spec in Hu as [s [= ->]]. by rewrite strip_path_app in Es2.
    + destruct Hu. by apply tidy_temp_free.
Qed.

Record Exchanged (w w' : World) : Prop := mkExchanged {
  ex_outside : Outside core [first; second] w w';
  ex_first s : plain s -> view count (w_host w') (first ++ s) = view count (w_host w) (second ++ s);
  ex_second s : plain s -> view count (w_host w') (second ++ s) = view count (w_host w) (first ++ s)
}.

(** The renames of an exchange. *)
Definition swap_moves (temporary : Loc) : Op unit :=
  _ ← call (fs_rename (Upper, first) temporary);
  _ ← on_error (call (fs_rename (Upper, second) (Upper, first))) (ignore (call (fs_rename temporary (Upper, first))));
  _ ← on_error (call (fs_rename temporary (Upper, second)))
        (_ ← ignore (call (fs_rename (Upper, first) (Upper, second))); ignore (call (fs_rename temporary (Upper, first))));
  map_groups (swap_path first second).
Lemma Unused_swap_moves r q n : settled core (S n) (r, q ++ [temp_of core n]) ->
  Track core (S n) any (swap_moves (r, q ++ [temp_of core n])).
Proof.
  intros Hset. unfold swap_moves. apply Track_bind; [apply Track_call, HostTrack_rename; [apply place_any..|done]|]. intros _.
  apply Track_bind; [apply Track_on_error; [|apply Track_ignore]; by apply Unused_rename_call|]. intros _.
  apply Track_bind; [apply Track_on_error; [by apply Unused_rename_call|]|].
  - apply Track_bind; [|intros _]; by apply Track_ignore, Unused_rename_call.
  - intros _. eapply Track_weaken; [apply Nat.le_0_l|done|apply Unused_map_groups].
Qed.

Section Open.

Definition swap (a b : Inode) : Op unit :=
  first_upper ← materialize core first a;
  second_upper ← materialize core second b;
  temporary ← temporary_path core [];
  _ ← call (fs_rename first_upper temporary);
  _ ← on_error (call (fs_rename second_upper first_upper)) (ignore (call (fs_rename temporary first_upper)));
  _ ← on_error (call (fs_rename temporary second_upper))
        (_ ← ignore (call (fs_rename first_upper second_upper)); ignore (call (fs_rename temporary first_upper)));
  map_groups (swap_path first second).

Lemma swap_ok a b w w' : inv w -> single (w_host w) -> unused (w_temp w) (w_host w) ->
  view count (w_host w) first = Some (i_kind a) -> view count (w_host w) second = Some (i_kind b) ->
  swap a b w = (Ok tt, w') -> Exchanged w w' /\ single (w_host w') /\ unused (w_temp w') (w_host w').
Proof.
  intros I Si Hun Hva Hvb E.
  apply bind_inv in E as [(la & w1 & E1 & E)|(e & _ & [=])].
  destruct (materialize_spec core first a w _ w1 I Si ltac:(by destruct qa) Pa Hva E1) as [Q1 M1].
  destruct (M1 la eq_refl) as (-> & K1 & Se1). pose proof (Track_materialize core 0 first a Ta w _ w1 ltac:(lia) E1) as T1.
  pose proof (qt_inv _ _ _ Q1) as I1. pose proof (hq_single _ _ _ (qt_host _ _ _ Q1) Si) as Si1.
  assert (view count (w_host w1) second = Some (i_kind b)) as Hvb1 by (by rewrite (hq_view _ _ _ (qt_host _ _ _ Q1))).
  apply bind_inv in E as [(lb & w2 & E2 & E)|(e & _ & [=])].
  destruct (materialize_spec core second b w1 _ w2 I1 Si1 ltac:(by destruct qb) Pb Hvb1 E2) as [Q2 M2].
  destruct (M2 lb eq_refl) as (-> & K2 & Se2). pose proof (Track_materialize core 0 second b Tb w1 _ w2 ltac:(lia) E2) as T2.
  pose proof (qt_inv _ _ _ Q2) as I2. pose proof (quiet_trans _ _ _ _ Q1 Q2) as Q.
  pose proof (sealed_shut core _ _ (inv_host _ _ I2) (sealed_quiet core _ _ _ (qt_host _ _ _ Q2) Se1)) as Sa.
  pose proof (sealed_shut core _ _ (inv_host _ _ I2) Se2) as Sb.
  pose proof (hq_grow _ _ _ (qt_host _ _ _ Q2) first _ Ta K1) as K1'.
  pose proof (tk_unused _ _ _ _ T2 (tk_unused _ _ _ _ T1 Hun)) as Hun2.
  destruct (temporary_path_temp core [] w2) as (r & q & Etp & Hw).
  apply bind_inv in E as [(l & w3 & Et & E)|(e & _ & [=])]. rewrite Etp in Et. injection Et as <- <-.
  assert (q = []) as -> by (by destruct Hw as [(_ & _ & ->)|(_ & ->)]). cbn [app] in E. match type of E with _ ?wx = _ => assert (swap_moves (r, [temp_of core (w_temp w2)]) wx = (Ok tt, w')) as E0 by exact E end.
  apply bind_inv in E as [([] & w4 & E4 & E)|(e & _ & [=])]. apply call_Ok in E4 as (h1 & Eh1 & ->). cbn [w_host set_host] in Eh1.
  apply bind_inv in E as [([] & w5 & E5 & E)|(e & _ & [=])]. apply on_error_Ok, call_Ok in E5 as (h2 & Eh2 & ->). cbn [w_host set_host] in Eh2.
  apply bind_inv in E as [([] & w6 & E6 & E)|(e & _ & [=])]. apply on_error_Ok, call_Ok in E6 as (h3 & Eh3 & ->). cbn [w_host set_host] in Eh3.
  assert (h_names (w_host w2) !! (r, [temp_of core (w_temp w2)]) = None) as Hfree.
  { apply (Hun2 _ (w_temp w2)); [|done]. unfold temp_in; cbn. apply elem_of_cons. by left. }
  destruct (swap_names (w_host w2) h1 h2 h3 r (w_temp w2) (inv_host _ _ I2) ltac:(naive_solver) Hfree (ex_intro _ _ K1') (ex_intro _ _ K2) Eh1 Eh2 Eh3)
    as (S3 & La & Lb).
  match type of E with map_groups _ ?wx = _ => destruct (groups_swapped w2 wx w' I2 S3 eq_refl La Lb E) as (I' & H' & P') end.
  cbn [w_host set_host w_preimages drop_fault] in H', P'.
  split; [constructor|split].
  - eapply Outside_trans; [apply (Outside_quiet core), Q|].
    constructor; rewrite ?H'; [done|apply S3|intros i p; apply (hs_lower _ _ _ _ S3)|intros; by apply (replacing_view core qa qb ca cb)|by rewrite P'].
  - intros s Hs. rewrite H'. rewrite (moved_view core qb qa cb ca Pb Pa (w_host w2) h3) by first [done | apply I2 | apply S3 | by eexists].
    apply (hq_view _ _ _ (qt_host _ _ _ Q)). by apply plain_app.
  - intros s Hs. rewrite H'. rewrite (moved_view core qa qb ca cb Pa Pb (w_host w2) h3) by first [done | apply I2 | apply S3 | by eexists].
    apply (hq_view _ _ _ (qt_host _ _ _ Q)). by apply plain_app.
  - rewrite H'. apply (single_swapped (w_host w2)); try done; [by apply (single_quiet core w)|by eexists..].
  - assert (Track core (S (w_temp w2)) any (swap_moves (r, [] ++ [temp_of core (w_temp w2)]))) as T.
    { apply Unused_swap_moves. intros n Hn. cbn in Hn. apply list_elem_of_singleton, temp_of_inj in Hn as ->. lia. }
    refine (tk_unused _ _ _ _ (T _ _ _ _ E0) _); [by cbn|]. intros l n Hl Hle. apply (Hun2 l n Hl). cbn in Hle. lia.
Qed.

(** When the exchange fails, its renames have changed the two names at most. *)
Lemma swap_moves_step r n w : hinv (w_host w) -> (oc_has_work core = true /\ r = Work) \/ r = Upper -> kept qa qb (w_host w) ->
  wstep core (moving core qa qb ca cb) w (swap_moves (r, [temp_of core n]) w).2.
Proof.
  intros I Hr K. set (P := moving core qa qb ca cb).
  assert (~ is_lower (r, [])) as Hl by (by destruct Hr as [[_ ->]| ->]; intros []).
  assert (forall w1, wstep core P w w1 -> hinv (w_host w1) /\ kept qa qb (w_host w1) /\ kind_at (w_host w1) (r, []) = Some KDir) as Hthen.
  { intros w1 S1. assert (hinv (w_host w1)) as I1 by apply S1. split_and!; [done|by apply (moving_kept core qa qb ca cb Ta Tb Hab Hba (w_host w)); [apply S1|]|].
    destruct Hr as [[Hw ->]| ->]; [by apply (rooted_work core _ (hinv_rooted _ _ I1))|apply (rooted_upper core _ (hinv_rooted _ _ I1))]. }
  assert (forall r1 q1 c1 r2 q2 c2, ~ is_lower (r1, q1) -> ~ is_lower (r2, q2) ->
            (forall l, under (r1, q1 ++ [c1]) l \/ under (r2, q2 ++ [c2]) l -> P l) ->
            (forall w1, wstep core P w w1 -> kind_at (w_host w1) (r1, q1) = Some KDir /\ kind_at (w_host w1) (r2, q2) = Some KDir) ->
            forall w1, wstep core P w w1 -> wstep core P w1 (call (fs_rename (r1, q1 ++ [c1]) (r2, q2 ++ [c2])) w1).2) as Hcall.
  { intros r1 q1 c1 r2 q2 c2 H1 H2 HP Hk w1 S1. apply wstep_call; [by apply Hthen|]. destruct (Hk w1 S1).
    eapply hstep_weaken; [apply rename_step; try done; by apply Hthen|exact HP]. }
  assert (forall l, under (Upper, first) l -> P l) as Pfirst by (intros l Hu; left; by left).
  assert (forall l, under (Upper, second) l -> P l) as Psecond by (intros l Hu; left; right; by left).
  assert (forall l, under (r, [] ++ [temp_of core n]) l -> P l) as Ptemp by (intros l; by apply under_temp_moving).
  assert (forall w1, wstep core P w w1 -> wstep core P w1 (call (fs_rename (Upper, first) (r, [temp_of core n])) w1).2) as C1.
  { apply (Hcall Upper qa ca r [] (temp_of core n)); [by intros []|done|intros l [?|?]; auto|]. intros w1 S1. by destruct (Hthen w1 S1) as (_ & [] & ?). }
  assert (forall w1, wstep core P w w1 -> wstep core P w1 (call (fs_rename (r, [temp_of core n]) (Upper, first)) w1).2) as C2.
  { apply (Hcall r [] (temp_of core n) Upper qa ca); [done|by intros []|intros l [?|?]; auto|]. intros w1 S1. by destruct (Hthen w1 S1) as (_ & [] & ?). }
  assert (forall w1, wstep core P w w1 -> wstep core P w1 (call (fs_rename (r, [temp_of core n]) (Upper, second)) w1).2) as C3.
  { apply (Hcall r [] (temp_of core n) Upper qb cb); [done|by intros []|intros l [?|?]; auto|]. intros w1 S1. by destruct (Hthen w1 S1) as (_ & [] & ?). }
  assert (forall w1, wstep core P w w1 -> wstep core P w1 (call (fs_rename (Upper, second) (Upper, first)) w1).2) as C4.
  { apply (Hcall Upper qb cb Upper qa ca); [by intros []|by intros []|intros l [?|?]; auto|]. intros w1 S1. by destruct (Hthen w1 S1) as (_ & [] & ?). }
  assert (forall w1, wstep core P w w1 -> wstep core P w1 (call (fs_rename (Upper, first) (Upper, second)) w1).2) as C5.
  { apply (Hcall Upper qa ca Upper qb cb); [by intros []|by intros []|intros l [?|?]; auto|]. intros w1 S1. by destruct (Hthen w1 S1) as (_ & [] & ?). }
  apply wstep_bind; [by apply C1, wstep_refl|]. intros [] w1 _ S1. apply wstep_bind.
  { apply wstep_on_error; [by apply C4|]. intros w2 S2. apply wstep_ignore, C2. by eapply wstep_trans. }
  intros [] w2 _ S2. pose proof (wstep_trans _ _ _ _ _ S1 S2) as S02. apply wstep_bind.
  - apply wstep_on_error; [by apply C3|]. intros w3 S3. pose proof (wstep_trans _ _ _ _ _ S02 S3) as S03. apply wstep_bind; [by apply wstep_ignore, C5|].
    intros [] w4 _ S4. apply wstep_ignore, C2. by eapply wstep_trans.
  - intros [] w3 _ S3. pose proof (wstep_trans _ _ _ _ _ S02 S3) as S03. split; [|done]. exact (hstep_refl core P (w_host w3) (proj1 (Hthen w3 S03))).
Qed.
Lemma swap_err a b w e w' : inv w -> single (w_host w) -> view count (w_host w) first = Some (i_kind a) -> view count (w_host w) second = Some (i_kind b) ->
  swap a b w = (Err e, w') -> Confined core [first; second] w w'.
Proof.
  intros I Si Hva Hvb E.
  apply bind_inv in E as [(la & w1 & E1 & E)|(e1 & E1 & _)];
    destruct (materialize_spec core first a w _ _ I Si ltac:(by destruct qa) Pa Hva E1) as [Q1 M1]; [|by apply Confined_quiet].
  destruct (M1 la eq_refl) as (-> & K1 & _). pose proof (qt_inv _ _ _ Q1) as I1. pose proof (hq_single _ _ _ (qt_host _ _ _ Q1) Si) as Si1.
  assert (view count (w_host w1) second = Some (i_kind b)) as Hvb1 by (by rewrite (hq_view _ _ _ (qt_host _ _ _ Q1))).
  apply bind_inv in E as [(lb & w2 & E2 & E)|(e2 & E2 & _)];
    destruct (materialize_spec core second b w1 _ _ I1 Si1 ltac:(by destruct qb) Pb Hvb1 E2) as [Q2 M2];
    [|by apply Confined_quiet; eapply quiet_trans].
  destruct (M2 lb eq_refl) as (-> & K2 & _). pose proof (qt_inv _ _ _ Q2) as I2.
  eapply Confined_trans; [apply Confined_quiet; by eapply quiet_trans|].
  destruct (temporary_path_temp core [] w2) as (r & q & Etp & Hw).
  apply bind_inv in E as [(l & w3 & Et & E)|(e3 & Et & _)]; rewrite Etp in Et; [|done]. injection Et as <- <-.
  assert (q = []) as -> by (by destruct Hw as [(_ & _ & ->)|(_ & ->)]). cbn [app] in E.
  match type of E with _ ?wx = _ => set (w3 := wx) in E end. pose proof (hinv_wf _ _ (inv_host _ _ I2)) as W2.
  assert (kept qa qb (w_host w3)) as K.
  { pose proof (hq_grow _ _ _ (qt_host _ _ _ Q2) first _ Ta K1) as K1'. split; [by eapply (wf_parent_dir _ Upper qa ca)|by eapply (wf_parent_dir _ Upper qb cb)]. }
  assert (hinv (w_host w3)) as I3 by apply I2. pose proof (swap_moves_step r (w_temp w2) w3 I3 ltac:(naive_solver) K) as [S P].
  unfold swap_moves in S, P. rewrite E in S, P. cbn [snd] in S, P.
  constructor; [apply S|apply S|intros i p; apply (hs_lower _ _ _ _ S)|intros p; by eapply (moving_view core qa qb ca cb)|by rewrite P].
Qed.
End Open.
End Swap.

(** What the checks of an exchange leave behind. *)
Definition exchange_checks (first second : Path) : Op unit :=
  _ ← require_tree_access core first second; _ ← require_tree_access core second first;
  _ ← record_logical_tree_mapping core first first; _ ← record_logical_tree_mapping core second second;
  _ ← record_logical_tree_mapping core first second; record_logical_tree_mapping core second first.
Lemma Reads_exchange_checks first second : Reads core (exchange_checks first second).
Proof.
  unfold exchange_checks. repeat (apply Reads_bind; [first [apply Reads_tree_access | apply Reads_logical]|intros _]). apply Reads_logical.
Qed.

(** An exchange stops in its checks, has nothing to do, or swaps the trees. *)
Lemma exchange_cases qa ca qb cb w r w' : inv w -> exchange core (qa ++ [ca]) (qb ++ [cb]) w = (r, w') ->
  ((exists e, r = Err e) /\ quiet w w') \/ (r = Ok tt /\ qa ++ [ca] = qb ++ [cb] /\ w' = w) \/
  exists a b w1, view count (w_host w) (qa ++ [ca]) = Some (i_kind a) /\ view count (w_host w) (qb ++ [cb]) = Some (i_kind b) /\
    ~ under (Upper, qa ++ [ca]) (Upper, qb ++ [cb]) /\ ~ under (Upper, qb ++ [cb]) (Upper, qa ++ [ca]) /\
    exchange_checks (qa ++ [ca]) (qb ++ [cb]) w = (Ok tt, w1) /\ swap qa qb ca cb a b w1 = (r, w').
Proof.
  intros I E. set (first := qa ++ [ca]) in *. set (second := qb ++ [cb]) in *. unfold exchange in E. pose proof (quiet_refl core w I) as Qr.
  apply bind_inv in E as [([] & w0 & [= _ <-] & E)|(e & E0 & ->)]; [|injection E0 as _ <-; left; split; [by eexists|done]].
  apply bind_inv in E as [([] & w0 & [= _ <-] & E)|(e & E0 & ->)]; [|injection E0 as _ <-; left; split; [by eexists|done]].
  case_bool_decide as Hsame; [injection E as <- <-; right; by left|].
  destruct (path_starts_with first second || path_starts_with second first) eqn:Hsw; [injection E as <- <-; left; split; [by eexists|done]|].
  apply orb_false_iff in Hsw as [Hsw1 Hsw2].
  assert (forall p q : Path, path_starts_with q p = false -> ~ under (Upper, p) (Upper, q)) as Hapart.
  { intros p q Hpq [s [= ->]]%under_spec. assert (path_starts_with (p ++ s) p = true); [|congruence]. apply path_starts_with_spec. eauto. }
  apply bind_inv in E as [(a & w1 & E1 & E)|(e & E1 & ->)]; [|left; split; [by eexists|by eapply (Quiet_metadata core)]].
  pose proof (metadata_view core w first a w1 I E1) as Hva. destruct (metadata_Ok core w first a w1 I E1) as (-> & _ & _).
  apply bind_inv in E as [(b & w1 & E2 & E)|(e & E2 & ->)]; [|left; split; [by eexists|by eapply (Quiet_metadata core)]].
  pose proof (metadata_view core w second b w1 I E2) as Hvb. destruct (metadata_Ok core w second b w1 I E2) as (-> & _ & _).
  assert ((_ ← exchange_checks first second; swap qa qb ca cb a b) w = (r, w')) as E'.
  { rewrite <- E. unfold exchange_checks. repeat (rewrite bind_assoc; apply bind_ext; intros [] ?). done. }
  clear E. apply bind_inv in E' as [([] & w1 & E3 & E)|(e & E3 & ->)]; [|left; split; [by eexists|by eapply (Reads_exchange_checks first second)]].
  right. right. exists a, b, w1. split_and!; auto.
Qed.

(** An exchange that succeeds swaps the trees, unless both names are one; one
    that fails changes the two names at most. *)
Lemma exchange_outcome qa ca qb cb w r w' :
  inv w -> single (w_host w) -> unused (w_temp w) (w_host w) -> plain (qa ++ [ca]) -> plain (qb ++ [cb]) ->
  exchange core (qa ++ [ca]) (qb ++ [cb]) w = (r, w') ->
  match r with
  | Ok _ =>
      (qa ++ [ca] = qb ++ [cb] /\ w' = w) \/
      (is_Some (view count (w_host w) (qa ++ [ca])) /\ is_Some (view count (w_host w) (qb ++ [cb])) /\ Exchanged qa qb ca cb w w' /\
       single (w_host w') /\ unused (w_temp w') (w_host w'))
  | Err _ => Confined core [qa ++ [ca]; qb ++ [cb]] w w'
  end.
Proof.
  intros I S Hun Pa Pb E.
  destruct (exchange_cases _ _ _ _ _ _ _ I E) as [[[e ->] Q]|[(-> & ? & ?)|(a & b & w1 & Hva & Hvb & Hab & Hba & Ec & Es)]]; [by apply Confined_quiet|by left|].
  destruct (Reads_exchange_checks (qa ++ [ca]) (qb ++ [cb])) as [RQ RH]. pose proof (RQ _ _ _ I Ec) as Q.
  destruct (RH _ _ _ Ec) as (Hh & _ & Ht). pose proof (qt_inv _ _ _ Q) as I1. rewrite <- Hh in S, Hva, Hvb. rewrite <- Hh, <- Ht in Hun. destruct r as [[]|e].
  - right. rewrite <- Hh at 1 2. split; [by eexists|]. split; [by eexists|].
    assert (Exchanged qa qb ca cb w1 w' /\ single (w_host w') /\ unused (w_temp w') (w_host w')) as ([Out Xa Xb] & Si' & Un').
    { by eapply (swap_ok qa qb ca cb Pa Pb Hab Hba (plain_tidy _ Pa) (plain_tidy _ Pb) a b). }
    rewrite Hh in *. split; [|done]. constructor; [|done..]. eapply Outside_trans; [by apply (Outside_quiet core)|done].
  - eapply Confined_trans; [by apply Confined_quiet|].
    by eapply (swap_err qa qb ca cb Pa Pb Hab Hba (plain_tidy _ Pa) (plain_tidy _ Pb) a b).
Qed.
End Exchange.
