(* ===== verification/OverlayLink.v ===== *)
(** * Hard links

    A hard link that succeeds shows at its destination what its source shows, and
    changes nothing else. *)
From stdpp Require Import base tactics list strings gmap pretty.
From Stdlib Require Import ZArith Lia Ascii.
From S2P Require Import Prelude RustStr FileAccess HostFs HostFsFacts Overlay OverlayView OverlayQuiet OverlayCopy OverlayCopyUp OverlayCreate OverlayRemove.
Local Open Scope nat_scope.

Section Link.
Context (core : OverlayCore) `{AccessOps, Digest256}.
Local Abbreviation count := (oc_lowers core).
Local Abbreviation inv := (inv core).
Local Abbreviation quiet := (quiet core).
Local Abbreviation Only := (Only core).
Local Abbreviation OnlyIn := (OnlyIn core).

Lemma link_only q c p k w r w' : inv w -> kind_at (w_host w) (Upper, q) = Some KDir -> kind_at (w_host w) (Upper, p) = Some k -> k <> KDir ->
  call (fs_hard_link (Upper, p) (Upper, q ++ [c])) w = (r, w') ->
  Only (Upper, q ++ [c]) w w' /\ w_groups w' = w_groups w /\
  match r with
  | Ok _ => node (w_host w) (Upper, q ++ [c]) = None /\ kind_at (w_host w') (Upper, q ++ [c]) = Some k
  | Err _ => w_host w' = w_host w
  end.
Proof.
  intros I Hd Hk Hnd E. pose proof (hinv_wf _ _ (inv_host _ w I)) as W.
  apply call_cases in E as [(e & -> & ->)|(h & Eh & ->)]; [split_and!; [by apply (Only_drop core)|done..]|].
  unfold fs_hard_link, in_directory in Eh. rewrite reach_present in Eh by (done || by eexists).
  rewrite (proj2 (reach_ok (w_host w) Upper q c W) Hd) in Eh.
  pose proof Hk as (n & (j & Hj & Hjn)%node_Some & Hkn)%kind_at_Some. rewrite Hj, Hk in Eh. set (dst := (Upper, q ++ [c])) in *.
  assert ((r, h) = match h_names (w_host w) !! dst with Some _ => (Err EEXIST, w_host w) | None => (Ok tt, set_names (<[dst := j]> (h_names (w_host w))) (w_host w)) end) as Eh'
    by (destruct k; by rewrite <- Eh). clear Eh.
  destruct (h_names (w_host w) !! dst) as [x|] eqn:Et; injection Eh' as -> ->; [split_and!; [by apply (Only_same core)|done..]|].
  assert (forall l, l <> dst -> look (set_names (<[dst := j]> (h_names (w_host w))) (w_host w)) l = look (w_host w) l) as Hlook.
  { intros l Hne. unfold look. by rewrite node_link, decide_False. }
  split_and!; [|done|by apply node_names|unfold kind_at; cbn; rewrite node_link, decide_True, Hjn by done; cbn; congruence].
  apply (Only_set_host core); [done| |done| |done|].
  - constructor; [apply (wf_link (w_host w) Upper q c (Upper, p) j n); try done; by rewrite Hkn|eapply (hinv_rooted_look core); [apply I|exact Hlook|by destruct q]|].
    intros l1 l2 i. cbn. rewrite !lookup_insert_Some. intros [[<- <-]|[_ H1]] [[<- H2]|[_ H2]] Hlow; try done.
    + subst i. exfalso. by apply (hinv_apart _ _ (inv_host _ w I) l1 (Upper, p) j H1 Hj) in Hlow.
    + by apply (hinv_apart _ _ (inv_host _ w I) l1 l2 i).
  - intros i p'. split; [cbn; by rewrite lookup_insert_ne|]. rewrite node_link. by rewrite decide_False.
  - intros p' k' _ _ (m & (i & Hi & _)%node_Some & _)%kind_at_Some. congruence.
Qed.

(** A path that joins the group of a path that shows the same. *)
Lemma extend_group_ok source destination w : inv w -> tidy destination -> kind_at (w_host w) (Upper, destination) = kind_at (w_host w) (Upper, source) ->
  (extend_group source destination w).1 = Ok tt /\ quiet w (extend_group source destination w).2 /\
  w_host (extend_group source destination w).2 = w_host w.
Proof.
  intros I Ht Hk. unfold extend_group. destruct (List.find _ _) as [[i paths]|] eqn:Ef; [|split_and!; [done|by apply quiet_refl|done]].
  apply List.find_some in Ef as [Hin Hs%bool_decide_eq_true]. apply list_elem_of_In, elem_of_map_to_list in Hin.
  split_and!; [done| |done]. constructor; [|apply hquiet_refl, I|done]. constructor; [apply I|].
  intros j ps p Hj Hp. cbn in Hj. apply lookup_insert_Some in Hj as [[<- <-]|[_ Hj]]; [|by apply (inv_groups _ w I j ps p)].
  apply elem_of_app in Hp as [Hp| ->%list_elem_of_singleton]; [by apply (inv_groups _ w I i paths p)|].
  split; [done|]. destruct (inv_groups _ w I i paths source Hin Hs) as (_ & l & n & ? & ? & ? & ? & ?). exists l, n. split_and!; try done. cbn. congruence.
Qed.

Lemma hard_link_changes source q c w r w' : inv w -> tidy source -> plain (q ++ [c]) -> hard_link core source (q ++ [c]) w = (r, w') ->
  match r with
  | Ok _ => exists k, view count (w_host w) source = Some k /\ k <> KDir /\ view count (w_host w) (q ++ [c]) = None /\
      view count (w_host w) q = Some KDir /\ Changed core (q ++ [c]) (Some k) w w'
  | Err _ => Outside core [q ++ [c]] w w'
  end /\ (single (w_host w) -> single (w_host w')).
Proof.
  intros I Hts Hp E. set (rel := q ++ [c]) in *. pose proof (plain_tidy _ Hp) as Ht. pose proof (proj1 (proj1 (tidy_snoc _ _) Ht)) as Htq.
  assert (forall w1, quiet w w1 -> Outside core [rel] w w1 /\ (single (w_host w) -> single (w_host w1))) as Hquiet
    by (intros w1 Q; split; [by apply (Outside_quiet core)|by apply (single_quiet core)]).
  pose proof (Hquiet w (quiet_refl _ _ I)) as Hrefl. unfold hard_link in E. destruct acc_has_denials; [by injection E as <- <-|].
  apply bind_inv in E as [([] & w0 & E0 & E)|(e & E0 & ->)]; injection E0 as _ <-; [|done].
  apply bind_inv in E as [([] & w0 & E0 & E)|(e & E0 & ->)]; injection E0 as _ <-; [|done].
  apply bind_inv in E as [(n & w1 & E1 & E)|(e & E1 & ->)]; [|by apply Hquiet, (Quiet_metadata core source w (Err e) w')].
  pose proof (metadata_view core w source n w1 I E1) as Hv. destruct (metadata_Ok core w source n w1 I E1) as (-> & _ & _).
  destruct (is_dir (i_kind n)) eqn:Hdir; [by injection E as <- <-|].
  assert (i_kind n <> KDir) as Hnd by (intros Hk; by rewrite Hk in Hdir).
  apply bind_inv in E as [(found & w1 & E2 & E)|(e & E2 & ->)]; [|injection E2 as _ <-; done].
  destruct found as [m|]; [destruct (resolve_Some _ _ _ _ _ I E2) as (-> & _)|destruct (resolve_None _ _ _ _ I E2) as (-> & _ & Hnone)].
  { apply bind_inv in E as [(u & w1 & [=] & _)|(e & [= <- <-] & ->)]. done. }
  apply bind_inv in E as [([] & w1 & [= <-] & E)|(e & [=] & _)].
  apply bind_inv in E as [([] & w1 & E3 & E)|(e & E3 & ->)]; pose proof (Quiet_record _ _ _ _ _ I E3) as Q1; [|by apply Hquiet].
  apply bind_inv in E as [(l & w2 & E4 & E)|(e & E4 & ->)]; destruct (copy_up_quiet core source w1 _ _ (qt_inv _ _ _ Q1) Hts E4) as [Q2 L2];
    pose proof (quiet_trans _ _ _ _ Q1 Q2) as Q02; [|by apply Hquiet].
  assert (w_host w1 = w_host w) as H1 by (by destruct (HostSame_capture _ _ _ _ _ _ _ E3)).
  destruct (L2 l (i_kind n) eq_refl ltac:(by rewrite H1)) as [-> K2].
  apply bind_inv in E as [([] & w3 & E5 & E)|(e & E5 & ->)];
    destruct (ensure_upper_parents_quiet _ _ _ _ _ _ (qt_inv _ _ _ Q02) Htq E5) as (Q3 & _ & D3 & _);
    pose proof (quiet_trans _ _ _ _ Q02 Q3) as Q03; [|by apply Hquiet].
  specialize (D3 eq_refl). pose proof (hq_grow _ _ _ (qt_host _ _ _ Q3) source _ Hts K2) as K3.
  assert (rel <> []) as Hne by (by destruct q). assert (Forall (fun rel => plain rel /\ rel <> []) [rel]) as Hf by (by constructor).
  assert (forall l, l = whiteout_path q c -> touched [rel] l) as HPw by (intros l ->; apply touched_whiteout).
  apply bind_inv in E as [([] & w4 & E6 & E)|(e & E6 & ->)];
    destruct (clear_whiteout_only core q c w3 _ _ (qt_inv _ _ _ Q03) Ht D3 E6) as (O4 & _ & R4);
    [|split; [eapply Outside_trans; [by apply Hquiet|]; by apply (Outside_only core _ _ _ _ O4 HPw)|rewrite R4; by apply Hquiet]].
  assert (single (w_host w) -> single (w_host w4)) as Si4 by (intros S; eapply single_clear; [exact O4|done|by apply Hquiet]).
  pose proof (on_inv _ _ _ _ O4) as I4.
  assert (kind_at (w_host w4) (Upper, q) = Some KDir) as D4 by (by rewrite (whiteout_dir core q c w3 w4 O4)).
  assert (kind_at (w_host w4) (Upper, source) = Some (i_kind n)) as K4.
  { rewrite (kind_of_look (w_host w3)); [done|]. apply (on_look _ _ _ _ O4). by apply plain_not_whiteout. }
  assert (forall w5, Only (Upper, rel) w4 w5 -> OnlyIn (fun l => l = whiteout_path q c \/ l = (Upper, rel)) w3 w5) as Hboth
    by (intros w5 O5; exact (OnlyIn_trans _ _ _ _ _ _ O4 O5)).
  assert (forall l, (l = whiteout_path q c \/ l = (Upper, rel)) -> touched [rel] l) as HP by (intros l [-> | ->]; [apply touched_whiteout|apply touched_rel]).
  apply bind_inv in E as [([] & w5 & E7 & E)|(e & E7 & ->)]; destruct (link_only q c source (i_kind n) w4 _ _ I4 D4 K4 Hnd E7) as (O5 & _ & Hr);
    [|split; [eapply Outside_trans; [by apply Hquiet|]; by apply (Outside_only core _ _ _ _ (Hboth _ O5) HP)|by rewrite Hr]].
  destruct Hr as [Hfresh K5]. pose proof (on_inv _ _ _ _ O5) as I5.
  assert (kind_at (w_host w5) (Upper, source) = Some (i_kind n)) as K5s.
  { destruct (decide (source = rel)) as [->|Hsr]; [done|]. rewrite (kind_of_look (w_host w4)); [done|]. apply (on_look _ _ _ _ O5). by intros [= Es]. }
  destruct (extend_group_ok source rel w5 I5 Ht ltac:(rewrite K5s; exact K5)) as (Hok & Q6 & H6). cbn [snd] in E. rewrite E in Hok, Q6, H6. cbn [fst snd] in Hok, Q6, H6. subst r. split; [|rewrite H6; intros S; eapply (single_new core); [exact O5|done|done|by apply Si4]].
  exists (i_kind n). split_and!; [done..| |].
  - apply (parent_shows core q w w3); [done|done|by apply plain_snoc in Hp as [? _]|done].
  - assert (Changed core rel (Some (i_kind n)) w w5) as [Out At Bel].
    { apply (changed_intro core _ _ _ w w3 w5 Q03 (Hboth _ O5) HP Hp Hne); [|by intros [= ?]]. apply view_of_upper; [apply O5|done]. }
    constructor; [eapply Outside_trans; [exact Out|by apply (Outside_quiet core)]|by rewrite H6|by rewrite H6].
Qed.
End Link.
