(* ===== verification/OverlayHealth.v ===== *)
(** * What every operation keeps

    [perform] runs one change. A world is healthy when its file system and its
    groups are consistent, no entry of the upper has a whiteout beside it, and the
    temporary names to come are unused; a change that succeeds keeps it healthy.
    The second part is a test of health and a small overlay for examples. *)
From stdpp Require Import base tactics list strings gmap pretty.
From Stdlib Require Import ZArith Lia Ascii.
From S2P Require Import Prelude RustStr FileAccess HostFs HostFsFacts Overlay OverlayView OverlayQuiet OverlayCopy OverlayCopyUp OverlayCreate OverlayRemove OverlayList OverlayFootprint OverlayRename OverlayExchange OverlayLink.
Local Open Scope nat_scope.

(** The changes of the overlay. *)
Inductive Change :=
| CreateFile (rel : Path) (mode : Z)
| CreateSymlink (rel : Path) (target : string)
| CreateNode (rel : Path) (mode rdev : Z)
| CreateDir (rel : Path) (mode : Z)
| Remove (rel : Path) (directory : bool)
| Rename (old new : Path) (no_replace : bool)
| Exchange (first second : Path)
| HardLink (source destination : Path)
| CopyUp (rel : Path).

(** The paths at which a change may show. *)
Definition targets (c : Change) : list Path :=
  match c with
  | CreateFile rel _ | CreateSymlink rel _ | CreateNode rel _ _ | CreateDir rel _ | Remove rel _ => [rel]
  | Rename old new _ => [old; new]
  | Exchange first second => [first; second]
  | HardLink _ destination => [destination]
  | CopyUp _ => []
  end.
Definition mentioned (c : Change) : list Path :=
  match c with HardLink source destination => [source; destination] | CopyUp rel => [rel] | _ => targets c end.

Section Health.
Context (core : OverlayCore) `{AccessOps, Digest256, Laws : !AccessLaws}.
Local Abbreviation count := (oc_lowers core).
Local Abbreviation inv := (inv core).
Local Abbreviation quiet := (quiet core).
Local Abbreviation Only := (Only core).
Local Abbreviation OnlyIn := (OnlyIn core).
Local Abbreviation unused := (unused core).

Definition perform (c : Change) : Op unit :=
  match c with
  | CreateFile rel mode => create_file core rel mode
  | CreateSymlink rel target => create_symlink core rel target
  | CreateNode rel mode rdev => create_node core rel mode rdev
  | CreateDir rel mode => create_dir core rel mode
  | Remove rel directory => remove core rel directory
  | Rename old new no_replace => rename core old new no_replace
  | Exchange first second => exchange core first second
  | HardLink source destination => hard_link core source destination
  | CopyUp rel => _ ← copy_up core rel; mret tt
  end.

(** ** Temporary names *)

Local Abbreviation Track := (Track core).

Lemma Unused_clear rel : Track 0 any (clear_whiteout core rel).
Proof. unfold clear_whiteout. track. by apply (HostTrack_remove core 0 any _ false), spot_any. Qed.
Lemma Unused_ensure rel : tidy rel -> Track 0 any (ensure_upper_parents core rel).
Proof. intros Ht. by eapply Track_any, Track_ensure_parents. Qed.
Lemma Unused_create rel k perm : tidy rel -> Track 0 any (call (fs_create (Upper, rel) k perm)).
Proof. intros Ht. apply Track_call, HostTrack_create; [apply spot_any|]. by apply free_settled, tidy_temp_free. Qed.
Lemma Unused_prepare_new rel : tidy rel -> Track 0 any (prepare_new core rel).
Proof.
  intros Ht. unfold prepare_new. track; [destruct x0; track|apply Track_record|by apply Unused_ensure|apply Unused_clear].
Qed.
Lemma Unused_new rel k perm : tidy rel -> Track 0 any (_ ← prepare_new core rel; call (fs_create (Upper, rel) k perm)).
Proof. intros Ht. apply Track_bind; [by apply Unused_prepare_new|intros _; by apply Unused_create]. Qed.
Lemma Unused_dir rel mode : tidy rel -> Track 0 any (create_dir core rel mode).
Proof.
  intros Ht. unfold create_dir, prepare_dir. apply Track_bind.
  - track; [destruct x0; track|apply Track_record|by apply Unused_ensure|apply Unused_clear].
  - intros b. track; [apply HostTrack_create; [apply spot_any|by apply free_settled, tidy_temp_free]|].
    by eapply Track_any, Track_mark_opaque.
Qed.
Lemma Unused_whiteout q c : tidy q -> plain_name c -> Track 0 any (create_whiteout core (q ++ [c])).
Proof. intros Hq Hc. by eapply Track_any, Track_create_whiteout. Qed.
Lemma Unused_forget rel : Track 0 any (forget_copied_hard_links rel).
Proof. intros w r w' _ E. injection E as _ <-. by apply Tracked_same. Qed.
Lemma Unused_remove q c directory : plain (q ++ [c]) -> Track 0 any (remove core (q ++ [c]) directory).
Proof.
  intros Hp. intros w r w' Hk E. rewrite remove_split in E. revert w r w' Hk E. pose proof Hp as [Hq Hc]%plain_snoc.
  apply Track_bind; [apply Track_same, (remove_checks_reads core)|]. intros m. apply Track_bind.
  - destruct (rm_is_upper m); [|by apply Track_pure]. apply Track_bind; [|intros _; apply Unused_forget].
    apply Track_call. destruct directory; [apply HostTrack_remove_all, place_any|apply (HostTrack_remove core 0 any _ false), spot_any].
  - intros _. track. apply Unused_whiteout; [by apply plain_tidy|done].
Qed.
Lemma Unused_copy_up rel : tidy rel -> Track 0 any (copy_up core rel).
Proof. intros Ht. by eapply Track_any, Track_copy_up. Qed.
Lemma Unused_link source q c : tidy source -> tidy (q ++ [c]) -> Track 0 any (hard_link core source (q ++ [c])).
Proof.
  intros Hs Ht. unfold hard_link. destruct acc_has_denials; [by apply Track_pure|]. track; [apply Track_metadata|].
  destruct (is_dir _); [by apply Track_pure|]. track; [destruct x2; track|apply Track_record|by apply Unused_copy_up|by apply Unused_ensure|apply Unused_clear| |].
  - apply HostTrack_link; [apply spot_any|by apply free_settled, tidy_temp_free].
  - intros w r w' _ E. unfold extend_group in E. destruct (List.find _ _) as [[]|]; injection E as _ <-; by apply Tracked_same.
Qed.
Lemma Unused_undo k b rel : Track k any (if_then b (ignore (clear_whiteout core rel))).
Proof. eapply Track_weaken; [apply Nat.le_0_l|done|]. track. apply Unused_clear. Qed.
Lemma Track_ret_bind {A B} k S (a : A) (f : A -> Op B) : Track k S (f a) -> Track k S (mret a ≫= f).
Proof. done. Qed.
Lemma Unused_remove_physical k l : Track k any (remove_physical l).
Proof.
  unfold remove_physical. track. destruct (is_dir _); [apply HostTrack_remove_all, place_any|apply (HostTrack_remove core k any l false), spot_any].
Qed.
Lemma Unused_publish source old new replaced whiteout : tidy new -> from_option (fun d => d = (Upper, new)) True replaced ->
  Track 0 any (publish_rename core source old new replaced whiteout).
Proof.
  intros Tn Hrep. unfold publish_rename. destruct replaced as [d|]; [cbn in Hrep; subst d|].
  - intros w r w' Hk E. rewrite bind_assoc in E. revert w r w' Hk E. apply Track_temporary; [constructor|].
    intros r q n Hset _. apply Track_ret_bind. apply Track_bind; [apply Track_on_error; [|apply Unused_undo]|intros _; apply Track_bind; [|intros _]].
    + apply Track_call, HostTrack_rename; [apply place_any..|done].
    + apply Track_on_error; [by apply Unused_rename_call|]. apply Track_bind; [by apply Track_ignore, Unused_rename_call|intros _; apply Unused_undo].
    + apply Track_ignore, Unused_remove_physical.
  - apply Track_ret_bind, Track_ret_bind. apply Track_bind; [|intros _; by apply Track_pure].
    apply Track_on_error; [by apply Unused_rename_call|]. apply Track_ret_bind, Unused_undo.
Qed.
Lemma Unused_materialize rel n : tidy rel -> Track 0 any (materialize core rel n).
Proof. intros Ht. by eapply Track_any, Track_materialize. Qed.
Lemma Unused_move qo co qn cn n replaced : plain (qo ++ [co]) -> tidy (qn ++ [cn]) -> from_option (fun d => d = (Upper, qn ++ [cn])) True replaced ->
  Track 0 any (move core qo qn co cn n replaced).
Proof.
  intros Po Tn Hrep. pose proof (plain_tidy _ Po) as To. pose proof Po as [Pq Pc]%plain_snoc. unfold move.
  apply Track_bind; [by apply Unused_materialize|]. intros source. apply Track_bind; [by apply Unused_ensure|]. intros _.
  apply Track_bind; [apply Unused_clear|]. intros _. apply Track_bind; [by apply Track_pure|]. intros b.
  apply Track_bind; [apply Track_if_then, Unused_whiteout; [by apply plain_tidy|done]|]. intros _.
  apply Track_bind; [by apply Unused_publish|]. intros _. apply Track_bind; [apply Unused_forget|intros _; apply Unused_map_groups].
Qed.

(** ** Health *)

Record Healthy (w : World) : Prop := mkHealthy {
  he_inv : inv w;
  he_single : single (w_host w);
  he_unused : unused (w_temp w) (w_host w)
}.
Definition proper (c : Change) : Prop := Forall (fun p => plain p /\ p <> []) (mentioned c).
Definition is_move (c : Change) : bool := match c with Rename _ _ _ | Exchange _ _ => true | _ => false end.

Lemma Healthy_quiet w w' : quiet w w' -> unused (w_temp w') (w_host w') -> Healthy w -> Healthy w'.
Proof. intros Q U [I S _]. constructor; [apply Q|by apply (single_quiet core w)|done]. Qed.

Ltac snoc_path p :=
  let q := fresh "q" in let c := fresh "c" in
  destruct (path_snoc_cases p) as [->|(q & c & ->)]; [done|].

Lemma create_like k perm rel w r w' : Healthy w -> plain rel -> rel <> [] -> k <> KDir ->
  ((_ ← prepare_new core rel; call (fs_create (Upper, rel) k perm)) : Op unit) w = (r, w') -> Outside core [rel] w w' /\ Healthy w'.
Proof.
  intros [I S U] Hp Hne Hk E. snoc_path rel.
  assert (Outside core [q ++ [c]] w w') as Out.
  { pose proof (create_changes core q c k perm w r w' I Hp Hk E) as Hc. destruct r; [destruct Hc as (_ & _ & [? _ _])|]; done. }
  split; [done|]. constructor; [apply Out|by eapply create_single|].
  eapply tk_unused; [|exact U]. eapply (Unused_new (q ++ [c]) k perm); [by apply plain_tidy|lia|exact E].
Qed.

(** A change that is no move keeps the world healthy, whatever its outcome. *)
Lemma change_healthy c w r w' : is_move c = false -> Healthy w -> proper c -> perform c w = (r, w') -> Outside core (targets c) w w' /\ Healthy w'.
Proof.
  intros Hm He Hp E. pose proof He as [I S U]. destruct c as [rel mode|rel target|rel mode rdev|rel mode|rel directory| | |source dst|rel]; try done; cbn [perform targets] in *;
    unfold proper in Hp; cbn [mentioned targets] in Hp; pose proof Hp as [[Hpl Hne] Hrest]%Forall_cons.
  - by apply (create_like (KFile "") (Z.land mode 4095) rel w r w').
  - by apply (create_like (KSymlink target) 511 rel w r w').
  - apply (create_like (node_kind mode rdev) (Z.land mode 4095) rel w r w'); try done. unfold node_kind. by destruct (_ || _)%Z.
  - snoc_path rel. assert (Outside core [q ++ [c]] w w') as Out.
    { pose proof (create_dir_changes core q c mode w r w' I Hpl E) as Hc. destruct r; [destruct Hc as (_ & _ & [? _ _])|]; done. }
    split; [done|]. constructor; [apply Out|by eapply create_dir_single|]. eapply tk_unused; [|exact U].
    eapply (Unused_dir (q ++ [c]) mode); [by apply plain_tidy|lia|exact E].
  - snoc_path rel. assert (Outside core [q ++ [c]] w w') as Out.
    { pose proof (remove_changes core q c directory w r w' I Hpl E) as Hc. destruct r; [destruct Hc as (_ & [? _ _])|]; done. }
    split; [done|]. constructor; [apply Out|by eapply remove_single|]. eapply tk_unused; [|exact U].
    eapply (Unused_remove q c directory); [done|lia|exact E].
  - apply Forall_singleton in Hrest as [Hpd Hnd]. snoc_path dst.
    destruct (hard_link_changes core source q c w r w' I (plain_tidy _ Hpl) Hpd E) as [Hc Si].
    assert (Outside core [q ++ [c]] w w') as Out by (destruct r; [destruct Hc as (k & _ & _ & _ & _ & [? _ _])|]; done).
    split; [done|]. constructor; [apply Out|by apply Si|]. eapply tk_unused; [|exact U].
    eapply (Unused_link source q c); [by apply plain_tidy|by apply plain_tidy|lia|exact E].
  - assert (exists x, copy_up core rel w = (x, w')) as [x E'].
    { unfold mbind, op_bind in E. destruct (copy_up core rel w) as [[l|e] w1]; injection E as _ <-; eauto. }
    destruct (copy_up_quiet core rel w x w' I (plain_tidy _ Hpl) E') as [Q _]. split; [by apply (Outside_quiet core)|].
    apply (Healthy_quiet w); [done| |done]. eapply tk_unused; [|exact U]. eapply (Unused_copy_up rel); [by apply plain_tidy|lia|exact E'].
Qed.

(** Every change is confined to its targets. *)
Lemma change_confined c w r w' : Healthy w -> proper c -> perform c w = (r, w') -> Confined core (targets c) w w'.
Proof.
  intros He Hp E. destruct (is_move c) eqn:Hm.
  - pose proof He as [I S U]. destruct c as [| | | | |old new nr|first second| |]; try done; unfold proper in Hp; cbn [mentioned targets perform] in *;
      apply Forall_cons in Hp as [[Hp1 Hn1] [Hp2 Hn2]%Forall_singleton]; [snoc_path old|snoc_path first]; [snoc_path new|snoc_path second].
    + pose proof (rename_outcome core _ _ _ _ _ w r w' I S U Hp1 Hp2 E) as Hr. destruct r; [|done].
      destruct Hr as (k & _ & [(-> & _)|[[Out _ _] _]]); [by apply Confined_quiet, quiet_refl|by eapply Confined_outside].
    + pose proof (exchange_outcome core _ _ _ _ w r w' I S U Hp1 Hp2 E) as Hr. destruct r; [|done].
      destruct Hr as [(_ & ->)|(_ & _ & [Out _ _] & _)]; [by apply Confined_quiet, quiet_refl|by eapply Confined_outside].
  - destruct (change_healthy c w r w' Hm He Hp E) as [Out _]. by eapply Confined_outside.
Qed.

(** A change that succeeds leaves the world healthy. *)
Lemma success_healthy c w w' : Healthy w -> proper c -> perform c w = (Ok tt, w') -> Healthy w'.
Proof.
  intros He Hp E. destruct (is_move c) eqn:Hm; [|by eapply change_healthy]. pose proof He as [I S U].
  destruct c as [| | | | |old new nr|first second| |]; try done; unfold proper in Hp; cbn [mentioned targets perform] in *;
    apply Forall_cons in Hp as [[Hp1 Hn1] [Hp2 Hn2]%Forall_singleton]; [snoc_path old|snoc_path first]; [snoc_path new|snoc_path second].
  - destruct (rename_outcome core _ _ _ _ _ w _ w' I S U Hp1 Hp2 E) as (k & _ & [(-> & _)|[[Out _ _] Si]]); [done|].
    constructor; [apply Out|done|].
    destruct (rename_cases core _ _ _ _ _ _ _ _ I S E) as [[[e [=]] _]|(n & _ & [(_ & -> & _)|(replaced & w1 & _ & Hh & Ht & _ & _ & _ & [Hrep _] & _ & Em & _)])]; [done|].
    eapply tk_unused; [|rewrite Hh, Ht; exact U].
    eapply (Unused_move _ _ _ _ n replaced Hp1 (plain_tidy _ Hp2)); [by destruct replaced|lia|exact Em].
  - destruct (exchange_outcome core _ _ _ _ w _ w' I S U Hp1 Hp2 E) as [(_ & ->)|(_ & _ & [Out _ _] & Si & Un)]; [done|]. by constructor; [apply Out|..].
Qed.

(** ** Histories *)

(** Changes one after the other; a move that fails ends the history. *)
Inductive history : World -> list Change -> World -> Prop :=
| history_nil w : history w [] w
| history_cons w c r w1 cs w' : proper c -> perform c w = (r, w1) -> is_ok r || negb (is_move c) = true -> history w1 cs w' -> history w (c :: cs) w'.

Lemma history_healthy w cs w' : Healthy w -> history w cs w' -> Healthy w' /\ Confined core (concat (targets <$> cs)) w w'.
Proof.
  intros He Hh. induction Hh as [w|w c r w1 cs w' Hp E Hok _ IH].
  - split; [done|]. apply Confined_quiet, quiet_refl, He.
  - assert (Healthy w1) as He1.
    { destruct (is_move c) eqn:Hm; [|by eapply change_healthy]. rewrite orb_false_r in Hok. destruct r as [[]|]; [|done]. by eapply success_healthy. }
    destruct (IH He1) as [He' C']. split; [done|]. cbn [fmap list_fmap concat].
    assert (forall rels rels' w w', Confined core rels w w' -> (forall p, below rels p -> below rels' p) -> Confined core rels' w w') as Hweak.
    { intros rels rels' wa wb [? ? ? Hv ?] Hb. constructor; try done. intros p Hpp Hn. apply Hv; [done|]. auto. }
    eapply Confined_trans; (eapply Hweak; [first [by eapply change_confined | exact C']|]);
      intros p (rel & s & Hin & ->); exists rel, s; (split; [apply elem_of_app; auto|done]).
Qed.
End Health.

(** * A check of an overlay at rest

    An executable test that a file system is a healthy start for an overlay, and
    the small overlay that the examples run on. *)

Section Check.
Context (core : OverlayCore) `{AccessOps, Digest256, Laws : !AccessLaws}.

Definition has_dir (h : Host) (l : Loc) : bool := bool_decide (kind_at h l = Some KDir).
(** One name: its object, its parent, its whiteout and its components. *)
Definition sound_name (h : Host) (l : Loc) (i : nat) : bool :=
  bool_decide (is_Some (h_inodes h !! i))
  && match last l.2 with
     | Some c => has_dir h (l.1, parent_of l.2)
                 && negb (bool_decide (l.1 = Upper) && bool_decide (is_Some (kind_at h (whiteout_path (parent_of l.2) c))))
     | None => true
     end
  && forallb (fun c => negb (starts_with c TEMP_PREFIX)) l.2.
Definition lower_bool (l : Loc) : bool := match l.1 with Lower _ => true | _ => false end.
(** Two names of one object. *)
Definition sound_pair (h : Host) (a b : Loc * nat) : bool :=
  negb (bool_decide (a.2 = b.2))
  || (Bool.eqb (lower_bool a.1) (lower_bool b.1) && (negb (bool_decide (i_kind <$> h_inodes h !! a.2 = Some KDir)) || bool_decide (a.1 = b.1))).
Definition sound_host (h : Host) : bool :=
  let names := map_to_list (h_names h) in
  has_dir h (Upper, []) && forallb (fun i => has_dir h (Lower i, [])) (seq 0 (oc_lowers core))
  && (negb (oc_has_work core) || has_dir h (Work, []))
  && forallb (fun '(l, i) => sound_name h l i) names
  && forallb (fun a => forallb (sound_pair h a) names) names.

Lemma sound_names h l i : forallb (fun '(l, i) => sound_name h l i) (map_to_list (h_names h)) = true -> h_names h !! l = Some i -> sound_name h l i = true.
Proof. intros Hf Hi. rewrite forallb_forall in Hf. apply (Hf (l, i)), list_elem_of_In. by apply elem_of_map_to_list. Qed.
Lemma sound_host_healthy h faults pre synced temp : sound_host h = true -> Healthy core (mkWorld h faults ∅ ∅ pre synced temp).
Proof.
  unfold sound_host. rewrite !andb_true_iff, orb_true_iff. intros [[[[Hup Hlow] Hwork] Hnames] Hpairs].
  pose proof (fun l i => sound_names h l i Hnames) as Hname. unfold sound_name in Hname.
  assert (forall l l' i, h_names h !! l = Some i -> h_names h !! l' = Some i -> sound_pair h (l, i) (l', i) = true) as Hpair.
  { intros l l' i Hl Hl'. rewrite forallb_forall in Hpairs. pose proof (Hpairs (l, i)) as Hp. rewrite forallb_forall in Hp.
    apply Hp; apply list_elem_of_In; by apply elem_of_map_to_list. }
  unfold sound_pair in Hpair; cbn [fst snd] in Hpair.
  assert (wf h) as W.
  { constructor.
    - intros l i Hi. specialize (Hname l i Hi). rewrite !andb_true_iff in Hname. by destruct Hname as [[?%bool_decide_eq_true _] _].
    - intros r p c [i Hi]. specialize (Hname _ i Hi). rewrite !andb_true_iff in Hname. destruct Hname as [[_ Hp] _]. cbn [fst snd] in Hp.
      rewrite last_snoc, parent_of_snoc in Hp. apply andb_true_iff in Hp as [Hp _]. by apply bool_decide_eq_true in Hp.
    - intros l l' i n Hl Hl' Hn Hk. specialize (Hpair l l' i Hl Hl'). rewrite bool_decide_eq_true_2 in Hpair by done. cbn [negb orb] in Hpair.
      apply andb_true_iff in Hpair as [_ Hpair]. apply orb_true_iff in Hpair as [Hd|?%bool_decide_eq_true]; [|done]. exfalso.
      rewrite Hn in Hd. cbn in Hd. rewrite Hk in Hd. by rewrite bool_decide_eq_true_2 in Hd. }
  constructor; cbn [w_host w_temp].
  - constructor; [|by intros i paths p Hi]. constructor; [done| |].
    + constructor; [by apply bool_decide_eq_true in Hup| |].
      * intros i Hi. rewrite forallb_forall in Hlow. specialize (Hlow i (proj2 (in_seq _ _ _) (conj (Nat.le_0_l _) Hi))). by apply bool_decide_eq_true in Hlow.
      * intros Hw. rewrite Hw in Hwork. destruct Hwork as [?|?%bool_decide_eq_true]; done.
    + intros l l' i Hl Hl' Hlo. specialize (Hpair l l' i Hl Hl'). rewrite bool_decide_eq_true_2 in Hpair by done. cbn [negb orb] in Hpair.
      apply andb_true_iff in Hpair as [Hpair _]. apply Bool.eqb_prop in Hpair. unfold lower_bool, is_lower in *. by destruct l.1, l'.1.
  - intros q c Hp Hs. apply kind_names in Hs as [i Hi]; [|done]. specialize (Hname _ i Hi). rewrite !andb_true_iff in Hname. destruct Hname as [[_ Hn] _].
    cbn [fst snd] in Hn. rewrite last_snoc, parent_of_snoc, bool_decide_eq_true_2 in Hn by done. apply andb_true_iff in Hn as [_ Hn]. cbn [andb] in Hn.
    apply negb_true_iff, bool_decide_eq_false in Hn. by apply eq_None_not_Some.
  - intros l n Hin _. destruct (h_names h !! l) as [i|] eqn:Hi; [|done]. exfalso. specialize (Hname l i Hi). rewrite !andb_true_iff in Hname. destruct Hname as [_ Hf].
    rewrite forallb_forall in Hf. specialize (Hf _ (proj1 (list_elem_of_In _ _) Hin)). by rewrite (temp_of_temp core n) in Hf.
Qed.
End Check.

(** ** A small overlay *)

(** One lower with a directory, a file in it, a subdirectory with a file and a
    file at the top; an empty upper. *)
Module Sample.
Definition dir : Inode := new_inode KDir 493.
Definition file (bytes : string) : Inode := new_inode (KFile bytes) 420.
Definition host : Host := mkHost
  (list_to_map [((Upper, []), 0); ((Lower 0, []), 1); ((Lower 0, ["a"]), 2); ((Lower 0, ["a"; "x"]), 3); ((Lower 0, ["b"]), 4);
                ((Work, []), 5); ((Lower 0, ["a"; "s"]), 6); ((Lower 0, ["a"; "s"; "t"]), 7)])%string
  (list_to_map [(0, dir); (1, dir); (2, dir); (3, file "xx"); (4, file "bb"); (5, dir); (6, dir); (7, file "tt")])
  (fun _ => Err ENOENT) false.
Definition core : OverlayCore := mkCore 1 false false true true true true [] "7".
Definition world : World := mkWorld host [] ∅ ∅ ∅ ∅ 0.
Definition digest : Digest256 := fun s => s.
End Sample.
