(* ===== verification/OverlayJournal.v ===== *)
(** * The journal of first observations

    Before a path changes, the state of the target at that path is recorded. A
    change that succeeds has an observation of every path it shows differently. *)
From stdpp Require Import base tactics list strings gmap pretty.
From Stdlib Require Import ZArith Lia Ascii.
From S2P Require Import Prelude RustStr FileAccess HostFs HostFsFacts Overlay OverlayView OverlayQuiet OverlayCopy OverlayCopyUp OverlayCreate OverlayRemove OverlayList OverlayFootprint OverlayRename OverlayExchange OverlayLink OverlayHealth.
Local Open Scope nat_scope.

(** ** Operations that keep the journal *)

Definition Keeps {A} (m : Op A) : Prop :=
  forall w r w', m w = (r, w') -> forall p f, w_preimages w !! p = Some f -> w_preimages w' !! p = Some f.
Lemma Keeps_pure {A} (m : Op A) : (forall w, w_preimages (m w).2 = w_preimages w) -> Keeps m.
Proof. intros Hm w r w' E p f Hp. specialize (Hm w). rewrite E in Hm. cbn in Hm. by rewrite Hm. Qed.
Lemma Keeps_bind {A B} (m : Op A) (k : A -> Op B) : Keeps m -> (forall a, Keeps (k a)) -> Keeps (m ≫= k).
Proof.
  intros Hm Hk w r w' E p f Hp. apply bind_inv in E as [(a & w1 & E1 & E)|(e & E1 & _)]; [|by eapply Hm].
  eapply Hk; [exact E|]. by eapply Hm.
Qed.
Lemma Keeps_if_then b m : Keeps m -> Keeps (if_then b m).
Proof. intros Hm. destruct b; [done|by apply Keeps_pure]. Qed.
Lemma Keeps_for {A} (f : A -> Op unit) l : (forall x, Keeps (f x)) -> Keeps (op_for f l).
Proof. intros Hf. induction l as [|x l IH]; [by apply Keeps_pure|]. apply Keeps_bind; [done|by intros _]. Qed.
Lemma Keeps_ignore {A} (m : Op A) : Keeps m -> Keeps (ignore m).
Proof. intros Hm w r w' E. unfold ignore in E. destruct (m w) as [x w1] eqn:E1. injection E as _ <-. by eapply Hm. Qed.
Lemma Keeps_unless_error ok m : Keeps m -> Keeps (unless_error ok m).
Proof. intros Hm w r w' E. unfold unless_error in E. destruct (m w) as [[] w1] eqn:E1; injection E as _ <-; by eapply Hm. Qed.
Lemma Keeps_on_error {A} (m : Op A) c : Keeps m -> Keeps c -> Keeps (on_error m c).
Proof.
  intros Hm Hc w r w' E p f Hp. unfold on_error in E. destruct (m w) as [[] w1] eqn:E1; injection E as _ <-; [by eapply Hm|].
  destruct (c w1) as [rc wc] eqn:Ec. eapply Hc; [exact Ec|]. by eapply Hm.
Qed.
Lemma Keeps_fault : Keeps fault.
Proof. apply Keeps_pure. intros w. unfold fault. by destruct (w_faults w) as [|[]]. Qed.
Lemma Keeps_call f : Keeps (call f).
Proof. apply Keeps_pure. intros w. destruct (call f w) as [r w'] eqn:E. by apply call_cases in E as [(e & _ & ->)|(h & _ & ->)]. Qed.

Ltac keeps := repeat match goal with
  | |- Keeps (match ?p with (_, _) => _ end) => destruct p
  | |- Keeps (if ?b then _ else _) => destruct b
  | |- Keeps (mbind _ _) => apply Keeps_bind; [|let x := fresh "x" in intros x]
  | |- Keeps (if_then _ _) => apply Keeps_if_then
  | |- Keeps (unless_error _ _) => apply Keeps_unless_error
  | |- Keeps (ignore _) => apply Keeps_ignore
  | |- Keeps (on_error _ _) => apply Keeps_on_error
  | |- Keeps (call _) => apply Keeps_call
  | |- Keeps fault => apply Keeps_fault
  | |- Keeps (op_for _ _) => apply Keeps_for; let y := fresh "y" in intros y
  | |- Keeps _ => first [by auto with keeps | by apply Keeps_pure]
  end.
Create HintDb keeps.

Section Journal.
Context (core : OverlayCore) `{AccessOps, Digest256, Laws : !AccessLaws}.
Local Abbreviation count := (oc_lowers core).
Local Abbreviation inv := (inv core).
Local Abbreviation quiet := (quiet core).

Lemma Keeps_capture rel durable absent : Keeps (capture_preimage_after_check core rel durable absent).
Proof.
  unfold capture_preimage_after_check. destruct (negb (oc_stage_writable core)); [by apply Keeps_pure|].
  destruct (negb (oc_has_journal core)); [by apply Keeps_pure|]. apply Keeps_bind; [by apply Keeps_pure|]. intros _.
  destruct (negb (oc_record_observations core)); [by apply Keeps_pure|].
  intros w r w' E. apply bind_inv in E as [(known & w1 & [= <- <-] & E)|(e & [=] & _)]. case_bool_decide as Hk.
  - revert E. generalize w. clear. intros w E. revert w r w' E. change (Keeps (synced ← is_synced rel; if_then (durable && negb synced) (_ ← fault; mark_synced rel))). keeps.
  - intros p f Hp. apply bind_inv in E as [(state & w1 & E1 & E)|(e & E1 & _)];
      (assert (Keeps (if absent then mret FpAbsent else reading (fun h => fingerprint_at h (baseline core) rel))) as K1 by keeps);
      pose proof (K1 _ _ _ E1 p f Hp) as Hp1; [|done].
    apply bind_inv in E as [([] & w2 & E2 & E)|(e & E2 & _)]; pose proof (Keeps_fault _ _ _ E2 p f Hp1) as Hp2; [|done].
    apply bind_inv in E as [([] & w3 & E3 & E)|(e & [=] & _)]. injection E3 as <-.
    assert (Keeps (if_then durable (_ ← fault; mark_synced rel))) as K4 by keeps. eapply K4; [exact E|]. cbn.
    rewrite lookup_insert_ne; [done|]. intros ->. apply Hk. rewrite Hp. by eexists.
Qed.
#[local] Hint Resolve Keeps_capture : keeps.
Lemma Keeps_record rel : Keeps (record_preimage core rel).
Proof. unfold record_preimage, capture_preimage. keeps. Qed.
Lemma Keeps_observe_absence rel : Keeps (observe_absence core rel).
Proof. unfold observe_absence. keeps. Qed.
#[local] Hint Resolve Keeps_record Keeps_observe_absence : keeps.
Lemma Keeps_metadata_resolved rel : Keeps (metadata_resolved core rel).
Proof. unfold metadata_resolved, metadata_optional. keeps. Qed.
#[local] Hint Resolve Keeps_metadata_resolved : keeps.
Lemma Keeps_metadata rel : Keeps (metadata core rel).
Proof. unfold metadata. keeps. Qed.
Lemma Keeps_copy_metadata source l n : Keeps (copy_metadata source l n).
Proof. unfold copy_metadata, copy_user_xattrs. keeps. Qed.
#[local] Hint Resolve Keeps_metadata Keeps_copy_metadata : keeps.
Lemma Keeps_ensure_dirs at_ rest : Keeps (ensure_dirs core at_ rest).
Proof.
  revert at_. induction rest as [|c rest IH]; intros at_; cbn [ensure_dirs]; [keeps|]. apply Keeps_bind; [|intros _; apply IH].
  unfold ensure_dir. keeps. destruct x as [[i n]|e]; keeps.
Qed.
#[local] Hint Resolve Keeps_ensure_dirs : keeps.
Lemma Keeps_ensure rel : Keeps (ensure_upper_parents core rel).
Proof. unfold ensure_upper_parents. keeps. Qed.
Lemma Keeps_clear rel : Keeps (clear_whiteout core rel).
Proof. unfold clear_whiteout. keeps. Qed.
#[local] Hint Resolve Keeps_ensure Keeps_clear : keeps.
Lemma Keeps_whiteout rel : Keeps (create_whiteout core rel).
Proof. unfold create_whiteout, create_marker. keeps. Qed.
Lemma Keeps_mark_opaque rel : Keeps (mark_opaque rel).
Proof.
  unfold mark_opaque, create_marker. keeps. generalize OPAQUE_XATTRS. intros names. induction names as [|name names IH]; cbn [set_opaque_xattr]; [keeps|].
  intros w r w' E p f Hp. destruct (call _ w) as [[|e] w0] eqn:Ec; pose proof (Keeps_call _ _ _ _ Ec p f Hp) as Hp0; [by injection E as _ <-|].
  destruct (ignorable_metadata_error e); [by eapply IH|by injection E as _ <-].
Qed.
#[local] Hint Resolve Keeps_whiteout Keeps_mark_opaque : keeps.
Lemma Keeps_copy_object source i n truncate temporary : Keeps (copy_object source i n truncate temporary).
Proof. unfold copy_object. destruct (i_kind n); keeps. destruct x0; keeps. Qed.
#[local] Hint Resolve Keeps_copy_object : keeps.
Lemma Keeps_copy_up rel : Keeps (copy_up core rel).
Proof. unfold copy_up, copy_up_for_open, publish_copy. keeps. Qed.
#[local] Hint Resolve Keeps_copy_up : keeps.
Lemma Keeps_list_names rel : Keeps (list_names core rel).
Proof. unfold list_names, collect_directory_items. keeps. Qed.
#[local] Hint Resolve Keeps_list_names : keeps.
Lemma Keeps_mapping_n fuel source destination : Keeps (record_mapping_n core fuel source destination).
Proof. revert source destination. induction fuel as [|fuel IH]; intros source destination; cbn [record_mapping_n]; keeps. Qed.
#[local] Hint Resolve Keeps_mapping_n : keeps.
Lemma Keeps_mapping source destination : Keeps (record_logical_tree_mapping core source destination).
Proof. unfold record_logical_tree_mapping. keeps. Qed.
Lemma Keeps_materialize_n fuel rel : Keeps (materialize_tree_n core fuel rel).
Proof. revert rel. induction fuel as [|fuel IH]; intros rel; cbn [materialize_tree_n]; keeps. Qed.
#[local] Hint Resolve Keeps_mapping Keeps_materialize_n : keeps.
Lemma Keeps_materialize rel n : Keeps (materialize core rel n).
Proof. unfold materialize, materialize_tree. keeps. Qed.
Lemma Keeps_publish source old new replaced whiteout : Keeps (publish_rename core source old new replaced whiteout).
Proof. unfold publish_rename, remove_physical. destruct replaced; keeps; destruct x; keeps. Qed.
#[local] Hint Resolve Keeps_materialize Keeps_publish : keeps.
Lemma Keeps_move qo co qn cn n replaced : Keeps (move core qo qn co cn n replaced).
Proof. unfold move. keeps. Qed.
Lemma Keeps_swap qa ca qb cb a b : Keeps (swap core qa qb ca cb a b).
Proof. unfold swap. keeps. Qed.

(** ** What is recorded *)

Context (Jw : oc_stage_writable core = true) (Jj : oc_has_journal core = true) (Jr : oc_record_observations core = true).

Lemma record_covers rel w u w' : record_preimage core rel w = (Ok u, w') -> is_Some (w_preimages w' !! rel).
Proof.
  unfold record_preimage, capture_preimage, capture_preimage_after_check. rewrite Jw, Jj, Jr. cbn [negb]. intros E.
  apply bind_inv in E as [([] & w1 & [= _ <-] & E)|(e & _ & [=])].
  apply bind_inv in E as [(known & w1 & [= <- <-] & E)|(e & [=] & _)]. case_bool_decide as Hk.
  - destruct Hk as [f Hf]. assert (Keeps (synced ← is_synced rel; if_then (oc_strict core && negb synced) (_ ← fault; mark_synced rel))) as K by keeps.
    exists f. by eapply K.
  - apply bind_inv in E as [(state & w1 & E1 & E)|(e & _ & [=])]. apply bind_inv in E as [([] & w2 & E2 & E)|(e & _ & [=])].
    apply bind_inv in E as [([] & w3 & [= <-] & E)|(e & [=] & _)]. exists state.
    assert (Keeps (if_then (oc_strict core) (_ ← fault; mark_synced rel))) as K by keeps. eapply K; [exact E|]. cbn. apply lookup_insert_eq.
Qed.

(** An operation that succeeds has recorded the path. *)
Definition Covers {A} (rel : Path) (m : Op A) : Prop := forall w a w', m w = (Ok a, w') -> is_Some (w_preimages w' !! rel).
Lemma Covers_here {A B} rel (m : Op A) (k : A -> Op B) : Covers rel m -> (forall a, Keeps (k a)) -> Covers rel (m ≫= k).
Proof.
  intros Hm Hk w b w' E. apply bind_inv in E as [(a & w1 & E1 & E)|(e & _ & [=])]. destruct (Hm _ _ _ E1) as [f Hf]. exists f. by eapply Hk.
Qed.
Lemma Covers_later {A B} rel (m : Op A) (k : A -> Op B) : (forall a, Covers rel (k a)) -> Covers rel (m ≫= k).
Proof. intros Hk w b w' E. apply bind_inv in E as [(a & w1 & E1 & E)|(e & _ & [=])]. by eapply Hk. Qed.
Lemma Covers_record rel : Covers rel (record_preimage core rel).
Proof. intros w a w' E. by eapply record_covers. Qed.
Lemma Covers_prepare_new rel : Covers rel (prepare_new core rel).
Proof.
  unfold prepare_new. apply Covers_later; intros _. apply Covers_later; intros found. apply Covers_later; intros _.
  apply Covers_here; [apply Covers_record|]. intros _. keeps.
Qed.
Lemma Covers_create_dir rel mode : Covers rel (create_dir core rel mode).
Proof.
  apply Covers_here; [|intros b; keeps]. unfold prepare_dir. apply Covers_later; intros _. apply Covers_later; intros found.
  apply Covers_later; intros _. apply Covers_here; [apply Covers_record|]. intros _. keeps.
Qed.
Lemma Covers_hard_link source destination : Covers destination (hard_link core source destination).
Proof.
  unfold hard_link. destruct acc_has_denials; [by intros w a w' [=]|]. apply Covers_later; intros _. apply Covers_later; intros _.
  apply Covers_later; intros n. destruct (is_dir _); [by intros w a w' [=]|]. apply Covers_later; intros found. apply Covers_later; intros _.
  apply Covers_here; [apply Covers_record|]. intros _. keeps.
  intros w r w' E. unfold extend_group in E. destruct (List.find _ _) as [[]|]; injection E as _ <-; done.
Qed.

(** ** Trees *)

Lemma op_for_covers (f : string -> Op unit) names w w' (P : string -> World -> Prop) :
  (forall c, Reads core (f c)) -> inv w ->
  (forall c u u', c ∈ names -> inv u -> w_host u = w_host w -> f c u = (Ok tt, u') -> P c u') ->
  (forall c u u', P c u -> quiet u u' -> P c u') ->
  op_for f names w = (Ok tt, w') -> forall c, c ∈ names -> P c w'.
Proof.
  intros Hr I Hf HP. revert w I Hf. induction names as [|x names IH]; intros w I Hf E c Hc; [by apply not_elem_of_nil in Hc|].
  apply bind_inv in E as [([] & w1 & E1 & E)|(e & _ & [=])]. destruct (Hr x) as [RQ RH]. pose proof (RQ _ _ _ I E1) as Q1. destruct (RH _ _ _ E1) as (Hh & _ & _).
  assert (Quiet core (op_for f names)) as QF by (apply Quiet_for; intros y _; apply Hr).
  apply elem_of_cons in Hc as [->|Hc].
  - eapply HP; [|by eapply QF; [apply Q1|]]. by eapply Hf; [apply list_elem_of_here|..].
  - eapply IH; [apply Q1| |exact E|done]. intros d u u' Hd Iu Hu Eu. eapply Hf; [by apply list_elem_of_further|done|congruence|done].
Qed.
Lemma mapping_n_covers fuel source destination w w' : inv w -> single (w_host w) ->
  (view count (w_host w) source = Some KDir -> clear core (w_host w) source) -> record_mapping_n core fuel source destination w = (Ok tt, w') ->
  forall s, plain (source ++ s) -> is_Some (view count (w_host w) (source ++ s)) -> is_Some (w_preimages w' !! (destination ++ s)).
Proof.
  revert source destination w w'. induction fuel as [|fuel IH]; intros source destination w w' I Si Cl E s Hp Hs; cbn [record_mapping_n] in E; [done|].
  rewrite Jw, Jr, Jj in E. cbn [negb orb] in E.
  apply bind_inv in E as [([] & w1 & E1 & E)|(e & _ & [=])]. pose proof (record_covers _ _ _ _ E1) as [f Hf].
  pose proof (Quiet_record core _ _ _ _ I E1) as Q1. pose proof (qt_inv _ _ _ Q1) as I1. destruct (HostSame_capture _ _ _ _ _ _ _ E1) as (Hh1 & _).
  apply bind_inv in E as [(n & w2 & E2 & E)|(e & _ & [=])]. pose proof (metadata_view core _ _ _ _ I1 E2) as Hv. destruct (metadata_Ok core _ _ _ _ I1 E2) as (-> & _ & _).
  rewrite Hh1 in Hv. destruct s as [|c s].
  { rewrite app_nil_r. exists f. assert (Keeps (if negb (is_dir (i_kind n)) then mret tt else names ← list_names core source;
      op_for (fun name => source_child ← lift (child source name); destination_child ← lift (child destination name);
        record_mapping_n core fuel source_child destination_child) names)) as K by keeps. by eapply K. }
  assert (view count (w_host w) source = Some KDir) as Hd by (destruct Hs as [k Hk]; by apply (view_prefix _ _ source (c :: s) k)).
  assert (i_kind n = KDir) as Hk by congruence. rewrite Hk in E. cbn [is_dir negb] in E.
  apply bind_inv in E as [(names & w2 & E3 & E)|(e & _ & [=])]. destruct (list_names_spec core w1 source names w2 c I1 E3) as (-> & _ & _ & Hc).
  assert (source ++ c :: s = (source ++ [c]) ++ s) as Es by (by rewrite <- app_assoc).
  assert (destination ++ c :: s = (destination ++ [c]) ++ s) as Ed by (by rewrite <- app_assoc).
  rewrite Es in Hp, Hs. rewrite Ed. pose proof Hp as [Hpc _]%plain_app.
  assert (c ∈ names) as Hin.
  { assert (is_Some (view count (w_host w) (source ++ [c]))) as Hsc.
    { destruct s as [|d s]; [by rewrite app_nil_r in Hs|]. destruct Hs as [k Hk']. rewrite (view_prefix _ _ (source ++ [c]) (d :: s) k); [by eexists|done|done]. }
    rewrite Hh1 in Hc. apply Hc; [done|done|by apply Cl|done]. }
  refine (op_for_covers _ names w1 w' (fun c u => forall s, plain ((source ++ [c]) ++ s) -> is_Some (view count (w_host w) ((source ++ [c]) ++ s)) ->
    is_Some (w_preimages u !! ((destination ++ [c]) ++ s))) _ I1 _ _ E c Hin s Hp Hs).
  - intros d. apply Reads_bind; [by apply Reads_pure|]. intros a. apply Reads_bind; [by apply Reads_pure|]. intros b. apply Reads_mapping.
  - intros d u u' _ Iu Hu Eu t Ht Hvt. apply bind_inv in Eu as [(a & u1 & E4 & Eu)|(e & _ & [=])]. injection E4 as E4 <-.
    apply bind_inv in Eu as [(b & u1 & E5 & Eu)|(e & _ & [=])]. injection E5 as E5 <-. apply child_path in E4 as [-> _]. apply child_path in E5 as [-> _].
    eapply IH; [exact Iu| | |exact Eu|exact Ht|]; rewrite Hu, Hh1; [done|intros _; by apply clear_app, Cl|done].
  - intros d u u' HP Q t Ht Hvt. destruct (HP t Ht Hvt) as [g Hg]. exists g. by apply (qt_pre _ _ _ Q).
Qed.
Lemma mapping_covers source destination w w' : inv w -> single (w_host w) ->
  (view count (w_host w) source = Some KDir -> clear core (w_host w) source) -> record_logical_tree_mapping core source destination w = (Ok tt, w') ->
  forall s, plain (source ++ s) -> is_Some (view count (w_host w) (source ++ s)) -> is_Some (w_preimages w' !! (destination ++ s)).
Proof. intros I Si Cl E. apply bind_inv in E as [(fuel & w1 & [= <- <-] & E)|(e & _ & [=])]. by apply (mapping_n_covers _ _ _ _ _ I Si Cl E). Qed.

(** ** Every change *)

Lemma not_below_one (rel p : Path) : ~ below [rel] p <-> forall s, p <> rel ++ s.
Proof. split; [intros Hb s ->; apply Hb; exists rel, s; split; [apply list_elem_of_here|done]|]. intros Hs (r & s & ->%list_elem_of_singleton & ->). by eapply Hs. Qed.
Lemma below_cases (rels : list Path) p : {exists rel s, rel ∈ rels /\ p = rel ++ s} + {~ below rels p}.
Proof.
  destruct (decide (Exists (fun rel => is_Some (strip_path rel p)) rels)) as [Hx|Hn].
  - left. apply Exists_exists in Hx as (rel & Hin & s & ->%strip_path_Some). eauto.
  - right. intros (rel & s & Hin & ->). apply Hn, Exists_exists. exists rel. split; [done|]. rewrite strip_path_app. by eexists.
Qed.
(** What a change of one path shows differently is that path. *)
Lemma changed_at rel v w w' p : Changed core rel v w w' -> (forall s, s <> [] -> plain (rel ++ s) -> view count (w_host w) (rel ++ s) = None) ->
  plain p -> view count (w_host w') p <> view count (w_host w) p -> p = rel.
Proof.
  intros [Out _ Bel] Hb Hp Hne. destruct (below_cases [rel] p) as [(r & s & ->%list_elem_of_singleton & ->)|Hn].
  - destruct (decide (s = [])) as [->|Hs]; [by rewrite app_nil_r|]. exfalso. apply Hne. rewrite Bel, Hb by done. done.
  - exfalso. apply Hne. by apply (os_view _ _ _ _ Out).
Qed.
Lemma absent_below h rel : view count h rel = None -> forall s, s <> [] -> plain (rel ++ s) -> view count h (rel ++ s) = None.
Proof. intros Hv s Hs _. apply view_below; [by rewrite Hv|done]. Qed.

Lemma remove_checks_covers rel directory w m w' : inv w -> single (w_host w) -> remove_checks core rel directory w = (Ok m, w') ->
  forall s, plain (rel ++ s) -> is_Some (view count (w_host w) (rel ++ s)) -> is_Some (w_preimages w' !! (rel ++ s)).
Proof.
  intros I Si E. unfold remove_checks in E.
  apply bind_inv in E as [([] & w1 & [= _ <-] & E)|(e & _ & [=])].
  apply bind_inv in E as [([] & w1 & E1 & E)|(e & _ & [=])].
  assert (w1 = w /\ (directory = true -> clear core (w_host w) rel)) as [-> Hcl].
  { destruct directory; [|by injection E1 as <-]. apply tree_access_Ok in E1 as [-> Hacc]. split; [done|]. intros _.
    exact (tree_access_clear core _ _ _ _ (inv_host _ w I) Hacc). }
  apply bind_inv in E as [(found & w1 & E2 & E)|(e & _ & [=])].
  apply bind_inv in E as [(m' & w2 & E3 & E)|(e & _ & [=])]. injection E3 as E3 <-. destruct found as [m0|]; [|done]. injection E3 as ->.
  destruct (resolve_Some core w rel m' w1 I E2) as (-> & _ & Hloc & _ & _ & Hnode).
  assert (view count (w_host w) rel = Some (i_kind (rm_node m'))) as Hv
    by (rewrite (proj1 (located_view core _ (hinv_rooted _ _ (inv_host _ w I)) _ _ Hloc)); unfold kind_at; by rewrite Hnode).
  apply bind_inv in E as [([] & w1 & E4 & E)|(e & _ & [=])].
  assert (w1 = w /\ (directory = false -> is_dir (i_kind (rm_node m')) = false)) as [-> Hfile].
  { destruct directory; [|by destruct (is_dir (i_kind (rm_node m'))); injection E4]. destruct (negb _); [done|]. split; [|done].
    apply bind_inv in E4 as [(names & w2 & E5 & E4)|(e & _ & [=])]. destruct (list_names_spec core w rel names w2 ""%string I E5) as (-> & _).
    case_bool_decide; by injection E4. }
  apply bind_inv in E as [([] & w1 & E5 & E)|(e & _ & [=])]. injection E as _ <-. refine (mapping_covers rel rel w w1 I Si _ E5).
  intros Hd. destruct directory; [by apply Hcl|]. specialize (Hfile eq_refl). rewrite Hv in Hd. injection Hd as Hd. by rewrite Hd in Hfile.
Qed.
Lemma rename_covers qo co qn cn no_replace w w' : Healthy core w -> plain (qo ++ [co]) -> plain (qn ++ [cn]) ->
  rename core (qo ++ [co]) (qn ++ [cn]) no_replace w = (Ok tt, w') -> forall p, plain p ->
  view count (w_host w') p <> view count (w_host w) p -> is_Some (w_preimages w' !! p).
Proof.
  intros [I Si U] Po Pn E p Hp Hne.
  destruct (rename_outcome core _ _ _ _ _ w _ w' I Si U Po Pn E) as (k & Hk & [(-> & _)|[[Out Rn Ro] _]]); [done|].
  destruct (rename_cases core _ _ _ _ _ _ _ _ I Si E) as [[[e [=]] _]|(n & Hn & [(_ & -> & _)|(replaced & w1 & _ & Hh & _ & _ & Hdiff & _ & [_ Hempty] & Hcl & Em & w0 & E1 & E2)])]; [done|].
  pose proof (mapping_covers _ _ _ _ I Si (fun _ => Hcl) E1) as C1. destruct (Reads_logical core (qo ++ [co]) (qo ++ [co])) as [RQ RH].
  pose proof (RQ _ _ _ I E1) as Q0. destruct (RH _ _ _ E1) as (Hh0 & _).
  assert (single (w_host w0)) as Si0 by (by rewrite Hh0).
  pose proof (mapping_covers _ _ _ _ (qt_inv _ _ _ Q0) Si0 ltac:(rewrite Hh0; intros _; exact Hcl) E2) as C2. rewrite Hh0 in C2.
  pose proof (Keeps_move _ _ _ _ _ _ _ _ _ Em) as K3. pose proof (Keeps_mapping _ _ _ _ _ E2) as K2.
  assert (forall q, is_Some (w_preimages w1 !! q) -> is_Some (w_preimages w' !! q)) as Kw by (intros q [f Hf]; exists f; by apply K3).
  destruct (below_cases [qo ++ [co]; qn ++ [cn]] p) as [(rel & s & [->|Hin]%elem_of_cons & ->)|Hn']; [..|exfalso; apply Hne; by apply (os_view _ _ _ _ Out)].
  - apply Kw. rewrite Ro in Hne by (by apply plain_app in Hp as [_ ?]).
    destruct (C1 s Hp) as [f Hf]; [destruct (view count (w_host w) _); [by eexists|done]|]. exists f. by apply K2.
  - apply list_elem_of_singleton in Hin as ->. apply Kw. pose proof Hp as [_ Hs]%plain_app. rewrite Rn in Hne by done.
    assert (plain ((qo ++ [co]) ++ s)) as Hpo by (by apply plain_app).
    destruct (view count (w_host w) ((qo ++ [co]) ++ s)) as [k'|] eqn:Ev; [apply C2; [done|by rewrite Ev; eexists]|]. exfalso.
    destruct s as [|c s]; [rewrite app_nil_r in Ev; congruence|]. apply Hne. symmetry.
    destruct (view count (w_host w) ((qn ++ [cn]) ++ c :: s)) as [k'|] eqn:Ev'; [|done]. exfalso.
    assert (view count (w_host w) (qn ++ [cn]) = Some KDir) as Hd by (by apply (view_prefix _ _ _ (c :: s) k')).
    assert ((qn ++ [cn]) ++ c :: s = ((qn ++ [cn]) ++ [c]) ++ s) as Es by (by rewrite <- (app_assoc (qn ++ [cn]))).
    rewrite Es in *. pose proof Hp as [Hpc _]%plain_app. specialize (Hempty Hd c Hpc).
    destruct s; [rewrite app_nil_r in Ev'; congruence|]. apply view_prefix in Ev'; [congruence|done].
Qed.
Lemma exchange_covers qa ca qb cb w w' : Healthy core w -> plain (qa ++ [ca]) -> plain (qb ++ [cb]) ->
  exchange core (qa ++ [ca]) (qb ++ [cb]) w = (Ok tt, w') -> forall p, plain p ->
  view count (w_host w') p <> view count (w_host w) p -> is_Some (w_preimages w' !! p).
Proof.
  intros [I Si U] Pa Pb E p Hp Hne.
  destruct (exchange_outcome core _ _ _ _ w _ w' I Si U Pa Pb E) as [(_ & ->)|(_ & _ & [Out Xa Xb] & _)]; [done|].
  destruct (exchange_cases core _ _ _ _ _ _ _ I E) as [[[e [=]] _]|[(_ & _ & ->)|(a & b & w5 & _ & _ & _ & _ & Ec & Es)]]; [done|]. unfold exchange_checks in Ec.
  apply bind_inv in Ec as [([] & w0 & Ea & Ec)|(e & _ & [=])]. apply tree_access_Ok in Ea as [-> Ha].
  apply bind_inv in Ec as [([] & w0 & Eb & Ec)|(e & _ & [=])]. apply tree_access_Ok in Eb as [-> Hb].
  pose proof (tree_access_clear core _ _ _ _ (inv_host _ w I) Ha) as Cla. pose proof (tree_access_clear core _ _ _ _ (inv_host _ w I) Hb) as Clb.
  apply bind_inv in Ec as [([] & w1 & E1 & Ec)|(e & _ & [=])]. apply bind_inv in Ec as [([] & w2 & E2 & Ec)|(e & _ & [=])].
  apply bind_inv in Ec as [([] & w3 & E3 & E4)|(e & _ & [=])].
  assert (forall x y u u', clear core (w_host w) x -> inv u -> w_host u = w_host w -> record_logical_tree_mapping core x y u = (Ok tt, u') ->
            inv u' /\ w_host u' = w_host w /\ (forall s, plain (x ++ s) -> is_Some (view count (w_host w) (x ++ s)) -> is_Some (w_preimages u' !! (y ++ s))) /\
            (forall q, is_Some (w_preimages u !! q) -> is_Some (w_preimages u' !! q))) as Hstep.
  { intros x y u u' Cx Iu Hu Eu. destruct (Reads_logical core x y) as [RQ RH]. destruct (RH _ _ _ Eu) as (Hh & _). split_and!; [apply (qt_inv _ _ _ (RQ _ _ _ Iu Eu))|congruence| |].
    - rewrite <- Hu. apply mapping_covers; [done|by rewrite Hu|intros _; by rewrite Hu|done].
    - intros q [f Hf]. exists f. by apply (Keeps_mapping _ _ _ _ _ Eu). }
  destruct (Hstep _ _ _ _ Cla I eq_refl E1) as (I1 & H1 & C1 & K1). destruct (Hstep _ _ _ _ Clb I1 H1 E2) as (I2 & H2 & C2 & K2).
  destruct (Hstep _ _ _ _ Cla I2 H2 E3) as (I3 & H3 & C3 & K3). destruct (Hstep _ _ _ _ Clb I3 H3 E4) as (_ & _ & C4 & K4).
  assert (forall q, is_Some (w_preimages w5 !! q) -> is_Some (w_preimages w' !! q)) as Kw by (intros q [f Hf]; exists f; by eapply Keeps_swap).
  assert (forall v v' : option Kind, v <> v' -> is_Some v \/ is_Some v') as Hor.
  { intros [k|] [k'|] ?; first [done | left; by exists k | right; by exists k']. }
  destruct (below_cases [qa ++ [ca]; qb ++ [cb]] p) as [(rel & s & [->|Hin]%elem_of_cons & ->)|Hn']; [..|exfalso; apply Hne; by apply (os_view _ _ _ _ Out)];
    [|apply list_elem_of_singleton in Hin as ->]; apply Kw; pose proof Hp as [_ Hs]%plain_app; [rewrite Xa in Hne by done|rewrite Xb in Hne by done];
    apply Hor in Hne as [Hv|Hv].
  - apply C4; [by apply plain_app|done].
  - apply K4, K3, K2, C1; done.
  - apply K4, C3; [by apply plain_app|done].
  - apply K4, K3, C2; done.
Qed.

(** A change that succeeds has an observation of every path that shows
    differently afterwards. *)
Lemma change_covered c w w' : Healthy core w -> proper c -> perform core c w = (Ok tt, w') -> forall p, plain p ->
  view count (w_host w') p <> view count (w_host w) p -> is_Some (w_preimages w' !! p).
Proof.
  intros He Hp E. pose proof He as [I Si U]. unfold proper in Hp.
  assert (forall q c k perm, k <> KDir -> plain (q ++ [c]) -> (_ ← prepare_new core (q ++ [c]); call (fs_create (Upper, q ++ [c]) k perm)) w = (Ok tt, w') ->
            forall p, plain p -> view count (w_host w') p <> view count (w_host w) p -> is_Some (w_preimages w' !! p)) as Hnew.
  { intros q x k perm Hk Hpl E' p Hpp Hne. destruct (create_changes core q x k perm w _ w' I Hpl Hk E') as (Hnone & _ & Ch).
    rewrite (changed_at _ _ _ _ _ Ch (absent_below _ _ Hnone) Hpp Hne).
    refine (Covers_here _ _ _ (Covers_prepare_new _) _ _ _ _ E'). intros _. apply Keeps_call. }
  destruct c as [rel mode|rel target|rel mode rdev|rel mode|rel directory|old new nr|first second|source dst|rel]; cbn [perform mentioned targets] in *;
    pose proof Hp as [[Hpl Hne'] Hrest]%Forall_cons; [destruct (path_snoc_cases rel) as [->|(q & x & ->)]; [done|]..| | |
      apply Forall_singleton in Hrest as [Hp2 Hn2]; destruct (path_snoc_cases dst) as [->|(q & x & ->)]; [done|]|].
  - by apply (Hnew q x (KFile "") (Z.land mode 4095)).
  - by apply (Hnew q x (KSymlink target) 511%Z).
  - apply (Hnew q x (node_kind mode rdev) (Z.land mode 4095)); [|done|done]. unfold node_kind. by destruct (_ || _)%Z.
  - intros p Hpp Hne. destruct (create_dir_changes core q x mode w _ w' I Hpl E) as (Hnone & _ & Ch).
    rewrite (changed_at _ _ _ _ _ Ch (absent_below _ _ Hnone) Hpp Hne). by eapply Covers_create_dir.
  - intros p Hpp Hne. destruct (remove_changes core q x directory w _ w' I Hpl E) as (_ & [Out At Bel]).
    rewrite remove_split in E. apply bind_inv in E as [(m & w1 & E1 & E)|(e & _ & [=])].
    destruct (below_cases [q ++ [x]] p) as [(r & s & ->%list_elem_of_singleton & ->)|Hn]; [|exfalso; apply Hne; by apply (os_view _ _ _ _ Out)].
    assert (view count (w_host w') ((q ++ [x]) ++ s) = None) as Hgone.
    { destruct (decide (s = [])) as [->|Hs]; [by rewrite app_nil_r|by apply Bel]. }
    destruct (remove_checks_covers _ _ _ _ _ I Si E1 s Hpp) as [f Hf].
    { destruct (view count (w_host w) ((q ++ [x]) ++ s)) as [k|]; [by exists k|]. by rewrite Hgone in Hne. }
    exists f. revert Hf. revert E. generalize (q ++ [x]). clear -core. intros rel E Hf.
    assert (Keeps (_ ← (if rm_is_upper m then _ ← call (if directory then fs_remove_dir_all (rm_path m) else fs_remove_file (rm_path m)); forget_copied_hard_links (rm_path m).2 else mret tt);
       shadows ← asking (fun h => exists_in_lower core h rel); if_then shadows (create_whiteout core rel))) as K by keeps. by eapply K.
  - apply Forall_singleton in Hrest as [Hp2 Hn2]. destruct (path_snoc_cases old) as [->|(qo & co & ->)]; [done|].
    destruct (path_snoc_cases new) as [->|(qn & cn & ->)]; [done|]. exact (rename_covers _ _ _ _ _ _ _ He Hpl Hp2 E).
  - apply Forall_singleton in Hrest as [Hp2 Hn2]. destruct (path_snoc_cases first) as [->|(qo & co & ->)]; [done|].
    destruct (path_snoc_cases second) as [->|(qn & cn & ->)]; [done|]. exact (exchange_covers _ _ _ _ _ _ He Hpl Hp2 E).
  - intros p Hpp Hne. destruct (hard_link_changes core source q x w _ w' I (plain_tidy _ Hpl) Hp2 E) as [(k & _ & _ & Hnone & _ & Ch) _].
    rewrite (changed_at _ _ _ _ _ Ch (absent_below _ _ Hnone) Hpp Hne). by eapply Covers_hard_link.
  - intros p Hpp Hne. destruct (change_healthy core (CopyUp rel) w _ w' eq_refl He Hp E) as [Out _]. exfalso. apply Hne.
    apply (os_view _ _ _ _ Out); [done|]. intros (r & s & Hin & _). by apply not_elem_of_nil in Hin.
Qed.
End Journal.
