(* ===== verification/OverlayDepth.v ===== *)
(** * The depth of the trees

    The recursions over a merged tree go down as far as its names do, so the
    fuel they start with is never used up. *)
From stdpp Require Import base tactics list strings gmap pretty.
From Stdlib Require Import ZArith Lia Ascii.
From S2P Require Import Prelude RustStr FileAccess HostFs HostFsFacts Overlay OverlayView OverlayQuiet OverlayCopy OverlayCopyUp OverlayCreate OverlayRemove OverlayList OverlayFootprint OverlayRename OverlayExchange OverlayLink OverlayHealth.
Local Open Scope nat_scope.

Section Depth.
Context (core : OverlayCore) `{AccessOps, Digest256, Laws : !AccessLaws}.
Local Abbreviation count := (oc_lowers core).
Local Abbreviation inv := (inv core).
Local Abbreviation quiet := (quiet core).
Local Abbreviation Track := (Track core).

(** The names that can show are at most [n] deep. *)
Definition depth_within (n : nat) (h : Host) : Prop := forall l, l.1 <> Work -> tidy l.2 -> is_Some (h_names h !! l) -> length l.2 <= n.
Lemma tree_fuel_depth h : depth_within (pred (pred (tree_fuel h))) h.
Proof.
  intros l _ _ [i Hi]. unfold tree_fuel. cbn [pred]. apply max_list_elem_of_le, list_elem_of_fmap.
  exists (l, i). split; [done|]. by apply elem_of_map_to_list.
Qed.
Lemma located_depth n h p l : rooted core h -> depth_within n h -> located core h p l -> tidy p -> length p <= n.
Proof.
  intros R D Hl Ht. destruct (located_view core h R p l Hl) as [_ [k Hk]]. apply kind_at_Some in Hk as (m & (i & Hi & _)%node_Some & _).
  destruct Hl as [[-> ->]|(q & c & -> & _ & Hl)]; [cbn; lia|]. apply entry_loc_Some in Hl as (_ & E & Hr).
  assert (l.1 <> Work) as Hw by (destruct Hr as [->|(j & -> & _)]; done). specialize (D l Hw). rewrite E in D. apply D; [done|by eexists].
Qed.
Lemma view_depth n h p k : hinv core h -> depth_within n h -> view count h p = Some k -> tidy p -> length p <= n.
Proof.
  intros I D Hv Ht. destruct (path_snoc_cases p) as [->|(q & c & ->)]; [cbn; lia|].
  rewrite view_snoc in Hv. case_decide as Hd; [|done]. unfold entry in Hv. destruct (entry_loc count h q c) as [l|] eqn:El; [|done].
  apply (located_depth n h _ l); [apply I|done| |done]. right. by exists q, c.
Qed.

(** ** Copying up adds what shows, and no deeper *)

Lemma temp_only {A} (m : Op A) k w r w' : Track k (fun _ => False) m -> k <= w_temp w -> m w = (r, w') ->
  forall l, tidy l.2 -> h_names (w_host w') !! l = h_names (w_host w) !! l.
Proof. intros T Hk E [x p] Ht. apply (tk_names _ _ _ _ (T _ _ _ Hk E)); [by intros []|by apply tidy_temp_free]. Qed.
(** Publishing a fresh object under its name: only that name is new. *)
Lemma rename_fresh_names h r q c a b res h' l : hinv core h -> temp_name c -> kind_at h (r, q) = Some KDir -> kind_at h (Upper, a) = Some KDir ->
  (forall d, h_names h !! (r, (q ++ [c]) ++ [d]) = None) -> h_names h !! (Upper, a ++ [b]) = None -> tidy l.2 -> l <> (Upper, a ++ [b]) ->
  fs_rename (r, q ++ [c]) (Upper, a ++ [b]) h = (res, h') -> h_names h' !! l = h_names h !! l.
Proof.
  intros I Htn Hq Ha Hch Hfree Hl Hne E. pose proof (hinv_wf _ _ I) as W.
  assert (forall x p (s : Path), h_names h !! (x, p) = None -> (forall d, h_names h !! (x, p ++ [d]) = None) -> h_names h !! (x, p ++ s) = None) as Hbelow.
  { intros x p [|d s] Hp Hd; [by rewrite app_nil_r|]. destruct (h_names h !! (x, p ++ d :: s)) eqn:Ex; [|done]. exfalso.
    assert (is_Some (kind_at h (x, p ++ d :: s))) as [k Hk] by (apply kind_names; [done|by rewrite Ex; eexists]).
    assert (is_Some (kind_at h (x, p ++ [d]))) as Hkd.
    { destruct s as [|e s]; [by eexists|]. change (d :: e :: s) with ([d] ++ e :: s) in Hk. rewrite app_assoc in Hk.
      rewrite (wf_prefix_dir h x _ (e :: s) k W ltac:(done) Hk). by eexists. }
    apply kind_names in Hkd as [? Hkd]; [|done]. rewrite Hd in Hkd. done. }
  pose proof (fs_rename_cases core h r q c Upper a b res h' I Hq Ha E) as Hc.
  destruct res; [destruct Hc as [[-> Hu]|[-> _]]; [|done]|by subst].
  assert (forall d, h_names h !! (Upper, (a ++ [b]) ++ [d]) = None) as Hfree'.
  { intros d. destruct (h_names h !! (Upper, (a ++ [b]) ++ [d])) eqn:Ex; [|done]. exfalso.
    assert (is_Some (kind_at h (Upper, a ++ [b]))) as Hk; [|apply kind_names in Hk as [? ?]; [congruence|done]].
    rewrite (wf_parents _ W Upper (a ++ [b]) d); [by eexists|by rewrite Ex; eexists]. }
  cbn. rewrite lookup_move_names by done. destruct (rebase (Upper, a ++ [b]) (r, q ++ [c]) l) as [l0|] eqn:Er.
  - apply rebase_Some in Er as (s & -> & ->). cbn [fst snd] in *. destruct s as [|d s]; [by rewrite app_nil_r in Hne|].
    rewrite (Hbelow Upper (a ++ [b]) (d :: s) Hfree Hfree').
    destruct (h_names h !! (r, (q ++ [c]) ++ d :: s)) eqn:Ex; [|done]. exfalso.
    assert (is_Some (kind_at h (r, (q ++ [c]) ++ d :: s))) as [k Hk] by (apply kind_names; [done|by rewrite Ex; eexists]).
    assert (is_Some (kind_at h (r, (q ++ [c]) ++ [d]))) as Hkd.
    { destruct s as [|e s]; [by eexists|]. change (d :: e :: s) with ([d] ++ e :: s) in Hk. rewrite app_assoc in Hk.
      rewrite (wf_prefix_dir h r _ (e :: s) k W ltac:(done) Hk). by eexists. }
    apply kind_names in Hkd as [? Hkd]; [|done]. rewrite Hch in Hkd. done.
  - rewrite decide_False; [done|]. intros [s ->]%under_spec. cbn in Hl. apply tidy_app in Hl as [[_ Hl]%tidy_snoc _].
    by rewrite (temp_name_whiteout _ Htn) in Hl.
Qed.
Lemma publish_rest_names a b source n (shared : bool) r q m w0 w res w' l : inv w0 -> ~ is_lower (r, q) ->
  Copied core r q (temp_of core m) (i_kind n) w0 w -> kind_at (w_host w0) (r, q) = Some KDir -> kind_at (w_host w0) (Upper, a) = Some KDir ->
  h_names (w_host w) !! (Upper, a ++ [b]) = None -> tidy (a ++ [b]) -> tidy l.2 -> l <> (Upper, a ++ [b]) ->
  on_error (_ ← if_then (negb shared) (copy_metadata source (r, q ++ [temp_of core m]) n); call (fs_rename (r, q ++ [temp_of core m]) (Upper, a ++ [b])))
    (ignore (call (if is_dir (i_kind n) then fs_remove_dir (r, q ++ [temp_of core m]) else fs_remove_file (r, q ++ [temp_of core m])))) w = (res, w') ->
  h_names (w_host w') !! l = h_names (w_host w) !! l.
Proof.
  intros I0 Hlo C Hd Ha Hfree Ht Hl Hne E. pose proof (cp_quiet _ _ _ _ _ _ _ C) as Q. pose proof (qt_inv _ _ _ Q) as I.
  unfold on_error in E. match type of E with (match ?m with _ => _ end) = _ => destruct m as [x w1] eqn:E1 end.
  assert (h_names (w_host w1) !! l = h_names (w_host w) !! l) as N1.
  { assert (is_Some (node (w_host w) (r, q ++ [temp_of core m]))) as Hsome.
    { pose proof (cp_kind _ _ _ _ _ _ _ C) as (y & -> & _)%kind_at_Some. by eexists. }
    assert (CalmAt core (r, q ++ [temp_of core m]) (if_then (negb shared) (copy_metadata source (r, q ++ [temp_of core m]) n))) as Hcm
      by (apply CalmAt_if_then, CalmAt_copy_metadata; done).
    apply bind_inv in E1 as [([] & w2 & E2 & E1)|(e & E2 & ->)]; pose proof (Hcm _ _ _ I Hsome E2) as [Qc Nc Lc _]; [|by rewrite Nc].
    rewrite <- Nc. apply call_cases in E1 as [(e & _ & ->)|(h & Eh & ->)]; [done|]. cbn [w_host set_host].
    pose proof (qt_inv _ _ _ Qc) as I2. pose proof (hinv_wf _ _ (inv_host _ _ I0)) as W0.
    eapply (rename_fresh_names (w_host w2)); [apply I2|apply temp_of_temp|..|exact Eh].
    - rewrite (kind_of_look _ _ _ (Lc _)). eapply tmp_dir_kept; [exact C|done].
    - rewrite (kind_of_look _ _ _ (Lc _)). rewrite (kind_of_look (w_host w0)); [done|]. apply (cp_look _ _ _ _ _ _ _ C).
      intros [= _ E']. pose proof (temp_name_whiteout _ (temp_of_temp core m)) as Hw. apply tidy_app in Ht as [Ht _]. rewrite E' in Ht. apply tidy_snoc in Ht as [_ Ht]. congruence.
    - intros d. rewrite Nc. eapply no_children_kept; [exact C|done|apply I].
    - by rewrite Nc.
    - done.
    - done. }
  destruct x as [[]|e]; [by injection E as _ <-|]. injection E as _ E. rewrite <- N1.
  destruct (ignore _ w1) as [y wc] eqn:Ec. cbn in E. subst wc.
  eapply (temp_only _ 0); [|lia|exact Ec|done]. apply Track_ignore, Track_call, HostTrack_remove, place_spot, place_temp.
Qed.
Lemma publish_copy_names a b source w r w' : inv w -> tidy (a ++ [b]) -> is_lower source -> kind_at (w_host w) (Upper, a) = Some KDir ->
  is_Some (node (w_host w) source) -> publish_copy core (a ++ [b]) source false w = (r, w') ->
  forall l, tidy l.2 -> l <> (Upper, a ++ [b]) -> h_names (w_host w) !! (Upper, a ++ [b]) = None -> h_names (w_host w') !! l = h_names (w_host w) !! l.
Proof.
  intros I Ht Hs Ha [n Hn] E l Hl Hne Hfree. pose proof (hinv_wf _ _ (inv_host _ w I)) as W.
  destruct (lstat_present _ _ _ W Hn) as (i & Hi & Hin & Hlst).
  apply bind_inv in E as [([i' n'] & w0 & E0 & E)|(e & E0 & ->)]; unfold reading in E0; rewrite Hlst in E0; [|done]. injection E0 as <- <- <-.
  rewrite parent_of_snoc in E. destruct (temporary_path_temp core a w) as (r0 & q & Etp & Hw).
  apply bind_inv in E as [(tmp & w1 & E1 & E)|(e & E1 & ->)]; rewrite Etp in E1; [|done]. injection E1 as <- <-. set (w1 := mkWorld _ _ _ _ _ _ _) in *.
  assert (inv w1) as I1 by (split; [apply I|apply (inv_groups _ w I)]).
  assert (tidy q) as Hq by (destruct Hw as [(_ & _ & ->)|(_ & ->)]; [constructor|by apply tidy_app in Ht as [? _]]).
  assert (settled core (S (w_temp w)) (r0, q ++ [temp_of core (w_temp w)])) as Hset.
  { intros m Hm. cbn in Hm. apply elem_of_app in Hm as [Hm|Hm%list_elem_of_singleton]; [by destruct (tidy_temp_free core r0 q Hq m)|].
    apply temp_of_inj in Hm as ->. lia. }
  assert (~ is_lower (r0, q)) as Hlo by (by destruct Hw as [(_ & -> & _)|(-> & _)]; intros []).
  assert (kind_at (w_host w1) (r0, q) = Some KDir) as Hd by (by eapply (temporary_dir core a w1)).
  pose proof (Track_copy_object core (S (w_temp w)) (fun _ => False) source i n false r0 q (w_temp w) Hset) as T2.
  apply bind_inv in E as [(shared & w2 & E2 & E)|(e & E2 & ->)]; pose proof (temp_only _ _ w1 _ _ T2 (Nat.le_refl _) E2) as N2; [|by apply N2].
  destruct (copy_object_quiet core r0 q _ (temp_of_temp core _) Hlo source i n w1 _ _ I1 Hd Hin E2) as (Q2 & _ & C2). specialize (C2 shared eq_refl).
  change (w_host w1) with (w_host w) in N2. rewrite <- (N2 l Hl).
  assert (h_names (w_host w2) !! (Upper, a ++ [b]) = None) as Hfree2 by (by rewrite (N2 (Upper, a ++ [b]) Ht)).
  apply bind_inv in E as [([] & w3 & E3 & E)|(e & E3 & ->)];
    pose proof (publish_rest_names a b source n shared r0 q (w_temp w) w1 w2 _ _ l I1 Hlo C2 Hd Ha Hfree2 Ht Hl Hne E3) as N3; [|done].
  rewrite <- N3. apply bind_inv in E as [(links & w4 & [= <- <-] & E)|(e & [=] & _)].
  apply bind_inv in E as [([] & w4 & E4 & E)|(e & E4 & ->)]; destruct (is_file (i_kind n) && _); try discriminate E4;
    injection E4 as <-; by injection E as _ <-.
Qed.
Lemma copy_up_depth n rel w r w' : inv w -> tidy rel -> depth_within n (w_host w) -> copy_up core rel w = (r, w') -> depth_within n (w_host w').
Proof.
  intros I Ht D E. pose proof (hinv_wf _ _ (inv_host _ w I)) as W. unfold copy_up, copy_up_for_open in E.
  assert (forall w1, w_host w1 = w_host w -> depth_within n (w_host w1)) as Hsame by (by intros w1 ->).
  apply bind_inv in E as [([] & w0 & E0 & E)|(e & E0 & ->)]; injection E0 as E0 <-; [|done].
  apply bind_inv in E as [(present & w1 & [= <- <-] & E)|(e & [=] & _)].
  destruct (exists_at (w_host w) (Upper, rel)) eqn:Ex.
  { apply bind_inv in E as [([] & w1 & [= _ <-] & E)|(e & E1 & ->)]; [|injection E1 as _ <-; done].
    apply bind_inv in E as [([] & w2 & E2 & E)|(e & E2 & ->)]; destruct (HostSame_capture _ _ _ _ _ _ _ E2) as [Hh _]; [injection E as _ <-|]; by apply Hsame. }
  apply bind_inv in E as [(found & w1 & E1 & E)|(e & E1 & ->)]; [|injection E1 as _ <-; done].
  apply bind_inv in E as [(m & w2 & E2 & E)|(e & E2 & ->)]; injection E2 as E2 <-;
    (destruct found as [m'|]; [|destruct (resolve_None _ _ _ _ I E1) as (-> & _); done]); cbn in E2; [|done].
  injection E2 as ->. destruct (resolve_Some _ _ _ _ _ I E1) as (-> & _ & Hloc & Hm).
  pose proof (located_depth n _ _ _ (hinv_rooted _ _ (inv_host _ w I)) D Hloc Ht) as Hlen.
  apply bind_inv in E as [([] & w3 & E3 & E)|(e & E3 & ->)]; pose proof (Quiet_record _ _ _ _ _ I E3) as Q3;
    destruct (HostSame_capture _ _ _ _ _ _ _ E3) as [H3 _]; [|by apply Hsame].
  destruct (rm_is_upper m) eqn:Hup; [injection E as _ <-; by apply Hsame|]. unfold rm_is_upper in Hup. apply bool_decide_eq_false in Hup.
  destruct (located_lower core _ _ _ (inv_host _ w I) Hloc Hup) as (q & c & i & -> & Hp & Hnone). rewrite Hp in *.
  pose proof (proj1 (proj1 (tidy_snoc _ _) Ht)) as Htq.
  assert (forall w4 x, ensure_upper_parents core (q ++ [c]) w3 = (x, w4) -> forall l, tidy l.2 -> h_names (w_host w4) !! l = h_names (w_host w) !! l \/ length l.2 <= n) as Hens.
  { intros w4 x E4 l Hl. destruct (decide (above (q ++ [c]) l)) as [[_ Hab]|Hab].
    - right. rewrite parent_of_snoc in Hab. apply prefix_length in Hab. rewrite length_app in Hlen. lia.
    - left. rewrite (tk_names _ _ _ _ (Track_ensure_parents core 0 (q ++ [c]) Ht w3 _ _ ltac:(lia) E4)); [by rewrite H3|done|]. destruct l. by apply tidy_temp_free. }
  assert (forall w4, (forall l, tidy l.2 -> h_names (w_host w4) !! l = h_names (w_host w) !! l \/ length l.2 <= n) -> depth_within n (w_host w4)) as Hdone.
  { intros w4 Hn l Hw Hl Hs. destruct (Hn l Hl) as [En|?]; [|done]. rewrite En in Hs. by apply D. }
  apply bind_inv in E as [([] & w4 & E4 & E)|(e & E4 & ->)]; [|apply Hdone; by eapply Hens].
  destruct (ensure_upper_parents_quiet _ _ _ _ _ _ (qt_inv _ _ _ Q3) Htq E4) as (Q4 & _ & K4 & L4).
  apply Hdone. intros l Hl. destruct (decide (l = (Upper, q ++ [c]))) as [->|Hne]; [by right|].
  destruct (Hens _ _ E4 l Hl) as [<-|?]; [left|by right].
  eapply (publish_copy_names q c (Lower i, q ++ [c]) w4); [apply Q4|done|done|by apply K4| |exact E|done|done|].
  - destruct (hq_lower _ _ _ (qt_host _ _ _ (quiet_trans _ _ _ _ Q3 Q4)) i (q ++ [c])) as [_ ->]. rewrite (proj2 (proj2 Hm)). by eexists.
  - rewrite (tk_names _ _ _ _ (Track_ensure_parents core 0 (q ++ [c]) Ht w3 _ _ ltac:(lia) E4)); [rewrite H3; apply node_names, kind_at_None; done| |by apply tidy_temp_free].
    intros [_ Hab]. cbn [snd] in Hab. rewrite parent_of_snoc in Hab. apply prefix_length in Hab. rewrite length_app in Hab. cbn in Hab. lia.
Qed.

(** ** Results that are not cut short *)

Definition fine {A} (r : Result IoErr A) : Prop := r <> Err OutOfFuel.
Lemma fine_bind {A B} (m : Result IoErr A) (k : A -> Result IoErr B) : fine m -> (forall a, fine (k a)) -> fine (m ≫= k).
Proof. intros Hm Hk. destruct m as [a|e]; [apply Hk|]. intros [= ->]. by apply Hm. Qed.
Lemma fine_ensure b e : e <> OutOfFuel -> fine (ensure b e).
Proof. intros He. destruct b; [done|]. by intros [= ->]. Qed.
Lemma fine_ok_or {A} (o : option A) e : e <> OutOfFuel -> fine (ok_or o e).
Proof. intros He. destruct o; [done|]. by intros [= ->]. Qed.
(** What lies beyond a link answers with errors of the system. *)
Definition settled_beyond (h : Host) : Prop := forall l, fine (h_beyond h l).

Ltac fine := repeat match goal with
  | |- fine (mbind _ _) => apply fine_bind; [|let x := fresh "x" in intros x]
  | |- fine (ensure _ _) => by apply fine_ensure
  | |- fine (ok_or _ _) => by apply fine_ok_or
  | |- fine (Ok _) => done
  | |- fine (Err _) => done
  | |- fine (match ?p with (_, _) => _ end) => destruct p
  | |- fine (if ?b then _ else _) => destruct b eqn:?
  | |- fine (match ?o with _ => _ end) => destruct o eqn:?
  | |- fine _ => by auto with fine
  end.
Create HintDb fine.

Lemma fine_visible rel : fine (require_visible core rel).
Proof. unfold require_visible, validate_rel. fine. Qed.
Lemma fine_child parent name : fine (child parent name).
Proof. unfold child, validate_rel, validate_name. fine. Qed.
Lemma fine_unaliased_metadata h i n : fine (require_unaliased_metadata h i n).
Proof. unfold require_unaliased_metadata. fine. Qed.
#[local] Hint Resolve fine_visible fine_child fine_unaliased_metadata : fine.
Lemma fine_lstat h l : settled_beyond h -> fine (lstat h l).
Proof. intros Hb. unfold lstat. destruct (reach h l); fine; apply Hb. Qed.
Lemma lstat_error h l e : settled_beyond h -> lstat h l = Err e -> e <> OutOfFuel.
Proof. intros Hb E ->. by apply (fine_lstat h l Hb). Qed.
#[local] Hint Resolve fine_lstat : fine.
Lemma fine_check_parents h r known index at_ rest parents checked : settled_beyond h -> fine (check_parents h r known index at_ rest parents checked).
Proof.
  intros Hb. revert index at_ parents checked. induction rest as [|c rest IH]; intros index at_ parents checked; cbn [check_parents]; [done|].
  destruct (index <? known); [apply IH|]. destruct (lstat h (r, at_ ++ [c])) as [[i n]|e] eqn:E; [destruct (is_dir (i_kind n)); [apply IH|done]|].
  destruct (bool_decide _); [done|]. intros [= ->]. by apply (fine_lstat h (r, at_ ++ [c]) Hb).
Qed.
#[local] Hint Resolve fine_check_parents : fine.
Lemma fine_layer h r rel checked : settled_beyond h -> fine (layer_metadata_with_parents h r rel checked).
Proof.
  intros Hb. unfold layer_metadata_with_parents, validate_rel. fine; intros [= ->]; by apply (fine_lstat h (r, rel) Hb).
Qed.
#[local] Hint Resolve fine_layer : fine.
Lemma fine_layer_metadata h r rel : settled_beyond h -> fine (layer_metadata h r rel).
Proof. intros Hb. unfold layer_metadata. fine. Qed.
Lemma fine_lowers h rel checked n index : settled_beyond h -> fine (resolve_lowers h rel checked n index).
Proof. intros Hb. revert checked index. induction n as [|n IH]; intros checked index; cbn [resolve_lowers]; fine; apply IH. Qed.
#[local] Hint Resolve fine_layer_metadata fine_lowers : fine.
Lemma fine_component h rel checked : settled_beyond h -> fine (resolve_component_metadata_with_parents core h rel checked).
Proof. intros Hb. unfold resolve_component_metadata_with_parents. fine. Qed.
#[local] Hint Resolve fine_component : fine.
Lemma fine_from h at_ rest checked : settled_beyond h -> fine (resolve_from core h at_ rest checked).
Proof. intros Hb. revert at_ checked. induction rest as [|c rest IH]; intros at_ checked; cbn [resolve_from]; fine; apply IH. Qed.
#[local] Hint Resolve fine_from : fine.
Lemma fine_resolve h rel : settled_beyond h -> fine (resolve_metadata_checked core h rel).
Proof. intros Hb. unfold resolve_metadata_checked, resolve_metadata_walk. fine. Qed.
Lemma fine_identity value : fine (identity_parse value).
Proof. unfold identity_parse. fine. Qed.
#[local] Hint Resolve fine_resolve fine_identity : fine.
Lemma fine_fingerprint h r rel : settled_beyond h -> fine (fingerprint_at h r rel).
Proof. intros Hb. unfold fingerprint_at, fingerprint_inode, fingerprint_xattrs. fine. Qed.
Lemma fine_lower_entries h rel n index : settled_beyond h -> fine (lower_entries h rel n index).
Proof. intros Hb. revert index. induction n as [|n IH]; intros index; cbn [lower_entries]; fine; apply IH. Qed.
Lemma fine_visible_names h rel names : fine (visible_names core h rel names).
Proof. induction names as [|[name k] names IH]; cbn [visible_names]; fine; apply IH. Qed.
#[local] Hint Resolve fine_fingerprint fine_lower_entries fine_visible_names : fine.
Lemma fine_unaliased h l : settled_beyond h -> fine (require_unaliased h l).
Proof. intros Hb. unfold require_unaliased. fine. Qed.
#[local] Hint Resolve fine_unaliased : fine.

(** ** Operations that are not cut short *)

Definition Ends {A} (m : Op A) : Prop :=
  forall w r w', settled_beyond (w_host w) -> m w = (r, w') -> fine r /\ settled_beyond (w_host w').
Lemma Ends_pure {A} (m : Op A) : (forall w, settled_beyond (w_host w) -> fine (m w).1 /\ w_host (m w).2 = w_host w) -> Ends m.
Proof. intros Hm w r w' Hb E. specialize (Hm w Hb). rewrite E in Hm. destruct Hm as [Hf Hh]. cbn in *. by rewrite Hh. Qed.
Lemma Ends_bind {A B} (m : Op A) (k : A -> Op B) : Ends m -> (forall a, Ends (k a)) -> Ends (m ≫= k).
Proof.
  intros Hm Hk w r w' Hb E. apply bind_inv in E as [(a & w1 & E1 & E)|(e & E1 & ->)]; destruct (Hm _ _ _ Hb E1) as [Hf Hb1]; [by eapply Hk|].
  split; [|done]. intros [= ->]. by apply Hf.
Qed.
Lemma Ends_lift {A} (r : Result IoErr A) : fine r -> Ends (lift r).
Proof. intros Hr. by apply Ends_pure. Qed.
Lemma Ends_reading {A} (f : Host -> Result IoErr A) : (forall h, settled_beyond h -> fine (f h)) -> Ends (reading f).
Proof. intros Hf. apply Ends_pure. intros w Hb. split; [by apply Hf|done]. Qed.
Lemma Ends_if_then b m : Ends m -> Ends (if_then b m).
Proof. intros Hm. destruct b; [done|by apply Ends_pure]. Qed.
Lemma Ends_for {A} (f : A -> Op unit) l : (forall x, Ends (f x)) -> Ends (op_for f l).
Proof. intros Hf. induction l as [|x l IH]; [by apply Ends_pure|]. apply Ends_bind; [done|by intros _]. Qed.
Lemma Ends_ignore {A} (m : Op A) : Ends m -> Ends (ignore m).
Proof. intros Hm w r w' Hb E. unfold ignore in E. destruct (m w) as [x w1] eqn:E1. injection E as <- <-. split; [done|]. by eapply Hm. Qed.
Lemma Ends_unless_error ok m : Ends m -> Ends (unless_error ok m).
Proof.
  intros Hm w r w' Hb E. unfold unless_error in E. destruct (m w) as [[u|e] w1] eqn:E1; destruct (Hm _ _ _ Hb E1) as [Hf Hb1]; injection E as <- <-;
    (split; [|done]); [done|]. destruct (ok e); [done|]. intros [= ->]. by apply Hf.
Qed.
Lemma Ends_on_error {A} (m : Op A) c : Ends m -> Ends c -> Ends (on_error m c).
Proof.
  intros Hm Hc w r w' Hb E. unfold on_error in E. destruct (m w) as [[u|e] w1] eqn:E1; destruct (Hm _ _ _ Hb E1) as [Hf Hb1]; injection E as <- <-; [done|].
  split; [intros [= ->]; by apply Hf|]. destruct (c w1) as [rc wc] eqn:Ec. by eapply Hc.
Qed.
Lemma Ends_fault : Ends fault.
Proof. apply Ends_pure. intros w _. unfold fault. by destruct (w_faults w) as [|[]]. Qed.

Definition HostEnds (f : HostCall unit) : Prop := forall h r h', f h = (r, h') -> fine r /\ h_beyond h' = h_beyond h.
Lemma Ends_call f : HostEnds f -> Ends (call f).
Proof.
  intros Hf w r w' Hb E. apply call_cases in E as [(e & -> & ->)|(h & Eh & ->)]; [done|]. destruct (Hf _ _ _ Eh) as [Hr Hh]. split; [done|].
  unfold settled_beyond. cbn. by rewrite Hh.
Qed.
Lemma HostEnds_dir l f : HostEnds f -> HostEnds (in_directory l f).
Proof. intros Hf h r h' E. unfold in_directory in E. destruct (reach h l); [by eapply Hf|injection E as <- <-; done..]. Qed.
Ltac host_ends := repeat apply HostEnds_dir; intros ? ? ? E; repeat case_match; by injection E as <- <-.
Lemma HostEnds_create l k perm : HostEnds (fs_create l k perm).
Proof. host_ends. Qed.
Lemma HostEnds_remove_file l : HostEnds (fs_remove_file l).
Proof. host_ends. Qed.
Lemma HostEnds_remove_dir l : HostEnds (fs_remove_dir l).
Proof. host_ends. Qed.
Lemma HostEnds_remove_dir_all l : HostEnds (fs_remove_dir_all l).
Proof. host_ends. Qed.
Lemma HostEnds_hard_link src dst : HostEnds (fs_hard_link src dst).
Proof. host_ends. Qed.
Lemma HostEnds_rename src dst : HostEnds (fs_rename src dst).
Proof. host_ends. Qed.
Lemma HostEnds_update l f : HostEnds (fs_update l f).
Proof. host_ends. Qed.
#[local] Hint Resolve HostEnds_create HostEnds_remove_file HostEnds_remove_dir HostEnds_remove_dir_all HostEnds_hard_link HostEnds_rename HostEnds_update : fine.

Ltac ends := repeat match goal with
  | |- Ends (match ?p with (_, _) => _ end) => destruct p
  | |- Ends (if ?b then _ else _) => destruct b eqn:?
  | |- Ends (mbind _ _) => apply Ends_bind; [|let x := fresh "x" in intros x]
  | |- Ends (if_then _ _) => apply Ends_if_then
  | |- Ends (unless_error _ _) => apply Ends_unless_error
  | |- Ends (ignore _) => apply Ends_ignore
  | |- Ends (on_error _ _) => apply Ends_on_error
  | |- Ends (call (if ?b then _ else _)) => destruct b
  | |- Ends (call _) => apply Ends_call
  | |- Ends fault => apply Ends_fault
  | |- Ends (op_for _ _) => apply Ends_for; let y := fresh "y" in intros y
  | |- Ends (reading _) => apply Ends_reading; intros; fine
  | |- Ends (lift _) => apply Ends_lift; fine
  | |- HostEnds _ => by auto with fine
  | |- Ends _ => first [by auto with fine | by apply Ends_pure]
  end.

Lemma Ends_capture rel durable absent : Ends (capture_preimage_after_check core rel durable absent).
Proof. unfold capture_preimage_after_check, validate_rel. ends. Qed.
#[local] Hint Resolve Ends_capture : fine.
Lemma Ends_record rel : Ends (record_preimage core rel).
Proof. unfold record_preimage, capture_preimage. ends. Qed.
Lemma Ends_observe_absence rel : Ends (observe_absence core rel).
Proof. unfold observe_absence. ends. Qed.
#[local] Hint Resolve Ends_record Ends_observe_absence : fine.
Lemma Ends_resolve rel : Ends (resolve core rel).
Proof. unfold resolve. ends. Qed.
#[local] Hint Resolve Ends_resolve : fine.
Lemma Ends_metadata_resolved rel : Ends (metadata_resolved core rel).
Proof. unfold metadata_resolved, metadata_optional. ends; destruct x; ends. Qed.
#[local] Hint Resolve Ends_metadata_resolved : fine.
Lemma Ends_metadata rel : Ends (metadata core rel).
Proof. unfold metadata. ends. Qed.
Lemma Ends_copy_metadata source l n : Ends (copy_metadata source l n).
Proof. unfold copy_metadata, copy_user_xattrs. ends. Qed.
#[local] Hint Resolve Ends_metadata Ends_copy_metadata : fine.
Lemma Ends_ensure_dirs at_ rest : Ends (ensure_dirs core at_ rest).
Proof.
  revert at_. induction rest as [|c rest IH]; intros at_; cbn [ensure_dirs]; [ends|]. apply Ends_bind; [|intros _; apply IH].
  unfold ensure_dir. intros w r w' Hb E. apply bind_inv in E as [(stat & w1 & [= <- <-] & E)|(e & [=] & _)].
  destruct (lstat (w_host w) (Upper, at_ ++ [c])) as [[i n]|e] eqn:El.
  - destruct (is_dir (i_kind n)); by injection E as <- <-.
  - case_bool_decide; [|injection E as <- <-; split; [intros [= ->]; by apply (fine_lstat _ _ Hb El)|done]].
    revert w r w' Hb E El. intros w r w' Hb E _. revert w r w' Hb E. fold (@Ends unit (m ← metadata_resolved core (at_ ++ [c]);
      if negb (is_dir (i_kind (rm_node m))) then raise ENOTDIR
      else _ ← record_preimage core (at_ ++ [c]); _ ← call (fs_create (Upper, at_ ++ [c]) KDir 511); copy_metadata (rm_path m) (Upper, at_ ++ [c]) (rm_node m))).
    ends.
Qed.
#[local] Hint Resolve Ends_ensure_dirs : fine.
Lemma Ends_ensure rel : Ends (ensure_upper_parents core rel).
Proof. unfold ensure_upper_parents. ends. Qed.
Lemma Ends_clear rel : Ends (clear_whiteout core rel).
Proof. unfold clear_whiteout. ends. Qed.
#[local] Hint Resolve Ends_ensure Ends_clear : fine.
Lemma Ends_whiteout rel : Ends (create_whiteout core rel).
Proof. unfold create_whiteout, create_marker. ends. Qed.
Lemma Ends_mark_opaque rel : Ends (mark_opaque rel).
Proof.
  unfold mark_opaque, create_marker. ends. generalize OPAQUE_XATTRS. intros names. induction names as [|name names IH]; cbn [set_opaque_xattr]; [ends|].
  intros w r w' Hb E. assert (Ends (call (fs_update (Upper, rel) (with_xattr name "y")))) as Hc by ends.
  destruct (call _ w) as [[u|e] w0] eqn:Ec; destruct (Hc _ _ _ Hb Ec) as [Hf Hb0]; [by injection E as <- <-|].
  destruct (ignorable_metadata_error e); [by eapply IH|]. injection E as <- <-. split; [intros [= ->]; by apply Hf|done].
Qed.
#[local] Hint Resolve Ends_whiteout Ends_mark_opaque : fine.
Lemma Ends_copy_object source i n truncate temporary : Ends (copy_object source i n truncate temporary).
Proof. unfold copy_object. destruct (i_kind n); ends. destruct x0; ends. Qed.
#[local] Hint Resolve Ends_copy_object : fine.
Lemma Ends_copy_up rel : Ends (copy_up core rel).
Proof. unfold copy_up, copy_up_for_open, publish_copy. ends. Qed.
Lemma Ends_list_names rel : Ends (list_names core rel).
Proof. unfold list_names, collect_directory_items. ends. Qed.
#[local] Hint Resolve Ends_copy_up Ends_list_names : fine.

(** ** The recursions *)

(** The check of a tree goes down one name of a layer at a time. *)
Lemma tree_names_depth h old roots names c : tree_names h old roots = Ok names -> c ∈ names -> exists r, is_Some (h_names h !! (r, old ++ [c])).
Proof.
  revert names. induction roots as [|r roots IH]; intros names E Hc; cbn [tree_names] in E; [injection E as <-; by apply elem_of_nil in Hc|].
  destruct (existsb _ _); [by eapply IH|]. destruct (lstat h (r, old)) as [[i n]|e].
  - destruct (is_dir (i_kind n)).
    + destruct (tree_names h old roots) as [rest|]; [|done]. injection E as <-. apply elem_of_app in Hc as [Hc|Hc]; [|by eapply IH].
      apply list_elem_of_In, filter_In in Hc as [Hc _]. apply list_elem_of_In in Hc. exists r. by apply read_dir_spec.
    + destruct (require_unaliased h (r, old)); [|done]. by eapply IH.
  - destruct (bool_decide _); [by eapply IH|done].
Qed.
Lemma fine_tree_names h old roots : settled_beyond h -> fine (tree_names h old roots).
Proof.
  intros Hb. induction roots as [|r roots IH]; cbn [tree_names]; [done|]. destruct (existsb _ _); [done|].
  destruct (lstat h (r, old)) as [[i n]|e] eqn:E.
  - destruct (is_dir (i_kind n)); (apply fine_bind; [first [done | by apply fine_unaliased]|intros x; first [done | exact IH]]).
  - destruct (bool_decide _); [done|]. intros [= ->]. by apply (fine_lstat _ _ Hb E).
Qed.
Lemma fine_for_each {A} (f : A -> Result IoErr unit) l : (forall x, x ∈ l -> fine (f x)) -> fine (for_each f l).
Proof.
  induction l as [|x l IH]; intros Hf; cbn [for_each]; [done|]. apply fine_bind; [apply Hf, list_elem_of_here|]. intros _.
  apply IH. intros y Hy. by apply Hf, list_elem_of_further.
Qed.
Lemma fine_tree_access_n h fuel old new : settled_beyond h -> tree_fuel h <= length old + fuel -> 1 <= fuel -> fine (require_tree_access_n core fuel h old new).
Proof.
  intros Hb. revert old new. induction fuel as [|fuel IH]; intros old new Hl Hf; [lia|]. cbn [require_tree_access_n]. destruct (_ && _); [done|].
  apply fine_bind; [apply fine_visible|]. intros _. apply fine_bind; [apply fine_visible|]. intros _.
  destruct (tree_names h old (layer_roots core)) as [names|e] eqn:E; [|intros [= ->]; by apply (fine_tree_names _ _ _ Hb E)]. cbn [mbind result_bind].
  apply fine_for_each. intros c Hc. unfold name_set in Hc. rewrite elem_of_dedup, sort_by_perm in Hc.
  destruct (tree_names_depth _ _ _ _ _ E Hc) as [r [i Hi]].
  assert (length (old ++ [c]) <= pred (pred (tree_fuel h))) as Hd.
  { unfold tree_fuel. cbn [pred]. apply max_list_elem_of_le, list_elem_of_fmap. exists ((r, old ++ [c]), i). split; [done|]. by apply elem_of_map_to_list. }
  unfold tree_fuel in *. cbn [pred] in Hd. rewrite length_app in Hd. cbn in Hd. apply IH; rewrite ?length_app; cbn; lia.
Qed.
Lemma Ends_tree_access old new : Ends (require_tree_access core old new).
Proof.
  apply Ends_pure. intros w Hb. unfold require_tree_access, reading. split; [|done]. apply fine_tree_access_n; [done|cbn; lia|unfold tree_fuel; lia].
Qed.
#[local] Hint Resolve Ends_tree_access : fine.

(** The children that a listing gives are within the depth of the names. *)
Lemma listed_depth n rel names w w' c : inv w -> tidy rel -> depth_within n (w_host w) -> list_names core rel w = (Ok names, w') -> c ∈ names ->
  child rel c = Ok (rel ++ [c]) /\ tidy (rel ++ [c]) /\ S (length rel) <= n.
Proof.
  intros I Ht D E Hc. destruct (list_names_spec core w rel names w' c I E) as (_ & _ & Hs & _). destruct (Hs Hc) as [Hch [k Hk]].
  assert (tidy (rel ++ [c])) as Htc by (apply tidy_snoc; split; [done|by apply (child_Ok rel c)]).
  split_and!; [done|done|]. pose proof (view_depth n _ _ k (inv_host _ w I) D Hk Htc) as Hl. rewrite length_app in Hl. cbn in Hl. lia.
Qed.
Lemma op_for_ends (f : string -> Op unit) names (P : World -> Prop) w r w' :
  (forall c u x u', c ∈ names -> P u -> settled_beyond (w_host u) -> f c u = (x, u') -> fine x /\ P u' /\ settled_beyond (w_host u')) ->
  P w -> settled_beyond (w_host w) -> op_for f names w = (r, w') -> fine r /\ P w' /\ settled_beyond (w_host w').
Proof.
  revert w. induction names as [|x names IH]; intros w Hf HP Hb E; [by injection E as <- <-|].
  apply bind_inv in E as [([] & w1 & E1 & E)|(e & E1 & ->)]; destruct (Hf x _ _ _ (list_elem_of_here _ _) HP Hb E1) as (F1 & P1 & B1); [|split_and!; [|done..]; intros [= ->]; by apply F1].
  apply (IH w1); try done. intros c u y u' Hc. by apply Hf, list_elem_of_further.
Qed.
Lemma mapping_n_ends n fuel source destination w r w' : inv w -> tidy source -> depth_within n (w_host w) -> S n < length source + fuel -> 1 <= fuel ->
  settled_beyond (w_host w) -> record_mapping_n core fuel source destination w = (r, w') -> fine r.
Proof.
  revert source destination w r w'. induction fuel as [|fuel IH]; intros source destination w r w' I Ht D Hlen Hf Hb E; [lia|]. cbn [record_mapping_n] in E.
  destruct (negb (oc_stage_writable core)); [by injection E as <- <-|]. destruct (_ || _); [by injection E as <- <-|].
  apply bind_inv in E as [([] & w1 & E1 & E)|(e & E1 & ->)]; destruct (Ends_record _ _ _ _ Hb E1) as [F1 B1]; [|intros [= ->]; by apply F1].
  pose proof (qt_inv _ _ _ (Quiet_record _ _ _ _ _ I E1)) as I1. destruct (HostSame_capture _ _ _ _ _ _ _ E1) as [H1 _].
  apply bind_inv in E as [(nd & w2 & E2 & E)|(e & E2 & ->)]; destruct (Ends_metadata _ _ _ _ B1 E2) as [F2 B2]; [|intros [= ->]; by apply F2].
  destruct (metadata_Ok core _ _ _ _ I1 E2) as (-> & _ & _). destruct (negb (is_dir (i_kind nd))); [by injection E as <- <-|].
  apply bind_inv in E as [(names & w2 & E3 & E)|(e & E3 & ->)]; destruct (Ends_list_names _ _ _ _ B1 E3) as [F3 B3]; [|intros [= ->]; by apply F3].
  assert (depth_within n (w_host w1)) as D1 by (by rewrite H1).
  destruct (list_names_spec core w1 source names w2 ""%string I1 E3) as (-> & _).
  refine (proj1 (op_for_ends _ names (fun u => inv u /\ w_host u = w_host w1) w1 r w' _ (conj I1 eq_refl) B1 E)).
  intros c u x u' Hc [Iu Hu] Bu Eu. destruct (listed_depth n source names w1 w1 c I1 Ht D1 E3 Hc) as (Hch & Htc & Hl).
  assert (Reads core (source_child ← lift (child source c); destination_child ← lift (child destination c); record_mapping_n core fuel source_child destination_child)) as [RQ RH].
  { apply Reads_bind; [by apply Reads_pure|]. intros a. apply Reads_bind; [by apply Reads_pure|]. intros b. apply Reads_mapping. }
  pose proof (RQ _ _ _ Iu Eu) as Qu. destruct (RH _ _ _ Eu) as (Hu' & _ & _). split_and!; [|apply Qu|congruence|by rewrite Hu'].
  rewrite Hch in Eu. apply bind_inv in Eu as [(a & u1 & [= <- <-] & Eu)|(e & [=] & _)].
  apply bind_inv in Eu as [(b & u1 & E5 & Eu)|(e & E5 & ->)]; injection E5 as E5 <-; [|intros [= ->]; by apply (fine_child destination c)].
  eapply (IH (source ++ [c])); [exact Iu|done|by rewrite Hu| | |done|exact Eu]; rewrite ?length_app; cbn; lia.
Qed.
Lemma mapping_ends source destination w r w' : inv w -> tidy source -> settled_beyond (w_host w) ->
  record_logical_tree_mapping core source destination w = (r, w') -> fine r.
Proof.
  intros I Ht Hb E. apply bind_inv in E as [(fuel & w1 & [= <- <-] & E)|(e & [=] & _)].
  eapply (mapping_n_ends (pred (pred (tree_fuel (w_host w))))); [exact I|exact Ht|apply tree_fuel_depth|..|exact Hb|exact E]; unfold tree_fuel; lia.
Qed.
Lemma mark_opaque_depth n rel w r w' : depth_within n (w_host w) -> tidy rel -> mark_opaque rel w = (r, w') -> depth_within n (w_host w').
Proof.
  intros D Ht E l Hw Hl Hs. apply D; [done|done|].
  assert (Track 0 (fun l => l = (Upper, rel ++ [OPAQUE_NAME])) (mark_opaque rel)) as T.
  { apply Track_bind.
    - unfold create_marker. track. apply HostTrack_create; [by left|]. apply free_settled, stage_temp_free. by apply stage_opaque.
    - intros _. apply Track_opaque_xattr. }
  rewrite (tk_names _ _ _ _ (T _ _ _ ltac:(lia) E)) in Hs; [done| |destruct l; by apply tidy_temp_free].
  intros ->. by apply tidy_snoc in Hl as [_ ?].
Qed.
(** What the recursion of [materialize_tree] keeps. *)
Definition Bounded (n : nat) (w : World) : Prop := inv w /\ single (w_host w) /\ depth_within n (w_host w).
Lemma Bounded_quiet n w w' : Bounded n w -> quiet w w' -> depth_within n (w_host w') -> Bounded n w'.
Proof. intros (I & S & _) Q D. split_and!; [apply Q|by apply (single_quiet core w)|done]. Qed.
Lemma Bounded_same n w w' : Bounded n w -> quiet w w' -> w_host w' = w_host w -> Bounded n w'.
Proof. intros B Q Hh. apply (Bounded_quiet n w); [done|done|]. rewrite Hh. apply B. Qed.
Lemma materialize_n_ends n fuel rel w r w' : Bounded n w -> clear core (w_host w) rel -> rel <> [] -> tidy rel -> S n < length rel + fuel -> 1 <= fuel ->
  settled_beyond (w_host w) -> materialize_tree_n core fuel rel w = (r, w') -> fine r /\ Bounded n w' /\ settled_beyond (w_host w').
Proof.
  revert rel w r w'. induction fuel as [|fuel IH]; intros rel w r w' B C Hne Ht Hlen Hf Hb E; [lia|]. pose proof B as (I & S & D).
  destruct (materialize_raised core _ rel w r w' I S C Hne Ht E) as [[[Q _] _] _].
  cut (fine r /\ depth_within n (w_host w') /\ settled_beyond (w_host w')).
  { intros (? & ? & ?). split_and!; [done|by eapply Bounded_quiet|done]. }
  clear Q. cbn [materialize_tree_n] in E.
  apply bind_inv in E as [([] & w1 & E1 & E)|(e & E1 & ->)]; injection E1 as E1 <-; [|split_and!; [|done..]; intros [= ->]; by apply (fine_visible rel)].
  apply bind_inv in E as [(nd & w1 & E2 & E)|(e & E2 & ->)]; destruct (Ends_metadata _ _ _ _ Hb E2) as [F2 B2];
    destruct (proj2 (Reads_metadata core rel) _ _ _ E2) as (H2 & _); [|split_and!; [intros [= ->]; by apply F2|by rewrite H2|done]].
  destruct (metadata_Ok core _ _ _ _ I E2) as (-> & _ & _). clear H2.
  destruct (negb (is_dir (i_kind nd))).
  { destruct (Ends_copy_up _ _ _ _ Hb E) as [? ?]. split_and!; [done|by eapply copy_up_depth|done]. }
  apply bind_inv in E as [(names & w1 & E3 & E)|(e & E3 & ->)]; destruct (Ends_list_names _ _ _ _ Hb E3) as [F3 B3];
    destruct (proj2 (Reads_list_names core rel) _ _ _ E3) as (H3 & _); [|split_and!; [intros [= ->]; by apply F3|by rewrite H3|done]].
  destruct (list_names_spec core w rel names w1 ""%string I E3) as (-> & _). clear H3.
  apply bind_inv in E as [(l & w3 & E4 & E)|(e & E4 & ->)]; destruct (Ends_copy_up _ _ _ _ Hb E4) as [F4 B4]; pose proof (copy_up_depth n rel _ _ _ I Ht D E4) as D4;
    [|split_and!; [intros [= ->]; by apply F4|done|done]].
  pose proof (copy_up_quiet core rel w _ _ I Ht E4) as [Q4 _]. pose proof (Bounded_quiet n w w3 B Q4 D4) as Bd4.
  pose proof (subtle_clear core _ _ rel I (copy_up_subtle core rel w _ _ I Ht E4) C) as C4.
  assert (forall x w5, op_for (fun name => c ← lift (child rel name); n ← metadata core c;
      _ ← (if is_dir (i_kind n) then materialize_tree_n core fuel c else copy_up core c); mret tt) names w3 = (x, w5) ->
      fine x /\ Bounded n w5 /\ settled_beyond (w_host w5)) as Hloop.
  { intros x w5 E5. cut (fine x /\ (Bounded n w5 /\ clear core (w_host w5) rel) /\ settled_beyond (w_host w5)); [by intros (? & [? _] & ?)|].
    refine (op_for_ends _ names (fun u => Bounded n u /\ clear core (w_host u) rel) w3 x w5 _ (conj Bd4 C4) B4 E5). intros c u y u' Hc [Bu Cu] Hbu Eu.
    destruct (listed_depth n rel names w w c I Ht D E3 Hc) as (Hch & Htc & Hl). rewrite Hch in Eu. pose proof Bu as (Iu & Su & Du).
    apply bind_inv in Eu as [(p & u1 & [= <- <-] & Eu)|(e & [=] & _)].
    apply bind_inv in Eu as [(nc & u1 & E6 & Eu)|(e & E6 & ->)]; destruct (Ends_metadata _ _ _ _ Hbu E6) as [F6 B6];
      pose proof (proj1 (Reads_metadata core _) _ _ _ Iu E6) as Q6; destruct (proj2 (Reads_metadata core _) _ _ _ E6) as (H6 & _);
      pose proof (Bounded_same n u _ Bu Q6 H6) as Bd6; rewrite <- H6 in Cu; [|split_and!; [intros [= ->]; by apply F6|done..]].
    assert (forall z u2, (if is_dir (i_kind nc) then materialize_tree_n core fuel (rel ++ [c]) else copy_up core (rel ++ [c])) u1 = (z, u2) ->
              fine z /\ (Bounded n u2 /\ clear core (w_host u2) rel) /\ settled_beyond (w_host u2)) as Hone.
    { intros z u2 E7. pose proof Bd6 as (I6 & S6 & D6). pose proof (clear_app core _ _ [c] Cu) as Cc. assert (rel ++ [c] <> []) as Hnc by (by destruct rel).
      destruct (is_dir (i_kind nc)).
      - destruct (materialize_raised core _ _ _ _ _ I6 S6 Cc Hnc Htc E7) as [[B7 _] _]. pose proof (subtle_clear core _ _ rel I6 B7 Cu) as C7.
        destruct (IH (rel ++ [c]) u1 z u2) as (? & ? & ?); try done; rewrite ?length_app; cbn; lia.
      - destruct (Ends_copy_up _ _ _ _ B6 E7) as [? ?]. split_and!; [done| | |done].
        + eapply Bounded_quiet; [exact Bd6|by eapply copy_up_quiet|by eapply copy_up_depth].
        + by eapply (subtle_clear core u1); [|eapply copy_up_subtle|]. }
    apply bind_inv in Eu as [(z & u2 & E7 & Eu)|(e & E7 & ->)]; destruct (Hone _ _ E7) as (F7 & Bd7 & B7);
      [by injection Eu as <- <-|split; [intros [= ->]; by apply F7|done]]. }
  apply bind_inv in E as [([] & w5 & E5 & E)|(e & E5 & ->)]; destruct (Hloop _ _ E5) as (F5 & (I5 & S5 & D5) & B5);
    [|split_and!; [intros [= ->]; by apply F5|done|done]].
  apply bind_inv in E as [([] & w6 & E6 & E)|(e & E6 & ->)]; destruct (Ends_mark_opaque _ _ _ _ B5 E6) as [F6 B6]; pose proof (mark_opaque_depth n rel _ _ _ D5 Ht E6) as D6;
    [by injection E as <- <-|split_and!; [intros [= ->]; by apply F6|done|done]].
Qed.
Lemma materialize_ends rel nd w r w' : inv w -> single (w_host w) -> rel <> [] -> tidy rel -> settled_beyond (w_host w) ->
  materialize core rel nd w = (r, w') -> fine r /\ settled_beyond (w_host w').
Proof.
  intros I S Hne Ht Hb E. unfold materialize in E. destruct (is_dir (i_kind nd)); [|by eapply Ends_copy_up].
  apply bind_inv in E as [([] & w1 & E1 & E)|(e & E1 & ->)]; [|destruct (Ends_tree_access _ _ _ _ _ Hb E1) as [F1 B1]; split; [intros [= ->]; by apply F1|done]].
  apply tree_access_Ok in E1 as [-> Hacc]. pose proof (tree_access_clear core _ _ _ _ (inv_host _ w I) Hacc) as C.
  apply bind_inv in E as [(fuel & w1 & [= <- <-] & E)|(e & [=] & _)].
  destruct (materialize_n_ends (pred (pred (tree_fuel (w_host w)))) (tree_fuel (w_host w)) rel w r w') as (? & _ & ?); try done.
  - split_and!; [done|done|apply tree_fuel_depth].
  - unfold tree_fuel. destruct rel; [done|]. cbn. lia.
  - unfold tree_fuel. lia.
Qed.

(** ** Every change *)

Lemma Ends_prepare_new rel : Ends (prepare_new core rel).
Proof. unfold prepare_new. ends; destruct x0; ends. Qed.
Lemma Ends_new rel k perm : Ends (_ ← prepare_new core rel; call (fs_create (Upper, rel) k perm)).
Proof. apply Ends_bind; [apply Ends_prepare_new|intros _; ends]. Qed.
Lemma Ends_create_dir rel mode : Ends (create_dir core rel mode).
Proof. unfold create_dir, prepare_dir. ends; destruct x0; ends. Qed.
Lemma Ends_hard_link source destination : Ends (hard_link core source destination).
Proof.
  unfold hard_link. ends. apply Ends_pure. intros w _. unfold extend_group. by destruct (List.find _ _) as [[]|].
Qed.
Lemma Ends_validate old new no_replace : Ends (validate_replacement core old new no_replace).
Proof.
  unfold validate_replacement. apply Ends_bind; [ends|]. intros [m|]; [|ends]. ends.
Qed.
Lemma Ends_copied_hard_link rel : Ends (metadata_with_copied_hard_link core rel).
Proof.
  unfold metadata_with_copied_hard_link. ends. apply Ends_pure. intros w Hb. unfold copied_hard_link_for_entry. destruct (_ || _); [done|]. split; [|done].
  cbn [fst]. induction (default [] (w_groups w !! rm_ino x)) as [|p paths IH]; [done|]. destruct (lstat (w_host w) (Upper, p)) as [[i n]|e] eqn:El; [fine|].
  destruct (bool_decide _); [apply IH|]. intros [= ->]. by apply (fine_lstat _ _ Hb El).
Qed.
#[local] Hint Resolve Ends_copied_hard_link : fine.
Lemma Ends_same_file old new n : Ends (same_file core old new n).
Proof. unfold same_file. apply Ends_bind; [ends|]. intros [m|]; ends. Qed.
Lemma Ends_publish source old new replaced whiteout : Ends (publish_rename core source old new replaced whiteout).
Proof. unfold publish_rename, remove_physical. destruct replaced; ends; destruct x; ends. Qed.
Lemma Ends_forget rel : Ends (forget_copied_hard_links rel).
Proof. by apply Ends_pure. Qed.
#[local] Hint Resolve Ends_publish Ends_forget : fine.

(** One step of an operation whose parts were looked at one by one. *)
Lemma Ends_step {A B} (m : Op A) (k : A -> Op B) w r w' : (m ≫= k) w = (r, w') ->
  (forall x u, m w = (x, u) -> fine x) -> (forall a u, m w = (Ok a, u) -> k a u = (r, w') -> fine r) -> fine r.
Proof.
  intros E Hm Hk. apply bind_inv in E as [(a & u & E1 & E)|(e & E1 & ->)]; [by eapply Hk|]. intros [= ->]. by apply (Hm _ _ E1).
Qed.
Lemma move_ends qo co qn cn n replaced w r w' : inv w -> single (w_host w) -> tidy (qo ++ [co]) -> settled_beyond (w_host w) ->
  move core qo qn co cn n replaced w = (r, w') -> fine r.
Proof.
  intros I S Ht Hb E. assert (qo ++ [co] <> []) as Hne by (by destruct qo).
  apply (Ends_step _ _ _ _ _ E); [intros x u E1; by eapply materialize_ends|]. intros source u E1 E2.
  destruct (materialize_ends _ _ _ _ _ I S Hne Ht Hb E1) as [_ B1]. revert E2. generalize r. intros r0 E2.
  assert (Ends (_ ← ensure_upper_parents core (qn ++ [cn]); _ ← clear_whiteout core (qn ++ [cn]); whiteout ← asking (fun h => exists_in_lower core h (qo ++ [co]));
    _ ← if_then whiteout (create_whiteout core (qo ++ [co])); _ ← publish_rename core source (qo ++ [co]) (qn ++ [cn]) replaced whiteout;
    _ ← forget_copied_hard_links (qn ++ [cn]); map_groups (remap_path (qo ++ [co]) (qn ++ [cn])))) as He by ends. by eapply He.
Qed.
Lemma swap_ends qa ca qb cb a b w r w' : inv w -> single (w_host w) -> plain (qa ++ [ca]) -> plain (qb ++ [cb]) ->
  view count (w_host w) (qa ++ [ca]) = Some (i_kind a) -> settled_beyond (w_host w) -> swap core qa qb ca cb a b w = (r, w') -> fine r.
Proof.
  intros I S Pa Pb Hv Hb E. assert (qa ++ [ca] <> [] /\ qb ++ [cb] <> []) as [Hna Hnb] by (by destruct qa, qb).
  pose proof (plain_tidy _ Pa) as Ta. pose proof (plain_tidy _ Pb) as Tb.
  apply (Ends_step _ _ _ _ _ E); [intros x u E1; by eapply (materialize_ends (qa ++ [ca]))|]. intros la u E1 E2.
  destruct (materialize_ends _ _ _ _ _ I S Hna Ta Hb E1) as [_ B1]. destruct (materialize_spec core _ _ _ _ _ I S Hna Pa Hv E1) as [Q1 _].
  pose proof (single_quiet core _ _ Q1 S) as S1.
  apply (Ends_step _ _ _ _ _ E2); [intros x v E3; by eapply (materialize_ends (qb ++ [cb])); [apply Q1|..]|]. intros lb v E3 E4.
  destruct (materialize_ends _ _ _ _ _ (qt_inv _ _ _ Q1) S1 Hnb Tb B1 E3) as [_ B2]. clear E E1 E2 E3.
  assert (Ends (temporary ← temporary_path core []; _ ← call (fs_rename la temporary);
    _ ← on_error (call (fs_rename lb la)) (ignore (call (fs_rename temporary la)));
    _ ← on_error (call (fs_rename temporary lb)) (_ ← ignore (call (fs_rename la lb)); ignore (call (fs_rename temporary la)));
    map_groups (swap_path (qa ++ [ca]) (qb ++ [cb])))) as He by ends. by eapply He.
Qed.
Lemma fine_ends {A} (m : Op A) w : settled_beyond (w_host w) -> Ends m -> forall x u, m w = (x, u) -> fine x.
Proof. intros Hb He x u E. by eapply He. Qed.
Lemma remove_ends rel directory w r w' : inv w -> tidy rel -> settled_beyond (w_host w) -> remove core rel directory w = (r, w') -> fine r.
Proof.
  intros I Ht Hb E. unfold remove in E.
  apply (Ends_step _ _ _ _ _ E); [apply fine_ends; [done|ends]|]. intros [] u [= _ <-] E1. clear E.
  apply (Ends_step _ _ _ _ _ E1); [apply fine_ends; [done|ends]|]. intros [] u Eu E. clear E1.
  assert (u = w) as -> by (destruct directory; [by apply tree_access_Ok in Eu as [-> _]|by injection Eu]).
  apply (Ends_step _ _ _ _ _ E); [apply fine_ends; [done|ends]|]. intros found u [= _ <-] E1. clear E.
  apply (Ends_step _ _ _ _ _ E1); [apply fine_ends; [done|ends]|]. intros m u [= _ <-] E. clear E1.
  apply (Ends_step _ _ _ _ _ E); [apply fine_ends; [done|ends]|]. intros [] u E2 E1. clear E.
  assert (u = w) as ->.
  { destruct directory; [|by destruct (is_dir (i_kind (rm_node m))); injection E2]. destruct (negb _); [done|].
    apply bind_inv in E2 as [(names & w2 & E5 & E2)|(e & _ & [=])]. destruct (list_names_spec core w rel names w2 ""%string I E5) as (-> & _).
    case_bool_decide; by injection E2. }
  apply (Ends_step _ _ _ _ _ E1); [intros x u E; by eapply mapping_ends|]. intros [] u E3 E. clear E1.
  destruct (proj2 (Reads_logical core rel rel) _ _ _ E3) as (Hh & _).
  assert (Ends (_ ← (if rm_is_upper m then _ ← call (if directory then fs_remove_dir_all (rm_path m) else fs_remove_file (rm_path m)); forget_copied_hard_links (rm_path m).2 else mret tt);
    shadows ← asking (fun h => exists_in_lower core h rel); if_then shadows (create_whiteout core rel))) as He by ends. eapply He; [|exact E]. by rewrite Hh.
Qed.
Lemma rename_ends qo co qn cn no_replace w r w' : inv w -> single (w_host w) -> tidy (qo ++ [co]) -> settled_beyond (w_host w) ->
  rename core (qo ++ [co]) (qn ++ [cn]) no_replace w = (r, w') -> fine r.
Proof.
  intros I S Ht Hb E. unfold rename in E.
  apply (Ends_step _ _ _ _ _ E); [apply fine_ends; [done|ends]|]. intros [] u [= _ <-] E1. clear E.
  apply (Ends_step _ _ _ _ _ E1); [apply fine_ends; [done|ends]|]. intros [] u [= _ <-] E. clear E1.
  apply (Ends_step _ _ _ _ _ E); [apply fine_ends; [done|ends]|]. intros n u Em E1. clear E. destruct (metadata_Ok core _ _ _ _ I Em) as (-> & _ & _).
  destruct (bool_decide _); [by destruct no_replace; injection E1 as <- <-|]. destruct (is_dir _ && _); [by injection E1 as <- <-|].
  apply (Ends_step _ _ _ _ _ E1); [apply fine_ends; [done|apply Ends_validate]|]. intros replaced u Ev E. clear E1.
  destruct (validate_ok core _ _ _ _ _ _ I S Ev) as (-> & _).
  apply (Ends_step _ _ _ _ _ E); [apply fine_ends; [done|ends]|]. intros [] u [-> _]%tree_access_Ok E1. clear E.
  apply (Ends_step _ _ _ _ _ E1); [apply fine_ends; [done|apply Ends_same_file]|]. intros same u Es E. clear E1.
  destruct (same_file_ok core _ _ _ _ _ _ I Es) as (-> & _). destruct same; [by injection E as <- <-|].
  apply (Ends_step _ _ _ _ _ E); [intros x u E1; by eapply mapping_ends|]. intros [] u Eu E1. clear E.
  destruct (Reads_logical core (qo ++ [co]) (qo ++ [co])) as [RQ RH]. pose proof (RQ _ _ _ I Eu) as Q. destruct (RH _ _ _ Eu) as (Hh & _).
  apply (Ends_step _ _ _ _ _ E1); [intros x v E; eapply mapping_ends; [apply Q|done|by rewrite Hh|exact E]|]. intros [] v Ev2 E. clear E1.
  destruct (Reads_logical core (qo ++ [co]) (qn ++ [cn])) as [RQ2 RH2]. pose proof (RQ2 _ _ _ (qt_inv _ _ _ Q) Ev2) as Q2. destruct (RH2 _ _ _ Ev2) as (Hh2 & _).
  assert (w_host v = w_host w) as Hv by congruence. eapply (move_ends qo co qn cn n replaced v); [apply Q2|by rewrite Hv|done|by rewrite Hv|exact E].
Qed.
Lemma exchange_ends qa ca qb cb w r w' : inv w -> single (w_host w) -> plain (qa ++ [ca]) -> plain (qb ++ [cb]) -> settled_beyond (w_host w) ->
  exchange core (qa ++ [ca]) (qb ++ [cb]) w = (r, w') -> fine r.
Proof.
  intros I S Pa Pb Hb E. unfold exchange in E.
  apply (Ends_step _ _ _ _ _ E); [apply fine_ends; [done|ends]|]. intros [] u [= _ <-] E1. clear E.
  apply (Ends_step _ _ _ _ _ E1); [apply fine_ends; [done|ends]|]. intros [] u [= _ <-] E. clear E1.
  destruct (bool_decide _); [by injection E as <- <-|]. destruct (_ || _); [by injection E as <- <-|].
  apply (Ends_step _ _ _ _ _ E); [apply fine_ends; [done|ends]|]. intros a u Ea E1. clear E. pose proof (metadata_view core _ _ _ _ I Ea) as Hva. destruct (metadata_Ok core _ _ _ _ I Ea) as (-> & _ & _).
  apply (Ends_step _ _ _ _ _ E1); [apply fine_ends; [done|ends]|]. intros b u Eb E. clear E1. destruct (metadata_Ok core _ _ _ _ I Eb) as (-> & _ & _).
  apply (Ends_step _ _ _ _ _ E); [apply fine_ends; [done|ends]|]. intros [] u [-> _]%tree_access_Ok E1. clear E.
  apply (Ends_step _ _ _ _ _ E1); [apply fine_ends; [done|ends]|]. intros [] u [-> _]%tree_access_Ok E. clear E1.
  assert (forall x y v v', inv v -> w_host v = w_host w -> record_logical_tree_mapping core x y v = (Ok tt, v') -> inv v' /\ w_host v' = w_host w) as Hstep.
  { intros x y v v' Iv Hv Ev. destruct (Reads_logical core x y) as [RQ RH]. destruct (RH _ _ _ Ev) as (Hh & _). split; [apply (qt_inv _ _ _ (RQ _ _ _ Iv Ev))|congruence]. }
  assert (forall x y v z v', tidy x -> inv v -> w_host v = w_host w -> record_logical_tree_mapping core x y v = (z, v') -> fine z) as Hfine.
  { intros x y v z v' Hx Iv Hv Ev. eapply mapping_ends; [exact Iv|exact Hx|by rewrite Hv|exact Ev]. }
  pose proof (plain_tidy _ Pa) as Ta. pose proof (plain_tidy _ Pb) as Tb.
  apply (Ends_step _ _ _ _ _ E); [intros x u Eu; exact (Hfine _ _ _ _ _ Ta I eq_refl Eu)|]. intros [] u1 Eu1 E1. clear E. destruct (Hstep _ _ _ _ I eq_refl Eu1) as [I1 H1].
  apply (Ends_step _ _ _ _ _ E1); [intros x u Eu; exact (Hfine _ _ _ _ _ Tb I1 H1 Eu)|]. intros [] u2 Eu2 E. clear E1. destruct (Hstep _ _ _ _ I1 H1 Eu2) as [I2 H2].
  apply (Ends_step _ _ _ _ _ E); [intros x u Eu; exact (Hfine _ _ _ _ _ Ta I2 H2 Eu)|]. intros [] u3 Eu3 E1. clear E. destruct (Hstep _ _ _ _ I2 H2 Eu3) as [I3 H3].
  apply (Ends_step _ _ _ _ _ E1); [intros x u Eu; exact (Hfine _ _ _ _ _ Tb I3 H3 Eu)|]. intros [] u4 Eu4 E. clear E1. destruct (Hstep _ _ _ _ I3 H3 Eu4) as [I4 H4].
  eapply (swap_ends qa ca qb cb a b u4); [done|by rewrite H4|done|done|by rewrite H4|by rewrite H4|exact E].
Qed.

(** No change of a healthy world runs out of fuel. *)
Lemma change_ends c w r w' : Healthy core w -> proper c -> settled_beyond (w_host w) -> perform core c w = (r, w') -> fine r.
Proof.
  intros [I S _] Hp Hb E. unfold proper in Hp.
  destruct c as [rel mode|rel target|rel mode rdev|rel mode|rel directory|old new nr|first second|source dst|rel]; cbn [perform mentioned targets] in *;
    apply Forall_cons in Hp as [[Hp1 Hn1] Hrest].
  - eapply (Ends_new rel); [exact Hb|exact E].
  - eapply (Ends_new rel); [exact Hb|exact E].
  - eapply (Ends_new rel); [exact Hb|exact E].
  - by eapply (Ends_create_dir rel mode).
  - eapply remove_ends; [exact I|by apply plain_tidy|exact Hb|exact E].
  - destruct (path_snoc_cases old) as [->|(qo & co & ->)]; [done|]. destruct (path_snoc_cases new) as [->|(qn & cn & ->)]; [by apply Forall_singleton in Hrest as [_ ?]|].
    eapply rename_ends; [exact I|exact S|by apply plain_tidy|exact Hb|exact E].
  - apply Forall_singleton in Hrest as [Hp2 Hn2]. destruct (path_snoc_cases first) as [->|(qo & co & ->)]; [done|]. destruct (path_snoc_cases second) as [->|(qn & cn & ->)]; [done|].
    by eapply exchange_ends; [exact I|..|exact E].
  - by eapply Ends_hard_link.
  - assert (Ends (_ ← copy_up core rel; mret tt)) as He by ends. by eapply He.
Qed.
End Depth.
