(* ===== verification/OverlayAccess.v ===== *)
(** * The overlay under a file access policy

    The policy of [FileAccess] as the access rules of an overlay. A change that
    names a refused path is refused before anything is touched, and a tree that
    is moved or removed has no refused name in any layer, not even a hidden one. *)
From stdpp Require Import base tactics list strings gmap pretty.
From Stdlib Require Import ZArith Lia Ascii.
From S2P Require Import Prelude RustStr FileAccess FileAccessFacts HostFs HostFsFacts Overlay OverlayView OverlayQuiet OverlayCopy OverlayCreate OverlayRemove OverlayList OverlayRename OverlayExchange OverlayHealth.
Local Open Scope nat_scope.

(** ** The policy behind the interface *)

Section Policy.
Context {glob : GlobOps} (channel : option AuditChannel) (heap : list bool) (p : FileAccessPolicy).

Definition policy_access : AccessOps :=
  {| acc_denied := file_denied p; acc_check path := is_ok (check channel heap p path); acc_has_denials := has_denials p |}.

Context {laws : GlobLaws} (Hwf : fap_wf p).

Lemma empty_set_matches rs s path : compile_globs rs = Ok s -> globset_is_empty s = true -> set_matches s path = false.
Proof.
  intros Hc He. apply not_true_iff_false. rewrite (set_matches_spec _ _ _ Hc). intros (pat & Hp & _).
  apply compile_globs_inv in Hc as (gs & Hgs & Hb). apply (globset_is_empty_spec _ _ Hb) in He as ->. apply collect_Ok, Forall2_nil_inv_r in Hgs as ->. by apply elem_of_nil in Hp.
Qed.
Lemma no_denials_rank q path : fap_wf q -> has_denials q = false -> decision_rank (authorize q path) <= decision_rank FileWarn.
Proof.
  induction q as [q IH] using fap_ind. intros W Hq. apply authorize_le.
  destruct q as [al layers dn ak wn cx pr d a w l] eqn:Eq. cbn [has_denials fap_deny fap_ask fap_layers] in Hq.
  apply orb_false_iff in Hq as [[Hd Ha]%orb_false_iff Hl]. apply negb_false_iff in Hd, Ha. split.
  - unfold local_decision. rewrite (empty_set_matches _ _ _ (wf_set _ FileDeny W) Hd), (empty_set_matches _ _ _ (wf_set _ FileAsk W) Ha).
    destruct (set_matches _ _); cbn; lia.
  - intros scope q' Hin. apply (IH scope q' Hin); [by eapply wf_layer|]. destruct (has_denials q') eqn:E; [|done]. exfalso.
    rewrite <- not_true_iff_false in Hl. apply Hl, existsb_exists. exists (scope, q'). split; [by apply list_elem_of_In|done].
Qed.
(** The policy keeps what the overlay expects of its access rules. *)
Lemma policy_access_laws : @AccessLaws policy_access.
Proof.
  constructor; cbn; intros path Hd; [pose proof (no_denials_rank p path Hwf Hd) as Hr..|].
  - apply bool_decide_eq_false. intros E. rewrite E in Hr. cbn in Hr. lia.
  - unfold check. destruct (authorize p path); cbn in Hr |- *; first [done | lia].
  - apply bool_decide_eq_false. intros E. unfold check in Hd. by rewrite E in Hd.
Qed.
End Policy.

Section Access.
Context (core : OverlayCore) `{AccessOps, Digest256}.

(** ** Refused paths *)

Lemma refused_visible rel : acc_check rel = false -> exists e, require_visible core rel = Err e.
Proof. intros Hc. destruct (require_visible core rel) as [[]|e] eqn:E; [|by exists e]. apply visible_checked in E. congruence. Qed.
Lemma refused_stops {A} rel (m : Op A) w : acc_check rel = false -> exists e, (_ ← lift (require_visible core rel); m) w = (Err e, w).
Proof. intros [e He]%refused_visible. exists e. unfold lift, mbind, op_bind. by rewrite He. Qed.
Lemma refused_second {A} a rel (m : Op A) w : acc_check rel = false ->
  exists e, (_ ← lift (require_visible core a); _ ← lift (require_visible core rel); m) w = (Err e, w).
Proof.
  intros Hc. destruct (refused_stops rel m w Hc) as [e He]. destruct (require_visible core a) as [[]|e']; [exists e; exact He|by exists e'].
Qed.
Lemma err_bind {A B} (m : Op A) (k : A -> Op B) w e : m w = (Err e, w) -> (m ≫= k) w = (Err e, w).
Proof. intros E. unfold mbind, op_bind. by rewrite E. Qed.

Lemma refused_untouched c rel w : rel ∈ mentioned c -> acc_check rel = false -> exists e, perform core c w = (Err e, w).
Proof.
  intros Hin Hc.
  assert (forall (k : unit -> Op unit), exists e, (prepare_new core rel ≫= k) w = (Err e, w)) as Hnew.
  { intros k. destruct (refused_visible rel Hc) as [e He]. exists e. do 2 apply err_bind. unfold lift. by rewrite He. }
  destruct c; cbn [perform mentioned targets] in *; repeat (apply elem_of_cons in Hin as [<-|Hin]); try (by apply elem_of_nil in Hin); try (apply Hnew).
  - destruct (refused_visible rel Hc) as [e He]. exists e. do 2 apply err_bind. unfold lift. by rewrite He.
  - by apply refused_stops.
  - by apply refused_stops.
  - by apply refused_second.
  - by apply refused_stops.
  - by apply refused_second.
  - unfold hard_link. destruct acc_has_denials; [by eexists|]. by apply refused_stops.
  - unfold hard_link. destruct acc_has_denials; [by eexists|]. by apply refused_second.
  - destruct (refused_visible rel Hc) as [e He]. exists e. do 2 apply err_bind. unfold lift. by rewrite He.
Qed.

(** ** Trees with refused names *)

(** The trees that a change moves or removes, with the paths they get. *)
Definition moves (c : Change) : list (Path * Path) :=
  match c with
  | Remove rel true => [(rel, rel)]
  | Rename old new _ => if bool_decide (old = new) then [] else [(old, new)]
  | Exchange first second => if bool_decide (first = second) then [] else [(first, second); (second, first)]
  | _ => []
  end.
Lemma Reads_Ok {A} (m : Op A) w a w1 : Reads core m -> m w = (Ok a, w1) -> w_host w1 = w_host w.
Proof. intros [_ Hh] E. by destruct (Hh _ _ _ E). Qed.
Ltac next E := apply bind_inv in E as [(? & ? & ?Ex & E)|(? & _ & [=])].
Lemma moved_access c w w' old new : perform core c w = (Ok tt, w') -> (old, new) ∈ moves c ->
  require_tree_access_n core (tree_fuel (w_host w)) (w_host w) old new = Ok tt.
Proof.
  intros E Hin. destruct c as [| | | |rel []|a b nr|a b| |]; cbn [moves perform] in *; try (by apply elem_of_nil in Hin).
  - apply list_elem_of_singleton in Hin as [= -> ->]. unfold remove in E. next E. injection Ex as _ <-. next E. by apply (tree_access_Ok core) in Ex as [_ ?].
  - destruct (bool_decide (a = b)) eqn:Hab; [by apply elem_of_nil in Hin|]. apply list_elem_of_singleton in Hin as [= -> ->].
    unfold rename in E. next E. injection Ex as _ <-. next E. injection Ex as _ <-. next E. rewrite Hab in E. destruct (_ && _); [done|].
    next E. next E. apply (tree_access_Ok core) in Ex1 as [_ Ht]. by rewrite (Reads_Ok _ _ _ _ (Reads_validate core _ _ _) Ex0), (Reads_Ok _ _ _ _ (Reads_metadata core _) Ex) in Ht.
  - destruct (bool_decide (a = b)) eqn:Hab; [by apply elem_of_nil in Hin|].
    unfold exchange in E. next E. injection Ex as _ <-. next E. injection Ex as _ <-. rewrite Hab in E. destruct (_ || _); [done|].
    next E. next E. pose proof (Reads_Ok _ _ _ _ (Reads_metadata core _) Ex) as H1. pose proof (Reads_Ok _ _ _ _ (Reads_metadata core _) Ex0) as H2.
    next E. next E. apply (tree_access_Ok core) in Ex1 as [-> Ha], Ex2 as [_ Hb]. rewrite H2, H1 in Ha, Hb.
    apply elem_of_cons in Hin as [[= -> ->]|[= -> ->]%list_elem_of_singleton]; done.
Qed.
(** A tree that is moved or removed has no refused name in any layer, at its old
    or at its new place. *)
Lemma moved_names_checked c w w' old new r s : wf (w_host w) -> acc_has_denials = true -> perform core c w = (Ok tt, w') -> (old, new) ∈ moves c ->
  r ∈ layer_roots core -> tidy s -> is_Some (h_names (w_host w) !! (r, old ++ s)) -> acc_check (old ++ s) = true /\ acc_check (new ++ s) = true.
Proof.
  intros W Hd E Hin Hr Ht Hs. destruct (tree_access_checked core (w_host w) r s W Hr (guarded_denials core Hd) Ht _ _ _ (moved_access c w w' old new E Hin) Hs) as (Ho & Hn & _).
  by split; apply visible_checked with core.
Qed.
End Access.
