(* ===== verification/OverlayTheorems.v ===== *)
(** * What the overlay promises

    The statements about the merged view and about every change of it, each with
    a run on the overlay of [OverlayHealth]. *)
From stdpp Require Import base tactics list strings gmap pretty.
From Stdlib Require Import ZArith Lia Ascii.
From S2P Require Import Prelude RustStr FileAccess Globs FileAccessFacts HostFs HostFsFacts Overlay OverlayView OverlayQuiet OverlayCopy OverlayCopyUp OverlayCreate OverlayRemove OverlayList OverlayFootprint OverlayRename OverlayExchange OverlayLink OverlayHealth OverlayJournal OverlayDepth OverlayAccess.
Local Open Scope nat_scope.

(** ** Samples *)

(** Most runs are under a policy with denials: it denies [secret]. *)
Lemma fap_default_wf : fap_wf fap_default.
Proof. constructor; [reflexivity..|]. intros scope q Hin. by apply elem_of_nil in Hin. Qed.
Definition denying_only (pattern : string) : FileAccessPolicy := match new_with_allow [pattern] [] [] [] with Ok p => p | Err _ => fap_default end.
Lemma denying_only_wf pattern : fap_wf (denying_only pattern).
Proof. unfold denying_only. destruct (new_with_allow _ _ _ _) as [p|e] eqn:E; [by apply new_with_allow_inv in E as [Hw _]|apply fap_default_wf]. Qed.
Definition open_access : AccessOps := policy_access None [] fap_default.
Lemma open_access_laws : @AccessLaws open_access.
Proof. exact (policy_access_laws None [] fap_default fap_default_wf). Qed.
Definition secret_access : AccessOps := policy_access None [] (denying_only "secret").
#[local] Existing Instance secret_access.
#[local] Existing Instance Sample.digest.
#[local] Instance secret_access_laws : AccessLaws := policy_access_laws None [] _ (denying_only_wf "secret").
Lemma secret_denials : acc_has_denials = true.
Proof. vm_compute. reflexivity. Qed.
Lemma sample_healthy : Healthy Sample.core Sample.world.
Proof. apply sound_host_healthy. vm_compute. reflexivity. Qed.
Lemma plain_path p : forallb (fun c => negb (is_whiteout_name c) && negb (starts_with c RESERVED)) p = true -> plain p.
Proof.
  rewrite forallb_forall. intros Hf. apply Forall_forall. intros c Hc%list_elem_of_In. specialize (Hf c Hc).
  apply andb_true_iff in Hf as [?%negb_true_iff ?%negb_true_iff]. done.
Qed.

(** ** The view *)

Section Statements.
Context (core : OverlayCore) `{AccessOps, Digest256, Laws : !AccessLaws}.
Local Abbreviation count := (oc_lowers core).

(** C11: A lookup finds exactly the place that the merged view shows at the path:
    the name of the upper, or the name of the first lower that has it where no
    whiteout, opaque directory or missing parent hides it. It finds nothing only
    where the view has nothing. It fails only for a path that may not be seen;
    under a policy with denials, for a path that is, or runs through, a file with
    another name; and where a parent is no directory. Under such a policy no file
    with another name is found. *)
Theorem resolution_shows_view h rel : hinv core h ->
  match resolve_metadata_checked core h rel with
  | Ok (Some m) => require_visible core rel = Ok tt /\ (acc_has_denials = true -> ~ aliased core h rel) /\
      exists l, located core h rel l /\ resolved_at h l m /\ view count h rel = Some (i_kind (rm_node m))
  | Ok None => require_visible core rel = Ok tt /\ view count h rel = None
  | Err e => require_visible core rel = Err e \/
             (e = EACCES /\ acc_has_denials = true /\ exists p, p `prefix_of` rel /\ aliased core h p) \/
             (e = ENOTDIR /\ view count h rel = None)
  end.
Proof.
  intros [W R _]. pose proof (resolve_spec core h W R rel) as Hs. destruct (resolve_metadata_checked core h rel) as [[m|]|e]; [|done..].
  destruct Hs as (Hv & l & Hl & Hm & Hu). split_and!; [done|intros Hd; by apply (unaliased_Ok core h rel l m)|]. exists l. split_and!; [done..|].
  destruct (located_view core h R rel l Hl) as [-> _]. destruct Hm as (_ & _ & Hn). unfold kind_at. by rewrite Hn.
Qed.

(** The set of directories that a lookup remembers as checked while it walks
    down does not change what the lookup finds. *)
Theorem checked_directories_irrelevant h rel : hinv core h ->
  resolve_metadata_walk core true h rel = resolve_metadata_walk core false h rel.
Proof. intros [W R _]. by apply resolve_walk_reuse. Qed.

(** A listing changes nothing, is taken of a directory of the view, has only
    names that the view shows, and has every one of them that is not excluded and,
    under a policy with denials, is no file with another name. *)
Theorem listing_exact rel w names w' : Healthy core w -> list_names core rel w = (Ok names, w') ->
  w' = w /\ view count (w_host w) rel = Some KDir /\
  (forall c, c ∈ names -> is_Some (view count (w_host w) (rel ++ [c]))) /\
  (forall c, plain (rel ++ [c]) -> unrefused core (w_host w) (rel ++ [c]) -> is_Some (view count (w_host w) (rel ++ [c])) -> c ∈ names).
Proof.
  intros [I S _] E. pose proof (fun c => list_names_spec core w rel names w' c I E) as Hs. destruct (Hs ""%string) as (-> & Hv & _).
  split_and!; [done..| |]; intros c; destruct (Hs c) as (_ & _ & Hin & Hout); [intros Hc; apply (Hin Hc)|by apply Hout].
Qed.

(** ** Changes *)


(** What a change creates: a path and the object there. *)
Definition created (h : Host) (c : Change) : option (Path * Kind) :=
  match c with
  | CreateFile rel _ => Some (rel, KFile "")
  | CreateSymlink rel target => Some (rel, KSymlink target)
  | CreateNode rel mode rdev => Some (rel, node_kind mode rdev)
  | CreateDir rel _ => Some (rel, KDir)
  | HardLink source destination => pair destination <$> view count h source
  | _ => None
  end.


(** A creation removes the whiteout of its name before it makes the object. When
    the call that makes the object fails, the entry of the lowers that the
    whiteout hid is back in the view, although the creation reports an error. *)
Theorem failed_creation_unhides q c mode w w1 f faults l : Healthy core w -> plain (q ++ [c]) ->
  prepare_new core (q ++ [c]) w = (Ok tt, w1) -> w_faults w1 = Some f :: faults -> opaque_at (w_host w1) q = false ->
  lower_loc (w_host w) count 0 (q ++ [c]) = Some l ->
  view count (w_host w) (q ++ [c]) = None /\
  create_file core (q ++ [c]) mode w = (Err (failure_errno f), drop_fault w1) /\
  view count (w_host (drop_fault w1)) (q ++ [c]) = kind_at (w_host w) l /\ is_Some (kind_at (w_host w) l).
Proof.
  intros [I S U] Hp E Hf Hop Hl. destruct (prepare_new_spec core q c w (Ok tt) w1 I Hp E) as (Hv & Hd & w0 & Q & O & Hwh).
  pose proof (on_inv _ _ _ _ O) as I1. pose proof Hp as [Hq Hc]%plain_snoc.
  assert (w_host (drop_fault w1) = w_host w1) as -> by done.
  assert (kind_at (w_host w1) (Upper, q ++ [c]) = None) as Hn.
  { rewrite (kind_of_look (w_host w0)).
    - destruct (kind_at (w_host w0) (Upper, q ++ [c])) as [k|] eqn:Ek; [|done]. apply (view_of_upper core) in Ek; [|apply (qt_inv _ _ _ Q)].
      rewrite (hq_view _ _ _ (qt_host _ _ _ Q)) in Ek by done. congruence.
    - apply (on_look _ _ _ _ O). intros [= Hw]. apply app_inj_tail in Hw as [_ Hw]. pose proof (whiteout_is_marker c) as Hm. rewrite <- Hw in Hm. destruct Hc. congruence. }
  split_and!; [done| | |by apply lower_loc_Some in Hl as (i & _ & _ & ?)].
  - unfold create_file, mbind, op_bind. rewrite E. unfold call, fault. rewrite Hf. done.
  - rewrite view_snoc, (view_of_upper core (w_host w1) q KDir) by (apply I1 || done). rewrite decide_True by done. unfold entry, entry_loc, hidden. rewrite Hn, Hwh, Hop.
    rewrite (bool_decide_eq_false_2 (is_Some None)) by (by intros []). rewrite andb_false_r.
    assert (forall i, look (w_host w1) (Lower i, q ++ [c]) = look (w_host w) (Lower i, q ++ [c])) as Hlook.
    { intros i. unfold look. destruct (on_lower _ _ _ _ O i (q ++ [c])) as [_ ->]. by destruct (hq_lower _ _ _ (qt_host _ _ _ Q) i (q ++ [c])) as [_ ->]. }
    rewrite (lower_loc_look (w_host w)) by done. rewrite Hl. cbn. apply lower_loc_Some in Hl as (i & -> & _). by apply kind_of_look.
Qed.


(** An exchange that succeeds swaps the two trees of the view and nothing
    else. When it fails at any point, nothing outside the two paths shows
    differently and the lowers are as they were. *)
Theorem exchange_exact first second w r w' : Healthy core w -> plain first -> first <> [] -> plain second -> second <> [] ->
  exchange core first second w = (r, w') ->
  match r with
  | Ok _ => (first = second /\ w' = w) \/
      (is_Some (view count (w_host w) first) /\ is_Some (view count (w_host w) second) /\ Outside core [first; second] w w' /\
       (forall s, plain s -> view count (w_host w') (first ++ s) = view count (w_host w) (second ++ s)) /\
       (forall s, plain s -> view count (w_host w') (second ++ s) = view count (w_host w) (first ++ s)))
  | Err _ => Confined core [first; second] w w'
  end.
Proof.
  intros [I S U] Pa Na Pb Nb E. destruct (path_snoc_cases first) as [->|(qa & ca & ->)]; [done|]. destruct (path_snoc_cases second) as [->|(qb & cb & ->)]; [done|].
  pose proof (exchange_outcome core qa ca qb cb w r w' I S U Pa Pb E) as Hr. destruct r; [|done].
  destruct Hr as [Hn|(Ha & Hb & [Out H1' H2'] & _)]; [by left|by right].
Qed.

(** C12: Under any policy and any exclusions, any change, whatever its outcome and
    whichever calls fail underneath it, leaves every inode and name of the lowers as
    they were, reaches nothing beyond a symbolic link, shows differently only at or
    below the paths it is about, and never replaces a first observation. *)
Theorem changes_confined c w r w' : Healthy core w -> proper c -> perform core c w = (r, w') ->
  (forall i p, node (w_host w') (Lower i, p) = node (w_host w) (Lower i, p)) /\
  h_escaped (w_host w') = h_escaped (w_host w) /\
  (forall p, plain p -> ~ below (targets c) p -> view count (w_host w') p = view count (w_host w) p) /\
  (forall p f, w_preimages w !! p = Some f -> w_preimages w' !! p = Some f).
Proof.
  intros He Hp E. destruct (change_confined core c w r w' He Hp E) as [_ Hesc Hlow Hview Hpre]. done.
Qed.

(** C17: Under any policy and any exclusions, a healthy overlay stays healthy
    through any sequence of changes in which no move fails, and shows differently
    only at or below the paths of those changes. Healthy is: the trees are well formed, the roots are directories, the
    lowers share no inode with the upper, the groups of copied hard links agree
    with the lowers, no entry of the upper has a whiteout beside it, and the
    temporary names to come are free. *)
Theorem histories_stay_healthy w cs w' : Healthy core w -> history core w cs w' ->
  Healthy core w' /\ Confined core (concat (targets <$> cs)) w w'.
Proof. apply (history_healthy core). Qed.


(** C33: The recursions over trees (checking the names of a tree against the
    policy and the exclusions, recording a tree, materialising it) end: no change of
    a healthy overlay runs out of the bound on their depth, where reading beyond a
    symbolic link ends. *)
Theorem changes_terminate c w : Healthy core w -> proper c -> settled_beyond (w_host w) -> (perform core c w).1 <> Err OutOfFuel.
Proof.
  intros He Hp Hb. destruct (perform core c w) as [r w'] eqn:E. exact (change_ends core c w r w' He Hp Hb E).
Qed.
End Statements.

(** ** Under a policy *)

Section Policed.
Context {glob : GlobOps} {laws : GlobLaws} (core : OverlayCore) `{Digest256} (channel : option AuditChannel) (heap : list bool) (p : FileAccessPolicy).

Lemma denied_check path : authorize p path = FileDeny -> @acc_check (policy_access channel heap p) path = false.
Proof. intros Hd. cbn. unfold check. by rewrite Hd. Qed.

(** C32: Where the policy denies a path, a change that names the path or anything
    below it fails and leaves the whole world as it was, and a lookup fails. *)
Theorem denied_paths_untouched c denied s w : authorize p denied = FileDeny -> (denied ++ s) ∈ mentioned c ->
  (exists e, @perform core (policy_access channel heap p) _ c w = (Err e, w)) /\
  (exists e, @resolve_metadata_checked core (policy_access channel heap p) (w_host w) (denied ++ s) = Err e).
Proof.
  intros Hd Hin. assert (authorize p (denied ++ s) = FileDeny) as Hds.
  { pose proof (authorize_app p denied s) as Hle. rewrite Hd in Hle. by destruct (authorize p (denied ++ s)); cbn in Hle; try lia. }
  pose proof (denied_check _ Hds) as Hc. split; [by eapply (@refused_untouched core (policy_access channel heap p))|].
  destruct (@refused_visible core (policy_access channel heap p) _ Hc) as [e He]. exists e.
  unfold resolve_metadata_checked, resolve_metadata_walk. by rewrite He.
Qed.

(** A directory that is removed, renamed or exchanged has no name, in the upper
    or in any lower, hidden or not, that the policy denies at the place it leaves
    or at the place it gets. *)
Theorem moved_trees_permitted c w w' old new r s : fap_wf p -> wf (w_host w) ->
  @perform core (policy_access channel heap p) _ c w = (Ok tt, w') -> (old, new) ∈ moves c ->
  r ∈ layer_roots core -> tidy s -> is_Some (h_names (w_host w) !! (r, old ++ s)) ->
  authorize p (old ++ s) <> FileDeny /\ authorize p (new ++ s) <> FileDeny.
Proof.
  intros Hwf W E Hin Hr Ht Hs. destruct (has_denials p) eqn:Hd.
  - destruct (@moved_names_checked core (policy_access channel heap p) _ c w w' old new r s W Hd E Hin Hr Ht Hs) as [Ho Hn].
    split; intros Hx; by rewrite (denied_check _ Hx) in Ho || rewrite (denied_check _ Hx) in Hn.
  - split; intros Hx; [pose proof (no_denials_rank p (old ++ s) Hwf Hd) as Hk|pose proof (no_denials_rank p (new ++ s) Hwf Hd) as Hk]; rewrite Hx in Hk; cbn in Hk; lia.
Qed.
End Policed.

(** ** Runs on the sample *)

Lemma ok_pair {A B} (x : A * B) a : x.1 = a -> x = (a, x.2).
Proof. destruct x. by intros [= ->]. Qed.
Local Open Scope string_scope.
Local Abbreviation run m := (m Sample.world).

Lemma resolution_shows_view_witness : hinv Sample.core Sample.host /\
  match resolve_metadata_checked Sample.core Sample.host ["a"; "x"] with
  | Ok (Some m) => require_visible Sample.core ["a"; "x"] = Ok tt /\ (acc_has_denials = true -> ~ aliased Sample.core Sample.host ["a"; "x"]) /\
      exists l, located Sample.core Sample.host ["a"; "x"] l /\ resolved_at Sample.host l m /\ view 1 Sample.host ["a"; "x"] = Some (i_kind (rm_node m))
  | _ => False
  end.
Proof.
  assert (hinv Sample.core Sample.host) as HI by apply sample_healthy. split; [done|].
  assert (match resolve_metadata_checked Sample.core Sample.host ["a"; "x"] with Ok (Some _) => true | _ => false end = true) as Hfound by (vm_compute; reflexivity).
  pose proof (resolution_shows_view Sample.core Sample.host ["a"; "x"] HI) as Hs. revert Hs Hfound.
  destruct (resolve_metadata_checked Sample.core Sample.host ["a"; "x"]) as [[m|]|e]; [intros Hs _; exact Hs|discriminate..].
Defined.
Lemma checked_directories_irrelevant_witness : hinv Sample.core Sample.host /\
  resolve_metadata_walk Sample.core true Sample.host ["a"; "s"; "t"] = resolve_metadata_walk Sample.core false Sample.host ["a"; "s"; "t"].
Proof. assert (hinv Sample.core Sample.host) as HI by apply sample_healthy. split; [done|]. by apply checked_directories_irrelevant. Defined.
Lemma listing_exact_witness : exists names w', run (list_names Sample.core ["a"]) = (Ok names, w') /\ "s" ∈ names /\ is_Some (view 1 Sample.host ["a"; "s"]).
Proof.
  assert ((run (list_names Sample.core ["a"])).1 = Ok ["s"; "x"]) as E%ok_pair by (vm_compute; reflexivity).
  eexists _, _. split; [exact E|]. split; [apply list_elem_of_here|].
  destruct (listing_exact Sample.core ["a"] _ _ _ sample_healthy E) as (_ & _ & Hin & _). apply (Hin "s"), list_elem_of_here.
Defined.
Lemma failed_creation_unhides_witness :
  let removed := (run (remove Sample.core ["b"] false)).2 in
  let w := mkWorld (w_host removed) [None; None; None; Some FailNoSpace] ∅ ∅ ∅ ∅ 0 in
  view 1 (w_host w) ["b"] = None /\ exists w', create_file Sample.core ["b"] 420 w = (Err (Errno 28), w') /\ view 1 (w_host w') ["b"] = Some (KFile "bb").
Proof.
  intros removed w. assert ((prepare_new Sample.core ["b"] w).1 = Ok tt) as E%ok_pair by (vm_compute; reflexivity).
  assert (Healthy Sample.core w) as He by (apply sound_host_healthy; vm_compute; reflexivity).
  edestruct (failed_creation_unhides Sample.core [] "b" 420 w _ FailNoSpace [] (Lower 0, ["b"]) He (plain_path ["b"] eq_refl) E) as (Hv & Hc & Hs & _).
  1-3: vm_compute; reflexivity.
  split; [exact Hv|]. eexists. split; [exact Hc|]. refine (eq_trans Hs _). vm_compute. reflexivity.
Defined.

Lemma exchange_exact_witness : exists w', run (exchange Sample.core ["a"] ["b"]) = (Ok tt, w') /\
  view 1 (w_host w') ["b"; "s"; "t"] = Some (KFile "tt") /\ view 1 (w_host w') ["a"] = Some (KFile "bb").
Proof.
  assert ((run (exchange Sample.core ["a"] ["b"])).1 = Ok tt) as E%ok_pair by (vm_compute; reflexivity).
  eexists. split; [exact E|].
  destruct (exchange_exact Sample.core ["a"] ["b"] _ _ _ sample_healthy (plain_path ["a"] eq_refl) ltac:(done) (plain_path ["b"] eq_refl) ltac:(done) E)
    as [[Hc _]|(_ & _ & _ & Ha & Hb)]; [done|].
  split; [refine (eq_trans (Hb ["s"; "t"] (plain_path ["s"; "t"] eq_refl)) _)|refine (eq_trans (Ha [] (plain_path [] eq_refl)) _)]; vm_compute; reflexivity.
Defined.
Lemma changes_confined_witness : exists w', run (perform Sample.core (Rename ["a"] ["c"] false)) = (Ok tt, w') /\
  view 1 (w_host w') ["b"] = Some (KFile "bb") /\ node (w_host w') (Lower 0, ["a"]) = Some Sample.dir.
Proof.
  assert ((run (perform Sample.core (Rename ["a"] ["c"] false))).1 = Ok tt) as E%ok_pair by (vm_compute; reflexivity).
  eexists. split; [exact E|]. assert (proper (Rename ["a"] ["c"] false)) as Hp by (repeat constructor; done).
  destruct (changes_confined Sample.core _ _ _ _ sample_healthy Hp E) as (Hlow & _ & Hview & _). split.
  - refine (eq_trans (Hview ["b"] (plain_path ["b"] eq_refl) _) _); [|vm_compute; reflexivity].
    intros (rel & s & [->|[->|Hin]%elem_of_cons]%elem_of_cons & Hs); [done..|by apply elem_of_nil in Hin].
  - refine (eq_trans (Hlow 0 ["a"]) _). vm_compute. reflexivity.
Defined.
Lemma histories_stay_healthy_witness : exists w', history Sample.core Sample.world [Rename ["a"] ["c"] false; CreateDir ["a"] 493; Remove ["b"] false] w' /\ Healthy Sample.core w'.
Proof.
  assert (forall rel, forallb (fun c => negb (is_whiteout_name c) && negb (starts_with c RESERVED)) rel = true -> rel <> [] -> plain rel /\ rel <> []) as Hp
    by (intros rel ?%plain_path; done).
  eassert (history Sample.core Sample.world [Rename ["a"] ["c"] false; CreateDir ["a"] 493; Remove ["b"] false] _) as Hh.
  { eapply history_cons; [repeat (constructor; [by apply Hp|]); constructor|apply surjective_pairing|vm_compute; reflexivity|].
    eapply history_cons; [repeat (constructor; [by apply Hp|]); constructor|apply surjective_pairing|vm_compute; reflexivity|].
    eapply history_cons; [repeat (constructor; [by apply Hp|]); constructor|apply surjective_pairing|vm_compute; reflexivity|]. apply history_nil. }
  eexists. split; [exact Hh|]. exact (proj1 (histories_stay_healthy Sample.core _ _ _ sample_healthy Hh)).
Defined.
Lemma changes_terminate_witness : (run (perform Sample.core (Rename ["a"] ["c"] false))).1 <> Err OutOfFuel.
Proof.
  apply (changes_terminate Sample.core (Rename ["a"] ["c"] false) _ sample_healthy); [repeat constructor; done|].
  intros l. done.
Defined.

(** Under a policy that denies the subdirectory. *)
Definition denying : FileAccessPolicy := denying_only "a/s".
Lemma denied_paths_untouched_witness : exists e, @perform Sample.core (policy_access None [] denying) _ (Remove ["a"; "s"; "t"] false) Sample.world = (Err e, Sample.world).
Proof. refine (proj1 (denied_paths_untouched Sample.core None [] denying _ ["a"; "s"] ["t"] _ _ _)); [vm_compute; reflexivity|apply list_elem_of_here]. Defined.
Lemma moved_trees_permitted_witness : exists w', @perform Sample.core (policy_access None [] denying) _ (Rename ["b"] ["c"] false) Sample.world = (Ok tt, w') /\
  authorize denying ["b"] <> FileDeny /\ authorize denying ["c"] <> FileDeny.
Proof.
  assert ((@perform Sample.core (policy_access None [] denying) _ (Rename ["b"] ["c"] false) Sample.world).1 = Ok tt) as E%ok_pair by (vm_compute; reflexivity).
  eexists. split; [exact E|].
  apply (moved_trees_permitted Sample.core None [] denying _ _ _ ["b"] ["c"] (Lower 0) [] (denying_only_wf _) (hinv_wf _ _ (inv_host _ _ (he_inv _ _ sample_healthy))) E).
  - vm_compute. apply list_elem_of_here.
  - apply list_elem_of_further, list_elem_of_here.
  - constructor.
  - vm_compute. by eexists.
Defined.
