(* ===== verification/PreimageLog.v ===== *)
(** * The compact journal of first observations

    [pvisor-overlay-core/src/preimage_log.rs]: one file of framed records with a
    single writer. A frame has a magic, the length of its body with its
    complement, the body and a digest of what comes before. Records observe a
    path, consume paths, or replace the observation of a directory that was
    applied. Opening replays the frames, drops an incomplete last one and syncs.

    The file is a list of bytes; each write, truncation and sync takes its outcome
    from [d_outcomes] and works when there is none left. A write that breaks has
    left some of its bytes. The writer's lock is not part of the model: operations
    on one file come one after the other. Syncing is that of systems other than
    macOS. *)
From stdpp Require Import base tactics list strings gmap pretty.
From Stdlib Require Import ZArith Lia Ascii.
From S2P Require Import Prelude RustStr FileAccess HostFs Overlay Bytes.
Local Open Scope Z_scope.

(** ** Records *)

Record PathPreimage := mkPreimage { pp_path : string; pp_state : PathFingerprint }.
#[export] Instance path_preimage_eq_dec : EqDecision PathPreimage.
Proof. solve_decision. Defined.
(** [enum Record]. *)
Inductive LogRecord :=
| Observe (preimage : PathPreimage)
| Consume (paths : list string)
| DirectoryBaseline (preimage : PathPreimage).

(** The errors of the log; [LogEof] is a read past the end. *)
Inductive LogError := LogInvalid | LogTooLarge | LogPath | LogJson | LogIo | LogEof | LogPoisoned | LogFuel.
#[export] Instance log_error_eq_dec : EqDecision LogError.
Proof. solve_decision. Defined.

(** Paths as raw bytes. [Path::components] drops empty and [.] components but for
    a leading one; what is left has to be normal. *)
Definition relative_key (key : string) : bool :=
  match split "/"%char key with
  | [] => true
  | first :: rest =>
      (bool_decide (key = ""%string) || negb (bool_decide (first = ""%string))) && negb (bool_decide (first = "."%string))
      && forallb (fun c => negb (bool_decide (c = ".."%string))) (first :: rest)
  end.
Definition validate_path (key : string) : Result LogError unit :=
  _ ← ensure (relative_key key) LogPath;
  ensure (negb (contains "000"%char key)) LogInvalid.
Definition validate (record : LogRecord) : Result LogError unit :=
  match record with
  | Observe preimage => validate_path (pp_path preimage)
  | DirectoryBaseline preimage =>
      _ ← validate_path (pp_path preimage);
      ensure (match pp_state preimage with FpDirectory _ _ _ _ _ _ => true | _ => false end) LogInvalid
  | Consume paths => for_each validate_path paths
  end.

(** ** Interfaces *)

(** [serde_json] on records and [Sha256::digest]. *)
Class LogOps := {
  log_encode : LogRecord -> list Z;
  log_decode : list Z -> option LogRecord;
  log_sha256 : list Z -> list Z
}.
(** What is relied on: an encoded record is not empty and decodes to itself, a
    byte of a path takes at most four bytes, and a digest has 32 bytes. *)
Class LogLaws `{LogOps} : Prop := {
  log_decode_encode r : log_decode (log_encode r) = Some r;
  log_encode_nonempty r : log_encode r <> [];
  log_consume_size paths : Z.of_nat (length (log_encode (Consume paths))) <=
    128 + Z.of_nat (sum_list_with (fun p => String.length p * 4 + 3)%nat paths);
  log_sha256_length b : length (log_sha256 b) = 32%nat
}.

(** ** State *)

Record Observation := mkObservation { ob_preimage : PathPreimage; ob_end : Z }.
Record LogState := mkLogState {
  ls_cursor : Z;
  ls_synced : Z;
  ls_observations : gmap string Observation;
  ls_poisoned : bool
}.
(** The outcome of a call: it works, or breaks after some of its bytes. *)
Inductive Outcome := Works | Breaks (written : nat).
Record Disk := mkDisk { d_file : list Z; d_outcomes : list Outcome }.

Definition LogOp (A : Type) : Type := Disk * LogState -> Result LogError A * (Disk * LogState).
#[export] Instance log_ret : MRet LogOp := fun A a x => (Ok a, x).
#[export] Instance log_bind : MBind LogOp := fun A B f m x =>
  match m x with (Ok a, x') => f a x' | (Err e, x') => (Err e, x') end.
Definition log_raise {A} (e : LogError) : LogOp A := fun x => (Err e, x).
Definition log_lift {A} (r : Result LogError A) : LogOp A := fun x => (r, x).
Definition log_if (b : bool) (m : LogOp unit) : LogOp unit := if b then m else mret tt.

Definition set_cursor (cursor : Z) (st : LogState) : LogState := mkLogState cursor (ls_synced st) (ls_observations st) (ls_poisoned st).
Definition set_synced (synced : Z) (st : LogState) : LogState := mkLogState (ls_cursor st) synced (ls_observations st) (ls_poisoned st).
Definition set_observations (obs : gmap string Observation) (st : LogState) : LogState :=
  mkLogState (ls_cursor st) (ls_synced st) obs (ls_poisoned st).
Definition poison (st : LogState) : LogState := mkLogState (ls_cursor st) (ls_synced st) (ls_observations st) true.

Definition next_outcome (d : Disk) : Outcome * list Outcome :=
  match d_outcomes d with [] => (Works, []) | o :: os => (o, os) end.

(** [write_all_at] and [read_exact_at]. *)
Definition write_at (pos : nat) (bytes file : list Z) : list Z :=
  resize pos 0 file ++ bytes ++ drop (pos + length bytes) file.
Definition read_exact_at (pos n : nat) (file : list Z) : Result LogError (list Z) :=
  let bytes := take n (drop pos file) in
  if (length bytes <? n)%nat then Err LogEof else Ok bytes.

(** ** Constants *)

Definition ascii_codes (s : string) : list Z := byte_val <$> to_bytes s.
Definition LOG_MAGIC : list Z := ascii_codes "pvisor.preimages/2" ++ [10].
Definition FRAME_MAGIC : list Z := ascii_codes "PVR2".
Definition HEADER : nat := 12.
Definition DIGEST : nat := 32.
Definition MAX_RECORD : Z := 4 * 1024 * 1024.
Definition MAX_LOG : Z := 256 * 1024 * 1024.

Section Log.
Context `{LogOps}.

(** ** Syncing *)

Definition sync : LogOp unit := fun '(d, st) =>
  match next_outcome d with
  | (Works, os) => (Ok tt, (mkDisk (d_file d) os, set_synced (ls_cursor st) st))
  | (Breaks _, os) => (Err LogIo, (mkDisk (d_file d) os, poison st))
  end.
Definition set_len : LogOp unit := fun '(d, st) =>
  match next_outcome d with
  | (Works, os) => (Ok tt, (mkDisk (resize (Z.to_nat (ls_cursor st)) 0 (d_file d)) os, st))
  | (Breaks _, os) => (Err LogIo, (mkDisk (d_file d) os, poison st))
  end.
Definition truncate_tail : LogOp unit := _ ← set_len; sync.

(** ** Replaying *)

(** [apply]: the first observation of a path is kept. *)
Definition apply_log (record : LogRecord) (end_ : Z) (obs : gmap string Observation) : gmap string Observation :=
  match record with
  | Observe preimage =>
      match obs !! pp_path preimage with
      | Some _ => obs
      | None => <[pp_path preimage := mkObservation preimage end_]> obs
      end
  | Consume paths => fold_left (fun obs path => delete path obs) paths obs
  | DirectoryBaseline preimage => <[pp_path preimage := mkObservation preimage end_]> obs
  end.

(** The checks of a header of which only some bytes may be there. *)
Definition check_header (header : list Z) : Result LogError unit :=
  let available := length header in
  _ ← ensure (bool_decide (take 4 header = take (Nat.min available 4) FRAME_MAGIC)) LogInvalid;
  if (8 <=? available)%nat then
    let bytes := from_le_bytes (take 4 (drop 4 header)) in
    _ ← ensure (negb ((bytes =? 0) || (MAX_RECORD <? bytes))) LogInvalid;
    ensure (bool_decide (drop 8 header = take (available - 8) (to_le_bytes 4 (u32_max - bytes)))) LogInvalid
  else Ok tt.

(** The file from [cursor] on: an incomplete frame, or a record and its end. *)
Definition next_frame (file : list Z) (cursor length_ : Z) : Result LogError (option (LogRecord * Z)) :=
  let remaining := length_ - cursor in
  let available := Z.to_nat (Z.min remaining (Z.of_nat HEADER)) in
  header ← read_exact_at (Z.to_nat cursor) available file;
  _ ← check_header header;
  if (available <? HEADER)%nat then Ok None
  else
    let bytes := from_le_bytes (take 4 (drop 4 header)) in
    let frame_length := Z.of_nat HEADER + bytes + Z.of_nat DIGEST in
    if remaining <? frame_length then Ok None
    else
      body ← read_exact_at (Z.to_nat (cursor + Z.of_nat HEADER)) (Z.to_nat bytes) file;
      expected ← read_exact_at (Z.to_nat (cursor + Z.of_nat HEADER + bytes)) DIGEST file;
      _ ← ensure (bool_decide (log_sha256 (header ++ body) = expected)) LogInvalid;
      record ← ok_or (log_decode body) LogJson;
      _ ← validate record;
      Ok (Some (record, cursor + frame_length)).

Fixpoint refresh_n (fuel : nat) (repair : bool) (length_ : Z) : LogOp unit := fun '(d, st) =>
  if ls_cursor st <? length_ then
    match fuel with
    | O => (Err LogFuel, (d, st))
    | S fuel =>
        match next_frame (d_file d) (ls_cursor st) length_ with
        | Err e => (Err e, (d, st))
        | Ok None => if repair then truncate_tail (d, st) else (Ok tt, (d, st))
        | Ok (Some (record, end_)) =>
            refresh_n fuel repair length_ (d, set_observations (apply_log record end_ (ls_observations st)) (set_cursor end_ st))
        end
    end
  else (Ok tt, (d, st)).
Definition refresh (repair : bool) (length_ : Z) : LogOp unit := fun '(d, st) =>
  if (length_ <? ls_cursor st) || (MAX_LOG <? length_) then (Err LogInvalid, (d, st))
  else refresh_n (length (d_file d)) repair length_ (d, st).

(** ** Appending *)

Definition frame_start (body : list Z) : list Z :=
  let bytes := Z.of_nat (length body) in
  FRAME_MAGIC ++ to_le_bytes 4 bytes ++ to_le_bytes 4 (u32_max - bytes) ++ body.
(** The write of a frame, and what follows when it worked. *)
Definition write_frame (record : LogRecord) (frame : list Z) : LogOp unit := fun '(d, st) =>
  let end_ := ls_cursor st + Z.of_nat (length frame) in
  let at_ := Z.to_nat (ls_cursor st) in
  if MAX_LOG <? end_ then (Err LogInvalid, (d, st))
  else
    match next_outcome d with
    | (Breaks n, os) => (Err LogIo, (mkDisk (write_at at_ (take n frame) (d_file d)) os, poison st))
    | (Works, os) =>
        (Ok tt, (mkDisk (write_at at_ frame (d_file d)) os,
                 set_observations (apply_log record end_ (ls_observations st)) (set_cursor end_ st)))
    end.
Definition append_log (record : LogRecord) (durable : bool) : LogOp unit :=
  _ ← log_lift (validate record);
  let body := log_encode record in
  _ ← log_lift (ensure (negb (bool_decide (body = []) || (MAX_RECORD <? Z.of_nat (length body)))) LogTooLarge);
  let frame := frame_start body ++ log_sha256 (frame_start body) in
  _ ← write_frame record frame;
  log_if durable sync.

(** ** The handle *)

Definition transaction {A} (operation : LogOp A) : LogOp A := fun '(d, st) =>
  if ls_poisoned st then (Err LogPoisoned, (d, st)) else operation (d, st).
Definition sync_all : LogOp unit := transaction sync.

Definition initial_state : LogState := mkLogState (Z.of_nat (length LOG_MAGIC)) 0 ∅ false.
(** The magic of the file, written when the file is empty; the length to replay. *)
Definition open_magic : LogOp Z := fun '(d, st) =>
  if bool_decide (d_file d = []) then
    match next_outcome d with
    | (Works, os) => (Ok (Z.of_nat (length LOG_MAGIC)), (mkDisk (write_at 0 LOG_MAGIC (d_file d)) os, st))
    | (Breaks n, os) => (Err LogIo, (mkDisk (write_at 0 (take n LOG_MAGIC) (d_file d)) os, st))
    end
  else
    (magic ← read_exact_at 0 (length LOG_MAGIC) (d_file d);
     _ ← ensure (bool_decide (magic = LOG_MAGIC)) LogInvalid;
     Ok (Z.of_nat (length (d_file d))), (d, st)).
Definition sync_directory : LogOp unit := fun '(d, st) =>
  match next_outcome d with
  | (Works, os) => (Ok tt, (mkDisk (d_file d) os, st))
  | (Breaks _, os) => (Err LogIo, (mkDisk (d_file d) os, st))
  end.
(** [PreimageLog::open] of a regular file. *)
Definition open_log (d : Disk) : Result LogError unit * (Disk * LogState) :=
  ((length_ ← open_magic; _ ← refresh true length_; _ ← sync; sync_directory) : LogOp unit) (d, initial_state).

Definition contains_or_promote (path : string) (durable : bool) : LogOp bool :=
  _ ← log_lift (validate_path path);
  transaction (fun '(d, st) =>
    match ls_observations st !! path with
    | Some existing =>
        (_ ← log_if (durable && (ls_synced st <? ob_end existing)) sync; mret true) (d, st)
    | None => (Ok false, (d, st))
    end).
Definition publish_observation (path : string) (durable : bool) (fingerprint : PathFingerprint) : LogOp unit :=
  _ ← log_lift (validate_path path);
  transaction (fun '(d, st) =>
    match ls_observations st !! path with
    | Some existing => log_if (durable && (ls_synced st <? ob_end existing)) sync (d, st)
    | None => append_log (Observe (mkPreimage path fingerprint)) durable (d, st)
    end).

(** The loop of [consume]: paths are gathered until a record could become too
    large. *)
Definition path_bytes (path : string) : Z := Z.of_nat (String.length path) * 4 + 3.
Fixpoint consume_loop (paths batch : list string) (estimate : Z) (appended : bool) : LogOp (list string * bool) :=
  match paths with
  | [] => mret (batch, appended)
  | path :: paths =>
      let bytes := path_bytes path in
      if (u64_max <? bytes) || (MAX_RECORD - 128 <? bytes) then log_raise LogInvalid
      else if MAX_RECORD <? estimate + bytes then
        _ ← append_log (Consume batch) false;
        consume_loop paths [path] (128 + bytes) true
      else consume_loop paths (batch ++ [path]) (estimate + bytes) appended
  end.
Definition consume (paths : list string) : LogOp unit :=
  _ ← log_lift (for_each validate_path paths);
  transaction (fun '(d, st) =>
    let known := List.filter (fun path => bool_decide (is_Some (ls_observations st !! path))) paths in
    ('(batch, appended) ← consume_loop known [] 128 false;
     appended ← (if bool_decide (batch = []) then mret appended
                 else _ ← append_log (Consume batch) false; mret true);
     log_if appended sync) (d, st)).

Definition sorted_observations (st : LogState) : list PathPreimage :=
  (ob_preimage ∘ snd) <$> sort_by (fun a b => string_leb a.1 b.1) (map_to_list (ls_observations st)).
Definition observations : LogOp (list PathPreimage) := transaction (fun '(d, st) => (Ok (sorted_observations st), (d, st))).
Definition applied_directory (preimage : PathPreimage) : LogOp unit :=
  _ ← log_lift (validate (DirectoryBaseline preimage));
  transaction (append_log (DirectoryBaseline preimage) true).

(** [read_prefix], [read] and [read_complete] of a regular file. *)
Definition read_prefix (complete : bool) (file : list Z) : Result LogError (list PathPreimage) :=
  magic ← read_exact_at 0 (length LOG_MAGIC) file;
  _ ← ensure (bool_decide (magic = LOG_MAGIC)) LogInvalid;
  let '(r, (_, st)) := refresh false (Z.of_nat (length file)) (mkDisk file [], initial_state) in
  _ ← r;
  _ ← ensure (negb complete || (ls_cursor st =? Z.of_nat (length file))) LogInvalid;
  Ok (sorted_observations st).
Definition read_log : list Z -> Result LogError (list PathPreimage) := read_prefix false.
Definition read_complete : list Z -> Result LogError (list PathPreimage) := read_prefix true.
End Log.
