(* ===== verification/PreimageLogFacts.v ===== *)
(** * Recovery of the compact journal

    A file of the log is the magic and the frames of its records; the index of the
    observations is a function of the records. Replaying gives the records back,
    opening drops at most an incomplete last frame, and an observation that was
    synced is still there after a crash. *)
From stdpp Require Import base tactics list strings gmap pretty.
From Stdlib Require Import ZArith Lia Ascii.
From S2P Require Import Prelude RustStr FileAccess HostFs Overlay Bytes PreimageLog.
Local Open Scope Z_scope.

Section Facts.
Context `{LogOps, !LogLaws}.

(** ** Files of records *)

Definition frame (r : LogRecord) : list Z := frame_start (log_encode r) ++ log_sha256 (frame_start (log_encode r)).
Definition log_bytes (rs : list LogRecord) : list Z := LOG_MAGIC ++ concat (frame <$> rs).
Definition log_end (rs : list LogRecord) : Z := Z.of_nat (length (log_bytes rs)).
(** A record that can be written. *)
Definition good (r : LogRecord) : Prop := validate r = Ok tt /\ Z.of_nat (length (log_encode r)) <= MAX_RECORD.
(** The observations after the records, with the ends of their frames. *)
Fixpoint index_from (pos : Z) (obs : gmap string Observation) (rs : list LogRecord) : gmap string Observation :=
  match rs with
  | [] => obs
  | r :: rs => let pos := pos + Z.of_nat (length (frame r)) in index_from pos (apply_log r pos obs) rs
  end.
Definition index (rs : list LogRecord) : gmap string Observation := index_from (log_end []) ∅ rs.

Lemma length_frame r : length (frame r) = (12 + length (log_encode r) + 32)%nat.
Proof. unfold frame, frame_start. rewrite !length_app, log_sha256_length, !to_le_bytes_length. cbn. lia. Qed.
Lemma log_bytes_snoc rs r : log_bytes (rs ++ [r]) = log_bytes rs ++ frame r.
Proof. unfold log_bytes. rewrite fmap_app, concat_app, app_assoc. f_equal. apply app_nil_r. Qed.
Lemma log_bytes_app rs rs' : log_bytes (rs ++ rs') = log_bytes rs ++ concat (frame <$> rs').
Proof. unfold log_bytes. by rewrite fmap_app, concat_app, app_assoc. Qed.
Lemma log_end_snoc rs r : log_end (rs ++ [r]) = log_end rs + Z.of_nat (length (frame r)).
Proof. unfold log_end. rewrite log_bytes_snoc, length_app. lia. Qed.
Lemma index_from_app pos obs rs rs' :
  index_from pos obs (rs ++ rs') = index_from (pos + Z.of_nat (length (concat (frame <$> rs)))) (index_from pos obs rs) rs'.
Proof.
  revert pos obs. induction rs as [|r rs IH]; intros pos obs.
  - cbn. f_equal. lia.
  - cbn [app index_from]. rewrite IH. change (frame <$> r :: rs) with (frame r :: (frame <$> rs)). cbn [concat]. rewrite length_app. f_equal. lia.
Qed.
Lemma index_snoc rs r : index (rs ++ [r]) = apply_log r (log_end (rs ++ [r])) (index rs).
Proof.
  unfold index. rewrite index_from_app. cbn [index_from]. f_equal. rewrite log_end_snoc. unfold log_end, log_bytes. rewrite !length_app. change (concat (frame <$> [])) with (@nil Z). cbn [length]. lia.
Qed.

(** ** Frames *)

Lemma FRAME_MAGIC_codes : FRAME_MAGIC = [80; 86; 82; 50].
Proof. reflexivity. Qed.

(** The header of a frame, with its bytes named. *)
Lemma frame_header r : exists a0 a1 a2 a3 b0 b1 b2 b3, let v := Z.of_nat (length (log_encode r)) in
  to_le_bytes 4 v = [a0; a1; a2; a3] /\ to_le_bytes 4 (u32_max - v) = [b0; b1; b2; b3] /\
  frame r = [80; 86; 82; 50; a0; a1; a2; a3; b0; b1; b2; b3] ++ log_encode r ++ log_sha256 (frame_start (log_encode r)).
Proof.
  cbn zeta. do 8 eexists. split; [reflexivity|]. split; [reflexivity|]. unfold frame, frame_start. rewrite <- !app_assoc. reflexivity.
Qed.
Lemma good_length r : good r -> 0 < Z.of_nat (length (log_encode r)) <= MAX_RECORD.
Proof. intros [_ Hm]. pose proof (log_encode_nonempty r) as Hne. destruct (log_encode r); [done|]. cbn in *. lia. Qed.

Lemma check_header_prefix r m : good r -> (m <= 12)%nat -> check_header (take m (frame r)) = Ok tt.
Proof.
  intros Hg Hm. pose proof (good_length r Hg) as Hl. destruct (frame_header r) as (a0 & a1 & a2 & a3 & b0 & b1 & b2 & b3 & Ha & Hb & ->).
  set (v := Z.of_nat (length (log_encode r))) in *. set (rest := log_encode r ++ _).
  assert (from_le_bytes [a0; a1; a2; a3] = v) as Hv.
  { rewrite <- Ha. apply from_to_le_bytes. unfold MAX_RECORD in Hl. cbn. lia. }
  assert (forall k, (k <= 4)%nat -> check_header ([80; 86; 82; 50; a0; a1; a2; a3] ++ take k [b0; b1; b2; b3]) = Ok tt) as Hfull.
  { intros k Hk. unfold check_header. rewrite FRAME_MAGIC_codes. cbn [length app take drop]. rewrite ?take_0, ?drop_0.
    rewrite (bool_decide_eq_true_2 (_ = take (Nat.min _ 4) _)) by reflexivity.
    cbn [ensure mbind result_bind]. replace (8 <=? _)%nat with true by (symmetry; apply Nat.leb_le; lia). rewrite Hv.
    replace (v =? 0) with false by (symmetry; apply Z.eqb_neq; lia). replace (MAX_RECORD <? v) with false by (symmetry; apply Z.ltb_ge; lia).
    cbn [orb negb ensure mbind result_bind]. rewrite Hb, length_take. cbn [length]. rewrite bool_decide_eq_true_2; [done|]. f_equal. lia. }
  destruct (decide (m <= 7)%nat) as [Hs|Hs].
  - do 8 (destruct m as [|m]; [unfold check_header; rewrite FRAME_MAGIC_codes; cbn [app length take Nat.min Nat.leb]; rewrite bool_decide_eq_true_2 by done; done|]). lia.
  - assert (m = 8 + (m - 8))%nat as -> by lia. specialize (Hfull (m - 8)%nat ltac:(lia)). rewrite <- Hfull. f_equal.
    change (take (8 + (m - 8)) ([80; 86; 82; 50; a0; a1; a2; a3; b0; b1; b2; b3] ++ rest)) with ([80; 86; 82; 50; a0; a1; a2; a3] ++ take (m - 8) ([b0; b1; b2; b3] ++ rest)).
    by rewrite take_app_le by (cbn; lia).
Qed.
Lemma read_there pos n (pre mid rest : list Z) : pos = length pre -> n = length mid -> read_exact_at pos n (pre ++ mid ++ rest) = Ok mid.
Proof. intros -> ->. unfold read_exact_at. rewrite drop_app_length, take_app_length, Nat.ltb_irrefl. done. Qed.

(** A complete frame is read back. *)
Lemma next_frame_complete pre r rest : good r ->
  next_frame (pre ++ frame r ++ rest) (Z.of_nat (length pre)) (Z.of_nat (length (pre ++ frame r ++ rest))) =
  Ok (Some (r, Z.of_nat (length pre) + Z.of_nat (length (frame r)))).
Proof.
  intros Hg. pose proof (good_length r Hg) as Hl. pose proof (length_frame r) as Hf.
  destruct (frame_header r) as (a0 & a1 & a2 & a3 & b0 & b1 & b2 & b3 & Ha & Hb & Hfr).
  set (hdr := [80; 86; 82; 50; a0; a1; a2; a3; b0; b1; b2; b3]) in *. set (body := log_encode r) in *. set (dig := log_sha256 _) in *.
  assert (from_le_bytes [a0; a1; a2; a3] = Z.of_nat (length body)) as Hv.
  { rewrite <- Ha. apply from_to_le_bytes. unfold MAX_RECORD in Hl. cbn. lia. }
  assert (frame_start body = hdr ++ body) as Hst by (unfold frame_start; by rewrite Ha, Hb).
  unfold next_frame. rewrite !length_app, Hf.
  match goal with |- context [Z.to_nat (Z.min ?a ?b)] => assert (Z.to_nat (Z.min a b) = 12%nat) as -> end. { rewrite Z.min_r by (unfold HEADER; lia). done. }
  rewrite Nat2Z.id. rewrite Hfr, <- !app_assoc. rewrite (read_there _ 12 pre hdr) by done. cbn [mbind result_bind].
  assert (check_header hdr = Ok tt) as ->.
  { pose proof (check_header_prefix r 12 Hg ltac:(lia)) as Hc. rewrite Hfr in Hc. exact Hc. }
  cbn [mbind result_bind]. change (12 <? HEADER)%nat with false. change (take 4 (drop 4 hdr)) with [a0; a1; a2; a3]. rewrite Hv.
  replace (_ <? _) with false by (symmetry; apply Z.ltb_ge; unfold HEADER, DIGEST; lia). cbn iota.
  rewrite (app_assoc pre hdr). rewrite (read_there (Z.to_nat (Z.of_nat (length pre) + Z.of_nat HEADER)) (Z.to_nat (Z.of_nat (length body))) (pre ++ hdr) body)
    by (rewrite ?length_app; change (length hdr) with 12%nat; unfold HEADER; lia). cbn [mbind result_bind].
  rewrite (app_assoc (pre ++ hdr) body). rewrite (read_there _ DIGEST ((pre ++ hdr) ++ body) dig rest).
  2: { rewrite !length_app. change (length hdr) with 12%nat. unfold HEADER. lia. }
  2: { unfold dig. by rewrite log_sha256_length. }
  cbn [mbind result_bind]. rewrite bool_decide_eq_true_2 by (unfold dig; by rewrite Hst). cbn [ensure mbind result_bind].
  change (log_decode body) with (log_decode (log_encode r)). rewrite log_decode_encode. cbn [ok_or mbind result_bind]. destruct Hg as [-> _]. cbn [mbind result_bind].
  do 2 f_equal. f_equal. unfold HEADER, DIGEST. lia.
Qed.
(** The beginning of a frame is recognised as incomplete. *)
Lemma next_frame_torn pre r n : good r -> (0 < n < length (frame r))%nat ->
  next_frame (pre ++ take n (frame r)) (Z.of_nat (length pre)) (Z.of_nat (length (pre ++ take n (frame r)))) = Ok None.
Proof.
  intros Hg Hn. pose proof (good_length r Hg) as Hl. pose proof (length_frame r) as Hf.
  unfold next_frame. rewrite !length_app, length_take_le by lia. rewrite Nat2Z.id.
  set (m := Z.to_nat (Z.min _ _)). assert (m = Nat.min n 12) as Hm by (unfold m, HEADER; lia).
  assert (take n (frame r) = take m (frame r) ++ drop m (take n (frame r))) as Hsplit.
  { rewrite <- (take_drop m (take n (frame r))) at 1. f_equal. rewrite take_take. f_equal. lia. }
  rewrite Hsplit, (read_there _ m pre (take m (frame r))) by (rewrite ?length_take_le; lia). cbn [mbind result_bind].
  rewrite (check_header_prefix r m Hg) by lia. cbn [mbind result_bind]. unfold HEADER at 1. destruct (m <? 12)%nat eqn:Hlt; [done|].
  apply Nat.ltb_ge in Hlt. assert (m = 12)%nat as -> by lia.
  destruct (frame_header r) as (a0 & a1 & a2 & a3 & b0 & b1 & b2 & b3 & Ha & Hb & Hfr). rewrite Hfr at 1.
  change (take 4 (drop 4 (take 12 ([80; 86; 82; 50; a0; a1; a2; a3; b0; b1; b2; b3] ++ log_encode r ++ log_sha256 (frame_start (log_encode r)))))) with [a0; a1; a2; a3].
  assert (from_le_bytes [a0; a1; a2; a3] = Z.of_nat (length (log_encode r))) as ->.
  { rewrite <- Ha. apply from_to_le_bytes. unfold MAX_RECORD in Hl. cbn. lia. }
  replace (_ <? _) with true; [done|]. symmetry. apply Z.ltb_lt. unfold HEADER, DIGEST. lia.
Qed.

(** ** Replaying a file *)

(** What is left of a write that broke. *)
Definition torn (tail : list Z) : Prop := exists r n, good r /\ (n < length (frame r))%nat /\ tail = take n (frame r).
Lemma torn_nil r : good r -> torn [].
Proof. intros Hg. exists r, 0%nat. split_and!; [done| |done]. rewrite length_frame. lia. Qed.

Definition replayed (rs : list LogRecord) (st : LogState) : LogState :=
  mkLogState (log_end rs) (ls_synced st) (index rs) (ls_poisoned st).
Lemma refresh_replays fuel repair rs0 rs tail os st : Forall good rs -> torn tail \/ tail = [] -> (length rs < fuel)%nat ->
  ls_cursor st = log_end rs0 -> ls_observations st = index rs0 ->
  let file := log_bytes (rs0 ++ rs) ++ tail in
  refresh_n fuel repair (Z.of_nat (length file)) (mkDisk file os, st) =
  if bool_decide (tail = []) then (Ok tt, (mkDisk file os, replayed (rs0 ++ rs) st))
  else if repair then truncate_tail (mkDisk file os, replayed (rs0 ++ rs) st) else (Ok tt, (mkDisk file os, replayed (rs0 ++ rs) st)).
Proof.
  cbn zeta. intros Hgood Htail. revert fuel rs0 st. induction Hgood as [|r rs Hr Hrs IH]; intros fuel rs0 st Hfuel Hc Ho; (destruct fuel as [|fuel]; [cbn in Hfuel; lia|]).
  - rewrite app_nil_r. assert (replayed rs0 st = st) as Hst by (unfold replayed; rewrite <- Hc, <- Ho; by destruct st). rewrite Hst.
    cbn [refresh_n d_file]. rewrite Hc. case_bool_decide as Ht.
    + subst tail. rewrite app_nil_r. unfold log_end. by rewrite Z.ltb_irrefl.
    + destruct Htail as [(r & n & Hg & Hn & ->)|]; [|done]. assert (0 < n)%nat by (destruct n; [done|lia]).
      replace (_ <? _) with true by (symmetry; apply Z.ltb_lt; unfold log_end; rewrite length_app, length_take_le; lia).
      unfold log_end. rewrite next_frame_torn by (done || lia). done.
  - cbn [refresh_n d_file]. rewrite Hc.
    assert (log_bytes (rs0 ++ r :: rs) ++ tail = log_bytes rs0 ++ frame r ++ (concat (frame <$> rs) ++ tail)) as Hfile.
    { rewrite log_bytes_app. change (frame <$> r :: rs) with (frame r :: (frame <$> rs)). cbn [concat]. by rewrite !app_assoc. }
    replace (_ <? _) with true.
    2: { symmetry. apply Z.ltb_lt. rewrite Hfile. unfold log_end. rewrite !length_app, length_frame. lia. }
    rewrite Hfile at 1 2. unfold log_end at 1. rewrite next_frame_complete by done.
    assert (rs0 ++ r :: rs = (rs0 ++ [r]) ++ rs) as Happ by (by rewrite <- app_assoc). rewrite Happ.
    rewrite (IH fuel (rs0 ++ [r])); [done|cbn in Hfuel; lia| |].
    + cbn. by rewrite log_end_snoc.
    + cbn. rewrite index_snoc, log_end_snoc, Ho. done.
Qed.

(** ** Opening *)

Lemma log_end_mono rs rs' : log_end rs <= log_end (rs ++ rs').
Proof. unfold log_end. rewrite log_bytes_app, length_app. lia. Qed.
Lemma log_end_count rs : Z.of_nat (length rs) + 19 <= log_end rs.
Proof.
  induction rs as [|r rs IH] using rev_ind; [done|]. rewrite log_end_snoc, length_app, length_frame. cbn [length]. lia.
Qed.
Lemma resize_to_prefix {A} (x : A) (l k : list A) n : n = length l -> resize n x (l ++ k) = l.
Proof. intros ->. rewrite resize_app_le by lia. by rewrite resize_all. Qed.

Definition opened (rs : list LogRecord) : LogState := mkLogState (log_end rs) (log_end rs) (index rs) false.
Lemma refresh_any rs tail os : Forall good rs -> torn tail \/ tail = [] -> Z.of_nat (length (log_bytes rs ++ tail)) <= MAX_LOG ->
  refresh true (Z.of_nat (length (log_bytes rs ++ tail))) (mkDisk (log_bytes rs ++ tail) os, initial_state) =
  if bool_decide (tail = []) then (Ok tt, (mkDisk (log_bytes rs ++ tail) os, replayed rs initial_state))
  else truncate_tail (mkDisk (log_bytes rs ++ tail) os, replayed rs initial_state).
Proof.
  intros Hrs Ht Hmax. pose proof (log_end_count rs) as Hc. unfold log_end in Hc. unfold refresh. cbn [ls_cursor initial_state d_file].
  replace (_ || _) with false.
  2: { symmetry. apply orb_false_iff. split; [|apply Z.ltb_ge; lia]. apply Z.ltb_ge. rewrite length_app. change (length LOG_MAGIC) with 19%nat. lia. }
  rewrite (refresh_replays _ true [] rs tail os initial_state); [done|done|done|rewrite length_app; lia|done|done].
Qed.
Lemma open_magic_present rs tail os st : open_magic (mkDisk (log_bytes rs ++ tail) os, st) = (Ok (Z.of_nat (length (log_bytes rs ++ tail))), (mkDisk (log_bytes rs ++ tail) os, st)).
Proof.
  pose proof (log_end_count rs) as Hc. unfold log_end in Hc. unfold open_magic. cbn [d_file].
  rewrite bool_decide_eq_false_2 by (intros Hnil%(f_equal length); rewrite length_app in Hnil; cbn [length] in Hnil; lia).
  assert (read_exact_at 0 (length LOG_MAGIC) (log_bytes rs ++ tail) = Ok LOG_MAGIC) as ->.
  { unfold log_bytes. rewrite <- app_assoc. by apply (read_there 0 _ [] LOG_MAGIC). }
  cbn [mbind result_bind]. by rewrite bool_decide_eq_true_2.
Qed.
(** A log whose calls work recovers the complete frames and drops what follows. *)
Lemma open_recovers rs tail : Forall good rs -> torn tail \/ tail = [] -> Z.of_nat (length (log_bytes rs ++ tail)) <= MAX_LOG ->
  open_log (mkDisk (log_bytes rs ++ tail) []) = (Ok tt, (mkDisk (log_bytes rs) [], opened rs)).
Proof.
  intros Hrs Ht Hmax. unfold open_log, mbind, log_bind. rewrite open_magic_present, refresh_any by done.
  case_bool_decide as Hnil.
  - subst tail. rewrite app_nil_r. cbn. done.
  - unfold truncate_tail, mbind, log_bind, set_len. cbn [next_outcome d_outcomes d_file ls_cursor replayed].
    rewrite resize_to_prefix by (unfold log_end; lia). done.
Qed.
Lemma open_empty : open_log (mkDisk [] []) = (Ok tt, (mkDisk (log_bytes []) [], opened [])).
Proof. reflexivity. Qed.

(** ** Crashes *)

Lemma log_bytes_take rs rs' n : n <= log_end rs -> take (Z.to_nat n) (log_bytes (rs ++ rs')) = take (Z.to_nat n) (log_bytes rs).
Proof. intros Hn. rewrite log_bytes_app, take_app_le; [done|]. unfold log_end in Hn. lia. Qed.
(** A cut file is that of the records whose frames are complete, and the
    beginning of the next frame. *)
Lemma cut_file rs n : Forall good rs -> log_end [] <= n -> exists rs' tail,
  take (Z.to_nat n) (log_bytes rs) = log_bytes rs' ++ tail /\ (torn tail \/ tail = []) /\ rs' `prefix_of` rs /\
  (forall rs1, rs1 `prefix_of` rs -> log_end rs1 <= n -> rs1 `prefix_of` rs').
Proof.
  intros Hg Hn. induction rs as [|r rs IH] using rev_ind.
  - exists [], []. rewrite app_nil_r, take_ge by (unfold log_end in Hn; lia). split_and!; [done|by right|done|by intros].
  - apply Forall_app in Hg as [Hg [Hr _]%Forall_cons]. destruct (decide (log_end (rs ++ [r]) <= n)) as [Hall|Hpart].
    { exists (rs ++ [r]), []. rewrite app_nil_r, take_ge by (unfold log_end in Hall; lia). split_and!; [done|by right|done|by intros]. }
    destruct (decide (log_end rs <= n)) as [Hlast|Hless].
    + exists rs, (take (Z.to_nat n - length (log_bytes rs)) (frame r)). split_and!.
      * rewrite log_bytes_snoc, take_app. f_equal. apply take_ge. unfold log_end in Hlast. lia.
      * left. exists r, (Z.to_nat n - length (log_bytes rs))%nat. split_and!; [done| |done]. rewrite log_end_snoc in Hpart. unfold log_end in *. lia.
      * by apply prefix_app_r.
      * intros rs1 [l Hl] Hle. destruct l as [|x l _] using rev_ind; [rewrite app_nil_r in Hl; subst; lia|].
        rewrite app_assoc in Hl. apply app_inj_tail in Hl as [-> _]. by apply prefix_app_r.
    + destruct (IH Hg) as (rs' & tail & Ht & Htorn & Hpre & Hmax). exists rs', tail. split_and!; [|done|by apply prefix_app_r|].
      * rewrite log_bytes_take by lia. done.
      * intros rs1 Hrs1 Hle. apply Hmax; [|done]. destruct Hrs1 as [l Hl]. destruct l as [|x l _] using rev_ind; [rewrite app_nil_r in Hl; subst; lia|].
        rewrite app_assoc in Hl. apply app_inj_tail in Hl as [-> _]. by apply prefix_app_r.
Qed.

(** ** The index *)

(** Records that leave a path alone. *)
Definition keeps_key (k : string) (r : LogRecord) : Prop :=
  match r with Observe _ => True | Consume paths => k ∉ paths | DirectoryBaseline preimage => pp_path preimage <> k end.
Lemma fold_delete_lookup paths (obs : gmap string Observation) k :
  fold_left (fun obs path => delete path obs) paths obs !! k = if decide (k ∈ paths) then None else obs !! k.
Proof.
  revert obs. induction paths as [|p paths IH]; intros obs; cbn; [by rewrite decide_False by apply not_elem_of_nil|]. rewrite IH.
  destruct (decide (k = p)) as [->|Hne]; [rewrite lookup_delete_eq, (decide_True (P := p ∈ p :: paths)) by left; by destruct (decide _)|].
  rewrite lookup_delete_ne by done. destruct (decide (k ∈ paths)); [by rewrite decide_True by (by right)|].
  rewrite decide_False; [done|]. by intros [?|?]%elem_of_cons.
Qed.
Lemma apply_keeps r e obs k o : keeps_key k r -> obs !! k = Some o -> apply_log r e obs !! k = Some o.
Proof.
  destruct r as [p|paths|p]; cbn; intros Hk Ho.
  - destruct (obs !! pp_path p) eqn:E; [done|]. rewrite lookup_insert_ne; [done|]. congruence.
  - rewrite fold_delete_lookup. by rewrite decide_False.
  - by rewrite lookup_insert_ne.
Qed.
(** Where an entry of the index comes from. *)
Lemma apply_origin r e obs k o : apply_log r e obs !! k = Some o -> obs !! k = Some o \/ ob_end o = e.
Proof.
  destruct r as [p|paths|p]; cbn; intros Ho.
  - destruct (obs !! pp_path p) eqn:E; [by left|]. destruct (decide (pp_path p = k)) as [<-|].
    + rewrite lookup_insert_eq in Ho. injection Ho as <-. by right.
    + rewrite lookup_insert_ne in Ho by done. by left.
  - rewrite fold_delete_lookup in Ho. destruct (decide _); [done|]. by left.
  - destruct (decide (pp_path p = k)) as [<-|].
    + rewrite lookup_insert_eq in Ho. injection Ho as <-. by right.
    + rewrite lookup_insert_ne in Ho by done. by left.
Qed.
(** An entry stands from the record at its end on. *)
Definition stands (rs : list LogRecord) (k : string) (o : Observation) : Prop :=
  (exists rs0, rs0 `prefix_of` rs /\ log_end rs0 = ob_end o) /\
  (forall rs', rs' `prefix_of` rs -> ob_end o <= log_end rs' -> index rs' !! k = Some o).
Lemma prefix_snoc_cases (rs' rs : list LogRecord) r : rs' `prefix_of` rs ++ [r] -> rs' = rs ++ [r] \/ rs' `prefix_of` rs.
Proof.
  intros [l Hl]. destruct l as [|x l _] using rev_ind; [rewrite app_nil_r in Hl; by left|right].
  rewrite app_assoc in Hl. apply app_inj_tail in Hl as [-> _]. by apply prefix_app_r.
Qed.
Lemma prefix_end (rs' rs : list LogRecord) : rs' `prefix_of` rs -> log_end rs' <= log_end rs.
Proof. intros [l ->]. apply log_end_mono. Qed.
Lemma index_stands rs k o : index rs !! k = Some o -> stands rs k o.
Proof.
  induction rs as [|r rs IH] using rev_ind; [change (index []) with (∅ : gmap string Observation); by rewrite lookup_empty|]. intros Ho. pose proof Ho as Ho'. rewrite index_snoc in Ho'.
  pose proof (log_end_snoc rs r) as Hs. pose proof (length_frame r) as Hf. apply apply_origin in Ho' as [Hold|Hend].
  - destruct (IH Hold) as [(rs0 & Hp & He) Hall]. split; [exists rs0; split; [by apply prefix_app_r|done]|].
    intros rs' [->|Hrs']%prefix_snoc_cases Hle; [done|by apply Hall].
  - split; [exists (rs ++ [r]); done|]. intros rs' [->|Hrs'%prefix_end]%prefix_snoc_cases Hle; [done|]. lia.
Qed.
Lemma stands_keeps rs rs2 k o : stands rs k o -> ob_end o <= log_end rs -> Forall (keeps_key k) rs2 -> stands (rs ++ rs2) k o.
Proof.
  intros Hst Hle. induction rs2 as [|r rs2 IH] using rev_ind; [by rewrite app_nil_r|]. intros [Hk [Hr _]%Forall_cons]%Forall_app.
  destruct (IH Hk) as [(rs0 & Hp & He) Hall]. rewrite app_assoc. split; [exists rs0; split; [by apply prefix_app_r|done]|].
  intros rs' [->|Hrs']%prefix_snoc_cases Hle'; [|by apply Hall]. rewrite index_snoc. apply apply_keeps; [done|]. apply Hall; [done|].
  etrans; [exact Hle|apply log_end_mono].
Qed.

(** ** The invariant of a handle *)

(** [pending] is the record whose write broke, with the bytes that were left. *)
Definition tail_of (pending : option (LogRecord * nat)) : list Z := from_option (fun '(r, n) => take n (frame r)) [] pending.
Record LogInv (rs : list LogRecord) (pending : option (LogRecord * nat)) (x : Disk * LogState) : Prop := mkLogInv {
  li_good : Forall good rs;
  li_file : d_file x.1 = log_bytes rs ++ tail_of pending;
  li_pending : match pending with None => True | Some (r, _) => good r /\ ls_poisoned x.2 = true end;
  li_cursor : ls_cursor x.2 = log_end rs;
  li_observations : ls_observations x.2 = index rs;
  li_synced : log_end [] <= ls_synced x.2 <= log_end rs;
  li_size : match pending with None => log_end rs | Some (r, _) => log_end (rs ++ [r]) end <= MAX_LOG
}.
Lemma LogInv_intact rs pending x : LogInv rs pending x -> ls_poisoned x.2 = false -> pending = None.
Proof. intros I Hp. pose proof (li_pending _ _ _ I) as Hpe. destruct pending as [[r n]|]; [destruct Hpe; congruence|done]. Qed.
Lemma opened_inv rs : Forall good rs -> log_end rs <= MAX_LOG -> LogInv rs None (mkDisk (log_bytes rs) [], opened rs).
Proof.
  intros Hg Hm. constructor; cbn; try done; [by rewrite app_nil_r|]. split; [|done]. apply (log_end_mono [] rs).
Qed.

Lemma sync_inv rs pending x r x' : LogInv rs pending x -> sync x = (r, x') ->
  LogInv rs pending x' /\ ls_synced x.2 <= ls_synced x'.2 /\
  (r = Ok tt -> ls_synced x'.2 = ls_cursor x'.2 /\ ls_poisoned x'.2 = ls_poisoned x.2) /\ (r <> Ok tt -> ls_poisoned x'.2 = true).
Proof.
  destruct x as [d st]. intros [Hg Hf Hp Hc Ho Hs Hm] E. cbn in *. unfold sync in E. destruct (next_outcome d) as [[|n] os]; injection E as <- <-.
  - split_and!; [|cbn; lia|done|done]. constructor; cbn; try done. lia.
  - split_and!; [|cbn; lia|done|done]. constructor; cbn; try done. destruct pending as [[]|]; [|done]. by destruct Hp.
Qed.
Lemma log_if_sync_inv b rs pending x r x' : LogInv rs pending x -> log_if b sync x = (r, x') ->
  LogInv rs pending x' /\ ls_synced x.2 <= ls_synced x'.2 /\
  (r = Ok tt -> (b = true -> ls_synced x'.2 = ls_cursor x'.2) /\ ls_poisoned x'.2 = ls_poisoned x.2) /\ (r <> Ok tt -> ls_poisoned x'.2 = true).
Proof.
  intros I E. destruct b; cbn [log_if] in E; [|injection E as <- <-; done]. destruct (sync_inv _ _ _ _ _ I E) as (I' & Hs & Hok & Herr). naive_solver.
Qed.

Lemma write_at_end pos file bytes : pos = length file -> write_at pos bytes file = file ++ bytes.
Proof. intros ->. unfold write_at. rewrite resize_all. rewrite drop_ge by lia. by rewrite app_nil_r. Qed.

(** A record that is appended is refused before anything is written, or breaks,
    or is the next record of the file. *)
Lemma append_inv rs x record durable r x' : LogInv rs None x -> ls_poisoned x.2 = false -> append_log record durable x = (r, x') ->
  (r <> Ok tt /\ x' = x) \/
  (r <> Ok tt /\ exists n, LogInv rs (Some (record, n)) x' /\ ls_synced x'.2 = ls_synced x.2) \/
  (LogInv (rs ++ [record]) None x' /\ ls_synced x.2 <= ls_synced x'.2 /\
   (r = Ok tt -> (durable = true -> ls_synced x'.2 = ls_cursor x'.2) /\ ls_poisoned x'.2 = false) /\ (r <> Ok tt -> ls_poisoned x'.2 = true)).
Proof.
  intros I Hp E. pose proof I as [Hg Hf _ Hc Ho Hs Hm]. destruct x as [d st]. cbn [fst snd tail_of from_option] in *. rewrite app_nil_r in Hf.
  unfold append_log, mbind, log_bind, log_lift in E. destruct (validate record) as [[]|e] eqn:Hv; [|injection E as <- <-; by left].
  destruct (ensure _ LogTooLarge) as [[]|e] eqn:He; [|injection E as <- <-; by left].
  apply ensure_Ok, negb_true_iff, orb_false_iff in He as [_ He%Z.ltb_ge]. assert (good record) as Hgr by done.
  change (frame_start (log_encode record) ++ log_sha256 (frame_start (log_encode record))) with (frame record) in E.
  unfold write_frame in E at 1. rewrite Hc, <- log_end_snoc in E. destruct (MAX_LOG <? _) eqn:Hmax; [injection E as <- <-; by left|].
  apply Z.ltb_ge in Hmax. pose proof (log_end_snoc rs record) as Hsn. pose proof (length_frame record) as Hlf. right.
  destruct (next_outcome d) as [[|n] os].
  - right. rewrite write_at_end in E by (rewrite Hf; unfold log_end; lia). rewrite Hf, <- log_bytes_snoc in E.
    match type of E with log_if durable sync ?y = _ => set (x1 := y) in * end.
    assert (LogInv (rs ++ [record]) None x1) as I1.
    { constructor; cbn; [apply Forall_app; split; [done|by constructor]|by rewrite app_nil_r|done|done|by rewrite index_snoc, Ho|lia|lia]. }
    destruct (log_if_sync_inv durable _ _ _ _ _ I1 E) as (I2 & Hs2 & Hok & Herr). split_and!; [done|exact Hs2| |done].
    intros Hr. destruct (Hok Hr) as [Hd Hpo]. split; [done|]. rewrite Hpo. exact Hp.
  - left. injection E as <- <-. split; [done|]. exists n. split; [|done].
    constructor; cbn; try done. by rewrite write_at_end, Hf by (rewrite Hf; unfold log_end; lia).
Qed.

(** ** Consuming *)

Lemma index_consumed rs batch k : index (rs ++ [Consume batch]) !! k = if decide (k ∈ batch) then None else index rs !! k.
Proof. rewrite index_snoc. apply fold_delete_lookup. Qed.
Lemma log_bind_inv {A B} (m : LogOp A) (f : A -> LogOp B) x r x' : (m ≫= f) x = (r, x') ->
  (exists a x1, m x = (Ok a, x1) /\ f a x1 = (r, x')) \/ (exists e, m x = (Err e, x') /\ r = Err e).
Proof.
  unfold mbind, log_bind. destruct (m x) as [[a|e] x1]; intros E; [left; eauto|right]. injection E as <- <-. eauto.
Qed.

(** What a step that appends records leaves: [new] records, and perhaps a broken
    one, all of which leave the paths outside of [ks] alone. *)
Record Grown (rs : list LogRecord) (spared : string -> Prop) (x : Disk * LogState) (new : list LogRecord) (pending : option (LogRecord * nat)) (x' : Disk * LogState) : Prop := mkGrown {
  gr_inv : LogInv (rs ++ new) pending x';
  gr_synced : ls_synced x.2 <= ls_synced x'.2;
  gr_new k : spared k -> Forall (keeps_key k) new;
  gr_pending k : spared k -> match pending with None => True | Some (r, _) => keeps_key k r end
}.
Lemma Grown_refl rs spared x : LogInv rs None x -> Grown rs spared x [] None x.
Proof. intros I. constructor; [by rewrite app_nil_r|lia|done|done]. Qed.
Lemma Grown_weaken rs (spared spared' : string -> Prop) x new pending x' : (forall k, spared' k -> spared k) -> Grown rs spared x new pending x' -> Grown rs spared' x new pending x'.
Proof. intros Hs [I S N P]. constructor; [done|done|intros k Hk; apply N; auto|intros k Hk; apply P; auto]. Qed.
Lemma Grown_trans rs spared x new x1 new' pending x' : Grown rs spared x new None x1 -> Grown (rs ++ new) spared x1 new' pending x' ->
  Grown rs spared x (new ++ new') pending x'.
Proof.
  intros [I S N P] [I' S' N' P']. constructor; [by rewrite app_assoc|lia| |done]. intros k Hk. apply Forall_app. auto.
Qed.
Lemma Grown_sync rs spared x new pending x1 b r x' : Grown rs spared x new pending x1 -> log_if b sync x1 = (r, x') -> Grown rs spared x new pending x'.
Proof.
  intros [I S N P] E. destruct (log_if_sync_inv b _ _ _ _ _ I E) as (I' & Hs & _). constructor; [done|lia|done|done].
Qed.
Lemma append_grown rs x record durable r x' : LogInv rs None x -> ls_poisoned x.2 = false -> append_log record durable x = (r, x') ->
  exists new pending, Grown rs (fun k => keeps_key k record) x new pending x' /\
    (r = Ok tt -> new = [record] /\ pending = None /\ ls_poisoned x'.2 = false /\ (durable = true -> ls_synced x'.2 = ls_cursor x'.2)).
Proof.
  intros I Hp E. destruct (append_inv _ _ _ _ _ _ I Hp E) as [(Hr & ->)|[(Hr & n & I' & Hs)|(I' & Hs & Hok & Herr)]].
  - exists [], None. split; [by apply Grown_refl|done].
  - exists [], (Some (record, n)). split; [|done]. constructor; [by rewrite app_nil_r|lia|done|done].
  - exists [record], None. split; [|naive_solver]. constructor; [done|done| |done]. intros k Hk. by constructor.
Qed.

Lemma consume_loop_grown paths batch estimate appended rs x r x' : LogInv rs None x -> ls_poisoned x.2 = false ->
  consume_loop paths batch estimate appended x = (r, x') ->
  exists new pending, Grown rs (fun k => k ∉ batch ++ paths) x new pending x' /\
    (forall batch' appended', r = Ok (batch', appended') -> pending = None /\ ls_poisoned x'.2 = false /\
       (appended' = false -> appended = false /\ x' = x /\ new = []) /\
       exists done_, done_ ++ batch' = batch ++ paths /\ forall k, index (rs ++ new) !! k = if decide (k ∈ done_) then None else index rs !! k).
Proof.
  revert batch estimate appended rs x. induction paths as [|path paths IH]; intros batch estimate appended rs x I Hp E; cbn [consume_loop] in E.
  - injection E as <- <-. exists [], None. split; [by apply Grown_refl|]. intros batch' appended' [= <- <-]. split_and!; [done|done|done|].
    exists []. split; [by rewrite app_nil_r|]. intros k. rewrite app_nil_r. by rewrite decide_False by apply not_elem_of_nil.
  - destruct (_ || _); [injection E as <- <-; exists [], None; split; [by apply Grown_refl|done]|].
    destruct (MAX_RECORD <? _).
    + apply log_bind_inv in E as [([] & x1 & E1 & E)|(e & E1 & ->)]; destruct (append_grown _ _ _ _ _ _ I Hp E1) as (new1 & pe1 & G1 & Hok).
      2: { exists new1, pe1. split; [|done]. eapply Grown_weaken; [|exact G1]. intros k Hk. cbn. by intros ?; apply Hk, elem_of_app; left. }
      destruct (Hok eq_refl) as (-> & -> & Hp1 & _). destruct (IH _ _ _ _ _ (gr_inv _ _ _ _ _ _ G1) Hp1 E) as (new2 & pe2 & G2 & Hr2).
      exists ([Consume batch] ++ new2), pe2. split.
      * apply (Grown_trans _ _ _ _ x1); (eapply Grown_weaken; [|eassumption]); intros k Hk; cbn; intros ?; apply Hk, elem_of_app; auto.
      * intros batch' appended' Hr. destruct (Hr2 _ _ Hr) as (Hpe & Hpo & Hap & done_ & Hd & Hi). split_and!; [done|done|by intros [? _]%Hap|].
        exists (batch ++ done_). split; [by rewrite <- app_assoc, Hd|]. intros k. rewrite app_assoc, Hi, index_consumed.
        destruct (decide (k ∈ done_)) as [Hk|Hk]; [by rewrite decide_True by (apply elem_of_app; by right)|].
        destruct (decide (k ∈ batch)); [rewrite decide_True by (apply elem_of_app; by left); done|]. rewrite decide_False; [done|]. by intros [?|?]%elem_of_app.
    + destruct (IH _ _ _ _ _ I Hp E) as (new & pe & G & Hr). rewrite <- app_assoc in *. exists new, pe. split; [done|]. intros b a Hba.
      destruct (Hr b a Hba) as (? & ? & ? & done_ & Hd & Hi). split_and!; [done..|]. exists done_. split; [|done]. by rewrite Hd, <- ?app_assoc.
Qed.

(** ** Calls *)

Inductive LogCall :=
| CallSync
| CallContains (path : string) (durable : bool)
| CallPublish (path : string) (durable : bool) (fingerprint : PathFingerprint)
| CallConsume (paths : list string)
| CallBaseline (preimage : PathPreimage).
Definition perform_log (c : LogCall) : LogOp unit :=
  match c with
  | CallSync => sync_all
  | CallContains path durable => _ ← contains_or_promote path durable; mret tt
  | CallPublish path durable fingerprint => publish_observation path durable fingerprint
  | CallConsume paths => consume paths
  | CallBaseline preimage => applied_directory preimage
  end.
(** Calls that do not take the observation of a path away. *)
Definition spares (k : string) (c : LogCall) : Prop :=
  match c with CallConsume paths => k ∉ paths | CallBaseline preimage => pp_path preimage <> k | _ => True end.
(** The observations as a map, and what a call makes of it. *)
Definition log_view (st : LogState) : gmap string PathPreimage := ob_preimage <$> ls_observations st.
Definition log_spec (c : LogCall) (m : gmap string PathPreimage) : gmap string PathPreimage :=
  match c with
  | CallSync | CallContains _ _ => m
  | CallPublish path _ fingerprint => match m !! path with Some _ => m | None => <[path := mkPreimage path fingerprint]> m end
  | CallConsume paths => filter (fun '(k, _) => k ∉ paths) m
  | CallBaseline preimage => <[pp_path preimage := preimage]> m
  end.

Lemma lift_inv {A} (r0 : Result LogError A) x r x' : log_lift r0 x = (r, x') -> r = r0 /\ x' = x.
Proof. by intros [= <- <-]. Qed.
Lemma transaction_inv {A} (m : LogOp A) x r x' : transaction m x = (r, x') ->
  (ls_poisoned x.2 = true /\ r = Err LogPoisoned /\ x' = x) \/ (ls_poisoned x.2 = false /\ m x = (r, x')).
Proof. unfold transaction. destruct x as [d st]. cbn. destruct (ls_poisoned st); [intros [= <- <-]; by left|by right]. Qed.
Lemma view_index rs : log_view (mkLogState 0 0 (index rs) false) = ob_preimage <$> index rs.
Proof. done. Qed.

Lemma consume_grown paths rs x r x' : LogInv rs None x -> ls_poisoned x.2 = false ->
  transaction (fun '(d, st) =>
    let known := List.filter (fun path => bool_decide (is_Some (ls_observations st !! path))) paths in
    ('(batch, appended) ← consume_loop known [] 128 false;
     appended ← (if bool_decide (batch = []) then mret appended else _ ← append_log (Consume batch) false; mret true);
     log_if appended sync) (d, st)) x = (r, x') ->
  exists new pending, Grown rs (fun k => k ∉ paths) x new pending x' /\
    (r = Ok tt -> forall k, index (rs ++ new) !! k = if decide (k ∈ paths) then None else index rs !! k).
Proof.
  intros I Hp E. apply transaction_inv in E as [(Hpo & _)|[_ E]]; [congruence|]. destruct x as [d st]. cbn zeta in E.
  set (known := List.filter _ _) in *. assert (forall k, k ∈ known <-> k ∈ paths /\ is_Some (index rs !! k)) as Hkn.
  { intros k. unfold known. rewrite !list_elem_of_In, filter_In, bool_decide_eq_true. by rewrite (li_observations _ _ _ I : ls_observations st = _). }
  apply log_bind_inv in E as [([batch appended] & x1 & E1 & E)|(e & E1 & ->)]; destruct (consume_loop_grown _ _ _ _ _ _ _ _ I Hp E1) as (new1 & pe1 & G1 & Hok).
  2: { exists new1, pe1. split; [|done]. eapply Grown_weaken; [|exact G1]. intros k Hk. cbn. by intros [? _]%Hkn. }
  destruct (Hok _ _ eq_refl) as (-> & Hp1 & Hap & done_ & Hd & Hi). cbn [app] in Hd.
  assert (Grown rs (fun k => k ∉ paths) (d, st) new1 None x1) as G1' by (eapply Grown_weaken; [|exact G1]; intros k Hk; cbn; by intros [? _]%Hkn).
  assert (forall new2, (forall k, index (rs ++ new1 ++ new2) !! k = if decide (k ∈ batch) then None else index (rs ++ new1) !! k) ->
    forall k, index (rs ++ new1 ++ new2) !! k = if decide (k ∈ paths) then None else index rs !! k) as Hall.
  { intros new2 H2 k. rewrite H2, Hi. assert (k ∈ known <-> k ∈ done_ \/ k ∈ batch) as Hk by (rewrite <- Hd; apply elem_of_app).
    destruct (decide (k ∈ batch)) as [Hb|Hb]; [rewrite decide_True by (apply Hkn, Hk; by right); done|].
    destruct (decide (k ∈ done_)) as [Hdo|Hdo]; [rewrite decide_True by (apply Hkn, Hk; by left); done|].
    destruct (decide (k ∈ paths)); [|done]. destruct (index rs !! k) eqn:Ek; [|done]. exfalso.
    assert (k ∈ known) as [?|?]%Hk by (apply Hkn; by rewrite Ek); done. }
  apply log_bind_inv in E as [(appended2 & x2 & E2 & E)|(e & E2 & ->)].
  - case_bool_decide as Hb.
    + injection E2 as <- <-. exists new1, None. split; [by eapply Grown_sync|]. intros _. specialize (Hall []). rewrite app_nil_r in Hall.
      apply Hall. intros k. by rewrite Hb, decide_False by apply not_elem_of_nil.
    + apply log_bind_inv in E2 as [([] & x3 & E3 & [= <- <-])|(e & _ & [=])].
      destruct (append_grown _ _ _ _ _ _ (gr_inv _ _ _ _ _ _ G1) Hp1 E3) as (new2 & pe2 & G2 & Hok2). destruct (Hok2 eq_refl) as (-> & -> & _).
      exists (new1 ++ [Consume batch]), None. split.
      * eapply Grown_sync; [|exact E]. apply (Grown_trans _ _ _ _ x1); [done|]. eapply Grown_weaken; [|exact G2]. intros k Hk. cbn.
        intros Hin. apply Hk. apply Hkn. rewrite <- Hd. apply elem_of_app. by right.
      * intros _. apply Hall. intros k. rewrite app_assoc. apply index_consumed.
  - case_bool_decide as Hb; [done|]. apply log_bind_inv in E2 as [([] & x3 & _ & [=])|(e' & E3 & _)].
    destruct (append_grown _ _ _ _ _ _ (gr_inv _ _ _ _ _ _ G1) Hp1 E3) as (new2 & pe2 & G2 & _). exists (new1 ++ new2), pe2. split; [|done].
    apply (Grown_trans _ _ _ _ x1); [done|]. eapply Grown_weaken; [|exact G2]. intros k Hk. cbn. intros Hin. apply Hk. apply Hkn. rewrite <- Hd. apply elem_of_app. by right.
Qed.

(** A call leaves the handle alone, or appends records that leave the spared
    paths alone; when it succeeds the observations are those of its specification. *)
Lemma call_grown c rs pending x r x' : LogInv rs pending x -> perform_log c x = (r, x') ->
  (r <> Ok tt /\ x' = x) \/
  (pending = None /\ exists new pending', Grown rs (fun k => spares k c) x new pending' x' /\ (r = Ok tt -> log_view x'.2 = log_spec c (log_view x.2))).
Proof.
  intros I E.
  assert (forall new pe, Grown rs (fun k => spares k c) x new pe x' -> (forall k, ob_preimage <$> index (rs ++ new) !! k = log_spec c (log_view x.2) !! k) ->
    log_view x'.2 = log_spec c (log_view x.2)) as Hview.
  { intros new pe G Hk. apply map_eq. intros k. rewrite <- Hk. unfold log_view. rewrite lookup_fmap, (li_observations _ _ _ (gr_inv _ _ _ _ _ _ G)). done. }
  assert (ls_poisoned x.2 = false -> pending = None /\ LogInv rs None x) as Hin by (intros Hp; by destruct (LogInv_intact _ _ _ I Hp)).
  assert (forall b x1, x1 = x -> log_if b sync x1 = (r, x') -> ls_poisoned x.2 = false -> log_spec c (log_view x.2) = log_view x.2 ->
    pending = None /\ exists new pending', Grown rs (fun k => spares k c) x new pending' x' /\ (r = Ok tt -> log_view x'.2 = log_spec c (log_view x.2))) as Hsync.
  { intros b x1 -> Es Hp Hsp. destruct (Hin Hp) as [-> I']. split; [done|]. assert (Grown rs (fun k => spares k c) x [] None x') as G by (eapply Grown_sync; [by apply Grown_refl|exact Es]).
    exists [], None. split; [done|]. intros _. apply (Hview _ _ G). intros k. rewrite Hsp, app_nil_r. unfold log_view. by rewrite lookup_fmap, (li_observations _ _ _ I). }
  destruct c as [|path durable|path durable fp|paths|preimage]; cbn [perform_log] in E.
  - apply transaction_inv in E as [(_ & -> & ->)|[Hp E]]; [by left|right]. by apply (Hsync true x).
  - apply log_bind_inv in E as [(b & x1 & E & [= <- <-])|(e & E & ->)]; apply log_bind_inv in E as [([] & x2 & [Hv ->]%lift_inv & E)|(e' & [_ ->]%lift_inv & E)]; try done; try by left.
    + apply transaction_inv in E as [(_ & [=] & _)|[Hp E]]. right. destruct x as [d st]. destruct (ls_observations st !! path).
      * apply log_bind_inv in E as [([] & x3 & E & [= _ <-])|(e & _ & [=])]. by eapply Hsync.
      * injection E as _ <-. by apply (Hsync false (d, st)).
    + apply transaction_inv in E as [(_ & _ & ->)|[Hp E]]; [by left|]. right. destruct x as [d st]. destruct (ls_observations st !! path); [|done].
      apply log_bind_inv in E as [([] & x3 & _ & [=])|(e' & E & [= <-])]. by eapply Hsync.
  - apply log_bind_inv in E as [([] & x2 & [Hv ->]%lift_inv & E)|(e & [_ ->]%lift_inv & ->)]; [|by left]. apply transaction_inv in E as [(_ & -> & ->)|[Hp E]]; [by left|].
    right. destruct x as [d st]. assert (log_view st !! path = ob_preimage <$> ls_observations st !! path) as Hlv by apply lookup_fmap.
    destruct (ls_observations st !! path) as [o|] eqn:Ho.
    + eapply Hsync; [done|exact E|done|]. cbn [log_spec snd]. by rewrite Hlv.
    + destruct (Hin Hp) as [-> I']. split; [done|]. destruct (append_grown _ _ _ _ _ _ I' Hp E) as (new & pe & G & Hok). exists new, pe.
      assert (Grown rs (fun k => spares k (CallPublish path durable fp)) (d, st) new pe x') as G' by (by eapply Grown_weaken; [|exact G]). split; [done|].
      intros Hr. destruct (Hok Hr) as (-> & _). apply (Hview _ _ G'). intros k. rewrite index_snoc. cbn [apply_log log_spec snd pp_path]. rewrite Hlv.
      pose proof (li_observations _ _ _ I) as Ho'. cbn [snd] in Ho'. rewrite <- Ho', Ho. cbn [fmap option_fmap option_map].
      destruct (decide (path = k)) as [->|Hne]; [by rewrite !lookup_insert_eq|]. rewrite !lookup_insert_ne by done. symmetry. apply lookup_fmap.
  - apply log_bind_inv in E as [([] & x2 & [Hv ->]%lift_inv & E)|(e & [_ ->]%lift_inv & ->)]; [|by left].
    destruct (ls_poisoned x.2) eqn:Hp; [apply transaction_inv in E as [(_ & -> & ->)|[? _]]; [by left|congruence]|]. right. destruct (Hin eq_refl) as [-> I']. split; [done|].
    destruct (consume_grown _ _ _ _ _ I' Hp E) as (new & pe & G & Hok). exists new, pe. split; [done|]. intros Hr. apply (Hview _ _ G). intros k. rewrite (Hok Hr).
    cbn [log_spec]. unfold log_view. rewrite (li_observations _ _ _ I). rewrite map_lookup_filter, lookup_fmap.
    destruct (decide (k ∈ paths)) as [Hk|Hk], (index rs !! k) as [o|]; cbn [fmap option_fmap option_map mbind option_bind]; try done; case_guard; done.
  - apply log_bind_inv in E as [([] & x2 & [Hv ->]%lift_inv & E)|(e & [_ ->]%lift_inv & ->)]; [|by left]. apply transaction_inv in E as [(_ & -> & ->)|[Hp E]]; [by left|].
    right. destruct (Hin Hp) as [-> I']. split; [done|]. destruct (append_grown _ _ _ _ _ _ I' Hp E) as (new & pe & G & Hok). exists new, pe. split; [done|].
    intros Hr. destruct (Hok Hr) as (-> & _). apply (Hview _ _ G). intros k. rewrite index_snoc. cbn [apply_log log_spec]. unfold log_view. rewrite (li_observations _ _ _ I).
    destruct (decide (pp_path preimage = k)) as [<-|Hne]; [by rewrite !lookup_insert_eq|]. rewrite !lookup_insert_ne by done. symmetry. apply lookup_fmap.
Qed.
End Facts.
