(* ===== verification/PreimageLogTheorems.v ===== *)
(** * What the compact journal promises

    The statements about opening, using and losing a log, and an instance of its
    interfaces on which they are run. *)
From stdpp Require Import base tactics list strings gmap pretty countable.
From Stdlib Require Import ZArith Lia Ascii.
From S2P Require Import Prelude RustStr FileAccess Bytes HostFs Overlay PreimageLog PreimageLogFacts.
Local Open Scope Z_scope.

Section Statements.
Context `{LogOps, !LogLaws}.

(** ** Opening *)

Lemma ok_pair_inv {E A B} (a b : A) (x y : B) : (Ok (E := E) a, x) = (Ok b, y) -> a = b /\ x = y.
Proof. by intros [= -> ->]. Qed.
Lemma sync_Ok x x' : sync x = (Ok tt, x') -> d_file x'.1 = d_file x.1 /\ x'.2 = set_synced (ls_cursor x.2) x.2.
Proof. destruct x as [d st]. unfold sync. destruct (next_outcome d) as [[|] os]; [|done]. by intros [= <-]. Qed.
Lemma sync_directory_Ok x x' : sync_directory x = (Ok tt, x') -> d_file x'.1 = d_file x.1 /\ x'.2 = x.2.
Proof. destruct x as [d st]. unfold sync_directory. destruct (next_outcome d) as [[|] os]; [|done]. by intros [= <-]. Qed.
(** Whatever fails, a log that opens has the records of its complete frames. *)
Lemma open_Ok rs tail os x : Forall good rs -> torn tail \/ tail = [] -> Z.of_nat (length (log_bytes rs ++ tail)) <= MAX_LOG ->
  open_log (mkDisk (log_bytes rs ++ tail) os) = (Ok tt, x) -> d_file x.1 = log_bytes rs /\ x.2 = opened rs.
Proof.
  intros Hrs Ht Hmax E. unfold open_log in E. apply log_bind_inv in E as [(len & x1 & E1 & E)|(e & _ & [=])]. rewrite open_magic_present in E1. apply ok_pair_inv in E1 as [<- <-].
  apply log_bind_inv in E as [([] & x2 & E2 & E)|(e & _ & [=])]. rewrite refresh_any in E2 by done.
  apply log_bind_inv in E as [([] & x3 & [F3 S3]%sync_Ok & [F4 S4]%sync_directory_Ok)|(e & _ & [=])].
  assert (d_file x2.1 = log_bytes rs /\ set_synced (ls_cursor x2.2) x2.2 = opened rs) as [F2 S2]; [|split; congruence].
  case_bool_decide as Hn.
  - apply ok_pair_inv in E2 as [_ <-]. subst tail. cbn [d_file fst snd]. by rewrite app_nil_r.
  - apply log_bind_inv in E2 as [([] & x5 & E5 & [F6 S6]%sync_Ok)|(e & _ & [=])]. unfold set_len in E5. cbn [d_file ls_cursor replayed] in E5.
    destruct (next_outcome _) as [[|] os']; [|done]. apply ok_pair_inv in E5 as [_ <-]. rewrite F6, S6. cbn [fst snd d_file].
    rewrite resize_to_prefix by (unfold log_end; lia). done.
Qed.
Lemma open_fresh_Ok os x : open_log (mkDisk [] os) = (Ok tt, x) -> d_file x.1 = log_bytes [] /\ x.2 = opened [].
Proof.
  intros E. unfold open_log in E. apply log_bind_inv in E as [(len & x1 & E1 & E)|(e & _ & [=])]. unfold open_magic in E1. cbn [d_file] in E1.
  rewrite bool_decide_eq_true_2 in E1 by done. destruct (next_outcome _) as [[|] os']; [|done]. apply ok_pair_inv in E1 as [<- <-].
  apply (open_Ok [] [] os'); [done|by right|done|]. unfold open_log. unfold mbind, log_bind. rewrite open_magic_present. exact E.
Qed.

(** C29: Opening a log restores exactly the records whose frames are complete: the
    observations are those of replaying the records, the beginning of a broken
    last frame is cut off, and everything that is left is synced. An empty file
    becomes an empty log. *)
Theorem log_recovers rs tail : Forall good rs -> torn tail \/ tail = [] -> Z.of_nat (length (log_bytes rs ++ tail)) <= MAX_LOG ->
  open_log (mkDisk (log_bytes rs ++ tail) []) = (Ok tt, (mkDisk (log_bytes rs) [], opened rs)) /\
  open_log (mkDisk [] []) = (Ok tt, (mkDisk (log_bytes []) [], opened [])).
Proof. intros Hrs Ht Hmax. split; [by apply open_recovers|apply open_empty]. Qed.

(** ** Using *)

Lemma call_view c rs pending x x' : LogInv rs pending x -> perform_log c x = (Ok tt, x') -> log_view x'.2 = log_spec c (log_view x.2).
Proof. intros I E. destruct (call_grown _ _ _ _ _ _ I E) as [[? _]|(_ & new & pe & _ & Hv)]; [done|by apply Hv]. Qed.
(** C30: A call that succeeds changes the map of observations as specified: a
    published observation is added unless the path has one, consumed paths are
    removed, the baseline of an applied directory replaces its observation, and
    nothing else changes. *)
Theorem log_refines_map c rs pending x x' : LogInv rs pending x -> perform_log c x = (Ok tt, x') -> log_view x'.2 = log_spec c (log_view x.2).
Proof. apply call_view. Qed.

(** A crash cuts the file anywhere behind what was synced. *)
Definition crashed (x : Disk * LogState) (n : Z) : list Z := take (Z.to_nat n) (d_file x.1).
(** The handles that a stage can come to: a fresh log, a call on a handle whatever
    its outcome, and reopening after a crash. *)
Inductive log_reachable : Disk * LogState -> Prop :=
| reachable_fresh os x : open_log (mkDisk [] os) = (Ok tt, x) -> log_reachable x
| reachable_call x c r x' : log_reachable x -> perform_log c x = (r, x') -> log_reachable x'
| reachable_crash x n os x' : log_reachable x -> ls_synced x.2 <= n -> open_log (mkDisk (crashed x n) os) = (Ok tt, x') -> log_reachable x'.

(** The records of a file with the one whose write broke. *)
Definition written (rs : list LogRecord) (pending : option (LogRecord * nat)) : list LogRecord :=
  rs ++ match pending with None => [] | Some (r, _) => [r] end.
Lemma crash_cut rs pending x n : LogInv rs pending x -> ls_synced x.2 <= n -> exists rs' tail,
  crashed x n = log_bytes rs' ++ tail /\ (torn tail \/ tail = []) /\ Forall good rs' /\ rs' `prefix_of` written rs pending /\
  (forall rs1, rs1 `prefix_of` rs -> log_end rs1 <= ls_synced x.2 -> rs1 `prefix_of` rs') /\ Z.of_nat (length (log_bytes rs' ++ tail)) <= MAX_LOG.
Proof.
  intros [Hg Hf Hp Hc Ho Hs Hm] Hn.
  assert (exists m, ls_synced x.2 <= m /\ crashed x n = take (Z.to_nat m) (log_bytes (written rs pending)) /\ m <= MAX_LOG) as (m & Hm1 & Hcr & Hm2).
  { unfold crashed. rewrite Hf. destruct pending as [[r k]|]; cbn [tail_of from_option written].
    - exists (Z.min n (log_end rs + Z.of_nat (Nat.min k (length (frame r))))). rewrite log_end_snoc in Hm. split_and!; [lia| |lia].
      unfold written. rewrite log_bytes_snoc. unfold log_end. destruct (decide (n <= Z.of_nat (length (log_bytes rs)) + Z.of_nat (Nat.min k (length (frame r))))).
      + rewrite Z.min_l by done. rewrite !take_app, take_take. do 2 f_equal. lia.
      + rewrite Z.min_r by lia. rewrite take_ge by (rewrite length_app, length_take; lia). rewrite take_app, (take_ge (log_bytes rs)) by lia. f_equal.
        destruct (decide (k <= length (frame r))%nat); [f_equal; lia|]. rewrite !take_ge by lia. done.
    - unfold written. rewrite !app_nil_r. exists (Z.min n (log_end rs)). split_and!; [lia| |lia].
      destruct (decide (n <= log_end rs)); [by rewrite Z.min_l|]. rewrite Z.min_r by lia. rewrite !take_ge; [done|unfold log_end in *; lia..]. }
  assert (Forall good (written rs pending)) as Hgw.
  { unfold written. apply Forall_app. split; [done|]. destruct pending as [[r k]|]; [|done]. constructor; [by destruct Hp|done]. }
  destruct (cut_file _ m Hgw ltac:(lia)) as (rs' & tail & Hcut & Ht & Hpre & Hmax). exists rs', tail. split_and!; [congruence|done| |done| |].
  - destruct Hpre as [l Hl]. rewrite Hl in Hgw. by apply Forall_app in Hgw as [? _].
  - intros rs1 Hp1 Hle. apply Hmax; [|lia]. unfold written. by apply prefix_app_r.
  - rewrite <- Hcut. rewrite length_take. unfold MAX_LOG in *. lia.
Qed.

Lemma reachable_sound x : log_reachable x -> exists rs pending, LogInv rs pending x.
Proof.
  assert (forall x rs, d_file x.1 = log_bytes rs -> x.2 = opened rs -> Forall good rs -> log_end rs <= MAX_LOG -> LogInv rs None x) as Hopened.
  { intros [d st] rs Hf Hst Hg Hm. cbn in Hst. subst st. destruct (opened_inv rs Hg Hm) as [? _ ? ? ? ? ?]. constructor; try done. cbn [tail_of from_option]. by rewrite app_nil_r. }
  induction 1 as [os x E|x c r x' _ (rs & pe & I) E|x n os x' _ (rs & pe & I) Hn E].
  - apply open_fresh_Ok in E as [F S]. exists [], None. by apply Hopened.
  - destruct (call_grown _ _ _ _ _ _ I E) as [[_ ->]|(-> & new & pe' & [I' _ _ _] & _)]; eauto.
  - destruct (crash_cut _ _ _ _ I Hn) as (rs' & tail & Hcr & Ht & Hg & _ & _ & Hm). rewrite Hcr in E. apply open_Ok in E as [F S]; [|done..].
    exists rs', None. apply Hopened; [done..|]. rewrite length_app in Hm. unfold log_end. lia.
Qed.
(** Every handle that a stage can come to, through any calls, failures, crashes
    and reopenings, is sound: the file is the magic and the frames of valid
    records, followed by the beginning of a frame only when the handle refuses to
    go on; the cursor, the observations and their ends are those of the records;
    and no more is taken for synced than was written. *)
Theorem log_handles_sound x : log_reachable x -> exists rs pending, LogInv rs pending x.
Proof. apply reachable_sound. Qed.

(** Calls one after the other, whatever their outcomes. *)
Inductive log_history : Disk * LogState -> list LogCall -> Disk * LogState -> Prop :=
| log_history_nil x : log_history x [] x
| log_history_cons x c r x1 cs x' : perform_log c x = (r, x1) -> log_history x1 cs x' -> log_history x (c :: cs) x'.
(** The observation of [k] is synced and stands in all that is written. *)
Definition fixed (k : string) (o : Observation) (x : Disk * LogState) : Prop :=
  exists rs pending, LogInv rs pending x /\ stands (written rs pending) k o /\ ob_end o <= ls_synced x.2.
Lemma fixed_call k o c x r x' : fixed k o x -> spares k c -> perform_log c x = (r, x') -> fixed k o x'.
Proof.
  intros (rs & pe & I & Hst & He) Hc E. destruct (call_grown _ _ _ _ _ _ I E) as [[_ ->]|(-> & new & pe' & [I' Hs Hn Hp] & _)]; [by exists rs, pe|].
  exists (rs ++ new), pe'. split_and!; [done| |lia]. unfold written in *. rewrite app_nil_r in Hst. rewrite <- app_assoc. apply stands_keeps; [done|pose proof (li_synced _ _ _ I); lia|].
  apply Forall_app. split; [by apply Hn|]. specialize (Hp k Hc). destruct pe' as [[]|]; [by constructor|done].
Qed.
Lemma fixed_history k o x cs x' : fixed k o x -> log_history x cs x' -> Forall (spares k) cs -> fixed k o x'.
Proof. intros Hf Hh. induction Hh as [|x c r x1 cs x' E _ IH]; [done|]. intros [Hc Hcs]%Forall_cons_1. apply IH; [by apply (fixed_call k o c x r)|done]. Qed.
Lemma fixed_crash k o x n os x' : fixed k o x -> ls_synced x.2 <= n -> open_log (mkDisk (crashed x n) os) = (Ok tt, x') -> ls_observations x'.2 !! k = Some o.
Proof.
  intros (rs & pe & I & [(rs0 & Hp0 & He0) Hst] & He) Hn E. destruct (crash_cut _ _ _ _ I Hn) as (rs' & tail & Hcr & Ht & Hg & Hpre & Hmax & Hm).
  rewrite Hcr in E. apply open_Ok in E as [F S]; [|done..]. rewrite S. cbn. apply Hst; [done|].
  assert (rs0 `prefix_of` rs) as Hp0'.
  { unfold written in Hp0. destruct pe as [[r k']|]; [|by rewrite app_nil_r in Hp0]. apply prefix_snoc_cases in Hp0 as [->|]; [|done].
    exfalso. pose proof (li_synced _ _ _ I) as Hs. rewrite log_end_snoc, length_frame in He0. lia. }
  rewrite <- He0. apply prefix_end. apply Hmax; [done|lia].
Qed.
(** What is known already is synced before it is acknowledged. *)
Lemma known_fixed k o rs x x1 : LogInv rs None x -> ls_observations x.2 !! k = Some o -> log_if (true && (ls_synced x.2 <? ob_end o)) sync x = (Ok tt, x1) ->
  fixed k o x1 /\ log_view x1.2 = log_view x.2.
Proof.
  intros I Ho E. destruct (log_if_sync_inv _ _ _ _ _ _ I E) as (I1 & Hs & Hok & _). destruct (Hok eq_refl) as [Hsync _].
  rewrite (li_observations _ _ _ I) in Ho. split.
  - exists rs, None. split_and!; [done|unfold written; rewrite app_nil_r; by apply index_stands|]. destruct (_ && _) eqn:Hb.
    + rewrite (Hsync eq_refl), (li_cursor _ _ _ I1). destruct (index_stands _ _ _ Ho) as [(rs0 & Hp0%prefix_end & <-) _]. done.
    + cbn in Hb. apply Z.ltb_ge in Hb. lia.
  - unfold log_view. by rewrite (li_observations _ _ _ I1), (li_observations _ _ _ I).
Qed.
Lemma promoted_fixed k rs pending x x1 : LogInv rs pending x -> contains_or_promote k true x = (Ok true, x1) ->
  exists o, fixed k o x1 /\ log_view x.2 !! k = Some (ob_preimage o).
Proof.
  intros I E. unfold contains_or_promote in E. apply log_bind_inv in E as [([] & x2 & [_ ->]%lift_inv & E)|(e & _ & [=])].
  apply transaction_inv in E as [(_ & [=] & _)|[Hp E]]. pose proof (LogInv_intact _ _ _ I Hp) as ->. destruct x as [d st].
  destruct (ls_observations st !! k) as [o|] eqn:Eo; [|done]. exists o. apply log_bind_inv in E as [([] & x2 & E & [= <-])|(e & _ & [=])]. split.
  - exact (proj1 (known_fixed k o rs (d, st) x2 I Eo E)).
  - unfold log_view. cbn [snd]. by rewrite lookup_fmap, Eo.
Qed.
Lemma published_fixed k fp rs pending x x1 : LogInv rs pending x -> publish_observation k true fp x = (Ok tt, x1) ->
  exists o, fixed k o x1 /\ ob_preimage o = default (mkPreimage k fp) (log_view x.2 !! k).
Proof.
  intros I E. pose proof (call_view (CallPublish k true fp) _ _ _ _ I E) as Hv. cbn [log_spec] in Hv.
  assert (exists o, ls_observations x1.2 !! k = Some o /\ ob_preimage o = default (mkPreimage k fp) (log_view x.2 !! k)) as (o & Ho & Hpre).
  { assert (log_view x1.2 !! k = Some (default (mkPreimage k fp) (log_view x.2 !! k))) as Hk.
    { rewrite Hv. destruct (log_view x.2 !! k) eqn:Ek; cbn; [done|by rewrite lookup_insert_eq]. }
    unfold log_view in Hk at 1. apply lookup_fmap_Some in Hk as (o & Hp & Ho). eauto. }
  unfold publish_observation in E. apply log_bind_inv in E as [([] & x2 & [_ ->]%lift_inv & E)|(e & _ & [=])].
  apply transaction_inv in E as [(_ & [=] & _)|[Hp E]]. pose proof (LogInv_intact _ _ _ I Hp) as ->. exists o. split; [|done]. destruct x as [d st]. destruct (ls_observations st !! k) as [o'|] eqn:Eo.
  - destruct (known_fixed k o' rs (d, st) x1 I Eo E) as [(rs1 & pe1 & I1 & Hst & He) _]. assert (o' = o) as ->; [|by exists rs1, pe1].
    destruct (log_if_sync_inv _ _ _ _ _ _ I E) as (I2 & _). rewrite (li_observations _ _ _ I2) in Ho. rewrite (li_observations _ _ _ I : ls_observations st = _) in Eo. congruence.
  - destruct (append_grown _ _ _ _ _ _ I Hp E) as (new & pe & G & Hok). destruct (Hok eq_refl) as (-> & -> & _ & Hsync). pose proof (gr_inv _ _ _ _ _ _ G) as I1.
    exists (rs ++ [Observe (mkPreimage k fp)]), None. rewrite (li_observations _ _ _ I1) in Ho. split_and!; [done|unfold written; rewrite app_nil_r; by apply index_stands|].
    rewrite (Hsync eq_refl), (li_cursor _ _ _ I1). destruct (index_stands _ _ _ Ho) as [(rs0 & Hp0%prefix_end & <-) _]. done.
Qed.

(** A durable observation of [k] is acknowledged: a candidate is published, or the
    question whether one is on record is answered with yes. *)
Definition acknowledged (k : string) (candidate : option PathFingerprint) (x x1 : Disk * LogState) : Prop :=
  match candidate with
  | Some fp => publish_observation k true fp x = (Ok tt, x1)
  | None => contains_or_promote k true x = (Ok true, x1)
  end.
(** The first observation: the one that was there, or else the candidate. *)
Definition first_observation (k : string) (candidate : option PathFingerprint) (x : Disk * LogState) : option PathPreimage :=
  match log_view x.2 !! k with Some v => Some v | None => mkPreimage k <$> candidate end.

(** C28: Once a handle that is sound, as all are that a stage can come to, acknowledges a
    durable observation of a path, by publishing it or by the answer that it is on
    record already, it is there after any further calls that
    do not take it away, whatever their outcomes, and a crash that cuts the file
    anywhere behind what was synced: what is left can be opened, and a log that
    opens on it has the path with its first observation. *)
Theorem durable_observation_survives k candidate rs pending x x1 cs x2 n : LogInv rs pending x ->
  acknowledged k candidate x x1 -> log_history x1 cs x2 -> Forall (spares k) cs -> ls_synced x2.2 <= n ->
  (exists x3, open_log (mkDisk (crashed x2 n) []) = (Ok tt, x3)) /\
  (exists v, first_observation k candidate x = Some v /\
     forall os x3, open_log (mkDisk (crashed x2 n) os) = (Ok tt, x3) -> log_view x3.2 !! k = Some v).
Proof.
  intros I E Hh Hs Hn.
  assert (exists o, fixed k o x1 /\ first_observation k candidate x = Some (ob_preimage o)) as (o & Hf & Hpre).
  { unfold first_observation. destruct candidate as [fp|]; cbn [acknowledged] in E.
    - destruct (published_fixed _ _ _ _ _ _ I E) as (o & Hf & Hp). exists o. split; [done|]. rewrite Hp. by destruct (log_view x.2 !! k).
    - destruct (promoted_fixed _ _ _ _ _ I E) as (o & Hf & Ho). exists o. split; [done|]. by rewrite Ho. }
  pose proof (fixed_history _ _ _ _ _ Hf Hh Hs) as Hf2. split.
  - destruct Hf2 as (rs2 & pe2 & I2 & _). destruct (crash_cut _ _ _ _ I2 Hn) as (rs' & tail & -> & Ht & Hg & _ & _ & Hm). eexists. by apply open_recovers.
  - exists (ob_preimage o). split; [done|]. intros os x3 Eo. unfold log_view at 1. by rewrite lookup_fmap, (fixed_crash _ _ _ _ _ _ Hf2 Hn Eo).
Qed.

(** ** Sizes *)

Definition batch_size (batch : list string) : Z := 128 + Z.of_nat (sum_list_with (fun p => String.length p * 4 + 3)%nat batch).
Lemma valid_paths_fit paths : for_each validate_path paths <> Err LogTooLarge.
Proof.
  induction paths as [|p paths IH]; [done|]. cbn [for_each]. destruct (validate_path p) as [[]|e] eqn:Ep; [done|]. intros [= ->]. unfold validate_path in Ep.
  destruct (relative_key p); [|done]. cbn in Ep. by destruct (contains _ _).
Qed.
Lemma append_fits batch durable x r x' : batch_size batch <= MAX_RECORD -> append_log (Consume batch) durable x = (r, x') -> r <> Err LogTooLarge.
Proof.
  intros Hb E. unfold append_log in E. apply log_bind_inv in E as [([] & x1 & [_ ->]%lift_inv & E)|(e & [Hv _]%lift_inv & ->)].
  - apply log_bind_inv in E as [([] & x2 & [_ ->]%lift_inv & E)|(e & [He _]%lift_inv & _)].
    + apply log_bind_inv in E as [([] & x3 & _ & E)|(e & E & ->)].
      * destruct durable; [|by injection E as <- <-]. destruct x3 as [d st]. cbn [log_if] in E. unfold sync in E. by destruct (next_outcome d) as [[|] os]; injection E as <- <-.
      * destruct x as [d st]. unfold write_frame in E. destruct (_ <? _); [by injection E as <- <-|]. by destruct (next_outcome d) as [[|] os]; injection E as <- <-.
    + exfalso. pose proof (log_consume_size batch) as Hs. pose proof (log_encode_nonempty (Consume batch)) as Hne. fold (batch_size batch) in Hs.
      rewrite bool_decide_eq_false_2 in He by done. replace (MAX_RECORD <? _) with false in He by (symmetry; apply Z.ltb_ge; lia). done.
  - intros [= ->]. symmetry in Hv. exact (valid_paths_fit batch Hv).
Qed.
Lemma consume_loop_fits paths batch appended x r x' : batch_size batch <= MAX_RECORD -> consume_loop paths batch (batch_size batch) appended x = (r, x') ->
  r <> Err LogTooLarge /\ (forall batch' appended', r = Ok (batch', appended') -> batch_size batch' <= MAX_RECORD).
Proof.
  revert batch appended x. induction paths as [|p paths IH]; intros batch appended x Hb E; cbn [consume_loop] in E.
  { injection E as <- <-. split; [done|]. by intros ? ? [= <- _]. }
  assert (forall b, batch_size (b ++ [p]) = batch_size b + path_bytes p) as Hsnoc.
  { intros b. unfold batch_size, path_bytes. rewrite sum_list_with_app. cbn [sum_list_with]. lia. }
  destruct (_ || _) eqn:Hlong; [injection E as <- <-; done|]. apply orb_false_iff in Hlong as [_ Hlong%Z.ltb_ge].
  destruct (MAX_RECORD <? _) eqn:Hover; [|apply Z.ltb_ge in Hover; rewrite <- Hsnoc in E, Hover; by apply (IH _ _ _ Hover E)].
  apply log_bind_inv in E as [([] & x1 & _ & E)|(e & E & ->)].
  - assert (batch_size [p] = 128 + path_bytes p) as Hone by exact (Hsnoc []). rewrite <- Hone in E. refine (IH _ _ _ _ E). lia.
  - split; [|done]. intros [= ->]. exact (append_fits _ _ _ _ _ Hb E eq_refl).
Qed.
(** However many paths are consumed at once, they are cut into records that fit:
    consuming never fails because a record is too large. *)
Theorem consumed_batches_fit paths x : (consume paths x).1 <> Err LogTooLarge.
Proof.
  destruct (consume paths x) as [r x'] eqn:E. cbn. unfold consume in E. apply log_bind_inv in E as [([] & x1 & [_ ->]%lift_inv & E)|(e & [Hv _]%lift_inv & ->)].
  - apply transaction_inv in E as [(_ & -> & _)|[_ E]]; [done|]. destruct x as [d st]. apply log_bind_inv in E as [([batch appended] & x2 & E2 & E)|(e & E2 & ->)];
      (destruct (consume_loop_fits _ [] false _ _ _ ltac:(done) E2) as [Hne Hfit]); [|intros [= ->]; done]. specialize (Hfit _ _ eq_refl).
    apply log_bind_inv in E as [(b & x3 & E3 & E)|(e & E3 & ->)].
    + destruct b; [|by injection E as <- <-]. destruct x3 as [d3 st3]. cbn [log_if] in E. unfold sync in E. by destruct (next_outcome d3) as [[|] os]; injection E as <- <-.
    + case_bool_decide; [done|]. apply log_bind_inv in E3 as [([] & x4 & _ & [=])|(e' & E3 & [= <-])]. intros [= ->]. exact (append_fits _ _ _ _ _ Hfit E3 eq_refl).
  - intros [= ->]. symmetry in Hv. exact (valid_paths_fit paths Hv).
Qed.

(** ** Damage *)

Lemma read_exact_byte pos n file bytes : Forall is_byte file -> read_exact_at pos n file = Ok bytes -> Forall is_byte bytes.
Proof.
  unfold read_exact_at. destruct (_ <? _)%nat; [done|]. intros Hf [= <-]. by apply Forall_take, Forall_drop.
Qed.
Lemma next_frame_end file cursor len r end_ : Forall is_byte file -> next_frame file cursor len = Ok (Some (r, end_)) -> cursor < end_.
Proof.
  intros Hf. unfold next_frame. intros (header & Hh & E)%bind_Ok. apply bind_Ok in E as ([] & _ & E). destruct (_ <? _)%nat; [done|].
  destruct (_ <? _); [done|]. apply bind_Ok in E as (body & _ & E). apply bind_Ok in E as (ex & _ & E). apply bind_Ok in E as ([] & _ & E).
  apply bind_Ok in E as (rec & _ & E). apply bind_Ok in E as ([] & _ & [= _ <-]).
  pose proof (from_le_bytes_bound (take 4 (drop 4 header)) ltac:(apply Forall_take, Forall_drop; by eapply read_exact_byte)). unfold HEADER, DIGEST. lia.
Qed.
(** Replaying keeps the file, or cuts off an incomplete frame. *)
Definition only_cut (file file' : list Z) : Prop :=
  file' = file \/ exists c, 0 <= c < Z.of_nat (length file) /\ file' = take (Z.to_nat c) file /\ next_frame file c (Z.of_nat (length file)) = Ok None.
Lemma refresh_only_cuts fuel d st r x' : Forall is_byte (d_file d) -> 0 <= ls_cursor st ->
  refresh_n fuel true (Z.of_nat (length (d_file d))) (d, st) = (r, x') -> only_cut (d_file d) (d_file x'.1).
Proof.
  intros Hf. revert st. induction fuel as [|fuel IH]; intros st Hc E; cbn [refresh_n] in E; (destruct (_ <? _) eqn:Hlt; [|injection E as _ <-; by left]).
  { injection E as _ <-. by left. }
  apply Z.ltb_lt in Hlt. destruct (next_frame _ _ _) as [[[record end_]|]|e] eqn:En; [|clear IH|injection E as _ <-; by left].
  - apply next_frame_end in En; [|done]. refine (IH _ _ E). cbn. lia.
  - apply log_bind_inv in E as [([] & x1 & E1 & E)|(e & E1 & _)]; unfold set_len in E1; destruct (next_outcome d) as [[|] os]; try discriminate E1.
    + apply ok_pair_inv in E1 as [_ <-]. right. exists (ls_cursor st). split_and!; [lia|lia| |done].
      unfold sync in E. destruct (next_outcome _) as [[|] os']; injection E as _ <-; cbn [d_file fst]; by rewrite resize_le by lia.
    + injection E1 as _ <-. by left.
Qed.
(** Opening a file that is not empty, whatever it holds and whichever calls
    fail, either leaves its bytes alone or cuts off an incomplete last frame whose
    bytes are those of a valid header. A complete frame that is damaged is never
    dropped. *)
Theorem opening_only_cuts d r x' : Forall is_byte (d_file d) -> d_file d <> [] -> open_log d = (r, x') -> only_cut (d_file d) (d_file x'.1).
Proof.
  intros Hf Hne E. unfold open_log in E. apply log_bind_inv in E as [(len & x1 & E1 & E)|(e & E1 & _)]; unfold open_magic in E1; rewrite bool_decide_eq_false_2 in E1 by done.
  2: { injection E1 as _ <-. by left. }
  assert (len = Z.of_nat (length (d_file d)) /\ x1 = (d, initial_state)) as [-> ->].
  { destruct (read_exact_at _ _ _) as [magic|]; [|done]. cbn [mbind result_bind] in E1. destruct (bool_decide _); [|done]. cbn [ensure mbind result_bind] in E1.
    by apply ok_pair_inv in E1 as [<- <-]. }
  assert (forall x y r, sync x = (r, y) -> d_file y.1 = d_file x.1) as Hsync.
  { intros [d0 st0] y r0. unfold sync. by destruct (next_outcome d0) as [[|] os]; intros [= _ <-]. }
  assert (forall r x2, refresh true (Z.of_nat (length (d_file d))) (d, initial_state) = (r, x2) -> only_cut (d_file d) (d_file x2.1)) as Hr.
  { intros r2 x2 E2. unfold refresh in E2. destruct (_ || _); [injection E2 as _ <-; by left|]. eapply refresh_only_cuts; [done| |exact E2]. cbn. lia. }
  apply log_bind_inv in E as [([] & x2 & E2 & E)|(e & E2 & _)]; [|exact (Hr _ _ E2)].
  apply log_bind_inv in E as [([] & x3 & E3 & E)|(e & E3 & _)]; [|rewrite (Hsync _ _ _ E3); exact (Hr _ _ E2)].
  assert (d_file x'.1 = d_file x3.1) as ->; [|rewrite (Hsync _ _ _ E3); exact (Hr _ _ E2)].
  destruct x3 as [d3 st3]. unfold sync_directory in E. by destruct (next_outcome d3) as [[|] os]; injection E as _ <-.
Qed.

(** C31: When the creation of a log breaks after some bytes of the magic, the file
    that is left can never be opened again: reading the magic fails, and the file
    is not empty. *)
Theorem torn_creation_never_opens n os : (0 < n < length LOG_MAGIC)%nat ->
  open_log (mkDisk [] [Breaks n]) = (Err LogIo, (mkDisk (take n LOG_MAGIC) [], initial_state)) /\
  open_log (mkDisk (take n LOG_MAGIC) os) = (Err LogEof, (mkDisk (take n LOG_MAGIC) os, initial_state)).
Proof.
  intros Hn. split; unfold open_log, mbind, log_bind, open_magic; cbn [d_file next_outcome d_outcomes].
  - rewrite bool_decide_eq_true_2 by done. rewrite write_at_end by done. done.
  - rewrite bool_decide_eq_false_2; [|by destruct n; [lia|]]. unfold read_exact_at. rewrite drop_0.
    replace (_ <? _)%nat with true by (symmetry; apply Nat.ltb_lt; rewrite !length_take; lia). done.
Qed.

(** ** Reading *)

Lemma read_replays complete rs tail : Forall good rs -> torn tail \/ tail = [] -> Z.of_nat (length (log_bytes rs ++ tail)) <= MAX_LOG ->
  read_prefix complete (log_bytes rs ++ tail) =
  if negb complete || bool_decide (tail = []) then Ok (sorted_observations (opened rs)) else Err LogInvalid.
Proof.
  intros Hrs Ht Hmax. pose proof (log_end_count rs) as Hc. unfold log_end in Hc. unfold read_prefix.
  assert (read_exact_at 0 (length LOG_MAGIC) (log_bytes rs ++ tail) = Ok LOG_MAGIC) as ->.
  { unfold log_bytes. rewrite <- app_assoc. by apply (read_there 0 _ [] LOG_MAGIC). }
  cbn [mbind result_bind]. rewrite bool_decide_eq_true_2 by done. cbn [ensure mbind result_bind]. unfold refresh. cbn [ls_cursor initial_state d_file].
  replace (_ || _) with false.
  2: { symmetry. apply orb_false_iff. split; [|apply Z.ltb_ge; lia]. apply Z.ltb_ge. rewrite length_app. change (length LOG_MAGIC) with 19%nat. lia. }
  rewrite (refresh_replays _ false [] rs tail [] initial_state); [|done|done|rewrite length_app; lia|done|done]. cbn [app].
  assert ((ls_cursor (replayed rs initial_state) =? Z.of_nat (length (log_bytes rs ++ tail))) = bool_decide (tail = [])) as Heq.
  { cbn [ls_cursor replayed]. unfold log_end. rewrite length_app. case_bool_decide as Hn; [subst; apply Z.eqb_eq; cbn [length]; lia|]. apply Z.eqb_neq. destruct tail; [done|]. cbn [length]. lia. }
  destruct (bool_decide (tail = [])); cbn [mbind result_bind]; rewrite Heq; by destruct complete.
Qed.
(** A reader beside the log sees the observations that opening it would give,
    without touching the file; sealing refuses a file with a broken last frame. *)
Theorem readers_agree rs tail : Forall good rs -> torn tail \/ tail = [] -> Z.of_nat (length (log_bytes rs ++ tail)) <= MAX_LOG ->
  read_log (log_bytes rs ++ tail) = Ok (sorted_observations (open_log (mkDisk (log_bytes rs ++ tail) [])).2.2) /\
  (read_complete (log_bytes rs ++ tail) = Ok (sorted_observations (opened rs)) <-> tail = []).
Proof.
  intros Hrs Ht Hmax. rewrite open_recovers by done. unfold read_log, read_complete. rewrite !read_replays by done. cbn [negb orb snd]. split; [done|].
  case_bool_decide; done.
Qed.
End Statements.

(** * A concrete journal

    An encoding of records that has the properties the journal relies on: paths
    of a consumption byte by byte, observations through their code as a number.
    The statements above are run on it. *)

(** ** Observations as numbers *)

#[export] Instance xattr_fingerprint_countable : Countable XattrFingerprint.
Proof.
  apply (inj_countable' (fun x => match x with XattrUnsupported => None | XattrValues entries => Some entries end)
    (fun o => match o with None => XattrUnsupported | Some entries => XattrValues entries end)). by intros [].
Defined.
Definition fp_code (f : PathFingerprint) : nat * list string * list Z * option XattrFingerprint :=
  match f with
  | FpAbsent => (0%nat, [], [], None)
  | FpFile s m u g x => (1%nat, [s], [m; u; g], x)
  | FpDirectory m u g t n x => (2%nat, [], [m; u; g; t; n], x)
  | FpSymlink s u g x => (3%nat, [s], [u; g], x)
  | FpOther m u g r x => (4%nat, [], [m; u; g; r], x)
  end.
Definition fp_decode (c : nat * list string * list Z * option XattrFingerprint) : PathFingerprint :=
  match c with
  | (1%nat, [s], [m; u; g], x) => FpFile s m u g x
  | (2%nat, [], [m; u; g; t; n], x) => FpDirectory m u g t n x
  | (3%nat, [s], [u; g], x) => FpSymlink s u g x
  | (4%nat, [], [m; u; g; r], x) => FpOther m u g r x
  | _ => FpAbsent
  end.
#[export] Instance path_fingerprint_countable : Countable PathFingerprint.
Proof. apply (inj_countable' fp_code fp_decode). by intros []. Defined.

Fixpoint bits (p : positive) : list Z := match p with xH => [2] | xO p => 0 :: bits p | xI p => 1 :: bits p end.
Fixpoint of_bits (l : list Z) : option positive :=
  match l with
  | [] => None
  | b :: l => if b =? 0 then xO <$> of_bits l else if b =? 1 then xI <$> of_bits l else Some xH
  end.
Lemma of_bits_bits p : of_bits (bits p) = Some p.
Proof. induction p as [p IH|p IH|]; cbn; rewrite ?IH; done. Qed.

(** ** Paths *)

Definition put_byte (c : ascii) : list Z := [1; byte_val c].
Definition put_path (s : string) : list Z := (to_bytes s ≫= put_byte) ++ [0].
Fixpoint get_path (acc : list ascii) (l : list Z) : option (string * list Z) :=
  match l with
  | 1 :: b :: l => get_path (acc ++ [ascii_of_nat (Z.to_nat b)]) l
  | 0 :: l => Some (of_bytes acc, l)
  | _ => None
  end.
Fixpoint get_paths (fuel : nat) (l : list Z) : option (list string) :=
  match l, fuel with
  | [], _ => Some []
  | _, O => None
  | _, S fuel => '(p, l) ← get_path [] l; (p ::.) <$> get_paths fuel l
  end.
Lemma byte_val_back c : ascii_of_nat (Z.to_nat (byte_val c)) = c.
Proof. unfold byte_val. rewrite <- N_nat_Z, Nat2Z.id. apply ascii_nat_embedding. Qed.
Lemma get_path_put acc s rest : get_path acc (put_path s ++ rest) = Some (of_bytes (acc ++ to_bytes s), rest).
Proof.
  unfold put_path. generalize (to_bytes s). intros l. revert acc. induction l as [|c l IH]; intros acc.
  - cbn. by rewrite app_nil_r.
  - change ((c :: l) ≫= put_byte) with (put_byte c ++ (l ≫= put_byte)). unfold put_byte at 1. cbn [app get_path]. rewrite byte_val_back.
    rewrite IH. by rewrite <- app_assoc.
Qed.
Lemma put_path_length s : length (put_path s) = (2 * String.length s + 1)%nat.
Proof.
  unfold put_path. rewrite length_app, <- length_to_bytes. cbn [length]. generalize (to_bytes s). intros l.
  induction l as [|c l IH]; [done|]. change ((c :: l) ≫= put_byte) with (put_byte c ++ (l ≫= put_byte)). rewrite length_app. cbn [length put_byte]. lia.
Qed.
Lemma get_paths_put paths fuel : (length paths <= fuel)%nat -> get_paths fuel (paths ≫= put_path) = Some paths.
Proof.
  revert fuel. induction paths as [|p paths IH]; intros fuel Hf; [by destruct fuel|]. destruct fuel as [|fuel]; [cbn in Hf; lia|].
  change ((p :: paths) ≫= put_path) with (put_path p ++ (paths ≫= put_path)). cbn [get_paths].
  destruct (put_path p ++ (paths ≫= put_path)) as [|z l] eqn:E.
  { apply (f_equal length) in E. rewrite length_app, put_path_length in E. cbn in E. lia. }
  rewrite <- E, get_path_put. cbn. rewrite of_to_bytes, IH by (cbn in Hf; lia). done.
Qed.

(** ** The instance *)

Definition plain_encode (r : LogRecord) : list Z :=
  match r with
  | Observe p => 0 :: bits (encode (pp_path p, pp_state p))
  | Consume paths => 1 :: (paths ≫= put_path)
  | DirectoryBaseline p => 2 :: bits (encode (pp_path p, pp_state p))
  end.
Definition plain_decode (l : list Z) : option LogRecord :=
  match l with
  | 0 :: l => p ← of_bits l; '(k, f) ← decode p; Some (Observe (mkPreimage k f))
  | 1 :: l => Consume <$> get_paths (length l) l
  | 2 :: l => p ← of_bits l; '(k, f) ← decode p; Some (DirectoryBaseline (mkPreimage k f))
  | _ => None
  end.
(** A digest of 32 bytes: the sum of the bytes, and zeros. *)
Definition plain_digest (l : list Z) : list Z := (foldr Z.add 0 l mod 256) :: replicate 31 0.
#[export] Instance plain_log : LogOps := {| log_encode := plain_encode; log_decode := plain_decode; log_sha256 := plain_digest |}.

Lemma paths_length paths : length (paths ≫= put_path) = sum_list_with (fun p => 2 * String.length p + 1)%nat paths.
Proof.
  induction paths as [|p paths IH]; [done|]. change ((p :: paths) ≫= put_path) with (put_path p ++ (paths ≫= put_path)).
  rewrite length_app, put_path_length, IH. done.
Qed.
#[export] Instance plain_log_laws : LogLaws.
Proof.
  constructor.
  - intros [[k f]|paths|[k f]]; cbn [log_decode log_encode plain_log plain_encode plain_decode pp_path pp_state].
    + rewrite of_bits_bits. cbn [mbind option_bind]. by rewrite decode_encode.
    + rewrite get_paths_put; [done|]. rewrite paths_length. induction paths as [|p paths IH]; cbn [length sum_list_with]; lia.
    + rewrite of_bits_bits. cbn [mbind option_bind]. by rewrite decode_encode.
  - by intros [].
  - intros paths. cbn [log_encode plain_log plain_encode length]. rewrite paths_length.
    assert (sum_list_with (fun p => 2 * String.length p + 1) paths <= sum_list_with (fun p => String.length p * 4 + 3) paths)%nat; [|lia].
    induction paths as [|p paths IH]; cbn [sum_list_with]; lia.
  - intros b. cbn [log_sha256 plain_log]. unfold plain_digest. cbn [length]. by rewrite length_replicate.
Qed.

(** ** Runs *)

Local Open Scope string_scope.
Definition sample_records : list LogRecord := [Observe (mkPreimage "a" FpAbsent); Consume ["a"]; Observe (mkPreimage "b" (FpSymlink "t" 0 0 None))].
Lemma sample_good : Forall good sample_records.
Proof. repeat constructor; vm_compute; discriminate. Qed.
Lemma sample_torn : torn (take 9 (frame (Consume ["b"]))).
Proof. exists (Consume ["b"]), 9%nat. split_and!; [split; [reflexivity|vm_compute; discriminate]|vm_compute; lia|done]. Qed.
Lemma sample_inv : LogInv sample_records None (mkDisk (log_bytes sample_records) [], opened sample_records).
Proof. apply opened_inv; [apply sample_good|vm_compute; discriminate]. Qed.

Lemma log_recovers_witness : exists x, open_log (mkDisk (log_bytes sample_records ++ take 9 (frame (Consume ["b"]))) []) = (Ok tt, x) /\
  log_view x.2 !! "a" = None /\ log_view x.2 !! "b" = Some (mkPreimage "b" (FpSymlink "t" 0 0 None)).
Proof.
  eexists. split; [refine (proj1 (log_recovers sample_records _ sample_good (or_introl sample_torn) _)); vm_compute; discriminate|].
  split; vm_compute; reflexivity.
Defined.
Lemma log_refines_map_witness : exists x', perform_log (CallConsume ["b"]) (mkDisk (log_bytes sample_records) [], opened sample_records) = (Ok tt, x') /\
  log_view x'.2 = log_spec (CallConsume ["b"]) (log_view (opened sample_records)).
Proof.
  eexists. split; [vm_compute; reflexivity|]. refine (log_refines_map (CallConsume ["b"]) _ _ _ _ sample_inv _). vm_compute. reflexivity.
Defined.
Lemma log_handles_sound_witness : exists rs pending, LogInv rs pending (mkDisk (log_bytes []) [], opened []).
Proof. apply log_handles_sound, (reachable_fresh []). reflexivity. Defined.
(** A durable observation, a publication that breaks, and a crash that cuts the
    broken frame once more. *)
Lemma durable_observation_survives_witness :
  let x0 := (mkDisk (log_bytes sample_records) [Works; Works; Works; Breaks 20], opened sample_records) in
  let x' := (publish_observation "c" false FpAbsent x0).2 in
  let x1 := (contains_or_promote "c" true x').2 in
  let x2 := (publish_observation "d" true FpAbsent x1).2 in
  ls_synced x'.2 < ls_synced x1.2 /\ (publish_observation "d" true FpAbsent x1).1 = Err LogIo /\
  exists x3, open_log (mkDisk (crashed x2 (ls_synced x2.2 + 7)) []) = (Ok tt, x3) /\ log_view x3.2 !! "c" = Some (mkPreimage "c" FpAbsent).
Proof.
  intros x0 x' x1 x2. split; [vm_compute; reflexivity|]. split; [vm_compute; reflexivity|].
  assert (LogInv sample_records None x0) as I0 by (destruct sample_inv; constructor; done).
  assert (exists rs pending, LogInv rs pending x') as (rs & pending & I).
  { destruct (call_grown (CallPublish "c" false FpAbsent) _ _ _ (publish_observation "c" false FpAbsent x0).1 x' I0 (surjective_pairing _)) as [[_ Hx]|(_ & new & pe & [I _ _ _] & _)]; [rewrite Hx|]; eauto. }
  assert (contains_or_promote "c" true x' = (Ok true, x1)) as E by (vm_compute; reflexivity).
  assert (first_observation "c" None x' = Some (mkPreimage "c" FpAbsent)) as Hv by (vm_compute; reflexivity).
  assert (log_history x1 [CallPublish "d" true FpAbsent] x2) as Hh by (eapply log_history_cons; [apply surjective_pairing|apply log_history_nil]).
  destruct (durable_observation_survives "c" None _ _ _ _ _ _ (ls_synced x2.2 + 7) I E Hh) as ([x3 E3] & v & Hv' & Hk); [by repeat constructor|lia|].
  exists x3. split; [exact E3|]. refine (eq_trans (Hk _ _ E3) _). exact (eq_trans (eq_sym Hv') Hv).
Defined.
Lemma opening_only_cuts_witness : exists x', open_log (mkDisk (log_bytes sample_records ++ take 9 (frame (Consume ["b"]))) []) = (Ok tt, x') /\
  only_cut (log_bytes sample_records ++ take 9 (frame (Consume ["b"]))) (d_file x'.1).
Proof.
  eexists. split; [vm_compute; reflexivity|]. apply (opening_only_cuts (mkDisk (log_bytes sample_records ++ take 9 (frame (Consume ["b"]))) []) (Ok tt)).
  - vm_compute. repeat (constructor; [split; congruence|]). constructor.
  - vm_compute. discriminate.
  - vm_compute. reflexivity.
Defined.
Lemma torn_creation_never_opens_witness : open_log (mkDisk (take 5 LOG_MAGIC) []) = (Err LogEof, (mkDisk (take 5 LOG_MAGIC) [], initial_state)).
Proof. refine (proj2 (torn_creation_never_opens 5 [] _)). vm_compute. lia. Defined.
Lemma readers_agree_witness : read_log (log_bytes sample_records ++ take 9 (frame (Consume ["b"]))) = Ok [mkPreimage "b" (FpSymlink "t" 0 0 None)].
Proof.
  refine (eq_trans (proj1 (readers_agree sample_records _ sample_good (or_introl sample_torn) _)) _); [vm_compute; discriminate|vm_compute; reflexivity].
Defined.
