(* ===== verification/ApplyPlan.v ===== *)
(** * Planning an apply

    [pvisor-overlay-core/src/apply.rs], the part that decides and changes nothing:
    the inventory of the upper, the changes it stands for, the selection of the
    user and its closure under dependencies, the checks of protected paths, and
    the comparison of the target with the journal of first observations.

    The file system is that of [HostFs]. The upper, the lowers and the target are
    trees of it, and the target may be one of the lowers. The journal is the map
    that [load_preimages] returns, with the marker of its completeness. Paths are
    lists of names, so that the displayed text of a change and its raw bytes are
    one field; sizes and modes are kept. Messages are kept as the reason they
    give. Globs come from [GlobOps], built here with the separator literal. *)
From stdpp Require Import base tactics list strings gmap pretty.
From Stdlib Require Import ZArith Lia Ascii.
From S2P Require Import Prelude RustStr FileAccess HostFs Overlay.
Local Open Scope nat_scope.

(** ** Errors *)

(** Why an apply is refused. *)
Inductive Refusal :=
| NothingMatched
| InsideOpaque (opaque : Path)
| ExcludedFromOpaque (path opaque : Path)
| ExcludedSibling (path : Path)
| ExcludedAncestor (ancestor path : Path)
| CrossesBoundary
| OpaqueRoot
| AffectsExcluded (path excluded : Path)
| AffectsProtected (path : Path)
| ContainsExcluded (path : Path)
| RootfsUnsupported (path : Path)
| TargetChanged (path : Path)
| ImmutableTarget.
Inductive ApplyError := InvalidConfig | Refused (why : Refusal) | InvalidState | BadMeta | Persist | Io (e : IoErr).
#[export] Instance refusal_eq_dec : EqDecision Refusal.
Proof. solve_decision. Defined.
#[export] Instance apply_error_eq_dec : EqDecision ApplyError.
Proof. solve_decision. Defined.

(** [?] on an [io::Result]. *)
Definition io {A} (r : Result IoErr A) : Result ApplyError A := map_err Io r.

(** ** Changes *)

Inductive ChangeKind := Added | Modified | Deleted | TypeChanged | OpaqueChange.
Inductive ChangeEntryType := TyFile | TyDirectory | TySymlink | TyOther.
#[export] Instance change_kind_eq_dec : EqDecision ChangeKind.
Proof. solve_decision. Defined.
#[export] Instance change_type_eq_dec : EqDecision ChangeEntryType.
Proof. solve_decision. Defined.
Record ChangeEntry := mkChange {
  c_path : Path;
  c_kind : ChangeKind;
  c_old_type : option ChangeEntryType;
  c_new_type : option ChangeEntryType;
  c_size_bytes : option Z;
  c_mode : option Z
}.
#[export] Instance change_entry_eq_dec : EqDecision ChangeEntry.
Proof. solve_decision. Defined.

(** The derived order of [ChangeKind], the order of paths by components, and the
    order of a changeset. *)
Definition kind_rank (k : ChangeKind) : nat :=
  match k with Added => 0 | Modified => 1 | Deleted => 2 | TypeChanged => 3 | OpaqueChange => 4 end.
Fixpoint path_compare (p q : Path) : comparison :=
  match p, q with
  | [], [] => Eq
  | [], _ :: _ => Lt
  | _ :: _, [] => Gt
  | c :: p, d :: q => match String.compare c d with Eq => path_compare p q | r => r end
  end.
Definition path_leb (p q : Path) : bool := match path_compare p q with Gt => false | _ => true end.
Definition change_leb (a b : ChangeEntry) : bool :=
  match path_compare (c_path a) (c_path b) with Lt => true | Gt => false | Eq => kind_rank (c_kind a) <=? kind_rank (c_kind b) end.
(** [BTreeSet<PathBuf>]: a set, iterated in order. *)
Definition btree (s : gset Path) : list Path := sort_by path_leb (elements s).

Definition metadata_type (n : Inode) : ChangeEntryType :=
  match i_kind n with KFile _ => TyFile | KDir => TyDirectory | KSymlink _ => TySymlink | KNode _ _ => TyOther end.
Definition replaces_directory (change : ChangeEntry) : bool :=
  bool_decide (c_kind change = OpaqueChange)
  || bool_decide (c_old_type change = Some TyDirectory)
     && (bool_decide (c_kind change = Deleted) || bool_decide (c_kind change = TypeChanged)).

(** [logical_identity], without remote attributes. *)
Definition logical_identity (n : Inode) : Result IoErr UnixIdentity :=
  identity ← match i_xattrs n !! OVERRIDE_STAT_XATTR with
             | Some value => identity_parse value
             | None => Ok (mkIdentity (i_uid n) (i_gid n) (full_mode n))
             end;
  Ok (if (Z.land (id_mode identity) S_IFMT =? 0)%Z
      then mkIdentity (id_uid identity) (id_gid identity) (Z.lor (id_mode identity) (Z.land (full_mode n) S_IFMT))
      else identity).

(** ** The inventory of the upper *)

Record UpperEntry := mkUpperEntry { ue_relative : Path; ue_whiteout : bool; ue_ino : nat; ue_node : Inode }.

Definition is_copy_up_directory (name : string) (n : Inode) : bool := starts_with name TEMP_PREFIX && is_dir (i_kind n).
Definition whiteout_target (name : string) : option string :=
  match strip_prefix name WHITEOUT_PREFIX with Some victim => if is_empty victim then None else Some victim | None => None end.
Definition upper_is_dir (h : Host) : bool := bool_decide (kind_at h (Upper, []) = Some KDir).

(** [walk_upper_metadata], collecting what it visits. *)
Fixpoint walk_upper_metadata (fuel : nat) (h : Host) (dir : Path) : Result IoErr (list UpperEntry) :=
  match fuel with
  | O => Err OutOfFuel
  | S fuel =>
      match lstat h (Upper, dir) with
      | Err e => if bool_decide (e = ENOENT) then Ok [] else Err e
      | Ok (_, n) =>
          if is_dir (i_kind n) then
            rows ← collect (fun name =>
              let path := dir ++ [name] in
              '(i, n) ← lstat h (Upper, path);
              if is_copy_up_directory name n then Ok []
              else
                let whiteout := is_whiteout_name name in
                below ← (if is_dir (i_kind n) && negb whiteout then walk_upper_metadata fuel h path else Ok []);
                Ok (mkUpperEntry path whiteout i n :: below)) (read_dir h (Upper, dir));
            Ok (concat rows)
          else Err ENOTDIR
      end
  end.
Definition upper_inventory (h : Host) : Result IoErr (list UpperEntry) :=
  if upper_is_dir h then walk_upper_metadata (tree_fuel h) h [] else Ok [].

(** Several names of one file; the order of the groups is that of a hash map. *)
Definition upper_hard_link_groups (h : Host) (inventory : list UpperEntry) : list (list Path) :=
  let linked := List.filter (fun e => negb (ue_whiteout e) && is_file (i_kind (ue_node e)) && (1 <? nlink h (ue_ino e))) inventory in
  List.filter (fun paths => 1 <? length paths)
    ((fun i => ue_relative <$> List.filter (fun e => bool_decide (ue_ino e = i)) linked) <$> remove_dups (ue_ino <$> linked)).

(** ** The record of an overlay *)

Inductive OverlayState := Active | Staged | Applied | Discarded.
#[export] Instance overlay_state_eq_dec : EqDecision OverlayState.
Proof. solve_decision. Defined.
(** The fields that an apply reads; the directories of the stage are their texts.
    [or_target_is_root] says that the canonical path of the target is [/]. *)
Record OverlayRecord := mkOverlayRecord {
  or_id : string;
  or_generation : Z;
  or_stage_dir : string;
  or_upper_dir : string;
  or_work_dir : string;
  or_target : Root;
  or_target_is_root : bool;
  or_baseline_lower : option Root;
  or_excluded_paths : list Path;
  or_protect_target : bool;
  or_state : OverlayState
}.
(** [published] is the record in the stage directory, if there is one and it can
    be read; a terminal one of the same overlay replaces the caller's. *)
Definition terminal_state (s : OverlayState) : bool := match s with Applied | Discarded => true | Active | Staged => false end.
Definition reconcile_terminal_overlay {E} (record : OverlayRecord) (published : Result E (option OverlayRecord)) : Result E (OverlayRecord * bool) :=
  if terminal_state (or_state record) then Ok (record, false)
  else
    found ← published;
    match found with
    | None => Ok (record, false)
    | Some p =>
        if bool_decide (or_id p = or_id record) && bool_decide (or_generation p = or_generation record)
           && bool_decide (or_stage_dir p = or_stage_dir record) && bool_decide (or_upper_dir p = or_upper_dir record)
           && bool_decide (or_work_dir p = or_work_dir record) && terminal_state (or_state p)
        then Ok (p, true) else Ok (record, false)
    end.

(** The journal as it is loaded: its entries and whether it is complete. *)
Record PreimageJournal := mkPreimages { pj_entries : gmap Path PathFingerprint; pj_complete : bool }.

(** [OverlayLayout::with_baseline]; different roots are different directories. *)
Definition canonicalize (h : Host) (r : Root) : Result IoErr Root :=
  if kind_at h (r, []) then Ok r else Err ENOENT.
Definition root_is_dir (h : Host) (r : Root) : bool := bool_decide (kind_at h (r, []) = Some KDir).
Definition with_baseline (h : Host) (lowers : list Root) (target : Root) (snapshot : option Root) : Result IoErr unit :=
  lowest ← ok_or (last lowers) EINVAL;
  baseline ← canonicalize h lowest;
  expected ← canonicalize h (default target snapshot);
  _ ← ensure (bool_decide (baseline = expected)) EINVAL;
  _ ← ensure (root_is_dir h target) ENOTDIR;
  _ ← ensure (forallb (root_is_dir h) lowers) ENOTDIR;
  Ok tt.

Definition lower_metadata (h : Host) (lowers : list Root) (relative : Path) : option Inode :=
  head (omap (fun r => match layer_metadata h r relative with Ok (Some (_, n)) => Some n | _ => None end) lowers).

Section Changes.
Context `{Digest256} (h : Host) (lowers : list Root) (journal : gmap Path PathFingerprint).

(** The highest lower that has the path, when the journal does not have it. *)
Fixpoint lower_baseline (roots : list Root) (relative : Path) : Result IoErr PathFingerprint :=
  match roots with
  | [] => Ok FpAbsent
  | r :: roots =>
      m ← layer_metadata h r relative;
      match m with Some _ => fingerprint_at h r relative | None => lower_baseline roots relative end
  end.
Definition directory_metadata_unchanged (relative : Path) : Result IoErr bool :=
  current ← fingerprint_at h Upper relative;
  baseline ← match journal !! relative with Some saved => Ok saved | None => lower_baseline lowers relative end;
  Ok match current, baseline with
     | FpDirectory mode uid gid _ _ (Some xattrs), FpDirectory mode' uid' gid' _ _ (Some xattrs') =>
         bool_decide ((mode, uid, gid, xattrs) = (mode', uid', gid', xattrs'))
     | _, _ => false
     end.

Definition opaque_change (path : Path) : ChangeEntry :=
  mkChange path OpaqueChange (Some TyDirectory) (Some TyDirectory) None None.
Definition permission_bits (identity : UnixIdentity) : Z := Z.land (id_mode identity) 4095.

(** The changes of one entry of the inventory. *)
Definition entry_changes (entry : UpperEntry) : Result IoErr (list ChangeEntry) :=
  let rel := ue_relative entry in
  let new := ue_node entry in
  if ue_whiteout entry then
    let name := default ""%string (last rel) in
    if bool_decide (name = OPAQUE_NAME) || bool_decide (name = ROOT_METADATA_NAME) then Ok []
    else
      match whiteout_target name with
      | Some victim =>
          let path := parent_of rel ++ [victim] in
          Ok [mkChange path Deleted (metadata_type <$> lower_metadata h lowers path) None None None]
      | None => Ok []
      end
  else
    let old_type := metadata_type <$> lower_metadata h lowers rel in
    let new_type := metadata_type new in
    let kind := match old_type with
                | None => Added
                | Some old_type => if bool_decide (old_type = new_type) then Modified else TypeChanged
                end in
    incidental ← (if is_dir (i_kind new) && bool_decide (old_type = Some TyDirectory)
                     && negb (exists_at h (Upper, rel ++ [ROOT_METADATA_NAME]))
                  then directory_metadata_unchanged rel else Ok false);
    own ← (if incidental : bool then Ok []
           else
             identity ← logical_identity new;
             Ok [mkChange rel kind old_type (Some new_type)
                   (match i_kind new with KFile bytes => Some (Z.of_nat (String.length bytes)) | _ => None end)
                   (Some (permission_bits identity))]);
    Ok (own ++ if is_dir (i_kind new) && is_opaque_directory h (Upper, rel) then [opaque_change rel] else []).

Definition root_changes (identity : UnixIdentity) : list ChangeEntry :=
  (if is_opaque_directory h (Upper, []) then [opaque_change []] else [])
  ++ (if exists_at h (Upper, [ROOT_METADATA_NAME])
      then [mkChange [] Modified (Some TyDirectory) (Some TyDirectory) None (Some (permission_bits identity))] else []).

Definition overlay_changes_from_inventory (inventory : list UpperEntry) : Result IoErr (list ChangeEntry) :=
  if negb (upper_is_dir h) then Ok []
  else
    '(_, root) ← lstat h (Upper, []);
    root_identity ← logical_identity root;
    rows ← collect entry_changes inventory;
    Ok (sort_by change_leb (root_changes root_identity ++ concat rows)).
Definition overlay_changes : Result IoErr (list ChangeEntry) :=
  inventory ← upper_inventory h; overlay_changes_from_inventory inventory.
End Changes.

(** ** The selection *)

Record ApplySelection := mkSelection { as_paths : list string; as_includes : list string; as_excludes : list string }.
Definition is_all (s : ApplySelection) : bool :=
  bool_decide (as_paths s = []) && bool_decide (as_includes s = []) && bool_decide (as_excludes s = []).

(** [Path::components] of a text: an absolute path has a root, empty components
    and [.] are dropped. *)
Definition normalize_components (components : list string) : Result ApplyError Path :=
  fold_res (fun normalized component =>
    if is_empty component || (component =? ".")%string then Ok normalized
    else if (component =? "..")%string then Err InvalidConfig
    else Ok (normalized ++ [component])) components [].
Definition normalize_selection_path (path : string) : Result ApplyError Path :=
  if starts_with path "/" then Err InvalidConfig else normalize_components (split "/"%char path).

Definition at_or_below (path root : Path) : bool := bool_decide (path = root) || path_starts_with path root.

Section Selection.
Context `{GlobOps}.

Record CompiledApplySelection := mkCompiled {
  cs_paths : list Path;
  cs_includes : GlobSet;
  cs_excludes : GlobSet;
  cs_has_positive : bool
}.
Definition compile_selection_globs (patterns : list string) : Result ApplyError GlobSet :=
  globs ← collect (fun p => ok_or (glob_build p) InvalidConfig) patterns;
  ok_or (globset_build globs) InvalidConfig.
Definition compile_selection (selection : ApplySelection) : Result ApplyError CompiledApplySelection :=
  paths ← collect normalize_selection_path (as_paths selection);
  includes ← compile_selection_globs (as_includes selection);
  excludes ← compile_selection_globs (as_excludes selection);
  Ok (mkCompiled paths includes excludes
        (negb (bool_decide (paths = [])) || negb (bool_decide (as_includes selection = [])))).
Definition requested (s : CompiledApplySelection) (path : Path) : bool :=
  negb (cs_has_positive s)
  || existsb (fun selected => bool_decide (path = selected) || path_starts_with path selected) (cs_paths s)
  || globset_is_match (cs_includes s) path.
(** The path or a directory above it is excluded. *)
Definition excluded (s : CompiledApplySelection) (path : Path) : bool := set_matches (cs_excludes s) path.
End Selection.

(** ** The closure under dependencies *)

Section Closure.
Context (excluded : Path -> bool) (changes : list ChangeEntry) (opaque_dirs : list Path) (groups : list (list Path)) (directory_paths : gset Path).

Definition include_opaque (opaque : Path) (selected : gset Path) (change : ChangeEntry) : Result ApplyError (gset Path) :=
  let path := c_path change in
  if at_or_below path opaque then
    _ ← ensure (negb (excluded path)) (Refused (ExcludedFromOpaque path opaque));
    Ok ({[path]} ∪ selected)
  else Ok selected.
Definition opaque_step (selected : gset Path) (opaque : Path) : Result ApplyError (gset Path) :=
  let has_selected_child := existsb (fun path => negb (bool_decide (path = opaque)) && at_or_below path opaque) (btree selected) in
  _ ← ensure (negb (has_selected_child && negb (bool_decide (opaque ∈ selected)))) (Refused (InsideOpaque opaque));
  if bool_decide (opaque ∈ selected) then fold_res (include_opaque opaque) changes selected else Ok selected.

Definition include_sibling (selected : gset Path) (path : Path) : Result ApplyError (gset Path) :=
  _ ← ensure (negb (excluded path)) (Refused (ExcludedSibling path));
  Ok ({[path]} ∪ selected).
Definition group_step (selected : gset Path) (group : list Path) : Result ApplyError (gset Path) :=
  if existsb (fun path => bool_decide (path ∈ selected)) group then fold_res include_sibling group selected else Ok selected.

Definition include_ancestor (path : Path) (selected : gset Path) (ancestor : Path) : Result ApplyError (gset Path) :=
  if bool_decide (ancestor ∈ directory_paths) then
    _ ← ensure (negb (excluded ancestor)) (Refused (ExcludedAncestor ancestor path));
    Ok ({[ancestor]} ∪ selected)
  else Ok selected.
Definition ancestor_step (selected : gset Path) (path : Path) : Result ApplyError (gset Path) :=
  fold_res (include_ancestor path) (tail (ancestors path)) selected.

Definition closure_round (selected : gset Path) : Result ApplyError (gset Path) :=
  selected ← fold_res opaque_step opaque_dirs selected;
  selected ← fold_res group_step groups selected;
  fold_res ancestor_step (btree selected) selected.
Fixpoint closure_loop (fuel : nat) (selected : gset Path) : Result ApplyError (gset Path) :=
  match fuel with
  | O => Err (Io OutOfFuel)
  | S fuel =>
      after ← closure_round selected;
      if bool_decide (size after = size selected) then Ok after else closure_loop fuel after
  end.
(** Every round but the last adds a path of a change or of a group. *)
Definition closure_fuel : nat := S (length changes + length (concat groups)).
End Closure.

(** ** The plan *)

Inductive ApplyTargetKind := TargetDirectory | FilesystemRoot.
#[export] Instance target_kind_eq_dec : EqDecision ApplyTargetKind.
Proof. solve_decision. Defined.
Definition resolve_target_kind (h : Host) (record : OverlayRecord) : Result IoErr ApplyTargetKind :=
  _ ← canonicalize h (or_target record);
  Ok (if or_target_is_root record then FilesystemRoot else TargetDirectory).
Definition rootfs_unsupported (change : ChangeEntry) : bool :=
  replaces_directory change || bool_decide (c_path change = [])
  || bool_decide (c_kind change = TypeChanged) && bool_decide (c_new_type change = Some TyDirectory).
Definition validate_changes (kind : ApplyTargetKind) (changes : list ChangeEntry) : Result ApplyError unit :=
  match kind, List.find rootfs_unsupported changes with
  | FilesystemRoot, Some change => Err (Refused (RootfsUnsupported (c_path change)))
  | _, _ => Ok tt
  end.

(** The outermost directories that the changes replace. *)
Definition add_replacement_root (roots : list Path) (path : Path) : Result ApplyError (list Path) :=
  _ ← io (validate_rel path);
  _ ← ensure (negb (bool_decide (path = []))) (Refused OpaqueRoot);
  Ok (if existsb (path_starts_with path) roots then roots else roots ++ [path]).
Definition replacement_paths (changes : list ChangeEntry) : Result ApplyError (list Path) :=
  fold_res add_replacement_root (btree (list_to_set (c_path <$> List.filter replaces_directory changes))) [].

Definition path_has_prefix (path prefix : Path) : bool := path_starts_with path prefix.
Definition validate_excluded_changes (record : OverlayRecord) (changes : list ChangeEntry) : Result ApplyError unit :=
  for_each (fun excluded =>
    _ ← io (validate_rel excluded);
    for_each (fun change =>
      let path := c_path change in
      ensure (negb (path_has_prefix path excluded || replaces_directory change && path_has_prefix excluded path))
        (Refused (AffectsExcluded path excluded))) changes) (or_excluded_paths record).

Record ApplyPlan := mkPlan { ap_selected : list ChangeEntry; ap_selected_paths : gset Path }.
Record ApplyPreview := mkPreview { av_selected : list ChangeEntry; av_required : list ChangeEntry; av_candidates : list ChangeEntry }.

Section Plan.
(** [beyond_tree] is what walking a directory of the target finds that is reached
    through a symbolic link and so lies outside the trees. *)
Context `{GlobOps, AccessOps, Digest256} (beyond_tree : Loc -> Result ApplyError unit).

Definition check_protected (record : OverlayRecord) (selection : CompiledApplySelection) (path : Path) : Result ApplyError unit :=
  ensure (negb (acc_denied path || excluded selection path || existsb (path_has_prefix path) (or_excluded_paths record)))
    (Refused (AffectsProtected path)).
Fixpoint check_tree (fuel : nat) (h : Host) (record : OverlayRecord) (selection : CompiledApplySelection) (path : Path) : Result ApplyError unit :=
  match fuel with
  | O => Err (Io OutOfFuel)
  | S fuel =>
      _ ← check_protected record selection path;
      let physical := (or_target record, path) in
      match lstat h physical with
      | Ok (_, n) =>
          if is_dir (i_kind n) then
            match reach h physical with
            | WalkLink => beyond_tree physical
            | _ => for_each (fun name => check_tree fuel h record selection (path ++ [name])) (read_dir h physical)
            end
          else Ok tt
      | Err e => if bool_decide (e = ENOENT) then Ok tt else Err (Io e)
      end
  end.
Definition check_effects (h : Host) (record : OverlayRecord) (selection : CompiledApplySelection) (change : ChangeEntry) : Result ApplyError unit :=
  let path := c_path change in
  _ ← io (validate_rel path);
  _ ← check_protected record selection path;
  if replaces_directory change then
    _ ← ensure (negb (existsb (fun excluded => path_has_prefix excluded path) (or_excluded_paths record))) (Refused (ContainsExcluded path));
    if acc_has_denials || negb (globset_is_empty (cs_excludes selection)) then check_tree (tree_fuel h) h record selection path else Ok tt
  else Ok tt.
Definition validate_protected_effects (h : Host) (record : OverlayRecord) (changes : list ChangeEntry) (selection : CompiledApplySelection) : Result ApplyError unit :=
  _ ← validate_excluded_changes record changes;
  for_each (check_effects h record selection) changes.

Definition in_prefix (prefix : option Path) (path : Path) : bool :=
  match prefix with Some prefix => path_starts_with path prefix && negb (bool_decide (path = prefix)) | None => true end.
Definition initially_selected (changes : list ChangeEntry) (compiled : CompiledApplySelection) (prefix : option Path) : gset Path :=
  list_to_set (List.filter (fun path => requested compiled path && negb (excluded compiled path) && in_prefix prefix path) (c_path <$> changes)).
Definition opaque_paths (changes : list ChangeEntry) : list Path :=
  c_path <$> List.filter (fun change => bool_decide (c_kind change = OpaqueChange)) changes.
(** The directories that an apply has to create. *)
Definition created_directories (changes : list ChangeEntry) : gset Path :=
  list_to_set (c_path <$> List.filter (fun change =>
    bool_decide (c_new_type change = Some TyDirectory) && negb (bool_decide (c_old_type change = Some TyDirectory))) changes).

Definition plan_overlay_apply_in_scope (h : Host) (record : OverlayRecord) (journal : PreimageJournal) (lowers : list Root)
    (selection : ApplySelection) (kind : ApplyTargetKind) (prefix : option Path) : Result ApplyError ApplyPlan :=
  _ ← io (with_baseline h lowers (or_target record) (or_baseline_lower record));
  inventory ← io (upper_inventory h);
  changes ← io (overlay_changes_from_inventory h lowers (pj_entries journal) inventory);
  _ ← replacement_paths changes;
  compiled ← compile_selection selection;
  let initial := initially_selected changes compiled prefix in
  _ ← ensure (is_all selection || negb (bool_decide (initial = ∅))) (Refused NothingMatched);
  let groups := upper_hard_link_groups h inventory in
  selected_paths ← closure_loop (excluded compiled) changes (opaque_paths changes) groups (created_directories changes)
                     (closure_fuel changes groups) initial;
  let selected := List.filter (fun change => bool_decide (c_path change ∈ selected_paths)) changes in
  _ ← ensure (forallb (in_prefix prefix) (btree selected_paths)) (Refused CrossesBoundary);
  _ ← validate_protected_effects h record selected compiled;
  _ ← validate_changes kind selected;
  Ok (mkPlan selected selected_paths).

(** ** First observations against the target *)

Definition TargetPreimage : Type := Path * PathFingerprint.
Definition recovery_fingerprint_matches (current expected : PathFingerprint) : bool :=
  fp_matches expected current
  || match current, expected with
     | FpDirectory mode uid gid _ _ _, FpDirectory mode' uid' gid' _ _ _ =>
         bool_decide (mode = mode') && bool_decide (uid = uid') && bool_decide (gid = gid')
         && (bool_decide (fp_xattrs expected = None) || bool_decide (fp_xattrs current = fp_xattrs expected))
     | _, _ => false
     end.
Definition desired_fingerprint (h : Host) (path : Path) (changes : list ChangeEntry) : Result IoErr (option PathFingerprint) :=
  match List.find (fun change => bool_decide (c_path change = path)
                                 || replaces_directory change && path_starts_with path (c_path change)) changes with
  | None => Ok None
  | Some change =>
      if bool_decide (c_kind change = Deleted) || bool_decide (c_kind change = TypeChanged) && negb (bool_decide (c_path change = path))
      then Ok (Some FpAbsent)
      else Some <$> fingerprint_at h Upper path
  end.
Definition is_directory_fingerprint (f : PathFingerprint) : bool := match f with FpDirectory _ _ _ _ _ _ => true | _ => false end.

Definition validate_target_preimage (h : Host) (record : OverlayRecord) (changes : list ChangeEntry) (recovering : bool) (preimage : TargetPreimage) : Result ApplyError unit :=
  let '(path, state) := preimage in
  current ← io (fingerprint_at h (or_target record) path);
  if fp_matches state current then Ok tt
  else if recovering
          && existsb (fun change => negb (bool_decide (c_path change = path)) && path_starts_with (c_path change) path) changes
          && is_directory_fingerprint state && recovery_fingerprint_matches current state then Ok tt
  else
    adopted ← (if recovering then
                 desired ← io (desired_fingerprint h path changes);
                 Ok (from_option (recovery_fingerprint_matches current) false desired)
               else Ok false);
    ensure adopted (Refused (TargetChanged path)).
Definition validate_target_preimages (h : Host) (record : OverlayRecord) (preimages : list TargetPreimage) (changes : list ChangeEntry) (recovering : bool) : Result ApplyError unit :=
  for_each (validate_target_preimage h record changes recovering) preimages.

(** [BTreeMap::range(path..)] with [taking_while]. The map is a sorted list. *)
Definition index_preimages (preimages : list TargetPreimage) : list TargetPreimage :=
  sort_by (fun a b => path_leb a.1 b.1) (map_to_list (list_to_map (reverse preimages) : gmap Path PathFingerprint)).
Fixpoint skipping_while {A} (f : A -> bool) (l : list A) : list A :=
  match l with [] => [] | x :: l' => if f x then skipping_while f l' else l end.
Fixpoint taking_while {A} (f : A -> bool) (l : list A) : list A :=
  match l with [] => [] | x :: l' => if f x then x :: taking_while f l' else [] end.
Definition preimages_below (index : list TargetPreimage) (path : Path) : list TargetPreimage :=
  taking_while (fun preimage => path_starts_with preimage.1 path) (skipping_while (fun preimage => negb (path_leb path preimage.1)) index).
Definition validate_target_path (h : Host) (record : OverlayRecord) (preimages : list TargetPreimage) (changes : list ChangeEntry) (recovering : bool)
    (path : Path) (recursive : bool) : Result ApplyError unit :=
  if recursive then
    for_each (fun preimage => validate_target_preimages h record [preimage] changes recovering) (preimages_below (index_preimages preimages) path)
  else
    match List.find (fun preimage => bool_decide (preimage.1 = path)) (index_preimages preimages) with
    | Some preimage => validate_target_preimages h record [preimage] changes recovering
    | None => Ok tt
    end.

(** The bytes of a path, by which preimages are sorted. *)
Definition raw_path (p : Path) : string := String.concat "/" p.
Definition preimage_leb (a b : TargetPreimage) : bool := string_leb (raw_path a.1) (raw_path b.1).
(** The loop over the selected paths takes what it uses out of the journal. *)
Definition take_preimage (h : Host) (record : OverlayRecord) (complete : bool) (state : gmap Path PathFingerprint * list TargetPreimage) (path : Path)
    : Result ApplyError (gmap Path PathFingerprint * list TargetPreimage) :=
  let '(journal, preimages) := state in
  match journal !! path with
  | Some fingerprint => Ok (delete path journal, preimages ++ [(path, fingerprint)])
  | None =>
      if complete then Err InvalidState
      else
        fingerprint ← io (fingerprint_at h (or_target record) path);
        Ok (journal, preimages ++ [(path, fingerprint)])
  end.
Definition fences (selected : gset Path) (changes : list ChangeEntry) (preimage : TargetPreimage) : bool :=
  let '(path, state) := preimage in
  existsb (fun child => bool_decide (path ∈ tail (ancestors child))) (btree selected) && is_directory_fingerprint state
  || existsb (fun change => replaces_directory change && path_starts_with path (c_path change)) changes.
Definition prepare_apply_preimages (h : Host) (record : OverlayRecord) (journal : PreimageJournal) (selected : gset Path) (changes : list ChangeEntry)
    : Result ApplyError (list TargetPreimage) :=
  '(rest, preimages) ← fold_res (take_preimage h record (pj_complete journal)) (btree selected) (pj_entries journal, []);
  Ok (sort_by preimage_leb (preimages ++ List.filter (fences selected changes) (map_to_list rest))).

Definition validate_upper_logical_identities (h : Host) : Result IoErr unit :=
  if negb (upper_is_dir h) then Ok tt
  else
    '(_, root) ← lstat h (Upper, []);
    _ ← logical_identity root;
    inventory ← upper_inventory h;
    for_each (fun entry => if ue_whiteout entry then Ok tt else _ ← logical_identity (ue_node entry); Ok tt) inventory.

(** ** Admission and preparation *)

(** [sealed] is what [require_sealed] answers, [pending] what the ledger answers. *)
Definition validate_apply_admission (record : OverlayRecord) (sealed : Result IoErr unit) (pending : Result ApplyError bool) : Result ApplyError unit :=
  _ ← io sealed;
  _ ← ensure (negb (or_protect_target record)) (Refused ImmutableTarget);
  _ ← ensure (negb (terminal_state (or_state record))) InvalidState;
  waiting ← pending;
  ensure (negb waiting) InvalidState.
Definition prepare_overlay_apply (h : Host) (record : OverlayRecord) (journal : PreimageJournal) (sealed : Result IoErr unit) (pending : Result ApplyError bool)
    (lowers : list Root) (selection : ApplySelection) (kind : ApplyTargetKind) : Result ApplyError (ApplyPlan * list TargetPreimage) :=
  _ ← validate_apply_admission record sealed pending;
  plan ← plan_overlay_apply_in_scope h record journal lowers selection kind None;
  _ ← io (validate_upper_logical_identities h);
  preimages ← prepare_apply_preimages h record journal (ap_selected_paths plan) (ap_selected plan);
  _ ← validate_target_preimages h record preimages (ap_selected plan) false;
  Ok (plan, preimages).
Definition apply_preview (h : Host) (journal : PreimageJournal) (lowers : list Root) (selection : ApplySelection) (plan : ApplyPlan) (prefix : option Path)
    : Result ApplyError ApplyPreview :=
  compiled ← compile_selection selection;
  candidates ← io (overlay_changes h lowers (pj_entries journal));
  Ok (mkPreview (List.filter (fun change => requested compiled (c_path change)) (ap_selected plan))
        (List.filter (fun change => negb (requested compiled (c_path change))) (ap_selected plan))
        (List.filter (fun change => in_prefix prefix (c_path change)) candidates)).
Definition preview_overlay_apply (h : Host) (record : OverlayRecord) (published : Result ApplyError (option OverlayRecord)) (journal : PreimageJournal)
    (sealed : Result IoErr unit) (pending : Result ApplyError bool) (lowers : list Root) (selection : ApplySelection) : Result ApplyError ApplyPreview :=
  '(record, _) ← reconcile_terminal_overlay record published;
  kind ← io (resolve_target_kind h record);
  '(plan, _) ← prepare_overlay_apply h record journal sealed pending lowers selection kind;
  apply_preview h journal lowers selection plan None.
End Plan.
