(* ===== verification/ApplyPlanFacts.v ===== *)
(** * The closure of a selection, conflicts, and the inventory

    Three parts: the closure of a selection; conflicts of an apply with its target;
    the inventory of the upper and the view.

    [Needed] is the least set that has the chosen paths and is closed under the
    three dependencies: what lies in a chosen opaque directory, the other names of
    a chosen file, and the directories to create above a chosen path. The loop of
    the planner computes it, within its fuel, or refuses for a stated reason. *)
From stdpp Require Import base tactics list strings gmap pretty sorting.
From Stdlib Require Import ZArith Lia Ascii.
From S2P Require Import Prelude RustStr FileAccess HostFs HostFsFacts Overlay OverlayView OverlayQuiet OverlayCopyUp OverlayDepth ApplyPlan.
Local Open Scope nat_scope.

(** ** Loops that only add *)

Section Loops.
Context {E A B : Type} (f : B -> A -> Result E B).

Lemma fold_res_inv (P : B -> Prop) (Q : E -> Prop) l b : P b ->
  (forall b x, x ∈ l -> P b -> match f b x with Ok b' => P b' | Err e => Q e end) ->
  match fold_res f l b with Ok b' => P b' | Err e => Q e end.
Proof.
  revert b. induction l as [|x l IH]; intros b Hb Hf; cbn [fold_res]; [done|].
  pose proof (Hf b x (list_elem_of_here _ _) Hb) as Hx. destruct (f b x) as [b'|e]; [|done].
  apply IH; [done|]. intros b2 y Hy. apply Hf. by apply list_elem_of_further.
Qed.
Lemma fold_res_fixed (R : B -> B -> Prop) `{!PreOrder R} (AS : forall a b, R a b -> R b a -> a = b) l b :
  (forall b x b', x ∈ l -> f b x = Ok b' -> R b b') -> fold_res f l b = Ok b -> forall x, x ∈ l -> f b x = Ok b.
Proof.
  assert (forall l b b', (forall b x b', x ∈ l -> f b x = Ok b' -> R b b') -> fold_res f l b = Ok b' -> R b b') as Hgrow.
  { clear l b. induction l as [|x l IH]; intros b b' Hf; cbn [fold_res]; [by intros [= ->]|].
    intros (b1 & H1 & H2)%bind_Ok. transitivity b1; [eapply Hf; [apply list_elem_of_here|exact H1]|].
    eapply IH; [|exact H2]. intros b2 y b3 Hy. apply Hf. by apply list_elem_of_further. }
  induction l as [|y l IH]; intros Hf Hr x Hx; [by apply elem_of_nil in Hx|]. cbn [fold_res] in Hr. apply bind_Ok in Hr as (b1 & H1 & H2).
  assert (forall b x b', x ∈ l -> f b x = Ok b' -> R b b') as Hf' by (intros b2 z b3 Hz; apply Hf; by apply list_elem_of_further).
  assert (b1 = b) as ->.
  { apply AS; [exact (Hgrow l b1 b Hf' H2)|]. eapply Hf; [apply list_elem_of_here|exact H1]. }
  apply elem_of_cons in Hx as [->|Hx]; [done|]. by apply IH.
Qed.
End Loops.

Lemma elem_of_btree p s : p ∈ btree s <-> p ∈ s.
Proof. unfold btree. by rewrite sort_by_perm, elem_of_elements. Qed.
Lemma at_or_below_spec p root : at_or_below p root = true <-> root `prefix_of` p.
Proof.
  unfold at_or_below. rewrite orb_true_iff, bool_decide_eq_true, path_starts_with_spec. unfold prefix. naive_solver eauto using app_nil_r.
Qed.
Lemma elem_of_ancestors p q : q ∈ ancestors p <-> q `prefix_of` p.
Proof.
  revert q. induction p as [|c p IH]; intros q; cbn [ancestors].
  - rewrite list_elem_of_singleton. split; [intros ->; reflexivity|]. apply prefix_nil_inv.
  - rewrite elem_of_app, list_elem_of_fmap, list_elem_of_singleton. split.
    + intros [(q' & -> & Hq%IH)| ->]; [by apply prefix_cons|apply prefix_nil].
    + intros Hq. destruct q as [|d q]; [by right|]. left. exists q. pose proof (prefix_cons_inv_1 _ _ _ _ Hq) as ->.
      split; [done|]. apply IH. exact (prefix_cons_inv_2 _ _ _ _ Hq).
Qed.
Lemma elem_of_parents p q : q ∈ tail (ancestors p) <-> q `prefix_of` p /\ q <> p.
Proof.
  assert (forall p, exists l, ancestors p = p :: l /\ Forall (fun q => length q < length p) l) as Ha.
  { clear. induction p as [|c p (l & E & Hl)]; cbn [ancestors]; [by exists []|]. rewrite E.
    exists ((cons c <$> l) ++ [[]]). split; [done|]. apply Forall_app. split; [|constructor; [cbn; lia|constructor]].
    apply Forall_fmap. eapply Forall_impl; [exact Hl|]. intros q Hq. cbn in *. lia. }
  destruct (Ha p) as (l & Hp & Hl). pose proof (elem_of_ancestors p q) as Hq. rewrite Hp in *. cbn [tail]. rewrite elem_of_cons in Hq. rewrite <- Hq. split.
  - intros Hin. split; [by right|]. intros ->. rewrite Forall_forall in Hl. specialize (Hl _ Hin). lia.
  - intros [[?|?] ?]; done.
Qed.

(** ** The closure *)

Section ClosureFacts.
Context (excluded : Path -> bool) (changes : list ChangeEntry) (opaque_dirs : list Path) (groups : list (list Path)) (directory_paths : gset Path).
Context (initial : gset Path).

Inductive Needed : Path -> Prop :=
| needed_chosen p : p ∈ initial -> Needed p
| needed_opaque opaque p : Needed opaque -> opaque ∈ opaque_dirs -> p ∈ c_path <$> changes -> opaque `prefix_of` p -> Needed p
| needed_sibling group q p : group ∈ groups -> Needed q -> q ∈ group -> p ∈ group -> Needed p
| needed_ancestor q p : Needed q -> p `prefix_of` q -> p <> q -> p ∈ directory_paths -> Needed p.

(** Why the closure is refused: a needed path is excluded, or lies in an opaque
    directory that was not chosen. *)
Definition Explained (e : ApplyError) : Prop :=
  match e with
  | Refused (InsideOpaque opaque) =>
      opaque ∈ opaque_dirs /\ opaque ∉ initial /\ exists p, Needed p /\ opaque `prefix_of` p /\ p <> opaque
  | Refused (ExcludedFromOpaque p opaque) => Needed p /\ excluded p = true /\ Needed opaque /\ opaque ∈ opaque_dirs /\ opaque `prefix_of` p
  | Refused (ExcludedSibling p) => Needed p /\ excluded p = true
  | Refused (ExcludedAncestor a p) => Needed a /\ excluded a = true /\ Needed p /\ excluded p = false /\ a `prefix_of` p
  | _ => False
  end.

Local Abbreviation opaque_step := (opaque_step excluded changes).
Local Abbreviation group_step := (group_step excluded).
Local Abbreviation ancestor_step := (ancestor_step excluded directory_paths).
Local Abbreviation closure_round := (closure_round excluded changes opaque_dirs groups directory_paths).
Local Abbreviation closure_loop := (closure_loop excluded changes opaque_dirs groups directory_paths).

(** What holds of the selection between any two insertions. *)
Record Sound (s : gset Path) : Prop := mkSound {
  sound_chosen : initial ⊆ s;
  sound_needed p : p ∈ s -> Needed p;
  sound_allowed p : p ∈ s -> excluded p = false
}.
Lemma Sound_insert s p : Sound s -> Needed p -> excluded p = false -> Sound ({[p]} ∪ s).
Proof. intros [Hi Hn Ha] Hp He. constructor; [set_solver|..]; intros q [->%elem_of_singleton|Hq]%elem_of_union; auto. Qed.

Lemma opaque_step_sound s o : o ∈ opaque_dirs -> Sound s -> match opaque_step s o with Ok s' => Sound s' | Err e => Explained e end.
Proof.
  intros Ho Hs. unfold ApplyPlan.opaque_step. destruct (existsb _ (btree s)) eqn:Ec; cbn [andb]; case_bool_decide as Hin; cbn [andb negb ensure mbind result_bind]; try done.
  2: { split_and!; [done|intros Hi; by apply Hin, (sound_chosen _ Hs)|]. apply existsb_exists in Ec as (p & Hp & [Hne%negb_true_iff Hb]%andb_true_iff).
       apply list_elem_of_In, elem_of_btree in Hp. exists p. split_and!; [by apply (sound_needed _ Hs)|by apply at_or_below_spec|by apply bool_decide_eq_false in Hne]. }
  all: apply (fold_res_inv _ Sound Explained); [done|]; intros b c Hc Hb; unfold include_opaque; destruct (at_or_below _ _) eqn:Eb; [|done];
    apply at_or_below_spec in Eb; pose proof (sound_needed _ Hs _ Hin) as Hno;
    assert (Needed (c_path c)) as Hn by (apply (needed_opaque o); [done|done|by apply list_elem_of_fmap_2|done]);
    destruct (excluded (c_path c)) eqn:Ee; cbn [negb ensure mbind result_bind]; [done|by apply Sound_insert].
Qed.
Lemma group_step_sound s g : g ∈ groups -> Sound s -> match group_step s g with Ok s' => Sound s' | Err e => Explained e end.
Proof.
  intros Hg Hs. unfold ApplyPlan.group_step. destruct (existsb _ g) eqn:Eg; [|done].
  apply existsb_exists in Eg as (q & Hq%list_elem_of_In & Hin%bool_decide_eq_true).
  apply (fold_res_inv _ Sound Explained); [done|]. intros b p Hp Hb. unfold include_sibling.
  assert (Needed p) as Hn by (apply (needed_sibling g q); [done|by apply (sound_needed _ Hs)|done|done]).
  destruct (excluded p) eqn:Ee; cbn [negb ensure mbind result_bind]; [done|by apply Sound_insert].
Qed.
Lemma ancestor_step_sound s p : Needed p -> excluded p = false -> Sound s -> match ancestor_step s p with Ok s' => Sound s' | Err e => Explained e end.
Proof.
  intros Hp Hx Hs. unfold ApplyPlan.ancestor_step. apply (fold_res_inv _ Sound Explained); [done|]. intros b a [Ha Hne]%elem_of_parents Hb.
  unfold include_ancestor. case_bool_decide as Hd; [|done].
  assert (Needed a) as Hn by (by apply (needed_ancestor p)).
  destruct (excluded a) eqn:Ee; cbn [negb ensure mbind result_bind]; [done|by apply Sound_insert].
Qed.
Lemma closure_round_sound s : Sound s -> match closure_round s with Ok s' => Sound s' | Err e => Explained e end.
Proof.
  intros Hs. unfold ApplyPlan.closure_round.
  pose proof (fold_res_inv _ Sound Explained opaque_dirs s Hs (fun b o Ho Hb => opaque_step_sound b o Ho Hb)) as H1.
  destruct (fold_res _ opaque_dirs s) as [s1|]; [|done]. cbn [mbind result_bind].
  pose proof (fold_res_inv _ Sound Explained groups s1 H1 (fun b g Hg Hb => group_step_sound b g Hg Hb)) as H2.
  destruct (fold_res _ groups s1) as [s2|]; [|done]. cbn [mbind result_bind].
  apply (fold_res_inv _ Sound Explained); [done|]. intros b p Hp%elem_of_btree Hb. apply ancestor_step_sound; [by apply (sound_needed _ H2)|by apply (sound_allowed _ H2)|done].
Qed.

(** *** Growth *)

Lemma fold_grows {X} (f : gset Path -> X -> Result ApplyError (gset Path)) l s s' :
  (forall b x b', f b x = Ok b' -> b ⊆ b') -> fold_res f l s = Ok s' -> s ⊆ s'.
Proof.
  intros Hf E. assert (s ⊆ s) as Hs by done. pose proof (fold_res_inv f (fun b => s ⊆ b) (fun _ => True) l s Hs) as H. rewrite E in H. apply H.
  intros b x _ Hb. destruct (f b x) as [b'|] eqn:Ef; [|done]. apply Hf in Ef. set_solver.
Qed.
Lemma include_opaque_grows o b c b' : include_opaque excluded o b c = Ok b' -> b ⊆ b'.
Proof. unfold include_opaque. destruct (at_or_below _ _); [|by intros [= ->]]. intros [_ [= <-]]%ensure_bind_Ok. set_solver. Qed.
Lemma include_sibling_grows b p b' : include_sibling excluded b p = Ok b' -> b ⊆ b'.
Proof. intros [_ [= <-]]%ensure_bind_Ok. set_solver. Qed.
Lemma include_ancestor_grows p b a b' : include_ancestor excluded directory_paths p b a = Ok b' -> b ⊆ b'.
Proof. unfold include_ancestor. case_bool_decide; [|by intros [= ->]]. intros [_ [= <-]]%ensure_bind_Ok. set_solver. Qed.
Lemma opaque_step_grows b o b' : opaque_step b o = Ok b' -> b ⊆ b'.
Proof.
  unfold ApplyPlan.opaque_step. intros [_ E]%ensure_bind_Ok. case_bool_decide; [|by injection E as ->].
  eapply fold_grows; [|exact E]. apply include_opaque_grows.
Qed.
Lemma group_step_grows b g b' : group_step b g = Ok b' -> b ⊆ b'.
Proof. unfold ApplyPlan.group_step. destruct (existsb _ g); [|by intros [= ->]]. apply fold_grows, include_sibling_grows. Qed.
Lemma ancestor_step_grows b p b' : ancestor_step b p = Ok b' -> b ⊆ b'.
Proof. apply fold_grows, include_ancestor_grows. Qed.
Lemma closure_round_split s s' : closure_round s = Ok s' ->
  exists s1 s2, fold_res opaque_step opaque_dirs s = Ok s1 /\ fold_res group_step groups s1 = Ok s2 /\ fold_res ancestor_step (btree s2) s2 = Ok s' /\
    s ⊆ s1 /\ s1 ⊆ s2 /\ s2 ⊆ s'.
Proof.
  intros (s1 & H1 & (s2 & H2 & H3)%bind_Ok)%bind_Ok. exists s1, s2. split_and!; [done..| | |].
  - exact (fold_grows _ _ _ _ opaque_step_grows H1).
  - exact (fold_grows _ _ _ _ group_step_grows H2).
  - exact (fold_grows _ _ _ _ ancestor_step_grows H3).
Qed.

(** *** A round that adds nothing *)

Lemma subset_antisym (a b : gset Path) : a ⊆ b -> b ⊆ a -> a = b.
Proof. intros. set_solver. Qed.
Lemma fixed_steps {X} (f : gset Path -> X -> Result ApplyError (gset Path)) l s :
  (forall b x b', f b x = Ok b' -> b ⊆ b') -> fold_res f l s = Ok s -> forall x, x ∈ l -> f s x = Ok s.
Proof. intros Hf. apply (fold_res_fixed f (⊆) subset_antisym). intros b x b' _. apply Hf. Qed.

Lemma closed_opaque s o c : opaque_step s o = Ok s -> o ∈ s -> c ∈ changes -> o `prefix_of` c_path c -> c_path c ∈ s.
Proof.
  intros [_ E]%ensure_bind_Ok Ho Hc Hb. rewrite bool_decide_eq_true_2 in E by done.
  pose proof (fixed_steps _ _ _ (include_opaque_grows o) E c Hc) as Hf. unfold include_opaque in Hf.
  apply at_or_below_spec in Hb. rewrite Hb in Hf. apply ensure_bind_Ok in Hf as [_ [= Hf]]. set_solver.
Qed.
Lemma closed_inside s o p : opaque_step s o = Ok s -> p ∈ s -> o `prefix_of` p -> p <> o -> o ∈ s.
Proof.
  intros [Hb _]%ensure_bind_Ok Hp Hpre Hne. destruct (decide (o ∈ s)) as [|Hn]; [done|]. exfalso.
  rewrite (bool_decide_eq_false_2 (o ∈ s)) in Hb by done. rewrite andb_true_r in Hb. apply negb_true_iff, not_true_iff_false in Hb. apply Hb.
  apply existsb_exists. exists p. split; [by apply list_elem_of_In, elem_of_btree|]. rewrite bool_decide_eq_false_2 by done. by apply at_or_below_spec.
Qed.
Lemma closed_group s g q p : group_step s g = Ok s -> q ∈ g -> q ∈ s -> p ∈ g -> p ∈ s.
Proof.
  unfold ApplyPlan.group_step. intros E Hq Hs Hp. destruct (existsb _ g) eqn:Eg.
  - pose proof (fixed_steps _ _ _ include_sibling_grows E p Hp) as [_ [= Hf]]%ensure_bind_Ok. set_solver.
  - exfalso. apply not_true_iff_false in Eg. apply Eg, existsb_exists. exists q. split; [by apply list_elem_of_In|by apply bool_decide_eq_true].
Qed.
Lemma closed_ancestor s q p : ancestor_step s q = Ok s -> p `prefix_of` q -> p <> q -> p ∈ directory_paths -> p ∈ s.
Proof.
  intros E Hp Hne Hd. pose proof (fixed_steps _ _ _ (include_ancestor_grows q) E p (proj2 (elem_of_parents q p) (conj Hp Hne))) as Hf.
  unfold include_ancestor in Hf. rewrite bool_decide_eq_true_2 in Hf by done. apply ensure_bind_Ok in Hf as [_ [= Hf]]. set_solver.
Qed.
Lemma fixed_round s : closure_round s = Ok s -> initial ⊆ s ->
  (forall p, Needed p -> p ∈ s) /\ (forall o p, o ∈ opaque_dirs -> p ∈ s -> o `prefix_of` p -> p <> o -> o ∈ s).
Proof.
  intros (s1 & s2 & H1 & H2 & H3 & L1 & L2 & L3)%closure_round_split Hi.
  assert (s1 = s) as -> by set_solver. assert (s2 = s) as -> by set_solver.
  pose proof (fixed_steps _ _ _ opaque_step_grows H1) as F1. pose proof (fixed_steps _ _ _ group_step_grows H2) as F2.
  pose proof (fixed_steps _ _ _ ancestor_step_grows H3) as F3. split.
  - induction 1 as [p Hp|o p _ IH Ho Hp Hpre|g q p Hg _ IH Hq Hp|q p _ IH Hpre Hne Hd]; [set_solver|..].
    + apply list_elem_of_fmap in Hp as (c & -> & Hc). by apply (closed_opaque s o c); [apply F1|..].
    + apply (closed_group s g q p); [by apply F2|done..].
    + apply (closed_ancestor s q p); [|done..]. apply F3. by apply elem_of_btree.
  - intros o p Ho Hp Hpre Hne. apply (closed_inside s o p); [by apply F1|done..].
Qed.

(** *** The loop *)

Context (Hinitial : initial ⊆ list_to_set (c_path <$> changes)).
Context (Hdirectories : directory_paths ⊆ list_to_set (c_path <$> changes)).
Context (Hallowed : forall p, p ∈ initial -> excluded p = false).

Definition universe : gset Path := list_to_set (c_path <$> changes) ∪ list_to_set (concat groups).
Lemma needed_universe p : Needed p -> p ∈ universe.
Proof.
  unfold universe. induction 1 as [p Hp|o p _ _ _ Hp _|g q p Hg _ _ _ Hp|q p _ _ _ _ Hd]; [set_solver..| |set_solver].
  apply elem_of_union. right. apply elem_of_list_to_set, list_elem_of_In, in_concat. exists g. by rewrite <- !list_elem_of_In.
Qed.
Lemma size_universe : size universe <= pred (closure_fuel changes groups).
Proof.
  unfold universe, closure_fuel. cbn [pred].
  assert (forall l : list Path, size (list_to_set l : gset Path) <= length l) as Hl.
  { induction l as [|x l IH]; [apply Nat.le_0_l|]. cbn [list_to_set length].
    rewrite size_union_alt. pose proof (subseteq_size (list_to_set l ∖ {[x]} : gset Path) (list_to_set l) ltac:(set_solver)).
    assert (size ({[x]} : gset Path) = 1) as -> by apply size_singleton. lia. }
  rewrite size_union_alt. pose proof (subseteq_size (list_to_set (concat groups) ∖ list_to_set (c_path <$> changes) : gset Path) (list_to_set (concat groups)) ltac:(set_solver)).
  pose proof (Hl (concat groups)). pose proof (Hl (c_path <$> changes)) as Hc. rewrite length_fmap in Hc. lia.
Qed.
Definition Closed (s : gset Path) : Prop :=
  (forall p, p ∈ s <-> Needed p) /\ (forall p, Needed p -> excluded p = false) /\
  (forall o p, o ∈ opaque_dirs -> Needed p -> o `prefix_of` p -> p <> o -> Needed o).

Lemma closure_loop_spec fuel s : Sound s -> size universe < fuel + size s ->
  match closure_loop fuel s with Ok s' => Closed s' | Err e => Explained e end.
Proof.
  revert s. induction fuel as [|fuel IH]; intros s Hs Hf.
  - exfalso. assert (s ⊆ universe) as Hu%subseteq_size by (intros p Hp; by apply needed_universe, (sound_needed _ Hs)). lia.
  - cbn [ApplyPlan.closure_loop]. pose proof (closure_round_sound s Hs) as Hr.
    destruct (closure_round s) as [s'|e] eqn:E; [|done]. cbn [mbind result_bind].
    pose proof (closure_round_split s s' E) as (s1 & s2 & _ & _ & _ & L1 & L2 & L3). assert (s ⊆ s') as Hsub by set_solver.
    case_bool_decide as Hsize.
    + assert (s = s') as <- by (apply leibniz_equiv, (set_subseteq_size_equiv s s'); [done|lia]).
      destruct (fixed_round s E (sound_chosen _ Hs)) as [Hn Hin]. split_and!.
      * intros p. split; [apply (sound_needed _ Hs)|apply Hn].
      * intros p Hp. by apply (sound_allowed _ Hs), Hn.
      * intros o p Ho Hp Hpre Hne. apply (sound_needed _ Hs). by apply (Hin o p Ho); [apply Hn|..].
    + apply IH; [done|]. apply subseteq_size in Hsub. lia.
Qed.
Lemma closure_spec : match closure_loop (closure_fuel changes groups) initial with Ok s => Closed s | Err e => Explained e end.
Proof.
  apply closure_loop_spec; [by constructor; [done|apply needed_chosen|]|]. pose proof size_universe. unfold closure_fuel in *. lia.
Qed.
End ClosureFacts.

(** * Conflicts of an apply with its target

    The order of paths, under which the descendants of a path follow it; which
    first observations an apply takes from the journal; and what it means that
    the target is checked against them. *)

(** ** The order of paths *)

Section LexOrder.
(** The lexicographic order over an element order. *)
Context {A : Type} (cmp : A -> A -> comparison).
Context (cmp_opp : forall a b, cmp a b = CompOpp (cmp b a)) (cmp_eq : forall a b, cmp a b = Eq -> a = b)
  (cmp_trans : forall a b c, cmp a b = Lt -> cmp b c = Lt -> cmp a c = Lt).

Fixpoint lex (p q : list A) : comparison :=
  match p, q with
  | [], [] => Eq
  | [], _ :: _ => Lt
  | _ :: _, [] => Gt
  | c :: p, d :: q => match cmp c d with Eq => lex p q | r => r end
  end.
Lemma lex_opp p q : lex p q = CompOpp (lex q p).
Proof. revert q. induction p as [|c p IH]; intros [|d q]; cbn; try done. rewrite cmp_opp. destruct (cmp d c); cbn; [apply IH|done..]. Qed.
Lemma lex_eq p q : lex p q = Eq -> p = q.
Proof.
  revert q. induction p as [|c p IH]; intros [|d q]; cbn; try done. destruct (cmp c d) eqn:E; try done.
  intros Hl%IH. by rewrite (cmp_eq _ _ E), Hl.
Qed.
Lemma lex_trans p q r : lex p q = Lt -> lex q r = Lt -> lex p r = Lt.
Proof.
  revert q r. induction p as [|c p IH]; intros [|d q] [|e r]; cbn; try done.
  destruct (cmp c d) eqn:E1; try done.
  - apply cmp_eq in E1 as ->. destruct (cmp d e) eqn:E2; try done. apply IH.
  - intros _. destruct (cmp d e) eqn:E2; try done.
    + apply cmp_eq in E2 as ->. by rewrite E1.
    + by rewrite (cmp_trans _ _ _ E1 E2).
Qed.
End LexOrder.

Lemma string_compare_trans a b c : String.compare a b = Lt -> String.compare b c = Lt -> String.compare a c = Lt.
Proof.
  assert (forall s t, String.compare s t = lex Ascii.compare (String.list_ascii_of_string s) (String.list_ascii_of_string t)) as Hl.
  { induction s as [|x s IH]; intros [|y t]; cbn; try done. destruct (Ascii.compare x y); [apply IH|done..]. }
  rewrite !Hl. apply lex_trans; [apply Ascii.compare_eq_iff|]. unfold Ascii.compare. intros x y z. rewrite !N.compare_lt_iff. apply N.lt_trans.
Qed.
Lemma path_compare_lex p q : path_compare p q = lex String.compare p q.
Proof. done. Qed.
Lemma path_compare_eq p q : path_compare p q = Eq -> p = q.
Proof. rewrite path_compare_lex. apply lex_eq, String.compare_eq_iff. Qed.
Lemma path_leb_spec p q : path_leb p q = true <-> path_compare p q = Lt \/ p = q.
Proof.
  unfold path_leb. destruct (path_compare p q) eqn:E.
  - apply path_compare_eq in E. naive_solver.
  - naive_solver.
  - split; [done|]. intros [?| ->]; [done|]. pose proof (lex_opp String.compare String.compare_antisym q q) as Ho. rewrite <- path_compare_lex, E in Ho. done.
Qed.
Lemma path_leb_trans p q r : path_leb p q = true -> path_leb q r = true -> path_leb p r = true.
Proof.
  rewrite !path_leb_spec. intros [H1| ->]; [|done]. intros [H2| <-]; [left|by left]. rewrite path_compare_lex in *.
  exact (lex_trans _ String.compare_eq_iff string_compare_trans _ _ _ H1 H2).
Qed.
Lemma path_leb_total p q : path_leb p q = false -> path_leb q p = true.
Proof.
  unfold path_leb. pose proof (lex_opp String.compare String.compare_antisym q p) as Ho. change (path_compare q p = CompOpp (path_compare p q)) in Ho.
  rewrite Ho. destruct (path_compare p q); done.
Qed.
Lemma path_leb_refl p : path_leb p p = true.
Proof. apply path_leb_spec. by right. Qed.
Lemma path_leb_cons c p d q : path_leb (c :: p) (d :: q) = true <-> String.compare c d = Lt \/ (c = d /\ path_leb p q = true).
Proof.
  unfold path_leb at 1. cbn [path_compare]. destruct (String.compare c d) eqn:E.
  - apply String.compare_eq_iff in E as ->. unfold path_leb. naive_solver.
  - naive_solver.
  - split; [done|]. intros [?|[-> _]]; [done|].
    assert (String.compare d d = Eq) by (clear; induction d as [|x d IH]; cbn; [done|]; unfold Ascii.compare; by rewrite N.compare_refl). congruence.
Qed.
Lemma path_leb_below p q : p `prefix_of` q -> path_leb p q = true.
Proof.
  intros [s ->]. induction p as [|c p IH]; [by destruct s|]. cbn [app]. apply path_leb_cons. by right.
Qed.
(** What lies between two paths below [p] is below [p]. *)
Lemma below_convex p x y z : p `prefix_of` x -> p `prefix_of` z -> path_leb x y = true -> path_leb y z = true -> p `prefix_of` y.
Proof.
  revert x y z. induction p as [|c p IH]; intros x y z Hx Hz Hxy Hyz; [apply prefix_nil|].
  destruct Hx as [sx ->], Hz as [sz ->]. destruct y as [|d y]; [done|]. cbn [app] in *.
  apply path_leb_cons in Hxy as [Hcd|[<- Hxy]]; apply path_leb_cons in Hyz as [Hdc|[Hdc Hyz]].
  - exfalso. rewrite String.compare_antisym, Hdc in Hcd. done.
  - exfalso. subst d. assert (String.compare c c = CompOpp (String.compare c c)) as Ha by apply String.compare_antisym. rewrite Hcd in Ha. done.
  - exfalso. assert (String.compare c c = CompOpp (String.compare c c)) as Ha by apply String.compare_antisym. rewrite Hdc in Ha. done.
  - apply prefix_cons. apply (IH (p ++ sx) y (p ++ sz)); [by eexists..|done|done].
Qed.

(** ** The range of a map below a path *)

Section Range.
Context (index : list TargetPreimage) (Hsorted : StronglySorted (fun a b : TargetPreimage => path_leb a.1 b.1 = true) index).

Lemma taking_while_elem {X} (f : X -> bool) l x : x ∈ taking_while f l -> x ∈ l /\ f x = true.
Proof.
  induction l as [|y l IH]; cbn [taking_while]; [by intros ?%elem_of_nil|]. destruct (f y) eqn:E; [|by intros ?%elem_of_nil].
  intros [->|Hx]%elem_of_cons; [split; [apply list_elem_of_here|done]|]. apply IH in Hx as [? ?]. split; [by apply list_elem_of_further|done].
Qed.
Lemma skipping_while_suffix {X} (f : X -> bool) l : exists pre, l = pre ++ skipping_while f l /\ Forall (fun x => f x = true) pre.
Proof.
  induction l as [|y l (pre & E & Hp)]; cbn [skipping_while]; [by exists []|]. destruct (f y) eqn:Ef; [|by exists []].
  exists (y :: pre). cbn [app]. rewrite <- E. split; [done|]. by constructor.
Qed.
Lemma range_exact path x : x ∈ preimages_below index path <-> x ∈ index /\ path `prefix_of` x.1.
Proof.
  unfold preimages_below. set (rest := skipping_while _ _).
  destruct (skipping_while_suffix (fun preimage : TargetPreimage => negb (path_leb path preimage.1)) index) as (pre & E & Hpre).
  change (index = pre ++ rest) in E. split.
  - intros [Hx Hs]%taking_while_elem. split; [rewrite E; apply elem_of_app; by right|]. apply path_starts_with_spec in Hs as [s Hs]. by exists s.
  - intros [Hx Hp]. rewrite E in Hx. apply elem_of_app in Hx as [Hx|Hx].
    { exfalso. rewrite Forall_forall in Hpre. specialize (Hpre x Hx). cbn in Hpre. by rewrite (path_leb_below _ _ Hp) in Hpre. }
    assert (StronglySorted (fun a b : TargetPreimage => path_leb a.1 b.1 = true) rest) as Hs.
    { rewrite E in Hsorted. clear -Hsorted. induction pre as [|y pre IH]; [done|]. apply IH. by inversion Hsorted. }
    assert (match rest with [] => True | y :: _ => path_leb path y.1 = true end) as Hhead.
    { unfold rest. clear. induction index as [|y l IH]; cbn [skipping_while]; [done|]. destruct (path_leb path y.1) eqn:Ey; cbn [negb]; [done|exact IH]. }
    assert (Forall (fun y : TargetPreimage => path_leb path y.1 = true) rest) as Hall.
    { destruct rest as [|y rest]; [constructor|]. constructor; [done|]. apply StronglySorted_inv in Hs as [_ Hs]. eapply Forall_impl; [exact Hs|].
      intros z Hz. by apply (path_leb_trans _ y.1). }
    clear E Hhead Hpre. clearbody rest. clear pre. induction rest as [|y rest IH]; [by apply elem_of_nil in Hx|]. cbn [taking_while].
    apply Forall_cons_1 in Hall as [Hy Hall]. apply StronglySorted_inv in Hs as [Hs Hlow].
    assert (path `prefix_of` y.1) as Hpy.
    { apply elem_of_cons in Hx as [->|Hx]; [done|]. rewrite Forall_forall in Hlow.
      apply (below_convex path path y.1 x.1); [done|done|done|by apply Hlow]. }
    cbv beta. assert (path_starts_with y.1 path = true) as -> by (apply path_starts_with_spec; destruct Hpy as [s ->]; by exists s).
    apply elem_of_cons in Hx as [->|Hx]; [apply list_elem_of_here|]. apply list_elem_of_further. by apply IH.
Qed.
End Range.

Lemma index_preimages_sorted l : StronglySorted (fun a b : TargetPreimage => path_leb a.1 b.1 = true) (index_preimages l).
Proof.
  apply (sort_by_sorted (fun a b : TargetPreimage => path_leb a.1 b.1)).
  - intros x y z. apply path_leb_trans.
  - intros x y. apply path_leb_total.
Qed.
Lemma elem_of_index l p f : NoDup l.*1 -> (p, f) ∈ index_preimages l <-> (p, f) ∈ l.
Proof.
  intros Hnd. unfold index_preimages. rewrite sort_by_perm, elem_of_map_to_list.
  rewrite <- elem_of_list_to_map; [apply elem_of_reverse|]. rewrite fmap_reverse, reverse_Permutation. done.
Qed.

(** ** What is compared *)

Lemma btree_NoDup s : NoDup (btree s).
Proof. unfold btree. rewrite sort_by_perm. apply NoDup_elements. Qed.

Lemma filter_keys_NoDup {K V} (f : K * V -> bool) l : NoDup l.*1 -> NoDup (List.filter f l).*1.
Proof.
  induction l as [|x l IH]; cbn [List.filter fmap list_fmap]; [done|]. intros [Hx Hl]%NoDup_cons. destruct (f x); [|by apply IH].
  cbn [fmap list_fmap]. apply NoDup_cons. split; [|by apply IH]. intros (y & Hxy & Hy)%list_elem_of_fmap. apply Hx. rewrite Hxy. apply list_elem_of_fmap.
  apply list_elem_of_In, filter_In in Hy as [Hy _]. exists y. split; [done|]. by apply list_elem_of_In.
Qed.

Section Prepare.
Context `{Digest256} (h : Host) (record : OverlayRecord).

(** Where a preimage comes from: the journal, or the target itself when the
    journal does not claim to be complete. *)
Definition sourced (journal : gmap Path PathFingerprint) (complete : bool) (p : Path) (f : PathFingerprint) : Prop :=
  journal !! p = Some f \/ (complete = false /\ journal !! p = None /\ fingerprint_at h (or_target record) p = Ok f).

Lemma take_preimages_spec complete l journal pre rest pre' : NoDup l ->
  fold_res (take_preimage h record complete) l (journal, pre) = Ok (rest, pre') ->
  (forall p, rest !! p = if decide (p ∈ l) then None else journal !! p) /\
  exists taken, pre' = pre ++ taken /\ taken.*1 = l /\ forall p f, (p, f) ∈ taken -> sourced journal complete p f.
Proof.
  revert journal pre. induction l as [|q l IH]; intros journal pre Hnd; cbn [fold_res].
  - intros [= <- <-]. split; [intros p; by rewrite decide_False by apply not_elem_of_nil|].
    exists []. split_and!; [by rewrite app_nil_r|done|by intros ? ? ?%elem_of_nil].
  - apply NoDup_cons in Hnd as [Hq Hnd]. intros ([j1 pre1] & H1 & H2)%bind_Ok. apply IH in H2 as [Hrest (taken & -> & Hl & Hsrc)]; [|done].
    assert (exists f, pre1 = pre ++ [(q, f)] /\ sourced journal complete q f /\ forall p, j1 !! p = if decide (p = q) then None else journal !! p) as (f & -> & Hf & Hj).
    { unfold take_preimage in H1. destruct (journal !! q) as [f|] eqn:Ej.
      - injection H1 as <- <-. exists f. split_and!; [done|by left|]. intros p. case_decide; [subst; apply lookup_delete_eq|by apply lookup_delete_ne].
      - destruct complete; [done|]. apply bind_Ok in H1 as (f & Hf & [= <- <-]). exists f. split_and!; [done| |intros p; case_decide; by subst].
        right. split_and!; [done..|]. by destruct (fingerprint_at h (or_target record) q) as [g|]; cbn in Hf; simplify_eq. }
    split.
    + intros p. rewrite Hrest, Hj. destruct (decide (p = q)) as [->|Hne].
      * rewrite (decide_True (P := q ∈ q :: l)) by apply list_elem_of_here. by case_decide.
      * destruct (decide (p ∈ l)) as [Hin|Hin]; [by rewrite decide_True by (by apply list_elem_of_further)|].
        rewrite decide_False; [done|]. by intros [?|?]%elem_of_cons.
    + exists ((q, f) :: taken). split_and!; [by rewrite <- app_assoc|cbn; by rewrite Hl|]. intros p g [[= -> ->]|Hin]%elem_of_cons; [done|].
      assert (p ∈ l) as Hpl by (rewrite <- Hl; apply list_elem_of_fmap; by exists (p, g)).
      assert (p <> q) as Hne by (by intros ->). unfold sourced in *. specialize (Hsrc p g Hin). by rewrite Hj, decide_False in Hsrc.
Qed.

Lemma prepare_preimages_spec journal selected changes preimages : prepare_apply_preimages h record journal selected changes = Ok preimages ->
  NoDup preimages.*1 /\
  (forall p, p ∈ selected -> exists f, (p, f) ∈ preimages /\ sourced (pj_entries journal) (pj_complete journal) p f) /\
  (forall p f, pj_entries journal !! p = Some f -> fences selected changes (p, f) = true -> (p, f) ∈ preimages) /\
  (forall p f, (p, f) ∈ preimages -> p ∈ selected \/ pj_entries journal !! p = Some f).
Proof.
  intros ([rest pre] & H1 & [= <-])%bind_Ok. apply take_preimages_spec in H1 as [Hrest (taken & -> & Hl & Hsrc)]; [|apply btree_NoDup].
  cbn [app]. set (more := List.filter (fences selected changes) (map_to_list rest)).
  assert (forall p f, (p, f) ∈ more <-> rest !! p = Some f /\ fences selected changes (p, f) = true) as Hmore.
  { intros p f. unfold more. rewrite list_elem_of_In, filter_In, <- list_elem_of_In, elem_of_map_to_list. done. }
  assert (forall p f, pj_entries journal !! p = Some f -> p ∈ selected -> (p, f) ∈ taken) as Htaken.
  { intros p f Hj Hp. assert (p ∈ taken.*1) as ((p' & g) & -> & Hin)%list_elem_of_fmap by (rewrite Hl; by apply elem_of_btree). cbn [fst] in *.
    destruct (Hsrc p' g Hin) as [?|(_ & ? & _)]; [|congruence]. by simplify_eq. }
  split_and!.
  - rewrite sort_by_perm, fmap_app. apply NoDup_app. rewrite Hl. split_and!; [apply btree_NoDup| |].
    + intros p Hp ((p' & g) & -> & [Hr _]%Hmore)%list_elem_of_fmap. cbn [fst] in *. by rewrite Hrest, decide_True in Hr.
    + unfold more. apply filter_keys_NoDup, NoDup_fst_map_to_list.
  - intros p Hp. assert (p ∈ taken.*1) as ((p' & f) & -> & Hin)%list_elem_of_fmap by (rewrite Hl; by apply elem_of_btree). exists f. cbn [fst].
    split; [|by apply Hsrc]. rewrite sort_by_perm. apply elem_of_app. by left.
  - intros p f Hj Hf. rewrite sort_by_perm. apply elem_of_app. destruct (decide (p ∈ selected)) as [Hp|Hp]; [left; by apply Htaken|right].
    apply Hmore. split; [|done]. rewrite Hrest, decide_False; [done|]. by rewrite elem_of_btree.
  - intros p f. rewrite sort_by_perm. intros [Hin|[Hr _]%Hmore]%elem_of_app.
    + left. rewrite <- elem_of_btree, <- Hl. apply list_elem_of_fmap. by exists (p, f).
    + right. rewrite Hrest in Hr. by case_decide.
Qed.

Definition target_matches (p : Path) (f : PathFingerprint) : Prop :=
  exists current, fingerprint_at h (or_target record) p = Ok current /\ fp_matches f current = true.
Lemma validate_preimage_fresh changes p f : validate_target_preimage h record changes false (p, f) = Ok tt <-> target_matches p f.
Proof.
  unfold validate_target_preimage, target_matches. destruct (fingerprint_at h (or_target record) p) as [current|e]; cbn [io map_err mbind result_bind andb].
  - destruct (fp_matches f current) eqn:E; cbn; [split; [eauto|done]|]. split; [done|]. intros (? & [= <-] & ?). congruence.
  - split; [done|]. by intros (? & ? & _).
Qed.
Lemma validate_preimages_fresh changes preimages : validate_target_preimages h record preimages changes false = Ok tt <->
  forall p f, (p, f) ∈ preimages -> target_matches p f.
Proof.
  unfold validate_target_preimages. rewrite for_each_Ok. split.
  - intros Hv p f Hin. apply (validate_preimage_fresh changes). by apply Hv.
  - intros Hv [p f] Hin. apply validate_preimage_fresh. by apply Hv.
Qed.
Lemma fences_spec selected changes p f : fences selected changes (p, f) = true <->
  (is_directory_fingerprint f = true /\ exists q, q ∈ selected /\ p `prefix_of` q /\ p <> q) \/
  (exists c, c ∈ changes /\ replaces_directory c = true /\ c_path c `prefix_of` p).
Proof.
  unfold fences. rewrite orb_true_iff, andb_true_iff, !existsb_exists. split.
  - intros [[(q & Hq & Hp%bool_decide_eq_true) Hf]|(c & Hc & [Hr [s Hs]%path_starts_with_spec]%andb_true_iff)].
    + left. apply list_elem_of_In, elem_of_btree in Hq. apply elem_of_parents in Hp as [? ?]. eauto.
    + right. apply list_elem_of_In in Hc. exists c. split_and!; [done..|]. by exists s.
  - intros [[Hf (q & Hq & Hp & Hne)]|(c & Hc & Hr & [s Hs])].
    + left. split; [|done]. exists q. split; [by apply list_elem_of_In, elem_of_btree|]. apply bool_decide_eq_true, elem_of_parents. done.
    + right. exists c. split; [by apply list_elem_of_In|]. apply andb_true_iff. split; [done|]. apply path_starts_with_spec. by exists s.
Qed.
End Prepare.

(** * The inventory of the upper and the view

    The walk of the upper ends and visits every name that can show. The changes it
    stands for cover every path at which the merged view differs from what the
    lowers alone show. *)

(** ** The walk *)

Lemma shown_not_copy_up c n : is_whiteout_name c = false -> is_copy_up_directory c n = false.
Proof.
  intros Hc. unfold is_copy_up_directory. destruct (starts_with c TEMP_PREFIX) eqn:E; [|done]. apply temp_name_whiteout in E. congruence.
Qed.

Section Walk.
Context (h : Host) (W : wf h).

(** The body of the loop over a directory. *)
Definition walk_name (fuel : nat) (dir : Path) (name : string) : Result IoErr (list UpperEntry) :=
  let path := dir ++ [name] in
  '(i, n) ← lstat h (Upper, path);
  if is_copy_up_directory name n then Ok []
  else
    let whiteout := is_whiteout_name name in
    below ← (if is_dir (i_kind n) && negb whiteout then walk_upper_metadata fuel h path else Ok []);
    Ok (mkUpperEntry path whiteout i n :: below).
Lemma walk_unfold fuel dir : kind_at h (Upper, dir) = Some KDir ->
  walk_upper_metadata (S fuel) h dir = (rows ← collect (walk_name fuel dir) (read_dir h (Upper, dir)); Ok (concat rows)).
Proof.
  intros (n & Hn & Hk)%kind_at_Some. destruct (lstat_present h _ n W Hn) as (i & _ & _ & El).
  cbn [walk_upper_metadata]. rewrite El, Hk. done.
Qed.
Lemma walk_name_present fuel dir name n i : h_names h !! (Upper, dir ++ [name]) = Some i -> node h (Upper, dir ++ [name]) = Some n ->
  walk_name fuel dir name =
    if is_copy_up_directory name n then Ok []
    else below ← (if is_dir (i_kind n) && negb (is_whiteout_name name) then walk_upper_metadata fuel h (dir ++ [name]) else Ok []);
         Ok (mkUpperEntry (dir ++ [name]) (is_whiteout_name name) i n :: below).
Proof.
  intros Hi Hn. destruct (lstat_present h _ n W Hn) as (j & Hj & _ & El). assert (j = i) as -> by congruence.
  unfold walk_name. by rewrite El.
Qed.
Lemma listed_node r dir name : name ∈ read_dir h (r, dir) -> exists i n, h_names h !! (r, dir ++ [name]) = Some i /\ node h (r, dir ++ [name]) = Some n.
Proof.
  intros Hi%read_dir_spec. pose proof Hi as Hk. apply (kind_names h _ W) in Hk as [k (n & Hn & _)%kind_at_Some]. destruct Hi as [i Hi]. eauto.
Qed.

Lemma walk_total N fuel dir : (forall p, is_Some (h_names h !! (Upper, p)) -> length p <= N) -> N < fuel + length dir ->
  kind_at h (Upper, dir) = Some KDir -> exists l, walk_upper_metadata fuel h dir = Ok l.
Proof.
  intros HN. revert dir. induction fuel as [|fuel IH]; intros dir Hf Hd.
  - exfalso. assert (is_Some (h_names h !! (Upper, dir))) as Hs by (apply (kind_names h _ W); by rewrite Hd). specialize (HN dir Hs). lia.
  - rewrite (walk_unfold fuel dir Hd). destruct (collect_total (walk_name fuel dir) (read_dir h (Upper, dir))) as [rows ->]; [|by eexists].
    intros name Hin. destruct (listed_node _ _ _ Hin) as (i & n & Hi & Hn). rewrite (walk_name_present fuel dir name n i Hi Hn).
    destruct (is_copy_up_directory name n); [by eexists|]. destruct (is_dir (i_kind n) && _) eqn:E; [|by eexists].
    apply andb_true_iff in E as [E _]. destruct (IH (dir ++ [name])) as [l ->]; [rewrite length_app; cbn; lia| |by eexists].
    apply kind_at_Some. exists n. split; [done|]. by destruct (i_kind n).
Qed.
Lemma inventory_total : exists l, upper_inventory h = Ok l.
Proof.
  unfold upper_inventory, upper_is_dir. case_bool_decide as Hd; [|by eexists].
  apply (walk_total (pred (pred (tree_fuel h)))); [|unfold tree_fuel; cbn; lia|done].
  intros p [i Hi]. unfold tree_fuel. cbn [pred]. apply max_list_elem_of_le, list_elem_of_fmap. exists ((Upper, p), i). split; [done|]. by apply elem_of_map_to_list.
Qed.

Lemma walk_complete fuel dir l (m : Path) c n : walk_upper_metadata fuel h dir = Ok l -> kind_at h (Upper, dir) = Some KDir ->
  Forall (fun d => is_whiteout_name d = false) m -> is_copy_up_directory c n = false -> node h (Upper, dir ++ m ++ [c]) = Some n ->
  exists i, h_names h !! (Upper, dir ++ m ++ [c]) = Some i /\ mkUpperEntry (dir ++ m ++ [c]) (is_whiteout_name c) i n ∈ l.
Proof.
  revert dir l m. induction fuel as [|fuel IH]; intros dir l m E Hd Hm Hc Hn; [done|]. rewrite (walk_unfold fuel dir Hd) in E.
  apply bind_Ok in E as (rows & Hrows & [= <-]).
  assert (forall name row, name ∈ read_dir h (Upper, dir) -> walk_name fuel dir name = Ok row -> forall e, e ∈ row -> e ∈ concat rows) as Hrow.
  { intros name row Hin Hr e He. apply list_elem_of_In, in_concat. exists row. split; [|by apply list_elem_of_In]. apply list_elem_of_In.
    apply (collect_elem_of _ _ _ _ Hrows). eauto. }
  assert (forall name, name ∈ read_dir h (Upper, dir) -> exists row, walk_name fuel dir name = Ok row) as Hok.
  { intros name Hin. apply collect_Ok in Hrows. apply list_elem_of_lookup in Hin as [k Hk].
    destruct (Forall2_lookup_l _ _ _ _ _ Hrows Hk) as (row & _ & Hr). eauto. }
  destruct m as [|d m].
  - cbn [app] in *. pose proof Hn as (i & Hi & _)%node_Some. exists i. split; [done|].
    assert (c ∈ read_dir h (Upper, dir)) as Hin by (apply read_dir_spec; by eexists). destruct (Hok c Hin) as [row Hr]. apply (Hrow c row Hin Hr).
    rewrite (walk_name_present fuel dir c n i Hi Hn), Hc in Hr. apply bind_Ok in Hr as (below & _ & [= <-]). apply list_elem_of_here.
  - apply Forall_cons_1 in Hm as [Hdw Hm]. assert (dir ++ (d :: m) ++ [c] = (dir ++ [d]) ++ m ++ [c]) as Happ by (by rewrite <- app_assoc).
    rewrite Happ in *. assert (kind_at h (Upper, dir ++ [d]) = Some KDir) as Hdd.
    { apply (wf_prefix_dir h Upper (dir ++ [d]) (m ++ [c]) (i_kind n) W); [by destruct m|]. unfold kind_at. by rewrite Hn. }
    pose proof Hdd as (nd & Hnd & Hkd)%kind_at_Some. pose proof Hnd as (id & Hid & _)%node_Some.
    assert (d ∈ read_dir h (Upper, dir)) as Hin by (apply read_dir_spec; by eexists). destruct (Hok d Hin) as [row Hr].
    pose proof Hr as Hr'. rewrite (walk_name_present fuel dir d nd id Hid Hnd), (shown_not_copy_up d nd Hdw), Hkd, Hdw in Hr'. cbn [is_dir andb negb] in Hr'.
    apply bind_Ok in Hr' as (below & Hb & [= <-]). destruct (IH (dir ++ [d]) below m Hb Hdd Hm Hc Hn) as (i & Hi & He). exists i. split; [done|].
    apply (Hrow d _ Hin Hr). by apply list_elem_of_further.
Qed.
(** A visited entry is a name of the upper, below directories that can show. *)
Lemma walk_sound fuel dir l e : walk_upper_metadata fuel h dir = Ok l -> kind_at h (Upper, dir) = Some KDir -> e ∈ l ->
  exists m c, ue_relative e = dir ++ m ++ [c] /\ Forall (fun d => is_whiteout_name d = false) m /\ ue_whiteout e = is_whiteout_name c /\
    h_names h !! (Upper, ue_relative e) = Some (ue_ino e) /\ node h (Upper, ue_relative e) = Some (ue_node e).
Proof.
  revert dir l. induction fuel as [|fuel IH]; intros dir l E Hd He; [done|]. rewrite (walk_unfold fuel dir Hd) in E.
  apply bind_Ok in E as (rows & Hrows & [= <-]). apply list_elem_of_In, in_concat in He as (row & Hrow & He%list_elem_of_In).
  apply list_elem_of_In, (collect_elem_of _ _ _ _ Hrows) in Hrow as (name & Hin & Hr).
  destruct (listed_node _ _ _ Hin) as (i & n & Hi & Hn). rewrite (walk_name_present fuel dir name n i Hi Hn) in Hr.
  destruct (is_copy_up_directory name n); [injection Hr as <-; by apply elem_of_nil in He|].
  apply bind_Ok in Hr as (below & Hb & [= <-]). apply elem_of_cons in He as [->|He]; [by exists [], name|].
  destruct (is_dir (i_kind n) && _) eqn:Ed; [|injection Hb as <-; by apply elem_of_nil in He].
  apply andb_true_iff in Ed as [Ed Hw%negb_true_iff].
  assert (kind_at h (Upper, dir ++ [name]) = Some KDir) as Hdd by (apply kind_at_Some; exists n; split; [done|by destruct (i_kind n)]).
  destruct (IH _ _ Hb Hdd He) as (m & c & Hrel & Hm & Hrest). exists (name :: m), c. split; [by rewrite Hrel, <- app_assoc|].
  split; [by constructor|done].
Qed.

(** ** Names of one file *)

(** Two names of the upper that are no markers and share a regular file. *)
Definition names_one_file (p q : Path) : Prop :=
  tidy p /\ tidy q /\ p <> q /\ exists i n, h_names h !! (Upper, p) = Some i /\ h_names h !! (Upper, q) = Some i /\ h_inodes h !! i = Some n /\ is_file (i_kind n) = true.
Lemma two_links l l' i : l <> l' -> h_names h !! l = Some i -> h_names h !! l' = Some i -> 1 < nlink h i.
Proof.
  intros Hne H1 H2. rewrite nlink_links. enough (2 <= links (h_names h) i) by lia. transitivity (links (<[l := i]> {[l' := i]}) i).
  - unfold links. rewrite (map_to_list_insert ({[l' := i]} : gmap Loc nat)) by (by rewrite lookup_singleton_ne). rewrite map_to_list_singleton. cbn. by rewrite !decide_True.
  - apply links_subseteq. intros x. rewrite lookup_insert_Some, lookup_singleton_Some. intros [[<- _]|(_ & <- & _)]; done.
Qed.
Lemma inventory_walked inventory p : upper_inventory h = Ok inventory -> p <> [] -> is_Some (h_names h !! (Upper, p)) ->
  kind_at h (Upper, []) = Some KDir /\ walk_upper_metadata (tree_fuel h) h [] = Ok inventory.
Proof.
  intros Hi Hp Hs. assert (kind_at h (Upper, []) = Some KDir) as Hd.
  { apply (kind_names h _ W) in Hs as [k Hk]. exact (wf_prefix_dir h Upper [] p k W Hp Hk). }
  unfold upper_inventory, upper_is_dir in Hi. by rewrite bool_decide_eq_true_2 in Hi.
Qed.
Lemma linked_entry inventory e : upper_inventory h = Ok inventory -> e ∈ inventory -> ue_whiteout e = false ->
  tidy (ue_relative e) /\ h_names h !! (Upper, ue_relative e) = Some (ue_ino e) /\ h_inodes h !! ue_ino e = Some (ue_node e).
Proof.
  unfold upper_inventory, upper_is_dir. case_bool_decide as Hd; [|intros [= <-] []%not_elem_of_nil]. intros Hi He Hw.
  destruct (walk_sound _ _ _ _ Hi Hd He) as (m & c & Hrel & Hm & Hwc & Hn & Hnode). split_and!; [|done|].
  - rewrite Hrel. apply tidy_snoc. split; [exact Hm|congruence].
  - apply node_Some in Hnode as (i & ? & ?). congruence.
Qed.
Lemma file_listed inventory p i n : upper_inventory h = Ok inventory -> tidy p -> p <> [] -> h_names h !! (Upper, p) = Some i -> h_inodes h !! i = Some n ->
  mkUpperEntry p false i n ∈ inventory.
Proof.
  intros Hi Ht Hne Hp Hn. destruct (inventory_walked inventory p Hi Hne ltac:(by eexists)) as [Hd Hw]. destruct (path_snoc_cases p) as [->|(q & c & ->)]; [done|].
  apply tidy_snoc in Ht as [Hq Hc]. assert (node h (Upper, q ++ [c]) = Some n) as Hnode by (apply node_Some; eauto).
  destruct (walk_complete _ [] inventory q c n Hw Hd Hq (shown_not_copy_up c n Hc) Hnode) as (j & Hj & Hin). cbn [app] in *. rewrite Hc in Hin. congruence.
Qed.
(** The groups are the sets of names of one file. *)
Lemma group_names inventory g p q : upper_inventory h = Ok inventory -> g ∈ upper_hard_link_groups h inventory -> p ∈ g -> q ∈ g -> p = q \/ names_one_file p q.
Proof.
  intros Hi Hg Hp Hq. unfold upper_hard_link_groups in Hg. apply list_elem_of_In, filter_In in Hg as [Hg _]. apply list_elem_of_In, list_elem_of_fmap in Hg as (i & -> & _).
  assert (forall x, x ∈ ue_relative <$> List.filter (fun e => bool_decide (ue_ino e = i)) (List.filter (fun e => negb (ue_whiteout e) && is_file (i_kind (ue_node e)) && (1 <? nlink h (ue_ino e))) inventory) ->
    tidy x /\ exists n, h_names h !! (Upper, x) = Some i /\ h_inodes h !! i = Some n /\ is_file (i_kind n) = true) as Hx.
  { intros x (e & -> & He)%list_elem_of_fmap. apply list_elem_of_In, filter_In in He as [He Hino%bool_decide_eq_true]. apply filter_In in He as [He Hf].
    apply andb_true_iff in Hf as [[Hw%negb_true_iff Hf]%andb_true_iff _]. destruct (linked_entry inventory e Hi (proj2 (list_elem_of_In _ _) He) Hw) as (Ht & Hn & Hnode).
    subst i. split; [done|]. by exists (ue_node e). }
  destruct (Hx p Hp) as (Htp & n & Hnp & Hn & Hf), (Hx q Hq) as (Htq & n' & Hnq & _). destruct (decide (p = q)); [by left|right]. split_and!; [done..|]. by exists i, n.
Qed.
Lemma names_group inventory p q : upper_inventory h = Ok inventory -> names_one_file p q -> exists g, g ∈ upper_hard_link_groups h inventory /\ p ∈ g /\ q ∈ g.
Proof.
  intros Hi (Htp & Htq & Hne & i & n & Hp & Hq & Hn & Hf).
  assert (p <> [] /\ q <> []) as [Hpn Hqn].
  { assert (forall x y, x <> y -> h_names h !! (Upper, x) = Some i -> h_names h !! (Upper, y) = Some i -> x <> []) as Hx; [|split; [by apply (Hx p q)|by apply (Hx q p)]].
    intros x y Hxy Hx Hy ->. destruct (inventory_walked inventory y Hi ltac:(done) ltac:(by eexists)) as [Hd _].
    apply kind_at_Some in Hd as (m & (j & Hj & Hm)%node_Some & Hk). assert (m = n) as -> by congruence. by rewrite Hk in Hf. }
  set (linked := List.filter (fun e => negb (ue_whiteout e) && is_file (i_kind (ue_node e)) && (1 <? nlink h (ue_ino e))) inventory).
  assert (forall x, x = p \/ x = q -> mkUpperEntry x false i n ∈ linked) as Hl.
  { assert ((1 <? nlink h i) = true) as Hlinks by (apply Nat.ltb_lt; apply (two_links (Upper, p) (Upper, q)); [congruence|done|done]).
    intros x Hx. apply list_elem_of_In, filter_In. split; [|cbn [ue_whiteout ue_node ue_ino]; by rewrite Hf, Hlinks]. apply list_elem_of_In. destruct Hx as [->| ->]; by apply file_listed. }
  set (g := ue_relative <$> List.filter (fun e => bool_decide (ue_ino e = i)) linked).
  assert (forall x, x = p \/ x = q -> x ∈ g) as Hg.
  { intros x Hx. apply list_elem_of_fmap. exists (mkUpperEntry x false i n). split; [done|]. apply list_elem_of_In, filter_In. split; [by apply list_elem_of_In, Hl|by apply bool_decide_eq_true]. }
  exists g. split_and!; [|by apply Hg; left|by apply Hg; right]. unfold upper_hard_link_groups. fold linked. apply list_elem_of_In, filter_In. split.
  - apply list_elem_of_In, list_elem_of_fmap. exists i. split; [done|]. apply elem_of_remove_dups, list_elem_of_fmap. exists (mkUpperEntry p false i n). split; [done|]. apply Hl. by left.
  - apply Nat.ltb_lt. pose proof (Hg p (or_introl eq_refl)) as H1. pose proof (Hg q (or_intror eq_refl)) as H2.
    destruct g as [|x [|y g]]; [by apply elem_of_nil in H1| |cbn; lia]. apply list_elem_of_singleton in H1, H2. congruence.
Qed.
End Walk.

(** ** What the lowers show alone *)

Section LowerView.
Context (count : nat).
Fixpoint lower_view_from (h : Host) (v : option Kind) (at_ rest : Path) : option Kind :=
  match rest with
  | [] => v
  | c :: rest => lower_view_from h (if decide (v = Some KDir) then lower_loc h count 0 (at_ ++ [c]) ≫= kind_at h else None) (at_ ++ [c]) rest
  end.
Definition lower_view (h : Host) (p : Path) : option Kind := lower_view_from h (Some KDir) [] p.
Lemma lower_view_from_snoc h v a p c : lower_view_from h v a (p ++ [c]) =
  if decide (lower_view_from h v a p = Some KDir) then lower_loc h count 0 ((a ++ p) ++ [c]) ≫= kind_at h else None.
Proof.
  revert v a. induction p as [|d p IH]; intros v a; cbn [lower_view_from app]; [by rewrite app_nil_r|].
  rewrite IH. by rewrite <- (app_assoc a [d] p).
Qed.
Lemma lower_view_snoc h p c :
  lower_view h (p ++ [c]) = if decide (lower_view h p = Some KDir) then lower_loc h count 0 (p ++ [c]) ≫= kind_at h else None.
Proof. apply lower_view_from_snoc. Qed.
End LowerView.

Definition kind_type (k : Kind) : ChangeEntryType := match k with KFile _ => TyFile | KDir => TyDirectory | KSymlink _ => TySymlink | KNode _ _ => TyOther end.
Lemma metadata_kind_type n : metadata_type n = kind_type (i_kind n).
Proof. done. Qed.
Lemma kind_type_dir k : kind_type k = TyDirectory <-> k = KDir.
Proof. by destruct k. Qed.

Section Cover.
Context (core : OverlayCore) `{Digest256} (h : Host) (W : wf h) (R : rooted core h) (journal : gmap Path PathFingerprint).
Local Abbreviation count := (oc_lowers core).
Definition overlay_lowers : list Root := Lower <$> seq 0 count.
Local Abbreviation entry_changes := (entry_changes h overlay_lowers journal).

Lemma lower_metadata_from q c n index : index + n = count -> normal (q ++ [c]) ->
  lower_metadata h (Lower <$> seq index n) (q ++ [c]) = lower_loc h n index (q ++ [c]) ≫= node h.
Proof.
  intros Hc Hn. revert index Hc. induction n as [|n IH]; intros index Hc; [done|]. unfold lower_metadata in *. cbn [seq fmap list_fmap lower_loc omap list_omap].
  destruct (layer_metadata_spec h W (Lower index) q c None) as (m & parents & checked & E & _ & Hm); [apply (rooted_lower core h R); lia|done|done|].
  unfold layer_metadata at 1. rewrite E. cbn [mbind result_bind into_entry]. destruct m as [i x| |]; cbn [into_entry].
  - destruct Hm as [_ Hx]. unfold kind_at. rewrite Hx. cbn. by rewrite Hx.
  - destruct Hm as [Hx _]. unfold kind_at at 1. rewrite Hx. cbn [fmap option_fmap option_map]. apply IH. lia.
  - destruct Hm as [Hx _]. unfold kind_at at 1. rewrite Hx. cbn [fmap option_fmap option_map]. apply IH. lia.
Qed.
Lemma lower_type q c : normal (q ++ [c]) ->
  metadata_type <$> lower_metadata h overlay_lowers (q ++ [c]) = kind_type <$> (lower_loc h count 0 (q ++ [c]) ≫= kind_at h).
Proof.
  intros Hn. unfold overlay_lowers. rewrite (lower_metadata_from q c count 0) by done. destruct (lower_loc h count 0 (q ++ [c])) as [l|]; cbn; [|done].
  unfold kind_at. by destruct (node h l).
Qed.

(** The attributes of a directory that an apply carries over. *)
Definition directory_attributes (f : PathFingerprint) : option (Z * Z * Z * XattrFingerprint) :=
  match f with FpDirectory mode uid gid _ _ (Some xattrs) => Some (mode, uid, gid, xattrs) | _ => None end.
(** The state of a path before the overlay changed it: as the journal has it, or
    that of the first lower that has the path. *)
Definition state_before (p : Path) : Result IoErr PathFingerprint :=
  match journal !! p with
  | Some saved => Ok saved
  | None => match lower_metadata h overlay_lowers p with Some n => fingerprint_inode n | None => Ok FpAbsent end
  end.
Lemma lower_baseline_from q c n index : index + n = count -> normal (q ++ [c]) ->
  lower_baseline h (Lower <$> seq index n) (q ++ [c]) =
    match lower_metadata h (Lower <$> seq index n) (q ++ [c]) with Some m => fingerprint_inode m | None => Ok FpAbsent end.
Proof.
  intros Hc Hn. revert index Hc. induction n as [|n IH]; intros index Hc; [done|]. unfold lower_metadata in *. cbn [seq fmap list_fmap lower_baseline omap list_omap].
  destruct (layer_metadata_spec h W (Lower index) q c None) as (m & parents & checked & E & _ & Hm); [apply (rooted_lower core h R); lia|done|done|].
  assert (layer_metadata h (Lower index) (q ++ [c]) = Ok (into_entry m)) as El by (unfold layer_metadata; by rewrite E). rewrite El. cbn [mbind result_bind].
  destruct m as [i x| |]; cbn [into_entry head]; [unfold fingerprint_at; by rewrite El|apply IH; lia..].
Qed.
(** Attributes count as unchanged only where they are those of before. *)
Lemma unchanged_attributes q c n : normal (q ++ [c]) -> node h (Upper, q ++ [c]) = Some n ->
  directory_metadata_unchanged h overlay_lowers journal (q ++ [c]) = Ok true ->
  exists f g, fingerprint_inode n = Ok f /\ state_before (q ++ [c]) = Ok g /\ directory_attributes f = directory_attributes g /\ is_Some (directory_attributes f).
Proof.
  intros Hnm Hn (f & Hf & (g & Hg & [= E])%bind_Ok)%bind_Ok.
  assert (fingerprint_inode n = Ok f) as Hfn.
  { unfold fingerprint_at in Hf. destruct (layer_metadata_spec h W Upper q c None) as (m & parents & checked & El & _ & Hm); [apply (rooted_upper core h R)|done|done|].
    unfold layer_metadata in Hf. rewrite El in Hf. cbn [mbind result_bind] in Hf. destruct m as [i x| |]; destruct Hm as [Hm1 Hm2]; cbn [into_entry mbind result_bind] in Hf; congruence. }
  exists f, g. split; [done|]. split.
  { unfold state_before. destruct (journal !! (q ++ [c])); [exact Hg|]. unfold overlay_lowers in *. by rewrite (lower_baseline_from q c count 0) in Hg. }
  unfold directory_attributes. destruct f as [|? ? ? ? ?|mode uid gid t s [x|]|? ? ? ?|? ? ? ? ?]; try done.
  destruct g as [|? ? ? ? ?|mode' uid' gid' t' s' [x'|]|? ? ? ?|? ? ? ? ?]; try done. apply bool_decide_eq_true in E. split; [congruence|by eexists].
Qed.

(** The changes of an entry that is no whiteout: its own, unless it is a directory
    over a directory with the same attributes, and that of its marker. *)
Definition kind_over (old : option ChangeEntryType) (new : ChangeEntryType) : ChangeKind :=
  match old with None => Added | Some old => if bool_decide (old = new) then Modified else TypeChanged end.
Lemma entry_changes_own e row : ue_whiteout e = false -> entry_changes e = Ok row ->
  (exists c, c ∈ row /\ c_path c = ue_relative e /\ c_new_type c = Some (metadata_type (ue_node e)) /\
     c_kind c = kind_over (metadata_type <$> lower_metadata h overlay_lowers (ue_relative e)) (metadata_type (ue_node e))) \/
  (i_kind (ue_node e) = KDir /\ metadata_type <$> lower_metadata h overlay_lowers (ue_relative e) = Some TyDirectory /\
   directory_metadata_unchanged h overlay_lowers journal (ue_relative e) = Ok true).
Proof.
  intros Hw. unfold ApplyPlan.entry_changes. rewrite Hw. intros (incidental & Hi & (own & Ho & [= <-])%bind_Ok)%bind_Ok. destruct incidental.
  - right. destruct (is_dir (i_kind (ue_node e)) && _ && _) eqn:E; [|done]. apply andb_true_iff in E as [[Hd Hold%bool_decide_eq_true]%andb_true_iff _].
    split_and!; [by destruct (i_kind (ue_node e))|done|done].
  - left. apply bind_Ok in Ho as (identity & _ & [= <-]). eexists. split; [apply elem_of_app; left; apply list_elem_of_here|]. done.
Qed.
Lemma entry_changes_opaque e row : ue_whiteout e = false -> i_kind (ue_node e) = KDir -> is_opaque_directory h (Upper, ue_relative e) = true ->
  entry_changes e = Ok row -> opaque_change (ue_relative e) ∈ row.
Proof.
  intros Hw Hk Ho. unfold ApplyPlan.entry_changes. rewrite Hw. intros (incidental & _ & (own & _ & [= <-])%bind_Ok)%bind_Ok.
  rewrite Hk, Ho. cbn [is_dir andb]. apply elem_of_app. right. apply list_elem_of_here.
Qed.
Lemma whiteout_name_target c : plain_name c -> normal_component c = true ->
  is_whiteout_name (WHITEOUT_PREFIX +:+ c) = true /\ whiteout_target (WHITEOUT_PREFIX +:+ c) = Some c /\
  WHITEOUT_PREFIX +:+ c <> OPAQUE_NAME /\ WHITEOUT_PREFIX +:+ c <> ROOT_METADATA_NAME /\ starts_with (WHITEOUT_PREFIX +:+ c) TEMP_PREFIX = false.
Proof.
  intros [Hc Hr] Hn. assert (c <> ""%string) as Hne by (intros ->; done). split_and!.
  - apply starts_with_spec. by exists (to_bytes c).
  - unfold whiteout_target, strip_prefix. change (to_bytes (WHITEOUT_PREFIX +:+ c)) with (to_bytes WHITEOUT_PREFIX ++ to_bytes c).
    rewrite (proj2 (strip_prefix_bytes_Some _ _ (to_bytes c))) by done. cbn [fmap option_fmap option_map]. rewrite of_to_bytes. by destruct c.
  - intros E. assert (c = ".wh..opq"%string) as -> by (by injection E). done.
  - intros E. assert (c = ".pvisor-root-metadata"%string) as -> by (by injection E). done.
  - destruct (starts_with _ TEMP_PREFIX) eqn:E; [|done]. exfalso. apply starts_with_spec in E as [l Hl].
    assert (starts_with c RESERVED = true); [|congruence]. apply starts_with_spec. exists (to_bytes "copyup-" ++ l).
    change (to_bytes (WHITEOUT_PREFIX +:+ c)) with (to_bytes WHITEOUT_PREFIX ++ to_bytes c) in Hl.
    change (to_bytes TEMP_PREFIX) with (to_bytes WHITEOUT_PREFIX ++ to_bytes RESERVED ++ to_bytes "copyup-") in Hl.
    rewrite <- !app_assoc in Hl. by apply app_inv_head in Hl.
Qed.

(** ** Changes *)

Context (changes : list ChangeEntry) (Hchanges : overlay_changes h overlay_lowers journal = Ok changes).

Lemma upper_dir : upper_is_dir h = true.
Proof. apply bool_decide_eq_true, (rooted_upper core h R). Qed.
Lemma changes_split : exists inventory identity, walk_upper_metadata (tree_fuel h) h [] = Ok inventory /\
  (forall e, e ∈ inventory -> exists row, entry_changes e = Ok row) /\
  forall c, c ∈ changes <-> c ∈ root_changes h identity \/ exists e row, e ∈ inventory /\ entry_changes e = Ok row /\ c ∈ row.
Proof.
  unfold overlay_changes, upper_inventory, overlay_changes_from_inventory in Hchanges. rewrite upper_dir in Hchanges. cbn [negb] in Hchanges.
  apply bind_Ok in Hchanges as (inventory & Hi & ([i root] & _ & (identity & _ & (rows & Hrows & [= <-])%bind_Ok)%bind_Ok)%bind_Ok).
  exists inventory, identity. split_and!; [done| |].
  - intros e [k Hk]%list_elem_of_lookup. apply collect_Ok in Hrows. destruct (Forall2_lookup_l _ _ _ _ _ Hrows Hk) as (row & _ & ?). eauto.
  - intros c. rewrite sort_by_perm, elem_of_app. apply or_iff_compat_l. rewrite list_elem_of_In, in_concat. split.
    + intros (row & Hr & Hc). apply list_elem_of_In, (collect_elem_of _ _ _ _ Hrows) in Hr as (e & He & Hr). exists e, row. split_and!; [done|done|by apply list_elem_of_In].
    + intros (e & row & He & Hr & Hc). exists row. split; [|by apply list_elem_of_In]. apply list_elem_of_In, (collect_elem_of _ _ _ _ Hrows). eauto.
Qed.
(** A name of the upper that can show, or a whiteout, has its changes listed. *)
Lemma listed_entry (q : Path) c n : tidy q -> is_copy_up_directory c n = false -> node h (Upper, q ++ [c]) = Some n ->
  exists i row, entry_changes (mkUpperEntry (q ++ [c]) (is_whiteout_name c) i n) = Ok row /\ forall ch, ch ∈ row -> ch ∈ changes.
Proof.
  intros Hq Hc Hn. destruct changes_split as (inventory & identity & Hi & Hrow & Hin).
  destruct (walk_complete h W _ [] inventory q c n Hi (rooted_upper core h R) Hq Hc Hn) as (i & _ & He). cbn [app] in He.
  destruct (Hrow _ He) as [row Hr]. exists i, row. split; [done|]. intros ch Hch. apply Hin. right. eauto.
Qed.
Lemma opaque_listed q : tidy q -> kind_at h (Upper, q) = Some KDir -> opaque_at h q = true -> opaque_change q ∈ changes.
Proof.
  intros Hq Hd Ho. rewrite <- (is_opaque_spec h W q Hd) in Ho. destruct (path_snoc_cases q) as [->|(q' & c & ->)].
  - destruct changes_split as (inventory & identity & _ & _ & Hin). apply Hin. left. unfold root_changes. unfold is_opaque in Ho. rewrite Ho.
    apply elem_of_app. left. apply list_elem_of_here.
  - apply tidy_snoc in Hq as [Hq Hc]. pose proof Hd as (n & Hn & Hk)%kind_at_Some.
    destruct (listed_entry q' c n Hq (shown_not_copy_up c n Hc) Hn) as (i & row & Hr & Hin). apply Hin.
    exact (entry_changes_opaque (mkUpperEntry (q' ++ [c]) (is_whiteout_name c) i n) row Hc Hk Ho Hr).
Qed.

(** A name of the upper that can show is listed itself, but for a directory over a
    directory with the same attributes. *)
Lemma upper_listed q c n : plain (q ++ [c]) -> node h (Upper, q ++ [c]) = Some n ->
  (exists ch, ch ∈ changes /\ c_path ch = q ++ [c] /\ c_new_type ch = Some (metadata_type n) /\
     c_kind ch = kind_over (metadata_type <$> lower_metadata h overlay_lowers (q ++ [c])) (metadata_type n)) \/
  (i_kind n = KDir /\ metadata_type <$> lower_metadata h overlay_lowers (q ++ [c]) = Some TyDirectory /\
   directory_metadata_unchanged h overlay_lowers journal (q ++ [c]) = Ok true).
Proof.
  intros [Hq Hc]%plain_snoc Hn. destruct (listed_entry q c n (plain_tidy _ Hq) (shown_not_copy_up c n (proj1 Hc)) Hn) as (i & row & Hr & Hin).
  destruct (entry_changes_own (mkUpperEntry (q ++ [c]) (is_whiteout_name c) i n) row (proj1 Hc) Hr) as [(ch & Hch & Hrest)|Hinc]; [left|by right].
  exists ch. split; [by apply Hin|done].
Qed.
(** A name that something of the upper hides. *)
Lemma hidden_listed q c : plain (q ++ [c]) -> normal (q ++ [c]) -> hidden h q c = true ->
  exists ch, ch ∈ changes /\ c_path ch `prefix_of` q ++ [c] /\ (c_kind ch = Deleted \/ c_kind ch = OpaqueChange).
Proof.
  intros [Hpq Hpc]%plain_snoc Hn Hh. pose proof (plain_tidy _ Hpq) as Hq. unfold hidden in Hh.
  apply andb_true_iff in Hh as [Hdir%bool_decide_eq_true [Hwh%bool_decide_eq_true|Ho]%orb_true_iff].
  - apply normal_app in Hn as [_ Hnc]. unfold normal in Hnc. cbn [forallb] in Hnc. rewrite andb_true_r in Hnc.
    destruct (whiteout_name_target c Hpc Hnc) as (Hw & Ht & Hno & Hnr & Htmp). unfold whiteout_path in Hwh. destruct Hwh as [k (m & Hm & _)%kind_at_Some].
    destruct (listed_entry q (WHITEOUT_PREFIX +:+ c) m Hq) as (i & row & Hr & Hin); [unfold is_copy_up_directory; by rewrite Htmp|done|].
    unfold ApplyPlan.entry_changes in Hr. cbn [ue_whiteout ue_relative] in Hr. rewrite Hw, last_snoc, parent_of_snoc in Hr. cbn [default from_option] in Hr.
    unfold id in Hr. rewrite !bool_decide_eq_false_2, Ht in Hr by done. cbn [orb] in Hr. injection Hr as <-.
    eexists. split; [apply Hin, list_elem_of_here|]. cbn. split; [done|by left].
  - exists (opaque_change q). split; [by apply opaque_listed|]. split; [by exists [c]|by right].
Qed.
Lemma upper_view q c n : view count h q = Some KDir -> node h (Upper, q ++ [c]) = Some n -> view count h (q ++ [c]) = Some (i_kind n).
Proof.
  intros Hq Hn. assert (kind_at h (Upper, q ++ [c]) = Some (i_kind n)) as Hk by (unfold kind_at; by rewrite Hn).
  rewrite view_snoc, decide_True by done. unfold entry, entry_loc. rewrite Hk. cbn. exact Hk.
Qed.
Lemma beneath_view q c : view count h q = Some KDir -> node h (Upper, q ++ [c]) = None ->
  view count h (q ++ [c]) = if hidden h q c then None else lower_loc h count 0 (q ++ [c]) ≫= kind_at h.
Proof.
  intros Hq Hn. assert (kind_at h (Upper, q ++ [c]) = None) as Hk by (unfold kind_at; by rewrite Hn).
  rewrite view_snoc, decide_True by done. unfold entry, entry_loc. rewrite Hk. by destruct (hidden h q c).
Qed.

(** A path that shows an object is listed itself, unless the first lower that has
    the path has that object, and only the order of the lowers hides it there. *)
Lemma shown_listed p k : plain p -> normal p -> view count h p = Some k -> lower_view count h p <> Some k ->
  (exists ch, ch ∈ changes /\ c_path ch = p /\ c_new_type ch = Some (kind_type k)) \/
  (1 < count /\ i_kind <$> lower_metadata h overlay_lowers p = Some k).
Proof.
  intros Hp Hn Hv Hl. destruct (path_snoc_cases p) as [->|(q & c & ->)].
  { exfalso. apply Hl. rewrite <- Hv, view_nil, (rooted_upper core h R). done. }
  pose proof (view_parent _ _ _ _ _ Hv) as Hq.
  assert (i_kind <$> lower_metadata h overlay_lowers (q ++ [c]) = Some k -> 1 < count) as Hmany.
  { unfold overlay_lowers. rewrite (lower_metadata_from q c count 0) by done. intros Hk. destruct (lower_loc h count 0 (q ++ [c])) as [l|] eqn:El; [|done].
    pose proof El as El'. apply lower_loc_Some in El' as (i & -> & Hi & _). destruct (decide (count = 1)) as [E1|]; [|lia]. exfalso. apply Hl.
    cbn in Hk. assert (kind_at h (Lower i, q ++ [c]) = Some k) as Hki by exact Hk. assert (i = 0) as -> by lia. clear Hk.
    assert (forall (x s : Path), q ++ [c] = x ++ s -> lower_view count h x = if decide (s = []) then Some k else Some KDir) as Hx; [|specialize (Hx (q ++ [c]) []); by rewrite app_nil_r, decide_True in Hx; auto].
    intros x. induction x as [|d x IH] using rev_ind; intros s Hs; [destruct s; [by destruct q|by rewrite decide_False]|].
    rewrite lower_view_snoc, (IH ([d] ++ s)) by (by rewrite app_assoc). rewrite (decide_False (P := [d] ++ s = [])) by done. rewrite decide_True by done.
    assert (kind_at h (Lower 0, x ++ [d]) = if decide (s = []) then Some k else Some KDir) as Hkd.
    { case_decide as Hsn; [subst s; by rewrite app_nil_r in Hs; rewrite <- Hs|]. apply (wf_prefix_dir h (Lower 0) _ s k W Hsn). by rewrite <- Hs. }
    rewrite E1. cbn [lower_loc]. destruct (kind_at h (Lower 0, x ++ [d])) as [k'|] eqn:Ek; [cbn; by rewrite Ek|by destruct (decide (s = []))]. }
  destruct (node h (Upper, q ++ [c])) as [n|] eqn:En.
  - pose proof (upper_view q c n Hq En) as Ev. rewrite Hv in Ev. injection Ev as Ek.
    destruct (upper_listed q c n Hp En) as [(ch & Hch & Hpath & Hty & _)|(Hkd & Hold & _)]; [left; exists ch; subst k; by rewrite <- metadata_kind_type|].
    right. assert (i_kind <$> lower_metadata h overlay_lowers (q ++ [c]) = Some k) as Hlk; [|split; [by apply Hmany|done]].
    destruct (lower_metadata h overlay_lowers (q ++ [c])) as [m|]; [|done]. cbn in Hold |- *. injection Hold as Hold. rewrite metadata_kind_type in Hold.
    apply kind_type_dir in Hold. congruence.
  - pose proof (beneath_view q c Hq En) as Ev. rewrite Hv in Ev. destruct (hidden h q c); [done|]. right.
    assert (i_kind <$> lower_metadata h overlay_lowers (q ++ [c]) = Some k) as Hlk; [|split; [by apply Hmany|done]].
    unfold overlay_lowers. rewrite (lower_metadata_from q c count 0) by done. destruct (lower_loc h count 0 (q ++ [c])) as [l|]; [|done]. cbn in Ev |- *. exact (eq_sym Ev).
Qed.
(** A path that the lowers show and the overlay does not is at or below a change
    that removes. *)
Lemma gone_listed p : plain p -> normal p -> view count h p = None -> is_Some (lower_view count h p) ->
  exists ch, ch ∈ changes /\ c_path ch `prefix_of` p /\ (c_kind ch = Deleted \/ c_kind ch = TypeChanged \/ c_kind ch = OpaqueChange).
Proof.
  induction p as [|c q IH] using rev_ind; intros Hp Hn Hv Hl; [by rewrite view_nil, (rooted_upper core h R) in Hv|].
  pose proof Hp as [Hpq _]%plain_snoc. pose proof Hn as [Hnq _]%normal_app.
  rewrite lower_view_snoc in Hl. case_decide as Hlq; [|by destruct Hl].
  assert (forall ch, ch ∈ changes -> c_path ch `prefix_of` q -> (c_kind ch = Deleted \/ c_kind ch = TypeChanged \/ c_kind ch = OpaqueChange) ->
    exists ch, ch ∈ changes /\ c_path ch `prefix_of` q ++ [c] /\ (c_kind ch = Deleted \/ c_kind ch = TypeChanged \/ c_kind ch = OpaqueChange)) as Hup.
  { intros ch Hch Hpre Hk. exists ch. split_and!; [done|by apply prefix_app_r|done]. }
  destruct (view count h q) as [k|] eqn:Hvq.
  2: { destruct IH as (ch & Hch & Hpre & Hk); [done..|by rewrite Hlq; eexists|]. by eapply Hup. }
  destruct (decide (k = KDir)) as [->|Hkd].
  - destruct (node h (Upper, q ++ [c])) as [n|] eqn:En; [by rewrite (upper_view q c n Hvq En) in Hv|].
    rewrite (beneath_view q c Hvq En) in Hv. destruct (hidden h q c) eqn:Hh; [|rewrite Hv in Hl; by destruct Hl].
    destruct (hidden_listed q c Hp Hn Hh) as (ch & Hch & Hpre & Hk). exists ch. split_and!; [done..|]. tauto.
  - destruct (path_snoc_cases q) as [->|(q' & d & ->)]; [rewrite view_nil, (rooted_upper core h R) in Hvq; congruence|].
    pose proof (view_parent _ _ _ _ _ Hvq) as Hq'. rewrite lower_view_snoc in Hlq. case_decide as Hlq'; [|done].
    destruct (node h (Upper, q' ++ [d])) as [n|] eqn:En.
    + pose proof (upper_view q' d n Hq' En) as Ev. rewrite Hvq in Ev. injection Ev as Ek.
      destruct (upper_listed q' d n Hpq En) as [(ch & Hch & Hpath & _ & Hk)|(Hbad & _)]; [|congruence].
      apply (Hup ch Hch); [by rewrite Hpath|]. right. left. rewrite Hk, (lower_type q' d Hnq), Hlq. cbn. unfold kind_over. rewrite bool_decide_eq_false_2; [done|].
      rewrite metadata_kind_type. intros E. symmetry in E. apply kind_type_dir in E. congruence.
    + rewrite (beneath_view q' d Hq' En) in Hvq. destruct (hidden h q' d); [done|]. congruence.
Qed.
(** An object of the upper is listed itself, but for a directory that has the
    attributes it had before. *)
Lemma changed_listed p n : plain p -> normal p -> p <> [] -> node h (Upper, p) = Some n ->
  (i_kind n = KDir -> forall f g, fingerprint_inode n = Ok f -> state_before p = Ok g -> directory_attributes f <> directory_attributes g) ->
  exists ch, ch ∈ changes /\ c_path ch = p /\ c_new_type ch = Some (metadata_type n) /\
    c_kind ch = kind_over (metadata_type <$> lower_metadata h overlay_lowers p) (metadata_type n).
Proof.
  intros Hp Hnm Hne Hn Hd. destruct (path_snoc_cases p) as [->|(q & c & ->)]; [done|].
  destruct (upper_listed q c n Hp Hn) as [Hl|(Hk & _ & Hun)]; [done|]. exfalso.
  destruct (unchanged_attributes q c n Hnm Hn Hun) as (f & g & Hf & Hg & E & _). exact (Hd Hk f g Hf Hg E).
Qed.
End Cover.
