(* ===== verification/ApplyTheorems.v ===== *)
(** * What planning an apply promises

    The statements about plans, with a run of each on a small overlay. *)
From stdpp Require Import base tactics list strings gmap pretty sorting.
From Stdlib Require Import ZArith Lia Ascii.
From S2P Require Import Prelude RustStr FileAccess Globs FileAccessFacts HostFs HostFsFacts Overlay OverlayView OverlayQuiet OverlayCopy OverlayCopyUp OverlayCreate OverlayDepth OverlayHealth OverlayAccess OverlayTheorems ApplyPlan ApplyPlanFacts.
Local Open Scope nat_scope.

(** A computation that cannot run out of fuel. *)
Ltac fine := repeat match goal with
  | |- fine (mbind _ _) => apply fine_bind; [|let x := fresh "x" in intros x]
  | |- fine (ensure _ _) => by apply fine_ensure
  | |- fine (ok_or _ _) => by apply fine_ok_or
  | |- fine (Ok _) => done
  | |- fine (Err _) => done
  | |- fine (if ?b then _ else _) => destruct b eqn:?
  | |- fine (match ?o with _ => _ end) => destruct o eqn:?
  end.

Lemma elem_of_initial `{GlobOps} changes compiled prefix p : p ∈ initially_selected changes compiled prefix <->
  p ∈ c_path <$> changes /\ requested compiled p = true /\ excluded compiled p = false /\ in_prefix prefix p = true.
Proof.
  unfold initially_selected. rewrite elem_of_list_to_set, list_elem_of_In, filter_In, <- list_elem_of_In, !andb_true_iff, negb_true_iff. tauto.
Qed.

Section Statements.
Context `{GlobOps, AccessOps, Digest256} (beyond_tree : Loc -> Result ApplyError unit).
Context (h : Host) (record : OverlayRecord) (journal : PreimageJournal) (lowers : list Root) (selection : ApplySelection).
Local Abbreviation plan_in := (plan_overlay_apply_in_scope beyond_tree h record journal lowers selection).

(** ** Plans *)

(** What a plan is made from. *)
Record Planned (inventory : list UpperEntry) (changes : list ChangeEntry) (compiled : CompiledApplySelection) : Prop := mkPlanned {
  pd_inventory : upper_inventory h = Ok inventory;
  pd_changes : overlay_changes_from_inventory h lowers (pj_entries journal) inventory = Ok changes;
  pd_compiled : compile_selection selection = Ok compiled
}.
(** What an apply must take: a requested change in the scope that is not excluded,
    everything in an opaque directory that it takes, every other name in the upper
    of a file that it takes, and every directory that has to be created above a
    path that it takes. *)
Inductive Required (changes : list ChangeEntry) (compiled : CompiledApplySelection) (prefix : option Path) : Path -> Prop :=
| required_request c : c ∈ changes -> requested compiled (c_path c) = true -> excluded compiled (c_path c) = false -> in_prefix prefix (c_path c) = true ->
    Required changes compiled prefix (c_path c)
| required_opaque o c : o ∈ changes -> c_kind o = OpaqueChange -> Required changes compiled prefix (c_path o) -> c ∈ changes -> c_path o `prefix_of` c_path c ->
    Required changes compiled prefix (c_path c)
| required_name p q : Required changes compiled prefix p -> names_one_file h p q -> Required changes compiled prefix q
| required_directory c q : Required changes compiled prefix q -> c ∈ changes -> c_new_type c = Some TyDirectory -> c_old_type c <> Some TyDirectory ->
    c_path c `prefix_of` q -> c_path c <> q -> Required changes compiled prefix (c_path c).
Lemma required_needed inventory changes compiled prefix p : wf h -> upper_inventory h = Ok inventory ->
  Required changes compiled prefix p <->
  Needed changes (opaque_paths changes) (upper_hard_link_groups h inventory) (created_directories changes) (initially_selected changes compiled prefix) p.
Proof.
  intros W Hi. split.
  - induction 1 as [c Hc Hr He Hp|o c Ho Hk _ IH Hc Hp|p q _ IH Hone|c q _ IH Hc Hn Ho Hp Hne].
    + apply needed_chosen, elem_of_initial. split_and!; [by apply list_elem_of_fmap_2|done..].
    + apply (needed_opaque _ _ _ _ _ (c_path o)); [done| |by apply list_elem_of_fmap_2|done]. apply list_elem_of_fmap. exists o. split; [done|].
      apply list_elem_of_In, filter_In. split; [by apply list_elem_of_In|by apply bool_decide_eq_true].
    + destruct (names_group h W inventory p q Hi Hone) as (g & Hg & Hpg & Hqg). by apply (needed_sibling _ _ _ _ _ g p).
    + apply (needed_ancestor _ _ _ _ _ q); [done..|]. unfold created_directories. apply elem_of_list_to_set, list_elem_of_fmap. exists c. split; [done|].
      apply list_elem_of_In, filter_In. split; [by apply list_elem_of_In|]. apply andb_true_iff. split; [by apply bool_decide_eq_true|]. by apply negb_true_iff, bool_decide_eq_false.
  - induction 1 as [p Hp|o p _ IH Ho Hp Hpre|g q p Hg _ IH Hq Hp|q p _ IH Hpre Hne Hd].
    + apply elem_of_initial in Hp as ((c & -> & Hc)%list_elem_of_fmap & Hr & He & Hin). by apply required_request.
    + apply list_elem_of_fmap in Hp as (c & -> & Hc). apply list_elem_of_fmap in Ho as (d & -> & Hd). apply list_elem_of_In, filter_In in Hd as [Hd Hk%bool_decide_eq_true].
      apply (required_opaque _ _ _ d); [by apply list_elem_of_In|done..].
    + destruct (group_names h W inventory g q p Hi Hg Hq Hp) as [<-|Hone]; [done|]. by eapply required_name.
    + unfold created_directories in Hd. apply elem_of_list_to_set, list_elem_of_fmap in Hd as (c & -> & Hc). apply list_elem_of_In, filter_In in Hc as [Hc Hb].
      apply andb_true_iff in Hb as [Hn%bool_decide_eq_true Ho%negb_true_iff%bool_decide_eq_false]. apply (required_directory _ _ _ _ q); [done|by apply list_elem_of_In|done..].
Qed.

Lemma created_are_changes changes : created_directories changes ⊆ list_to_set (c_path <$> changes).
Proof.
  intros p. unfold created_directories. rewrite !elem_of_list_to_set, !list_elem_of_fmap. intros (c & -> & Hc). exists c. split; [done|].
  by apply list_elem_of_In, filter_In in Hc as [Hc%list_elem_of_In _].
Qed.
Lemma plan_closure inventory changes compiled prefix :
  let initial := initially_selected changes compiled prefix in
  let groups := upper_hard_link_groups h inventory in
  match closure_loop (excluded compiled) changes (opaque_paths changes) groups (created_directories changes) (closure_fuel changes groups) initial with
  | Ok s => Closed (excluded compiled) changes (opaque_paths changes) groups (created_directories changes) initial s
  | Err e => Explained (excluded compiled) changes (opaque_paths changes) groups (created_directories changes) initial e
  end.
Proof.
  apply closure_spec; [|apply created_are_changes|].
  - intros p [Hp _]%elem_of_initial. by apply elem_of_list_to_set.
  - intros p (_ & _ & Hp & _)%elem_of_initial. done.
Qed.
Lemma plan_Ok kind prefix plan : plan_in kind prefix = Ok plan ->
  exists inventory changes compiled, Planned inventory changes compiled /\
    with_baseline h lowers (or_target record) (or_baseline_lower record) = Ok tt /\
    Closed (excluded compiled) changes (opaque_paths changes) (upper_hard_link_groups h inventory) (created_directories changes)
      (initially_selected changes compiled prefix) (ap_selected_paths plan) /\
    (forall p, p ∈ ap_selected_paths plan -> in_prefix prefix p = true) /\
    ap_selected plan = List.filter (fun change => bool_decide (c_path change ∈ ap_selected_paths plan)) changes /\
    validate_protected_effects beyond_tree h record (ap_selected plan) compiled = Ok tt /\ validate_changes kind (ap_selected plan) = Ok tt.
Proof.
  unfold plan_overlay_apply_in_scope. intros ([] & Hb & (inventory & Hi & (changes & Hc & (roots & _ & (compiled & Hs & E)%bind_Ok)%bind_Ok)%bind_Ok)%bind_Ok)%bind_Ok.
  apply ensure_bind_Ok in E as [_ E]. pose proof (plan_closure inventory changes compiled prefix) as Hcl. cbv zeta in Hcl, E.
  apply bind_Ok in E as (s & Hl & [Hp E]%ensure_bind_Ok). rewrite Hl in Hcl.
  apply bind_Ok in E as ([] & Hprot & ([] & Hval & [= <-])%bind_Ok). exists inventory, changes, compiled.
  destruct (with_baseline _ _ _ _) as [[]|] eqn:Eb in Hb; [|done]. destruct (upper_inventory h) eqn:Ei; [|done]. injection Hi as ->.
  destruct (overlay_changes_from_inventory _ _ _ inventory) eqn:Ec; [|done]. injection Hc as ->. cbn [ap_selected ap_selected_paths].
  split_and!; [by constructor|done|done| |done..]. intros p Hin. rewrite forallb_forall in Hp. apply Hp, list_elem_of_In. by apply elem_of_btree.
Qed.

(** C19: A plan selects the least set of paths that has every requested change in
    the scope that is not excluded, with everything in a selected opaque directory,
    every other name in the upper of a selected file (two names of one regular
    file), and every directory that must be created above a selected path. None of
    them is excluded or outside the scope, and an opaque directory that has a
    selected path in it is selected itself. The selected changes are the listed
    changes at these paths. *)
Theorem plan_least_closure kind prefix plan : wf h -> plan_in kind prefix = Ok plan ->
  exists inventory changes compiled, Planned inventory changes compiled /\
    (forall p, p ∈ ap_selected_paths plan <-> Required changes compiled prefix p) /\
    (forall p, Required changes compiled prefix p -> excluded compiled p = false /\ in_prefix prefix p = true) /\
    (forall o p, o ∈ changes -> c_kind o = OpaqueChange -> Required changes compiled prefix p -> c_path o `prefix_of` p -> p <> c_path o ->
       Required changes compiled prefix (c_path o)) /\
    (forall c, c ∈ ap_selected plan <-> c ∈ changes /\ Required changes compiled prefix (c_path c)).
Proof.
  intros W (inventory & changes & compiled & Hpl & _ & (Hset & Hex & Hop) & Hpre & Hsel & _)%plan_Ok.
  pose proof (fun p => required_needed inventory changes compiled prefix p W (pd_inventory _ _ _ Hpl)) as Hreq.
  exists inventory, changes, compiled. split_and!; [done|intros p; by rewrite Hreq| | |].
  - intros p Hp%Hreq. split; [by apply Hex|]. by apply Hpre, Hset.
  - intros o p Ho Hk Hp%Hreq Hpo Hne. apply Hreq. apply (Hop _ p); [|done..]. apply list_elem_of_fmap. exists o. split; [done|].
    apply list_elem_of_In, filter_In. split; [by apply list_elem_of_In|by apply bool_decide_eq_true].
  - intros c. rewrite Hsel, list_elem_of_In, filter_In, <- list_elem_of_In, bool_decide_eq_true, Hset, Hreq. done.
Qed.

(** ** Refusals *)

(** Every error of a computation satisfies [Q]. *)
Definition errs {A} (Q : ApplyError -> Prop) (r : Result ApplyError A) : Prop := match r with Ok _ => True | Err e => Q e end.
Lemma errs_bind {A B} Q (m : Result ApplyError A) (k : A -> Result ApplyError B) : errs Q m -> (forall a, m = Ok a -> errs Q (k a)) -> errs Q (m ≫= k).
Proof. destruct m as [a|e]; cbn; [|done]. intros _ Hk. by apply Hk. Qed.
Lemma errs_ensure Q b e : Q e -> errs Q (ensure b e).
Proof. by destruct b. Qed.
Lemma errs_collect {A B} Q (f : A -> Result ApplyError B) l : (forall x, errs Q (f x)) -> errs Q (collect f l).
Proof. intros Hf. induction l as [|x l IH]; cbn [collect]; [done|]. apply errs_bind; [apply Hf|]. intros y _. by apply errs_bind. Qed.
Lemma errs_for_each {A} Q (f : A -> Result ApplyError unit) l : (forall x, x ∈ l -> errs Q (f x)) -> errs Q (for_each f l).
Proof.
  induction l as [|x l IH]; intros Hf; cbn [for_each]; [done|]. apply errs_bind; [apply Hf, list_elem_of_here|].
  intros _ _. apply IH. intros y Hy. apply Hf. by apply list_elem_of_further.
Qed.
Lemma errs_fold {A B} Q (f : B -> A -> Result ApplyError B) l b : (forall b x, errs Q (f b x)) -> errs Q (fold_res f l b).
Proof. intros Hf. revert b. induction l as [|x l IH]; intros b; cbn [fold_res]; [done|]. apply errs_bind; [apply Hf|]. intros b' _. apply IH. Qed.

(** What a refusal of the planner says. *)
Definition closure_refusal (why : Refusal) : bool :=
  match why with InsideOpaque _ | ExcludedFromOpaque _ _ | ExcludedSibling _ | ExcludedAncestor _ _ => true | _ => false end.
Definition excluded_ancestor (e : ApplyError) : bool := match e with Refused (ExcludedAncestor _ _) => true | _ => false end.
Definition justified (prefix : option Path) (e : ApplyError) : Prop :=
  e <> Io OutOfFuel /\ excluded_ancestor e = false /\
  forall why, e = Refused why -> closure_refusal why = true ->
    exists inventory changes compiled, Planned inventory changes compiled /\
      Explained (excluded compiled) changes (opaque_paths changes) (upper_hard_link_groups h inventory) (created_directories changes)
        (initially_selected changes compiled prefix) e.
Lemma justified_io prefix e : e <> OutOfFuel -> justified prefix (Io e).
Proof. intros He. split_and!; [congruence|done|done]. Qed.
Lemma justified_why prefix why : closure_refusal why = false -> justified prefix (Refused why).
Proof. intros Hw. split_and!; [done|by destruct why|]. intros w [= <-]. congruence. Qed.
Lemma errs_io {A} prefix (r : Result IoErr A) : fine r -> errs (justified prefix) (io r).
Proof. unfold fine. destruct r as [a|e]; cbn; [done|]. intros He. apply justified_io. by intros ->. Qed.
Lemma errs_ok_or {A} prefix (o : option A) : errs (justified prefix) (ok_or o InvalidConfig).
Proof. by destruct o; cbn. Qed.

Context (Hbeyond : settled_beyond h) (Hwf : wf h).
Context (Htree : forall l e, beyond_tree l = Err e -> (exists p, e = Refused (AffectsProtected p)) \/ (exists e', e = Io e' /\ e' <> OutOfFuel)).

Lemma fine_collect {A B} (f : A -> Result IoErr B) l : (forall x, fine (f x)) -> fine (collect f l).
Proof. intros Hf. induction l as [|x l IH]; cbn [collect]; [done|]. apply fine_bind; [done|]. intros y. by apply fine_bind. Qed.
Lemma fine_baseline roots p : fine (lower_baseline h roots p).
Proof.
  induction roots as [|r roots IH]; cbn [lower_baseline]; [done|]. apply fine_bind; [by apply fine_layer_metadata|]. intros [m|]; [by apply fine_fingerprint|done].
Qed.
Lemma fine_logical_identity n : fine (logical_identity n).
Proof.
  unfold logical_identity. apply fine_bind; [|done]. destruct (_ !! _) as [v|]; [|done]. unfold identity_parse. fine.
Qed.
Lemma fine_entry_changes l j e : fine (entry_changes h l j e).
Proof.
  unfold entry_changes. destruct (ue_whiteout e); [destruct (_ || _); [done|]; by destruct (whiteout_target _)|]. apply fine_bind.
  - destruct (_ && _ && _); [|done]. unfold directory_metadata_unchanged. apply fine_bind; [by apply fine_fingerprint|]. intros current.
    apply fine_bind; [destruct (j !! _); [done|apply fine_baseline]|done].
  - intros []; cbn; [done|]. apply fine_bind; [apply fine_bind; [apply fine_logical_identity|done]|done].
Qed.
Lemma fine_changes l j inventory : fine (overlay_changes_from_inventory h l j inventory).
Proof.
  unfold overlay_changes_from_inventory. destruct (negb _); [done|]. apply fine_bind; [by apply fine_lstat|]. intros [i root].
  apply fine_bind; [apply fine_logical_identity|]. intros identity. apply fine_bind; [apply fine_collect, fine_entry_changes|done].
Qed.
Lemma fine_rel p : fine (validate_rel p).
Proof. unfold validate_rel. fine. Qed.

Lemma check_protected_errs prefix compiled p : errs (justified prefix) (check_protected record compiled p).
Proof. apply errs_ensure. by apply justified_why. Qed.
Lemma check_tree_ends prefix compiled N fuel p : (forall l, is_Some (h_names h !! l) -> length l.2 <= N) -> N < fuel + length p -> 0 < fuel ->
  errs (justified prefix) (check_tree beyond_tree fuel h record compiled p).
Proof.
  intros HN. revert p. induction fuel as [|fuel IH]; intros p Hf Hpos; [lia|]. cbn [check_tree].
  apply errs_bind; [apply check_protected_errs|]. intros _ _. destruct (lstat h (or_target record, p)) as [[i n]|e] eqn:El.
  2: { case_bool_decide; [done|]. cbn. apply justified_io. intros ->. by apply (fine_lstat h (or_target record, p) Hbeyond). }
  destruct (is_dir (i_kind n)); [|done].
  assert (errs (justified prefix) (for_each (fun name => check_tree beyond_tree fuel h record compiled (p ++ [name])) (read_dir h (or_target record, p)))) as Hloop.
  { apply errs_for_each. intros name Hin%read_dir_spec. specialize (HN _ Hin). cbn [snd] in HN. rewrite length_app in HN. cbn [length] in HN.
    apply IH; [rewrite length_app; cbn; lia|lia]. }
  destruct (reach h (or_target record, p)); [exact Hloop..|].
  destruct (beyond_tree _) as [[]|e] eqn:Eb; [done|]. cbn. apply Htree in Eb as [[q ->]|(e' & -> & He)]; [by apply justified_why|by apply justified_io].
Qed.
Lemma tree_fuel_bound l : is_Some (h_names h !! l) -> length l.2 <= pred (pred (tree_fuel h)).
Proof. intros [i Hi]. unfold tree_fuel. cbn [pred]. apply max_list_elem_of_le, list_elem_of_fmap. exists (l, i). split; [done|]. by apply elem_of_map_to_list. Qed.
Lemma check_effects_ends prefix compiled c : errs (justified prefix) (check_effects beyond_tree h record compiled c).
Proof.
  unfold check_effects. apply errs_bind; [apply errs_io, fine_rel|]. intros _ _. apply errs_bind; [apply check_protected_errs|]. intros _ _.
  destruct (replaces_directory c); [|done]. apply errs_bind; [apply errs_ensure; by apply justified_why|]. intros _ _. destruct (_ || _); [|done].
  apply (check_tree_ends prefix compiled (pred (pred (tree_fuel h)))); [apply tree_fuel_bound|unfold tree_fuel; cbn; lia|unfold tree_fuel; lia].
Qed.

(** C24: Planning ends within its bounds. When the closure refuses, a path that it
    needs is excluded, or lies in an opaque directory that was not itself
    requested. It never refuses for an excluded ancestor: what lies below an
    excluded directory is excluded before the ancestors are looked at. *)
Theorem planning_ends kind prefix : errs (justified prefix) (plan_in kind prefix).
Proof.
  unfold plan_overlay_apply_in_scope.
  apply errs_bind; [apply errs_io|intros _ _]. { unfold with_baseline, canonicalize. fine. }
  destruct (inventory_total h Hwf) as [inventory Hi]. rewrite Hi. cbn [io map_err mbind result_bind].
  apply errs_bind; [apply errs_io, fine_changes|]. intros changes Hc.
  assert (overlay_changes_from_inventory h lowers (pj_entries journal) inventory = Ok changes) as Hc' by (destruct (overlay_changes_from_inventory _ _ _ _); cbn in Hc; congruence).
  apply errs_bind; [|intros roots _].
  { apply errs_fold. intros roots p. unfold add_replacement_root. apply errs_bind; [apply errs_io, fine_rel|]. intros _ _.
    apply errs_bind; [apply errs_ensure; by apply justified_why|done]. }
  apply errs_bind; [|intros compiled Hs].
  { unfold compile_selection. apply errs_bind; [|intros paths _].
    - apply errs_collect. intros p. unfold normalize_selection_path. destruct (starts_with p "/"); [done|]. apply errs_fold. intros q c.
      destruct (_ || _); [done|]. by destruct (_ =? _)%string.
    - unfold compile_selection_globs.
      apply errs_bind; [apply errs_bind; [apply errs_collect; intros; apply errs_ok_or|intros; apply errs_ok_or]|intros includes _].
      apply errs_bind; [apply errs_bind; [apply errs_collect; intros; apply errs_ok_or|intros; apply errs_ok_or]|done]. }
  apply errs_bind; [apply errs_ensure; by apply justified_why|intros _ _]. cbv zeta.
  pose proof (plan_closure inventory changes compiled prefix) as Hcl. cbv zeta in Hcl. apply errs_bind.
  - destruct (closure_loop _ _ _ _ _ _ _) as [s|e]; [done|]. cbn. split_and!; [by intros ->| |].
    { destruct e as [|[]| | | |]; try done. destruct Hcl as (_ & Ha & _ & Hb & [s ->]). unfold excluded in Ha, Hb. by rewrite (set_matches_app _ _ s Ha) in Hb. }
    intros why -> _. exists inventory, changes, compiled.
    split; [by constructor|done].
  - intros s _. apply errs_bind; [apply errs_ensure; by apply justified_why|intros _ _]. apply errs_bind; [|intros _ _; apply errs_bind; [|done]].
    + apply errs_bind; [|intros _ _; apply errs_for_each; intros c _; apply check_effects_ends].
      apply errs_for_each. intros x _. apply errs_bind; [apply errs_io, fine_rel|]. intros _ _. apply errs_for_each. intros c _. apply errs_ensure. by apply justified_why.
    + unfold validate_changes. destruct kind; [done|]. destruct (List.find rootfs_unsupported _); [by apply justified_why|done].
Qed.

(** ** Protected paths *)

Lemma check_protected_Ok compiled p : check_protected record compiled p = Ok tt <->
  acc_denied p = false /\ excluded compiled p = false /\ forall x, x ∈ or_excluded_paths record -> ~ x `prefix_of` p.
Proof.
  unfold check_protected. rewrite ensure_Ok, negb_true_iff, !orb_false_iff. rewrite <- (not_true_iff_false (existsb _ _)), existsb_exists.
  split; [intros [[? ?] Hx]|intros (? & ? & Hx)]; split_and!; try done.
  - intros x Hin [s Hs]. apply Hx. exists x. split; [by apply list_elem_of_In|]. apply path_starts_with_spec. by exists s.
  - intros (x & Hin%list_elem_of_In & [s Hs]%path_starts_with_spec). apply (Hx x Hin). by exists s.
Qed.
Lemma check_tree_covers compiled fuel p s : check_tree beyond_tree fuel h record compiled p = Ok tt ->
  is_Some (kind_at h (or_target record, p ++ s)) -> check_protected record compiled (p ++ s) = Ok tt.
Proof.
  revert p s. induction fuel as [|fuel IH]; intros p s; [done|]. cbn [check_tree]. intros ([] & Hp & E)%bind_Ok [k Hk].
  destruct s as [|c s]; [by rewrite app_nil_r|]. assert (p ++ c :: s = (p ++ [c]) ++ s) as Happ by (by rewrite <- app_assoc). rewrite Happ in *.
  assert (kind_at h (or_target record, p) = Some KDir) as Hd by (apply (wf_prefix_dir h _ p ([c] ++ s) k Hwf); [done|by rewrite app_assoc]).
  pose proof Hd as (n & Hn & Hkn)%kind_at_Some. destruct (lstat_present h _ n Hwf Hn) as (i & _ & _ & El). rewrite El, Hkn in E. cbn [is_dir] in E.
  rewrite (reach_present h _ p Hwf) in E by (rewrite Hd; by eexists). rewrite for_each_Ok in E. apply IH; [|by eexists]. apply E, read_dir_spec.
  apply (kind_names h _ Hwf). destruct s as [|d s]; [rewrite app_nil_r in Hk; by eexists|].
  exists KDir. apply (wf_prefix_dir h _ (p ++ [c]) (d :: s) k Hwf); done.
Qed.

(** C22: No selected change is at a path that the policy denies, that the user excluded,
    or that lies in a reserved path of the overlay; and a change that replaces a
    whole directory of the target removes no such path with it. *)
Theorem plan_protects `{!AccessLaws, !GlobLaws} kind prefix plan change p : plan_in kind prefix = Ok plan -> change ∈ ap_selected plan ->
  p = c_path change \/ (replaces_directory change = true /\ c_path change `prefix_of` p /\ is_Some (kind_at h (or_target record, p))) ->
  exists compiled, compile_selection selection = Ok compiled /\
    acc_denied p = false /\ excluded compiled p = false /\
    (forall x, x ∈ or_excluded_paths record -> ~ x `prefix_of` p /\ (replaces_directory change = true -> ~ c_path change `prefix_of` x)).
Proof.
  intros (inventory & changes & compiled & Hpl & _ & _ & _ & _ & Hprot & _)%plan_Ok Hc Hp. exists compiled. split; [apply Hpl|].
  apply bind_Ok in Hprot as ([] & _ & Hprot). rewrite for_each_Ok in Hprot. specialize (Hprot change Hc). unfold check_effects in Hprot.
  apply bind_Ok in Hprot as ([] & _ & ([] & Hown & Hrep)%bind_Ok).
  assert (check_protected record compiled p = Ok tt /\ forall x, x ∈ or_excluded_paths record -> replaces_directory change = true -> ~ c_path change `prefix_of` x) as [Hcp Hx].
  2: { apply check_protected_Ok in Hcp as (? & ? & Hpre). split_and!; [done..|]. intros x Hin. split; [by apply Hpre|by apply Hx]. }
  destruct (replaces_directory change) eqn:Er; [|split; [by destruct Hp as [->|[? _]]|done]].
  apply ensure_bind_Ok in Hrep as [Hcon Htr]. assert (forall x, x ∈ or_excluded_paths record -> ~ c_path change `prefix_of` x) as Hx.
  { intros x Hin [s Hs]. apply negb_true_iff, not_true_iff_false in Hcon. apply Hcon, existsb_exists. exists x. split; [by apply list_elem_of_In|].
    apply path_starts_with_spec. by exists s. }
  split; [|intros x Hin _; by apply Hx]. destruct Hp as [->|(_ & [s ->] & Hk)]; [done|].
  destruct (acc_has_denials) eqn:Ed; cbn [orb] in Htr; [by apply (check_tree_covers compiled (tree_fuel h))|].
  destruct (globset_is_empty (cs_excludes compiled)) eqn:Ee; cbn [negb] in Htr; [|by apply (check_tree_covers compiled (tree_fuel h))].
  apply check_protected_Ok in Hown as (_ & _ & Hown). apply check_protected_Ok. split_and!; [by apply acc_open_denied| |].
  - pose proof (pd_compiled _ _ _ Hpl) as (paths & _ & (includes & _ & (excludes & Hgl & [= <-])%bind_Ok)%bind_Ok)%bind_Ok. cbn [cs_excludes] in *.
    apply bind_Ok in Hgl as (globs & _ & Hb). destruct (globset_build globs) as [g|] eqn:Eb; [|done]. injection Hb as ->.
    apply (globset_is_empty_spec _ _ Eb) in Ee as ->. unfold excluded, set_matches. cbn [cs_excludes]. apply not_true_iff_false. rewrite existsb_exists.
    intros (a & _ & (x & Hin & _)%(globset_is_match_spec _ _ a Eb)). by apply elem_of_nil in Hin.
  - intros x Hin [t Ht]. apply app_eq_app in Ht as [l [[Hx1 Hx2]|[Hx1 Hx2]]].
    + apply (Hown x Hin). by exists l.
    + apply (Hx x Hin). by exists l.
Qed.

(** ** Conflicts *)

(** C21: Under a complete journal an apply is prepared only if every selected path has
    a recorded first observation and the target is still as it was observed. The
    same holds of every recorded path in a directory that is to be replaced, and
    of every recorded directory above a selected path. *)
Theorem prepared_apply_conflict_free kind sealed pending plan preimages : pj_complete journal = true ->
  prepare_overlay_apply beyond_tree h record journal sealed pending lowers selection kind = Ok (plan, preimages) ->
  (forall p, p ∈ ap_selected_paths plan -> exists f, pj_entries journal !! p = Some f /\ target_matches h record p f) /\
  (forall p f, pj_entries journal !! p = Some f ->
     (exists c, c ∈ ap_selected plan /\ replaces_directory c = true /\ c_path c `prefix_of` p) \/
     (is_directory_fingerprint f = true /\ exists q, q ∈ ap_selected_paths plan /\ p `prefix_of` q /\ p <> q) ->
     target_matches h record p f) /\
  (or_protect_target record = false /\ terminal_state (or_state record) = false /\ sealed = Ok tt /\ pending = Ok false).
Proof.
  intros Hj ([] & Ha & (plan' & _ & ([] & _ & (pre' & Hpre & ([] & Hv & [= -> ->])%bind_Ok)%bind_Ok)%bind_Ok)%bind_Ok)%bind_Ok.
  apply prepare_preimages_spec in Hpre as (_ & Hsel & Hfence & _). rewrite validate_preimages_fresh in Hv. split_and!.
  - intros p Hp. destruct (Hsel p Hp) as (f & Hin & [Hf|(? & _)]); [|congruence]. exists f. split; [done|]. by apply Hv.
  - intros p f Hf Hor. apply Hv, Hfence; [done|]. apply fences_spec. destruct Hor as [?|?]; [by right|by left].
  - unfold validate_apply_admission in Ha. apply bind_Ok in Ha as ([] & _ & [Hp%negb_true_iff _]%ensure_bind_Ok). done.
  - unfold validate_apply_admission in Ha. apply bind_Ok in Ha as ([] & _ & [_ [Hp%negb_true_iff _]%ensure_bind_Ok]%ensure_bind_Ok). done.
  - apply bind_Ok in Ha as ([] & Hs & _). destruct sealed as [[]|]; done.
  - apply bind_Ok in Ha as ([] & _ & [_ [_ (w & -> & Hw%ensure_Ok%negb_true_iff)%bind_Ok]%ensure_bind_Ok]%ensure_bind_Ok). by rewrite Hw.
Qed.

(** C23: The check before a directory is removed covers the recorded observations at
    or below it, all of them and no others, although it scans only a range of the
    ordered map. *)
Theorem recursive_check_exact preimages changes recovering path : NoDup preimages.*1 ->
  validate_target_path h record preimages changes recovering path true = Ok tt <->
  forall p f, (p, f) ∈ preimages -> path `prefix_of` p -> validate_target_preimage h record changes recovering (p, f) = Ok tt.
Proof.
  intros Hnd. unfold validate_target_path. rewrite for_each_Ok.
  assert (forall x, validate_target_preimages h record [x] changes recovering = Ok tt <-> validate_target_preimage h record changes recovering x = Ok tt) as Hone.
  { intros x. unfold validate_target_preimages. cbn [for_each]. destruct (validate_target_preimage _ _ _ _ x) as [[]|]; done. }
  pose proof (fun x => range_exact (index_preimages preimages) (index_preimages_sorted preimages) path x) as Hr. split.
  - intros Hv p f Hin Hp. apply Hone, Hv, Hr. split; [by apply (elem_of_index preimages p f Hnd)|done].
  - intros Hv [p f] [Hin Hp]%Hr. apply Hone, Hv; [by apply (elem_of_index preimages p f Hnd)|done].
Qed.
End Statements.

(** ** Plans against the view *)

Section Cover.
Context (core : OverlayCore) `{GlobOps, !GlobLaws, AccessOps, Digest256} (beyond_tree : Loc -> Result ApplyError unit).
Context (h : Host) (I : hinv core h) (record : OverlayRecord) (journal : PreimageJournal).
Local Abbreviation count := (oc_lowers core).
Local Abbreviation lowers := (overlay_lowers core).

(** The review of an overlay misses nothing that shows: a path where the merged
    view shows an object that the lowers alone do not is listed itself, unless the
    first of several lowers that has the path has that object; a path that only the
    lowers show is at or below a change that removes. *)
Theorem changes_cover_view changes p : overlay_changes h lowers (pj_entries journal) = Ok changes -> plain p -> normal p ->
  match view count h p with
  | Some k => lower_view count h p = Some k \/ (exists c, c ∈ changes /\ c_path c = p /\ c_new_type c = Some (kind_type k)) \/
              (1 < count /\ i_kind <$> lower_metadata h lowers p = Some k)
  | None => lower_view count h p = None \/
            exists c, c ∈ changes /\ c_path c `prefix_of` p /\ (c_kind c = Deleted \/ c_kind c = TypeChanged \/ c_kind c = OpaqueChange)
  end.
Proof.
  intros Hc Hp Hn. destruct I as [W R _]. destruct (view count h p) as [k|] eqn:Hv.
  - destruct (decide (lower_view count h p = Some k)) as [?|Hl]; [by left|right]. exact (shown_listed core h W R (pj_entries journal) changes Hc p k Hp Hn Hv Hl).
  - destruct (lower_view count h p) as [k|] eqn:Hl; [right|by left]. apply (gone_listed core h W R (pj_entries journal) changes Hc p Hp Hn Hv). by eexists.
Qed.

Lemma all_requested selection compiled p : is_all selection = true -> compile_selection selection = Ok compiled ->
  requested compiled p = true /\ excluded compiled p = false.
Proof.
  unfold is_all. intros [[Hp%bool_decide_eq_true Hi%bool_decide_eq_true]%andb_true_iff He%bool_decide_eq_true]%andb_true_iff.
  unfold compile_selection. rewrite Hp, Hi, He. intros (paths & [= <-] & (includes & _ & (excludes & Hg & [= <-])%bind_Ok)%bind_Ok)%bind_Ok.
  split; [done|]. unfold excluded. cbn [cs_excludes]. unfold compile_selection_globs in Hg. cbn [collect mbind result_bind] in Hg.
  destruct (globset_build []) as [g|] eqn:Eb; [|done]. injection Hg as <-. apply not_true_iff_false. unfold set_matches. rewrite existsb_exists.
  intros (a & _ & (x & Hin & _)%(globset_is_match_spec _ _ a Eb)). by apply elem_of_nil in Hin.
Qed.
(** C20: A plan without a selection selects every listed change, and these cover
    every difference. A path where the overlay shows an object that the lowers alone
    do not has a change of its own (only with several lowers may the object be that
    of a lower, which a higher lower hid). A path that only the lowers show is at or
    below a selected change that removes: a deletion, a change of type or an opaque
    directory. Every object of the upper has a change of its own, but for a
    directory whose mode, owner and extended attributes are those recorded before
    the first change, or those of the lower where nothing was recorded. *)
Theorem full_plan_covers_view selection kind plan p : is_all selection = true ->
  plan_overlay_apply_in_scope beyond_tree h record journal lowers selection kind None = Ok plan ->
  overlay_changes h lowers (pj_entries journal) = Ok (ap_selected plan) /\
  (plain p -> normal p ->
   (forall k, view count h p = Some k -> lower_view count h p <> Some k ->
      (exists c, c ∈ ap_selected plan /\ c_path c = p /\ c_new_type c = Some (kind_type k)) \/
      (1 < count /\ i_kind <$> lower_metadata h lowers p = Some k)) /\
   (view count h p = None -> is_Some (lower_view count h p) ->
      exists c, c ∈ ap_selected plan /\ c_path c `prefix_of` p /\ (c_kind c = Deleted \/ c_kind c = TypeChanged \/ c_kind c = OpaqueChange)) /\
   (forall n, p <> [] -> node h (Upper, p) = Some n ->
      (i_kind n = KDir -> forall f g, fingerprint_inode n = Ok f -> state_before core h (pj_entries journal) p = Ok g -> directory_attributes f <> directory_attributes g) ->
      exists c, c ∈ ap_selected plan /\ c_path c = p /\ c_new_type c = Some (metadata_type n) /\
        c_kind c = kind_over (metadata_type <$> lower_metadata h lowers p) (metadata_type n))).
Proof.
  intros Hall (inventory & changes & compiled & [Hi Hc Hs] & _ & (Hset & _) & _ & Hsel & _)%plan_Ok.
  assert (ap_selected plan = changes) as ->.
  { rewrite Hsel. apply forallb_filter_id, forallb_forall. intros c Hin%list_elem_of_In. apply bool_decide_eq_true, Hset, needed_chosen.
    destruct (all_requested selection compiled (c_path c) Hall Hs) as [Hreq Hexc].
    apply (proj2 (elem_of_initial changes compiled None (c_path c))). split; [by apply list_elem_of_fmap_2|]. by rewrite Hreq, Hexc. }
  assert (overlay_changes h lowers (pj_entries journal) = Ok changes) as Hoc by (unfold overlay_changes; rewrite Hi; exact Hc).
  destruct I as [W R _]. split; [done|]. intros Hp Hn. split_and!.
  - intros k. by apply (shown_listed core h W R (pj_entries journal)).
  - by apply (gone_listed core h W R (pj_entries journal)).
  - intros n. by apply (changed_listed core h W R (pj_entries journal)).
Qed.

(** A preview shows what would be applied: it succeeds only where an apply could be
    prepared, splits the selected changes into those requested and those that
    they need, and offers every listed change. *)
Theorem preview_agrees published sealed pending selection preview :
  preview_overlay_apply beyond_tree h record published journal sealed pending lowers selection = Ok preview ->
  exists observed kind plan preimages compiled,
    prepare_overlay_apply beyond_tree h observed journal sealed pending lowers selection kind = Ok (plan, preimages) /\
    compile_selection selection = Ok compiled /\
    av_selected preview ++ av_required preview ≡ₚ ap_selected plan /\
    (forall c, c ∈ av_selected preview -> requested compiled (c_path c) = true) /\
    (forall c, c ∈ av_required preview -> requested compiled (c_path c) = false) /\
    overlay_changes h lowers (pj_entries journal) = Ok (av_candidates preview).
Proof.
  intros ([observed b] & _ & (kind & _ & ([plan preimages] & Hp & (compiled & Hs & (candidates & Hc & [= <-])%bind_Ok)%bind_Ok)%bind_Ok)%bind_Ok)%bind_Ok.
  exists observed, kind, plan, preimages, compiled. cbn [av_selected av_required av_candidates]. split_and!; [done..| | | |].
  - clear. induction (ap_selected plan) as [|c l IH]; [done|]. cbn [List.filter]. destruct (requested compiled (c_path c)); cbn [negb app]; [by rewrite IH|].
    by rewrite <- Permutation_middle, IH.
  - intros c [_ Hr]%list_elem_of_In%filter_In. done.
  - intros c [_ Hr%negb_true_iff]%list_elem_of_In%filter_In. done.
  - destruct (overlay_changes _ _ _) as [l|]; [|done]. injection Hc as ->. f_equal. symmetry. by apply forallb_filter_id, forallb_forall.
Qed.
End Cover.

(** ** Samples *)

(** The overlay of [OverlayHealth] after a file was removed and a directory with a
    file was made, and after a directory was renamed. *)
Module ApplySample.
#[local] Existing Instance open_access.
#[local] Existing Instance Sample.digest.
Definition staged : World :=
  (perform Sample.core (CreateFile ["a"; "n"; "f"] 420) (perform Sample.core (CreateDir ["a"; "n"] 493) (perform Sample.core (Remove ["b"] false) Sample.world).2).2).2%string.
Definition renamed : World := (perform Sample.core (Rename ["a"] ["c"] false) Sample.world).2%string.
Definition sample_record : OverlayRecord := mkOverlayRecord "o" 0 "s" "u" "w" (Lower 0) false None [] false Staged.
Definition journal (w : World) : PreimageJournal := mkPreimages (w_preimages w) true.
Definition outside (l : Loc) : Result ApplyError unit := Ok tt.
Definition everything : ApplySelection := mkSelection [] [] [].
Notation sample_plan w selection :=
  (plan_overlay_apply_in_scope outside (w_host w) sample_record (journal w) (overlay_lowers Sample.core) selection TargetDirectory None).
Notation sample_prepare w selection :=
  (prepare_overlay_apply outside (w_host w) sample_record (journal w) (Ok tt) (Ok false) (overlay_lowers Sample.core) selection TargetDirectory).
End ApplySample.
Import ApplySample.
#[local] Existing Instance open_access.
#[local] Existing Instance Sample.digest.
#[local] Instance sample_laws : AccessLaws := policy_access_laws None [] fap_default fap_default_wf.

Lemma is_ok_Ok {E A} (r : Result E A) : is_ok r = true -> exists a, r = Ok a.
Proof. destruct r as [a|]; [by exists a|done]. Qed.
Lemma sound_inv core h : sound_host core h = true -> hinv core h.
Proof. intros Hs%(sound_host_healthy core _ [] ∅ ∅ 0). exact (inv_host _ _ (he_inv _ _ Hs)). Qed.
Lemma staged_inv : hinv Sample.core (w_host staged).
Proof. apply sound_inv. vm_compute. reflexivity. Qed.
Lemma renamed_inv : hinv Sample.core (w_host renamed).
Proof. apply sound_inv. vm_compute. reflexivity. Qed.

(** A new file with a second name: the second name is requested, the first one and
    its new directory are required. *)
Definition one_file : ApplySelection := mkSelection ["a/n/f"]%string [] [].
Definition linked : World := (perform Sample.core (HardLink ["a"; "n"; "f"] ["g"]) staged).2%string.
Definition second_name : ApplySelection := mkSelection ["g"]%string [] [].
Lemma linked_inv : hinv Sample.core (w_host linked).
Proof. apply sound_inv. vm_compute. reflexivity. Qed.
Lemma plan_least_closure_witness : exists p, sample_plan linked second_name = Ok p /\ ["a"; "n"; "f"]%string ∈ ap_selected_paths p /\
  exists inventory changes compiled, Planned (w_host linked) (journal linked) (overlay_lowers Sample.core) second_name inventory changes compiled /\
    Required (w_host linked) changes compiled None ["a"; "n"; "f"]%string.
Proof.
  assert (is_ok (sample_plan linked second_name) = true) as [p Hp]%is_ok_Ok by (vm_compute; reflexivity). exists p. split; [exact Hp|].
  assert (["a"; "n"; "f"]%string ∈ ap_selected_paths p) as Hin.
  { assert (from_option (fun p => bool_decide (["a"; "n"; "f"]%string ∈ ap_selected_paths p)) false (match sample_plan linked second_name with Ok p => Some p | Err _ => None end) = true) as Hb
      by (vm_compute; reflexivity). rewrite Hp in Hb. cbn [from_option] in Hb. exact (proj1 (bool_decide_eq_true _) Hb). }
  split; [exact Hin|].
  destruct (plan_least_closure outside (w_host linked) sample_record (journal linked) (overlay_lowers Sample.core) second_name TargetDirectory None p (hinv_wf _ _ linked_inv) Hp) as (inventory & changes & compiled & Hpl & Hset & _).
  exists inventory, changes, compiled. split; [exact Hpl|]. exact (proj1 (Hset _) Hin).
Defined.

(** A file of the directory that was made by the move is excluded. *)
Definition excluding : ApplySelection := mkSelection ["c"]%string [] ["c/x"]%string.
Lemma planning_ends_witness : errs (justified (w_host renamed) (journal renamed) (overlay_lowers Sample.core) excluding None) (sample_plan renamed excluding) /\
  sample_plan renamed excluding = Err (Refused (ExcludedFromOpaque ["c"; "x"] ["c"]))%string.
Proof.
  split; [|vm_compute; reflexivity].
  apply (planning_ends outside (w_host renamed) sample_record (journal renamed) (overlay_lowers Sample.core) excluding); [intros l; vm_compute; discriminate|exact (hinv_wf _ _ renamed_inv)|discriminate].
Defined.

(** Moving a directory removes it, with all that is in it, from the target. *)
Definition careful : ApplySelection := mkSelection [] [] ["z"]%string.
Lemma plan_protects_witness : exists p change compiled, sample_plan renamed careful = Ok p /\ change ∈ ap_selected p /\ replaces_directory change = true /\
  compile_selection careful = Ok compiled /\ excluded compiled ["a"; "s"; "t"]%string = false.
Proof.
  assert (is_ok (sample_plan renamed careful) = true) as [p Hp]%is_ok_Ok by (vm_compute; reflexivity).
  assert (match sample_plan renamed careful with Ok p => existsb (fun c => replaces_directory c && bool_decide (c_path c = ["a"]%string)) (ap_selected p) | Err _ => false end = true) as Hb
    by (vm_compute; reflexivity). rewrite Hp in Hb. apply existsb_exists in Hb as (change & Hin%list_elem_of_In & [Hr Hpath%bool_decide_eq_true]%andb_true_iff).
  exists p, change.
  destruct (plan_protects outside (w_host renamed) sample_record (journal renamed) (overlay_lowers Sample.core) careful (hinv_wf _ _ renamed_inv) TargetDirectory None p change ["a"; "s"; "t"]%string Hp Hin) as (compiled & Hc & _ & He & _).
  - right. split; [exact Hr|]. rewrite Hpath. split; [by exists ["s"; "t"]%string|]. vm_compute. by eexists.
  - exists compiled. exact (conj Hp (conj Hin (conj Hr (conj Hc He)))).
Defined.

Lemma prepared_apply_conflict_free_witness : exists p preimages f, sample_prepare staged one_file = Ok (p, preimages) /\
  pj_entries (journal staged) !! ["a"; "n"; "f"]%string = Some f /\ target_matches (w_host staged) sample_record ["a"; "n"; "f"]%string f.
Proof.
  assert (is_ok (sample_prepare staged one_file) = true) as [[p preimages] Hp]%is_ok_Ok by (vm_compute; reflexivity). exists p, preimages.
  destruct (prepared_apply_conflict_free outside (w_host staged) sample_record (journal staged) (overlay_lowers Sample.core) one_file TargetDirectory (Ok tt) (Ok false) p preimages eq_refl Hp) as (Hsel & _).
  destruct (Hsel ["a"; "n"; "f"]%string) as (f & Hf & Hm); [|exists f; exact (conj Hp (conj Hf Hm))].
  assert (match sample_prepare staged one_file with Ok (p, _) => bool_decide (["a"; "n"; "f"]%string ∈ ap_selected_paths p) | Err _ => false end = true) as Hb
    by (vm_compute; reflexivity). rewrite Hp in Hb. exact (proj1 (bool_decide_eq_true _) Hb).
Defined.

Lemma recursive_check_exact_witness :
  validate_target_path (w_host staged) sample_record [(["a"], FpAbsent); (["a-b"], FpAbsent); (["a"; "z"], FpAbsent)]%string [] false ["a"; "z"]%string true = Ok tt /\
  validate_target_preimage (w_host staged) sample_record [] false (["a"; "z"]%string, FpAbsent) = Ok tt.
Proof.
  split; [vm_compute; reflexivity|].
  refine (proj1 (recursive_check_exact (w_host staged) sample_record [(["a"], FpAbsent); (["a-b"], FpAbsent); (["a"; "z"], FpAbsent)]%string [] false ["a"; "z"]%string _) _ ["a"; "z"]%string FpAbsent _ _).
  - apply (bool_decide_unpack _). vm_compute. exact I.
  - vm_compute. reflexivity.
  - apply list_elem_of_further, list_elem_of_further, list_elem_of_here.
  - by exists [].
Defined.

Lemma full_plan_covers_view_witness : exists p, sample_plan staged everything = Ok p /\
  (exists c, c ∈ ap_selected p /\ c_path c `prefix_of` ["b"]%string /\ (c_kind c = Deleted \/ c_kind c = TypeChanged \/ c_kind c = OpaqueChange)) /\
  (exists c, c ∈ ap_selected p /\ c_path c = ["a"; "n"; "f"]%string).
Proof.
  assert (is_ok (sample_plan staged everything) = true) as [p Hp]%is_ok_Ok by (vm_compute; reflexivity). exists p. split; [exact Hp|]. split.
  - destruct (full_plan_covers_view Sample.core outside (w_host staged) staged_inv sample_record (journal staged) everything TargetDirectory p ["b"]%string eq_refl Hp) as [_ Hc].
    destruct Hc as (_ & Hgone & _); [exact (plain_path ["b"]%string eq_refl)|reflexivity|]. apply Hgone; vm_compute; [reflexivity|by eexists].
  - destruct (full_plan_covers_view Sample.core outside (w_host staged) staged_inv sample_record (journal staged) everything TargetDirectory p ["a"; "n"; "f"]%string eq_refl Hp) as [_ Hc].
    destruct Hc as (Hshown & _); [exact (plain_path ["a"; "n"; "f"]%string eq_refl)|reflexivity|].
    destruct (Hshown (KFile "")) as [(c & Hin & Hpath & _)|[Hbad _]]; [vm_compute; reflexivity|vm_compute; discriminate|exists c; exact (conj Hin Hpath)|].
    exfalso. vm_compute in Hbad. lia.
Defined.
Lemma changes_cover_view_witness : exists changes, overlay_changes (w_host renamed) (overlay_lowers Sample.core) (w_preimages renamed) = Ok changes /\
  exists c, c ∈ changes /\ c_path c `prefix_of` ["a"; "s"; "t"]%string.
Proof.
  assert (is_ok (overlay_changes (w_host renamed) (overlay_lowers Sample.core) (w_preimages renamed)) = true) as [changes Hc]%is_ok_Ok by (vm_compute; reflexivity). exists changes. split; [exact Hc|].
  pose proof (changes_cover_view Sample.core (w_host renamed) renamed_inv (journal renamed) changes ["a"; "s"; "t"]%string Hc (plain_path ["a"; "s"; "t"]%string eq_refl) eq_refl) as Hs.
  assert (view 1 (w_host renamed) ["a"; "s"; "t"]%string = None) as Hv by (vm_compute; reflexivity). change (oc_lowers Sample.core) with 1 in Hs. rewrite Hv in Hs.
  destruct Hs as [Hbad|(c & Hin & Hpre & _)]; [vm_compute in Hbad; discriminate Hbad|]. exists c. exact (conj Hin Hpre).
Defined.
Lemma preview_agrees_witness : exists v, preview_overlay_apply outside (w_host staged) sample_record (Ok None) (journal staged) (Ok tt) (Ok false) (overlay_lowers Sample.core) one_file = Ok v /\
  overlay_changes (w_host staged) (overlay_lowers Sample.core) (w_preimages staged) = Ok (av_candidates v).
Proof.
  assert (is_ok (preview_overlay_apply outside (w_host staged) sample_record (Ok None) (journal staged) (Ok tt) (Ok false) (overlay_lowers Sample.core) one_file) = true) as [v Hv]%is_ok_Ok by (vm_compute; reflexivity).
  exists v. split; [exact Hv|].
  destruct (preview_agrees Sample.core outside (w_host staged) sample_record (journal staged) (Ok None) (Ok tt) (Ok false) one_file v Hv) as (? & ? & ? & ? & ? & _ & _ & _ & _ & _ & Hc).
  exact Hc.
Defined.
