(* ===== verification/ApplyLedger.v ===== *)
(** * The ledger of applies and the order of a transaction

    [pvisor-overlay-core/src/apply.rs]: the ledger file of a stage, and the
    operations that apply, recover and drop an overlay as sequences of durable
    steps. The ledger is modelled in full, down to its validation. The phases that
    change the target, prune the upper, consume observations and remove backups
    are steps that succeed or fail and are noted in a trace with the ledger that
    was on disk; planning is that of [ApplyPlan]. The lock on the target makes an
    operation one sequence of steps. A crash is a step that fails and is not
    followed by others: what is on disk is all that the next operation sees. *)
From stdpp Require Import base tactics list strings gmap pretty.
From Stdlib Require Import ZArith Lia Ascii.
From S2P Require Import Prelude RustStr FileAccess HostFs Overlay ApplyPlan.
Local Open Scope nat_scope.

(** ** Records *)

Inductive ApplyRecordState := Prepared | TargetApplied | Committed.
#[export] Instance apply_record_state_eq_dec : EqDecision ApplyRecordState.
Proof. solve_decision. Defined.
Record ApplyRecord := mkApplyRecord {
  ar_schema_version : Z;
  ar_apply_id : string;
  ar_created_at_unix_ms : Z;
  ar_overlay_id : string;
  ar_overlay_generation : Z;
  ar_target : Root;
  ar_selection : ApplySelection;
  ar_changes : list ChangeEntry;
  ar_planned_paths : list Path;
  ar_preimages : list TargetPreimage;
  ar_state : ApplyRecordState;
  ar_remaining_changes : nat
}.
Record ProjectApplyBoundary := mkBoundary { pb_target : string; pb_overlay_prefix : Path; pb_device : Z; pb_inode : Z }.
Record ApplyLedger := mkLedger {
  al_schema_version : Z;
  al_records : list ApplyRecord;
  al_project_boundaries : gmap string ProjectApplyBoundary
}.
Definition PROJECT_APPLY_SCHEMA_VERSION : Z := 3.
Definition APPLY_LEDGER_SCHEMA_VERSION : Z := 2.
(** The derived [Default]. *)
Definition ledger_default : ApplyLedger := mkLedger 0 [] ∅.

(** The text of a ledger, by [serde_json]. *)
Class LedgerCodec := {
  LedgerText : Type;
  ledger_encode : ApplyLedger -> option LedgerText;
  ledger_decode : LedgerText -> option ApplyLedger
}.
Class LedgerCodecLaws `{LedgerCodec} : Prop := {
  ledger_round_trip l text : ledger_encode l = Some text -> ledger_decode text = Some l
}.

(** ** The file *)

Section Ledger.
Context `{LedgerCodec}.

Inductive LedgerFile := LedgerAbsent | LedgerUnreadable (e : IoErr) | LedgerBytes (text : LedgerText).

Definition schema_supported (version : Z) : bool := (1 <=? version)%Z && (version <=? 3)%Z.
Definition has_boundary (ledger : ApplyLedger) (id : string) : bool := bool_decide (is_Some (al_project_boundaries ledger !! id)).
Definition validate_record (ledger : ApplyLedger) (record : ApplyRecord) : Result ApplyError unit :=
  _ ← ensure (schema_supported (ar_schema_version record)) BadMeta;
  _ ← ensure (Bool.eqb (ar_schema_version record =? PROJECT_APPLY_SCHEMA_VERSION)%Z (has_boundary ledger (ar_apply_id record))) BadMeta;
  _ ← for_each (fun path => io (validate_rel path)) (ar_planned_paths record);
  _ ← for_each (fun change => io (validate_rel (c_path change))) (ar_changes record);
  for_each (fun preimage : TargetPreimage => io (validate_rel preimage.1)) (ar_preimages record).
Definition validate_ledger (ledger : ApplyLedger) : Result ApplyError unit :=
  _ ← ensure (schema_supported (al_schema_version ledger)) BadMeta;
  _ ← for_each (validate_record ledger) (al_records ledger);
  _ ← ensure (bool_decide (al_project_boundaries ledger = ∅) || (al_schema_version ledger =? 3)%Z) BadMeta;
  for_each (fun '(id, _) => ensure (existsb (fun record => bool_decide (ar_apply_id record = id)) (al_records ledger)) BadMeta)
    (map_to_list (al_project_boundaries ledger)).
Definition load_apply_ledger (file : LedgerFile) : Result ApplyError ApplyLedger :=
  match file with
  | LedgerAbsent => Ok ledger_default
  | LedgerUnreadable e => Err (Io e)
  | LedgerBytes text =>
      ledger ← ok_or (ledger_decode text) BadMeta;
      _ ← validate_ledger ledger;
      Ok ledger
  end.
Definition load_apply_records (file : LedgerFile) : Result ApplyError (list ApplyRecord) :=
  ledger ← load_apply_ledger file; Ok (al_records ledger).
Definition is_pending (apply : ApplyRecord) : bool := negb (bool_decide (ar_state apply = Committed)).
Definition has_pending_applies (file : LedgerFile) : Result ApplyError bool :=
  records ← load_apply_records file; Ok (existsb is_pending records).

(** What becomes of a step: it happens, it does not, or it happens and reports an
    error. *)
Inductive StepOutcome := Happens | FailsBefore | FailsAfter.

(** [serde_json::to_vec_pretty] with [Persistence::atomic_write]. *)
Definition write_ledger (outcome : StepOutcome) (ledger : ApplyLedger) (file : LedgerFile) : Result ApplyError unit * LedgerFile :=
  match ledger_encode ledger with
  | None => (Err Persist, file)
  | Some text =>
      match outcome with
      | Happens => (Ok tt, LedgerBytes text)
      | FailsBefore => (Err Persist, file)
      | FailsAfter => (Err Persist, LedgerBytes text)
      end
  end.

Definition with_appended (record : ApplyRecord) (boundary : option ProjectApplyBoundary) (ledger : ApplyLedger) : ApplyLedger :=
  let boundaries := match boundary with
                    | Some b => <[ar_apply_id record := b]> (al_project_boundaries ledger)
                    | None => al_project_boundaries ledger
                    end in
  mkLedger (if bool_decide (boundaries = ∅) then 2 else 3) (al_records ledger ++ [record]) boundaries.
Definition append_apply_record_scoped (outcome : StepOutcome) (record : ApplyRecord) (boundary : option ProjectApplyBoundary) (file : LedgerFile)
    : Result ApplyError unit * LedgerFile :=
  match load_apply_ledger file with
  | Err e => (Err e, file)
  | Ok ledger => write_ledger outcome (with_appended record boundary ledger) file
  end.

Definition with_record_state (state : ApplyRecordState) (remaining : option nat) (r : ApplyRecord) : ApplyRecord :=
  mkApplyRecord (ar_schema_version r) (ar_apply_id r) (ar_created_at_unix_ms r) (ar_overlay_id r) (ar_overlay_generation r) (ar_target r)
    (ar_selection r) (ar_changes r) (ar_planned_paths r) (ar_preimages r) state (default (ar_remaining_changes r) remaining).
(** The first record with the identifier. *)
Fixpoint update_record (id : string) (f : ApplyRecord -> ApplyRecord) (records : list ApplyRecord) : option (list ApplyRecord) :=
  match records with
  | [] => None
  | r :: rest => if bool_decide (ar_apply_id r = id) then Some (f r :: rest) else cons r <$> update_record id f rest
  end.
Definition update_apply_state (outcome : StepOutcome) (id : string) (state : ApplyRecordState) (remaining : option nat) (file : LedgerFile)
    : Result ApplyError unit * LedgerFile :=
  match load_apply_ledger file with
  | Err e => (Err e, file)
  | Ok ledger =>
      match update_record id (with_record_state state remaining) (al_records ledger) with
      | None => (Err Persist, file)
      | Some records => write_ledger outcome (mkLedger (al_schema_version ledger) records (al_project_boundaries ledger)) file
      end
  end.

(** ** Transactions *)

(** The phases that change something besides the ledger. *)
Inductive Phase := ChangeTarget | PruneUpper | ClearStage | ConsumePreimages | RemoveBackups.
Inductive TxEvent := PhaseOf (apply_id : string) (phase : Phase) (ledger : LedgerFile) | DropStage (ledger : LedgerFile).

(** The ledger file, the record in memory and the one in the stage directory, the
    steps to come, the changes that remain whenever the upper is listed again, and
    what has been done. *)
Record Tx := mkTx {
  tx_file : LedgerFile;
  tx_record : OverlayRecord;
  tx_published : option OverlayRecord;
  tx_steps : list StepOutcome;
  tx_listings : list (Result IoErr (list ChangeEntry));
  tx_trace : list TxEvent
}.
Definition TxOp (A : Type) : Type := Tx -> Result ApplyError A * Tx.
#[export] Instance tx_ret : MRet TxOp := fun A a t => (Ok a, t).
#[export] Instance tx_bind : MBind TxOp := fun A B f m t =>
  match m t with (Ok a, t') => f a t' | (Err e, t') => (Err e, t') end.
Definition tx_lift {A} (r : Result ApplyError A) : TxOp A := fun t => (r, t).
Definition tx_reading {A} (f : Tx -> Result ApplyError A) : TxOp A := fun t => (f t, t).
Fixpoint tx_for {A} (f : A -> TxOp unit) (l : list A) : TxOp unit :=
  match l with [] => mret tt | x :: l => _ ← f x; tx_for f l end.
Definition tx_if (b : bool) (m : TxOp unit) : TxOp unit := if b then m else mret tt.

(** The next step, or success when none is prescribed. *)
Definition next_step (t : Tx) : StepOutcome := default Happens (head (tx_steps t)).
Definition after_step (t : Tx) : Tx := mkTx (tx_file t) (tx_record t) (tx_published t) (tail (tx_steps t)) (tx_listings t) (tx_trace t).
Definition set_ledger (file : LedgerFile) (t : Tx) : Tx := mkTx file (tx_record t) (tx_published t) (tx_steps t) (tx_listings t) (tx_trace t).
Definition set_record (r : OverlayRecord) (t : Tx) : Tx := mkTx (tx_file t) r (tx_published t) (tx_steps t) (tx_listings t) (tx_trace t).
Definition set_published (r : OverlayRecord) (t : Tx) : Tx := mkTx (tx_file t) (tx_record t) (Some r) (tx_steps t) (tx_listings t) (tx_trace t).
Definition note (e : TxEvent) (t : Tx) : Tx := mkTx (tx_file t) (tx_record t) (tx_published t) (tx_steps t) (tx_listings t) (tx_trace t ++ [e]).

Definition ledger_step (f : StepOutcome -> LedgerFile -> Result ApplyError unit * LedgerFile) : TxOp unit := fun t =>
  let '(r, file) := f (next_step t) (tx_file t) in (r, set_ledger file (after_step t)).
(** A check that reads what is not modelled, and a phase. *)
Definition check_step : TxOp unit := fun t =>
  (match next_step t with Happens => Ok tt | _ => Err (Io EIO) end, after_step t).
Definition noted (e : LedgerFile -> TxEvent) : TxOp unit := fun t =>
  (match next_step t with Happens => Ok tt | _ => Err (Io EIO) end, note (e (tx_file t)) (after_step t)).
Definition phase (id : string) (p : Phase) : TxOp unit := noted (PhaseOf id p).

Definition with_overlay_state (s : OverlayState) (r : OverlayRecord) : OverlayRecord :=
  mkOverlayRecord (or_id r) (or_generation r) (or_stage_dir r) (or_upper_dir r) (or_work_dir r) (or_target r) (or_target_is_root r)
    (or_baseline_lower r) (or_excluded_paths r) (or_protect_target r) s.
(** [write_overlay_record]. *)
Definition write_overlay_record : TxOp unit := fun t =>
  match next_step t with
  | Happens => (Ok tt, set_published (tx_record t) (after_step t))
  | FailsBefore => (Err Persist, after_step t)
  | FailsAfter => (Err Persist, set_published (tx_record t) (after_step t))
  end.
Definition set_overlay_state (s : OverlayState) : TxOp unit := fun t => (Ok tt, set_record (with_overlay_state s (tx_record t)) t).
Definition list_changes : TxOp (list ChangeEntry) := fun t =>
  (io (default (Ok []) (head (tx_listings t))), mkTx (tx_file t) (tx_record t) (tx_published t) (tx_steps t) (tail (tx_listings t)) (tx_trace t)).
Definition reconcile : TxOp unit := fun t =>
  match reconcile_terminal_overlay (tx_record t) (Ok (tx_published t) : Result ApplyError _) with
  | Ok (r, _) => (Ok tt, set_record r t)
  | Err e => (Err e, t)
  end.
Definition the_record : TxOp OverlayRecord := tx_reading (fun t => Ok (tx_record t)).

Definition mark_apply_target_applied (id : string) : TxOp unit := ledger_step (fun o => update_apply_state o id TargetApplied None).
Definition mark_apply_committed (id : string) (remaining : nat) : TxOp unit := ledger_step (fun o => update_apply_state o id Committed (Some remaining)).
(** Pruning is skipped when nothing was selected; that an upper which is no
    directory (any more) is left alone belongs to the phase [PruneUpper]. *)
Definition complete_target_applied (id : string) (selected : list Path) : TxOp (list ChangeEntry) :=
  _ ← tx_if (negb (bool_decide (selected = []))) (phase id PruneUpper);
  remaining ← list_changes;
  _ ← (if bool_decide (remaining = []) then _ ← phase id ClearStage; set_overlay_state Applied else set_overlay_state Staged);
  _ ← write_overlay_record;
  mret remaining.
Definition cleanup_apply_backups (id : string) (kind : ApplyTargetKind) : TxOp unit :=
  match kind with TargetDirectory => phase id RemoveBackups | FilesystemRoot => mret tt end.
(** The tail that applying and recovering share. *)
Definition finish_apply (id : string) (selected : list Path) : TxOp (list ChangeEntry) :=
  remaining ← complete_target_applied id selected;
  _ ← phase id ConsumePreimages;
  _ ← mark_apply_committed id (length remaining);
  mret remaining.

(** The check of the binding, then the same tail. *)
Definition finish_project_apply (id : string) (selected : list Path) : TxOp (list ChangeEntry) :=
  _ ← check_step;
  finish_apply id selected.
Definition recover_project_apply (apply : ApplyRecord) : TxOp unit :=
  record ← the_record;
  _ ← tx_lift (ensure (negb (or_protect_target record)) (Refused ImmutableTarget));
  _ ← check_step;
  _ ← tx_if (bool_decide (ar_state apply = Prepared))
        (_ ← phase (ar_apply_id apply) ChangeTarget; mark_apply_target_applied (ar_apply_id apply));
  _ ← finish_project_apply (ar_apply_id apply) (ar_planned_paths apply);
  mret tt.
Definition belongs (apply : ApplyRecord) (record : OverlayRecord) : bool :=
  bool_decide (ar_overlay_id apply = or_id record) && bool_decide (ar_overlay_generation apply = or_generation record)
  && bool_decide (ar_target apply = or_target record).
Definition recover_one (boundaries : gmap string ProjectApplyBoundary) (kind : ApplyTargetKind) (apply : ApplyRecord) : TxOp unit :=
  record ← the_record;
  _ ← tx_lift (ensure (belongs apply record) InvalidState);
  match boundaries !! ar_apply_id apply with
  | Some _ => recover_project_apply apply
  | None =>
      _ ← tx_lift (validate_changes kind (ar_changes apply));
      selected ← tx_lift (collect normalize_components (ar_planned_paths apply));
      _ ← tx_lift (ensure (negb (bool_decide (selected = []) && negb (bool_decide (ar_changes apply = [])))) InvalidState);
      _ ← tx_if (bool_decide (ar_state apply = Prepared))
            (_ ← phase (ar_apply_id apply) ChangeTarget; mark_apply_target_applied (ar_apply_id apply));
      _ ← finish_apply (ar_apply_id apply) selected;
      cleanup_apply_backups (ar_apply_id apply) kind
  end.
Definition retains_backups (ledger : ApplyLedger) (record : OverlayRecord) (apply : ApplyRecord) : bool :=
  bool_decide (ar_state apply = Committed) && (2 <=? ar_schema_version apply)%Z && belongs apply record
  && negb (has_boundary ledger (ar_apply_id apply)).
Definition recover_pending_applies_for_target (kind : ApplyTargetKind) : TxOp (list string) :=
  ledger ← tx_reading (fun t => load_apply_ledger (tx_file t));
  record ← the_record;
  _ ← tx_for (fun apply => tx_if (retains_backups ledger record apply) (cleanup_apply_backups (ar_apply_id apply) kind)) (al_records ledger);
  let pending := List.filter is_pending (al_records ledger) in
  _ ← tx_for (recover_one (al_project_boundaries ledger) kind) pending;
  mret (ar_apply_id <$> pending).
(** [sealed] is what [require_sealed] answers. *)
Definition recover_pending_applies (sealed : Result IoErr unit) (kind : ApplyTargetKind) : TxOp (list string) :=
  _ ← reconcile;
  _ ← tx_lift (io sealed);
  _ ← check_step;
  _ ← reconcile;
  recover_pending_applies_for_target kind.

Definition discard_overlay : TxOp unit :=
  _ ← reconcile;
  _ ← check_step;
  _ ← reconcile;
  waiting ← tx_reading (fun t => has_pending_applies (tx_file t));
  _ ← tx_lift (ensure (negb waiting) InvalidState);
  record ← the_record;
  match or_state record with
  | Discarded => mret tt
  | Applied => tx_lift (Err InvalidState)
  | Active | Staged =>
      _ ← noted DropStage;
      _ ← set_overlay_state Discarded;
      write_overlay_record
  end.

(** What an apply reports. *)
Record ApplyOutcome := mkOutcome { ao_apply_id : string; ao_applied : list ChangeEntry; ao_remaining : list ChangeEntry }.

Section Apply.
(** [h] and [journal] are the file system and the journal when the plan is made. *)
Context `{GlobOps, AccessOps, Digest256} (beyond_tree : Loc -> Result ApplyError unit).
Context (h : Host) (journal : PreimageJournal) (sealed : Result IoErr unit) (lowers : list Root).

Definition prepared_record (id : string) (now : Z) (record : OverlayRecord) (selection : ApplySelection) (plan : ApplyPlan) (preimages : list TargetPreimage) : ApplyRecord :=
  mkApplyRecord APPLY_LEDGER_SCHEMA_VERSION id now (or_id record) (or_generation record) (or_target record) selection
    (ap_selected plan) (btree (ap_selected_paths plan)) preimages Prepared 0.
Definition apply_overlay_selected (id : string) (now : Z) (selection : ApplySelection) (kind : ApplyTargetKind) : TxOp ApplyOutcome :=
  _ ← reconcile;
  _ ← tx_lift (io sealed);
  record ← the_record;
  _ ← tx_lift (ensure (negb (or_protect_target record)) (Refused ImmutableTarget));
  _ ← tx_lift (ensure (negb (bool_decide (or_state record = Discarded))) InvalidState);
  _ ← check_step;
  _ ← recover_pending_applies_for_target kind;
  record ← the_record;
  match or_state record with
  | Applied => if is_all selection then mret (mkOutcome "" [] []) else tx_lift (Err InvalidState)
  | Discarded => tx_lift (Err InvalidState)
  | Active | Staged =>
      pending ← tx_reading (fun t => Ok (has_pending_applies (tx_file t)));
      '(plan, preimages) ← tx_lift (prepare_overlay_apply beyond_tree h record journal sealed pending lowers selection kind);
      _ ← ledger_step (fun o => append_apply_record_scoped o (prepared_record id now record selection plan preimages) None);
      _ ← phase id ChangeTarget;
      _ ← mark_apply_target_applied id;
      remaining ← finish_apply id (btree (ap_selected_paths plan));
      _ ← cleanup_apply_backups id kind;
      mret (mkOutcome id (ap_selected plan) remaining)
  end.

(** *** Within a project

    What is checked on the project directory itself, through descriptors that are
    opened once and compared again, is a step that succeeds or fails: the opening
    of the boundary, the checks of changes, permissions and links, and that of the
    observations against the project. *)
Definition require_project_preimages : Result ApplyError unit := ensure (pj_complete journal) InvalidState.
(** [written_root]: the path of the target is [/] itself, not another name of it. *)
Definition require_root_project_record (written_root : bool) : Result ApplyError unit := ensure written_root InvalidConfig.
Definition prepare_project_apply (record : OverlayRecord) (selection : ApplySelection) (boundary : ProjectApplyBoundary) : TxOp (ApplyPlan * list TargetPreimage) :=
  pending ← tx_reading (fun t => Ok (has_pending_applies (tx_file t)));
  _ ← tx_lift (validate_apply_admission record sealed pending);
  _ ← check_step;
  _ ← tx_lift require_project_preimages;
  plan ← tx_lift (plan_overlay_apply_in_scope beyond_tree h record journal lowers selection FilesystemRoot (Some (pb_overlay_prefix boundary)));
  _ ← check_step;
  _ ← tx_lift (io (validate_upper_logical_identities h));
  preimages ← tx_lift (prepare_apply_preimages h record journal (ap_selected_paths plan) (ap_selected plan));
  _ ← check_step;
  mret (plan, List.filter (fun preimage : TargetPreimage => path_starts_with preimage.1 (pb_overlay_prefix boundary)) preimages).
Definition project_record (id : string) (now : Z) (record : OverlayRecord) (selection : ApplySelection) (plan : ApplyPlan) (preimages : list TargetPreimage) : ApplyRecord :=
  mkApplyRecord PROJECT_APPLY_SCHEMA_VERSION id now (or_id record) (or_generation record) (or_target record) selection
    (ap_selected plan) (btree (ap_selected_paths plan)) preimages Prepared 0.
Definition apply_project_selected (id : string) (now : Z) (selection : ApplySelection) (boundary : ProjectApplyBoundary) : TxOp ApplyOutcome :=
  _ ← reconcile;
  _ ← check_step;
  record ← the_record;
  '(plan, preimages) ← prepare_project_apply record selection boundary;
  _ ← ledger_step (fun o => append_apply_record_scoped o (project_record id now record selection plan preimages) (Some boundary));
  _ ← phase id ChangeTarget;
  _ ← mark_apply_target_applied id;
  remaining ← finish_project_apply id (btree (ap_selected_paths plan));
  mret (mkOutcome id (ap_selected plan) remaining).
Definition apply_overlay_selected_scoped (written_root : bool) (id : string) (now : Z) (selection : ApplySelection) (boundary : ProjectApplyBoundary) : TxOp ApplyOutcome :=
  _ ← tx_lift (require_root_project_record written_root);
  apply_project_selected id now selection boundary.
End Apply.
End Ledger.
