(* ===== verification/ApplyLedgerFacts.v ===== *)
(** * What the ledger keeps

    What an update and an append do to a ledger and that the result can be loaded
    again, and a small logic for the transactions: what holds of the ledger on disk
    before a step and after it, whether it fails or not. *)
From stdpp Require Import base tactics list strings gmap pretty.
From Stdlib Require Import ZArith Lia Ascii.
From S2P Require Import Prelude RustStr FileAccess HostFs HostFsFacts Overlay ApplyPlan ApplyLedger.
Local Open Scope nat_scope.

(** ** Records by identifier *)

Definition find_record (id : string) (records : list ApplyRecord) : option ApplyRecord :=
  List.find (fun r => bool_decide (ar_apply_id r = id)) records.
Definition state_of (l : ApplyLedger) (id : string) : option ApplyRecordState := ar_state <$> find_record id (al_records l).
Definition ids (l : ApplyLedger) : list string := ar_apply_id <$> al_records l.
Definition pending (l : ApplyLedger) : list ApplyRecord := List.filter is_pending (al_records l).
Definition state_rank (s : ApplyRecordState) : nat := match s with Prepared => 0 | TargetApplied => 1 | Committed => 2 end.

(** No record is lost and no state goes back. *)
Definition advanced (l l' : ApplyLedger) : Prop :=
  forall id s, state_of l id = Some s -> exists s', state_of l' id = Some s' /\ state_rank s <= state_rank s'.
#[export] Instance advanced_preorder : PreOrder advanced.
Proof.
  split.
  - intros l id s Hs. eauto.
  - intros l1 l2 l3 H1 H2 id s (s2 & Hs2 & L1)%H1. destruct (H2 id s2 Hs2) as (s3 & Hs3 & L2). exists s3. split; [done|lia].
Qed.

Lemma find_record_Some id records r : find_record id records = Some r -> r ∈ records /\ ar_apply_id r = id.
Proof. intros [Hin Hid%bool_decide_eq_true]%List.find_some. split; [by apply list_elem_of_In|done]. Qed.
Lemma find_record_None id records : find_record id records = None <-> id ∉ ar_apply_id <$> records.
Proof.
  unfold find_record. induction records as [|r records IH]; cbn [List.find fmap list_fmap]; [split; [intros _; apply not_elem_of_nil|done]|].
  rewrite not_elem_of_cons, <- IH. case_bool_decide as Hr; [split; [done|]; intros [? _]; congruence|]. split; [|by intros [_ ?]]. intros ?. split; [congruence|done].
Qed.
Lemma find_record_unique records r : NoDup (ar_apply_id <$> records) -> r ∈ records -> find_record (ar_apply_id r) records = Some r.
Proof.
  unfold find_record. induction records as [|x records IH]; intros Hnd Hr; [by apply elem_of_nil in Hr|]. cbn [List.find].
  apply NoDup_cons in Hnd as [Hx Hnd]. apply elem_of_cons in Hr as [->|Hr]; [by rewrite bool_decide_eq_true_2|].
  rewrite bool_decide_eq_false_2; [by apply IH|]. intros E. apply Hx. rewrite E. by apply list_elem_of_fmap_2.
Qed.
Lemma state_of_None l id : state_of l id = None <-> id ∉ ids l.
Proof. unfold state_of, ids. rewrite <- find_record_None. by destruct (find_record id (al_records l)). Qed.

Section Update.
Context (id : string) (f : ApplyRecord -> ApplyRecord) (Hid : forall r, ar_apply_id (f r) = ar_apply_id r).

Lemma update_record_Some records : id ∈ ar_apply_id <$> records -> exists records', update_record id f records = Some records'.
Proof.
  induction records as [|r records IH]; cbn [update_record fmap list_fmap]; [by intros ?%elem_of_nil|]. intros Hin. case_bool_decide as Hr; [eauto|].
  apply elem_of_cons in Hin as [->|Hin]; [done|]. destruct (IH Hin) as [records' ->]. by eexists.
Qed.
Lemma update_record_spec records records' : update_record id f records = Some records' ->
  ar_apply_id <$> records' = ar_apply_id <$> records /\
  (forall id', find_record id' records' = if decide (id' = id) then f <$> find_record id records else find_record id' records) /\
  exists before r after, records = before ++ r :: after /\ records' = before ++ f r :: after /\ find_record id records = Some r.
Proof.
  revert records'. induction records as [|r records IH]; intros records'; cbn [update_record]; [done|]. case_bool_decide as Hr.
  - intros [= <-]. split_and!.
    + cbn. by rewrite Hid.
    + intros id'. unfold find_record. cbn [List.find]. rewrite Hid, Hr. rewrite (bool_decide_eq_true_2 (id = id)) by done. destruct (decide (id' = id)) as [->|Hne].
      * by rewrite bool_decide_eq_true_2.
      * by rewrite bool_decide_eq_false_2 by congruence.
    + exists [], r, records. unfold find_record. cbn [List.find]. by rewrite bool_decide_eq_true_2.
  - intros (rest & Hrest & ->)%fmap_Some. destruct (IH rest Hrest) as (Hids & Hfind & before & x & after & -> & -> & Hx). split_and!.
    + cbn. f_equal. done.
    + intros id'. unfold find_record in *. cbn [List.find]. rewrite (bool_decide_eq_false_2 (ar_apply_id r = id)) by done. rewrite Hfind.
      case_bool_decide as Hr'; [|done]. rewrite decide_False; [done|congruence].
    + exists (r :: before), x, after. split_and!; [done..|]. unfold find_record in *. cbn [List.find]. by rewrite bool_decide_eq_false_2.
Qed.
End Update.

(** ** Loading what was written *)

Section File.
Context `{LedgerCodec, !LedgerCodecLaws}.

(** [l'] is [l] with the state of one record changed. *)
Record Updated (id : string) (s : ApplyRecordState) (l l' : ApplyLedger) : Prop := mkUpdated {
  up_ids : ids l' = ids l;
  up_states id' : state_of l' id' = if decide (id' = id) then Some s else state_of l id';
  up_boundaries : al_project_boundaries l' = al_project_boundaries l;
  up_pending : forall s0, state_of l id = Some s0 -> state_rank s0 <= state_rank s -> length (pending l') <= length (pending l);
  up_commits : forall s0, state_of l id = Some s0 -> s0 <> Committed -> s = Committed -> S (length (pending l')) = length (pending l)
}.

Lemma loaded_valid file l : load_apply_ledger file = Ok l -> l = ledger_default \/ validate_ledger l = Ok tt.
Proof.
  destruct file as [|e|text]; cbn [load_apply_ledger]; [intros [= <-]; by left|done|].
  intros (l' & _ & ([] & Hv & [= <-])%bind_Ok)%bind_Ok. by right.
Qed.
Lemma load_written l text : validate_ledger l = Ok tt -> ledger_encode l = Some text -> load_apply_ledger (LedgerBytes text) = Ok l.
Proof. intros Hv He. cbn [load_apply_ledger]. rewrite (ledger_round_trip l text He). cbn [ok_or mbind result_bind]. by rewrite Hv. Qed.
Lemma validate_ledger_Ok l : validate_ledger l = Ok tt <->
  schema_supported (al_schema_version l) = true /\ (forall r, r ∈ al_records l -> validate_record l r = Ok tt) /\
  (al_project_boundaries l = ∅ \/ al_schema_version l = 3%Z) /\
  (forall id, is_Some (al_project_boundaries l !! id) -> id ∈ ids l).
Proof.
  unfold validate_ledger. rewrite ensure_bind_Ok, bind_Ok. split.
  - intros (Hs & [] & Hr & [Hb Ho]%ensure_bind_Ok). split_and!; [done| | |].
    + by rewrite for_each_Ok in Hr.
    + apply orb_true_iff in Hb as [?%bool_decide_eq_true|?%Z.eqb_eq]; auto.
    + intros id [b Hid]. rewrite for_each_Ok in Ho. specialize (Ho (id, b)). cbn in Ho. rewrite elem_of_map_to_list in Ho. specialize (Ho Hid).
      apply ensure_Ok, existsb_exists in Ho as (r & Hin%list_elem_of_In & <-%bool_decide_eq_true). by apply list_elem_of_fmap_2.
  - intros (Hs & Hr & Hb & Ho). split; [done|]. exists tt. split; [by apply for_each_Ok|]. apply ensure_bind_Ok. split.
    + apply orb_true_iff. destruct Hb; [left; by apply bool_decide_eq_true|right; by apply Z.eqb_eq].
    + apply for_each_Ok. intros [id b] Hin%elem_of_map_to_list. apply ensure_Ok, existsb_exists.
      pose proof (Ho id (mk_is_Some _ _ Hin)) as (r & -> & Hr')%list_elem_of_fmap. exists r. split; [by apply list_elem_of_In|by apply bool_decide_eq_true].
Qed.
Lemma update_valid id s n l records : validate_ledger l = Ok tt -> update_record id (with_record_state s n) (al_records l) = Some records ->
  validate_ledger (mkLedger (al_schema_version l) records (al_project_boundaries l)) = Ok tt.
Proof.
  intros (Hs & Hr & Hb & Ho)%validate_ledger_Ok Hu. apply update_record_spec in Hu as (Hids & _ & before & r & after & E & -> & _); [|done].
  apply validate_ledger_Ok. cbn [al_schema_version al_records al_project_boundaries]. split_and!; [done| |done|].
  - intros x Hx. rewrite E in Hr. apply elem_of_app in Hx as [Hx|[->|Hx]%elem_of_cons].
    + exact (Hr x (proj2 (elem_of_app _ _ _) (or_introl Hx))).
    + exact (Hr r (proj2 (elem_of_app _ _ _) (or_intror (list_elem_of_here _ _)))).
    + exact (Hr x (proj2 (elem_of_app _ _ _) (or_intror (list_elem_of_further _ _ _ Hx)))).
  - intros id' Hid. unfold ids. cbn [al_records]. rewrite Hids. by apply Ho.
Qed.
Definition pending_state (s : ApplyRecordState) : bool := match s with Committed => false | _ => true end.
Lemma is_pending_state r : is_pending r = pending_state (ar_state r).
Proof. unfold is_pending. by destruct (ar_state r). Qed.
Lemma filter_count {X} (g : X -> bool) a x b : length (List.filter g (a ++ x :: b)) = length (List.filter g (a ++ b)) + if g x then 1 else 0.
Proof. rewrite !List.filter_app, !length_app. cbn [List.filter]. destruct (g x); cbn [length]; lia. Qed.
Lemma update_Updated id s n l records : update_record id (with_record_state s n) (al_records l) = Some records ->
  Updated id s l (mkLedger (al_schema_version l) records (al_project_boundaries l)).
Proof.
  intros Hu. apply update_record_spec in Hu as (Hids & Hfind & before & r & after & E & -> & Hr); [|done].
  assert (forall s0, state_of l id = Some s0 -> s0 = ar_state r) as Hst by (intros s0 Hs0; unfold state_of in Hs0; rewrite Hr in Hs0; cbn in Hs0; congruence).
  constructor; [done| |done| |].
  - intros id'. unfold state_of. cbn [al_records]. rewrite Hfind, Hr. by case_decide.
  - intros s0 ->%Hst Hrank. unfold pending. cbn [al_records]. rewrite E, !filter_count, !is_pending_state. cbn [ar_state with_record_state].
    destruct (ar_state r), s; cbn in *; lia.
  - intros s0 ->%Hst Hne ->. unfold pending. cbn [al_records]. rewrite E, !filter_count, !is_pending_state. cbn [ar_state with_record_state].
    destruct (ar_state r); cbn [pending_state]; [lia|lia|done].
Qed.

(** A write of a valid ledger leaves the old file or one that loads as written. *)
Lemma write_ledger_spec o l file r file' : validate_ledger l = Ok tt -> write_ledger o l file = (r, file') ->
  match r with Ok _ => load_apply_ledger file' = Ok l | Err _ => file' = file \/ load_apply_ledger file' = Ok l end.
Proof.
  intros Hv. unfold write_ledger. destruct (ledger_encode l) as [text|] eqn:Ee; [|intros [= <- <-]; by left].
  pose proof (load_written l text Hv Ee) as Hl. destruct o; intros [= <- <-]; [done|by left|by right].
Qed.
Lemma update_state_spec o id s n file l r file' : load_apply_ledger file = Ok l -> state_of l id <> None -> update_apply_state o id s n file = (r, file') ->
  exists l', Updated id s l l' /\ match r with Ok _ => load_apply_ledger file' = Ok l' | Err _ => file' = file \/ load_apply_ledger file' = Ok l' end.
Proof.
  intros Hl Hin. unfold update_apply_state. rewrite Hl. rewrite state_of_None in Hin.
  assert (id ∈ ids l) as Hid by (by destruct (decide (id ∈ ids l))). destruct (update_record_Some id (with_record_state s n) (al_records l) Hid) as [records Hu].
  rewrite Hu. intros Hw. exists (mkLedger (al_schema_version l) records (al_project_boundaries l)). split; [exact (update_Updated id s n l records Hu)|].
  apply (write_ledger_spec _ _ _ _ _ (update_valid id s n l records (match loaded_valid file l Hl with
    | or_introl E => match Hin ltac:(rewrite E; apply not_elem_of_nil) with end | or_intror Hv => Hv end) Hu) Hw).
Qed.

(** A record that may be appended with the boundary it has, if any. *)
Definition schema_for (boundary : option ProjectApplyBoundary) : Z := if boundary then PROJECT_APPLY_SCHEMA_VERSION else APPLY_LEDGER_SCHEMA_VERSION.
Definition appendable (boundary : option ProjectApplyBoundary) (r : ApplyRecord) : Prop :=
  ar_schema_version r = schema_for boundary /\ Forall (fun p => validate_rel p = Ok tt) (ar_planned_paths r) /\
  Forall (fun c => validate_rel (c_path c) = Ok tt) (ar_changes r) /\ Forall (fun p : TargetPreimage => validate_rel p.1 = Ok tt) (ar_preimages r).
Lemma appended_boundary l r boundary id : id <> ar_apply_id r -> al_project_boundaries (with_appended r boundary l) !! id = al_project_boundaries l !! id.
Proof. intros Hne. unfold with_appended. cbn [al_project_boundaries]. destruct boundary; [|done]. by rewrite lookup_insert_ne by congruence. Qed.
Lemma appended_own_boundary l r boundary : al_project_boundaries l !! ar_apply_id r = None -> al_project_boundaries (with_appended r boundary l) !! ar_apply_id r = boundary.
Proof. intros Hn. unfold with_appended. cbn [al_project_boundaries]. destruct boundary; [by rewrite lookup_insert_eq|done]. Qed.
Lemma validate_record_boundaries l l' r : has_boundary l' (ar_apply_id r) = has_boundary l (ar_apply_id r) -> validate_record l' r = validate_record l r.
Proof. intros E. unfold validate_record. by rewrite E. Qed.
Lemma append_valid l r boundary : l = ledger_default \/ validate_ledger l = Ok tt -> appendable boundary r -> ar_apply_id r ∉ ids l ->
  validate_ledger (with_appended r boundary l) = Ok tt.
Proof.
  intros Hl (Hschema & Hp & Hc & Hpre) Hfresh.
  assert ((forall x, x ∈ al_records l -> validate_record l x = Ok tt) /\ (forall id, is_Some (al_project_boundaries l !! id) -> id ∈ ids l)) as [Hr Ho].
  { destruct Hl as [->|(_ & ? & _ & ?)%validate_ledger_Ok]; [|done]. split; [intros x Hx; by apply elem_of_nil in Hx|]. intros id [b Hb]. cbn [ledger_default al_project_boundaries] in Hb. by apply lookup_empty_Some in Hb. }
  assert (al_project_boundaries l !! ar_apply_id r = None) as Hnone.
  { destruct (al_project_boundaries l !! ar_apply_id r) eqn:E; [|done]. exfalso. apply Hfresh, Ho. rewrite E. by eexists. }
  apply validate_ledger_Ok. split_and!.
  - unfold with_appended. cbn [al_schema_version]. by case_bool_decide.
  - intros x [Hx| ->%list_elem_of_singleton]%elem_of_app.
    + rewrite (validate_record_boundaries l); [by apply Hr|]. unfold has_boundary. rewrite appended_boundary; [done|]. intros E. apply Hfresh. rewrite <- E. by apply list_elem_of_fmap_2.
    + unfold validate_record, has_boundary. rewrite appended_own_boundary by done. rewrite Hschema.
      rewrite Forall_forall in Hp. rewrite Forall_forall in Hc. rewrite Forall_forall in Hpre.
      apply ensure_bind_Ok. split; [by destruct boundary|]. apply ensure_bind_Ok. split; [by destruct boundary|].
      apply bind_Ok. exists tt. split; [apply for_each_Ok; intros p Hin; by rewrite (Hp p Hin)|].
      apply bind_Ok. exists tt. split; [apply for_each_Ok; intros c Hin; by rewrite (Hc c Hin)|]. apply for_each_Ok. intros p Hin. by rewrite (Hpre p Hin).
  - unfold with_appended. cbn [al_schema_version al_project_boundaries]. case_bool_decide; auto.
  - intros id Hb. unfold ids. cbn [with_appended al_records]. rewrite fmap_app. apply elem_of_app. destruct (decide (id = ar_apply_id r)) as [->|Hne].
    + right. apply list_elem_of_here.
    + left. apply Ho. by rewrite <- (appended_boundary l r boundary).
Qed.
Lemma append_spec o record boundary file l r file' : load_apply_ledger file = Ok l -> appendable boundary record -> ar_apply_id record ∉ ids l ->
  append_apply_record_scoped o record boundary file = (r, file') ->
  match r with Ok _ => load_apply_ledger file' = Ok (with_appended record boundary l)
             | Err _ => file' = file \/ load_apply_ledger file' = Ok (with_appended record boundary l) end.
Proof.
  intros Hl Hp Hf. unfold append_apply_record_scoped. rewrite Hl. apply write_ledger_spec. apply append_valid; [by apply (loaded_valid file)|done..].
Qed.
Lemma append_states record boundary l id : state_of (with_appended record boundary l) id =
  match state_of l id with Some s => Some s | None => if decide (id = ar_apply_id record) then Some (ar_state record) else None end.
Proof.
  unfold state_of, with_appended. cbn [al_records]. unfold find_record. induction (al_records l) as [|x records IH]; cbn [app List.find].
  - case_bool_decide as Hr; [by rewrite decide_True|by rewrite decide_False by congruence].
  - case_bool_decide; [done|apply IH].
Qed.
End File.

(** * Reasoning about transactions

    [triple S m Q]: from a ledger on disk that satisfies [S], the transaction [m]
    reaches one that satisfies [Q] when it succeeds; however it ends, the ledger
    still loads, no state has gone back, no more applies are pending than allowed,
    and every phase in the trace was covered by the ledger of its time. *)

Section Logic.
Context `{LedgerCodec, !LedgerCodecLaws}.

(** The state that the ledger must have recorded before a phase begins. *)
Definition required (p : Phase) : ApplyRecordState :=
  match p with ChangeTarget => Prepared | PruneUpper | ClearStage | ConsumePreimages => TargetApplied | RemoveBackups => Committed end.
Definition covered_event (e : TxEvent) : Prop :=
  match e with
  | PhaseOf id p file => exists l, load_apply_ledger file = Ok l /\ state_of l id = Some (required p)
  | DropStage file => has_pending_applies file = Ok false
  end.
Record Good (l : ApplyLedger) (t : Tx) : Prop := mkGood {
  good_loads : load_apply_ledger (tx_file t) = Ok l;
  good_ids : NoDup (ids l);
  good_trace : Forall covered_event (tx_trace t)
}.

Section Triples.
Context (l0 : ApplyLedger) (limit : nat).

Definition On (S : ApplyLedger -> Prop) (t : Tx) : Prop :=
  exists l, Good l t /\ advanced l0 l /\ length (pending l) <= limit /\ S l.
Definition triple {A} (S : ApplyLedger -> Prop) (m : TxOp A) (Q : A -> ApplyLedger -> Prop) : Prop :=
  forall t r t', On S t -> m t = (r, t') -> match r with Ok a => On (Q a) t' | Err _ => On (fun _ => True) t' end.

Lemma On_weaken (S S' : ApplyLedger -> Prop) t : (forall l, S l -> S' l) -> On S t -> On S' t.
Proof. intros Hs (l & ? & ? & ? & ?). exists l. eauto. Qed.
Lemma On_any S t : On S t -> On (fun _ => True) t.
Proof. by apply On_weaken. Qed.
Lemma triple_bind {A B} S (m : TxOp A) (k : A -> TxOp B) Q R : triple S m Q -> (forall a, triple (Q a) (k a) R) -> triple S (m ≫= k) R.
Proof.
  intros Hm Hk t r t' Ht E. unfold mbind, tx_bind in E. destruct (m t) as [[a|e] t1] eqn:Em.
  - exact (Hk a t1 r t' (Hm t _ t1 Ht Em) E).
  - injection E as <- <-. exact (Hm t _ t1 Ht Em).
Qed.
Lemma triple_weaken {A} (S S' : ApplyLedger -> Prop) (m : TxOp A) Q Q' : (forall l, S' l -> S l) -> (forall a l, Q a l -> Q' a l) -> triple S m Q -> triple S' m Q'.
Proof.
  intros Hs Hq Hm t r t' Ht E. specialize (Hm t r t' (On_weaken _ _ _ Hs Ht) E). destruct r; [|done]. by eapply On_weaken; [apply Hq|].
Qed.
Lemma triple_ret {A} (S : ApplyLedger -> Prop) (Q : A -> ApplyLedger -> Prop) a : (forall l, S l -> Q a l) -> triple S (mret a) Q.
Proof. intros Hq t r t' Ht [= <- <-]. by eapply On_weaken. Qed.

(** Steps that leave the ledger and the trace alone. *)
Definition still {A} (m : TxOp A) : Prop := forall t r t', m t = (r, t') -> tx_file t' = tx_file t /\ tx_trace t' = tx_trace t.
Lemma triple_still {A} S (m : TxOp A) : still m -> triple S m (fun _ => S).
Proof.
  intros Hm t r t' (l & [Hl Hn Ht] & Ha & Hp & Hs) E. destruct (Hm t r t' E) as [Hf Htr].
  assert (Good l t') as Hg by (constructor; [by rewrite Hf|done|by rewrite Htr]). destruct r; exists l; done.
Qed.
Lemma still_check : still check_step.
Proof. by intros t r t' [= _ <-]. Qed.
Lemma still_reconcile : still reconcile.
Proof. intros t r t'. unfold reconcile. by destruct (reconcile_terminal_overlay _ _) as [[]|]; intros [= _ <-]. Qed.
Lemma still_record : still the_record.
Proof. by intros t r t' [= _ <-]. Qed.
Lemma still_state s : still (set_overlay_state s).
Proof. by intros t r t' [= _ <-]. Qed.
Lemma still_write : still write_overlay_record.
Proof. intros t r t'. unfold write_overlay_record. by destruct (next_step t); intros [= _ <-]. Qed.
Lemma still_list : still list_changes.
Proof. by intros t r t' [= _ <-]. Qed.

Lemma triple_lift {A} S (x : Result ApplyError A) : triple S (tx_lift x) (fun a l => S l /\ x = Ok a).
Proof. intros t r t' (l & ? & ? & ? & ?) [= <- <-]. destruct x; exists l; done. Qed.
Lemma triple_load S : triple S (tx_reading (fun t => load_apply_ledger (tx_file t))) (fun a l => S l /\ a = l).
Proof. intros t r t' (l & Hg & ? & ? & ?) [= <- <-]. rewrite (good_loads _ _ Hg). exists l. done. Qed.
Lemma pending_answer file l : load_apply_ledger file = Ok l -> has_pending_applies file = Ok (negb (bool_decide (pending l = []))).
Proof.
  intros Hl. unfold has_pending_applies, load_apply_records. rewrite Hl. cbn [mbind result_bind]. f_equal. unfold pending.
  induction (al_records l) as [|r records IH]; cbn [existsb List.filter]; [done|]. destruct (is_pending r); [done|exact IH].
Qed.
Lemma triple_pending S : triple S (tx_reading (fun t => Ok (has_pending_applies (tx_file t)))) (fun a l => S l /\ a = Ok (negb (bool_decide (pending l = [])))).
Proof. intros t r t' (l & Hg & ? & ? & ?) [= <- <-]. exists l. split_and!; [done..|]. exact (pending_answer _ l (good_loads _ _ Hg)). Qed.
Lemma triple_pending_ok S : triple S (tx_reading (fun t => has_pending_applies (tx_file t))) (fun a l => S l /\ a = negb (bool_decide (pending l = []))).
Proof. intros t r t' (l & Hg & ? & ? & ?) [= <- <-]. rewrite (pending_answer _ l (good_loads _ _ Hg)). exists l. done. Qed.

Lemma triple_noted (S : ApplyLedger -> Prop) e : (forall l file, load_apply_ledger file = Ok l -> S l -> covered_event (e file)) -> triple S (noted e) (fun _ => S).
Proof.
  intros He t r t' (l & [Hl Hn Ht] & Ha & Hp & Hs) [= <- <-].
  assert (Good l (note (e (tx_file t)) (after_step t))) as Hg.
  { constructor; [done|done|]. cbn [note tx_trace after_step]. apply Forall_app. split; [done|]. apply Forall_singleton. by apply (He l). }
  destruct (next_step t); exists l; done.
Qed.
Lemma triple_phase (S : ApplyLedger -> Prop) id p : (forall l, S l -> state_of l id = Some (required p)) -> triple S (phase id p) (fun _ => S).
Proof. intros Hs. apply triple_noted. intros l file Hl HS. exists l. split; [done|]. by apply Hs. Qed.

Lemma Updated_advanced id s s0 l l' : Updated id s l l' -> state_of l id = Some s0 -> state_rank s0 <= state_rank s -> advanced l l'.
Proof.
  intros U Hs0 Hr id' s' Hs'. rewrite (up_states _ _ _ _ U). case_decide as Hd; [subst id'|eauto]. exists s. split; [done|]. congruence.
Qed.
Lemma triple_mark (S S' : ApplyLedger -> Prop) id s n : (forall l, S l -> exists s0, state_of l id = Some s0 /\ state_rank s0 <= state_rank s) ->
  (forall l l', S l -> Updated id s l l' -> S' l') -> triple S (ledger_step (fun o => update_apply_state o id s n)) (fun _ => S').
Proof.
  intros Hs Hup t r t' (l & [Hl Hn Ht] & Ha & Hp & HS) E. unfold ledger_step in E. destruct (update_apply_state _ _ _ _ _) as [r1 file'] eqn:Eu.
  injection E as <- <-. destruct (Hs l HS) as (s0 & Hs0 & Hrank).
  destruct (update_state_spec _ _ _ _ _ _ _ _ Hl ltac:(by rewrite Hs0) Eu) as (l' & U & Hr).
  assert (load_apply_ledger file' = Ok l' -> forall P : ApplyLedger -> Prop, P l' -> On P (set_ledger file' (after_step t))) as Hnew.
  { intros Hl' P HP. exists l'. split_and!; [|etrans; [exact Ha|by eapply Updated_advanced]| |exact HP].
    - constructor; [exact Hl'|by rewrite (up_ids _ _ _ _ U)|exact Ht].
    - pose proof (up_pending _ _ _ _ U s0 Hs0 Hrank). lia. }
  destruct r1 as [[]|e]; [apply Hnew; [exact Hr|by eapply Hup]|]. destruct Hr as [->|Hr]; [|by apply Hnew]. exists l. done.
Qed.
Lemma triple_append (S S' : ApplyLedger -> Prop) record boundary : appendable boundary record -> 1 <= limit -> ar_state record <> Committed ->
  (forall l, S l -> ar_apply_id record ∉ ids l /\ pending l = []) ->
  (forall l, S l -> S' (with_appended record boundary l)) ->
  triple S (ledger_step (fun o => append_apply_record_scoped o record boundary)) (fun _ => S').
Proof.
  intros Hrec Hlim Hst Hs Hup t r t' (l & [Hl Hn Ht] & Ha & Hp & HS) E. unfold ledger_step in E. destruct (append_apply_record_scoped _ _ _ _) as [r1 file'] eqn:Eu.
  injection E as <- <-. destruct (Hs l HS) as [Hfresh Hnone]. pose proof (append_spec _ _ _ _ _ _ _ Hl Hrec Hfresh Eu) as Hr.
  assert (load_apply_ledger file' = Ok (with_appended record boundary l) -> forall P : ApplyLedger -> Prop, P (with_appended record boundary l) -> On P (set_ledger file' (after_step t))) as Hnew.
  { intros Hl' P HP. eexists. split_and!; [constructor; [exact Hl'| |exact Ht]| | |exact HP].
    - unfold ids, with_appended. cbn [al_records]. rewrite fmap_app. apply NoDup_app. split_and!; [done| |apply NoDup_singleton].
      intros x Hx ->%list_elem_of_singleton. done.
    - intros id s (s1 & Hs1 & L)%Ha. exists s1. split; [|done]. rewrite append_states, Hs1. done.
    - unfold pending, with_appended in *. cbn [al_records]. rewrite List.filter_app, Hnone. cbn. by destruct (is_pending record); cbn; lia. }
  destruct r1 as [[]|e]; [apply Hnew; [exact Hr|by apply Hup]|]. destruct Hr as [->|Hr]; [|by apply Hnew]. exists l. done.
Qed.
Lemma triple_if S b (m : TxOp unit) (Q : ApplyLedger -> Prop) : (b = true -> triple S m (fun _ => Q)) -> (b = false -> forall l, S l -> Q l) -> triple S (tx_if b m) (fun _ => Q).
Proof. intros Ht Hf. destruct b; [by apply Ht|]. by apply triple_ret, Hf. Qed.
(** A loop, with what holds while the rest of the list is still to come. *)
Lemma triple_for {A} (f : A -> TxOp unit) (J : list A -> ApplyLedger -> Prop) l :
  (forall x rest, x :: rest `suffix_of` l -> triple (J (x :: rest)) (f x) (fun _ => J rest)) -> triple (J l) (tx_for f l) (fun _ => J []).
Proof.
  induction l as [|x l IH]; intros Hf; cbn [tx_for]; [by apply triple_ret|]. eapply triple_bind; [by apply Hf|]. intros []. apply IH.
  intros y rest Hs. apply Hf. by apply suffix_cons_r.
Qed.
End Triples.
End Logic.
