(* ===== verification/ApplyLedgerTheorems.v ===== *)
(** * What the ledger of applies promises

    Every phase of an apply, a recovery or a drop is covered by what the ledger on
    disk says at that moment; no sequence of operations, failures and crashes
    loses a record or leaves two applies pending; and recovery settles what is
    pending. *)
From stdpp Require Import base tactics list strings gmap pretty.
From Stdlib Require Import ZArith Lia Ascii.
From S2P Require Import Prelude RustStr FileAccess Globs HostFs HostFsFacts Overlay OverlayView OverlayQuiet OverlayHealth OverlayTheorems ApplyPlan ApplyPlanFacts ApplyTheorems ApplyLedger ApplyLedgerFacts.
Local Open Scope nat_scope.

Section Transactions.
Context `{LedgerCodec, !LedgerCodecLaws} (l0 : ApplyLedger) (limit : nat).
Local Abbreviation triple := (triple l0 limit).

(** A property of ledgers that changing the state of one record keeps. *)
Definition stable_at (id : string) (F : ApplyLedger -> Prop) : Prop := forall l l' s, F l -> Updated id s l l' -> F l'.
Definition at_state (F : ApplyLedger -> Prop) (id : string) (s : ApplyRecordState) (l : ApplyLedger) : Prop := F l /\ state_of l id = Some s.

Lemma triple_good {A} (S : ApplyLedger -> Prop) (m : TxOp A) Q : triple (fun l => S l /\ NoDup (ids l)) m Q -> triple S m Q.
Proof. intros Hm t r t' (l & Hg & ? & ? & ?). apply Hm. exists l. split_and!; [done..|]. by destruct Hg. Qed.
Lemma triple_step {A B} S (m : TxOp A) (k : A -> TxOp B) Q : still m -> (forall a, triple S (k a) Q) -> triple S (m ≫= k) Q.
Proof. intros Hm Hk. eapply triple_bind; [by apply triple_still|]. done. Qed.
Lemma triple_check {A B} S (x : Result ApplyError A) (k : A -> TxOp B) Q : (forall a, x = Ok a -> triple S (k a) Q) -> triple S (tx_lift x ≫= k) Q.
Proof.
  intros Hk. eapply triple_bind; [apply triple_lift|]. intros a t r t' (l & Hg & Ha & Hp & Hs & Hx). apply (Hk a Hx). by exists l.
Qed.
Lemma triple_fail {A} S e (Q : A -> ApplyLedger -> Prop) : triple S (tx_lift (Err e)) Q.
Proof. intros t r t' Ht [= <- <-]. by eapply On_any. Qed.
Lemma triple_done {A} S (m : TxOp A) : still m -> triple S m (fun _ _ => True).
Proof. intros Hm t r t' Ht E. pose proof (triple_still l0 limit S m Hm t r t' Ht E) as Ho. destruct r; [by eapply On_any|done]. Qed.
Lemma mark_to F id s s' n : stable_at id F -> state_rank s <= state_rank s' ->
  triple (at_state F id s) (ledger_step (fun o => update_apply_state o id s' n)) (fun _ => at_state F id s').
Proof.
  intros HF Hr. apply triple_mark; [intros l [_ Hs]; eauto|]. intros l l' [HFl Hs] U. split; [by eapply HF|]. rewrite (up_states _ _ _ _ U). by rewrite decide_True.
Qed.
Lemma complete_triple F id selected : triple (at_state F id TargetApplied) (complete_target_applied id selected) (fun _ => at_state F id TargetApplied).
Proof.
  unfold complete_target_applied. eapply triple_bind; [apply triple_if; [intros _; apply triple_phase; by intros l [_ ?]|intros _ l Hl; exact Hl]|]. intros [].
  apply triple_step; [apply still_list|]. intros remaining. eapply (triple_bind _ _ _ _ _ (fun _ => at_state F id TargetApplied)).
  - case_bool_decide; [|by apply triple_still, still_state]. eapply triple_bind; [apply triple_phase; by intros l [_ ?]|]. intros []. apply triple_still, still_state.
  - intros []. apply triple_step; [apply still_write|]. intros []. by apply triple_ret.
Qed.
Lemma finish_triple F id selected : stable_at id F -> triple (at_state F id TargetApplied) (finish_apply id selected) (fun _ => at_state F id Committed).
Proof.
  intros HF. unfold finish_apply. eapply triple_bind; [apply complete_triple|]. intros remaining.
  eapply triple_bind; [apply triple_phase; by intros l [_ ?]|]. intros []. eapply triple_bind; [apply mark_to; [done|cbn; lia]|]. intros []. by apply triple_ret.
Qed.
Lemma cleanup_triple F id kind : triple (at_state F id Committed) (cleanup_apply_backups id kind) (fun _ => at_state F id Committed).
Proof. destruct kind; [apply triple_phase; by intros l [_ ?]|by apply triple_ret]. Qed.
Lemma target_triple F a : stable_at (ar_apply_id a) F -> ar_state a <> Committed ->
  triple (at_state F (ar_apply_id a) (ar_state a))
    (tx_if (bool_decide (ar_state a = Prepared)) (_ ← phase (ar_apply_id a) ChangeTarget; mark_apply_target_applied (ar_apply_id a)))
    (fun _ => at_state F (ar_apply_id a) TargetApplied).
Proof.
  intros HF Hne. apply triple_if; intros Hb.
  - apply bool_decide_eq_true in Hb. rewrite Hb. eapply triple_bind; [apply triple_phase; by intros l [_ ?]|]. intros []. apply mark_to; [done|cbn; lia].
  - apply bool_decide_eq_false in Hb. intros l [? Hs]. split; [done|]. by destruct (ar_state a).
Qed.
Lemma recover_one_triple F boundaries kind a : stable_at (ar_apply_id a) F -> ar_state a <> Committed ->
  triple (at_state F (ar_apply_id a) (ar_state a)) (recover_one boundaries kind a) (fun _ => at_state F (ar_apply_id a) Committed).
Proof.
  intros HF Hne. unfold recover_one. apply triple_step; [apply still_record|]. intros record. apply triple_check. intros [] _.
  destruct (boundaries !! ar_apply_id a) as [b|].
  - unfold recover_project_apply. apply triple_step; [apply still_record|]. intros record'. apply triple_check. intros [] _.
    apply triple_step; [apply still_check|]. intros []. eapply triple_bind; [by apply target_triple|]. intros [].
    eapply triple_bind; [apply triple_step; [apply still_check|intros []]; by apply finish_triple|]. intros remaining. by apply triple_ret.
  - apply triple_check. intros [] _. apply triple_check. intros selected _. apply triple_check. intros [] _.
    eapply triple_bind; [by apply target_triple|]. intros []. eapply triple_bind; [by apply finish_triple|]. intros remaining. apply cleanup_triple.
Qed.

(** *** Recovery *)

(** A property that survives updates of recorded applies. *)
Definition stable (F : ApplyLedger -> Prop) : Prop := forall id l l' s, F l -> id ∈ ids l -> Updated id s l l' -> F l'.

Lemma record_state l r : NoDup (ids l) -> r ∈ al_records l -> state_of l (ar_apply_id r) = Some (ar_state r).
Proof. intros Hn Hr. unfold state_of. by rewrite (find_record_unique _ _ Hn Hr). Qed.
Lemma settled_pending l : NoDup (ids l) -> (forall id, id ∈ ids l -> state_of l id = Some Committed) -> pending l = [].
Proof.
  intros Hn Hs. unfold pending. destruct (List.filter is_pending (al_records l)) as [|r rest] eqn:E; [done|]. exfalso.
  assert (In r (List.filter is_pending (al_records l))) as [Hin Hp]%filter_In by (rewrite E; by left). apply list_elem_of_In in Hin.
  pose proof (record_state l r Hn Hin) as Hr. rewrite (Hs (ar_apply_id r)) in Hr by (by apply list_elem_of_fmap_2). injection Hr as Hr.
  rewrite is_pending_state, <- Hr in Hp. done.
Qed.
Lemma elem_of_pending l r : r ∈ pending l <-> r ∈ al_records l /\ ar_state r <> Committed.
Proof.
  unfold pending. rewrite list_elem_of_In, filter_In, <- list_elem_of_In, is_pending_state. apply and_iff_compat_l. by destruct (ar_state r).
Qed.
Lemma pending_ids_NoDup l : NoDup (ids l) -> NoDup (ar_apply_id <$> pending l).
Proof.
  unfold ids, pending. induction (al_records l) as [|r records IH]; cbn [List.filter fmap list_fmap]; [done|]. intros [Hr Hn]%NoDup_cons.
  destruct (is_pending r); [|by apply IH]. cbn [fmap list_fmap]. apply NoDup_cons. split; [|by apply IH].
  intros (x & E & Hx%list_elem_of_In%filter_In)%list_elem_of_fmap. apply Hr. rewrite E. apply list_elem_of_fmap_2, list_elem_of_In, Hx.
Qed.

Lemma recover_loop_triple F boundaries kind l : stable F -> NoDup (ids l) ->
  triple (fun l' => F l' /\ l' = l) (tx_for (recover_one boundaries kind) (pending l)) (fun _ l' => F l' /\ pending l' = []).
Proof.
  intros HF Hn. set (J (rest : list ApplyRecord) l' := (F l' /\ ids l' = ids l) /\ (forall a, a ∈ rest -> state_of l' (ar_apply_id a) = Some (ar_state a)) /\
    (forall id, id ∈ ids l -> id ∉ ar_apply_id <$> rest -> state_of l' id = Some Committed)).
  apply triple_good. eapply (triple_weaken _ _ (fun l' => J (pending l) l') _ _ (fun _ l' => J [] l' )).
  - intros l' [[HFl ->] _]. unfold J. split_and!; [done|done| |].
    + intros a [Ha _]%elem_of_pending. by apply record_state.
    + intros id (r & -> & Hr)%list_elem_of_fmap Hnot. rewrite record_state by done. destruct (ar_state r) eqn:Es; [exfalso; apply Hnot..|done];
        apply list_elem_of_fmap_2, elem_of_pending; (split; [done|congruence]).
  - intros [] l' ((HFl & Hi) & _ & Hc). split; [done|]. apply settled_pending; [by rewrite Hi|]. intros id Hid. rewrite Hi in Hid. apply Hc; [done|apply not_elem_of_nil].
  - apply triple_for. intros a rest Hsuf.
    assert (ar_apply_id a ∉ ar_apply_id <$> rest) as Hnew.
    { destruct Hsuf as [pre E]. pose proof (pending_ids_NoDup l Hn) as Hp. rewrite E, fmap_app in Hp. apply NoDup_app in Hp as (_ & _ & Hp). cbn in Hp. by apply NoDup_cons in Hp as [? _]. }
    assert (a ∈ pending l) as [Ha Hne]%elem_of_pending by (destruct Hsuf as [pre ->]; apply elem_of_app; right; apply list_elem_of_here).
    assert (ar_apply_id a ∈ ids l) as Hid by (by apply list_elem_of_fmap_2).
    set (G l' := (F l' /\ ids l' = ids l) /\ (forall x, x ∈ rest -> state_of l' (ar_apply_id x) = Some (ar_state x)) /\
      (forall id, id ∈ ids l -> id ∉ ar_apply_id <$> a :: rest -> state_of l' id = Some Committed)).
    assert (stable_at (ar_apply_id a) G) as HG.
    { intros l1 l2 s ((HF1 & Hi1) & Hr1 & Hc1) U. split_and!.
      - eapply HF; [exact HF1| |exact U]. by rewrite Hi1.
      - by rewrite (up_ids _ _ _ _ U).
      - intros x Hx. rewrite (up_states _ _ _ _ U), decide_False; [by apply Hr1|]. intros E. apply Hnew. rewrite <- E. by apply list_elem_of_fmap_2.
      - intros id Hin Hnot. rewrite (up_states _ _ _ _ U), decide_False; [by apply Hc1|]. intros ->. apply Hnot. apply list_elem_of_here. }
    eapply triple_weaken; [| |exact (recover_one_triple G boundaries kind a HG Hne)].
    + intros l' (HF1 & Hr1 & Hc1). split; [|apply Hr1, list_elem_of_here]. split; [exact HF1|]. split; [|exact Hc1]. intros x Hx. apply Hr1. by apply list_elem_of_further.
    + intros [] l' [(HF1 & Hr1 & Hc1) Hs]. split; [exact HF1|]. split; [exact Hr1|]. intros id Hin Hnot. destruct (decide (id = ar_apply_id a)) as [->|Hne']; [done|].
      apply Hc1; [done|]. cbn. by intros [?|?]%elem_of_cons.
Qed.
Lemma cleanup_loop_triple F ledger record kind records : NoDup (ids ledger) -> (forall r, r ∈ records -> r ∈ al_records ledger) ->
  triple (fun l => F l /\ l = ledger) (tx_for (fun a => tx_if (retains_backups ledger record a) (cleanup_apply_backups (ar_apply_id a) kind)) records)
    (fun _ l => F l /\ l = ledger).
Proof.
  intros Hn Hsub. apply (triple_for _ _ _ (fun _ l => F l /\ l = ledger)). intros a rest [pre E]. apply triple_if; [|by intros _ l ?]. intros Hr.
  destruct kind; [|by apply triple_ret]. apply triple_phase. intros l [_ ->]. unfold retains_backups in Hr. apply andb_true_iff in Hr as [[[Hc%bool_decide_eq_true _]%andb_true_iff _]%andb_true_iff _].
  rewrite record_state; [by rewrite Hc|done|]. apply Hsub. rewrite E. apply elem_of_app. right. apply list_elem_of_here.
Qed.
Lemma recover_triple F kind : stable F -> triple F (recover_pending_applies_for_target kind) (fun _ l => F l /\ pending l = []).
Proof.
  intros HF. unfold recover_pending_applies_for_target. apply triple_good. eapply triple_bind; [apply triple_load|]. intros ledger.
  intros t r t' Ht. assert (NoDup (ids ledger)) as Hn by (destruct Ht as (l & Hg & _ & _ & (_ & ?) & ->); done). revert t r t' Ht.
  eapply (triple_weaken _ _ (fun l => F l /\ l = ledger)); [by intros l [[? _] ->]|intros a l HQ; exact HQ|].
  apply triple_step; [apply still_record|]. intros record. eapply triple_bind; [by apply cleanup_loop_triple|]. intros [].
  eapply triple_bind; [by apply recover_loop_triple|]. intros []. by apply triple_ret.
Qed.
Lemma recover_public_triple F sealed kind : stable F -> triple F (recover_pending_applies sealed kind) (fun _ l => F l /\ pending l = []).
Proof.
  intros HF. unfold recover_pending_applies. apply triple_step; [apply still_reconcile|]. intros []. apply triple_check. intros [] _.
  apply triple_step; [apply still_check|]. intros []. apply triple_step; [apply still_reconcile|]. intros []. by apply recover_triple.
Qed.
Lemma discard_triple : triple (fun _ => True) discard_overlay (fun _ _ => True).
Proof.
  unfold discard_overlay. apply triple_step; [apply still_reconcile|]. intros []. apply triple_step; [apply still_check|]. intros [].
  apply triple_step; [apply still_reconcile|]. intros []. eapply triple_bind; [apply triple_pending_ok|]. intros waiting.
  apply triple_check. intros [] Hw%ensure_Ok%negb_true_iff. apply triple_step; [apply still_record|]. intros record.
  destruct (or_state record); [| |apply triple_fail|by apply triple_ret].
  all: eapply triple_bind; [apply triple_noted; intros l file Hl [_ Hp]; cbn; rewrite (pending_answer file l Hl); congruence|intros []];
    apply triple_step; [apply still_state|intros []]; apply triple_done, still_write.
Qed.

(** *** Applying *)

Section Apply.
Context `{GlobOps, AccessOps, Digest256} (beyond_tree : Loc -> Result ApplyError unit).
Context (h : Host) (journal : PreimageJournal) (sealed : Result IoErr unit) (lowers : list Root).

(** The file system has no names with separators, and the journal was checked when
    it was loaded. *)
Definition well_named : Prop :=
  wf h /\ (forall l, is_Some (h_names h !! l) -> normal l.2) /\ (forall p, is_Some (pj_entries journal !! p) -> normal p).
Lemma normal_valid p : normal p -> validate_rel p = Ok tt.
Proof. unfold normal, validate_rel. intros ->. done. Qed.

Lemma group_paths inventory p : upper_inventory h = Ok inventory -> wf h -> p ∈ concat (upper_hard_link_groups h inventory) -> is_Some (h_names h !! (Upper, p)).
Proof.
  intros Hi W Hp. apply list_elem_of_In, in_concat in Hp as (g & Hg & Hp). unfold upper_hard_link_groups in Hg. apply filter_In in Hg as [Hg _].
  apply list_elem_of_In, list_elem_of_fmap in Hg as (i & -> & _). apply list_elem_of_In, list_elem_of_fmap in Hp as (e & -> & He).
  apply list_elem_of_In, filter_In in He as [He _]. apply filter_In in He as [He%list_elem_of_In _].
  unfold upper_inventory in Hi. destruct (upper_is_dir h) eqn:Ed; [|injection Hi as <-; by apply elem_of_nil in He]. apply bool_decide_eq_true in Ed.
  destruct (walk_sound h W _ [] inventory e Hi Ed He) as (m & c & _ & _ & _ & Hn & _). by eexists.
Qed.
Lemma planned_paths_valid record selection kind prefix plan : well_named ->
  plan_overlay_apply_in_scope beyond_tree h record journal lowers selection kind prefix = Ok plan ->
  (forall c, c ∈ ap_selected plan -> validate_rel (c_path c) = Ok tt) /\ (forall p, p ∈ ap_selected_paths plan -> validate_rel p = Ok tt).
Proof.
  intros (W & Hnames & _) (inventory & changes & compiled & [Hi _ _] & _ & (Hset & _) & _ & Hsel & Hprot & _)%plan_Ok.
  assert (forall c, c ∈ ap_selected plan -> validate_rel (c_path c) = Ok tt) as Hc.
  { intros c Hin. apply bind_Ok in Hprot as ([] & _ & Hprot). rewrite for_each_Ok in Hprot. specialize (Hprot c Hin).
    apply bind_Ok in Hprot as ([] & Hv & _). by destruct (validate_rel (c_path c)) as [[]|]. }
  split; [done|]. intros p Hp. pose proof (proj1 (Hset p) Hp) as Hn. apply (needed_universe (excluded compiled)) in Hn.
  2: { intros q [Hq _]%elem_of_initial. by apply elem_of_list_to_set. }
  2: { apply created_are_changes. }
  2: { intros q (_ & _ & Hq & _)%elem_of_initial. done. }
  unfold universe in Hn. apply elem_of_union in Hn as [Hn|Hn]; apply elem_of_list_to_set in Hn.
  - apply list_elem_of_fmap in Hn as (c & -> & Hin). apply Hc. rewrite Hsel. apply list_elem_of_In, filter_In. split; [by apply list_elem_of_In|by apply bool_decide_eq_true].
  - apply normal_valid. exact (Hnames (Upper, p) (group_paths inventory p Hi W Hn)).
Qed.
Lemma prepared_preimages_valid record plan preimages : well_named -> (forall p, p ∈ ap_selected_paths plan -> validate_rel p = Ok tt) ->
  prepare_apply_preimages h record journal (ap_selected_paths plan) (ap_selected plan) = Ok preimages ->
  Forall (fun p : TargetPreimage => validate_rel p.1 = Ok tt) preimages.
Proof.
  intros Hw Hp Hpre. apply Forall_forall. intros [p f] Hin. apply prepare_preimages_spec in Hpre as (_ & _ & _ & Hsrc). destruct (Hsrc p f Hin) as [?|Hj]; [by apply Hp|].
  apply normal_valid. destruct Hw as (_ & _ & Hk). apply Hk. by eexists.
Qed.
Lemma planned_valid record selection kind prefix plan : well_named ->
  plan_overlay_apply_in_scope beyond_tree h record journal lowers selection kind prefix = Ok plan ->
  Forall (fun p => validate_rel p = Ok tt) (btree (ap_selected_paths plan)) /\ Forall (fun c => validate_rel (c_path c) = Ok tt) (ap_selected plan).
Proof.
  intros Hw Hplan. destruct (planned_paths_valid _ _ _ _ _ Hw Hplan) as [Hc Hp]. split; apply Forall_forall; [|done]. intros p Hin%elem_of_btree. by apply Hp.
Qed.
Lemma admitted_none_pending record pend : validate_apply_admission record sealed pend = Ok tt -> pend = Ok false.
Proof. intros ([] & _ & [_ [_ (w & -> & Hw'%ensure_Ok%negb_true_iff)%bind_Ok]%ensure_bind_Ok]%ensure_bind_Ok)%bind_Ok. by rewrite Hw'. Qed.
Lemma prepared_plain id now record selection kind pend plan preimages : well_named ->
  prepare_overlay_apply beyond_tree h record journal sealed pend lowers selection kind = Ok (plan, preimages) ->
  appendable None (prepared_record id now record selection plan preimages) /\ pend = Ok false.
Proof.
  intros Hw ([] & Ha & (plan' & Hplan & ([] & _ & (pre' & Hpre & ([] & _ & [= -> ->])%bind_Ok)%bind_Ok)%bind_Ok)%bind_Ok)%bind_Ok.
  split; [|by eapply admitted_none_pending]. destruct (planned_valid _ _ _ _ _ Hw Hplan) as [Hp Hc]. split_and!; [done..|].
  eapply prepared_preimages_valid; [done| |exact Hpre]. by apply (planned_paths_valid _ _ _ _ _ Hw Hplan).
Qed.

Lemma fresh_stable id : stable (fun l => id ∉ ids l).
Proof. intros id' l l' s Hl _ U. by rewrite (up_ids _ _ _ _ U). Qed.
Lemma apply_triple id now selection kind : well_named -> 1 <= limit ->
  triple (fun l => id ∉ ids l) (apply_overlay_selected beyond_tree h journal sealed lowers id now selection kind) (fun _ _ => True).
Proof.
  intros Hw Hlim. unfold apply_overlay_selected. apply triple_step; [apply still_reconcile|]. intros []. apply triple_check. intros [] _.
  apply triple_step; [apply still_record|]. intros record. apply triple_check. intros [] _. apply triple_check. intros [] _.
  apply triple_step; [apply still_check|]. intros []. eapply triple_bind; [apply recover_triple, fresh_stable|]. intros recovered.
  apply triple_step; [apply still_record|]. intros now_record.
  destruct (or_state now_record); [| |destruct (is_all selection); [by apply triple_ret|apply triple_fail]|apply triple_fail].
  all: eapply triple_bind; [apply triple_pending|intros waiting]; apply triple_check; intros [plan preimages] Hprep;
    destruct (prepared_plain id now now_record selection kind waiting plan preimages Hw Hprep) as [Hrec ->];
    eapply (triple_bind _ _ _ _ _ (fun _ => at_state (fun _ => True) id Prepared));
    [apply triple_append; [exact Hrec|done|done|intros l [[Hf Hp] _]; done
      |intros l [[Hf Hp] _]; split; [done|]; rewrite append_states, (proj2 (state_of_None l id) Hf), decide_True by done; done]|intros []];
    (eapply triple_bind; [apply triple_phase; by intros l [_ ?]|intros []]);
    (eapply triple_bind; [apply mark_to; [done|cbn; lia]|intros []]);
    (eapply triple_bind; [by apply finish_triple|intros remaining]);
    (eapply triple_bind; [apply cleanup_triple|intros []]); by apply triple_ret.
Qed.
Lemma prepare_project_triple F record selection boundary id now : well_named ->
  triple F (prepare_project_apply beyond_tree h journal sealed lowers record selection boundary)
    (fun made l => F l /\ pending l = [] /\ appendable (Some boundary) (project_record id now record selection made.1 made.2)).
Proof.
  intros Hw. unfold prepare_project_apply. eapply triple_bind; [apply triple_pending|intros waiting]. apply triple_check. intros [] Ha%admitted_none_pending.
  apply triple_step; [apply still_check|intros []]. apply triple_check. intros [] _. apply triple_check. intros plan Hplan.
  apply triple_step; [apply still_check|intros []]. apply triple_check. intros [] _. apply triple_check. intros preimages Hpre.
  apply triple_step; [apply still_check|intros []]. apply triple_ret. intros l [HF Hp]. split; [done|]. split.
  { rewrite Ha in Hp. injection Hp as Hp. symmetry in Hp. by apply negb_false_iff, bool_decide_eq_true in Hp. }
  destruct (planned_valid _ _ _ _ _ Hw Hplan) as [Hps Hc]. split_and!; [done..|]. cbn [fst snd project_record ar_preimages].
  pose proof (prepared_preimages_valid record plan preimages Hw (proj2 (planned_paths_valid _ _ _ _ _ Hw Hplan)) Hpre) as Hv. rewrite Forall_forall in Hv.
  apply Forall_forall. intros p [Hin%list_elem_of_In _]%list_elem_of_In%filter_In. exact (Hv p Hin).
Qed.
Lemma scoped_triple written_root id now selection boundary : well_named -> 1 <= limit ->
  triple (fun l => id ∉ ids l) (apply_overlay_selected_scoped beyond_tree h journal sealed lowers written_root id now selection boundary) (fun _ _ => True).
Proof.
  intros Hw Hlim. unfold apply_overlay_selected_scoped, apply_project_selected. apply triple_check. intros [] _.
  apply triple_step; [apply still_reconcile|intros []]. apply triple_step; [apply still_check|intros []]. apply triple_step; [apply still_record|intros record].
  eapply triple_bind; [by apply (prepare_project_triple _ record selection boundary id now)|intros [plan preimages]]. cbn [fst snd].
  intros t r t' Ht. assert (appendable (Some boundary) (project_record id now record selection plan preimages)) as Hrec by (destruct Ht as (l & _ & _ & _ & _ & _ & ?); done). revert t r t' Ht.
  eapply (triple_weaken _ _ (fun l => id ∉ ids l /\ pending l = [])); [by intros l (? & ? & _)|intros a l HQ; exact HQ|].
  eapply (triple_bind _ _ _ _ _ (fun _ => at_state (fun _ => True) id Prepared)).
  { apply triple_append; [exact Hrec|done|done|done|]. intros l [Hf Hp]. split; [done|]. rewrite append_states, (proj2 (state_of_None l id) Hf), decide_True by done. done. }
  intros []. eapply triple_bind; [apply triple_phase; by intros l [_ ?]|intros []]. eapply triple_bind; [apply mark_to; [done|cbn; lia]|intros []].
  eapply triple_bind; [apply triple_step; [apply still_check|intros []]; by apply finish_triple|intros remaining]. by apply triple_ret.
Qed.
End Apply.
End Transactions.

(** ** Statements *)

Section Statements.
Context `{LedgerCodec, !LedgerCodecLaws, GlobOps, AccessOps, Digest256} (beyond_tree : Loc -> Result ApplyError unit).

(** What a caller runs, with what it finds: the outcome of the seal, and for an
    apply the file system and the journal when the plan is made. *)
Inductive TxOperation :=
| ApplySelected (id : string) (now : Z) (selection : ApplySelection) (kind : ApplyTargetKind) (h : Host) (journal : PreimageJournal) (sealed : Result IoErr unit) (lowers : list Root)
| ApplyScoped (written_root : bool) (id : string) (now : Z) (selection : ApplySelection) (boundary : ProjectApplyBoundary) (h : Host) (journal : PreimageJournal) (sealed : Result IoErr unit) (lowers : list Root)
| RecoverPending (sealed : Result IoErr unit) (kind : ApplyTargetKind)
| DiscardStage.
Definition perform_tx (op : TxOperation) : TxOp unit :=
  match op with
  | ApplySelected id now selection kind h journal sealed lowers =>
      _ ← apply_overlay_selected beyond_tree h journal sealed lowers id now selection kind; mret tt
  | ApplyScoped written_root id now selection boundary h journal sealed lowers =>
      _ ← apply_overlay_selected_scoped beyond_tree h journal sealed lowers written_root id now selection boundary; mret tt
  | RecoverPending sealed kind => _ ← recover_pending_applies sealed kind; mret tt
  | DiscardStage => discard_overlay
  end.
(** An apply has an identifier of its own. *)
Definition unused (op : TxOperation) (l : ApplyLedger) : Prop :=
  match op with ApplySelected id _ _ _ _ _ _ _ | ApplyScoped _ id _ _ _ _ _ _ _ => id ∉ ids l | _ => True end.
Definition sees_named (op : TxOperation) : Prop :=
  match op with ApplySelected _ _ _ _ h journal _ _ | ApplyScoped _ _ _ _ _ h journal _ _ => well_named h journal | _ => True end.
Definition admissible (op : TxOperation) (l : ApplyLedger) : Prop := unused op l /\ sees_named op.
Lemma operation_triple l0 limit op : 1 <= limit -> sees_named op -> triple l0 limit (unused op) (perform_tx op) (fun _ _ => True).
Proof.
  intros Hlim Hw. destruct op as [id now selection kind h journal sealed lowers|written id now selection boundary h journal sealed lowers|sealed kind|]; cbn [perform_tx].
  - eapply triple_bind; [by apply apply_triple|]. intros out. by apply triple_ret.
  - eapply triple_bind; [by apply scoped_triple|]. intros out. by apply triple_ret.
  - eapply triple_bind; [by apply (recover_public_triple l0 limit (fun _ => True))|]. intros out. by apply triple_ret.
  - apply discard_triple.
Qed.

Lemma operation_keeps op t r t' l : Good l t -> length (pending l) <= 1 -> admissible op l -> perform_tx op t = (r, t') ->
  exists l', Good l' t' /\ advanced l l' /\ length (pending l') <= 1.
Proof.
  intros Hg Hp [Ha Hw] E. assert (On l 1 (unused op) t) as Ht by (exists l; split_and!; [done|reflexivity|done|done]).
  pose proof (operation_triple l 1 op ltac:(lia) Hw t r t' Ht E) as Ho.
  assert (On l 1 (fun _ => True) t') as (l' & ? & ? & ? & _) by (by destruct r). exists l'. done.
Qed.
(** C25: Whatever fails and wherever it stops, an operation leaves a ledger that loads,
    in which no record is lost and no state goes back; the target was changed only
    for an apply recorded as prepared, the upper pruned and its observations
    consumed only for one recorded as applied to the target, backups removed only
    for one recorded as committed, and the stage dropped only with none pending. *)
Theorem phases_are_covered op t r t' l : Good l t -> length (pending l) <= 1 -> admissible op l -> perform_tx op t = (r, t') ->
  exists l', Good l' t' /\ advanced l l' /\ length (pending l') <= 1.
Proof. apply operation_keeps. Qed.

(** Between two operations the process may have ended: the caller comes with the
    record it has, and the steps and listings are new. *)
Definition restart (record : OverlayRecord) (steps : list StepOutcome) (listings : list (Result IoErr (list ChangeEntry))) (t : Tx) : Tx :=
  mkTx (tx_file t) record (tx_published t) steps listings (tx_trace t).
Inductive tx_history : Tx -> Tx -> Prop :=
| tx_history_nil t : tx_history t t
| tx_history_step t op record steps listings t' t'' :
    (forall l, load_apply_ledger (tx_file t) = Ok l -> admissible op l) ->
    (perform_tx op (restart record steps listings t)).2 = t' -> tx_history t' t'' -> tx_history t t''.

(** C26: From a stage without a ledger, every history of applies (to the whole target or
    within a project), recoveries and drops,
    with any failures and crashes in them, has a ledger that loads, with at most
    one apply pending, and no phase that the ledger did not cover. *)
Theorem histories_are_covered t t' : tx_file t = LedgerAbsent -> tx_trace t = [] -> tx_history t t' ->
  exists l, Good l t' /\ length (pending l) <= 1.
Proof.
  intros Hf Htr Hh. assert (exists l, Good l t /\ length (pending l) <= 1) as Hg.
  { exists ledger_default. split; [|cbn; lia]. constructor; [by rewrite Hf|constructor|by rewrite Htr]. }
  clear Hf Htr. induction Hh as [t|t op record steps listings t' t'' Ha Ht' _ IH]; [done|]. apply IH. destruct Hg as (l & Hg & Hp).
  destruct (perform_tx op (restart record steps listings t)) as [r t1] eqn:E. cbn [snd] in Ht'. subst t1.
  destruct (operation_keeps op (restart record steps listings t) r t' l) as (l' & ? & _ & ?); [by destruct Hg|done|apply Ha, Hg|done|]. eauto.
Qed.

End Statements.

(** ** Recovery *)

(** What was decoded can be encoded again with another state and count in one
    record: only a path that is no text cannot be encoded, and none was decoded. *)
Class LedgerReencodes `{LedgerCodec} : Prop := {
  ledger_reencodes text l id s n records : ledger_decode text = Some l -> update_record id (with_record_state s n) (al_records l) = Some records ->
    is_Some (ledger_encode (mkLedger (al_schema_version l) records (al_project_boundaries l)))
}.

Section Recovery.
Context `{LedgerCodec, !LedgerCodecLaws, !LedgerReencodes}.

Definition same_overlay (r r' : OverlayRecord) : Prop :=
  or_id r = or_id r' /\ or_generation r = or_generation r' /\ or_target r = or_target r' /\ or_protect_target r = or_protect_target r'.
(** The changes that the [n]-th listing finds. *)
Definition listing (n : nat) (listings : list (Result IoErr (list ChangeEntry))) : list ChangeEntry :=
  match listings !! n with Some (Ok changes) => changes | _ => [] end.
Definition shown_state (remaining : list ChangeEntry) : OverlayState := if bool_decide (remaining = []) then Applied else Staged.
(** The pending records committed, each with the number of changes that its own
    listing found. *)
Fixpoint settle (listings : list (Result IoErr (list ChangeEntry))) (records : list ApplyRecord) : list ApplyRecord :=
  match records with
  | [] => []
  | r :: rest =>
      if is_pending r then with_record_state Committed (Some (length (listing 0 listings))) r :: settle (tail listings) rest
      else r :: settle listings rest
  end.
Definition all_listed (listings : list (Result IoErr (list ChangeEntry))) : Prop := Forall (fun x => exists changes, x = Ok changes) listings.

Section Going.
Context (r0 : OverlayRecord).
(** No step fails from here on; the ledger on disk, the listings to come, and the
    state that was last published, once one was. *)
Record Going := mkGoing { go_ledger : ApplyLedger; go_listings : list (Result IoErr (list ChangeEntry)); go_shown : option OverlayState }.
Record Calm (g : Going) (t : Tx) : Prop := mkCalm {
  calm_steps : tx_steps t = [];
  calm_listings : tx_listings t = go_listings g;
  calm_listed : all_listed (go_listings g);
  calm_record : same_overlay (tx_record t) r0;
  calm_ledger : load_apply_ledger (tx_file t) = Ok (go_ledger g);
  calm_shown : forall s, go_shown g = Some s -> or_state (tx_record t) = s /\ tx_published t = Some (tx_record t)
}.
Definition goes {A} (g : Going) (m : TxOp A) (a : A) (g' : Going) : Prop := forall t, Calm g t -> exists t', m t = (Ok a, t') /\ Calm g' t'.

Lemma goes_bind {A B} g g1 g2 (m : TxOp A) (k : A -> TxOp B) a b : goes g m a g1 -> goes g1 (k a) b g2 -> goes g (m ≫= k) b g2.
Proof.
  intros Hm Hk t Ht. destruct (Hm t Ht) as (t1 & E & Ht1). destruct (Hk t1 Ht1) as (t2 & E2 & Ht2). exists t2.
  unfold mbind, tx_bind. by rewrite E.
Qed.
Lemma goes_then {A B C} g g1 g2 (m : TxOp A) (w : A -> TxOp B) (k : B -> TxOp C) b c :
  goes g (m ≫= w) b g1 -> goes g1 (k b) c g2 -> goes g (m ≫= fun a => w a ≫= k) c g2.
Proof.
  intros Hm Hk t Ht. destruct (goes_bind _ _ _ _ _ _ _ Hm Hk t Ht) as (t' & E & Ht'). exists t'. split; [|done]. rewrite <- E. unfold mbind, tx_bind.
  by destruct (m t) as [[]].
Qed.
Lemma goes_ret {A} g (a : A) : goes g (mret a) a g.
Proof. intros t Ht. by exists t. Qed.
Lemma goes_lift {A} g (x : Result ApplyError A) a : x = Ok a -> goes g (tx_lift x) a g.
Proof. intros -> t Ht. by exists t. Qed.
Lemma goes_if g b (m : TxOp unit) : (b = true -> goes g m tt g) -> goes g (tx_if b m) tt g.
Proof. intros Hm. destruct b; [by apply Hm|apply goes_ret]. Qed.
Lemma goes_noted g e : goes g (noted e) tt g.
Proof. intros t [Hs ? ? ? ? ?]. unfold noted, next_step. rewrite Hs. eexists. split; [done|]. constructor; cbn; [by rewrite Hs|done..]. Qed.
Lemma goes_check g : goes g check_step tt g.
Proof. intros t [Hs ? ? ? ? ?]. unfold check_step, next_step. rewrite Hs. eexists. split; [done|]. constructor; cbn; [by rewrite Hs|done..]. Qed.
Lemma goes_backups g id kind : goes g (cleanup_apply_backups id kind) tt g.
Proof. destruct kind; [apply goes_noted|apply goes_ret]. Qed.
Lemma goes_list l listings shown : goes (mkGoing l listings shown) list_changes (listing 0 listings) (mkGoing l (tail listings) shown).
Proof.
  intros t [Hs Hl Ha ? ? ?]. cbn [go_listings] in *. unfold list_changes. rewrite Hl. destruct Ha as [|x rest [changes ->] Hrest]; eexists; (split; [done|]).
  - constructor; cbn in *; [done|done|constructor|done..].
  - constructor; cbn in *; done.
Qed.
(** The record is published in the state that was set just before. *)
Lemma goes_publish l listings shown s :
  goes (mkGoing l listings shown) (_ ← set_overlay_state s; write_overlay_record) tt (mkGoing l listings (Some s)).
Proof.
  intros t [Hs Hl Ha Hr Hf _]. unfold mbind, tx_bind, set_overlay_state, write_overlay_record, next_step. cbn [set_record tx_steps]. rewrite Hs. eexists. split; [done|].
  constructor; cbn in *; [by rewrite Hs|done..|]. intros s' [= <-]. done.
Qed.

(** Marking one record of a ledger with distinct identifiers. *)
Definition with_records (l : ApplyLedger) (records : list ApplyRecord) : ApplyLedger := mkLedger (al_schema_version l) records (al_project_boundaries l).
Lemma update_at f before a after : ar_apply_id a ∉ ar_apply_id <$> before -> update_record (ar_apply_id a) f (before ++ a :: after) = Some (before ++ f a :: after).
Proof.
  induction before as [|x before IH]; cbn [app update_record fmap list_fmap].
  - by rewrite bool_decide_eq_true_2.
  - intros [Hne Hb]%not_elem_of_cons. rewrite bool_decide_eq_false_2 by congruence. by rewrite IH.
Qed.
Lemma goes_mark l listings shown before a after id s n : al_records l = before ++ a :: after -> ar_apply_id a = id -> id ∉ ar_apply_id <$> before ->
  goes (mkGoing l listings shown) (ledger_step (fun o => update_apply_state o id s n)) tt
    (mkGoing (with_records l (before ++ with_record_state s n a :: after)) listings shown).
Proof.
  intros Hrec <- Hid t [Hs Hl Ha Hr Hf Hsh]. cbn [go_ledger go_listings go_shown] in *. unfold ledger_step, next_step. rewrite Hs. cbn [head default from_option].
  pose proof (update_at (with_record_state s n) before a after Hid) as Hu. rewrite <- Hrec in Hu. unfold update_apply_state. rewrite Hf, Hu.
  assert (l <> ledger_default) as Hne by (intros ->; by destruct before). destruct (loaded_valid _ l Hf) as [?|Hv]; [done|].
  destruct (tx_file t) as [|e|text] eqn:Et; [cbn in Hf; congruence|done|]. assert (ledger_decode text = Some l) as Hd.
  { cbn [load_apply_ledger] in Hf. apply bind_Ok in Hf as (l1 & Hd & ([] & _ & [= ->])%bind_Ok). destruct (ledger_decode text); cbn in Hd; congruence. }
  destruct (ledger_reencodes text l _ s n _ Hd Hu) as [text' Ht']. unfold write_ledger. rewrite Ht'. eexists. split; [done|].
  constructor; cbn; [by rewrite Hs|done..| |done]. exact (load_written _ _ (update_valid _ _ _ _ _ Hv Hu) Ht').
Qed.
Lemma goes_finish l listings shown before a after id selected : al_records l = before ++ a :: after -> ar_apply_id a = id -> id ∉ ar_apply_id <$> before ->
  goes (mkGoing l listings shown) (finish_apply id selected) (listing 0 listings)
    (mkGoing (with_records l (before ++ with_record_state Committed (Some (length (listing 0 listings))) a :: after)) (tail listings) (Some (shown_state (listing 0 listings)))).
Proof.
  intros Hrec Ha Hid. unfold finish_apply. eapply goes_bind.
  - unfold complete_target_applied. eapply goes_bind; [apply goes_if; intros _; apply goes_noted|]. eapply goes_bind; [apply goes_list|].
    eapply (goes_then _ (mkGoing l (tail listings) (Some (shown_state (listing 0 listings))))); [|apply goes_ret]. unfold shown_state. case_bool_decide; [|apply goes_publish].
    intros t Ht. destruct (goes_noted _ (PhaseOf id ClearStage) t Ht) as (t1 & E1 & Ht1). destruct (goes_publish _ _ _ Applied t1 Ht1) as (t2 & E2 & Ht2).
    exists t2. split; [|done]. unfold phase, mbind, tx_bind in *. by rewrite E1.
  - eapply goes_bind; [apply goes_noted|]. eapply goes_bind; [by eapply goes_mark|apply goes_ret].
Qed.
(** The part that is skipped when the target is known to be changed already. *)
Lemma goes_target l listings shown before a after : al_records l = before ++ a :: after -> ar_apply_id a ∉ ar_apply_id <$> before ->
  exists a', ar_apply_id a' = ar_apply_id a /\ (forall n, with_record_state Committed (Some n) a' = with_record_state Committed (Some n) a) /\
  goes (mkGoing l listings shown)
    (tx_if (bool_decide (ar_state a = Prepared)) (_ ← phase (ar_apply_id a) ChangeTarget; mark_apply_target_applied (ar_apply_id a))) tt
    (mkGoing (with_records l (before ++ a' :: after)) listings shown).
Proof.
  intros Hrec Hid. destruct (bool_decide (ar_state a = Prepared)); cbn [tx_if].
  - exists (with_record_state TargetApplied None a). split_and!; [done..|]. eapply goes_bind; [apply goes_noted|by eapply goes_mark].
  - exists a. split_and!; [done..|]. replace (with_records l (before ++ a :: after)) with l by (rewrite <- Hrec; by destruct l). apply goes_ret.
Qed.

(** What recovery asks of a pending apply: it belongs to the overlay, and its
    changes are supported by the target. *)
Definition recoverable (kind : ApplyTargetKind) (boundaries : gmap string ProjectApplyBoundary) (record : OverlayRecord) (a : ApplyRecord) : Prop :=
  belongs a record = true /\
  if boundaries !! ar_apply_id a then or_protect_target record = false
  else validate_changes kind (ar_changes a) = Ok tt /\ (ar_planned_paths a = [] -> ar_changes a = []).
Lemma normalize_valid p : validate_rel p = Ok tt -> normalize_components p = Ok p.
Proof.
  unfold validate_rel. rewrite ensure_Ok. unfold normalize_components. intros Hp. match goal with |- fold_res ?f _ _ = _ => set (step := f) end.
  assert (forall acc, fold_res step p acc = Ok (acc ++ p)) as Hf; [|apply Hf].
  induction p as [|c p IH]; intros acc; cbn [fold_res]; [by rewrite app_nil_r|]. cbn [forallb] in Hp. apply andb_true_iff in Hp as [Hc Hp].
  unfold normal_component in Hc. apply negb_true_iff in Hc. apply orb_false_iff in Hc as [[[He Hd]%orb_false_iff Hdd]%orb_false_iff _].
  assert (step acc c = Ok (acc ++ [c])) as -> by (unfold step; by rewrite He, Hd, Hdd). cbn [mbind result_bind]. rewrite (IH Hp (acc ++ [c])). by rewrite <- app_assoc.
Qed.
Lemma belongs_same a r : same_overlay r r0 -> belongs a r = belongs a r0.
Proof. intros (E1 & E2 & E3 & _). unfold belongs. by rewrite E1, E2, E3. Qed.
(** What depends on the record in memory only through what stays the same. *)
Lemma goes_record {A} g (k : OverlayRecord -> TxOp A) a g' : (forall r, same_overlay r r0 -> goes g (k r) a g') -> goes g (the_record ≫= k) a g'.
Proof. intros Hk t Ht. destruct (Hk (tx_record t) (calm_record _ _ Ht) t Ht) as (t' & E & Ht'). by exists t'. Qed.
Lemma goes_recover_one l listings shown boundaries kind before a after : al_records l = before ++ a :: after -> ar_apply_id a ∉ ar_apply_id <$> before ->
  recoverable kind boundaries r0 a -> (forall p, p ∈ ar_planned_paths a -> validate_rel p = Ok tt) ->
  goes (mkGoing l listings shown) (recover_one boundaries kind a) tt
    (mkGoing (with_records l (before ++ with_record_state Committed (Some (length (listing 0 listings))) a :: after)) (tail listings) (Some (shown_state (listing 0 listings)))).
Proof.
  intros Hrec Hid [Hb Hok] Hp. destruct (goes_target l listings shown before a after Hrec Hid) as (a' & Ha' & Hw & Ht).
  pose proof (fun selected => goes_finish (with_records l (before ++ a' :: after)) listings shown before a' after (ar_apply_id a) selected eq_refl Ha' Hid) as Hf.
  rewrite Hw in Hf. unfold recover_one. apply goes_record. intros r Hr. eapply goes_bind; [apply goes_lift; rewrite (belongs_same a r Hr), Hb; done|].
  destruct (boundaries !! ar_apply_id a) as [b|].
  - unfold recover_project_apply. apply goes_record. intros r' (_ & _ & _ & E4). eapply goes_bind; [apply goes_lift; rewrite E4, Hok; done|].
    eapply goes_bind; [apply goes_check|]. eapply goes_bind; [exact Ht|]. eapply goes_bind; [|apply goes_ret]. eapply goes_bind; [apply goes_check|apply Hf].
  - destruct Hok as [Hv Hne]. eapply goes_bind; [by apply goes_lift|]. eapply goes_bind; [apply (goes_lift _ _ (ar_planned_paths a))|].
    { apply collect_Ok. apply Forall2_same_length_lookup. split; [done|]. intros i x y Hx Hy. assert (x = y) as <- by congruence. apply normalize_valid, Hp. by eapply list_elem_of_lookup_2. }
    eapply goes_bind; [apply (goes_lift _ _ tt)|].
    { apply ensure_Ok, negb_true_iff, andb_false_iff. destruct (decide (ar_planned_paths a = [])) as [Hn|Hn]; [right|left; by apply bool_decide_eq_false].
      apply negb_false_iff, bool_decide_eq_true. by apply Hne. }
    eapply goes_bind; [exact Ht|]. eapply goes_bind; [apply Hf|apply goes_backups].
Qed.
Lemma listing_tail n listings : listing n (tail listings) = listing (S n) listings.
Proof. by destruct listings. Qed.
(** Recovery of what is pending among the records that are still to come. *)
Lemma goes_recover_rest boundaries kind rest : forall l listings shown before, al_records l = before ++ rest -> NoDup (ids l) ->
  (forall a, a ∈ rest -> is_pending a = true -> recoverable kind boundaries r0 a /\ forall p, p ∈ ar_planned_paths a -> validate_rel p = Ok tt) ->
  goes (mkGoing l listings shown) (tx_for (recover_one boundaries kind) (List.filter is_pending rest)) tt
    (mkGoing (with_records l (before ++ settle listings rest)) (drop (length (List.filter is_pending rest)) listings)
      (match length (List.filter is_pending rest) with O => shown | S n => Some (shown_state (listing n listings)) end)).
Proof.
  induction rest as [|a rest IH]; intros l listings shown before Hrec Hn Hok; cbn [List.filter settle].
  - cbn [length tx_for drop]. replace (with_records l (before ++ [])) with l by (rewrite <- Hrec; by destruct l). apply goes_ret.
  - assert (forall x, x ∈ rest -> is_pending x = true -> recoverable kind boundaries r0 x /\ forall p, p ∈ ar_planned_paths x -> validate_rel p = Ok tt) as Hok'
      by (intros x Hx; apply Hok; by apply list_elem_of_further).
    destruct (is_pending a) eqn:Ep.
    + assert (ar_apply_id a ∉ ar_apply_id <$> before) as Hid.
      { unfold ids in Hn. rewrite Hrec, fmap_app in Hn. apply NoDup_app in Hn as (_ & Hn & _). intros Hin. apply (Hn _ Hin). cbn. apply list_elem_of_here. }
      destruct (Hok a (list_elem_of_here _ _) Ep) as [Ha Hp]. cbn [tx_for length].
      eapply goes_bind; [exact (goes_recover_one l listings shown boundaries kind before a rest Hrec Hid Ha Hp)|].
      set (a1 := with_record_state Committed _ a). specialize (IH (with_records l (before ++ a1 :: rest)) (tail listings) (Some (shown_state (listing 0 listings))) (before ++ [a1])).
      unfold with_records in *. cbn [al_records al_schema_version al_project_boundaries] in IH. rewrite <- !app_assoc in IH. cbn [app] in IH.
      assert (drop (length (List.filter is_pending rest)) (tail listings) = drop (S (length (List.filter is_pending rest))) listings) as Hd by (destruct listings; [cbn [tail]; by rewrite !drop_nil|done]).
      assert (NoDup (ids (mkLedger (al_schema_version l) (before ++ a1 :: rest) (al_project_boundaries l)))) as Hn'.
      { unfold ids in *. cbn [al_records]. rewrite Hrec, fmap_app in Hn. rewrite fmap_app. exact Hn. }
      rewrite Hd in IH. destruct (length (List.filter is_pending rest)) eqn:Elen.
      * apply IH; [done| |done]. exact Hn'.
      * rewrite listing_tail in IH. apply IH; [done| |done]. exact Hn'.
    + specialize (IH l listings shown (before ++ [a])). rewrite <- !app_assoc in IH. cbn [app] in IH. by apply IH.
Qed.
Lemma goes_for g {A} (f : A -> TxOp unit) l : (forall x, goes g (f x) tt g) -> goes g (tx_for f l) tt g.
Proof. intros Hf. induction l as [|x l IH]; cbn [tx_for]; [apply goes_ret|]. by eapply goes_bind. Qed.

Lemma planned_of_loaded file l a p : load_apply_ledger file = Ok l -> a ∈ al_records l -> p ∈ ar_planned_paths a -> validate_rel p = Ok tt.
Proof.
  intros Hl Hin Hp. destruct (loaded_valid _ l Hl) as [E|(_ & Hv & _)%validate_ledger_Ok]; [rewrite E in Hin; by apply elem_of_nil in Hin|].
  specialize (Hv a Hin). apply ensure_bind_Ok in Hv as [_ [_ Hv]%ensure_bind_Ok]. apply bind_Ok in Hv as ([] & Hv & _).
  rewrite for_each_Ok in Hv. specialize (Hv p Hp). by destruct (validate_rel p) as [[]|].
Qed.
Lemma recover_goes l listings shown kind : NoDup (ids l) -> (forall a, a ∈ pending l -> recoverable kind (al_project_boundaries l) r0 a) ->
  goes (mkGoing l listings shown) (recover_pending_applies_for_target kind) (ar_apply_id <$> pending l)
    (mkGoing (with_records l (settle listings (al_records l))) (drop (length (pending l)) listings)
      (match length (pending l) with O => shown | S n => Some (shown_state (listing n listings)) end)).
Proof.
  intros Hn Hrec t Ht. set (g' := mkGoing (with_records l _) _ _).
  assert (goes (mkGoing l listings shown) (record ← the_record;
    _ ← tx_for (fun a => tx_if (retains_backups l record a) (cleanup_apply_backups (ar_apply_id a) kind)) (al_records l);
    _ ← tx_for (recover_one (al_project_boundaries l) kind) (pending l); mret (ar_apply_id <$> pending l)) (ar_apply_id <$> pending l) g') as Hg.
  { apply goes_record. intros r _. eapply goes_bind; [apply goes_for; intros a; apply goes_if; intros _; apply goes_backups|]. eapply goes_bind; [|apply goes_ret].
    apply (goes_recover_rest (al_project_boundaries l) kind (al_records l) l listings shown []); [done|done|]. intros a Hin Hp. split.
    - apply Hrec, list_elem_of_In, filter_In. split; [by apply list_elem_of_In|done].
    - intros p Hpath. exact (planned_of_loaded _ l a p (calm_ledger _ _ Ht) Hin Hpath). }
  destruct (Hg t Ht) as (t' & E & Ht'). exists t'. split; [|done]. unfold recover_pending_applies_for_target, mbind at 1, tx_bind at 1, tx_reading at 1.
  rewrite (calm_ledger _ _ Ht). exact E.
Qed.
End Going.
Lemma reconcile_idem {E} r (p : option OverlayRecord) r0 b : reconcile_terminal_overlay r (Ok p : Result E _) = Ok (r0, b) ->
  exists b', reconcile_terminal_overlay r0 (Ok p : Result E _) = Ok (r0, b').
Proof.
  unfold reconcile_terminal_overlay. destruct (terminal_state (or_state r)) eqn:Et; [intros [= <- <-]; rewrite Et; by eexists|]. cbn [mbind result_bind].
  destruct p as [q|]; [|intros [= <- <-]; rewrite Et; by eexists]. destruct (_ && _) eqn:Em; intros [= <- <-].
  - apply andb_true_iff in Em as [_ ->]. by eexists.
  - rewrite Et, Em. by eexists.
Qed.

(** C27: Recovery of any number of pending applies, whole or partial, ends: when no
    step and no listing of the upper fails, the record's own overlay is the one
    they belong to and the target supports their changes (a project's is not
    protected), and what was decoded can be encoded with another state, it answers
    their identifiers in the order of the ledger, and the ledger has the same
    records with exactly the pending ones committed, each with the number of
    changes that its own listing found to remain; and the overlay is published as
    applied when the last of those listings found nothing, as staged otherwise. *)
Theorem recovery_completes l t kind r0 b : Good l t -> tx_steps t = [] -> all_listed (tx_listings t) ->
  reconcile_terminal_overlay (tx_record t) (Ok (tx_published t) : Result ApplyError _) = Ok (r0, b) ->
  (forall a, a ∈ pending l -> recoverable kind (al_project_boundaries l) r0 a) ->
  exists t', recover_pending_applies (Ok tt) kind t = (Ok (ar_apply_id <$> pending l), t') /\
    Good (with_records l (settle (tx_listings t) (al_records l))) t' /\ pending (with_records l (settle (tx_listings t) (al_records l))) = [] /\
    (forall n, length (pending l) = S n -> or_state (tx_record t') = shown_state (listing n (tx_listings t)) /\ tx_published t' = Some (tx_record t')).
Proof.
  intros Hg Hs Hli Hr Hrec. destruct (reconcile_idem _ _ _ _ Hr) as [b' Hr'].
  set (t1 := set_record r0 (after_step (set_record r0 t))).
  assert (Calm r0 (mkGoing l (tx_listings t) None) t1) as Ht1 by (constructor; [cbn; by rewrite Hs|done|done|done|apply Hg|done]).
  destruct (recover_goes r0 l (tx_listings t) None kind (good_ids _ _ Hg) Hrec t1 Ht1) as (t' & E & Ht').
  assert (recover_pending_applies (Ok tt) kind t = (Ok (ar_apply_id <$> pending l), t')) as E'.
  { assert (next_step (set_record r0 t) = Happens) as Hn by (unfold next_step; cbn; by rewrite Hs).
    unfold recover_pending_applies, mbind, tx_bind, reconcile at 1. rewrite Hr. unfold tx_lift, check_step. rewrite Hn. cbn [io map_err].
    unfold reconcile. cbn [after_step tx_record tx_published set_record]. rewrite Hr'. exact E. }
  exists t'. split; [exact E'|]. assert (On l (length (pending l)) (fun _ => True) t) as Ht by (exists l; done).
  pose proof (recover_public_triple l (length (pending l)) (fun _ => True) (Ok tt) kind ltac:(done) t _ t' Ht E') as (l' & Hg' & _ & _ & _ & Hp).
  assert (l' = with_records l (settle (tx_listings t) (al_records l))) as <- by (pose proof (calm_ledger _ _ _ Ht') as Hl; rewrite (good_loads _ _ Hg') in Hl; by injection Hl).
  split; [done|]. split; [done|]. intros n Hn. apply (calm_shown _ _ _ Ht'). cbn [go_shown]. by rewrite Hn.
Qed.
End Recovery.

(** ** Samples *)

Module LedgerSample.
Import ApplySample.
#[export] Instance identity_codec : LedgerCodec := {| LedgerText := ApplyLedger; ledger_encode := Some; ledger_decode := Some |}.
#[export] Instance identity_codec_laws : LedgerCodecLaws.
Proof. constructor. by intros l text [= ->]. Qed.
#[export] Instance identity_reencodes : LedgerReencodes.
Proof. constructor. intros. by eexists. Qed.
#[export] Existing Instance open_access.
#[export] Existing Instance Sample.digest.
(** An apply of everything, which stops when the target has been changed. *)
Definition apply_all : TxOperation :=
  ApplySelected "1" 0 everything TargetDirectory (w_host staged) (journal staged) (Ok tt) (overlay_lowers Sample.core).
Definition crash : list StepOutcome := [Happens; Happens; FailsAfter].
Definition empty : Tx := mkTx LedgerAbsent sample_record None [] [] [].
Definition interrupted : Tx := (perform_tx outside apply_all (restart sample_record crash [] empty)).2.

Definition named_check (h : Host) (journal : PreimageJournal) : bool :=
  forallb (fun '(l, _) => forallb normal_component l.2) (map_to_list (h_names h))
  && forallb (fun '(p, _) => forallb normal_component p) (map_to_list (pj_entries journal)).
Lemma named_check_sound h journal : wf h -> named_check h journal = true -> well_named h journal.
Proof.
  intros W [Hn Hj]%andb_true_iff. rewrite forallb_forall in Hn. rewrite forallb_forall in Hj. split_and!; [done|..].
  - intros l [i Hi]. apply (Hn (l, i)), list_elem_of_In. by apply elem_of_map_to_list.
  - intros p [f Hf]. apply (Hj (p, f)), list_elem_of_In. by apply elem_of_map_to_list.
Qed.
Lemma staged_named : well_named (w_host staged) (journal staged).
Proof. apply named_check_sound; [exact (hinv_wf _ _ staged_inv)|]. vm_compute. reflexivity. Qed.
Lemma empty_good sample_record steps : Good ledger_default (restart sample_record steps [] empty).
Proof. constructor; [done|constructor|constructor]. Qed.

(** Two applies pending, one stopped before the target was changed and one after,
    and a change that the first one leaves behind. *)
Definition waiting (id : string) (state : ApplyRecordState) : ApplyRecord :=
  mkApplyRecord 2 id 0 (or_id sample_record) (or_generation sample_record) (or_target sample_record) everything [] [["a"]%string] [] state 0.
Definition two_pending : ApplyLedger := mkLedger 2 [waiting "1" Prepared; waiting "2" TargetApplied] ∅.
Definition leftover : ChangeEntry := mkChange ["b"]%string Added None (Some TyFile) None None.
Definition found : list (Result IoErr (list ChangeEntry)) := [Ok [leftover]; Ok []].
Definition stopped : Tx := restart sample_record [] found (mkTx (LedgerBytes two_pending) sample_record None [] [] []).
Lemma stopped_good : Good two_pending stopped.
Proof. constructor; [vm_compute; reflexivity| |constructor]. apply NoDup_cons. split; [|apply NoDup_singleton]. by intros ?%list_elem_of_singleton. Qed.
Lemma found_listed : all_listed found.
Proof. apply Forall_cons. split; [by eexists|]. apply Forall_singleton. by eexists. Qed.
Lemma waiting_recoverable id state : recoverable TargetDirectory ∅ sample_record (waiting id state).
Proof. split; [vm_compute; reflexivity|]. rewrite lookup_empty. by split. Qed.
End LedgerSample.
Import LedgerSample ApplySample.

Lemma phases_are_covered_witness : exists e l', (perform_tx outside apply_all (restart sample_record crash [] empty)).1 = Err e /\ Good l' interrupted /\ length (pending l') <= 1.
Proof.
  destruct (phases_are_covered outside apply_all (restart sample_record crash [] empty) (perform_tx outside apply_all (restart sample_record crash [] empty)).1 interrupted ledger_default (empty_good sample_record crash)) as (l' & Hg & _ & Hp).
  - cbn. lia.
  - split; [apply not_elem_of_nil|exact staged_named].
  - apply surjective_pairing.
  - assert ((perform_tx outside apply_all (restart sample_record crash [] empty)).1 = Err (Io EIO)) as E by (vm_compute; reflexivity). exists (Io EIO), l'. exact (conj E (conj Hg Hp)).
Defined.
Lemma histories_are_covered_witness : exists l, Good l (perform_tx outside (RecoverPending (Ok tt) TargetDirectory) (restart sample_record [] [] interrupted)).2 /\ length (pending l) <= 1.
Proof.
  refine (histories_are_covered outside empty _ eq_refl eq_refl _). eapply (tx_history_step _ empty apply_all sample_record crash []); [|reflexivity|].
  - intros l [= <-]. split; [apply not_elem_of_nil|exact staged_named].
  - eapply (tx_history_step _ _ (RecoverPending (Ok tt) TargetDirectory) sample_record [] []); [intros l _; exact (conj I I)|reflexivity|]. apply tx_history_nil.
Defined.
Lemma recovery_completes_witness : exists t', recover_pending_applies (Ok tt) TargetDirectory stopped = (Ok ["1"; "2"]%string, t') /\
  (exists l', Good l' t' /\ ar_remaining_changes <$> al_records l' = [1; 0] /\ pending l' = []) /\ or_state (tx_record t') = Applied.
Proof.
  destruct (recovery_completes two_pending stopped TargetDirectory sample_record false stopped_good eq_refl) as (t' & E & Hg & Hp & Hst).
  - exact found_listed.
  - vm_compute. reflexivity.
  - intros a [->|[->|Ha%elem_of_nil]%elem_of_cons]%elem_of_cons; [apply waiting_recoverable..|done].
  - exists t'. split; [exact E|]. split; [|exact (proj1 (Hst 1 eq_refl))]. exists (with_records two_pending (settle found (al_records two_pending))).
    exact (conj Hg (conj eq_refl Hp)).
Defined.
